(* ===== verification/_CoqProject ===== *)
-Q . S2P
Prelude.v
Errors.v
GoLib.v
Sha256.v
Envelope.v
Capacity.v
AuthLimiter.v
Rate.v
FileSystem.v
Disk.v
Utf8.v
Mailbox.v
Text.v
Base64.v
Password.v
Paths.v
SecretFiles.v
PrivateTree.v
Duration.v
Message.v
MessageFacts.v
Prepared.v
Users.v
Validation.v
Diagnostic.v
Client.v
ClientFacts.v
Netpolicy.v
Discovery.v
IpText.v
Config.v
ConfigFacts.v
Signing.v
WkdHash.v
DnsRecords.v
DnsFacts.v
PgpMime.v
PgpKeys.v
Wkd.v
Certs.v
Create.v
Publish.v
PublishFacts.v
ConnLimit.v
Rejection.v
Heap.v
Schedule.v
Queue.v
Rotation.v
Storage.v
Bounce.v
BodyReader.v
Send.v
SendFacts.v
Outcomes.v
Delivery.v
Dead.v
Add.v
Session.v
Submission.v
Dsn.v
Attempt.v
AttemptFacts.v
Run.v
Storable.v
Recovery.v
Open.v
Durability.v
Samples.v
SubmissionFacts.v
Encryption.v
AddFacts.v
Accepted.v
Load.v
RecoveryFacts.v
EndToEnd.v
Restart.v
Finished.v
AttemptSamples.v
Setup.v
