(* ===== verification/Prelude.v ===== *)
(** * outboxd: verification development (root)

    outboxd is an outbound mail server written in Go.  Authenticated clients submit
    messages over SMTP (src/internal/smtpd); a message is rewritten and checked
    (src/internal/message), signed and possibly encrypted, and accepted into a
    durable queue on disk (src/internal/queue over src/internal/disk); a deliverer
    (src/internal/deliver) takes due messages from the queue, finds the mail servers
    of each recipient's domain, transmits the message and settles the outcome with
    the queue: finished, retried later, buried as a dead letter, or reported to the
    sender by a delivery status notification.  A configuration (src/internal/config)
    is validated before any of them is built; DKIM keys (src/internal/sign) and the
    DNS records an operator publishes and checks (src/internal/records, check) follow
    from it; a second listener (src/internal/rejection) refuses replies.  OpenPGP
    (src/internal/openpgp) creates keys, signs, encrypts, discovers and publishes; the
    listeners' certificates are kept by src/internal/certs.  This library
    models these parts and proves what makes them correct.  It reads bottom up, in the
    order of _CoqProject.

    ** Files and the code they model

    - Shared: this file (machine integers, the state and error monad [ST] with its
      notations, the invariant combinators [keeps] and [triple], sums over maps, the
      hint database [outbox]); Errors.v (queue/errors.go: error trees with
      errors.Is); GoLib.v, Utf8.v, Text.v, Sha256.v, Base64.v, IpText.v and the parsing
      of durations in Duration.v (what the sources use of Go's library, executable).
    - Configuration: Config.v and ConfigFacts.v (config/limits.go, types.go,
      config.go, validate.go, domains.go, users.go, report_uri.go, defaults.go,
      runtime.go, spf.go, readiness.go, load.go after decoding), Create.v (load.go, save.go,
      config_file_linux.go), Paths.v (paths.go),
      SecretFiles.v (files_unix.go and the path checks of disk/), Password.v (passwd/passwd.go), and Setup.v, what
      serve.go and the constructors of smtpd, deliver and rejection build from it.
    - Identity: Signing.v (sign/sign.go); Certs.v (certs/); DnsRecords.v and DnsFacts.v
      (records/records.go, check/).
    - OpenPGP: PgpMime.v (openpgp/sign.go and the message of encrypt.go), PgpKeys.v
      (the keys of sign.go, encrypt.go and public.go), WkdHash.v (the names of
      publish.go, with SHA-1), Wkd.v (wkd.go, wkd_key.go, wkd_cache.go), Publish.v and
      PublishFacts.v (publish.go), Encryption.v (encrypt.go composed with smtpd/data.go),
      Create.v (create.go).
    - Addresses and messages: Mailbox.v (mailbox/mailbox.go); Message.v with
      MessageFacts.v and Prepared.v (message/message.go); Users.v (config/users.go,
      helpers.go).
    - Queue data: Envelope.v (queue/envelope.go, identity.go); Validation.v
      (validation.go); Capacity.v (capacity.go, spool.go).
    - Schedule: Heap.v and Schedule.v (schedule.go with container/heap), Rotation.v
      (its refinement of a map and its fairness).  [Queue.Scheduler] is the interface
      the queue is verified against; [Rotation.heapScheduler] discharges it.
    - Disk: FileSystem.v (the spool's file system and its crashes), Disk.v
      (disk/disk.go, secure_unix.go, sync_unix.go), PrivateTree.v (repair_unix.go and the
      tree validation of secure_unix.go).
    - Queue operations: Queue.v (queue.go, transitions.go), Storage.v (storage.go,
      body.go), BodyReader.v (the verifying reader of body.go), Delivery.v
      (delivery.go, quarantine.go), Dead.v (dead.go), Add.v (add.go), Dsn.v (dsn.go),
      Recovery.v (recovery.go), Open.v (open.go, prune.go, export.go).
    - Queue theorems: Durability.v, AddFacts.v, Accepted.v, Load.v, RecoveryFacts.v,
      EndToEnd.v, Restart.v, Finished.v; Samples.v has the concrete runs.
    - Submission: AuthLimiter.v (smtpd/limiter.go), Rate.v (rate.go), ConnLimit.v
      (connlimit.go, authdeadline.go, serve.go), Rejection.v (rejection/server.go), Session.v and Submission.v (session.go, login.go, data.go, smtpd.go),
      SubmissionFacts.v.
    - Delivery: Netpolicy.v (netpolicy/address.go), Discovery.v (deliver/discovery.go),
      Diagnostic.v (response.go), Client.v and ClientFacts.v (client.go, connect.go),
      Send.v, SendFacts.v and Outcomes.v (send.go, domain.go), Bounce.v (dsn.go),
      Attempt.v and AttemptFacts.v (attempt.go, outcome.go, limiter.go, admission.go, the
      worker of run.go), Run.v (the loop of run.go with its workers), Storable.v (delivery
      against queue validation), AttemptSamples.v (concrete attempts and runs of the loop).

    ** How state and effects are modelled

    A Go struct guarded by a mutex is a Record; a method is a function in [ST], its
    critical sections atomic; a method's error result is a [res].  The envelope
    pointer a method writes through is an envelope passed in and returned, on the
    error paths too.  The authentication limiter, whose code keeps pointers across
    map updates, has an explicit store of objects.  Interleavings are sequences of
    steps: histories of capacity, schedule, limiter, connection and session
    operations are lists of operations, and their theorems hold for every list.  The
    delivery loop, its workers and the wakes they owe are a transition system ([Run.runStep])
    whose steps interleave freely.

    The file system keeps, for every directory and every file, the visible content
    and the versions a crash may expose: an update adds a version, a successful sync
    leaves one.  A crash ([crash]) picks one version of each independently.  Partial
    (torn) file contents are not among the versions, and the two directories of a
    rename may survive independently of each other.  Every system call may fail,
    before or after its effect, as the [Environment] says.

    Outside the spool files are a [tree] from paths to nodes with permissions and links
    (SecretFiles.v).  Programs that change it ([Certs.prog]) take a list of fates, one for
    each change: done, failed with or without an effect, or crashed there; a theorem for
    every list covers every failure and every interruption between two changes.

    ** What the theorems show

    - Acceptance (EndToEnd, Accepted, Load, Restart, AddFacts): what AddContext
      reports is what survives every crash: success is durable, reads back exactly
      and is scheduled at the next start; a refusal never turns into a delivery.
    - Completion (Finished): a finished message is forgotten by the running queue and
      not delivered again after any crash; a stale worker's Finish is refused without effect; what
      an administrator deletes stays deleted, what is exported is the stored message.
    - Scheduling (Rotation): the two-level heap refines a map, nothing leaves early,
      owners are served in turn.
    - Accounting (Capacity, AuthLimiter, Rate, ConnLimit, AttemptFacts): counters are
      the sums they stand for (an address's in the limiter at most that sum, and exactly
      while no eviction takes the address a reservation works on), limits hold in every
      history, capacity is returned on every path, lock-outs are enforced until their end
      whatever calls come between, and no account outruns its rates.
    - Submission (Prepared, MessageFacts, SubmissionFacts): no header injection;
      only authenticated accounts submit, as themselves, to the accepted recipients;
      encryption goes to each recipient's own key.
    - Delivery (Discovery, Netpolicy, ClientFacts, Outcomes, Storable, BodyReader):
      only permitted addresses are dialled, the TLS policy is enforced, a recipient
      is sent only when a host accepted it and then the verified message, by its replies,
      and what an attempt leaves passes the queue's validation.
    - Configuration (Setup, ConfigFacts, Signing, SecretFiles, Password): what
      validation accepts is what the other parts assume of their limits and delays;
      every sender it lets a user use has a signing key, of the most specific domain;
      keys are never replaced and secrets are read only from private files below the
      data directory; a stored password hash accepts its password.
    - Delivery loop (Run, AttemptSamples): no wake-up is lost between the queue and the
      loop, capacity holds in every interleaving, a done context ends the loop, and then
      nothing is held or parked; a parked message can still wait for a free domain.
    - Serving and closing (ConnLimit, Rejection, Open, Diagnostic): a connection that does
      not log in ends in time, the submission server's Run returns with everything closed,
      the spool's lock outlives every operation, and a reply is read up to its bound.
    - Certificates (Certs): after any interrupted generations the files are recoverable
      and a run without failures completes them; a final file is never overwritten; only
      valid certificates of the host are served.
    - Files and keys (Create, PrivateTree): a saved configuration is the old or the new
      one, whole; it never names a created identity whose key files are missing; a
      repaired tree is private, and a tree that fails inspection is left as it was.
    - DNS (DnsFacts): publishing what the program prints passes its own checks, where
      report URIs and senders are plain; validation does not ensure that they are.
    - OpenPGP (PgpMime, PgpKeys, Encryption, WkdHash, Wkd, PublishFacts): the entity a
      receiver verifies is the one that was signed; a required recipient's message is
      queued only as a ciphertext to a key that names the recipient; discovery connects
      only to checked addresses of the recipient's domain; key names are the digest's
      groups of five bits; a publication is whole at its target or absent there, and what a
      failed one may leave is in its temporary directory.
    - Rejection (Rejection): no byte sequence gets the second listener to take
      message data, and every recipient is refused as configured.
    - Defects: [AuthLimiter.stale_ip_pointer_loses_count],
      [Outcomes.sent_overwritten], [AttemptSamples.long_reply_is_fatal],
      [Prepared.comment_spoofs_from], [Rate.oversized_never_taken],
      [Rate.idle_account_refilled], [DnsFacts.semicolon_breaks_dmarc],
      [PgpMime.paragraphs_not_signed] and [AttemptSamples.idle_domain_waits] are inputs on which the code does not do what it
      means to.

    ** Parameters

    encoding/json ([Storage.JsonCodec], with a round-trip law), the IDNA profile
    ([Mailbox.IdnaProfile]), net/mail ([Message.MailParser], [Users.AddressParser]),
    Unicode case tables ([Text.CaseTables], fixed on ASCII), net/url
    ([Config.UrlParser]), Argon2 ([Password.Argon2]), RSA and PEM ([Signing.Crypto]),
    float rounding ([Rate.Rounding], the IEEE 754 laws; [scaled] for the fractions of
    durations), the session's rate limiter ([Session.RateLimiter]), OpenPGP and DKIM in
    a session ([Session.DataIO]), the OpenPGP library ([PgpKeys.PgpLib],
    [Wkd.PacketLib], [Create.createWorld]), crypto/x509 and crypto/tls ([Certs.X509]),
    the YAML library ([Create.Yaml]), mime.ParseMediaType and quoted-printable ([PgpMime.MediaParser],
    [qpEncode]), the HTTP client and dialer of Wkd.v, the resolvers and the remote servers ([Send.Outside],
    [Client.Peer], [DnsRecords.CheckResolver]), error texts ([err_text]), clocks,
    contexts and randomness ([FileSystem.Environment], [Attempt.attemptWorld]).
    Assumptions about them are named: [Honest] (a failing call is not reported as a
    queue error), [Quiet] (no call fails), [peer_ok] (transport errors are not SMTP
    replies).

    ** Bounds and fuel

    Recursive removal and disk measurement recurse on the number of directories, the
    heap's up and down on the array's length, [scan] on the header's length,
    [copy_loop] on the unread bytes plus one ([BodyReader.copy_verified] shows that it
    never runs out), [rotateGroups] on the list, [FormatUint] has twenty digits, and
    [valid_front] drops at most the 200 bytes its input has.  A path has fewer parents
    than bytes, a multipart body fewer lines than bytes, MIME entities nest at most 33
    deep ([depthLevels]), and the encoder of wkdHash drains at most three groups a byte.

    ** Not modelled

    The SMTP library's server and its private reader (smtpd/compat.go), textproto, and
    the texts of debugging output.  Read-only opening of a queue.  File locks are calls that may fail.  Permission bits and
    symbolic links of the spool itself, and the Windows, BSD and Darwin variants of
    disk/ and windowsacl/, which are system calls.  The algorithms of cryptography and
    YAML, which are libraries.  The instructions printed around DNS records, and the
    commands (main.go and its siblings), which are argument parsing, process set-up and
    output around the modelled operations. *)

From Stdlib Require Export Ascii ZArith.
From stdpp Require Export base gmap strings list numbers fin_maps sorting.

(** ** Machine integers

    Go's [int] and [int64] are both 64-bit two's complement on the platforms
    outboxd ships for.  A value is a [Z] in the range [in64]; plain Go
    arithmetic wraps, which [wrap64] writes out. *)

Definition MaxInt64 : Z := 9223372036854775807.
Definition MinInt64 : Z := -9223372036854775808.
Definition MaxUint64 : Z := 18446744073709551615.

Definition in64 (z : Z) : Prop := (MinInt64 ≤ z ≤ MaxInt64)%Z.

Definition wrap64 (z : Z) : Z :=
  ((z - MinInt64) mod (MaxUint64 + 1) + MinInt64)%Z.

Lemma wrap64_id z : in64 z → wrap64 z = z.
Proof.
  unfold in64, wrap64, MinInt64, MaxInt64, MaxUint64. intros H.
  rewrite Z.mod_small; lia.
Qed.

Lemma wrap64_in64 z : in64 (wrap64 z).
Proof.
  unfold in64, wrap64, MinInt64, MaxInt64, MaxUint64.
  pose proof (Z.mod_pos_bound (z - -9223372036854775808)
                (18446744073709551615 + 1)). lia.
Qed.

(** Intermediate wrap-around does not show in the final result. *)
Lemma wrap64_sub_l a b : wrap64 (wrap64 a - b) = wrap64 (a - b).
Proof.
  unfold wrap64. f_equal.
  replace ((a - MinInt64) mod (MaxUint64 + 1) + MinInt64 - b - MinInt64)%Z
    with ((a - MinInt64) mod (MaxUint64 + 1) - b)%Z by lia.
  rewrite Zminus_mod_idemp_l. f_equal. lia.
Qed.

(** Solve a goal about 64-bit ranges after unfolding the constants. *)
Ltac lia64 :=
  unfold in64, MinInt64, MaxInt64, MaxUint64 in *; lia.

(** ** Go errors

    An error value is a tree: sentinels, operating-system error numbers and
    plain messages at the leaves, [fmt.Errorf] with one [%w] ([Wrap]) and
    [errors.Join] or two [%w] verbs ([Join]) as inner nodes, the queue's
    [*acceptanceUnknownError], the delivery client's [*SMTPError] and
    [net.DNSError].  The tree keeps
    exactly what [errors.Is] and [errors.AsType] inspect. *)

Inductive sentinel :=
  | ErrQueueFull
  | ErrInsufficientDisk
  | ErrSpoolFull
  | ErrInvalidID
  | ErrReadOnly
  | ErrQueueBusy
  | ErrQueueClosed
  | ErrIDConflict
  | ErrCleanup
  | ErrCorrupt
  | ErrAcceptanceUnknown
  | ErrNilEnvelope
  | ErrNotExist
  | ErrExist
  | ErrDSNSourceScanIncomplete
  | errOversized
  | ErrDataTooLarge
  | ErrMessageTooLarge
  | errNullMX
  | errNoSuchDomain
  | errSMTPUTF8Unsupported
  | err8BITMIMEUnsupported
  | errTLSRequired
  | errTLSFailed
  | errNoUsableIP
  | errPrivateDestination
  | errAttemptTimeout
  | errLifetime
  | errBodyTooShort
  | errBodyTooLong
  | errSMTPResponseTooLarge
  | ErrCanceled.

#[export] Instance sentinel_eq_dec : EqDecision sentinel.
Proof. solve_decision. Defined.

Inductive error :=
  | Sentinel (s : sentinel)
  | Errno (n : Z)
  | Message (m : string)
  | Wrap (m : string) (e : error)
  | Join (a b : error)
  | acceptanceUnknownError (cause : error)
  | SMTPError (code : Z) (enhanced message : string)
  | DNSError (IsNotFound : bool).

(** [Ok]/[Err] results of fallible operations. *)
Inductive res (A : Type) :=
  | Ok (a : A)
  | Err (e : error).
Arguments Ok {A} _.
Arguments Err {A} _.

Definition is_ok {A} (r : res A) : bool :=
  match r with Ok _ => true | Err _ => false end.

Definition res_bind {A B} (r : res A) (k : A → res B) : res B :=
  match r with Ok a => k a | Err e => Err e end.

Declare Scope outbox_scope.
Delimit Scope outbox_scope with outbox.
Open Scope outbox_scope.

(** [let? x := r in k]: return early with the error of [r]. *)
Notation "'let?' x ':=' r 'in' k" := (res_bind r (λ x, k))
  (at level 10, x pattern, r at level 100, k at level 200,
   format "'let?'  x  ':='  r  'in' '//' k") : outbox_scope.

(** [reject b with e in k]: the Go idiom [if b { return e }]. *)
Notation "'reject' b 'with' e 'in' k" :=
  (if b then Err e else k)
  (at level 10, b at level 100, e at level 100, k at level 200,
   format "'reject'  b  'with'  e  'in' '//' k") : outbox_scope.

(** ** State passing

    A Go function that reads and writes the state [S] and returns an [A]. *)

Definition ST (S A : Type) : Type := S → A * S.

Definition ret {S A} (a : A) : ST S A := λ s, (a, s).
Definition bind {S A B} (m : ST S A) (k : A → ST S B) : ST S B :=
  λ s, let '(a, s) := m s in k a s.

Lemma bind_assoc {S A B C} (m : ST S A) (f : A → ST S B) (g : B → ST S C) s :
  bind (bind m f) g s = bind m (λ a, bind (f a) g) s.
Proof. unfold bind. by destruct (m s). Qed.

Notation "'let!' x ':=' m 'in' k" := (bind m (λ x, k))
  (at level 10, x pattern, m at level 100, k at level 200,
   format "'let!'  x  ':='  m  'in' '//' k") : outbox_scope.

(** Go on with the value of an [Ok], return the error otherwise. *)
Definition try_ {S A B} (m : ST S (res A)) (k : A → ST S (res B)) : ST S (res B) :=
  bind m (λ r, match r with Ok a => k a | Err e => ret (Err e) end).

Notation "'try!' x ':=' m 'in' k" := (try_ m (λ x, k))
  (at level 10, x pattern, m at level 100, k at level 200,
   format "'try!'  x  ':='  m  'in' '//' k") : outbox_scope.

(** Runs of composed statements. *)
Lemma bind_inv {S A B} (m : ST S A) (k : A → ST S B) s r s' :
  bind m k s = (r, s') → ∃ a s1, m s = (a, s1) ∧ k a s1 = (r, s').
Proof. unfold bind. destruct (m s) as [a s1]. eauto. Qed.

Lemma try_inv {S A B} (m : ST S (res A)) (k : A → ST S (res B)) s r s' :
  try_ m k s = (r, s') →
  (∃ e, m s = (Err e, s') ∧ r = Err e) ∨ ∃ a s1, m s = (Ok a, s1) ∧ k a s1 = (r, s').
Proof.
  unfold try_, bind. destruct (m s) as [[a|e] s1]; [eauto|]. intros [= <- <-]. eauto.
Qed.

Definition modify {S} (f : S → S) : ST S unit := λ s, (tt, f s).
Definition gets {S A} (f : S → A) : ST S A := λ s, (f s, s).

(** A relation between the states before and after every run of [m]. *)
Definition keeps {S A} (R : S → S → Prop) (m : ST S A) : Prop := ∀ s, R s (m s).2.

Section keeps.
Context {S : Type} (R : S → S → Prop) `{!PreOrder R}.

Lemma keeps_ret {A} (a : A) : keeps R (ret a).
Proof. intros s. reflexivity. Qed.

Lemma keeps_bind {A B} (m : ST S A) (k : A → ST S B) :
  keeps R m → (∀ a, keeps R (k a)) → keeps R (bind m k).
Proof.
  intros Hm Hk s. unfold bind. specialize (Hm s). destruct (m s) as [a s'].
  etrans; [exact Hm|apply Hk].
Qed.

Lemma keeps_try {A B} (m : ST S (res A)) (k : A → ST S (res B)) :
  keeps R m → (∀ a, keeps R (k a)) → keeps R (try_ m k).
Proof. intros Hm Hk. apply keeps_bind; [done|]. intros [a|e]; [apply Hk|apply keeps_ret]. Qed.

Lemma keeps_gets {A} (f : S → A) : keeps R (gets f).
Proof. intros s. unfold gets. simpl. reflexivity. Qed.
End keeps.

(** Runs of [m] from states in [P]: the states are related by [R] and the result
    satisfies [Q]. *)
Definition triple {S A} (R : S → S → Prop) (P : S → Prop) (m : ST S A)
    (Q : A → S → Prop) : Prop := ∀ s, P s → R s (m s).2 ∧ Q (m s).1 (m s).2.

Section triple.
Context {S : Type} (R : S → S → Prop) `{!PreOrder R}.

Lemma triple_ret {A} (a : A) (P : S → Prop) (Q : A → S → Prop) :
  (∀ s, P s → Q a s) → triple R P (ret a) Q.
Proof. intros HQ s Hs. split; [reflexivity|by apply HQ]. Qed.

Lemma triple_bind {A B} (m : ST S A) (k : A → ST S B) P Q Q' :
  triple R P m Q → (∀ a, triple R (Q a) (k a) Q') → triple R P (bind m k) Q'.
Proof.
  intros Hm Hk s Hs. destruct (Hm s Hs) as [HR HQ]. unfold bind.
  destruct (m s) as [a s']. simpl in *. destruct (Hk a s' HQ) as [HR' HQ'].
  split; [by etrans|done].
Qed.

Lemma triple_try {A B} (m : ST S (res A)) (k : A → ST S (res B)) P Q Q' :
  triple R P m Q → (∀ a, triple R (Q (Ok a)) (k a) Q') →
  (∀ e s, Q (Err e) s → Q' (Err e) s) → triple R P (try_ m k) Q'.
Proof.
  intros Hm Hk He. unfold try_. eapply triple_bind; [exact Hm|].
  intros [a|e]; [apply Hk|]. apply triple_ret. intros s. apply He.
Qed.

Lemma triple_conseq {A} (m : ST S A) (P P' : S → Prop) (Q Q' : A → S → Prop) :
  triple R P m Q → (∀ s, P' s → P s) → (∀ a s, Q a s → Q' a s) → triple R P' m Q'.
Proof. intros Hm HP HQ s Hs. destruct (Hm s (HP s Hs)). auto. Qed.
End triple.

(** ** Sums over finite maps *)

Section map_sum.
Context {K A : Type} `{Countable K}.
Implicit Types (m : gmap K A) (f : K → A → Z).

Definition map_sum f m : Z := map_fold (λ k a acc, (f k a + acc)%Z) 0%Z m.

Lemma map_sum_empty f : map_sum f ∅ = 0%Z.
Proof. apply map_fold_empty. Qed.

Lemma map_sum_insert f m k a :
  m !! k = None → map_sum f (<[k:=a]> m) = (f k a + map_sum f m)%Z.
Proof.
  intros Hk. unfold map_sum. rewrite map_fold_insert_L; [done| |done].
  intros. lia.
Qed.

Lemma map_sum_delete f m k a :
  m !! k = Some a → map_sum f (delete k m) = (map_sum f m - f k a)%Z.
Proof.
  intros Hk. rewrite <-(insert_delete_id m k a Hk) at 2.
  rewrite map_sum_insert by apply lookup_delete_eq. lia.
Qed.

Lemma map_sum_update f m k a b :
  m !! k = Some a →
  map_sum f (<[k:=b]> m) = (map_sum f m - f k a + f k b)%Z.
Proof.
  intros Hk. rewrite <-insert_delete_eq.
  rewrite map_sum_insert by apply lookup_delete_eq.
  rewrite (map_sum_delete f m k a Hk). lia.
Qed.

Lemma map_sum_ext f g m :
  (∀ k a, m !! k = Some a → f k a = g k a) → map_sum f m = map_sum g m.
Proof.
  induction m as [|k a m Hk IH] using map_ind; intros Hfg;
    [by rewrite !map_sum_empty|].
  rewrite !map_sum_insert by done.
  rewrite (Hfg k a) by apply lookup_insert_eq.
  rewrite IH; [done|]. intros j b Hj. apply Hfg.
  rewrite lookup_insert_ne; [done|]. intros ->. congruence.
Qed.

Lemma map_sum_le f g m :
  (∀ k a, m !! k = Some a → (f k a ≤ g k a)%Z) →
  (map_sum f m ≤ map_sum g m)%Z.
Proof.
  induction m as [|k a m Hk IH] using map_ind; intros Hfg;
    [by rewrite !map_sum_empty|].
  rewrite !map_sum_insert by done.
  assert (f k a ≤ g k a)%Z by (apply Hfg, lookup_insert_eq).
  assert (map_sum f m ≤ map_sum g m)%Z; [|lia].
  apply IH. intros j b Hj. apply Hfg.
  rewrite lookup_insert_ne; [done|]. intros ->. congruence.
Qed.

Lemma map_sum_zero m : map_sum (λ _ _, 0%Z) m = 0%Z.
Proof.
  induction m as [|k a m Hk IH] using map_ind; [apply map_sum_empty|].
  rewrite map_sum_insert by done. lia.
Qed.

Lemma map_sum_nonneg f m :
  (∀ k a, m !! k = Some a → (0 ≤ f k a)%Z) → (0 ≤ map_sum f m)%Z.
Proof. intros Hf. rewrite <-(map_sum_zero m). by apply map_sum_le. Qed.

Lemma map_sum_lookup_le f m k a :
  (∀ k a, m !! k = Some a → (0 ≤ f k a)%Z) →
  m !! k = Some a → (f k a ≤ map_sum f m)%Z.
Proof.
  intros Hf Hk. pose proof (map_sum_delete f m k a Hk) as Hd.
  assert (0 ≤ map_sum f (delete k m))%Z; [|lia].
  apply map_sum_nonneg. intros j b [_ Hj]%lookup_delete_Some. eauto.
Qed.

Lemma map_sum_filter f (P : K * A → Prop) `{∀ x, Decision (P x)} m :
  map_sum f (filter P m) = map_sum (λ k a, if decide (P (k, a)) then f k a else 0%Z) m.
Proof.
  induction m as [|k a m Hk IH] using map_ind.
  { by rewrite map_filter_empty, !map_sum_empty. }
  rewrite (map_sum_insert _ m) by done. destruct (decide (P (k, a))).
  - rewrite map_filter_insert_True by done. rewrite map_sum_insert; [by rewrite IH|].
    apply map_lookup_filter_None. by left.
  - rewrite map_filter_insert_False by done. by rewrite delete_id, IH.
Qed.

Lemma map_sum_size m : map_sum (λ _ _, 1%Z) m = Z.of_nat (size m).
Proof.
  induction m as [|k a m Hk IH] using map_ind; [done|].
  rewrite map_sum_insert, map_size_insert_None by done. lia.
Qed.
End map_sum.

(** ** Sums over lists *)

Section zsum.
Context {A : Type}.
Implicit Types (f g : A → Z) (l : list A).

Definition zsum f l : Z := foldr (λ a acc, (f a + acc)%Z) 0%Z l.

Lemma zsum_app f l k : zsum f (l ++ k) = (zsum f l + zsum f k)%Z.
Proof. induction l; simpl; lia. Qed.

Lemma zsum_nonneg f l : (∀ a, a ∈ l → (0 ≤ f a)%Z) → (0 ≤ zsum f l)%Z.
Proof.
  induction l as [|a l IH]; intros Hf; simpl; [lia|].
  assert (0 ≤ f a)%Z by (apply Hf; left).
  assert (0 ≤ zsum f l)%Z by (apply IH; intros b Hb; apply Hf; by right). lia.
Qed.

Lemma zsum_le f g l :
  (∀ a, a ∈ l → (f a ≤ g a)%Z) → (zsum f l ≤ zsum g l)%Z.
Proof.
  induction l as [|a l IH]; intros Hfg; simpl; [lia|].
  assert (f a ≤ g a)%Z by (apply Hfg; left).
  assert (zsum f l ≤ zsum g l)%Z by (apply IH; intros b Hb; apply Hfg; by right). lia.
Qed.

Lemma zsum_elem_le f l a :
  (∀ b, b ∈ l → (0 ≤ f b)%Z) → a ∈ l → (f a ≤ zsum f l)%Z.
Proof.
  intros Hf (l1 & l2 & ->)%list_elem_of_split. rewrite zsum_app. simpl.
  assert (0 ≤ zsum f l1)%Z by (apply zsum_nonneg; set_solver).
  assert (0 ≤ zsum f l2)%Z by (apply zsum_nonneg; set_solver). lia.
Qed.

#[export] Instance zsum_proper f : Proper ((≡ₚ) ==> (=)) (zsum f).
Proof. intros l k Hp. induction Hp; simpl; lia. Qed.
End zsum.

(** ** Loops over a list *)

Lemma fold_left_inv {S A} (P : S → Prop) (f : S → A → S) (l : list A) (s : S) :
  (∀ s a, a ∈ l → P s → P (f s a)) → P s → P (fold_left f l s).
Proof.
  revert s. induction l as [|a l IH]; intros s Hf Hs; [done|]. simpl.
  apply IH; [|by apply Hf; [left|]]. intros s' b Hb. apply Hf. by right.
Qed.

(** A loop that establishes [Q] for the element it visits and keeps it for the
    elements visited before. *)
Lemma fold_left_visits {S A} (P : S → Prop) (Q : A → S → Prop) (f : S → A → S)
    (l : list A) (s : S) :
  (∀ s a, a ∈ l → P s → P (f s a) ∧ Q a (f s a)) →
  (∀ s a b, a ∈ l → P s → Q b s → Q b (f s a)) →
  P s → P (fold_left f l s) ∧ ∀ a, a ∈ l → Q a (fold_left f l s).
Proof.
  intros Hf Hq. revert s.
  assert (Hgen : ∀ k s, (∀ a, a ∈ k → a ∈ l) → P s →
            P (fold_left f k s) ∧ (∀ a, a ∈ k → Q a (fold_left f k s)) ∧
            ∀ b, Q b s → Q b (fold_left f k s)).
  { induction k as [|a k IH]; intros s Hk Hs; simpl; [set_solver|].
    assert (Ha : a ∈ l) by (apply Hk; left).
    destruct (Hf s a Ha Hs) as [Hs' Hqa].
    destruct (IH (f s a)) as (HP & HQ & Hkeep); [set_solver|done|].
    split_and!; [done| |by eauto].
    intros b Hb. apply elem_of_cons in Hb as [->|Hb]; eauto. }
  intros s Hs. destruct (Hgen l s) as (? & ? & _); auto.
Qed.

(** ** Automation *)

Create HintDb outbox discriminated.

(** Split every Go-level [if]/[match] of the goal or of a hypothesis. *)
Ltac split_code :=
  repeat (case_match; simplify_eq/=; try done).

(** Walk through the statements of a state-passing function; what a statement
    keeps is found by [auto]. *)
Ltac keep :=
  repeat first
    [ match goal with |- PreOrder _ => apply _ end
    | apply keeps_ret | apply keeps_gets | solve [auto]
    | apply keeps_try | apply keeps_bind | match goal with |- ∀ _, _ => intros ? end
    | match goal with |- keeps _ (match ?x with _ => _ end) => destruct x end
    | match goal with |- keeps _ (if ?x then _ else _) => destruct x end ].

(** Reflect the boolean comparisons of [Z] produced by the code's guards. *)
Ltac zbool :=
  repeat match goal with
  | H : (_ && _) = true |- _ => apply andb_true_iff in H as [? ?]
  | H : (_ || _) = false |- _ => apply orb_false_iff in H as [? ?]
  | H : negb _ = true |- _ => apply negb_true_iff in H
  | H : negb _ = false |- _ => apply negb_false_iff in H
  | H : (_ <? _)%Z = true |- _ => apply Z.ltb_lt in H
  | H : (_ <? _)%Z = false |- _ => apply Z.ltb_ge in H
  | H : (_ <=? _)%Z = true |- _ => apply Z.leb_le in H
  | H : (_ <=? _)%Z = false |- _ => apply Z.leb_gt in H
  | H : (_ =? _)%Z = true |- _ => apply Z.eqb_eq in H
  | H : (_ =? _)%Z = false |- _ => apply Z.eqb_neq in H
  | H : bool_decide _ = true |- _ => apply bool_decide_eq_true_1 in H
  | H : bool_decide _ = false |- _ => apply bool_decide_eq_false_1 in H
  end.
