(* ===== verification/Errors.v ===== *)
(** * Queue error values (src/internal/queue/errors.go)

    [errors.Is] and [errors.AsType] walk an error tree depth first; the
    predicates of errors.go are defined on top of those walks. *)

From S2P Require Import Prelude.
Open Scope Z_scope.

(** [syscall.Errno.Is]: ENOENT matches [os.ErrNotExist], EEXIST and ENOTEMPTY
    match [os.ErrExist]. *)
Definition errno_is (n : Z) (t : sentinel) : bool :=
  match t with
  | ErrNotExist => n =? 2
  | ErrExist => (n =? 17) || (n =? 39)
  | _ => false
  end.

(** [errors.Is(err, target)] for a sentinel target. *)
Fixpoint errors_Is (e : error) (t : sentinel) : bool :=
  match e with
  | Sentinel s => bool_decide (s = t)
  | Errno n => errno_is n t
  | Message _ | SMTPError _ _ _ | DNSError _ => false
  | Wrap _ e => errors_Is e t
  | Join a b => errors_Is a t || errors_Is b t
  | acceptanceUnknownError cause =>
      bool_decide (ErrAcceptanceUnknown = t) || errors_Is cause t
  end.

(** [errors.Is] on a possibly nil error. *)
Definition errors_Is_opt (e : option error) (t : sentinel) : bool :=
  match e with Some e => errors_Is e t | None => false end.

(** [errors.AsType[syscall.Errno](err)]. *)
Fixpoint errors_AsErrno (e : error) : option Z :=
  match e with
  | Errno n => Some n
  | Sentinel _ | Message _ | SMTPError _ _ _ | DNSError _ => None
  | Wrap _ e => errors_AsErrno e
  | Join a b =>
      match errors_AsErrno a with Some n => Some n | None => errors_AsErrno b end
  | acceptanceUnknownError cause => errors_AsErrno cause
  end.

(** [errors.AsType[*acceptanceUnknownError](err)]. *)
Fixpoint errors_AsUnknown (e : error) : option error :=
  match e with
  | acceptanceUnknownError cause => Some cause
  | Sentinel _ | Errno _ | Message _ | SMTPError _ _ _ | DNSError _ => None
  | Wrap _ e => errors_AsUnknown e
  | Join a b =>
      match errors_AsUnknown a with
      | Some c => Some c
      | None => errors_AsUnknown b
      end
  end.

(** [errors.Join] of two possibly nil errors: nil arguments are dropped. *)
Definition errors_Join (a b : option error) : option error :=
  match a, b with
  | Some a, Some b => Some (Join a b)
  | Some a, None => Some a
  | None, b => b
  end.

Definition IsCorruption (e : error) : bool := errors_Is e ErrCorrupt.

Definition IsAcceptanceUnknown (e : error) : bool :=
  errors_Is e ErrAcceptanceUnknown.

Definition IsStoragePressure (e : error) : bool :=
  if errors_Is e ErrSpoolFull || errors_Is e ErrInsufficientDisk then true
  else
    match errors_AsErrno e with
    | Some errno => (errno =? 28) || (errno =? 122) || (errno =? 112)
    | None => false
    end.

Definition acceptanceUnknown (cause : error) : error :=
  acceptanceUnknownError cause.

Definition definiteAcceptanceCause (e : error) : error :=
  match errors_AsUnknown e with Some cause => cause | None => e end.

Definition corruptionf (m : string) : error := Wrap m (Sentinel ErrCorrupt).

(** An error built only from [fmt.Errorf], [errors.Join] and leaves, with no
    acceptance-unknown node: what every Add error but those of [acceptAdd] is. *)
Fixpoint plain_error (e : error) : bool :=
  match e with
  | Sentinel s => negb (bool_decide (s = ErrAcceptanceUnknown))
  | Errno _ | Message _ | SMTPError _ _ _ | DNSError _ => true
  | Wrap _ e => plain_error e
  | Join a b => plain_error a && plain_error b
  | acceptanceUnknownError _ => false
  end.

Lemma plain_error_not_unknown e :
  plain_error e = true → IsAcceptanceUnknown e = false.
Proof.
  unfold IsAcceptanceUnknown.
  induction e as [s|n|m|m e IH|a IHa b IHb|c IH| |]; simpl; intros H; try done.
  - destruct (decide (s = ErrAcceptanceUnknown)); by case_bool_decide.
  - auto.
  - apply andb_true_iff in H as [Ha Hb]. by rewrite IHa, IHb.
Qed.

Lemma errors_Is_Join a b t :
  errors_Is_opt (errors_Join a b) t = errors_Is_opt a t || errors_Is_opt b t.
Proof. destruct a, b; simpl; [done| |done|done]. by rewrite orb_false_r. Qed.

Lemma definite_plain c :
  plain_error c = true →
  plain_error (definiteAcceptanceCause (acceptanceUnknown c)) = true.
Proof. done. Qed.
