(* ===== verification/GoLib.v ===== *)
(** * The parts of Go's standard library the sources use

    Go strings and byte slices are byte sequences: both are [string] here, one
    [ascii] per byte.  This file has the [strings], [path/filepath],
    [encoding/hex], [strconv] and [crypto/sha256] functions the modelled code
    calls, as executable definitions, with the lemmas the components share. *)

From S2P Require Import Prelude.
Open Scope Z_scope.

(** ** Bytes *)

Definition byte_val (c : ascii) : Z := Z.of_N (Ascii.N_of_ascii c).

Definition chr (z : Z) : ascii := Ascii.ascii_of_N (Z.to_N z).

Definition str_len (s : string) : Z := Z.of_nat (String.length s).

Definition str_list (s : string) : list ascii := String.list_ascii_of_string s.

Definition of_list (l : list ascii) : string := String.string_of_list_ascii l.

Lemma byte_val_range c : 0 ≤ byte_val c < 256.
Proof.
  unfold byte_val. pose proof (Ascii.N_ascii_bounded c). lia.
Qed.

Lemma str_list_of_list l : str_list (of_list l) = l.
Proof. apply String.list_ascii_of_string_of_list_ascii. Qed.

Lemma of_list_str_list s : of_list (str_list s) = s.
Proof. apply String.string_of_list_ascii_of_string. Qed.

Lemma str_list_app s t : str_list (s +:+ t) = str_list s ++ str_list t.
Proof.
  unfold str_list. induction s as [|c s IH]; simpl; [done|]. by rewrite IH.
Qed.

Lemma length_str_list s : length (str_list s) = String.length s.
Proof. unfold str_list. induction s as [|c s IH]; simpl; congruence. Qed.

Lemma str_len_list s : str_len s = Z.of_nat (length (str_list s)).
Proof. unfold str_len. by rewrite length_str_list. Qed.

Lemma str_len_nonneg s : 0 ≤ str_len s.
Proof. unfold str_len. lia. Qed.

Lemma str_list_inj s t : str_list s = str_list t → s = t.
Proof. intros H. by rewrite <-(of_list_str_list s), H, of_list_str_list. Qed.

(** ** Character classes *)

Definition between (lo hi : Z) (c : ascii) : bool :=
  (lo <=? byte_val c) && (byte_val c <=? hi).

Definition is_digit (c : ascii) : bool := between 48 57 c.
Definition is_upper (c : ascii) : bool := between 65 90 c.
Definition is_lower (c : ascii) : bool := between 97 122 c.
Definition is_alnum (c : ascii) : bool := is_upper c || is_lower c || is_digit c.

Definition is_char (z : Z) (c : ascii) : bool := byte_val c =? z.

(** [strings.Contains(s, string(b))] for one byte. *)
Definition contains_byte (b : Z) (s : string) : bool :=
  existsb (is_char b) (str_list s).

(** ** [strings] *)

Fixpoint is_prefix (p l : list ascii) : bool :=
  match p, l with
  | [], _ => true
  | a :: p, b :: l => bool_decide (a = b) && is_prefix p l
  | _ :: _, [] => false
  end.

Definition HasPrefix (s p : string) : bool := is_prefix (str_list p) (str_list s).

Definition HasSuffix (s p : string) : bool :=
  is_prefix (rev (str_list p)) (rev (str_list s)).

(** [strings.Index(s, sub)] on byte lists: the first position. *)
Fixpoint index_list (sub l : list ascii) : option nat :=
  if is_prefix sub l then Some 0%nat
  else match l with
       | [] => None
       | _ :: l => S <$> index_list sub l
       end.

Definition Contains (s sub : string) : bool :=
  bool_decide (is_Some (index_list (str_list sub) (str_list s))).

(** [strings.LastIndexByte]: -1 when absent. *)
Fixpoint last_index (b : Z) (l : list ascii) : option nat :=
  match l with
  | [] => None
  | c :: l =>
      match last_index b l with
      | Some i => Some (S i)
      | None => if is_char b c then Some 0%nat else None
      end
  end.

Definition LastIndexByte (s : string) (b : Z) : Z :=
  match last_index b (str_list s) with Some i => Z.of_nat i | None => -1 end.

(** [s[i:]] and [s[:i]] for an in-range [i]. *)
Definition str_drop (i : nat) (s : string) : string := of_list (drop i (str_list s)).
Definition str_take (i : nat) (s : string) : string := of_list (take i (str_list s)).

(** [strings.Split(s, sep)] for a one-byte separator. *)
Fixpoint split_list (b : Z) (l : list ascii) : list (list ascii) :=
  match l with
  | [] => [[]]
  | c :: l =>
      if is_char b c then [] :: split_list b l
      else match split_list b l with
           | [] => [[c]]
           | w :: ws => (c :: w) :: ws
           end
  end.

Definition Split (s : string) (b : Z) : list string :=
  of_list <$> split_list b (str_list s).

(** ** [path/filepath] on Unix *)

Fixpoint drop_while (p : ascii → bool) (l : list ascii) : list ascii :=
  match l with
  | [] => []
  | c :: l' => if p c then drop_while p l' else l
  end.

(** [filepath.Base]. *)
Definition filepath_Base (path : string) : string :=
  let l := str_list path in
  match l with
  | [] => "."
  | _ =>
      let r := drop_while (is_char 47) (rev l) in
      let base :=
        match last_index 47 (rev r) with
        | Some i => drop (S i) (rev r)
        | None => rev r
        end in
      match base with [] => "/" | _ => of_list base end
  end.

Definition filepath_IsAbs (path : string) : bool := HasPrefix path "/".

(** [filepath.Clean]: empty and [.] elements vanish, [..] removes the
    element before it (kept at the front of a relative path). *)
Fixpoint clean_elems (abs : bool) (stack elems : list string) : list string :=
  match elems with
  | [] => rev stack
  | e :: elems =>
      if bool_decide (e = "") || bool_decide (e = ".") then
        clean_elems abs stack elems
      else if bool_decide (e = "..") then
        match stack with
        | [] => clean_elems abs (if abs then [] else [".."]) elems
        | top :: rest =>
            if bool_decide (top = "..") then clean_elems abs (".." :: stack) elems
            else clean_elems abs rest elems
        end
      else clean_elems abs (e :: stack) elems
  end.

Definition join_with (sep : string) (l : list string) : string :=
  match l with
  | [] => ""
  | x :: l => fold_left (λ acc e, acc +:+ sep +:+ e) l x
  end.

Definition filepath_Clean (path : string) : string :=
  let abs := filepath_IsAbs path in
  let body := join_with "/" (clean_elems abs [] (Split path 47)) in
  if abs then "/" +:+ body
  else if bool_decide (body = "") then "." else body.

(** ** [encoding/hex] *)

Definition hex_digit (z : Z) : ascii :=
  if z <? 10 then chr (48 + z) else chr (87 + z).

Definition hex_value (c : ascii) : option Z :=
  if is_digit c then Some (byte_val c - 48)
  else if between 97 102 c then Some (byte_val c - 87)
  else if between 65 70 c then Some (byte_val c - 55)
  else None.

Fixpoint hex_encode (l : list ascii) : list ascii :=
  match l with
  | [] => []
  | c :: l =>
      hex_digit (byte_val c / 16) :: hex_digit (byte_val c mod 16) :: hex_encode l
  end.

Fixpoint hex_decode (l : list ascii) : option (list ascii) :=
  match l with
  | [] => Some []
  | a :: b :: l =>
      x ← hex_value a; y ← hex_value b; r ← hex_decode l;
      Some (chr (16 * x + y) :: r)
  | [_] => None
  end.

Definition EncodeToString (s : string) : string := of_list (hex_encode (str_list s)).
Definition DecodeString (s : string) : option string :=
  of_list <$> hex_decode (str_list s).

(** ** [strconv.FormatUint] (decimal) *)

Fixpoint dec_digits (fuel : nat) (z : Z) (acc : list ascii) : list ascii :=
  match fuel with
  | O => acc
  | S fuel =>
      let acc := chr (48 + z mod 10) :: acc in
      if z / 10 =? 0 then acc else dec_digits fuel (z / 10) acc
  end.

(** Twenty digits hold every unsigned 64-bit value. *)
Definition FormatUint (z : Z) : string := of_list (dec_digits 20 z []).

(** ** Lemmas *)

Lemma is_char_true b c : is_char b c = true ↔ byte_val c = b.
Proof. unfold is_char. apply Z.eqb_eq. Qed.

Lemma contains_byte_false b s :
  contains_byte b s = false ↔ ∀ c, c ∈ str_list s → byte_val c ≠ b.
Proof.
  unfold contains_byte. split.
  - intros H c Hc Hb. assert (existsb (is_char b) (str_list s) = true); [|congruence].
    apply existsb_exists. exists c. split; [by apply list_elem_of_In|].
    by apply is_char_true.
  - intros H. apply not_true_is_false. intros [c [Hin Hc]]%existsb_exists.
    apply list_elem_of_In in Hin. apply is_char_true in Hc. by apply (H c).
Qed.

Lemma split_list_none b l :
  (∀ c, c ∈ l → byte_val c ≠ b) → split_list b l = [l].
Proof.
  induction l as [|c l IH]; simpl; intros H; [done|].
  destruct (is_char b c) eqn:E.
  - apply is_char_true in E. exfalso. apply (H c); [left|done].
  - rewrite IH; [done|]. intros d Hd. apply H. by right.
Qed.

Lemma last_index_none b l :
  (∀ c, c ∈ l → byte_val c ≠ b) → last_index b l = None.
Proof.
  induction l as [|c l IH]; simpl; intros H; [done|].
  rewrite IH by (intros d Hd; apply H; by right).
  destruct (is_char b c) eqn:E; [|done].
  apply is_char_true in E. exfalso. apply (H c); [left|done].
Qed.

Lemma last_index_Some b l i :
  last_index b l = Some i →
  ∃ c, l !! i = Some c ∧ byte_val c = b ∧ ∀ j d, l !! j = Some d → byte_val d = b → (j ≤ i)%nat.
Proof.
  revert i. induction l as [|c l IH]; simpl; intros i H; [done|].
  destruct (last_index b l) as [k|] eqn:E.
  - simplify_eq. destruct (IH _ eq_refl) as (d & Hd & Hb & Hmax).
    exists d. split_and!; [done|done|]. intros [|j] e He Hbe; [lia|].
    simpl in He. apply Hmax in He; [lia|done].
  - destruct (is_char b c) eqn:Ec; [|done]. simplify_eq.
    exists c. apply is_char_true in Ec. split_and!; [done|done|].
    intros [|j] e He Hbe; [lia|]. simpl in He. exfalso.
    clear -E He Hbe. revert j He. induction l as [|a l IHl]; intros j He; [done|].
    simpl in E. destruct (last_index b l); [done|].
    destruct (is_char b a) eqn:Ea; [done|].
    destruct j; simpl in He; [|by apply (IHl eq_refl j)].
    simplify_eq. unfold is_char in Ea. lia.
Qed.

Lemma filepath_Base_plain s :
  s ≠ "" → contains_byte 47 s = false → filepath_Base s = s.
Proof.
  intros Hne Hs. rewrite contains_byte_false in Hs. unfold filepath_Base.
  destruct (str_list s) as [|c l] eqn:El.
  { destruct s; [done|discriminate El]. }
  assert (Hdw : drop_while (is_char 47) (rev (c :: l)) = rev (c :: l)).
  { destruct (rev (c :: l)) as [|a r] eqn:Er; [done|]. simpl.
    destruct (is_char 47 a) eqn:Ea; [|done].
    apply is_char_true in Ea. exfalso. apply (Hs a); [|done].
    apply list_elem_of_In, in_rev. rewrite Er. by left. }
  rewrite Hdw, rev_involutive, (last_index_none 47) by done.
  rewrite <-El. apply of_list_str_list.
Qed.

Lemma filepath_IsAbs_plain s : contains_byte 47 s = false → filepath_IsAbs s = false.
Proof.
  intros Hs. rewrite contains_byte_false in Hs.
  unfold filepath_IsAbs, HasPrefix. simpl.
  destruct (str_list s) as [|c l] eqn:El; simpl; [done|].
  case_bool_decide as Hc; [|done]. subst c. exfalso. apply (Hs "/"%char); [left|done].
Qed.

Lemma filepath_Clean_plain s :
  s ≠ "" → s ≠ "." → s ≠ ".." → contains_byte 47 s = false → filepath_Clean s = s.
Proof.
  intros H1 H2 H3 Hs. unfold filepath_Clean. rewrite filepath_IsAbs_plain by done.
  rewrite contains_byte_false in Hs. unfold Split. rewrite split_list_none by done.
  simpl. rewrite of_list_str_list.
  rewrite (bool_decide_eq_false_2 (s = "")), (bool_decide_eq_false_2 (s = ".")),
    (bool_decide_eq_false_2 (s = "..")) by done. simpl.
  by rewrite (bool_decide_eq_false_2 (s = "")).
Qed.

Lemma chr_byte_val c : chr (byte_val c) = c.
Proof. unfold chr, byte_val. rewrite N2Z.id. apply Ascii.ascii_N_embedding. Qed.

Lemma byte_val_chr z : 0 ≤ z < 256 → byte_val (chr z) = z.
Proof.
  intros H. unfold byte_val, chr. rewrite Ascii.N_ascii_embedding; lia.
Qed.

Lemma byte_val_inj c d : byte_val c = byte_val d → c = d.
Proof. intros H. by rewrite <-(chr_byte_val c), H, chr_byte_val. Qed.

Lemma hex_value_digit z : 0 ≤ z < 16 → hex_value (hex_digit z) = Some z.
Proof.
  intros Hz.
  assert (Hall : forallb (λ z, bool_decide (hex_value (hex_digit z) = Some z))
            (Z.of_nat <$> seq 0 16) = true) by reflexivity.
  rewrite forallb_forall in Hall. specialize (Hall z).
  apply bool_decide_eq_true_1 in Hall; [done|].
  apply list_elem_of_In, list_elem_of_fmap. exists (Z.to_nat z).
  split; [lia|]. apply list_elem_of_In, in_seq. lia.
Qed.

Lemma hex_decode_cons a b l x y r :
  hex_value a = Some x → hex_value b = Some y → hex_decode l = Some r →
  hex_decode (a :: b :: l) = Some (chr (16 * x + y) :: r).
Proof. intros H1 H2 H3. simpl. by rewrite H1, H2, H3. Qed.

Lemma hex_decode_encode l : hex_decode (hex_encode l) = Some l.
Proof.
  induction l as [|c l IH]; [done|].
  pose proof (byte_val_range c). pose proof (Z.mod_pos_bound (byte_val c) 16).
  simpl hex_encode. erewrite hex_decode_cons; [|apply hex_value_digit..|exact IH].
  - by rewrite <-Z.div_mod, chr_byte_val by lia.
  - split; [apply Z.div_pos; lia|apply Z.div_lt_upper_bound; lia].
  - lia.
Qed.

Lemma DecodeString_EncodeToString s : DecodeString (EncodeToString s) = Some s.
Proof.
  unfold DecodeString, EncodeToString. rewrite str_list_of_list, hex_decode_encode.
  simpl. by rewrite of_list_str_list.
Qed.

Lemma str_len_EncodeToString s : str_len (EncodeToString s) = 2 * str_len s.
Proof.
  rewrite !str_len_list. unfold EncodeToString. rewrite str_list_of_list.
  induction (str_list s) as [|c l IH]; simpl; lia.
Qed.

(** The encoded text has only lower-case hexadecimal digits. *)
Definition is_hex_lower (c : ascii) : bool := is_digit c || between 97 102 c.

Lemma hex_digit_lower z : 0 ≤ z < 16 → is_hex_lower (hex_digit z) = true.
Proof.
  intros Hz.
  assert (Hall : forallb (λ z, is_hex_lower (hex_digit z)) (Z.of_nat <$> seq 0 16) = true)
    by reflexivity.
  rewrite forallb_forall in Hall. apply Hall.
  apply list_elem_of_In, list_elem_of_fmap. exists (Z.to_nat z).
  split; [lia|]. apply list_elem_of_In, in_seq. lia.
Qed.

Lemma EncodeToString_lower s : forallb is_hex_lower (str_list (EncodeToString s)) = true.
Proof.
  unfold EncodeToString. rewrite str_list_of_list.
  induction (str_list s) as [|c l IH]; [done|]. simpl.
  pose proof (byte_val_range c).
  rewrite !hex_digit_lower; [done| |].
  - apply Z.mod_pos_bound. lia.
  - split; [apply Z.div_pos; lia|apply Z.div_lt_upper_bound; lia].
Qed.
