(* ===== verification/Sha256.v ===== *)
(** * SHA-256 (crypto/sha256)

    The digest function the queue stores with each body and derives DSN
    identifiers from, as an executable definition over byte strings.  It is
    checked on the standard's test vectors by evaluation. *)

From S2P Require Import Prelude GoLib.
Open Scope Z_scope.

Definition w32 (z : Z) : Z := Z.land z 4294967295.

Definition rotr (x n : Z) : Z :=
  Z.lor (Z.shiftr x n) (w32 (Z.shiftl x (32 - n))).

Definition round_constants : list Z :=
  [1116352408; 1899447441; 3049323471; 3921009573; 961987163; 1508970993;
   2453635748; 2870763221; 3624381080; 310598401; 607225278; 1426881987;
   1925078388; 2162078206; 2614888103; 3248222580; 3835390401; 4022224774;
   264347078; 604807628; 770255983; 1249150122; 1555081692; 1996064986;
   2554220882; 2821834349; 2952996808; 3210313671; 3336571891; 3584528711;
   113926993; 338241895; 666307205; 773529912; 1294757372; 1396182291;
   1695183700; 1986661051; 2177026350; 2456956037; 2730485921; 2820302411;
   3259730800; 3345764771; 3516065817; 3600352804; 4094571909; 275423344;
   430227734; 506948616; 659060556; 883997877; 958139571; 1322822218;
   1537002063; 1747873779; 1955562222; 2024104815; 2227730452; 2361852424;
   2428436474; 2756734187; 3204031479; 3329325298].

Definition initial_hash : list Z :=
  [1779033703; 3144134277; 1013904242; 2773480762; 1359893119; 2600822924;
   528734635; 1541459225].

(** Big-endian byte list of [n] bytes. *)
Fixpoint be_bytes (n : nat) (z : Z) : list Z :=
  match n with
  | O => []
  | S n => Z.land (Z.shiftr z (8 * Z.of_nat n)) 255 :: be_bytes n z
  end.

Definition pad (msg : list Z) : list Z :=
  let len := Z.of_nat (length msg) in
  msg ++ [128] ++ replicate (Z.to_nat ((55 - len) mod 64)) 0 ++ be_bytes 8 (8 * len).

Fixpoint words (l : list Z) : list Z :=
  match l with
  | a :: b :: c :: d :: l =>
      (Z.shiftl a 24 + Z.shiftl b 16 + Z.shiftl c 8 + d) :: words l
  | _ => []
  end.

(** The message schedule, newest word first. *)
Fixpoint extend (n : nat) (w : list Z) : list Z :=
  match n with
  | O => w
  | S n =>
      let w15 := nth 14 w 0 in
      let w2 := nth 1 w 0 in
      let s0 := Z.lxor (Z.lxor (rotr w15 7) (rotr w15 18)) (Z.shiftr w15 3) in
      let s1 := Z.lxor (Z.lxor (rotr w2 17) (rotr w2 19)) (Z.shiftr w2 10) in
      extend n (w32 (nth 15 w 0 + s0 + nth 6 w 0 + s1) :: w)
  end.

Record working := mkWorking { ra : Z; rb : Z; rc : Z; rd : Z; re : Z; rf : Z; rg : Z; rh : Z }.

Definition compress_round (s : working) (kw : Z * Z) : working :=
  let (k, w) := kw in
  let s1 := Z.lxor (Z.lxor (rotr (re s) 6) (rotr (re s) 11)) (rotr (re s) 25) in
  let ch := Z.lxor (Z.land (re s) (rf s)) (Z.land (Z.lxor (re s) 4294967295) (rg s)) in
  let t1 := rh s + s1 + ch + k + w in
  let s0 := Z.lxor (Z.lxor (rotr (ra s) 2) (rotr (ra s) 13)) (rotr (ra s) 22) in
  let maj := Z.lxor (Z.lxor (Z.land (ra s) (rb s)) (Z.land (ra s) (rc s)))
               (Z.land (rb s) (rc s)) in
  mkWorking (w32 (t1 + s0 + maj)) (ra s) (rb s) (rc s) (w32 (rd s + t1)) (re s) (rf s)
    (rg s).

Definition load_working (h : list Z) : working :=
  mkWorking (nth 0 h 0) (nth 1 h 0) (nth 2 h 0) (nth 3 h 0) (nth 4 h 0) (nth 5 h 0)
    (nth 6 h 0) (nth 7 h 0).

Definition compress (h : list Z) (block : list Z) : list Z :=
  let w := rev (extend 48 (rev (words block))) in
  let s := fold_left compress_round (combine round_constants w) (load_working h) in
  zip_with (λ a b, w32 (a + b)) h [ra s; rb s; rc s; rd s; re s; rf s; rg s; rh s].

Fixpoint blocks (fuel : nat) (h l : list Z) : list Z :=
  match fuel with
  | O => h
  | S fuel =>
      match l with
      | [] => h
      | _ => blocks fuel (compress h (take 64 l)) (drop 64 l)
      end
  end.

(** [sha256.Sum256]: the 32 digest bytes. *)
Definition Sum256 (s : string) : string :=
  let msg := pad (byte_val <$> str_list s) in
  let h := blocks (S (length msg / 64)%nat) initial_hash msg in
  of_list (chr <$> mjoin (be_bytes 4 <$> h)).

Lemma length_be_bytes n z : length (be_bytes n z) = n.
Proof. induction n; simpl; congruence. Qed.

Lemma length_compress h b : length h = 8%nat → length (compress h b) = 8%nat.
Proof. intros Hh. unfold compress. rewrite length_zip_with, Hh. done. Qed.

Lemma length_blocks fuel h l : length h = 8%nat → length (blocks fuel h l) = 8%nat.
Proof.
  revert h l. induction fuel as [|fuel IH]; intros h l Hh; simpl; [done|].
  destruct l; [done|]. apply IH. by apply length_compress.
Qed.

Lemma length_join_be (h : list Z) :
  length (mjoin (be_bytes 4 <$> h)) = (4 * length h)%nat.
Proof.
  induction h as [|x h IH]; [done|].
  change (length (be_bytes 4 x ++ mjoin (be_bytes 4 <$> h)) = (4 * S (length h))%nat).
  rewrite length_app, length_be_bytes, IH. lia.
Qed.

Lemma length_Sum256 s : String.length (Sum256 s) = 32%nat.
Proof.
  unfold Sum256. rewrite <-length_str_list, str_list_of_list, length_fmap.
  rewrite length_join_be, length_blocks by done. done.
Qed.

Example sha256_abc :
  EncodeToString (Sum256 "abc") =
  "ba7816bf8f01cfea414140de5dae2223b00361a396177a9cb410ff61f20015ad".
Proof. vm_compute. reflexivity. Qed.

Example sha256_empty :
  EncodeToString (Sum256 "") =
  "e3b0c44298fc1c149afbf4c8996fb92427ae41e4649b934ca495991b7852b855".
Proof. vm_compute. reflexivity. Qed.
