(* ===== verification/Envelope.v ===== *)
(** * Envelope data (src/internal/queue/envelope.go, identity.go)

    The queued metadata of one message, its recipients and body variants, and
    the identifiers a queue entry is stored under.  Instants are integers
    (nanoseconds); [zeroTime] is the zero [time.Time]. *)

From S2P Require Import Prelude Errors GoLib Sha256.
Open Scope Z_scope.

(** [type Status string]. *)
Abbreviation Status := string (only parsing).

Definition StatusPending : Status := "pending".
Definition StatusSent : Status := "sent".
Definition StatusFailed : Status := "failed".

Definition maxEnvelopeMetadata : Z := 4194304.
Definition maxEnvelopeRecipients : Z := 1000.
Definition maxEnvelopeStringBytes : Z := 4096.
Definition maxEnvelopeDetailBytes : Z := 65536.
Definition maxEnvelopeAttempts : Z := 1048576.
Definition maxEnvelopeRevision : Z := MaxUint64 - 1.
Definition bodyDigestPrefix : string := "sha256:".

(** The zero [time.Time] is 1 January of year 1, in nanoseconds from 1970. *)
Definition zeroTime : Z := -62135596800 * 1000000000.

Record Body := mkBody {
  bOffset : Z;
  bSize : Z;
  bDigest : string;
  bEightBit : bool
}.

Record Recipient := mkRecipient {
  Address : string;
  rDomain : string;
  rBody : Z;
  rStatus : Status;
  Detail : string;
  Code : Z;
  EnhancedCode : string
}.

(** The [index] field of the source, the position in the scheduling heap, is
    part of the scheduler's store (Schedule.v); [EnqueuedAt] is never read. *)
Record Envelope := mkEnvelope {
  ID : string;
  Incarnation : string;
  Revision : Z;
  Username : string;
  Sender : string;
  Recipients : list Recipient;
  Bodies : list Body;
  Size : Z;
  Created : Z;
  Attempts : Z;
  NextAttempt : Z;
  LastError : string;
  SMTPUTF8 : bool;
  EightBit : bool;
  BodyDigest : string;
  DSNID : string;
  DSNSourceID : string;
  DSNSourceIncarnation : string;
  DSNSourceRevision : Z;
  DSNGeneration : Z;
  PreferredDomain : string
}.

#[export] Instance Body_eq_dec : EqDecision Body.
Proof. solve_decision. Defined.
#[export] Instance Recipient_eq_dec : EqDecision Recipient.
Proof. solve_decision. Defined.
#[export] Instance Envelope_eq_dec : EqDecision Envelope.
Proof. solve_decision. Defined.

(** Field assignments [e.F = v]. *)
Definition set_Incarnation (v : string) (e : Envelope) : Envelope :=
    mkEnvelope (ID e) v (Revision e) (Username e) (Sender e) (Recipients e) (Bodies
    e) (Size e) (Created e) (Attempts e) (NextAttempt e) (LastError e) (SMTPUTF8 e)
    (EightBit e) (BodyDigest e) (DSNID e) (DSNSourceID e) (DSNSourceIncarnation e)
    (DSNSourceRevision e) (DSNGeneration e) (PreferredDomain e).
Definition set_Revision (v : Z) (e : Envelope) : Envelope :=
    mkEnvelope (ID e) (Incarnation e) v (Username e) (Sender e) (Recipients e)
    (Bodies e) (Size e) (Created e) (Attempts e) (NextAttempt e) (LastError e)
    (SMTPUTF8 e) (EightBit e) (BodyDigest e) (DSNID e) (DSNSourceID e)
    (DSNSourceIncarnation e) (DSNSourceRevision e) (DSNGeneration e)
    (PreferredDomain e).
Definition set_Recipients (v : list Recipient) (e : Envelope) : Envelope :=
    mkEnvelope (ID e) (Incarnation e) (Revision e) (Username e) (Sender e) v (Bodies
    e) (Size e) (Created e) (Attempts e) (NextAttempt e) (LastError e) (SMTPUTF8 e)
    (EightBit e) (BodyDigest e) (DSNID e) (DSNSourceID e) (DSNSourceIncarnation e)
    (DSNSourceRevision e) (DSNGeneration e) (PreferredDomain e).
Definition set_Size (v : Z) (e : Envelope) : Envelope :=
    mkEnvelope (ID e) (Incarnation e) (Revision e) (Username e) (Sender e)
    (Recipients e) (Bodies e) v (Created e) (Attempts e) (NextAttempt e) (LastError
    e) (SMTPUTF8 e) (EightBit e) (BodyDigest e) (DSNID e) (DSNSourceID e)
    (DSNSourceIncarnation e) (DSNSourceRevision e) (DSNGeneration e)
    (PreferredDomain e).
Definition set_Attempts (v : Z) (e : Envelope) : Envelope :=
    mkEnvelope (ID e) (Incarnation e) (Revision e) (Username e) (Sender e)
    (Recipients e) (Bodies e) (Size e) (Created e) v (NextAttempt e) (LastError e)
    (SMTPUTF8 e) (EightBit e) (BodyDigest e) (DSNID e) (DSNSourceID e)
    (DSNSourceIncarnation e) (DSNSourceRevision e) (DSNGeneration e)
    (PreferredDomain e).
Definition set_NextAttempt (v : Z) (e : Envelope) : Envelope :=
    mkEnvelope (ID e) (Incarnation e) (Revision e) (Username e) (Sender e)
    (Recipients e) (Bodies e) (Size e) (Created e) (Attempts e) v (LastError e)
    (SMTPUTF8 e) (EightBit e) (BodyDigest e) (DSNID e) (DSNSourceID e)
    (DSNSourceIncarnation e) (DSNSourceRevision e) (DSNGeneration e)
    (PreferredDomain e).
Definition set_LastError (v : string) (e : Envelope) : Envelope :=
    mkEnvelope (ID e) (Incarnation e) (Revision e) (Username e) (Sender e)
    (Recipients e) (Bodies e) (Size e) (Created e) (Attempts e) (NextAttempt e) v
    (SMTPUTF8 e) (EightBit e) (BodyDigest e) (DSNID e) (DSNSourceID e)
    (DSNSourceIncarnation e) (DSNSourceRevision e) (DSNGeneration e)
    (PreferredDomain e).
Definition set_BodyDigest (v : string) (e : Envelope) : Envelope :=
    mkEnvelope (ID e) (Incarnation e) (Revision e) (Username e) (Sender e)
    (Recipients e) (Bodies e) (Size e) (Created e) (Attempts e) (NextAttempt e)
    (LastError e) (SMTPUTF8 e) (EightBit e) v (DSNID e) (DSNSourceID e)
    (DSNSourceIncarnation e) (DSNSourceRevision e) (DSNGeneration e)
    (PreferredDomain e).
Definition set_DSNID (v : string) (e : Envelope) : Envelope :=
    mkEnvelope (ID e) (Incarnation e) (Revision e) (Username e) (Sender e)
    (Recipients e) (Bodies e) (Size e) (Created e) (Attempts e) (NextAttempt e)
    (LastError e) (SMTPUTF8 e) (EightBit e) (BodyDigest e) v (DSNSourceID e)
    (DSNSourceIncarnation e) (DSNSourceRevision e) (DSNGeneration e)
    (PreferredDomain e).
Definition set_DSNSourceRevision (v : Z) (e : Envelope) : Envelope :=
    mkEnvelope (ID e) (Incarnation e) (Revision e) (Username e) (Sender e)
    (Recipients e) (Bodies e) (Size e) (Created e) (Attempts e) (NextAttempt e)
    (LastError e) (SMTPUTF8 e) (EightBit e) (BodyDigest e) (DSNID e) (DSNSourceID e)
    (DSNSourceIncarnation e) v (DSNGeneration e) (PreferredDomain e).
Definition set_DSNGeneration (v : Z) (e : Envelope) : Envelope :=
    mkEnvelope (ID e) (Incarnation e) (Revision e) (Username e) (Sender e)
    (Recipients e) (Bodies e) (Size e) (Created e) (Attempts e) (NextAttempt e)
    (LastError e) (SMTPUTF8 e) (EightBit e) (BodyDigest e) (DSNID e) (DSNSourceID e)
    (DSNSourceIncarnation e) (DSNSourceRevision e) v (PreferredDomain e).
Definition set_PreferredDomain (v : string) (e : Envelope) : Envelope :=
    mkEnvelope (ID e) (Incarnation e) (Revision e) (Username e) (Sender e)
    (Recipients e) (Bodies e) (Size e) (Created e) (Attempts e) (NextAttempt e)
    (LastError e) (SMTPUTF8 e) (EightBit e) (BodyDigest e) (DSNID e) (DSNSourceID e)
    (DSNSourceIncarnation e) (DSNSourceRevision e) (DSNGeneration e) v.

(** Assignments through a recipient pointer. *)
Definition set_rDomain (v : string) (r : Recipient) : Recipient :=
  mkRecipient (Address r) v (rBody r) (rStatus r) (Detail r) (Code r) (EnhancedCode r).
Definition set_rStatus (v : Status) (r : Recipient) : Recipient :=
  mkRecipient (Address r) (rDomain r) (rBody r) v (Detail r) (Code r) (EnhancedCode r).
Definition set_Detail (v : string) (r : Recipient) : Recipient :=
  mkRecipient (Address r) (rDomain r) (rBody r) (rStatus r) v (Code r) (EnhancedCode r).
Definition set_Code (v : Z) (r : Recipient) : Recipient :=
  mkRecipient (Address r) (rDomain r) (rBody r) (rStatus r) (Detail r) v (EnhancedCode r).
Definition set_EnhancedCode (v : string) (r : Recipient) : Recipient :=
  mkRecipient (Address r) (rDomain r) (rBody r) (rStatus r) (Detail r) (Code r) v.

Definition count_status (s : Status) (rs : list Recipient) : Z :=
  fold_left (λ n r, if bool_decide (rStatus r = s) then n + 1 else n) rs 0.

(** [(e *Envelope) Pending] and [Failed]. *)
Definition Pending (e : Envelope) : Z := count_status StatusPending (Recipients e).
Definition Failed (e : Envelope) : Z := count_status StatusFailed (Recipients e).

(** [MessageSize] and [MessageEightBit] panic when the recipient or its body
    index is out of range: [None]. *)
Definition MessageSize (e : Envelope) (recipient : nat) : option Z :=
  match Bodies e with
  | [] => Some (Size e)
  | bs =>
      r ← Recipients e !! recipient;
      if rBody r <? 0 then None else bSize <$> (bs !! Z.to_nat (rBody r))
  end.

Definition MessageEightBit (e : Envelope) (recipient : nat) : option bool :=
  match Bodies e with
  | [] => Some (EightBit e)
  | bs =>
      r ← Recipients e !! recipient;
      if rBody r <? 0 then None else bEightBit <$> (bs !! Z.to_nat (rBody r))
  end.

(** [bodyDigest] of body.go. *)
Definition bodyDigest (body : string) : string :=
  bodyDigestPrefix +:+ EncodeToString (Sum256 body).

Definition NewBody (offset : Z) (data : string) (eightBit : bool) : Body :=
  mkBody offset (str_len data) (bodyDigest data) eightBit.

(** [cloneEnvelope]: the copy shares nothing with the original and its heap
    index is reset; as a value it is the same envelope. *)
Definition cloneEnvelope (e : Envelope) : Envelope := e.

(** ** Identifiers *)

(** [idPattern]: one alphanumeric byte, then at most 190 bytes of
    alphanumerics, dot, underscore and hyphen. *)
Definition id_tail_char (c : ascii) : bool :=
  is_alnum c || is_char 46 c || is_char 95 c || is_char 45 c.

Definition idPattern (id : string) : bool :=
  match str_list id with
  | [] => false
  | c :: l => is_alnum c && forallb id_tail_char l && (Z.of_nat (length l) <=? 190)
  end.

Definition ValidateID (id : string) : res unit :=
  reject bool_decide (id = "") || negb (idPattern id) with Sentinel ErrInvalidID in
  reject bool_decide (id = ".") || bool_decide (id = "..")
         || (contains_byte 47 id || contains_byte 92 id) with Sentinel ErrInvalidID in
  reject negb (bool_decide (filepath_Base id = id)) || filepath_IsAbs id
    with Sentinel ErrInvalidID in
  let clean := filepath_Clean id in
  reject negb (bool_decide (clean = id)) with Sentinel ErrInvalidID in
  Ok tt.

(** [DSNID]: the derived identifier of the notification for one generation. *)
Definition DSNID_of (sourceID incarnation : string) (generation : Z) : string :=
  let nul := of_list [chr 0] in
  "dsn." +:+
  EncodeToString (Sum256
    ("outboxd-dsn-v1" +:+ nul +:+ sourceID +:+ nul +:+ incarnation +:+ nul
     +:+ FormatUint generation)).

(** [newIncarnation] for the sixteen random bytes [token]. *)
Definition newIncarnation (token : string) : string := EncodeToString token.

(** ** Properties of identifiers *)

Lemma id_tail_char_plain c :
  id_tail_char c = true → byte_val c ≠ 47 ∧ byte_val c ≠ 92.
Proof.
  unfold id_tail_char, is_alnum, is_upper, is_lower, is_digit, between, is_char.
  intros H. lia.
Qed.

Lemma is_alnum_tail c : is_alnum c = true → id_tail_char c = true.
Proof. unfold id_tail_char. by intros ->. Qed.

Lemma idPattern_chars id :
  idPattern id = true → forallb id_tail_char (str_list id) = true.
Proof.
  unfold idPattern. destruct (str_list id) as [|c l]; [done|]. simpl.
  intros [[Hc Hl]%andb_true_iff _]%andb_true_iff.
  by rewrite is_alnum_tail.
Qed.

Lemma idPattern_no_sep id :
  idPattern id = true → contains_byte 47 id = false ∧ contains_byte 92 id = false.
Proof.
  intros H%idPattern_chars. rewrite forallb_forall in H.
  split; apply contains_byte_false; intros c Hc;
    apply list_elem_of_In, H, id_tail_char_plain in Hc; tauto.
Qed.

Lemma idPattern_not_dots id :
  idPattern id = true → id ≠ "" ∧ id ≠ "." ∧ id ≠ "..".
Proof. intros H. split_and!; intros ->; discriminate. Qed.

(** The path checks after the pattern are redundant: the pattern decides. *)
Lemma ValidateID_spec id :
  ValidateID id = if idPattern id then Ok tt else Err (Sentinel ErrInvalidID).
Proof.
  unfold ValidateID. destruct (idPattern id) eqn:E.
  - destruct (idPattern_no_sep id E) as [H1 H2].
    destruct (idPattern_not_dots id E) as (H3 & H4 & H5).
    rewrite H1, H2, filepath_Base_plain, filepath_IsAbs_plain, filepath_Clean_plain by done.
    rewrite (bool_decide_eq_false_2 (id = "")), (bool_decide_eq_false_2 (id = ".")),
      (bool_decide_eq_false_2 (id = "..")), (bool_decide_eq_true_2 (id = id)) by done.
    done.
  - by rewrite orb_true_r.
Qed.

Lemma ValidateID_Ok id : is_ok (ValidateID id) = idPattern id.
Proof. rewrite ValidateID_spec. by destruct (idPattern id). Qed.

(** A valid identifier is a single path element: it cannot leave the namespace
    directory it is joined to. *)
Lemma ValidateID_single_element id :
  ValidateID id = Ok tt →
  Split id 47 = [id] ∧ id ≠ "" ∧ id ≠ "." ∧ id ≠ ".." ∧ str_len id ≤ 191.
Proof.
  rewrite ValidateID_spec. destruct (idPattern id) eqn:E; [|done]. intros _.
  destruct (idPattern_no_sep id E) as [H1 _].
  destruct (idPattern_not_dots id E) as (H3 & H4 & H5).
  split_and!; [|done..|].
  - rewrite contains_byte_false in H1. unfold Split.
    rewrite split_list_none by done. simpl. by rewrite of_list_str_list.
  - unfold idPattern in E. rewrite str_len_list.
    destruct (str_list id); [done|]. simpl. zbool. lia.
Qed.

Lemma count_status_acc s rs n :
  fold_left (λ n r, if bool_decide (rStatus r = s) then n + 1 else n) rs n =
  n + Z.of_nat (length (filter (λ r, rStatus r = s) rs)).
Proof.
  revert n. induction rs as [|r rs IH]; intros n; simpl; [lia|].
  rewrite IH. rewrite filter_cons. case_bool_decide; case_decide; simpl; try done; lia.
Qed.

Lemma count_status_length s rs :
  count_status s rs = Z.of_nat (length (filter (λ r, rStatus r = s) rs)).
Proof. unfold count_status. rewrite count_status_acc. lia. Qed.
