(* ===== verification/Capacity.v ===== *)
(** * Queue capacity accounting (src/internal/queue/capacity.go, spool.go)

    Logical quotas (messages and bytes, global and per user), the in-flight
    reservations of operations in progress, and the conservative estimate of
    the spool's disk use.  [Capacity] has the fields of [Queue] these files
    read and write under [q.mu].  Plain Go arithmetic is written with
    [wrap64]; the invariant below shows where it cannot wrap. *)

From S2P Require Import Prelude Errors GoLib Envelope.
Open Scope Z_scope.

Record Limits := mkLimits {
  MaxMessages : Z;
  MaxBytes : Z;
  MaxMessagesPerUser : Z;
  MaxBytesPerUser : Z;
  MaxSpoolBytes : Z;
  SpoolEmergencyBytes : Z;
  MinFreeDisk : Z;
  DeadRetention : Z;
  CorruptRetention : Z
}.

Record accountedEntry := mkAccounted {
  a_size : Z;
  a_owner : string;
  a_incarnation : string;
  a_revision : Z
}.

Record userUsage := mkUsage {
  u_messages : Z;
  u_bytes : Z;
  u_reserved : Z;
  u_resBytes : Z
}.

(** The zero value a missing map key reads as. *)
Definition zeroUsage : userUsage := mkUsage 0 0 0 0.

Record Capacity := mkCapacity {
  limits : Limits;
  count : Z;
  bytes : Z;
  accounted : gmap string accountedEntry;
  reserved : Z;
  resBytes : Z;
  users : gmap string userUsage;
  spoolBytes : Z;
  spoolReserved : Z
}.

Definition set_count (v : Z) (q : Capacity) : Capacity :=
    mkCapacity (limits q) v (bytes q) (accounted q) (reserved q) (resBytes q) (users
    q) (spoolBytes q) (spoolReserved q).
Definition set_bytes (v : Z) (q : Capacity) : Capacity :=
    mkCapacity (limits q) (count q) v (accounted q) (reserved q) (resBytes q) (users
    q) (spoolBytes q) (spoolReserved q).
Definition set_accounted (v : gmap string accountedEntry) (q : Capacity) : Capacity :=
    mkCapacity (limits q) (count q) (bytes q) v (reserved q) (resBytes q) (users q)
    (spoolBytes q) (spoolReserved q).
Definition set_reserved (v : Z) (q : Capacity) : Capacity :=
    mkCapacity (limits q) (count q) (bytes q) (accounted q) v (resBytes q) (users q)
    (spoolBytes q) (spoolReserved q).
Definition set_resBytes (v : Z) (q : Capacity) : Capacity :=
    mkCapacity (limits q) (count q) (bytes q) (accounted q) (reserved q) v (users q)
    (spoolBytes q) (spoolReserved q).
Definition set_users (v : gmap string userUsage) (q : Capacity) : Capacity :=
    mkCapacity (limits q) (count q) (bytes q) (accounted q) (reserved q) (resBytes
    q) v (spoolBytes q) (spoolReserved q).
Definition set_spoolBytes (v : Z) (q : Capacity) : Capacity :=
    mkCapacity (limits q) (count q) (bytes q) (accounted q) (reserved q) (resBytes
    q) (users q) v (spoolReserved q).
Definition set_spoolReserved (v : Z) (q : Capacity) : Capacity :=
    mkCapacity (limits q) (count q) (bytes q) (accounted q) (reserved q) (resBytes
    q) (users q) (spoolBytes q) v.

(** [q.users[owner]]. *)
Definition usage_of (q : Capacity) (owner : string) : userUsage :=
  default zeroUsage (users q !! owner).

(** ** Checked arithmetic *)

Definition checkedAddInt64 (a b : Z) : Z * bool :=
  if (0 <? b) && (wrap64 (MaxInt64 - b) <? a) then (0, false)
  else if (b <? 0) && (a <? wrap64 (MinInt64 - b)) then (0, false)
  else (wrap64 (a + b), true).

(** [int] is 64 bits wide, so [checkedAddInt] has the same body. *)
Definition checkedAddInt (a b : Z) : Z * bool :=
  if (0 <? b) && (wrap64 (MaxInt64 - b) <? a) then (0, false)
  else if (b <? 0) && (a <? wrap64 (MinInt64 - b)) then (0, false)
  else (wrap64 (a + b), true).

Definition quotaOwner (envelope : Envelope) : string :=
  if negb (bool_decide (DSNSourceID envelope = "")) then "" else Username envelope.

(** ** Allocation estimates (src/internal/disk/disk.go, spool.go) *)

Definition allocationUnit : Z := 65536.

Definition AllocationSize (size : Z) : Z :=
  if size <=? 0 then allocationUnit
  else if MaxInt64 - (allocationUnit - 1) <? size then MaxInt64
  else wrap64 (Z.quot (wrap64 (wrap64 (size + allocationUnit) - 1)) allocationUnit
               * allocationUnit).

Definition MinimumSpoolEmergencyBytes : Z := 16777216.

Definition terminalSpoolReserve : Z :=
  wrap64 (AllocationSize (wrap64 (maxEnvelopeMetadata + AllocationSize 0))
          + AllocationSize 0).

(** The loop shared by the two estimates: add up the parts, saturating. *)
Fixpoint sum_parts (total : Z) (parts : list Z) : Z :=
  match parts with
  | [] => total
  | part :: parts =>
      match checkedAddInt64 total part with
      | (total, true) => sum_parts total parts
      | (_, false) => MaxInt64
      end
  end.

(** The length of [addAccepted] in bytes. *)
Definition addAcceptedLen : Z := 24.

Definition estimatePersistentEntryAllocation (bodySize metadataSize : Z) : Z :=
  sum_parts 0 [AllocationSize 0; AllocationSize bodySize; AllocationSize metadataSize;
               AllocationSize addAcceptedLen].

Definition estimateEntryAllocation (bodySize metadataSize : Z) : Z :=
  sum_parts 0 [estimatePersistentEntryAllocation bodySize metadataSize;
               AllocationSize 0].

(** ** Physical reservations (spool.go) *)

Definition addPhysicalLocked (n : Z) (q : Capacity) : Capacity :=
  if n <=? 0 then q
  else match checkedAddInt64 (spoolBytes q) n with
       | (_, false) => set_spoolBytes MaxInt64 q
       | (total, true) => set_spoolBytes total q
       end.

Definition commitPhysicalLocked (n : Z) (q : Capacity) : Capacity :=
  let q := if spoolReserved q <? n then set_spoolReserved 0 q
           else set_spoolReserved (wrap64 (spoolReserved q - n)) q in
  addPhysicalLocked n q.

Definition removePhysical (n : Z) (q : Capacity) : Capacity :=
  if n <=? 0 then q
  else if spoolBytes q <=? n then set_spoolBytes 0 q
  else set_spoolBytes (wrap64 (spoolBytes q - n)) q.

Definition adjustPhysicalDelta (before after : Z) (q : Capacity) : Capacity :=
  if before <=? after then addPhysicalLocked (wrap64 (after - before)) q
  else
    let delta := wrap64 (before - after) in
    if spoolBytes q <=? delta then set_spoolBytes 0 q
    else set_spoolBytes (wrap64 (spoolBytes q - delta)) q.

(** The free-space floor: [FreeDisk] is what calling [q.FreeDisk(q.root)]
    yields now, [None] when the hook is nil. *)
Definition checkFreeDisk (FreeDisk : option (res Z)) (physicalReserved : Z)
    (emergency terminal : bool) (l : Limits) : res unit :=
  match FreeDisk with
  | Some call =>
      if 0 <? MinFreeDisk l then
        let? free := call in
        let '(floor, ok) :=
          if negb emergency
          then checkedAddInt64 (MinFreeDisk l) (SpoolEmergencyBytes l)
          else if negb terminal
          then checkedAddInt64 (MinFreeDisk l) terminalSpoolReserve
          else (MinFreeDisk l, true) in
        reject negb ok with Sentinel ErrInsufficientDisk in
        reject (free <? floor) || (wrap64 (free - floor) <? physicalReserved)
          with Sentinel ErrInsufficientDisk in
        Ok tt
      else Ok tt
  | None => Ok tt
  end.

Definition reservePhysicalLocked (FreeDisk : option (res Z)) (physical : Z)
    (emergency terminal : bool) (q : Capacity) : res Capacity :=
  reject physical <? 0 with Message "negative physical reservation size" in
  let '(physicalReserved, ok) := checkedAddInt64 (spoolReserved q) physical in
  reject negb ok with Sentinel ErrSpoolFull in
  let '(physicalTotal, ok) := checkedAddInt64 (spoolBytes q) physicalReserved in
  reject negb ok with Sentinel ErrSpoolFull in
  let limit :=
    if negb emergency
    then wrap64 (MaxSpoolBytes (limits q) - SpoolEmergencyBytes (limits q))
    else if negb terminal then wrap64 (MaxSpoolBytes (limits q) - terminalSpoolReserve)
    else MaxSpoolBytes (limits q) in
  reject (0 <? MaxSpoolBytes (limits q)) && ((limit <? 0) || (limit <? physicalTotal))
    with Sentinel ErrSpoolFull in
  let? _ := checkFreeDisk FreeDisk physicalReserved emergency terminal (limits q) in
  Ok (set_spoolReserved physicalReserved q).

(** [holdPhysical] returns a release closure; [releaseHold] is its body. *)
Definition holdPhysical (FreeDisk : option (res Z)) (n : Z) (terminal : bool)
    (q : Capacity) : res Capacity :=
  reservePhysicalLocked FreeDisk n true terminal q.

Definition releaseHold (n : Z) (commit : bool) (q : Capacity) : Capacity :=
  if commit then commitPhysicalLocked n q
  else if spoolReserved q <? n then set_spoolReserved 0 q
  else set_spoolReserved (wrap64 (spoolReserved q - n)) q.

Record PhysicalStats := mkPhysicalStats {
  ps_Used : Z;
  ps_Reserved : Z;
  ps_Limit : Z;
  ps_Emergency : Z;
  ps_HighWater : bool
}.

(** [SpoolStats] of an open queue. *)
Definition SpoolStats (q : Capacity) : PhysicalStats :=
  let limit := MaxSpoolBytes (limits q) in
  let emergency := SpoolEmergencyBytes (limits q) in
  let total := match checkedAddInt64 (spoolBytes q) (spoolReserved q) with
               | (t, true) => t | (_, false) => MaxInt64 end in
  let ordinary := wrap64 (limit - emergency) in
  mkPhysicalStats (spoolBytes q) (spoolReserved q) limit emergency
    ((0 <? limit) && ((ordinary <=? total) || (wrap64 (limit - Z.quot limit 10) <=? total))).

(** [Stats] of an open queue: occupancy including adds in progress. *)
Definition Stats (q : Capacity) : Z * Z :=
  (match checkedAddInt (count q) (reserved q) with
   | (m, true) => m | (_, false) => MaxInt64 end,
   match checkedAddInt64 (bytes q) (resBytes q) with
   | (b, true) => b | (_, false) => MaxInt64 end).

(** ** Logical reservations (capacity.go) *)

(** The quota checks of [reserveLocked] for a non-exempt reservation. *)
Definition checkQuota (size used totalBytes : Z) (owner : string) (q : Capacity)
    : res unit :=
  reject (0 <? MaxMessages (limits q)) && (MaxMessages (limits q) <=? used)
    with Sentinel ErrQueueFull in
  reject (0 <? MaxBytes (limits q)) && (MaxBytes (limits q) <? totalBytes)
    with Sentinel ErrQueueFull in
  let usage := usage_of q owner in
  let '(userMessages, ok) := checkedAddInt (u_messages usage) (u_reserved usage) in
  reject negb ok || ((0 <? MaxMessagesPerUser (limits q))
                     && (MaxMessagesPerUser (limits q) <=? userMessages))
    with Sentinel ErrQueueFull in
  let '(userBytes, ok) := checkedAddInt64 (u_bytes usage) (u_resBytes usage) in
  reject negb ok with Sentinel ErrQueueFull in
  let '(userBytes, ok) := checkedAddInt64 userBytes size in
  reject negb ok || ((0 <? MaxBytesPerUser (limits q))
                     && (MaxBytesPerUser (limits q) <? userBytes))
    with Sentinel ErrQueueFull in
  Ok tt.

Definition reserveLocked (FreeDisk : option (res Z)) (size physical : Z)
    (exempt emergency : bool) (owner : string) (q : Capacity) : res Capacity :=
  reject size <? 0 with Message "negative reservation size" in
  reject physical <? 0 with Message "negative physical reservation size" in
  let '(used, ok) := checkedAddInt (count q) (reserved q) in
  reject negb ok || (used =? MaxInt64) with Sentinel ErrQueueFull in
  let '(usedBytes, ok) := checkedAddInt64 (bytes q) (resBytes q) in
  reject negb ok with Sentinel ErrQueueFull in
  let '(totalBytes, ok) := checkedAddInt64 usedBytes size in
  reject negb ok with Sentinel ErrQueueFull in
  let '(reservedBytes, ok) := checkedAddInt64 (resBytes q) size in
  reject negb ok with Sentinel ErrQueueFull in
  let? _ := if exempt then Ok tt else checkQuota size used totalBytes owner q in
  let? q := reservePhysicalLocked FreeDisk physical emergency false q in
  let q := set_reserved (wrap64 (reserved q + 1)) q in
  let q := set_resBytes reservedBytes q in
  if exempt then Ok q
  else
    let usage := usage_of q owner in
    Ok (set_users
          (<[owner := mkUsage (u_messages usage) (u_bytes usage)
                        (wrap64 (u_reserved usage + 1))
                        (wrap64 (u_resBytes usage + size))]> (users q)) q).

Definition releaseReserveLocked (size physical : Z) (owner : string) (q : Capacity)
    : Capacity :=
  if size <? 0 then q
  else
    let q := if 0 <? reserved q then set_reserved (wrap64 (reserved q - 1)) q else q in
    let q := if resBytes q <? size then set_resBytes 0 q
             else set_resBytes (wrap64 (resBytes q - size)) q in
    let q := if spoolReserved q <? physical then set_spoolReserved 0 q
             else set_spoolReserved (wrap64 (spoolReserved q - physical)) q in
    if negb (bool_decide (owner = "")) then
      let usage := usage_of q owner in
      let res' := if 0 <? u_reserved usage then wrap64 (u_reserved usage - 1)
                  else u_reserved usage in
      let rb' := if u_resBytes usage <=? size then 0
                 else wrap64 (u_resBytes usage - size) in
      set_users (<[owner := mkUsage (u_messages usage) (u_bytes usage) res' rb']>
                   (users q)) q
    else q.

Definition noteAddedLocked (envelope : Envelope) (q : Capacity) : Capacity * bool :=
  match accounted q !! ID envelope with
  | Some _ => (q, true)
  | None =>
      match checkedAddInt64 (bytes q) (Size envelope) with
      | (_, false) => (q, false)
      | (newBytes, true) =>
          if count q =? MaxInt64 then (q, false)
          else
            let owner := quotaOwner envelope in
            let q := set_accounted
                       (<[ID envelope := mkAccounted (Size envelope) owner
                            (Incarnation envelope) (Revision envelope)]> (accounted q)) q in
            let q := set_count (wrap64 (count q + 1)) q in
            let q := set_bytes newBytes q in
            if negb (bool_decide (owner = "")) then
              let usage := usage_of q owner in
              (set_users (<[owner := mkUsage (wrap64 (u_messages usage + 1))
                              (wrap64 (u_bytes usage + Size envelope))
                              (u_reserved usage) (u_resBytes usage)]> (users q)) q, true)
            else (q, true)
      end
  end.

(** The accounting part of [noteRemoved]; Queue.v adds the schedule's part. *)
Definition noteRemoved (id : string) (q : Capacity) : Capacity :=
  match accounted q !! id with
  | None => q
  | Some entry =>
      let q := set_accounted (delete id (accounted q)) q in
      let q := set_count (wrap64 (count q - 1)) q in
      let q := set_bytes (wrap64 (bytes q - a_size entry)) q in
      if negb (bool_decide (a_owner entry = "")) then
        let usage := usage_of q (a_owner entry) in
        let usage := mkUsage (wrap64 (u_messages usage - 1))
                       (wrap64 (u_bytes usage - a_size entry))
                       (u_reserved usage) (u_resBytes usage) in
        if (u_messages usage =? 0) && (u_reserved usage =? 0)
        then set_users (delete (a_owner entry) (users q)) q
        else set_users (<[a_owner entry := usage]> (users q)) q
      else q
  end.

(** ** Checked arithmetic is exact *)

Lemma checkedAddInt64_spec a b :
  in64 a → in64 b →
  (checkedAddInt64 a b = (a + b, true) ∧ in64 (a + b)) ∨
  (checkedAddInt64 a b = (0, false) ∧ ¬ in64 (a + b)).
Proof.
  intros Ha Hb. unfold checkedAddInt64.
  destruct (0 <? b) eqn:E1; simpl.
  - rewrite wrap64_id by (zbool; lia64).
    destruct (MaxInt64 - b <? a) eqn:E2; zbool; [right; split; [done|lia64]|].
    destruct (b <? 0) eqn:E3; zbool; [lia|]. simpl.
    rewrite wrap64_id by lia64. left. split; [done|lia64].
  - destruct (b <? 0) eqn:E3; simpl; zbool.
    + rewrite (wrap64_id (MinInt64 - b)) by lia64.
      destruct (a <? MinInt64 - b) eqn:E4; zbool; [right; split; [done|lia64]|].
      rewrite wrap64_id by lia64. left. split; [done|lia64].
    + assert (b = 0) as -> by lia. rewrite wrap64_id by lia64.
      left. split; [done|lia64].
Qed.

Lemma checkedAddInt_eq a b : checkedAddInt a b = checkedAddInt64 a b.
Proof. done. Qed.

(** Case split on a checked addition of in-range values. *)
Ltac checked a b :=
  let H1 := fresh "Hadd" in let H2 := fresh "Hin" in
  destruct (checkedAddInt64_spec a b) as [[H1 H2]|[H1 H2]];
  [try lia64|try lia64|rewrite ?checkedAddInt_eq, ?H1; simpl
  |first [exfalso; lia64|rewrite ?checkedAddInt_eq, ?H1; simpl]].

Lemma AllocationSize_range size :
  in64 size → allocationUnit ≤ AllocationSize size ≤ MaxInt64.
Proof.
  intros Hs. unfold AllocationSize, allocationUnit.
  destruct (size <=? 0) eqn:E1; zbool; [lia64|].
  destruct (_ <? size) eqn:E2; zbool; [lia64|].
  rewrite wrap64_sub_l, (wrap64_id (size + 65536 - 1)) by lia64.
  rewrite Z.quot_div_nonneg by lia.
  pose proof (Z.div_mod (size + 65536 - 1) 65536).
  pose proof (Z.mod_pos_bound (size + 65536 - 1) 65536).
  rewrite wrap64_id by lia64. lia64.
Qed.

(** An allocation covers the object and wastes less than one unit. *)
Lemma AllocationSize_covers size :
  0 < size ≤ MaxInt64 - (allocationUnit - 1) →
  size ≤ AllocationSize size < size + allocationUnit ∧
  AllocationSize size mod allocationUnit = 0.
Proof.
  intros Hs. unfold AllocationSize, allocationUnit in *.
  destruct (size <=? 0) eqn:E1; zbool; [lia64|].
  destruct (_ <? size) eqn:E2; zbool; [lia64|].
  rewrite wrap64_sub_l, (wrap64_id (size + 65536 - 1)) by lia64.
  rewrite Z.quot_div_nonneg by lia.
  pose proof (Z.div_mod (size + 65536 - 1) 65536).
  pose proof (Z.mod_pos_bound (size + 65536 - 1) 65536).
  rewrite wrap64_id by lia64. split; [lia|]. apply Z.mod_mul. lia.
Qed.

(** ** Abstract ledger

    What the counters stand for: the entries charged to the queue and the
    reservations still open.  A reservation names the user it is charged to,
    the empty string for an exempt one (a generated DSN). *)

Record Reservation := mkReservation { rs_size : Z; rs_owner : string }.

Definition owned_by {A} (owner_of : A → string) (o : string) (f : A → Z) (a : A) : Z :=
  if decide (owner_of a = o) then f a else 0.

Definition acc_messages (m : gmap string accountedEntry) (o : string) : Z :=
  map_sum (λ _, owned_by a_owner o (λ _, 1)) m.
Definition acc_bytes (m : gmap string accountedEntry) (o : string) : Z :=
  map_sum (λ _, owned_by a_owner o a_size) m.
Definition res_messages (R : list Reservation) (o : string) : Z :=
  zsum (owned_by rs_owner o (λ _, 1)) R.
Definition res_bytes (R : list Reservation) (o : string) : Z :=
  zsum (owned_by rs_owner o rs_size) R.

(** The usage record the ledger prescribes for a user. *)
Definition usage_spec (m : gmap string accountedEntry) (R : list Reservation)
    (o : string) : userUsage :=
  mkUsage (acc_messages m o) (acc_bytes m o) (res_messages R o) (res_bytes R o).

(** [represents R T q]: the counters of [q] are the ledger with open
    reservations [R] and [T] bytes of open spool reservations. *)
Record represents (R : list Reservation) (T : Z) (q : Capacity) : Prop := {
  rep_count : count q = map_sum (λ _ _, 1) (accounted q);
  rep_bytes : bytes q = map_sum (λ _, a_size) (accounted q);
  rep_sizes : ∀ id e, accounted q !! id = Some e → 0 ≤ a_size e;
  rep_reserved : reserved q = zsum (λ _, 1) R;
  rep_resBytes : resBytes q = zsum rs_size R;
  rep_res_sizes : ∀ r, r ∈ R → 0 ≤ rs_size r;
  rep_spoolReserved : spoolReserved q = T;
  rep_count_max : count q ≤ MaxInt64;
  rep_bytes_max : bytes q ≤ MaxInt64;
  rep_reserved_max : reserved q ≤ MaxInt64;
  rep_resBytes_max : resBytes q ≤ MaxInt64;
  rep_T : 0 ≤ T ≤ MaxInt64;
  rep_spool : 0 ≤ spoolBytes q ≤ MaxInt64;
  rep_users : ∀ o, o ≠ "" → usage_of q o = usage_spec (accounted q) R o
}.

(** An empty queue represents the empty ledger. *)
Definition emptyCapacity (l : Limits) : Capacity :=
  mkCapacity l 0 0 ∅ 0 0 ∅ 0 0.

Lemma represents_empty l : represents [] 0 (emptyCapacity l).
Proof.
  constructor; simpl; try done; try lia64.
  by intros r ?%elem_of_nil.
Qed.

Section represents.
Context {R : list Reservation} {T : Z} {q : Capacity} (Hrep : represents R T q).

Lemma rep_count_range : 0 ≤ count q ≤ MaxInt64.
Proof.
  split; [|apply Hrep]. rewrite (rep_count _ _ _ Hrep). apply map_sum_nonneg. lia.
Qed.

Lemma rep_bytes_range : 0 ≤ bytes q ≤ MaxInt64.
Proof.
  split; [|apply Hrep]. rewrite (rep_bytes _ _ _ Hrep).
  apply map_sum_nonneg. apply Hrep.
Qed.

Lemma rep_reserved_range : 0 ≤ reserved q ≤ MaxInt64.
Proof.
  split; [|apply Hrep]. rewrite (rep_reserved _ _ _ Hrep). apply zsum_nonneg. lia.
Qed.

Lemma rep_resBytes_range : 0 ≤ resBytes q ≤ MaxInt64.
Proof.
  split; [|apply Hrep]. rewrite (rep_resBytes _ _ _ Hrep).
  apply zsum_nonneg. apply Hrep.
Qed.

Lemma acc_messages_range o : 0 ≤ acc_messages (accounted q) o ≤ count q.
Proof.
  unfold acc_messages, owned_by. rewrite (rep_count _ _ _ Hrep). split.
  - apply map_sum_nonneg. intros. case_decide; lia.
  - apply map_sum_le. intros. case_decide; lia.
Qed.

Lemma acc_bytes_range o : 0 ≤ acc_bytes (accounted q) o ≤ bytes q.
Proof.
  unfold acc_bytes, owned_by. rewrite (rep_bytes _ _ _ Hrep). split.
  - apply map_sum_nonneg. intros k a Hk. pose proof (rep_sizes _ _ _ Hrep _ _ Hk).
    case_decide; lia.
  - apply map_sum_le. intros k a Hk. pose proof (rep_sizes _ _ _ Hrep _ _ Hk).
    case_decide; lia.
Qed.

Lemma res_messages_range o : 0 ≤ res_messages R o ≤ reserved q.
Proof.
  unfold res_messages, owned_by. rewrite (rep_reserved _ _ _ Hrep). split.
  - apply zsum_nonneg. intros. case_decide; lia.
  - apply zsum_le. intros. case_decide; lia.
Qed.

Lemma res_bytes_range o : 0 ≤ res_bytes R o ≤ resBytes q.
Proof.
  unfold res_bytes, owned_by. rewrite (rep_resBytes _ _ _ Hrep). split.
  - apply zsum_nonneg. intros r Hr. pose proof (rep_res_sizes _ _ _ Hrep _ Hr).
    case_decide; lia.
  - apply zsum_le. intros r Hr. pose proof (rep_res_sizes _ _ _ Hrep _ Hr).
    case_decide; lia.
Qed.
End represents.

(** Put every range fact of a represented state into the context. *)
Ltac rep_ranges H :=
  pose proof (rep_count_range H); pose proof (rep_bytes_range H);
  pose proof (rep_reserved_range H); pose proof (rep_resBytes_range H);
  pose proof (rep_T _ _ _ H); pose proof (rep_spool _ _ _ H);
  pose proof (rep_spoolReserved _ _ _ H).

Ltac user_ranges H o :=
  pose proof (acc_messages_range H o); pose proof (acc_bytes_range H o);
  pose proof (res_messages_range H o); pose proof (res_bytes_range H o).

Lemma usage_of_insert q q' o o' u :
  users q' = <[o := u]> (users q) →
  usage_of q' o' = if decide (o = o') then u else usage_of q o'.
Proof. unfold usage_of. intros ->. rewrite lookup_insert. by case_decide. Qed.

Lemma usage_of_delete q q' o o' :
  users q' = delete o (users q) →
  usage_of q' o' = if decide (o = o') then zeroUsage else usage_of q o'.
Proof. unfold usage_of. intros ->. rewrite lookup_delete. by case_decide. Qed.

(** ** Admission *)

(** What [OpenWithOptions] establishes of the configured limits, as 64-bit
    values. *)
Record limits_ok (l : Limits) : Prop := {
  lo_MaxMessages : 0 ≤ MaxMessages l ≤ MaxInt64;
  lo_MaxBytes : 0 ≤ MaxBytes l ≤ MaxInt64;
  lo_MaxMessagesPerUser : 0 ≤ MaxMessagesPerUser l ≤ MaxInt64;
  lo_MaxBytesPerUser : 0 ≤ MaxBytesPerUser l ≤ MaxInt64;
  lo_MaxSpoolBytes : 0 ≤ MaxSpoolBytes l ≤ MaxInt64;
  lo_SpoolEmergencyBytes : 0 ≤ SpoolEmergencyBytes l ≤ MaxInt64;
  lo_MinFreeDisk : 0 ≤ MinFreeDisk l ≤ MaxInt64
}.

Lemma terminalSpoolReserve_val : terminalSpoolReserve = 4325376.
Proof. reflexivity. Qed.

(** The headroom an operation of the given class must leave. *)
Definition headroom (l : Limits) (emergency terminal : bool) : Z :=
  if negb emergency then SpoolEmergencyBytes l
  else if negb terminal then terminalSpoolReserve else 0.

Definition disk_admits (FreeDisk : option (res Z)) (need : Z) (emergency terminal : bool)
    (l : Limits) : Prop :=
  match FreeDisk with
  | None => True
  | Some call =>
      0 < MinFreeDisk l →
      ∃ free, call = Ok free ∧ MinFreeDisk l + headroom l emergency terminal ≤ MaxInt64 ∧
              MinFreeDisk l + headroom l emergency terminal + need ≤ free
  end.

Definition spool_admits (FreeDisk : option (res Z)) (physical : Z)
    (emergency terminal : bool) (q : Capacity) : Prop :=
  0 ≤ physical ∧
  spoolBytes q + spoolReserved q + physical ≤ MaxInt64 ∧
  (0 < MaxSpoolBytes (limits q) →
   spoolBytes q + spoolReserved q + physical
     ≤ MaxSpoolBytes (limits q) - headroom (limits q) emergency terminal) ∧
  disk_admits FreeDisk (spoolReserved q + physical) emergency terminal (limits q).

Lemma headroom_range l emergency terminal :
  limits_ok l → 0 ≤ headroom l emergency terminal ≤ MaxInt64.
Proof.
  intros Hl. destruct Hl. unfold headroom. rewrite terminalSpoolReserve_val.
  destruct emergency, terminal; simpl; lia64.
Qed.

(** The limit the code computes leaves exactly the headroom of its class. *)
Lemma spool_limit_headroom l emergency terminal :
  limits_ok l →
  (if negb emergency then wrap64 (MaxSpoolBytes l - SpoolEmergencyBytes l)
   else if negb terminal then wrap64 (MaxSpoolBytes l - terminalSpoolReserve)
   else MaxSpoolBytes l) = MaxSpoolBytes l - headroom l emergency terminal.
Proof.
  intros [].
  unfold headroom. rewrite terminalSpoolReserve_val.
  destruct emergency, terminal; simpl; rewrite ?wrap64_id; lia64.
Qed.

(** The free-disk check alone. *)
Lemma disk_check_spec FreeDisk need emergency terminal l :
  limits_ok l → 0 ≤ need ≤ MaxInt64 →
  (∀ free, FreeDisk = Some (Ok free) → 0 ≤ free ≤ MaxInt64) →
  is_ok (checkFreeDisk FreeDisk need emergency terminal l) = true ↔ disk_admits FreeDisk need emergency terminal l.
Proof.
  intros Hl Hneed Hfree.
  assert (Hfloor : (if negb emergency
            then checkedAddInt64 (MinFreeDisk l) (SpoolEmergencyBytes l)
            else if negb terminal
            then checkedAddInt64 (MinFreeDisk l) terminalSpoolReserve
            else (MinFreeDisk l, true)) =
     if decide (MinFreeDisk l + headroom l emergency terminal ≤ MaxInt64)
     then (MinFreeDisk l + headroom l emergency terminal, true) else (0, false)).
  { destruct Hl. unfold headroom. rewrite terminalSpoolReserve_val.
    destruct emergency, terminal; simpl.
    1: { rewrite Z.add_0_r. case_decide; [done|lia64]. }
    1: checked (MinFreeDisk l) 4325376; case_decide; (done || lia64).
    all: checked (MinFreeDisk l) (SpoolEmergencyBytes l); case_decide; (done || lia64). }
  pose proof (headroom_range l emergency terminal Hl) as Hh. destruct Hl.
  unfold checkFreeDisk. rewrite Hfloor. unfold disk_admits.
  destruct FreeDisk as [call|]; [|done].
  destruct (0 <? MinFreeDisk l) eqn:E; zbool; [|simpl; split; [lia|done]].
  destruct call as [free|e]; simpl; [|split; [done|intros H; destruct H; naive_solver]].
  specialize (Hfree free eq_refl).
  case_decide; simpl; [|split; [done|intros H'; destruct H'; naive_solver]].
  destruct (free <? _) eqn:E2; simpl; zbool.
  { split; [done|intros H'; destruct H' as (? & ? & ?); [done|simplify_eq; lia]]. }
  rewrite wrap64_id by lia64.
  destruct (_ <? need) eqn:E3; zbool; simpl.
  { split; [done|intros H'; destruct H' as (? & ? & ?); [done|simplify_eq; lia]]. }
  split; [|done]. intros _ _. exists free. split_and!; [done|lia|lia].
Qed.

(** ** Reservations refine the ledger *)

Lemma is_ok_bind {A B} (r : res A) (k : A → res B) :
  is_ok (let? x := r in k x) = true ↔ ∃ x, r = Ok x ∧ is_ok (k x) = true.
Proof. destruct r; simpl; naive_solver. Qed.

Lemma is_ok_unit (r : res unit) : is_ok r = true ↔ r = Ok tt.
Proof. destruct r as [[]|]; simpl; naive_solver. Qed.

(** A physical reservation succeeds exactly when the spool admits it, and its
    only effect is on [spoolReserved]. *)
Lemma reservePhysical_spec FreeDisk physical emergency terminal R T q :
  represents R T q → limits_ok (limits q) → in64 physical →
  (∀ free, FreeDisk = Some (Ok free) → 0 ≤ free ≤ MaxInt64) →
  (is_ok (reservePhysicalLocked FreeDisk physical emergency terminal q) = true
     ↔ spool_admits FreeDisk physical emergency terminal q) ∧
  (∀ q', reservePhysicalLocked FreeDisk physical emergency terminal q = Ok q' →
     q' = set_spoolReserved (spoolReserved q + physical) q).
Proof.
  intros Hrep Hl Hp Hfree. rep_ranges Hrep.
  pose proof (headroom_range _ emergency terminal Hl) as Hh.
  unfold reservePhysicalLocked, spool_admits. rewrite spool_limit_headroom by done.
  destruct (physical <? 0) eqn:E1; zbool; [split; [simpl; split; [done|lia]|done]|].
  checked (spoolReserved q) physical; [|split; [split; [done|lia64]|done]].
  checked (spoolBytes q) (spoolReserved q + physical); [|split; [split; [done|lia64]|done]].
  pose proof (disk_check_spec FreeDisk (spoolReserved q + physical) emergency terminal
                (limits q) Hl ltac:(lia64) Hfree) as Hdisk.
  pose proof (lo_MaxSpoolBytes _ Hl).
  destruct ((0 <? MaxSpoolBytes (limits q)) && _) eqn:E2.
  { split; [|done]. split; [done|]. intros (_ & _ & Hlim & _). lia. }
  split.
  - rewrite is_ok_bind. split.
    + intros ([] & Hok & _). split_and!; [lia|lia64|lia|].
      apply Hdisk. by rewrite Hok.
    + intros (_ & _ & _ & Hok). exists tt. split; [|done].
      by apply is_ok_unit, Hdisk.
  - intros q'. destruct (checkFreeDisk _ _ _ _ _); simpl; naive_solver.
Qed.

Definition user_admits (size : Z) (owner : string) (R : list Reservation)
    (q : Capacity) : Prop :=
  let msgs := acc_messages (accounted q) owner + res_messages R owner in
  let octets := acc_bytes (accounted q) owner + res_bytes R owner in
  (0 < MaxMessages (limits q) → count q + reserved q < MaxMessages (limits q)) ∧
  (0 < MaxBytes (limits q) → bytes q + resBytes q + size ≤ MaxBytes (limits q)) ∧
  (0 < MaxMessagesPerUser (limits q) → msgs < MaxMessagesPerUser (limits q)) ∧
  (0 < MaxBytesPerUser (limits q) → octets + size ≤ MaxBytesPerUser (limits q)).

(** Everything [reserveLocked] requires, in terms of the ledger. *)
Definition admits (FreeDisk : option (res Z)) (size physical : Z)
    (exempt emergency : bool) (owner : string) (R : list Reservation)
    (q : Capacity) : Prop :=
  0 ≤ size ∧ count q + reserved q < MaxInt64 ∧
  bytes q + resBytes q + size ≤ MaxInt64 ∧
  (exempt = false → user_admits size owner R q) ∧
  spool_admits FreeDisk physical emergency false q.

Lemma checkQuota_spec size owner R T q :
  represents R T q → limits_ok (limits q) → owner ≠ "" → 0 ≤ size →
  count q + reserved q ≤ MaxInt64 → bytes q + resBytes q + size ≤ MaxInt64 →
  is_ok (checkQuota size (count q + reserved q) (bytes q + resBytes q + size) owner q)
    = true ↔ user_admits size owner R q.
Proof.
  intros Hrep Hl Ho Hs Hc Hb. rep_ranges Hrep. user_ranges Hrep owner. destruct Hl.
  unfold checkQuota, user_admits. rewrite (rep_users _ _ _ Hrep) by done. simpl.
  set (am := acc_messages (accounted q) owner) in *.
  set (ab := acc_bytes (accounted q) owner) in *.
  set (rm := res_messages R owner) in *. set (rb := res_bytes R owner) in *.
  destruct (_ && _) eqn:E1; [simpl; split; [done|intros (?&_); lia]|].
  destruct ((0 <? MaxBytes _) && _) eqn:E2; [simpl; split; [done|intros (_&?&_); lia]|].
  checked am rm.
  destruct ((0 <? MaxMessagesPerUser _) && _) eqn:E3;
    [simpl; split; [done|intros (_&_&?&_); lia]|].
  checked ab rb. checked (ab + rb) size.
  destruct ((0 <? MaxBytesPerUser _) && _) eqn:E4;
    [simpl; split; [done|intros (_&_&_&?); lia]|].
  simpl. split; [|done]. intros _. lia.
Qed.

(** Admission is exact: a reservation succeeds if and only if every quota it
    is subject to has room for it. *)
Lemma reserve_ok_iff FreeDisk size physical exempt emergency owner R T q :
  represents R T q → limits_ok (limits q) → in64 size → in64 physical →
  (∀ free, FreeDisk = Some (Ok free) → 0 ≤ free ≤ MaxInt64) →
  (exempt = false → owner ≠ "") →
  is_ok (reserveLocked FreeDisk size physical exempt emergency owner q) = true
    ↔ admits FreeDisk size physical exempt emergency owner R q.
Proof.
  intros Hrep Hl Hs Hp Hfree Ho. rep_ranges Hrep.
  destruct (reservePhysical_spec FreeDisk physical emergency false R T q) as [Hphys _];
    [done..|].
  unfold reserveLocked, admits.
  destruct (size <? 0) eqn:E1; zbool; [simpl; split; [done|lia]|].
  destruct (physical <? 0) eqn:E2; zbool.
  { simpl; split; [done|]. intros (_&_&_&_&?&_). lia. }
  checked (count q) (reserved q); [|split; [done|lia64]].
  destruct (count q + reserved q =? MaxInt64) eqn:E3; zbool; [simpl; split; [done|lia]|].
  simpl. checked (bytes q) (resBytes q); [|split; [done|lia64]].
  checked (bytes q + resBytes q) size; [|split; [done|lia64]].
  checked (resBytes q) size.
  rewrite is_ok_bind. setoid_rewrite is_ok_bind.
  assert (Hquota : (∃ x : unit, (if exempt then Ok tt
      else checkQuota size (count q + reserved q) (bytes q + resBytes q + size) owner q)
      = Ok x) ↔ (exempt = false → user_admits size owner R q)).
  { destruct exempt; [naive_solver|].
    rewrite <-(checkQuota_spec size owner R T q) by (auto || lia64).
    destruct (checkQuota _ _ _ _ _); simpl; naive_solver. }
  split.
  - intros (x & Hx & q' & Hq' & _). split_and!; [lia|lia64|lia64|apply Hquota; eauto|].
    apply Hphys. by rewrite Hq'.
  - intros (_ & _ & _ & Hu & Hsp). apply Hquota in Hu as [x Hx].
    exists x. split; [done|]. apply Hphys in Hsp.
    destruct (reservePhysicalLocked _ _ _ _ _) as [q'|]; [|done].
    exists q'. split; [done|]. by destruct exempt.
Qed.

Lemma res_messages_cons r R o :
  res_messages (r :: R) o = (if decide (rs_owner r = o) then 1 else 0) + res_messages R o.
Proof. done. Qed.

Lemma res_bytes_cons r R o :
  res_bytes (r :: R) o =
  (if decide (rs_owner r = o) then rs_size r else 0) + res_bytes R o.
Proof. done. Qed.

Lemma res_messages_nonneg R o : 0 ≤ res_messages R o.
Proof. apply zsum_nonneg. intros. unfold owned_by. case_decide; lia. Qed.

Lemma res_bytes_nonneg R o : (∀ r, r ∈ R → 0 ≤ rs_size r) → 0 ≤ res_bytes R o.
Proof.
  intros HR. apply zsum_nonneg. intros r Hr. unfold owned_by.
  specialize (HR r Hr). case_decide; lia.
Qed.

Lemma usage_spec_cons m r R o :
  usage_spec m (r :: R) o =
  if decide (rs_owner r = o)
  then mkUsage (acc_messages m o) (acc_bytes m o) (res_messages R o + 1)
         (res_bytes R o + rs_size r)
  else usage_spec m R o.
Proof.
  unfold usage_spec, res_messages, res_bytes, owned_by. simpl.
  case_decide; f_equal; lia.
Qed.

(** The state after a successful reservation, in terms of the ledger. *)
Lemma reserve_effect FreeDisk size physical exempt emergency owner R T q q' :
  represents R T q → limits_ok (limits q) → in64 size → in64 physical →
  (∀ free, FreeDisk = Some (Ok free) → 0 ≤ free ≤ MaxInt64) →
  (exempt = false → owner ≠ "") →
  reserveLocked FreeDisk size physical exempt emergency owner q = Ok q' →
  represents (mkReservation size (if exempt then "" else owner) :: R) (T + physical) q' ∧
  accounted q' = accounted q ∧ spoolBytes q' = spoolBytes q ∧ limits q' = limits q.
Proof.
  intros Hrep Hl Hs Hp Hfree Ho Hres. rep_ranges Hrep.
  assert (Hadm : admits FreeDisk size physical exempt emergency owner R q).
  { apply (reserve_ok_iff _ _ _ _ _ _ R T); [done..|]. by rewrite Hres. }
  destruct (reservePhysical_spec FreeDisk physical emergency false R T q) as [_ Hphys];
    [done..|].
  destruct Hadm as (Hsz & Hcnt & Hbts & Hu & Hph & Hsp & _).
  revert Hres. unfold reserveLocked.
  destruct (size <? 0) eqn:E1; [done|]. destruct (physical <? 0) eqn:E2; [done|].
  checked (count q) (reserved q).
  destruct (count q + reserved q =? MaxInt64) eqn:E3; [done|]. simpl.
  checked (bytes q) (resBytes q). checked (bytes q + resBytes q) size.
  checked (resBytes q) size.
  destruct (if exempt then _ else _); [|done]. simpl.
  destruct (reservePhysicalLocked _ _ _ _ _) as [q1|]; [|done].
  rewrite (Hphys q1 eq_refl). simpl. rewrite (wrap64_id (reserved q + 1)) by lia64.
  intros Hq'.
  assert (Hnew : ∀ o, o ≠ "" → usage_of q' o =
    usage_spec (accounted q) (mkReservation size (if exempt then "" else owner) :: R) o).
  { intros o Hne. user_ranges Hrep o.
    rewrite usage_spec_cons. simpl. destruct exempt; simplify_eq.
    - rewrite decide_False by done. by apply Hrep.
    - specialize (Ho eq_refl). erewrite (usage_of_insert q); [|reflexivity].
      case_decide; subst; [|by apply Hrep].
      change (usage_of _ o) with (usage_of q o).
      rewrite (rep_users _ _ _ Hrep) by done. simpl. by rewrite !wrap64_id by lia64. }
  assert (Hacc : accounted q' = accounted q) by (destruct exempt; by simplify_eq).
  split; [|destruct exempt; by simplify_eq].
  constructor; rewrite ?Hacc; [..|exact Hnew]; destruct exempt; simplify_eq; simpl;
    try (apply Hrep); try lia64;
    rewrite ?(rep_reserved _ _ _ Hrep), ?(rep_resBytes _ _ _ Hrep); try lia64.
  all: intros r [->|Hr]%elem_of_cons; [done|by apply Hrep].
Qed.

#[export] Instance represents_perm : Proper ((≡ₚ) ==> (=) ==> (=) ==> (↔)) represents.
Proof.
  intros R R' HR T ? <- q ? <-.
  assert (∀ R R', R ≡ₚ R' → represents R T q → represents R' T q) as Himp.
  { clear. intros R R' HR Hrep. destruct Hrep. constructor; try done.
    - by rewrite <-HR.
    - by rewrite <-HR.
    - intros r Hr. rewrite <-HR in Hr. eauto.
    - intros o Ho. rewrite rep_users0 by done.
      unfold usage_spec, res_messages, res_bytes. by rewrite HR. }
  split; apply Himp; [done|by symmetry].
Qed.

(** Releasing an open reservation closes it in the ledger; [physical] is what
    is left of its spool reservation. *)
Lemma release_effect size physical owner R T q :
  represents (mkReservation size owner :: R) T q →
  0 ≤ physical ≤ T →
  represents R (T - physical) (releaseReserveLocked size physical owner q) ∧
  accounted (releaseReserveLocked size physical owner q) = accounted q ∧
  spoolBytes (releaseReserveLocked size physical owner q) = spoolBytes q ∧
  limits (releaseReserveLocked size physical owner q) = limits q.
Proof.
  intros Hrep Hph. rep_ranges Hrep.
  assert (Hs : 0 ≤ size) by (apply (rep_res_sizes _ _ _ Hrep (mkReservation size owner)); left).
  pose proof (rep_reserved _ _ _ Hrep) as Hr. pose proof (rep_resBytes _ _ _ Hrep) as Hrb.
  simpl in Hr, Hrb.
  assert (Hn : 0 ≤ zsum (λ _, 1) R) by (apply zsum_nonneg; lia).
  assert (Hm : 0 ≤ zsum rs_size R).
  { apply zsum_nonneg. intros r Hin. apply (rep_res_sizes _ _ _ Hrep). by right. }
  unfold releaseReserveLocked.
  destruct (size <? 0) eqn:E1; zbool; [lia|].
  destruct (0 <? reserved q) eqn:E2; zbool; [|lia]. simpl.
  destruct (resBytes q <? size) eqn:E3; zbool; [lia|]. simpl.
  destruct (spoolReserved q <? physical) eqn:E4; zbool; [lia|]. simpl.
  rewrite !wrap64_id by lia64.
  assert (Husers : ∀ o, o ≠ "" → o ≠ owner → usage_of q o = usage_spec (accounted q) R o).
  { intros o Ho Hne. rewrite (rep_users _ _ _ Hrep), usage_spec_cons by done.
    simpl. by rewrite decide_False. }
  destruct (bool_decide (owner = "")) eqn:Eo; zbool; subst; simpl.
  - split; [|done]. constructor; simpl; try apply Hrep; try lia.
    + intros r Hin. apply (rep_res_sizes _ _ _ Hrep). by right.
    + intros o Ho. rewrite <-Husers by congruence. done.
  - split; [|done]. constructor; simpl; try apply Hrep; try lia.
    + intros r Hin. apply (rep_res_sizes _ _ _ Hrep). by right.
    + intros o Ho. erewrite (usage_of_insert q); [|reflexivity].
      case_decide; subst; [|apply Husers; congruence].
      change (usage_of _ o) with (usage_of q o).
      rewrite (rep_users _ _ _ Hrep), usage_spec_cons by done. simpl.
      rewrite decide_True by done. simpl. user_ranges Hrep o.
      rewrite res_messages_cons, res_bytes_cons in *. simpl in *.
      rewrite decide_True in * by done.
      assert (0 ≤ res_messages R o) by apply res_messages_nonneg.
      assert (0 ≤ res_bytes R o).
      { apply res_bytes_nonneg. intros r Hin. apply (rep_res_sizes _ _ _ Hrep). by right. }
      destruct (0 <? res_messages R o + 1) eqn:E5; zbool; [|lia].
      rewrite (wrap64_id (_ - 1)) by lia64. unfold usage_spec. f_equal; [lia|].
      destruct (res_bytes R o + size <=? size) eqn:E6; zbool; [lia|].
      rewrite wrap64_id by lia64. lia.
Qed.

(** ** Charging and discharging entries *)

Lemma acc_messages_insert m id e o :
  m !! id = None →
  acc_messages (<[id := e]> m) o =
  (if decide (a_owner e = o) then 1 else 0) + acc_messages m o.
Proof. intros Hid. unfold acc_messages. by rewrite map_sum_insert. Qed.

Lemma acc_bytes_insert m id e o :
  m !! id = None →
  acc_bytes (<[id := e]> m) o =
  (if decide (a_owner e = o) then a_size e else 0) + acc_bytes m o.
Proof. intros Hid. unfold acc_bytes. by rewrite map_sum_insert. Qed.

Lemma acc_messages_delete m id e o :
  m !! id = Some e →
  acc_messages (delete id m) o =
  acc_messages m o - (if decide (a_owner e = o) then 1 else 0).
Proof. intros Hid. unfold acc_messages. by rewrite (map_sum_delete _ _ _ e). Qed.

Lemma acc_bytes_delete m id e o :
  m !! id = Some e →
  acc_bytes (delete id m) o =
  acc_bytes m o - (if decide (a_owner e = o) then a_size e else 0).
Proof. intros Hid. unfold acc_bytes. by rewrite (map_sum_delete _ _ _ e). Qed.

Lemma acc_bytes_zero m o : acc_messages m o = 0 → acc_bytes m o = 0.
Proof.
  intros H0. unfold acc_bytes. rewrite <-(map_sum_zero m). apply map_sum_ext.
  intros k a Hk. unfold owned_by. case_decide as Ha; [|done]. exfalso.
  assert (owned_by a_owner o (λ _, 1) a ≤ acc_messages m o).
  { apply (map_sum_lookup_le (λ _, owned_by a_owner o (λ _, 1)) _ k a); [|done].
    intros. unfold owned_by. case_decide; lia. }
  unfold owned_by in *. rewrite decide_True in * by done. lia.
Qed.

Lemma res_bytes_zero R o : res_messages R o = 0 → res_bytes R o = 0.
Proof.
  induction R as [|r R IH]; [done|]. rewrite res_messages_cons, res_bytes_cons.
  pose proof (res_messages_nonneg R o). case_decide; [lia|]. intros. rewrite IH; lia.
Qed.

Definition charge (envelope : Envelope) : accountedEntry :=
  mkAccounted (Size envelope) (quotaOwner envelope) (Incarnation envelope)
    (Revision envelope).

(** Charging an envelope: a no-op for an identifier already charged; refused,
    changing nothing, only when the counters would overflow. *)
Lemma noteAdded_effect R T q envelope :
  represents R T q → 0 ≤ Size envelope ≤ MaxInt64 →
  let q' := fst (noteAddedLocked envelope q) in
  represents R T q' ∧ limits q' = limits q ∧ spoolBytes q' = spoolBytes q ∧
  match accounted q !! ID envelope with
  | Some _ => q' = q ∧ snd (noteAddedLocked envelope q) = true
  | None =>
      if snd (noteAddedLocked envelope q)
      then accounted q' = <[ID envelope := charge envelope]> (accounted q)
      else q' = q ∧ (count q = MaxInt64 ∨ MaxInt64 < bytes q + Size envelope)
  end.
Proof.
  intros Hrep Hs. rep_ranges Hrep. unfold noteAddedLocked.
  destruct (accounted q !! ID envelope) as [e|] eqn:Hid; [simpl; by split_and!|].
  checked (bytes q) (Size envelope).
  2: { split_and!; [done..|right; lia64]. }
  destruct (count q =? MaxInt64) eqn:Ec; zbool.
  { simpl. split_and!; [done..|by left]. }
  rewrite (wrap64_id (count q + 1)) by lia64.
  set (e := charge envelope).
  assert (Hmap : ∀ q', accounted q' = <[ID envelope := e]> (accounted q) →
     count q' = count q + 1 → bytes q' = bytes q + Size envelope →
     reserved q' = reserved q → resBytes q' = resBytes q →
     spoolReserved q' = spoolReserved q → spoolBytes q' = spoolBytes q →
     (∀ o, o ≠ "" → usage_of q' o =
        let u := usage_of q o in
        if decide (quotaOwner envelope = o)
        then mkUsage (u_messages u + 1) (u_bytes u + Size envelope) (u_reserved u)
               (u_resBytes u)
        else u) → represents R T q').
  { intros q' Ha Hc Hb Hr Hrb Hsr Hsb Hu. constructor;
      rewrite ?Ha, ?Hc, ?Hb, ?Hr, ?Hrb, ?Hsr, ?Hsb; try apply Hrep; try lia64.
    - rewrite map_sum_insert, <-(rep_count _ _ _ Hrep) by done. lia.
    - rewrite map_sum_insert, <-(rep_bytes _ _ _ Hrep) by done. simpl. lia.
    - intros id e'. rewrite lookup_insert_Some.
      intros [[_ <-]|[_ He']]; [simpl; lia|by apply (rep_sizes _ _ _ Hrep id)].
    - intros o Ho. rewrite Hu by done. simpl. rewrite (rep_users _ _ _ Hrep) by done.
      unfold usage_spec. rewrite acc_messages_insert, acc_bytes_insert by done.
      simpl. case_decide; f_equal; lia. }
  destruct (bool_decide (quotaOwner envelope = "")) eqn:Eo; zbool; simpl.
  - split_and!; [|done..]. apply Hmap; try done.
    intros o Ho. rewrite decide_False by congruence. done.
  - split_and!; [|done..]. apply Hmap; try done.
    intros o Ho. erewrite (usage_of_insert q); [|reflexivity].
    case_decide; [|done]. subst. change (usage_of _ _) with (usage_of q (quotaOwner envelope)).
    rewrite (rep_users _ _ _ Hrep) by done. simpl.
    user_ranges Hrep (quotaOwner envelope). by rewrite !wrap64_id by lia64.
Qed.

(** Discharging removes exactly the named entry, and forgets a user who has
    neither messages nor reservations left. *)
Lemma noteRemoved_effect R T q id :
  represents R T q →
  represents R T (noteRemoved id q) ∧
  accounted (noteRemoved id q) = delete id (accounted q) ∧
  limits (noteRemoved id q) = limits q ∧
  spoolBytes (noteRemoved id q) = spoolBytes q.
Proof.
  intros Hrep. rep_ranges Hrep. unfold noteRemoved.
  destruct (accounted q !! id) as [e|] eqn:Hid.
  2: { by rewrite delete_id. }
  pose proof (rep_sizes _ _ _ Hrep _ _ Hid) as Hsz.
  assert (Hle : 1 ≤ count q).
  { rewrite (rep_count _ _ _ Hrep).
    apply (map_sum_lookup_le (λ _ _, 1) _ id e); [lia|done]. }
  assert (Hle' : a_size e ≤ bytes q).
  { rewrite (rep_bytes _ _ _ Hrep).
    apply (map_sum_lookup_le (λ _, a_size) _ id e); [apply Hrep|done]. }
  cbn [count bytes set_accounted set_count set_bytes].
  rewrite (wrap64_id (count q - 1)), (wrap64_id (bytes q - _)) by lia64.
  assert (Hmap : ∀ q', accounted q' = delete id (accounted q) →
     count q' = count q - 1 → bytes q' = bytes q - a_size e →
     reserved q' = reserved q → resBytes q' = resBytes q →
     spoolReserved q' = spoolReserved q → spoolBytes q' = spoolBytes q →
     (∀ o, o ≠ "" → usage_of q' o =
        let u := usage_of q o in
        if decide (a_owner e = o)
        then mkUsage (u_messages u - 1) (u_bytes u - a_size e) (u_reserved u)
               (u_resBytes u)
        else u) → represents R T q').
  { intros q' Ha Hc Hb Hr Hrb Hsr Hsb Hu. constructor;
      rewrite ?Ha, ?Hc, ?Hb, ?Hr, ?Hrb, ?Hsr, ?Hsb; try apply Hrep; try lia64.
    - by rewrite (map_sum_delete _ _ _ e), <-(rep_count _ _ _ Hrep).
    - by rewrite (map_sum_delete _ _ _ e), <-(rep_bytes _ _ _ Hrep).
    - intros k e' [_ He']%lookup_delete_Some. by apply (rep_sizes _ _ _ Hrep k).
    - intros o Ho. rewrite Hu by done. simpl. rewrite (rep_users _ _ _ Hrep) by done.
      unfold usage_spec. rewrite (acc_messages_delete _ _ e), (acc_bytes_delete _ _ e) by done.
      simpl. case_decide; f_equal; lia. }
  destruct (bool_decide (a_owner e = "")) eqn:Eo; zbool; simpl.
  - split_and!; [|done..]. apply Hmap; try done.
    intros o Ho. rewrite decide_False by congruence. done.
  - assert (Hne : a_owner e ≠ "") by done.
    change (usage_of _ (a_owner e)) with (usage_of q (a_owner e)).
    rewrite (rep_users _ _ _ Hrep) by done. simpl.
    user_ranges Hrep (a_owner e).
    assert (Hm1 : 1 ≤ acc_messages (accounted q) (a_owner e)).
    { pose proof (acc_messages_delete _ _ _ (a_owner e) Hid) as Hd.
      rewrite decide_True in Hd by done.
      assert (0 ≤ acc_messages (delete id (accounted q)) (a_owner e)); [|lia].
      apply map_sum_nonneg. intros. unfold owned_by. case_decide; lia. }
    assert (Hb1 : a_size e ≤ acc_bytes (accounted q) (a_owner e)).
    { pose proof (acc_bytes_delete _ _ _ (a_owner e) Hid) as Hd.
      rewrite decide_True in Hd by done.
      assert (0 ≤ acc_bytes (delete id (accounted q)) (a_owner e)); [|lia].
      apply map_sum_nonneg. intros k a [_ Hk]%lookup_delete_Some. unfold owned_by.
      pose proof (rep_sizes _ _ _ Hrep _ _ Hk). case_decide; lia. }
    rewrite !wrap64_id by lia64.
    destruct (_ && _) eqn:Edel; zbool; simpl; (split_and!; [|done..]); apply Hmap; try done;
      intros o Ho.
    + erewrite (usage_of_delete q); [|reflexivity]. simpl.
      case_decide; [|done]. subst. rewrite (rep_users _ _ _ Hrep) by done. simpl.
      unfold zeroUsage. f_equal; [lia| |lia|].
      * pose proof (acc_bytes_delete _ _ _ (a_owner e) Hid) as Hd.
        rewrite decide_True in Hd by done. rewrite <-Hd. symmetry.
        apply acc_bytes_zero.
        rewrite (acc_messages_delete _ _ e), decide_True by done. lia.
      * symmetry. by apply res_bytes_zero.
    + erewrite (usage_of_insert q); [|reflexivity]. simpl.
      case_decide; [|done]. subst. by rewrite (rep_users _ _ _ Hrep) by done.
Qed.

(** ** Spool estimate updates *)

Lemma addPhysical_value n q :
  0 ≤ n ≤ MaxInt64 → 0 ≤ spoolBytes q ≤ MaxInt64 →
  addPhysicalLocked n q = set_spoolBytes (Z.min MaxInt64 (spoolBytes q + n)) q.
Proof.
  intros Hn Hq. unfold addPhysicalLocked. destruct (n <=? 0) eqn:E; zbool.
  - replace (Z.min _ _) with (spoolBytes q) by lia64. by destruct q.
  - checked (spoolBytes q) n; f_equal; lia64.
Qed.

Lemma represents_spool R T T' q q' :
  represents R T q → 0 ≤ T' ≤ MaxInt64 →
  accounted q' = accounted q → count q' = count q → bytes q' = bytes q →
  reserved q' = reserved q → resBytes q' = resBytes q → users q' = users q →
  spoolReserved q' = T' → 0 ≤ spoolBytes q' ≤ MaxInt64 →
  represents R T' q'.
Proof.
  intros Hrep HT Ha Hc Hb Hr Hrb Hu Hsr Hsb. constructor;
    rewrite ?Ha, ?Hc, ?Hb, ?Hr, ?Hrb; try apply Hrep; try done.
  intros o Ho. unfold usage_of. rewrite Hu. by apply (rep_users _ _ _ Hrep).
Qed.

Ltac by_spool H := eapply represents_spool; [exact H|..]; simpl; solve [done|lia64].

(** Committing part of an open spool reservation moves it, saturating, into
    the used estimate. *)
Lemma commitPhysical_effect n R T q :
  represents R T q → 0 ≤ n ≤ T →
  commitPhysicalLocked n q =
    set_spoolBytes (Z.min MaxInt64 (spoolBytes q + n)) (set_spoolReserved (T - n) q) ∧
  represents R (T - n) (commitPhysicalLocked n q).
Proof.
  intros Hrep Hn. rep_ranges Hrep. unfold commitPhysicalLocked.
  destruct (spoolReserved q <? n) eqn:E; zbool; [lia|].
  rewrite wrap64_id by lia64. rewrite addPhysical_value by (simpl; lia64).
  replace (spoolReserved q) with T by done. split; [done|].
  by_spool Hrep.
Qed.

Lemma releaseHold_effect n commit R T q :
  represents R T q → 0 ≤ n ≤ T → represents R (T - n) (releaseHold n commit q).
Proof.
  intros Hrep Hn. unfold releaseHold. destruct commit.
  - by apply commitPhysical_effect.
  - rep_ranges Hrep. destruct (spoolReserved q <? n) eqn:E; zbool; [lia|].
    rewrite wrap64_id by lia64. by_spool Hrep.
Qed.

Lemma removePhysical_effect n R T q :
  represents R T q → represents R T (removePhysical n q).
Proof.
  intros Hrep. rep_ranges Hrep. unfold removePhysical.
  destruct (n <=? 0) eqn:E1; [done|]. destruct (spoolBytes q <=? n) eqn:E2; zbool.
  - by_spool Hrep.
  - rewrite wrap64_id by lia64. by_spool Hrep.
Qed.

Lemma adjustPhysicalDelta_effect before after R T q :
  represents R T q → 0 ≤ before ≤ MaxInt64 → 0 ≤ after ≤ MaxInt64 →
  represents R T (adjustPhysicalDelta before after q).
Proof.
  intros Hrep Hb Ha. rep_ranges Hrep. unfold adjustPhysicalDelta.
  destruct (before <=? after) eqn:E1; zbool; rewrite wrap64_id by lia64.
  - rewrite addPhysical_value by lia64.
    by_spool Hrep.
  - destruct (spoolBytes q <=? _) eqn:E2; zbool.
    + by_spool Hrep.
    + rewrite wrap64_id by lia64. by_spool Hrep.
Qed.

(** ** Histories of capacity operations

    The operations the queue performs on its counters, with the ledger they
    act on.  A release names a reservation that is open. *)

Inductive cap_step : list Reservation * Z * Capacity → list Reservation * Z * Capacity → Prop :=
  | step_reserve FreeDisk size physical exempt emergency owner R T q q' :
      in64 size → in64 physical → (exempt = false → owner ≠ "") →
      (∀ free, FreeDisk = Some (Ok free) → 0 ≤ free ≤ MaxInt64) →
      reserveLocked FreeDisk size physical exempt emergency owner q = Ok q' →
      cap_step (R, T, q)
        (mkReservation size (if exempt then "" else owner) :: R, T + physical, q')
  | step_release size physical owner R R' T q :
      R ≡ₚ mkReservation size owner :: R' → 0 ≤ physical ≤ T →
      cap_step (R, T, q) (R', T - physical, releaseReserveLocked size physical owner q)
  | step_hold FreeDisk n terminal R T q q' :
      in64 n → (∀ free, FreeDisk = Some (Ok free) → 0 ≤ free ≤ MaxInt64) →
      holdPhysical FreeDisk n terminal q = Ok q' →
      cap_step (R, T, q) (R, T + n, q')
  | step_releaseHold n commit R T q :
      0 ≤ n ≤ T → cap_step (R, T, q) (R, T - n, releaseHold n commit q)
  | step_commit n R T q :
      0 ≤ n ≤ T → cap_step (R, T, q) (R, T - n, commitPhysicalLocked n q)
  | step_removePhysical n R T q :
      cap_step (R, T, q) (R, T, removePhysical n q)
  | step_adjust before after R T q :
      0 ≤ before ≤ MaxInt64 → 0 ≤ after ≤ MaxInt64 →
      cap_step (R, T, q) (R, T, adjustPhysicalDelta before after q)
  | step_noteAdded envelope R T q :
      0 ≤ Size envelope ≤ MaxInt64 →
      cap_step (R, T, q) (R, T, fst (noteAddedLocked envelope q))
  | step_noteRemoved id R T q :
      cap_step (R, T, q) (R, T, noteRemoved id q).

Definition ledger_ok (s : list Reservation * Z * Capacity) : Prop :=
  let '(R, T, q) := s in represents R T q ∧ limits_ok (limits q).

Lemma cap_step_ledger s s' : cap_step s s' → ledger_ok s → ledger_ok s'.
Proof.
  destruct 1 as [? ? ? ? ? ? ? ? ? ? ? ? ? ? Hres|? ? ? ? ? ? ? HP ?|? ? ? ? ? ? ? ? ? Hh
    | | |n R T q|before after R T q| |]; intros [Hrep Hl]; simpl.
  - destruct (reserve_effect _ _ _ _ _ _ _ _ _ _ Hrep Hl H H0 H2 H1 Hres)
      as (? & _ & _ & ->). done.
  - rewrite HP in Hrep. destruct (release_effect _ _ _ _ _ _ Hrep H) as (? & _ & _ & ->). done.
  - unfold holdPhysical in Hh.
    destruct (reservePhysical_spec FreeDisk n true terminal R T q Hrep Hl H H0) as [Hok Heq].
    destruct Hok as [Hok _]. rewrite Hh in Hok. destruct Hok as (Hn & Hsum & _); [done|].
    rewrite (Heq _ Hh). rep_ranges Hrep. split; [|done].
    by_spool Hrep.
  - split; [by apply releaseHold_effect|]. unfold releaseHold.
    destruct commit; [|by case_match].
    by destruct (commitPhysical_effect _ _ _ _ Hrep H) as [-> _].
  - destruct (commitPhysical_effect _ _ _ _ Hrep H) as [Heq ?].
    split; [done|]. by rewrite Heq.
  - split; [by apply removePhysical_effect|]. unfold removePhysical. by repeat case_match.
  - split; [by apply adjustPhysicalDelta_effect|].
    unfold adjustPhysicalDelta, addPhysicalLocked. by repeat case_match.
  - destruct (noteAdded_effect R T q envelope Hrep H) as (? & -> & _). done.
  - destruct (noteRemoved_effect R T q id Hrep) as (? & _ & -> & _). done.
Qed.

(** ** Main theorems *)

(** C27: every history of capacity operations that starts with an empty queue
    leaves counters that are exactly the ledger: [count] and [bytes] are the
    number and total size of the charged entries, [reserved] and [resBytes]
    those of the open reservations, each user's usage record is the user's
    share of both, and no counter ever leaves the 64-bit range or goes
    negative. *)
Theorem capacity_history_refines_ledger l R T q :
  limits_ok l → rtc cap_step ([], 0, emptyCapacity l) (R, T, q) → represents R T q.
Proof.
  intros Hl Hsteps.
  assert (Hinv : ledger_ok (R, T, q)); [|apply Hinv].
  remember (R, T, q) as s. clear Heqs R T q.
  assert (Hinit : ledger_ok ([], 0, emptyCapacity l)).
  { split; [apply represents_empty|done]. }
  remember ([], 0, emptyCapacity l) as s0. clear Heqs0.
  induction Hsteps; eauto using cap_step_ledger.
Qed.

(** admission is exact.  [reserveLocked] succeeds if and only if the sizes
    are non-negative and every limit that applies has room: the message and
    byte quotas of the queue and of the user (unless the reservation is
    exempt), the spool limit less the headroom of the operation's class, and
    the free-disk floor plus that headroom. *)
Theorem reserve_admission FreeDisk size physical exempt emergency owner R T q :
  represents R T q → limits_ok (limits q) → in64 size → in64 physical →
  (∀ free, FreeDisk = Some (Ok free) → 0 ≤ free ≤ MaxInt64) →
  (exempt = false → owner ≠ "") →
  is_ok (reserveLocked FreeDisk size physical exempt emergency owner q) = true
    ↔ admits FreeDisk size physical exempt emergency owner R q.
Proof. apply reserve_ok_iff. Qed.

(** a reservation that is released before anything is charged leaves no
    trace: the ledger, the reported statistics and every user's usage are as
    before (the user map may keep a zero record, which reads the same). *)
Theorem reserve_release_restores FreeDisk size physical exempt emergency owner R T q q' :
  represents R T q → limits_ok (limits q) → in64 size → in64 physical →
  (∀ free, FreeDisk = Some (Ok free) → 0 ≤ free ≤ MaxInt64) →
  (exempt = false → owner ≠ "") →
  reserveLocked FreeDisk size physical exempt emergency owner q = Ok q' →
  let q'' := releaseReserveLocked size physical (if exempt then "" else owner) q' in
  represents R T q'' ∧ accounted q'' = accounted q ∧ Stats q'' = Stats q ∧
  SpoolStats q'' = SpoolStats q ∧ ∀ o, o ≠ "" → usage_of q'' o = usage_of q o.
Proof.
  intros Hrep Hl Hs Hp Hfree Ho Hres q''.
  destruct (reserve_effect _ _ _ _ _ _ _ _ _ _ Hrep Hl Hs Hp Hfree Ho Hres)
    as (Hrep' & Hacc & Hsb & Hlim).
  assert (Hph : 0 ≤ physical).
  { assert (is_ok (reserveLocked FreeDisk size physical exempt emergency owner q) = true)
      as Hok by (by rewrite Hres).
    apply (reserve_ok_iff _ _ _ _ _ _ R T) in Hok; [|done..]. apply Hok. }
  destruct (release_effect _ physical _ _ _ _ Hrep') as (Hrep'' & Hacc' & Hsb' & Hlim').
  { pose proof (rep_T _ _ _ Hrep). lia. }
  replace (T + physical - physical) with T in Hrep'' by lia.
  fold q'' in Hrep'', Hacc', Hsb', Hlim'.
  split_and!; [done|congruence| | |].
  - unfold Stats. rewrite (rep_count _ _ _ Hrep''), (rep_bytes _ _ _ Hrep''),
      (rep_reserved _ _ _ Hrep''), (rep_resBytes _ _ _ Hrep''), (rep_count _ _ _ Hrep),
      (rep_bytes _ _ _ Hrep), (rep_reserved _ _ _ Hrep), (rep_resBytes _ _ _ Hrep).
    by rewrite Hacc', Hacc.
  - unfold SpoolStats. by rewrite (rep_spoolReserved _ _ _ Hrep''),
      (rep_spoolReserved _ _ _ Hrep), Hsb', Hsb, Hlim', Hlim.
  - intros o Hne. by rewrite (rep_users _ _ _ Hrep''), (rep_users _ _ _ Hrep), Hacc', Hacc.
Qed.

Lemma sum_parts_spec total parts :
  0 ≤ total ≤ MaxInt64 → (∀ p, p ∈ parts → 0 ≤ p ≤ MaxInt64) →
  sum_parts total parts = Z.min MaxInt64 (total + zsum id parts).
Proof.
  revert total. induction parts as [|p parts IH]; intros total Ht Hp; simpl; [lia|].
  assert (0 ≤ p ≤ MaxInt64) by (apply Hp; left).
  assert (0 ≤ zsum id parts).
  { apply zsum_nonneg. intros a Ha. apply (Hp a). by right. }
  checked total p.
  - change (id p) with p. rewrite IH; [lia|lia64|]. intros a Ha. apply Hp. by right.
  - change (id p) with p. lia64.
Qed.

(** the admission estimate of an entry covers what stays on disk: it is
    the persistent estimate plus one staging unit (saturating), the persistent
    estimate covers directory, body, metadata and marker, and committing it
    never exceeds the reservation. *)
Theorem entry_estimate_covers bodySize metadataSize :
  0 ≤ bodySize ≤ MaxInt64 → 0 ≤ metadataSize ≤ MaxInt64 →
  let persistent := estimatePersistentEntryAllocation bodySize metadataSize in
  estimateEntryAllocation bodySize metadataSize
    = Z.min MaxInt64 (persistent + allocationUnit) ∧
  persistent ≤ estimateEntryAllocation bodySize metadataSize ∧
  persistent = Z.min MaxInt64 (allocationUnit + AllocationSize bodySize
                               + AllocationSize metadataSize + allocationUnit) ∧
  Z.min MaxInt64 (bodySize + metadataSize + 2 * allocationUnit) ≤ persistent.
Proof.
  intros Hb Hm persistent.
  pose proof (AllocationSize_range bodySize ltac:(lia64)) as Hab.
  pose proof (AllocationSize_range metadataSize ltac:(lia64)) as Ham.
  assert (Hp : persistent = Z.min MaxInt64 (allocationUnit + AllocationSize bodySize
                               + AllocationSize metadataSize + allocationUnit)).
  { unfold persistent, estimatePersistentEntryAllocation.
    assert (AllocationSize 0 = allocationUnit) as H0 by done.
    assert (AllocationSize addAcceptedLen = allocationUnit) as H1 by done.
    rewrite sum_parts_spec; rewrite ?H0, ?H1.
    - simpl. unfold id. f_equal. lia.
    - lia64.
    - unfold allocationUnit in *. intros p Hin. set_unfold. naive_solver lia64. }
  assert (He : estimateEntryAllocation bodySize metadataSize
               = Z.min MaxInt64 (persistent + allocationUnit)).
  { unfold estimateEntryAllocation. fold persistent.
    assert (AllocationSize 0 = allocationUnit) as -> by done.
    rewrite sum_parts_spec; [simpl; unfold id; f_equal; lia|lia64|].
    unfold allocationUnit in *. intros p Hin. set_unfold. naive_solver lia64. }
  assert (Hcov : ∀ s, 0 ≤ s ≤ MaxInt64 → s ≤ AllocationSize s).
  { intros s Hs. unfold AllocationSize, allocationUnit.
    destruct (s <=? 0) eqn:E1; zbool; [lia|].
    destruct (_ <? s) eqn:E2; zbool; [lia|].
    pose proof (AllocationSize_covers s) as Hc. unfold AllocationSize, allocationUnit in Hc.
    destruct (s <=? 0) eqn:E3; zbool; [lia|].
    destruct (_ <? s) eqn:E4; zbool; [lia|]. apply Hc. lia. }
  pose proof (Hcov bodySize Hb). pose proof (Hcov metadataSize Hm).
  rewrite He, Hp. unfold allocationUnit in *. split_and!; lia64.
Qed.

(** *** Witnesses *)

Definition demo_limits : Limits :=
  mkLimits 10 1000000 2 500000 67108864 16777216 1024 0 0.

Lemma demo_limits_ok : limits_ok demo_limits.
Proof. constructor; simpl; lia64. Qed.

Definition demo_disk : option (res Z) := Some (Ok 100000000).

Definition demo_reserved : Capacity :=
  match reserveLocked demo_disk 700 327680 false false "alice" (emptyCapacity demo_limits) with
  | Ok q => q
  | Err _ => emptyCapacity demo_limits
  end.

Lemma demo_disk_range free : demo_disk = Some (Ok free) → 0 ≤ free ≤ MaxInt64.
Proof. intros [= <-]. lia64. Qed.

Lemma capacity_history_witness :
  represents [mkReservation 700 "alice"] (0 + 327680) demo_reserved.
Proof.
  apply (capacity_history_refines_ledger demo_limits); [apply demo_limits_ok|].
  apply rtc_once.
  apply (step_reserve demo_disk 700 327680 false false "alice" [] 0);
    [lia64|lia64|done|apply demo_disk_range|vm_compute; reflexivity].
Defined.

Lemma reserve_admission_witness :
  admits demo_disk 700 327680 false false "alice" [] (emptyCapacity demo_limits).
Proof.
  apply (reserve_admission demo_disk 700 327680 false false "alice" [] 0);
    [apply represents_empty|apply demo_limits_ok|lia64|lia64|apply demo_disk_range|done|].
  vm_compute. reflexivity.
Defined.

Lemma reserve_release_witness :
  represents [] 0 (releaseReserveLocked 700 327680 "alice" demo_reserved).
Proof.
  apply (reserve_release_restores demo_disk 700 327680 false false "alice" [] 0
           (emptyCapacity demo_limits) demo_reserved);
    [apply represents_empty|apply demo_limits_ok|lia64|lia64|apply demo_disk_range|done|].
  vm_compute. reflexivity.
Defined.

Lemma entry_estimate_witness :
  estimatePersistentEntryAllocation 700 900 ≤ estimateEntryAllocation 700 900.
Proof. apply (entry_estimate_covers 700 900); lia64. Defined.
