(* ===== verification/AuthLimiter.v ===== *)
(** * Authentication limiter (src/internal/smtpd/limiter.go)

    The limiter keeps one [attemptState] object per source address, per
    address and user name, and per user name, in three maps of pointers.  The
    code keeps such pointers in local variables while it deletes and replaces
    map entries, so the model has the objects in a store and the maps hold
    their locations: a write through a pointer whose map entry is gone is lost
    here as it is there.

    Counters that grow by one per attempt are unbounded integers.  Map
    iteration order is not specified in Go: [range] is any enumeration of the
    keys.

    Two invariants: [inv], with exact sums, holds while [reserve] works with the address
    pointer of the map; [winv] holds in every history, with the count of an address at
    most the sum over its identities.  The second carries the lockouts. *)

From S2P Require Import Prelude GoLib Envelope.
Open Scope Z_scope.

(** ** Time

    Durations are nanoseconds; [Sub] saturates as [time.Time.Sub] does. *)

Definition second : Z := 1000000000.
Definition minute : Z := 60 * second.

Definition Sub (t u : Z) : Z := Z.max MinInt64 (Z.min MaxInt64 (t - u)).

Definition freeAttempts : Z := 5.
Definition lockoutBase : Z := 2 * second.
Definition lockoutMax : Z := 5 * minute.
Definition entryExpiry : Z := 30 * minute.
Definition capSweepInterval : Z := second.
Definition maxAuthIPEntries : Z := 10000.
Definition maxAuthKeyEntries : Z := 10000.
Definition maxAuthUserEntries : Z := 10000.

Record attemptState := mkAttempt {
  failures : Z;
  until : Z;
  seen : Z;
  inFlight : Z
}.

(** [new(attemptState)]. *)
Definition newAttempt : attemptState := mkAttempt 0 zeroTime zeroTime 0.

Record authLimiter := mkLimiter {
  heap : gmap nat attemptState;
  next : nat;
  byIP : gmap string nat;
  byKey : gmap string nat;
  byUser : gmap string nat;
  pruned : Z;
  maxIP : Z;
  maxKey : Z;
  maxUser : Z;
  expiry : Z;
  pruneEvery : Z;
  lastCapSweep : Z;
  fullSweeps : Z
}.

Definition set_heap (v : gmap nat attemptState) (l : authLimiter) : authLimiter :=
    mkLimiter v (next l) (byIP l) (byKey l) (byUser l) (pruned l) (maxIP l) (maxKey
    l) (maxUser l) (expiry l) (pruneEvery l) (lastCapSweep l) (fullSweeps l).
Definition set_next (v : nat) (l : authLimiter) : authLimiter :=
    mkLimiter (heap l) v (byIP l) (byKey l) (byUser l) (pruned l) (maxIP l) (maxKey
    l) (maxUser l) (expiry l) (pruneEvery l) (lastCapSweep l) (fullSweeps l).
Definition set_byIP (v : gmap string nat) (l : authLimiter) : authLimiter :=
    mkLimiter (heap l) (next l) v (byKey l) (byUser l) (pruned l) (maxIP l) (maxKey
    l) (maxUser l) (expiry l) (pruneEvery l) (lastCapSweep l) (fullSweeps l).
Definition set_byKey (v : gmap string nat) (l : authLimiter) : authLimiter :=
    mkLimiter (heap l) (next l) (byIP l) v (byUser l) (pruned l) (maxIP l) (maxKey
    l) (maxUser l) (expiry l) (pruneEvery l) (lastCapSweep l) (fullSweeps l).
Definition set_byUser (v : gmap string nat) (l : authLimiter) : authLimiter :=
    mkLimiter (heap l) (next l) (byIP l) (byKey l) v (pruned l) (maxIP l) (maxKey l)
    (maxUser l) (expiry l) (pruneEvery l) (lastCapSweep l) (fullSweeps l).
Definition set_pruned (v : Z) (l : authLimiter) : authLimiter :=
    mkLimiter (heap l) (next l) (byIP l) (byKey l) (byUser l) v (maxIP l) (maxKey l)
    (maxUser l) (expiry l) (pruneEvery l) (lastCapSweep l) (fullSweeps l).
Definition set_lastCapSweep (v : Z) (l : authLimiter) : authLimiter :=
    mkLimiter (heap l) (next l) (byIP l) (byKey l) (byUser l) (pruned l) (maxIP l)
    (maxKey l) (maxUser l) (expiry l) (pruneEvery l) v (fullSweeps l).
Definition set_fullSweeps (v : Z) (l : authLimiter) : authLimiter :=
    mkLimiter (heap l) (next l) (byIP l) (byKey l) (byUser l) (pruned l) (maxIP l)
    (maxKey l) (maxUser l) (expiry l) (pruneEvery l) (lastCapSweep l) v.

(** [newAuthLimiterSized] at the instant [now]. *)
Definition newAuthLimiterSized (now maxIP maxKey expiry pruneEvery : Z) : authLimiter :=
  mkLimiter ∅ 0 ∅ ∅ ∅ now
    (if maxIP <=? 0 then maxAuthIPEntries else maxIP)
    (if maxKey <=? 0 then maxAuthKeyEntries else maxKey)
    maxAuthUserEntries
    (if expiry <=? 0 then entryExpiry else expiry)
    (if pruneEvery <=? 0 then entryExpiry else pruneEvery) zeroTime 0.

Definition newAuthLimiter (now : Z) : authLimiter :=
  newAuthLimiterSized now maxAuthIPEntries maxAuthKeyEntries entryExpiry entryExpiry.

(** ** Keys *)

Definition nul : ascii := chr 0.

(** [strings.Cut(key, "\x00")], the part before. *)
Fixpoint before_nul (l : list ascii) : list ascii :=
  match l with
  | [] => []
  | c :: l => if is_char 0 c then [] else c :: before_nul l
  end.

Definition ipFromKey (key : string) : string := of_list (before_nul (str_list key)).

(** ** Store access *)

Definition deref (l : authLimiter) (p : option nat) : option attemptState :=
  q ← p; heap l !! q.

(** [st.f = v] through the pointer [p]. *)
Definition modify (p : nat) (f : attemptState → attemptState) (l : authLimiter)
    : authLimiter := set_heap (alter f p (heap l)) l.

Definition map_len (m : gmap string nat) : Z := Z.of_nat (size m).

(** ** Decisions on one state *)

Definition canReserve (st : option attemptState) (now : Z) : bool :=
  match st with
  | None => true
  | Some st =>
      if now <? until st then false
      else if failures st <? freeAttempts
      then failures st + inFlight st <? freeAttempts
      else inFlight st =? 0
  end.

Definition emptyState (st : option attemptState) (now : Z) : bool :=
  match st with
  | None => false
  | Some st => (failures st =? 0) && (inFlight st =? 0) && negb (now <? until st)
  end.

Definition safeToPrune (l : authLimiter) (st : option attemptState) (now : Z) : bool :=
  match st with
  | None => true
  | Some s =>
      if (0 <? inFlight s) || (now <? until s) then false
      else if emptyState st now then true
      else expiry l <? Sub now (seen s)
  end.

(** ** Object updates *)

Definition dec (n : Z) : Z := if 0 <? n then n - 1 else n.

Definition release1 (now : Z) (st : attemptState) : attemptState :=
  mkAttempt (failures st) (until st) now (dec (inFlight st)).

Definition fail1 (now : Z) (st : attemptState) : attemptState :=
  let fl := dec (inFlight st) in
  let f := failures st + 1 in
  if f <? freeAttempts then mkAttempt f (until st) now fl
  else
    let shift := Z.min (f - freeAttempts) 10 in
    let lockout := Z.shiftl lockoutBase shift in
    mkAttempt f (now + Z.min lockout lockoutMax) now fl.

(** The key's part of [succeeded]. *)
Definition succeedKey1 (now : Z) (st : attemptState) : attemptState :=
  mkAttempt 0 zeroTime now (dec (inFlight st)).

(** Subtract a contribution, not below zero. *)
Definition subtract (have contribution : Z) : Z :=
  if 0 <? contribution then
    (if contribution <=? have then have - contribution else 0)
  else have.

(** The address's part of [succeeded]. *)
Definition succeedIP1 (cleared now : Z) (st : attemptState) : attemptState :=
  let f := subtract (failures st) cleared in
  mkAttempt f (if f <? freeAttempts then zeroTime else until st) now (dec (inFlight st)).

(** The address's part of [dropIdentityLocked]. *)
Definition dropIP1 (gone : attemptState) (now : Z) (st : attemptState) : attemptState :=
  let f := subtract (failures st) (failures gone) in
  mkAttempt f (if f <? freeAttempts then zeroTime else until st) now
    (subtract (inFlight st) (inFlight gone)).

Section limiter.
(** [range m]: the keys of a Go map in some order. *)
Variable range : gmap string nat → list string.
(** [strings.ToLower(strings.TrimSpace(username))]. *)
Variable canonUser : string → string.

(** [canonicalLimiterKey]. *)
Definition canonicalLimiterKey (ip username : string) : string * string * string :=
  let u := canonUser username in
  (ip, ip +:+ of_list [nul] +:+ u, u).

Definition convertFail (m : gmap string nat) (key : string) (now : Z) (l : authLimiter)
    : authLimiter :=
  match m !! key with Some p => modify p (fail1 now) l | None => l end.

Definition releaseInFlight (m : gmap string nat) (key : string) (now : Z)
    (l : authLimiter) : authLimiter :=
  match m !! key with Some p => modify p (release1 now) l | None => l end.

Definition releaseUser (userKey : string) (now : Z) (l : authLimiter) : authLimiter :=
  match byUser l !! userKey with
  | None => l
  | Some p =>
      let l := modify p (release1 now) l in
      match heap l !! p with
      | Some st => if inFlight st =? 0 then set_byUser (delete userKey (byUser l)) l else l
      | None => l
      end
  end.

Definition dropEmpty (key ipKey : string) (now : Z) (l : authLimiter) : authLimiter :=
  let l := if emptyState (deref l (byKey l !! key)) now
           then set_byKey (delete key (byKey l)) l else l in
  if emptyState (deref l (byIP l !! ipKey)) now
  then set_byIP (delete ipKey (byIP l)) l else l.

Definition dropIdentityLocked (key : string) (st : attemptState) (now : Z)
    (l : authLimiter) : authLimiter :=
  let ip := ipFromKey key in
  let l :=
    match byIP l !! ip with
    | None => l
    | Some p =>
        let l := modify p (dropIP1 st now) l in
        if emptyState (heap l !! p) now then set_byIP (delete ip (byIP l)) l else l
    end in
  set_byKey (delete key (byKey l)) l.

(** One iteration of each loop of [forcePrune]. *)
Definition pruneKey (now : Z) (l : authLimiter) (k : string) : authLimiter :=
  match deref l (byKey l !! k) with
  | Some st => if safeToPrune l (Some st) now then dropIdentityLocked k st now l else l
  | None => l
  end.

Definition pruneIP (now : Z) (l : authLimiter) (k : string) : authLimiter :=
  match byIP l !! k with
  | Some p =>
      if safeToPrune l (heap l !! p) now then set_byIP (delete k (byIP l)) l else l
  | None => l
  end.

Definition pruneUser (l : authLimiter) (k : string) : authLimiter :=
  match deref l (byUser l !! k) with
  | Some st => if inFlight st =? 0 then set_byUser (delete k (byUser l)) l else l
  | None => l
  end.

Definition forcePrune (now : Z) (l : authLimiter) : authLimiter :=
  let l := set_pruned now l in
  let l := set_fullSweeps (fullSweeps l + 1) l in
  let l := fold_left (pruneKey now) (range (byKey l)) l in
  let l := fold_left (pruneIP now) (range (byIP l)) l in
  fold_left pruneUser (range (byUser l)) l.

Definition maybePeriodicPrune (now : Z) (l : authLimiter) : authLimiter :=
  if Sub now (pruned l) <? pruneEvery l then l else forcePrune now l.

(** The scan shared by the two evictions: the key of least [seen] among the
    candidates; the empty string stands for none, as in the source. *)
Definition oldest_step (l : authLimiter) (m : gmap string nat)
    (eligible : string → attemptState → bool)
    (acc : string * Z) (k : string) : string * Z :=
  match deref l (m !! k) with
  | Some st =>
      if eligible k st then
        if bool_decide (acc.1 = "") || (seen st <? acc.2) then (k, seen st) else acc
      else acc
  | None => acc
  end.

Definition oldest (l : authLimiter) (m : gmap string nat)
    (eligible : string → attemptState → bool) : string :=
  fst (fold_left (oldest_step l m eligible) (range m) ("", zeroTime)).

Definition idle (now : Z) (st : attemptState) : bool :=
  (inFlight st =? 0) && negb (now <? until st).

Definition evictOldestKey (now : Z) (l : authLimiter) : authLimiter * bool :=
  let oldestKey := oldest l (byKey l) (λ _, idle now) in
  if bool_decide (oldestKey = "") then (l, false)
  else match deref l (byKey l !! oldestKey) with
       | Some st => (dropIdentityLocked oldestKey st now l, true)
       | None => (l, false)
       end.

(** The addresses with an identity that is active or locked out. *)
Definition unsafeIPs (now : Z) (l : authLimiter) : gset string :=
  list_to_set (ipFromKey <$>
    List.filter (λ k, match deref l (byKey l !! k) with
                 | Some st => negb (idle now st) | None => false end) (range (byKey l))).

Definition evictOldestIP (now : Z) (l : authLimiter) : authLimiter * bool :=
  let unsafe := unsafeIPs now l in
  let oldestIP := oldest l (byIP l) (λ ip st, negb (bool_decide (ip ∈ unsafe)) && idle now st) in
  if bool_decide (oldestIP = "") then (l, false)
  else
    let l := fold_left
               (λ l key, if bool_decide (ipFromKey key = oldestIP)
                         then set_byKey (delete key (byKey l)) l else l)
               (range (byKey l)) l in
    (set_byIP (delete oldestIP (byIP l)) l, true).

(** [new(attemptState)] when no entry was found. *)
Definition allocIf (p : option nat) (l : authLimiter) : nat * authLimiter :=
  match p with
  | Some p => (p, l)
  | None => (next l, set_next (S (next l)) (set_heap (<[next l := newAttempt]> (heap l)) l))
  end.

Definition reserved1 (now : Z) (st : attemptState) : attemptState :=
  mkAttempt (failures st) (until st) now (inFlight st + 1).

(** The end of [reserve]: the checks and the publication of new entries, with
    the pointers the function holds at that point. *)
Definition admitReservation (now : Z) (ipKey key userKey : string)
    (ipState keyState userState : option nat) (l : authLimiter) : authLimiter * bool :=
  if (match userState with None => true | Some _ => false end)
     && (maxUser l <=? map_len (byUser l)) then (l, false)
  else if negb (canReserve (deref l ipState) now)
       || negb (canReserve (deref l keyState) now)
       || (match deref l userState with
           | Some st => freeAttempts <=? inFlight st | None => false end)
  then (l, false)
  else
    let '(ipP, l) := allocIf ipState l in
    let '(keyP, l) := allocIf keyState l in
    let '(userP, l) := allocIf userState l in
    let l := match ipState with None => set_byIP (<[ipKey := ipP]> (byIP l)) l | _ => l end in
    let l := match keyState with None => set_byKey (<[key := keyP]> (byKey l)) l | _ => l end in
    let l := match userState with
             | None => set_byUser (<[userKey := userP]> (byUser l)) l | _ => l end in
    (modify userP (reserved1 now) (modify keyP (reserved1 now) (modify ipP (reserved1 now) l)),
     true).

Definition is_none {A} (o : option A) : bool := match o with None => true | _ => false end.

(** The capacity part of [reserve]: [None] when the reservation is refused, or
    the pointers [ipState] and [keyState] the function goes on with. *)
Definition makeRoom (now : Z) (ipKey key : string) (l : authLimiter)
    : authLimiter * option (option nat * option nat) :=
  let ipState := byIP l !! ipKey in
  let keyState := byKey l !! key in
  if (is_none ipState && (maxIP l <=? map_len (byIP l)))
     || (is_none keyState && (maxKey l <=? map_len (byKey l)))
  then
    if Sub now (lastCapSweep l) <? capSweepInterval then (l, None)
    else
      let l := set_lastCapSweep now l in
      let l := forcePrune now l in
      let ipState := byIP l !! ipKey in
      let keyState := byKey l !! key in
      let '(l, ok) :=
        if is_none ipState && (maxIP l <=? map_len (byIP l))
        then evictOldestIP now l else (l, true) in
      if negb ok then (l, None)
      else
        let '(l, ok) :=
          if is_none keyState && (maxKey l <=? map_len (byKey l))
          then evictOldestKey now l else (l, true) in
        if negb ok then (l, None) else (l, Some (ipState, keyState))
  else (l, Some (ipState, keyState)).

Definition reserve (now : Z) (ip username : string) (l : authLimiter)
    : authLimiter * bool :=
  let l := maybePeriodicPrune now l in
  let '(ipKey, key, userKey) := canonicalLimiterKey ip username in
  let userState := byUser l !! userKey in
  match makeRoom now ipKey key l with
  | (l, None) => (l, false)
  | (l, Some (ipState, keyState)) =>
      admitReservation now ipKey key userKey ipState keyState userState l
  end.

(** [st == nil || st.inFlight == 0] for the identity. *)
Definition noReservation (l : authLimiter) (key : string) : bool :=
  match deref l (byKey l !! key) with
  | None => true
  | Some st => inFlight st =? 0
  end.

Definition failed (now : Z) (ip username : string) (l : authLimiter) : authLimiter :=
  let '(ipKey, key, userKey) := canonicalLimiterKey ip username in
  if noReservation l key then l
  else
    let l := convertFail (byKey l) key now l in
    let l := convertFail (byIP l) ipKey now l in
    releaseUser userKey now l.

Definition canceled (now : Z) (ip username : string) (l : authLimiter) : authLimiter :=
  let '(ipKey, key, userKey) := canonicalLimiterKey ip username in
  if noReservation l key then l
  else
    let l := releaseInFlight (byKey l) key now l in
    let l := releaseInFlight (byIP l) ipKey now l in
    let l := releaseUser userKey now l in
    dropEmpty key ipKey now l.

Definition succeeded (now : Z) (ip username : string) (l : authLimiter) : authLimiter :=
  let '(ipKey, key, userKey) := canonicalLimiterKey ip username in
  match byKey l !! key with
  | None => l
  | Some p =>
      match heap l !! p with
      | None => l
      | Some keyState =>
          if inFlight keyState =? 0 then l
          else
            let cleared := failures keyState in
            let l := modify p (succeedKey1 now) l in
            let l := if emptyState (heap l !! p) now
                     then set_byKey (delete key (byKey l)) l else l in
            let l :=
              match byIP l !! ipKey with
              | None => l
              | Some ipP =>
                  let l := modify ipP (succeedIP1 cleared now) l in
                  if emptyState (heap l !! ipP) now
                  then set_byIP (delete ipKey (byIP l)) l else l
              end in
            releaseUser userKey now l
      end
  end.
End limiter.

(** ** Views: the maps with their objects *)

Definition view (l : authLimiter) (m : gmap string nat) : gmap string attemptState :=
  omap (λ p, heap l !! p) m.

Definition iv (l : authLimiter) := view l (byIP l).
Definition kv (l : authLimiter) := view l (byKey l).
Definition uv (l : authLimiter) := view l (byUser l).

(** A place a pointer is stored at. *)
Inductive slot := SIP (k : string) | SKey (k : string) | SUser (k : string).

Definition at_slot (l : authLimiter) (s : slot) : option nat :=
  match s with
  | SIP k => byIP l !! k
  | SKey k => byKey l !! k
  | SUser k => byUser l !! k
  end.

(** No dangling pointers, and no object reachable from two places. *)
Record wf (l : authLimiter) : Prop := {
  wf_alloc : ∀ s p, at_slot l s = Some p → is_Some (heap l !! p);
  wf_inj : ∀ s s' p, at_slot l s = Some p → at_slot l s' = Some p → s = s';
  wf_next : ∀ p, is_Some (heap l !! p) → (p < next l)%nat
}.

Definition upd {A} (k : string) (o : option A) (m : gmap string A) : gmap string A :=
  partial_alter (λ _, o) k m.

Lemma lookup_upd {A} k (o : option A) m j :
  upd k o m !! j = if decide (k = j) then o else m !! j.
Proof.
  unfold upd. case_decide; subst;
    [by rewrite lookup_partial_alter_eq|by rewrite lookup_partial_alter_ne].
Qed.

Lemma lookup_view l m k : view l m !! k = deref l (m !! k).
Proof. unfold view, deref. by rewrite lookup_omap. Qed.

Lemma deref_iv l k : deref l (byIP l !! k) = iv l !! k.
Proof. by rewrite <-lookup_view. Qed.
Lemma deref_kv l k : deref l (byKey l !! k) = kv l !! k.
Proof. by rewrite <-lookup_view. Qed.
Lemma deref_uv l k : deref l (byUser l !! k) = uv l !! k.
Proof. by rewrite <-lookup_view. Qed.

(** What an update of the object at a slot does to the three views. *)
Definition upd_slot (s : slot) (o : option attemptState)
    (v : gmap string attemptState * gmap string attemptState * gmap string attemptState) :=
  let '(mI, mK, mU) := v in
  match s with
  | SIP k => (upd k o mI, mK, mU)
  | SKey k => (mI, upd k o mK, mU)
  | SUser k => (mI, mK, upd k o mU)
  end.

Definition views (l : authLimiter) := (iv l, kv l, uv l).

Definition slot_val (l : authLimiter) (s : slot) : option attemptState :=
  deref l (at_slot l s).

#[export] Instance slot_eq_dec : EqDecision slot.
Proof. solve_decision. Defined.

Definition lookup3 (v : gmap string attemptState * gmap string attemptState
    * gmap string attemptState) (s : slot) : option attemptState :=
  let '(mI, mK, mU) := v in
  match s with SIP k => mI !! k | SKey k => mK !! k | SUser k => mU !! k end.

Lemma views_ext v w : (∀ s, lookup3 v s = lookup3 w s) → v = w.
Proof.
  destruct v as [[mI mK] mU], w as [[mI' mK'] mU']. intros H. repeat f_equal; apply map_eq; intros k;
    [apply (H (SIP k))|apply (H (SKey k))|apply (H (SUser k))].
Qed.

Lemma lookup3_views l s : lookup3 (views l) s = slot_val l s.
Proof. destruct s; apply lookup_view. Qed.

Lemma lookup3_upd_slot s o v s' :
  lookup3 (upd_slot s o v) s' = if decide (s = s') then o else lookup3 v s'.
Proof.
  destruct v as [[mI mK] mU], s, s'; simpl; rewrite ?lookup_upd;
    repeat case_decide; simplify_eq; done.
Qed.

(** A write through a pointer stored at [s] changes the view there only. *)
Lemma views_modify l s p f :
  wf l → at_slot l s = Some p →
  views (modify p f l) = upd_slot s (f <$> slot_val l s) (views l) ∧ wf (modify p f l).
Proof.
  intros Hwf Hs. split.
  - apply views_ext. intros s'. rewrite lookup3_upd_slot, !lookup3_views.
    assert (Hat : at_slot (modify p f l) s' = at_slot l s') by (by destruct s').
    unfold slot_val. rewrite Hat. case_decide as Heq.
    + subst s'. rewrite Hs. simpl. by rewrite lookup_alter_eq.
    + destruct (at_slot l s') as [p'|] eqn:Hs'; [|done]. simpl.
      rewrite lookup_alter_ne; [done|]. intros ->.
      by apply Heq, (wf_inj l Hwf _ _ p').
  - assert (Hat : ∀ s', at_slot (modify p f l) s' = at_slot l s') by (by destruct s').
    constructor.
    + intros s' p'. rewrite Hat. intros H'%(wf_alloc l Hwf).
      simpl. rewrite lookup_alter. case_decide; [|done]. subst. by destruct H' as [? ->].
    + intros s1 s2 p'. rewrite !Hat. apply (wf_inj l Hwf).
    + simpl. intros p'. rewrite lookup_alter. case_decide; [|apply (wf_next l Hwf)].
      subst. rewrite fmap_is_Some. apply (wf_next l Hwf).
Qed.

Definition del_slot (s : slot) (l : authLimiter) : authLimiter :=
  match s with
  | SIP k => set_byIP (delete k (byIP l)) l
  | SKey k => set_byKey (delete k (byKey l)) l
  | SUser k => set_byUser (delete k (byUser l)) l
  end.

Definition put_slot (s : slot) (p : nat) (l : authLimiter) : authLimiter :=
  match s with
  | SIP k => set_byIP (<[k := p]> (byIP l)) l
  | SKey k => set_byKey (<[k := p]> (byKey l)) l
  | SUser k => set_byUser (<[k := p]> (byUser l)) l
  end.

Lemma at_del_slot s l s' :
  at_slot (del_slot s l) s' = if decide (s = s') then None else at_slot l s'.
Proof.
  destruct s, s'; simpl; rewrite ?lookup_delete; repeat case_decide; simplify_eq; done.
Qed.

Lemma at_put_slot s p l s' :
  at_slot (put_slot s p l) s' = if decide (s = s') then Some p else at_slot l s'.
Proof.
  destruct s, s'; simpl; rewrite ?lookup_insert; repeat case_decide; simplify_eq; done.
Qed.

Lemma heap_del_slot s l : heap (del_slot s l) = heap l.
Proof. by destruct s. Qed.
Lemma heap_put_slot s p l : heap (put_slot s p l) = heap l.
Proof. by destruct s. Qed.
Lemma next_del_slot s l : next (del_slot s l) = next l.
Proof. by destruct s. Qed.
Lemma next_put_slot s p l : next (put_slot s p l) = next l.
Proof. by destruct s. Qed.

Lemma views_del_slot l s :
  wf l → views (del_slot s l) = upd_slot s None (views l) ∧ wf (del_slot s l).
Proof.
  intros Hwf. split.
  - apply views_ext. intros s'. rewrite lookup3_upd_slot, !lookup3_views.
    unfold slot_val, deref. rewrite at_del_slot, heap_del_slot. by case_decide.
  - constructor.
    + intros s' p. rewrite at_del_slot, heap_del_slot. case_decide; [done|].
      apply (wf_alloc l Hwf).
    + intros s1 s2 p. rewrite !at_del_slot. repeat case_decide; try done.
      apply (wf_inj l Hwf).
    + intros p. rewrite heap_del_slot, next_del_slot. apply (wf_next l Hwf).
Qed.

(** Publishing a fresh object at an empty slot. *)
Definition alloc_at (s : slot) (st : attemptState) (l : authLimiter) : authLimiter :=
  put_slot s (next l) (set_next (S (next l)) (set_heap (<[next l := st]> (heap l)) l)).

Lemma views_alloc_at l s st :
  wf l → views (alloc_at s st l) = upd_slot s (Some st) (views l) ∧ wf (alloc_at s st l).
Proof.
  intros Hwf.
  assert (Hat : ∀ s', at_slot (alloc_at s st l) s' =
            if decide (s = s') then Some (next l) else at_slot l s').
  { intros s'. unfold alloc_at. rewrite at_put_slot. by destruct s'. }
  assert (Hheap : heap (alloc_at s st l) = <[next l := st]> (heap l)).
  { unfold alloc_at. by rewrite heap_put_slot. }
  assert (Hold : ∀ s' p, at_slot l s' = Some p → (p < next l)%nat).
  { intros s' p Hp. apply (wf_next l Hwf), (wf_alloc l Hwf _ _ Hp). }
  split.
  - apply views_ext. intros s'. rewrite lookup3_upd_slot, !lookup3_views.
    unfold slot_val. rewrite Hat. case_decide; simpl.
    + rewrite Hheap. by rewrite lookup_insert_eq.
    + destruct (at_slot l s') as [p|] eqn:Hp; [|done]. simpl. rewrite Hheap.
      rewrite lookup_insert_ne; [done|]. apply Hold in Hp. lia.
  - constructor.
    + intros s' p. rewrite Hat, Hheap. case_decide; intros Hp; simplify_eq.
      * rewrite lookup_insert_eq. eauto.
      * rewrite lookup_insert_is_Some. right. split.
        -- apply Hold in Hp. lia.
        -- by apply (wf_alloc l Hwf s').
    + intros s1 s2 p. rewrite !Hat.
      repeat case_decide; intros H1 H2; simplify_eq; try done.
      * apply Hold in H2. lia.
      * apply Hold in H1. lia.
      * by apply (wf_inj l Hwf s1 s2 p).
    + intros p. rewrite Hheap. unfold alloc_at. rewrite next_put_slot. simpl.
      rewrite lookup_insert_is_Some. intros [->|[_ Hp]]; [lia|].
      apply (wf_next l Hwf) in Hp. lia.
Qed.

(** ** Invariant *)

Fixpoint after_nul (l : list ascii) : list ascii :=
  match l with
  | [] => []
  | c :: l => if is_char 0 c then l else after_nul l
  end.

Definition userFromKey (key : string) : string := of_list (after_nul (str_list key)).

Lemma before_nul_app l r :
  (∀ c, c ∈ l → byte_val c ≠ 0) → before_nul (l ++ nul :: r) = l.
Proof.
  induction l as [|c l IH]; intros H; [done|]. simpl.
  destruct (is_char 0 c) eqn:E.
  - apply is_char_true in E. exfalso. apply (H c); [left|done].
  - f_equal. apply IH. intros d Hd. apply H. by right.
Qed.

Lemma after_nul_app l r :
  (∀ c, c ∈ l → byte_val c ≠ 0) → after_nul (l ++ nul :: r) = r.
Proof.
  induction l as [|c l IH]; intros H; [done|]. simpl.
  destruct (is_char 0 c) eqn:E.
  - apply is_char_true in E. exfalso. apply (H c); [left|done].
  - apply IH. intros d Hd. apply H. by right.
Qed.

Definition key_of (ip u : string) : string := ip +:+ of_list [nul] +:+ u.

Lemma ipFromKey_key ip u : contains_byte 0 ip = false → ipFromKey (key_of ip u) = ip.
Proof.
  intros H. rewrite contains_byte_false in H. unfold ipFromKey, key_of.
  rewrite !str_list_app, str_list_of_list. simpl.
  rewrite before_nul_app by done. apply of_list_str_list.
Qed.

Lemma userFromKey_key ip u : contains_byte 0 ip = false → userFromKey (key_of ip u) = u.
Proof.
  intros H. rewrite contains_byte_false in H. unfold userFromKey, key_of.
  rewrite !str_list_app, str_list_of_list. simpl.
  rewrite after_nul_app by done. apply of_list_str_list.
Qed.

Abbreviation states := (gmap string attemptState).

(** Sum of a contribution over the identities selected by [f]. *)
Definition contribution (f : string → string) (x : attemptState → Z) (K : states)
    (who : string) : Z :=
  map_sum (λ k st, if decide (f k = who) then x st else 0) K.

(** At most [freeAttempts] failed or pending guesses, then one at a time. *)
Definition budget_ok (st : attemptState) : Prop :=
  failures st + inFlight st ≤ freeAttempts ∨
  (freeAttempts ≤ failures st ∧ inFlight st ≤ 1).

(** A retained state at or before the instant [t]. *)
Record st_ok (t : Z) (st : attemptState) : Prop := {
  so_failures : 0 ≤ failures st;
  so_inFlight : 0 ≤ inFlight st;
  so_live : 0 < failures st + inFlight st;
  so_until : failures st < freeAttempts → until st = zeroTime;
  so_lockout : until st ≤ seen st + lockoutMax;
  so_seen : seen st ≤ t;
  so_budget : budget_ok st
}.

Record inv (t : Z) (mI mK mU : states) : Prop := {
  inv_key : ∀ k st, mK !! k = Some st → st_ok t st;
  inv_ip : ∀ ip st, mI !! ip = Some st → st_ok t st;
  inv_has_ip : ∀ k st, mK !! k = Some st →
    ∃ ist, mI !! ipFromKey k = Some ist ∧ seen st ≤ seen ist;
  inv_failures : ∀ ip st, mI !! ip = Some st →
    failures st = contribution ipFromKey failures mK ip;
  inv_inFlight : ∀ ip st, mI !! ip = Some st →
    inFlight st = contribution ipFromKey inFlight mK ip;
  inv_user : ∀ u, from_option inFlight 0 (mU !! u) = contribution userFromKey inFlight mK u;
  inv_user_ok : ∀ u st, mU !! u = Some st →
    failures st = 0 ∧ 0 < inFlight st ≤ freeAttempts
}.

Lemma contribution_upd f x K k o who :
  contribution f x (upd k o K) who =
  contribution f x K who +
  (if decide (f k = who) then from_option x 0 o - from_option x 0 (K !! k) else 0).
Proof.
  unfold contribution, upd. destruct (K !! k) as [st|] eqn:HK, o as [st'|].
  - change (partial_alter (λ _, Some st') k K) with (<[k := st']> K).
    rewrite (map_sum_update _ _ _ st) by done. simpl. case_decide; lia.
  - change (partial_alter (λ _, None) k K) with (delete k K).
    rewrite (map_sum_delete _ _ _ st) by done. simpl. case_decide; lia.
  - change (partial_alter (λ _, Some st') k K) with (<[k := st']> K).
    rewrite map_sum_insert by done. simpl. case_decide; lia.
  - change (partial_alter (λ _, None) k K) with (delete k K).
    rewrite delete_id by done. simpl. case_decide; lia.
Qed.

Lemma contribution_none f x K who :
  (∀ k st, K !! k = Some st → f k ≠ who) → contribution f x K who = 0.
Proof.
  intros H. unfold contribution. rewrite (map_sum_ext _ (λ _ _, 0)).
  { apply map_sum_zero. }
  intros k st Hk. rewrite decide_False; [done|by apply (H k st)].
Qed.

(** If the failures and pending attempts of an address add up to nothing, no
    identity of that address is retained. *)
Lemma contribution_zero t mK who :
  (∀ k st, mK !! k = Some st → st_ok t st) →
  contribution ipFromKey failures mK who + contribution ipFromKey inFlight mK who = 0 →
  ∀ k st, mK !! k = Some st → ipFromKey k ≠ who.
Proof.
  intros Hok Hsum k st Hk Hf.
  assert (H1 : (if decide (ipFromKey k = who) then failures st else 0)
               ≤ contribution ipFromKey failures mK who).
  { apply (map_sum_lookup_le (λ k st, if decide (ipFromKey k = who) then failures st else 0)
             mK k st); [|done].
    intros j st' Hj. destruct (decide (ipFromKey j = who)); [apply (Hok _ _ Hj)|lia]. }
  assert (H2 : (if decide (ipFromKey k = who) then inFlight st else 0)
               ≤ contribution ipFromKey inFlight mK who).
  { apply (map_sum_lookup_le (λ k st, if decide (ipFromKey k = who) then inFlight st else 0)
             mK k st); [|done].
    intros j st' Hj. destruct (decide (ipFromKey j = who)); [apply (Hok _ _ Hj)|lia]. }
  rewrite decide_True in H1, H2 by done.
  pose proof (so_live _ _ (Hok _ _ Hk)). lia.
Qed.

Lemma st_ok_mono t t' st : st_ok t st → t ≤ t' → st_ok t' st.
Proof. intros [] ?. constructor; try done. lia. Qed.

Abbreviation zfail o := (from_option failures 0 o).
Abbreviation zfly o := (from_option inFlight 0 o).

(** The one lemma behind every operation: an identity [k], its address and its
    user change to [o], [oi] and [ou] by the same amounts. *)
Lemma inv_change t now mI mK mU k o oi ou :
  inv t mI mK mU → t ≤ now →
  (∀ st, o = Some st → st_ok now st ∧ ∃ ist, oi = Some ist ∧ seen st ≤ seen ist) →
  (∀ ist, oi = Some ist → st_ok now ist ∧
     ∀ ist0, mI !! ipFromKey k = Some ist0 → seen ist0 ≤ seen ist) →
  zfail oi - zfail (mI !! ipFromKey k) = zfail o - zfail (mK !! k) →
  zfly oi - zfly (mI !! ipFromKey k) = zfly o - zfly (mK !! k) →
  zfly ou - zfly (mU !! userFromKey k) = zfly o - zfly (mK !! k) →
  (∀ us, ou = Some us → failures us = 0 ∧ 0 < inFlight us ≤ freeAttempts) →
  inv now (upd (ipFromKey k) oi mI) (upd k o mK) (upd (userFromKey k) ou mU).
Proof.
  intros Hinv Ht Ho Hoi Hf Hl Hu Hus.
  assert (Hsum : ∀ x, (∀ st, mI !! ipFromKey k = Some st →
     x st = contribution ipFromKey x mK (ipFromKey k)) →
     from_option x 0 (mI !! ipFromKey k) = contribution ipFromKey x mK (ipFromKey k)).
  { intros x Hx. destruct (mI !! ipFromKey k) as [ist|] eqn:E; simpl; [by apply Hx|].
    symmetry. apply contribution_none. intros j st Hj Hje.
    destruct (inv_has_ip _ _ _ _ Hinv _ _ Hj) as (ist & Hist & _). congruence. }
  assert (HF := Hsum failures (inv_failures _ _ _ _ Hinv _)).
  assert (HL := Hsum inFlight (inv_inFlight _ _ _ _ Hinv _)). clear Hsum.
  assert (Hkeys : ∀ j st, upd k o mK !! j = Some st → st_ok now st).
  { intros j st. rewrite lookup_upd. case_decide.
    - intros Hst. by apply Ho.
    - intros Hj. apply (st_ok_mono t); [|done]. by apply (inv_key _ _ _ _ Hinv j). }
  assert (HF' : zfail oi = contribution ipFromKey failures (upd k o mK) (ipFromKey k)).
  { rewrite contribution_upd, decide_True by done. lia. }
  assert (HL' : zfly oi = contribution ipFromKey inFlight (upd k o mK) (ipFromKey k)).
  { rewrite contribution_upd, decide_True by done. lia. }
  constructor.
  - exact Hkeys.
  - intros ip st. rewrite lookup_upd. case_decide.
    + intros Hst. by apply Hoi.
    + intros Hj. apply (st_ok_mono t); [|done]. by apply (inv_ip _ _ _ _ Hinv ip).
  - intros j st Hj. pose proof Hj as Hj'. rewrite lookup_upd in Hj. case_decide.
    + subst j. destruct (Ho st Hj) as (_ & ist & -> & Hseen).
      exists ist. by rewrite lookup_upd, decide_True.
    + destruct (inv_has_ip _ _ _ _ Hinv _ _ Hj) as (ist & Hist & Hseen).
      rewrite lookup_upd. case_decide as Heq; [|eauto].
      destruct oi as [ist'|].
      * exists ist'. split; [done|]. rewrite Heq in Hoi.
        destruct (Hoi ist' eq_refl) as [_ Hs]. specialize (Hs ist Hist). lia.
      * exfalso. simpl in HF', HL'.
        apply (contribution_zero now (upd k o mK) (ipFromKey k) Hkeys ltac:(lia) j st Hj').
        done.
  - intros ip st. rewrite lookup_upd. case_decide; intros Hst.
    + subst ip. rewrite <-HF'. by rewrite Hst.
    + rewrite contribution_upd, decide_False by done.
      rewrite <-(inv_failures _ _ _ _ Hinv ip st) by done. lia.
  - intros ip st. rewrite lookup_upd. case_decide; intros Hst.
    + subst ip. rewrite <-HL'. by rewrite Hst.
    + rewrite contribution_upd, decide_False by done.
      rewrite <-(inv_inFlight _ _ _ _ Hinv ip st) by done. lia.
  - intros u. rewrite lookup_upd, contribution_upd.
    pose proof (inv_user _ _ _ _ Hinv u). case_decide; subst; lia.
  - intros u st. rewrite lookup_upd. case_decide; [apply Hus|].
    apply (inv_user_ok _ _ _ _ Hinv).
Qed.

(** ** The operations on views

    Each primitive transforms the views by a function of the views alone, and
    keeps the store well formed. *)

Abbreviation vtriple := (states * states * states)%type.

Definition refines (op : authLimiter → authLimiter) (f : vtriple → vtriple) : Prop :=
  ∀ l, wf l → views (op l) = f (views l) ∧ wf (op l).

Lemma refines_compose op1 op2 f1 f2 :
  refines op1 f1 → refines op2 f2 → refines (λ l, op2 (op1 l)) (λ v, f2 (f1 v)).
Proof.
  intros H1 H2 l Hwf. destruct (H1 l Hwf) as [E1 W1]. destruct (H2 _ W1) as [E2 W2].
  by rewrite E2, E1.
Qed.

Definition t_mod (s : slot) (f : attemptState → attemptState) (v : vtriple) : vtriple :=
  upd_slot s (f <$> lookup3 v s) v.

Definition settle (now : Z) (o : option attemptState) : option attemptState :=
  if emptyState o now then None else o.

Definition t_settle (s : slot) (now : Z) (v : vtriple) : vtriple :=
  upd_slot s (settle now (lookup3 v s)) v.

Lemma upd_slot_id s v : upd_slot s (lookup3 v s) v = v.
Proof.
  apply views_ext. intros s'. rewrite lookup3_upd_slot. by case_decide; subst.
Qed.

Lemma upd_upd {A} k (o o' : option A) m : upd k o (upd k o' m) = upd k o m.
Proof. apply map_eq. intros j. rewrite !lookup_upd. by case_decide. Qed.

Lemma refines_mod s f :
  refines (λ l, match at_slot l s with Some p => modify p f l | None => l end) (t_mod s f).
Proof.
  intros l Hwf. unfold t_mod. rewrite lookup3_views.
  destruct (at_slot l s) as [p|] eqn:E; [by apply views_modify|].
  split; [|done]. rewrite <-(upd_slot_id s (views l)) at 1.
  rewrite lookup3_views. unfold slot_val. by rewrite E.
Qed.

Lemma refines_settle s now :
  refines (λ l, if emptyState (slot_val l s) now then del_slot s l else l) (t_settle s now).
Proof.
  intros l Hwf. unfold t_settle, settle. rewrite lookup3_views.
  destruct (emptyState (slot_val l s) now); [by apply views_del_slot|].
  split; [|done]. by rewrite <-lookup3_views, upd_slot_id.
Qed.

(** Fields of the limiter that no object update touches. *)
Definition same_config (l l' : authLimiter) : Prop :=
  maxIP l' = maxIP l ∧ maxKey l' = maxKey l ∧ maxUser l' = maxUser l ∧
  expiry l' = expiry l ∧ pruneEvery l' = pruneEvery l.

Lemma refines_convertFail_key key now :
  refines (λ l, convertFail (byKey l) key now l) (t_mod (SKey key) (fail1 now)).
Proof. exact (refines_mod (SKey key) (fail1 now)). Qed.

Lemma refines_convertFail_ip ip now :
  refines (λ l, convertFail (byIP l) ip now l) (t_mod (SIP ip) (fail1 now)).
Proof. exact (refines_mod (SIP ip) (fail1 now)). Qed.

Lemma refines_release_key key now :
  refines (λ l, releaseInFlight (byKey l) key now l) (t_mod (SKey key) (release1 now)).
Proof. exact (refines_mod (SKey key) (release1 now)). Qed.

Lemma refines_release_ip ip now :
  refines (λ l, releaseInFlight (byIP l) ip now l) (t_mod (SIP ip) (release1 now)).
Proof. exact (refines_mod (SIP ip) (release1 now)). Qed.

Definition releasedUser (now : Z) (o : option attemptState) : option attemptState :=
  us ← o; let us' := release1 now us in if inFlight us' =? 0 then None else Some us'.

Definition t_user (u : string) (now : Z) (v : vtriple) : vtriple :=
  upd_slot (SUser u) (releasedUser now (lookup3 v (SUser u))) v.

Lemma upd_slot_twice s o o' v : upd_slot s o (upd_slot s o' v) = upd_slot s o v.
Proof. apply views_ext. intros s'. rewrite !lookup3_upd_slot. by case_decide. Qed.

Lemma refines_releaseUser u now : refines (releaseUser u now) (t_user u now).
Proof.
  intros l Hwf. unfold releaseUser, t_user. rewrite lookup3_views.
  destruct (byUser l !! u) as [p|] eqn:E.
  - destruct (views_modify l (SUser u) p (release1 now) Hwf E) as [Ev Hwf'].
    destruct (wf_alloc l Hwf (SUser u) p E) as [us Hus].
    assert (Hval : slot_val l (SUser u) = Some us).
    { unfold slot_val. cbn [at_slot]. rewrite E. exact Hus. }
    rewrite Hval in Ev |- *. cbn [fmap option_fmap option_map] in Ev.
    assert (Hheap : heap (modify p (release1 now) l) !! p = Some (release1 now us)).
    { cbn. by rewrite lookup_alter_eq, Hus. }
    cbn zeta. rewrite Hheap. unfold releasedUser. cbn [mbind option_bind].
    destruct (inFlight (release1 now us) =? 0); [|done].
    destruct (views_del_slot _ (SUser u) Hwf') as [Ev' Hwf''].
    split; [|exact Hwf'']. rewrite Ev, upd_slot_twice in Ev'. exact Ev'.
  - split; [|done].
    rewrite <-(upd_slot_id (SUser u) (views l)) at 1.
    rewrite lookup3_views. unfold slot_val. cbn [at_slot]. by rewrite E.
Qed.

Lemma refines_dropEmpty key ip now :
  refines (dropEmpty key ip now)
    (λ v, t_settle (SIP ip) now (t_settle (SKey key) now v)).
Proof.
  exact (refines_compose _ _ _ _ (refines_settle (SKey key) now) (refines_settle (SIP ip) now)).
Qed.

Definition t_dropIdentity (key : string) (st : attemptState) (now : Z) (v : vtriple)
    : vtriple :=
  upd_slot (SKey key) None
    (t_settle (SIP (ipFromKey key)) now (t_mod (SIP (ipFromKey key)) (dropIP1 st now) v)).

Lemma refines_mod_settle s f now :
  refines (λ l, match at_slot l s with
                | None => l
                | Some p =>
                    let l := modify p f l in
                    if emptyState (heap l !! p) now then del_slot s l else l
                end) (λ v, t_settle s now (t_mod s f v)).
Proof.
  intros l Hwf. destruct (refines_mod s f l Hwf) as [E1 W1].
  destruct (refines_settle s now _ W1) as [E2 W2]. rewrite E1 in E2. rewrite <-E2.
  clear E1 E2. revert W1 W2. unfold slot_val, deref.
  destruct (at_slot l s) as [p|] eqn:E.
  - assert (at_slot (modify p f l) s = Some p) as -> by (by destruct s). done.
  - rewrite E. done.
Qed.

Lemma refines_dropIdentity key st now :
  refines (dropIdentityLocked key st now) (t_dropIdentity key st now).
Proof.
  exact (refines_compose _ _ _ _
    (refines_mod_settle (SIP (ipFromKey key)) (dropIP1 st now) now)
    (λ l Hwf, views_del_slot l (SKey key) Hwf)).
Qed.

(** ** Terminal operations preserve the invariant *)

(** [st_ok] without the requirement that something is retained. *)
Record st_pre (t : Z) (st : attemptState) : Prop := {
  sp_failures : 0 ≤ failures st;
  sp_inFlight : 0 ≤ inFlight st;
  sp_until : failures st < freeAttempts → until st = zeroTime;
  sp_lockout : until st ≤ seen st + lockoutMax;
  sp_seen : seen st ≤ t;
  sp_budget : budget_ok st
}.

Lemma st_pre_ok t st : st_pre t st → 0 < failures st + inFlight st → st_ok t st.
Proof. intros [] ?. by constructor. Qed.

Lemma settle_spec now st :
  zeroTime ≤ now → st_pre now st →
  (settle now (Some st) = None ∧ failures st = 0 ∧ inFlight st = 0) ∨
  (settle now (Some st) = Some st ∧ st_ok now st).
Proof.
  intros Hz Hp. unfold settle, emptyState.
  destruct (_ && _) eqn:E; zbool.
  - by left.
  - right. split; [done|]. apply st_pre_ok; [done|]. destruct Hp.
    destruct (failures st =? 0) eqn:Ef; simpl in E; zbool; [|lia].
    destruct (inFlight st =? 0) eqn:Ei; simpl in E; zbool; [|lia].
    rewrite sp_until0 in E by (unfold freeAttempts; lia). lia.
Qed.

Ltac by_states :=
  unfold budget_ok, fail1, release1, succeedKey1, succeedIP1, dropIP1, reserved1,
    dec, subtract, freeAttempts, lockoutMax, lockoutBase, minute, second in *;
  repeat (case_match; zbool); simpl in *; try lia; auto with lia.

Section terminal.
Context {t now : Z} (Ht : t ≤ now) (Hz : zeroTime ≤ t).

Lemma fail1_ok st : st_ok t st → 0 < inFlight st → st_ok now (fail1 now st).
Proof.
  intros [Hf Hi Hl Hu Hk Hs Hb] Hp. constructor; by_states.
Qed.

Lemma release1_pre st : st_ok t st → 0 < inFlight st → st_pre now (release1 now st).
Proof. intros [Hf Hi Hl Hu Hk Hs Hb] Hp. constructor; by_states. Qed.

Lemma succeedKey1_pre st : st_ok t st → 0 < inFlight st → st_pre now (succeedKey1 now st).
Proof. intros [Hf Hi Hl Hu Hk Hs Hb] Hp. constructor; by_states. Qed.

Lemma succeedIP1_pre st c :
  st_ok t st → 0 < inFlight st → 0 ≤ c ≤ failures st → st_pre now (succeedIP1 c now st).
Proof. intros [Hf Hi Hl Hu Hk Hs Hb] Hp Hc. constructor; by_states. Qed.

Lemma dropIP1_pre st g :
  st_ok t st → 0 ≤ failures g ≤ failures st → inFlight g = 0 → st_pre now (dropIP1 g now st).
Proof. intros [Hf Hi Hl Hu Hk Hs Hb] Hc Hg. constructor; by_states. Qed.
End terminal.

(** The limiter invariant at the instant [t]: a well-formed store whose views
    satisfy [inv]. *)
Definition limiter_inv (t : Z) (l : authLimiter) : Prop :=
  wf l ∧ inv t (iv l) (kv l) (uv l).

Definition inv3 (t : Z) (v : vtriple) : Prop := inv t v.1.1 v.1.2 v.2.

Lemma limiter_inv_views t l v : wf l → views l = v → inv3 t v → limiter_inv t l.
Proof. intros Hwf <- H. by split. Qed.

Section key_facts.
Context {t : Z} {mI mK mU : states} (Hinv : inv t mI mK mU).

Lemma contribution_lookup_le f x k st :
  (∀ st, st_ok t st → 0 ≤ x st) → mK !! k = Some st →
  x st ≤ contribution f x mK (f k).
Proof.
  intros Hx Hk.
  pose proof (map_sum_lookup_le
    (λ k' st, if decide (f k' = f k) then x st else 0) mK k st) as Hle.
  cbn beta in Hle. rewrite decide_True in Hle by done. apply Hle; [|done].
  intros j st' Hj. destruct (decide _); [|lia]. by apply Hx, (inv_key _ _ _ _ Hinv j).
Qed.

(** The address of a retained identity is retained and dominates it. *)
Lemma key_ip k st :
  mK !! k = Some st →
  st_ok t st ∧
  ∃ ist, mI !! ipFromKey k = Some ist ∧ st_ok t ist ∧ failures st ≤ failures ist ∧
         inFlight st ≤ inFlight ist ∧ seen st ≤ seen ist.
Proof.
  intros Hk. split; [by apply (inv_key _ _ _ _ Hinv k)|].
  destruct (inv_has_ip _ _ _ _ Hinv _ _ Hk) as (ist & Hist & Hs).
  exists ist. split_and!; [done|by apply (inv_ip _ _ _ _ Hinv (ipFromKey k))| | |done].
  - rewrite (inv_failures _ _ _ _ Hinv _ _ Hist).
    apply (contribution_lookup_le ipFromKey failures); [by intros ? []|done].
  - rewrite (inv_inFlight _ _ _ _ Hinv _ _ Hist).
    apply (contribution_lookup_le ipFromKey inFlight); [by intros ? []|done].
Qed.

(** An active identity is counted for its user. *)
Lemma key_user k st :
  mK !! k = Some st → 0 < inFlight st →
  ∃ us, mU !! userFromKey k = Some us ∧ inFlight st ≤ inFlight us ∧
        failures us = 0 ∧ inFlight us ≤ freeAttempts.
Proof.
  intros Hk Hp.
  pose proof (contribution_lookup_le userFromKey inFlight k st (λ _ H, so_inFlight _ _ H) Hk)
    as Hle.
  rewrite <-(inv_user _ _ _ _ Hinv) in Hle.
  destruct (mU !! userFromKey k) as [us|] eqn:E; simpl in Hle; [|lia].
  exists us. destruct (inv_user_ok _ _ _ _ Hinv _ _ E). split_and!; (done || lia).
Qed.

Lemma releasedUser_spec now us :
  failures us = 0 → 0 < inFlight us ≤ freeAttempts →
  zfly (releasedUser now (Some us)) = inFlight us - 1 ∧
  ∀ us', releasedUser now (Some us) = Some us' →
    failures us' = 0 ∧ 0 < inFlight us' ≤ freeAttempts.
Proof.
  intros Hf Hi. unfold releasedUser, release1, dec. simpl.
  destruct (0 <? inFlight us) eqn:E; zbool; [|lia].
  destruct (inFlight us - 1 =? 0) eqn:E2; zbool; simpl; [split; [lia|done]|].
  split; [done|]. intros us' [= <-]. simpl. lia.
Qed.
End key_facts.

Lemma inv_mono t t' mI mK mU : inv t mI mK mU → t ≤ t' → inv t' mI mK mU.
Proof. intros [] ?. constructor; eauto using st_ok_mono. Qed.

Section operations.
Variable range : gmap string nat → list string.
Variable canonUser : string → string.
Context {t now : Z} (Ht : t ≤ now) (Hz : zeroTime ≤ t).
Context (ip username : string) (Hip : contains_byte 0 ip = false).

Let u := canonUser username.
Let key := key_of ip u.

Lemma reservation_present l :
  noReservation l key = false → ∃ st, kv l !! key = Some st ∧ inFlight st ≠ 0.
Proof.
  unfold noReservation. rewrite deref_kv.
  destruct (kv l !! key) as [st|]; [|done]. intros E. zbool. eauto.
Qed.

(** [inv_change] for this identity, address and user. *)
Lemma inv_change_here mI mK mU o oi ou :
  inv t mI mK mU →
  (∀ st, o = Some st → st_ok now st ∧ ∃ ist, oi = Some ist ∧ seen st ≤ seen ist) →
  (∀ ist, oi = Some ist → st_ok now ist ∧
     ∀ ist0, mI !! ip = Some ist0 → seen ist0 ≤ seen ist) →
  zfail oi - zfail (mI !! ip) = zfail o - zfail (mK !! key) →
  zfly oi - zfly (mI !! ip) = zfly o - zfly (mK !! key) →
  zfly ou - zfly (mU !! u) = zfly o - zfly (mK !! key) →
  (∀ us, ou = Some us → failures us = 0 ∧ 0 < inFlight us ≤ freeAttempts) →
  inv now (upd ip oi mI) (upd key o mK) (upd u ou mU).
Proof.
  intros Hinv.
  pose proof (inv_change t now mI mK mU key o oi ou Hinv Ht) as Hc.
  unfold key in Hc |- *. by rewrite ipFromKey_key, userFromKey_key in Hc.
Qed.

(** Facts about an identity with a pending attempt. *)
Lemma pending_facts l :
  limiter_inv t l → noReservation l key = false →
  ∃ st ist us,
    kv l !! key = Some st ∧ iv l !! ip = Some ist ∧ uv l !! u = Some us ∧
    st_ok t st ∧ st_ok t ist ∧ 0 < inFlight st ≤ inFlight ist ∧
    0 ≤ failures st ≤ failures ist ∧ seen st ≤ seen ist ∧
    failures us = 0 ∧ 0 < inFlight us ≤ freeAttempts.
Proof.
  intros [Hwf Hinv] Hno. destruct (reservation_present l Hno) as (st & Hst & Hne).
  destruct (key_ip Hinv _ _ Hst) as (Hok & ist & Hist & Hiok & Hf & Hi & Hs).
  destruct (key_user Hinv _ _ Hst) as (us & Hus & Hle & Huf & Hub).
  { pose proof (so_inFlight _ _ Hok). lia. }
  unfold key in Hist, Hus. rewrite ipFromKey_key in Hist by done.
  rewrite userFromKey_key in Hus by done.
  pose proof (so_inFlight _ _ Hok). pose proof (so_failures _ _ Hok).
  exists st, ist, us. split_and!; try done; lia.
Qed.

Lemma failed_inv l : limiter_inv t l → limiter_inv now (failed canonUser now ip username l).
Proof.
  intros Hl. pose proof Hl as [Hwf Hinv]. unfold failed. cbn [canonicalLimiterKey].
  fold u. fold (key_of ip u). fold key.
  destruct (noReservation l key) eqn:Hno.
  { split; [done|]. by apply (inv_mono t). }
  destruct (pending_facts l Hl Hno)
    as (st & ist & us & Hst & Hist & Hus & Hok & Hiok & Hi & Hf & Hs & Huf & Hub).
  destruct (refines_compose _ _ _ _ (refines_convertFail_key key now)
    (refines_compose _ _ _ _ (refines_convertFail_ip ip now)
      (refines_releaseUser u now)) l Hwf) as [Ev Wv].
  split; [exact Wv|]. revert Ev. unfold views, t_user, t_mod. simpl.
  rewrite Hst, Hist, Hus. cbn [fmap option_fmap option_map]. intros [= -> -> ->].
  destruct (releasedUser_spec now us Huf Hub) as [Hzu Hus'].
  apply inv_change_here; [done| | | | | |exact Hus'];
    rewrite ?Hst, ?Hist, ?Hus, ?Hzu; cbn [from_option].
  - intros ? [= <-]. split; [apply (fail1_ok Ht Hz); [done|lia]|]. eexists; split; [done|].
    by_states.
  - intros ? [= <-]. split; [apply (fail1_ok Ht Hz); [done|lia]|].
    intros ist0 [= <-]. pose proof (so_seen _ _ Hiok). by_states.
  - by_states.
  - by_states.
  - by_states.
Qed.

(** [inv_change_here] when the identity and its address are written and then
    dropped if nothing is retained in them, and the user's slot is released. *)
Lemma inv_settle_here mI mK mU st ist us st' ist' :
  inv t mI mK mU → mK !! key = Some st → mI !! ip = Some ist → mU !! u = Some us →
  failures us = 0 → 0 < inFlight us ≤ freeAttempts → seen ist ≤ now →
  st_pre now st' → st_pre now ist' → seen st' = now → seen ist' = now →
  failures st' ≤ failures ist' → inFlight st' ≤ inFlight ist' →
  failures ist' - failures ist = failures st' - failures st →
  inFlight ist' - inFlight ist = inFlight st' - inFlight st →
  inFlight st' = inFlight st - 1 →
  inv now (upd ip (settle now (Some ist')) mI) (upd key (settle now (Some st')) mK)
    (upd u (releasedUser now (Some us)) mU).
Proof.
  intros Hinv Hst Hist Hus Huf Hub Hseen Hp Hip' Hs' His' Hf Hi Hdf Hdi Hone.
  destruct (releasedUser_spec now us Huf Hub) as [Hzu Hus'].
  assert (Hnow : zeroTime ≤ now) by lia.
  destruct (settle_spec now st' Hnow Hp) as [(-> & Ef & Ei)|[-> Hok']];
    destruct (settle_spec now ist' Hnow Hip') as [(-> & Eif & Eii)|[-> Hiok']];
    (apply inv_change_here; [done| | | | | |exact Hus'];
      rewrite ?Hst, ?Hist, ?Hus, ?Hzu; cbn [from_option]; try done; try lia).
  - intros ? [= <-]. split; [done|]. intros ? [= <-]. lia.
  - exfalso. pose proof (so_live _ _ Hok'). pose proof (so_failures _ _ Hok').
    pose proof (so_inFlight _ _ Hok'). lia.
  - intros ? [= <-]. split; [done|]. exists ist'. split; [done|lia].
  - intros ? [= <-]. split; [done|]. intros ? [= <-]. lia.
Qed.

Lemma canceled_inv l : limiter_inv t l → limiter_inv now (canceled canonUser now ip username l).
Proof.
  intros Hl. pose proof Hl as [Hwf Hinv]. unfold canceled. cbn [canonicalLimiterKey].
  fold u. fold (key_of ip u). fold key.
  destruct (noReservation l key) eqn:Hno.
  { split; [done|]. by apply (inv_mono t). }
  destruct (pending_facts l Hl Hno)
    as (st & ist & us & Hst & Hist & Hus & Hok & Hiok & Hi & Hf & Hs & Huf & Hub).
  destruct (refines_compose _ _ _ _ (refines_release_key key now)
    (refines_compose _ _ _ _ (refines_release_ip ip now)
      (refines_compose _ _ _ _ (refines_releaseUser u now)
        (refines_dropEmpty key ip now))) l Hwf) as [Ev Wv].
  split; [exact Wv|]. revert Ev. unfold views, t_user, t_mod, t_settle. simpl.
  rewrite !lookup_upd, !decide_True by done. rewrite !upd_upd.
  rewrite Hst, Hist, Hus. cbn [fmap option_fmap option_map]. intros [= -> -> ->].
  pose proof (so_seen _ _ Hiok).
  eapply inv_settle_here; try done; try lia;
    try (apply (release1_pre Ht Hz); [done|lia]); by_states.
Qed.

Lemma succeeded_inv l :
  limiter_inv t l → limiter_inv now (succeeded canonUser now ip username l).
Proof.
  intros Hl. pose proof Hl as [Hwf Hinv]. unfold succeeded. cbn [canonicalLimiterKey].
  fold u. fold (key_of ip u). fold key.
  assert (Hsame : limiter_inv now l) by (split; [done|by apply (inv_mono t)]).
  destruct (byKey l !! key) as [p|] eqn:Hp; [|done].
  destruct (heap l !! p) as [st0|] eqn:Hp0; [|done].
  assert (Hk : kv l !! key = Some st0).
  { rewrite <-deref_kv, Hp. exact Hp0. }
  destruct (inFlight st0 =? 0) eqn:Hno; [done|].
  destruct (pending_facts l Hl)
    as (st & ist & us & Hst & Hist & Hus & Hok & Hiok & Hi & Hf & Hs & Huf & Hub).
  { unfold noReservation. by rewrite deref_kv, Hk. }
  assert (st0 = st) as -> by congruence.
  destruct (refines_compose _ _ _ _ (refines_mod_settle (SKey key) (succeedKey1 now) now)
    (refines_compose _ _ _ _
      (refines_mod_settle (SIP ip) (succeedIP1 (failures st) now) now)
      (refines_releaseUser u now)) l Hwf) as [Ev Wv].
  cbn [at_slot] in Ev, Wv. rewrite Hp in Ev, Wv.
  apply (limiter_inv_views _ _ _ Wv Ev).
  unfold inv3, views, t_user, t_mod, t_settle. simpl.
  rewrite !lookup_upd, !decide_True by done. rewrite !upd_upd.
  rewrite Hst, Hist, Hus. cbn [fmap option_fmap option_map].
  pose proof (so_seen _ _ Hiok).
  eapply inv_settle_here; try done; try lia;
    try (apply (succeedKey1_pre Ht Hz); [done|lia]);
    try (apply (succeedIP1_pre Ht Hz); [done|lia..]); by_states.
Qed.
End operations.

(** ** Pruning and eviction *)

Section pruning.
Variable range : gmap string nat → list string.
Hypothesis range_spec : ∀ m k, k ∈ range m ↔ is_Some (m !! k).
Context {now : Z} (Hz : zeroTime ≤ now).

Lemma upd_id {A} k (m : gmap string A) : upd k (m !! k) m = m.
Proof. apply map_eq. intros j. rewrite lookup_upd. by case_decide; subst. Qed.

(** Dropping an identity without a pending attempt. *)
Lemma dropIdentity_inv l k st :
  limiter_inv now l → kv l !! k = Some st → inFlight st = 0 →
  limiter_inv now (dropIdentityLocked k st now l).
Proof.
  intros [Hwf Hinv] Hk Hi.
  destruct (refines_dropIdentity k st now l Hwf) as [Ev Wv].
  apply (limiter_inv_views _ _ _ Wv Ev).
  unfold inv3, t_dropIdentity, t_settle, t_mod, views. simpl.
  rewrite !lookup_upd, !decide_True by done. rewrite upd_upd.
  destruct (key_ip Hinv _ _ Hk) as (Hok & ist & Hist & Hiok & Hf & Hi' & Hs).
  rewrite Hist. cbn [fmap option_fmap option_map].
  rewrite <-(upd_id (userFromKey k) (uv l)).
  pose proof (so_failures _ _ Hok). pose proof (so_seen _ _ Hiok).
  pose proof (so_inFlight _ _ Hiok).
  assert (Hpre : st_pre now (dropIP1 st now ist)).
  { apply (dropIP1_pre (Z.le_refl now) Hz); [done|lia|done]. }
  assert (failures (dropIP1 st now ist) = failures ist - failures st ∧
          inFlight (dropIP1 st now ist) = inFlight ist ∧
          seen (dropIP1 st now ist) = now) as (Ef & Ei & Es) by (rewrite ?Hi; by_states).
  apply (inv_change now now); try done.
  - intros ist'. destruct (settle_spec now _ Hz Hpre) as [[-> _]|[-> Hok']]; [done|].
    intros [= <-]. split; [done|]. rewrite Hist. intros ist0 [= <-]. lia.
  - rewrite Hk, Hist. destruct (settle_spec now _ Hz Hpre) as [[-> ?]|[-> ?]];
      cbn [from_option]; lia.
  - rewrite Hk, Hist. destruct (settle_spec now _ Hz Hpre) as [[-> ?]|[-> ?]];
      cbn [from_option]; lia.
  - rewrite Hk. simpl. lia.
  - apply (inv_user_ok _ _ _ _ Hinv).
Qed.

(** What pruning and eviction may change: entries disappear, nothing else. *)
Record shrinks (l l' : authLimiter) : Prop := {
  sh_ip : byIP l' ⊆ byIP l;
  sh_key : byKey l' ⊆ byKey l;
  sh_user : byUser l' ⊆ byUser l;
  sh_next : next l' = next l;
  sh_config : same_config l l'
}.

#[export] Instance shrinks_preorder : PreOrder shrinks.
Proof.
  split.
  - intros l. constructor; done.
  - intros a b c [? ? ? ? (?&?&?&?&?)] [? ? ? ? (?&?&?&?&?)].
    constructor; unfold same_config; try (by etrans); split_and!; congruence.
Qed.

Lemma shrinks_modify p f l : shrinks l (modify p f l).
Proof. constructor; done. Qed.

Lemma shrinks_del_slot s l : shrinks l (del_slot s l).
Proof. destruct s; constructor; simpl; try done; apply delete_subseteq. Qed.

Lemma shrinks_dropIdentity k st l : shrinks l (dropIdentityLocked k st now l).
Proof.
  unfold dropIdentityLocked. cbn zeta.
  etrans; [|apply (shrinks_del_slot (SKey k))].
  destruct (byIP l !! ipFromKey k) as [p|]; [|done].
  destruct (emptyState _ _); [|apply shrinks_modify].
  etrans; [apply (shrinks_modify p (dropIP1 st now))|apply (shrinks_del_slot (SIP _))].
Qed.

(** The identities an active attempt or a lockout protects. *)
Definition protected (st : attemptState) : Prop := idle now st = false.

Lemma idle_true st : idle now st = true ↔ inFlight st = 0 ∧ until st ≤ now.
Proof.
  unfold idle. rewrite andb_true_iff, negb_true_iff. split; intros [? ?]; zbool; [done|].
  split; [by apply Z.eqb_eq|by apply Z.ltb_ge].
Qed.

Lemma safeToPrune_idle t l st :
  st_ok t st → safeToPrune l (Some st) now = true → idle now st = true.
Proof.
  intros Hok. unfold safeToPrune. destruct (_ || _) eqn:E; [done|]. intros _.
  zbool. pose proof (so_inFlight _ _ Hok). apply idle_true. lia.
Qed.

(** Keys other than the dropped one keep their states. *)
Lemma kv_dropIdentity l k st j :
  wf l → kv (dropIdentityLocked k st now l) !! j = if decide (k = j) then None else kv l !! j.
Proof.
  intros Hwf. destruct (refines_dropIdentity k st now l Hwf) as [Ev _].
  apply (f_equal (λ v, v.1.2 !! j)) in Ev. unfold views in Ev. simpl in Ev.
  rewrite lookup_upd in Ev. exact Ev.
Qed.

Lemma kv_is_Some l k : wf l → is_Some (byKey l !! k) ↔ is_Some (kv l !! k).
Proof.
  intros Hwf. rewrite <-deref_kv. unfold deref.
  destruct (byKey l !! k) as [p|] eqn:E; simpl; [|done].
  split; [intros _; exact (wf_alloc l Hwf (SKey k) p E)|eauto].
Qed.

(** An address goes together with all its identities, none of which is
    pending. *)
Lemma inv_evict_ip mI mK mU ip :
  inv now mI mK mU →
  (∀ k st, mK !! k = Some st → ipFromKey k = ip → inFlight st = 0) →
  inv now (upd ip None mI) (filter (λ e, ipFromKey e.1 ≠ ip) mK) mU.
Proof.
  intros Hinv Hzero.
  assert (Hc : ∀ x who, who ≠ ip →
    contribution ipFromKey x (filter (λ e, ipFromKey e.1 ≠ ip) mK) who =
    contribution ipFromKey x mK who).
  { intros x who Hwho. unfold contribution. rewrite map_sum_filter.
    apply map_sum_ext. intros k st Hk. repeat case_decide; naive_solver. }
  constructor.
  - intros k st [Hk _]%map_lookup_filter_Some. by apply (inv_key _ _ _ _ Hinv k).
  - intros i st. rewrite lookup_upd. case_decide; [done|]. apply (inv_ip _ _ _ _ Hinv).
  - intros k st [Hk Hne]%map_lookup_filter_Some. rewrite lookup_upd, decide_False by naive_solver.
    by apply (inv_has_ip _ _ _ _ Hinv).
  - intros i st. rewrite lookup_upd. case_decide; [done|]. rewrite Hc by done.
    apply (inv_failures _ _ _ _ Hinv).
  - intros i st. rewrite lookup_upd. case_decide; [done|]. rewrite Hc by done.
    apply (inv_inFlight _ _ _ _ Hinv).
  - intros u. rewrite (inv_user _ _ _ _ Hinv). unfold contribution. rewrite map_sum_filter.
    apply map_sum_ext. intros k st Hk. repeat case_decide; try done.
    apply (Hzero k st Hk). simpl in *. destruct (decide (ipFromKey k = ip)); tauto.
  - apply (inv_user_ok _ _ _ _ Hinv).
Qed.

(** What one pruning or eviction step does to the identities and users. *)
Record prunes (l l' : authLimiter) : Prop := {
  pr_shrinks : shrinks l l';
  pr_sub : kv l' ⊆ kv l;
  pr_keep : ∀ k st, kv l !! k = Some st → protected st → kv l' !! k = Some st;
  pr_user : byUser l' = byUser l;
  pr_users : uv l' = uv l
}.

#[export] Instance prunes_preorder : PreOrder prunes.
Proof.
  split.
  - intros l. by constructor.
  - intros a b c [] []. constructor; try (by etrans); eauto; congruence.
Qed.

Definition prune_step (l l' : authLimiter) : Prop := limiter_inv now l' ∧ prunes l l'.

Lemma prune_step_trans a b c : prune_step a b → prune_step b c → prune_step a c.
Proof. intros [_ H1] [? H2]. split; [done|by etrans]. Qed.

Lemma dropIdentity_step l k st :
  limiter_inv now l → kv l !! k = Some st → idle now st = true →
  prune_step l (dropIdentityLocked k st now l).
Proof.
  intros Hl Hk Hidle. pose proof Hl as [Hwf _].
  destruct (proj1 (idle_true st) Hidle) as [Hi _].
  split; [by apply dropIdentity_inv|]. constructor.
  - apply shrinks_dropIdentity.
  - apply map_subseteq_spec. intros j st'. rewrite kv_dropIdentity by done. by case_decide.
  - intros j st' Hj Hp. rewrite kv_dropIdentity by done. case_decide; [|done].
    subst j. unfold protected in Hp. congruence.
  - unfold dropIdentityLocked. simpl. by repeat case_match.
  - destruct (refines_dropIdentity k st now l Hwf) as [Ev _].
    by apply (f_equal snd) in Ev.
Qed.

Lemma pruneKey_step l k : limiter_inv now l → prune_step l (pruneKey now l k).
Proof.
  intros Hl. unfold pruneKey. rewrite deref_kv.
  destruct (kv l !! k) as [st|] eqn:Hk; [|done].
  destruct (safeToPrune l (Some st) now) eqn:Hs; [|done].
  apply dropIdentity_step; [done..|].
  apply (safeToPrune_idle now l); [|done]. by apply (inv_key _ _ _ _ (proj2 Hl) k).
Qed.

Definition settled_key (k : string) (l : authLimiter) : Prop :=
  ∀ st, kv l !! k = Some st → safeToPrune l (Some st) now = false.

Lemma safeToPrune_config l l' st :
  same_config l l' → safeToPrune l' st now = safeToPrune l st now.
Proof. unfold safeToPrune. by intros (_ & _ & _ & -> & _). Qed.

Lemma settled_prunes k l l' : prunes l l' → settled_key k l → settled_key k l'.
Proof.
  intros Hp Hs st Hk. rewrite (safeToPrune_config l l') by apply (pr_shrinks _ _ Hp).
  apply Hs. by apply (lookup_weaken _ _ _ _ Hk), (pr_sub _ _ Hp).
Qed.

Lemma pruneKey_settles l k : limiter_inv now l → settled_key k (pruneKey now l k).
Proof.
  intros [Hwf _] st. unfold pruneKey. rewrite deref_kv.
  destruct (kv l !! k) as [st'|] eqn:Hk; [|congruence].
  destruct (safeToPrune l (Some st') now) eqn:Hs; [|congruence].
  rewrite kv_dropIdentity, decide_True by done. done.
Qed.

(** After the first loop of [forcePrune] no retained identity is prunable. *)
Lemma pruneKeys_swept l :
  limiter_inv now l →
  let l' := fold_left (pruneKey now) (range (byKey l)) l in
  prune_step l l' ∧ ∀ k, settled_key k l'.
Proof.
  intros Hl l'.
  destruct (fold_left_visits (prune_step l) settled_key (pruneKey now)
              (range (byKey l)) l) as [HP HQ].
  - intros s k _ Hs. split; [|by apply pruneKey_settles, (proj1 Hs)].
    eapply prune_step_trans; [done|]. by apply pruneKey_step, (proj1 Hs).
  - intros s k j _ Hs Hj. eapply settled_prunes; [|done]. by apply pruneKey_step, (proj1 Hs).
  - done.
  - fold l' in HP, HQ. split; [done|]. intros k st Hk. apply (HQ k); [|done].
    rewrite range_spec, kv_is_Some by apply Hl.
    pose proof (lookup_weaken _ _ _ _ Hk (pr_sub _ _ (proj2 HP))). eauto.
Qed.

(** An address that may be pruned has no identities left, because an identity
    was seen no later than its address and no lockout outlasts the expiry. *)
Lemma pruneIP_empty l ip ist k st :
  limiter_inv now l → (∀ j, settled_key j l) → lockoutMax ≤ expiry l →
  iv l !! ip = Some ist → safeToPrune l (Some ist) now = true →
  kv l !! k = Some st → ipFromKey k ≠ ip.
Proof.
  intros [Hwf Hinv] Hset Hexp Hist Hsafe Hk Heq.
  destruct (key_ip Hinv _ _ Hk) as (Hok & ist' & Hist' & Hiok & Hf & Hi & Hs).
  rewrite Heq in Hist'. assert (ist' = ist) as -> by congruence.
  specialize (Hset k st Hk).
  destruct (proj1 (idle_true _) (safeToPrune_idle _ _ _ Hiok Hsafe)) as [Hii _].
  revert Hset Hsafe. unfold safeToPrune, emptyState.
  pose proof (so_live _ _ Hok). pose proof (so_live _ _ Hiok).
  pose proof (so_inFlight _ _ Hok). pose proof (so_lockout _ _ Hok).
  assert (failures st =? 0 = false) as -> by (apply Z.eqb_neq; lia).
  assert (failures ist =? 0 = false) as -> by (apply Z.eqb_neq; lia). simpl.
  assert (0 <? inFlight st = false) as -> by (apply Z.ltb_ge; lia).
  assert (0 <? inFlight ist = false) as -> by (apply Z.ltb_ge; lia). simpl.
  unfold Sub, lockoutMax, minute, second in *.
  repeat case_match; zbool; intros; zbool; try done; lia64.
Qed.

Lemma views_delete_ip l ip :
  wf l → views (set_byIP (delete ip (byIP l)) l) = (upd ip None (iv l), kv l, uv l) ∧
         wf (set_byIP (delete ip (byIP l)) l).
Proof. exact (views_del_slot l (SIP ip)). Qed.

Lemma pruneIP_step l ip :
  limiter_inv now l → (∀ j, settled_key j l) → lockoutMax ≤ expiry l →
  prune_step l (pruneIP now l ip).
Proof.
  intros Hl Hset Hexp. pose proof Hl as [Hwf Hinv]. unfold pruneIP.
  destruct (byIP l !! ip) as [p|] eqn:Hp; [|done].
  destruct (wf_alloc l Hwf (SIP ip) p Hp) as [ist Hist]. rewrite Hist.
  destruct (safeToPrune l (Some ist) now) eqn:Hs; [|done].
  assert (Hiv : iv l !! ip = Some ist) by (rewrite <-deref_iv, Hp; done).
  destruct (views_delete_ip l ip Hwf) as [Ev Wv].
  split.
  - apply (limiter_inv_views _ _ _ Wv Ev). unfold inv3. simpl.
    rewrite <-(map_filter_id (λ e, ipFromKey e.1 ≠ ip) (kv l)).
    + apply inv_evict_ip; [done|]. intros k st Hk Heq. exfalso.
      by apply (pruneIP_empty l ip ist k st).
    + intros k st Hk. by apply (pruneIP_empty l ip ist k st).
  - constructor; try done. apply (shrinks_del_slot (SIP ip)).
Qed.

Lemma pruneUser_id l u : limiter_inv now l → pruneUser l u = l.
Proof.
  intros [Hwf Hinv]. unfold pruneUser. rewrite deref_uv.
  destruct (uv l !! u) as [us|] eqn:Hu; [|done].
  destruct (inv_user_ok _ _ _ _ Hinv _ _ Hu) as [_ ?].
  assert (inFlight us =? 0 = false) as -> by (apply Z.eqb_neq; lia). done.
Qed.

Lemma limiter_inv_same t l l' :
  heap l' = heap l → next l' = next l → byIP l' = byIP l → byKey l' = byKey l →
  byUser l' = byUser l → limiter_inv t l → limiter_inv t l'.
Proof.
  intros Hh Hn Hi Hk Hu [Hwf Hinv].
  assert (Hat : ∀ s, at_slot l' s = at_slot l s) by (intros []; simpl; congruence).
  split.
  - destruct Hwf. constructor; [intros s p|intros s s' p|intros p]; rewrite ?Hat, ?Hh, ?Hn;
      eauto.
  - unfold iv, kv, uv, view in *. by rewrite Hh, Hi, Hk, Hu.
Qed.

Lemma forcePrune_step l :
  limiter_inv now l → lockoutMax ≤ expiry l → prune_step l (forcePrune range now l).
Proof.
  intros Hl Hexp. unfold forcePrune. cbn zeta.
  set (l0 := set_fullSweeps _ _).
  assert (H0 : prune_step l l0).
  { split; [by apply (limiter_inv_same now l)|]. by constructor. }
  destruct (pruneKeys_swept l0 (proj1 H0)) as [H1 Hset].
  set (l1 := fold_left (pruneKey now) _ _) in *.
  assert (Hexp1 : lockoutMax ≤ expiry l1).
  { by destruct (sh_config _ _ (pr_shrinks _ _ (proj2 H1))) as (_ & _ & _ & -> & _). }
  assert (H2 : prune_step l1 (fold_left (pruneIP now) (range (byIP l1)) l1)).
  { apply (fold_left_inv (prune_step l1)); [|by split; [apply H1|]]. intros s ip _ Hs.
    eapply prune_step_trans; [done|]. apply pruneIP_step; [apply Hs| |].
    - intros j. exact (settled_prunes j l1 s (proj2 Hs) (Hset j)).
    - by destruct (sh_config _ _ (pr_shrinks _ _ (proj2 Hs))) as (_ & _ & _ & -> & _). }
  set (l2 := fold_left (pruneIP now) _ _) in *.
  assert (fold_left pruneUser (range (byUser l2)) l2 = l2) as ->.
  { apply (fold_left_inv (λ s, s = l2)); [|done]. intros s u _ ->.
    apply pruneUser_id, H2. }
  eauto using prune_step_trans.
Qed.

Lemma maybePeriodicPrune_step l :
  limiter_inv now l → lockoutMax ≤ expiry l →
  prune_step l (maybePeriodicPrune range now l).
Proof.
  intros Hl Hexp. unfold maybePeriodicPrune.
  case_match; [done|by apply forcePrune_step].
Qed.

(** The scan returns an eligible entry. *)
Lemma oldest_eligible l m eligible :
  oldest range l m eligible ≠ "" →
  ∃ st, deref l (m !! oldest range l m eligible) = Some st ∧
        eligible (oldest range l m eligible) st = true.
Proof.
  unfold oldest.
  apply (fold_left_inv (λ acc : string * Z, acc.1 ≠ "" →
    ∃ st, deref l (m !! acc.1) = Some st ∧ eligible acc.1 st = true)); [|done].
  intros acc j _ Hacc. unfold oldest_step.
  destruct (deref l (m !! j)) as [st|] eqn:E; [|done].
  destruct (eligible j st) eqn:El; [|done].
  destruct (_ || _); [|done]. intros _. eauto.
Qed.

Lemma evictOldestKey_step l l' :
  limiter_inv now l → evictOldestKey range now l = (l', true) →
  prune_step l l' ∧ byKey l' ⊂ byKey l.
Proof.
  intros Hl. unfold evictOldestKey. cbn zeta.
  destruct (bool_decide _) eqn:Hne; [done|]. zbool.
  destruct (oldest_eligible l (byKey l) (λ _, idle now) Hne) as (st & Hst & Hidle).
  set (k := oldest _ _ _ _) in *. rewrite Hst. intros [= <-].
  rewrite deref_kv in Hst. split; [by apply dropIdentity_step|].
  assert (byKey (dropIdentityLocked k st now l) = delete k (byKey l)) as ->.
  { unfold dropIdentityLocked. simpl. by repeat case_match. }
  apply delete_subset. apply kv_is_Some; [apply Hl|eauto].
Qed.

Definition dropKeysOf (ip : string) (l : authLimiter) (key : string) : authLimiter :=
  if bool_decide (ipFromKey key = ip) then set_byKey (delete key (byKey l)) l else l.

Lemma dropKeysOf_fold l ip :
  wf l →
  let l' := fold_left (dropKeysOf ip) (range (byKey l)) l in
  wf l' ∧ shrinks l l' ∧ iv l' = iv l ∧ uv l' = uv l ∧ byIP l' = byIP l ∧ byUser l' = byUser l ∧
  kv l' = filter (λ e, ipFromKey e.1 ≠ ip) (kv l).
Proof.
  intros Hwf l'.
  destruct (fold_left_visits
    (λ s, wf s ∧ shrinks l s ∧ iv s = iv l ∧ uv s = uv l ∧ byIP s = byIP l ∧
          byUser s = byUser l ∧ kv s ⊆ kv l ∧
          ∀ j, ipFromKey j ≠ ip → kv s !! j = kv l !! j)
    (λ k s, ipFromKey k = ip → kv s !! k = None)
    (dropKeysOf ip) (range (byKey l)) l) as [(HW & HS & HI & HU & HBI & HBU & Hsub & Hsame) HQ].
  - intros s k _ (HW & HS & HI & HU & HBI & HBU & Hsub & Hsame). unfold dropKeysOf.
    case_bool_decide as Hk; [|done].
    destruct (views_del_slot s (SKey k) HW) as [Ev HW'].
    assert (Hkv : ∀ j, kv (del_slot (SKey k) s) !! j =
                    if decide (k = j) then None else kv s !! j).
    { intros j. apply (f_equal (λ v, v.1.2 !! j)) in Ev. simpl in Ev.
      by rewrite lookup_upd in Ev. }
    change (set_byKey (delete k (byKey s)) s) with (del_slot (SKey k) s).
    split; [split_and!|intros _; by rewrite Hkv, decide_True]; try done.
    + etrans; [done|apply shrinks_del_slot].
    + apply map_subseteq_spec. intros j st. rewrite Hkv. case_decide; [done|].
      by apply (map_subseteq_spec (kv s) (kv l)).
    + intros j Hj. rewrite Hkv. case_decide; [congruence|by apply Hsame].
  - intros s k j _ (HW & _) Hj Hjk. unfold dropKeysOf. case_bool_decide; [|by apply Hj].
    destruct (views_del_slot s (SKey k) HW) as [Ev _].
    apply (f_equal (λ v, v.1.2 !! j)) in Ev. simpl in Ev. rewrite lookup_upd in Ev.
    case_decide; [done|]. rewrite Ev. by apply Hj.
  - split_and!; done.
  - fold l' in HW, HS, HI, HU, HBI, HBU, Hsub, Hsame, HQ. split_and!; try done.
    apply map_eq. intros j. destruct (decide (ipFromKey j = ip)) as [Hj|Hj].
    + rewrite (proj2 (map_lookup_filter_None _ (kv l) j)) by (right; simpl; tauto).
      destruct (kv l' !! j) as [st|] eqn:E; [|done]. exfalso.
      rewrite (HQ j) in E; [done| |done]. apply range_spec, kv_is_Some; [done|].
      exists st. by apply (lookup_weaken _ _ _ _ E).
    + rewrite Hsame by done. destruct (kv l !! j) as [st|] eqn:E; symmetry.
      * by apply map_lookup_filter_Some.
      * apply map_lookup_filter_None. by left.
Qed.

Lemma unsafeIPs_spec l k st :
  wf l → kv l !! k = Some st → ipFromKey k ∉ unsafeIPs range now l → idle now st = true.
Proof.
  intros Hwf Hk Hn. destruct (idle now st) eqn:E; [done|]. exfalso. apply Hn.
  unfold unsafeIPs. apply elem_of_list_to_set, list_elem_of_fmap. exists k. split; [done|].
  apply list_elem_of_In, filter_In. rewrite deref_kv, Hk, E. split; [|done].
  apply list_elem_of_In, range_spec, kv_is_Some; [done|eauto].
Qed.

Lemma evictOldestIP_step l l' :
  limiter_inv now l → evictOldestIP range now l = (l', true) →
  prune_step l l' ∧ byIP l' ⊂ byIP l.
Proof.
  intros Hl. pose proof Hl as [Hwf Hinv]. unfold evictOldestIP. cbn zeta.
  set (eligible := λ ip st, _ && _).
  destruct (bool_decide _) eqn:Hne; [done|]. zbool.
  destruct (oldest_eligible l (byIP l) eligible Hne) as (ist & Hist & Hel).
  set (ip := oldest _ _ _ _) in *. fold (dropKeysOf ip).
  unfold eligible in Hel. zbool.
  destruct (dropKeysOf_fold l ip Hwf) as (HW & HS & HI & HU & HBI & HBU & HK).
  set (l1 := fold_left (dropKeysOf ip) _ _) in *. intros [= <-].
  destruct (views_delete_ip l1 ip HW) as [Ev Wv].
  assert (Hidle : ∀ k st, kv l !! k = Some st → ipFromKey k = ip → idle now st = true).
  { intros k st Hk Hf. apply (unsafeIPs_spec l k); [done..|]. by rewrite Hf. }
  split; [split|].
  - apply (limiter_inv_views _ _ _ Wv Ev). unfold inv3. simpl. rewrite HI, HU, HK.
    apply inv_evict_ip; [done|]. intros k st Hk Hf. by apply idle_true, (Hidle k).
  - constructor.
    + etrans; [exact HS|apply (shrinks_del_slot (SIP ip))].
    + change (kv l1 ⊆ kv l). rewrite HK. apply map_filter_subseteq.
    + intros k st Hk Hp. change (kv l1 !! k = Some st). rewrite HK.
      apply map_lookup_filter_Some. split; [done|]. simpl. intros Hf.
      unfold protected in Hp. rewrite (Hidle k st) in Hp; done.
    + exact HBU.
    + exact HU.
  - simpl. rewrite HBI. apply delete_subset. unfold deref in Hist.
    destruct (byIP l !! ip); [eauto|done].
Qed.


(** The conditional evictions of [reserve]; [b] holds when room is needed. *)
Lemma evictOldestIP_if (b : bool) l l' ok :
  limiter_inv now l → (if b then evictOldestIP range now l else (l, true)) = (l', ok) →
  prune_step l l' ∧ (b = true → ok = true → byIP l' ⊂ byIP l).
Proof.
  intros Hl. destruct b; [|by intros [= <- <-]]. destruct ok; intros E.
  - by apply evictOldestIP_step in E as [? ?].
  - revert E. unfold evictOldestIP. cbn zeta. destruct (bool_decide _); [|done].
    by intros [= <-].
Qed.

Lemma evictOldestKey_if (b : bool) l l' ok :
  limiter_inv now l → (if b then evictOldestKey range now l else (l, true)) = (l', ok) →
  prune_step l l' ∧ (b = true → ok = true → byKey l' ⊂ byKey l).
Proof.
  intros Hl. destruct b; [|by intros [= <- <-]]. destruct ok; intros E.
  - by apply evictOldestKey_step in E as [? ?].
  - revert E. unfold evictOldestKey. cbn zeta. destruct (bool_decide _); [by intros [= <-]|].
    destruct (deref _ _); [done|by intros [= <-]].
Qed.
End pruning.

(** ** Reservations *)

(** Write through the pointer at [s], publishing a new object first if there is
    none. *)
Definition touch (s : slot) (f : attemptState → attemptState) (l : authLimiter)
    : authLimiter :=
  match at_slot l s with
  | Some p => modify p f l
  | None => alloc_at s (f newAttempt) l
  end.

Lemma refines_touch s f :
  refines (touch s f) (λ v, upd_slot s (Some (f (default newAttempt (lookup3 v s)))) v).
Proof.
  intros l Hwf. unfold touch. rewrite lookup3_views. unfold slot_val.
  destruct (at_slot l s) as [p|] eqn:E.
  - destruct (views_modify l s p f Hwf E) as [Ev Wv]. split; [|done]. rewrite Ev.
    destruct (wf_alloc l Hwf s p E) as [st Hst]. unfold slot_val. rewrite E. simpl.
    by rewrite Hst.
  - simpl. by apply views_alloc_at.
Qed.

Lemma limiter_ext l l' :
  heap l = heap l' → next l = next l' → byIP l = byIP l' → byKey l = byKey l' →
  byUser l = byUser l' → pruned l = pruned l' → maxIP l = maxIP l' → maxKey l = maxKey l' →
  maxUser l = maxUser l' → expiry l = expiry l' → pruneEvery l = pruneEvery l' →
  lastCapSweep l = lastCapSweep l' → fullSweeps l = fullSweeps l' → l = l'.
Proof. destruct l, l'. simpl. intros. by subst. Qed.

(** The end of [reserve], with pointers that are those of the maps, is three
    such writes. *)
Lemma admit_touch now ipKey key userKey l :
  wf l →
  let ipState := byIP l !! ipKey in
  let keyState := byKey l !! key in
  let userState := byUser l !! userKey in
  admitReservation now ipKey key userKey ipState keyState userState l =
  if (is_none userState && (maxUser l <=? map_len (byUser l)))
     || negb (canReserve (iv l !! ipKey) now) || negb (canReserve (kv l !! key) now)
     || (match uv l !! userKey with
         | Some st => freeAttempts <=? inFlight st | None => false end)
  then (l, false)
  else (touch (SUser userKey) (reserved1 now)
         (touch (SKey key) (reserved1 now) (touch (SIP ipKey) (reserved1 now) l)), true).
Proof.
  intros Hwf ipState keyState userState. unfold admitReservation.
  unfold ipState, keyState, userState. rewrite deref_iv, deref_kv, deref_uv.
  unfold is_none. destruct (_ && _); [done|]. simpl. destruct (_ || _); [done|].
  assert (Hold : ∀ s p, at_slot l s = Some p → (p < next l)%nat).
  { intros s p Hp. apply (wf_next l Hwf), (wf_alloc l Hwf _ _ Hp). }
  pose proof (Hold (SIP ipKey)) as HI. pose proof (Hold (SKey key)) as HK.
  pose proof (Hold (SUser userKey)) as HU. simpl in HI, HK, HU.
  unfold touch. simpl.
  destruct (byIP l !! ipKey) as [pi|] eqn:Ei; destruct (byKey l !! key) as [pk|] eqn:Ek;
    destruct (byUser l !! userKey) as [pu|] eqn:Eu; simpl;
    rewrite ?Ek, ?Eu; simpl; rewrite ?Eu; simpl;
    repeat match goal with
    | H : ∀ p, Some ?x = Some p → _ |- _ => specialize (H x eq_refl)
    | H : ∀ p, None = Some p → _ |- _ => clear H
    end;
    f_equal; apply limiter_ext; cbn; try reflexivity;
    repeat (rewrite alter_insert_eq || rewrite alter_insert_ne by lia); reflexivity.
Qed.

Lemma reserved1_ok now o :
  (∀ st, o = Some st → st_ok now st) → zeroTime ≤ now → canReserve o now = true →
  st_ok now (reserved1 now (default newAttempt o)).
Proof.
  intros Hok Hz Hc. destruct o as [st|]; simpl in *.
  - destruct (Hok st eq_refl) as [Hf Hi Hl Hu Hk Hs Hb].
    constructor; by_states.
  - unfold newAttempt. constructor; by_states.
Qed.

Section reserving.
Variable range : gmap string nat → list string.
Hypothesis range_spec : ∀ m k, k ∈ range m ↔ is_Some (m !! k).
Variable canonUser : string → string.
Context {now : Z} (Hz : zeroTime ≤ now).
Context (ip username : string) (Hip : contains_byte 0 ip = false).

Let u := canonUser username.
Let key := key_of ip u.

Lemma same_config_trans a b c : same_config a b → same_config b c → same_config a c.
Proof. intros (?&?&?&?&?) (?&?&?&?&?). unfold same_config. split_and!; congruence. Qed.

(** Publishing one more pending attempt. *)
Lemma admit_inv l :
  limiter_inv now l →
  canReserve (iv l !! ip) now = true → canReserve (kv l !! key) now = true →
  (∀ us, uv l !! u = Some us → inFlight us < freeAttempts) →
  limiter_inv now
    (touch (SUser u) (reserved1 now)
      (touch (SKey key) (reserved1 now) (touch (SIP ip) (reserved1 now) l))).
Proof.
  intros [Hwf Hinv] Hci Hck Hcu.
  destruct (refines_compose _ _ _ _ (refines_touch (SIP ip) (reserved1 now))
    (refines_compose _ _ _ _ (refines_touch (SKey key) (reserved1 now))
      (refines_touch (SUser u) (reserved1 now))) l Hwf) as [Ev Wv].
  apply (limiter_inv_views _ _ _ Wv Ev). unfold inv3, views. simpl.
  assert (Hi : st_ok now (reserved1 now (default newAttempt (iv l !! ip)))).
  { apply reserved1_ok; [|done..]. apply (inv_ip _ _ _ _ Hinv). }
  assert (Hk : st_ok now (reserved1 now (default newAttempt (kv l !! key)))).
  { apply reserved1_ok; [|done..]. apply (inv_key _ _ _ _ Hinv). }
  apply (inv_change_here canonUser (Z.le_refl now) ip username Hip); fold u; fold key; try done.
  - intros st [= <-]. split; [done|]. eexists. split; [done|]. simpl. lia.
  - intros st [= <-]. split; [done|]. intros ist0 Hist0.
    pose proof (so_seen _ _ (inv_ip _ _ _ _ Hinv _ _ Hist0)). simpl. lia.
  - destruct (iv l !! ip), (kv l !! key); simpl; lia.
  - destruct (iv l !! ip), (kv l !! key); simpl; lia.
  - destruct (uv l !! u), (kv l !! key); simpl; lia.
  - intros us [= <-]. destruct (uv l !! u) as [us|] eqn:E; simpl.
    + destruct (inv_user_ok _ _ _ _ Hinv _ _ E). specialize (Hcu us eq_refl). lia.
    + unfold freeAttempts. lia.
Qed.


Definition bounded (l : authLimiter) : Prop :=
  map_len (byIP l) ≤ maxIP l ∧ map_len (byKey l) ≤ maxKey l ∧ map_len (byUser l) ≤ maxUser l.

Lemma map_len_sub (m m' : gmap string nat) : m' ⊆ m → map_len m' ≤ map_len m.
Proof. intros H%map_subseteq_size. unfold map_len. lia. Qed.

Lemma map_len_strict (m m' : gmap string nat) : m' ⊂ m → map_len m' < map_len m.
Proof. intros H%map_subset_size. unfold map_len. lia. Qed.

Lemma bounded_shrinks l l' : shrinks l l' → bounded l → bounded l'.
Proof.
  intros [Hi%map_len_sub Hk%map_len_sub Hu%map_len_sub _ (Ei & Ek & Eu & _)] (?&?&?).
  unfold bounded. rewrite Ei, Ek, Eu. split_and!; lia.
Qed.

Lemma need_room (m m' : gmap string nat) (n : Z) (b : bool) :
  m' ⊆ m → map_len m ≤ n → (b && (n <=? map_len m) = true → m' ⊂ m) → b = true →
  map_len m' < n.
Proof.
  intros Hsub%map_len_sub Hn Hs ->. simpl in Hs.
  destruct (n <=? map_len m) eqn:E; zbool; [|lia].
  specialize (map_len_strict m m' (Hs eq_refl)). lia.
Qed.

(** What [reserve] knows when room has been made: the identity pointer is the
    current one, a missing address is still missing, and what is missing fits. *)
Definition room (l : authLimiter) (ipState keyState : option nat) : Prop :=
  keyState = byKey l !! key ∧
  (is_none ipState = true → byIP l !! ip = None) ∧
  (bounded l → is_none ipState = true → map_len (byIP l) < maxIP l) ∧
  (bounded l → is_none keyState = true → map_len (byKey l) < maxKey l).

Lemma no_room_needed l :
  (is_none (byIP l !! ip) && (maxIP l <=? map_len (byIP l)))
  || (is_none (byKey l !! key) && (maxKey l <=? map_len (byKey l))) = false →
  room l (byIP l !! ip) (byKey l !! key).
Proof.
  intros H. apply orb_false_iff in H as [Hi Hk].
  split_and!; [done|by destruct (byIP l !! ip)| |]; intros _ E.
  - rewrite E in Hi. simpl in Hi. by zbool.
  - rewrite E in Hk. simpl in Hk. by zbool.
Qed.

(** The evictions keep the pointer of a known identity valid. *)
Lemma evictions_room l1 l2 l3 :
  limiter_inv now l1 → bounded l1 →
  prune_step (now:=now) l1 l2 → prune_step (now:=now) l2 l3 →
  (is_none (byIP l1 !! ip) && (maxIP l1 <=? map_len (byIP l1)) = true → byIP l2 ⊂ byIP l1) →
  (is_none (byKey l1 !! key) && (maxKey l2 <=? map_len (byKey l2)) = true → byKey l3 ⊂ byKey l2) →
  (is_none (byKey l1 !! key) = false → l3 = l2) →
  (is_none (byIP l1 !! ip) = false → l2 = l1) →
  room l3 (byIP l1 !! ip) (byKey l1 !! key).
Proof.
  intros Hl1 Hb1 H2 H3 Hroom2 Hroom3 Hno3 Hno2.
  pose proof (pr_shrinks _ _ (proj2 H2)) as S2. pose proof (pr_shrinks _ _ (proj2 H3)) as S3.
  pose proof (bounded_shrinks _ _ S2 Hb1) as Hb2.
  destruct Hb1 as (Hb1 & _), Hb2 as (_ & Hb2 & _).
  assert (byIP l3 ⊆ byIP l1 ∧ byKey l3 ⊆ byKey l1) as [Hsubi Hsubk].
  { split; (etrans; [apply S3|apply S2]). }
  split_and!.
  - destruct (byKey l1 !! key) as [pk|] eqn:Ek.
    + rewrite (Hno3 eq_refl). destruct (is_none (byIP l1 !! ip)) eqn:Ei;
        [|by rewrite (Hno2 eq_refl)].
      exfalso. destruct (kv_is_Some l1 key (proj1 Hl1)) as [[st Hst] _]; [eauto|].
      destruct (inv_has_ip _ _ _ _ (proj2 Hl1) _ _ Hst) as (ist & Hist & _).
      unfold key in Hist. rewrite ipFromKey_key in Hist by done.
      rewrite <-deref_iv in Hist. by destruct (byIP l1 !! ip).
    + symmetry. destruct (byKey l3 !! key) as [p|] eqn:E; [|done].
      apply (lookup_weaken _ (byKey l1)) in E; [congruence|done].
  - intros Hn. destruct (byIP l3 !! ip) as [p|] eqn:E; [|done].
    apply (lookup_weaken _ (byIP l1)) in E; [by rewrite E in Hn|done].
  - intros _ Hn. pose proof (need_room _ _ _ _ (sh_ip _ _ S2) Hb1 Hroom2 Hn).
    pose proof (map_len_sub _ _ (sh_ip _ _ S3)).
    destruct (sh_config _ _ S2) as (E2 & _), (sh_config _ _ S3) as (E3 & _). lia.
  - intros _ Hn. pose proof (need_room _ _ _ _ (sh_key _ _ S3) Hb2 Hroom3 Hn).
    destruct (sh_config _ _ S3) as (_ & E3 & _). lia.
Qed.

Lemma makeRoom_step l l' r :
  limiter_inv now l → bounded l → lockoutMax ≤ expiry l →
  makeRoom range now ip key l = (l', r) →
  prune_step (now:=now) l l' ∧
  ∀ ipState keyState, r = Some (ipState, keyState) → room l' ipState keyState.
Proof.
  intros Hl Hb Hexp. unfold makeRoom. cbn zeta.
  destruct (_ || _) eqn:Hneed.
  2:{ intros [= <- <-]. split; [done|]. intros ? ? [= <- <-]. by apply no_room_needed. }
  destruct (_ <? _); [by intros [= <- <-]|].
  set (l0 := set_lastCapSweep now l).
  assert (H0 : prune_step (now:=now) l l0).
  { split; [by apply (limiter_inv_same now l)|by constructor]. }
  assert (H1 : prune_step (now:=now) l0 (forcePrune range now l0)).
  { apply forcePrune_step; [done|done|apply H0|done]. }
  set (l1 := forcePrune range now l0) in *.
  assert (Hb1 : bounded l1).
  { apply (bounded_shrinks l0); [apply H1|]. by apply (bounded_shrinks l); [apply H0|]. }
  destruct (if is_none (byIP l1 !! ip) && _ then _ else _) as [l2 ok2] eqn:E2.
  destruct (evictOldestIP_if _ range_spec _ _ _ _ (proj1 H1) E2) as [H2 Hroom2].
  destruct ok2; simpl; [|intros [= <- <-]; split; [|done]; eauto using prune_step_trans].
  destruct (if is_none (byKey l1 !! key) && _ then _ else _) as [l3 ok3] eqn:E3.
  destruct (evictOldestKey_if range Hz _ _ _ _ (proj1 H2) E3) as [H3 Hroom3].
  destruct ok3; simpl; intros [= <- <-]; (split; [by eauto using prune_step_trans|]); [|done].
  intros ? ? [= <- <-]. apply (evictions_room l1 l2 l3); auto; try apply H1.
  - destruct (is_none (byKey l1 !! key)); [done|]. simpl in E3. by injection E3.
  - destruct (is_none (byIP l1 !! ip)); [done|]. simpl in E2. by injection E2.
Qed.

(** The address pointer [reserve] goes on with is that of the map. *)
Definition ip_current (l : authLimiter) : bool :=
  match makeRoom range now ip key (maybePeriodicPrune range now l) with
  | (l', Some (ipState, _)) => bool_decide (ipState = byIP l' !! ip)
  | (_, None) => true
  end.

(** [reserve] is pruning followed by a refusal or by one more pending attempt. *)
Lemma reserve_split l :
  limiter_inv now l → bounded l → lockoutMax ≤ expiry l → ip_current l = true →
  ∃ l1, prune_step (now:=now) l l1 ∧
    (reserve range canonUser now ip username l = (l1, false) ∨
     (reserve range canonUser now ip username l =
        (touch (SUser u) (reserved1 now)
          (touch (SKey key) (reserved1 now) (touch (SIP ip) (reserved1 now) l1)), true) ∧
      canReserve (iv l1 !! ip) now = true ∧ canReserve (kv l1 !! key) now = true ∧
      (∀ us, uv l1 !! u = Some us → inFlight us < freeAttempts) ∧
      room l1 (byIP l1 !! ip) (byKey l1 !! key) ∧
      (is_none (byUser l1 !! u) = true → map_len (byUser l1) < maxUser l1))).
Proof.
  intros Hl Hb Hexp Hcur. unfold reserve. cbn [canonicalLimiterKey]. cbn zeta.
  fold u. fold (key_of ip u). fold key.
  pose proof (maybePeriodicPrune_step _ range_spec Hz l Hl Hexp) as H0.
  unfold ip_current in Hcur. set (l0 := maybePeriodicPrune range now l) in *.
  pose proof (pr_shrinks _ _ (proj2 H0)) as S0.
  destruct (makeRoom range now ip key l0) as [l1 r] eqn:E.
  destruct (makeRoom_step l0 l1 r (proj1 H0)) as [H1 Hr]; [| |done|].
  { by apply (bounded_shrinks l). }
  { by destruct (sh_config _ _ S0) as (_ & _ & _ & -> & _). }
  exists l1. split; [by eauto using prune_step_trans|].
  destruct r as [[ipState keyState]|]; [|by left]. zbool. subst ipState.
  destruct (Hr _ _ eq_refl) as (-> & Hroom).
  rewrite <-(pr_user _ _ (proj2 H1)). rewrite admit_touch by apply (proj1 H1).
  destruct (_ || _) eqn:Hc; [by left|right]. zbool.
  split_and!; try done.
  - intros us Hus. rewrite Hus in *. by zbool.
  - intros Hn. rewrite Hn in *. simpl in *. by zbool.
Qed.

Lemma touch_grow s f l :
  map_len (byIP (touch s f l)) ≤ map_len (byIP l) +
    (match s with SIP k => if is_none (byIP l !! k) then 1 else 0 | _ => 0 end) ∧
  map_len (byKey (touch s f l)) ≤ map_len (byKey l) +
    (match s with SKey k => if is_none (byKey l !! k) then 1 else 0 | _ => 0 end) ∧
  map_len (byUser (touch s f l)) ≤ map_len (byUser l) +
    (match s with SUser k => if is_none (byUser l !! k) then 1 else 0 | _ => 0 end) ∧
  same_config l (touch s f l) ∧
  (∀ s', s' ≠ s → at_slot (touch s f l) s' = at_slot l s').
Proof.
  unfold touch. destruct (at_slot l s) as [p|] eqn:E.
  - split_and!; try (by unfold same_config); try (by destruct s');
      destruct s; simpl in *; rewrite ?E; simpl; lia.
  - unfold alloc_at, map_len. split_and!; try (by destruct s; unfold same_config).
    + destruct s; simpl in *; try lia. rewrite E, map_size_insert_None by done. simpl. lia.
    + destruct s; simpl in *; try lia. rewrite E, map_size_insert_None by done. simpl. lia.
    + destruct s; simpl in *; try lia. rewrite E, map_size_insert_None by done. simpl. lia.
    + intros s' Hne. rewrite at_put_slot, decide_False by done. by destruct s'.
Qed.

Lemma reserve_inv l :
  limiter_inv now l → bounded l → lockoutMax ≤ expiry l → ip_current l = true →
  limiter_inv now (reserve range canonUser now ip username l).1 ∧
  bounded (reserve range canonUser now ip username l).1 ∧
  same_config l (reserve range canonUser now ip username l).1.
Proof.
  intros Hl Hb Hexp Hcur.
  destruct (reserve_split l Hl Hb Hexp Hcur)
    as (l1 & [Hl1 Hp] & [->|(-> & Hci & Hck & Hcu & (_ & _ & Hri & Hrk) & Hru)]); simpl.
  - split_and!; [done| |]; [by eapply bounded_shrinks; [apply Hp|]|apply Hp].
  - pose proof (bounded_shrinks _ _ (pr_shrinks _ _ Hp) Hb) as Hb1.
    pose proof (sh_config _ _ (pr_shrinks _ _ Hp)) as Hc1.
    specialize (Hri Hb1). specialize (Hrk Hb1).
    split; [by apply admit_inv|].
    destruct (touch_grow (SIP ip) (reserved1 now) l1) as (A1 & A2 & A3 & A4 & A5).
    set (l2 := touch (SIP ip) (reserved1 now) l1) in *.
    destruct (touch_grow (SKey key) (reserved1 now) l2) as (B1 & B2 & B3 & B4 & B5).
    set (l3 := touch (SKey key) (reserved1 now) l2) in *.
    destruct (touch_grow (SUser u) (reserved1 now) l3) as (C1 & C2 & C3 & C4 & _).
    pose proof (A5 (SKey key) ltac:(done)) as Ek. pose proof (A5 (SUser u) ltac:(done)) as Eu1.
    pose proof (B5 (SUser u) ltac:(done)) as Eu2. simpl in Ek, Eu1, Eu2.
    rewrite Ek in B2. rewrite Eu2, Eu1 in C3.
    destruct Hb1 as (I1 & I2 & I3).
    destruct Hc1 as (?&?&?&?&?), A4 as (?&?&?&?&?), B4 as (?&?&?&?&?), C4 as (?&?&?&?&?).
    unfold bounded, same_config.
    destruct (is_none (byIP l1 !! ip)); [specialize (Hri eq_refl)|];
    (destruct (is_none (byKey l1 !! key)); [specialize (Hrk eq_refl)|]);
    (destruct (is_none (byUser l1 !! u)); [specialize (Hru eq_refl)|]);
    split_and!; lia.
Qed.
End reserving.

Lemma shrinks_releaseUser u now l : shrinks l (releaseUser u now l).
Proof.
  unfold releaseUser. destruct (byUser l !! u) as [p|]; [|done]. cbn zeta.
  destruct (heap _ !! p); [|apply shrinks_modify]. case_match; [|apply shrinks_modify].
  etrans; [apply (shrinks_modify p (release1 now))|apply (shrinks_del_slot (SUser u))].
Qed.

Lemma shrinks_mod_settle s f now l :
  shrinks l (match at_slot l s with
             | None => l
             | Some p =>
                 let l := modify p f l in
                 if emptyState (heap l !! p) now then del_slot s l else l
             end).
Proof.
  destruct (at_slot l s) as [p|]; [|done]. cbn zeta.
  case_match; [|apply shrinks_modify].
  etrans; [apply (shrinks_modify p f)|apply shrinks_del_slot].
Qed.

Lemma shrinks_at_mod (m : gmap string nat) k f l :
  shrinks l (match m !! k with Some p => modify p f l | None => l end).
Proof. destruct (m !! k); [apply shrinks_modify|done]. Qed.

Lemma shrinks_settle s now l :
  shrinks l (if emptyState (slot_val l s) now then del_slot s l else l).
Proof. case_match; [apply shrinks_del_slot|done]. Qed.

Section histories.
Variable range : gmap string nat → list string.
Variable canonUser : string → string.

Inductive op :=
  | Reserve (ip username : string)
  | Failed (ip username : string)
  | Canceled (ip username : string)
  | Succeeded (ip username : string).

Definition op_ip (o : op) : string :=
  match o with Reserve ip _ | Failed ip _ | Canceled ip _ | Succeeded ip _ => ip end.

Definition apply_op (now : Z) (o : op) (l : authLimiter) : authLimiter :=
  match o with
  | Reserve ip user => (reserve range canonUser now ip user l).1
  | Failed ip user => failed canonUser now ip user l
  | Canceled ip user => canceled canonUser now ip user l
  | Succeeded ip user => succeeded canonUser now ip user l
  end.

(** An operation at [now] after the instant [t]: the clock does not run
    backwards, addresses have no NUL byte, and the address pointer [reserve]
    works with is the one of the map. *)
Definition step_ok (t now : Z) (o : op) (l : authLimiter) : bool :=
  (t <=? now) && negb (contains_byte 0 (op_ip o)) &&
  match o with Reserve ip user => ip_current range canonUser (now:=now) ip user l | _ => true end.

Fixpoint run (ops : list (Z * op)) (l : authLimiter) : authLimiter :=
  match ops with
  | [] => l
  | (now, o) :: ops => run ops (apply_op now o l)
  end.

Fixpoint history_ok (t : Z) (ops : list (Z * op)) (l : authLimiter) : bool :=
  match ops with
  | [] => true
  | (now, o) :: ops => step_ok t now o l && history_ok now ops (apply_op now o l)
  end.

Fixpoint last_time (t : Z) (ops : list (Z * op)) : Z :=
  match ops with
  | [] => t
  | (now, _) :: ops => last_time now ops
  end.

Lemma shrinks_terminal now ip user l :
  shrinks l (failed canonUser now ip user l) ∧
  shrinks l (canceled canonUser now ip user l) ∧
  shrinks l (succeeded canonUser now ip user l).
Proof.
  unfold failed, canceled, succeeded. cbn [canonicalLimiterKey].
  set (key := ip +:+ _). set (u := canonUser user). split_and!.
  - destruct (noReservation l key); [done|]. cbn zeta.
    etrans; [|apply shrinks_releaseUser]. etrans; [|apply shrinks_at_mod].
    apply shrinks_at_mod.
  - destruct (noReservation l key); [done|]. cbn zeta. unfold dropEmpty. cbn zeta.
    etrans; [|exact (shrinks_settle (SIP ip) now _)].
    etrans; [|exact (shrinks_settle (SKey key) now _)].
    etrans; [|apply shrinks_releaseUser]. etrans; [|apply shrinks_at_mod].
    apply shrinks_at_mod.
  - destruct (byKey l !! key) as [p|] eqn:Hp; [|done].
    destruct (heap l !! p) as [st|]; [|done]. destruct (_ =? _); [done|]. cbn zeta.
    etrans; [|apply shrinks_releaseUser].
    etrans; [|exact (shrinks_mod_settle (SIP ip) (succeedIP1 (failures st) now) now _)].
    pose proof (shrinks_mod_settle (SKey key) (succeedKey1 now) now l) as H.
    cbn [at_slot] in H. by rewrite Hp in H.
Qed.

Hypothesis range_spec : ∀ m k, k ∈ range m ↔ is_Some (m !! k).

Lemma apply_op_inv t now o l :
  limiter_inv t l → zeroTime ≤ t → bounded l → lockoutMax ≤ expiry l →
  step_ok t now o l = true →
  limiter_inv now (apply_op now o l) ∧ bounded (apply_op now o l) ∧
  same_config l (apply_op now o l).
Proof.
  intros Hl Hz Hb Hexp Hok. unfold step_ok in Hok. zbool.
  destruct o as [ip user|ip user|ip user|ip user]; simpl in *.
  - apply reserve_inv; try done; [lia|]. destruct Hl as [? ?]. split; [done|by apply (inv_mono t)].
  - destruct (shrinks_terminal now ip user l) as (Hs & _).
    split_and!; [by apply (failed_inv canonUser (t:=t))|by apply (bounded_shrinks l)|apply Hs].
  - destruct (shrinks_terminal now ip user l) as (_ & Hs & _).
    split_and!; [by apply (canceled_inv canonUser (t:=t))|by apply (bounded_shrinks l)|apply Hs].
  - destruct (shrinks_terminal now ip user l) as (_ & _ & Hs).
    split_and!; [by apply (succeeded_inv canonUser (t:=t))|by apply (bounded_shrinks l)|apply Hs].
Qed.

Lemma run_inv ops t l :
  limiter_inv t l → zeroTime ≤ t → bounded l → lockoutMax ≤ expiry l →
  history_ok t ops l = true →
  limiter_inv (last_time t ops) (run ops l) ∧ bounded (run ops l) ∧
  same_config l (run ops l).
Proof.
  revert t l. induction ops as [|[now o] ops IH]; intros t l Hl Hz Hb Hexp Hok; simpl in *.
  { done. }
  apply andb_true_iff in Hok as [H1 H2].
  assert (t ≤ now) by (unfold step_ok in H1; zbool; lia).
  destruct (apply_op_inv t now o l Hl Hz Hb Hexp H1) as (Hl' & Hb' & Hc').
  destruct (IH now (apply_op now o l)) as (Hl'' & Hb'' & Hc''); try done; [lia| |].
  { by destruct Hc' as (_ & _ & _ & -> & _). }
  split_and!; try done. destruct Hc' as (?&?&?&?&?), Hc'' as (?&?&?&?&?).
  unfold same_config. split_and!; congruence.
Qed.

Lemma new_inv now mIP mKey e pe :
  limiter_inv now (newAuthLimiterSized now mIP mKey e pe) ∧
  bounded (newAuthLimiterSized now mIP mKey e pe).
Proof.
  split.
  - split.
    + constructor; simpl.
      * by intros [] p.
      * by intros [] s' p.
      * by intros p [].
    + assert (iv (newAuthLimiterSized now mIP mKey e pe) = ∅ ∧
              kv (newAuthLimiterSized now mIP mKey e pe) = ∅ ∧
              uv (newAuthLimiterSized now mIP mKey e pe) = ∅) as (-> & -> & ->).
      { unfold iv, kv, uv, view. simpl. by rewrite omap_empty. }
      constructor; try done.
  - unfold bounded, map_len, newAuthLimiterSized. simpl.
    rewrite !map_size_empty. unfold maxAuthIPEntries, maxAuthKeyEntries, maxAuthUserEntries.
    split_and!; repeat case_match; zbool; lia.
Qed.
End histories.

(** ** Every history

    What holds without a condition on the pointers of [reserve].  The attempts of an
    address may be counted too low then, never too high; identities and users are
    counted exactly. *)

Record winv (t : Z) (mI mK mU : states) : Prop := {
  w_key : ∀ k st, mK !! k = Some st → st_ok t st;
  w_ip : ∀ ip st, mI !! ip = Some st → 0 ≤ failures st ∧ 0 ≤ inFlight st ∧ budget_ok st;
  w_failures : ∀ ip, zfail (mI !! ip) ≤ contribution ipFromKey failures mK ip;
  w_inFlight : ∀ ip, zfly (mI !! ip) ≤ contribution ipFromKey inFlight mK ip;
  w_user : ∀ u, zfly (mU !! u) = contribution userFromKey inFlight mK u;
  w_user_ok : ∀ u st, mU !! u = Some st → failures st = 0 ∧ 0 < inFlight st ≤ freeAttempts
}.

Lemma winv_mono t t' mI mK mU : winv t mI mK mU → t ≤ t' → winv t' mI mK mU.
Proof. intros [] ?. constructor; eauto using st_ok_mono. Qed.

Lemma contribution_ge f x K k :
  (∀ j st, K !! j = Some st → 0 ≤ x st) → from_option x 0 (K !! k) ≤ contribution f x K (f k) ∧ ∀ who, 0 ≤ contribution f x K who.
Proof.
  intros Hx. split.
  - assert (Hpos : ∀ j st, K !! j = Some st → 0 ≤ (if decide (f j = f k) then x st else 0)).
    { intros j st Hj. destruct (decide _); [by apply (Hx j)|lia]. }
    destruct (K !! k) as [st|] eqn:E; cbn [from_option].
    + pose proof (map_sum_lookup_le (λ j st, if decide (f j = f k) then x st else 0) K k st Hpos E) as Hle.
      cbn beta in Hle. by rewrite decide_True in Hle.
    + by apply map_sum_nonneg.
  - intros who. apply map_sum_nonneg. intros j st Hj. destruct (decide _); [by apply (Hx j)|lia].
Qed.

(** An identity changes with its address and its user; the address may lose more than
    the identity does. *)
Lemma winv_change t now mI mK mU k o oi ou :
  winv t mI mK mU → t ≤ now →
  (∀ st, o = Some st → st_ok now st) →
  (∀ ist, oi = Some ist → 0 ≤ failures ist ∧ 0 ≤ inFlight ist ∧ budget_ok ist) →
  (∀ c, zfail (mI !! ipFromKey k) ≤ c → zfail (mK !! k) ≤ c → zfail oi ≤ c + zfail o - zfail (mK !! k)) →
  (∀ c, zfly (mI !! ipFromKey k) ≤ c → zfly (mK !! k) ≤ c → zfly oi ≤ c + zfly o - zfly (mK !! k)) →
  zfly ou - zfly (mU !! userFromKey k) = zfly o - zfly (mK !! k) →
  (∀ us, ou = Some us → failures us = 0 ∧ 0 < inFlight us ≤ freeAttempts) →
  winv now (upd (ipFromKey k) oi mI) (upd k o mK) (upd (userFromKey k) ou mU).
Proof.
  intros [Hk Hi Hf Hl Hu Hus] Ht Ho Hoi HF HL HU Hou.
  assert (Hsum : ∀ x, (∀ st, st_ok t st → 0 ≤ x st) → (∀ ip, from_option x 0 (mI !! ip) ≤ contribution ipFromKey x mK ip) →
    (∀ c, from_option x 0 (mI !! ipFromKey k) ≤ c → from_option x 0 (mK !! k) ≤ c →
       from_option x 0 oi ≤ c + from_option x 0 o - from_option x 0 (mK !! k)) →
    ∀ ip, from_option x 0 (upd (ipFromKey k) oi mI !! ip) ≤ contribution ipFromKey x (upd k o mK) ip).
  { intros x Hx Hold Hnew ip. rewrite lookup_upd, contribution_upd. specialize (Hold ip). case_decide; [|lia]. subst ip.
    destruct (contribution_ge ipFromKey x mK k) as [Hge _]; [eauto|]. specialize (Hnew _ Hold Hge). lia. }
  constructor.
  - intros j st. rewrite lookup_upd. case_decide; [apply Ho|]. intros Hj. apply (st_ok_mono t); [by apply (Hk j)|done].
  - intros ip st. rewrite lookup_upd. case_decide; [apply Hoi|apply Hi].
  - apply (Hsum failures); [by intros ? []|done..].
  - apply (Hsum inFlight); [by intros ? []|done..].
  - intros u. rewrite lookup_upd, contribution_upd. specialize (Hu u). case_decide; subst; lia.
  - intros u st. rewrite lookup_upd. case_decide; [apply Hou|apply Hus].
Qed.

Definition weak_inv (t : Z) (l : authLimiter) : Prop := wf l ∧ winv t (iv l) (kv l) (uv l).

Lemma weak_inv_views t l v : wf l → views l = v → winv t v.1.1 v.1.2 v.2 → weak_inv t l.
Proof. intros Hwf <- H. by split. Qed.

Lemma weak_inv_mono t t' l : weak_inv t l → t ≤ t' → weak_inv t' l.
Proof. intros [? ?] ?. split; [done|by apply (winv_mono t)]. Qed.

(** Writes to the state of an address. *)
Definition ip_ok (st : attemptState) : Prop := 0 ≤ failures st ∧ 0 ≤ inFlight st ∧ budget_ok st.

Lemma fail1_ip now st : ip_ok st → ip_ok (fail1 now st).
Proof. intros (Hf & Hi & Hb). split_and!; by_states. Qed.
Lemma release1_ip now st : ip_ok st → ip_ok (release1 now st).
Proof. intros (Hf & Hi & Hb). split_and!; by_states. Qed.
Lemma succeedIP1_ip c now st : ip_ok st → ip_ok (succeedIP1 c now st).
Proof. intros (Hf & Hi & Hb). split_and!; by_states. Qed.
Lemma dropIP1_ip g now st : ip_ok st → ip_ok (dropIP1 g now st).
Proof. intros (Hf & Hi & Hb). split_and!; by_states. Qed.

(** Dropping an address that is empty. *)
Lemma settle_ip now o : (∀ st, o = Some st → ip_ok st) →
  zfail (settle now o) = zfail o ∧ zfly (settle now o) = zfly o ∧ ∀ st, settle now o = Some st → ip_ok st.
Proof.
  intros Ho. unfold settle. destruct (emptyState o now) eqn:E; [|done]. destruct o as [st|]; [|done].
  cbn in E |- *. zbool. done.
Qed.

Lemma settle_key now st : zeroTime ≤ now → st_pre now st →
  zfail (settle now (Some st)) = failures st ∧ zfly (settle now (Some st)) = inFlight st ∧
  ∀ st', settle now (Some st) = Some st' → st_ok now st'.
Proof.
  intros Hz Hp. destruct (settle_spec now st Hz Hp) as [(-> & -> & ->)|[-> Hok]]; [done|].
  split_and!; [done..|]. by intros ? [= <-].
Qed.

Section weak_operations.
Variable canonUser : string → string.
Context {t now : Z} (Ht : t ≤ now) (Hz : zeroTime ≤ t).
Context (ip username : string) (Hip : contains_byte 0 ip = false).

Let u := canonUser username.
Let key := key_of ip u.

Lemma winv_change_here mI mK mU o oi ou :
  winv t mI mK mU →
  (∀ st, o = Some st → st_ok now st) → (∀ ist, oi = Some ist → ip_ok ist) →
  (∀ c, zfail (mI !! ip) ≤ c → zfail (mK !! key) ≤ c → zfail oi ≤ c + zfail o - zfail (mK !! key)) →
  (∀ c, zfly (mI !! ip) ≤ c → zfly (mK !! key) ≤ c → zfly oi ≤ c + zfly o - zfly (mK !! key)) →
  zfly ou - zfly (mU !! u) = zfly o - zfly (mK !! key) →
  (∀ us, ou = Some us → failures us = 0 ∧ 0 < inFlight us ≤ freeAttempts) →
  winv now (upd ip oi mI) (upd key o mK) (upd u ou mU).
Proof.
  intros Hinv. pose proof (winv_change t now mI mK mU key o oi ou Hinv Ht) as Hc.
  unfold key in Hc |- *. by rewrite ipFromKey_key, userFromKey_key in Hc.
Qed.

(** An identity with a pending attempt, and its user. *)
Lemma weak_pending l : weak_inv t l → noReservation l key = false →
  ∃ st us, kv l !! key = Some st ∧ uv l !! u = Some us ∧ st_ok t st ∧ 0 < inFlight st ∧
    failures us = 0 ∧ 0 < inFlight us ≤ freeAttempts.
Proof.
  intros [Hwf [Hk _ _ _ Hu Huo]] Hno. unfold noReservation in Hno. rewrite deref_kv in Hno.
  destruct (kv l !! key) as [st|] eqn:Hst; [|done]. zbool. pose proof (Hk _ _ Hst) as Hok.
  pose proof (so_inFlight _ _ Hok). destruct (contribution_ge userFromKey inFlight (kv l) key) as [Hge _].
  { intros j st' Hj. by destruct (Hk _ _ Hj). }
  rewrite Hst in Hge. rewrite <-Hu in Hge. unfold key in Hge. rewrite userFromKey_key in Hge by done. cbn [from_option] in Hge.
  destruct (uv l !! u) as [us|] eqn:Eu; cbn [from_option] in Hge; [|lia].
  destruct (Huo _ _ Eu). exists st, us. split_and!; (done || lia).
Qed.

Lemma weak_failed l : weak_inv t l → weak_inv now (failed canonUser now ip username l).
Proof.
  intros Hl. pose proof Hl as [Hwf Hinv]. unfold failed. cbn [canonicalLimiterKey].
  fold u. fold (key_of ip u). fold key. destruct (noReservation l key) eqn:Hno; [by apply (weak_inv_mono t)|].
  destruct (weak_pending l Hl Hno) as (st & us & Hst & Hus & Hok & Hi & Huf & Hub).
  destruct (refines_compose _ _ _ _ (refines_convertFail_key key now)
    (refines_compose _ _ _ _ (refines_convertFail_ip ip now) (refines_releaseUser u now)) l Hwf) as [Ev Wv].
  split; [exact Wv|]. revert Ev. unfold views, t_user, t_mod. simpl.
  rewrite Hst, Hus. cbn [fmap option_fmap option_map]. intros [= -> -> ->].
  destruct (releasedUser_spec now us Huf Hub) as [Hzu Hus'].
  apply winv_change_here; [done| | | | | |exact Hus']; rewrite ?Hst, ?Hus, ?Hzu; cbn [from_option].
  - intros ? [= <-]. by apply (fail1_ok Ht Hz).
  - intros ist. destruct (iv l !! ip) as [ist0|] eqn:E; [|done]. intros [= <-]. apply fail1_ip, (w_ip _ _ _ _ Hinv _ _ E).
  - intros c. destruct (iv l !! ip) as [ist0|] eqn:E; cbn; by_states.
  - intros c. destruct (iv l !! ip) as [ist0|] eqn:E; cbn; by_states.
  - by_states.
Qed.

(** The identity and its address are written, dropped when empty, and the user's slot is
    released. *)
Lemma winv_settle_here mI mK mU st us st' oi :
  winv t mI mK mU → mK !! key = Some st → mU !! u = Some us →
  failures us = 0 → 0 < inFlight us ≤ freeAttempts →
  st_pre now st' → inFlight st' = inFlight st - 1 → (∀ ist, oi = Some ist → ip_ok ist) →
  (∀ c, zfail (mI !! ip) ≤ c → failures st ≤ c → zfail oi ≤ c + failures st' - failures st) →
  (∀ c, zfly (mI !! ip) ≤ c → inFlight st ≤ c → zfly oi ≤ c + inFlight st' - inFlight st) →
  winv now (upd ip (settle now oi) mI) (upd key (settle now (Some st')) mK) (upd u (releasedUser now (Some us)) mU).
Proof.
  intros Hinv Hst Hus Huf Hub Hp Hone Hoi HF HL. destruct (releasedUser_spec now us Huf Hub) as [Hzu Hus'].
  destruct (settle_key now st') as (E1 & E2 & E3); [lia|done|]. destruct (settle_ip now oi Hoi) as (I1 & I2 & I3).
  apply winv_change_here; [done|done|done| | | |exact Hus']; rewrite ?Hst, ?Hus, ?Hzu, ?E1, ?E2, ?I1, ?I2; cbn [from_option]; try done. lia.
Qed.

Lemma weak_canceled l : weak_inv t l → weak_inv now (canceled canonUser now ip username l).
Proof.
  intros Hl. pose proof Hl as [Hwf Hinv]. unfold canceled. cbn [canonicalLimiterKey].
  fold u. fold (key_of ip u). fold key. destruct (noReservation l key) eqn:Hno; [by apply (weak_inv_mono t)|].
  destruct (weak_pending l Hl Hno) as (st & us & Hst & Hus & Hok & Hi & Huf & Hub).
  destruct (refines_compose _ _ _ _ (refines_release_key key now)
    (refines_compose _ _ _ _ (refines_release_ip ip now)
      (refines_compose _ _ _ _ (refines_releaseUser u now) (refines_dropEmpty key ip now))) l Hwf) as [Ev Wv].
  split; [exact Wv|]. revert Ev. unfold views, t_user, t_mod, t_settle. simpl.
  rewrite !lookup_upd, !decide_True by done. rewrite !upd_upd. rewrite Hst, Hus. cbn [fmap option_fmap option_map]. intros [= -> -> ->].
  apply (winv_settle_here _ _ _ st us); try done.
  - by apply (release1_pre Ht Hz).
  - by_states.
  - intros ist. destruct (iv l !! ip) as [ist0|] eqn:E; [|done]. intros [= <-]. apply release1_ip, (w_ip _ _ _ _ Hinv _ _ E).
  - intros c. destruct (iv l !! ip) as [ist0|] eqn:E; cbn; by_states.
  - intros c. destruct (iv l !! ip) as [ist0|] eqn:E; cbn; by_states.
Qed.

Lemma weak_succeeded l : weak_inv t l → weak_inv now (succeeded canonUser now ip username l).
Proof.
  intros Hl. pose proof Hl as [Hwf Hinv]. unfold succeeded. cbn [canonicalLimiterKey].
  fold u. fold (key_of ip u). fold key. assert (Hsame : weak_inv now l) by (by apply (weak_inv_mono t)).
  destruct (byKey l !! key) as [p|] eqn:Hp; [|done]. destruct (heap l !! p) as [st0|] eqn:Hp0; [|done].
  assert (Hk : kv l !! key = Some st0) by (rewrite <-deref_kv, Hp; exact Hp0).
  destruct (inFlight st0 =? 0) eqn:Hno; [done|].
  destruct (weak_pending l Hl) as (st & us & Hst & Hus & Hok & Hi & Huf & Hub).
  { unfold noReservation. by rewrite deref_kv, Hk. }
  assert (st0 = st) as -> by congruence.
  destruct (refines_compose _ _ _ _ (refines_mod_settle (SKey key) (succeedKey1 now) now)
    (refines_compose _ _ _ _ (refines_mod_settle (SIP ip) (succeedIP1 (failures st) now) now)
      (refines_releaseUser u now)) l Hwf) as [Ev Wv].
  cbn [at_slot] in Ev, Wv. rewrite Hp in Ev, Wv. apply (weak_inv_views _ _ _ Wv Ev).
  unfold views, t_user, t_mod, t_settle. simpl.
  rewrite !lookup_upd, !decide_True by done. rewrite !upd_upd. rewrite Hst, Hus. cbn [fmap option_fmap option_map].
  pose proof (so_failures _ _ Hok). apply (winv_settle_here _ _ _ st us); try done.
  - by apply (succeedKey1_pre Ht Hz).
  - by_states.
  - intros ist. destruct (iv l !! ip) as [ist0|] eqn:E; [|done]. intros [= <-]. apply succeedIP1_ip, (w_ip _ _ _ _ Hinv _ _ E).
  - intros c. destruct (iv l !! ip) as [ist0|] eqn:E; cbn; by_states.
  - intros c. destruct (iv l !! ip) as [ist0|] eqn:E; cbn; by_states.
Qed.
End weak_operations.

Section weak_pruning.
Variable range : gmap string nat → list string.
Hypothesis range_spec : ∀ m k, k ∈ range m ↔ is_Some (m !! k).
Context {now : Z} (Hz : zeroTime ≤ now).

Definition weak_step (l l' : authLimiter) : Prop := weak_inv now l' ∧ prunes (now:=now) l l'.

Lemma weak_step_trans a b c : weak_step a b → weak_step b c → weak_step a c.
Proof. intros [_ H1] [? H2]. split; [done|by etrans]. Qed.

Lemma weak_same l l' :
  heap l' = heap l → next l' = next l → byIP l' = byIP l → byKey l' = byKey l → byUser l' = byUser l → same_config l l' →
  weak_inv now l → weak_step l l'.
Proof.
  intros Hh Hn Hi Hk Hu Hc [Hwf Hinv]. assert (Hat : ∀ s, at_slot l' s = at_slot l s) by (intros []; simpl; congruence).
  split; [split|].
  - destruct Hwf. constructor; [intros s p|intros s s' p|intros p]; rewrite ?Hat, ?Hh, ?Hn; eauto.
  - unfold iv, kv, uv, view in *. by rewrite Hh, Hi, Hk, Hu.
  - constructor; unfold kv, uv, view; rewrite ?Hh, ?Hk, ?Hu; try done. constructor; rewrite ?Hi, ?Hk, ?Hu; done.
Qed.

Lemma weak_dropIdentity l k st : weak_inv now l → kv l !! k = Some st → idle now st = true →
  weak_step l (dropIdentityLocked k st now l).
Proof.
  intros [Hwf Hinv] Hk Hidle. destruct (proj1 (idle_true st) Hidle) as [Hi _].
  destruct (refines_dropIdentity k st now l Hwf) as [Ev Wv]. split; [|constructor].
  - apply (weak_inv_views _ _ _ Wv Ev). unfold t_dropIdentity, t_settle, t_mod, views. simpl.
    rewrite !lookup_upd, !decide_True by done. rewrite upd_upd. rewrite <-(upd_id (userFromKey k) (uv l)).
    pose proof (w_key _ _ _ _ Hinv _ _ Hk) as Hok. pose proof (so_failures _ _ Hok).
    destruct (settle_ip now (dropIP1 st now <$> iv l !! ipFromKey k)) as (E1 & E2 & E3).
    { intros ist. destruct (iv l !! ipFromKey k) as [i|] eqn:E; [|done]. intros [= <-]. apply dropIP1_ip, (w_ip _ _ _ _ Hinv _ _ E). }
    apply (winv_change now now); [done|lia|done|done| | | |apply (w_user_ok _ _ _ _ Hinv)]; rewrite ?E1, ?E2, ?Hk, ?Hi; cbn [from_option].
    + intros c. destruct (iv l !! ipFromKey k) as [i|]; cbn; rewrite ?Hi; by_states.
    + intros c. destruct (iv l !! ipFromKey k) as [i|]; cbn; rewrite ?Hi; by_states.
    + lia.
  - apply shrinks_dropIdentity.
  - apply map_subseteq_spec. intros j st'. rewrite kv_dropIdentity by done. by case_decide.
  - intros j st' Hj Hp. rewrite kv_dropIdentity by done. case_decide; [|done]. subst j. unfold protected in Hp. congruence.
  - unfold dropIdentityLocked. simpl. by repeat case_match.
  - by apply (f_equal snd) in Ev.
Qed.

Lemma weak_pruneKey l k : weak_inv now l → weak_step l (pruneKey now l k).
Proof.
  intros Hl. unfold pruneKey. rewrite deref_kv. destruct (kv l !! k) as [st|] eqn:Hk; [|done].
  destruct (safeToPrune l (Some st) now) eqn:Hs; [|done]. apply weak_dropIdentity; [done..|].
  apply (safeToPrune_idle now l); [|done]. by apply (w_key _ _ _ _ (proj2 Hl) k).
Qed.

(** Forgetting an address, alone or with its identities, none of which is pending. *)
Lemma winv_forget_ip mI mK mU ip : winv now mI mK mU → winv now (upd ip None mI) mK mU.
Proof.
  intros [Hk Hi Hf Hl Hu Huo]. constructor; try done.
  - intros i st. rewrite lookup_upd. case_decide; [done|]. apply Hi.
  - intros i. rewrite lookup_upd. case_decide; [|done]. apply (contribution_ge ipFromKey failures mK ""). intros j st Hj. by destruct (Hk _ _ Hj).
  - intros i. rewrite lookup_upd. case_decide; [|done]. apply (contribution_ge ipFromKey inFlight mK ""). intros j st Hj. by destruct (Hk _ _ Hj).
Qed.

Lemma winv_evict_ip mI mK mU ip :
  winv now mI mK mU → (∀ k st, mK !! k = Some st → ipFromKey k = ip → inFlight st = 0) →
  winv now (upd ip None mI) (filter (λ e, ipFromKey e.1 ≠ ip) mK) mU.
Proof.
  intros [Hk Hi Hf Hl Hu Huo] Hzero. set (mK' := filter _ mK).
  assert (Hc : ∀ x who, who ≠ ip → contribution ipFromKey x mK' who = contribution ipFromKey x mK who).
  { intros x who Hwho. unfold mK', contribution. rewrite map_sum_filter. apply map_sum_ext. intros k st Hks. repeat case_decide; naive_solver. }
  assert (Hk' : ∀ k st, mK' !! k = Some st → st_ok now st) by (intros k st [Hks _]%map_lookup_filter_Some; eauto).
  constructor; try done.
  - intros i st. rewrite lookup_upd. case_decide; [done|]. apply Hi.
  - intros i. rewrite lookup_upd. case_decide; [|by rewrite Hc]. apply (contribution_ge ipFromKey failures mK' ""). intros j st Hj. by destruct (Hk' _ _ Hj).
  - intros i. rewrite lookup_upd. case_decide; [|by rewrite Hc]. apply (contribution_ge ipFromKey inFlight mK' ""). intros j st Hj. by destruct (Hk' _ _ Hj).
  - intros v. rewrite Hu. unfold mK', contribution. rewrite map_sum_filter. apply map_sum_ext. intros k st Hks.
    repeat case_decide; try done. apply (Hzero k st Hks). simpl in *. destruct (decide (ipFromKey k = ip)); tauto.
Qed.

Lemma weak_pruneIP l ip : weak_inv now l → weak_step l (pruneIP now l ip).
Proof.
  intros Hl. pose proof Hl as [Hwf Hinv]. unfold pruneIP. destruct (byIP l !! ip) as [p|]; [|done].
  destruct (safeToPrune l (heap l !! p) now); [|done]. destruct (views_delete_ip l ip Hwf) as [Ev Wv]. split.
  - apply (weak_inv_views _ _ _ Wv Ev). simpl.
    by apply winv_forget_ip.
  - constructor; try done. apply (shrinks_del_slot (SIP ip)).
Qed.

Lemma weak_pruneUser l v : weak_inv now l → pruneUser l v = l.
Proof.
  intros [Hwf Hinv]. unfold pruneUser. rewrite deref_uv. destruct (uv l !! v) as [us|] eqn:Hu; [|done].
  destruct (w_user_ok _ _ _ _ Hinv _ _ Hu) as [_ ?]. assert (inFlight us =? 0 = false) as -> by (apply Z.eqb_neq; lia). done.
Qed.

Lemma weak_fold {B} (f : authLimiter → B → authLimiter) xs l :
  (∀ s x, weak_inv now s → weak_step s (f s x)) → weak_inv now l → weak_step l (fold_left f xs l).
Proof.
  intros Hf Hl. apply (fold_left_inv (weak_step l)); [|by split]. intros s x _ Hs.
  eapply weak_step_trans; [done|]. by apply Hf, Hs.
Qed.

Lemma weak_forcePrune l : weak_inv now l → weak_step l (forcePrune range now l).
Proof.
  intros Hl. unfold forcePrune. cbn zeta. set (l0 := set_fullSweeps _ _).
  assert (H0 : weak_step l l0) by (by apply weak_same).
  pose proof (weak_fold (pruneKey now) (range (byKey l0)) l0 weak_pruneKey (proj1 H0)) as H1.
  set (l1 := fold_left (pruneKey now) _ _) in *.
  pose proof (weak_fold (pruneIP now) (range (byIP l1)) l1 weak_pruneIP (proj1 H1)) as H2.
  set (l2 := fold_left (pruneIP now) _ _) in *.
  assert (fold_left pruneUser (range (byUser l2)) l2 = l2) as ->.
  { apply (fold_left_inv (λ s, s = l2)); [|done]. intros s v _ ->. apply weak_pruneUser, H2. }
  eauto using weak_step_trans.
Qed.

Lemma weak_periodic l : weak_inv now l → weak_step l (maybePeriodicPrune range now l).
Proof. intros Hl. unfold maybePeriodicPrune. case_match; [done|by apply weak_forcePrune]. Qed.

Lemma weak_evictKey (b : bool) l l' ok :
  weak_inv now l → (if b then evictOldestKey range now l else (l, true)) = (l', ok) →
  weak_step l l' ∧ (b = true → ok = true → byKey l' ⊂ byKey l).
Proof.
  intros Hl. destruct b; [|by intros [= <- <-]]. unfold evictOldestKey. cbn zeta.
  destruct (bool_decide _) eqn:Hne; [by intros [= <- <-]|]. zbool.
  destruct (oldest_eligible range l (byKey l) (λ _, idle now) Hne) as (st & Hst & Hidle).
  set (k := oldest _ _ _ _) in *. rewrite Hst. intros [= <- <-].
  rewrite deref_kv in Hst. split; [by apply weak_dropIdentity|]. intros _ _.
  assert (byKey (dropIdentityLocked k st now l) = delete k (byKey l)) as ->.
  { unfold dropIdentityLocked. simpl. by repeat case_match. }
  apply delete_subset. apply kv_is_Some; [apply Hl|eauto].
Qed.

(** An evicted address is one of the map: identities of other addresses stay. *)
Lemma weak_evictIP (b : bool) l l' ok :
  weak_inv now l → (if b then evictOldestIP range now l else (l, true)) = (l', ok) →
  weak_step l l' ∧ (b = true → ok = true → byIP l' ⊂ byIP l) ∧
  ∀ k, byIP l !! ipFromKey k = None → byKey l' !! k = byKey l !! k.
Proof.
  intros Hl. destruct b; [|by intros [= <- <-]]. pose proof Hl as [Hwf Hinv]. unfold evictOldestIP. cbn zeta.
  set (eligible := λ ip st, _ && _). destruct (bool_decide _) eqn:Hne; [by intros [= <- <-]|]. zbool.
  destruct (oldest_eligible range l (byIP l) eligible Hne) as (ist & Hist & Hel).
  set (ip := oldest _ _ _ _) in *. fold (dropKeysOf ip). unfold eligible in Hel. zbool.
  destruct (dropKeysOf_fold range range_spec l ip Hwf) as (HW & HS & HI & HU & HBI & HBU & HK).
  assert (HBK : ∀ k, ipFromKey k ≠ ip → byKey (fold_left (dropKeysOf ip) (range (byKey l)) l) !! k = byKey l !! k).
  { intros k Hk. apply (fold_left_inv (λ s, byKey s !! k = byKey l !! k)); [|done]. intros s x _ Hs. unfold dropKeysOf.
    case_bool_decide; [|done]. cbn. rewrite lookup_delete_ne; [done|]. intros ->. done. }
  set (l1 := fold_left (dropKeysOf ip) _ _) in *. intros [= <- <-].
  destruct (views_delete_ip l1 ip HW) as [Ev Wv].
  assert (Hidle : ∀ k st, kv l !! k = Some st → ipFromKey k = ip → idle now st = true).
  { intros k st Hk Hf. apply (unsafeIPs_spec range range_spec l k); [done..|]. by rewrite Hf. }
  split_and!; [split|..].
  - apply (weak_inv_views _ _ _ Wv Ev). simpl. rewrite HI, HU, HK.
    apply winv_evict_ip; [done|]. intros k st Hk Hf. by apply (idle_true (now:=now)), (Hidle k).
  - constructor.
    + etrans; [exact HS|apply (shrinks_del_slot (SIP ip))].
    + change (kv l1 ⊆ kv l). rewrite HK. apply map_filter_subseteq.
    + intros k st Hk Hp. change (kv l1 !! k = Some st). rewrite HK.
      apply map_lookup_filter_Some. split; [done|]. simpl. intros Hf. unfold protected in Hp. rewrite (Hidle k st) in Hp; done.
    + exact HBU.
    + exact HU.
  - intros _ _. simpl. rewrite HBI. apply delete_subset. unfold deref in Hist. destruct (byIP l !! ip); [eauto|done].
  - intros k Hk. apply HBK. intros Hkip. rewrite Hkip in Hk. unfold deref in Hist. rewrite Hk in Hist. done.
Qed.
End weak_pruning.

Section weak_reserving.
Variable range : gmap string nat → list string.
Hypothesis range_spec : ∀ m k, k ∈ range m ↔ is_Some (m !! k).
Variable canonUser : string → string.
Context {now : Z} (Hz : zeroTime ≤ now).
Context (ip username : string) (Hip : contains_byte 0 ip = false).

Let u := canonUser username.
Let key := key_of ip u.

(** The address pointer [reserve] goes on with: the one of the map, or one that no map
    holds any more. *)
Definition ip_pointer (l : authLimiter) (ipState : option nat) : Prop :=
  ipState = byIP l !! ip ∨
  ∃ p, ipState = Some p ∧ (p < next l)%nat ∧ (∀ s, at_slot l s ≠ Some p) ∧ byIP l !! ip = None.

Lemma weak_makeRoom l l' r :
  weak_inv now l → bounded l → makeRoom range now ip key l = (l', r) →
  weak_step (now:=now) l l' ∧
  ∀ ipState keyState, r = Some (ipState, keyState) → ip_pointer l' ipState ∧ room canonUser ip username l' ipState keyState.
Proof.
  intros Hl Hb. unfold makeRoom. cbn zeta. destruct (_ || _) eqn:Hneed.
  2:{ intros [= <- <-]. split; [done|]. intros ? ? [= <- <-]. split; [by left|by apply no_room_needed]. }
  destruct (_ <? _); [by intros [= <- <-]|].
  assert (H0 : weak_step (now:=now) l (set_lastCapSweep now l)) by (by apply weak_same).
  set (l0 := set_lastCapSweep now l) in *. pose proof (weak_forcePrune range l0 (proj1 H0)) as H1.
  set (l1 := forcePrune range now l0) in *.
  assert (Hb1 : bounded l1) by (apply (bounded_shrinks l0); [apply H1|]; by apply (bounded_shrinks l); [apply H0|]).
  destruct (if is_none (byIP l1 !! ip) && _ then _ else _) as [l2 ok2] eqn:E2.
  destruct (weak_evictIP range range_spec _ _ _ _ (proj1 H1) E2) as (H2 & Hroom2 & Hkeep2).
  destruct ok2; simpl; [|intros [= <- <-]; split; [|done]; eauto using weak_step_trans].
  destruct (if is_none (byKey l1 !! key) && _ then _ else _) as [l3 ok3] eqn:E3.
  destruct (weak_evictKey range _ _ _ _ (proj1 H2) E3) as [H3 Hroom3].
  destruct ok3; simpl; intros [= <- <-]; (split; [by eauto using weak_step_trans|]); [|done].
  intros ? ? [= <- <-].
  pose proof (pr_shrinks _ _ (proj2 H2)) as S2. pose proof (pr_shrinks _ _ (proj2 H3)) as S3.
  assert (Hsub : ∀ s p, at_slot l3 s = Some p → at_slot l1 s = Some p).
  { intros s p. destruct s; cbn [at_slot]; intros Hs;
      [apply (lookup_weaken _ _ _ _ Hs); etrans; [apply S3|apply S2]..]. }
  pose proof (bounded_shrinks _ _ S2 Hb1) as Hb2. destruct (proj1 H1) as [Hwf1 _].
  split.
  - destruct (byIP l1 !! ip) as [p|] eqn:Ei.
    + destruct (byIP l3 !! ip) as [p'|] eqn:Ei3.
      * left. rewrite Ei3. apply (Hsub (SIP ip)) in Ei3. cbn [at_slot] in Ei3. congruence.
      * right. exists p. split_and!; [done| | |done].
        { rewrite (sh_next _ _ S3), (sh_next _ _ S2). apply (wf_next _ Hwf1), (wf_alloc _ Hwf1 (SIP ip) p Ei). }
        intros s Hs. apply Hsub in Hs as Hs1.
        pose proof (wf_inj _ Hwf1 s (SIP ip) p Hs1 Ei) as ->. cbn [at_slot] in Hs. congruence.
    + left. destruct (byIP l3 !! ip) as [p'|] eqn:Ei3; [|done]. apply (Hsub (SIP ip)) in Ei3. cbn [at_slot] in Ei3. congruence.
  - split_and!; [|intros Hn|intros _ Hn|intros _ Hn].
    + change (byKey l1 !! key = byKey l3 !! key). destruct (byKey l1 !! key) as [pk|] eqn:Ek.
      * simpl in E3. injection E3 as <-. destruct (byIP l1 !! ip) as [p|] eqn:Ei; [simpl in E2; by injection E2 as <-|].
        rewrite Hkeep2; [done|]. unfold key. by rewrite ipFromKey_key.
      * destruct (byKey l3 !! key) as [pk|] eqn:Ek3; [|done]. apply (Hsub (SKey key)) in Ek3. cbn [at_slot] in Ek3. congruence.
    + destruct (byIP l3 !! ip) as [p|] eqn:Ei3; [|done]. apply (Hsub (SIP ip)) in Ei3. cbn [at_slot] in Ei3. by rewrite Ei3 in Hn.
    + pose proof (need_room _ _ _ _ (sh_ip _ _ S2) (proj1 Hb1) (λ e, Hroom2 e eq_refl) Hn).
      pose proof (map_len_sub _ _ (sh_ip _ _ S3)). destruct (sh_config _ _ S2) as (F2 & _), (sh_config _ _ S3) as (F3 & _). lia.
    + pose proof (need_room _ _ _ _ (sh_key _ _ S3) (proj1 (proj2 Hb2)) (λ e, Hroom3 e eq_refl) Hn).
      destruct (sh_config _ _ S3) as (_ & F3 & _). lia.
Qed.

(** A write through a pointer no map holds is not seen. *)
Lemma modify_unheld p f l : wf l → (∀ s, at_slot l s ≠ Some p) →
  views (modify p f l) = views l ∧ wf (modify p f l).
Proof.
  intros Hwf Hp. assert (Hat : ∀ s, at_slot (modify p f l) s = at_slot l s) by (by intros []). split.
  - apply views_ext. intros s. rewrite !lookup3_views. unfold slot_val. rewrite Hat.
    destruct (at_slot l s) as [q|] eqn:E; [|done]. simpl. rewrite lookup_alter_ne; [done|]. intros ->. by apply (Hp s).
  - constructor.
    + intros s q. rewrite Hat. intros H%(wf_alloc l Hwf). simpl. rewrite lookup_alter. case_decide; [|done].
      subst. by destruct H as [? ->].
    + intros s s' q. rewrite !Hat. apply (wf_inj l Hwf).
    + simpl. intros q. rewrite lookup_alter. case_decide; [|apply (wf_next l Hwf)]. subst. rewrite fmap_is_Some. apply (wf_next l Hwf).
Qed.

(** The end of [reserve] with such a pointer: the address's count is lost. *)
Lemma admit_unheld p l :
  wf l → (p < next l)%nat →
  admitReservation now ip key u (Some p) (byKey l !! key) (byUser l !! u) l =
  if (is_none (byUser l !! u) && (maxUser l <=? map_len (byUser l)))
     || negb (canReserve (heap l !! p) now) || negb (canReserve (kv l !! key) now)
     || (match uv l !! u with Some st => freeAttempts <=? inFlight st | None => false end)
  then (l, false)
  else (touch (SUser u) (reserved1 now) (touch (SKey key) (reserved1 now) (modify p (reserved1 now) l)), true).
Proof.
  intros Hwf Hp. unfold admitReservation. rewrite deref_kv, deref_uv. unfold is_none. simpl.
  destruct (_ && _); [done|]. simpl. destruct (_ || _); [done|].
  assert (Hold : ∀ s q, at_slot l s = Some q → (q < next l)%nat).
  { intros s q Hq. apply (wf_next l Hwf), (wf_alloc l Hwf _ _ Hq). }
  pose proof (Hold (SKey key)) as HK. pose proof (Hold (SUser u)) as HU. simpl in HK, HU. unfold touch. simpl.
  destruct (byKey l !! key) as [pk|] eqn:Ek; destruct (byUser l !! u) as [pu|] eqn:Eu; simpl; rewrite ?Eu; simpl;
    repeat match goal with
    | H : ∀ p, Some ?x = Some p → _ |- _ => specialize (H x eq_refl)
    | H : ∀ p, None = Some p → _ |- _ => clear H
    end;
    f_equal; apply limiter_ext; cbn; try reflexivity;
    repeat (rewrite alter_insert_eq || rewrite alter_insert_ne by lia); reflexivity.
Qed.

Lemma reserved1_ip o :
  (∀ st, o = Some st → ip_ok st) → canReserve o now = true → ip_ok (reserved1 now (default newAttempt o)).
Proof.
  intros Ho Hc. destruct o as [st|]; simpl in *.
  - destruct (Ho st eq_refl) as (? & ? & ?). split_and!; by_states.
  - unfold newAttempt. split_and!; by_states.
Qed.

(** What the write to the address leaves: everything but that address is as before, and
    the address counts at most one attempt more. *)
Record address_written (l l2 : authLimiter) : Prop := {
  aw_wf : wf l2;
  aw_key : byKey l2 = byKey l;
  aw_user : byUser l2 = byUser l;
  aw_config : same_config l l2;
  aw_len : map_len (byIP l2) ≤ maxIP l;
  aw_views : ∃ oi, views l2 = upd_slot (SIP ip) oi (views l) ∧
    (∀ ist, oi = Some ist → ip_ok ist) ∧ zfail oi ≤ zfail (iv l !! ip) ∧ zfly oi ≤ zfly (iv l !! ip) + 1
}.

Lemma touch_address l : weak_inv now l → bounded l →
  (is_none (byIP l !! ip) = true → map_len (byIP l) < maxIP l) → canReserve (iv l !! ip) now = true →
  address_written l (touch (SIP ip) (reserved1 now) l).
Proof.
  intros [Hwf Hinv] (Hb & _) Hroom Hc. destruct (refines_touch (SIP ip) (reserved1 now) l Hwf) as [Ev Wv].
  destruct (touch_grow (SIP ip) (reserved1 now) l) as (H1 & _ & _ & H4 & H5). constructor; [done| | |done| |].
  - unfold touch. simpl. by destruct (byIP l !! ip).
  - unfold touch. simpl. by destruct (byIP l !! ip).
  - destruct (is_none (byIP l !! ip)); [specialize (Hroom eq_refl)|]; lia.
  - eexists. split; [exact Ev|]. rewrite lookup3_views. unfold slot_val. cbn [at_slot]. rewrite deref_iv. split_and!.
    + intros ? [= <-]. apply reserved1_ip; [|done]. intros st Hst. by apply (w_ip _ _ _ _ Hinv ip).
    + by destruct (iv l !! ip).
    + by destruct (iv l !! ip).
Qed.

Lemma unheld_address p l : weak_inv now l → bounded l → (∀ s, at_slot l s ≠ Some p) →
  address_written l (modify p (reserved1 now) l).
Proof.
  intros [Hwf Hinv] (Hb & _) Hp. destruct (modify_unheld p (reserved1 now) l Hwf Hp) as [Ev Wv].
  constructor; try done. exists (iv l !! ip). split_and!; [|by apply (w_ip _ _ _ _ Hinv)|lia..].
  rewrite Ev. symmetry. pose proof (upd_slot_id (SIP ip) (views l)) as H. rewrite lookup3_views in H. unfold slot_val in H.
  cbn [at_slot] in H. by rewrite deref_iv in H.
Qed.

(** The end of [reserve]: a refusal, or one more pending attempt. *)
Lemma weak_admit l ipState :
  weak_inv now l → bounded l → ip_pointer l ipState → room canonUser ip username l ipState (byKey l !! key) →
  let r := admitReservation now ip key u ipState (byKey l !! key) (byUser l !! u) l in
  r = (l, false) ∨
  ∃ l2, address_written l l2 ∧
    r = (touch (SUser u) (reserved1 now) (touch (SKey key) (reserved1 now) l2), true) ∧
    canReserve (kv l !! key) now = true ∧ (∀ us, uv l !! u = Some us → inFlight us < freeAttempts) ∧
    (is_none (byUser l !! u) = true → map_len (byUser l) < maxUser l).
Proof.
  intros Hl Hb Hp (_ & _ & Hroom & _) r. specialize (Hroom Hb). unfold r. clear r. pose proof Hl as [Hwf _].
  destruct Hp as [-> |(p & -> & Hn & Hp & _)]; [rewrite admit_touch by done|rewrite admit_unheld by done];
    (destruct (_ || _) eqn:Hc; [by left|right]); zbool; eexists;
    (split; [first [by apply touch_address|by apply unheld_address]|]); split_and!; try done;
    try (intros us Hus; rewrite Hus in *; by zbool); intros Hnone; rewrite Hnone in *; simpl in *; by zbool.
Qed.

Lemma weak_admitted l l2 :
  weak_inv now l → bounded l → address_written l l2 → canReserve (kv l !! key) now = true →
  (∀ us, uv l !! u = Some us → inFlight us < freeAttempts) →
  (is_none (byKey l !! key) = true → map_len (byKey l) < maxKey l) →
  (is_none (byUser l !! u) = true → map_len (byUser l) < maxUser l) →
  let l' := touch (SUser u) (reserved1 now) (touch (SKey key) (reserved1 now) l2) in
  weak_inv now l' ∧ bounded l' ∧ same_config l l' ∧ ∀ k, k ≠ key → kv l' !! k = kv l !! k.
Proof.
  intros [Hwf Hinv] (Hb1 & Hb2 & Hb3) [Hwf2 Ek Eu Hc2 Hlen (oi & Ev2 & Hoi & Hf & Hl)] Hck Hcu Hrk Hru l'.
  destruct (refines_compose _ _ _ _ (refines_touch (SKey key) (reserved1 now))
    (refines_touch (SUser u) (reserved1 now)) l2 Hwf2) as [Ev Wv]. fold l' in Ev, Wv. rewrite Ev2 in Ev. simpl in Ev.
  assert (Hk : st_ok now (reserved1 now (default newAttempt (kv l !! key)))).
  { apply reserved1_ok; [|done..]. apply (w_key _ _ _ _ Hinv). }
  split_and!.
  - apply (weak_inv_views _ _ _ Wv Ev). simpl.
    apply (winv_change_here canonUser (Z.le_refl now) ip username Hip); try done.
    + by intros ? [= <-].
    + intros c. fold u key. destruct (kv l !! key); simpl; lia.
    + intros c. fold u key. destruct (kv l !! key); simpl; lia.
    + fold u key. destruct (uv l !! u), (kv l !! key); simpl; lia.
    + intros us [= <-]. destruct (uv l !! u) as [us|] eqn:E; simpl.
      * destruct (w_user_ok _ _ _ _ Hinv _ _ E). specialize (Hcu us eq_refl). lia.
      * unfold freeAttempts. lia.
  - destruct (touch_grow (SKey key) (reserved1 now) l2) as (B1 & B2 & B3 & B4 & B5).
    set (l3 := touch (SKey key) (reserved1 now) l2) in *.
    destruct (touch_grow (SUser u) (reserved1 now) l3) as (C1 & C2 & C3 & C4 & _). fold l' in C1, C2, C3, C4.
    pose proof (B5 (SUser u) ltac:(done)) as E2. simpl in E2. rewrite E2, Eu in C3. rewrite Ek in B2. rewrite Eu in B3.
    destruct Hc2 as (?&?&?&?&?), B4 as (?&?&?&?&?), C4 as (?&?&?&?&?). unfold bounded.
    (destruct (is_none (byKey l !! key)); [specialize (Hrk eq_refl)|]);
      (destruct (is_none (byUser l !! u)); [specialize (Hru eq_refl)|]); split_and!; lia.
  - destruct (touch_grow (SKey key) (reserved1 now) l2) as (_ & _ & _ & B4 & _).
    destruct (touch_grow (SUser u) (reserved1 now) (touch (SKey key) (reserved1 now) l2)) as (_ & _ & _ & C4 & _).
    eauto using same_config_trans.
  - intros k Hne. apply (f_equal (λ v, v.1.2 !! k)) in Ev. simpl in Ev. by rewrite lookup_upd, decide_False in Ev.
Qed.

(** Every call of [reserve]: pruning, then a refusal or one more pending attempt. *)
Lemma weak_reserve l : weak_inv now l → bounded l →
  let r := reserve range canonUser now ip username l in
  weak_inv now r.1 ∧ bounded r.1 ∧ same_config l r.1 ∧
  (∀ k st, kv l !! k = Some st → protected (now:=now) st → k ≠ key ∨ r.2 = false → kv r.1 !! k = Some st) ∧
  (∀ st, kv l !! key = Some st → now < until st → r.2 = false).
Proof.
  intros Hl Hb. unfold reserve. cbn [canonicalLimiterKey]. cbn zeta. fold u. fold (key_of ip u). fold key.
  pose proof (weak_periodic range l Hl) as H0. set (l0 := maybePeriodicPrune range now l) in *.
  pose proof (bounded_shrinks _ _ (pr_shrinks _ _ (proj2 H0)) Hb) as Hb0.
  destruct (makeRoom range now ip key l0) as [l1 r] eqn:E.
  destruct (weak_makeRoom l0 l1 r (proj1 H0) Hb0 E) as [H1 Hr].
  pose proof (weak_step_trans _ _ _ H0 H1) as [Hl1 Hp].
  pose proof (bounded_shrinks _ _ (pr_shrinks _ _ Hp) Hb) as Hb1. pose proof (sh_config _ _ (pr_shrinks _ _ Hp)) as Hc1.
  destruct r as [[ipState keyState]|]; [|split_and!; try done; intros ? ? ? ? _; by apply (pr_keep _ _ Hp)].
  destruct (Hr _ _ eq_refl) as [Hip' Hroom]. pose proof (proj1 Hroom) as ->.
  rewrite <-(pr_user _ _ (proj2 H1)).
  destruct (weak_admit l1 ipState Hl1 Hb1 Hip' Hroom) as [Ha|(l2 & Haw & Ha & Hck & Hcu & Hru)]; unfold key, u in *; rewrite Ha.
  - split_and!; try done. intros ? ? ? ? _. by apply (pr_keep _ _ Hp).
  - destruct Hroom as (_ & _ & _ & Hrk). destruct (weak_admitted l1 l2 Hl1 Hb1 Haw Hck Hcu (Hrk Hb1) Hru) as (W1 & W2 & W3 & W4).
    split_and!; [done|done| | |].
    + exact (same_config_trans _ _ _ Hc1 W3).
    + intros k st Hk Hprot [Hne|]; [|done]. unfold key, u in *. cbn [fst]. rewrite W4 by done. by apply (pr_keep _ _ Hp).
    + intros st Hst Hlock. exfalso. unfold key, u in *. rewrite (pr_keep _ _ Hp _ st Hst) in Hck.
      * simpl in Hck. destruct (now <? until st) eqn:E'; zbool; [done|lia].
      * unfold protected, idle. destruct (now <? until st) eqn:E'; zbool; [|lia]. by rewrite andb_false_r.
Qed.
End weak_reserving.

Section every_history.
Variable range : gmap string nat → list string.
Variable canonUser : string → string.

(** The clock does not run backwards and addresses have no NUL byte. *)
Fixpoint clocked (t : Z) (ops : list (Z * op)) : bool :=
  match ops with
  | [] => true
  | (now, o) :: ops => (t <=? now) && negb (contains_byte 0 (op_ip o)) && clocked now ops
  end.

Lemma clocked_app t ops ops' : clocked t (ops ++ ops') = true →
  clocked t ops = true ∧ clocked (last_time t ops) ops' = true ∧ t ≤ last_time t ops.
Proof.
  revert t. induction ops as [|[n o] ops IH]; intros t; simpl; intros H; [split_and!; (done || lia)|].
  apply andb_true_iff in H as [H1 H2]. destruct (IH n H2) as (-> & ? & ?). rewrite H1. zbool. split_and!; (done || lia).
Qed.

(** The calls that end an attempt leave the other identities alone. *)
Lemma terminal_others now ip user l k : wf l → k ≠ key_of ip (canonUser user) →
  kv (failed canonUser now ip user l) !! k = kv l !! k ∧
  kv (canceled canonUser now ip user l) !! k = kv l !! k ∧
  kv (succeeded canonUser now ip user l) !! k = kv l !! k.
Proof.
  intros Hwf Hne. unfold failed, canceled, succeeded. cbn [canonicalLimiterKey].
  set (u := canonUser user) in *. fold (key_of ip u). set (key := key_of ip u) in *. split_and!.
  - destruct (noReservation l key); [done|].
    destruct (refines_compose _ _ _ _ (refines_convertFail_key key now)
      (refines_compose _ _ _ _ (refines_convertFail_ip ip now) (refines_releaseUser u now)) l Hwf) as [Ev _].
    apply (f_equal (λ v, v.1.2 !! k)) in Ev. simpl in Ev. by rewrite lookup_upd, decide_False in Ev.
  - destruct (noReservation l key); [done|].
    destruct (refines_compose _ _ _ _ (refines_release_key key now)
      (refines_compose _ _ _ _ (refines_release_ip ip now)
        (refines_compose _ _ _ _ (refines_releaseUser u now) (refines_dropEmpty key ip now))) l Hwf) as [Ev _].
    apply (f_equal (λ v, v.1.2 !! k)) in Ev. simpl in Ev. by rewrite !lookup_upd, !decide_False in Ev.
  - destruct (byKey l !! key) as [p|] eqn:Hp; [|done]. destruct (heap l !! p) as [st|] eqn:Hst; [|done].
    destruct (_ =? _); [done|].
    destruct (refines_compose _ _ _ _ (refines_mod_settle (SKey key) (succeedKey1 now) now)
      (refines_compose _ _ _ _ (refines_mod_settle (SIP ip) (succeedIP1 (failures st) now) now)
        (refines_releaseUser u now)) l Hwf) as [Ev _].
    cbn [at_slot] in Ev. rewrite Hp in Ev. apply (f_equal (λ v, v.1.2 !! k)) in Ev. simpl in Ev.
    by rewrite !lookup_upd, !decide_False in Ev.
Qed.

(** On an identity with no pending attempt they do nothing. *)
Lemma terminal_idle now ip user l st : kv l !! key_of ip (canonUser user) = Some st → inFlight st = 0 →
  failed canonUser now ip user l = l ∧ canceled canonUser now ip user l = l ∧ succeeded canonUser now ip user l = l.
Proof.
  intros Hst Hi. unfold failed, canceled, succeeded. cbn [canonicalLimiterKey].
  fold (key_of ip (canonUser user)). set (key := key_of ip (canonUser user)) in *.
  assert (noReservation l key = true) as -> by (unfold noReservation; rewrite deref_kv, Hst; by apply Z.eqb_eq).
  rewrite <-deref_kv in Hst. destruct (byKey l !! key) as [p|]; [|done]. simpl in Hst. rewrite Hst.
  by rewrite (proj2 (Z.eqb_eq _ _) Hi).
Qed.

Hypothesis range_spec : ∀ m k, k ∈ range m ↔ is_Some (m !! k).

Lemma weak_apply_op t now o l :
  weak_inv t l → zeroTime ≤ t → bounded l → t ≤ now → contains_byte 0 (op_ip o) = false →
  weak_inv now (apply_op range canonUser now o l) ∧ bounded (apply_op range canonUser now o l) ∧
  same_config l (apply_op range canonUser now o l).
Proof.
  intros Hl Hz Hb Ht Hip. pose proof (weak_inv_mono _ _ _ Hl Ht) as Hln. assert (Hzn : zeroTime ≤ now) by lia.
  destruct o as [ip user|ip user|ip user|ip user]; cbn [apply_op op_ip] in *;
    pose proof (shrinks_terminal canonUser now ip user l) as (S1 & S2 & S3).
  - destruct (weak_reserve range range_spec canonUser Hzn ip user Hip l Hln Hb) as (? & ? & ? & _). done.
  - split_and!; [by apply (weak_failed canonUser Ht)|by apply (bounded_shrinks l)|apply S1].
  - split_and!; [by apply (weak_canceled canonUser Ht)|by apply (bounded_shrinks l)|apply S2].
  - split_and!; [by apply (weak_succeeded canonUser Ht)|by apply (bounded_shrinks l)|apply S3].
Qed.

Lemma weak_run ops t l :
  weak_inv t l → zeroTime ≤ t → bounded l → clocked t ops = true →
  weak_inv (last_time t ops) (run range canonUser ops l) ∧ bounded (run range canonUser ops l).
Proof.
  revert t l. induction ops as [|[now o] ops IH]; intros t l Hl Hz Hb Hok; [done|]. simpl in Hok |- *. zbool.
  destruct (weak_apply_op t now o l) as (Hl' & Hb' & _); try done. apply IH; (done || lia).
Qed.

(** No call by anyone lifts the lockout of an identity before its time, or admits it. *)
Lemma locked_apply_op t now o l k st :
  weak_inv t l → zeroTime ≤ t → bounded l → t ≤ now → contains_byte 0 (op_ip o) = false →
  kv l !! k = Some st → inFlight st = 0 → now < until st →
  kv (apply_op range canonUser now o l) !! k = Some st.
Proof.
  intros Hl Hz Hb Ht Hip Hk Hi Hlock. pose proof (weak_inv_mono _ _ _ Hl Ht) as Hln. assert (Hzn : zeroTime ≤ now) by lia.
  assert (Hprot : protected (now:=now) st).
  { unfold protected, idle. destruct (now <? until st) eqn:E; zbool; [|lia]. by rewrite andb_false_r. }
  destruct o as [ip user|ip user|ip user|ip user]; cbn [apply_op op_ip] in *;
    destruct (decide (k = key_of ip (canonUser user))) as [-> |Hne].
  - destruct (weak_reserve range range_spec canonUser Hzn ip user Hip l Hln Hb) as (_ & _ & _ & Hkeep & Hno). eauto.
  - destruct (weak_reserve range range_spec canonUser Hzn ip user Hip l Hln Hb) as (_ & _ & _ & Hkeep & Hno). eauto.
  - by rewrite (proj1 (terminal_idle now ip user l st Hk Hi)).
  - by rewrite (proj1 (terminal_others now ip user l k (proj1 Hl) Hne)).
  - by rewrite (proj1 (proj2 (terminal_idle now ip user l st Hk Hi))).
  - by rewrite (proj1 (proj2 (terminal_others now ip user l k (proj1 Hl) Hne))).
  - by rewrite (proj2 (proj2 (terminal_idle now ip user l st Hk Hi))).
  - by rewrite (proj2 (proj2 (terminal_others now ip user l k (proj1 Hl) Hne))).
Qed.

Lemma locked_run ops t l k st :
  weak_inv t l → zeroTime ≤ t → bounded l → clocked t ops = true →
  kv l !! k = Some st → inFlight st = 0 → last_time t ops < until st →
  kv (run range canonUser ops l) !! k = Some st.
Proof.
  revert t l. induction ops as [|[now o] ops IH]; intros t l Hl Hz Hb Hok Hk Hi Hlock; [done|]. simpl in Hok, Hlock |- *. zbool.
  pose proof (clocked_app now ops [] ltac:(by rewrite app_nil_r)) as (_ & _ & Hle).
  destruct (weak_apply_op t now o l) as (Hl' & Hb' & _); try done.
  apply (IH now); try done; [lia|]. by apply (locked_apply_op t); (done || lia).
Qed.

Lemma new_weak now mIP mKey e pe : weak_inv now (newAuthLimiterSized now mIP mKey e pe) ∧
  bounded (newAuthLimiterSized now mIP mKey e pe).
Proof.
  destruct (new_inv now mIP mKey e pe) as [[Hwf Hinv] Hb]. split; [split; [done|]|done].
  assert (Hempty : kv (newAuthLimiterSized now mIP mKey e pe) = ∅ ∧ iv (newAuthLimiterSized now mIP mKey e pe) = ∅).
  { unfold kv, iv, view. simpl. by rewrite omap_empty. }
  destruct Hempty as [Ek Ei]. rewrite Ek, Ei in *. destruct Hinv. by constructor.
Qed.
End every_history.

(** ** Lockouts *)

Lemma run_app range canonUser ops ops' l :
  run range canonUser (ops ++ ops') l = run range canonUser ops' (run range canonUser ops l).
Proof. revert l. induction ops as [|[? ?] ops IH]; intros l; simpl; auto. Qed.

Lemma last_time_app t ops ops' : last_time t (ops ++ ops') = last_time (last_time t ops) ops'.
Proof. revert t. induction ops as [|[? ?] ops IH]; intros t; simpl; auto. Qed.

(** The key's state after [failed]. *)
Lemma failed_key canonUser now ip username l st :
  wf l → kv l !! key_of ip (canonUser username) = Some st → inFlight st ≠ 0 →
  kv (failed canonUser now ip username l) !! key_of ip (canonUser username) =
  Some (fail1 now st).
Proof.
  intros Hwf Hst Hi. unfold failed. cbn [canonicalLimiterKey].
  fold (key_of ip (canonUser username)). set (key := key_of ip (canonUser username)) in *.
  assert (noReservation l key = false) as ->.
  { unfold noReservation. rewrite deref_kv, Hst. by apply Z.eqb_neq. }
  destruct (refines_compose _ _ _ _ (refines_convertFail_key key now)
    (refines_compose _ _ _ _ (refines_convertFail_ip ip now)
      (refines_releaseUser (canonUser username) now)) l Hwf) as [Ev _].
  apply (f_equal (λ v, v.1.2 !! key)) in Ev. simpl in Ev.
  rewrite lookup_upd, decide_True, Hst in Ev by done. exact Ev.
Qed.

(** The exact sums, where [reserve] always works with the address pointer of the map. *)
Lemma exact_run range canonUser now0 mIP mKey e pe ops :
  (∀ m k, k ∈ range m ↔ is_Some (m !! k)) → zeroTime ≤ now0 → e ≤ 0 ∨ lockoutMax ≤ e →
  history_ok range canonUser now0 ops (newAuthLimiterSized now0 mIP mKey e pe) = true →
  let l := run range canonUser ops (newAuthLimiterSized now0 mIP mKey e pe) in
  ∀ ip, zfail (iv l !! ip) = contribution ipFromKey failures (kv l) ip ∧
        zfly (iv l !! ip) = contribution ipFromKey inFlight (kv l) ip.
Proof.
  intros Hr Hz He Hok l. destruct (new_inv now0 mIP mKey e pe) as [Hn Hb].
  destruct (run_inv range canonUser Hr ops now0 _ Hn Hz Hb) as ([Hwf Hinv] & _ & _); [|done|].
  { simpl. unfold lockoutMax, entryExpiry, minute, second in *. destruct (e <=? 0) eqn:E; zbool; lia. }
  fold l in Hwf, Hinv. intros ip. destruct (iv l !! ip) as [ist|] eqn:E; simpl.
  - split; [by apply (inv_failures _ _ _ _ Hinv)|by apply (inv_inFlight _ _ _ _ Hinv)].
  - assert (Hnone : ∀ x, contribution ipFromKey x (kv l) ip = 0); [|by rewrite !Hnone].
    intros x. apply contribution_none. intros k st Hk <-.
    destruct (inv_has_ip _ _ _ _ Hinv _ _ Hk) as (ist & Hist & _). congruence.
Qed.

(** C28: In every history of reserve, failed, canceled and succeeded calls from a new
    limiter, with a clock that does not run backwards, each user's pending attempts are
    the sum over that user's identities and at most five; each address counts at most
    the failures and pending attempts of its identities; every state of an address and
    of an identity is within the budget of five failed or pending guesses, then one at
    a time; and the maps stay within their capacities.  The address counts are those sums
    exactly on condition that every reserve works with the address pointer of the map
    ([ip_current], a condition of [history_ok]) and entries live at least as long as a
    lockout.  The condition is not met when a reserve at identity capacity evicts the
    last identity of its own address: [stale_ip_pointer_loses_count]. *)
Theorem auth_aggregates range canonUser now0 mIP mKey e pe ops :
  (∀ m k, k ∈ range m ↔ is_Some (m !! k)) → zeroTime ≤ now0 → clocked now0 ops = true →
  let l := run range canonUser ops (newAuthLimiterSized now0 mIP mKey e pe) in
  (∀ u, zfly (uv l !! u) = contribution userFromKey inFlight (kv l) u ∧
        zfly (uv l !! u) ≤ freeAttempts) ∧
  (∀ ip, zfail (iv l !! ip) ≤ contribution ipFromKey failures (kv l) ip ∧
         zfly (iv l !! ip) ≤ contribution ipFromKey inFlight (kv l) ip) ∧
  (∀ k st, kv l !! k = Some st ∨ iv l !! k = Some st → budget_ok st) ∧
  bounded l ∧
  (history_ok range canonUser now0 ops (newAuthLimiterSized now0 mIP mKey e pe) = true →
   e ≤ 0 ∨ lockoutMax ≤ e →
   ∀ ip, zfail (iv l !! ip) = contribution ipFromKey failures (kv l) ip ∧
         zfly (iv l !! ip) = contribution ipFromKey inFlight (kv l) ip).
Proof.
  intros Hr Hz Hok l. destruct (new_weak now0 mIP mKey e pe) as [Hn Hb].
  destruct (weak_run range canonUser Hr ops now0 _ Hn Hz Hb Hok) as [[Hwf Hinv] Hbl].
  fold l in Hwf, Hinv, Hbl. split_and!; [| | |done|].
  - intros u. split; [apply (w_user _ _ _ _ Hinv)|].
    destruct (uv l !! u) as [us|] eqn:E; simpl; [|by unfold freeAttempts]. apply (w_user_ok _ _ _ _ Hinv _ _ E).
  - intros ip. split; [apply (w_failures _ _ _ _ Hinv)|apply (w_inFlight _ _ _ _ Hinv)].
  - intros k st [H|H]; [apply (w_key _ _ _ _ Hinv k st H)|apply (w_ip _ _ _ _ Hinv k st H)].
  - intros Hhist He. by apply exact_run.
Qed.

Definition map_keys (m : gmap string nat) : list string := (map_to_list m).*1.

Lemma map_keys_spec m k : k ∈ map_keys m ↔ is_Some (m !! k).
Proof.
  unfold map_keys. rewrite list_elem_of_fmap. split.
  - intros ([k' p] & -> & H%elem_of_map_to_list). eauto.
  - intros [p Hp]. exists (k, p). split; [done|]. by apply elem_of_map_to_list.
Qed.

Definition sample_history : list (Z * op) :=
  [(second, Reserve "192.0.2.1" "a"); (2 * second, Failed "192.0.2.1" "a");
   (3 * second, Reserve "192.0.2.1" "b"); (4 * second, Reserve "192.0.2.2" "b");
   (5 * second, Canceled "192.0.2.2" "b"); (6 * second, Succeeded "192.0.2.1" "b");
   (7 * second, Reserve "192.0.2.1" "a")].

Lemma auth_aggregates_witness :
  let l := run map_keys id sample_history (newAuthLimiterSized 0 10 10 0 0) in
  failures <$> (iv l !! "192.0.2.1") = Some 1 ∧
  zfail (iv l !! "192.0.2.1") = contribution ipFromKey failures (kv l) "192.0.2.1".
Proof.
  intros l.
  assert (Hok : history_ok map_keys id 0 sample_history (newAuthLimiterSized 0 10 10 0 0) = true)
    by (vm_compute; reflexivity).
  assert (Hz : zeroTime ≤ 0) by (by vm_compute).
  pose proof (auth_aggregates map_keys id 0 10 10 0 0 sample_history map_keys_spec Hz eq_refl)
    as (_ & _ & _ & _ & H).
  split; [vm_compute; reflexivity|exact (proj1 (H Hok (or_introl (Z.le_refl 0)) "192.0.2.1"))].
Defined.

(** C29: When a failure uses up the free attempts, the identity is locked out for the
    whole back-off (two seconds, doubled for each failure beyond the fifth, at most five
    minutes): whatever calls of reserve, failed, canceled and succeeded anyone makes
    meanwhile, with the periodic prunings and the evictions at capacity they cause,
    an attempt of that identity before the end of the back-off is refused. *)
Theorem lockout_enforced range canonUser now0 mIP mKey e pe before now after now' ip username st :
  (∀ m k, k ∈ range m ↔ is_Some (m !! k)) → zeroTime ≤ now0 →
  let new := newAuthLimiterSized now0 mIP mKey e pe in
  let history := before ++ (now, Failed ip username) :: after in
  clocked now0 (history ++ [(now', Reserve ip username)]) = true →
  kv (run range canonUser before new) !! key_of ip (canonUser username) = Some st →
  inFlight st ≠ 0 → freeAttempts ≤ failures st + 1 →
  now' < now + Z.min (Z.shiftl lockoutBase (Z.min (failures st + 1 - freeAttempts) 10)) lockoutMax →
  (reserve range canonUser now' ip username (run range canonUser history new)).2 = false.
Proof.
  intros Hr Hz new history Hok Hst Hi Hf Hnow. destruct (new_weak now0 mIP mKey e pe) as [Hn Hb]. fold new in Hn, Hb.
  apply clocked_app in Hok as (Hok & Hlast & _). simpl in Hlast. zbool.
  destruct (clocked_app _ _ _ Hok) as (Hok1 & Hok2 & Ht1).
  destruct (weak_run range canonUser Hr _ _ _ Hn Hz Hb Hok) as [Hl Hbl].
  destruct (weak_run range canonUser Hr _ _ _ Hn Hz Hb Hok1) as [Hl1 Hb1].
  set (l1 := run range canonUser before new) in *. simpl in Hok2. zbool.
  destruct (weak_apply_op range canonUser Hr _ now (Failed ip username) l1 Hl1) as (Hl2 & Hb2 & _); [lia|done..|].
  pose proof (failed_key canonUser now ip username l1 st (proj1 Hl1) Hst Hi) as Hkey.
  assert (Hlt : last_time now0 history = last_time now after) by (unfold history; rewrite last_time_app; done).
  destruct (clocked_app now after [] ltac:(by rewrite app_nil_r)) as (_ & _ & Hle).
  assert (Hlock : now' < until (fail1 now st)).
  { unfold fail1. destruct (failures st + 1 <? freeAttempts) eqn:E; zbool; simpl; lia. }
  assert (Hidle : inFlight (fail1 now st) = 0).
  { pose proof (w_key _ _ _ _ (proj2 Hl1) _ _ Hst) as [? ? _ _ _ _ Hbud]. by_states. }
  assert (Hfin : kv (run range canonUser history new) !! key_of ip (canonUser username) = Some (fail1 now st)).
  { unfold history. rewrite run_app. cbn [run]. apply (locked_run range canonUser Hr after now); try done; lia. }
  assert (Hln : weak_inv now' (run range canonUser history new)) by (apply (weak_inv_mono _ _ _ Hl); lia).
  assert (Hzn : zeroTime ≤ now') by lia.
  destruct (weak_reserve range Hr canonUser Hzn ip username ltac:(done) _ Hln Hbl) as (_ & _ & _ & _ & Hno). eauto.
Qed.

Definition guess (n : Z) : list (Z * op) :=
  [(n * second, Reserve "192.0.2.1" "a"); (n * second, Failed "192.0.2.1" "a")].

(** Five wrong guesses, the fifth at second 5.  With room for two identities a third one
    evicts the other idle one meanwhile, and the locked one is still refused at second 6. *)
Lemma lockout_enforced_witness :
  let before := [(0, Reserve "192.0.2.2" "b"); (0, Failed "192.0.2.2" "b")] ++
    guess 1 ++ guess 2 ++ guess 3 ++ guess 4 ++ [(5 * second, Reserve "192.0.2.1" "a")] in
  let after := [(5 * second, Reserve "192.0.2.3" "c"); (5 * second, Canceled "192.0.2.1" "a")] in
  let new := newAuthLimiterSized 0 10 2 0 0 in
  let l := run map_keys id (before ++ (5 * second, Failed "192.0.2.1" "a") :: after) new in
  byKey l !! key_of "192.0.2.2" "b" = None ∧
  (reserve map_keys id (6 * second) "192.0.2.1" "a" l).2 = false.
Proof.
  intros before after new l. split; [vm_compute; reflexivity|].
  refine (lockout_enforced map_keys id 0 10 2 0 0 before (5 * second) after (6 * second)
    "192.0.2.1" "a" (mkAttempt 4 zeroTime (5 * second) 1) map_keys_spec _ _ _ _ _ _); vm_compute; try done; reflexivity.
Defined.

(** At identity capacity [reserve] can evict the only other identity of the
    same address; that drops the address's entry while the function goes on
    with the pointer it read before.  The attempt is admitted, but its count is
    lost: the address has no entry and one pending attempt. *)
Theorem stale_ip_pointer_loses_count :
  let l := run map_keys id
             [(second, Reserve "192.0.2.1" "a"); (2 * second, Failed "192.0.2.1" "a")]
             (newAuthLimiterSized 0 10 1 0 0) in
  let '(l', ok) := reserve map_keys id (100 * second) "192.0.2.1" "b" l in
  ok = true ∧ iv l' !! "192.0.2.1" = None ∧
  contribution ipFromKey inFlight (kv l') "192.0.2.1" = 1 ∧
  ip_current map_keys id (now:=100 * second) "192.0.2.1" "b" l = false.
Proof. vm_compute. done. Qed.
