(* ===== verification/Rate.v ===== *)
(** * Submission rates (src/internal/smtpd/rate.go)

    One bucket of message tokens and one of recipient tokens per account, refilled
    with time up to the burst.  The code counts in float64; a float64 operation is the
    exact rational operation followed by rounding, [rnd], and the section's hypotheses
    are the standard model of IEEE 754 rounding: monotone, exact on integers up to
    2^53, and off by at most a relative 2^-53 and an absolute 2^-1074.

    [rate_bound] bounds what an account can submit over any history of calls.  It
    needs the bursts to be at most half the hourly rates, since accounts idle for
    half an hour are forgotten: [idle_account_refilled] is a history that exceeds the
    bound when they are not.  [oversized_never_taken] is about messages with more
    recipients than the burst. *)

From Stdlib Require Import QArith Qminmax Lqa.
From S2P Require Import Prelude Errors GoLib.
Open Scope Z_scope.

Definition maxRateEntries : Z := 10000.
Definition rateExpiry : Z := 30 * 60 * 1000000000.
Definition nsPerHour : Z := 3600000000000.

Record submissionAllowance := mkAllowance {
  tokMessages : Q;
  tokRecipients : Q;
  aUpdated : Z;
  aSeen : Z
}.

Record submissionLimiter := mkRates {
  rMaxMessages : Q;
  rMaxRecipients : Q;
  rMsgBurst : Q;
  rRcptBurst : Q;
  rEntries : gmap string submissionAllowance;
  rPruned : Z
}.

Definition set_rEntries v l :=
  mkRates (rMaxMessages l) (rMaxRecipients l) (rMsgBurst l) (rRcptBurst l) v (rPruned l).

(** [now.Sub(then)]: saturates. *)
Definition time_Sub (t s : Z) : Z := Z.max MinInt64 (Z.min MaxInt64 (t - s)).

(** [burstDefault]. *)
Definition burstDefault (hourly : Z) : Z :=
  if hourly <=? 0 then 1 else Z.min (Z.max (hourly ÷ 60) 1) hourly.

Section rate.
Variable rnd : Q → Q.

Definition newSubmissionLimiter (now maxMsg maxRcpt msgB rcptB : Z) : submissionLimiter :=
  let msgB := if msgB <=? 0 then 1 else msgB in
  let rcptB := if rcptB <=? 0 then 1 else rcptB in
  let msgB := if (maxMsg <? msgB) && (0 <? maxMsg) then maxMsg else msgB in
  let rcptB := if (maxRcpt <? rcptB) && (0 <? maxRcpt) then maxRcpt else rcptB in
  mkRates (rnd (inject_Z maxMsg)) (rnd (inject_Z maxRcpt)) (rnd (inject_Z msgB)) (rnd (inject_Z rcptB)) ∅ now.

(** [Duration.Hours]. *)
Definition Hours (d : Z) : Q :=
  rnd (rnd (inject_Z (d ÷ nsPerHour))
       + rnd (rnd (inject_Z (Z.rem d nsPerHour)) / inject_Z nsPerHour))%Q.

Definition refill (l : submissionLimiter) (a : submissionAllowance) (now : Z) : submissionAllowance :=
  let elapsed := time_Sub now (aUpdated a) in
  if elapsed <=? 0 then mkAllowance (tokMessages a) (tokRecipients a) now (aSeen a)
  else
    let hours := Hours elapsed in
    mkAllowance (Qmin (rnd (tokMessages a + rnd (hours * rMaxMessages l))) (rMsgBurst l))%Q
      (Qmin (rnd (tokRecipients a + rnd (hours * rMaxRecipients l))) (rRcptBurst l))%Q now (aSeen a).

Definition forcePruneRates (now : Z) (l : submissionLimiter) : submissionLimiter :=
  mkRates (rMaxMessages l) (rMaxRecipients l) (rMsgBurst l) (rRcptBurst l)
    (filter (λ kv, negb (rateExpiry <? time_Sub now (aSeen kv.2)) = true) (rEntries l)) now.

Definition pruneRates (now : Z) (l : submissionLimiter) : submissionLimiter :=
  if time_Sub now (rPruned l) <? rateExpiry then l else forcePruneRates now l.

(** [takeRate] on the account's allowance: refilled, then charged if it suffices. *)
Definition chargeTokens (l : submissionLimiter) (a : submissionAllowance) (now n : Z) : bool * submissionAllowance :=
  let a := refill l a now in
  let a := mkAllowance (tokMessages a) (tokRecipients a) (aUpdated a) now in
  if negb (Qle_bool 1 (tokMessages a)) || negb (Qle_bool (rnd (inject_Z n)) (tokRecipients a)) then (false, a)
  else (true, mkAllowance (rnd (tokMessages a - 1)) (rnd (tokRecipients a - rnd (inject_Z n)))%Q (aUpdated a) (aSeen a)).

Definition takeRate (now : Z) (username : string) (n : Z) (l : submissionLimiter) : bool * submissionLimiter :=
  let l := pruneRates now l in
  match rEntries l !! username with
  | Some a =>
      let '(ok, a) := chargeTokens l a now n in
      (ok, set_rEntries (<[username := a]> (rEntries l)) l)
  | None =>
      let l := if maxRateEntries <=? Z.of_nat (size (rEntries l)) then forcePruneRates now l else l in
      if maxRateEntries <=? Z.of_nat (size (rEntries l)) then (false, l)
      else
        let '(ok, a) := chargeTokens l (mkAllowance (rMsgBurst l) (rRcptBurst l) now now) now n in
        (ok, set_rEntries (<[username := a]> (rEntries l)) l)
  end.

(** A history of calls: the time, the account and the number of recipients. *)
Fixpoint takeRates (calls : list (Z * string * Z)) (l : submissionLimiter) : list bool * submissionLimiter :=
  match calls with
  | [] => ([], l)
  | (now, username, n) :: calls =>
      let (ok, l) := takeRate now username n l in
      let (oks, l) := takeRates calls l in
      (ok :: oks, l)
  end.
End rate.

(** ** Rounding *)

Definition unit_u : Q := 1 # 9007199254740992.
Definition unit_eta : Q := 1 # (2 ^ 1074).

(** The standard model of float64 arithmetic without overflow. *)
Class Rounding (rnd : Q → Q) := {
  rnd_mono : ∀ x y, (x <= y)%Q → (rnd x <= rnd y)%Q;
  rnd_int : ∀ z, Z.abs z ≤ 2 ^ 53 → (rnd (inject_Z z) == inject_Z z)%Q;
  rnd_up : ∀ x, (0 <= x)%Q → (rnd x <= x + unit_u * x + unit_eta)%Q
}.

(** Exact arithmetic is an instance. *)
#[export] Instance exactRounding : Rounding (λ x, x).
Proof.
  split; [done|done|]. intros x Hx. unfold unit_u, unit_eta.
  assert (0 <= (1 # 9007199254740992) * x)%Q by (apply Qmult_le_0_compat; [discriminate|done]).
  assert (0 <= (1 # 2 ^ 1074))%Q by discriminate. lra.
Qed.

Section numbers.
Context (rnd : Q → Q) `{!Rounding rnd}.

#[export] Instance rnd_proper : Proper (Qeq ==> Qeq) rnd.
Proof. intros x y E. apply Qle_antisym; apply rnd_mono; rewrite E; apply Qle_refl. Qed.

Lemma rnd_nonneg x : (0 <= x)%Q → (0 <= rnd x)%Q.
Proof.
  intros Hx. apply rnd_mono in Hx. change 0%Q with (inject_Z 0) in Hx at 1.
  rewrite (rnd_int 0) in Hx by done. exact Hx.
Qed.

Lemma eta_small : (0 <= unit_eta)%Q ∧ (unit_eta <= 1 # 1267650600228229401496703205376)%Q.
Proof. split; discriminate. Qed.

(** The hours of a span, exactly. *)
Definition exactHours (d : Z) : Q := (inject_Z d / inject_Z nsPerHour)%Q.

Lemma exactHours_split d : 0 ≤ d →
  (exactHours d == inject_Z (d ÷ nsPerHour) + inject_Z (Z.rem d nsPerHour) / inject_Z nsPerHour)%Q.
Proof.
  intros Hd. unfold exactHours. rewrite (Z.quot_rem' d nsPerHour) at 1.
  rewrite inject_Z_plus, inject_Z_mult. field. discriminate.
Qed.

Lemma Hours_up d : 0 ≤ d ≤ MaxInt64 →
  (0 <= Hours rnd d)%Q ∧ (Hours rnd d <= exactHours d + (3 # 9007199254740992) * exactHours d + 3 * unit_eta)%Q.
Proof.
  intros Hd. rewrite exactHours_split by lia. unfold Hours.
  assert (Hq : 0 ≤ d ÷ nsPerHour ≤ 3000000).
  { rewrite Z.quot_div_nonneg by (unfold nsPerHour; lia). unfold nsPerHour, MaxInt64 in *.
    split; [apply Z.div_pos; lia|]. apply Z.div_le_upper_bound; lia. }
  assert (Hr : 0 ≤ Z.rem d nsPerHour < nsPerHour) by (apply Z.rem_bound_pos; unfold nsPerHour; lia).
  rewrite (rnd_int (d ÷ nsPerHour)) by lia. 
  set (q := inject_Z (d ÷ nsPerHour)) in *. set (r := (inject_Z (Z.rem d nsPerHour) / inject_Z nsPerHour)%Q).
  assert (Hq0 : (0 <= q)%Q) by (unfold q; change 0%Q with (inject_Z 0); rewrite <-Zle_Qle; lia).
  assert (Hr0 : (0 <= r)%Q).
  { unfold r. apply Qle_shift_div_l; [reflexivity|]. rewrite Qmult_0_l. change 0%Q with (inject_Z 0).
    rewrite <-Zle_Qle. lia. }
  assert (Hx : (rnd (inject_Z (Z.rem d nsPerHour)) / inject_Z nsPerHour == r)%Q).
  { unfold r. apply Qdiv_comp; [apply rnd_int; assert (nsPerHour = 3600000000000) by done; lia|reflexivity]. }
  rewrite Hx. pose proof (rnd_up r Hr0) as Hu. pose proof (rnd_nonneg r Hr0) as Hn.
  assert (Hs0 : (0 <= q + rnd r)%Q) by lra. split; [by apply rnd_nonneg|].
  pose proof (rnd_up _ Hs0) as Hv. destruct eta_small as [He _]. unfold unit_u in *. lra.
Qed.

(** What a refill yields is at most the exact amount plus a small error. *)
Lemma refill_up tok d rate burst :
  0 ≤ d ≤ MaxInt64 → (0 <= tok)%Q → (0 <= rate)%Q → (rate <= 10000000)%Q →
  (tok + rate * exactHours d <= burst)%Q →
  (rnd (tok + rnd (Hours rnd d * rate)) <= tok + rate * exactHours d + (8 # 9007199254740992) * (burst + 1))%Q.
Proof.
  intros Hd Ht Hr Hr' Hb. destruct (Hours_up d Hd) as [Hh Hu]. destruct eta_small as [He He'].
  assert (Hx : (0 <= exactHours d)%Q).
  { unfold exactHours. apply Qle_shift_div_l; [reflexivity|]. rewrite Qmult_0_l. change 0%Q with (inject_Z 0).
    rewrite <-Zle_Qle. lia. }
  assert (HX : (0 <= rate * exactHours d)%Q) by (by apply Qmult_le_0_compat).
  assert (Hp : (Hours rnd d * rate <= rate * exactHours d + (3 # 9007199254740992) * (rate * exactHours d) + 3 * (unit_eta * rate))%Q).
  { apply Qle_trans with ((exactHours d + (3 # 9007199254740992) * exactHours d + 3 * unit_eta) * rate)%Q;
      [by apply Qmult_le_compat_r|]. apply Qle_lteq. right. ring. }
  assert (Her : (0 <= unit_eta * rate)%Q) by (by apply Qmult_le_0_compat).
  assert (Her' : (unit_eta * rate <= (1 # 1267650600228229401496703205376) * 10000000)%Q).
  { apply Qle_trans with ((1 # 1267650600228229401496703205376) * rate)%Q; [by apply Qmult_le_compat_r|].
    apply Qmult_le_l; [reflexivity|done]. }
  assert (Hp0 : (0 <= Hours rnd d * rate)%Q) by (by apply Qmult_le_0_compat).
  pose proof (rnd_up _ Hp0) as Hv. pose proof (rnd_nonneg _ Hp0) as Hv0.
  assert (Hs0 : (0 <= tok + rnd (Hours rnd d * rate))%Q) by lra.
  pose proof (rnd_up _ Hs0) as Hw. unfold unit_u in *. set (X := (rate * exactHours d)%Q) in *. lra.
Qed.
End numbers.

(** ** One of the two buckets *)

Record lane := mkLane {
  tok : submissionAllowance → Q;
  rate : submissionLimiter → Q;
  burst : submissionLimiter → Q;
  cost : Z → Q
}.

Definition msgLane : lane := mkLane tokMessages rMaxMessages rMsgBurst (λ _, 1%Q).
Definition rcptLane : lane := mkLane tokRecipients rMaxRecipients rRcptBurst inject_Z.

Definition is_lane (ln : lane) : Prop := ln = msgLane ∨ ln = rcptLane.

(** The error of one call, in tokens. *)
Definition slack (b : Q) : Q := ((16 # 9007199254740992) * (b + 1))%Q.

(** Tokens an allowance is worth at [t], exactly. *)
Definition worth (ln : lane) (l : submissionLimiter) (a : submissionAllowance) (t : Z) : Q :=
  Qmin (burst ln l) (tok ln a + rate ln l * exactHours (Z.max 0 (t - aUpdated a)))%Q.

(** Bursts are whole numbers, the rates within the configured range. *)
Record settings_ok (ln : lane) (l : submissionLimiter) : Prop := {
  st_rate : (0 <= rate ln l)%Q ∧ (rate ln l <= 10000000)%Q;
  st_burst : ∃ b, 0 ≤ b ≤ 10000000 ∧ (burst ln l == inject_Z b)%Q
}.

Definition entry_ok (ln : lane) (l : submissionLimiter) (a : submissionAllowance) : Prop :=
  ((0 <= tok ln a) ∧ (tok ln a <= burst ln l))%Q ∧ aUpdated a = aSeen a.

Lemma exactHours_mono a b : a ≤ b → (exactHours a <= exactHours b)%Q.
Proof.
  intros Hab. unfold exactHours, Qdiv. apply Qmult_le_compat_r; [by rewrite <-Zle_Qle|discriminate].
Qed.

Lemma exactHours_nonneg d : 0 ≤ d → (0 <= exactHours d)%Q.
Proof. intros Hd. apply exactHours_mono in Hd. eapply Qle_trans; [|exact Hd]. discriminate. Qed.

Lemma exactHours_add a b : (exactHours (a + b) == exactHours a + exactHours b)%Q.
Proof. unfold exactHours. rewrite inject_Z_plus. field. discriminate. Qed.

Lemma burst_nonneg ln l : settings_ok ln l → (0 <= burst ln l)%Q.
Proof.
  intros [_ (b & Hb & E)]. rewrite E. change 0%Q with (inject_Z 0). rewrite <-Zle_Qle. lia.
Qed.

Lemma worth_later ln l a t t' : settings_ok ln l →
  (worth ln l a t' <= worth ln l a t + rate ln l * exactHours (Z.max 0 (t' - t)))%Q.
Proof.
  intros Hs. pose proof (burst_nonneg _ _ Hs) as Hb. destruct Hs as [[Hr _] _].
  unfold worth. set (u := aUpdated a).
  assert (Hg : (exactHours (Z.max 0 (t' - u)) <= exactHours (Z.max 0 (t - u)) + exactHours (Z.max 0 (t' - t)))%Q).
  { rewrite <-exactHours_add. apply exactHours_mono. lia. }
  assert (Hg' : (rate ln l * exactHours (Z.max 0 (t' - u)) <= rate ln l * exactHours (Z.max 0 (t - u))
             + rate ln l * exactHours (Z.max 0 (t' - t)))%Q).
  { rewrite <-Qmult_plus_distr_r. rewrite !(Qmult_comm (rate ln l)). by apply Qmult_le_compat_r. }
  assert (H0 : (0 <= rate ln l * exactHours (Z.max 0 (t' - t)))%Q)
    by (apply Qmult_le_0_compat; [done|apply exactHours_nonneg; lia]).
  destruct (Q.min_spec (burst ln l) (tok ln a + rate ln l * exactHours (Z.max 0 (t - u)))) as [[_ ->]|[_ ->]].
  - apply Qle_trans with (burst ln l); [apply Q.le_min_l|lra].
  - eapply Qle_trans; [apply Q.le_min_r|]. lra.
Qed.

Section charging.
Context (rnd : Q → Q) `{!Rounding rnd}.

(** The bucket after a refill. *)
Definition refilled (ln : lane) (l : submissionLimiter) (a : submissionAllowance) (now : Z) : Q :=
  let elapsed := time_Sub now (aUpdated a) in
  if elapsed <=? 0 then tok ln a
  else Qmin (rnd (tok ln a + rnd (Hours rnd elapsed * rate ln l))) (burst ln l).

Lemma refill_tok ln l a now : is_lane ln → tok ln (refill rnd l a now) = refilled ln l a now.
Proof. unfold refill, refilled. intros [-> | ->]; by destruct (_ <=? 0). Qed.

Lemma refilled_ok ln l a now : settings_ok ln l → entry_ok ln l a →
  (0 <= refilled ln l a now)%Q ∧ (refilled ln l a now <= burst ln l)%Q ∧
  (refilled ln l a now <= worth ln l a now + (8 # 9007199254740992) * (burst ln l + 1))%Q.
Proof.
  intros Hs [[Ht0 Htb] _]. pose proof (burst_nonneg _ _ Hs) as Hb. destruct Hs as [[Hr Hr'] _]. unfold refilled.
  assert (Hw : (tok ln a <= worth ln l a now)%Q).
  { unfold worth. apply Q.min_glb; [done|]. assert (0 <= rate ln l * exactHours (Z.max 0 (now - aUpdated a)))%Q;
      [|lra]. apply Qmult_le_0_compat; [done|apply exactHours_nonneg; lia]. }
  destruct (Z.leb_spec (time_Sub now (aUpdated a)) 0) as [He|He]; [split_and!; [done|done|lra]|].
  assert (Hd : 0 ≤ time_Sub now (aUpdated a) ≤ MaxInt64) by (unfold time_Sub, MinInt64, MaxInt64 in *; lia).
  assert (Hle : time_Sub now (aUpdated a) ≤ Z.max 0 (now - aUpdated a))
    by (unfold time_Sub, MinInt64, MaxInt64 in *; lia).
  set (d := time_Sub now (aUpdated a)) in *. destruct (Hours_up rnd d Hd) as [Hh _].
  assert (Hn : (0 <= tok ln a + rnd (Hours rnd d * rate ln l))%Q).
  { pose proof (rnd_nonneg rnd (Hours rnd d * rate ln l)%Q) as Hx.
    assert (0 <= Hours rnd d * rate ln l)%Q as Hy by (by apply Qmult_le_0_compat). specialize (Hx Hy). lra. }
  split_and!.
  - apply Q.min_glb; [by apply rnd_nonneg|done].
  - apply Q.le_min_r.
  - assert (Hx : (rate ln l * exactHours d <= rate ln l * exactHours (Z.max 0 (now - aUpdated a)))%Q).
    { rewrite !(Qmult_comm (rate ln l)). apply Qmult_le_compat_r; [by apply exactHours_mono|done]. }
    unfold worth. destruct (Q.min_spec (burst ln l) (tok ln a + rate ln l * exactHours (Z.max 0 (now - aUpdated a))))
      as [[_ ->]|[Hlt ->]].
    + apply Qle_trans with (burst ln l); [apply Q.le_min_r|lra].
    + eapply Qle_trans; [apply Q.le_min_l|].
      eapply Qle_trans; [apply (refill_up rnd _ d (rate ln l) (burst ln l)); [done..|lra]|]. lra.
Qed.

Lemma charge_ok ln l a now n ok a' : is_lane ln → settings_ok ln l → entry_ok ln l a → 0 ≤ n ≤ 10000000 →
  chargeTokens rnd l a now n = (ok, a') →
  entry_ok ln l a' ∧ aUpdated a' = now ∧
  (tok ln a' + (if ok then cost ln n else 0) <= worth ln l a now + slack (burst ln l))%Q.
Proof.
  intros Hln Hs He Hn. destruct (refilled_ok ln l a now Hs He) as (H0 & Hb & Hw).
  pose proof (refill_tok ln l a now Hln) as Hf. pose proof (burst_nonneg _ _ Hs) as Hb0.
  assert (Hu : aUpdated (refill rnd l a now) = now) by (unfold refill; by destruct (_ <=? 0)).
  unfold chargeTokens. set (r := refill rnd l a now) in *. cbn [tokMessages tokRecipients aUpdated aSeen].
  destruct (_ || _) eqn:E.
  - intros [= <- <-]. split_and!; [|done|].
    + split; [|done]. rewrite <-Hf in H0, Hb. by destruct Hln as [-> | ->].
    + rewrite <-Hf in Hw. unfold slack. destruct Hln as [-> | ->]; cbn [tok tokMessages tokRecipients msgLane rcptLane burst] in *; lra.
  - intros [= <- <-]. apply orb_false_iff in E as [E1 E2]. apply negb_false_iff, Qle_bool_iff in E1, E2.
    assert (Hr : (rnd (inject_Z n) == inject_Z n)%Q) by (apply rnd_int; lia).
    assert (Hc : (0 <= refilled ln l a now - cost ln n)%Q ∧ (0 <= cost ln n)%Q).
    { rewrite <-Hf. rewrite Hr in E2.
      assert (0 <= inject_Z n)%Q by (change 0%Q with (inject_Z 0); rewrite <-Zle_Qle; lia).
      destruct Hln as [-> | ->]; cbn [tok cost msgLane rcptLane]; split; lra. }
    destruct Hc as [Hc Hc'].
    assert (Ht : ∃ x, (x == rnd (refilled ln l a now - cost ln n))%Q ∧
      tok ln (mkAllowance (rnd (tokMessages r - 1)) (rnd (tokRecipients r - rnd (inject_Z n)))%Q (aUpdated r) now) = x).
    { eexists. split; [|reflexivity]. rewrite <-Hf. destruct Hln as [-> | ->]; cbn [tok cost msgLane rcptLane tokMessages tokRecipients].
      - reflexivity.
      - apply rnd_proper; [done|]. by rewrite Hr. }
    destruct Ht as (x & Hx & Ht). pose proof (rnd_up _ Hc) as Hup. pose proof (rnd_nonneg rnd _ Hc) as Hnn.
    destruct eta_small as [He1 He2]. split_and!; [|done|].
    + split; [|cbn; by rewrite Hu]. rewrite Ht, Hx. split; [done|]. destruct Hs as [_ (b & Hbr & Eb)].
      rewrite Eb. rewrite <-(rnd_int (rnd:=rnd) b) by lia. apply rnd_mono. rewrite <-Eb. lra.
    + rewrite Ht, Hx. unfold slack, unit_u in *. lra.
Qed.
End charging.

(** ** Histories *)

(** Forgetting an idle account gives nothing away if half an hour refills the burst. *)
Definition forgiving (ln : lane) (l : submissionLimiter) : Prop := (2 * burst ln l <= rate ln l)%Q.

Record rates_ok (l : submissionLimiter) : Prop := {
  rt_size : Z.of_nat (size (rEntries l)) ≤ maxRateEntries;
  rt_settings : ∀ ln, is_lane ln → settings_ok ln l;
  rt_entries : ∀ ln u a, is_lane ln → rEntries l !! u = Some a → entry_ok ln l a
}.

(** Tokens an account is worth at [t]. *)
Definition account_worth (ln : lane) (l : submissionLimiter) (u : string) (t : Z) : Q :=
  match rEntries l !! u with Some a => worth ln l a t | None => burst ln l end.

(** The limiters of one history differ in entries and pruning time only. *)
Definition same_settings (l l' : submissionLimiter) : Prop :=
  rMaxMessages l' = rMaxMessages l ∧ rMaxRecipients l' = rMaxRecipients l ∧
  rMsgBurst l' = rMsgBurst l ∧ rRcptBurst l' = rRcptBurst l.

Lemma same_lane l l' ln : is_lane ln → same_settings l l' → rate ln l' = rate ln l ∧ burst ln l' = burst ln l.
Proof. intros Hln (H1 & H2 & H3 & H4). by destruct Hln as [-> | ->]. Qed.

Lemma same_settings_ok l l' ln : is_lane ln → same_settings l l' → settings_ok ln l → settings_ok ln l'.
Proof. intros Hln Hs [H1 H2]. destruct (same_lane _ _ _ Hln Hs) as [E1 E2]. split; by rewrite ?E1, ?E2. Qed.

Lemma worth_same l l' ln a t : is_lane ln → same_settings l l' → worth ln l' a t = worth ln l a t.
Proof. intros Hln Hs. destruct (same_lane _ _ _ Hln Hs) as [E1 E2]. unfold worth. by rewrite E1, E2. Qed.

Lemma worth_burst ln l a t : (worth ln l a t <= burst ln l)%Q.
Proof. apply Q.le_min_l. Qed.

(** Entries disappear only when they are worth the burst. *)
Definition forgets (now : Z) (l l' : submissionLimiter) : Prop :=
  same_settings l l' ∧ rEntries l' ⊆ rEntries l ∧
  ∀ u a, rEntries l !! u = Some a → rEntries l' !! u = None → rateExpiry < now - aSeen a.

Lemma forcePrune_forgets now l : forgets now l (forcePruneRates now l).
Proof.
  split_and!; [by split_and!|apply map_filter_subseteq|]. intros u a Ha Hn. cbn [rEntries forcePruneRates] in Hn.
  rewrite map_lookup_filter_None in Hn. destruct Hn as [Hn|Hn]; [congruence|]. specialize (Hn a Ha). cbn in Hn.
  destruct (Z.ltb_spec rateExpiry (time_Sub now (aSeen a))) as [Hlt|Hge]; [|done].
  unfold time_Sub, rateExpiry, MinInt64, MaxInt64 in *. lia.
Qed.

Lemma forgets_refl now l : forgets now l l.
Proof. split_and!; [by split_and!|done|]. intros u a Ha Hn. congruence. Qed.

Lemma forgets_trans now l1 l2 l3 : forgets now l1 l2 → forgets now l2 l3 → forgets now l1 l3.
Proof.
  intros ((A1 & A2 & A3 & A4) & Hs1 & Hf1) ((B1 & B2 & B3 & B4) & Hs2 & Hf2). split_and!.
  - split_and!; congruence.
  - by etransitivity.
  - intros u a Ha Hn. destruct (rEntries l2 !! u) as [b|] eqn:Eb; [|by apply (Hf1 u)].
    assert (b = a) as -> by (eapply lookup_weaken in Eb; [|exact Hs1]; congruence). by apply (Hf2 u).
Qed.

Lemma prune_forgets now l : forgets now l (pruneRates now l).
Proof. unfold pruneRates. destruct (_ <? _); [apply forgets_refl|apply forcePrune_forgets]. Qed.

Lemma forgets_ok now l l' : forgets now l l' → rates_ok l → rates_ok l'.
Proof.
  intros (Hs & Hsub & _) [Hsz Hset Hent]. split.
  - apply map_subseteq_size in Hsub. lia.
  - intros ln Hln. by eapply same_settings_ok; [..|apply Hset].
  - intros ln u a Hln Ha. eapply lookup_weaken in Ha; [|exact Hsub]. destruct (Hent ln u a Hln Ha) as [[? ?] ?].
    split; [|done]. by rewrite (proj2 (same_lane _ _ _ Hln Hs)).
Qed.

Lemma forgets_worth now l l' ln u : is_lane ln → rates_ok l → forgiving ln l → forgets now l l' →
  (account_worth ln l' u now <= account_worth ln l u now)%Q.
Proof.
  intros Hln Hok Hg (Hs & Hsub & Hf). unfold account_worth.
  destruct (rEntries l !! u) as [a|] eqn:Ea.
  - destruct (rEntries l' !! u) as [b|] eqn:Eb.
    + eapply lookup_weaken in Eb as Eb'; [|exact Hsub]. assert (b = a) as -> by congruence.
      rewrite (worth_same _ _ _ _ _ Hln Hs). apply Qle_refl.
    + rewrite (proj2 (same_lane _ _ _ Hln Hs)). specialize (Hf u a Ea Eb).
      destruct (rt_entries _ Hok ln u a Hln Ea) as [[Ht _] Hu]. unfold worth. rewrite Hu.
      apply Q.min_glb; [apply Qle_refl|].
      destruct (rt_settings _ Hok ln Hln) as [[Hr _] _].
      assert (Hh : ((1 # 2) <= exactHours (Z.max 0 (now - aSeen a)))%Q).
      { apply Qle_trans with (exactHours rateExpiry); [discriminate|apply exactHours_mono; lia]. }
      assert (Hx : ((1 # 2) * rate ln l <= exactHours (Z.max 0 (now - aSeen a)) * rate ln l)%Q)
        by (by apply Qmult_le_compat_r).
      unfold forgiving in Hg. lra.
  - assert (rEntries l' !! u = None) as ->.
    { destruct (rEntries l' !! u) eqn:E; [|done]. eapply lookup_weaken in E; [|exact Hsub]. congruence. }
    rewrite (proj2 (same_lane _ _ _ Hln Hs)). apply Qle_refl.
Qed.

Section histories.
Context (rnd : Q → Q) `{!Rounding rnd}.

(** One call, for every account: what it costs the caller comes out of the account. *)
Lemma take_ok ln l now v n ok l' : is_lane ln → rates_ok l → 0 ≤ n ≤ 10000000 →
  takeRate rnd now v n l = (ok, l') →
  rates_ok l' ∧ same_settings l l' ∧
  (forgiving ln l → ∀ u, (account_worth ln l' u now + (if bool_decide (v = u) && ok then cost ln n else 0)
        <= account_worth ln l u now + (if bool_decide (v = u) then slack (burst ln l) else 0))%Q).
Proof.
  intros Hln Hok Hn. unfold takeRate.
  assert (Hstep : ∀ l1 a, forgets now l l1 → (∀ ln, is_lane ln → entry_ok ln l1 a) →
    (worth ln l1 a now <= account_worth ln l1 v now)%Q →
    (rEntries l1 !! v ≠ None ∨ Z.of_nat (size (rEntries l1)) < maxRateEntries) →
    (let '(ok, a) := chargeTokens rnd l1 a now n in (ok, set_rEntries (<[v := a]> (rEntries l1)) l1)) = (ok, l') →
    rates_ok l' ∧ same_settings l l' ∧
    (forgiving ln l → ∀ u, (account_worth ln l' u now + (if bool_decide (v = u) && ok then cost ln n else 0)
        <= account_worth ln l u now + (if bool_decide (v = u) then slack (burst ln l) else 0))%Q)).
  { intros l1 a Hf He Hw Hroom. destruct (chargeTokens rnd l1 a now n) as [ok1 a1] eqn:Ec. intros [= -> <-].
    pose proof (forgets_ok _ _ _ Hf Hok) as Hok1. pose proof Hf as [Hs1 _].
    assert (Hch : ∀ ln, is_lane ln → entry_ok ln l1 a1 ∧ aUpdated a1 = now ∧
      (tok ln a1 + (if ok then cost ln n else 0) <= worth ln l1 a now + slack (burst ln l1))%Q).
    { intros ln' Hln'. by apply (charge_ok rnd ln' l1 a now n ok a1 Hln' (rt_settings _ Hok1 _ Hln') (He _ Hln')). }
    split_and!; [|by split_and!; apply Hs1|].
    - split.
      + cbn [rEntries set_rEntries]. destruct (rEntries l1 !! v) as [b|] eqn:Eb.
        * rewrite map_size_insert_Some by eauto. apply Hok1.
        * rewrite map_size_insert_None by done. destruct Hroom as [?|?]; [done|lia].
      + intros ln' Hln'. destruct (rt_settings _ Hok1 ln' Hln') as [A B]. destruct Hln' as [-> | ->]; by split.
      + intros ln' u' b Hln'. cbn [rEntries set_rEntries]. intros [[<- <-]|[Hne Hb]]%lookup_insert_Some.
        * destruct (Hch ln' Hln') as [Hx _]. destruct Hln' as [-> | ->]; exact Hx.
        * pose proof (rt_entries _ Hok1 ln' u' b Hln' Hb) as Hx. destruct Hln' as [-> | ->]; exact Hx.
    - intros Hg u. pose proof (forgets_worth now l l1 ln u Hln Hok Hg Hf) as Hfw.
      assert (Hsame : same_settings l1 (set_rEntries (<[v := a1]> (rEntries l1)) l1)) by (by split_and!).
      unfold account_worth at 1. cbn [rEntries set_rEntries]. destruct (decide (v = u)) as [<-|Hne].
      + rewrite lookup_insert_eq, bool_decide_eq_true_2 by done. cbn [andb].
        rewrite (worth_same _ _ _ _ _ Hln Hsame). destruct (Hch ln Hln) as ([[_ Hb] _] & Hu & Hc).
        assert (Hwa : (worth ln l1 a1 now <= tok ln a1)%Q).
        { unfold worth. rewrite Hu, Z.sub_diag. eapply Qle_trans; [apply Q.le_min_r|].
          change (exactHours (Z.max 0 0)) with (exactHours 0). unfold exactHours. change (inject_Z 0) with 0%Q.
          apply Qle_lteq. right. field. discriminate. }
        rewrite (proj2 (same_lane _ _ _ Hln Hs1)) in Hc. lra.
      + rewrite lookup_insert_ne, bool_decide_eq_false_2 by done. cbn [andb].
        unfold account_worth at 1 in Hfw. destruct (rEntries l1 !! u) as [b|].
        * rewrite (worth_same _ _ _ _ _ Hln Hsame). lra.
        * destruct (same_lane _ _ _ Hln Hsame) as [_ ->]. lra. }
  pose proof (prune_forgets now l) as Hp. set (l1 := pruneRates now l) in *.
  destruct (rEntries l1 !! v) as [a|] eqn:Ea.
  { intros Ht. apply (Hstep l1 a); [done| | |left; congruence|exact Ht].
    - intros ln' Hln'. by apply (rt_entries _ (forgets_ok _ _ _ Hp Hok) ln' v).
    - unfold account_worth. rewrite Ea. apply Qle_refl. }
  set (l2 := if maxRateEntries <=? Z.of_nat (size (rEntries l1)) then forcePruneRates now l1 else l1).
  assert (Hp2 : forgets now l l2).
  { eapply forgets_trans; [exact Hp|]. unfold l2. destruct (_ <=? _); [apply forcePrune_forgets|apply forgets_refl]. }
  assert (Ea2 : rEntries l2 !! v = None).
  { unfold l2. destruct (_ <=? _); [|done]. cbn [rEntries forcePruneRates]. rewrite map_lookup_filter_None. by left. }
  pose proof (forgets_ok _ _ _ Hp2 Hok) as Hok2.
  destruct (Z.leb_spec maxRateEntries (Z.of_nat (size (rEntries l2)))) as [Hfull|Hroom].
  - intros [= <- <-]. split_and!; [done|apply Hp2|]. intros Hg u. rewrite andb_false_r.
    pose proof (forgets_worth now l l2 ln u Hln Hok Hg Hp2).
    assert (0 <= (if bool_decide (v = u) then slack (burst ln l) else 0))%Q.
    { pose proof (burst_nonneg _ _ (rt_settings _ Hok ln Hln)). unfold slack. case_bool_decide; lra. }
    lra.
  - intros Ht. eapply Hstep; [exact Hp2| | |by right|exact Ht].
    + intros ln' Hln'. pose proof (burst_nonneg _ _ (rt_settings _ Hok2 ln' Hln')).
      split; [|done]. destruct Hln' as [-> | ->]; cbn in *; split; (done || apply Qle_refl).
    + unfold account_worth. rewrite Ea2. apply worth_burst.
Qed.

(** What account [u] was charged in a bucket, and its number of calls. *)
Fixpoint charged (ln : lane) (u : string) (calls : list (Z * string * Z)) (oks : list bool) : Q :=
  match calls, oks with
  | (_, v, n) :: calls, ok :: oks => ((if bool_decide (v = u) && ok then cost ln n else 0) + charged ln u calls oks)%Q
  | _, _ => 0%Q
  end.

Definition calls_of (u : string) (calls : list (Z * string * Z)) : Z :=
  Z.of_nat (length (filter (λ c, c.1.2 = u) calls)).

(** The time that passes from [t] on: clock readings may come out of order, only
    steps forward count. *)
Fixpoint forward (t : Z) (calls : list (Z * string * Z)) : Z :=
  match calls with
  | [] => 0
  | (now, _, _) :: calls => Z.max 0 (now - t) + forward now calls
  end.

Definition calls_ok (calls : list (Z * string * Z)) : Prop := Forall (λ c, 0 ≤ c.2 ≤ 10000000) calls.

Lemma account_later ln l u t t' : settings_ok ln l →
  (account_worth ln l u t' <= account_worth ln l u t + rate ln l * exactHours (Z.max 0 (t' - t)))%Q.
Proof.
  intros Hs. unfold account_worth. destruct (rEntries l !! u); [by apply worth_later|].
  destruct Hs as [[Hr _] _]. assert (0 <= rate ln l * exactHours (Z.max 0 (t' - t)))%Q; [|lra].
  apply Qmult_le_0_compat; [done|apply exactHours_nonneg; lia].
Qed.

Lemma takes_ok ln u calls : is_lane ln → calls_ok calls →
  ∀ t l oks l', rates_ok l → forgiving ln l → takeRates rnd calls l = (oks, l') →
  rates_ok l' ∧ same_settings l l' ∧
  (charged ln u calls oks <= account_worth ln l u t + rate ln l * exactHours (forward t calls)
     + inject_Z (calls_of u calls) * slack (burst ln l))%Q.
Proof.
  intros Hln Hcs. induction Hcs as [|[[now v] n] calls Hn _ IH]; intros t l oks l' Hok Hg; cbn [takeRates].
  { intros [= <- <-]. split_and!; [done|by split_and!|]. cbn [charged forward].
    assert (0 <= account_worth ln l u t)%Q.
    { unfold account_worth. pose proof (burst_nonneg _ _ (rt_settings _ Hok ln Hln)) as Hb.
      destruct (rEntries l !! u) as [a|] eqn:Ea; [|done]. destruct (rt_entries _ Hok ln u a Hln Ea) as [[Ht _] _].
      apply Q.min_glb; [done|]. destruct (rt_settings _ Hok ln Hln) as [[Hr _] _].
      assert (0 <= rate ln l * exactHours (Z.max 0 (t - aUpdated a)))%Q; [|lra].
      apply Qmult_le_0_compat; [done|apply exactHours_nonneg; lia]. }
    change (inject_Z (calls_of u [])) with 0%Q.
    assert (Hz : (rate ln l * exactHours 0 == 0)%Q)
      by (unfold exactHours; change (inject_Z 0) with 0%Q; field; discriminate).
    rewrite Hz. lra. }
  destruct (takeRate rnd now v n l) as [ok l1] eqn:Et. destruct (takeRates rnd calls l1) as [oks1 l2] eqn:Er.
  intros [= <- <-]. destruct (take_ok ln l now v n ok l1 Hln Hok Hn Et) as (Hok1 & Hs1 & Hw).
  destruct (same_lane _ _ _ Hln Hs1) as [E1 E2].
  destruct (IH now l1 oks1 l2 Hok1) as (Hok2 & Hs2 & Hc); [unfold forgiving; by rewrite E1, E2|done|].
  split_and!; [done| |].
  { destruct Hs1 as (? & ? & ? & ?), Hs2 as (? & ? & ? & ?). split_and!; congruence. }
  cbn [charged forward]. rewrite E1, E2 in Hc. specialize (Hw Hg u).
  pose proof (account_later ln l u t now (rt_settings _ Hok ln Hln)) as Hl.
  rewrite exactHours_add, Qmult_plus_distr_r.
  assert (Hk : (inject_Z (calls_of u ((now, v, n) :: calls)) * slack (burst ln l)
      == (if bool_decide (v = u) then slack (burst ln l) else 0) + inject_Z (calls_of u calls) * slack (burst ln l))%Q).
  { unfold calls_of. destruct (decide (v = u)) as [Hd|Hd].
    - rewrite filter_cons_True, bool_decide_eq_true_2 by done. cbn [length].
      replace (Z.of_nat (S (length (filter (λ c, c.1.2 = u) calls))))
        with (1 + Z.of_nat (length (filter (λ c, c.1.2 = u) calls))) by lia.
      rewrite inject_Z_plus. change (inject_Z 1) with 1%Q. ring.
    - rewrite filter_cons_False, bool_decide_eq_false_2 by done. ring. }
  rewrite Hk. lra.
Qed.

Lemma new_ok now maxMsg maxRcpt msgB rcptB :
  0 < msgB ≤ maxMsg → maxMsg ≤ 10000000 → 0 < rcptB ≤ maxRcpt → maxRcpt ≤ 10000000 →
  let l := newSubmissionLimiter rnd now maxMsg maxRcpt msgB rcptB in
  rates_ok l ∧ rMaxMessages l = rnd (inject_Z maxMsg) ∧ rMaxRecipients l = rnd (inject_Z maxRcpt) ∧
  rMsgBurst l = rnd (inject_Z msgB) ∧ rRcptBurst l = rnd (inject_Z rcptB).
Proof.
  intros Hm Hm' Hr Hr'. cbn zeta. unfold newSubmissionLimiter.
  rewrite (proj2 (Z.leb_gt msgB 0)), (proj2 (Z.leb_gt rcptB 0)) by lia.
  rewrite (proj2 (Z.ltb_ge maxMsg msgB)), (proj2 (Z.ltb_ge maxRcpt rcptB)) by lia. cbn [andb].
  split_and!; [|done..]. split.
  - cbn [rEntries]. rewrite map_size_empty. done.
  - assert (Hx : ∀ a b, 0 < a ≤ b → b ≤ 10000000 → ((0 <= rnd (inject_Z b)) ∧ (rnd (inject_Z b) <= 10000000))%Q ∧
        ∃ c, 0 ≤ c ≤ 10000000 ∧ (rnd (inject_Z a) == inject_Z c)%Q).
    { intros a b Ha Hb. rewrite (rnd_int (rnd:=rnd) b) by lia. split.
      - change 0%Q with (inject_Z 0). change 10000000%Q with (inject_Z 10000000). rewrite <-!Zle_Qle. lia.
      - exists a. split; [lia|]. apply rnd_int. lia. }
    intros ln [-> | ->]; split; cbn; (apply (Hx msgB maxMsg) || apply (Hx rcptB maxRcpt)); lia.
  - intros ln u a _ Ha. cbn in Ha. by rewrite lookup_empty in Ha.
Qed.

(** C36: No account submits faster than its rates.  In every history of calls by any
    accounts, after any earlier history, and from any instant [t] on, the messages
    accepted from one account number at most its burst, plus the hourly rate times
    the time that passed, plus a rounding error of some 2^-49 of the burst for each
    call; the same holds for the recipients.  This is so when neither burst exceeds
    half the hourly rate; a default burst is a sixtieth of the rate and satisfies this
    from a rate of two on.  The table never holds more than 10000 accounts. *)
Theorem rate_bound now maxMsg maxRcpt msgB rcptB earlier calls u t oks0 oks l l' :
  0 < msgB → 2 * msgB ≤ maxMsg ≤ 10000000 → 0 < rcptB → 2 * rcptB ≤ maxRcpt ≤ 10000000 →
  calls_ok earlier → calls_ok calls →
  takeRates rnd earlier (newSubmissionLimiter rnd now maxMsg maxRcpt msgB rcptB) = (oks0, l) →
  takeRates rnd calls l = (oks, l') →
  let hours := exactHours (forward t calls) in
  let k := inject_Z (calls_of u calls) in
  (charged msgLane u calls oks <= inject_Z msgB + inject_Z maxMsg * hours + k * slack (inject_Z msgB))%Q ∧
  (charged rcptLane u calls oks <= inject_Z rcptB + inject_Z maxRcpt * hours + k * slack (inject_Z rcptB))%Q ∧
  Z.of_nat (size (rEntries l')) ≤ maxRateEntries.
Proof.
  intros Hm Hm' Hr Hr' He Hc Ht0 Ht. cbn zeta.
  destruct (new_ok now maxMsg maxRcpt msgB rcptB) as (Hok & E1 & E2 & E3 & E4); [lia..|].
  set (l0 := newSubmissionLimiter rnd now maxMsg maxRcpt msgB rcptB) in *.
  assert (Hx : ∀ ln a b, is_lane ln → rate ln l0 = rnd (inject_Z b) → burst ln l0 = rnd (inject_Z a) →
    0 < a → 2 * a ≤ b ≤ 10000000 → rates_ok l' ∧
    (charged ln u calls oks <= inject_Z a + inject_Z b * exactHours (forward t calls)
       + inject_Z (calls_of u calls) * slack (inject_Z a))%Q).
  { intros ln a b Hln Er Eb Ha Hb.
    assert (Hrb : (rnd (inject_Z b) == inject_Z b)%Q) by (apply rnd_int; lia).
    assert (Hra : (rnd (inject_Z a) == inject_Z a)%Q) by (apply rnd_int; lia).
    assert (Hg : forgiving ln l0).
    { unfold forgiving. rewrite Er, Eb, Hra, Hrb. change 2%Q with (inject_Z 2). rewrite <-inject_Z_mult, <-Zle_Qle. lia. }
    destruct (takes_ok ln u earlier Hln He now l0 oks0 l Hok Hg Ht0) as (Hok1 & Hs & _).
    destruct (same_lane _ _ _ Hln Hs) as [F1 F2].
    destruct (takes_ok ln u calls Hln Hc t l oks l' Hok1) as (Hok2 & _ & Hb2); [unfold forgiving; by rewrite F1, F2|done|].
    split; [done|]. rewrite F1, F2, Er, Eb in Hb2. unfold slack in *. rewrite Hra, Hrb in Hb2.
    assert (account_worth ln l u t <= inject_Z a)%Q; [|lra].
    rewrite <-Hra, <-Eb, <-F2. unfold account_worth. destruct (rEntries l !! u); [apply worth_burst|apply Qle_refl]. }
  destruct (Hx msgLane msgB maxMsg) as [Hok' H1]; [by left|done..|].
  destruct (Hx rcptLane rcptB maxRcpt) as [_ H2]; [by right|done..|].
  split_and!; [done|done|apply Hok'].
Qed.

(** One call for more recipients than the burst. *)
Lemma charge_oversized l a now n b : rates_ok l → entry_ok rcptLane l a → (rRcptBurst l == inject_Z b)%Q →
  b < n ≤ 10000000 → (chargeTokens rnd l a now n).1 = false.
Proof.
  intros Hok He Hb Hn. unfold chargeTokens.
  destruct (refilled_ok rnd rcptLane l a now) as (_ & Hr & _); [apply Hok; by right|done|].
  rewrite <-refill_tok in Hr by (by right). cbn [tok burst rcptLane tokMessages tokRecipients] in *.
  assert (Qle_bool (rnd (inject_Z n)) (tokRecipients (refill rnd l a now)) = false) as ->;
    [|by rewrite orb_true_r].
  apply not_true_iff_false. intros Hq%Qle_bool_iff. destruct Hok as [_ Hset _].
  destruct (st_burst _ _ (Hset rcptLane (or_intror eq_refl))) as (b' & Hb' & E). cbn [burst rcptLane] in E.
  rewrite E in Hb, Hr. assert (b' = b) as -> by (by apply inject_Z_injective).
  assert (Hrn : (rnd (inject_Z n) == inject_Z n)%Q) by (apply rnd_int; lia). rewrite Hrn in Hq.
  pose proof (Qle_trans _ _ _ Hq Hr) as Hx. rewrite <-Zle_Qle in Hx. lia.
Qed.

Lemma take_oversized l now u n b ok l' : rates_ok l → (rRcptBurst l == inject_Z b)%Q → b < n ≤ 10000000 →
  takeRate rnd now u n l = (ok, l') → ok = false.
Proof.
  intros Hok Hb Hn. unfold takeRate. pose proof (prune_forgets now l) as Hp. set (l1 := pruneRates now l) in *.
  assert (Hcase : ∀ l2 a, forgets now l l2 → entry_ok rcptLane l2 a →
    (let '(ok, a) := chargeTokens rnd l2 a now n in (ok, set_rEntries (<[u := a]> (rEntries l2)) l2)) = (ok, l') →
    ok = false).
  { intros l2 a Hf He. pose proof (charge_oversized l2 a now n b (forgets_ok _ _ _ Hf Hok) He) as Hc.
    destruct (chargeTokens rnd l2 a now n) as [ok2 a2]. intros [= <- <-]. apply Hc; [|done].
    destruct Hf as [(_ & _ & _ & ->) _]. done. }
  destruct (rEntries l1 !! u) as [a|] eqn:Ea.
  { apply Hcase; [done|]. apply (rt_entries _ (forgets_ok _ _ _ Hp Hok) rcptLane u); [by right|done]. }
  set (l2 := if maxRateEntries <=? _ then _ else l1).
  assert (Hp2 : forgets now l l2).
  { eapply forgets_trans; [exact Hp|]. unfold l2. destruct (_ <=? _); [apply forcePrune_forgets|apply forgets_refl]. }
  destruct (maxRateEntries <=? Z.of_nat (size (rEntries l2))); [by intros [= <- <-]|]. apply Hcase; [done|].
  pose proof (burst_nonneg rcptLane l2) as Hb0. split; [|done]. cbn in *. split; [|apply Qle_refl].
  apply Hb0. apply (forgets_ok _ _ _ Hp2 Hok). by right.
Qed.

(** A message for more recipients than the recipient burst is never let through:
    whatever history came before and however long the account waits, the call is
    refused.  (Validation accepts configurations whose [max_recipients] exceeds the
    burst, and the refusal tells the client to try again later.) *)
Theorem oversized_never_taken now maxMsg maxRcpt msgB rcptB earlier calls u n t oks :
  0 < msgB ≤ maxMsg → maxMsg ≤ 10000000 → 0 < rcptB ≤ maxRcpt → maxRcpt ≤ 10000000 →
  calls_ok (earlier ++ (t, u, n) :: calls) → rcptB < n →
  takeRates rnd (earlier ++ (t, u, n) :: calls) (newSubmissionLimiter rnd now maxMsg maxRcpt msgB rcptB) = oks →
  oks.1 !! length earlier = Some false.
Proof.
  intros Hm Hm' Hr Hr' Hc Hn <-. apply Forall_app in Hc as [He [Hnr _]%Forall_cons].
  destruct (new_ok now maxMsg maxRcpt msgB rcptB Hm Hm' Hr Hr') as (Hok & _ & _ & _ & Eb).
  set (l0 := newSubmissionLimiter rnd now maxMsg maxRcpt msgB rcptB) in *.
  assert (Hrb : (rnd (inject_Z rcptB) == inject_Z rcptB)%Q) by (apply rnd_int; lia). rewrite <-Eb in Hrb.
  clearbody l0. revert l0 Hok Eb Hrb. induction He as [|[[t1 v] m] earlier Hm1 _ IH]; intros l Hok Eb Hrb.
  - cbn [app takeRates length]. destruct (takeRate rnd t u n l) as [ok l1] eqn:Et.
    destruct (takeRates rnd calls l1) as [oks l2]. cbn. f_equal. apply (take_oversized l t u n rcptB ok l1 Hok Hrb); [cbn in Hnr; lia|done].
  - cbn [app takeRates length]. destruct (takeRate rnd t1 v m l) as [ok l1] eqn:Et.
    destruct (take_ok rcptLane l t1 v m ok l1 (or_intror eq_refl) Hok Hm1 Et) as (Hok1 & Hs & _).
    destruct Hs as (_ & _ & _ & E4). specialize (IH l1 Hok1). rewrite E4 in IH. specialize (IH Eb Hrb).
    destruct (takeRates rnd (earlier ++ _) l1) as [oks l2]. exact IH.
Qed.
End histories.

(** ** Samples *)

Definition sampleCalls : list (Z * string * Z) := [(0, "alice", 3); (5, "bob", 1); (10, "alice", 2); (20, "alice", 1)].

Lemma rate_bound_witness :
  (charged msgLane "alice" sampleCalls (takeRates (λ x, x) sampleCalls (newSubmissionLimiter (λ x, x) 0 4 20 2 10)).1
     <= 2 + 4 * exactHours (forward 0 sampleCalls) + 3 * slack 2)%Q.
Proof.
  destruct (rate_bound (λ x, x) 0 4 20 2 10 [] sampleCalls "alice" 0 [] (takeRates (λ x, x) sampleCalls
    (newSubmissionLimiter (λ x, x) 0 4 20 2 10)).1 (newSubmissionLimiter (λ x, x) 0 4 20 2 10)
    (takeRates (λ x, x) sampleCalls (newSubmissionLimiter (λ x, x) 0 4 20 2 10)).2) as (Hb & _ & _);
    [lia..|constructor|repeat constructor; cbn; lia|reflexivity|by destruct (takeRates _ _ _)|exact Hb].
Defined.

Lemma oversized_never_taken_witness :
  (takeRates (λ x, x) [(0, "alice", 1); (3600000000000, "alice", 11)] (newSubmissionLimiter (λ x, x) 0 4 20 2 10)).1 !! 1%nat
  = Some false.
Proof.
  apply (oversized_never_taken (λ x, x) 0 4 20 2 10 [(0, "alice", 1)] [] "alice" 11 3600000000000
    (takeRates (λ x, x) [(0, "alice", 1); (3600000000000, "alice", 11)] (newSubmissionLimiter (λ x, x) 0 4 20 2 10)));
    [lia..|repeat constructor; cbn; lia|lia|reflexivity].
Defined.

(** Two messages at once, half an hour and a bit apart, three times. *)
Definition burstsOfTwo : list (Z * string * Z) :=
  let gap := rateExpiry + 1000000000 in
  (λ t, (t, "alice", 1)) <$> [0; 0; gap; gap; 2 * gap; 2 * gap].

(** Forgetting idle accounts lets them exceed their rate.  An account limited to
    two messages an hour with a burst of two (which validation accepts) submits six
    messages in sixty-one minutes: after half an hour of silence its entry is
    dropped and the next call starts with a full burst.  The token bucket alone would
    allow fewer than five. *)
Theorem idle_account_refilled :
  let '(oks, _) := takeRates (λ x, x) burstsOfTwo (newSubmissionLimiter (λ x, x) 0 2 10 2 10) in
  (charged msgLane "alice" burstsOfTwo oks == 6)%Q ∧
  (2 + 2 * exactHours (forward 0 burstsOfTwo) < 5)%Q.
Proof. vm_compute. split; reflexivity. Qed.
