(* ===== verification/FileSystem.v ===== *)
(** * The spool's file system

    The part of the operating system the queue works on: the namespace
    directories below the spool root, the entries in them, and the files in an
    entry.  Every directory table and every file content is kept with the
    versions that a crash may leave behind: an update makes one more version
    possible, a successful sync makes the visible version the only one.

    A call may fail, before or after its effect; the environment says which
    calls fail.  The test hooks of src/internal/disk/disk.go are such
    failures. *)

From S2P Require Import Prelude Errors GoLib.
Open Scope Z_scope.

(** ** State *)

(** The namespace directories of layout.go. *)
Inductive space := Ready | Dead | Tmp | Dsn | Corr | Trash.

#[export] Instance space_eq_dec : EqDecision space.
Proof. solve_decision. Defined.

(** A directory: a namespace or an entry (inode). *)
Inductive dref := Sp (s : space) | Ent (d : nat).

#[export] Instance dref_eq_dec : EqDecision dref.
Proof. solve_decision. Defined.

Definition space_code (s : space) : nat :=
  match s with Ready => 0 | Dead => 1 | Tmp => 2 | Dsn => 3 | Corr => 4 | Trash => 5 end.

#[export] Instance dref_countable : Countable dref.
Proof.
  apply (inj_countable'
    (λ d, match d with Sp s => inl (space_code s) | Ent n => inr n end)
    (λ c, match c with
          | inl 0 => Sp Ready | inl 1 => Sp Dead | inl 2 => Sp Tmp | inl 3 => Sp Dsn
          | inl 4 => Sp Corr | inl _ => Sp Trash | inr n => Ent n end)%nat).
  by intros [[]|n].
Defined.

Inductive object := Regular (f : nat) | Directory (d : nat).

#[export] Instance object_eq_dec : EqDecision object.
Proof. solve_decision. Defined.

Abbreviation table := (gmap string object).

(** The visible value and the values a crash may leave. *)
Record vers (A : Type) := mkVers { cur : A; pers : list A }.
Arguments mkVers {A}.
Arguments cur {A}.
Arguments pers {A}.

Definition fresh_vers {A} (a : A) : vers A := mkVers a [a].
Definition change {A} (a : A) (v : vers A) : vers A := mkVers a (pers v ++ [a]).
Definition settled {A} (v : vers A) : vers A := mkVers (cur v) [cur v].

Record world := mkWorld {
  dirs : gmap dref (vers table);
  files : gmap nat (vers string);
  inode : nat;
  ticks : nat
}.

Definition set_dirs v w := mkWorld v (files w) (inode w) (ticks w).
Definition set_files v w := mkWorld (dirs w) v (inode w) (ticks w).
Definition set_inode v w := mkWorld (dirs w) (files w) v (ticks w).
Definition set_ticks v w := mkWorld (dirs w) (files w) (inode w) v.

(** What the environment decides: the failures of calls (with whether the
    effect took place), the clock, the suffixes of temporary names, random
    bytes, the size the file system reports for a directory, and the modification
    time of an entry. *)
Record Environment := mkEnvironment {
  fault : nat → option (error * bool);
  clock : nat → Z;
  suffix : nat → string;
  random : nat → string;
  dirSize : table → Z;
  modTime : nat → space → string → Z
}.

(** A failing call does not claim that a file is missing, and is not one of the
    queue's own errors. *)
Class Honest (E : Environment) := {
  honest_fault : ∀ t e b, fault E t = Some (e, b) →
    errors_Is e ErrNotExist = false ∧ plain_error e = true
}.

(** ** Paths *)

Inductive path :=
  | PRoot
  | PSpace (s : space)
  | PEntry (s : space) (name : string)
  | PFile (s : space) (name file : string).

Definition filepath_Dir (p : path) : path :=
  match p with
  | PRoot => PRoot
  | PSpace _ => PRoot
  | PEntry s _ => PSpace s
  | PFile s n _ => PEntry s n
  end.

(** [filepath.Join] of a directory and a name. *)
Definition join (dir : path) (name : string) : path :=
  match dir with
  | PSpace s => if decide (name = "") then PSpace s else PEntry s name
  | PEntry s n => if decide (name = "") then PEntry s n else PFile s n name
  | p => p
  end.

#[export] Instance path_eq_dec : EqDecision path.
Proof. solve_decision. Defined.

Definition table_of (w : world) (d : dref) : option table := cur <$> dirs w !! d.

(** The object an entry or file path names. *)
Definition entry_obj (w : world) (s : space) (n : string) : option object :=
  t ← table_of w (Sp s); t !! n.

Definition resolve_dir (w : world) (p : path) : option dref :=
  match p with
  | PRoot => None
  | PSpace s => if dirs w !! Sp s then Some (Sp s) else None
  | PEntry s n =>
      match entry_obj w s n with
      | Some (Directory d) => if dirs w !! Ent d then Some (Ent d) else None
      | _ => None
      end
  | PFile _ _ _ => None
  end.

Definition file_obj (w : world) (s : space) (n f : string) : option object :=
  d ← resolve_dir w (PEntry s n); t ← table_of w d; t !! f.

(** ** Calls *)

Abbreviation ENOENT := (Errno 2).
Abbreviation EEXIST := (Errno 17).
Abbreviation ENOTDIR := (Errno 20).
Abbreviation EISDIR := (Errno 21).
Abbreviation ENOTEMPTY := (Errno 39).

Abbreviation D A := (ST world A) (only parsing).

Section calls.
Variable E : Environment.

(** One call: [k] is what it does when nothing goes wrong. *)
Definition call {A} (k : world → res A * world) : D (res A) := λ w,
  let t := ticks w in
  let w := set_ticks (S t) w in
  match fault E t with
  | None => k w
  | Some (e, true) => (Err e, (k w).2)
  | Some (e, false) => (Err e, w)
  end.

Definition time_Now : D Z := λ w, (clock E (ticks w), set_ticks (S (ticks w)) w).

(** [os.Stat] and [os.Lstat]: the spool has no symbolic links. *)
Definition object_at (w : world) (p : path) : option object :=
  match p with
  | PRoot => Some (Directory 0)
  | PSpace s => if dirs w !! Sp s then Some (Directory 0) else None
  | PEntry s n => entry_obj w s n
  | PFile s n f => file_obj w s n f
  end.

Definition os_Stat (p : path) : D (res object) := call (λ w,
  (match object_at w p with Some o => Ok o | None => Err ENOENT end, w)).

Definition is_dir (o : object) : bool :=
  match o with Directory _ => true | Regular _ => false end.

(** Write a directory table. *)
Definition put_table (d : dref) (t : table) (w : world) : world :=
  set_dirs (alter (change t) d (dirs w)) w.

(** [os.ReadDir]: names with their kinds, sorted by name. *)
Definition name_le (a b : string * object) : Prop := String.leb a.1 b.1 = true.

#[export] Instance name_le_dec : RelDecision name_le := λ a b, decide (_ = true).

Definition entries_of (t : table) : list (string * object) :=
  merge_sort name_le (map_to_list t).

Definition os_ReadDir (p : path) : D (res (list (string * object))) := call (λ w,
  (match d ← resolve_dir w p; table_of w d with
   | Some t => Ok (entries_of t)
   | None => Err ENOENT
   end, w)).

(** Content of an open file. *)
Definition content (w : world) (f : nat) : string := from_option cur "" (files w !! f).

(** [os.Open] of a regular file and reading it whole. *)
Definition os_ReadFile (f : nat) : D (res string) := call (λ w, (Ok (content w f), w)).

(** [os.Mkdir]. *)
Definition os_Mkdir (s : space) (n : string) : D (res unit) := call (λ w,
  match table_of w (Sp s) with
  | None => (Err ENOENT, w)
  | Some t =>
      match t !! n with
      | Some _ => (Err EEXIST, w)
      | None =>
          let d := inode w in
          let w := set_inode (S d) w in
          let w := set_dirs (<[Ent d := fresh_vers ∅]> (dirs w)) w in
          (Ok tt, put_table (Sp s) (<[n := Directory d]> t) w)
      end
  end).

Definition os_MkdirSpace (s : space) : D (res unit) := call (λ w,
  match dirs w !! Sp s with
  | Some _ => (Err EEXIST, w)
  | None => (Ok tt, set_dirs (<[Sp s := fresh_vers ∅]> (dirs w)) w)
  end).

(** [os.CreateTemp]: a new empty file under an unused name in directory [d]. *)
Definition os_CreateTemp (d : dref) (name : string) : D (res nat) := call (λ w,
  match table_of w d with
  | None => (Err ENOENT, w)
  | Some t =>
      match t !! name with
      | Some _ => (Err EEXIST, w)
      | None =>
          let f := inode w in
          let w := set_inode (S f) w in
          let w := set_files (<[f := fresh_vers ""]> (files w)) w in
          (Ok f, put_table d (<[name := Regular f]> t) w)
      end
  end).

(** Overwrite the content of an open file. *)
Definition put_file (f : nat) (c : string) (w : world) : world :=
  set_files (alter (change c) f (files w)) w.

Definition os_Write (f : nat) (c : string) : D (res unit) := call (λ w,
  (Ok tt, put_file f c w)).

(** [file.Sync]. *)
Definition os_SyncFile (f : nat) : D (res unit) := call (λ w,
  (Ok tt, set_files (alter settled f (files w)) w)).

(** Syncing a directory. *)
Definition os_SyncDir (p : path) : D (res unit) := call (λ w,
  match p with
  | PRoot => (Ok tt, w)
  | _ =>
      match resolve_dir w p with
      | Some d => (Ok tt, set_dirs (alter settled d (dirs w)) w)
      | None => (Err ENOENT, w)
      end
  end).

(** [os.Remove] and [unlinkat] of the name [n] in directory [d]; a directory
    must be empty. *)
Definition os_Unlink (d : dref) (n : string) : D (res unit) := call (λ w,
  match table_of w d with
  | None => (Err ENOENT, w)
  | Some t =>
      match t !! n with
      | None => (Err ENOENT, w)
      | Some (Regular _) => (Ok tt, put_table d (delete n t) w)
      | Some (Directory e) =>
          if decide (table_of w (Ent e) = Some ∅)
          then (Ok tt, put_table d (delete n t) w)
          else (Err ENOTEMPTY, w)
      end
  end).

(** What [rename(2)] checks about the target. *)
Definition may_replace (w : world) (o : object) (target : option object) : option error :=
  match o, target with
  | _, None => None
  | Regular _, Some (Regular _) => None
  | Regular _, Some (Directory _) => Some EISDIR
  | Directory _, Some (Regular _) => Some ENOTDIR
  | Directory _, Some (Directory e) =>
      if decide (table_of w (Ent e) = Some ∅) then None else Some ENOTEMPTY
  end.

Definition os_Rename (d : dref) (n : string) (d' : dref) (n' : string) : D (res unit) :=
  call (λ w,
  match table_of w d, table_of w d' with
  | Some t, Some t' =>
      match t !! n with
      | None => (Err ENOENT, w)
      | Some o =>
          match may_replace w o (t' !! n') with
          | Some e => (Err e, w)
          | None =>
              if decide (d = d') then (Ok tt, put_table d (<[n' := o]> (delete n t)) w)
              else (Ok tt, put_table d' (<[n' := o]> t') (put_table d (delete n t) w))
          end
      end
  | _, _ => (Err ENOENT, w)
  end).

End calls.

(** ** Crashes

    A crash keeps one possible version of every directory and file; an inode in
    use is not allocated again. *)

Definition survives {A} (v v' : vers A) : Prop :=
  ∃ a, (a = cur v ∨ a ∈ pers v) ∧ v' = fresh_vers a.

Record crash (w w' : world) : Prop := {
  crash_dirs : ∀ d, option_Forall2 survives (dirs w !! d) (dirs w' !! d);
  crash_files : ∀ f, option_Forall2 survives (files w !! f) (files w' !! f);
  crash_inode : (inode w ≤ inode w')%nat
}.

(** The crash that loses nothing. *)
Definition reboot (w : world) : world :=
  mkWorld (settled <$> dirs w) (settled <$> files w) (inode w) (ticks w).

Lemma reboot_crash w : crash w (reboot w).
Proof.
  constructor; [intros i; simpl; rewrite lookup_fmap..|done].
  - destruct (dirs w !! i) as [v|]; constructor. exists (cur v). split; [by left|done].
  - destruct (files w !! i) as [v|]; constructor. exists (cur v). split; [by left|done].
Qed.
