(* ===== verification/Disk.v ===== *)
(** * Durable file operations (src/internal/disk/disk.go, secure_unix.go,
    sync_unix.go)

    Atomic replacement of files, renames that sync the directories they
    change, recursive removal, and the measured allocation of a tree.  The
    fault hooks of the source are failures of the environment. *)

From S2P Require Import Prelude Errors GoLib Envelope Capacity FileSystem.
Open Scope Z_scope.

Section disk.
Variable E : Environment.

(** [CheckRead]: only the read hook can fail. *)
Definition CheckRead (p : path) : D (res unit) := call E (λ w, (Ok tt, w)).

(** [Sync] of a directory: open, fsync. *)
Definition Sync (p : path) : D (res unit) := os_SyncDir E p.

(** [SyncFile] of an open file. *)
Definition SyncFile (f : nat) : D (res unit) := os_SyncFile E f.

(** [Mkdir]: [os.MkdirAll] for a directory below the spool root. *)
Definition Mkdir (p : path) : D (res unit) := λ w,
  match p with
  | PRoot => (Ok tt, w)
  | PSpace s =>
      match dirs w !! Sp s with Some _ => (Ok tt, w) | None => os_MkdirSpace E s w end
  | PEntry s n =>
      let mkSpace := match dirs w !! Sp s with
                     | Some _ => ret (Ok tt) | None => os_MkdirSpace E s end in
      (try! _ := mkSpace in
       λ w, match entry_obj w s n with
            | Some (Directory _) => (Ok tt, w)
            | Some (Regular _) => (Err ENOTDIR, w)
            | None => os_Mkdir E s n w
            end) w
  | PFile _ _ _ => (Err ENOTDIR, w)
  end.

(** ** Creating directories durably *)

(** The directories from [p] up to the spool root's children. *)
Definition lineage (p : path) : list path :=
  match p with
  | PRoot => []
  | PSpace s => [PSpace s]
  | PEntry s n => [PEntry s n; PSpace s]
  | PFile s n f => [PFile s n f; PEntry s n; PSpace s]
  end.

(** The first loop of [MkdirDurable]: the missing components, deepest first. *)
Fixpoint missing_loop (ps : list path) : D (res (list path)) :=
  match ps with
  | [] => ret (Ok [])
  | p :: ps =>
      let! st := os_Stat E p in
      match st with
      | Ok o => if is_dir o then ret (Ok []) else ret (Err EEXIST)
      | Err e =>
          if errors_Is e ErrNotExist
          then try! rest := missing_loop ps in ret (Ok (p :: rest))
          else ret (Err e)
      end
  end.

(** Nothing missing: sync every ancestor. *)
Fixpoint sync_parents (ps : list path) : D (res unit) :=
  match ps with
  | [] => ret (Ok tt)
  | p :: ps => try! _ := Sync (filepath_Dir p) in sync_parents ps
  end.

Definition os_mkdir_path (p : path) : D (res unit) :=
  match p with
  | PSpace s => os_MkdirSpace E s
  | PEntry s n => os_Mkdir E s n
  | _ => ret (Err ENOTDIR)
  end.

Definition os_remove_path (p : path) : D (res unit) := λ w,
  match p with
  | PEntry s n => os_Unlink E (Sp s) n w
  | PFile s n f =>
      match resolve_dir w (PEntry s n) with
      | Some d => os_Unlink E d f w
      | None => (Err ENOENT, w)
      end
  | _ => (Err ENOTEMPTY, w)
  end.

(** Create the missing components, shallowest first, syncing each parent. *)
Fixpoint create_missing (ps : list path) : D (res unit) :=
  match ps with
  | [] => ret (Ok tt)
  | p :: ps =>
      let! r := os_mkdir_path p in
      try! created :=
        match r with
        | Ok _ => ret (Ok true)
        | Err e =>
            if negb (errors_Is e ErrExist) then ret (Err e)
            else
              try! o := os_Stat E p in
              if negb (is_dir o) then ret (Err EEXIST) else ret (Ok false)
        end in
      let! synced := Sync (filepath_Dir p) in
      match synced with
      | Err e =>
          let! _ := (if created : bool then os_remove_path p else ret (Ok tt)) in
          ret (Err e)
      | Ok _ => create_missing ps
      end
  end.

Definition MkdirDurable (p : path) : D (res unit) :=
  try! missing := missing_loop (lineage p) in
  match missing with
  | [] => sync_parents (lineage p)
  | _ => create_missing (rev missing)
  end.

(** ** Recursive removal *)

(** [removeDirectoryContents] for the listed names of directory [d]. *)
Fixpoint unlink_all (fuel : nat) (d : dref) : list (string * object) → D (res unit) :=
  fix go entries :=
  match entries with
  | [] => ret (Ok tt)
  | (name, o) :: entries =>
      let step :=
        match o, fuel with
        | Regular _, _ => os_Unlink E d name
        | Directory _, O => ret (Err ENOTEMPTY)
        | Directory e, S fuel =>
            try! _ := (λ w, match table_of w (Ent e) with
                            | Some t => unlink_all fuel (Ent e) (map_to_list t) w
                            | None => (Err ENOENT, w) end) in
            os_Unlink E d name
        end in
      let! r := step in
      match r with
      | Ok _ => go entries
      | Err e => if errors_Is e ErrNotExist then go entries else ret (Err e)
      end
  end.

(** [removeAllSecure]; the recursion is bounded by the number of directories. *)
Definition removeAllSecure (s : space) (n : string) : D (res unit) := λ w,
  match entry_obj w s n with
  | None => (Ok tt, w)
  | Some (Regular _) => os_Unlink E (Sp s) n w
  | Some (Directory d) =>
      (try! _ := (λ w, match table_of w (Ent d) with
                       | Some t => unlink_all (size (dirs w)) (Ent d) (map_to_list t) w
                       | None => (Err ENOENT, w) end) in
       os_Unlink E (Sp s) n) w
  end.

Definition RemoveAll (s : space) (n : string) : D (res unit) :=
  try! _ := call E (λ w, (Ok tt, w)) in
  removeAllSecure s n.

(** ** Atomic file replacement *)

(** The name of a temporary file for [path]. *)
Definition tempName (base sfx : string) : string := "." +:+ base +:+ ".tmp-" +:+ sfx.

Definition Temp (s : space) (n base : string) : D (res (dref * string * nat)) :=
  try! _ := Mkdir (PEntry s n) in
  λ w,
    match resolve_dir w (PEntry s n) with
    | None => (Err ENOENT, w)
    | Some d =>
        let name := tempName base (suffix E (ticks w)) in
        (try! f := os_CreateTemp E d name in ret (Ok (d, name, f))) w
    end.

(** [commit]: chmod, sync and close the file, rename it, sync the directory. *)
Definition commit (d : dref) (temp : string) (f : nat) (s : space) (n base : string)
    : D (res unit) :=
  try! _ := call E (λ w, (Ok tt, w)) in
  try! _ := SyncFile f in
  try! _ := call E (λ w, (Ok tt, w)) in
  try! _ := os_Rename E d temp d base in
  Sync (PEntry s n).

Definition Commit (d : dref) (temp : string) (f : nat) (s : space) (n base : string)
    : D (res unit) :=
  let! r := commit d temp f s n base in
  match r with
  | Err e => let! _ := os_Unlink E d temp in ret (Err e)
  | Ok _ => ret (Ok tt)
  end.

Definition pathMayExist (s : space) (n file : string) : D bool :=
  let! r := os_Stat E (PFile s n file) in
  ret (match r with Ok _ => true | Err e => negb (errors_Is e ErrNotExist) end).

(** The flag says whether the temporary file may remain. *)
Definition WriteWithTempState (s : space) (n base body : string) : D (bool * res unit) :=
  let! t := Temp s n base in
  match t with
  | Err e => ret (false, Err e)
  | Ok (d, temp, f) =>
      let! r := os_Write E f body in
      match r with
      | Err e =>
          let! _ := os_Unlink E d temp in
          let! may := pathMayExist s n temp in
          ret (may, Err e)
      | Ok _ =>
          let! r := Commit d temp f s n base in
          match r with
          | Err e => let! may := pathMayExist s n temp in ret (may, Err e)
          | Ok _ => ret (false, Ok tt)
          end
      end
  end.

Definition Write (s : space) (n base body : string) : D (res unit) :=
  let! r := WriteWithTempState s n base body in ret r.2.

(** ** Renames *)

(** [Rename] of an entry between or within namespaces. *)
Definition Rename (s : space) (n : string) (s' : space) (n' : string) : D (res unit) :=
  try! _ := call E (λ w, (Ok tt, w)) in
  try! _ := os_Rename E (Sp s) n (Sp s') n' in
  try! _ := Sync (PSpace s') in
  if decide (s = s') then ret (Ok tt) else Sync (PSpace s).

(** A directory by its path, for a call that follows. *)
Definition with_dir (p : path) (k : dref → D (res unit)) : D (res unit) := λ w,
  match resolve_dir w p with None => (Err ENOENT, w) | Some d => k d w end.

(** [Rename] of a file within an entry. *)
Definition RenameFile (s : space) (n f f' : string) : D (res unit) :=
  try! _ := call E (λ w, (Ok tt, w)) in
  try! _ := with_dir (PEntry s n) (λ d, os_Rename E d f d f') in
  Sync (PEntry s n).

(** [Rename] of a stray file of a namespace into an entry directory. *)
Definition RenameInto (s : space) (n : string) (s' : space) (n' base : string)
    : D (res unit) :=
  try! _ := call E (λ w, (Ok tt, w)) in
  try! _ := with_dir (PEntry s' n') (λ d, os_Rename E (Sp s) n d base) in
  try! _ := Sync (PEntry s' n') in
  Sync (PSpace s).

(** ** Measuring *)

Definition charge (total : res Z) (size : Z) : res Z :=
  let? total := total in
  let c := AllocationSize size in
  reject MaxInt64 - c <? total with Message "filesystem usage overflow" in
  Ok (total + c).

Definition object_size (w : world) (o : object) : Z :=
  match o with
  | Regular f => str_len (content w f)
  | Directory d => from_option (dirSize E) 0 (table_of w (Ent d))
  end.

(** The walk below an object, in the order of names. *)
Fixpoint walk (fuel : nat) (w : world) (o : object) (total : res Z) : res Z :=
  let total := charge total (object_size w o) in
  match o with
  | Regular _ => total
  | Directory d =>
      match fuel with
      | O => total
      | S fuel =>
          foldl (λ acc e, walk fuel w e.2 acc) total
            (from_option entries_of [] (table_of w (Ent d)))
      end
  end.

(** [AllocatedBytes] of an entry; the depth is bounded by the number of
    directories. *)
Definition AllocatedBytes (s : space) (n : string) : D (res Z) := call E (λ w,
  (match entry_obj w s n with
   | None => Err ENOENT
   | Some o => walk (size (dirs w)) w o (Ok 0)
   end, w)).

(** [AllocatedBytes] of the whole spool. *)
Definition AllocatedRoot : D (res Z) := call E (λ w,
  (foldl (λ acc s,
       match table_of w (Sp s) with
       | None => acc
       | Some t =>
           foldl (λ acc e, walk (size (dirs w)) w e.2 acc) (charge acc (dirSize E t))
             (entries_of t)
       end)
     (charge (Ok 0) (dirSize E ∅)) [Corr; Dead; Dsn; Ready; Tmp; Trash], w)).
End disk.
