(* ===== verification/Utf8.v ===== *)
(** * UTF-8 text (unicode/utf8, strings, unicode)

    What the queue and the mailbox package use of Go's text packages: decoding
    into runes, validity, white space, and the character classes that must not
    reach a display. *)

From S2P Require Import Prelude GoLib.
Open Scope Z_scope.

Definition RuneError : Z := 65533.

Definition in_range (lo hi z : Z) : bool := (lo <=? z) && (z <=? hi).

(** A continuation byte. *)
Definition cont (z : Z) : bool := in_range 128 191 z.

Definition valid2 (a b : Z) : bool := in_range 194 223 a && cont b.

Definition valid3 (a b c : Z) : bool :=
  (((a =? 224) && in_range 160 191 b) || (in_range 225 236 a && cont b)
   || ((a =? 237) && in_range 128 159 b) || (in_range 238 239 a && cont b)) && cont c.

Definition valid4 (a b c d : Z) : bool :=
  (((a =? 240) && in_range 144 191 b) || (in_range 241 243 a && cont b)
   || ((a =? 244) && in_range 128 143 b)) && cont c && cont d.

Definition low6 (z : Z) : Z := Z.land z 63.

Definition rune2 (a b : Z) : Z := Z.lor (Z.shiftl (Z.land a 31) 6) (low6 b).
Definition rune3 (a b c : Z) : Z :=
  Z.lor (Z.shiftl (Z.land a 15) 12) (Z.lor (Z.shiftl (low6 b) 6) (low6 c)).
Definition rune4 (a b c d : Z) : Z :=
  Z.lor (Z.shiftl (Z.land a 7) 18)
    (Z.lor (Z.shiftl (low6 b) 12) (Z.lor (Z.shiftl (low6 c) 6) (low6 d))).

(** [for _, r := range s]: the runes of a string; an invalid byte yields
    [RuneError] and is marked. *)
Fixpoint runes (l : list ascii) : list (Z * bool) :=
  match l with
  | [] => []
  | a :: l1 =>
      let x := byte_val a in
      if x <? 128 then (x, true) :: runes l1
      else
        match l1 with
        | [] => [(RuneError, false)]
        | b :: l2 =>
            let y := byte_val b in
            if valid2 x y then (rune2 x y, true) :: runes l2
            else
              match l2 with
              | [] => (RuneError, false) :: runes l1
              | c :: l3 =>
                  let z := byte_val c in
                  if valid3 x y z then (rune3 x y z, true) :: runes l3
                  else
                    match l3 with
                    | [] => (RuneError, false) :: runes l1
                    | d :: l4 =>
                        let t := byte_val d in
                        if valid4 x y z t then (rune4 x y z t, true) :: runes l4
                        else (RuneError, false) :: runes l1
                    end
              end
        end
  end.

(** [utf8.ValidString]. *)
Definition ValidString (s : string) : bool := forallb snd (runes (str_list s)).

Definition in_ranges (rs : list (Z * Z)) (z : Z) : bool :=
  existsb (λ r, in_range r.1 r.2 z) rs.

(** [unicode.IsControl], and the tables Cf, Zl and Zp. *)
Definition IsControl (r : Z) : bool := in_ranges [(0, 31); (127, 159)] r.

Definition format_ranges : list (Z * Z) :=
  [(173, 173); (1536, 1541); (1564, 1564); (1757, 1757); (1807, 1807); (2192, 2193);
   (2274, 2274); (6158, 6158); (8203, 8207); (8234, 8238); (8288, 8292); (8294, 8303);
   (65279, 65279); (65529, 65531); (69821, 69821); (69837, 69837); (78896, 78911);
   (113824, 113827); (119155, 119162); (917505, 917505); (917536, 917631)].

Definition separator_ranges : list (Z * Z) := [(8232, 8232); (8233, 8233)].

(** [unicode.IsSpace]. *)
Definition IsSpace (r : Z) : bool :=
  in_ranges [(9, 13); (32, 32); (133, 133); (160, 160); (5760, 5760); (8192, 8202);
             (8232, 8233); (8239, 8239); (8287, 8287); (12288, 12288)] r.

(** [strings.TrimSpace(s) != s]: white space at either end. *)
Definition has_outer_space (s : string) : bool :=
  match runes (str_list s) with
  | [] => false
  | r :: rs => IsSpace r.1 || IsSpace (List.last (r :: rs) r).1
  end.

(** [strings.ToLower] on ASCII text. *)
Definition lower_char (c : ascii) : ascii := if is_upper c then chr (byte_val c + 32) else c.

Definition ToLower (s : string) : string := of_list (map lower_char (str_list s)).

Lemma lower_char_idem c : lower_char (lower_char c) = lower_char c.
Proof.
  unfold lower_char. destruct (is_upper c) eqn:E; [|by rewrite E].
  assert (H : is_upper (chr (byte_val c + 32)) = false).
  { unfold is_upper, between in *. rewrite byte_val_chr by lia. lia. }
  by rewrite H.
Qed.

Lemma ToLower_idem s : ToLower (ToLower s) = ToLower s.
Proof.
  unfold ToLower. rewrite str_list_of_list, map_map. f_equal. apply map_ext, lower_char_idem.
Qed.

(** ASCII text is valid UTF-8. *)
Lemma ascii_valid s :
  (∀ c, c ∈ str_list s → byte_val c < 128) → ValidString s = true.
Proof.
  unfold ValidString. generalize (str_list s). intros l. induction l as [|c l IH]; intros H; [done|].
  cbn [runes]. assert (byte_val c < 128) by (apply H; left).
  assert (byte_val c <? 128 = true) as -> by (by apply Z.ltb_lt). simpl. apply IH.
  intros d Hd. apply H. by right.
Qed.
