(* ===== verification/Mailbox.v ===== *)
(** * Mailboxes and routing domains (src/internal/mailbox/mailbox.go)

    The IDNA profile (golang.org/x/net/idna) is a parameter: [ToASCII] is
    [idnaProfile.ToASCII].  [Address] and [CanonicalAddress], which parse RFC 5322
    text first, are in Users.v. *)

From S2P Require Import Prelude Errors GoLib Utf8.
Open Scope Z_scope.

Definition ErrEmptyDomain : error := Message "empty domain".
Definition ErrInvalidUTF8 : error := Message "invalid utf-8 domain".
Definition ErrInvalidDomain : error := Message "invalid domain".
Definition ErrDomainLabel : error := Message "invalid DNS label".
Definition ErrDomainLength : error := Message "domain too long".
Definition ErrLocalLength : error := Message "local part too long".
Definition ErrMailboxLength : error := Message "mailbox too long".

Definition maxLocalOctets : Z := 64.
Definition maxMailboxOctets : Z := 254.

Section mailbox.
Variable ToASCII : string → res string.

Definition bad_label (label : string) : bool :=
  bool_decide (label = "") || (63 <? str_len label).

Definition asciiDomain (domain : string) (requireFQDN : bool) : res string :=
  reject bool_decide (domain = "") with ErrEmptyDomain in
  reject negb (ValidString domain) with ErrInvalidUTF8 in
  reject has_outer_space domain with ErrInvalidDomain in
  reject HasPrefix domain "." || HasSuffix domain "." || Contains domain ".."
    with ErrDomainLabel in
  match ToASCII domain with
  | Err e => Err (Wrap "idna" ErrInvalidDomain)
  | Ok ascii =>
      let ascii := ToLower ascii in
      reject bool_decide (ascii = "") with ErrEmptyDomain in
      reject 253 <? str_len ascii with ErrDomainLength in
      let labels := Split ascii 46 in
      reject requireFQDN && (Z.of_nat (length labels) <? 2) with ErrDomainLabel in
      reject existsb bad_label labels with ErrDomainLabel in
      Ok ascii
  end.

Definition RoutingDomain (domain : string) : res string := asciiDomain domain true.

(** [addr[at+1:]]. *)
Definition after_at (addr : string) (at_ : Z) : string := str_drop (Z.to_nat (at_ + 1)) addr.

Definition DomainOf (addr : string) : res string :=
  let at_ := LastIndexByte addr 64 in
  reject (at_ <=? 0) || (at_ =? str_len addr - 1) with ErrEmptyDomain in
  RoutingDomain (after_at addr at_).

Definition ValidateAddress (addr : string) : res unit :=
  reject negb (ValidString addr) with ErrInvalidUTF8 in
  reject maxMailboxOctets <? str_len addr with ErrMailboxLength in
  let at_ := LastIndexByte addr 64 in
  reject (at_ <=? 0) || (at_ =? str_len addr - 1) with ErrEmptyDomain in
  reject maxLocalOctets <? at_ with ErrLocalLength in
  let domain := after_at addr at_ in
  if HasPrefix domain "[" && HasSuffix domain "]" then
    reject 255 <? str_len domain with ErrDomainLength in
    Ok tt
  else
    let? _ := asciiDomain domain false in
    Ok tt.

(** A routing domain is a lower-case name of at least two labels, each of one
    to 63 octets, and at most 253 octets in all. *)
Definition dns_name (fqdn : bool) (d : string) : Prop :=
  d ≠ "" ∧ ToLower d = d ∧ str_len d ≤ 253 ∧
  (fqdn = true → 2 ≤ Z.of_nat (length (Split d 46))) ∧
  Forall (λ l, l ≠ "" ∧ str_len l ≤ 63) (Split d 46).

Lemma bad_label_false l : bad_label l = false ↔ l ≠ "" ∧ str_len l ≤ 63.
Proof.
  unfold bad_label. rewrite orb_false_iff, bool_decide_eq_false, Z.ltb_ge. done.
Qed.

Lemma asciiDomain_name d fqdn a :
  asciiDomain d fqdn = Ok a → dns_name fqdn a.
Proof.
  unfold asciiDomain. intros H.
  repeat (case_match; [done|]). case_match; [|done].
  repeat (case_match; [done|]). simplify_eq. zbool.
  split_and!; [done|apply ToLower_idem|done| |].
  - intros ->. simpl in *. by zbool.
  - apply Forall_forall. intros l Hl. apply bad_label_false.
    destruct (bad_label l) eqn:E; [|done]. exfalso.
    match goal with H : existsb _ _ = false |- _ => revert H end.
    apply not_false_iff_true, existsb_exists. exists l. split; [|done].
    by apply list_elem_of_In.
Qed.

(** A mailbox [ValidateAddress] accepts has a local part of 1 to 64 octets and
    fits 254 octets. *)
Lemma ValidateAddress_bounds addr :
  ValidateAddress addr = Ok tt →
  let at_ := LastIndexByte addr 64 in
  0 < at_ ≤ 64 ∧ at_ < str_len addr - 1 ≤ 253.
Proof.
  unfold ValidateAddress. intros H.
  repeat (case_match; [done|]). zbool.
  assert (LastIndexByte addr 64 < str_len addr).
  { unfold LastIndexByte in *. destruct (last_index 64 (str_list addr)) as [i|] eqn:E; [|lia].
    apply last_index_Some in E as (c & Hc & _). rewrite str_len_list.
    apply lookup_lt_Some in Hc. lia. }
  unfold maxLocalOctets, maxMailboxOctets in *. split; lia.
Qed.
End mailbox.

(** ** The profile's documented behaviour

    [ToASCII] with [StrictDomainName] produces letters, digits, hyphens and
    dots, and maps a lower-case A-label name to itself. *)

Definition host_char (c : ascii) : bool := is_alnum c || is_char 45 c || is_char 46 c.

Class IdnaProfile (ToASCII : string → res string) := {
  idna_host : ∀ d a, ToASCII d = Ok a → forallb host_char (str_list a) = true;
  idna_idem : ∀ d a, ToASCII d = Ok a → ToASCII (ToLower a) = Ok (ToLower a)
}.

Lemma dot_is_char c : bool_decide ("."%char = c) = is_char 46 c.
Proof.
  unfold is_char. case_bool_decide as Hc; symmetry; [by subst|].
  apply Z.eqb_neq. intros Hb. apply Hc. by apply byte_val_inj.
Qed.

Lemma split_list_head b l : ∃ w ws, split_list b l = w :: ws.
Proof. destruct l as [|c l]; simpl; [eauto|]. destruct (is_char b c); [eauto|]. case_match; eauto. Qed.

(** Labels that are not empty, the first one aside, leave no dot at the end and
    no two in a row. *)
Lemma split_dots l :
  Forall (λ x, x ≠ []) (tail (split_list 46 l)) →
  is_prefix ["."%char] (rev l) = false ∧ index_list ["."%char; "."%char] l = None.
Proof.
  induction l as [|c l IH]; [done|]. intros Hf. cbn [split_list] in Hf.
  assert (Hrev : is_prefix ["."%char] (rev l) = false → (l = [] → is_char 46 c = false) →
                 is_prefix ["."%char] (rev (c :: l)) = false).
  { simpl. destruct (rev l) as [|d r] eqn:Er; simpl.
    - intros _ Hl. rewrite dot_is_char, Hl; [done|]. by destruct l as [|? ?]; [|simpl in Er; destruct (rev l)].
    - done. }
  destruct (split_list_head 46 l) as (w & ws & Hs). rewrite Hs in Hf.
  assert (Hl : Forall (λ x, x ≠ []) (tail (split_list 46 l))).
  { rewrite Hs. destruct (is_char 46 c); simpl in *; [by inversion Hf|done]. }
  destruct (IH Hl) as [H1 H2]. cbn [index_list]. rewrite H2. cbn [is_prefix].
  rewrite dot_is_char. destruct (is_char 46 c) eqn:Ec.
  - inversion Hf as [|? ? Hw _]; subst. destruct l as [|d l']; [simpl in Hs; congruence|].
    cbn [split_list] in Hs. rewrite dot_is_char.
    destruct (is_char 46 d); [congruence|]. split; [|done]. apply Hrev; [done|by intros].
  - split; [|done]. by apply Hrev.
Qed.

Section idna.
Context (ToASCII : string → res string) `{!IdnaProfile ToASCII}.

Lemma host_lower a : forallb host_char (str_list a) = true →
  ∀ c, c ∈ str_list (ToLower a) → byte_val c < 128 ∧ IsSpace (byte_val c) = false.
Proof.
  intros Ha c. unfold ToLower. rewrite str_list_of_list. intros (d & -> & Hd)%list_elem_of_fmap.
  rewrite forallb_forall in Ha. specialize (Ha d (proj1 (list_elem_of_In _ _) Hd)).
  unfold host_char, is_alnum, is_upper, is_lower, is_digit, between, is_char in Ha.
  unfold lower_char, is_upper, between.
  destruct ((65 <=? byte_val d) && (byte_val d <=? 90)) eqn:Eu.
  - rewrite byte_val_chr by lia. split; [lia|].
    unfold IsSpace, in_ranges, in_range. simpl. lia.
  - split; [lia|]. unfold IsSpace, in_ranges, in_range. simpl. lia.
Qed.

(** ASCII text without white space has none at its ends. *)
Lemma no_outer_space s :
  (∀ c, c ∈ str_list s → byte_val c < 128 ∧ IsSpace (byte_val c) = false) →
  has_outer_space s = false.
Proof.
  unfold has_outer_space. generalize (str_list s). intros l Hl.
  assert (Hr : ∀ r, r ∈ runes l → IsSpace r.1 = false).
  { clear -Hl. induction l as [|c l IH]; intros r Hr; [by apply elem_of_nil in Hr|].
    destruct (Hl c) as [H1 H2]; [left|]. cbn [runes] in Hr.
    assert (byte_val c <? 128 = true) as Hlt by (by apply Z.ltb_lt). rewrite Hlt in Hr.
    apply elem_of_cons in Hr as [->|Hr]; [done|]. apply IH; [|done].
    intros d Hd. apply Hl. by right. }
  destruct (runes l) as [|r rs]; [done|]. rewrite Hr by left. cbn [orb].
  apply Hr. apply list_elem_of_In. destruct (exists_last (l:=r :: rs)) as (x & y & Hx); [done|].
  rewrite Hx, last_last. apply in_or_app. right. by left.
Qed.

(** A routing domain is a fixed point. *)
Lemma asciiDomain_idem d fqdn a : asciiDomain ToASCII d fqdn = Ok a → asciiDomain ToASCII a fqdn = Ok a.
Proof.
  unfold asciiDomain at 1. intros H.
  do 4 (case_match; [done|]). destruct (ToASCII d) as [x|] eqn:Hx; [|done].
  destruct (bool_decide (ToLower x = "")) eqn:E1; [done|].
  destruct (253 <? str_len (ToLower x)) eqn:E2; [done|].
  destruct (fqdn && _) eqn:E3; [done|].
  destruct (existsb bad_label (Split (ToLower x) 46)) eqn:E4; [done|]. injection H as <-.
  pose proof (host_lower x (idna_host _ _ Hx)) as Hc.
  unfold asciiDomain. rewrite E1. rewrite ascii_valid by (intros; by apply Hc). cbn [negb].
  rewrite no_outer_space by done.
  assert (Hlab : Forall (λ l, l ≠ []) (split_list 46 (str_list (ToLower x)))).
  { apply Forall_forall. intros l Hl ->. apply not_true_iff_false in E4. apply E4.
    apply existsb_exists. exists "". split; [|done].
    apply list_elem_of_In. unfold Split. apply list_elem_of_fmap. by exists []. }
  destruct (split_list_head 46 (str_list (ToLower x))) as (w & ws & Hs).
  rewrite Hs in Hlab. inversion Hlab as [|? ? Hw Hws]; subst.
  destruct (split_dots (str_list (ToLower x))) as [Hsuf Hdd]; [by rewrite Hs|].
  assert (HasPrefix (ToLower x) "." || HasSuffix (ToLower x) "." || Contains (ToLower x) ".."
          = false) as ->.
  { unfold HasPrefix, HasSuffix, Contains. cbn [str_list String.list_ascii_of_string rev app].
    rewrite Hsuf, Hdd. rewrite bool_decide_eq_false_2 by (by intros [? ?]).
    destruct (str_list (ToLower x)) as [|c l]; [done|]. cbn [is_prefix].
    rewrite dot_is_char. cbn [split_list] in Hs. destruct (is_char 46 c); [|done].
    injection Hs as <- _. done. }
  rewrite (idna_idem _ _ Hx), ToLower_idem, E1, E2, E3, E4. done.
Qed.
End idna.

(** A profile that accepts ASCII host names as they are. *)
Definition sampleIDNA (d : string) : res string :=
  if forallb host_char (str_list d) then Ok d else Err (Message "idna: disallowed rune").

Lemma host_char_lower c : host_char c = true → host_char (lower_char c) = true.
Proof.
  unfold lower_char. destruct (is_upper c) eqn:Eu; [|done]. intros _.
  unfold host_char, is_alnum, is_upper, is_lower, between in *. rewrite byte_val_chr by lia. lia.
Qed.

#[export] Instance sampleIDNA_profile : IdnaProfile sampleIDNA.
Proof.
  assert (Hh : ∀ d a, sampleIDNA d = Ok a → forallb host_char (str_list a) = true).
  { unfold sampleIDNA. intros d a. destruct (forallb _ _) eqn:Hf; [|done]. by intros [= <-]. }
  constructor; [exact Hh|]. intros d a Ha%Hh. unfold sampleIDNA.
  assert (forallb host_char (str_list (ToLower a)) = true) as ->; [|done].
  unfold ToLower. rewrite str_list_of_list. rewrite forallb_forall in *.
  intros c (x & <- & Hx)%in_map_iff. by apply host_char_lower, Ha.
Qed.
