(* ===== verification/Text.v ===== *)
(** * Byte slices and text (bytes, strings)

    The functions of Go's [bytes] and [strings] packages the message, session
    and delivery code uses, on byte sequences.  [EqualFold] and [ToLower] need
    Unicode's case tables: [CaseTables] states what holds on ASCII text. *)

From S2P Require Import Prelude GoLib Utf8.
Open Scope Z_scope.

Abbreviation bytes := (list ascii) (only parsing).

Definition CR : ascii := chr 13.
Definition LF : ascii := chr 10.
Definition HT : ascii := chr 9.
Definition SP : ascii := chr 32.
Definition crlf : bytes := [CR; LF].

(** ** Searching *)

(** [bytes.IndexByte]. *)
Fixpoint index_byte (b : Z) (l : bytes) : option nat :=
  match l with
  | [] => None
  | c :: l => if is_char b c then Some 0%nat else S <$> index_byte b l
  end.

(** [bytes.Cut(l, sep)] and [strings.Cut] for a one-byte separator. *)
Definition cut_byte (b : Z) (l : bytes) : bytes * bytes * bool :=
  match index_byte b l with
  | Some i => (take i l, drop (S i) l, true)
  | None => (l, [], false)
  end.

(** [bytes.HasSuffix]. *)
Definition has_suffix (s l : bytes) : bool := is_prefix (rev s) (rev l).

(** [bytes.ReplaceAll(l, crlf, nil)]. *)
Fixpoint remove_crlf (l : bytes) : bytes :=
  match l with
  | [] => []
  | c :: l' =>
      match l' with
      | d :: l'' =>
          if is_char 13 c && is_char 10 d then remove_crlf l'' else c :: remove_crlf l'
      | [] => [c]
      end
  end.

(** ** Trimming *)

(** [utf8.RuneLen], for the runes a valid sequence decodes to. *)
Definition RuneLen (r : Z) : nat :=
  if r <? 128 then 1 else if r <? 2048 then 2 else if r <? 65536 then 3 else 4.

(** Bytes a decoded rune took: an invalid byte stands for itself. *)
Definition rune_bytes (r : Z * bool) : nat := if r.2 then RuneLen r.1 else 1.

Definition width (rs : list (Z * bool)) : nat := list_sum (rune_bytes <$> rs).

Fixpoint leading_space (rs : list (Z * bool)) : list (Z * bool) :=
  match rs with
  | [] => []
  | r :: rs => if IsSpace r.1 then r :: leading_space rs else []
  end.

(** [bytes.TrimSpace]: UTF-8 is self-synchronising, so the trailing runes are
    the last ones of the decoded sequence. *)
Definition trim_space (l : bytes) : bytes :=
  let rs := runes l in
  let lead := leading_space rs in
  let trail := leading_space (rev (drop (length lead) rs)) in
  let rest := drop (width lead) l in
  take (length rest - width trail) rest.

Definition TrimSpace (s : string) : string := of_list (trim_space (str_list s)).

(** ** Unicode case *)

(** [strings.EqualFold], [strings.ToLower] and [strings.ToUpper]: on ASCII text they act on the 26
    letters only; lower-case text has no upper-case ASCII letter left. *)
Definition is_ascii (s : string) : bool := forallb (λ c, byte_val c <? 128) (str_list s).

(** [strings.ToUpper] on ASCII text. *)
Definition upper_char (c : ascii) : ascii := if is_lower c then chr (byte_val c - 32) else c.

Definition ToUpper (s : string) : string := of_list (map upper_char (str_list s)).

(** An ASCII control other than the tab. *)
Definition is_control (c : ascii) : bool :=
  is_char 127 c || ((byte_val c <? 32) && negb (is_char 9 c)).

Class CaseTables := {
  EqualFold : string → string → bool;
  ToLowerText : string → string;
  ToUpperText : string → string;
  fold_refl : ∀ s, EqualFold s s = true;
  fold_ascii : ∀ s t, is_ascii s = true → is_ascii t = true →
    EqualFold s t = bool_decide (ToLower s = ToLower t);
  lower_ascii : ∀ s, is_ascii s = true → ToLowerText s = ToLower s;
  lower_fixed : ∀ s, ToLower (ToLowerText s) = ToLowerText s;
  upper_ascii : ∀ s, is_ascii s = true → ToUpperText s = ToUpper s;
  lower_controls : ∀ s, existsb is_control (str_list s) = false →
    existsb is_control (str_list (ToLowerText s)) = false
}.

Lemma lower_char_control c : is_control (lower_char c) = is_control c.
Proof.
  unfold lower_char. destruct (is_upper c) eqn:Eu; [|done].
  unfold is_upper, between in Eu. unfold is_control, is_char. rewrite byte_val_chr by lia. lia.
Qed.

Lemma ToLower_controls s : existsb is_control (str_list (ToLower s)) = existsb is_control (str_list s).
Proof.
  unfold ToLower. rewrite str_list_of_list. induction (str_list s) as [|c l IH]; [done|]. simpl.
  by rewrite IH, lower_char_control.
Qed.

(** ASCII-only tables meet the laws. *)
#[export] Program Instance asciiTables : CaseTables | 100 := {
  EqualFold s t := bool_decide (ToLower s = ToLower t);
  ToLowerText := ToLower;
  ToUpperText := ToUpper
}.
Next Obligation. intros s. by apply bool_decide_eq_true. Qed.
Next Obligation. done. Qed.
Next Obligation. done. Qed.
Next Obligation. intros s. apply ToLower_idem. Qed.
Next Obligation. done. Qed.
Next Obligation. intros s Hs. by rewrite ToLower_controls. Qed.

(** ** Lemmas *)

Lemma is_char_eq z c : is_char z c = true ↔ c = chr z ∧ 0 ≤ z < 256.
Proof.
  rewrite is_char_true. split.
  - intros <-. split; [by rewrite chr_byte_val|apply byte_val_range].
  - intros [-> Hz]. by apply byte_val_chr.
Qed.

Lemma is_char_chr z c : 0 ≤ z < 256 → is_char z c = bool_decide (c = chr z).
Proof.
  intros Hz. case_bool_decide as Hc; [by apply is_char_eq|].
  apply not_true_iff_false. intros [? _]%is_char_eq. done.
Qed.

Lemma index_byte_Some b l i :
  index_byte b l = Some i →
  ∃ c, l !! i = Some c ∧ byte_val c = b ∧ ∀ d, d ∈ take i l → byte_val d ≠ b.
Proof.
  revert i. induction l as [|c l IH]; intros i; [done|]. simpl.
  destruct (is_char b c) eqn:Ec.
  - intros [= <-]. apply is_char_true in Ec. exists c. split_and!; [done|done|].
    intros d Hd. by apply elem_of_nil in Hd.
  - destruct (index_byte b l) as [k|]; [|done]. intros [= <-].
    destruct (IH k eq_refl) as (d & Hd & Hb & Hk). exists d. split_and!; [done|done|].
    intros e. rewrite firstn_cons. intros [->|He]%elem_of_cons; [|by apply Hk].
    unfold is_char in Ec. lia.
Qed.

Lemma index_byte_None b l : index_byte b l = None ↔ ∀ c, c ∈ l → byte_val c ≠ b.
Proof.
  induction l as [|c l IH]; simpl.
  - split; [|done]. intros _ c Hc. by apply elem_of_nil in Hc.
  - destruct (is_char b c) eqn:Ec.
    + split; [done|]. intros H. apply is_char_true in Ec. exfalso. by apply (H c); [left|].
    + assert (byte_val c ≠ b) by (unfold is_char in Ec; lia).
      destruct (index_byte b l) as [k|]; simpl.
      * split; [done|]. intros H'. exfalso. destruct IH as [_ IH].
        discriminate IH. intros d Hd. apply H'. by right.
      * split; [|done]. intros _ d [->|Hd]%elem_of_cons; [done|]. by apply IH.
Qed.

Lemma index_byte_app b l k c :
  byte_val c = b → (∀ d, d ∈ l → byte_val d ≠ b) → index_byte b (l ++ c :: k) = Some (length l).
Proof.
  intros Hc. induction l as [|d l IH]; intros Hl; simpl.
  - by apply is_char_true in Hc as ->.
  - assert (is_char b d = false) as ->.
    { unfold is_char. apply Z.eqb_neq. apply Hl. left. }
    rewrite IH; [done|]. intros e He. apply Hl. by right.
Qed.

Lemma split_list_sep b l c k :
  (∀ x, x ∈ l → byte_val x ≠ b) → byte_val c = b → split_list b (l ++ c :: k) = l :: split_list b k.
Proof.
  intros Hl Hc. induction l as [|x l IH]; cbn [app split_list].
  - by rewrite (proj2 (is_char_true b c) Hc).
  - assert (is_char b x = false) as ->.
    { apply not_true_iff_false. intros E%is_char_true. by apply (Hl x); [left|]. }
    by rewrite IH by (intros y Hy; apply Hl; by right).
Qed.

Lemma trim_space_elem c l : c ∈ trim_space l → c ∈ l.
Proof.
  unfold trim_space. intros H. apply elem_of_take in H as (i & Hi & _).
  rewrite lookup_drop in Hi. by eapply list_elem_of_lookup_2.
Qed.

Lemma remove_crlf_cons2 c d l :
  remove_crlf (c :: d :: l) =
  if is_char 13 c && is_char 10 d then remove_crlf l else c :: remove_crlf (d :: l).
Proof. done. Qed.

Lemma remove_crlf_elem l : ∀ c, c ∈ remove_crlf l → c ∈ l.
Proof.
  cut (∀ n l, (length l ≤ n)%nat → ∀ c, c ∈ remove_crlf l → c ∈ l); [by eauto|].
  induction n as [|n IH]; intros [|c [|d l']] Hn e He; try done; simpl in Hn; [lia|].
  rewrite remove_crlf_cons2 in He. destruct (is_char 13 c && is_char 10 d).
  - apply IH in He; [|lia]. by do 2 right.
  - apply elem_of_cons in He as [->|He]; [left|]. right. apply IH in He; [done|]. simpl. lia.
Qed.

Lemma is_prefix_app p l : is_prefix p (p ++ l) = true.
Proof. induction p as [|c p IH]; simpl; [done|]. by rewrite bool_decide_eq_true_2. Qed.

Lemma is_prefix_true p l : is_prefix p l = true ↔ ∃ k, l = p ++ k.
Proof.
  split; [|intros [k ->]; apply is_prefix_app].
  revert l. induction p as [|c p IH]; intros l H; simpl in H; [by eexists|].
  destruct l as [|d l]; [done|]. apply andb_true_iff in H as [H1 H2].
  apply bool_decide_eq_true in H1 as ->. apply IH in H2 as [k ->]. by exists k.
Qed.

Lemma has_suffix_true s l : has_suffix s l = true ↔ ∃ k, l = k ++ s.
Proof.
  unfold has_suffix. rewrite is_prefix_true. split.
  - intros [k Hk]. exists (rev k). rewrite <-(rev_involutive l), Hk, rev_app_distr, rev_involutive.
    done.
  - intros [k ->]. exists (rev k). apply rev_app_distr.
Qed.

Lemma index_list_Some s l i :
  index_list s l = Some i →
  ∃ k, l = take i l ++ s ++ k ∧ ∀ j, (j < i)%nat → is_prefix s (drop j l) = false.
Proof.
  revert i. induction l as [|c l IH]; intros i; simpl.
  - destruct (is_prefix s []) eqn:Ep; [|done]. intros [= <-].
    apply is_prefix_true in Ep as [k Hk]. exists k. split; [done|]. lia.
  - destruct (is_prefix s (c :: l)) eqn:Ep.
    + intros [= <-]. apply is_prefix_true in Ep as [k Hk]. exists k. split; [done|]. lia.
    + destruct (index_list s l) as [n|]; [|done]. intros [= <-].
      destruct (IH n eq_refl) as (k & Hk & Hj). exists k. split.
      * rewrite firstn_cons. simpl. by rewrite <-Hk.
      * intros [|j] Hlt; [done|]. apply Hj. lia.
Qed.

Lemma index_list_None s l :
  index_list s l = None → ∀ j, (j ≤ length l)%nat → is_prefix s (drop j l) = false.
Proof.
  induction l as [|c l IH]; simpl; intros H j Hj.
  - destruct (is_prefix s []) eqn:Ep; [done|]. assert (j = 0)%nat as -> by lia. done.
  - destruct (is_prefix s (c :: l)) eqn:Ep; [done|].
    destruct (index_list s l); [done|]. destruct j as [|j]; [done|]. apply IH; [done|lia].
Qed.

Lemma index_list_first s l i k :
  l = take i l ++ s ++ k → (i ≤ length l)%nat →
  (∀ j, (j < i)%nat → is_prefix s (drop j l) = false) → index_list s l = Some i.
Proof.
  revert i. induction l as [|c l IH]; intros i Hl Hi Hj.
  - simpl in Hi. assert (i = 0)%nat as -> by lia. simpl in *.
    assert (is_prefix s [] = true) as -> by (apply is_prefix_true; eauto). done.
  - destruct i as [|i].
    + simpl in Hl. cbn [index_list].
      assert (is_prefix s (c :: l) = true) as -> by (apply is_prefix_true; eauto). done.
    + cbn [index_list]. pose proof (Hj 0%nat) as H0. simpl in H0. rewrite H0 by lia.
      rewrite firstn_cons in Hl. injection Hl as Hl.
      rewrite (IH i); [done|done|simpl in Hi; lia|]. intros j Hlt. apply (Hj (S j)). lia.
Qed.

Lemma width_rev rs : width (rev rs) = width rs.
Proof.
  assert (Hcons : ∀ x k, width (x :: k) = (rune_bytes x + width k)%nat) by done.
  assert (Happ : ∀ a b, width (a ++ b) = (width a + width b)%nat).
  { intros a b. unfold width. by rewrite fmap_app, list_sum_app. }
  induction rs as [|r rs IH]; [done|]. cbn [rev]. rewrite Happ, !Hcons, IH. unfold width at 2. simpl. lia.
Qed.
