(* ===== verification/Base64.v ===== *)
(** * Base64 (encoding/base64)

    The standard alphabet with and without padding, as password hashes and DKIM
    records use it.  The decoder skips line ends and is not strict about the unused
    bits of the last character, as Go's is by default. *)

From S2P Require Import Prelude GoLib Utf8 Text.
Open Scope Z_scope.

Definition alphabet : list ascii :=
  str_list "ABCDEFGHIJKLMNOPQRSTUVWXYZabcdefghijklmnopqrstuvwxyz0123456789+/".

Definition sextet_char (v : Z) : ascii := default (chr 0) (alphabet !! Z.to_nat v).

Definition char_sextet (c : ascii) : option Z :=
  let b := byte_val c in
  if is_upper c then Some (b - 65)
  else if is_lower c then Some (b - 71)
  else if is_digit c then Some (b + 4)
  else if b =? 43 then Some 62
  else if b =? 47 then Some 63
  else None.

(** [val>>n&0x3F] and the assembly of a group. *)
Definition sextet (val n : Z) : Z := Z.land (Z.shiftr val n) 63.

Definition group3 (a b c : ascii) : Z :=
  Z.lor (Z.lor (Z.shiftl (byte_val a) 16) (Z.shiftl (byte_val b) 8)) (byte_val c).

(** [EncodeToString]; [pad] is what completes a short group: a padding character or
    nothing. *)
Fixpoint base64_encode (pad : list ascii) (l : bytes) : bytes :=
  match l with
  | a :: b :: c :: l =>
      let v := group3 a b c in
      sextet_char (sextet v 18) :: sextet_char (sextet v 12) :: sextet_char (sextet v 6)
        :: sextet_char (sextet v 0) :: base64_encode pad l
  | [a; b] =>
      let v := group3 a b (chr 0) in
      sextet_char (sextet v 18) :: sextet_char (sextet v 12) :: sextet_char (sextet v 6) :: pad
  | [a] =>
      let v := group3 a (chr 0) (chr 0) in
      sextet_char (sextet v 18) :: sextet_char (sextet v 12) :: pad ++ pad
  | [] => []
  end.

Definition raw_encode : bytes → bytes := base64_encode [].
Definition std_encode : bytes → bytes := base64_encode [chr 61].

Definition group4 (w x y z : Z) : Z :=
  Z.lor (Z.lor (Z.lor (Z.shiftl w 18) (Z.shiftl x 12)) (Z.shiftl y 6)) z.

Definition octet (val n : Z) : ascii := chr (Z.land (Z.shiftr val n) 255).

Definition is_newline (c : ascii) : bool := is_char 10 c || is_char 13 c.

(** [DecodeString] on the characters that are not line ends. *)
Fixpoint base64_decode (padded : bool) (l : bytes) : option bytes :=
  match l with
  | [] => Some []
  | a :: b :: l =>
      match char_sextet a, char_sextet b with
      | Some w, Some x =>
          let short2 := [octet (group4 w x 0 0) 16] in
          match l with
          | [] => if padded then None else Some short2
          | c :: l =>
              match char_sextet c with
              | Some y =>
                  let v3 := group4 w x y 0 in
                  match l with
                  | [] => if padded then None else Some [octet v3 16; octet v3 8]
                  | d :: l =>
                      match char_sextet d with
                      | Some z =>
                          let v := group4 w x y z in
                          (λ rest, octet v 16 :: octet v 8 :: octet v 0 :: rest) <$> base64_decode padded l
                      | None =>
                          if padded && is_char 61 d && bool_decide (l = [])
                          then Some [octet v3 16; octet v3 8] else None
                      end
                  end
              | None =>
                  match l with
                  | [d] => if padded && is_char 61 c && is_char 61 d then Some short2 else None
                  | _ => None
                  end
              end
          end
      | _, _ => None
      end
  | [_] => None
  end.

Definition raw_decode (l : bytes) : option bytes := base64_decode false (filter (λ c, is_newline c = false) l).
Definition std_decode (l : bytes) : option bytes := base64_decode true (filter (λ c, is_newline c = false) l).

(** [Encoding.EncodedLen] without padding. *)
Definition EncodedLen (n : Z) : Z := n / 3 * 4 + (n mod 3 * 8 + 5) / 6.

(** ** Decoding inverts encoding *)

Lemma shiftl_lor a b n : 0 ≤ n → 0 ≤ b < 2 ^ n → Z.lor (Z.shiftl a n) b = a * 2 ^ n + b.
Proof.
  intros Hn Hb. rewrite <-Z.add_nocarry_lor; [by rewrite Z.shiftl_mul_pow2|].
  apply Z.bits_inj'. intros i Hi. rewrite Z.land_spec, Z.bits_0.
  destruct (Z.ltb_spec i n) as [Hlt|Hge].
  - by rewrite Z.shiftl_spec_low.
  - assert (Z.testbit b i = false) as ->; [|apply andb_false_r].
    rewrite <-(Z.mod_small b (2 ^ n)) by lia. apply Z.mod_pow2_bits_high. lia.
Qed.

Lemma group3_value a b c : group3 a b c = byte_val a * 65536 + byte_val b * 256 + byte_val c.
Proof.
  unfold group3. pose proof (byte_val_range a). pose proof (byte_val_range b). pose proof (byte_val_range c).
  assert (Hs : Z.lor (Z.shiftl (byte_val a) 16) (Z.shiftl (byte_val b) 8)
               = Z.shiftl (byte_val a * 256 + byte_val b) 8).
  { rewrite (Z.shiftl_mul_pow2 (byte_val b)), shiftl_lor, Z.shiftl_mul_pow2 by lia. lia. }
  rewrite Hs, shiftl_lor by lia. lia.
Qed.

Lemma group4_value w x y z : 0 ≤ x < 64 → 0 ≤ y < 64 → 0 ≤ z < 64 →
  group4 w x y z = w * 262144 + x * 4096 + y * 64 + z.
Proof.
  intros Hx Hy Hz. unfold group4.
  rewrite (Z.shiftl_mul_pow2 x), shiftl_lor by lia.
  assert (w * 2 ^ 18 + x * 2 ^ 12 = Z.shiftl (w * 64 + x) 12) as -> by (rewrite Z.shiftl_mul_pow2; lia).
  rewrite (Z.shiftl_mul_pow2 y), shiftl_lor by lia.
  assert ((w * 64 + x) * 2 ^ 12 + y * 2 ^ 6 = Z.shiftl ((w * 64 + x) * 64 + y) 6) as ->
    by (rewrite Z.shiftl_mul_pow2; lia).
  rewrite shiftl_lor by lia. lia.
Qed.

Lemma sextet_value v n : 0 ≤ n → sextet v n = v / 2 ^ n mod 64.
Proof. intros Hn. unfold sextet. rewrite Z.shiftr_div_pow2 by done. by rewrite (Z.land_ones _ 6). Qed.

Lemma octet_value v n : 0 ≤ n → octet v n = chr (v / 2 ^ n mod 256).
Proof. intros Hn. unfold octet. rewrite Z.shiftr_div_pow2 by done. by rewrite (Z.land_ones _ 8). Qed.

Lemma char_sextet_char v : 0 ≤ v < 64 → char_sextet (sextet_char v) = Some v ∧ is_newline (sextet_char v) = false.
Proof.
  intros Hv. assert (Ha : forallb (λ n, bool_decide (char_sextet (sextet_char (Z.of_nat n)) = Some (Z.of_nat n))
     && negb (is_newline (sextet_char (Z.of_nat n)))) (seq 0 64) = true) by (vm_compute; reflexivity).
  rewrite forallb_forall in Ha. specialize (Ha (Z.to_nat v) ltac:(apply in_seq; lia)).
  rewrite Z2Nat.id in Ha by lia. apply andb_true_iff in Ha as [Ha Hb].
  by apply bool_decide_eq_true in Ha; apply negb_true_iff in Hb.
Qed.

Lemma sextet_range v n : 0 ≤ n → 0 ≤ sextet v n < 64.
Proof. intros Hn. rewrite sextet_value by done. apply Z.mod_pos_bound. lia. Qed.

Lemma sextet_back v n : 0 ≤ n → char_sextet (sextet_char (sextet v n)) = Some (sextet v n).
Proof. intros Hn. by apply char_sextet_char, sextet_range. Qed.

Lemma regroup v : 0 ≤ v < 16777216 →
  group4 (sextet v 18) (sextet v 12) (sextet v 6) (sextet v 0) = v.
Proof.
  intros Hv. rewrite group4_value by (apply sextet_range; lia). rewrite !sextet_value by lia.
  change (2 ^ 18) with 262144. change (2 ^ 12) with 4096. change (2 ^ 6) with 64. change (2 ^ 0) with 1.
  Z.to_euclidean_division_equations. lia.
Qed.

(** The last groups: the unused low bits of the last character are zero. *)
Lemma short_sextets a b :
  sextet (group3 a b (chr 0)) 0 = 0 ∧
  (byte_val b = 0 → sextet (group3 a b (chr 0)) 6 = 0).
Proof.
  pose proof (byte_val_range a). pose proof (byte_val_range b).
  rewrite !sextet_value, group3_value, byte_val_chr by lia.
  change (2 ^ 0) with 1. change (2 ^ 6) with 64.
  split; [|intros ->]; Z.to_euclidean_division_equations; lia.
Qed.

Lemma octets_back a b c :
  octet (group3 a b c) 16 = a ∧ octet (group3 a b c) 8 = b ∧ octet (group3 a b c) 0 = c.
Proof.
  rewrite !octet_value by lia. rewrite group3_value.
  pose proof (byte_val_range a). pose proof (byte_val_range b). pose proof (byte_val_range c).
  split_and!; apply byte_val_inj; (rewrite byte_val_chr by (apply Z.mod_pos_bound; lia));
    change (2 ^ 16) with 65536; change (2 ^ 8) with 256; change (2 ^ 0) with 1;
    Z.to_euclidean_division_equations; lia.
Qed.

Lemma group3_range a b c : 0 ≤ group3 a b c < 16777216.
Proof.
  rewrite group3_value. pose proof (byte_val_range a). pose proof (byte_val_range b).
  pose proof (byte_val_range c). lia.
Qed.

Definition padding (padded : bool) : bytes := if padded then [chr 61] else [].

Lemma base64_decode_encode padded l :
  base64_decode padded (base64_encode (padding padded) l) = Some l.
Proof.
  remember (length l) as n eqn:Hn. revert l Hn. induction (lt_wf n) as [n _ IH]. intros l ->.
  destruct l as [|a [|b [|c l]]]; [done| | |]; cbn [base64_encode].
  - set (v := group3 a (chr 0) (chr 0)).
    destruct (short_sextets a (chr 0)) as [E0 E6]. specialize (E6 eq_refl).
    pose proof (regroup v (group3_range _ _ _)) as Hv. fold v in E0, E6. rewrite E0, E6 in Hv.
    destruct (octets_back a (chr 0) (chr 0)) as (Ha & _). fold v in Ha.
    destruct padded; cbn [padding app base64_decode];
      rewrite !sextet_back by lia; cbn zeta beta iota; rewrite Hv, Ha; done.
  - set (v := group3 a b (chr 0)).
    destruct (short_sextets a b) as [E0 _]. fold v in E0.
    pose proof (regroup v (group3_range _ _ _)) as Hv. rewrite E0 in Hv.
    destruct (octets_back a b (chr 0)) as (Ha & Hb & _). fold v in Ha, Hb.
    destruct padded; cbn [padding app base64_decode];
      rewrite !sextet_back by lia; cbn zeta beta iota; rewrite Hv, Ha, Hb; done.
  - set (v := group3 a b c). pose proof (regroup v (group3_range _ _ _)) as Hv.
    destruct (octets_back a b c) as (Ha & Hb & Hc). fold v in Ha, Hb, Hc.
    cbn [base64_decode]. rewrite !sextet_back by lia. cbn zeta beta iota. rewrite Hv, Ha, Hb, Hc.
    rewrite (IH (length l)); [done|cbn; lia|done].
Qed.

Lemma base64_encode_chars padded l c :
  c ∈ base64_encode (padding padded) l →
  is_newline c = false ∧ (c = chr 61 ∧ padded = true ∨ ∃ v, 0 ≤ v < 64 ∧ c = sextet_char v).
Proof.
  assert (Hs : ∀ v n, 0 ≤ n → is_newline (sextet_char (sextet v n)) = false ∧
    (sextet_char (sextet v n) = chr 61 ∧ padded = true ∨ ∃ w, 0 ≤ w < 64 ∧ sextet_char (sextet v n) = sextet_char w)).
  { intros v n Hn. split; [by apply char_sextet_char, sextet_range|]. right.
    exists (sextet v n). split; [by apply sextet_range|done]. }
  assert (Hp : c ∈ padding padded → is_newline c = false ∧
    (c = chr 61 ∧ padded = true ∨ ∃ v, 0 ≤ v < 64 ∧ c = sextet_char v)).
  { destruct padded; cbn [padding]; [|by intros ?%elem_of_nil]. intros ->%list_elem_of_singleton. auto. }
  remember (length l) as n eqn:Hn. revert l Hn. induction (lt_wf n) as [n _ IH]. intros l ->.
  destruct l as [|x [|y [|z l]]]; cbn [base64_encode]; [by intros ?%elem_of_nil| | |].
  - rewrite !elem_of_cons, elem_of_app. intros [-> |[-> |[?|?]]]; [apply Hs; lia..|auto|auto].
  - rewrite !elem_of_cons. intros [-> |[-> |[-> |?]]]; [apply Hs; lia..|auto].
  - rewrite !elem_of_cons. intros [-> |[-> |[-> |[-> |?]]]]; [apply Hs; lia..|].
    eapply (IH (length l)); [cbn; lia|done|done].
Qed.

Lemma no_newlines padded l :
  filter (λ c, is_newline c = false) (base64_encode (padding padded) l) = base64_encode (padding padded) l.
Proof.
  assert (Hf : ∀ k : bytes, (∀ c, c ∈ k → is_newline c = false) → filter (λ c, is_newline c = false) k = k).
  { induction k as [|x k IHk]; intros Hk; [done|]. rewrite filter_cons_True by (apply Hk; left).
    f_equal. apply IHk. intros c Hc. apply Hk. by right. }
  apply Hf. intros c Hc. exact (proj1 (base64_encode_chars _ _ _ Hc)).
Qed.

Lemma raw_roundtrip l : raw_decode (raw_encode l) = Some l.
Proof. unfold raw_decode, raw_encode. rewrite (no_newlines false). exact (base64_decode_encode false l). Qed.

Lemma std_roundtrip l : std_decode (std_encode l) = Some l.
Proof. unfold std_decode, std_encode. rewrite (no_newlines true). exact (base64_decode_encode true l). Qed.

Lemma raw_encode_length l : Z.of_nat (length (raw_encode l)) = EncodedLen (Z.of_nat (length l)).
Proof.
  unfold EncodedLen. remember (length l) as n eqn:Hn. revert l Hn. induction (lt_wf n) as [n _ IH]. intros l ->.
  destruct l as [|x [|y [|z l]]]; [done..|]. unfold raw_encode. cbn [base64_encode length].
  specialize (IH (length l) ltac:(cbn; lia) l eq_refl). unfold raw_encode in IH.
  rewrite !Nat2Z.inj_succ, IH. Z.to_euclidean_division_equations. lia.
Qed.
