(* ===== verification/Password.v ===== *)
(** * Password hashes (src/internal/passwd/passwd.go)

    Hashes are kept in PHC string format with one audited parameter set.  The key
    derivation (golang.org/x/crypto/argon2) is a parameter; [IDKey] is documented to
    return a key of the requested length. *)

From S2P Require Import Prelude Errors GoLib Utf8 Text Base64.
Open Scope Z_scope.

Definition hashMemory : Z := 19456.
Definition hashTime : Z := 2.
Definition hashThreads : Z := 1.
Definition saltLength : Z := 16.
Definition keyLength : Z := 32.
Definition maxPHCLength : Z := 512.
Definition migrationPrefix : string := "{ARGON2ID}".

Definition ErrInvalidHash : error := Message "malformed argon2id hash".

Record PHCParams := mkPHCParams {
  Memory : Z;
  Iterations : Z;
  Threads : Z;
  Salt : string;
  Key : string
}.

(** [argon2.Version] is 19. *)
Definition phcVersion : string := "v=19".
Definition phcParams : string := "m=19456,t=2,p=1".

Definition wasteHash : string :=
  "$argon2id$v=19$m=19456,t=2,p=1$AAAAAAAAAAAAAAAAAAAAAA$AAAAAAAAAAAAAAAAAAAAAAAAAAAAAAAAAAAAAAAAAAA".

Definition parseParams (value : string) : res (Z * Z * Z) :=
  reject negb (bool_decide (value = phcParams))
    with Wrap "parameters must match the audited authentication profile" ErrInvalidHash in
  Ok (hashMemory, hashTime, hashThreads).

(** Without the migration prefix; none of its letters folds to a character outside
    ASCII. *)
Definition trimMigration (hash : string) : string :=
  if (str_len migrationPrefix <=? str_len hash)
     && bool_decide (ToLower (str_take (String.length migrationPrefix) hash) = ToLower migrationPrefix)
  then str_drop (String.length migrationPrefix) hash else hash.

Definition decodeField (what : string) (n : Z) (field : string) : res string :=
  match raw_decode (str_list field) with
  | Some b => reject negb (Z.of_nat (length b) =? n) with Wrap what ErrInvalidHash in Ok (of_list b)
  | None => Err (Wrap what ErrInvalidHash)
  end.

Definition parsePHC (hash : string) : res PHCParams :=
  reject bool_decide (hash = "") || (maxPHCLength <? str_len hash) with ErrInvalidHash in
  match Split (trimMigration hash) 36 with
  | [p0; p1; p2; p3; p4; p5] =>
      reject negb (bool_decide (p0 = "")) || negb (bool_decide (p1 = "argon2id")) with ErrInvalidHash in
      reject negb (bool_decide (p2 = phcVersion)) with ErrInvalidHash in
      reject EncodedLen saltLength <? str_len p4 with Wrap "salt size" ErrInvalidHash in
      reject EncodedLen keyLength <? str_len p5 with Wrap "output size" ErrInvalidHash in
      let? (memory, iterations, threads) := parseParams p3 in
      let? salt := decodeField "salt size" saltLength p4 in
      let? key := decodeField "output size" keyLength p5 in
      Ok (mkPHCParams memory iterations threads salt key)
  | _ => Err ErrInvalidHash
  end.

Definition ValidatePHC (hash : string) : res unit :=
  match parsePHC hash with Ok _ => Ok tt | Err e => Err e end.

(** [argon2.IDKey(password, salt, time, memory, threads, keyLen)]. *)
Class Argon2 := {
  IDKey : string → string → Z → Z → Z → Z → string;
  IDKey_length : ∀ pw salt t m p n, 0 ≤ n → str_len (IDKey pw salt t m p n) = n
}.

Section argon2.
Context `{Argon2}.

(** [Hash] with the random salt it drew. *)
Definition Hash (salt password : string) : string :=
  let key := IDKey password salt hashTime hashMemory hashThreads keyLength in
  "$argon2id$" +:+ phcVersion +:+ "$" +:+ phcParams +:+ "$" +:+ of_list (raw_encode (str_list salt))
    +:+ "$" +:+ of_list (raw_encode (str_list key)).

(** [ConstantTimeCompare] is equality. *)
Definition Verify (hash password : string) : res bool :=
  let? p := parsePHC hash in
  let key := IDKey password (Salt p) (Iterations p) (Memory p) (Threads p) (str_len (Key p)) in
  Ok (bool_decide (key = Key p)).

(** [Waste]: the derivation and nothing of its result. *)
Definition Waste (password : string) : unit := let _ := Verify wasteHash password in tt.
End argon2.

(** ** Hashing and checking *)

Lemma sextet_char_plain v : 0 ≤ v < 64 → byte_val (sextet_char v) ≠ 36.
Proof.
  intros Hv. assert (Ha : forallb (λ n, negb (byte_val (sextet_char (Z.of_nat n)) =? 36)) (seq 0 64) = true)
    by (vm_compute; reflexivity).
  rewrite forallb_forall in Ha. specialize (Ha (Z.to_nat v) ltac:(apply in_seq; lia)).
  rewrite Z2Nat.id in Ha by lia. lia.
Qed.

Lemma raw_encode_plain l c : c ∈ raw_encode l → byte_val c ≠ 36.
Proof.
  intros Hc. destruct (base64_encode_chars false l c Hc) as (_ & [[_ ?]|(v & Hv & ->)]); [done|].
  by apply sextet_char_plain.
Qed.

(** The six fields of a hash. *)
Definition phc_text (salt key : string) : string :=
  "$argon2id$" +:+ phcVersion +:+ "$" +:+ phcParams +:+ "$" +:+ of_list (raw_encode (str_list salt))
    +:+ "$" +:+ of_list (raw_encode (str_list key)).

Lemma split_phc salt key :
  Split (phc_text salt key) 36 =
    [""; "argon2id"; phcVersion; phcParams; of_list (raw_encode (str_list salt));
     of_list (raw_encode (str_list key))].
Proof.
  unfold Split, phc_text. rewrite !str_list_app, !str_list_of_list.
  assert (Hsplit : split_list 36 (str_list "$argon2id$" ++ str_list phcVersion ++ str_list "$" ++
    str_list phcParams ++ str_list "$" ++ raw_encode (str_list salt) ++ str_list "$" ++ raw_encode (str_list key)) =
    [[]; str_list "argon2id"; str_list phcVersion; str_list phcParams; raw_encode (str_list salt);
     raw_encode (str_list key)]).
  { set (s := raw_encode (str_list salt)). set (k := raw_encode (str_list key)).
    assert (Hw : ∀ w, forallb (λ c, negb (byte_val c =? 36)) (str_list w) = true →
              ∀ c, c ∈ str_list w → byte_val c ≠ 36).
    { intros w Hw c Hc. rewrite forallb_forall in Hw. apply list_elem_of_In in Hc. apply Hw in Hc. lia. }
    transitivity (split_list 36 ([] ++ chr 36 :: (str_list "argon2id" ++ chr 36 ::
      (str_list phcVersion ++ chr 36 :: (str_list phcParams ++ chr 36 :: (s ++ chr 36 :: k)))))); [done|].
    rewrite (split_list_sep 36 []) by (done || by intros x ?%elem_of_nil).
    rewrite (split_list_sep 36 (str_list "argon2id")) by (done || (apply Hw; vm_compute; reflexivity)).
    rewrite (split_list_sep 36 (str_list phcVersion)) by (done || (apply Hw; vm_compute; reflexivity)).
    rewrite (split_list_sep 36 (str_list phcParams)) by (done || (apply Hw; vm_compute; reflexivity)).
    rewrite (split_list_sep 36 s) by (done || (intros c; apply raw_encode_plain)).
    by rewrite split_list_none by (intros c; apply raw_encode_plain). }
  rewrite Hsplit. cbn [fmap list_fmap]. by rewrite !of_list_str_list.
Qed.

Lemma decodeField_back what n s : str_len s = n → decodeField what n (of_list (raw_encode (str_list s))) = Ok s.
Proof.
  intros Hn. unfold decodeField. rewrite str_list_of_list, raw_roundtrip.
  rewrite <-str_len_list, Hn, Z.eqb_refl. cbn. by rewrite of_list_str_list.
Qed.

(** The cost parameters are those of the audited profile. *)
Definition audited (p : PHCParams) : Prop :=
  Memory p = hashMemory ∧ Iterations p = hashTime ∧ Threads p = hashThreads ∧
  str_len (Salt p) = saltLength ∧ str_len (Key p) = keyLength.

Lemma decodeField_length what n field s : decodeField what n field = Ok s → str_len s = n.
Proof.
  unfold decodeField. destruct (raw_decode _) as [b|]; [|done].
  destruct (Z.eqb_spec (Z.of_nat (length b)) n); [|done]. intros [= <-].
  by rewrite str_len_list, str_list_of_list.
Qed.

Lemma parsePHC_audited hash p : parsePHC hash = Ok p → audited p ∧ str_len hash ≤ maxPHCLength.
Proof.
  unfold parsePHC. destruct (bool_decide (hash = "")); [done|]. cbn [orb].
  destruct (Z.ltb_spec maxPHCLength (str_len hash)); [done|].
  destruct (Split _ _) as [|p0 [|p1 [|p2 [|p3 [|p4 [|p5 [|p6 ps]]]]]]]; try done.
  destruct (negb _ || negb _); [done|]. destruct (negb _); [done|].
  destruct (_ <? str_len p4); [done|]. destruct (_ <? str_len p5); [done|].
  unfold parseParams. destruct (negb _); [done|]. cbn [res_bind].
  destruct (decodeField _ _ p4) as [salt|] eqn:E4; [|done]. cbn [res_bind].
  destruct (decodeField _ _ p5) as [key|] eqn:E5; [|done]. cbn [res_bind].
  intros [= <-]. split; [|done]. split_and!; [done..|by eapply decodeField_length|by eapply decodeField_length].
Qed.

Lemma trimMigration_plain salt key : trimMigration ("" +:+ phc_text salt key) = phc_text salt key.
Proof.
  unfold trimMigration. rewrite bool_decide_eq_false_2; [by rewrite andb_false_r|]. intros He.
  apply (f_equal (λ s, head (str_list s))) in He. discriminate He.
Qed.

Lemma trimMigration_prefix prefix rest :
  ToLower prefix = ToLower migrationPrefix → trimMigration (prefix +:+ rest) = rest.
Proof.
  intros Hp. assert (Hl : length (str_list prefix) = 10%nat).
  { apply (f_equal (λ s, length (str_list s))) in Hp. unfold ToLower in Hp.
    rewrite !str_list_of_list, !length_map in Hp. exact Hp. }
  unfold trimMigration, str_take, str_drop. rewrite !str_list_app.
  change (String.length migrationPrefix) with 10%nat. rewrite <-Hl, take_app_length, drop_app_length.
  rewrite !of_list_str_list, bool_decide_eq_true_2 by done.
  assert (str_len migrationPrefix <=? str_len (prefix +:+ rest) = true) as ->; [|done].
  rewrite (str_len_list (prefix +:+ rest)), str_list_app, length_app, Hl. apply Z.leb_le. vm_compute (str_len _). lia.
Qed.

Section hashing.
Context `{Argon2}.

Lemma parse_hash salt key prefix :
  str_len salt = saltLength → str_len key = keyLength →
  (prefix = "" ∨ ToLower prefix = ToLower migrationPrefix) →
  parsePHC (prefix +:+ phc_text salt key)
    = Ok (mkPHCParams hashMemory hashTime hashThreads salt key).
Proof.
  intros Hs Hk Hp.
  assert (Hlen : str_len (phc_text salt key) = 97).
  { unfold phc_text. rewrite !str_len_list, !str_list_app, !str_list_of_list, !length_app, !Nat2Z.inj_add.
    rewrite !raw_encode_length, <-!str_len_list, Hs, Hk. done. }
  assert (Hpre : str_len prefix ≤ 10).
  { destruct Hp as [-> |Hp]; [done|]. apply (f_equal str_len) in Hp. unfold ToLower in Hp.
    rewrite !str_len_list, !str_list_of_list, !length_map, <-!str_len_list in Hp. rewrite Hp. done. }
  unfold parsePHC. rewrite bool_decide_eq_false_2.
  2:{ intros He. apply (f_equal str_len) in He. rewrite !str_len_list, !str_list_app, length_app in He.
      rewrite str_len_list in Hlen. cbn in He. lia. }
  assert (maxPHCLength <? str_len (prefix +:+ phc_text salt key) = false) as ->.
  { rewrite str_len_list, str_list_app, length_app, Nat2Z.inj_add, <-!str_len_list. unfold maxPHCLength. lia. }
  cbn [orb].
  assert (trimMigration (prefix +:+ phc_text salt key) = phc_text salt key) as ->.
  { destruct Hp as [-> |Hp]; [by apply trimMigration_plain|by apply trimMigration_prefix]. }
  rewrite split_phc. cbn zeta.
  assert (∀ s n, str_len s = n → str_len (of_list (raw_encode (str_list s))) = EncodedLen n) as Henc.
  { intros s n <-. by rewrite (str_len_list (of_list _)), str_list_of_list, raw_encode_length, <-str_len_list. }
  rewrite (Henc salt _ Hs), (Henc key _ Hk), !Z.ltb_irrefl. cbn [negb orb bool_decide].
  rewrite !decodeField_back by done. done.
Qed.

(** C38: A password hash accepts its password.  The hash of a password under a random
    salt, as it is or with the migration prefix in any letter case, parses to that
    salt and key, and verifying a password against it succeeds exactly when the
    derivation gives the same key.  Every hash that parses, from wherever it came,
    has the audited cost parameters and sizes, and so has the hash that is derived
    for unknown users: both cost the same. *)
Theorem password_verifies salt password prefix :
  str_len salt = saltLength → (prefix = "" ∨ ToLower prefix = ToLower migrationPrefix) →
  let key pw := IDKey pw salt hashTime hashMemory hashThreads keyLength in
  parsePHC (prefix +:+ Hash salt password)
    = Ok (mkPHCParams hashMemory hashTime hashThreads salt (key password)) ∧
  (∀ pw, Verify (prefix +:+ Hash salt password) pw = Ok (bool_decide (key pw = key password))) ∧
  (∀ hash p, parsePHC hash = Ok p → audited p) ∧
  (∃ p, parsePHC wasteHash = Ok p ∧ audited p).
Proof.
  intros Hs Hp. cbn zeta.
  assert (Hk : str_len (IDKey password salt hashTime hashMemory hashThreads keyLength) = keyLength)
    by (by apply IDKey_length).
  assert (Hparse : parsePHC (prefix +:+ Hash salt password) = Ok (mkPHCParams hashMemory hashTime hashThreads
    salt (IDKey password salt hashTime hashMemory hashThreads keyLength))) by (by apply parse_hash).
  split_and!; [done| | |].
  - intros pw. unfold Verify. rewrite Hparse. cbn [res_bind Salt Iterations Memory Threads Key]. by rewrite Hk.
  - intros hash p Hh. by apply parsePHC_audited in Hh as [? _].
  - eexists. split; [vm_compute; reflexivity|]. split_and!; reflexivity.
Qed.
End hashing.

(** A derivation that depends on the password's first byte only. *)
#[local] Program Instance sampleArgon2 : Argon2 := {|
  IDKey pw _ _ _ _ n := of_list (repeat (default (chr 0) (head (str_list pw))) (Z.to_nat n))
|}.
Next Obligation. intros pw salt t m p n Hn. cbn. rewrite str_len_list, str_list_of_list, repeat_length. lia. Qed.

Lemma password_verifies_witness :
  Verify ("{argon2id}" +:+ Hash "0123456789abcdef" "secret") "secret" = Ok true ∧
  Verify ("{argon2id}" +:+ Hash "0123456789abcdef" "secret") "Secret" = Ok false.
Proof.
  destruct (password_verifies "0123456789abcdef" "secret" "{argon2id}") as (_ & Hv & _);
    [reflexivity|right; reflexivity|].
  split; [rewrite (Hv "secret")|rewrite (Hv "Secret")]; vm_compute; reflexivity.
Defined.
