(* ===== verification/Paths.v ===== *)
(** * Where generated files may go (src/internal/config/paths.go)

    DKIM keys, DNS instructions and key caches are written beneath the data
    directory; [ResolveGeneratedPath] refuses every path that leaves it
    ([generated_path_confined]).  The functions of [path/filepath] are those for
    Unix; the working directory is a parameter. *)

From S2P Require Import Prelude Errors GoLib Utf8 Mailbox Text.
Open Scope Z_scope.

(** [filepath.Join] of two elements. *)
Definition filepath_Join (a b : string) : string :=
  if bool_decide (a = "") then (if bool_decide (b = "") then "" else filepath_Clean b)
  else if bool_decide (b = "") then filepath_Clean a
  else filepath_Clean (a +:+ "/" +:+ b).

(** [filepath.Abs] with the working directory [cwd]. *)
Definition filepath_Abs (cwd path : string) : string :=
  if filepath_IsAbs path then filepath_Clean path else filepath_Join cwd path.

(** The elements of a path. *)
Definition path_elems (path : string) : list string := filter (λ e, e ≠ "") (Split path 47).

(** The elements of two paths after their common beginning. *)
Fixpoint strip_common (base targ : list string) : list string * list string :=
  match base, targ with
  | b :: base', t :: targ' => if bool_decide (b = t) then strip_common base' targ' else (base, targ)
  | _, _ => (base, targ)
  end.

(** [filepath.Rel] for two cleaned absolute paths. *)
Definition filepath_Rel (base targ : string) : string :=
  let '(b, t) := strip_common (path_elems base) (path_elems targ) in
  match (repeat ".." (length b) ++ t)%list with [] => "." | es => join_with "/" es end.

Section paths.
Variable cwd : string.
Variables baseDir DataDirectory : string.

Definition ResolvedDataDir : string :=
  if filepath_IsAbs DataDirectory then DataDirectory
  else if negb (bool_decide (baseDir = "")) then filepath_Join baseDir DataDirectory
  else filepath_Abs cwd DataDirectory.

Definition ResolvePath (path : string) : string :=
  if filepath_IsAbs path then path
  else
    let data := if negb (filepath_IsAbs DataDirectory) && negb (bool_decide (baseDir = ""))
                then filepath_Join baseDir DataDirectory else DataDirectory in
    filepath_Join data path.

Definition ResolveGeneratedPath (path : string) : res string :=
  let data := filepath_Abs cwd (filepath_Clean ResolvedDataDir) in
  let target := if filepath_IsAbs path then path else filepath_Join data path in
  let target := filepath_Abs cwd (filepath_Clean target) in
  let rel := filepath_Rel data target in
  reject bool_decide (rel = ".") || bool_decide (rel = "..") || HasPrefix rel "../" || filepath_IsAbs rel
    with Message "path must resolve to a file beneath server.data_directory" in
  Ok target.
End paths.

(** ** Clean absolute paths *)

(** An element of a clean absolute path. *)
Definition plain_elem (e : string) : Prop :=
  e ≠ "" ∧ e ≠ "." ∧ e ≠ ".." ∧ ∀ c, c ∈ str_list e → byte_val c ≠ 47.

Definition abs_path (es : list string) : string := "/" +:+ join_with "/" es.

Lemma join_with_cons sep e es :
  join_with sep (e :: es) = match es with [] => e | _ => e +:+ sep +:+ join_with sep es end.
Proof.
  destruct es as [|e' es]; [done|]. cbn [join_with fold_left].
  assert (Hg : ∀ l a b, fold_left (λ acc e, acc +:+ sep +:+ e) l (a +:+ b)
            = a +:+ fold_left (λ acc e, acc +:+ sep +:+ e) l b).
  { induction l as [|x l IH]; intros a b; cbn [fold_left]; [done|].
    rewrite <-IH. f_equal. apply str_list_inj. by rewrite !str_list_app, !app_assoc. }
  by rewrite Hg, Hg.
Qed.

Lemma Split_join es : Forall plain_elem es → es ≠ [] → Split (join_with "/" es) 47 = es.
Proof.
  unfold Split. induction es as [|e es IH]; [done|]. intros [(_ & _ & _ & He) Hes]%Forall_cons _.
  rewrite join_with_cons. destruct es as [|e' es].
  - rewrite split_list_none by done. cbn. by rewrite of_list_str_list.
  - rewrite !str_list_app. change (str_list "/" ++ ?r) with (chr 47 :: r).
    rewrite split_list_sep by done. rewrite fmap_cons, of_list_str_list. f_equal. by apply IH.
Qed.

Lemma path_elems_abs es : Forall plain_elem es → path_elems (abs_path es) = es.
Proof.
  intros Hes. unfold path_elems, abs_path.
  assert (Hs : Split ("/" +:+ join_with "/" es) 47 = "" :: Split (join_with "/" es) 47) by done.
  rewrite Hs, filter_cons_False by (by intros []). destruct es as [|e es]; [done|].
  rewrite Split_join by done. clear Hs. induction Hes as [|x l (Hx & _) _ IH]; [done|].
  by rewrite filter_cons_True, IH.
Qed.

Lemma Split_plain s e c : e ∈ Split s 47 → c ∈ str_list e → byte_val c ≠ 47.
Proof.
  unfold Split. intros (w & -> & Hw)%list_elem_of_fmap. rewrite str_list_of_list. revert w Hw.
  induction (str_list s) as [|x l IH]; intros w; cbn [split_list].
  { intros ->%list_elem_of_singleton ?%elem_of_nil. done. }
  destruct (is_char 47 x) eqn:Ex.
  - intros [-> |Hw]%elem_of_cons; [by intros ?%elem_of_nil|]. by apply IH.
  - destruct (split_list_head 47 l) as (w0 & ws & Hs). rewrite Hs in IH |- *.
    intros [-> |Hw]%elem_of_cons.
    + intros [-> |Hc]%elem_of_cons; [by intros E%is_char_true; rewrite E in Ex|].
      apply (IH w0); [left|done].
    + apply IH. by right.
Qed.

Lemma clean_elems_plain stack es :
  Forall plain_elem stack → (∀ e c, e ∈ es → c ∈ str_list e → byte_val c ≠ 47) →
  Forall plain_elem (clean_elems true stack es).
Proof.
  revert stack. induction es as [|e es IH]; intros stack Hs Hes; cbn [clean_elems].
  { apply Forall_rev. done. }
  assert (Hes' : ∀ e0 c, e0 ∈ es → c ∈ str_list e0 → byte_val c ≠ 47).
  { intros e0 c He0. apply Hes. by right. }
  destruct (decide (e = "")) as [He|He]; [rewrite bool_decide_eq_true_2 by done; by apply IH|].
  rewrite (bool_decide_eq_false_2 (e = "")) by done. cbn [orb].
  destruct (decide (e = ".")) as [Hd|Hd]; [rewrite bool_decide_eq_true_2 by done; by apply IH|].
  rewrite (bool_decide_eq_false_2 (e = ".")) by done.
  destruct (decide (e = "..")) as [Hdd|Hdd].
  - rewrite bool_decide_eq_true_2 by done. destruct Hs as [|top rest Htop Hrest]; [by apply IH|].
    rewrite bool_decide_eq_false_2 by (apply Htop). by apply IH.
  - rewrite bool_decide_eq_false_2 by done. apply IH; [|done]. constructor; [|done].
    split_and!; [done..|]. intros c. apply Hes. left.
Qed.

Lemma Clean_abs path : filepath_IsAbs path = true →
  ∃ es, Forall plain_elem es ∧ filepath_Clean path = abs_path es.
Proof.
  intros Ha. unfold filepath_Clean. rewrite Ha. eexists. split; [|done].
  apply clean_elems_plain; [done|]. intros e c. apply Split_plain.
Qed.

Lemma Abs_abs cwd path : filepath_IsAbs cwd = true →
  ∃ es, Forall plain_elem es ∧ filepath_Abs cwd path = abs_path es.
Proof.
  intros Hc. unfold filepath_Abs. destruct (filepath_IsAbs path) eqn:Ep; [by apply Clean_abs|].
  unfold filepath_Join. destruct cwd as [|c cwd]; [done|].
  rewrite (bool_decide_eq_false_2 (String c cwd = "")) by done.
  case_bool_decide; apply Clean_abs; [done|].
  exact Hc.
Qed.

Lemma strip_common_spec b t b' t' :
  strip_common b t = (b', t') → ∃ c, b = c ++ b' ∧ t = c ++ t'.
Proof.
  revert t b' t'. induction b as [|x b IH]; intros t b' t'; cbn [strip_common].
  { intros [= <- <-]. by exists []. }
  destruct t as [|y t]; [intros [= <- <-]; by exists []|].
  case_bool_decide as E; [subst y|intros [= <- <-]; by exists []].
  intros (c & -> & ->)%IH. by exists (x :: c).
Qed.

(** Generated files stay beneath the data directory.  Whatever path the
    configuration names, absolute or relative, with any [..] in it, a path that
    [ResolveGeneratedPath] accepts is the data directory's own path followed by at
    least one element, none of which is [.] or [..] or contains a slash. *)
Lemma generated_path_confined cwd baseDir DataDirectory path target :
  filepath_IsAbs cwd = true →
  ResolveGeneratedPath cwd baseDir DataDirectory path = Ok target →
  ∃ data below,
    filepath_Abs cwd (filepath_Clean (ResolvedDataDir cwd baseDir DataDirectory)) = abs_path data ∧
    target = abs_path (data ++ below) ∧ below ≠ [] ∧ Forall plain_elem data ∧ Forall plain_elem below.
Proof.
  intros Hc. unfold ResolveGeneratedPath. cbn zeta.
  destruct (Abs_abs cwd (filepath_Clean (ResolvedDataDir cwd baseDir DataDirectory)) Hc) as (data & Hd & ->).
  set (path' := if filepath_IsAbs path then path else _).
  destruct (Abs_abs cwd (filepath_Clean path') Hc) as (targ & Ht & ->).
  unfold filepath_Rel. rewrite !path_elems_abs by done.
  destruct (strip_common data targ) as [b t] eqn:E. apply strip_common_spec in E as (c & -> & ->).
  apply Forall_app in Ht as [_ Ht]. destruct b as [|x b].
  - rewrite app_nil_r. cbn [length repeat app]. destruct t as [|y t]; [done|].
    destruct (_ || _); [done|]. intros [= <-]. exists c, (y :: t). rewrite app_nil_r in Hd. by split_and!.
  - cbn [length repeat app]. rewrite join_with_cons. destruct (repeat _ _ ++ t)%list; [done|].
    assert (Hp : ∀ r, HasPrefix (".." +:+ "/" +:+ r) "../" = true) by (intros r; done).
    rewrite Hp. by rewrite !orb_true_r.
Qed.
