(* ===== verification/SecretFiles.v ===== *)
(** * Generated and secret files (src/internal/config/files_unix.go)

    DKIM keys and other generated files are opened without following a symbolic
    link, checked on the open handle, and only beneath directories that are no
    symbolic links.  [files] is the tree by absolute path; [lstatFault] says which
    calls fail for other reasons.  [parents_checked] says what
    [CheckGeneratedParents] establishes for a path [ResolveGeneratedPath] accepted. *)

From S2P Require Import Prelude Errors GoLib Utf8 Mailbox Text Paths.
Open Scope Z_scope.

Inductive node := Regular (perm : Z) (content : string) | Directory (perm : Z) | Symlink (target : string) | Special.

#[export] Instance node_eq_dec : EqDecision node.
Proof. solve_decision. Defined.

Notation tree := (gmap string node).

Definition ENOENT : error := Errno 2.
Definition ELOOP : error := Errno 40.

(** Links the kernel follows in one path. *)
Definition maxLinks : nat := 40.

(** The object an [open] reaches. *)
Fixpoint follow (fuel : nat) (files : tree) (path : string) : res node :=
  match fuel with
  | O => Err ELOOP
  | S fuel =>
      match files !! path with
      | None => Err ENOENT
      | Some (Symlink target) => follow fuel files target
      | Some n => Ok n
      end
  end.

(** [openChecked]: the permission bits and content of the file opened. *)
Definition openChecked (files : tree) (path : string) (private allowSymlink : bool) : res (Z * string) :=
  let? n := (if allowSymlink then follow maxLinks files path
             else match files !! path with
                  | None => Err ENOENT
                  | Some (Symlink _) => Err ELOOP
                  | Some n => Ok n
                  end) in
  match n with
  | Regular perm content =>
      reject private && negb (Z.land perm 63 =? 0) with Message "permissions allow group or other access" in
      Ok (perm, content)
  | _ => Err (Message "must open as a regular file")
  end.

Definition CheckFile (files : tree) (path : string) (private : bool) : res unit :=
  let? _ := openChecked files path private false in Ok tt.

Definition ReadCheckedFile (files : tree) (path : string) (private allowSymlink : bool) (maximum : Z) : res string :=
  let? (_, content) := openChecked files path private allowSymlink in
  reject maximum <? str_len content with Message "exceeds the read limit" in
  Ok content.

(** A secret read this way is a regular file at that very path, which neither group
    nor others may access, within the size limit. *)
Lemma ReadCheckedFile_secret files path maximum body :
  ReadCheckedFile files path true false maximum = Ok body →
  ∃ perm, files !! path = Some (Regular perm body) ∧ Z.land perm 63 = 0 ∧ str_len body ≤ maximum.
Proof.
  unfold ReadCheckedFile, openChecked. destruct (files !! path) as [[perm content| | |]|]; try done.
  cbn [res_bind andb]. destruct (Z.eqb_spec (Z.land perm 63) 0); [|done]. cbn [negb res_bind].
  destruct (Z.ltb_spec maximum (str_len content)); [done|]. intros [= <-]. eauto.
Qed.

(** ** Parents *)

Definition filepath_Dir (path : string) : string :=
  filepath_Clean (str_take (match last_index 47 (str_list path) with Some i => S i | None => 0 end) path).

Section parents.
Variable files : tree.
Variable lstatFault : string → option error.

(** [os.Lstat]: the object itself. *)
Definition Lstat (path : string) : res node :=
  match lstatFault path with
  | Some e => Err e
  | None => match files !! path with Some n => Ok n | None => Err ENOENT end
  end.

Definition is_dir_node (n : node) : bool := match n with Directory _ => true | _ => false end.
Definition is_link (n : node) : bool := match n with Symlink _ => true | _ => false end.

(** The loop of [CheckGeneratedParents]; a path has fewer parents than bytes. *)
Fixpoint checkParents (fuel : nat) (data current : string) : res unit :=
  match fuel with
  | O => Err (Message "generated path escapes data directory")
  | S fuel =>
      let info := Lstat current in
      reject match info with Ok n => is_link n | Err _ => false end
        with Message "generated path parent is a symlink" in
      let? _ := match info with
                | Err e => if errors_Is e ErrNotExist then Ok tt else Err e
                | Ok _ => Ok tt
                end in
      if bool_decide (current = data) then Ok tt
      else
        let next := filepath_Dir current in
        reject bool_decide (next = current) with Message "generated path escapes data directory" in
        checkParents fuel data next
  end.

(** [data] is the resolved data directory. *)
Definition CheckGeneratedParents (data path : string) : res unit :=
  checkParents (S (String.length path)) data (filepath_Dir path).

(** ** Private directories (disk.go, private_unix.go) *)

(** The loop of [ValidatePath]: no component may be a symbolic link. *)
Fixpoint validatePath (fuel : nat) (current : string) : res unit :=
  match fuel with
  | O => Err (Message "path has no root")
  | S fuel =>
      let? _ := match Lstat current with
                | Ok n => if is_link n then Err (Message "symbolic link or reparse point is not allowed") else Ok tt
                | Err e => if errors_Is e ErrNotExist then Ok tt else Err e
                end in
      let parent := filepath_Dir current in
      if bool_decide (parent = current) then Ok tt else validatePath fuel parent
  end.

Definition ValidatePath (cwd path : string) : res unit :=
  let abs := filepath_Abs cwd path in
  validatePath (S (String.length abs)) (filepath_Clean abs).

Definition ENOTDIR : error := Errno 20.

(** [OpenDirectory]: the permission bits of the directory opened. *)
Definition OpenDirectory (path : string) : res Z :=
  match files !! path with
  | Some (Directory perm) => Ok perm
  | Some (Symlink _) => Err ELOOP
  | Some _ => Err ENOTDIR
  | None => Err ENOENT
  end.

Definition ValidatePrivateDirectory (path : string) : res unit :=
  let? perm := OpenDirectory path in
  reject negb (Z.land perm 63 =? 0) with Message "permissions allow group or other access" in
  Ok tt.

Definition filepath_Base (path : string) : string :=
  match last_index 47 (str_list path) with Some i => str_drop (S i) path | None => path end.

(** [os.ReadDir]: the names. *)
Definition ReadDir (path : string) : res (list string) :=
  let? n := follow maxLinks files path in
  match n with
  | Directory _ => Ok (filepath_Base <$> filter (λ p, filepath_Dir p = path ∧ p ≠ "/") (map_to_list files).*1)
  | _ => Err ENOTDIR
  end.
End parents.

(** ** The directory of a clean path *)

Lemma last_index_app b l c r :
  byte_val c = b → (∀ x, x ∈ r → byte_val x ≠ b) → last_index b (l ++ c :: r) = Some (length l).
Proof.
  intros Hc Hr. induction l as [|x l IH]; cbn [app last_index].
  - by rewrite last_index_none, (proj2 (is_char_true b c)) by done.
  - by rewrite IH.
Qed.

Lemma join_with_snoc sep es e : es ≠ [] → join_with sep (es ++ [e]) = join_with sep es +:+ sep +:+ e.
Proof. destruct es as [|x es]; [done|]. intros _. cbn [join_with app]. by rewrite fold_left_app. Qed.

Lemma Split_join_slash es : Forall plain_elem es → es ≠ [] → Split (join_with "/" es +:+ "/") 47 = es ++ [""].
Proof.
  unfold Split. induction es as [|e es IH]; [done|]. intros [(_ & _ & _ & He) Hes]%Forall_cons _.
  rewrite join_with_cons. destruct es as [|e' es].
  - rewrite str_list_app. change (str_list "/") with [chr 47]. rewrite split_list_sep by done.
    rewrite fmap_cons, of_list_str_list. done.
  - assert (Hs : str_list (e +:+ "/" +:+ join_with "/" (e' :: es) +:+ "/")
              = str_list e ++ chr 47 :: str_list (join_with "/" (e' :: es) +:+ "/")).
    { by rewrite !str_list_app. }
    replace ((e +:+ "/" +:+ join_with "/" (e' :: es)) +:+ "/") with (e +:+ "/" +:+ join_with "/" (e' :: es) +:+ "/")
      by (apply str_list_inj; rewrite !str_list_app, <-!app_assoc; done).
    rewrite Hs, split_list_sep by done. rewrite fmap_cons, of_list_str_list. cbn [app]. f_equal. by apply IH.
Qed.

Lemma clean_elems_id stack es : Forall plain_elem es → clean_elems true stack (es ++ [""]) = rev stack ++ es.
Proof.
  revert stack. induction es as [|e es IH]; intros stack; [by rewrite app_nil_r|].
  intros [(He & Hd & Hdd & _) Hes]%Forall_cons. cbn [app clean_elems].
  rewrite !bool_decide_eq_false_2 by done. cbn [orb]. rewrite IH by done. cbn [rev]. by rewrite <-app_assoc.
Qed.

Lemma Dir_abs es e : Forall plain_elem (es ++ [e]) → filepath_Dir (abs_path (es ++ [e])) = abs_path es.
Proof.
  intros [Hes [(_ & _ & _ & He) _]%Forall_cons]%Forall_app. unfold filepath_Dir, abs_path.
  destruct es as [|x es].
  - change (join_with "/" ([] ++ [e])) with e.
    assert (Hl : str_list ("/" +:+ e) = [] ++ chr 47 :: str_list e) by done.
    rewrite Hl, last_index_app by done. unfold str_take. rewrite Hl. cbn. done.
  - rewrite join_with_snoc by done.
    assert (Hl : str_list ("/" +:+ (join_with "/" (x :: es) +:+ "/" +:+ e))
              = str_list ("/" +:+ join_with "/" (x :: es)) ++ chr 47 :: str_list e).
    { rewrite !str_list_app. by rewrite <-app_assoc. }
    rewrite Hl, last_index_app by done. unfold str_take. rewrite Hl.
    assert (Ht : of_list (take (S (length (str_list ("/" +:+ join_with "/" (x :: es)))))
                   (str_list ("/" +:+ join_with "/" (x :: es)) ++ chr 47 :: str_list e))
              = "/" +:+ (join_with "/" (x :: es) +:+ "/")).
    { apply str_list_inj. rewrite str_list_of_list, take_app, firstn_all2 by lia.
      replace (S _ - _)%nat with 1%nat by lia. rewrite !str_list_app. by rewrite <-app_assoc. }
    rewrite Ht. unfold filepath_Clean. change (filepath_IsAbs ("/" +:+ ?r)) with true. cbn iota.
    change (Split ("/" +:+ ?r) 47) with ("" :: Split r 47). rewrite Split_join_slash by done.
    cbn [clean_elems]. rewrite bool_decide_eq_true_2 by done. cbn [orb]. by rewrite clean_elems_id.
Qed.

(** ** What the check establishes *)

Section checked.
Variable files : tree.
Variable lstatFault : string → option error.

(** A directory the check lets pass: no link, and readable or absent. *)
Definition passes (path : string) : Prop :=
  match Lstat files lstatFault path with
  | Ok n => is_link n = false
  | Err e => errors_Is e ErrNotExist = true
  end.

Lemma abs_path_inj a b : Forall plain_elem a → Forall plain_elem b → abs_path a = abs_path b → a = b.
Proof. intros Ha Hb E. by rewrite <-(path_elems_abs a), <-(path_elems_abs b), E. Qed.

Lemma checkParents_spec fuel data below :
  Forall plain_elem (data ++ below) → (length below < fuel)%nat →
  checkParents files lstatFault fuel (abs_path data) (abs_path (data ++ below)) = Ok tt ↔
  ∀ k, (k ≤ length below)%nat → passes (abs_path (data ++ take k below)).
Proof.
  revert below. induction fuel as [|fuel IH]; intros below Hp Hf; [lia|]. cbn [checkParents].
  assert (Hall : (∀ k, (k ≤ length below)%nat → passes (abs_path (data ++ take k below))) →
            passes (abs_path (data ++ below))).
  { intros Hk. specialize (Hk (length below) ltac:(lia)). by rewrite firstn_all in Hk. }
  assert (Hstep : passes (abs_path (data ++ below)) →
    (if bool_decide (abs_path (data ++ below) = abs_path data) then Ok tt
     else let next := filepath_Dir (abs_path (data ++ below)) in
          reject bool_decide (next = abs_path (data ++ below))
            with Message "generated path escapes data directory" in
          checkParents files lstatFault fuel (abs_path data) next) = Ok tt ↔
    ∀ k, (k ≤ length below)%nat → passes (abs_path (data ++ take k below))).
  { intros Hpass. apply Forall_app in Hp as Hp'. destruct Hp' as [Hdata Hbelow].
    destruct below as [|e below _] using rev_ind.
    - rewrite app_nil_r in *. rewrite bool_decide_eq_true_2 by done. split; [|done]. intros _ k _.
      by rewrite take_nil, app_nil_r.
    - rewrite bool_decide_eq_false_2.
      2:{ intros E%abs_path_inj; [|done..]. apply (f_equal length) in E. rewrite !length_app in E. cbn in E. lia. }
      cbn zeta. rewrite app_assoc, Dir_abs by (by rewrite <-app_assoc).
      rewrite length_app in Hf. cbn in Hf. rewrite app_assoc in Hp. apply Forall_app in Hp as [Hp _].
      rewrite bool_decide_eq_false_2.
      2:{ intros E%abs_path_inj; [|done|by rewrite <-app_assoc; apply Forall_app]. apply (f_equal length) in E.
          rewrite !length_app in E. cbn in E. lia. }
      rewrite IH by (done || lia). rewrite length_app. cbn [length]. split; intros Hk k Hle.
      + destruct (decide (k ≤ length below)%nat) as [Hkb|Hkb].
        * rewrite take_app_le by done. by apply Hk.
        * replace k with (length (below ++ [e])) by (rewrite length_app; cbn; lia). by rewrite firstn_all.
      + specialize (Hk k ltac:(lia)). by rewrite take_app_le in Hk by done. }
  destruct (Lstat files lstatFault (abs_path (data ++ below))) as [n|e] eqn:El.
  - destruct (is_link n) eqn:En.
    + split; [done|]. intros Hk%Hall. unfold passes in Hk. by rewrite El, En in Hk.
    + cbn [res_bind]. apply Hstep. unfold passes. by rewrite El.
  - destruct (errors_Is e ErrNotExist) eqn:Ee.
    + cbn [res_bind]. apply Hstep. unfold passes. by rewrite El.
    + cbn [res_bind]. split; [done|]. intros Hk%Hall. unfold passes in Hk. by rewrite El, Ee in Hk.
Qed.
End checked.

Lemma join_with_length sep es : Forall plain_elem es → (length es ≤ S (String.length (join_with sep es)))%nat.
Proof.
  intros Hes. destruct es as [|e es]; [cbn; lia|]. revert e Hes. induction es as [|e' es IH]; intros e Hes.
  { cbn. lia. }
  apply Forall_cons in Hes as [(He & _) Hes]. rewrite join_with_cons. specialize (IH e' Hes).
  rewrite <-!length_str_list, !str_list_app, !length_app, !length_str_list in *. cbn [length] in *.
  destruct e; [done|]. cbn [String.length]. lia.
Qed.

(** Secrets are read where they belong.  If a configured path resolves, its
    parents pass the check and the file is read as a private file, then what was read
    is the content of a regular file beneath the data directory that neither the group
    nor others may access, and no directory from the data directory down to the file
    is a symbolic link (as long as looking at them does not fail). *)
Theorem secret_confined files lstatFault cwd baseDir DataDirectory path target maximum body :
  let data := filepath_Abs cwd (filepath_Clean (ResolvedDataDir cwd baseDir DataDirectory)) in
  filepath_IsAbs cwd = true → (∀ p, lstatFault p = None) →
  ResolveGeneratedPath cwd baseDir DataDirectory path = Ok target →
  CheckGeneratedParents files lstatFault data target = Ok tt →
  ReadCheckedFile files target true false maximum = Ok body →
  ∃ elems below perm,
    data = abs_path elems ∧ below ≠ [] ∧ Forall plain_elem below ∧
    files !! abs_path (elems ++ below) = Some (Regular perm body) ∧ Z.land perm 63 = 0 ∧ str_len body ≤ maximum ∧
    ∀ k link, (k < length below)%nat → files !! abs_path (elems ++ take k below) ≠ Some (Symlink link).
Proof.
  cbn zeta. intros Hc Hl Hr Hp Hb.
  destruct (generated_path_confined _ _ _ _ _ Hc Hr) as (elems & below & Ed & -> & Hne & Hpe & Hpb).
  rewrite Ed in *. apply ReadCheckedFile_secret in Hb as (perm & Hf & Hm & Hs).
  exists elems, below, perm. split_and!; try done. intros k link Hk Hin.
  destruct below as [|e below _] using rev_ind; [done|]. rewrite length_app in Hk. cbn in Hk.
  unfold CheckGeneratedParents in Hp. rewrite app_assoc, Dir_abs in Hp by (rewrite <-app_assoc; by apply Forall_app).
  apply Forall_app in Hpb as [Hpb He]. rewrite checkParents_spec in Hp.
  - specialize (Hp k ltac:(lia)). unfold passes, Lstat in Hp. rewrite Hl in Hp.
    rewrite take_app_le in Hin by lia. by rewrite Hin in Hp.
  - by apply Forall_app.
  - pose proof (join_with_length "/" ((elems ++ below) ++ [e])) as Hlen.
    rewrite !Forall_app in Hlen. specialize (Hlen (conj (conj Hpe Hpb) He)).
    rewrite !length_app in Hlen. unfold abs_path. change (String.length ("/" +:+ ?r)) with (S (String.length r)).
    cbn [length] in Hlen. lia.
Qed.

Definition sampleTree : tree :=
  <["/srv/mail" := Directory 448]> (<["/srv/mail/dkim" := Directory 448]>
    (<["/srv/mail/dkim/a.key" := Regular 384 "secret"]> ∅)).

Lemma secret_confined_witness :
  ∃ elems below perm, below ≠ [] ∧ Forall plain_elem below ∧ abs_path elems = "/srv/mail" ∧
    sampleTree !! abs_path (elems ++ below) = Some (Regular perm "secret") ∧ Z.land perm 63 = 0.
Proof.
  destruct (secret_confined sampleTree (λ _, None) "/" "/srv" "mail" "x/../dkim/a.key" "/srv/mail/dkim/a.key" 1000 "secret")
    as (elems & below & perm & Ed & Hne & Hpl & Hf & Hm & _); [reflexivity|reflexivity|vm_compute; reflexivity..|].
  exists elems, below, perm. split_and!; [exact Hne|exact Hpl|rewrite <-Ed; vm_compute; reflexivity|exact Hf|exact Hm].
Defined.
