(* ===== verification/PrivateTree.v ===== *)
(** * Private trees (src/internal/disk/repair_unix.go, secure_unix.go)

    The data directory as a tree of objects with owners, permissions and mounts.
    [ValidatePrivateTree] refuses links and foreign mounts; [RepairPrivateTree] first
    inspects the whole tree in the same way, special files included, and then gives
    every object the root's owner and owner-only permissions.  Every system call may
    fail, a failed repair leaving what it has done so far.  The theorems: a repaired
    tree is private throughout and passes validation, a tree that cannot be repaired
    whole is not touched, and nothing but owners and permissions ever changes. *)

From S2P Require Import Prelude Errors GoLib.
Open Scope Z_scope.

Record ownership := mkOwnership { oUid : Z; oGid : Z; oPerm : Z }.

(** Directory entries are in the order [ReadDir] returns them. *)
Inductive fsObject :=
| FFile (o : ownership) (content : string)
| FDir (o : ownership) (mount : Z) (entries : list (string * fsObject))
| FLink (target : string)
| FSpecial.

Section object_ind.
Variable P : fsObject → Prop.
Hypothesis HFile : ∀ o c, P (FFile o c).
Hypothesis HDir : ∀ o m es, Forall (λ e, P e.2) es → P (FDir o m es).
Hypothesis HLink : ∀ t, P (FLink t).
Hypothesis HSpecial : P FSpecial.

Fixpoint fsObject_induction (x : fsObject) : P x :=
  match x with
  | FFile o c => HFile o c
  | FDir o m es =>
      HDir o m es ((fix go es : Forall (λ e, P e.2) es :=
        match es with [] => Forall_nil_2 _ | e :: es => Forall_cons_2 _ _ _ (fsObject_induction e.2) (go es) end) es)
  | FLink t => HLink t
  | FSpecial => HSpecial
  end.
End object_ind.

(** The system calls that can fail, and the path they are made at. *)
Inductive diskCall := COpen | CMount | CReadDir | CSeek | CStat | CClose | CChown | CChmod.

Definition ELINK : error := Errno 40.

Section private.
Variable callFault : diskCall → list string → option error.

Definition call (c : diskCall) (path : list string) : res unit :=
  match callFault c path with Some e => Err e | None => Ok tt end.

(** [validComponent] of a name without a slash. *)
Definition validComponent (name : string) : bool :=
  negb (bool_decide (name = "")) && negb (bool_decide (name = ".")) && negb (bool_decide (name = "..")).

Definition OpenAt (path : list string) (name : string) : res unit :=
  reject negb (validComponent name) with Message "invalid argument" in call COpen (path ++ [name]).

(** A child directory: its mount, its contents, and the close whose error comes last. *)
Definition onChild (path : list string) (mount childMount : Z) (contents : res unit) : res unit :=
  let r := let? _ := call CMount path in
           reject negb (childMount =? mount) with Message "private directory crosses a mount boundary" in contents in
  match r with Err e => Err e | Ok _ => call CClose path end.

Definition eachEntry (f : string → fsObject → res unit) : list (string * fsObject) → res unit :=
  fix go es := match es with [] => Ok tt | (n, x) :: es => let? _ := f n x in go es end.

(** ** Validation (secure_unix.go) *)

Fixpoint validateEntry (mount : Z) (path : list string) (name : string) (x : fsObject) : res unit :=
  match x with
  | FLink _ => Err (Message "private spool object must not be a symbolic link")
  | FDir _ childMount es =>
      let? _ := OpenAt path name in
      onChild (path ++ [name]) mount childMount
        (let? _ := call CReadDir (path ++ [name]) in eachEntry (validateEntry mount (path ++ [name])) es)
  | _ => Ok tt
  end.

Definition validateDirectoryTree (mount : Z) (path : list string) (es : list (string * fsObject)) : res unit :=
  let? _ := call CReadDir path in eachEntry (validateEntry mount path) es.

(** [OpenDirectory] of the root. *)
Definition openRoot (root : fsObject) : res (ownership * Z * list (string * fsObject)) :=
  let? _ := call COpen [] in
  match root with
  | FDir o mount es => Ok (o, mount, es)
  | FLink _ => Err ELINK
  | _ => Err (Errno 20)
  end.

Definition ValidatePrivateTree (root : fsObject) : res unit :=
  let? (_, mount, es) := openRoot root in
  let? _ := call CMount [] in
  validateDirectoryTree mount [] es.

(** [ValidatePrivateDirectoryHandle]. *)
Definition ValidatePrivateDirectoryHandle (o : ownership) : res unit :=
  let? _ := call CStat [] in
  reject negb (Z.land (oPerm o) 63 =? 0) with Message "permissions allow group or other access" in Ok tt.

(** ** Repair (repair_unix.go) *)

Fixpoint inspectEntry (mount : Z) (path : list string) (name : string) (x : fsObject) : res unit :=
  match x with
  | FLink _ => Err (Message "private data object must not be a symbolic link")
  | FDir _ childMount es =>
      let? _ := OpenAt path name in
      onChild (path ++ [name]) mount childMount
        (let? _ := call CReadDir (path ++ [name]) in
         let? _ := eachEntry (inspectEntry mount (path ++ [name])) es in
         call CSeek (path ++ [name]))
  | FFile _ _ =>
      match (let? _ := OpenAt path name in call CStat (path ++ [name])) with
      | Err e => Err (Wrap "private data object must be a regular file or directory" e)
      | Ok _ => call CClose (path ++ [name])
      end
  | FSpecial => Err (Wrap "private data object must be a regular file or directory" (Message "is not a regular file"))
  end.

Definition inspectRepairTree (mount : Z) (path : list string) (es : list (string * fsObject)) : res unit :=
  let? _ := call CReadDir path in
  let? _ := eachEntry (inspectEntry mount path) es in
  call CSeek path.

Definition privateOwner : Type := Z * Z.

Definition repairPrivateHandle (path : list string) (owner : privateOwner) (mode : Z) (o : ownership) : res unit * ownership :=
  match call CChown path with
  | Err e => (Err e, o)
  | Ok _ =>
      match call CChmod path with
      | Err e => (Err e, mkOwnership owner.1 owner.2 (oPerm o))
      | Ok _ => (Ok tt, mkOwnership owner.1 owner.2 mode)
      end
  end.

Definition repairEach (f : string → fsObject → res unit * fsObject) : list (string * fsObject) → res unit * list (string * fsObject) :=
  fix go es :=
    match es with
    | [] => (Ok tt, [])
    | (n, x) :: es =>
        match f n x with
        | (Err e, x') => (Err e, (n, x') :: es)
        | (Ok _, x') => let '(r, es') := go es in (r, (n, x') :: es')
        end
    end.

(** The close of an object after its repair: the repair's error comes first. *)
Definition closing {A} (path : list string) (r : res unit * A) : res unit * A :=
  match r with (Err e, a) => (Err e, a) | (Ok _, a) => (call CClose path, a) end.

Fixpoint repairEntry (mount : Z) (owner : privateOwner) (path : list string) (name : string) (x : fsObject) : res unit * fsObject :=
  match OpenAt path name with
  | Err e => (Err e, x)
  | Ok _ =>
      let path := path ++ [name] in
      match x with
      | FDir o childMount es =>
          closing path
            (match (let? _ := call CMount path in
                    reject negb (childMount =? mount) with Message "private directory crosses a mount boundary" in
                    call CReadDir path) with
             | Err e => (Err e, x)
             | Ok _ =>
                 match repairEach (repairEntry mount owner path) es with
                 | (Err e, es') => (Err e, FDir o childMount es')
                 | (Ok _, es') => let '(r, o') := repairPrivateHandle path owner 448 o in (r, FDir o' childMount es')
                 end
             end)
      | FFile o c =>
          match call CStat path with
          | Err e => (Err e, x)
          | Ok _ => closing path (let '(r, o') := repairPrivateHandle path owner 384 o in (r, FFile o' c))
          end
      | FLink _ => (Err ELINK, x)
      | FSpecial => (Err (Message "is not a regular file"), x)
      end
  end.

(** [repairDirectoryTree] of the root. *)
Definition repairDirectoryTree (mount : Z) (owner : privateOwner) (o : ownership) (es : list (string * fsObject))
    : res unit * ownership * list (string * fsObject) :=
  match call CReadDir [] with
  | Err e => (Err e, o, es)
  | Ok _ =>
      match repairEach (repairEntry mount owner []) es with
      | (Err e, es') => (Err e, o, es')
      | (Ok _, es') => let '(r, o') := repairPrivateHandle [] owner 448 o in (r, o', es')
      end
  end.

(** [RepairPrivateTree]; [namespace] is the answer of [ValidatePath] for the root. *)
Definition RepairPrivateTree (namespace : res unit) (root : fsObject) : res unit * fsObject :=
  match (let? _ := namespace in
         let? (o, mount, es) := openRoot root in
         let? _ := call CMount [] in
         let? _ := call CStat [] in
         let? _ := inspectRepairTree mount [] es in
         Ok (o, mount, es)) with
  | Err e => (Err e, root)
  | Ok (o, mount, es) =>
      let '(r, o', es') := repairDirectoryTree mount (oUid o, oGid o) o es in (r, FDir o' mount es')
  end.
End private.

(** ** What a repair changes *)

(** The object without its owners and permissions. *)
Fixpoint strip (x : fsObject) : fsObject :=
  match x with
  | FFile _ c => FFile (mkOwnership 0 0 0) c
  | FDir _ m es => FDir (mkOwnership 0 0 0) m (map (λ e, (e.1, strip e.2)) es)
  | x => x
  end.

(** Every object belongs to [owner] alone, on one mount. *)
Fixpoint private_at (owner : privateOwner) (mount : Z) (x : fsObject) : Prop :=
  match x with
  | FFile o _ => o = mkOwnership owner.1 owner.2 384
  | FDir o m es => o = mkOwnership owner.1 owner.2 448 ∧ m = mount ∧ foldr (λ e P, private_at owner mount e.2 ∧ P) True es
  | FLink _ | FSpecial => False
  end.

(** Only directories of one mount and regular files, under proper names. *)
Fixpoint sound_at (mount : Z) (name : string) (x : fsObject) : Prop :=
  match x with
  | FFile _ _ => validComponent name = true
  | FDir _ m es => validComponent name = true ∧ m = mount ∧ foldr (λ e P, sound_at mount e.1 e.2 ∧ P) True es
  | FLink _ | FSpecial => False
  end.

Lemma foldr_Forall {A} (P : A → Prop) l : foldr (λ x Q, P x ∧ Q) True l ↔ Forall P l.
Proof. induction l as [|x l IH]; cbn; [by split|]. by rewrite IH, Forall_cons. Qed.

Lemma eachEntry_ok f es : eachEntry f es = Ok tt → Forall (λ e, f e.1 e.2 = Ok tt) es.
Proof.
  induction es as [|[n x] es IH]; [constructor|]. cbn. destruct (f n x) as [[]|] eqn:E; [|done]. cbn. constructor; auto.
Qed.

Lemma eachEntry_all f es : Forall (λ e, f e.1 e.2 = Ok tt) es → eachEntry f es = Ok tt.
Proof. induction 1 as [|[n x] es Hx _ IH]; [done|]. cbn in *. by rewrite Hx. Qed.

Section repair_facts.
Variable callFault : diskCall → list string → option error.

Lemma OpenAt_valid path name : OpenAt callFault path name = Ok tt → validComponent name = true.
Proof. unfold OpenAt. by destruct (validComponent name). Qed.

Lemma inspectEntry_sound x : ∀ mount path name, inspectEntry callFault mount path name x = Ok tt → sound_at mount name x.
Proof.
  induction x as [o c|o m es IH|t|] using fsObject_induction; intros mount path name; cbn [inspectEntry sound_at]; try done.
  - destruct (OpenAt _ _ _) as [[]|] eqn:Eo; cbn; [|done]. intros _. by eapply OpenAt_valid.
  - destruct (OpenAt _ _ _) as [[]|] eqn:Eo; cbn; [|done]. unfold onChild.
    destruct (call _ CMount _) as [[]|]; cbn; [|done]. destruct (Z.eqb_spec m mount); cbn; [|done].
    destruct (call _ CReadDir _) as [[]|]; cbn; [|done].
    destruct (eachEntry _ _) as [[]|] eqn:Ee; cbn; [|done]. intros _.
    split_and!; [by eapply OpenAt_valid|done|]. apply (foldr_Forall (λ e, sound_at mount e.1 e.2)).
    apply eachEntry_ok in Ee. rewrite Forall_forall in IH, Ee |- *. intros [n x] Hx. by eapply (IH _ Hx), (Ee _ Hx).
Qed.

Lemma repairHandle_ok path owner mode o : (repairPrivateHandle callFault path owner mode o).1 = Ok tt →
  (repairPrivateHandle callFault path owner mode o).2 = mkOwnership owner.1 owner.2 mode.
Proof. unfold repairPrivateHandle. destruct (call _ CChown _); [|done]. by destruct (call _ CChmod _). Qed.

Definition stripEntry (e : string * fsObject) : string * fsObject := (e.1, strip e.2).

Lemma repairEach_strip f es :
  Forall (λ e, ∀ n, strip (f n e.2).2 = strip e.2) es → map stripEntry (repairEach f es).2 = map stripEntry es.
Proof.
  induction 1 as [|[n x] es Hx _ IH]; [done|]. cbn in *. specialize (Hx n).
  destruct (f n x) as [[[]|e] x'] eqn:E; cbn in *.
  - destruct (repairEach f es) as [r es']. cbn in *. unfold stripEntry at 1 3. cbn. by rewrite Hx, IH.
  - unfold stripEntry at 1 3. cbn. by rewrite Hx.
Qed.

Lemma repairEntry_strip x : ∀ mount owner path name, strip (repairEntry callFault mount owner path name x).2 = strip x.
Proof.
  induction x as [o c|o m es IH|t|] using fsObject_induction; intros mount owner path name; cbn [repairEntry];
    destruct (OpenAt _ _ _); try done.
  - destruct (call _ CStat _); [|done]. destruct (repairPrivateHandle _ _ _ _ _) as [[] o']; done.
  - destruct (res_bind _ _) as [[]|]; [|done].
    pose proof (repairEach_strip (repairEntry callFault mount owner (path ++ [name])) es) as Hs.
    destruct (repairEach _ es) as [[[]|e] es']; cbn in Hs.
    + destruct (repairPrivateHandle _ _ _ _ _) as [[] o']; cbn [closing snd strip]; f_equal; apply Hs; eapply Forall_impl; [exact IH|auto| exact IH|auto].
    + cbn [closing snd strip]. f_equal. apply Hs. eapply Forall_impl; [exact IH|auto].
Qed.

Lemma repairEach_private owner mount f es es' :
  Forall (λ e, ∀ n, (f n e.2).1 = Ok tt → private_at owner mount (f n e.2).2) es →
  repairEach f es = (Ok tt, es') → Forall (λ e, private_at owner mount e.2) es'.
Proof.
  intros Hf. revert es'. induction Hf as [|[n x] es Hx _ IH]; intros es'; cbn; [intros [= <-]; constructor|].
  specialize (Hx n). cbn in Hx. destruct (f n x) as [[[]|e] x'] eqn:E; [|done]. destruct (repairEach f es) as [r es1].
  intros [= -> <-]. constructor; [by apply Hx|by apply IH].
Qed.

Lemma repairEntry_private x : ∀ mount owner path name,
  (repairEntry callFault mount owner path name x).1 = Ok tt → private_at owner mount (repairEntry callFault mount owner path name x).2.
Proof.
  induction x as [o c|o m es IH|t|] using fsObject_induction; intros mount owner path name; cbn [repairEntry];
    destruct (OpenAt _ _ _); try done.
  - destruct (call _ CStat _); [|done]. pose proof (repairHandle_ok (path ++ [name]) owner 384 o) as Hh.
    destruct (repairPrivateHandle _ _ _ _ _) as [[[]|] o']; cbn in *; [|done]. intros _. by apply Hh.
  - destruct (call _ CMount _) as [[]|]; cbn; [|done]. destruct (Z.eqb_spec m mount) as [->|]; cbn; [|done].
    destruct (call _ CReadDir _) as [[]|]; cbn; [|done].
    destruct (repairEach _ es) as [[[]|e] es'] eqn:Ee; [|done].
    pose proof (repairHandle_ok (path ++ [name]) owner 448 o) as Hh.
    destruct (repairPrivateHandle _ _ _ _ _) as [[[]|] o']; cbn [closing fst snd] in *; [|done]. intros _. cbn [private_at].
    split_and!; [by apply Hh|done|]. apply (foldr_Forall (λ e, private_at owner mount e.2)).
    eapply repairEach_private; [|exact Ee]. eapply Forall_impl; [exact IH|]. intros [n x] Hx n'. apply Hx.
Qed.
End repair_facts.

(** ** Validation of a private tree *)

(** No call fails. *)
Definition noFault (c : diskCall) (path : list string) : option error := None.

Lemma strip_sound x : ∀ y mount name, strip y = strip x → sound_at mount name x → sound_at mount name y.
Proof.
  induction x as [o c|o m es IH|t|] using fsObject_induction; intros [o' c'|o' m' entries|t'|] mount name; cbn; try done.
  intros [= -> He] (Hn & -> & Hs). split_and!; [done|done|].
  apply (foldr_Forall (λ e, sound_at mount e.1 e.2)). apply (foldr_Forall (λ e, sound_at mount e.1 e.2)) in Hs.
  revert entries He Hs. induction IH as [|[n x] es Hx _ IHes]; intros [|[n' y] entries] He Hs; try done.
  cbn in He. injection He as -> Hy He. apply Forall_cons in Hs as [Hsx Hs]. constructor; [by eapply Hx|]. by apply IHes.
Qed.

Lemma sound_validates x : ∀ mount path name, sound_at mount name x → validateEntry noFault mount path name x = Ok tt.
Proof.
  induction x as [o c|o m es IH|t|] using fsObject_induction; intros mount path name; cbn; try done.
  intros (Hn & -> & Hs). unfold OpenAt. rewrite Hn. cbn. unfold onChild. cbn. rewrite Z.eqb_refl. cbn.
  apply (foldr_Forall (λ e, sound_at mount e.1 e.2)) in Hs. rewrite eachEntry_all; [done|].
  rewrite Forall_forall in IH, Hs |- *. intros [n x] Hx. by apply (IH _ Hx), (Hs _ Hx).
Qed.

Lemma repairTree_strip callFault mount owner o es r o' es' :
  repairDirectoryTree callFault mount owner o es = (r, o', es') → map stripEntry es' = map stripEntry es.
Proof.
  unfold repairDirectoryTree. destruct (call _ CReadDir _); [|by intros [= _ _ <-]].
  pose proof (repairEach_strip (repairEntry callFault mount owner []) es) as Hs.
  assert (Hall : Forall (λ e, ∀ n, strip (repairEntry callFault mount owner [] n e.2).2 = strip e.2) es).
  { apply Forall_forall. intros e _ n. apply repairEntry_strip. }
  specialize (Hs Hall). destruct (repairEach _ es) as [[[]|e] es1]; cbn in Hs.
  - destruct (repairPrivateHandle _ _ _ _ _) as [r' o1]. by intros [= _ _ <-].
  - by intros [= _ _ <-].
Qed.

(** A repair that succeeds leaves the same tree of names and contents in which
    every directory has mode 0700, every file 0600, and all belong to the owner of the
    root on the root's mount; that tree passes the validation of private trees and of
    private directories. *)
Theorem repaired_tree_private callFault namespace root root' :
  RepairPrivateTree callFault namespace root = (Ok tt, root') →
  ∃ o mount es, root = FDir o mount es ∧ private_at (oUid o, oGid o) mount root' ∧ strip root' = strip root ∧
    ValidatePrivateTree noFault root' = Ok tt ∧
    ∃ o' es', root' = FDir o' mount es' ∧ ValidatePrivateDirectoryHandle noFault o' = Ok tt.
Proof.
  unfold RepairPrivateTree. destruct namespace; cbn; [|done]. unfold openRoot. destruct (call _ COpen _); cbn; [|done].
  destruct root as [|o mount es| |]; cbn; try done.
  destruct (call _ CMount _); cbn; [|done]. destruct (call _ CStat _); cbn; [|done].
  unfold inspectRepairTree. destruct (call callFault CReadDir []) as [[]|] eqn:Er; cbn; [|done].
  destruct (eachEntry _ es) as [[]|] eqn:Ei; cbn; [|done]. destruct (call _ CSeek _); cbn; [|done].
  destruct (repairDirectoryTree _ _ _ _ _) as [[r o'] es'] eqn:Et. intros [= -> <-].
  pose proof (repairTree_strip _ _ _ _ _ _ _ _ Et) as Hstrip. unfold repairDirectoryTree in Et. rewrite Er in Et.
  destruct (repairEach _ es) as [[[]|e] es1] eqn:Ee; [|done]. pose proof (repairHandle_ok callFault [] (oUid o, oGid o) 448 o) as Hh.
  destruct (repairPrivateHandle _ _ _ _ _) as [r1 o1]. cbn in Hh. injection Et as -> -> ->. specialize (Hh eq_refl). subst o'.
  assert (Hs : strip (FDir (mkOwnership (oUid o) (oGid o) 448) mount es') = strip (FDir o mount es)).
  { cbn [strip]. f_equal. exact Hstrip. }
  assert (Hsound : Forall (λ e, sound_at mount e.1 e.2) es').
  { apply eachEntry_ok in Ei.
    assert (Hf : sound_at mount "d" (FDir o mount es)).
    { cbn. split_and!; [done|done|]. apply (foldr_Forall (λ e, sound_at mount e.1 e.2)).
      eapply Forall_impl; [exact Ei|]. intros [n x]. apply inspectEntry_sound. }
    apply (strip_sound _ _ _ _ Hs) in Hf as (_ & _ & Hf). by apply foldr_Forall in Hf. }
  exists o, mount, es. split_and!; [done| |done| |].
  - cbn. split_and!; [done|done|]. apply (foldr_Forall (λ e, private_at (oUid o, oGid o) mount e.2)).
    eapply repairEach_private; [|exact Ee]. apply Forall_forall. intros e _ n. apply repairEntry_private.
  - unfold ValidatePrivateTree, openRoot, validateDirectoryTree. cbn. apply eachEntry_all.
    eapply Forall_impl; [exact Hsound|]. intros [n x]. apply sound_validates.
  - by eexists _, _.
Qed.

(** Whatever calls fail, a repair changes nothing but owners and permissions; and
    when anything in the tree is a link, a special file, on another mount or under an
    improper name, it changes nothing at all and fails. *)
Theorem repair_all_or_nothing callFault namespace root :
  strip (RepairPrivateTree callFault namespace root).2 = strip root ∧
  ((∀ o mount es, root = FDir o mount es → ¬ Forall (λ e, sound_at mount e.1 e.2) es) →
   ∃ e, RepairPrivateTree callFault namespace root = (Err e, root)).
Proof.
  unfold RepairPrivateTree. destruct namespace as [[]|e]; cbn; [|by eauto]. unfold openRoot. destruct (call _ COpen _) as [[]|e]; cbn; [|by eauto].
  destruct root as [|o mount es| |]; cbn; [by eauto| |by eauto..].
  destruct (call _ CMount _) as [[]|e]; cbn; [|by eauto]. destruct (call _ CStat _) as [[]|e]; cbn; [|by eauto].
  destruct (inspectRepairTree _ _ _ _) as [[]|e] eqn:Ei; cbn; [|by eauto].
  destruct (repairDirectoryTree _ _ _ _ _) as [[r o'] es'] eqn:Et. apply repairTree_strip in Et. split; [cbn; f_equal; exact Et|].
  intros Hn. exfalso. apply (Hn o mount es eq_refl). unfold inspectRepairTree in Ei.
  destruct (call _ CReadDir _) as [[]|]; cbn in Ei; [|done]. destruct (eachEntry _ es) as [[]|] eqn:Ee; cbn in Ei; [|done].
  apply eachEntry_ok in Ee. eapply Forall_impl; [exact Ee|]. intros [n x]. apply inspectEntry_sound.
Qed.

(** ** A tree *)

Definition sampleTree : fsObject :=
  FDir (mkOwnership 1000 1000 493) 7
    [("queue", FDir (mkOwnership 0 0 493) 7 [("m1", FFile (mkOwnership 0 0 420) "mail")]); ("dkim.pem", FFile (mkOwnership 1000 0 416) "key")].

Lemma repaired_tree_private_witness :
  (RepairPrivateTree noFault (Ok tt) sampleTree).2 =
    FDir (mkOwnership 1000 1000 448) 7
      [("queue", FDir (mkOwnership 1000 1000 448) 7 [("m1", FFile (mkOwnership 1000 1000 384) "mail")]);
       ("dkim.pem", FFile (mkOwnership 1000 1000 384) "key")] ∧
  ∃ o mount es, sampleTree = FDir o mount es ∧ private_at (oUid o, oGid o) mount (RepairPrivateTree noFault (Ok tt) sampleTree).2 ∧
    strip (RepairPrivateTree noFault (Ok tt) sampleTree).2 = strip sampleTree ∧
    ValidatePrivateTree noFault (RepairPrivateTree noFault (Ok tt) sampleTree).2 = Ok tt ∧
    ∃ o' es', (RepairPrivateTree noFault (Ok tt) sampleTree).2 = FDir o' mount es' ∧ ValidatePrivateDirectoryHandle noFault o' = Ok tt.
Proof.
  split; [vm_compute; reflexivity|]. apply (repaired_tree_private noFault (Ok tt)). vm_compute. reflexivity.
Defined.

Lemma repair_all_or_nothing_witness :
  ∃ e, RepairPrivateTree noFault (Ok tt) (FDir (mkOwnership 0 0 493) 7 [("a", FFile (mkOwnership 0 0 420) "x"); ("b", FLink "/etc")])
    = (Err e, FDir (mkOwnership 0 0 493) 7 [("a", FFile (mkOwnership 0 0 420) "x"); ("b", FLink "/etc")]).
Proof.
  apply (repair_all_or_nothing noFault (Ok tt)). intros o mount es [= <- <- <-] Hs.
  apply Forall_cons in Hs as [_ Hs]. apply Forall_cons in Hs as [Hs _]. exact Hs.
Defined.
