(* ===== verification/Duration.v ===== *)
(** * Durations (time.ParseDuration)

    A sequence of decimal numbers with units, in nanoseconds.  The part after a
    decimal point is scaled in floating point: that scaling is the parameter
    [scaled f unit digits], the truncated product of [f] and [unit] over ten to the
    number of digits. *)

From S2P Require Import Prelude Errors GoLib Utf8 Text.
Open Scope Z_scope.

Definition unitMap (u : string) : option Z :=
  if bool_decide (u = "ns") then Some 1
  else if bool_decide (u = "us") then Some 1000
  else if bool_decide (u = of_list [chr 194; chr 181; chr 115]) then Some 1000
  else if bool_decide (u = of_list [chr 206; chr 188; chr 115]) then Some 1000
  else if bool_decide (u = "ms") then Some 1000000
  else if bool_decide (u = "s") then Some 1000000000
  else if bool_decide (u = "m") then Some 60000000000
  else if bool_decide (u = "h") then Some 3600000000000
  else None.

Definition two63 : Z := 9223372036854775808.

(** [leadingInt]: the number and the rest, or overflow. *)
Fixpoint leadingInt (x : Z) (s : bytes) : option (Z * bytes) :=
  match s with
  | c :: s' =>
      if is_digit c then
        if two63 / 10 <? x then None
        else
          let x := x * 10 + (byte_val c - 48) in
          if two63 <? x then None else leadingInt x s'
      else Some (x, s)
  | [] => Some (x, [])
  end.

(** [leadingFraction]: the digits that fit, how many they are, and the rest. *)
Fixpoint leadingFraction (x digits : Z) (overflow : bool) (s : bytes) : Z * Z * bytes :=
  match s with
  | c :: s' =>
      if is_digit c then
        if overflow then leadingFraction x digits true s'
        else if (two63 - 1) / 10 <? x then leadingFraction x digits true s'
        else
          let y := x * 10 + (byte_val c - 48) in
          if two63 <? y then leadingFraction x digits true s'
          else leadingFraction y (digits + 1) false s'
      else (x, digits, s)
  | [] => (x, digits, [])
  end.

Definition number_char (c : ascii) : bool := is_char 46 c || is_digit c.

(** The unit: everything up to the next number. *)
Fixpoint leadingUnit (s : bytes) : bytes * bytes :=
  match s with
  | c :: s' => if number_char c then ([], s) else let '(u, r) := leadingUnit s' in (c :: u, r)
  | [] => ([], [])
  end.

Definition errDuration : error := Message "time: invalid duration".

Section duration.
Variable scaled : Z → Z → Z → Z.

(** One number with its unit: its nanoseconds and the rest. *)
Definition durationPart (s : bytes) : res (Z * bytes) :=
  match s with
  | c :: _ =>
      reject negb (number_char c) with errDuration in
      match leadingInt 0 s with
      | None => Err errDuration
      | Some (v, s1) =>
          let pre := negb (length s =? length s1)%nat in
          let '(f, digits, s2, post) :=
            match s1 with
            | d :: s1' =>
                if is_char 46 d then
                  let '(f, digits, r) := leadingFraction 0 0 false s1' in
                  (f, digits, r, negb (length s1' =? length r)%nat)
                else (0, 0, s1, false)
            | [] => (0, 0, s1, false)
            end in
          reject negb pre && negb post with errDuration in
          let '(u, s3) := leadingUnit s2 in
          reject bool_decide (u = []) with errDuration in
          match unitMap (of_list u) with
          | None => Err errDuration
          | Some unit =>
              reject two63 / unit <? v with errDuration in
              let v := v * unit in
              let v := if 0 <? f then v + scaled f unit digits else v in
              reject (0 <? f) && (two63 <? v) with errDuration in
              Ok (v, s3)
          end
      end
  | [] => Err errDuration
  end.

Fixpoint durationParts (fuel : nat) (d : Z) (s : bytes) : res Z :=
  match s with
  | [] => Ok d
  | _ =>
      match fuel with
      | O => Err errDuration
      | S fuel =>
          let? (v, s) := durationPart s in
          reject two63 <? d + v with errDuration in
          durationParts fuel (d + v) s
      end
  end.

(** Every part takes at least one byte, so the length is fuel enough
    ([durationParts_fuel]). *)
Definition ParseDuration (value : string) : res Z :=
  let s := str_list value in
  let '(neg, s) :=
    match s with
    | c :: s' => if is_char 45 c then (true, s') else if is_char 43 c then (false, s') else (false, s)
    | [] => (false, s)
    end in
  if bool_decide (s = str_list "0") then Ok 0
  else
    reject bool_decide (s = []) with errDuration in
    let? d := durationParts (length s) 0 s in
    if neg : bool then Ok (- d)
    else reject two63 - 1 <? d with errDuration in Ok d.

(** [config.Duration]: the zero duration for a text that does not parse. *)
Definition Duration (value : string) : Z := match ParseDuration value with Ok d => d | Err _ => 0 end.

(** ** The result is a 64-bit duration *)

Hypothesis scaled_nonneg : ∀ f unit digits, 0 ≤ f → 0 ≤ unit → 0 ≤ scaled f unit digits.

Lemma leadingInt_range s : ∀ x v r, 0 ≤ x → leadingInt x s = Some (v, r) → 0 ≤ v ∧ (length r ≤ length s)%nat.
Proof.
  induction s as [|c s IH]; intros x v r Hx; cbn [leadingInt]; [intros [= <- <-]; done|].
  destruct (is_digit c) eqn:Ed; [|intros [= <- <-]; cbn; split; [done|lia]].
  destruct (_ <? x); [done|]. destruct (_ <? _); [done|]. intros Hl. apply IH in Hl as [? ?]; [cbn; split; [done|lia]|].
  unfold is_digit, between in Ed. lia.
Qed.

Lemma leadingFraction_range s : ∀ x d o f d' r, 0 ≤ x → leadingFraction x d o s = (f, d', r) →
  0 ≤ f ∧ (length r ≤ length s)%nat.
Proof.
  induction s as [|c s IH]; intros x d o f d' r Hx; cbn [leadingFraction]; [by intros [= <- <- <-]|].
  destruct (is_digit c) eqn:Ed; [|intros [= <- <- <-]; cbn; split; [done|lia]].
  assert (0 ≤ x * 10 + (byte_val c - 48)) by (unfold is_digit, between in Ed; lia).
  destruct o; [|destruct (_ <? x); [|destruct (_ <? _)]]; intros Hl; apply IH in Hl as [? ?]; try done; cbn; split; (done || lia).
Qed.

Lemma leadingUnit_length s u r : leadingUnit s = (u, r) → length s = (length u + length r)%nat.
Proof.
  revert u r. induction s as [|c s IH]; intros u r; cbn [leadingUnit]; [by intros [= <- <-]|].
  destruct (number_char c); [by intros [= <- <-]|]. destruct (leadingUnit s) as [u0 r0].
  intros [= <- <-]. cbn. by rewrite (IH u0 r0).
Qed.

Lemma unitMap_pos u n : unitMap u = Some n → 0 < n.
Proof. unfold unitMap. repeat case_bool_decide; intros [= <-]; lia. Qed.

Lemma durationPart_range s v r : durationPart s = Ok (v, r) → 0 ≤ v ∧ (length r < length s)%nat.
Proof.
  unfold durationPart. destruct s as [|c s0]; [done|]. destruct (negb _); [done|].
  destruct (leadingInt 0 (c :: s0)) as [[x s1]|] eqn:Ei; [|done].
  apply leadingInt_range in Ei as [Hx Hs1]; [|done].
  set (m := match s1 with [] => _ | _ => _ end).
  assert (Hm : 0 ≤ m.1.1.1 ∧ (length m.1.2 ≤ length s1)%nat).
  { unfold m. destruct s1 as [|d s1']; [done|]. destruct (is_char 46 d); [|done].
    destruct (leadingFraction 0 0 false s1') as [[f dg] r0] eqn:Ef.
    apply leadingFraction_range in Ef as [? ?]; [|done]. cbn. split; [done|lia]. }
  destruct m as [[[f dg] s2] post]. cbn [fst snd] in Hm. destruct (negb _ && _); [done|].
  destruct (leadingUnit s2) as [u s3] eqn:Eu. apply leadingUnit_length in Eu.
  case_bool_decide as Hu; [done|]. destruct (unitMap (of_list u)) as [unit|] eqn:Em; [|done].
  apply unitMap_pos in Em. destruct (_ <? x); [done|]. destruct (_ && _); [done|].
  intros [= <- <-]. split.
  - destruct (0 <? f); [|nia]. pose proof (scaled_nonneg f unit dg ltac:(lia) ltac:(lia)). nia.
  - destruct u; [done|]. cbn in *. lia.
Qed.

Lemma durationParts_range fuel : ∀ d s v, 0 ≤ d ≤ two63 → durationParts fuel d s = Ok v → 0 ≤ v ≤ two63.
Proof.
  induction fuel as [|fuel IH]; intros d s v Hd; destruct s as [|c s]; cbn [durationParts];
    try (by intros [= <-]); try done.
  destruct (durationPart (c :: s)) as [[x r]|] eqn:Ep; [|done]. cbn [res_bind].
  apply durationPart_range in Ep as [Hx _]. destruct (Z.ltb_spec two63 (d + x)); [done|].
  apply IH. lia.
Qed.

(** More fuel than bytes changes nothing. *)
Lemma durationParts_fuel f1 f2 d s :
  (length s ≤ f1)%nat → (length s ≤ f2)%nat → durationParts f1 d s = durationParts f2 d s.
Proof.
  revert f2 d s. induction f1 as [|f1 IH]; intros f2 d s H1 H2.
  { destruct s; [by destruct f2|cbn in H1; lia]. }
  destruct s as [|c s]; [by destruct f2|]. destruct f2 as [|f2]; [cbn in H2; lia|]. cbn [durationParts].
  destruct (durationPart (c :: s)) as [[x r]|] eqn:Ep; [|done]. cbn [res_bind].
  apply durationPart_range in Ep as [_ Hr]. destruct (_ <? _); [done|]. cbn in *. apply IH; lia.
Qed.

Lemma ParseDuration_in64 value d : ParseDuration value = Ok d → in64 d.
Proof.
  unfold ParseDuration. destruct (match str_list value with [] => _ | _ => _ end) as [neg s].
  destruct (bool_decide (s = str_list "0")); [intros [= <-]; lia64|].
  destruct (bool_decide (s = [])); [done|].
  destruct (durationParts (length s) 0 s) as [v|] eqn:Ev; [|done]. cbn [res_bind].
  apply durationParts_range in Ev; [|unfold two63; lia].
  destruct neg; [intros [= <-]; unfold two63 in *; lia64|].
  destruct (Z.ltb_spec (two63 - 1) v); [done|]. intros [= <-]. unfold two63 in *. lia64.
Qed.
End duration.
