(* ===== verification/Message.v ===== *)
(** * Preparing a submission (src/internal/message/message.go)

    [PrepareContext] reads a submitted message, rewrites its line ends, parses
    the header into fields, checks the originator fields, and writes the message
    that is signed and queued: trace and missing fields first, then the
    submitted fields without those that must not leave the server, then the body.

    The context is a function [ctx] from the places where the code asks for
    [ctx.Err()] to the answer.  net/mail's address and date parsers, the Unicode
    case tables and the IDNA profile are parameters; [Stamp] holds what the call
    takes from the clock and the random source. *)

From S2P Require Import Prelude Errors GoLib Utf8 Mailbox Text.
Open Scope Z_scope.

Definition maxLineLength : Z := 998.
Definition maxTraceLength : Z := 128.
Definition maxHeaderBytes : Z := 1048576.
Definition maxHeaderFields : nat := 1000.

Definition errEmpty : error := Message "message is empty".
Definition errMalformed : error := Message "message header is malformed".
Definition errNoFrom : error := Message "message has no From header".
Definition errManyFrom : error := Message "message has more than one From header".
Definition errBinary : error := Message "message contains a NUL byte".
Definition errLongLine : error :=
  Message "message contains a line longer than 998 octets; use quoted-printable or base64".
Definition errHeaderSize : error := Message "message header exceeds 1048576 octets".
Definition errFieldCount : error := Message "message header exceeds 1000 fields".
Definition errResent : error := Message "resent headers are not supported".
Definition errHeaderUTF8 : error := Message "message header contains invalid UTF-8".
Definition errManySender : error := Message "message has more than one Sender header".

Record Options := mkOptions {
  Hostname : string;
  Helo : string;
  Remote : string;
  TLS : string;
  MaxBytes : Z
}.

Record PreparedMessage := mkMessage {
  Data : bytes;
  From : string;
  mSender : string;
  mID : string;
  NeedsUTF8 : bool;
  mEightBit : bool
}.

Record field := mkField { f_name : string; f_value : bytes }.

(** Where the code polls the context. *)
Inductive site :=
  | AtRead (k : nat)
  | AtStart
  | AtByte (i : Z)
  | AtLine (offset : nat)
  | AtScanned
  | AtField (i : nat).

(** What the call takes from [time.Now] and [rand.Text]. *)
Record Stamp := mkStamp {
  receivedAt : string;
  datedAt : string;
  unix36 : string;
  randText : string
}.

(** net/mail: [parser.Parse(text).Address], and whether [ParseDate] accepts.  An
    address has no control character its text does not have: RFC 5322 admits none
    in an addr-spec. *)
Class MailParser := {
  ParseMailbox : string → res string;
  ParseDate : string → bool;
  parse_controls : ∀ text a, ParseMailbox text = Ok a →
    existsb is_control (str_list text) = false → existsb is_control (str_list a) = false
}.

(** ** Field text *)

Definition field_text (f : field) : string :=
  of_list (trim_space (remove_crlf (cut_byte 58 (f_value f)).1.2)).

Definition firstField (fields : list field) (name : string) : option field :=
  head (filter (λ f, f_name f = name) fields).

Definition validFieldName (name : bytes) : bool :=
  match name with
  | [] => false
  | _ => forallb (λ c, (33 <=? byte_val c) && (byte_val c <=? 126) && negb (is_char 58 c)) name
  end.

Definition containsHeaderControls (b : bytes) : bool :=
  existsb is_control b.

Definition fieldHasHighBit (value : bytes) : bool := existsb (λ b, 128 <=? byte_val b) value.

Definition canonicalHeader (name : string) : string :=
  if bool_decide (name = "sender") then "Sender" else "From".

Definition needsUTF8Addr (addr : string) : bool :=
  fieldHasHighBit (str_list addr) || negb (ValidString addr).

Definition validMessageID (value : string) : bool :=
  let v := trim_space (str_list value) in
  if (length v <? 5)%nat || negb (is_prefix ["<"%char] v) || negb (has_suffix [">"%char] v)
  then false
  else
    let inner := take (length v - 2) (drop 1 v) in
    match last_index 64 inner with
    | None => false
    | Some at_ =>
        if (at_ =? 0)%nat || (at_ =? length inner - 1)%nat then false
        else forallb (λ c, (32 <? byte_val c) && (byte_val c <? 127)) inner
    end.

Definition ascii_body (body : bytes) : bool := forallb (λ c, byte_val c <=? 127) body.

Definition protocol (state : string) : string :=
  if bool_decide (state = "") then "ESMTPA" else "ESMTPSA".

(** The runes [traceValue] keeps are single bytes. *)
Fixpoint trace_runes (rs : list (Z * bool)) (n : Z) : bytes :=
  match rs with
  | [] => []
  | (r, _) :: rs =>
      if maxTraceLength <=? n then []
      else if (r <? 33) || (126 <? r) || (r =? 40) || (r =? 41) || (r =? 92)
      then trace_runes rs n
      else chr r :: trace_runes rs (n + 1)
  end.

Definition traceValue (value : string) : bytes :=
  match trace_runes (runes (str_list value)) 0 with
  | [] => str_list "unknown"
  | t => t
  end.

Definition messageID (st : Stamp) (hostname : string) : bytes :=
  str_list "<" ++ str_list (unix36 st) ++ str_list "." ++ str_list (ToLower (randText st))
  ++ str_list "@" ++ str_list hostname ++ str_list ">".

(** [strings.Trim(s, "<>")]. *)
Definition is_angle (c : ascii) : bool := is_char 60 c || is_char 62 c.
Definition trim_angles (l : bytes) : bytes :=
  rev (drop_while is_angle (rev (drop_while is_angle l))).

(** ** Splitting *)

(** [split]: the header keeps its last CRLF, the separating line is dropped. *)
Definition split (data : bytes) : bytes * bytes :=
  match index_list (crlf ++ crlf) data with
  | None => (data, [])
  | Some separator => (take (separator + 2) data, drop (separator + 4) data)
  end.

(** ** Reading, with cancellation *)

Section prepare.
Context `{MailParser} `{CaseTables}.
Variable ToASCII : string → res string.
Variable ctx : site → option error.

Definition poll (s : site) : res unit := match ctx s with Some e => Err e | None => Ok tt end.

(** [io.ReadAll] of a [contextReader], under an [io.LimitReader] when [limit] is
    given.  [reads] are the results of the underlying [Read] calls before the
    end of input. *)
Fixpoint readAll (k : nat) (limit : option Z) (reads : list (bytes * option error))
    : res bytes :=
  if match limit with Some n => n <=? 0 | None => false end then Ok []
  else
    let? _ := poll (AtRead k) in
    match reads with
    | [] => Ok []
    | (chunk, err) :: rest =>
        let got := match limit with Some n => take (Z.to_nat n) chunk | None => chunk end in
        let limit' := (λ n, n - Z.of_nat (length got)) <$> limit in
        if (length got <? length chunk)%nat then Ok got
        else match err with
             | Some e => Err e
             | None => let? more := readAll (S k) limit' rest in Ok (got ++ more)
             end
    end.

(** [normalize]'s loop from byte [i], with [length] bytes on the current line. *)
Fixpoint normalize_from (i len : Z) (raw : bytes) : res bytes :=
  match raw with
  | [] => Ok []
  | c :: rest =>
      let? _ := if Z.land i 4095 =? 0 then poll (AtByte i) else Ok tt in
      if is_char 13 c then
        let? out :=
          match rest with
          | d :: rest' =>
              if is_char 10 d then normalize_from (i + 2) 0 rest'
              else normalize_from (i + 1) 0 rest
          | [] => normalize_from (i + 1) 0 rest
          end in
        Ok (crlf ++ out)
      else if is_char 10 c then
        let? out := normalize_from (i + 1) 0 rest in
        Ok (crlf ++ out)
      else
        reject maxLineLength <? len + 1 with errLongLine in
        let? out := normalize_from (i + 1) (len + 1) rest in
        Ok (c :: out)
  end.

Definition normalize (raw : bytes) : res bytes :=
  reject existsb (is_char 0) raw with errBinary in
  let? out := normalize_from 0 0 raw in
  Ok (if has_suffix crlf out then out else out ++ crlf).

(** [fields[len(fields)-1].value = header[start:end]]: the last field's bytes
    grow by the folded line. *)
Definition extend_last (line : bytes) (fields : list field) : list field :=
  match last fields with
  | None => fields
  | Some f => removelast fields ++ [mkField (f_name f) (f_value f ++ line)]
  end.

(** One line of the header, terminator included. *)
Definition scan_line (line : bytes) (fields : list field) : res (list field) :=
  let text := take (length line - 2) line in
  if match line with c :: _ => is_char 32 c || is_char 9 c | [] => false end then
    reject (length fields =? 0)%nat with errMalformed in
    reject (length (trim_space text) =? 0)%nat with errMalformed in
    reject containsHeaderControls text with errMalformed in
    Ok (extend_last line fields)
  else
    match index_byte 58 line with
    | None => Err errMalformed
    | Some colon =>
        reject (colon =? 0)%nat with errMalformed in
        let name := take colon line in
        reject negb (validFieldName name) with errMalformed in
        reject containsHeaderControls (drop (S colon) text) with errMalformed in
        reject (maxHeaderFields <=? length fields)%nat with errFieldCount in
        Ok (fields ++ [mkField (ToLower (of_list name)) line])
    end.

(** [scan]'s loop over [header[offset:]].  Each line takes two bytes or more,
    so the header's length is fuel enough ([scan_fuel]). *)
Fixpoint scan_from (fuel : nat) (offset : nat) (header : bytes) (fields : list field)
    : res (list field) :=
  match header with
  | [] => Ok fields
  | _ =>
      match fuel with
      | O => Err errMalformed
      | S fuel =>
          let? _ := poll (AtLine offset) in
          match index_list crlf header with
          | None => Err errMalformed
          | Some n =>
              let? fields := scan_line (take (n + 2) header) fields in
              scan_from fuel (offset + n + 2) (drop (n + 2) header) fields
          end
      end
  end.

Definition scan (header : bytes) : res (list field) := scan_from (length header) 0 header [].

(** ** The originator fields *)

Definition validDate (value : string) : bool :=
  let value := TrimSpace value in
  if bool_decide (value = "") then false else ParseDate value.

(** [preserveLocalPartCase]. *)
Definition raw_addr (headerText : bytes) : bytes :=
  match last_index 60 headerText with
  | None => headerText
  | Some i =>
      match last_index 62 headerText with
      | Some j => if (i <? j)%nat then take (j - (i + 1)) (drop (i + 1) headerText) else headerText
      | None => headerText
      end
  end.

Definition preserveLocalPartCase (headerText parsed : string) : string :=
  match last_index 64 (str_list parsed) with
  | None => parsed
  | Some at_ =>
      let raw := trim_space (raw_addr (str_list headerText)) in
      match last_index 64 raw with
      | None => parsed
      | Some rat =>
          let domain := of_list (drop (rat + 1) raw) in
          if negb (EqualFold (of_list raw) parsed)
             && negb (EqualFold domain (str_drop (at_ + 1) parsed))
          then parsed
          else of_list (take rat raw) +:+ "@" +:+ ToLowerText domain
      end
  end.

(** [present[field.name]++] over the fields. *)
Fixpoint count_fields (i : nat) (fields : list field) (present : gmap string Z)
    : res (gmap string Z) :=
  match fields with
  | [] => Ok present
  | f :: fields =>
      let? _ := poll (AtField i) in
      count_fields (S i) fields (<[f_name f := default 0 (present !! f_name f) + 1]> present)
  end.

(** The address of an originator field. *)
Definition originator (f : field) : res string :=
  match ParseMailbox (field_text f) with
  | Err e => Err (Wrap ("invalid " +:+ canonicalHeader (f_name f) +:+ " header") e)
  | Ok address =>
      let addr := preserveLocalPartCase (field_text f) address in
      match ValidateAddress ToASCII addr with
      | Err e => Err (Wrap ("invalid " +:+ canonicalHeader (f_name f) +:+ " header") e)
      | Ok _ => Ok addr
      end
  end.

(** The loop that finds [from], [sender] and [needsUTF8]. *)
Fixpoint originators (fields : list field) (from sender : string) (needsUTF8 : bool)
    : res (string * string * bool) :=
  match fields with
  | [] => Ok (from, sender, needsUTF8)
  | f :: fields =>
      reject HasPrefix (f_name f) "resent-" with errResent in
      let high := fieldHasHighBit (f_value f) in
      reject high && negb (ValidString (of_list (f_value f))) with errHeaderUTF8 in
      let needsUTF8 := needsUTF8 || high in
      if negb (bool_decide (f_name f = "from")) && negb (bool_decide (f_name f = "sender"))
      then originators fields from sender needsUTF8
      else
        let? addr := originator f in
        let needsUTF8 := needsUTF8 || needsUTF8Addr addr in
        if bool_decide (f_name f = "from") then originators fields addr sender needsUTF8
        else
          reject negb (bool_decide (sender = "")) with errManySender in
          originators fields from addr needsUTF8
  end.

(** ** The message that leaves *)

(** [identifierDomain]. *)
Definition identifierDomain (hostname from : string) : string :=
  match last_index 64 (str_list from) with
  | Some at_ => if (at_ <? String.length from - 1)%nat then str_drop (at_ + 1) from else hostname
  | None => hostname
  end.

Definition received (opts : Options) (st : Stamp) (identifier : bytes) : bytes :=
  str_list "Received: from " ++ traceValue (Helo opts)
  ++ (if bool_decide (Remote opts = "") then []
      else str_list " (" ++ traceValue (Remote opts) ++ str_list ")")
  ++ crlf ++ [HT] ++ str_list "by " ++ str_list (Hostname opts) ++ str_list " with "
  ++ str_list (protocol (TLS opts)) ++ str_list " id " ++ trim_angles identifier ++ str_list ";"
  ++ crlf ++ [HT] ++ str_list (receivedAt st) ++ crlf.

(** Whether the first field of the name is there and usable. *)
Definition usable (ok : string → bool) (fields : list field) (name : string) : bool :=
  match firstField fields name with Some f => ok (field_text f) | None => false end.

(** The fields the server adds after the trace field. *)
Definition added (st : Stamp) (identifier : bytes) (fields : list field) (present : gmap string Z)
    (body : bytes) : bytes :=
  let tally name := default 0 (present !! name) in
  let eightBit := negb (ascii_body body) in
  let bodyUTF8 := eightBit && ValidString (of_list body) in
  let addType := (tally "content-type" =? 0) && bodyUTF8 in
  (if usable validDate fields "date" then []
   else str_list "Date: " ++ str_list (datedAt st) ++ crlf)
  ++ (if usable validMessageID fields "message-id" then []
      else str_list "Message-ID: " ++ identifier ++ crlf)
  ++ (if (tally "to" =? 0) && (tally "cc" =? 0)
      then str_list "To: undisclosed-recipients:;" ++ crlf else [])
  ++ (if addType then str_list "Content-Type: text/plain; charset=utf-8" ++ crlf else [])
  ++ (if (tally "content-transfer-encoding" =? 0) && eightBit
      then str_list "Content-Transfer-Encoding: 8bit" ++ crlf else [])
  ++ (if (tally "mime-version" =? 0) && ((0 <? tally "content-type") || addType || eightBit)
      then str_list "MIME-Version: 1.0" ++ crlf else []).

(** Whether a submitted field is written again. *)
Definition kept (fields : list field) (f : field) : bool :=
  let n := f_name f in
  if bool_decide (n = "bcc") || bool_decide (n = "resent-bcc") || bool_decide (n = "return-path")
  then false
  else if bool_decide (n = "date") then
    match firstField fields "date" with Some d => validDate (field_text d) | None => true end
  else if bool_decide (n = "message-id") then
    match firstField fields "message-id" with Some d => validMessageID (field_text d) | None => true end
  else true.

Definition copied (fields : list field) : bytes :=
  concat (f_value <$> filter (λ f, kept fields f = true) fields).

Definition PrepareContext (st : Stamp) (opts : Options) (reads : list (bytes * option error))
    : res PreparedMessage :=
  let? raw :=
    if 0 <? MaxBytes opts then
      let? raw := readAll 0 (Some (wrap64 (MaxBytes opts + 1))) reads in
      reject MaxBytes opts <? Z.of_nat (length raw) with Sentinel errOversized in
      Ok raw
    else readAll 0 None reads in
  reject (length raw =? 0)%nat with errEmpty in
  let? _ := poll AtStart in
  let? data := normalize raw in
  let (header, body) := split data in
  reject maxHeaderBytes <? Z.of_nat (length header) with errHeaderSize in
  let? fields := scan header in
  let? _ := poll AtScanned in
  let? present := count_fields 0 fields ∅ in
  let n := default 0 (present !! "from") in
  reject n =? 0 with errNoFrom in
  reject negb (n =? 1) with errManyFrom in
  let? (from, sender, needsUTF8) := originators fields "" "" false in
  let identifier := messageID st (identifierDomain (Hostname opts) from) in
  Ok (mkMessage
    (received opts st identifier ++ added st identifier fields present body
     ++ copied fields ++ crlf ++ body)
    from sender
    (match firstField fields "message-id" with
     | Some f => if validMessageID (field_text f) then TrimSpace (field_text f)
                 else of_list identifier
     | None => of_list identifier
     end)
    needsUTF8 (negb (ascii_body body))).
End prepare.

(** [Prepare]: the background context is never cancelled. *)
Definition Prepare `{MailParser} `{CaseTables} ToASCII := PrepareContext ToASCII (λ _, None).
