(* ===== verification/MessageFacts.v ===== *)
(** * What a prepared message looks like

    [normalize] is universal-newline normalisation ([normalize_reference]) and
    [scan] inverts the concatenation of well-formed fields ([scan_inverts]). *)

From S2P Require Import Prelude Errors GoLib Utf8 Mailbox Text Message.
Open Scope Z_scope.

(** ** Lines *)

(** The lines of a text whose line ends are CRLF, CR or LF; what follows the last
    line end is the last line. *)
Fixpoint lines_of (raw : bytes) : list bytes :=
  match raw with
  | [] => [[]]
  | c :: rest =>
      if bool_decide (c = CR) then
        match rest with
        | d :: rest' => if bool_decide (d = LF) then [] :: lines_of rest' else [] :: lines_of rest
        | [] => [] :: lines_of rest
        end
      else if bool_decide (c = LF) then [] :: lines_of rest
      else match lines_of rest with
           | [] => [[c]]
           | l :: ls => (c :: l) :: ls
           end
  end.

(** Every line followed by CRLF. *)
Definition terminate (ls : list bytes) : bytes := concat ((λ l, l ++ crlf) <$> ls).

(** A text that ends in a line end has no line after it; an empty text has one. *)
Definition complete (ls : list bytes) : list bytes :=
  match ls with
  | [] | [_] => ls
  | _ => match last ls with Some [] => removelast ls | _ => ls end
  end.

Definition long_line (l : bytes) : bool := maxLineLength <? Z.of_nat (length l).

(** Free of CR and LF. *)
Definition unbroken (l : bytes) : Prop := CR ∉ l ∧ LF ∉ l.

Lemma newline_ind (P : bytes → Prop) :
  P [] → (∀ l, P l → P (CR :: LF :: l)) → (∀ l, head l ≠ Some LF → P l → P (CR :: l)) →
  (∀ l, P l → P (LF :: l)) → (∀ c l, c ≠ CR → c ≠ LF → P l → P (c :: l)) → ∀ l, P l.
Proof.
  intros H0 H2 H1 Hl Hc.
  cut (∀ n l, (length l ≤ n)%nat → P l); [by eauto|].
  induction n as [|n IH]; intros [|c l] Hn; try done; simpl in Hn; [lia|].
  destruct (decide (c = CR)) as [->|]; [|destruct (decide (c = LF)) as [->|]; [apply Hl|apply Hc];
    try done; apply IH; lia].
  destruct l as [|d l]; [apply H1; [done|done]|].
  destruct (decide (d = LF)) as [->|].
  - apply H2, IH. simpl in Hn. lia.
  - apply H1; [simpl; congruence|]. apply IH. lia.
Qed.

Lemma lines_of_ne raw : lines_of raw ≠ [].
Proof.
  destruct raw as [|c raw]; simpl; [done|]. repeat case_match; done.
Qed.

Lemma lines_of_crlf l : lines_of (CR :: LF :: l) = [] :: lines_of l.
Proof. done. Qed.

Lemma lines_of_cr l : head l ≠ Some LF → lines_of (CR :: l) = [] :: lines_of l.
Proof. intros Hl. simpl. destruct l as [|d l]; [done|].
  rewrite bool_decide_eq_false_2; [done|]. intros ->. by apply Hl.
Qed.

Lemma lines_of_lf l : lines_of (LF :: l) = [] :: lines_of l.
Proof. done. Qed.

Lemma lines_of_char c l : c ≠ CR → c ≠ LF →
  lines_of (c :: l) = match lines_of l with [] => [[c]] | x :: ls => (c :: x) :: ls end.
Proof. intros H1 H2. simpl. by rewrite !bool_decide_eq_false_2. Qed.

(** The lines have no line end in them, and no byte the text does not have. *)
Lemma lines_of_unbroken raw : Forall unbroken (lines_of raw).
Proof.
  assert (H0 : unbroken []) by (split; apply not_elem_of_nil).
  induction raw as [|l IH|l Hl IH|l IH|c l H1 H2 IH] using newline_ind.
  - by constructor.
  - rewrite lines_of_crlf. by constructor.
  - rewrite lines_of_cr by done. by constructor.
  - rewrite lines_of_lf. by constructor.
  - rewrite lines_of_char by done. destruct (lines_of l) as [|x ls].
    + repeat constructor; set_solver.
    + inversion_clear IH as [|? ? Hx Hls]. constructor; [|done]. unfold unbroken in *. set_solver.
Qed.

Lemma lines_of_elem raw l c : l ∈ lines_of raw → c ∈ l → c ∈ raw.
Proof.
  revert l. induction raw as [|k IH|k Hk IH|k IH|d k H1 H2 IH] using newline_ind; intros l.
  - by intros ->%list_elem_of_singleton.
  - rewrite lines_of_crlf. intros [->|Hl]%elem_of_cons Hc; [by apply elem_of_nil in Hc|].
    do 2 right. by eapply IH.
  - rewrite lines_of_cr by done. intros [->|Hl]%elem_of_cons Hc; [by apply elem_of_nil in Hc|].
    right. by eapply IH.
  - rewrite lines_of_lf. intros [->|Hl]%elem_of_cons Hc; [by apply elem_of_nil in Hc|].
    right. by eapply IH.
  - rewrite lines_of_char by done. destruct (lines_of k) as [|x ls] eqn:El.
    + intros ->%list_elem_of_singleton ->%list_elem_of_singleton. left.
    + intros [->|Hl]%elem_of_cons Hc.
      * apply elem_of_cons in Hc as [->|Hc]; [left|]. right. apply (IH x); [left|done].
      * right. apply (IH l); [by right|done].
Qed.

(** ** [normalize] *)

(** Lines joined by CRLF. *)
Definition joined (ls : list bytes) : bytes :=
  match ls with
  | [] => []
  | l :: ls => l ++ concat ((λ k, crlf ++ k) <$> ls)
  end.

Lemma joined_terminate ls : ls ≠ [] → joined ls ++ crlf = terminate ls.
Proof.
  destruct ls as [|l ls]; [done|]. intros _. unfold joined, terminate.
  revert l. induction ls as [|k ls IH]; intros l; rewrite !fmap_cons; cbn [concat].
  { by rewrite !app_nil_r. }
  rewrite <-!app_assoc. do 2 f_equal. specialize (IH k). rewrite fmap_cons in IH. cbn [concat] in IH.
  rewrite <-!app_assoc in IH. exact IH.
Qed.

Definition too_long (len : Z) (ls : list bytes) : bool :=
  match ls with
  | [] => false
  | l :: ls =>
      (maxLineLength <? len + Z.of_nat (length l)) && negb (length l =? 0)%nat
      || existsb long_line ls
  end.

Lemma too_long_zero ls : too_long 0 ls = existsb long_line ls.
Proof.
  destruct ls as [|[|c l] ls]; [done|done|]. simpl. by rewrite andb_true_r.
Qed.

Lemma is_cr c : is_char 13 c = bool_decide (c = CR).
Proof. by apply is_char_chr. Qed.

Lemma is_lf c : is_char 10 c = bool_decide (c = LF).
Proof. by apply is_char_chr. Qed.

Lemma joined_nil ls : ls ≠ [] → joined ([] :: ls) = crlf ++ joined ls.
Proof. by destruct ls. Qed.

(** [normalize]'s loop is the reference, whatever line it starts in. *)
Lemma normalize_from_reference raw : ∀ i len,
  normalize_from (λ _, None) i len raw =
    if too_long len (lines_of raw) then Err errLongLine else Ok (joined (lines_of raw)).
Proof.
  assert (Hp : ∀ i : Z, (if Z.land i 4095 =? 0 then poll (λ _, None) (AtByte i) else Ok tt) = Ok tt)
    by (intros; by case_match).
  assert (Hstep : ∀ len ls, too_long len ([] :: ls) = existsb long_line ls).
  { intros. simpl. by rewrite andb_false_r. }
  induction raw as [|l IH|l Hl IH|l IH|c l H1 H2 IH] using newline_ind; intros i len.
  - simpl. by rewrite andb_false_r.
  - rewrite lines_of_crlf, Hstep, joined_nil by apply lines_of_ne. cbn [normalize_from].
    rewrite Hp. cbn [res_bind]. rewrite is_cr, is_lf, !bool_decide_eq_true_2 by done.
    rewrite IH, too_long_zero. by destruct (existsb _ _).
  - rewrite lines_of_cr, Hstep, joined_nil by (done || apply lines_of_ne). cbn [normalize_from].
    rewrite Hp. cbn [res_bind]. rewrite is_cr, bool_decide_eq_true_2 by done.
    assert ((match l with
             | [] => normalize_from (λ _, None) (i + 1) 0 l
             | d :: rest' => if is_char 10 d then normalize_from (λ _, None) (i + 2) 0 rest'
                             else normalize_from (λ _, None) (i + 1) 0 l
             end) = normalize_from (λ _, None) (i + 1) 0 l) as ->.
    { destruct l as [|d l]; [done|]. rewrite is_lf, bool_decide_eq_false_2; [done|].
      intros ->. by apply Hl. }
    rewrite IH, too_long_zero. by destruct (existsb _ _).
  - rewrite lines_of_lf, Hstep, joined_nil by apply lines_of_ne. cbn [normalize_from].
    rewrite Hp. cbn [res_bind]. rewrite is_cr, is_lf, bool_decide_eq_false_2 by done.
    rewrite bool_decide_eq_true_2 by done.
    rewrite IH, too_long_zero. by destruct (existsb _ _).
  - rewrite lines_of_char by done. cbn [normalize_from]. rewrite Hp. cbn [res_bind].
    rewrite is_cr, is_lf, !bool_decide_eq_false_2 by done. rewrite IH.
    destruct (lines_of l) as [|x ls] eqn:El; [by apply lines_of_ne in El|].
    cbn [too_long length]. destruct (maxLineLength <? len + 1) eqn:Em.
    + assert ((maxLineLength <? len + Z.of_nat (S (length x))) = true) as ->; [|done].
      clear -Em. apply Z.ltb_lt in Em. apply Z.ltb_lt. lia.
    + replace (len + Z.of_nat (S (length x))) with (len + 1 + Z.of_nat (length x)) by lia.
      cbn [Nat.eqb negb]. destruct (length x =? 0)%nat eqn:Ex; cbn [negb].
      * assert (length x = 0%nat) as -> by (by apply Nat.eqb_eq).
        replace (len + 1 + Z.of_nat 0) with (len + 1) by lia. rewrite Em.
        cbn [andb orb]. by destruct (existsb _ _).
      * rewrite !andb_true_r. by destruct (_ || _).
Qed.

(** The last byte of an unbroken line is not LF. *)
Lemma joined_suffix ls :
  ls ≠ [] → Forall unbroken ls →
  (if has_suffix crlf (joined ls) then joined ls else joined ls ++ crlf) = terminate (complete ls).
Proof.
  intros Hne Hf. destruct (exists_last Hne) as (k & x & ->).
  destruct k as [|y k].
  { simpl. rewrite app_nil_r. destruct (has_suffix crlf x) eqn:Es.
    - apply has_suffix_true in Es as [z ->]. rewrite Forall_app in Hf.
      destruct Hf as [_ [[Hcr _] _]%Forall_cons_1]. exfalso. apply Hcr. set_solver.
    - unfold terminate. simpl. by rewrite app_nil_r. }
  assert (Hj : joined ((y :: k) ++ [x]) = terminate (y :: k) ++ x).
  { rewrite <-joined_terminate by done. simpl. rewrite fmap_app, concat_app. simpl.
    by rewrite !app_nil_r, <-!app_assoc. }
  assert (Hc : complete ((y :: k) ++ [x]) =
               if decide (x = []) then y :: k else (y :: k) ++ [x]).
  { unfold complete. destruct ((y :: k) ++ [x]) as [|a [|b t]] eqn:E.
    - done.
    - destruct k; simpl in E; congruence.
    - rewrite <-E, last_snoc. destruct x as [|c x]; [rewrite decide_True by done|].
      + by rewrite removelast_last.
      + by rewrite decide_False. }
  rewrite Hc, Hj. case_decide as Hx.
  - subst x. rewrite app_nil_r.
    assert (has_suffix crlf (terminate (y :: k)) = true) as ->; [|done].
    apply has_suffix_true. exists (joined (y :: k)). by rewrite joined_terminate.
  - assert (has_suffix crlf (terminate (y :: k) ++ x) = false) as ->.
    + apply not_true_iff_false. intros [z Hz]%has_suffix_true.
      destruct (exists_last Hx) as (x' & c & ->).
      rewrite Forall_app in Hf. destruct Hf as [_ [[_ Hlf] _]%Forall_cons_1].
      apply Hlf. change crlf with ([CR] ++ [LF]) in Hz. rewrite !app_assoc in Hz.
      apply app_inj_tail in Hz as [_ ->]. set_solver.
    + unfold terminate. rewrite fmap_app, concat_app. simpl. by rewrite app_nil_r, <-app_assoc.
Qed.

Lemma normalize_spec raw :
  normalize (λ _, None) raw =
    if existsb (is_char 0) raw then Err errBinary
    else if existsb long_line (lines_of raw) then Err errLongLine
    else Ok (terminate (complete (lines_of raw))).
Proof.
  unfold normalize. destruct (existsb (is_char 0) raw); [done|].
  rewrite normalize_from_reference, too_long_zero.
  destruct (existsb long_line (lines_of raw)); [done|]. cbn [res_bind].
  by rewrite joined_suffix by (apply lines_of_ne || apply lines_of_unbroken).
Qed.

(** Line-end normalisation.  With a context that is not cancelled, [normalize]
    is universal-newline normalisation: a message with a NUL byte is refused, one
    with a line of more than 998 octets is refused, and any other is its lines,
    split at CRLF, CR or LF alike, each followed by CRLF, with an unterminated
    last line completed. *)
Theorem normalize_reference raw :
  normalize (λ _, None) raw =
    if existsb (is_char 0) raw then Err errBinary
    else if existsb long_line (lines_of raw) then Err errLongLine
    else Ok (terminate (complete (lines_of raw))).
Proof. apply normalize_spec. Qed.

(** Cancellation can only turn the result into an error. *)
Lemma normalize_from_background ctx raw : ∀ i len out,
  normalize_from ctx i len raw = Ok out → normalize_from (λ _, None) i len raw = Ok out.
Proof.
  assert (Hp : ∀ i : Z, (if Z.land i 4095 =? 0 then poll (λ _, None) (AtByte i) else Ok tt) = Ok tt)
    by (intros; by case_match).
  induction raw as [|l IH|l Hl IH|l IH|c l H1 H2 IH] using newline_ind; intros i len out;
    cbn [normalize_from]; [done|..]; rewrite Hp;
    (destruct (if Z.land i 4095 =? 0 then poll ctx (AtByte i) else Ok tt); [|done]);
    cbn [res_bind]; rewrite is_cr.
  - rewrite is_lf, !bool_decide_eq_true_2 by done. intros H.
    destruct (normalize_from ctx (i + 2) 0 l) eqn:E; [|done]. by rewrite (IH _ _ _ E).
  - rewrite bool_decide_eq_true_2 by done. intros H.
    destruct l as [|d l]; [done|]. rewrite is_lf, bool_decide_eq_false_2 in H |- *
      by (intros ->; by apply Hl).
    destruct (normalize_from ctx (i + 1) 0 (d :: l)) eqn:E; [|done]. by rewrite (IH _ _ _ E).
  - rewrite is_lf, bool_decide_eq_false_2, bool_decide_eq_true_2 by done. intros H.
    destruct (normalize_from ctx (i + 1) 0 l) eqn:E; [|done]. by rewrite (IH _ _ _ E).
  - rewrite is_lf, !bool_decide_eq_false_2 by done.
    destruct (maxLineLength <? len + 1); [done|]. intros H.
    destruct (normalize_from ctx (i + 1) (len + 1) l) eqn:E; [|done]. by rewrite (IH _ _ _ E).
Qed.

Lemma normalize_background ctx raw out :
  normalize ctx raw = Ok out → normalize (λ _, None) raw = Ok out.
Proof.
  unfold normalize. destruct (existsb (is_char 0) raw); [done|].
  destruct (normalize_from ctx 0 0 raw) as [o|] eqn:E; [|done].
  by rewrite (normalize_from_background _ _ _ _ _ E).
Qed.

Lemma complete_elem l ls : l ∈ complete ls → l ∈ ls.
Proof.
  unfold complete. destruct ls as [|a [|b t]]; [done..|].
  destruct (last (a :: b :: t)) as [[|]|] eqn:El; [|done..].
  intros Hl. rewrite (app_removelast_last [] (l:=a :: b :: t)) by done. apply elem_of_app. by left.
Qed.

(** ** Header fields *)

Definition clean (l : bytes) : Prop := existsb is_control l = false.

Lemma clean_elem l c : clean l → c ∈ l → is_control c = false.
Proof.
  intros Hl Hc. apply not_true_iff_false. intros H. apply not_true_iff_false in Hl. apply Hl.
  apply existsb_exists. exists c. split; [by apply list_elem_of_In|done].
Qed.

Lemma clean_intro l : (∀ c, c ∈ l → is_control c = false) → clean l.
Proof.
  intros H. apply not_true_iff_false. intros (c & Hc & Ht)%existsb_exists.
  apply list_elem_of_In, H in Hc. congruence.
Qed.

Lemma clean_app l k : clean (l ++ k) ↔ clean l ∧ clean k.
Proof. unfold clean. rewrite existsb_app, orb_false_iff. done. Qed.

Lemma clean_sub l k : (∀ c, c ∈ k → c ∈ l) → clean l → clean k.
Proof. intros Hs Hl. apply clean_intro. intros c Hc. by eapply clean_elem; [|apply Hs]. Qed.

Lemma clean_unbroken l : clean l → unbroken l.
Proof. intros Hl. split; intros Hc; by apply (clean_elem _ _ Hl) in Hc. Qed.

(** A continuation line: it starts with a blank and is not blank. *)
Definition fold_text (t : bytes) : Prop :=
  (head t = Some SP ∨ head t = Some HT) ∧ clean t ∧ trim_space t ≠ [].

(** A field: its name, a colon, its text and its continuation lines. *)
Definition wf_field (f : field) : Prop :=
  ∃ name body folds, validFieldName name = true ∧ clean body ∧ Forall fold_text folds ∧
    f_name f = ToLower (of_list name) ∧ f_value f = terminate ((name ++ ":"%char :: body) :: folds).

Definition print_fields (fields : list field) : bytes := concat (f_value <$> fields).

Lemma print_fields_app a b : print_fields (a ++ b) = print_fields a ++ print_fields b.
Proof. unfold print_fields. by rewrite fmap_app, concat_app. Qed.

Lemma terminate_app a b : terminate (a ++ b) = terminate a ++ terminate b.
Proof. unfold terminate. by rewrite fmap_app, concat_app. Qed.

Lemma terminate_cons l ls : terminate (l :: ls) = l ++ crlf ++ terminate ls.
Proof. unfold terminate. rewrite fmap_cons. simpl. by rewrite <-app_assoc. Qed.

(** The characters of a field name. *)
Lemma validFieldName_elem name c :
  validFieldName name = true → c ∈ name → 33 ≤ byte_val c ≤ 126 ∧ byte_val c ≠ 58.
Proof.
  unfold validFieldName. destruct name as [|d name]; [done|]. rewrite forallb_forall.
  intros H Hc%list_elem_of_In. apply H in Hc. unfold is_char in Hc. lia.
Qed.

Lemma validFieldName_clean name : validFieldName name = true → clean name.
Proof.
  intros H. apply clean_intro. intros c Hc. apply (validFieldName_elem _ _ H) in Hc.
  unfold is_control, is_char. lia.
Qed.

(** The first CRLF after unbroken text. *)
Lemma index_crlf text k : unbroken text → index_list crlf (text ++ crlf ++ k) = Some (length text).
Proof.
  intros [Hcr Hlf]. apply (index_list_first _ _ _ k).
  - by rewrite take_app_length.
  - rewrite length_app. lia.
  - intros j Hj. apply not_true_iff_false. intros [z Hz]%is_prefix_true. apply Hcr.
    rewrite drop_app_le in Hz by lia.
    destruct (drop j text) as [|c t] eqn:Ed.
    + apply (f_equal length) in Ed. rewrite length_drop in Ed. simpl in Ed. lia.
    + injection Hz as -> _. apply (list_elem_of_lookup_2 _ j). rewrite <-(Nat.add_0_r j), <-lookup_drop.
      by rewrite Ed.
Qed.

(** A line [scan] cuts off is text without CRLF in front of the first one. *)
Lemma cut_line header n :
  index_list crlf header = Some n →
  ∃ text, take (n + 2) header = text ++ crlf ∧ header = text ++ crlf ++ drop (n + 2) header ∧
    length text = n.
Proof.
  intros (k & Hk & _)%index_list_Some.
  assert (length (take n header) = n) as Hn.
  { apply length_take_le. apply (f_equal length) in Hk. rewrite !length_app, length_take in Hk.
    simpl in Hk. lia. }
  exists (take n header). split_and!; [| |done].
  - rewrite Hk at 1. rewrite take_app, Hn, take_ge by lia. f_equal.
    replace (n + 2 - n)%nat with 2%nat by lia. done.
  - rewrite Hk at 3. rewrite drop_app, Hn, drop_ge by lia.
    replace (n + 2 - n)%nat with 2%nat by lia. simpl. done.
Qed.

Lemma colon_val : byte_val ":"%char = 58.
Proof. done. Qed.

(** The line that opens a field. *)
Lemma scan_first name body fields :
  validFieldName name = true → clean body → (length fields < maxHeaderFields)%nat →
  scan_line ((name ++ ":"%char :: body) ++ crlf) fields =
    Ok (fields ++ [mkField (ToLower (of_list name)) ((name ++ ":"%char :: body) ++ crlf)]).
Proof.
  intros Hn Hb Hlen. unfold scan_line.
  assert (Hidx : index_byte 58 ((name ++ ":"%char :: body) ++ crlf) = Some (length name)).
  { rewrite <-app_assoc. simpl. apply index_byte_app; [done|].
    intros d Hd. by apply (validFieldName_elem _ _ Hn). }
  assert (Htext : take (length ((name ++ ":"%char :: body) ++ crlf) - 2)
                    ((name ++ ":"%char :: body) ++ crlf) = name ++ ":"%char :: body).
  { rewrite length_app. replace (_ + _ - 2)%nat with (length (name ++ ":"%char :: body)) by (simpl; lia).
    apply take_app_length. }
  rewrite Hidx, Htext.
  assert (Htake : take (length name) ((name ++ ":"%char :: body) ++ crlf) = name).
  { rewrite <-app_assoc. apply take_app_length. }
  assert (Hdrop : drop (S (length name)) (name ++ ":"%char :: body) = body).
  { rewrite cons_middle, app_assoc. apply drop_app_length'. rewrite length_app. simpl. lia. }
  rewrite Htake, Hdrop, Hn. destruct name as [|c name]; [done|].
  destruct (validFieldName_elem _ c Hn) as [Hc _]; [left|].
  cbn [app]. assert (is_char 32 c || is_char 9 c = false) as ->.
  { unfold is_char. lia. }
  unfold containsHeaderControls. rewrite Hb. cbn [length Nat.eqb negb].
  by rewrite (proj2 (Nat.leb_gt _ _) Hlen).
Qed.

(** A continuation line. *)
Lemma scan_fold text fields f :
  fold_text text →
  scan_line (text ++ crlf) (fields ++ [f]) =
    Ok (fields ++ [mkField (f_name f) (f_value f ++ text ++ crlf)]).
Proof.
  intros (Hh & Hc & Ht). unfold scan_line.
  assert (Htext : take (length (text ++ crlf) - 2) (text ++ crlf) = text).
  { rewrite length_app. replace (_ + _ - 2)%nat with (length text) by (simpl; lia).
    apply take_app_length. }
  rewrite Htext. destruct text as [|c text]; [destruct Hh; done|]. cbn [app].
  assert (is_char 32 c || is_char 9 c = true) as ->.
  { destruct Hh as [[= ->]|[= ->]]; done. }
  rewrite length_app, Nat.add_comm. cbn [length Nat.add Nat.eqb].
  destruct (trim_space (c :: text)) as [|d t]; [done|]. cbn [length Nat.eqb].
  unfold containsHeaderControls. rewrite Hc. unfold extend_last.
  by rewrite last_snoc, removelast_last.
Qed.

(** What a scanned line adds. *)
Lemma scan_line_wf text fields fields' :
  scan_line (text ++ crlf) fields = Ok fields' →
  Forall wf_field fields → (length fields ≤ maxHeaderFields)%nat →
  Forall wf_field fields' ∧ (length fields' ≤ maxHeaderFields)%nat ∧
  print_fields fields' = print_fields fields ++ text ++ crlf.
Proof.
  unfold scan_line. intros Hs Hf Hlen.
  assert (Htext : take (length (text ++ crlf) - 2) (text ++ crlf) = text).
  { rewrite length_app. replace (_ + _ - 2)%nat with (length text) by (simpl; lia).
    apply take_app_length. }
  rewrite Htext in Hs.
  destruct (match text ++ crlf with c :: _ => is_char 32 c || is_char 9 c | [] => false end) eqn:Ew.
  - destruct (length fields =? 0)%nat eqn:E0; [done|].
    destruct (length (trim_space text) =? 0)%nat eqn:Et; [done|].
    destruct (containsHeaderControls text) eqn:Ec; [done|]. injection Hs as <-.
    destruct (exists_last (l:=fields)) as (k & f & ->); [by destruct fields|].
    unfold extend_last. rewrite last_snoc, removelast_last.
    rewrite Forall_app in Hf. destruct Hf as [Hk [Hf _]%Forall_cons_1]. split_and!.
    + apply Forall_app. split; [done|]. apply Forall_singleton.
      destruct Hf as (name & body & folds & Hn & Hb & Hfolds & Hname & Hv).
      exists name, body, (folds ++ [text]). split_and!; [done|done| |done|].
      * apply Forall_app. split; [done|]. apply Forall_singleton. split_and!; [|done|].
        -- destruct text as [|c text]; [done|]. cbn [app] in Ew. apply orb_true_iff in Ew.
           destruct Ew as [[-> _]%is_char_eq|[-> _]%is_char_eq]; simpl; auto.
        -- intros H. by rewrite H in Et.
      * cbn [f_value]. rewrite Hv, (app_comm_cons folds), terminate_app. f_equal.
        unfold terminate. simpl. by rewrite app_nil_r.
    + by rewrite !length_app in *.
    + rewrite !print_fields_app. unfold print_fields. simpl. by rewrite !app_nil_r, <-app_assoc.
  - destruct (index_byte 58 (text ++ crlf)) as [colon|] eqn:Ei; [|done].
    destruct (colon =? 0)%nat; [done|].
    destruct (negb (validFieldName _)) eqn:En; [done|].
    destruct (containsHeaderControls _) eqn:Ec; [done|].
    destruct (maxHeaderFields <=? length fields)%nat eqn:Em; [done|]. injection Hs as <-.
    apply negb_false_iff in En. apply Nat.leb_gt in Em.
    apply index_byte_Some in Ei as (c & Hc & Hv & _).
    assert (colon < length text)%nat as Hlt.
    { destruct (decide (colon < length text)%nat); [done|]. exfalso.
      rewrite lookup_app_r in Hc by lia. apply list_elem_of_lookup_2 in Hc.
      apply elem_of_cons in Hc as [->|Hc]; [done|]. by apply list_elem_of_singleton in Hc as ->. }
    rewrite lookup_app_l in Hc by done. rewrite take_app_le in En by lia.
    rewrite take_app_le by lia.
    assert (c = ":"%char) as -> by (by apply byte_val_inj).
    apply take_drop_middle in Hc as Ht. split_and!.
    + apply Forall_app. split; [done|]. apply Forall_singleton.
      exists (take colon text), (drop (S colon) text), []. split_and!; [done|done|done|done|].
      cbn [f_value]. unfold terminate. cbn [fmap list_fmap concat].
      by rewrite app_nil_r, Ht.
    + rewrite length_app. simpl. lia.
    + rewrite print_fields_app. unfold print_fields. simpl. by rewrite app_nil_r.
Qed.

Lemma scan_from_wf ctx fuel : ∀ offset header acc fields,
  scan_from ctx fuel offset header acc = Ok fields →
  Forall wf_field acc → (length acc ≤ maxHeaderFields)%nat →
  Forall wf_field fields ∧ (length fields ≤ maxHeaderFields)%nat ∧
  print_fields fields = print_fields acc ++ header.
Proof.
  induction fuel as [|fuel IH]; intros offset [|c header] acc fields; cbn [scan_from].
  1, 3: intros [= <-] Ha Hl; by rewrite app_nil_r.
  { done. }
  destruct (poll ctx (AtLine offset)); [|done]. cbn [res_bind].
  destruct (index_list crlf (c :: header)) as [n|] eqn:Ei; [|done].
  apply cut_line in Ei as (text & -> & Hh & _).
  destruct (scan_line (text ++ crlf) acc) as [acc'|] eqn:Es; [|done]. cbn [res_bind].
  intros Hs Ha Hl. destruct (scan_line_wf _ _ _ Es Ha Hl) as (Ha' & Hl' & Hp).
  destruct (IH _ _ _ _ Hs Ha' Hl') as (Hf & Hlen & Hpf). split_and!; [done|done|].
  rewrite Hpf, Hp, <-!app_assoc. by rewrite <-Hh.
Qed.

(** One turn of the loop. *)
Lemma scan_from_line fuel offset text k acc :
  unbroken text →
  scan_from (λ _, None) (S fuel) offset (text ++ crlf ++ k) acc =
    let? acc := scan_line (text ++ crlf) acc in
    scan_from (λ _, None) fuel (offset + length text + 2) k acc.
Proof.
  intros Hu. cbn [scan_from]. rewrite index_crlf by done.
  assert (take (length text + 2) (text ++ crlf ++ k) = text ++ crlf) as ->.
  { rewrite app_assoc. apply take_app_length'. by rewrite length_app. }
  assert (drop (length text + 2) (text ++ crlf ++ k) = k) as ->.
  { rewrite app_assoc. apply drop_app_length'. by rewrite length_app. }
  destruct (text ++ crlf ++ k) eqn:E; [by destruct text|done].
Qed.

Lemma scan_from_folds folds : ∀ fuel offset acc f k,
  Forall fold_text folds → (length (terminate folds ++ k) ≤ fuel)%nat →
  ∃ fuel' offset', (length k ≤ fuel')%nat ∧
    scan_from (λ _, None) fuel offset (terminate folds ++ k) (acc ++ [f]) =
    scan_from (λ _, None) fuel' offset' k
      (acc ++ [mkField (f_name f) (f_value f ++ terminate folds)]).
Proof.
  induction folds as [|t folds IH]; intros fuel offset acc f k Hf Hlen.
  { exists fuel, offset. split; [done|]. unfold terminate. simpl. rewrite app_nil_r. by destruct f. }
  apply Forall_cons_1 in Hf as [Ht Hf].
  rewrite terminate_cons, <-!app_assoc in Hlen |- *. rewrite !length_app in Hlen. simpl in Hlen.
  destruct fuel as [|fuel]; [lia|].
  rewrite scan_from_line by apply clean_unbroken, Ht. rewrite scan_fold by done. cbn [res_bind].
  destruct (IH fuel (offset + length t + 2)%nat acc (mkField (f_name f) (f_value f ++ t ++ crlf)) k Hf)
    as (fuel' & offset' & Hk & ->); [rewrite length_app; lia|].
  exists fuel', offset'. split; [done|]. cbn [f_name f_value]. by rewrite <-!app_assoc.
Qed.

Lemma scan_from_print fields : ∀ fuel offset acc,
  Forall wf_field fields → (length acc + length fields ≤ maxHeaderFields)%nat →
  (length (print_fields fields) ≤ fuel)%nat →
  scan_from (λ _, None) fuel offset (print_fields fields) acc = Ok (acc ++ fields).
Proof.
  induction fields as [|f fields IH]; intros fuel offset acc Hf Hl Hlen.
  { rewrite app_nil_r. by destruct fuel. }
  apply Forall_cons_1 in Hf as [(name & body & folds & Hn & Hb & Hfolds & Hname & Hv) Hf].
  assert (Hp : print_fields (f :: fields) =
               (name ++ ":"%char :: body) ++ crlf ++ terminate folds ++ print_fields fields).
  { unfold print_fields. rewrite fmap_cons. cbn [concat]. by rewrite Hv, terminate_cons, <-!app_assoc. }
  assert (Hu : unbroken (name ++ ":"%char :: body)).
  { apply clean_unbroken, clean_app. split; [by apply validFieldName_clean|exact Hb]. }
  rewrite Hp in Hlen |- *. rewrite !length_app in Hlen. cbn [length] in Hl, Hlen.
  destruct fuel as [|fuel]; [lia|]. rewrite scan_from_line by done.
  rewrite scan_first by (done || lia). cbn [res_bind].
  edestruct (scan_from_folds folds fuel) as (fuel' & offset' & Hk & ->); [done|rewrite length_app; lia|].
  rewrite IH; [|done|rewrite length_app; simpl; lia|done].
  rewrite <-app_assoc. simpl. do 2 f_equal. f_equal. destruct f. simpl in *. subst.
  by rewrite terminate_cons, <-app_assoc.
Qed.

(** C31: Parsing a header inverts printing it.  [scan] accepts a header exactly when
    it is the concatenation of at most 1000 well-formed fields (a name of printable
    ASCII, a colon, text without control characters, and continuation lines that
    start with a blank and are not blank, every line ended by CRLF), and it returns
    those fields, byte for byte. *)
Theorem scan_inverts header fields :
  scan (λ _, None) header = Ok fields ↔
  header = print_fields fields ∧ Forall wf_field fields ∧ (length fields ≤ 1000)%nat.
Proof.
  unfold scan. split.
  - intros Hs. destruct (scan_from_wf _ _ _ _ _ _ Hs) as (Hf & Hl & Hp); [done|simpl; lia|].
    split_and!; [done|done|exact Hl].
  - intros (-> & Hf & Hl). rewrite scan_from_print; [done|done|exact Hl|done].
Qed.

(** ** Header and body *)

(** The lines before and after the first blank line that has a line before it. *)
Fixpoint split_lines (ls : list bytes) : option (list bytes * list bytes) :=
  match ls with
  | [] => None
  | l :: ls' =>
      match ls' with
      | [] => None
      | [] :: ls2 => Some ([l], ls2)
      | _ => (λ p, (l :: p.1, p.2)) <$> split_lines ls'
      end
  end.

Lemma index_blank_line l k :
  unbroken l →
  index_list (crlf ++ crlf) (l ++ crlf ++ k) =
    if is_prefix crlf k then Some (length l)
    else (λ n, length l + 2 + n)%nat <$> index_list (crlf ++ crlf) k.
Proof.
  induction l as [|c l IH]; intros [Hcr Hlf].
  - cbn [app crlf index_list]. destruct (is_prefix crlf k) eqn:Ek.
    + apply is_prefix_true in Ek as [z ->].
      assert (is_prefix (CR :: LF :: crlf) (CR :: LF :: crlf ++ z) = true) as ->; [|done].
      apply is_prefix_true. by exists z.
    + assert (is_prefix (CR :: LF :: crlf) (CR :: LF :: k) = false) as ->.
      { cbn [is_prefix]. rewrite !bool_decide_eq_true_2 by done. exact Ek. }
      assert (is_prefix (CR :: LF :: crlf) (LF :: k) = false) as ->.
      { cbn [is_prefix]. by rewrite bool_decide_eq_false_2 by done. }
      by destruct (index_list _ k).
  - assert (is_prefix (crlf ++ crlf) (c :: l ++ crlf ++ k) = false) as Hp.
    { cbn [crlf app is_prefix]. rewrite bool_decide_eq_false_2; [done|]. intros <-. apply Hcr. left. }
    change ((c :: l) ++ crlf ++ k) with (c :: l ++ crlf ++ k).
    assert (index_list (crlf ++ crlf) (c :: l ++ crlf ++ k) =
            S <$> index_list (crlf ++ crlf) (l ++ crlf ++ k)) as ->.
    { simpl in Hp |- *. by rewrite Hp. }
    rewrite IH by (unfold unbroken; set_solver).
    destruct (is_prefix crlf k); [done|]. by destruct (index_list _ k).
Qed.

Lemma starts_crlf ls :
  Forall unbroken ls → is_prefix crlf (terminate ls) = match ls with [] :: _ => true | _ => false end.
Proof.
  intros Hf. destruct ls as [|[|c l] ls]; [done|done|]. rewrite terminate_cons. cbn [crlf app is_prefix].
  apply Forall_cons_1 in Hf as [[Hcr _] _].
  rewrite bool_decide_eq_false_2; [done|]. intros <-. apply Hcr. left.
Qed.

Lemma split_lines_cons l k ls :
  k ≠ [] → split_lines (l :: k :: ls) = (λ p, (l :: p.1, p.2)) <$> split_lines (k :: ls).
Proof. by destruct k. Qed.

Lemma length_terminate_pos l ls : (2 ≤ length (terminate (l :: ls)))%nat.
Proof. rewrite terminate_cons, !length_app. simpl. lia. Qed.

Lemma split_lines_ne ls a b : split_lines ls = Some (a, b) → a ≠ [].
Proof.
  destruct ls as [|l [|[|c k] ls]]; [done|done| |].
  - by intros [= <- <-].
  - rewrite split_lines_cons by done. destruct (split_lines _); [|done]. by intros [= <- <-].
Qed.

Lemma index_blank ls :
  Forall unbroken ls →
  index_list (crlf ++ crlf) (terminate ls) =
    (λ p, length (terminate p.1) - 2)%nat <$> split_lines ls.
Proof.
  induction ls as [|l ls IH]; intros Hf; [done|].
  apply Forall_cons_1 in Hf as [Hl Hf]. rewrite terminate_cons, index_blank_line, starts_crlf by done.
  destruct ls as [|[|c k] ls].
  - done.
  - simpl. f_equal. unfold terminate. simpl. rewrite app_nil_r, length_app. simpl. lia.
  - rewrite split_lines_cons, IH by done.
    destruct (split_lines ((c :: k) :: ls)) as [[a b]|] eqn:Es; [|done]. cbn [fmap option_fmap option_map].
    f_equal. cbn [fst]. rewrite terminate_cons, !length_app. apply split_lines_ne in Es.
    destruct a as [|a0 a]; [done|]. pose proof (length_terminate_pos a0 a). simpl in *. lia.
Qed.

(** The lines a split leaves on either side, with the blank line between. *)
Lemma split_lines_app ls a b : split_lines ls = Some (a, b) → ls = a ++ [] :: b.
Proof.
  revert a b. induction ls as [|l ls IH]; intros a b; [done|].
  destruct ls as [|[|c k] ls]; [done| |].
  - by intros [= <- <-].
  - rewrite split_lines_cons by done.
    destruct (split_lines ((c :: k) :: ls)) as [[x y]|]; [|done]. intros [= <- <-].
    by rewrite (IH x y eq_refl).
Qed.

Lemma split_lines_header a b :
  a ≠ [] → Forall (λ l, l ≠ []) a → split_lines (a ++ [] :: b) = Some (a, b).
Proof.
  induction a as [|l a IH]; [done|]. intros _ Hf. apply Forall_cons_1 in Hf as [Hl Hf].
  destruct a as [|k a]; [done|]. cbn [app].
  rewrite split_lines_cons by (by apply Forall_cons_1 in Hf as [? _]).
  change (k :: a ++ [] :: b) with ((k :: a) ++ [] :: b). by rewrite IH.
Qed.

Lemma split_terminate ls :
  Forall unbroken ls →
  split (terminate ls) =
    match split_lines ls with
    | None => (terminate ls, [])
    | Some (a, b) => (terminate a, terminate b)
    end.
Proof.
  intros Hf. unfold split. rewrite index_blank by done.
  destruct (split_lines ls) as [[a b]|] eqn:Es; [|done]. cbn [fmap option_fmap option_map fst].
  pose proof (split_lines_ne _ _ _ Es) as Ha. destruct a as [|a0 a]; [done|].
  pose proof (length_terminate_pos a0 a). apply split_lines_app in Es as ->.
  rewrite terminate_app, (terminate_cons []). cbn [app].
  replace (length (terminate (a0 :: a)) - 2 + 2)%nat with (length (terminate (a0 :: a))) by lia.
  replace (length (terminate (a0 :: a)) - 2 + 4)%nat with (length (terminate (a0 :: a)) + 2)%nat by lia.
  f_equal; [apply take_app_length|]. rewrite <-drop_drop, drop_app_length. done.
Qed.
