(* ===== verification/Prepared.v ===== *)
(** * The message that leaves [PrepareContext]

    Whatever was submitted, the prepared message is a header of well-formed
    fields, a blank line and a body of CRLF lines; its own parse is that header
    and that body, so no submitted byte and no trace value can add a field
    ([prepared_header]).  The address taken from the From field need not be the
    one the field names ([comment_spoofs_from]). *)

From S2P Require Import Prelude Errors GoLib Utf8 Mailbox Text Message MessageFacts.
Open Scope Z_scope.

(** ** Character bookkeeping *)

(** Printable ASCII text. *)
Definition printable (l : bytes) : Prop := ∀ c, c ∈ l → 32 ≤ byte_val c ≤ 126.

Definition low_bytes (l : bytes) : Prop := fieldHasHighBit l = false.

Lemma low_bytes_elem l : low_bytes l ↔ ∀ c, c ∈ l → byte_val c < 128.
Proof.
  unfold low_bytes, fieldHasHighBit. split.
  - intros H c Hc. destruct (128 <=? byte_val c) eqn:E; [|lia]. exfalso.
    apply not_true_iff_false in H. apply H, existsb_exists. exists c. by rewrite <-list_elem_of_In.
  - intros H. apply not_true_iff_false. intros (c & Hc & Ht)%existsb_exists.
    apply list_elem_of_In, H in Hc. lia.
Qed.

Lemma low_bytes_app l k : low_bytes (l ++ k) ↔ low_bytes l ∧ low_bytes k.
Proof. unfold low_bytes, fieldHasHighBit. rewrite existsb_app, orb_false_iff. done. Qed.

Lemma printable_clean l : printable l → clean l.
Proof. intros H. apply clean_intro. intros c Hc%H. unfold is_control, is_char. lia. Qed.

Lemma printable_low l : printable l → low_bytes l.
Proof. intros H. apply low_bytes_elem. intros c Hc%H. lia. Qed.

Lemma printable_app l k : printable (l ++ k) ↔ printable l ∧ printable k.
Proof. unfold printable. setoid_rewrite elem_of_app. naive_solver. Qed.

Definition printable_b (l : bytes) : bool := forallb (between 32 126) l.

Lemma printable_b_spec l : printable_b l = true ↔ printable l.
Proof.
  unfold printable_b, printable. rewrite forallb_forall. setoid_rewrite <-list_elem_of_In.
  unfold between. split; intros H c Hc%H; lia.
Qed.

Lemma printable_lower s : printable (str_list s) → printable (str_list (ToLower s)).
Proof.
  unfold ToLower. rewrite str_list_of_list. intros H c (d & -> & Hd)%list_elem_of_fmap.
  apply H in Hd. unfold lower_char. destruct (is_upper d) eqn:E; [|lia].
  unfold is_upper, between in E. rewrite byte_val_chr; lia.
Qed.

(** Trace values are printable. *)
Lemma traceValue_printable v : printable (traceValue v).
Proof.
  assert (H : ∀ rs n, printable (trace_runes rs n)).
  { induction rs as [|[r b] rs IH]; intros n; cbn [trace_runes].
    - intros c Hc. by apply elem_of_nil in Hc.
    - destruct (maxTraceLength <=? n); [intros c Hc; by apply elem_of_nil in Hc|].
      destruct (_ || _) eqn:E; [apply IH|]. intros c [->|Hc]%elem_of_cons; [|by eapply IH].
      rewrite byte_val_chr; lia. }
  unfold traceValue. destruct (trace_runes _ 0) as [|c t] eqn:E.
  - by apply printable_b_spec.
  - rewrite <-E. apply H.
Qed.

(** ** A tab and a visible character are not a blank line *)

Lemma lor_bound a b n : 0 ≤ a < 2 ^ n → 0 ≤ b < 2 ^ n → 0 ≤ n → Z.lor a b < 2 ^ n.
Proof.
  intros Ha Hb Hn.
  assert (Z.lor a b = Z.lor a b mod 2 ^ n) as ->.
  { rewrite <-Z.land_ones, Z.land_lor_distr_l, !Z.land_ones, !Z.mod_small by lia. done. }
  apply Z.mod_pos_bound. lia.
Qed.

Lemma land_low a k : 0 ≤ k → 0 ≤ Z.land a (Z.ones k) < 2 ^ k.
Proof. intros Hk. rewrite Z.land_ones by done. apply Z.mod_pos_bound. lia. Qed.

Lemma shift_low a k n : 0 ≤ a < 2 ^ k → 0 ≤ n → 0 ≤ k → 0 ≤ Z.shiftl a n < 2 ^ (k + n).
Proof.
  intros Ha Hn Hk. rewrite Z.shiftl_mul_pow2, Z.pow_add_r by lia. nia.
Qed.

Lemma rune2_small a b : rune2 a b < 2048.
Proof.
  unfold rune2, low6. change 2048 with (2 ^ 11). change 31 with (Z.ones 5). change 63 with (Z.ones 6).
  assert (0 ≤ Z.land a (Z.ones 5) < 2 ^ 5) as Ha by (by apply land_low).
  assert (0 ≤ Z.land b (Z.ones 6) < 2 ^ 6) as Hb by (by apply land_low).
  pose proof (shift_low _ 5 6 Ha ltac:(done) ltac:(done)). apply lor_bound; lia.
Qed.

Lemma rune3_small a b c : rune3 a b c < 65536.
Proof.
  unfold rune3, low6. change 65536 with (2 ^ 16). change 15 with (Z.ones 4). change 63 with (Z.ones 6).
  assert (0 ≤ Z.land a (Z.ones 4) < 2 ^ 4) as Ha by (by apply land_low).
  assert (0 ≤ Z.land b (Z.ones 6) < 2 ^ 6) as Hb by (by apply land_low).
  assert (0 ≤ Z.land c (Z.ones 6) < 2 ^ 6) as Hc by (by apply land_low).
  pose proof (shift_low _ 4 12 Ha ltac:(done) ltac:(done)).
  pose proof (shift_low _ 6 6 Hb ltac:(done) ltac:(done)).
  assert (Z.lor (Z.shiftl (Z.land b (Z.ones 6)) 6) (Z.land c (Z.ones 6)) < 2 ^ 12)
    by (apply lor_bound; lia).
  assert (0 ≤ Z.lor (Z.shiftl (Z.land b (Z.ones 6)) 6) (Z.land c (Z.ones 6)))
    by (apply Z.lor_nonneg; lia).
  apply lor_bound; lia.
Qed.

(** Decoding does not make a text wider. *)
Lemma width_runes l : (width (runes l) ≤ length l)%nat.
Proof.
  cut (∀ n l, (length l ≤ n)%nat → (width (runes l) ≤ length l)%nat); [by eauto|].
  induction n as [|n IH]; intros [|a l1] Hn; simpl in Hn; [done|lia|done|].
  assert (Hcons : ∀ r k, width (r :: k) = (rune_bytes r + width k)%nat) by done.
  assert (Hinv : ∀ k, width ((RuneError, false) :: k) = S (width k)) by done.
  assert (H1 : (width (runes l1) ≤ length l1)%nat) by (apply IH; lia).
  cbn [runes]. destruct (byte_val a <? 128) eqn:Ea.
  { rewrite Hcons. unfold rune_bytes, RuneLen. cbn [fst snd length]. rewrite Ea. lia. }
  destruct l1 as [|b l2]; [done|]. simpl in Hn.
  destruct (valid2 (byte_val a) (byte_val b)).
  { rewrite Hcons. unfold rune_bytes, RuneLen. cbn [fst snd].
    pose proof (rune2_small (byte_val a) (byte_val b)).
    assert (rune2 (byte_val a) (byte_val b) <? 2048 = true) as -> by lia.
    assert (width (runes l2) ≤ length l2)%nat by (apply IH; lia).
    case_match; cbn [length]; lia. }
  destruct l2 as [|c l3]; [rewrite Hinv; cbn [length] in *; lia|]. simpl in Hn.
  destruct (valid3 (byte_val a) (byte_val b) (byte_val c)).
  { rewrite Hcons. unfold rune_bytes, RuneLen. cbn [fst snd].
    pose proof (rune3_small (byte_val a) (byte_val b) (byte_val c)).
    assert (rune3 (byte_val a) (byte_val b) (byte_val c) <? 65536 = true) as -> by lia.
    assert (width (runes l3) ≤ length l3)%nat by (apply IH; lia).
    repeat case_match; cbn [length]; lia. }
  destruct l3 as [|d l4]; [rewrite Hinv; cbn [length] in *; lia|]. simpl in Hn.
  destruct (valid4 (byte_val a) (byte_val b) (byte_val c) (byte_val d)).
  { rewrite Hcons. assert (width (runes l4) ≤ length l4)%nat by (apply IH; lia).
    unfold rune_bytes, RuneLen. cbn [fst snd].
    repeat case_match; cbn [length]; lia. }
  rewrite Hinv. cbn [length] in *. lia.
Qed.

Lemma leading_space_stop k r : IsSpace r.1 = false → (width (leading_space (k ++ [r])) ≤ width k)%nat.
Proof.
  intros Hr. assert (Hcons : ∀ x k, width (x :: k) = (rune_bytes x + width k)%nat) by done.
  induction k as [|x k IH]; cbn [app leading_space]; [by rewrite Hr|].
  destruct (IsSpace x.1); [rewrite !Hcons; lia|]. rewrite Hcons. unfold width at 1. simpl. lia.
Qed.

Lemma trim_tab c l : 33 ≤ byte_val c ≤ 126 → trim_space (HT :: c :: l) ≠ [].
Proof.
  intros Hc. unfold trim_space.
  assert (runes (HT :: c :: l) = (9, true) :: (byte_val c, true) :: runes l) as ->.
  { cbn [runes]. change (byte_val HT) with 9. assert (byte_val c <? 128 = true) as -> by lia. done. }
  assert (IsSpace (byte_val c) = false) as Hsp.
  { unfold IsSpace, in_ranges, in_range. simpl. lia. }
  assert (leading_space ((9, true) :: (byte_val c, true) :: runes l) = [(9, true)]) as ->.
  { cbn [leading_space fst]. change (IsSpace 9) with true. by rewrite Hsp. }
  cbn [length drop].
  assert (width (leading_space (rev ((byte_val c, true) :: runes l))) ≤ length l)%nat.
  { cbn [rev]. etrans; [by apply leading_space_stop|]. rewrite width_rev. apply width_runes. }
  change (width [(9, true)]) with 1%nat. cbn [drop length].
  intros H0%(f_equal length). rewrite length_take in H0.
  cbn [length] in H0. lia.
Qed.

(** ** The text of a field *)

Lemma remove_crlf_line l k : unbroken l → remove_crlf (l ++ crlf ++ k) = l ++ remove_crlf k.
Proof.
  induction l as [|c l IH]; intros [Hcr Hlf]; [done|]. cbn [app].
  assert (Hne : c ≠ CR) by set_solver.
  assert (∃ d t, l ++ crlf ++ k = d :: t) as (d & t & Hd) by (destruct l; simpl; eauto).
  change (remove_crlf (c :: l ++ crlf ++ k) = c :: l ++ remove_crlf k).
  rewrite Hd, remove_crlf_cons2, is_cr, bool_decide_eq_false_2 by done. cbn [andb].
  rewrite <-Hd. f_equal. apply IH. unfold unbroken. set_solver.
Qed.

Lemma remove_crlf_terminate ls : Forall unbroken ls → remove_crlf (terminate ls) = concat ls.
Proof.
  induction ls as [|l ls IH]; intros Hf; [done|]. apply Forall_cons_1 in Hf as [Hl Hf].
  rewrite terminate_cons, remove_crlf_line by done. cbn [concat]. by rewrite IH.
Qed.

Lemma clean_concat ls : Forall clean ls → clean (concat ls).
Proof. induction 1 as [|l ls Hl Hf IH]; [done|]. cbn [concat]. by apply clean_app. Qed.

Lemma field_text_clean f : wf_field f → clean (str_list (field_text f)).
Proof.
  intros (name & body & folds & Hn & Hb & Hf & _ & Hv). unfold field_text.
  rewrite str_list_of_list, Hv, terminate_cons. unfold cut_byte.
  assert (Hi : index_byte 58 ((name ++ ":"%char :: body) ++ crlf ++ terminate folds) = Some (length name)).
  { rewrite <-app_assoc. apply index_byte_app; [done|].
    intros d Hd. by apply (validFieldName_elem _ _ Hn). }
  rewrite Hi. cbn [fst snd].
  assert (drop (S (length name)) ((name ++ ":"%char :: body) ++ crlf ++ terminate folds) =
          terminate (body :: folds)) as ->.
  { rewrite terminate_cons, <-app_assoc, drop_app_ge by lia.
    by replace (S (length name) - length name)%nat with 1%nat by lia. }
  assert (Hc : Forall clean (body :: folds)).
  { constructor; [done|]. eapply Forall_impl; [exact Hf|]. by intros t (_ & Ht & _). }
  apply (clean_sub (remove_crlf (terminate (body :: folds)))).
  { intros c. apply trim_space_elem. }
  rewrite remove_crlf_terminate.
  - by apply clean_concat.
  - eapply Forall_impl; [exact Hc|]. apply clean_unbroken.
Qed.

Lemma drop_elem (n : nat) (l : bytes) c : c ∈ drop n l → c ∈ l.
Proof. intros (i & Hi)%list_elem_of_lookup_1. rewrite lookup_drop in Hi. by eapply list_elem_of_lookup_2. Qed.

Lemma take_elem (n : nat) (l : bytes) c : c ∈ take n l → c ∈ l.
Proof. intros (i & Hi & _)%elem_of_take. by eapply list_elem_of_lookup_2. Qed.

Section originators.
Context `{MailParser} `{CaseTables} (ToASCII : string → res string).

(** An originator has no control characters. *)
Lemma originator_clean f addr :
  wf_field f → originator ToASCII f = Ok addr → clean (str_list addr).
Proof.
  intros Hw%field_text_clean. unfold originator.
  destruct (ParseMailbox (field_text f)) as [a|] eqn:Ea; [|done].
  destruct (ValidateAddress ToASCII _) as [[]|]; [|done]. intros [= <-].
  pose proof (parse_controls _ _ Ea Hw) as Ha. unfold preserveLocalPartCase.
  destruct (last_index 64 (str_list a)) as [at_|]; [|done].
  set (raw := trim_space (raw_addr (str_list (field_text f)))).
  assert (Hraw : clean raw).
  { eapply clean_sub; [|exact Hw]. intros c Hc%trim_space_elem. unfold raw_addr in Hc.
    destruct (last_index 60 _) as [i|]; [|done]. destruct (last_index 62 _) as [j|]; [|done].
    destruct (i <? j)%nat; [|done]. by eapply drop_elem, take_elem. }
  destruct (last_index 64 raw) as [rat|]; [|done].
  destruct (_ && _); [done|]. rewrite !str_list_app, str_list_of_list.
  apply clean_app. split; [apply (clean_sub raw); [intros c; apply take_elem|done]|].
  apply clean_app. split; [done|]. apply lower_controls. rewrite str_list_of_list.
  apply (clean_sub raw); [intros c; apply drop_elem|done].
Qed.

(** What the loop over the fields establishes. *)
Lemma originators_spec fields : ∀ from0 sender0 u0 from sender u,
  originators ToASCII fields from0 sender0 u0 = Ok (from, sender, u) →
  (∀ f, f ∈ fields → HasPrefix (f_name f) "resent-" = false) ∧
  (u = false → u0 = false ∧ ∀ f, f ∈ fields → low_bytes (f_value f)) ∧
  (filter (λ f, f_name f = "from") fields = [] → from = from0) ∧
  (∀ f, filter (λ f, f_name f = "from") fields = [f] →
     originator ToASCII f = Ok from ∧ (u = false → needsUTF8Addr from = false)).
Proof.
  induction fields as [|f fields IH]; intros from0 sender0 u0 from sender u; cbn [originators].
  { intros [= <- <- <-]. split_and!; [|intros ->; split; [done|]|done|done];
      intros g Hg; by apply elem_of_nil in Hg. }
  destruct (HasPrefix (f_name f) "resent-") eqn:Er; [done|].
  destruct (_ && _) eqn:Eu; [done|].
  assert (Hstep : ∀ v, (v = false → u0 = false ∧ fieldHasHighBit (f_value f) = false) →
    (u = false → v = false ∧ ∀ f, f ∈ fields → low_bytes (f_value f)) →
    u = false → u0 = false ∧ ∀ g, g ∈ f :: fields → low_bytes (f_value g)).
  { intros v Hv Hi Hu0. destruct (Hi Hu0) as [Hv0 Hl]. destruct (Hv Hv0) as [? Hf].
    split; [done|]. intros g [->|Hg]%elem_of_cons; [exact Hf|by apply Hl]. }
  assert (Hres : (∀ g, g ∈ fields → HasPrefix (f_name g) "resent-" = false) →
    ∀ g, g ∈ f :: fields → HasPrefix (f_name g) "resent-" = false).
  { intros Hg g [->|Hin]%elem_of_cons; [done|by apply Hg]. }
  rewrite filter_cons. destruct (bool_decide (f_name f = "from")) eqn:Ef.
  - rewrite (decide_True _ _ (bool_decide_eq_true_1 _ Ef)). cbn [negb andb].
    destruct (originator ToASCII f) as [addr|] eqn:Eo; [|done]. cbn [res_bind]. intros Hrec.
    destruct (IH _ _ _ _ _ _ Hrec) as (H1 & H2 & H3 & H4). split_and!; [by auto| |done|].
    + eapply Hstep; [|exact H2]. intros [[? ?]%orb_false_iff _]%orb_false_iff. done.
    + intros g [= <- Hnil]. rewrite (H3 Hnil). split; [done|]. intros Hu0.
      destruct (H2 Hu0) as [[_ ?]%orb_false_iff _]. done.
  - rewrite (decide_False _ _ (bool_decide_eq_false_1 _ Ef)). cbn [negb andb].
    destruct (bool_decide (f_name f = "sender")); cbn [negb].
    + destruct (originator ToASCII f) as [addr|] eqn:Eo; [|done]. cbn [res_bind].
      destruct (negb (bool_decide (sender0 = ""))); [done|]. intros Hrec.
      destruct (IH _ _ _ _ _ _ Hrec) as (H1 & H2 & H3 & H4). split_and!; [by auto| |done|done].
      eapply Hstep; [|exact H2]. intros [[? ?]%orb_false_iff _]%orb_false_iff. done.
    + intros Hrec. destruct (IH _ _ _ _ _ _ Hrec) as (H1 & H2 & H3 & H4).
      split_and!; [by auto| |done|done].
      eapply Hstep; [|exact H2]. intros [? ?]%orb_false_iff. done.
Qed.
End originators.

(** The tally of a name is the number of fields with it. *)
Lemma count_fields_spec ctx fields : ∀ i present present' n,
  count_fields ctx i fields present = Ok present' →
  default 0 (present' !! n) =
    default 0 (present !! n) + Z.of_nat (length (filter (λ f, f_name f = n) fields)).
Proof.
  induction fields as [|f fields IH]; intros i present present' n; cbn [count_fields].
  { intros [= <-]. simpl. lia. }
  destruct (poll ctx (AtField i)); [|done]. cbn [res_bind]. intros Hc.
  rewrite (IH _ _ _ n Hc), filter_cons. destruct (decide (f_name f = n)) as [<-|Hn].
  - rewrite lookup_insert_eq. simpl. lia.
  - by rewrite lookup_insert_ne.
Qed.

(** ** The fields the server writes *)

(** Formatted times and random text: printable, the date not blank. *)
Record stamp_ok (st : Stamp) : Prop := {
  received_printable : printable (str_list (receivedAt st));
  received_visible : ∃ c k, str_list (receivedAt st) = c :: k ∧ byte_val c ≠ 32;
  dated_printable : printable (str_list (datedAt st));
  unix_printable : printable (str_list (unix36 st));
  rand_printable : printable (str_list (randText st))
}.

(** A one-line field. *)
Definition line_field (name : string) (body : bytes) : field :=
  mkField (ToLower name) (terminate [str_list name ++ ":"%char :: body]).

Definition opt_field (b : bool) (name : string) (body : bytes) : list field :=
  if b then [line_field name body] else [].

Definition received_first (opts : Options) : bytes :=
  str_list " from " ++ traceValue (Helo opts)
  ++ (if bool_decide (Remote opts = "") then []
      else str_list " (" ++ traceValue (Remote opts) ++ str_list ")").

Definition received_by (opts : Options) (identifier : bytes) : bytes :=
  HT :: str_list "by " ++ str_list (Hostname opts) ++ str_list " with "
  ++ str_list (protocol (TLS opts)) ++ str_list " id " ++ trim_angles identifier ++ str_list ";".

Definition received_field (opts : Options) (st : Stamp) (identifier : bytes) : field :=
  mkField "received"
    (terminate [str_list "Received" ++ ":"%char :: received_first opts;
                received_by opts identifier; HT :: str_list (receivedAt st)]).

Lemma received_field_value opts st identifier :
  f_value (received_field opts st identifier) = received opts st identifier.
Proof.
  cbn [received_field f_value]. unfold received_first, received_by, received.
  rewrite !terminate_cons. unfold terminate. cbn [fmap list_fmap concat].
  rewrite app_nil_r, <-!app_assoc, <-!app_comm_cons, <-!app_assoc. reflexivity.
Qed.

Section fields.
Context `{MailParser}.

Definition added_fields (st : Stamp) (identifier : bytes) (fields : list field)
    (present : gmap string Z) (body : bytes) : list field :=
  let tally name := default 0 (present !! name) in
  let eightBit := negb (ascii_body body) in
  let addType := (tally "content-type" =? 0) && (eightBit && ValidString (of_list body)) in
  opt_field (negb (usable validDate fields "date")) "Date" (SP :: str_list (datedAt st))
  ++ opt_field (negb (usable validMessageID fields "message-id")) "Message-ID" (SP :: identifier)
  ++ opt_field ((tally "to" =? 0) && (tally "cc" =? 0)) "To" (str_list " undisclosed-recipients:;")
  ++ opt_field addType "Content-Type" (str_list " text/plain; charset=utf-8")
  ++ opt_field ((tally "content-transfer-encoding" =? 0) && eightBit)
       "Content-Transfer-Encoding" (str_list " 8bit")
  ++ opt_field ((tally "mime-version" =? 0) && ((0 <? tally "content-type") || addType || eightBit))
       "MIME-Version" (str_list " 1.0").

Lemma print_opt_field b name body :
  print_fields (opt_field b name body) = if b then str_list name ++ ":"%char :: body ++ crlf else [].
Proof.
  destruct b; [|done]. unfold print_fields, opt_field, line_field, terminate. simpl.
  by rewrite !app_nil_r, <-app_assoc.
Qed.

Lemma print_added st identifier fields present body :
  print_fields (added_fields st identifier fields present body) = added st identifier fields present body.
Proof.
  unfold added_fields, added. rewrite !print_fields_app, !print_opt_field.
  destruct (usable validDate fields "date"), (usable validMessageID fields "message-id"),
    (_ && (default 0 (present !! "cc") =? 0)), (_ && (negb (ascii_body body) && _)),
    (_ && negb (ascii_body body)), (_ && (_ || negb (ascii_body body))); reflexivity.
Qed.
End fields.

Lemma line_field_wf name body :
  validFieldName (str_list name) = true → clean body → wf_field (line_field name body).
Proof.
  intros Hn Hb. exists (str_list name), body, []. split_and!; [done|done|done| |done].
  cbn [line_field f_name]. by rewrite of_list_str_list.
Qed.

Lemma drop_while_elem p (l : bytes) c : c ∈ drop_while p l → c ∈ l.
Proof.
  induction l as [|d l IH]; simpl; [done|]. destruct (p d); [|done]. intros Hc. right. by apply IH.
Qed.

Lemma trim_angles_elem l c : c ∈ trim_angles l → c ∈ l.
Proof.
  unfold trim_angles. rewrite !list_elem_of_In, <-in_rev, <-list_elem_of_In.
  intros Hc%drop_while_elem. rewrite list_elem_of_In, <-in_rev, <-list_elem_of_In in Hc.
  by apply drop_while_elem in Hc; apply list_elem_of_In.
Qed.

(** Sub-texts keep a property of all their bytes. *)
Lemma low_sub l k : (∀ c, c ∈ k → c ∈ l) → low_bytes l → low_bytes k.
Proof. rewrite !low_bytes_elem. eauto. Qed.

Lemma identifierDomain_cases hostname from :
  identifierDomain hostname from = hostname ∨
  ∀ c, c ∈ str_list (identifierDomain hostname from) → c ∈ str_list from.
Proof.
  unfold identifierDomain. destruct (last_index 64 (str_list from)) as [n|]; [|by left].
  destruct (_ <? _)%nat; [right|by left]. unfold str_drop. rewrite str_list_of_list.
  intros c. apply drop_elem.
Qed.

Section identifier.
Context (st : Stamp) (opts : Options) (from : string).
Hypothesis Hst : stamp_ok st.
Hypothesis Hhost : printable (str_list (Hostname opts)).
Definition the_id : bytes := messageID st (identifierDomain (Hostname opts) from).

Lemma the_id_clean : clean (str_list from) → clean the_id.
Proof.
  intros Hf. unfold the_id, messageID. rewrite !clean_app. split_and!; try done.
  - apply printable_clean, Hst.
  - apply printable_clean, printable_lower, Hst.
  - destruct (identifierDomain_cases (Hostname opts) from) as [->|Hs].
    + by apply printable_clean.
    + by apply (clean_sub (str_list from)).
Qed.

Lemma the_id_low : low_bytes (str_list from) → low_bytes the_id.
Proof.
  intros Hf. unfold the_id, messageID. rewrite !low_bytes_app. split_and!; try done.
  - apply printable_low, Hst.
  - apply printable_low, printable_lower, Hst.
  - destruct (identifierDomain_cases (Hostname opts) from) as [->|Hs].
    + by apply printable_low.
    + by apply (low_sub (str_list from)).
Qed.

Lemma received_first_printable : printable (received_first opts).
Proof.
  unfold received_first. rewrite !printable_app.
  split_and!; [by apply printable_b_spec|apply traceValue_printable|].
  destruct (bool_decide _); [by apply printable_b_spec|]. rewrite !printable_app.
  split_and!; [by apply printable_b_spec|apply traceValue_printable|by apply printable_b_spec].
Qed.

Lemma protocol_printable : printable (str_list (protocol (TLS opts))).
Proof. unfold protocol. destruct (bool_decide _); by apply printable_b_spec. Qed.

Lemma received_wf : clean the_id → wf_field (received_field opts st the_id).
Proof.
  intros Hid. exists (str_list "Received"), (received_first opts),
    [received_by opts the_id; HT :: str_list (receivedAt st)].
  split_and!; [done|apply printable_clean, received_first_printable| |done|done].
  apply Forall_cons. split; [|apply Forall_singleton].
  - split_and!; [by right| |by apply trim_tab]. unfold received_by.
    change (HT :: ?l) with ([HT] ++ l). rewrite !clean_app.
    split_and!; try done; [by apply printable_clean|apply printable_clean, protocol_printable|].
    by apply (clean_sub the_id); [intros c; apply trim_angles_elem|].
  - split_and!; [by right| |].
    + change (HT :: ?l) with ([HT] ++ l). apply clean_app. split; [done|]. apply printable_clean, Hst.
    + destruct (received_visible st Hst) as (c & k & Hc & Hne). rewrite Hc. apply trim_tab.
      assert (32 ≤ byte_val c ≤ 126); [|lia]. apply (received_printable st Hst). rewrite Hc. left.
Qed.

Lemma received_low : low_bytes the_id → low_bytes (f_value (received_field opts st the_id)).
Proof.
  intros Hid. rewrite received_field_value. unfold received. rewrite !low_bytes_app.
  pose proof (printable_low _ (traceValue_printable (Helo opts))).
  pose proof (printable_low _ (traceValue_printable (Remote opts))).
  pose proof (printable_low _ protocol_printable). pose proof (printable_low _ Hhost).
  pose proof (printable_low _ (received_printable st Hst)).
  split_and!; try done.
  - destruct (bool_decide _); [done|]. by rewrite !low_bytes_app.
  - by apply (low_sub the_id); [intros c; apply trim_angles_elem|].
Qed.
End identifier.

(** ** The lines of a header *)

Lemma fields_lines hs :
  Forall wf_field hs →
  ∃ ls, print_fields hs = terminate ls ∧ Forall unbroken ls ∧ Forall (λ l, l ≠ []) ls ∧
    (hs ≠ [] → ls ≠ []).
Proof.
  induction 1 as [|f hs (name & body & folds & Hn & Hb & Hf & _ & Hv) _ (ls & Hp & Hu & Hne & _)].
  { by exists []. }
  exists (((name ++ ":"%char :: body) :: folds) ++ ls). split_and!; [| | |done].
  - unfold print_fields in *. rewrite fmap_cons. cbn [concat]. by rewrite Hp, Hv, terminate_app.
  - apply Forall_app. split; [|done]. constructor.
    + apply clean_unbroken, clean_app. split; [by apply validFieldName_clean|exact Hb].
    + eapply Forall_impl; [exact Hf|]. intros t (_ & Ht & _). by apply clean_unbroken.
  - apply Forall_app. split; [|done]. constructor; [by destruct name|].
    eapply Forall_impl; [exact Hf|]. intros t ([Ht|Ht] & _) ->; done.
Qed.

(** The lines of a normalised message. *)
Lemma normalize_lines ctx raw data :
  normalize ctx raw = Ok data →
  ∃ ls, data = terminate ls ∧ Forall unbroken ls ∧ Forall (λ l, (length l ≤ 998)%nat) ls.
Proof.
  intros Hn%normalize_background.
  rewrite normalize_spec in Hn. destruct (existsb (is_char 0) raw); [done|].
  destruct (existsb long_line (lines_of raw)) eqn:El; [done|]. injection Hn as <-.
  exists (complete (lines_of raw)). split; [done|].
  pose proof (lines_of_unbroken raw) as Hu. rewrite Forall_forall in Hu.
  split; apply Forall_forall; intros l Hl%complete_elem; [by apply Hu|].
  apply not_true_iff_false in El. destruct (decide (length l ≤ 998)%nat) as [|Hgt]; [done|].
  exfalso. apply El, existsb_exists. exists l. split; [by apply list_elem_of_In|].
  unfold long_line, maxLineLength. apply Z.ltb_lt. lia.
Qed.

(** ** The prepared message *)

Definition has_field (hs : list field) (name : string) : Prop := ∃ f, f ∈ hs ∧ f_name f = name.

Section prepared.
Context `{MailParser} `{CaseTables} (ToASCII : string → res string).

(** What leaves: fields [hs], a blank line, and [body]. *)
Record outgoing (m : PreparedMessage) (hs : list field) (body : bytes) : Prop := {
  out_data : Data m = print_fields hs ++ crlf ++ body;
  out_split : split (Data m) = (print_fields hs, body);
  out_fields : Forall wf_field hs;
  out_body : ∃ ls, body = terminate ls ∧ Forall unbroken ls ∧ Forall (λ l, (length l ≤ 998)%nat) ls;
  out_from : ∃ f, filter (λ h, f_name h = "from") hs = [f] ∧ originator ToASCII f = Ok (From m);
  out_private : ∀ f, f ∈ hs → f_name f ≠ "bcc" ∧ f_name f ≠ "return-path" ∧
    HasPrefix (f_name f) "resent-" = false;
  out_date : has_field hs "date";
  out_id : has_field hs "message-id";
  out_recipients : has_field hs "to" ∨ has_field hs "cc";
  out_utf8 : NeedsUTF8 m = false → Forall (λ f, low_bytes (f_value f)) hs;
  out_eight : mEightBit m = negb (ascii_body body)
}.

Lemma opt_field_Forall (P : field → Prop) b name body :
  P (line_field name body) → Forall P (opt_field b name body).
Proof. destruct b; simpl; [|done]. intros HP. by apply Forall_singleton. Qed.

Lemma added_wf st identifier fields present body :
  stamp_ok st → clean identifier →
  Forall wf_field (added_fields st identifier fields present body).
Proof.
  intros Hst Hid. unfold added_fields.
  repeat (apply Forall_app; split); apply opt_field_Forall, line_field_wf; try done.
  apply printable_clean. intros c [->|Hc]%elem_of_cons; [done|]. by apply (dated_printable st Hst).
Qed.

Lemma added_low st identifier fields present body :
  stamp_ok st → low_bytes identifier →
  Forall (λ f, low_bytes (f_value f)) (added_fields st identifier fields present body).
Proof.
  intros Hst Hid. unfold added_fields.
  assert (Hline : ∀ name body, low_bytes (str_list name) → low_bytes body →
            low_bytes (f_value (line_field name body))).
  { intros name b Hn Hb. cbn [line_field f_value]. unfold terminate. cbn [fmap list_fmap concat].
    rewrite app_nil_r. change (":"%char :: b) with ([":"%char] ++ b). rewrite !low_bytes_app. done. }
  repeat (apply Forall_app; split); apply opt_field_Forall, Hline; try done.
  apply printable_low. intros c [->|Hc]%elem_of_cons; [done|]. by apply (dated_printable st Hst).
Qed.

(** The names of added fields. *)
Lemma added_names st identifier fields present body f :
  f ∈ added_fields st identifier fields present body →
  f_name f ∈ ["date"; "message-id"; "to"; "content-type"; "content-transfer-encoding"; "mime-version"].
Proof.
  assert (Ho : ∀ b name body g, g ∈ opt_field b name body → f_name g = ToLower name).
  { intros [] name b g; simpl; [|by intros ?%elem_of_nil]. by intros ->%list_elem_of_singleton. }
  unfold added_fields. rewrite !elem_of_app.
  intros [Hf|[Hf|[Hf|[Hf|[Hf|Hf]]]]]; apply Ho in Hf as ->; apply (bool_decide_unpack _); exact I.
Qed.

Lemma usable_kept ok fields name :
  usable ok fields name = true → ∃ f, f ∈ fields ∧ f_name f = name ∧ firstField fields name = Some f ∧
    ok (field_text f) = true.
Proof.
  unfold usable, firstField. destruct (filter _ fields) as [|f k] eqn:Ef; [done|]. simpl. intros Ho.
  assert (Hf : f ∈ filter (λ f, f_name f = name) fields) by (rewrite Ef; left).
  apply list_elem_of_filter in Hf as [? ?]. eauto.
Qed.

Lemma filter_filter_impl (P Q : field → Prop) `{∀ x, Decision (P x)} `{∀ x, Decision (Q x)} (l : list field) :
  (∀ x, x ∈ l → P x → Q x) → filter P (filter Q l) = filter P l.
Proof.
  induction l as [|x l IH]; intros Hpq; [done|]. rewrite !filter_cons.
  assert (filter P (filter Q l) = filter P l) as Hl by (apply IH; intros; apply Hpq; [by right|done]).
  destruct (decide (Q x)) as [Hq|Hq].
  - rewrite filter_cons, Hl. done.
  - rewrite decide_False; [done|]. intros Hp. by apply Hq, Hpq; [left|].
Qed.

Lemma kept_plain fields f :
  f_name f ∉ ["bcc"; "resent-bcc"; "return-path"; "date"; "message-id"] → kept fields f = true.
Proof.
  intros Hn. unfold kept. rewrite !bool_decide_eq_false_2; [done|..];
    intros Heq; apply Hn; rewrite Heq; apply (bool_decide_unpack _); exact I.
Qed.

Lemma kept_private fields f :
  kept fields f = true → f_name f ≠ "bcc" ∧ f_name f ≠ "return-path".
Proof.
  unfold kept. destruct (_ || _) eqn:E; [done|]. intros _.
  apply orb_false_iff in E as [[E1 _]%orb_false_iff E2]. zbool. done.
Qed.

(** The header's fields for a submission with [fields]. *)
Definition header_fields opts st fields present body from : list field :=
  received_field opts st (the_id st opts from)
  :: added_fields st (the_id st opts from) fields present body
  ++ filter (λ f, kept fields f = true) fields.

Section header.
Context (st : Stamp) (opts : Options) (fields : list field) (present : gmap string Z)
  (body : bytes) (from : string).
Hypothesis Htally : ∀ n, default 0 (present !! n) =
  Z.of_nat (length (filter (λ f, f_name f = n) fields)).
Local Abbreviation hs := (header_fields opts st fields present body from).

Lemma header_kept f : f ∈ fields → kept fields f = true → f ∈ hs.
Proof. intros Hf Hk. right. apply elem_of_app. right. by apply list_elem_of_filter. Qed.

Lemma header_added f : f ∈ added_fields st (the_id st opts from) fields present body → f ∈ hs.
Proof. intros Hf. right. apply elem_of_app. by left. Qed.

Lemma header_date : has_field hs "date".
Proof.
  destruct (usable validDate fields "date") eqn:Eu.
  - apply usable_kept in Eu as (f & Hf & Hn & Hfirst & Hok). exists f. split; [|done].
    apply header_kept; [done|]. unfold kept. by rewrite Hn, Hfirst, Hok.
  - exists (line_field "Date" (SP :: str_list (datedAt st))). split; [|done].
    apply header_added. unfold added_fields. rewrite Eu. left.
Qed.

Lemma header_id : has_field hs "message-id".
Proof.
  destruct (usable validMessageID fields "message-id") eqn:Eu.
  - apply usable_kept in Eu as (f & Hf & Hn & Hfirst & Hok). exists f. split; [|done].
    apply header_kept; [done|]. unfold kept. by rewrite Hn, Hfirst, Hok.
  - exists (line_field "Message-ID" (SP :: the_id st opts from)). split; [|done].
    apply header_added. unfold added_fields. rewrite Eu.
    apply elem_of_app. right. apply elem_of_app. left. left.
Qed.

Lemma tally_field n : default 0 (present !! n) ≠ 0 →
  n ∉ ["bcc"; "resent-bcc"; "return-path"; "date"; "message-id"] → has_field hs n.
Proof.
  rewrite Htally. destruct (filter (λ f, f_name f = n) fields) as [|f k] eqn:Ef; [done|]. intros _ Hn.
  assert (Hf : f ∈ filter (λ f, f_name f = n) fields) by (rewrite Ef; left).
  apply list_elem_of_filter in Hf as [Hname Hf]. exists f. split; [|done].
  apply header_kept; [done|]. apply kept_plain. by rewrite Hname.
Qed.

Lemma header_recipients : has_field hs "to" ∨ has_field hs "cc".
Proof.
  destruct (decide (default 0 (present !! "to") = 0)) as [Ht|Ht].
  - destruct (decide (default 0 (present !! "cc") = 0)) as [Hc|Hc].
    + left. exists (line_field "To" (str_list " undisclosed-recipients:;")). split; [|done].
      apply header_added. unfold added_fields. rewrite Ht, Hc. cbn [Z.eqb andb].
      apply elem_of_app. right. apply elem_of_app. right. apply elem_of_app. left. left.
    + right. apply tally_field; [done|]. apply (bool_decide_unpack _). exact I.
  - left. apply tally_field; [done|]. apply (bool_decide_unpack _). exact I.
Qed.

Lemma header_from : filter (λ h, f_name h = "from") hs = filter (λ h, f_name h = "from") fields.
Proof.
  unfold header_fields. rewrite filter_cons_False by done. rewrite filter_app.
  assert (filter (λ h, f_name h = "from")
            (added_fields st (the_id st opts from) fields present body) = []) as ->.
  { destruct (filter _ (added_fields _ _ _ _ _)) as [|f k] eqn:Ef; [done|]. exfalso.
    assert (Hf : f ∈ f :: k) by left. rewrite <-Ef in Hf. apply list_elem_of_filter in Hf as [Hn Hf].
    apply added_names in Hf. rewrite Hn in Hf. revert Hf. apply (bool_decide_unpack _). exact I. }
  apply filter_filter_impl. intros f _ Hn. apply kept_plain. rewrite Hn.
  apply (bool_decide_unpack _). exact I.
Qed.

Lemma header_private :
  (∀ f, f ∈ fields → HasPrefix (f_name f) "resent-" = false) →
  ∀ f, f ∈ hs → f_name f ≠ "bcc" ∧ f_name f ≠ "return-path" ∧ HasPrefix (f_name f) "resent-" = false.
Proof.
  intros Hres f [->|[Hf|Hf]%elem_of_app]%elem_of_cons; [done| |].
  - apply added_names in Hf. repeat (apply elem_of_cons in Hf as [->|Hf]; [done|]).
    by apply elem_of_nil in Hf.
  - apply list_elem_of_filter in Hf as [Hk Hf]. apply kept_private in Hk as [? ?].
    split_and!; [done|done|by apply Hres].
Qed.

Lemma header_print :
  print_fields hs = received opts st (the_id st opts from)
    ++ added st (the_id st opts from) fields present body ++ copied fields.
Proof.
  unfold header_fields. rewrite <-received_field_value, <-print_added.
  change (?a :: ?b ++ ?c) with ([a] ++ b ++ c). rewrite !print_fields_app.
  unfold print_fields at 1. cbn [fmap list_fmap concat]. by rewrite app_nil_r.
Qed.

Hypothesis Hst : stamp_ok st.
Hypothesis Hhost : printable (str_list (Hostname opts)).

Lemma header_wf : clean (str_list from) → Forall wf_field fields → Forall wf_field hs.
Proof.
  intros Hf Hw. pose proof (the_id_clean _ _ _ Hst Hhost Hf). apply Forall_cons.
  split; [by apply received_wf|]. apply Forall_app. split; [by apply added_wf|].
  apply Forall_forall. intros f [_ Hin]%list_elem_of_filter. by apply (proj1 (Forall_forall _ _) Hw).
Qed.

Lemma header_low : low_bytes (str_list from) → Forall (λ f, low_bytes (f_value f)) fields →
  Forall (λ f, low_bytes (f_value f)) hs.
Proof.
  intros Hf Hw. pose proof (the_id_low _ _ _ Hst Hhost Hf). apply Forall_cons.
  split; [by apply received_low|]. apply Forall_app. split; [by apply added_low|].
  apply Forall_forall. intros f [_ Hin]%list_elem_of_filter. by apply (proj1 (Forall_forall _ _) Hw).
Qed.

(** The message's own parse is the header and the body. *)
Lemma header_split :
  Forall wf_field hs → (∃ ls, body = terminate ls ∧ Forall unbroken ls) →
  split (print_fields hs ++ crlf ++ body) = (print_fields hs, body).
Proof.
  intros Hw (bl & -> & Hb). destruct (fields_lines _ Hw) as (ls & Hp & Hu & Hne & Hnil). rewrite Hp.
  change (crlf ++ terminate bl) with ([] ++ crlf ++ terminate bl).
  rewrite <-terminate_cons, <-terminate_app, split_terminate.
  - by rewrite split_lines_header by (done || by apply Hnil).
  - apply Forall_app. split; [done|]. constructor; [|done]. split; apply not_elem_of_nil.
Qed.

(** The properties of the header, put together. *)
Lemma outgoing_intro sender id needs :
  Forall wf_field hs →
  (∃ ls, body = terminate ls ∧ Forall unbroken ls ∧ Forall (λ l, (length l ≤ 998)%nat) ls) →
  (∃ f, filter (λ h, f_name h = "from") hs = [f] ∧ originator ToASCII f = Ok from) →
  (∀ f, f ∈ fields → HasPrefix (f_name f) "resent-" = false) →
  (needs = false → Forall (λ f, low_bytes (f_value f)) hs) →
  outgoing (mkMessage (received opts st (the_id st opts from)
      ++ added st (the_id st opts from) fields present body ++ copied fields ++ crlf ++ body)
    from sender id needs (negb (ascii_body body))) hs body.
Proof.
  intros Hw Hb Hf Hres Hlow.
  assert (Hdata : received opts st (the_id st opts from)
      ++ added st (the_id st opts from) fields present body ++ copied fields ++ crlf ++ body =
      print_fields hs ++ crlf ++ body) by (by rewrite header_print, <-!app_assoc).
  split; try done.
  - rewrite <-header_split; [by f_equal|done|]. destruct Hb as (ls & ? & ? & _). eauto.
  - by apply header_private.
  - apply header_date.
  - apply header_id.
  - apply header_recipients.
Qed.
End header.

Lemma Ok_inj {A} (a b : A) : Ok a = Ok b → a = b.
Proof. congruence. Qed.

Lemma low_addr a : needsUTF8Addr a = false → low_bytes (str_list a).
Proof. unfold needsUTF8Addr. intros [? _]%orb_false_iff. done. Qed.

(** C23: No header injection.  Whatever bytes were submitted and whatever the client
    sent as its name or address, the message [PrepareContext] returns is a list of
    well-formed header fields, a blank line and a body of CRLF-terminated lines of
    at most 998 octets, and splitting it at its first blank line gives exactly that
    header and that body.  It has exactly one From field, whose originator is the
    message's [From]; it has a Date, a Message-ID and a To or Cc field; it has no
    Bcc, Return-Path or Resent field; and unless [NeedsUTF8] is set its header is
    ASCII. *)
Theorem prepared_header ctx st opts reads m :
  stamp_ok st → printable (str_list (Hostname opts)) →
  PrepareContext ToASCII ctx st opts reads = Ok m → ∃ hs body, outgoing m hs body.
Proof.
  intros Hst Hhost. unfold PrepareContext.
  destruct (if 0 <? MaxBytes opts then _ else _) as [raw|]; [|done]. cbn [res_bind].
  destruct (length raw =? 0)%nat; [done|]. destruct (poll ctx AtStart); [|done]. cbn [res_bind].
  destruct (normalize ctx raw) as [data|] eqn:En; [|done]. cbn [res_bind].
  apply normalize_lines in En as (dl & -> & Hdu & Hdl).
  destruct (split (terminate dl)) as [header body] eqn:Esp.
  destruct (maxHeaderBytes <? _); [done|].
  destruct (scan ctx header) as [fields|] eqn:Es; [|done]. cbn [res_bind].
  destruct (poll ctx AtScanned); [|done]. cbn [res_bind].
  destruct (count_fields ctx 0 fields ∅) as [present|] eqn:Ec; [|done]. cbn [res_bind].
  destruct (default 0 (present !! "from") =? 0) eqn:E0; [done|].
  destruct (negb (default 0 (present !! "from") =? 1)) eqn:E1; [done|].
  destruct (originators ToASCII fields "" "" false) as [[[from sender] u]|] eqn:Eo; [|done].
  cbn [res_bind]. intros <-%Ok_inj.
  apply scan_from_wf in Es as (Hwf & _ & _); [|done|simpl; lia].
  assert (Htally : ∀ n, default 0 (present !! n) =
            Z.of_nat (length (filter (λ f, f_name f = n) fields))).
  { intros n. by rewrite (count_fields_spec _ _ _ _ _ n Ec), lookup_empty. }
  apply originators_spec in Eo as (Hres & Hlow & _ & Hfrom).
  assert (∃ f, filter (λ f, f_name f = "from") fields = [f]) as [f Hf].
  { zbool. rewrite Htally in E1. destruct (filter _ fields) as [|f [|g k]]; [done|by eexists|].
    simpl in E1. lia. }
  destruct (Hfrom f Hf) as [Horig Hneed].
  assert (Hff : f ∈ fields).
  { assert (f ∈ filter (λ f, f_name f = "from") fields) as Hin by (rewrite Hf; left).
    by apply list_elem_of_filter in Hin as [_ ?]. }
  rewrite Forall_forall in Hwf.
  pose proof (originator_clean _ _ _ (Hwf f Hff) Horig) as Hclean.
  assert (Hbody : ∃ ls, body = terminate ls ∧ Forall unbroken ls ∧
            Forall (λ l, (length l ≤ 998)%nat) ls).
  { rewrite split_terminate in Esp by done.
    destruct (split_lines dl) as [[la lb]|] eqn:El; injection Esp as <- <-; [|by exists []].
    apply split_lines_app in El as ->. exists lb. apply Forall_app in Hdu as [_ Hdu].
    apply Forall_app in Hdl as [_ Hdl]. inversion_clear Hdu. inversion_clear Hdl. done. }
  exists (header_fields opts st fields present body from), body.
  apply outgoing_intro; try done.
  - apply header_wf; try done. by apply Forall_forall.
  - rewrite header_from by done. by exists f.
  - intros ->. apply header_low; try done.
    + by apply low_addr, Hneed.
    + apply Forall_forall, Hlow; done.
Qed.
End prepared.

(** ** Concrete submissions *)

(** A parser of an addr-spec, optionally followed by a comment. *)
Fixpoint first_word (l : bytes) : bytes :=
  match l with
  | [] => []
  | c :: l => if is_char 32 c then [] else c :: first_word l
  end.

Lemma first_word_elem l c : c ∈ first_word l → c ∈ l.
Proof.
  induction l as [|d l IH]; simpl; [done|]. destruct (is_char 32 d); [by intros ?%elem_of_nil|].
  intros [->|Hc]%elem_of_cons; [left|]. right. by apply IH.
Qed.

#[export] Program Instance sampleParser : MailParser | 100 := {
  ParseMailbox text := Ok (of_list (first_word (str_list text)));
  ParseDate text := true
}.
Next Obligation.
  intros text a <-%Ok_inj Hc. rewrite str_list_of_list.
  by apply (clean_sub (str_list text)); [apply first_word_elem|].
Qed.

Definition sampleStamp : Stamp :=
  mkStamp "Thu, 01 Jan 2026 00:00:00 +0000" "Thu, 01 Jan 2026 00:00:00 +0000" "t6o2k0" "ABC".

Lemma sampleStamp_ok : stamp_ok sampleStamp.
Proof.
  split; try (by apply printable_b_spec). eexists _, _. split; [reflexivity|]. done.
Qed.

Definition sampleOptions : Options := mkOptions "mx.example.com" "client" "192.0.2.1" "TLS304" 1000.

(** A submission with a Bcc field, bare LF line ends and no Date. *)
Definition sampleSubmission : bytes :=
  str_list "From: me@example.com" ++ [LF] ++ str_list "Bcc: you@example.org" ++ [LF]
  ++ str_list "Subject: hi" ++ [LF; LF] ++ str_list "hello".

Definition samplePrepared : res PreparedMessage :=
  PrepareContext sampleIDNA (λ _, None) sampleStamp sampleOptions [(sampleSubmission, None)].

Lemma prepared_header_witness :
  is_ok samplePrepared = true ∧
  match samplePrepared with
  | Ok m => ∃ hs body, outgoing sampleIDNA m hs body
  | Err _ => False
  end.
Proof.
  assert (Hok : is_ok samplePrepared = true) by (vm_compute; reflexivity). split; [exact Hok|].
  destruct samplePrepared as [m|e] eqn:Hm; [|discriminate Hok].
  refine (prepared_header sampleIDNA (λ _, None) sampleStamp sampleOptions
    [(sampleSubmission, None)] m sampleStamp_ok _ Hm).
  apply printable_b_spec. reflexivity.
Defined.

(** ** Finding: the address of a From field can be taken from its comment *)

Definition comment_field : field :=
  line_field "From" (str_list " boss@example.com (x <me@example.com>)").

(** The address checked against the account need not be the address the From
    field names.  For a field whose text is an address followed by a comment that
    contains another address of the same domain in angle brackets, net/mail returns
    the first address; [preserveLocalPartCase] looks for the last pair of angle
    brackets and finds the comment, so the originator is the address in the comment. *)
Theorem comment_spoofs_from `{MailParser} `{CaseTables} (ToASCII : string → res string) :
  ParseMailbox "boss@example.com (x <me@example.com>)" = Ok "boss@example.com" →
  ValidateAddress ToASCII "me@example.com" = Ok tt →
  originator ToASCII comment_field = Ok "me@example.com".
Proof.
  intros Hp Hv. unfold originator.
  assert (field_text comment_field = "boss@example.com (x <me@example.com>)") as -> by reflexivity.
  rewrite Hp.
  assert (preserveLocalPartCase "boss@example.com (x <me@example.com>)" "boss@example.com" =
          "me@example.com") as ->; [|by rewrite Hv].
  change ((if negb (EqualFold "me@example.com" "boss@example.com")
              && negb (EqualFold "example.com" "example.com")
           then "boss@example.com" else "me@" +:+ ToLowerText "example.com") = "me@example.com").
  by rewrite fold_refl, andb_false_r, lower_ascii by done.
Qed.

Lemma comment_spoofs_from_witness : originator sampleIDNA comment_field = Ok "me@example.com".
Proof. apply comment_spoofs_from; reflexivity. Defined.
