(* ===== verification/Users.v ===== *)
(** * Accounts and addresses (src/internal/config/users.go, helpers.go,
      src/internal/mailbox/mailbox.go)

    Who may send as whom: the account table, [User.Allows], and the bare
    addresses SMTP commands carry.  net/mail's [ParseAddress] is a parameter:
    display name and address of a mailbox. *)

From S2P Require Import Prelude Errors GoLib Utf8 Mailbox Text.
Open Scope Z_scope.

Record User := mkAccount {
  uUsername : string;
  PasswordHash : string;
  AllowedSenders : list string;
  Enabled : bool
}.

(** The zero [User]: a session before authentication. *)
Definition noUser : User := mkAccount "" "" [] false.

Section users.
Context `{CaseTables}.

(** One allowed sender against a local part and a domain. *)
Definition sender_allows (loc domain : string) (sender : string) : bool :=
  if HasPrefix sender "*@" && EqualFold (str_drop 2 sender) domain then true
  else
    match last_index 64 (str_list sender) with
    | Some at_ =>
        negb (at_ =? 0)%nat && bool_decide (str_take at_ sender = loc)
        && EqualFold (str_drop (at_ + 1) sender) domain
    | None => false
    end.

Definition Allows (u : User) (address : string) : bool :=
  let address := TrimSpace address in
  match last_index 64 (str_list address) with
  | None => false
  | Some at_ =>
      if (at_ =? 0)%nat || (at_ =? String.length address - 1)%nat then false
      else existsb (sender_allows (str_take at_ address) (str_drop (at_ + 1) address))
             (AllowedSenders u)
  end.

Definition canonicalUsername (username : string) : string := ToLowerText (TrimSpace username).

(** [(cfg *Config) User] on the lookup table. *)
Definition lookupUser (table : gmap string User) (username : string) : option User :=
  table !! canonicalUsername username.
End users.

(** ** Bare addresses *)

(** [mail.ParseAddress]: name and address. *)
Class AddressParser := { ParseAddress : string → res (string * string) }.

Section address.
Context `{AddressParser}.
Variable ToASCII : string → res string.

Definition Address_of (value : string) : res string :=
  let value := TrimSpace value in
  reject bool_decide (value = "") with Message "empty address" in
  let? (name, address) := ParseAddress value in
  reject negb (bool_decide (name = ""))
         || (negb (bool_decide (address = value))
             && negb (bool_decide (value = "<" +:+ address +:+ ">")))
    with Message "address contains a display name" in
  let? _ := ValidateAddress ToASCII address in
  Ok address.

Definition CanonicalAddress (value : string) : res string :=
  let? address := Address_of value in
  let? domain := DomainOf ToASCII address in
  match last_index 64 (str_list address) with
  | Some at_ => Ok (str_take (at_ + 1) address +:+ domain)
  | None => Ok domain
  end.

(** An accepted address is the text itself, with or without angle brackets. *)
Lemma Address_of_inv value a :
  Address_of value = Ok a →
  ValidateAddress ToASCII a = Ok tt ∧ (TrimSpace value = a ∨ TrimSpace value = "<" +:+ a +:+ ">").
Proof.
  unfold Address_of. case_bool_decide; [done|].
  destruct (ParseAddress (TrimSpace value)) as [[n x]|]; [|done]. cbn [res_bind].
  destruct (_ || _) eqn:E; [done|]. destruct (ValidateAddress ToASCII x) as [[]|] eqn:Ev; [|done].
  intros [= <-]. split; [done|]. apply orb_false_iff in E as [_ E].
  apply andb_false_iff in E as [E|E]; apply negb_false_iff, bool_decide_eq_true_1 in E; auto.
Qed.
End address.
