(* ===== verification/Validation.v ===== *)
(** * Envelope validation (src/internal/queue/validation.go)

    [validateEnvelope] checks stored and submitted metadata and fills in
    defaults through the pointer it is given: a missing status becomes pending
    and a routing domain is rewritten to its A-label.  The model returns the
    written envelope with the verdict, on the error paths too. *)

From S2P Require Import Prelude Errors GoLib Sha256 Envelope Utf8 Mailbox.
Open Scope Z_scope.

(** [sanitize]: a name made of letters, digits, hyphen and underscore. *)
Definition safe_rune (r : Z) : bool :=
  in_range 97 122 r || in_range 65 90 r || in_range 48 57 r || (r =? 45) || (r =? 95).

Definition sanitize (s : string) : string :=
  match runes (str_list s) with
  | [] => "x"
  | rs => of_list (map (λ r, if safe_rune r.1 then chr r.1 else chr 95) rs)
  end.

Definition validBodyDigest (digest : string) : bool :=
  if negb (str_len digest =? str_len bodyDigestPrefix + 64)
     || negb (HasPrefix digest bodyDigestPrefix) then false
  else
    match DecodeString (str_drop (String.length bodyDigestPrefix) digest) with
    | None => false
    | Some digestBytes =>
        bool_decide (bodyDigestPrefix +:+ EncodeToString digestBytes = digest)
    end.

Definition containsDisplayControl (s : string) : bool :=
  existsb (λ r, IsControl r.1 || in_ranges format_ranges r.1 || in_ranges separator_ranges r.1)
    (runes (str_list s)).

Definition incrementRevision (revision : Z) : res Z :=
  reject (revision =? 0) || (maxEnvelopeRevision <=? revision)
    with Message "queue revision cannot be incremented" in
  Ok (revision + 1).

(** The loop of [envelopeMetadataWithinLimit]. *)
Fixpoint charge_strings (remaining : Z) (values : list string) : option Z :=
  match values with
  | [] => Some remaining
  | value :: values =>
      if Z.quot remaining 6 <? str_len value then None
      else charge_strings (remaining - str_len value * 6) values
  end.

Definition recipient_strings (r : Recipient) : list string :=
  [Address r; rDomain r; rStatus r; Detail r; EnhancedCode r].

Definition envelopeMetadataWithinLimit (e : Envelope) : bool :=
  let remaining := maxEnvelopeMetadata - 2048 - Z.of_nat (length (Recipients e)) * 256 in
  let strings :=
    [ID e; Incarnation e; Username e; Sender e; LastError e; BodyDigest e; DSNID e;
     DSNSourceID e; DSNSourceIncarnation e]
    ++ concat (map recipient_strings (Recipients e)) in
  match charge_strings remaining strings with
  | None => false
  | Some remaining => 0 <=? remaining
  end.

Definition all_digits (s : string) : bool := forallb is_digit (str_list s).

Definition validEnhancedCode (enhanced : string) (code : Z) : bool :=
  match Split enhanced 46 with
  | [class; subject; detail] =>
      if negb (bool_decide (class = "2") || bool_decide (class = "4")
               || bool_decide (class = "5")) then false
      else
        if negb (code =? 0)
           && negb (from_option (λ c, byte_val c - 48) 0 (head (str_list class))
                    =? Z.quot code 100) then false
        else
          forallb (λ part, (1 <=? str_len part) && (str_len part <=? 3) && all_digits part)
            [subject; detail]
  | _ => false
  end.

Definition addressHasNonASCII (addr : string) : bool :=
  existsb (λ c, 128 <=? byte_val c) (str_list addr).

Definition control_byte (c : ascii) : bool := (byte_val c <? 32) || (byte_val c =? 127).

Definition validateAddress (addr : string) : res unit :=
  reject bool_decide (addr = "") with Message "empty address" in
  reject negb (ValidString addr) with Message "invalid utf-8" in
  reject maxEnvelopeStringBytes <? str_len addr with Message "address too long" in
  reject existsb control_byte (str_list addr) with Message "control character in address" in
  let at_ := LastIndexByte addr 64 in
  reject (at_ <=? 0) || (at_ =? str_len addr - 1) with Message "missing @domain" in
  reject Contains addr " " with Message "whitespace in address" in
  Ok tt.

Definition is_empty (s : string) : bool := bool_decide (s = "").

(** A 32-digit hexadecimal incarnation. *)
Definition validIncarnation (s : string) : bool :=
  (str_len s =? 32) && (match DecodeString s with Some _ => true | None => false end).

(** The sender and its relation to a delivery status notification. *)
Definition validateOrigin (e : Envelope) : res unit :=
  if negb (is_empty (DSNSourceID e)) then
    let? _ := match ValidateID (DSNSourceID e) with
              | Err err => Err (Wrap "DSN source" err) | r => r end in
    reject negb (validIncarnation (DSNSourceIncarnation e))
      with Message "invalid DSN source incarnation" in
    reject negb (bool_decide (ID e =
        DSNID_of (DSNSourceID e) (DSNSourceIncarnation e) (DSNGeneration e)))
      with Wrap "derived DSN ID mismatch" (Sentinel ErrIDConflict) in
    reject (DSNSourceRevision e =? 0) || (maxEnvelopeRevision <? DSNSourceRevision e)
      with Message "invalid DSN source revision" in
    reject negb (is_empty (DSNID e)) with Message "DSN cannot link another DSN" in
    reject negb (is_empty (Sender e)) with Message "DSN sender must be empty" in
    Ok tt
  else if negb (is_empty (Sender e)) then
    reject negb (DSNSourceRevision e =? 0)
      with Message "DSN source revision without source ID" in
    reject negb (is_empty (DSNSourceIncarnation e))
      with Message "DSN source incarnation without source ID" in
    match validateAddress (Sender e) with
    | Err err => Err (Wrap "sender" err)
    | Ok _ => Ok tt
    end
  else Err (Message "missing sender").

(** The checks before the message bodies. *)
Definition validateHeader (e : Envelope) : res unit :=
  let? _ := ValidateID (ID e) in
  reject negb (validIncarnation (Incarnation e)) with Message "invalid queue incarnation" in
  reject (Revision e =? 0) || (maxEnvelopeRevision <? Revision e)
    with Message "invalid queue revision" in
  reject is_empty (Username e) with Message "missing username" in
  reject maxEnvelopeStringBytes <? str_len (Username e) with Message "username too long" in
  reject maxEnvelopeDetailBytes <? str_len (LastError e) with Message "last error too long" in
  let? _ := validateOrigin e in
  reject negb (is_empty (DSNID e))
         && negb (bool_decide (DSNID e = DSNID_of (ID e) (Incarnation e) (DSNGeneration e)))
    with Wrap "source DSN link mismatch" (Sentinel ErrIDConflict) in
  reject bool_decide (Recipients e = []) with Message "no recipients" in
  reject maxEnvelopeRecipients <? Z.of_nat (length (Recipients e))
    with Message "too many recipients" in
  reject Created e =? zeroTime with Message "missing created timestamp" in
  reject (Attempts e <? 0) || (maxEnvelopeAttempts <? Attempts e)
    with Message "invalid attempts" in
  reject Size e <? 0 with Message "negative size" in
  reject negb (validBodyDigest (BodyDigest e)) with Message "missing or invalid body digest" in
  reject Z.of_nat (length (Recipients e)) <? Z.of_nat (length (Bodies e))
    with Message "more message bodies than recipients" in
  Ok tt.

(** The loop over the message bodies; the result is where the last one ends. *)
Fixpoint validateBodies (size bodyEnd : Z) (bodies : list Body) : res Z :=
  match bodies with
  | [] => Ok bodyEnd
  | body :: bodies =>
      reject negb (bOffset body =? bodyEnd) || (bSize body <=? 0)
             || (size - bOffset body <? bSize body) with Message "body: invalid range" in
      reject negb (validBodyDigest (bDigest body)) with Message "body: invalid digest" in
      validateBodies size (bodyEnd + bSize body) bodies
  end.

Section validation.
Variable ToASCII : string → res string.

(** The checks of one recipient that do not write. *)
Definition validateOutcome (r : Recipient) : res unit :=
  reject negb (Code r =? 0) && ((Code r <? 200) || (599 <? Code r))
    with Message "recipient: invalid SMTP code" in
  reject negb (is_empty (EnhancedCode r))
         && ((Code r =? 0) || negb (validEnhancedCode (EnhancedCode r) (Code r)))
    with Message "recipient: invalid enhanced SMTP code" in
  if bool_decide (rStatus r = StatusPending) then
    reject negb (Code r =? 0) || negb (is_empty (EnhancedCode r))
      with Message "recipient: pending recipient has a terminal SMTP code" in Ok tt
  else if bool_decide (rStatus r = StatusSent) then
    reject negb (Code r =? 0) && negb (Z.quot (Code r) 100 =? 2)
      with Message "recipient: sent recipient has a non-success SMTP code" in Ok tt
  else if bool_decide (rStatus r = StatusFailed) then
    reject negb (Code r =? 0) && negb (Z.quot (Code r) 100 =? 5)
      with Message "recipient: failed recipient has a non-permanent SMTP code" in Ok tt
  else Ok tt.

(** The routing domain the recipient ends up with. *)
Definition validateRouting (r : Recipient) : res string :=
  let? _ := match validateAddress (Address r) with
            | Err err => Err (Wrap "recipient" err) | r => r end in
  match DomainOf ToASCII (Address r) with
  | Err err => Err (Wrap "recipient" err)
  | Ok routing =>
      if is_empty (rDomain r) then Ok routing
      else
        match RoutingDomain ToASCII (rDomain r) with
        | Ok stored =>
            reject negb (bool_decide (stored = routing))
              with Message "recipient: domain mismatch" in Ok routing
        | Err _ => Err (Message "recipient: domain mismatch")
        end
  end.

Definition validateBodyIndex (bodies : list Body) (r : Recipient) : res unit :=
  match bodies with
  | [] => reject negb (rBody r =? 0)
            with Message "recipient: body index without message bodies" in Ok tt
  | _ => reject (rBody r <? 0) || (Z.of_nat (length bodies) <=? rBody r)
           with Message "recipient: invalid body index" in Ok tt
  end.

(** One iteration of the recipient loop: the recipient as written, and the
    error if there is one. *)
Definition validateRecipient (bodies : list Body) (r : Recipient) : Recipient * res unit :=
  match
    (let? _ := validateBodyIndex bodies r in
     reject maxEnvelopeStringBytes <? str_len (rDomain r)
       with Message "recipient: domain too long" in
     reject maxEnvelopeDetailBytes <? str_len (Detail r)
       with Message "recipient: detail too long" in
     reject containsDisplayControl (Detail r)
       with Message "recipient: detail contains display control characters" in
     Ok tt)
  with
  | Err err => (r, Err err)
  | Ok _ =>
      let r := if is_empty (rStatus r) then set_rStatus StatusPending r else r in
      if negb (bool_decide (rStatus r = StatusPending) || bool_decide (rStatus r = StatusSent)
               || bool_decide (rStatus r = StatusFailed))
      then (r, Err (Message "recipient: invalid status"))
      else
        match (let? _ := validateOutcome r in validateRouting r) with
        | Err err => (r, Err err)
        | Ok routing => (set_rDomain routing r, Ok tt)
        end
  end.

(** The loop over the recipients. *)
Fixpoint validateRecipients (bodies : list Body) (rs : list Recipient)
    : list Recipient * res unit :=
  match rs with
  | [] => ([], Ok tt)
  | r :: rs =>
      match validateRecipient bodies r with
      | (r, Err err) => (r :: rs, Err err)
      | (r, Ok _) => let '(rs, result) := validateRecipients bodies rs in (r :: rs, result)
      end
  end.

(** The bodies no recipient refers to. *)
Definition unused_body (e : Envelope) : bool :=
  existsb (λ i, negb (existsb (λ r, rBody r =? Z.of_nat i) (Recipients e)))
    (seq 0 (length (Bodies e))).

Definition needUTF8 (e : Envelope) : bool :=
  (negb (is_empty (Sender e)) && addressHasNonASCII (Sender e))
  || existsb (λ r, addressHasNonASCII (Address r)) (Recipients e).

Definition validateEnvelope (e : Envelope) : Envelope * res unit :=
  match
    (let? _ := validateHeader e in
     let? bodyEnd := validateBodies (Size e) 0 (Bodies e) in
     reject negb (bool_decide (Bodies e = [])) && negb (bodyEnd =? Size e)
       with Message "message bodies do not cover stored body" in
     Ok tt)
  with
  | Err err => (e, Err err)
  | Ok _ =>
      let '(rs, result) := validateRecipients (Bodies e) (Recipients e) in
      let e := set_Recipients rs e in
      (e,
       let? _ := result in
       reject unused_body e with Message "body: not referenced by a recipient" in
       reject needUTF8 e && negb (SMTPUTF8 e)
         with Message "SMTPUTF8 required for non-ASCII envelope address" in
       reject negb (envelopeMetadataWithinLimit e)
         with Message "envelope metadata exceeds the limit" in
       Ok tt)
  end.
End validation.

(** ** What a validated envelope is *)

(** The bodies lie one after the other from [start] to [stop]. *)
Fixpoint tiles (start stop : Z) (bodies : list Body) : Prop :=
  match bodies with
  | [] => start = stop
  | b :: bodies => bOffset b = start ∧ 0 < bSize b ∧ tiles (start + bSize b) stop bodies
  end.

Lemma validateBodies_tiles size start bodies stop :
  validateBodies size start bodies = Ok stop → tiles start stop bodies.
Proof.
  revert start. induction bodies as [|b bodies IH]; simpl; intros start H; [by simplify_eq|].
  repeat (case_match; [done|]). zbool. split_and!; [done|lia|]. by apply IH.
Qed.

Lemma tiles_range start stop bodies b :
  tiles start stop bodies → b ∈ bodies →
  start ≤ bOffset b ∧ 0 < bSize b ∧ bOffset b + bSize b ≤ stop.
Proof.
  revert start. induction bodies as [|c bodies IH]; intros start Ht Hb; [by apply elem_of_nil in Hb|].
  assert (Hle : ∀ s bs, tiles s stop bs → s ≤ stop).
  { clear. intros s bs. revert s. induction bs as [|b bs IH]; intros s; simpl; [lia|].
    intros (? & ? & H%IH). lia. }
  destruct Ht as (H1 & H2 & H3). apply elem_of_cons in Hb as [->|Hb].
  - apply Hle in H3. lia.
  - apply (IH _ H3) in Hb. lia.
Qed.

Section validated.
Variable ToASCII : string → res string.

Definition status_ok (s : Status) : Prop := s = StatusPending ∨ s = StatusSent ∨ s = StatusFailed.

(** A recipient as validation leaves it. *)
Record recipient_ok (bodies : list Body) (r : Recipient) : Prop := {
  ro_status : status_ok (rStatus r);
  ro_body : bodies = [] ∧ rBody r = 0 ∨ 0 ≤ rBody r < Z.of_nat (length bodies);
  ro_routing : DomainOf ToASCII (Address r) = Ok (rDomain r);
  ro_name : dns_name true (rDomain r);
  ro_pending : rStatus r = StatusPending → Code r = 0 ∧ EnhancedCode r = ""
}.

Lemma is_empty_true s : is_empty s = true ↔ s = "".
Proof. unfold is_empty. by rewrite bool_decide_eq_true. Qed.

Lemma validateRecipient_ok bodies r r' :
  validateRecipient ToASCII bodies r = (r', Ok tt) →
  recipient_ok bodies r' ∧ Address r' = Address r ∧ rBody r' = rBody r ∧
  Detail r' = Detail r ∧ Code r' = Code r ∧ EnhancedCode r' = EnhancedCode r ∧
  rStatus r' = (if is_empty (rStatus r) then StatusPending else rStatus r).
Proof.
  unfold validateRecipient. set (r1 := if is_empty (rStatus r) then _ else r).
  assert (Hr1 : Address r1 = Address r ∧ rBody r1 = rBody r ∧ Detail r1 = Detail r ∧
                Code r1 = Code r ∧ EnhancedCode r1 = EnhancedCode r ∧
                rStatus r1 = (if is_empty (rStatus r) then StatusPending else rStatus r)).
  { unfold r1. by destruct (is_empty (rStatus r)). }
  clearbody r1. destruct Hr1 as (Ha & Hb & Hd & Hc & He & Hs).
  destruct (res_bind (validateBodyIndex bodies r) _) as [u|] eqn:Hpre; [|done].
  destruct (negb _) eqn:Hst; [done|].
  destruct (res_bind (validateOutcome r1) _) as [routing|] eqn:Hpost; [|done].
  intros [= <-]. simpl. rewrite Ha, Hb, Hd, Hc, He. split_and!; try done.
  destruct (validateBodyIndex bodies r) as [[]|] eqn:Hbi; [|done].
  destruct (validateOutcome r1) as [[]|] eqn:Ho; [|done]. simpl in Hpost.
  unfold validateRouting in Hpost. rewrite Ha in Hpost.
  destruct (validateAddress (Address r)) as [[]|]; [|done]. simpl in Hpost.
  destruct (DomainOf ToASCII (Address r)) as [routing'|] eqn:Hdom; [|done].
  assert (routing' = routing) as -> by (repeat case_match; naive_solver).
  constructor; simpl; rewrite ?Ha, ?Hb; try done.
  - apply negb_false_iff in Hst. unfold status_ok.
    rewrite !orb_true_iff, !bool_decide_eq_true in Hst. tauto.
  - revert Hbi. unfold validateBodyIndex. destruct bodies as [|b bodies].
    + destruct (rBody r =? 0) eqn:E; simpl; [|done]. intros _. zbool. by left.
    + destruct ((rBody r <? 0) || _) eqn:E; [done|]. intros _. zbool. right. simpl in *. lia.
  - unfold DomainOf in Hdom. case_match; [done|]. by apply asciiDomain_name in Hdom.
  - intros Hp. unfold validateOutcome in Ho. rewrite Hp, bool_decide_eq_true_2 in Ho by done.
    destruct (negb (Code r1 =? 0) && _); [done|].
    destruct (negb (is_empty (EnhancedCode r1)) && _); [done|].
    destruct (negb (Code r1 =? 0) || _) eqn:E; [done|]. zbool.
    split; [done|by apply is_empty_true].
Qed.

Lemma validateRecipients_ok bodies rs rs' :
  validateRecipients ToASCII bodies rs = (rs', Ok tt) →
  Forall (recipient_ok bodies) rs' ∧ map Address rs' = map Address rs ∧
  map rBody rs' = map rBody rs.
Proof.
  revert rs'. induction rs as [|r rs IH]; simpl; intros rs' H; [by simplify_eq/=|].
  destruct (validateRecipient ToASCII bodies r) as [r1 res1] eqn:Hr.
  destruct res1 as [[]|]; [|done].
  destruct (validateRecipients ToASCII bodies rs) as [rs1 res2] eqn:Hrs. simplify_eq.
  destruct (IH rs1 eq_refl) as (H1 & H2 & H3).
  destruct (validateRecipient_ok _ _ _ Hr) as (? & ? & ? & _).
  simpl. split_and!; [by constructor|congruence|congruence].
Qed.

(** The parts of a successful validation. *)
Lemma validateEnvelope_ok e e' :
  validateEnvelope ToASCII e = (e', Ok tt) →
  validateHeader e = Ok tt ∧
  (∃ stop, validateBodies (Size e) 0 (Bodies e) = Ok stop ∧ (Bodies e ≠ [] → stop = Size e)) ∧
  ∃ rs, validateRecipients ToASCII (Bodies e) (Recipients e) = (rs, Ok tt) ∧
        e' = set_Recipients rs e ∧ unused_body e' = false ∧
        needUTF8 e' && negb (SMTPUTF8 e') = false ∧ envelopeMetadataWithinLimit e' = true.
Proof.
  unfold validateEnvelope.
  destruct (validateHeader e) as [[]|] eqn:Hh; [|done]. simpl.
  destruct (validateBodies (Size e) 0 (Bodies e)) as [stop|] eqn:Hb; [|done]. simpl.
  destruct (negb (bool_decide (Bodies e = [])) && _) eqn:Hc; [done|].
  destruct (validateRecipients ToASCII (Bodies e) (Recipients e)) as [rs r] eqn:Hr.
  intros [= <- Hres]. destruct r as [[]|]; [|done]. cbn [res_bind] in Hres.
  destruct (unused_body (set_Recipients rs e)) eqn:Hu in Hres; [done|].
  destruct (needUTF8 (set_Recipients rs e) && _) eqn:Hn in Hres; [done|].
  destruct (negb (envelopeMetadataWithinLimit _)) eqn:Hl in Hres; [done|].
  apply negb_false_iff in Hl.
  split; [done|]. split.
  - exists stop. split; [done|]. intros Hne. apply andb_false_iff in Hc as [Hc|Hc]; zbool; done.
  - exists rs. done.
Qed.

Record envelope_ok (e : Envelope) : Prop := {
  eo_id : ValidateID (ID e) = Ok tt;
  eo_revision : 0 < Revision e ≤ maxEnvelopeRevision ∨ Revision e < 0;
  eo_size : 0 ≤ Size e;
  eo_bodies : Bodies e ≠ [] → tiles 0 (Size e) (Bodies e);
  eo_recipients : Forall (recipient_ok (Bodies e)) (Recipients e);
  eo_count : 1 ≤ Z.of_nat (length (Recipients e)) ≤ maxEnvelopeRecipients
}.

(** The size and transfer encoding of every recipient's message are defined. *)
Lemma envelope_ok_message e i :
  envelope_ok e → (i < length (Recipients e))%nat →
  ∃ n b, MessageSize e i = Some n ∧ MessageEightBit e i = Some b ∧ 0 ≤ n ≤ Size e.
Proof.
  intros He Hi. unfold MessageSize, MessageEightBit.
  destruct (Bodies e) as [|b0 bs0] eqn:Hb.
  { exists (Size e), (EightBit e). pose proof (eo_size e He). split_and!; (done || lia). }
  rewrite <-Hb. destruct (lookup_lt_is_Some_2 _ _ Hi) as [r Hr]. rewrite Hr. simpl.
  pose proof (proj1 (Forall_forall _ _) (eo_recipients e He) r
    (list_elem_of_lookup_2 _ _ _ Hr)) as Hok.
  destruct (ro_body _ _ Hok) as [[Hnil _]|Hrange]; [congruence|].
  destruct (lookup_lt_is_Some_2 (Bodies e) (Z.to_nat (rBody r))) as [b Hlb]; [lia|].
  assert (rBody r <? 0 = false) as -> by (apply Z.ltb_ge; lia).
  rewrite Hlb. simpl. exists (bSize b), (bEightBit b). split_and!; try done.
  - pose proof (tiles_range 0 (Size e) (Bodies e) b) as H.
    destruct H as (? & ? & ?); [apply eo_bodies; [done|congruence]| |lia].
    by apply list_elem_of_lookup_2 in Hlb.
  - pose proof (tiles_range 0 (Size e) (Bodies e) b) as H.
    destruct H as (? & ? & ?); [apply eo_bodies; [done|congruence]| |lia].
    by apply list_elem_of_lookup_2 in Hlb.
Qed.
End validated.

Lemma validateHeader_ok e :
  validateHeader e = Ok tt →
  ValidateID (ID e) = Ok tt ∧ Revision e ≠ 0 ∧ Revision e ≤ maxEnvelopeRevision ∧
  0 ≤ Size e ∧ 1 ≤ Z.of_nat (length (Recipients e)) ≤ maxEnvelopeRecipients.
Proof.
  unfold validateHeader. intros H.
  destruct (ValidateID (ID e)) as [[]|]; [|done]. cbn [res_bind] in H.
  repeat match type of H with
  | (if ?b then Err _ else _) = _ => destruct b eqn:?; [done|]
  | res_bind (validateOrigin e) _ = _ =>
      destruct (validateOrigin e) as [[]|]; [|done]; cbn [res_bind] in H
  end.
  zbool. split_and!; try done; try lia.
  destruct (Recipients e); [done|]. simpl. lia.
Qed.

Lemma validated_ok ToASCII e e' :
  validateEnvelope ToASCII e = (e', Ok tt) → envelope_ok ToASCII e'.
Proof.
  intros H. destruct (validateEnvelope_ok _ _ _ H)
    as (Hh & (stop & Hb & Hstop) & rs & Hr & -> & Hu & Hn & Hl).
  destruct (validateHeader_ok e Hh) as (Hid & Hr0 & Hrm & Hsz & Hlen).
  destruct (validateRecipients_ok _ _ _ _ Hr) as (Hrs & Haddr & _).
  constructor; simpl; try done; [lia| |].
  - intros Hne. rewrite <-(Hstop Hne). by apply validateBodies_tiles in Hb.
  - rewrite <-(length_map Address rs), Haddr, length_map. done.
Qed.

(** ** Validation is idempotent *)

Section idempotent.
Context (ToASCII : string → res string) `{!IdnaProfile ToASCII}.

Lemma DomainOf_routing addr d : DomainOf ToASCII addr = Ok d → RoutingDomain ToASCII d = Ok d.
Proof. unfold DomainOf. case_match; [done|]. apply asciiDomain_idem; apply _. Qed.

Lemma validateRecipient_idem bodies r r' :
  validateRecipient ToASCII bodies r = (r', Ok tt) →
  validateRecipient ToASCII bodies r' = (r', Ok tt).
Proof.
  intros H. pose proof (validateRecipient_ok _ _ _ _ H) as (Hok & Ha & Hb & Hd & Hc & He & Hs).
  revert H. unfold validateRecipient at 1.
  set (r1 := if is_empty (rStatus r) then _ else r).
  assert (Hr1 : rStatus r1 = rStatus r' ∧ Code r1 = Code r ∧ EnhancedCode r1 = EnhancedCode r ∧
                Address r1 = Address r ∧ Detail r1 = Detail r ∧ rBody r1 = rBody r).
  { unfold r1. rewrite Hs. by destruct (is_empty (rStatus r)). }
  destruct Hr1 as (R1 & R2 & R3 & R4 & R5 & R6).
  destruct (validateBodyIndex bodies r) as [[]|] eqn:Hbi; [|done]. cbn [res_bind].
  destruct (_ <? str_len (rDomain r)); [done|].
  destruct (_ <? str_len (Detail r)) eqn:Hdl; [done|].
  destruct (containsDisplayControl (Detail r)) eqn:Hdc; [done|].
  destruct (negb _) eqn:Hst; [done|].
  destruct (validateOutcome r1) as [[]|] eqn:Ho; [|done]. cbn [res_bind].
  unfold validateRouting. rewrite R4.
  destruct (validateAddress (Address r)) as [[]|] eqn:Hva; [|done]. cbn [res_bind].
  destruct (DomainOf ToASCII (Address r)) as [routing|] eqn:Hdom; [|done].
  intros Hend. assert (Hrt : rDomain r' = routing).
  { pose proof (ro_routing _ _ _ Hok) as Hr. rewrite Ha in Hr. congruence. }
  clear Hend. unfold validateRecipient.
  assert (Hbi' : validateBodyIndex bodies r' = Ok tt).
  { rewrite <-Hbi. unfold validateBodyIndex. by rewrite Hb. }
  rewrite Hbi'. cbn [res_bind]. rewrite Hrt, Hd, Hdl, Hdc.
  destruct (ro_name _ _ _ Hok) as (Hne & _ & Hlen & _). rewrite Hrt in Hne, Hlen.
  assert (maxEnvelopeStringBytes <? str_len routing = false) as ->.
  { apply Z.ltb_ge. unfold maxEnvelopeStringBytes. lia. }
  assert (is_empty (rStatus r') = false) as ->.
  { rewrite Hs. destruct (is_empty (rStatus r)) eqn:Ee; [done|]. exact Ee. }
  rewrite <-R1, Hst.
  assert (validateOutcome r' = Ok tt) as ->.
  { rewrite <-Ho. unfold validateOutcome. by rewrite Hc, He, R2, R3, R1. }
  cbn [res_bind]. unfold validateRouting. rewrite Ha, Hva, Hdom. cbn [res_bind]. rewrite Hrt.
  assert (is_empty routing = false) as ->.
  { unfold is_empty. by apply bool_decide_eq_false. }
  rewrite (DomainOf_routing _ _ Hdom). rewrite bool_decide_eq_true_2 by done. cbn [negb].
  f_equal. rewrite <-Hrt. by destruct r'.
Qed.

Lemma validateRecipients_idem bodies rs rs' :
  validateRecipients ToASCII bodies rs = (rs', Ok tt) →
  validateRecipients ToASCII bodies rs' = (rs', Ok tt).
Proof.
  revert rs'. induction rs as [|r rs IH]; simpl; intros rs' H; [by injection H as <-|].
  destruct (validateRecipient ToASCII bodies r) as [r1 [[]|]] eqn:Hr; [|done].
  destruct (validateRecipients ToASCII bodies rs) as [rs1 res1] eqn:Hrs.
  injection H as <- ->. simpl. rewrite (validateRecipient_idem _ _ _ Hr).
  by rewrite (IH rs1 eq_refl).
Qed.

Lemma validateHeader_recipients rs e :
  length rs = length (Recipients e) → validateHeader (set_Recipients rs e) = validateHeader e.
Proof.
  intros Hl. unfold validateHeader. simpl. rewrite Hl.
  assert (bool_decide (rs = []) = bool_decide (Recipients e = [])) as ->; [|done].
  apply bool_decide_ext. by destruct rs, (Recipients e).
Qed.

Lemma validateEnvelope_idem e e' :
  validateEnvelope ToASCII e = (e', Ok tt) → validateEnvelope ToASCII e' = (e', Ok tt).
Proof.
  intros H. destruct (validateEnvelope_ok _ _ _ H)
    as (Hh & (stop & Hb & Hstop) & rs & Hr & -> & Hu & Hn & Hl).
  destruct (validateRecipients_ok _ _ _ _ Hr) as (_ & Haddr & _).
  assert (Hlen : length rs = length (Recipients e)).
  { rewrite <-(length_map Address rs), Haddr. apply length_map. }
  unfold validateEnvelope. rewrite validateHeader_recipients, Hh by done. cbn [res_bind].
  change (Size (set_Recipients rs e)) with (Size e).
  change (Bodies (set_Recipients rs e)) with (Bodies e). rewrite Hb. cbn [res_bind].
  assert (negb (bool_decide (Bodies e = [])) && negb (stop =? Size e) = false) as ->.
  { destruct (decide (Bodies e = [])) as [Hnil|Hne].
    - by rewrite bool_decide_eq_true_2.
    - by rewrite (Hstop Hne), Z.eqb_refl, andb_false_r. }
  change (Recipients (set_Recipients rs e)) with rs.
  rewrite (validateRecipients_idem _ _ _ Hr).
  change (set_Recipients rs (set_Recipients rs e)) with (set_Recipients rs e).
  by rewrite Hu, Hn, Hl.
Qed.
End idempotent.

(** ** What the code promises of addresses *)

(** Valid UTF-8 of bounded length, without control characters and spaces, with a local
    part and a domain around the last at sign. *)
Record address_ok (addr : string) : Prop := {
  ao_utf8 : ValidString addr = true;
  ao_length : str_len addr ≤ maxEnvelopeStringBytes;
  ao_bytes : ∀ c, c ∈ str_list addr → control_byte c = false ∧ byte_val c ≠ 32;
  ao_parts : ∃ local domain, addr = local +:+ "@" +:+ domain ∧ local ≠ "" ∧ domain ≠ "" ∧
    ∀ c, c ∈ str_list domain → byte_val c ≠ 64
}.

Lemma Contains_space s c : Contains s " " = false → c ∈ str_list s → byte_val c ≠ 32.
Proof.
  unfold Contains. rewrite bool_decide_eq_false. generalize (str_list s). intros l. induction l as [|d l IH]; intros Hn Hc; [by apply elem_of_nil in Hc|].
  cbn in Hn. destruct (bool_decide (" "%char = d)) eqn:E; cbn in Hn; [by destruct Hn; eexists|].
  apply elem_of_cons in Hc as [-> |Hc].
  - apply bool_decide_eq_false in E. intros H32. apply E. apply byte_val_inj. by rewrite H32.
  - apply IH; [|done]. intros [i Hi]. apply Hn. cbn in Hi. rewrite Hi. by eexists.
Qed.

Lemma last_at_split addr i : last_index 64 (str_list addr) = Some i →
  addr = of_list (take i (str_list addr)) +:+ "@" +:+ of_list (drop (S i) (str_list addr)) ∧
  ∀ c, c ∈ drop (S i) (str_list addr) → byte_val c ≠ 64.
Proof.
  intros (c & Hc & Hb & Hmax)%last_index_Some. split.
  - apply str_list_inj. rewrite !str_list_app, !str_list_of_list. rewrite <-(take_drop_middle _ _ _ Hc) at 1.
    assert (c = "@"%char) as -> by (by apply byte_val_inj). done.
  - intros d [j Hj]%list_elem_of_lookup_1 Hd. rewrite lookup_drop in Hj. specialize (Hmax _ _ Hj Hd). lia.
Qed.

Lemma validateAddress_ok addr : validateAddress addr = Ok tt → address_ok addr.
Proof.
  unfold validateAddress. intros Hv. repeat (case_match; [done|]). zbool. unfold LastIndexByte in *.
  destruct (last_index 64 (str_list addr)) as [i|] eqn:Ei; [|lia].
  destruct (last_at_split addr i Ei) as [Hsplit Hdom]. apply last_index_Some in Ei as (a & Ha%lookup_lt_Some & _).
  rewrite str_len_list in *. constructor; [done|by rewrite str_len_list| |].
  - intros c Hc. split; [|by eapply Contains_space].
    destruct (control_byte c) eqn:E; [|done]. exfalso.
    match goal with H : existsb control_byte _ = false |- _ => rewrite <-not_true_iff_false in H; apply H end.
    apply existsb_exists. exists c. split; [by apply list_elem_of_In|done].
  - exists (of_list (take i (str_list addr))), (of_list (drop (S i) (str_list addr))). split_and!; [done| | |].
    + intros E. apply (f_equal (λ s, length (str_list s))) in E. rewrite str_list_of_list, length_take in E. cbn in E. lia.
    + intros E. apply (f_equal (λ s, length (str_list s))) in E. rewrite str_list_of_list, length_drop in E. cbn in E. lia.
    + by rewrite str_list_of_list.
Qed.

(** The sender: an address, or none for the report about another message. *)
Lemma validateHeader_sender e : validateHeader e = Ok tt →
  if is_empty (DSNSourceID e) then address_ok (Sender e)
  else Sender e = "" ∧ ID e = DSNID_of (DSNSourceID e) (DSNSourceIncarnation e) (DSNGeneration e).
Proof.
  unfold validateHeader. intros Hh. assert (Ho : validateOrigin e = Ok tt).
  { destruct (ValidateID (ID e)) as [[]|]; [|done]. cbn [res_bind] in Hh. repeat (case_match; [done|]).
    by destruct (validateOrigin e) as [[]|]. }
  unfold validateOrigin in Ho. destruct (is_empty (DSNSourceID e)); cbn [negb] in Ho.
  - destruct (is_empty (Sender e)); cbn [negb] in Ho; [done|]. repeat (case_match; [done|]).
    apply validateAddress_ok. by destruct (validateAddress (Sender e)) as [[]|].
  - destruct (ValidateID (DSNSourceID e)); [|done]. cbn [res_bind] in Ho. repeat (case_match; [done|]). zbool.
    split; [by apply is_empty_true|done].
Qed.

(** What validation writes to a recipient: a missing status and the routing domain. *)
Record canonical_recipient (ToASCII : string → res string) (r r' : Recipient) : Prop := {
  cr_address : address_ok (Address r);
  cr_detail : str_len (Detail r) ≤ maxEnvelopeDetailBytes ∧ containsDisplayControl (Detail r) = false;
  cr_outcome : validateOutcome r' = Ok tt;
  cr_written : ∃ domain, DomainOf ToASCII (Address r) = Ok domain ∧
    r' = set_rDomain domain (set_rStatus (if is_empty (rStatus r) then StatusPending else rStatus r) r)
}.

Lemma validateRecipient_canonical ToASCII bodies r r' :
  validateRecipient ToASCII bodies r = (r', Ok tt) → canonical_recipient ToASCII r r'.
Proof.
  unfold validateRecipient. set (r1 := if is_empty (rStatus r) then _ else r).
  assert (Hr1 : r1 = set_rStatus (if is_empty (rStatus r) then StatusPending else rStatus r) r).
  { unfold r1. destruct (is_empty (rStatus r)); [done|by destruct r]. }
  clearbody r1. subst r1. destruct (validateBodyIndex bodies r) as [[]|]; [|done]. cbn [res_bind].
  destruct (_ <? str_len (rDomain r)); [done|]. destruct (_ <? str_len (Detail r)) eqn:Hl; [done|].
  destruct (containsDisplayControl (Detail r)) eqn:Hd; [done|]. destruct (negb _); [done|].
  destruct (validateOutcome _) as [[]|] eqn:Ho; [|done]. cbn [res_bind].
  destruct (validateRouting ToASCII _) as [routing|] eqn:Hr; [|done]. intros [= <-]. zbool.
  unfold validateRouting in Hr. cbn [Address set_rStatus rDomain] in Hr.
  destruct (validateAddress (Address r)) as [[]|] eqn:Ha; [|done]. cbn [res_bind] in Hr.
  destruct (DomainOf ToASCII (Address r)) as [d|] eqn:Hdom; [|done].
  assert (d = routing) as -> by (repeat case_match; naive_solver).
  constructor; [by apply validateAddress_ok|split; [lia|done]|exact Ho|by exists routing].
Qed.

Lemma validateRecipients_canonical ToASCII bodies rs rs' :
  validateRecipients ToASCII bodies rs = (rs', Ok tt) → Forall2 (canonical_recipient ToASCII) rs rs'.
Proof.
  revert rs'. induction rs as [|r rs IH]; simpl; intros rs' H; [by injection H as <-|].
  destruct (validateRecipient ToASCII bodies r) as [r1 [[]|]] eqn:Hr; [|done].
  destruct (validateRecipients ToASCII bodies rs) as [rs1 res1] eqn:Hrs. injection H as <- ->.
  constructor; [by eapply validateRecipient_canonical|by apply IH].
Qed.

(** C30: An envelope that validation accepts is well formed as written: its
    identifier is valid; its sender is an address, or empty for a delivery status
    notification with the identifier derived from its source; its bodies tile the stored
    message exactly; every recipient has an address, a known status with matching reply
    codes, a displayable detail, a routing domain that is the A-label of its address,
    and a body index in range, so that the message size and encoding of every recipient
    are defined.  Validation changes nothing but the recipients, and of each recipient
    only its domain and a missing status, which becomes pending: address, body, detail
    and reply codes stay. *)
Theorem validated_envelope_sound ToASCII e e' :
  validateEnvelope ToASCII e = (e', Ok tt) →
  envelope_ok ToASCII e' ∧
  (if is_empty (DSNSourceID e) then address_ok (Sender e)
   else Sender e = "" ∧ ID e = DSNID_of (DSNSourceID e) (DSNSourceIncarnation e) (DSNGeneration e)) ∧
  (∀ i, (i < length (Recipients e'))%nat →
     ∃ n b, MessageSize e' i = Some n ∧ MessageEightBit e' i = Some b ∧ 0 ≤ n ≤ Size e') ∧
  (∀ b, b ∈ Bodies e' → 0 ≤ bOffset b ∧ 0 < bSize b ∧ bOffset b + bSize b ≤ Size e') ∧
  (∃ rs, e' = set_Recipients rs e ∧ Forall2 (canonical_recipient ToASCII) (Recipients e) rs).
Proof.
  intros H. pose proof (validated_ok _ _ _ H) as Hok.
  destruct (validateEnvelope_ok _ _ _ H) as (Hh & _ & rs & Hr & -> & _).
  split_and!; [done|by apply validateHeader_sender| | |exists rs; split; [done|by eapply validateRecipients_canonical]].
  - intros i Hi. by apply (envelope_ok_message ToASCII).
  - intros b Hbin. simpl in *. apply (tiles_range 0 (Size e) (Bodies e)); [|done].
    apply (eo_bodies _ _ Hok). simpl. intros Hnil. rewrite Hnil in Hbin.
    by apply elem_of_nil in Hbin.
Qed.

Definition sample_recipient : Recipient :=
  mkRecipient "bob@example.org" "" 0 "" "" 0 "".

Definition sample_envelope : Envelope :=
  mkEnvelope "m1" "000102030405060708090a0b0c0d0e0f" 1 "alice" "alice@example.com"
    [sample_recipient] [] 5 1 0 0 "" false false (bodyDigest "hello") "" "" "" 0 0 "".

Lemma validated_envelope_witness :
  envelope_ok Ok (set_Recipients
    [set_rDomain "example.org" (set_rStatus StatusPending sample_recipient)] sample_envelope).
Proof.
  apply (validated_envelope_sound Ok sample_envelope). vm_compute. reflexivity.
Defined.
