(* ===== verification/Diagnostic.v ===== *)
(** * Remote diagnostics (src/internal/deliver/response.go)

    Text a remote server sends ends up in queue metadata, logs and bounce
    messages.  [normalizeDiagnostic] makes it short, valid UTF-8 and free of
    characters that act on a display ([diagnostic_displayable]); the enhanced
    status code [parseEnhancedCode] finds is one the queue accepts.  UTF-8
    encoding and decoding are inverse ([runes_encode]).  The bytes read for one reply
    are bounded ([reply_bounded]). *)

From S2P Require Import Prelude Errors GoLib Utf8 Text Envelope Mailbox Validation.
Open Scope Z_scope.

Definition maxSMTPResponseBytes : Z := 65536.
Definition maxDiagnosticBytes : Z := 1024.

(** ** Encoding *)

(** Unicode scalar values. *)
Definition scalar (r : Z) : bool := in_range 0 55295 r || in_range 57344 1114111 r.

(** [Builder.WriteRune]: anything else is written as U+FFFD. *)
Definition encode_rune (r : Z) : bytes :=
  let r := if scalar r then r else RuneError in
  if r <? 128 then [chr r]
  else if r <? 2048 then [chr (192 + r / 64); chr (128 + r mod 64)]
  else if r <? 65536 then
    [chr (224 + r / 4096); chr (128 + (r / 64) mod 64); chr (128 + r mod 64)]
  else
    [chr (240 + r / 262144); chr (128 + (r / 4096) mod 64); chr (128 + (r / 64) mod 64);
     chr (128 + r mod 64)].

Definition encode (rs : list Z) : bytes := concat (encode_rune <$> rs).

(** ** Diagnostics *)

(** [strings.ToValidUTF8(s, "\uFFFD")], as runes: a run of invalid bytes becomes
    one replacement character. *)
Fixpoint replace_invalid (after : bool) (rs : list (Z * bool)) : list Z :=
  match rs with
  | [] => []
  | (r, true) :: rs => r :: replace_invalid false rs
  | (_, false) :: rs => if after then replace_invalid true rs else RuneError :: replace_invalid true rs
  end.

(** Controls, format characters, line and paragraph separators. *)
Definition hidden (r : Z) : bool :=
  IsControl r || in_ranges format_ranges r || in_ranges separator_ranges r.

Definition blen (l : bytes) : Z := Z.of_nat (length l).

(** The loop of [normalizeDiagnostic]: [out] written so far, [space] pending. *)
Fixpoint diagnose (rs : list Z) (out : bytes) (space : bool) : bytes :=
  match rs with
  | [] => out
  | r :: rs =>
      if hidden r then diagnose rs out true
      else
        let out := if space && (0 <? blen out) && (blen out <? maxDiagnosticBytes)
                   then out ++ [SP] else out in
        if maxDiagnosticBytes <? blen out + Z.of_nat (RuneLen r) then out
        else diagnose rs (out ++ encode_rune r) false
  end.

Definition normalizeDiagnostic (s : string) : string :=
  of_list (trim_space (diagnose (replace_invalid false (runes (str_list s))) [] false)).

(** [parseEnhancedCode]. *)
Definition enhanced_class (code : Z) (class : string) : bool :=
  match str_list class with
  | [c] => (50 <=? byte_val c) && (byte_val c <=? 53) && (byte_val c - 48 =? Z.quot code 100)
           && (bool_decide (class = "2") || bool_decide (class = "4") || bool_decide (class = "5"))
  | _ => false
  end.

Definition parseEnhancedCode (code : Z) (message : string) : string :=
  let field := of_list (cut_byte 32 (trim_space (str_list message))).1.1 in
  match Split field 46 with
  | [class; subject; detail] =>
      if enhanced_class code class
         && forallb (λ part, (1 <=? str_len part) && (str_len part <=? 3) && all_digits part)
              [subject; detail]
      then field else ""
  | _ => ""
  end.

(** ** Decoding inverts encoding *)

Lemma lor_shift x y n : 0 ≤ n → 0 ≤ y < 2 ^ n → Z.lor (Z.shiftl x n) y = x * 2 ^ n + y.
Proof.
  intros Hn Hy. rewrite <-Z.add_nocarry_lor; [by rewrite Z.shiftl_mul_pow2|].
  assert (y = Z.land y (Z.ones n)) as -> by (by rewrite Z.land_ones, Z.mod_small).
  rewrite (Z.land_comm y), Z.land_assoc, Z.land_ones, Z.shiftl_mul_pow2 by done.
  by rewrite Z_mod_mult, Z.land_0_l.
Qed.

Lemma low_bits a k n : 0 ≤ k → 0 ≤ a < 2 ^ k → n mod 2 ^ k = 0 → Z.land (n + a) (Z.ones k) = a.
Proof.
  intros Hk Ha Hn. rewrite Z.land_ones by done. rewrite Z.add_mod by (apply Z.pow_nonzero; lia).
  rewrite Hn, Z.add_0_l, Z.mod_mod by (apply Z.pow_nonzero; lia). by apply Z.mod_small.
Qed.

Lemma low6_cont y : 0 ≤ y < 64 → low6 (128 + y) = y.
Proof. intros Hy. unfold low6. change 63 with (Z.ones 6). by apply low_bits. Qed.

Lemma rune2_encode x y : 0 ≤ x < 32 → 0 ≤ y < 64 → rune2 (192 + x) (128 + y) = x * 64 + y.
Proof.
  intros Hx Hy. unfold rune2. rewrite low6_cont by done. change 31 with (Z.ones 5).
  rewrite low_bits by done. by apply lor_shift.
Qed.

Lemma rune3_encode x y z :
  0 ≤ x < 16 → 0 ≤ y < 64 → 0 ≤ z < 64 → rune3 (224 + x) (128 + y) (128 + z) = x * 4096 + y * 64 + z.
Proof.
  intros Hx Hy Hz. unfold rune3. rewrite !low6_cont by done. change 15 with (Z.ones 4).
  rewrite low_bits by done. rewrite (lor_shift y z 6) by lia. rewrite lor_shift by lia. lia.
Qed.

Lemma rune4_encode x y z t :
  0 ≤ x < 8 → 0 ≤ y < 64 → 0 ≤ z < 64 → 0 ≤ t < 64 →
  rune4 (240 + x) (128 + y) (128 + z) (128 + t) = x * 262144 + y * 4096 + z * 64 + t.
Proof.
  intros Hx Hy Hz Ht. unfold rune4. rewrite !low6_cont by done. change 7 with (Z.ones 3).
  rewrite low_bits by done. rewrite (lor_shift z t 6) by lia.
  rewrite (lor_shift y (z * 2 ^ 6 + t) 12) by lia. rewrite lor_shift by lia. lia.
Qed.

Ltac split64 r :=
  pose proof (Z.div_mod r 64 ltac:(lia)); pose proof (Z.mod_pos_bound r 64 ltac:(lia)).

Lemma runes_encode_rune r l : scalar r = true → runes (encode_rune r ++ l) = (r, true) :: runes l.
Proof.
  intros Hs. unfold encode_rune. rewrite Hs. unfold scalar, in_range in Hs.
  destruct (Z.ltb_spec r 128) as [Hk1|Hk1].
  { cbn [app runes]. rewrite byte_val_chr by lia.
    assert (r <? 128 = true) as -> by lia. done. }
  split64 r. destruct (Z.ltb_spec r 2048) as [Hk2|Hk2].
  { cbn [app runes]. rewrite !byte_val_chr by lia.
    assert (192 + r / 64 <? 128 = false) as -> by lia.
    assert (valid2 (192 + r / 64) (128 + r mod 64) = true) as ->.
    { unfold valid2, cont, in_range. lia. }
    rewrite rune2_encode by lia. do 2 f_equal. lia. }
  split64 (r / 64). replace (r / 4096) with (r / 64 / 64) by (rewrite Z.div_div; [done|lia|lia]).
  destruct (Z.ltb_spec r 65536) as [Hk3|Hk3].
  { cbn [app runes]. rewrite !byte_val_chr by lia.
    assert (224 + r / 64 / 64 <? 128 = false) as -> by lia.
    assert (valid2 (224 + r / 64 / 64) (128 + (r / 64) mod 64) = false) as ->.
    { unfold valid2, in_range. lia. }
    assert (valid3 (224 + r / 64 / 64) (128 + (r / 64) mod 64) (128 + r mod 64) = true) as ->.
    { unfold valid3, cont, in_range. lia. }
    rewrite rune3_encode by lia. do 2 f_equal. lia. }
  split64 (r / 64 / 64).
  replace (r / 262144) with (r / 64 / 64 / 64) by (rewrite !Z.div_div by lia; done).
  cbn [app runes]. rewrite !byte_val_chr by lia.
  assert (240 + r / 64 / 64 / 64 <? 128 = false) as -> by lia.
  assert (valid2 (240 + r / 64 / 64 / 64) (128 + (r / 64 / 64) mod 64) = false) as ->.
  { unfold valid2, in_range. lia. }
  assert (valid3 (240 + r / 64 / 64 / 64) (128 + (r / 64 / 64) mod 64) (128 + (r / 64) mod 64) = false) as ->.
  { unfold valid3, in_range. lia. }
  assert (valid4 (240 + r / 64 / 64 / 64) (128 + (r / 64 / 64) mod 64) (128 + (r / 64) mod 64)
            (128 + r mod 64) = true) as ->.
  { unfold valid4, cont, in_range. lia. }
  rewrite rune4_encode by lia. do 2 f_equal. lia.
Qed.

Lemma runes_encode rs : Forall (λ r, scalar r = true) rs → runes (encode rs) = (λ r, (r, true)) <$> rs.
Proof.
  induction 1 as [|r rs Hr Hf IH]; [done|]. unfold encode. rewrite fmap_cons. cbn [concat].
  rewrite runes_encode_rune by done. by rewrite fmap_cons, <-IH.
Qed.

(** ** Decoded runes are scalar values *)

Lemma runes_scalar l r : (r, true) ∈ runes l → scalar r = true.
Proof.
  cut (∀ n l, (length l ≤ n)%nat → (r, true) ∈ runes l → scalar r = true); [by eauto|].
  clear l. induction n as [|n IH]; intros [|a l1] Hn; simpl in Hn; try lia; try (by intros ?%elem_of_nil).
  pose proof (byte_val_range a). cbn [runes].
  destruct (Z.ltb_spec (byte_val a) 128) as [Ha|Ha].
  { intros [[= ->]|Hr]%elem_of_cons; [unfold scalar, in_range; lia|]. apply (IH l1); [lia|done]. }
  destruct l1 as [|b l2]; [by intros ?%list_elem_of_singleton|]. pose proof (byte_val_range b).
  simpl in Hn. destruct (valid2 (byte_val a) (byte_val b)) eqn:E2.
  { intros [Hr|Hr]%elem_of_cons; [|by apply (IH l2); [lia|]]. injection Hr as ->.
    unfold valid2, cont, in_range in E2.
    replace (byte_val a) with (192 + (byte_val a - 192)) by lia.
    replace (byte_val b) with (128 + (byte_val b - 128)) by lia.
    rewrite rune2_encode by lia. unfold scalar, in_range. lia. }
  assert (Hskip : (r, true) ∈ (RuneError, false) :: runes (b :: l2) → scalar r = true).
  { intros [Hr|Hr]%elem_of_cons; [done|]. apply (IH (b :: l2)); [simpl; lia|done]. }
  destruct l2 as [|c l3]; [exact Hskip|]. pose proof (byte_val_range c). simpl in Hn.
  destruct (valid3 (byte_val a) (byte_val b) (byte_val c)) eqn:E3.
  { intros [Hr|Hr]%elem_of_cons; [|by apply (IH l3); [lia|]]. injection Hr as ->.
    unfold valid3, cont, in_range in E3.
    replace (byte_val a) with (224 + (byte_val a - 224)) by lia.
    replace (byte_val b) with (128 + (byte_val b - 128)) by lia.
    replace (byte_val c) with (128 + (byte_val c - 128)) by lia.
    rewrite rune3_encode by lia. unfold scalar, in_range. lia. }
  destruct l3 as [|d l4]; [exact Hskip|]. pose proof (byte_val_range d). simpl in Hn.
  destruct (valid4 (byte_val a) (byte_val b) (byte_val c) (byte_val d)) eqn:E4; [|exact Hskip].
  intros [Hr|Hr]%elem_of_cons; [|by apply (IH l4); [lia|]]. injection Hr as ->.
  unfold valid4, cont, in_range in E4.
  replace (byte_val a) with (240 + (byte_val a - 240)) by lia.
  replace (byte_val b) with (128 + (byte_val b - 128)) by lia.
  replace (byte_val c) with (128 + (byte_val c - 128)) by lia.
  replace (byte_val d) with (128 + (byte_val d - 128)) by lia.
  rewrite rune4_encode by lia. unfold scalar, in_range. lia.
Qed.

Lemma replace_invalid_scalar rs : ∀ after,
  (∀ r, (r, true) ∈ rs → scalar r = true) → Forall (λ r, scalar r = true) (replace_invalid after rs).
Proof.
  induction rs as [|[r v] rs IH]; intros after Hs; [constructor|].
  assert (Hrest : ∀ b, Forall (λ r, scalar r = true) (replace_invalid b rs)).
  { intros b. apply IH. intros r' Hr'. apply Hs. by right. }
  cbn [replace_invalid]. destruct v; [constructor; [apply Hs; left|done]|].
  destruct after; [done|]. by constructor.
Qed.

(** ** Trimming encoded text *)

Lemma length_encode_rune r : scalar r = true → length (encode_rune r) = RuneLen r.
Proof.
  intros Hs. unfold encode_rune, RuneLen. rewrite Hs.
  destruct (r <? 128); [done|]. destruct (r <? 2048); [done|]. by destruct (r <? 65536).
Qed.

Lemma encode_app a b : encode (a ++ b) = encode a ++ encode b.
Proof. unfold encode. by rewrite fmap_app, concat_app. Qed.

Lemma width_encode rs :
  Forall (λ r, scalar r = true) rs → width ((λ r, (r, true)) <$> rs) = length (encode rs).
Proof.
  induction 1 as [|r rs Hr Hf IH]; [done|]. unfold encode, width in *. rewrite !fmap_cons. cbn [concat].
  rewrite length_app, length_encode_rune by done. rewrite <-IH. done.
Qed.

Lemma leading_split os :
  ∃ a b, os = a ++ b ∧
    leading_space ((λ r, (r, true)) <$> os) = (λ r, (r, true)) <$> a.
Proof.
  induction os as [|r os (a & b & -> & Hl)]; [by exists [], []|].
  rewrite fmap_cons. cbn [leading_space fst]. destruct (IsSpace r).
  - exists (r :: a), b. by rewrite Hl.
  - by exists [], (r :: a ++ b).
Qed.

Lemma trim_encode os :
  Forall (λ r, scalar r = true) os → ∃ a b c, os = a ++ b ++ c ∧ trim_space (encode os) = encode b.
Proof.
  intros Hs. unfold trim_space. rewrite runes_encode by done.
  destruct (leading_split os) as (a & rest & -> & ->). apply Forall_app in Hs as [Ha Hr].
  rewrite length_fmap, fmap_app.
  assert (drop (length a) (((λ r, (r, true)) <$> a) ++ ((λ r, (r, true)) <$> rest)) =
          (λ r, (r, true)) <$> rest) as ->.
  { apply drop_app_length'. by rewrite length_fmap. }
  rewrite width_encode by done. rewrite encode_app, drop_app_length.
  assert (rev ((λ r, (r, true)) <$> rest) = (λ r, (r, true)) <$> rev rest) as ->.
  { symmetry. apply map_rev. }
  destruct (leading_split (rev rest)) as (x & y & Hxy & ->).
  assert (Hrest : rest = rev y ++ rev x).
  { by rewrite <-rev_app_distr, <-Hxy, rev_involutive. }
  exists a, (rev y), (rev x). rewrite Hrest in Hr |- *. split; [done|].
  apply Forall_app in Hr as [Hy Hx].
  assert (length (encode (rev x)) = width ((λ r, (r, true)) <$> x)) as Hw.
  { rewrite <-width_encode by done. rewrite <-(width_rev ((λ r, (r, true)) <$> x)). f_equal.
    apply map_rev. }
  rewrite encode_app, length_app, <-Hw. replace (_ + _ - _)%nat with (length (encode (rev y))) by lia.
  apply take_app_length.
Qed.

(** ** Diagnostics *)

Definition shown (r : Z) : Prop := scalar r = true ∧ hidden r = false.

Lemma diagnose_shown rs : ∀ os space,
  Forall (λ r, scalar r = true) rs → Forall shown os → blen (encode os) ≤ maxDiagnosticBytes →
  ∃ os', diagnose rs (encode os) space = encode os' ∧ Forall shown os' ∧
    blen (encode os') ≤ maxDiagnosticBytes.
Proof.
  induction rs as [|r rs IH]; intros os space Hs Ho Hl; cbn [diagnose]; [by exists os|].
  apply Forall_cons_1 in Hs as [Hr Hs]. destruct (hidden r) eqn:Eh; [by apply IH|].
  set (out := if space && (0 <? blen (encode os)) && (blen (encode os) <? maxDiagnosticBytes)
              then encode os ++ [SP] else encode os).
  assert (∃ o1, out = encode o1 ∧ Forall shown o1 ∧ blen (encode o1) ≤ maxDiagnosticBytes)
    as (o1 & -> & Ho1 & Hl1).
  { unfold out. destruct (space && _ && _) eqn:Es; [|by exists os]. exists (os ++ [32]).
    rewrite encode_app. split_and!; [done| |].
    - apply Forall_app. split; [done|]. by apply Forall_singleton.
    - unfold blen in *. rewrite length_app. simpl. zbool. lia. }
  destruct (Z.ltb_spec maxDiagnosticBytes (blen (encode o1) + Z.of_nat (RuneLen r))); [by exists o1|].
  assert (encode o1 ++ encode_rune r = encode (o1 ++ [r])) as ->.
  { rewrite encode_app. unfold encode. simpl. by rewrite app_nil_r. }
  apply IH; [done| |].
  - apply Forall_app. split; [done|]. by apply Forall_singleton.
  - rewrite encode_app. unfold blen in *. rewrite length_app. unfold encode at 2. simpl.
    rewrite app_nil_r, length_encode_rune by done. lia.
Qed.

Lemma diagnostic_runes s :
  ∃ os, normalizeDiagnostic s = of_list (encode os) ∧ Forall shown os ∧
    blen (encode os) ≤ maxDiagnosticBytes.
Proof.
  unfold normalizeDiagnostic.
  destruct (diagnose_shown (replace_invalid false (runes (str_list s))) [] false) as (os & Hd & Ho & Hl).
  { apply replace_invalid_scalar. intros r. apply runes_scalar. }
  { constructor. }
  { done. }
  change (encode []) with (@nil ascii) in Hd. rewrite Hd.
  destruct (trim_encode os) as (a & b & c & -> & ->).
  { eapply Forall_impl; [exact Ho|]. by intros r [? _]. }
  exists b. apply Forall_app in Ho as [_ Ho]. apply Forall_app in Ho as [Ho _]. split_and!; [done|done|].
  unfold blen in *. rewrite !encode_app, !length_app in Hl. lia.
Qed.

Lemma diagnostic_display s :
  str_len (normalizeDiagnostic s) ≤ 1024 ∧ ValidString (normalizeDiagnostic s) = true ∧
  containsDisplayControl (normalizeDiagnostic s) = false.
Proof.
  destruct (diagnostic_runes s) as (os & -> & Ho & Hl).
  assert (Hs : Forall (λ r, scalar r = true) os).
  { eapply Forall_impl; [exact Ho|]. by intros r [? _]. }
  split_and!.
  - rewrite str_len_list, str_list_of_list. exact Hl.
  - unfold ValidString. rewrite str_list_of_list, runes_encode by done.
    clear. induction os; [done|]. done.
  - unfold containsDisplayControl. rewrite str_list_of_list, runes_encode by done.
    clear -Ho. induction Ho as [|r os [_ Hh] _ IH]; [done|]. rewrite fmap_cons. cbn [existsb fst].
    unfold hidden in Hh. by rewrite Hh, IH.
Qed.

(** C32: What a remote server says is safe to keep and to show.  Whatever bytes the
    reply had, the diagnostic recorded for a recipient is at most 1024 bytes of
    valid UTF-8 without control, format or separator characters: the queue's
    validation of recipient details accepts it. *)
Theorem diagnostic_displayable s :
  str_len (normalizeDiagnostic s) ≤ 1024 ∧ ValidString (normalizeDiagnostic s) = true ∧
  containsDisplayControl (normalizeDiagnostic s) = false.
Proof. apply diagnostic_display. Qed.

(** ** Enhanced codes *)

(** The code found in a reply is one the queue accepts for that reply. *)
Lemma parseEnhancedCode_valid code message :
  parseEnhancedCode code message = "" ∨
  (code ≠ 0 ∧ validEnhancedCode (parseEnhancedCode code message) code = true).
Proof.
  unfold parseEnhancedCode. set (field := of_list _).
  destruct (Split field 46) as [|class [|subject [|detail [|x l]]]] eqn:Es; try (by left).
  destruct (enhanced_class code class) eqn:Ec; [|by left]. cbn [andb].
  destruct (forallb _ _) eqn:Ed; [|by left]. right.
  unfold enhanced_class in Ec. unfold validEnhancedCode. rewrite Es.
  destruct (str_list class) as [|c [|d k]]; [done| |done].
  apply andb_true_iff in Ec as [Ec ->]. apply andb_true_iff in Ec as [Ec Hq]. cbn [negb head from_option].
  split; [intros ->; change (0 ÷ 100) with 0 in Hq; lia|]. rewrite Hq. cbn [negb]. by rewrite andb_false_r.
Qed.

(** ** The bound on one reply *)

Definition maxResponseRead : Z := 1024.

Record boundedResponseConn := mkBounded { brRemaining : Z; brExceeded : bool }.

Definition resetBound : boundedResponseConn := mkBounded (maxSMTPResponseBytes + 1) false.
Definition exceededLimit (c : boundedResponseConn) : bool := brExceeded c.

(** What the connection below answers to a read of so many bytes. *)
Definition connRead : Type := Z → Z * option error.

(** [boundedResponseConn.Read] into a buffer of [size] bytes: how many bytes were
    written, the error, and what was asked of the connection below. *)
Definition boundedRead (size : Z) (conn : connRead) (c : boundedResponseConn) : (Z * option error * Z) * boundedResponseConn :=
  if brRemaining c <=? 0 then ((0, Some (Sentinel errSMTPResponseTooLarge), 0), c)
  else
    let limit := Z.min (Z.min size (brRemaining c)) maxResponseRead in
    let '(n, err) := conn limit in
    let left' := brRemaining c - n in
    let exhausted := left' =? 0 in
    let c := mkBounded left' (if exhausted then true else brExceeded c) in
    (n, match err with None => if exhausted then Some (Sentinel errSMTPResponseTooLarge) else None | Some e => Some e end, limit, c).

(** The reads of one reply: the bytes delivered. *)
Fixpoint boundedReads (reads : list (Z * connRead)) (c : boundedResponseConn) : Z * boundedResponseConn :=
  match reads with
  | [] => (0, c)
  | (size, conn) :: reads =>
      let '(n, _, _, c) := boundedRead size conn c in
      let '(total, c) := boundedReads reads c in (n + total, c)
  end.

(** The contract of [net.Conn.Read], for a buffer that is not empty. *)
Definition reader_ok (r : Z * connRead) : Prop := 0 < r.1 ∧ ∀ limit, 0 ≤ limit → 0 ≤ (r.2 limit).1 ≤ limit.

Lemma boundedReads_sum reads c : Forall reader_ok reads → 0 ≤ brRemaining c → (brExceeded c = true ↔ brRemaining c = 0) →
  brRemaining (boundedReads reads c).2 = brRemaining c - (boundedReads reads c).1 ∧ 0 ≤ brRemaining (boundedReads reads c).2 ∧
  (brExceeded (boundedReads reads c).2 = true ↔ brRemaining (boundedReads reads c).2 = 0).
Proof.
  intros Hr. revert c. induction Hr as [|[size conn] reads [Hsize Hconn] _ IH]; intros c Hc He; [cbn; split_and!; (lia || tauto)|].
  cbn [boundedReads]. unfold boundedRead. cbn [fst snd] in Hsize, Hconn. destruct (Z.leb_spec (brRemaining c) 0) as [Hz|Hz].
  - specialize (IH c Hc He). destruct (boundedReads reads c) as [t c']. cbn [fst snd] in *. split_and!; [lia|lia|tauto].
  - specialize (Hconn (Z.min (Z.min size (brRemaining c)) maxResponseRead)). unfold maxResponseRead in *.
    destruct (conn _) as [n err]. cbn [fst] in Hconn.
    set (c1 := mkBounded _ _).
    destruct (IH c1) as (I1 & I2 & I3).
    + cbn [c1 brRemaining]. lia.
    + cbn [c1 brRemaining brExceeded]. destruct (Z.eqb_spec (brRemaining c - n) 0); [tauto|].
      split; [intros Hx; apply He in Hx; lia|lia].
    + destruct (boundedReads reads c1) as [t c']. cbn [fst snd c1 brRemaining] in *. split_and!; [lia|lia|tauto].
Qed.

(** However the reads of a reply are sized and answered, no more than the limit and one
    probe byte is taken from the connection, and the reply is reported as too large
    exactly when the probe byte was: a reply of exactly the limit passes. *)
Theorem reply_bounded reads : Forall reader_ok reads →
  (boundedReads reads resetBound).1 ≤ maxSMTPResponseBytes + 1 ∧
  (exceededLimit (boundedReads reads resetBound).2 = true ↔ maxSMTPResponseBytes < (boundedReads reads resetBound).1).
Proof.
  intros Hr. destruct (boundedReads_sum reads resetBound Hr) as (H1 & H2 & H3); [done|done|].
  change (brRemaining resetBound) with (maxSMTPResponseBytes + 1) in H1. unfold exceededLimit. split; [lia|]. rewrite H3. lia.
Qed.

(** The greedy peer: every read is filled. *)
Definition fullRead : Z * connRead := (4096, λ limit, (limit, None)).

Lemma reply_bounded_witness :
  exceededLimit (boundedReads (replicate 64 fullRead) resetBound).2 = false ∧
  (boundedReads (replicate 70 fullRead) resetBound).1 ≤ maxSMTPResponseBytes + 1.
Proof.
  assert (Hf : reader_ok fullRead) by (split; [reflexivity|intros limit Hl; cbn; lia]).
  split.
  - destruct (reply_bounded (replicate 64 fullRead)) as [_ He]; [by apply Forall_replicate|].
    vm_compute. reflexivity.
  - apply (reply_bounded (replicate 70 fullRead)). by apply Forall_replicate.
Defined.
