(* ===== verification/Client.v ===== *)
(** * The outbound SMTP client (src/internal/deliver/client.go, response.go,
      connect.go)

    A conversation with one remote server.  net/textproto and the network are the
    parameter: [Peer] gives the answer to each read, the outcome of each write and
    of the TLS handshake, in order.  The client records what it put on the wire.
    Deadlines are part of the answers: a read that times out is a failed read. *)

From S2P Require Import Prelude Errors GoLib Utf8 Text Envelope Mailbox Validation Diagnostic.
Open Scope Z_scope.

(** What [text.ReadResponse] meets: a complete reply, an error (with the code and
    message read so far), or a reply over the size limit. *)
Inductive answer :=
  | Reply (code : Z) (msg : string)
  | ReadFails (code : Z) (msg : string) (e : error)
  | TooLarge.

(** What the client put on the wire. *)
Inductive wire :=
  | Command (line : string)
  | Content (data : string)
  | Terminator.

Record Peer := mkPeer {
  answers : list answer;
  writeErr : nat → option error;
  handshake : bool → option error
}.

Record Client := mkClient {
  peer : Peer;
  ext : gmap string string;
  tls : bool;
  verified : bool;
  log : list wire;
  open : bool
}.

Definition errEOF : error := Message "EOF".

Definition NewClient (p : Peer) : Client := mkClient p ∅ false false [] true.

Definition set_ext v c := mkClient (peer c) v (tls c) (verified c) (log c) (open c).
Definition set_open v c := mkClient (peer c) (ext c) (tls c) (verified c) (log c) v.

(** Write one item; it is on the wire even if the write reports an error. *)
Definition put (w : wire) : ST Client (option error) := λ c,
  (writeErr (peer c) (length (log c)),
   mkClient (peer c) (ext c) (tls c) (verified c) (log c ++ [w]) (open c)).

(** The next answer; a silent peer ends the connection. *)
Definition next_answer : ST Client answer := λ c,
  match answers (peer c) with
  | [] => (ReadFails 0 "" errEOF, c)
  | a :: rest =>
      (a, mkClient (mkPeer rest (writeErr (peer c)) (handshake (peer c))) (ext c) (tls c)
            (verified c) (log c) (open c))
  end.

(** [textproto]'s check of an expected code: one, two or three digits. *)
Definition unexpected (expect code : Z) : bool :=
  ((1 <=? expect) && (expect <? 10) && negb (Z.quot code 100 =? expect))
  || ((10 <=? expect) && (expect <? 100) && negb (Z.quot code 10 =? expect))
  || ((100 <=? expect) && (expect <? 1000) && negb (code =? expect)).

Definition smtpError (code : Z) (msg : string) : error :=
  let msg := normalizeDiagnostic msg in SMTPError code (parseEnhancedCode code msg) msg.

(** [readResponseLines]: the reply's code and text. *)
Definition readResponse (expect : Z) : ST Client (res (Z * string)) :=
  let! a := next_answer in
  ret match a with
      | TooLarge => Err (Sentinel errSMTPResponseTooLarge)
      | Reply code msg =>
          if unexpected expect code then Err (smtpError code msg) else Ok (code, msg)
      | ReadFails code msg e =>
          if code =? 0 then Err e else Err (smtpError code msg)
      end.

Definition cmd (expect : Z) (line : string) : ST Client (res (Z * string)) :=
  let! w := put (Command line) in
  match w with
  | Some e => ret (Err e)
  | None => readResponse expect
  end.

(** ** Error classes *)

(** [errors.AsType[*SMTPError]]. *)
Fixpoint errors_AsSMTP (e : error) : option (Z * string * string) :=
  match e with
  | SMTPError code enhanced msg => Some (code, enhanced, msg)
  | Wrap _ e => errors_AsSMTP e
  | Join a b => match errors_AsSMTP a with Some s => Some s | None => errors_AsSMTP b end
  | acceptanceUnknownError e => errors_AsSMTP e
  | _ => None
  end.

Definition smtpCode (e : error) : Z :=
  match errors_AsSMTP e with Some (code, _, _) => code | None => 0 end.

Definition smtpEnhancedCode (e : error) : string :=
  match errors_AsSMTP e with Some (_, enhanced, _) => enhanced | None => "" end.

Definition permanent (e : error) : bool :=
  let code := smtpCode e in (500 <=? code) && (code <? 600).

(** ** Commands *)

Section client.
Context `{CaseTables}.

(** [parseExtensions]: the lines after the first. *)
Definition parseExtensions (lines : list string) : gmap string string :=
  fold_left (λ m line,
    let line := TrimSpace line in
    if bool_decide (line = "") then m
    else
      let '(name, param, _) := cut_byte 32 (str_list line) in
      <[ToUpperText (of_list name) := of_list param]> m) (tail lines) ∅.

Definition Greet : ST Client (res unit) :=
  try! _ := readResponse 220 in ret (Ok tt).

Definition EHLO (hostname : string) : ST Client (res unit) :=
  try! (_, msg) := cmd 250 ("EHLO " +:+ hostname) in
  let! _ := modify (set_ext (parseExtensions (Split msg 10))) in
  ret (Ok tt).

Definition HELO (hostname : string) : ST Client (res unit) :=
  try! _ := cmd 250 ("HELO " +:+ hostname) in
  let! _ := modify (set_ext ∅) in
  ret (Ok tt).

Definition Extension (name : string) (c : Client) : bool :=
  bool_decide (is_Some (ext c !! ToUpperText name)).

(** [StartTLS] with the certificate check on unless [insecure]. *)
Definition StartTLS (insecure : bool) : ST Client (res unit) :=
  try! _ := cmd 220 "STARTTLS" in
  λ c, match handshake (peer c) insecure with
       | Some e => (Err e, c)
       | None => (Ok tt, mkClient (peer c) ∅ true (negb insecure) (log c) (open c))
       end.

Record MailOpts := mkMailOpts { mSize : Z; mUTF8 : bool; mEight : bool }.

Definition has_ext (name : string) (c : Client) : bool := bool_decide (is_Some (ext c !! name)).

(** The MAIL command's text, with the extension checks in the code's order. *)
Definition mailLine (from : string) (opts : MailOpts) (c : Client) : res string :=
  reject mEight opts && negb (has_ext "8BITMIME" c) with Sentinel err8BITMIMEUnsupported in
  reject mUTF8 opts && negb (has_ext "SMTPUTF8" c) with Sentinel errSMTPUTF8Unsupported in
  Ok ("MAIL FROM:<" +:+ from +:+ ">"
      +:+ (if mEight opts then " BODY=8BITMIME" else "")
      +:+ (if (0 <? mSize opts) && has_ext "SIZE" c then " SIZE=" +:+ FormatUint (mSize opts) else "")
      +:+ (if mUTF8 opts then " SMTPUTF8" else "")).

Definition MailFrom (from : string) (opts : MailOpts) : ST Client (res unit) := λ c,
  match mailLine from opts c with
  | Err e => (Err e, c)
  | Ok line => (try! _ := cmd 250 line in ret (Ok tt)) c
  end.

Definition rcptLine (to : string) : string := "RCPT TO:<" +:+ to +:+ ">".

Definition RcptTo (to : string) : ST Client (res unit) :=
  try! _ := cmd 25 (rcptLine to) in ret (Ok tt).

(** [RcptBatch]: all commands, then the replies in order; a reply that is not an
    SMTP reply ends the batch.  The results, and the error that ended it. *)
Fixpoint putAll (rs : list string) : ST Client (option error) :=
  match rs with
  | [] => ret None
  | r :: rs =>
      let! w := put (Command (rcptLine r)) in
      match w with Some e => ret (Some e) | None => putAll rs end
  end.

Fixpoint readAllReplies (rs : list string) : ST Client (list (option error) * option error) :=
  match rs with
  | [] => ret ([], None)
  | _ :: rs =>
      let! r := readResponse 25 in
      match r with
      | Err e =>
          if smtpCode e =? 0 then ret ([Some e], Some e)
          else let! (more, b) := readAllReplies rs in ret (Some e :: more, b)
      | Ok _ => let! (more, b) := readAllReplies rs in ret (None :: more, b)
      end
  end.

Definition RcptBatch (rs : list string) : ST Client (list (option error) * option error) :=
  let! w := putAll rs in
  match w with
  | Some e => ret ([], Some e)
  | None => readAllReplies rs
  end.

Definition DataStart : ST Client (res unit) :=
  try! _ := cmd 354 "DATA" in ret (Ok tt).

(** [dataWriter.Close]: the terminator, then the reply. *)
Definition DataClose : ST Client (res string) :=
  let! w := put Terminator in
  match w with
  | Some e => ret (Err e)
  | None =>
      try! (code, msg) := readResponse 250 in
      ret (Ok (FormatUint code +:+ " " +:+ msg))
  end.

(** [Close] and [Quit]. *)
Definition CloseClient : ST Client unit := modify (set_open false).

Definition Quit : ST Client unit :=
  let! _ := put (Command "QUIT") in CloseClient.

(** ** Sessions *)

(** [outboundTLS]. *)
Record outboundTLS := mkTLS {
  requireSTARTTLS : bool;
  insecureSkipVerify : bool;
  allowPlaintext : bool
}.

(** [effectiveTLS] from the mode and the two configured permissions. *)
Definition effectiveTLS (mode : string) (insecure allowPlain : bool) : outboundTLS :=
  mkTLS (bool_decide (mode = "required") || negb allowPlain) insecure
    (allowPlain && negb (bool_decide (mode = "required"))).

(** [dialAndSession] on an established connection. *)
Definition session_on (policy : outboundTLS) (hostname : string) (noExtensions : bool)
    : ST Client (res unit) :=
  let fail e := (let! _ := CloseClient in ret (Err e)) in
  let! g := Greet in
  match g with
  | Err e => fail e
  | Ok _ =>
      let! r := EHLO hostname in
      match r with
      | Err e =>
          let code := smtpCode e in
          if negb (allowPlaintext policy) || negb noExtensions
             || (negb (code =? 500) && negb (code =? 502) && negb (code =? 504))
          then fail e
          else
            let! h := HELO hostname in
            match h with Err e => fail e | Ok _ => ret (Ok tt) end
      | Ok _ =>
          let! hasTLS := gets (Extension "STARTTLS") in
          if negb hasTLS then
            if requireSTARTTLS policy || negb (allowPlaintext policy)
            then fail (Sentinel errTLSRequired)
            else ret (Ok tt)
          else
            let! u := StartTLS (insecureSkipVerify policy) in
            match u with
            | Err e => fail (Wrap "STARTTLS failed" (Sentinel errTLSFailed))
            | Ok _ =>
                let! p := EHLO hostname in
                match p with Err e => fail e | Ok _ => ret (Ok tt) end
            end
      end
  end.

Definition dialAndSession (policy : outboundTLS) (hostname : string) (dial : res Peer)
    (noExtensions : bool) : res Client :=
  let? p := dial in
  match session_on policy hostname noExtensions (NewClient p) with
  | (Ok _, c) => Ok c
  | (Err e, _) => Err e
  end.

(** [connect]: the addresses of a host in order; the last error is returned. *)
Fixpoint connect_first (policy : outboundTLS) (hostname : string) (dials : list (res Peer))
    (noExtensions : bool) (last : error) : res Client :=
  match dials with
  | [] => Err last
  | d :: dials =>
      match dialAndSession policy hostname d noExtensions with
      | Ok c => Ok c
      | Err e => connect_first policy hostname dials noExtensions e
      end
  end.

Definition connect (policy : outboundTLS) (hostname : string) (dials : res (list (res Peer)))
    (noExtensions : bool) : res Client :=
  let? ds := dials in
  connect_first policy hostname ds noExtensions (Sentinel errNoUsableIP).
End client.
