(* ===== verification/ClientFacts.v ===== *)
(** * What the outbound client does on the wire

    A relation between client states that every command respects, the shape of
    the errors replies turn into, and the TLS policy: no session in the clear
    unless the configuration permits it, none at all after a failed STARTTLS
    ([tls_enforced]). *)

From S2P Require Import Prelude Errors GoLib Utf8 Text Envelope Mailbox Validation Diagnostic Client.
Open Scope Z_scope.

Definition is_command (w : wire) : Prop := match w with Command _ => True | _ => False end.

(** Only commands were added to the wire. *)
Definition grows (c c' : Client) : Prop := ∃ l, log c' = log c ++ l ∧ Forall is_command l.

#[export] Instance grows_preorder : PreOrder grows.
Proof.
  split.
  - intros c. exists []. by rewrite app_nil_r.
  - intros a b c (l & Hl & Fl) (k & Hk & Fk). exists (l ++ k). split; [by rewrite Hk, Hl, app_assoc|].
    by apply Forall_app.
Qed.

(** The transport's errors are not SMTP replies. *)
Definition peer_ok (c : Client) : Prop :=
  (∀ n e, writeErr (peer c) n = Some e → errors_AsSMTP e = None) ∧
  (∀ code msg e, ReadFails code msg e ∈ answers (peer c) → errors_AsSMTP e = None).

(** An error that carries a reply carries an enhanced code the queue accepts. *)
Definition reply_ok (e : error) : Prop :=
  match errors_AsSMTP e with
  | Some (code, enhanced, _) =>
      enhanced = "" ∨ (code ≠ 0 ∧ validEnhancedCode enhanced code = true)
  | None => True
  end.

Definition result_ok {A} (r : res A) (c : Client) : Prop :=
  peer_ok c ∧ match r with Err e => reply_ok e | Ok _ => True end.

Definition write_ok (r : option error) (c : Client) : Prop :=
  peer_ok c ∧ match r with Some e => reply_ok e | None => True end.

(** [m] adds commands only and its errors are well formed. *)
Abbreviation speaks m := (triple grows peer_ok m result_ok) (only parsing).

Lemma reply_ok_None e : errors_AsSMTP e = None → reply_ok e.
Proof. unfold reply_ok. by intros ->. Qed.

Lemma reply_ok_smtp code msg : reply_ok (smtpError code msg).
Proof. unfold reply_ok, smtpError. cbn [errors_AsSMTP]. apply parseEnhancedCode_valid. Qed.

Lemma grows_refl_log c c' : log c' = log c → grows c c'.
Proof. intros Hl. exists []. by rewrite Hl, app_nil_r. Qed.

Lemma put_command line : triple grows peer_ok (put (Command line)) write_ok.
Proof.
  intros c [Hw Ha]. unfold put. cbn. split; [|split].
  - exists [Command line]. split; [done|]. by repeat constructor.
  - by split.
  - destruct (writeErr _ _) eqn:E; [|done]. by apply reply_ok_None, (Hw _ _ E).
Qed.

Lemma readResponse_speaks expect : speaks (readResponse expect).
Proof.
  intros c [Hw Ha]. unfold readResponse, bind, next_answer, ret.
  destruct (answers (peer c)) as [|a rest] eqn:Ea; cbn.
  { split; [reflexivity|]. split; [|done]. split; [done|]. by rewrite Ea. }
  split; [by apply grows_refl_log|]. split; [split; [done|]|].
  - cbn. intros code msg e He. apply (Ha code msg). by right.
  - destruct a as [code msg|code msg e|]; cbn; [| |done].
    + destruct (unexpected _ _); [apply reply_ok_smtp|done].
    + destruct (code =? 0); [|apply reply_ok_smtp]. apply reply_ok_None, (Ha code msg). left.
Qed.

Lemma speaks_err {A} e : reply_ok e → speaks (ret (S := Client) (Err (A := A) e)).
Proof. intros He. apply triple_ret; [typeclasses eauto|]. by split. Qed.

Lemma speaks_ok {A} (a : A) : speaks (ret (S := Client) (Ok a)).
Proof. apply triple_ret; [typeclasses eauto|]. by split. Qed.

Lemma speaks_try {A B} (m : ST Client (res A)) (k : A → ST Client (res B)) :
  speaks m → (∀ a, speaks (k a)) → speaks (try_ m k).
Proof.
  intros Hm Hk. eapply triple_try; [typeclasses eauto|exact Hm| |by intros e c [? ?]].
  intros a. eapply triple_conseq; [apply Hk|by intros c [? _]|done].
Qed.

Lemma cmd_speaks expect line : speaks (cmd expect line).
Proof.
  unfold cmd. eapply triple_bind; [typeclasses eauto|apply put_command|]. intros [e|].
  - apply triple_ret; [typeclasses eauto|]. by intros c [? ?].
  - eapply triple_conseq; [apply readResponse_speaks|by intros c [? _]|done].
Qed.

#[export] Hint Resolve readResponse_speaks cmd_speaks : outbox.

Section commands.
Context `{CaseTables}.

Lemma quiet_modify (f : Client → Client) :
  (∀ c, log (f c) = log c ∧ peer (f c) = peer c) →
  triple grows peer_ok (modify f) (λ _ c, peer_ok c).
Proof.
  intros Hf c Hc. destruct (Hf c) as [Hl Hp]. cbn. split; [by apply grows_refl_log|].
  unfold peer_ok in *. by rewrite Hp.
Qed.

Lemma MailFrom_speaks from opts : speaks (MailFrom from opts).
Proof.
  intros c Hc. unfold MailFrom. destruct (mailLine from opts c) as [line|e] eqn:El.
  - by apply speaks_try; [auto with outbox|intros; apply speaks_ok|].
  - cbn. split; [reflexivity|]. split; [done|]. unfold mailLine in El.
    repeat case_match; simplify_eq; done.
Qed.

Lemma RcptTo_speaks a : speaks (RcptTo a).
Proof. apply speaks_try; [auto with outbox|]. intros. apply speaks_ok. Qed.

Lemma DataStart_speaks : speaks DataStart.
Proof. apply speaks_try; [auto with outbox|]. intros. apply speaks_ok. Qed.

Lemma Quit_grows : triple grows peer_ok Quit (λ _ c, peer_ok c).
Proof.
  unfold Quit. eapply triple_bind; [typeclasses eauto|apply put_command|]. intros w.
  eapply triple_conseq; [by apply quiet_modify|by intros c [? _]|done].
Qed.

(** Results of a batch of RCPT commands. *)
Definition results_ok (rs : list (option error)) : Prop :=
  Forall (λ r, match r with Some e => reply_ok e | None => True end) rs.

Definition batch_ok (r : list (option error) * option error) (c : Client) : Prop :=
  peer_ok c ∧ results_ok r.1 ∧ match r.2 with Some e => reply_ok e | None => True end.

Lemma putAll_writes rs : triple grows peer_ok (putAll rs) write_ok.
Proof.
  induction rs as [|r rs IH]; [by apply triple_ret; [typeclasses eauto|]|]. cbn [putAll].
  eapply triple_bind; [typeclasses eauto|apply put_command|]. intros [e|].
  - by apply triple_ret; [typeclasses eauto|].
  - eapply triple_conseq; [exact IH|by intros c [? _]|done].
Qed.

Lemma readAllReplies_ok rs : triple grows peer_ok (readAllReplies rs) batch_ok.
Proof.
  induction rs as [|r rs IH].
  { apply triple_ret; [typeclasses eauto|]. intros c Hc. split_and!; [done|constructor|done]. }
  cbn [readAllReplies]. eapply triple_bind; [typeclasses eauto|apply readResponse_speaks|].
  intros [x|e].
  - eapply triple_bind; [typeclasses eauto|eapply triple_conseq; [exact IH|by intros c [? _]|done]|].
    intros [more b]. apply triple_ret; [typeclasses eauto|]. intros c (H1 & H2 & H3).
    split_and!; [done|by constructor|done].
  - destruct (smtpCode e =? 0).
    + apply triple_ret; [typeclasses eauto|]. intros c [H1 H2]. split_and!; [done|by repeat constructor|done].
    + intros c [Hc He].
      assert (triple grows peer_ok (let! (more, b) := readAllReplies rs in ret (Some e :: more, b)) batch_ok)
        as Ht; [|by apply Ht].
      eapply triple_bind; [typeclasses eauto|exact IH|].
      intros [more b]. apply triple_ret; [typeclasses eauto|]. intros c' (H1 & H2 & H3).
      split_and!; [done|by constructor|done].
Qed.

Lemma RcptBatch_ok rs : triple grows peer_ok (RcptBatch rs) batch_ok.
Proof.
  unfold RcptBatch. eapply triple_bind; [typeclasses eauto|apply putAll_writes|]. intros [e|].
  - apply triple_ret; [typeclasses eauto|]. intros c [H1 H2]. split_and!; [done|constructor|done].
  - eapply triple_conseq; [apply readAllReplies_ok|by intros c [? _]|done].
Qed.
End commands.

(** ** The conversation *)

(** [ws] was written and the replies [heard] were read. *)
Definition said (ws : list wire) (heard : list answer) (c c' : Client) : Prop :=
  log c' = log c ++ ws ∧ answers (peer c) = heard ++ answers (peer c').

Lemma said_trans ws hs ws' hs' c1 c2 c3 :
  said ws hs c1 c2 → said ws' hs' c2 c3 → said (ws ++ ws') (hs ++ hs') c1 c3.
Proof. intros [L1 A1] [L2 A2]. split; [by rewrite L2, L1, app_assoc|by rewrite A1, A2, app_assoc]. Qed.

(** What a result says about the reply it was made of: success is an expected reply,
    and an error with a reply code is a reply. *)
Definition answered (expect : Z) (r : res (Z * string)) (o : option answer) : Prop :=
  match r with
  | Ok (code, msg) => o = Some (Reply code msg) ∧ unexpected expect code = false
  | Err e => smtpCode e ≠ 0 → is_Some o
  end.

Lemma readResponse_said expect c r c' : peer_ok c → readResponse expect c = (r, c') →
  ∃ o, said [] (option_list o) c c' ∧ answered expect r o.
Proof.
  intros [_ Hf]. unfold readResponse, bind, next_answer, ret. destruct (answers (peer c)) as [|a rest] eqn:Ea; cbn.
  - intros [= <- <-]. exists None. split; [split; [by rewrite app_nil_r|by rewrite Ea]|by intros []].
  - intros [= <- <-]. exists (Some a). split; [split; [by cbn; rewrite app_nil_r|done]|].
    destruct a as [code msg|code msg e|]; cbn; [| |by eexists].
    + destruct (unexpected expect code) eqn:Eu; [by eexists|done].
    + destruct (code =? 0); by eexists.
Qed.

Lemma cmd_said expect line c r c' : peer_ok c → cmd expect line c = (r, c') →
  ∃ o, said [Command line] (option_list o) c c' ∧ answered expect r o.
Proof.
  intros Hc. unfold cmd, bind, put. cbn. destruct (writeErr _ _) as [e|] eqn:Ew.
  - intros [= <- <-]. exists None. split; [done|]. cbn. unfold smtpCode. rewrite (proj1 Hc _ _ Ew). by intros [].
  - intros (o & Hs & Ha)%readResponse_said; [|done]. exists o. split; [|done].
    destruct Hs as [L A]. split; [|done]. rewrite L. cbn. by rewrite <-app_assoc.
Qed.

(** One command and its reply. *)
Lemma ask_said {A} expect line (k : Z * string → ST Client (res A)) c r c' :
  (∀ x s, ∃ a s', k x s = (Ok a, s') ∧ log s' = log s ∧ peer s' = peer s) → peer_ok c →
  (try! x := cmd expect line in k x) c = (r, c') →
  ∃ o, said [Command line] (option_list o) c c' ∧
    match r with
    | Ok _ => ∃ code msg, o = Some (Reply code msg) ∧ unexpected expect code = false
    | Err e => smtpCode e ≠ 0 → is_Some o
    end.
Proof.
  intros Hk Hc [(e & Hr & ->)|(x & c1 & Hr & Hx)]%try_inv;
    destruct (cmd_said _ _ _ _ _ Hc Hr) as (o & Hs & Ha); exists o.
  - done.
  - destruct (Hk x c1) as (a & s' & Hk' & L & P). rewrite Hk' in Hx. injection Hx as <- <-.
    destruct x as [code msg]. split; [|by exists code, msg; split; apply Ha].
    destruct Hs as [Hl Hp]. split; [by rewrite L|by rewrite P].
Qed.

Lemma expected_250 code : unexpected 250 code = false → code = 250.
Proof. unfold unexpected. simpl. lia. Qed.

Lemma expected_354 code : unexpected 354 code = false → code = 354.
Proof. unfold unexpected. simpl. lia. Qed.

Lemma expected_25 code : unexpected 25 code = false → 250 ≤ code < 260.
Proof. unfold unexpected. simpl. intros Hu. zbool. Z.to_euclidean_division_equations. lia. Qed.

(** ** The TLS policy *)

Section tls.
Context `{CaseTables}.

(** The session's security and extensions are as before; [l] was written. *)
Definition frame (l : list wire) (c c' : Client) : Prop :=
  log c' = log c ++ l ∧ tls c' = tls c ∧ verified c' = verified c.

Lemma readResponse_frame expect c r c' :
  readResponse expect c = (r, c') → frame [] c c'.
Proof.
  unfold readResponse, bind, next_answer, ret. destruct (answers (peer c)); cbn;
    intros [= _ <-]; split_and!; try done; cbn; by rewrite app_nil_r.
Qed.

Lemma cmd_frame expect line c r c' :
  cmd expect line c = (r, c') → frame [Command line] c c'.
Proof.
  unfold cmd, bind, put. cbn. destruct (writeErr _ _).
  - by intros [= _ <-].
  - intros (Hl & Ht & Hv)%readResponse_frame. cbn in *. rewrite app_nil_r in Hl. done.
Qed.

Lemma Greet_frame c r c' : Greet c = (r, c') → frame [] c c'.
Proof.
  unfold Greet. intros [(e & Hr%readResponse_frame & _)|([code msg] & c1 & Hr%readResponse_frame & Hk)]%try_inv;
    [done|]. by injection Hk as _ <-.
Qed.

Lemma EHLO_frame h c r c' : EHLO h c = (r, c') → frame [Command ("EHLO " +:+ h)] c c'.
Proof.
  unfold EHLO. intros [(e & Hr%cmd_frame & _)|([code msg] & c1 & Hr%cmd_frame & Hk)]%try_inv; [done|].
  by injection Hk as _ <-.
Qed.

Lemma HELO_frame h c r c' : HELO h c = (r, c') →
  frame [Command ("HELO " +:+ h)] c c' ∧ (r = Ok tt → ext c' = ∅).
Proof.
  unfold HELO. intros [(e & Hr%cmd_frame & ->)|(a & c1 & Hr%cmd_frame & Hk)]%try_inv; [done|].
  by injection Hk as <- <-.
Qed.

Lemma StartTLS_Ok insecure c c' : StartTLS insecure c = (Ok tt, c') →
  log c' = log c ++ [Command "STARTTLS"] ∧ tls c' = true ∧ verified c' = negb insecure.
Proof.
  unfold StartTLS. intros [(e & _ & Hr)|(a & c1 & (Hl & _ & _)%cmd_frame & Hk)]%try_inv; [done|].
  destruct (handshake _ _); [done|]. by injection Hk as <-.
Qed.

(** The sessions [session_on] can end with. *)
Inductive session_kind (policy : outboundTLS) (h : string) (c c' : Client) : Prop :=
  | Encrypted
      (Htls : tls c' = true) (Hver : verified c' = negb (insecureSkipVerify policy))
      (Hlog : log c' = log c ++ [Command ("EHLO " +:+ h); Command "STARTTLS";
                                 Command ("EHLO " +:+ h)])
  | Plain
      (Hallowed : allowPlaintext policy = true) (Hreq : requireSTARTTLS policy = false)
      (Htls : tls c' = tls c) (Hoffer : ext c' !! "STARTTLS" = None)
      (Hlog : log c' = log c ++ [Command ("EHLO " +:+ h)])
  | Legacy
      (Hallowed : allowPlaintext policy = true) (Htls : tls c' = tls c)
      (Hoffer : ext c' !! "STARTTLS" = None)
      (Hlog : log c' = log c ++ [Command ("EHLO " +:+ h); Command ("HELO " +:+ h)]).

Lemma session_on_Ok policy h noExt c c' :
  session_on policy h noExt c = (Ok tt, c') → session_kind policy h c c'.
Proof.
  unfold session_on, bind. destruct (Greet c) as [[g|e] c1] eqn:Eg; [|done].
  apply Greet_frame in Eg as (Hl1 & Ht1 & Hv1). rewrite app_nil_r in Hl1.
  destruct (EHLO h c1) as [[u|e] c2] eqn:Ee; apply EHLO_frame in Ee as (Hl2 & Ht2 & Hv2);
    rewrite Hl1 in Hl2.
  - unfold gets. destruct (Extension "STARTTLS" c2) eqn:Ex; cbn [negb].
    + destruct (StartTLS _ c2) as [[[]|e] c3] eqn:Es; [|done].
      apply StartTLS_Ok in Es as (Hl3 & Ht3 & Hv3).
      destruct (EHLO h c3) as [[u'|e] c4] eqn:Ee'; [|done]. apply EHLO_frame in Ee' as (Hl4 & Ht4 & Hv4).
      unfold ret. intros [= <-]. apply Encrypted; [congruence|congruence|].
      by rewrite Hl4, Hl3, Hl2, <-!app_assoc.
    + destruct (requireSTARTTLS policy) eqn:Er; [done|]. destruct (allowPlaintext policy) eqn:Ea; [|done].
      unfold ret. cbn [negb orb]. intros [= <-]. apply Plain; [done|done|congruence| |done].
      unfold Extension in Ex. apply bool_decide_eq_false in Ex.
      rewrite upper_ascii in Ex by done. by apply eq_None_not_Some.
  - destruct (allowPlaintext policy) eqn:Ea; [|done]. destruct (_ || _); [done|].
    destruct (HELO h c2) as [[u|e'] c3] eqn:Eh; [|done]. apply HELO_frame in Eh as [(Hl3 & Ht3 & _) Hx].
    unfold ret. intros [= <-]. apply Legacy; [done|congruence| |by rewrite Hl3, Hl2, <-app_assoc].
    destruct u. by rewrite (Hx eq_refl).
Qed.

Lemma connect_session policy h dials noExt c : connect policy h dials noExt = Ok c →
  ∃ ds p, dials = Ok ds ∧ Ok p ∈ ds ∧ session_on policy h noExt (NewClient p) = (Ok tt, c).
Proof.
  unfold connect. destruct dials as [ds|]; [|done]. cbn [res_bind].
  assert (∀ last, connect_first policy h ds noExt last = Ok c →
            ∃ p, Ok p ∈ ds ∧ session_on policy h noExt (NewClient p) = (Ok tt, c)) as Hf.
  { induction ds as [|d ds IH]; intros last; cbn [connect_first]; [done|].
    destruct (dialAndSession policy h d noExt) as [c1|e] eqn:Ed.
    - intros [= <-]. unfold dialAndSession in Ed. destruct d as [p|]; [|done]. cbn [res_bind] in Ed.
      destruct (session_on _ _ _ _) as [[[]|e] c'] eqn:Es; [|done]. injection Ed as <-. exists p. split; [left|done].
    - intros (p & Hp & Hs)%IH. exists p. split; [by right|done]. }
  intros (p & Hp & Hs)%Hf. eauto.
Qed.

Lemma connect_Ok policy h dials noExt c : connect policy h dials noExt = Ok c →
  ∃ ds p, dials = Ok ds ∧ Ok p ∈ ds ∧ session_kind policy h (NewClient p) c.
Proof. intros (ds & p & ? & ? & ?%session_on_Ok)%connect_session. eauto. Qed.

Lemma EHLO_peer h c : peer_ok c → peer_ok (EHLO h c).2.
Proof.
  intros Hc. unfold EHLO, try_, bind. destruct (cmd_speaks 250 ("EHLO " +:+ h) c Hc) as [_ [Hc1 _]].
  by destruct (cmd _ _ c) as [[[code msg]|e] c1].
Qed.

(** A session is a greeting, then commands with one reply each. *)
Lemma EHLO_said h c r c' : peer_ok c → EHLO h c = (r, c') →
  ∃ o, said [Command ("EHLO " +:+ h)] (option_list o) c c' ∧
    match r with Ok _ => is_Some o | Err e => smtpCode e ≠ 0 → is_Some o end.
Proof.
  intros Hc He. apply ask_said in He as (o & Hs & Ho); [|intros [code msg] s0; by do 2 eexists|done].
  exists o. split; [done|]. destruct r as [|]; [|done]. destruct Ho as (code & msg & -> & _). by eexists.
Qed.

Definition greeted (c c' : Client) : Prop :=
  ∃ ws hs, said ws hs c c' ∧ Forall is_command ws ∧ length hs = S (length ws).

Lemma greeted_more c c1 c2 w o : greeted c c1 → said [Command w] (option_list o) c1 c2 → is_Some o → greeted c c2.
Proof.
  intros (ws & hs & Hs & Hf & Hn) Hs2 [a ->]. exists (ws ++ [Command w]), (hs ++ [a]).
  split_and!; [by eapply said_trans|by apply Forall_app; repeat constructor|]. rewrite !length_app, Hn. done.
Qed.

Lemma session_greeted policy h noExt c c' : peer_ok c → session_on policy h noExt c = (Ok tt, c') → greeted c c'.
Proof.
  intros Hc. unfold session_on, bind. destruct (Greet c) as [[g|e] c1] eqn:Eg; [|done].
  assert (Hg : greeted c c1 ∧ peer_ok c1).
  { unfold Greet in Eg. apply try_inv in Eg as [(e & _ & ?)|([code msg] & c0 & Hr & Hk)]; [done|]. injection Hk as _ <-.
    destruct (readResponse_speaks 220 c Hc) as [_ [Hc1 _]]. destruct (readResponse_said _ _ _ _ Hc Hr) as (o & Hs & -> & _).
    rewrite Hr in Hc1. split; [|done]. exists [], [Reply code msg]. by split_and!. }
  destruct Hg as [Hg Hc1]. pose proof (EHLO_peer h c1 Hc1) as Hc2. destruct (EHLO h c1) as [u c2] eqn:Ee. cbn [snd] in Hc2.
  destruct (EHLO_said h c1 u c2 Hc1 Ee) as (o & Hs & Ho). destruct u as [u|e].
  - pose proof (greeted_more _ _ _ _ _ Hg Hs Ho) as Hg2. unfold gets. destruct (Extension "STARTTLS" c2); cbn [negb].
    + destruct (StartTLS _ c2) as [[[]|e] c3] eqn:Es; [|done]. unfold StartTLS in Es.
      apply try_inv in Es as [(e & _ & ?)|([code msg] & c4 & Hr & Hk)]; [done|].
      destruct (cmd_speaks 220 "STARTTLS" c2 Hc2) as [_ [Hc4 _]]. rewrite Hr in Hc4. cbn [snd] in Hc4.
      destruct (cmd_said _ _ _ _ _ Hc2 Hr) as (o' & Hs' & -> & _). pose proof (greeted_more _ _ _ _ _ Hg2 Hs' ltac:(by eexists)) as Hg4.
      destruct (handshake _ _); [done|]. injection Hk as <-. set (c3 := mkClient _ _ _ _ _ _).
      destruct (EHLO h c3) as [[u'|e] c5] eqn:Ee'; [|done]. destruct (EHLO_said h c3 _ c5 Hc4 Ee') as (o5 & Hs5 & Ho5).
      unfold ret. intros [= <-]. exact (greeted_more _ _ _ _ _ Hg4 Hs5 Ho5).
    + destruct (_ || _); [done|]. unfold ret. by intros [= <-].
  - destruct (_ || _) eqn:Eb; [done|].
    assert (Hcode : smtpCode e ≠ 0) by (intros Hz; rewrite Hz in Eb; by rewrite orb_true_r in Eb).
    pose proof (greeted_more _ _ _ _ _ Hg Hs (Ho Hcode)) as Hg2.
    destruct (HELO h c2) as [[u|e'] c3] eqn:Eh; [|done]. unfold HELO in Eh.
    apply ask_said in Eh as (o' & Hs' & code & msg & -> & _); [|intros [? ?] s0; by do 2 eexists|done].
    unfold ret. intros [= <-]. exact (greeted_more _ _ _ _ _ Hg2 Hs' ltac:(by eexists)).
Qed.

(** C25: The outbound TLS policy is enforced and never downgraded.  A connection
    delivery goes on to use is encrypted, with the certificate checked unless the
    configuration says insecure; or the configuration permits plaintext, the mode
    is not "required", and the server did not offer STARTTLS and was not asked for
    it.  Until then nothing but the greeting commands was sent, so a failed
    handshake never leads to a message in the clear. *)
Theorem tls_enforced mode insecure plain h dials noExt c :
  connect (effectiveTLS mode insecure plain) h dials noExt = Ok c →
  (tls c = true ∧ verified c = negb insecure ∧
   log c = [Command ("EHLO " +:+ h); Command "STARTTLS"; Command ("EHLO " +:+ h)]) ∨
  (tls c = false ∧ plain = true ∧ mode ≠ "required" ∧ ext c !! "STARTTLS" = None ∧
   (log c = [Command ("EHLO " +:+ h)] ∨
    log c = [Command ("EHLO " +:+ h); Command ("HELO " +:+ h)])).
Proof.
  intros (ds & p & _ & _ & Hs)%connect_Ok. unfold effectiveTLS in Hs.
  destruct Hs as [H1 H2 H3|H1 _ H2 H3 H4|H1 H2 H3 H4]; cbn in *; [by left| |]; right;
    (apply andb_true_iff in H1 as [-> H1%negb_true_iff%bool_decide_eq_false]); split_and!; auto.
Qed.
End tls.

(** A server that offers STARTTLS and completes the handshake. *)
Definition samplePeer : Peer :=
  mkPeer [Reply 220 "mx.example ESMTP"; Reply 250 ("mx.example" +:+ of_list [chr 10] +:+ "STARTTLS");
          Reply 220 "go ahead"; Reply 250 "mx.example"]
    (λ _, None) (λ _, None).

Lemma tls_enforced_witness :
  ∃ c, connect (effectiveTLS "required" false true) "out.example" (Ok [Ok samplePeer]) true = Ok c ∧
       tls c = true ∧ verified c = true.
Proof.
  destruct (connect (effectiveTLS "required" false true) "out.example" (Ok [Ok samplePeer]) true)
    as [c|e] eqn:Ec; [|vm_compute in Ec; discriminate Ec].
  exists c. split; [reflexivity|].
  destruct (tls_enforced "required" false true "out.example" _ true c Ec)
    as [(Ht & Hv & _)|(_ & _ & Hm & _)]; [by split|by destruct Hm].
Defined.
