(* ===== verification/Netpolicy.v ===== *)
(** * Destinations the server must not connect to (src/internal/netpolicy/address.go)

    An address is its bytes in network order, four or sixteen of them; a prefix is
    an address with its first [bits] bits significant.  [restricted_ranges] gives the
    IPv4 policy as address ranges, and shows that the IPv4-mapped form of an
    address is judged as the address itself. *)

From S2P Require Import Prelude.
Open Scope Z_scope.

(** [net.IP] and [netip.Addr]: bytes, high byte first. *)
Abbreviation IP := (list Z) (only parsing).

(** The address as a number. *)
Definition ip_value (ip : IP) : Z := fold_left (λ acc b, acc * 256 + b) ip 0.

Record Prefix := mkPrefix { pWidth : nat; pAddr : Z; pBits : Z }.

(** [a.b.c.d/bits]. *)
Definition v4 (a b c d bits : Z) : Prefix := mkPrefix 4 (ip_value [a; b; c; d]) bits.

(** An IPv6 prefix by its eight groups. *)
Definition v6 (groups : list Z) (bits : Z) : Prefix :=
  mkPrefix 16 (fold_left (λ acc g, acc * 65536 + g) groups 0) bits.

Definition restrictedPrefixes : list Prefix := [
  v4 0 0 0 0 8; v4 10 0 0 0 8; v4 100 64 0 0 10; v4 127 0 0 0 8; v4 169 254 0 0 16;
  v4 172 16 0 0 12; v4 192 0 0 0 24; v4 192 0 2 0 24; v4 192 31 196 0 24; v4 192 52 193 0 24;
  v4 192 88 99 0 24; v4 192 168 0 0 16; v4 192 175 48 0 24; v4 198 18 0 0 15;
  v4 198 51 100 0 24; v4 203 0 113 0 24; v4 224 0 0 0 4; v4 240 0 0 0 4;
  v6 [0; 0; 0; 0; 0; 0; 0; 0] 128; v6 [0; 0; 0; 0; 0; 0; 0; 1] 128;
  v6 [0x64; 0xff9b; 0; 0; 0; 0; 0; 0] 96; v6 [0x64; 0xff9b; 1; 0; 0; 0; 0; 0] 48;
  v6 [0x100; 0; 0; 0; 0; 0; 0; 0] 64; v6 [0x100; 0; 0; 1; 0; 0; 0; 0] 64;
  v6 [0x2001; 0; 0; 0; 0; 0; 0; 0] 23; v6 [0x2001; 0xdb8; 0; 0; 0; 0; 0; 0] 32;
  v6 [0x2002; 0; 0; 0; 0; 0; 0; 0] 16; v6 [0x2620; 0x4f; 0x8000; 0; 0; 0; 0; 0] 48;
  v6 [0x3fff; 0; 0; 0; 0; 0; 0; 0] 20; v6 [0x5f00; 0; 0; 0; 0; 0; 0; 0] 16;
  v6 [0xfc00; 0; 0; 0; 0; 0; 0; 0] 7; v6 [0xfec0; 0; 0; 0; 0; 0; 0; 0] 10;
  v6 [0xfe80; 0; 0; 0; 0; 0; 0; 0] 10; v6 [0xff00; 0; 0; 0; 0; 0; 0; 0] 8].

(** [Prefix.Contains]: the family must be the prefix's. *)
Definition Contains_addr (p : Prefix) (ip : IP) : bool :=
  (pWidth p =? length ip)%nat
  && let shift := Z.of_nat (pWidth p) * 8 - pBits p in
     (Z.shiftr (ip_value ip) shift =? Z.shiftr (pAddr p) shift).

(** [netip.AddrFromSlice] accepts four or sixteen bytes. *)
Definition AddrFromSlice (ip : IP) : option IP :=
  if (length ip =? 4)%nat || (length ip =? 16)%nat then Some ip else None.

Definition mapped_prefix : IP := [0; 0; 0; 0; 0; 0; 0; 0; 0; 0; 255; 255].

(** [Addr.Unmap]. *)
Definition Unmap (ip : IP) : IP :=
  if (length ip =? 16)%nat && bool_decide (take 12 ip = mapped_prefix) then drop 12 ip else ip.

Definition Restricted (ip : IP) : bool :=
  match AddrFromSlice ip with
  | None => true
  | Some address => existsb (λ p, Contains_addr p (Unmap address)) restrictedPrefixes
  end.

(** ** The policy as address ranges *)

(** First and last address of each restricted IPv4 block. *)
Definition v4_ranges : list (Z * Z) := [
  (0x00000000, 0x00ffffff); (0x0a000000, 0x0affffff); (0x64400000, 0x647fffff);
  (0x7f000000, 0x7fffffff); (0xa9fe0000, 0xa9feffff); (0xac100000, 0xac1fffff);
  (0xc0000000, 0xc00000ff); (0xc0000200, 0xc00002ff); (0xc01fc400, 0xc01fc4ff);
  (0xc034c100, 0xc034c1ff); (0xc0586300, 0xc05863ff); (0xc0a80000, 0xc0a8ffff);
  (0xc0af3000, 0xc0af30ff); (0xc6120000, 0xc613ffff); (0xc6336400, 0xc63364ff);
  (0xcb007100, 0xcb0071ff); (0xe0000000, 0xffffffff)].

Definition is_byte (b : Z) : Prop := 0 ≤ b < 256.

(** A shifted comparison is a range. *)
Lemma shiftr_range x p k : 0 ≤ k →
  (Z.shiftr x k =? p) = ((p * 2 ^ k <=? x) && (x <=? p * 2 ^ k + (2 ^ k - 1))).
Proof.
  intros Hk. rewrite Z.shiftr_div_pow2 by done.
  assert (0 < 2 ^ k) by (apply Z.pow_pos_nonneg; lia).
  pose proof (Z.div_mod x (2 ^ k) ltac:(lia)) as Hx.
  pose proof (Z.mod_pos_bound x (2 ^ k) ltac:(lia)) as Hm.
  destruct (Z.eqb_spec (x / 2 ^ k) p) as [He|Hne]; symmetry.
  - apply andb_true_iff. rewrite !Z.leb_le. nia.
  - apply not_true_iff_false. rewrite andb_true_iff, !Z.leb_le. intros [H1 H2]. apply Hne.
    assert (p * 2 ^ k < (x / 2 ^ k + 1) * 2 ^ k) by nia.
    assert (x / 2 ^ k * 2 ^ k < (p + 1) * 2 ^ k) by nia. nia.
Qed.

Lemma v4_value a b c d :
  is_byte a → is_byte b → is_byte c → is_byte d → 0 ≤ ip_value [a; b; c; d] ≤ 0xffffffff.
Proof. unfold is_byte, ip_value. simpl. lia. Qed.

Lemma restricted_v4 a b c d :
  is_byte a → is_byte b → is_byte c → is_byte d →
  Restricted [a; b; c; d] = existsb (λ r, (r.1 <=? ip_value [a; b; c; d])
                                          && (ip_value [a; b; c; d] <=? r.2)) v4_ranges.
Proof.
  intros Ha Hb Hc Hd. pose proof (v4_value _ _ _ _ Ha Hb Hc Hd) as Hv.
  unfold Restricted. change (AddrFromSlice [a; b; c; d]) with (Some [a; b; c; d]).
  change (Unmap [a; b; c; d]) with [a; b; c; d].
  set (x := ip_value [a; b; c; d]) in *.
  assert (H4 : ∀ p1 p2 p3 p4 bits, Contains_addr (v4 p1 p2 p3 p4 bits) [a; b; c; d] =
                 (Z.shiftr x (32 - bits) =? Z.shiftr (ip_value [p1; p2; p3; p4]) (32 - bits))) by done.
  assert (H6 : ∀ g bits, Contains_addr (v6 g bits) [a; b; c; d] = false) by done.
  unfold restrictedPrefixes. cbn [existsb]. rewrite !H4, !H6, !orb_false_r.
  repeat match goal with
  | |- context [Z.shiftr x ?k =? Z.shiftr ?p ?k'] =>
      let s := eval vm_compute in k in let q := eval vm_compute in (Z.shiftr p k') in
      change (Z.shiftr x k =? Z.shiftr p k') with (Z.shiftr x s =? q);
      rewrite (shiftr_range x q s) by lia
  end.
  cbn [v4_ranges existsb fst snd]. rewrite orb_false_r.
  repeat match goal with |- (_ || _) = (_ || _) => apply (f_equal2 orb); [reflexivity|] end.
  clearbody x. lia.
Qed.

(** The IPv4 policy is the published list of special-purpose blocks.  An IPv4
    destination is refused exactly when its address is in one of the listed ranges;
    its IPv4-mapped IPv6 form is judged the same way, so mapping cannot reach a
    refused destination; and an address that is neither four nor sixteen bytes long
    is refused. *)
Theorem restricted_ranges a b c d :
  is_byte a → is_byte b → is_byte c → is_byte d →
  Restricted [a; b; c; d] = existsb (λ r, (r.1 <=? ip_value [a; b; c; d])
                                          && (ip_value [a; b; c; d] <=? r.2)) v4_ranges ∧
  Restricted (mapped_prefix ++ [a; b; c; d]) = Restricted [a; b; c; d] ∧
  ∀ ip, length ip ≠ 4%nat → length ip ≠ 16%nat → Restricted ip = true.
Proof.
  intros Ha Hb Hc Hd. split_and!; [by apply restricted_v4|reflexivity|].
  intros ip H4 H16. unfold Restricted, AddrFromSlice.
  by rewrite (proj2 (Nat.eqb_neq _ _) H4), (proj2 (Nat.eqb_neq _ _) H16).
Qed.

Lemma restricted_ranges_witness :
  Restricted [10; 1; 2; 3] = true ∧ Restricted (mapped_prefix ++ [10; 1; 2; 3]) = Restricted [10; 1; 2; 3].
Proof.
  destruct (restricted_ranges 10 1 2 3) as (H1 & H2 & _); try (unfold is_byte; lia).
  split; [rewrite H1; reflexivity|exact H2].
Defined.
