(* ===== verification/Discovery.v ===== *)
(** * Finding a destination's servers (src/internal/deliver/discovery.go)

    From MX and address records to the hosts and addresses an attempt tries.
    The resolver and the two orderings (shuffles in production) are parameters;
    an ordering only permutes.  The theorems: no address outside the policy is
    ever dialled ([lookup_public]), and hosts are tried by preference, once each
    ([hosts_by_preference]). *)

From S2P Require Import Prelude Errors GoLib Text Netpolicy.
Open Scope Z_scope.

(** ** Addresses as text *)

(** [ip.To4]: an IPv4 address or the IPv4-mapped form of one. *)
Definition To4 (ip : IP) : option IP :=
  if (length ip =? 4)%nat then Some ip
  else if (length ip =? 16)%nat && bool_decide (take 12 ip = mapped_prefix) then Some (drop 12 ip)
  else None.

Definition hex_group (g : Z) : string :=
  let digit k := of_list [hex_digit (Z.land (Z.shiftr g k) 15)] in
  (if 4096 <=? g then digit 12 else "") +:+ (if 256 <=? g then digit 8 else "")
  +:+ (if 16 <=? g then digit 4 else "") +:+ digit 0.

Fixpoint groups_of (ip : IP) : list Z :=
  match ip with
  | a :: b :: ip => (a * 256 + b) :: groups_of ip
  | _ => []
  end.

(** Length of the run of zero groups at the front. *)
Fixpoint zero_run (gs : list Z) : nat :=
  match gs with
  | g :: gs => if g =? 0 then S (zero_run gs) else O
  | [] => O
  end.

(** The first longest run of at least two zero groups: its start and length. *)
Fixpoint longest_run (i : nat) (gs : list Z) (best : nat * nat) : nat * nat :=
  match gs with
  | [] => best
  | _ :: gs' =>
      let l := zero_run gs in
      longest_run (S i) gs' (if (2 <=? l)%nat && (best.2 <? l)%nat then (i, l) else best)
  end.

(** [Addr.String] of an IPv6 address. *)
Definition v6_string (gs : list Z) : string :=
  let '(start, len) := longest_run 0 gs (0%nat, 0%nat) in
  let text l := join_with ":" (hex_group <$> l) in
  if (len =? 0)%nat then text gs
  else text (take start gs) +:+ "::" +:+ text (drop (start + len) gs).

(** [net.IP.String]. *)
Definition ip_string (ip : IP) : string :=
  match ip with
  | [] => "<nil>"
  | _ =>
      match To4 ip with
      | Some v4 => join_with "." (FormatUint <$> v4)
      | None =>
          if (length ip =? 16)%nat then v6_string (groups_of ip)
          else "?" +:+ EncodeToString (of_list (chr <$> ip))
      end
  end.

(** ** Address records *)

Record dnsPolicy := mkDnsPolicy {
  bindIPv4 : string;
  bindIPv6 : string;
  allowPrivate : bool;
  allowlist : gset string;
  maxMX : nat;
  maxIP : nat
}.

Record MX := mkMX { mxHost : string; mxPref : Z }.

Record mxCandidate := mkCandidate { host : string; ips : option (list IP) }.

(** [Resolver]: MX records (a nil record is skipped by the code) and addresses. *)
Record Resolver := mkResolver {
  LookupMX : string → res (list (option MX));
  LookupNetIP : string → string → res (list IP)
}.

Definition lookupNetwork (p : dnsPolicy) : string :=
  let has4 := negb (bool_decide (bindIPv4 p = "")) || bool_decide (bindIPv6 p = "") in
  let has6 := negb (bool_decide (bindIPv6 p = "")) in
  if has4 && has6 then "ip" else if has6 && negb has4 then "ip6" else "ip4".

Definition allowlisted (p : dnsPolicy) (ip : IP) : bool :=
  bool_decide (ip_string ip ∈ allowlist p)
  || match To4 ip with
     | Some ip4 => bool_decide (ip_string ip4 ∈ allowlist p)
     | None => false
     end.

Definition checkDestination (p : dnsPolicy) (ip : IP) : option error :=
  if allowPrivate p then None
  else if allowlisted p ip then None
  else if Restricted ip then Some (Wrap (ip_string ip) (Sentinel errPrivateDestination))
  else None.

(** [netip.Addr.Compare]: by family, then by value. *)
Definition addr_le (a b : IP) : Prop :=
  (length a < length b)%nat ∨ (length a = length b ∧ ip_value a ≤ ip_value b).

#[export] Instance addr_le_dec : RelDecision addr_le.
Proof. intros a b. unfold addr_le. apply _. Defined.

(** The loop over the addresses: what is kept, in order, and the last refusal. *)
Fixpoint usableIPs (p : dnsPolicy) (addrs : list IP) (ordered : list IP) (disallowed : option error)
    : list IP * option error :=
  match addrs with
  | [] => (ordered, disallowed)
  | ip :: addrs =>
      match checkDestination p ip with
      | Some e => usableIPs p addrs ordered (Some e)
      | None =>
          match AddrFromSlice ip with
          | None => usableIPs p addrs ordered disallowed
          | Some addr =>
              let addr := Unmap addr in
              if bool_decide (addr ∈ ordered) then usableIPs p addrs ordered disallowed
              else usableIPs p addrs (ordered ++ [addr]) disallowed
          end
      end
  end.

Section discovery.
Context `{CaseTables}.
Variable resolver : Resolver.
Variable p : dnsPolicy.
Variable orderIPs : list IP → list IP.
Variable orderMX : list MX → list MX.

Definition lookupHostIPs (h : string) : res (list IP) :=
  let? addrs := LookupNetIP resolver (lookupNetwork p) h in
  let '(ordered, disallowed) := usableIPs p addrs [] None in
  match ordered, disallowed with
  | [], Some e => Err e
  | _, _ => Ok (take (maxIP p) (orderIPs (merge_sort addr_le ordered)))
  end.

(** ** MX records *)

(** The preference, then the host name in lower case ([strings.Compare] is the
    byte order). *)
Definition mx_le (a b : MX) : Prop :=
  mxPref a < mxPref b ∨
  (mxPref a = mxPref b ∧ String.le (ToLowerText (mxHost a)) (ToLowerText (mxHost b))).

#[export] Instance mx_le_dec : RelDecision mx_le.
Proof. intros a b. unfold mx_le. apply _. Defined.

(** The records that are not nil; a null MX ends the lookup. *)
Fixpoint validMX (records : list (option MX)) : res (list MX) :=
  match records with
  | [] => Ok []
  | None :: records => validMX records
  | Some r :: records =>
      if bool_decide (mxHost r = ".") then Err (Sentinel errNullMX)
      else let? rest := validMX records in Ok (r :: rest)
  end.

(** The front run of records with preference [k]. *)
Fixpoint same_pref (k : Z) (l : list MX) : list MX * list MX :=
  match l with
  | r :: l =>
      if mxPref r =? k then let '(run, rest) := same_pref k l in (r :: run, rest) else ([], r :: l)
  | [] => ([], [])
  end.

(** [orderMX] on each group of equal preference. *)
Fixpoint rotateGroups (fuel : nat) (l : list MX) : list MX :=
  match fuel, l with
  | S fuel, r :: l =>
      let '(run, rest) := same_pref (mxPref r) l in
      orderMX (r :: run) ++ rotateGroups fuel rest
  | _, _ => l
  end.

(** [strings.TrimSuffix(host, ".")] in lower case. *)
Definition mx_name (r : MX) : string :=
  ToLowerText (let s := str_list (mxHost r) in
               if has_suffix [chr 46] s then of_list (take (length s - 1) s) else mxHost r).

Fixpoint pickHosts (l : list MX) (seen : list string) : list string :=
  match l with
  | [] => seen
  | r :: l =>
      let h := mx_name r in
      if negb (bool_decide (h = "")) && negb (bool_decide (h = ".")) then
        if bool_decide (h ∈ seen) then pickHosts l seen
        else
          let seen := seen ++ [h] in
          if (length seen =? maxMX p)%nat then seen else pickHosts l seen
      else pickHosts l seen
  end.

(** [errors.AsType[*net.DNSError]]: the first one in the tree. *)
Fixpoint errors_AsDNS (e : error) : option bool :=
  match e with
  | DNSError notFound => Some notFound
  | Wrap _ e | acceptanceUnknownError e => errors_AsDNS e
  | Join a b => match errors_AsDNS a with Some n => Some n | None => errors_AsDNS b end
  | _ => None
  end.

Definition dns_not_found (e : error) : bool := default false (errors_AsDNS e).

(** No MX records: the domain's own addresses. *)
Definition implicitMX (domain : string) (mxNotFound : bool) : res (list mxCandidate) :=
  match lookupHostIPs domain with
  | Err e => if mxNotFound && dns_not_found e then Err (Sentinel errNoSuchDomain) else Err e
  | Ok found => Ok [mkCandidate domain (Some found)]
  end.

Definition hosts (domain : string) : res (list mxCandidate) :=
  match LookupMX resolver domain with
  | Err e => if dns_not_found e then implicitMX domain true else Err e
  | Ok [] => implicitMX domain false
  | Ok records =>
      let? valid := validMX records in
      let sorted := rotateGroups (length valid) (merge_sort mx_le valid) in
      match pickHosts sorted [] with
      | [] => Err (Sentinel errNullMX)
      | found => Ok ((λ h, mkCandidate h None) <$> found)
      end
  end.
End discovery.

(** ** No address outside the policy *)

Lemma Unmap_valid ip addr : AddrFromSlice ip = Some addr →
  addr = ip ∧ AddrFromSlice (Unmap ip) = Some (Unmap ip) ∧ Unmap (Unmap ip) = Unmap ip ∧
  To4 (Unmap ip) = To4 ip ∧ (ip = [] ↔ Unmap ip = []).
Proof.
  unfold AddrFromSlice. destruct ((length ip =? 4)%nat || (length ip =? 16)%nat) eqn:El; [|done].
  intros [= <-]. unfold Unmap, To4.
  destruct ((length ip =? 16)%nat && bool_decide (take 12 ip = mapped_prefix)) eqn:Em.
  - apply andb_true_iff in Em as [E16 Em]. apply Nat.eqb_eq in E16.
    assert (length (drop 12 ip) = 4)%nat as E4 by (rewrite length_drop; lia).
    rewrite E4, E16. split_and!; [done|done|done|done|].
    split; [by intros ->|]. intros Hn. by rewrite Hn in E4.
  - rewrite El, Em. done.
Qed.

Lemma checkDestination_Unmap p ip addr : AddrFromSlice ip = Some addr →
  checkDestination p (Unmap ip) = checkDestination p ip.
Proof.
  intros Ha. destruct (Unmap_valid ip addr Ha) as (-> & Hv & Hu & H4 & Hn).
  assert (Hs : ip_string (Unmap ip) = ip_string ip).
  { unfold ip_string. rewrite H4.
    destruct (Unmap ip) as [|x l] eqn:Eu; [by rewrite (proj2 Hn eq_refl)|].
    destruct ip as [|y k]; [by destruct Hn as [Hn _]; specialize (Hn eq_refl)|].
    destruct (To4 (y :: k)) eqn:E4; [done|].
    assert (Unmap (y :: k) = y :: k) as E1.
    { unfold Unmap, To4 in *. destruct (length (y :: k) =? 4)%nat; [done|].
      by destruct ((length (y :: k) =? 16)%nat && _). }
    by rewrite <-Eu, E1. }
  unfold checkDestination, allowlisted. rewrite Hs, H4.
  assert (Restricted (Unmap ip) = Restricted ip) as ->; [|done].
  unfold Restricted. by rewrite Hv, Ha, Hu.
Qed.

Lemma usableIPs_ok p addrs ordered dis :
  Forall (λ ip, checkDestination p ip = None ∧ AddrFromSlice ip = Some ip) ordered → NoDup ordered →
  Forall (λ ip, checkDestination p ip = None ∧ AddrFromSlice ip = Some ip)
    (usableIPs p addrs ordered dis).1 ∧ NoDup (usableIPs p addrs ordered dis).1.
Proof.
  revert ordered dis. induction addrs as [|ip addrs IH]; intros ordered dis Ho Hd; [done|]. cbn [usableIPs].
  destruct (checkDestination p ip) as [e|] eqn:Ec; [by apply IH|].
  destruct (AddrFromSlice ip) as [addr|] eqn:Ea; [|by apply IH].
  destruct (Unmap_valid ip addr Ea) as (-> & Hv & _). case_bool_decide as Hin; [by apply IH|].
  apply IH.
  - apply Forall_app_2; [done|]. apply Forall_singleton. by rewrite (checkDestination_Unmap p ip ip).
  - apply NoDup_app. split_and!; [done| |apply NoDup_singleton].
    intros x Hx ->%list_elem_of_singleton. done.
Qed.

Section discovery_facts.
Context `{CaseTables}.
Context (resolver : Resolver) (p : dnsPolicy).
Context (orderIPs : list IP → list IP) (orderMX : list MX → list MX).
Hypothesis orderIPs_perm : ∀ l, orderIPs l ≡ₚ l.
Hypothesis orderMX_perm : ∀ l, orderMX l ≡ₚ l.

(** The addresses delivery dials are distinct, at most as many as configured,
    and each passes the destination policy in the form it is dialled in: unless
    private destinations are allowed, it is either allowlisted or not restricted.
    A DNS answer in IPv4-mapped form does not get around the policy. *)
Theorem lookup_public h found :
  lookupHostIPs resolver p orderIPs h = Ok found →
  NoDup found ∧ (length found ≤ maxIP p)%nat ∧
  ∀ ip, ip ∈ found →
    (allowPrivate p = true ∨ allowlisted p ip = true ∨ Restricted ip = false) ∧
    AddrFromSlice ip = Some ip.
Proof.
  unfold lookupHostIPs. destruct (LookupNetIP _ _ _) as [addrs|]; [|done]. cbn [res_bind].
  destruct (usableIPs p addrs [] None) as [ordered dis] eqn:Eu.
  destruct (usableIPs_ok p addrs [] None (Forall_nil_2 _) (NoDup_nil_2)) as [Hok Hnd].
  rewrite Eu in Hok, Hnd. cbn [fst] in Hok, Hnd. intros Hf.
  assert (found = take (maxIP p) (orderIPs (merge_sort addr_le ordered))) as ->.
  { by destruct ordered, dis; simplify_eq. }
  assert (Hperm : orderIPs (merge_sort addr_le ordered) ≡ₚ ordered).
  { by rewrite orderIPs_perm, merge_sort_Permutation. }
  split_and!.
  - eapply sublist_NoDup; [|apply sublist_take]. by rewrite Hperm.
  - rewrite length_take. lia.
  - intros ip Hip. apply elem_of_take in Hip as (i & Hi & _). apply list_elem_of_lookup_2 in Hi as Hip.
    rewrite Hperm in Hip. rewrite Forall_forall in Hok. destruct (Hok ip Hip) as [Hc Ha].
    split; [|done]. unfold checkDestination in Hc. repeat case_match; naive_solver.
Qed.

(** ** Hosts by preference *)

Definition pref_le (a b : MX) : Prop := mxPref a ≤ mxPref b.

Lemma same_pref_spec k l run rest :
  same_pref k l = (run, rest) → l = run ++ rest ∧ Forall (λ r, mxPref r = k) run.
Proof.
  revert run rest. induction l as [|r l IH]; intros run rest; cbn [same_pref]; [by intros [= <- <-]|].
  destruct (Z.eqb_spec (mxPref r) k).
  - destruct (same_pref k l) as [run' rest'] eqn:Es. intros [= <- <-].
    destruct (IH _ _ eq_refl) as [-> ?]. split; [done|]. by constructor.
  - by intros [= <- <-].
Qed.

Lemma sorted_app_pref l k :
  StronglySorted pref_le (l ++ k) ↔
  StronglySorted pref_le l ∧ StronglySorted pref_le k ∧ ∀ x y, x ∈ l → y ∈ k → pref_le x y.
Proof. rewrite StronglySorted_app. naive_solver. Qed.

Lemma sorted_const k l : Forall (λ r, mxPref r = k) l → StronglySorted pref_le l.
Proof.
  induction 1 as [|r l Hr Hl IH]; constructor; [done|].
  eapply Forall_impl; [exact Hl|]. cbv beta. intros x Hx. unfold pref_le. lia.
Qed.

Lemma rotateGroups_spec fuel l :
  (length l ≤ fuel)%nat → StronglySorted pref_le l →
  StronglySorted pref_le (rotateGroups orderMX fuel l) ∧ rotateGroups orderMX fuel l ≡ₚ l.
Proof.
  revert l. induction fuel as [|fuel IH]; intros [|r l] Hlen Hs; simpl in Hlen; [done|lia|done|].
  cbn [rotateGroups]. destruct (same_pref (mxPref r) l) as [run rest] eqn:Es.
  destruct (same_pref_spec _ _ _ _ Es) as [-> Hrun].
  change (r :: run ++ rest) with ((r :: run) ++ rest) in *.
  apply sorted_app_pref in Hs as (Hs1 & Hs2 & Hcross).
  rewrite length_app in Hlen.
  destruct (IH rest ltac:(lia) Hs2) as [IHs IHp]. split.
  - apply sorted_app_pref. split_and!; [|done|].
    + apply (sorted_const (mxPref r)). rewrite orderMX_perm. by constructor.
    + intros x y Hx Hy. rewrite orderMX_perm in Hx. rewrite IHp in Hy. by apply Hcross.
  - by rewrite orderMX_perm, IHp.
Qed.

Definition usable_mx (r : MX) : Prop := mx_name r ≠ "" ∧ mx_name r ≠ ".".

(** [seen] is the choice among the records [D], the front of [L]. *)
Record chosen (L D : list MX) (seen : list string) : Prop := {
  ch_nodup : NoDup seen;
  ch_front : ∀ r, r ∈ D → r ∈ L;
  ch_from : ∀ h, h ∈ seen → ∃ r, r ∈ D ∧ mx_name r = h;
  ch_all : ∀ r, r ∈ D → usable_mx r → mx_name r ∈ seen;
  ch_order : ∀ i j h h', (i < j)%nat → seen !! i = Some h → seen !! j = Some h' →
    ∃ r, r ∈ L ∧ mx_name r = h ∧ ∀ r', r' ∈ L → mx_name r' = h' → pref_le r r'
}.

Lemma chosen_skip L D seen r :
  r ∈ L → chosen L D seen → (usable_mx r → mx_name r ∈ seen) → chosen L (D ++ [r]) seen.
Proof.
  intros Hin [Hn Hd Hf Ha Ho] Hr. split; [done| | | |done].
  - intros r' [Hr'| ->%list_elem_of_singleton]%elem_of_app; auto.
  - intros h Hh. destruct (Hf h Hh) as (r' & Hr' & <-). exists r'. by rewrite elem_of_app; auto.
  - intros r' [Hr'| ->%list_elem_of_singleton]%elem_of_app; auto.
Qed.

Lemma chosen_take L D seen r l :
  L = D ++ r :: l → StronglySorted pref_le L → chosen L D seen → usable_mx r → mx_name r ∉ seen →
  chosen L (D ++ [r]) (seen ++ [mx_name r]).
Proof.
  intros HL Hs [Hn Hd Hf Ha Ho] Hr Hnew. split.
  5: intros i j h h' Hij Hi Hj; rewrite lookup_app in Hj.
  - apply NoDup_app. split_and!; [done| |apply NoDup_singleton].
    intros h Hh ->%list_elem_of_singleton. done.
  - intros r' [Hr'| ->%list_elem_of_singleton]%elem_of_app; [by auto|]. rewrite HL.
    by apply elem_of_app; right; left.
  - intros h [Hh| ->%list_elem_of_singleton]%elem_of_app.
    + destruct (Hf h Hh) as (r' & Hr' & <-). exists r'. by rewrite elem_of_app; auto.
    + exists r. rewrite elem_of_app, list_elem_of_singleton. auto.
  - intros r' [Hr'| ->%list_elem_of_singleton]%elem_of_app Hu; rewrite elem_of_app;
      [left; by auto|right; by apply list_elem_of_singleton].
  - destruct (seen !! j) as [h0|] eqn:Ej.
    + simplify_eq. rewrite lookup_app_l in Hi; [by eapply Ho|].
      apply lookup_lt_Some in Ej. lia.
    + apply lookup_ge_None in Ej. assert (i < length seen)%nat.
      { apply list_lookup_singleton_Some in Hj as [Hj _]. lia. }
      rewrite lookup_app_l in Hi by done. apply list_lookup_singleton_Some in Hj as [_ <-].
      destruct (Hf h) as (r1 & Hr1 & <-); [by eapply list_elem_of_lookup_2|].
      exists r1. split_and!; [rewrite HL; by apply elem_of_app; left|done|].
      intros r' Hr' Hn'. rewrite HL in Hr', Hs. apply sorted_app_pref in Hs as (_ & _ & Hc).
      apply Hc; [done|]. apply elem_of_app in Hr' as [Hr'|Hr']; [|done].
      exfalso. apply Hnew. rewrite <-Hn'. apply Ha; [done|]. unfold usable_mx. by rewrite Hn'.
Qed.

(** What a finished choice says about the records it leaves out. *)
Definition left_out (L : list MX) (names : list string) : Prop :=
  ∀ r, r ∈ L → usable_mx r → mx_name r ∈ names ∨
    (length names = maxMX p ∧ ∀ h, h ∈ names → ∃ r', r' ∈ L ∧ mx_name r' = h ∧ pref_le r' r).

Lemma pickHosts_spec L l D seen :
  L = D ++ l → StronglySorted pref_le L → chosen L D seen → (length seen < maxMX p)%nat →
  ∃ D', chosen L D' (pickHosts p l seen) ∧ left_out L (pickHosts p l seen) ∧
        (length (pickHosts p l seen) ≤ maxMX p)%nat.
Proof.
  revert D seen. induction l as [|r l IH]; intros D seen HL Hs Hc Hlen; cbn [pickHosts].
  { rewrite app_nil_r in HL. subst L. exists D. split_and!; [done| |lia]. intros r Hr Hu. left.
    by apply (ch_all _ _ _ Hc). }
  assert (HL' : L = (D ++ [r]) ++ l) by by rewrite <-app_assoc.
  assert (HrL : r ∈ L) by (rewrite HL; by apply elem_of_app; right; left).
  destruct (negb _ && negb _) eqn:Eu.
  - assert (Hu : usable_mx r).
    { apply andb_true_iff in Eu as [E1%negb_true_iff E2%negb_true_iff].
      by split; [apply bool_decide_eq_false in E1|apply bool_decide_eq_false in E2]. }
    clear Eu. case_bool_decide as Hin; [by eapply IH; [done|done|apply chosen_skip|done]|].
    pose proof (chosen_take L D seen r l HL Hs Hc Hu Hin) as Hc'.
    destruct (Nat.eqb_spec (length (seen ++ [mx_name r])) (maxMX p)) as [He|He].
    + exists (D ++ [r]). split_and!; [done| |lia]. intros r' Hr' Hu'.
      rewrite HL' in Hr'. apply elem_of_app in Hr' as [Hr'|Hr'].
      { left. by apply (ch_all _ _ _ Hc'). }
      right. split; [done|]. intros h Hh. destruct (ch_from _ _ _ Hc' h Hh) as (r1 & Hr1 & Hn1).
      exists r1. split_and!; [rewrite HL'; by apply elem_of_app; left|done|].
      rewrite HL' in Hs. apply sorted_app_pref in Hs as (_ & _ & Hx). by apply Hx.
    + eapply IH; [done|done|done|]. rewrite length_app in *. simpl in *. lia.
  - eapply IH; [done|done| |done]. apply chosen_skip; [done|done|]. intros [H1 H2]. exfalso.
    by rewrite !bool_decide_eq_false_2 in Eu.
Qed.

Lemma mx_le_trans : Transitive mx_le.
Proof.
  intros a b c [H1|[H1 L1]] [H2|[H2 L2]]; unfold mx_le; [left; lia|left; lia|left; lia|].
  right. split; [lia|]. by etrans.
Qed.

Lemma sorted_valid valid : StronglySorted pref_le (merge_sort mx_le valid).
Proof.
  assert (Hs : StronglySorted mx_le (merge_sort mx_le valid)).
  { apply StronglySorted_merge_sort; [exact mx_le_trans|].
    intros a b. unfold mx_le.
    destruct (Z.lt_trichotomy (mxPref a) (mxPref b)) as [|[E|]]; [by left; left| |by right; left].
    destruct (String.le_total (ToLowerText (mxHost a)) (ToLowerText (mxHost b))); auto. }
  induction Hs as [|r l Hl IH Hr]; constructor; [done|].
  eapply Forall_impl; [exact Hr|]. intros x. unfold mx_le, pref_le. lia.
Qed.

Lemma validMX_elem records valid r : validMX records = Ok valid → r ∈ valid ↔ Some r ∈ records.
Proof.
  revert valid. induction records as [|[r'|] records IH]; intros valid; cbn [validMX].
  - intros [= <-]. by rewrite !elem_of_nil.
  - case_bool_decide; [done|]. destruct (validMX records) as [rest|]; [|done]. cbn [res_bind].
    intros [= <-]. rewrite !elem_of_cons, (IH rest eq_refl). naive_solver.
  - intros Hv. rewrite elem_of_cons, (IH valid Hv). naive_solver.
Qed.

(** Delivery tries a domain's mail servers by preference, each once.  When the
    domain has MX records, the hosts are distinct, at most as many as configured,
    each named by a record; a host tried earlier has a record at least as preferred
    as every record of a host tried later; and a usable record whose host is not
    tried was left out only by the limit, for hosts at least as preferred. *)
Theorem hosts_by_preference domain records cands :
  LookupMX resolver domain = Ok records → records ≠ [] → (0 < maxMX p)%nat →
  hosts resolver p orderIPs orderMX domain = Ok cands →
  let names := host <$> cands in
  NoDup names ∧ (length names ≤ maxMX p)%nat ∧
  (∀ h, h ∈ names → ∃ r, Some r ∈ records ∧ mx_name r = h) ∧
  (∀ i j h h', (i < j)%nat → names !! i = Some h → names !! j = Some h' →
     ∃ r, Some r ∈ records ∧ mx_name r = h ∧
          ∀ r', Some r' ∈ records → mx_name r' = h' → mxPref r ≤ mxPref r') ∧
  (∀ r, Some r ∈ records → usable_mx r → mx_name r ∈ names ∨
     (length names = maxMX p ∧ ∀ h, h ∈ names →
        ∃ r', Some r' ∈ records ∧ mx_name r' = h ∧ mxPref r' ≤ mxPref r)).
Proof.
  intros Hmx Hne Hmax. unfold hosts. rewrite Hmx. destruct records as [|r0 records]; [done|].
  destruct (validMX (r0 :: records)) as [valid|] eqn:Ev; [|done]. cbn [res_bind].
  set (L := rotateGroups orderMX (length valid) (merge_sort mx_le valid)).
  destruct (rotateGroups_spec (length valid) (merge_sort mx_le valid)) as [HLs HLp].
  { by rewrite merge_sort_Permutation. }
  { apply sorted_valid. }
  fold L in HLs, HLp. rewrite merge_sort_Permutation in HLp.
  assert (HL : ∀ r, r ∈ L ↔ Some r ∈ r0 :: records).
  { intros r. rewrite HLp. by apply validMX_elem. }
  destruct (pickHosts_spec L L [] [] eq_refl HLs) as (D' & [Hnd HD Hfrom Hall Hord] & Hout & Hlen); [|done|].
  { split; [apply NoDup_nil_2| | | |done]; intros x Hx; by apply elem_of_nil in Hx. }
  destruct (pickHosts p L []) as [|h0 names] eqn:Ep; [done|]. intros Hc.
  assert (cands = (λ h, mkCandidate h None) <$> h0 :: names) as -> by congruence. clear Hc.
  assert (Hns : host <$> ((λ h, mkCandidate h None) <$> h0 :: names) = h0 :: names).
  { rewrite <-list_fmap_compose. apply list_fmap_id. }
  cbv zeta. rewrite Hns. clear Hns.
  set (ns := h0 :: names) in *. clearbody ns.
  split_and!; [done|done| | |].
  - intros h Hh. destruct (Hfrom h Hh) as (r & Hr & <-). exists r. split; [|done]. by apply HL, HD.
  - intros i j h h' Hij Hi Hj. destruct (Hord i j h h' Hij Hi Hj) as (r & Hr & <- & Hmin).
    exists r. split_and!; [by apply HL|done|]. intros r' Hr'%HL. by apply Hmin.
  - intros r Hr%HL Hu. destruct (Hout r Hr Hu) as [|[He Hx]]; [by left|]. right. split; [done|].
    intros h Hh. destruct (Hx h Hh) as (r' & Hr' & <- & Hle). exists r'. split_and!; [by apply HL|done|done].
Qed.
End discovery_facts.

(** ** A domain with four records *)

Definition sampleDnsPolicy : dnsPolicy := mkDnsPolicy "" "" false ∅ 2 4.

Definition sampleRecords : list (option MX) :=
  [Some (mkMX "Backup.example." 20); None; Some (mkMX "mx.example." 10); Some (mkMX "mx.example" 30);
   Some (mkMX "third.example." 40)].

Definition sampleResolver : Resolver :=
  mkResolver (λ _, Ok sampleRecords)
    (λ _ _, Ok [[10; 0; 0; 1]; mapped_prefix ++ [93; 184; 216; 34]; [93; 184; 216; 34]]).

Lemma lookup_public_witness :
  lookupHostIPs sampleResolver sampleDnsPolicy id "mx.example" = Ok [[93; 184; 216; 34]] ∧
  NoDup [[93; 184; 216; 34]] ∧ Restricted [93; 184; 216; 34] = false.
Proof.
  assert (lookupHostIPs sampleResolver sampleDnsPolicy id "mx.example" = Ok [[93; 184; 216; 34]]) as Hl
    by (vm_compute; reflexivity).
  destruct (lookup_public sampleResolver sampleDnsPolicy id (λ _, Permutation_refl _) _ _ Hl)
    as (Hn & _ & Hp).
  split_and!; [exact Hl|exact Hn|].
  destruct (Hp [93; 184; 216; 34] ltac:(by left)) as [[Ha|[Ha|Ha]] _]; [discriminate Ha| |exact Ha].
  vm_compute in Ha. discriminate Ha.
Defined.

Lemma hosts_by_preference_witness :
  hosts (H := asciiTables) sampleResolver sampleDnsPolicy id id "example" =
    Ok [mkCandidate "mx.example" None; mkCandidate "backup.example" None] ∧
  NoDup ["mx.example"; "backup.example"].
Proof.
  assert (hosts (H := asciiTables) sampleResolver sampleDnsPolicy id id "example" =
    Ok [mkCandidate "mx.example" None; mkCandidate "backup.example" None]) as Hh
    by (vm_compute; reflexivity).
  destruct (hosts_by_preference (H := asciiTables) sampleResolver sampleDnsPolicy id id
              (λ _, Permutation_refl _) "example" sampleRecords _ eq_refl
              ltac:(discriminate) ltac:(cbn; lia) Hh) as [Hn _].
  split; [exact Hh|exact Hn].
Defined.
