(* ===== verification/IpText.v ===== *)
(** * Addresses from text (net/netip.ParseAddr, net.ParseIP)

    The configuration, the DNS advice and the rejection listener read addresses
    written by people.  [ParseAddr] reads the dotted form and the RFC 4291 forms with
    "::", a trailing dotted quad and a zone; [ParseIP] is the same without zones.
    [ParseAddr_v4] says that an IPv4 address survives being printed and read. *)

From S2P Require Import Prelude Errors GoLib Text Netpolicy Discovery.
Open Scope Z_scope.

Definition errAddr : error := Message "unable to parse IP".

(** [parseIPv4Fields]: [fields] done, the value and digits of the current one, and
    whether the last byte was a dot (the start counts as one). *)
Fixpoint parseIPv4Fields (fields : list Z) (val : Z) (digits : nat) (s : bytes) : res (list Z) :=
  match s with
  | [] => if (length fields <? 3)%nat || (digits =? 0)%nat then Err errAddr else Ok (fields ++ [val])
  | c :: s =>
      if is_digit c then
        reject (digits =? 1)%nat && (val =? 0) with errAddr in
        let val := val * 10 + (byte_val c - 48) in
        reject 255 <? val with errAddr in
        parseIPv4Fields fields val (S digits) s
      else if is_char 46 c then
        reject (digits =? 0)%nat with errAddr in
        reject (length fields =? 3)%nat with errAddr in
        parseIPv4Fields (fields ++ [val]) 0 0 s
      else Err errAddr
  end.

(** The hexadecimal number at the front: digits read and value. *)
Fixpoint hexField (digits : nat) (acc : Z) (s : bytes) : res (nat * Z * bytes) :=
  match s with
  | [] => Ok (digits, acc, s)
  | c :: s' =>
      match (if is_digit c then Some (byte_val c - 48)
             else if between 97 102 c then Some (byte_val c - 97 + 10)
             else if between 65 70 c then Some (byte_val c - 65 + 10) else None) with
      | None => Ok (digits, acc, s)
      | Some d =>
          reject (3 <? digits)%nat with errAddr in
          hexField (S digits) (acc * 16 + d) s'
      end
  end.

(** The loop of [parseIPv6] over the fields: the bytes read and where "::" stood.
    Every round reads two of the sixteen bytes, so eight rounds are enough. *)
Fixpoint parseGroups (fuel : nat) (ip : list Z) (ellipsis : option nat) (s : bytes)
    : res (list Z * option nat) :=
  match fuel with
  | O => if bool_decide (s = []) then Ok (ip, ellipsis) else Err errAddr
  | S fuel =>
      let? (digits, acc, rest) := hexField 0 0 s in
      reject (digits =? 0)%nat with errAddr in
      match rest with
      | [] => Ok (ip ++ [acc / 256; acc mod 256], ellipsis)
      | c :: after =>
          if is_char 46 c then
            reject bool_decide (ellipsis = None) && negb (length ip =? 12)%nat with errAddr in
            reject (16 <? length ip + 4)%nat with errAddr in
            let? quad := parseIPv4Fields [] 0 0 s in
            Ok (ip ++ quad, ellipsis)
          else
            reject negb (is_char 58 c) with errAddr in
            let ip := ip ++ [acc / 256; acc mod 256] in
            match after with
            | [] => Err errAddr
            | d :: after' =>
                if is_char 58 d then
                  match ellipsis with
                  | Some _ => Err errAddr
                  | None =>
                      match after' with
                      | [] => Ok (ip, Some (length ip))
                      | _ => parseGroups fuel ip (Some (length ip)) after'
                      end
                  end
                else parseGroups fuel ip ellipsis after
            end
      end
  end.

Definition expand (ip : list Z) (ellipsis : option nat) : res IP :=
  if (length ip <? 16)%nat then
    match ellipsis with
    | None => Err errAddr
    | Some e => Ok (take e ip ++ repeat 0 (16 - length ip) ++ drop e ip)
    end
  else if bool_decide (ellipsis = None) then Ok ip else Err errAddr.

(** The address and its zone. *)
Definition parseIPv6 (text : bytes) : res (IP * string) :=
  let '(s, zone, zoned) := cut_byte 37 text in
  reject zoned && bool_decide (zone = []) with errAddr in
  let '(s, ellipsis) :=
    match s with
    | c :: d :: s' => if is_char 58 c && is_char 58 d then (s', Some 0%nat) else (s, None)
    | _ => (s, None)
    end in
  if bool_decide (ellipsis = Some 0%nat) && bool_decide (s = []) then Ok (repeat 0 16, of_list zone)
  else
    let? (ip, ellipsis) := parseGroups 8 [] ellipsis s in
    let? ip := expand ip ellipsis in
    Ok (ip, of_list zone).

(** The first byte that tells the kind of address. *)
Fixpoint addrKind (s : bytes) : option ascii :=
  match s with
  | [] => None
  | c :: s => if is_char 46 c || is_char 58 c || is_char 37 c then Some c else addrKind s
  end.

Definition ParseAddr (text : string) : res (IP * string) :=
  let s := str_list text in
  match addrKind s with
  | Some c =>
      if is_char 46 c then let? ip := parseIPv4Fields [] 0 0 s in Ok (ip, "")
      else if is_char 58 c then parseIPv6 s
      else Err errAddr
  | None => Err errAddr
  end.

Definition Is4 (ip : IP) : bool := (length ip =? 4)%nat.

Definition ParseIP (text : string) : option IP :=
  match ParseAddr text with
  | Ok (ip, zone) => if bool_decide (zone = "") then Some ip else None
  | Err _ => None
  end.

(** The text of an IPv4 address in the form the program prints, if it is one. *)
Definition canonicalIPv4 (text : string) : option string :=
  match ParseAddr text with
  | Ok (ip, _) => if Is4 ip then Some (ip_string ip) else None
  | Err _ => None
  end.

Example ParseAddr_sample :
  ParseAddr "203.0.113.7" = Ok ([203; 0; 113; 7], "") ∧
  ParseAddr "203.0.113.07" = Err errAddr ∧
  ParseAddr "1.2.3" = Err errAddr ∧
  ParseAddr "2001:db8::1" = Ok ([32; 1; 13; 184; 0; 0; 0; 0; 0; 0; 0; 0; 0; 0; 0; 1], "") ∧
  ParseAddr "::ffff:1.2.3.4%eth0" = Ok (mapped_prefix ++ [1; 2; 3; 4], "eth0") ∧
  ParseAddr "1:2:3:4:5:6:7:8" = Ok ([0; 1; 0; 2; 0; 3; 0; 4; 0; 5; 0; 6; 0; 7; 0; 8], "") ∧
  ParseAddr "1:2:3:4:5:6:7::8" = Err errAddr ∧
  ParseAddr "::" = Ok (repeat 0 16, "") ∧ ParseAddr "1:2:3:4:5:6:7:8:9" = Err errAddr.
Proof. vm_compute. tauto. Qed.

(** ** An IPv4 address survives being printed and read *)

Definition decimal (n : Z) : bytes :=
  (if n <? 10 then [] else (if n <? 100 then [] else [chr (48 + n / 100)]) ++ [chr (48 + (n / 10) mod 10)])
  ++ [chr (48 + n mod 10)].

Lemma In_byte n : is_byte n → In n (seqZ 0 256).
Proof. unfold is_byte. intros Hn. apply list_elem_of_In, elem_of_seqZ. lia. Qed.

Lemma FormatUint_byte n : is_byte n → str_list (FormatUint n) = decimal n.
Proof.
  intros Hn.
  assert (Hall : forallb (λ k, bool_decide (str_list (FormatUint k) = decimal k)) (seqZ 0 256) = true)
    by (vm_compute; reflexivity).
  rewrite forallb_forall in Hall. exact (bool_decide_eq_true_1 _ (Hall n (In_byte n Hn))).
Qed.

(** One more digit of a field. *)
Lemma parse_digit fields val digits d s :
  0 ≤ d < 10 → (digits = 1%nat → val ≠ 0) → val * 10 + d ≤ 255 →
  parseIPv4Fields fields val digits (chr (48 + d) :: s) = parseIPv4Fields fields (val * 10 + d) (S digits) s.
Proof.
  intros Hd Hz Hv. cbn [parseIPv4Fields]. unfold is_digit, between. rewrite byte_val_chr by lia.
  rewrite (proj2 (Z.leb_le 48 (48 + d))), (proj2 (Z.leb_le (48 + d) 57)) by lia. cbn [andb].
  replace ((digits =? 1)%nat && (val =? 0)) with false.
  2:{ symmetry. apply andb_false_iff. rewrite Nat.eqb_neq, Z.eqb_neq. destruct (decide (digits = 1%nat)); auto. }
  replace (48 + d - 48) with d by lia. by rewrite (proj2 (Z.ltb_ge 255 _)).
Qed.

Lemma parse_decimal fields n s : is_byte n →
  ∃ k, (0 < k)%nat ∧ parseIPv4Fields fields 0 0 (decimal n ++ s) = parseIPv4Fields fields n k s.
Proof.
  unfold is_byte. intros Hn. unfold decimal.
  pose proof (Z.div_mod n 10) as E1. pose proof (Z.mod_pos_bound n 10) as B1.
  destruct (Z.ltb_spec n 10) as [H10|H10].
  { exists 1%nat. split; [lia|]. cbn [app]. rewrite parse_digit by lia. f_equal. lia. }
  pose proof (Z.div_mod (n / 10) 10) as E2. pose proof (Z.mod_pos_bound (n / 10) 10) as B2.
  assert (Hdd : n / 10 / 10 = n / 100) by (by rewrite Z.div_div by lia).
  destruct (Z.ltb_spec n 100) as [H100|H100].
  - exists 2%nat. split; [lia|]. cbn [app].
    assert ((n / 10) mod 10 = n / 10) as -> by (apply Z.mod_small; split; [apply Z.div_pos; lia|apply Z.div_lt_upper_bound; lia]).
    assert (1 ≤ n / 10 ≤ 9) by (split; [apply Z.div_le_lower_bound|]; lia).
    rewrite !parse_digit by lia. f_equal. lia.
  - exists 3%nat. split; [lia|]. cbn [app].
    assert (1 ≤ n / 100 ≤ 2) by (split; [apply Z.div_le_lower_bound; lia|apply Z.lt_succ_r, Z.div_lt_upper_bound; lia]).
    rewrite !parse_digit by lia. f_equal. lia.
Qed.

Lemma parse_dot fields n k s : (0 < k)%nat → (length fields < 3)%nat →
  parseIPv4Fields fields n k (chr 46 :: s) = parseIPv4Fields (fields ++ [n]) 0 0 s.
Proof.
  intros Hk Hf. cbn [parseIPv4Fields]. change (is_digit (chr 46)) with false. change (is_char 46 (chr 46)) with true.
  cbn iota. rewrite (proj2 (Nat.eqb_neq k 0)), (proj2 (Nat.eqb_neq (length fields) 3)) by lia. done.
Qed.

Lemma addrKind_decimal n s : is_byte n → addrKind (decimal n ++ s) = addrKind s.
Proof.
  intros Hn.
  assert (Hall : forallb (λ k, forallb (λ c, negb (is_char 46 c || is_char 58 c || is_char 37 c)) (decimal k)) (seqZ 0 256) = true)
    by (vm_compute; reflexivity).
  rewrite forallb_forall in Hall. specialize (Hall n (In_byte n Hn)).
  induction (decimal n) as [|c l IH]; [done|]. cbn [forallb] in Hall. apply andb_true_iff in Hall as [Hc Hl].
  cbn [app addrKind]. apply negb_true_iff in Hc. by rewrite Hc, IH.
Qed.

Lemma ParseAddr_v4 a b c d : is_byte a → is_byte b → is_byte c → is_byte d →
  ParseAddr (ip_string [a; b; c; d]) = Ok ([a; b; c; d], "").
Proof.
  intros Ha Hb Hc Hd.
  assert (Hs : str_list (ip_string [a; b; c; d])
            = decimal a ++ chr 46 :: decimal b ++ chr 46 :: decimal c ++ chr 46 :: decimal d ++ []).
  { unfold ip_string, To4. cbn [length Nat.eqb]. rewrite !fmap_cons, fmap_nil.
    cbn [join_with fold_left]. rewrite !str_list_app, !FormatUint_byte by done.
    change (str_list ".") with [chr 46]. rewrite app_nil_r, <-!app_assoc. done. }
  unfold ParseAddr. rewrite Hs, addrKind_decimal by done. cbn [addrKind].
  change (is_char 46 (chr 46)) with true. cbn [orb].
  repeat match goal with
  | H : is_byte ?x |- context [parseIPv4Fields ?f 0 0 (decimal ?x ++ ?s)] =>
      let k := fresh "k" in let Hk := fresh "Hk" in let E := fresh "E" in
      destruct (parse_decimal f x s H) as (k & Hk & E); rewrite E; clear E; try (rewrite parse_dot by (cbn; lia))
  end.
  cbn [parseIPv4Fields length app Nat.ltb Nat.leb orb]. by rewrite (proj2 (Nat.eqb_neq _ 0)) by lia.
Qed.

(** What [netip.ParseAddr] accepts of the dotted form is an address of four bytes. *)
Lemma parseIPv4Fields_bytes fields val digits s ip :
  parseIPv4Fields fields val digits s = Ok ip → Forall is_byte fields → (length fields ≤ 3)%nat → is_byte val →
  Forall is_byte ip ∧ length ip = 4%nat.
Proof.
  revert fields val digits. induction s as [|c s IH]; intros fields val digits; cbn [parseIPv4Fields].
  { destruct (length fields <? 3)%nat eqn:El; [done|]. destruct (digits =? 0)%nat; [done|]. intros [= <-] Hf Hn Hv.
    apply Nat.ltb_ge in El. split; [apply Forall_app; auto|]. rewrite length_app. cbn. lia. }
  destruct (is_digit c) eqn:Ed.
  - destruct (_ && _); [done|]. destruct (Z.ltb_spec 255 (val * 10 + (byte_val c - 48))); [done|].
    intros He Hf Hn Hv. apply IH in He; [done..|]. unfold is_digit, between in Ed. unfold is_byte in *. lia.
  - destruct (is_char 46 c); [|done]. destruct (digits =? 0)%nat; [done|].
    destruct (Nat.eqb_spec (length fields) 3); [done|].
    intros He Hf Hn Hv. apply IH in He; [done|apply Forall_app; auto|rewrite length_app; cbn; lia|unfold is_byte; lia].
Qed.

(** An address of four bytes was written in the dotted form. *)
Lemma ParseAddr_is4 text ip z : ParseAddr text = Ok (ip, z) → Is4 ip = true → Forall is_byte ip ∧ length ip = 4%nat.
Proof.
  intros E E4. unfold ParseAddr in E. destruct (addrKind (str_list text)) as [c|]; [|done]. destruct (is_char 46 c).
  - destruct (parseIPv4Fields [] 0 0 _) as [q|] eqn:Eq; [|done]. injection E as <- _.
    apply (parseIPv4Fields_bytes _ _ _ _ _ Eq); [done|cbn; lia|unfold is_byte; lia].
  - exfalso. destruct (is_char 58 c); [|done]. unfold Is4 in E4. apply Nat.eqb_eq in E4.
    unfold parseIPv6 in E. destruct (cut_byte 37 _) as [[s zone] zoned]. destruct (_ && _); [done|].
    destruct (match s with [] => _ | _ => _ end) as [s' el]. destruct (_ && _).
    { injection E as <- _. done. }
    destruct (parseGroups _ _ _ _) as [[g e]|]; [|done]. cbn [res_bind] in E.
    destruct (expand g e) as [x|] eqn:Ex; [|done]. injection E as -> _. unfold expand in Ex.
    destruct (Nat.ltb_spec (length g) 16).
    + destruct e as [e|]; [|done]. injection Ex as <-.
      rewrite !length_app, repeat_length, length_drop, length_take in E4. lia.
    + destruct (bool_decide _); [|done]. injection Ex as ->. lia.
Qed.

(** The text of a printed IPv4 address is that of four bytes. *)
Lemma canonicalIPv4_bytes text t : canonicalIPv4 text = Some t →
  ∃ a b c d, is_byte a ∧ is_byte b ∧ is_byte c ∧ is_byte d ∧ t = ip_string [a; b; c; d].
Proof.
  unfold canonicalIPv4. destruct (ParseAddr text) as [[ip z]|] eqn:E; [|done].
  destruct (Is4 ip) eqn:E4; [|done]. intros [= <-]. destruct (ParseAddr_is4 _ _ _ E E4) as [Hb Hl].
  destruct ip as [|a [|b [|c [|d [|]]]]]; try done. rewrite !Forall_cons in Hb. exists a, b, c, d. by destruct_and! Hb.
Qed.

(** Printing what was read and reading it again changes nothing. *)
Lemma canonicalIPv4_idem text t : canonicalIPv4 text = Some t → canonicalIPv4 t = Some t.
Proof.
  intros (a & b & c & d & Ha & Hb & Hc & Hd & ->)%canonicalIPv4_bytes. unfold canonicalIPv4. by rewrite ParseAddr_v4.
Qed.
