(* ===== verification/Config.v ===== *)
(** * Configuration (src/internal/config: types.go, limits.go, config.go, defaults.go,
      domains.go, users.go, report_uri.go, spf.go, runtime.go, readiness.go, validate.go)

    The settings as Go's structs, their defaults, canonical form and validation.
    [Validate] rewrites what it accepts (addresses, senders, domains), so it returns
    the configuration as it leaves it; a configuration it refuses is dropped by every
    caller.  Reading and writing YAML is not modelled: a [Config] is what the decoder
    produced.  Parameters: the working directory, net/url's [Parse], net/mail's
    [ParseAddress], the IDNA profile, and the scaling of fractions in
    [time.ParseDuration].  ConfigFacts.v has what validation guarantees. *)

From S2P Require Import Prelude Errors GoLib Capacity Utf8 Mailbox Text Password Paths Duration Users.
From S2P Require Import Netpolicy Discovery IpText.
Open Scope Z_scope.

(** ** Limits (limits.go) *)

Definition DataMemoryBudget : Z := Z.shiftl 512 20.
Definition DataMemoryCopies : Z := 8.
Definition DataMemoryOverhead : Z := Z.shiftl 1 20 + 1000 * 128.
Definition MaxDataWorkers : Z := 8.
Definition limMessageBytes : Z := (DataMemoryBudget - DataMemoryOverhead) / DataMemoryCopies.
Definition limRecipients : Z := 1000.
Definition limMessagesPerHour : Z := 1000000.
Definition limRecipientsPerHour : Z := 10000000.
Definition MaxMessageBurst : Z := limMessagesPerHour.
Definition MaxRecipientBurst : Z := limRecipientsPerHour.
Definition MaxDeliveryAttempts : Z := 100.
Definition MaxDomainConcurrency : Z := 64.
Definition MaxGlobalConcurrency : Z := 256.
Definition MaxUserConcurrency : Z := 64.
Definition limMXCandidates : Z := 100.
Definition limIPCandidatesPerMX : Z := 64.
Definition limConnections : Z := 3840.
Definition limConnectionsPerIP : Z := 256.
Definition MaxReplyConnections : Z := 1024.
Definition MaxReplyConnectionsPerIP : Z := 64.
Definition MaxAuthWorkers : Z := 8.
Definition MaxOpenPGPIdentities : Z := 1000.
Definition SPFDNSLookupLimit : Z := 10.
Definition MaxDomains : Z := 128.

Definition Second : Z := 1000000000.
Definition Minute : Z := 60 * Second.
Definition Hour : Z := 60 * Minute.

Definition MaxSMTPReadTimeout : Z := 30 * Minute.
Definition MaxSMTPWriteTimeout : Z := 30 * Minute.
Definition MaxReplyReadTimeout : Z := 5 * Minute.
Definition MaxReplyWriteTimeout : Z := 5 * Minute.
Definition MaxDeadRetention : Z := 365 * 24 * Hour.
Definition MaxCorruptRetention : Z := 365 * 24 * Hour.
Definition MaxDeliveryLifetime : Z := 30 * 24 * Hour.
Definition MaxInitialRetryDelay : Z := 24 * Hour.
Definition MaxRetryDelay : Z := 7 * 24 * Hour.
Definition MaxDeliveryDNSTimeout : Z := 2 * Minute.
Definition MaxDeliveryAttemptTimeout : Z := Hour.
Definition MaxDeliveryConnectionTimeout : Z := 2 * Minute.
Definition MaxDeliveryCommandTimeout : Z := 10 * Minute.
Definition MaxDeliverySubmissionTimeout : Z := 30 * Minute.

(** ** Settings (types.go, config.go) *)

Record Server := mkServerSettings {
  sHostname : string;
  sMaxMessageBytes : Z;
  sMaxRecipients : Z;
  sMaxMessagesPerHour : Z;
  sMaxRecipientsPerHour : Z;
  sMessageBurst : Z;
  sRecipientBurst : Z;
  sIncludeClientIPInReceived : bool;
  sReadTimeout : string;
  sWriteTimeout : string;
  sDataDirectory : string;
  sSubmissionAddr : string;
  sImplicitTLSAddr : string;
  sDisableSubmission : bool;
  sDisableImplicitTLS : bool;
  sMaxConnections : Z;
  sMaxConnectionsPerIP : Z;
  sAuthWorkers : Z;
  sMaxQueueMessages : Z;
  sMaxQueueBytes : Z;
  sMaxQueueMessagesPerUser : Z;
  sMaxQueueBytesPerUser : Z;
  sMaxSpoolBytes : Z;
  sSpoolEmergencyBytes : Z;
  sMinFreeDiskBytes : Z;
  sDeadRetention : string;
  sCorruptRetention : string
}.

Record ReplyRejectionRecipient := mkReplyRecipient { rrAddress : string; rrMessage : string }.

Record ReplyRejection := mkReplyRejection {
  rrEnabled : bool;
  rrListenAddr : string;
  rrUnknownRecipients : string;
  rrDefaultMessage : string;
  rrDomains : list string;
  rrRecipients : list ReplyRejectionRecipient;
  rrMaxConnections : Z;
  rrMaxConnectionsPerIP : Z;
  rrReadTimeout : string;
  rrWriteTimeout : string
}.

Record TLS := mkTLSSettings {
  tMode : string;
  tAllowSelfSignedServing : bool;
  tCertificateFile : string;
  tPrivateKeyFile : string;
  tMinimumVersion : string
}.

Record DKIM := mkDKIM { kSelector : string; kPrivateKeyFile : string; kHeaders : option (list string) }.

Record Domain := mkDomain { dName : string; dDKIM : DKIM }.

Record OpenPGPIdentity := mkIdentity {
  iSender : string;
  iSigningKey : string;
  iPassphraseFile : string;
  iSigning : string;
  iAutocrypt : bool
}.

Record OpenPGP := mkOpenPGP {
  pIdentities : list OpenPGPIdentity;
  pRecipientKeysDirectory : string;
  pRequireEncryptionFor : list string;
  pUseWKD : bool;
  pWKDCacheDirectory : string
}.

Record Delivery := mkDelivery {
  vTLSMode : string;
  vAllowPlaintext : option bool;
  vMaxAttempts : Z;
  vMaximumLifetime : string;
  vInitialRetryDelay : string;
  vMaximumRetryDelay : string;
  vDomainConcurrency : Z;
  vGlobalConcurrency : Z;
  vUserConcurrency : Z;
  vDNSTimeout : string;
  vAttemptTimeout : string;
  vMaxMXCandidates : Z;
  vMaxIPCandidatesPerMX : Z;
  vConnectionTimeout : string;
  vCommandTimeout : string;
  vSubmissionTimeout : string;
  vRequireValidMXTLSCert : bool;
  vBindIPv4 : string;
  vBindIPv6 : string;
  vAllowPrivateDestinations : bool;
  vDestinationAllowlist : list string
}.

Record DNS := mkDNS {
  nPublicIPv4 : string;
  nPublicIPv6 : string;
  nDMARC : string;
  nReportURI : string;
  nTLSRPTURI : string;
  nSPFIncludes : list string;
  nPublishOpenPGPKey : bool;
  nOutputFile : string
}.

Record Config := mkConfig {
  cPath : string;
  cBaseDir : string;
  cUserLookup : gmap string User;
  cLogLevel : string;
  cServer : Server;
  cReplyRejection : ReplyRejection;
  cTLS : TLS;
  cDomains : list Domain;
  cOpenPGP : OpenPGP;
  cDelivery : Delivery;
  cDNS : DNS;
  cUsers : list User
}.

Record durationEntry := mkDurationEntry { deName : string; deValue : string; deMax : Z }.

(** Updates of one part. *)
Definition with_lookup v c := mkConfig (cPath c) (cBaseDir c) v (cLogLevel c) (cServer c)
  (cReplyRejection c) (cTLS c) (cDomains c) (cOpenPGP c) (cDelivery c) (cDNS c) (cUsers c).
Definition with_replies v c := mkConfig (cPath c) (cBaseDir c) (cUserLookup c) (cLogLevel c) (cServer c)
  v (cTLS c) (cDomains c) (cOpenPGP c) (cDelivery c) (cDNS c) (cUsers c).
Definition with_openpgp v c := mkConfig (cPath c) (cBaseDir c) (cUserLookup c) (cLogLevel c) (cServer c)
  (cReplyRejection c) (cTLS c) (cDomains c) v (cDelivery c) (cDNS c) (cUsers c).
Definition with_delivery v c := mkConfig (cPath c) (cBaseDir c) (cUserLookup c) (cLogLevel c) (cServer c)
  (cReplyRejection c) (cTLS c) (cDomains c) (cOpenPGP c) v (cDNS c) (cUsers c).
Definition with_dns v c := mkConfig (cPath c) (cBaseDir c) (cUserLookup c) (cLogLevel c) (cServer c)
  (cReplyRejection c) (cTLS c) (cDomains c) (cOpenPGP c) (cDelivery c) v (cUsers c).
Definition with_users v c := mkConfig (cPath c) (cBaseDir c) (cUserLookup c) (cLogLevel c) (cServer c)
  (cReplyRejection c) (cTLS c) (cDomains c) (cOpenPGP c) (cDelivery c) (cDNS c) v.

Definition SubmissionListenAddr (s : Server) : string := if sDisableSubmission s then "" else sSubmissionAddr s.
Definition ImplicitTLSListenAddr (s : Server) : string := if sDisableImplicitTLS s then "" else sImplicitTLSAddr s.

Definition PlaintextAllowed (d : Delivery) : bool :=
  if bool_decide (vTLSMode d = "required") then false
  else match vAllowPlaintext d with Some b => b | None => false end.

Definition InsecureTLSAllowed (d : Delivery) : bool :=
  if bool_decide (vTLSMode d = "opportunistic_insecure") then true
  else bool_decide (vTLSMode d = "opportunistic") && negb (vRequireValidMXTLSCert d).

(** [tls.VersionTLS13] and [tls.VersionTLS12]. *)
Definition MinimumTLSVersion (cfg : Config) : Z :=
  if bool_decide (tMinimumVersion (cTLS cfg) = "1.3") then 772 else 771.

(** [strings.TrimSuffix]. *)
Definition TrimSuffix (s suffix : string) : string :=
  if HasSuffix s suffix then str_take (String.length s - String.length suffix) s else s.

(** ** Names *)

(** [validateDNSLabel]: a byte outside ASCII never is part of an accepted rune. *)
Definition validateDNSLabel (name label : string) : res unit :=
  reject bool_decide (label = "") || (63 <? str_len label) || HasPrefix label "-" || HasSuffix label "-"
    with Message ("invalid " +:+ name) in
  reject negb (forallb (λ c, is_char 45 c || is_alnum c) (str_list label))
    with Message ("invalid " +:+ name) in
  Ok tt.

Fixpoint validateLabels (name : string) (labels : list string) : res unit :=
  match labels with
  | [] => Ok tt
  | label :: labels => let? _ := validateDNSLabel name label in validateLabels name labels
  end.

Definition validateDomain (name domain : string) : res unit :=
  reject (253 <? str_len domain) || HasPrefix domain "." || HasSuffix domain "."
    with Message ("invalid " +:+ name) in
  validateLabels name (Split domain 46).

(** The bytes 33 to 126 without the colon; [unicode.IsControl] adds none. *)
Definition validateHeaderName (name : string) : res unit :=
  reject bool_decide (name = "") with Message "empty header name" in
  reject negb (forallb (λ c, between 33 126 c && negb (is_char 58 c)) (str_list name))
    with Message "invalid header name" in
  Ok tt.

Definition validateResponseMessage (name message : string) : res unit :=
  reject bool_decide (message = "") || (256 <? str_len message)
    with Message (name +:+ " must contain 1 to 256 ASCII characters") in
  reject negb (forallb (between 32 126) (str_list message))
    with Message (name +:+ " must contain only printable ASCII characters") in
  Ok tt.

Fixpoint validateHeaders (seen : gset string) (lower : string → string) (headers : list string)
    : res (gset string) :=
  match headers with
  | [] => Ok seen
  | header :: headers =>
      let? _ := validateHeaderName header in
      let canonical := lower header in
      reject bool_decide (canonical ∈ seen) with Message "duplicate" in
      validateHeaders ({[canonical]} ∪ seen) lower headers
  end.

(** ** Report addresses (report_uri.go) *)

(** What the code reads of a [url.URL]. *)
Record URL := mkURL {
  uScheme : string;
  uOpaque : string;
  uHost : string;
  uHostname : string;
  uPort : string;
  uRawQuery : string;
  uFragment : string;
  uHasUser : bool
}.

(** net/url's [Parse]. *)
Class UrlParser := { ParseURL : string → res URL }.

(** The Kelvin sign, which (?i) folds with the letter k. *)
Definition kelvin : bytes := [chr 226; chr 132; chr 170].

Definition is_unit (c : ascii) : bool :=
  existsb (λ z, is_char z c) [107; 109; 103; 116; 75; 77; 71; 84].

(** [reportSizeRE.FindStringIndex], (?i)![0-9]+[kmgt]?$: the start of the match.  A
    match reaches the end and holds one "!", so it is found from the end. *)
Definition reportSize (s : bytes) : option nat :=
  let r := rev s in
  let r := match r with
           | c :: r' => if is_unit c then r' else if is_prefix (rev kelvin) r then drop 3 r else r
           | [] => r
           end in
  let r' := drop_while is_digit r in
  if (length r' =? length r)%nat then None
  else match r' with
       | c :: before => if is_char 33 c then Some (length before) else None
       | [] => None
       end.

(** [strconv.Atoi]. *)
Definition Atoi (s : string) : option Z :=
  let '(neg, l) := match str_list s with
                   | c :: l => if is_char 45 c then (true, l) else if is_char 43 c then (false, l) else (false, c :: l)
                   | [] => (false, [])
                   end in
  if bool_decide (l = []) || negb (forallb is_digit l) then None
  else
    let n := fold_left (λ acc c, acc * 10 + (byte_val c - 48)) l 0 in
    let n := if neg : bool then - n else n in
    if (MinInt64 <=? n) && (n <=? MaxInt64) then Some n else None.

Section config.
Context `{CaseTables} `{AddressParser} `{UrlParser}.
Variable ToASCII : string → res string.
Variable scaled : Z → Z → Z → Z.
Variable cwd : string.

Definition errMailto : error := Message "invalid mailto URI".
Definition errHTTPS : error := Message "invalid HTTPS report URI".

Definition validateMailto (u : URL) : res unit :=
  reject negb (bool_decide (uHost u = "")) || negb (bool_decide (uRawQuery u = ""))
         || negb (bool_decide (uFragment u = "")) with errMailto in
  match ParseAddress (uOpaque u) with
  | Err _ => Err errMailto
  | Ok (name, address) =>
      reject negb (bool_decide (name = "")) || negb (bool_decide (address = uOpaque u))
             || negb (length (filter (λ c, is_char 64 c = true) (str_list address)) =? 1)%nat with errMailto in
      match validateDomain "report mailbox domain" (ToLowerText (after_at address (LastIndexByte address 64))) with
      | Err _ => Err errMailto
      | Ok _ => Ok tt
      end
  end.

Definition validateHTTPS (u : URL) : res unit :=
  reject bool_decide (uHost u = "") || bool_decide (uHostname u = "") || uHasUser u
         || negb (bool_decide (uFragment u = "")) || negb (bool_decide (uOpaque u = "")) with errHTTPS in
  let host := ToLowerText (uHostname u) in
  reject bool_decide (ParseIP host = None)
         && match validateDomain "HTTPS report host" host with Ok _ => false | Err _ => true end with errHTTPS in
  if bool_decide (uPort u = "") then Ok tt
  else
    match Atoi (uPort u) with
    | None => Err (Message "invalid HTTPS report URI port")
    | Some n => reject (n <? 1) || (65535 <? n) with Message "invalid HTTPS report URI port" in Ok tt
    end.

Definition validateReportURI (uri : string) (dmarc : bool) : res unit :=
  let base := TrimSpace uri in
  let base := if dmarc then match reportSize (str_list base) with Some i => str_take i base | None => base end
              else base in
  match ParseURL base with
  | Err e => Err (Wrap "invalid report URI" e)
  | Ok u =>
      let scheme := ToLowerText (uScheme u) in
      if bool_decide (scheme = "mailto") then validateMailto u
      else if bool_decide (scheme = "https") then validateHTTPS u
      else Err (Message "unsupported report URI scheme")
  end.

Fixpoint validateReportURIs (dmarc : bool) (uris : list string) : res unit :=
  match uris with
  | [] => Ok tt
  | uri :: uris =>
      let uri := TrimSpace uri in
      reject bool_decide (uri = "") with Message "empty report URI entry" in
      let? _ := validateReportURI uri dmarc in
      validateReportURIs dmarc uris
  end.

Definition validateReportURIList (value : string) (dmarc : bool) : res unit :=
  if bool_decide (TrimSpace value = "") then Ok tt else validateReportURIs dmarc (Split value 44).

Definition ValidateDMARCReportURIList (value : string) : res unit := validateReportURIList value true.
Definition ValidateTLSReportURIList (value : string) : res unit := validateReportURIList value false.

(** ** Domains (domains.go) *)

(** One round of [DomainFor]: a longer matching name replaces the match so far. *)
Definition closer (name : string) (matched : option Domain) (domain : Domain) : option Domain :=
  if negb (bool_decide (name = dName domain)) && negb (HasSuffix name ("." +:+ dName domain)) then matched
  else
    match matched with
    | None => Some domain
    | Some m => if str_len (dName m) <? str_len (dName domain) then Some domain else matched
    end.

Definition DomainFor (cfg : Config) (name : string) : option Domain :=
  fold_left (closer (ToLowerText (TrimSuffix name "."))) (cDomains cfg) None.

Definition ResolveGenerated (cfg : Config) (path : string) : res string :=
  ResolveGeneratedPath cwd (cBaseDir cfg) (sDataDirectory (cServer cfg)) path.

Definition validateDKIMHeaders (headers : list string) : res unit :=
  let? seen := validateHeaders ∅ ToLowerText headers in
  reject negb (bool_decide ("from" ∈ seen)) with Message "must contain From" in
  reject negb (bool_decide ("sender" ∈ seen)) with Message "must contain Sender" in
  Ok tt.

Fixpoint validateDomainList (cfg : Config) (names paths : gset string) (domains : list Domain) : res unit :=
  match domains with
  | [] => Ok tt
  | domain :: domains =>
      let? _ := validateDomain "domains.name" (dName domain) in
      reject bool_decide (dName domain ∈ names) with Message "duplicate domain" in
      let? _ := validateDNSLabel "domains.dkim.selector" (kSelector (dDKIM domain)) in
      reject bool_decide (kPrivateKeyFile (dDKIM domain) = "")
        with Message "domains.dkim.private_key_file must not be empty" in
      match ResolveGenerated cfg (kPrivateKeyFile (dDKIM domain)) with
      | Err e => Err (Wrap "domains.dkim.private_key_file" e)
      | Ok path =>
          reject bool_decide (path ∈ paths)
            with Message "domains.dkim.private_key_file: domains must use distinct key paths" in
          match validateDKIMHeaders (default [] (kHeaders (dDKIM domain))) with
          | Err e => Err (Wrap "domains.dkim.headers" e)
          | Ok _ => validateDomainList cfg ({[dName domain]} ∪ names) ({[path]} ∪ paths) domains
          end
      end
  end.

Definition validateDomains (cfg : Config) : res unit :=
  reject bool_decide (cDomains cfg = []) || (MaxDomains <? Z.of_nat (length (cDomains cfg)))
    with Message "domains must contain between 1 and 128 entries" in
  validateDomainList cfg ∅ ∅ (cDomains cfg).

(** ** Accounts (users.go) *)

Definition argonPrefix : string := "{ARGON2ID}$argon2id$".

Definition isMigrationHash (hash : string) : bool :=
  (str_len argonPrefix <=? str_len hash) && EqualFold (str_take (String.length argonPrefix) hash) argonPrefix.

Definition errSender : error := Message "user has invalid sender".

(** One allowed sender in canonical form: the local part as written, the domain in
    lower case. *)
Definition canonicalSender (sender : string) : res string :=
  let sender := TrimSpace sender in
  if HasPrefix sender "*@" then
    let domain := TrimSpace (str_drop 2 sender) in
    reject bool_decide (domain = "") || contains_byte 64 domain with errSender in
    match validateDomain "allowed_senders" (ToLowerText domain) with
    | Err _ => Err errSender
    | Ok _ => Ok ("*@" +:+ ToLowerText domain)
    end
  else
    match Address_of ToASCII sender with
    | Err _ => Err errSender
    | Ok address =>
        let at_ := LastIndexByte address 64 in
        Ok (str_take (Z.to_nat at_) address +:+ "@" +:+ ToLowerText (after_at address at_))
    end.

Fixpoint canonicalSenders (seen : gset string) (senders : list string) : res (list string) :=
  match senders with
  | [] => Ok []
  | sender :: senders =>
      let? canonical := canonicalSender sender in
      reject bool_decide (canonical ∈ seen) with Message "user has duplicate sender" in
      let? rest := canonicalSenders ({[canonical]} ∪ seen) senders in
      Ok (canonical :: rest)
  end.

(** [User.Validate]: the account as it leaves it. *)
Definition validateUser (u : User) : res User :=
  let username := TrimSpace (uUsername u) in
  reject bool_decide (username = "") with Message "username must not be empty" in
  reject contains_byte 0 username || contains_byte 13 username || contains_byte 10 username
    with Message "invalid username" in
  reject negb (HasPrefix (PasswordHash u) "$argon2id$") && negb (isMigrationHash (PasswordHash u))
    with Message "user must have an Argon2id password hash" in
  reject bool_decide (AllowedSenders u = []) with Message "user has no allowed senders" in
  let? senders := canonicalSenders ∅ (AllowedSenders u) in
  Ok (mkAccount username (PasswordHash u) senders (Enabled u)).

Definition senderDomain (sender : string) : string :=
  ToLowerText (after_at sender (LastIndexByte sender 64)).

(** The loop over the users at the end of [Validate]. *)
Fixpoint validateUsers (cfg : Config) (usernames : gset string) (users : list User) : res (list User) :=
  match users with
  | [] => Ok []
  | user :: users =>
      match (let? user := validateUser user in
             let? _ := ValidatePHC (PasswordHash user) in
             Ok user) with
      | Err e => Err (Wrap "users" e)
      | Ok user =>
          reject existsb (λ s, bool_decide (DomainFor cfg (senderDomain s) = None)) (AllowedSenders user)
            with Message "users: sender is outside configured domains" in
          let username := canonicalUsername (uUsername user) in
          reject bool_decide (username ∈ usernames) with Message "duplicate username" in
          let? rest := validateUsers cfg ({[username]} ∪ usernames) users in
          Ok (user :: rest)
      end
  end.

(** ** Validation (validate.go) *)

Definition validateDuration (name value : string) (maximum : Z) : res unit :=
  match ParseDuration scaled value with
  | Err e => Err (Wrap name e)
  | Ok duration =>
      reject duration <=? 0 with Message (name +:+ " must be positive") in
      reject maximum <? duration with Message (name +:+ " must not exceed its maximum") in
      Ok tt
  end.

Fixpoint validateDurations (entries : list durationEntry) : res unit :=
  match entries with
  | [] => Ok tt
  | d :: entries =>
      let? _ := validateDuration (deName d) (deValue d) (deMax d) in
      validateDurations entries
  end.

Fixpoint validateReplyDomains (seen : gset string) (domains : list string) : res (gset string * list string) :=
  match domains with
  | [] => Ok (seen, [])
  | domain :: domains =>
      let? _ := validateDomain "reply_rejection.domains" domain in
      let canonical := ToLowerText domain in
      reject bool_decide (canonical ∈ seen) with Message "duplicate reply rejection domain" in
      let? (seen, rest) := validateReplyDomains ({[canonical]} ∪ seen) domains in
      Ok (seen, canonical :: rest)
  end.

Fixpoint validateReplyRecipients (domains recipients : gset string) (l : list ReplyRejectionRecipient)
    : res (list ReplyRejectionRecipient) :=
  match l with
  | [] => Ok []
  | recipient :: l =>
      match (let? address := Address_of ToASCII (rrAddress recipient) in
             let? domain := DomainOf ToASCII address in
             Ok (address, domain)) with
      | Err e => Err (Wrap "reply_rejection.recipients.address" e)
      | Ok (address, domain) =>
          reject negb (bool_decide (domain ∈ domains))
            with Message "reply_rejection recipient is outside configured domains" in
          let? _ := (if bool_decide (rrMessage recipient = "") then Ok tt
                     else validateResponseMessage "reply_rejection.recipients.message" (rrMessage recipient)) in
          let canonical := ToLowerText address in
          reject bool_decide (canonical ∈ recipients) with Message "duplicate reply rejection recipient" in
          let? rest := validateReplyRecipients domains ({[canonical]} ∪ recipients) l in
          Ok (mkReplyRecipient address (rrMessage recipient) :: rest)
      end
  end.

(** The settings of the rejection listener, domains and addresses in canonical form. *)
Definition validateReplyRejection (r : ReplyRejection) : res ReplyRejection :=
  reject bool_decide (rrListenAddr r = "") with Message "reply_rejection.listen_addr must not be empty" in
  reject negb (bool_decide (rrUnknownRecipients r = "listed_only")) && negb (bool_decide (rrUnknownRecipients r = "all"))
    with Message "reply_rejection.unknown_recipients must be listed_only or all" in
  let? _ := validateResponseMessage "reply_rejection.default_message" (rrDefaultMessage r) in
  reject (rrMaxConnections r <=? 0) || (MaxReplyConnections <? rrMaxConnections r)
         || (rrMaxConnectionsPerIP r <=? 0) || (MaxReplyConnectionsPerIP <? rrMaxConnectionsPerIP r)
         || (rrMaxConnections r <? rrMaxConnectionsPerIP r)
    with Message "reply rejection connection limits are invalid or exceed supported bounds" in
  let? _ := validateDuration "reply_rejection.read_timeout" (rrReadTimeout r) MaxReplyReadTimeout in
  let? _ := validateDuration "reply_rejection.write_timeout" (rrWriteTimeout r) MaxReplyWriteTimeout in
  let? (domains, names) := validateReplyDomains ∅ (rrDomains r) in
  reject rrEnabled r && bool_decide (domains = ∅)
    with Message "reply_rejection.domains must contain at least one domain when enabled" in
  let? recipients := validateReplyRecipients domains ∅ (rrRecipients r) in
  Ok (mkReplyRejection (rrEnabled r) (rrListenAddr r) (rrUnknownRecipients r) (rrDefaultMessage r)
        names recipients (rrMaxConnections r) (rrMaxConnectionsPerIP r) (rrReadTimeout r) (rrWriteTimeout r)).

Definition errRange (name : string) : error := Message (name +:+ " is out of range").

(** The server's numbers, listeners and directories. *)
Definition validateServerLimits (s : Server) : res unit :=
  reject (sMaxMessageBytes s <=? 0) || (limMessageBytes <? sMaxMessageBytes s)
    with errRange "server.max_message_bytes" in
  reject (sMaxRecipients s <=? 0) || (limRecipients <? sMaxRecipients s)
    with errRange "server.max_recipients" in
  reject (sMaxMessagesPerHour s <=? 0) || (limMessagesPerHour <? sMaxMessagesPerHour s)
    with errRange "server.max_messages_per_hour" in
  reject (sMaxRecipientsPerHour s <=? 0) || (limRecipientsPerHour <? sMaxRecipientsPerHour s)
    with errRange "server.max_recipients_per_hour" in
  reject (sMessageBurst s <? 0) || (MaxMessageBurst <? sMessageBurst s) || (sMaxMessagesPerHour s <? sMessageBurst s)
    with errRange "server.message_burst" in
  reject (sRecipientBurst s <? 0) || (MaxRecipientBurst <? sRecipientBurst s)
         || (sMaxRecipientsPerHour s <? sRecipientBurst s)
    with errRange "server.recipient_burst" in
  reject bool_decide (sDataDirectory s = "") with Message "server.data_directory must not be empty" in
  reject bool_decide (SubmissionListenAddr s = "") && bool_decide (ImplicitTLSListenAddr s = "")
    with Message "at least one submission listener must be enabled" in
  reject (sMaxConnections s <=? 0) || (limConnections <? sMaxConnections s) || (sMaxConnectionsPerIP s <=? 0)
         || (limConnectionsPerIP <? sMaxConnectionsPerIP s) || (sMaxConnections s <? sMaxConnectionsPerIP s)
    with Message "connection limits are invalid or exceed supported bounds" in
  reject (sAuthWorkers s <=? 0) || (MaxAuthWorkers <? sAuthWorkers s)
    with Message "auth worker limit is invalid or exceeds supported bounds" in
  Ok tt.

Definition validateQueueLimits (s : Server) : res unit :=
  reject (sMaxQueueMessages s <? 0) || (sMaxQueueBytes s <? 0) || (sMaxQueueMessagesPerUser s <? 0)
         || (sMaxQueueBytesPerUser s <? 0) || (sMinFreeDiskBytes s <? 0)
    with Message "queue caps and minimum free disk must not be negative" in
  reject sMaxSpoolBytes s <=? 0 with Message "server.max_spool_bytes must be positive" in
  reject (sSpoolEmergencyBytes s <? MinimumSpoolEmergencyBytes) || (sMaxSpoolBytes s <=? sSpoolEmergencyBytes s)
    with Message "server.spool_emergency_bytes must be at least the minimum and smaller than max_spool_bytes" in
  Ok tt.

Definition durations (s : Server) (d : Delivery) : list durationEntry := [
  mkDurationEntry "server.read_timeout" (sReadTimeout s) MaxSMTPReadTimeout;
  mkDurationEntry "server.write_timeout" (sWriteTimeout s) MaxSMTPWriteTimeout;
  mkDurationEntry "server.dead_retention" (sDeadRetention s) MaxDeadRetention;
  mkDurationEntry "server.corrupt_retention" (sCorruptRetention s) MaxCorruptRetention;
  mkDurationEntry "delivery.maximum_lifetime" (vMaximumLifetime d) MaxDeliveryLifetime;
  mkDurationEntry "delivery.initial_retry_delay" (vInitialRetryDelay d) MaxInitialRetryDelay;
  mkDurationEntry "delivery.maximum_retry_delay" (vMaximumRetryDelay d) MaxRetryDelay;
  mkDurationEntry "delivery.dns_timeout" (vDNSTimeout d) MaxDeliveryDNSTimeout;
  mkDurationEntry "delivery.attempt_timeout" (vAttemptTimeout d) MaxDeliveryAttemptTimeout;
  mkDurationEntry "delivery.connection_timeout" (vConnectionTimeout d) MaxDeliveryConnectionTimeout;
  mkDurationEntry "delivery.command_timeout" (vCommandTimeout d) MaxDeliveryCommandTimeout;
  mkDurationEntry "delivery.submission_timeout" (vSubmissionTimeout d) MaxDeliverySubmissionTimeout].

(** How the delivery times must relate. *)
Definition validateTimes (d : Delivery) : res unit :=
  let initial := Duration scaled (vInitialRetryDelay d) in
  let maximum := Duration scaled (vMaximumRetryDelay d) in
  let lifetime := Duration scaled (vMaximumLifetime d) in
  reject maximum <? initial with Message "delivery.initial_retry_delay must be <= maximum_retry_delay" in
  reject lifetime <? maximum with Message "delivery.maximum_retry_delay must be <= maximum_lifetime" in
  let connection := Duration scaled (vConnectionTimeout d) in
  let command := Duration scaled (vCommandTimeout d) in
  let submission := Duration scaled (vSubmissionTimeout d) in
  let dnsTimeout := Duration scaled (vDNSTimeout d) in
  let attemptTimeout := Duration scaled (vAttemptTimeout d) in
  reject command <? connection with Message "delivery.connection_timeout must be <= command_timeout" in
  reject submission <? command with Message "delivery.submission_timeout must be >= command_timeout" in
  reject (lifetime <? connection) || (lifetime <? command) || (lifetime <? submission)
    with Message "delivery connection, command, and submission timeouts must be <= maximum_lifetime" in
  reject (attemptTimeout <? dnsTimeout) || (attemptTimeout <? submission)
    with Message "delivery dns and SMTP timeouts must be <= attempt_timeout" in
  Ok tt.

Definition validateTLS (t : TLS) : res unit :=
  reject negb (bool_decide (tMode t ∈ ["self_signed"; "files"])) with Message "unsupported tls.mode" in
  reject bool_decide (tCertificateFile t = "") || bool_decide (tPrivateKeyFile t = "")
    with Message "TLS certificate and private-key paths are required" in
  reject negb (bool_decide (tMinimumVersion t ∈ ["1.2"; "1.3"]))
    with Message "tls.minimum_version must be 1.2 or 1.3" in
  Ok tt.

(** The signing identities: senders in canonical form, one identity each, in a
    configured domain. *)
Fixpoint validateIdentities (cfg : Config) (senders : gset string) (identities : list OpenPGPIdentity)
    : res (list OpenPGPIdentity) :=
  match identities with
  | [] => Ok []
  | identity :: identities =>
      match Address_of ToASCII (iSender identity) with
      | Err e => Err (Wrap "openpgp.identities.sender" e)
      | Ok address =>
          let at_ := LastIndexByte address 64 in
          let sender := str_take (Z.to_nat at_) address +:+ "@" +:+ ToLowerText (after_at address at_) in
          reject bool_decide (sender ∈ senders) with Message "openpgp.identities: duplicate sender" in
          reject bool_decide (iSigningKey identity = "")
            with Message "openpgp.identities.signing_key must not be empty" in
          reject negb (bool_decide (iSigning identity = "required"))
            with Message "openpgp.identities.signing must be required" in
          match DomainFor cfg (after_at sender at_) with
          | None => Err (Message "openpgp.identities.sender is outside configured domains")
          | Some domain =>
              reject iAutocrypt identity
                     && negb (existsb (λ h, EqualFold h "Autocrypt") (default [] (kHeaders (dDKIM domain))))
                with Message "openpgp.identities.autocrypt requires Autocrypt in dkim.headers" in
              let? rest := validateIdentities cfg ({[sender]} ∪ senders) identities in
              Ok (mkIdentity sender (iSigningKey identity) (iPassphraseFile identity) (iSigning identity)
                    (iAutocrypt identity) :: rest)
          end
      end
  end.

Fixpoint validateEncryptionFor (seen : gset string) (l : list string) : res (list string) :=
  match l with
  | [] => Ok []
  | configured :: l =>
      match CanonicalAddress ToASCII configured with
      | Err e => Err (Wrap "openpgp.require_encryption_for" e)
      | Ok recipient =>
          reject bool_decide (recipient ∈ seen)
            with Message "openpgp.require_encryption_for: duplicate recipient" in
          let? rest := validateEncryptionFor ({[recipient]} ∪ seen) l in
          Ok (recipient :: rest)
      end
  end.

Definition validateOpenPGP (cfg : Config) : res OpenPGP :=
  let p := cOpenPGP cfg in
  reject MaxOpenPGPIdentities <? Z.of_nat (length (pIdentities p))
    with Message "openpgp.identities must contain at most 1000 entries" in
  let? identities := validateIdentities cfg ∅ (pIdentities p) in
  reject limRecipients <? Z.of_nat (length (pRequireEncryptionFor p))
    with Message "openpgp.require_encryption_for must contain at most 1000 entries" in
  let? required := validateEncryptionFor ∅ (pRequireEncryptionFor p) in
  reject negb (bool_decide (required = [])) && bool_decide (pRecipientKeysDirectory p = "") && negb (pUseWKD p)
    with Message "openpgp.recipient_keys_directory or use_wkd is required" in
  let? _ := (if pUseWKD p then
               match ResolveGenerated cfg (pWKDCacheDirectory p) with
               | Err e => Err (Wrap "openpgp.wkd_cache_directory" e)
               | Ok _ => Ok tt
               end
             else Ok tt) in
  Ok (mkOpenPGP identities (pRecipientKeysDirectory p) required (pUseWKD p) (pWKDCacheDirectory p)).

(** An optional IPv4 address in its printed form. *)
Definition optionalIPv4 (name text : string) : res string :=
  if bool_decide (text = "") then Ok ""
  else match canonicalIPv4 text with Some t => Ok t | None => Err (Message ("invalid " +:+ name)) end.

(** An optional IPv6 address, kept as written. *)
Definition optionalIPv6 (name text : string) : res unit :=
  if bool_decide (text = "") then Ok tt
  else
    match ParseIP text with
    | Some ip => reject negb (bool_decide (To4 ip = None)) with Message ("invalid " +:+ name) in Ok tt
    | None => Err (Message ("invalid " +:+ name))
    end.

Definition validateDelivery (d : Delivery) : res Delivery :=
  reject negb (bool_decide (vTLSMode d ∈ ["opportunistic"; "required"; "opportunistic_insecure"]))
    with Message "delivery.tls_mode must be opportunistic, required, or opportunistic_insecure" in
  reject bool_decide (vTLSMode d = "required") && bool_decide (vAllowPlaintext d = Some true)
    with Message "delivery.tls_mode=required cannot be combined with allow_plaintext=true" in
  reject bool_decide (vTLSMode d = "opportunistic_insecure") && vRequireValidMXTLSCert d
    with Message "delivery.tls_mode=opportunistic_insecure contradicts require_valid_mx_tls_certificate=true" in
  reject (vMaxAttempts d <=? 0) || (MaxDeliveryAttempts <? vMaxAttempts d) with errRange "delivery.max_attempts" in
  reject (vDomainConcurrency d <=? 0) || (MaxDomainConcurrency <? vDomainConcurrency d)
         || (vGlobalConcurrency d <=? 0) || (MaxGlobalConcurrency <? vGlobalConcurrency d)
         || (vUserConcurrency d <=? 0) || (MaxUserConcurrency <? vUserConcurrency d)
         || (vGlobalConcurrency d <? vDomainConcurrency d)
    with Message "delivery concurrency limits are invalid or exceed supported bounds" in
  reject (vMaxMXCandidates d <=? 0) || (limMXCandidates <? vMaxMXCandidates d)
         || (vMaxIPCandidatesPerMX d <=? 0) || (limIPCandidatesPerMX <? vMaxIPCandidatesPerMX d)
    with Message "delivery candidate limits are invalid or exceed supported bounds" in
  let? bind4 := optionalIPv4 "delivery.bind_ipv4" (vBindIPv4 d) in
  let? _ := optionalIPv6 "delivery.bind_ipv6" (vBindIPv6 d) in
  reject existsb (λ a, bool_decide (ParseIP a = None)) (vDestinationAllowlist d)
    with Message "delivery.destination_allowlist invalid" in
  Ok (mkDelivery (vTLSMode d) (vAllowPlaintext d) (vMaxAttempts d) (vMaximumLifetime d) (vInitialRetryDelay d)
        (vMaximumRetryDelay d) (vDomainConcurrency d) (vGlobalConcurrency d) (vUserConcurrency d) (vDNSTimeout d)
        (vAttemptTimeout d) (vMaxMXCandidates d) (vMaxIPCandidatesPerMX d) (vConnectionTimeout d)
        (vCommandTimeout d) (vSubmissionTimeout d) (vRequireValidMXTLSCert d) bind4 (vBindIPv6 d)
        (vAllowPrivateDestinations d) (vDestinationAllowlist d)).

Fixpoint validateIncludes (includes : list string) : res unit :=
  match includes with
  | [] => Ok tt
  | inc :: includes => let? _ := validateDomain "dns.spf_includes" inc in validateIncludes includes
  end.

Definition validateDNS (cfg : Config) : res DNS :=
  let n := cDNS cfg in
  reject negb (bool_decide (nDMARC n ∈ ["none"; "quarantine"; "reject"])) with Message "invalid DMARC policy" in
  reject bool_decide (nOutputFile n = "") with Message "dns.output_file must not be empty" in
  match ResolveGenerated cfg (nOutputFile n) with
  | Err e => Err (Wrap "dns.output_file" e)
  | Ok _ =>
      let? public4 := optionalIPv4 "public IPv4 address" (nPublicIPv4 n) in
      let? _ := optionalIPv6 "public IPv6 address" (nPublicIPv6 n) in
      let? _ := (if bool_decide (nReportURI n = "") then Ok tt
                 else match ValidateDMARCReportURIList (nReportURI n) with
                      | Err e => Err (Wrap "dns.dmarc_report_uri" e)
                      | Ok _ => Ok tt
                      end) in
      let? _ := (if bool_decide (nTLSRPTURI n = "") then Ok tt
                 else match ValidateTLSReportURIList (nTLSRPTURI n) with
                      | Err e => Err (Wrap "dns.tlsrpt_uri" e)
                      | Ok _ => Ok tt
                      end) in
      let? _ := validateIncludes (nSPFIncludes n) in
      reject SPFDNSLookupLimit <? Z.of_nat (length (nSPFIncludes n))
        with Message "dns.spf_includes exceeds SPF DNS lookup limit of 10" in
      Ok (mkDNS public4 (nPublicIPv6 n) (nDMARC n) (nReportURI n) (nTLSRPTURI n) (nSPFIncludes n)
            (nPublishOpenPGPKey n) (nOutputFile n))
  end.

(** [Validate]: every part in the order of the code. *)
Definition Validate (cfg : Config) : res Config :=
  reject negb (bool_decide (cLogLevel cfg ∈ ["debug"; "print"; "warn"; "error"]))
    with Message "log_level must be debug, print, warn or error" in
  let? _ := validateDomain "server.hostname" (sHostname (cServer cfg)) in
  let? _ := validateDomains cfg in
  let? _ := validateServerLimits (cServer cfg) in
  let? replies := validateReplyRejection (cReplyRejection cfg) in
  let cfg := with_replies replies cfg in
  let? _ := validateQueueLimits (cServer cfg) in
  let? _ := validateDurations (durations (cServer cfg) (cDelivery cfg)) in
  let? _ := validateTimes (cDelivery cfg) in
  let? _ := validateTLS (cTLS cfg) in
  let? openpgp := validateOpenPGP cfg in
  let cfg := with_openpgp openpgp cfg in
  let? delivery := validateDelivery (cDelivery cfg) in
  let cfg := with_delivery delivery cfg in
  let? dns := validateDNS cfg in
  let cfg := with_dns dns cfg in
  let? users := validateUsers cfg ∅ (cUsers cfg) in
  Ok (with_users users cfg).

(** ** Canonical form and start (runtime.go) *)

Definition canonicalName (name : string) : string := ToLowerText (TrimSuffix (TrimSpace name) ".").

Definition canonicalDomain (d : Domain) : Domain :=
  mkDomain (canonicalName (dName d))
    (mkDKIM (ToLowerText (TrimSpace (kSelector (dDKIM d)))) (kPrivateKeyFile (dDKIM d)) (kHeaders (dDKIM d))).

Definition canonicalIdentity (i : OpenPGPIdentity) : OpenPGPIdentity :=
  mkIdentity (TrimSpace (iSender i)) (TrimSpace (iSigningKey i)) (TrimSpace (iPassphraseFile i))
    (ToLowerText (TrimSpace (iSigning i))) (iAutocrypt i).

Definition canonicalServer (s : Server) : Server :=
  mkServerSettings (canonicalName (sHostname s)) (sMaxMessageBytes s) (sMaxRecipients s) (sMaxMessagesPerHour s)
    (sMaxRecipientsPerHour s) (sMessageBurst s) (sRecipientBurst s) (sIncludeClientIPInReceived s)
    (sReadTimeout s) (sWriteTimeout s) (sDataDirectory s) (sSubmissionAddr s) (sImplicitTLSAddr s)
    (sDisableSubmission s) (sDisableImplicitTLS s) (sMaxConnections s) (sMaxConnectionsPerIP s) (sAuthWorkers s)
    (sMaxQueueMessages s) (sMaxQueueBytes s) (sMaxQueueMessagesPerUser s) (sMaxQueueBytesPerUser s)
    (sMaxSpoolBytes s) (sSpoolEmergencyBytes s) (sMinFreeDiskBytes s) (sDeadRetention s) (sCorruptRetention s).

Definition canonicalize (cfg : Config) : Config :=
  mkConfig (cPath cfg) (cBaseDir cfg) (cUserLookup cfg) (ToLowerText (TrimSpace (cLogLevel cfg)))
    (canonicalServer (cServer cfg)) (cReplyRejection cfg) (cTLS cfg) (canonicalDomain <$> cDomains cfg)
    (mkOpenPGP (canonicalIdentity <$> pIdentities (cOpenPGP cfg)) (pRecipientKeysDirectory (cOpenPGP cfg))
       (pRequireEncryptionFor (cOpenPGP cfg)) (pUseWKD (cOpenPGP cfg)) (pWKDCacheDirectory (cOpenPGP cfg)))
    (cDelivery cfg)
    (mkDNS (nPublicIPv4 (cDNS cfg)) (nPublicIPv6 (cDNS cfg)) (nDMARC (cDNS cfg)) (nReportURI (cDNS cfg))
       (nTLSRPTURI (cDNS cfg)) (canonicalName <$> nSPFIncludes (cDNS cfg)) (nPublishOpenPGPKey (cDNS cfg))
       (nOutputFile (cDNS cfg)))
    (cUsers cfg).

(** The index by canonical user name; a later entry wins. *)
Definition indexUsers (users : list User) : gmap string User :=
  fold_left (λ m u, <[canonicalUsername (uUsername u) := u]> m) users ∅.

Definition Init (cfg : Config) : res Config :=
  let? cfg := Validate (canonicalize cfg) in
  Ok (with_lookup (indexUsers (cUsers cfg)) cfg).

(** [(cfg *Config) User]. *)
Definition UserOf (cfg : Config) (username : string) : option User := lookupUser (cUserLookup cfg) username.

(** [adopt]: the settings of another configuration, path and base directory kept. *)
Definition adopt (cfg other : Config) : Config :=
  mkConfig (cPath cfg) (cBaseDir cfg) (indexUsers (cUsers other)) (cLogLevel other) (cServer other)
    (cReplyRejection other) (cTLS other) (cDomains other) (cOpenPGP other) (cDelivery other) (cDNS other)
    (cUsers other).

(** [AddUser]: [load] is [LoadFile] under the mutation lock and [save] is [Save]; the
    result also tells what was saved. *)
Definition AddUser (load : string → res Config) (save : Config → res unit) (lock : res unit)
    (cfg : Config) (user : User) : res (Config * Config) :=
  let? user := validateUser user in
  let? _ := ValidatePHC (PasswordHash user) in
  let path := if bool_decide (cPath cfg = "") then "config.yml" else cPath cfg in
  let? _ := lock in
  match load path with
  | Err e => Err (Wrap "reload config under mutation lock" e)
  | Ok latest =>
      reject existsb (λ u, bool_decide (canonicalUsername (uUsername u) = canonicalUsername (uUsername user)))
               (cUsers latest)
        with Message "duplicate username" in
      let? latest := Init (with_users (cUsers latest ++ [user]) latest) in
      let? _ := save latest in
      Ok (adopt cfg latest, latest)
  end.

(** ** Defaults (defaults.go) *)

Definition defaultDKIMHeaders : list string :=
  ["From"; "Sender"; "To"; "Cc"; "Subject"; "Date"; "Message-ID"; "MIME-Version"; "Content-Type";
   "Content-Transfer-Encoding"; "Reply-To"; "Autocrypt"].

Definition isSender (header : string) : bool := EqualFold (TrimSpace header) "Sender".

Definition defaultDKIM (k : DKIM) : DKIM :=
  let headers := default defaultDKIMHeaders (kHeaders k) in
  mkDKIM (if bool_decide (kSelector k = "") then "mail" else kSelector k) (kPrivateKeyFile k)
    (Some (if existsb isSender headers then headers else headers ++ ["Sender"])).

Definition or_default (value fallback : string) : string := if bool_decide (value = "") then fallback else value.

Definition applyDefaults (cfg : Config) : Config :=
  let s := cServer cfg in
  let p := cOpenPGP cfg in
  let d := cDelivery cfg in
  let n := cDNS cfg in
  mkConfig (cPath cfg) (cBaseDir cfg) (cUserLookup cfg) (or_default (cLogLevel cfg) "print")
    (mkServerSettings (sHostname s) (sMaxMessageBytes s) (sMaxRecipients s) (sMaxMessagesPerHour s)
       (sMaxRecipientsPerHour s) (sMessageBurst s) (sRecipientBurst s) (sIncludeClientIPInReceived s)
       (sReadTimeout s) (sWriteTimeout s) (sDataDirectory s)
       (if sDisableSubmission s then "" else sSubmissionAddr s)
       (if sDisableImplicitTLS s then "" else sImplicitTLSAddr s)
       (sDisableSubmission s) (sDisableImplicitTLS s) (sMaxConnections s) (sMaxConnectionsPerIP s)
       (sAuthWorkers s) (sMaxQueueMessages s) (sMaxQueueBytes s) (sMaxQueueMessagesPerUser s)
       (sMaxQueueBytesPerUser s) (sMaxSpoolBytes s) (sSpoolEmergencyBytes s) (sMinFreeDiskBytes s)
       (sDeadRetention s) (sCorruptRetention s))
    (cReplyRejection cfg) (cTLS cfg) ((λ d, mkDomain (dName d) (defaultDKIM (dDKIM d))) <$> cDomains cfg)
    (mkOpenPGP (pIdentities p) (pRecipientKeysDirectory p) (pRequireEncryptionFor p) (pUseWKD p)
       (or_default (pWKDCacheDirectory p) "openpgp/cache"))
    (mkDelivery (or_default (vTLSMode d) "required") (vAllowPlaintext d) (vMaxAttempts d) (vMaximumLifetime d)
       (vInitialRetryDelay d) (vMaximumRetryDelay d) (vDomainConcurrency d) (vGlobalConcurrency d)
       (vUserConcurrency d) (vDNSTimeout d) (vAttemptTimeout d) (vMaxMXCandidates d) (vMaxIPCandidatesPerMX d)
       (vConnectionTimeout d) (vCommandTimeout d) (vSubmissionTimeout d) (vRequireValidMXTLSCert d) (vBindIPv4 d)
       (vBindIPv6 d) (vAllowPrivateDestinations d) (vDestinationAllowlist d))
    (mkDNS (nPublicIPv4 n) (nPublicIPv6 n) (or_default (nDMARC n) "none") (nReportURI n) (nTLSRPTURI n)
       (nSPFIncludes n) (nPublishOpenPGPKey n) (or_default (nOutputFile n) "dns-records.txt"))
    (cUsers cfg).

Definition defaultServer : Server :=
  mkServerSettings "mail.example.invalid" (Z.shiftl 25 20) 100 1000 10000 0 0 false "5m" "5m" "./data"
    ":587" ":465" false false 256 16 4 10000 (Z.shiftl 10 30) 1000 (Z.shiftl 1 30) (Z.shiftl 16 30)
    (Z.shiftl 512 20) (Z.shiftl 1 30) "720h" "336h".

Definition defaultReplyRejection : ReplyRejection :=
  mkReplyRejection false ":25" "listed_only" "This address does not accept email" [] [] 128 8 "1m" "30s".

Definition defaultDelivery : Delivery :=
  mkDelivery "required" (Some false) 15 "120h" "5m" "8h" 2 16 2 "30s" "30m" 10 8 "30s" "5m" "12m" true
    "" "" false [].

Definition Default : Config :=
  mkConfig "" "" ∅ "print" defaultServer defaultReplyRejection
    (mkTLSSettings "self_signed" false "tls/server.crt" "tls/server.key" "1.2")
    [mkDomain "example.invalid" (mkDKIM "mail" "dkim/example.invalid.key" (Some defaultDKIMHeaders))]
    (mkOpenPGP [] "" [] false "openpgp/cache") defaultDelivery
    (mkDNS "" "" "none" "" "" [] false "dns-records.txt") [].

(** [LoadFile] after the file was read: [decode] is the YAML decoder applied to the
    defaults without users and domains. *)
Definition loadDecoded (abs : string) (dir : string) (decode : Config → res Config) : res Config :=
  let base := mkConfig abs dir (cUserLookup Default) (cLogLevel Default) (cServer Default)
                (cReplyRejection Default) (cTLS Default) [] (cOpenPGP Default) (cDelivery Default) (cDNS Default) [] in
  let? cfg := decode base in
  Init (applyDefaults cfg).

(** [rejectMultiDoc]: at most one document marker. *)
Definition rejectMultiDoc (raw : bytes) : res unit :=
  let markers := filter (λ line, trim_space line = str_list "---") (split_list 10 raw) in
  reject (1 <? length markers)%nat with Message "config contains multiple YAML documents" in Ok tt.

(** [ResolveConfigPath]; [env] is the variable OUTBOXD_CONFIG. *)
Definition ResolveConfigPath (env flagPath : string) : string :=
  if negb (bool_decide (flagPath = "")) then flagPath
  else if negb (bool_decide (env = "")) then env else "config.yml".

(** ** The sender policy to publish (spf.go) *)

Definition ExpectedSPF (cfg : Config) : string :=
  let n := cDNS cfg in
  "v=spf1"
  +:+ (if bool_decide (nPublicIPv4 n = "") then ""
       else match canonicalIPv4 (nPublicIPv4 n) with Some t => " ip4:" +:+ t | None => "" end)
  +:+ (if bool_decide (nPublicIPv6 n = "") then "" else " ip6:" +:+ nPublicIPv6 n)
  +:+ fold_right (λ inc acc, " include:" +:+ canonicalName inc +:+ acc) "" (nSPFIncludes n)
  +:+ " -all".

(** ** Readiness (readiness.go) *)

Definition IsReady (cfg : Config) : list string :=
  ((λ _ : Domain, "replace domains.name with a sending domain")
     <$> filter (λ d, HasSuffix (dName d) ".invalid" = true) (cDomains cfg))
  ++ (if HasSuffix (sHostname (cServer cfg)) ".invalid"
      then ["replace server.hostname with the public SMTP hostname"] else [])
  ++ (if bool_decide (nPublicIPv4 (cDNS cfg) = "") && bool_decide (nPublicIPv6 (cDNS cfg) = "")
      then ["configure at least one public sending IP"] else [])
  ++ (if bool_decide (cUsers cfg = []) then ["configure at least one SMTP user"] else [])
  ++ (if (length (filter (λ u, Enabled u = true) (cUsers cfg)) =? 0)%nat
      then ["configure at least one enabled SMTP user"] else [])
  ++ (if bool_decide (tMode (cTLS cfg) = "self_signed") && negb (tAllowSelfSignedServing (cTLS cfg))
      then ["tls.mode=self_signed requires tls.allow_self_signed_serving=true before serving"] else []).

Inductive warning := WSelfSigned | WDMARCNone | WNoReports | WOpportunistic | WInsecure | WHostname.

Definition Warnings (cfg : Config) : list warning :=
  (if bool_decide (tMode (cTLS cfg) = "self_signed") then [WSelfSigned] else [])
  ++ (if bool_decide (nDMARC (cDNS cfg) = "none") then [WDMARCNone] else [])
  ++ (if bool_decide (nReportURI (cDNS cfg) = "") then [WNoReports] else [])
  ++ (if bool_decide (vTLSMode (cDelivery cfg) = "opportunistic") then [WOpportunistic] else [])
  ++ (if bool_decide (vTLSMode (cDelivery cfg) = "opportunistic_insecure") then [WInsecure] else [])
  ++ ((λ _ : Domain, WHostname) <$> filter (λ d, dName d = sHostname (cServer cfg)) (cDomains cfg)).
End config.
