(* ===== verification/ConfigFacts.v ===== *)
(** * What validation guarantees (src/internal/config)

    Names, domains and accounts of an accepted configuration.  [DomainFor_spec] says
    that the domain found for a name is the most specific one covering it. *)

From S2P Require Import Prelude Errors GoLib Capacity Utf8 Mailbox Text Password Paths Duration Users.
From S2P Require Import Netpolicy Discovery IpText Config.
Open Scope Z_scope.

(** Splitting a successful chain of checks: the guards as equations, the results as
    [Ok]. *)
Ltac res_inv H :=
  repeat match type of H with
  | (if ?b then Err _ else _) = Ok _ => let E := fresh "E" in destruct b eqn:E; [discriminate H|]
  | res_bind ?r _ = Ok _ =>
      let E := fresh "E" in destruct r eqn:E; [cbn [res_bind] in H|discriminate H]
  | match ?r with Ok _ => _ | Err _ => Err _ end = Ok _ =>
      let E := fresh "E" in destruct r eqn:E; [|discriminate H]
  | (let '(_, _) := ?p in _) = Ok _ => destruct p
  end.

(** ** Names *)

(** A name validation accepts: letters, digits, hyphens and dots, no dot at its
    ends. *)
Record good_name (n : string) : Prop := {
  gn_some : n ≠ "";
  gn_chars : ∀ c, c ∈ str_list n → host_char c = true;
  gn_start : ∀ c l, str_list n = c :: l → is_char 46 c = false;
  gn_end : ∀ c l, str_list n = l ++ [c] → is_char 46 c = false
}.

Lemma validateLabels_chars name labels : validateLabels name labels = Ok tt →
  ∀ l c, l ∈ labels → c ∈ str_list l → is_char 45 c || is_alnum c = true.
Proof.
  induction labels as [|x labels IH]; cbn [validateLabels]; intros H l c; [by intros ?%elem_of_nil|].
  destruct (validateDNSLabel name x) as [[]|] eqn:Ex; [|done]. unfold validateDNSLabel in Ex. res_inv Ex.
  intros [-> |Hl]%elem_of_cons; [|by apply IH]. intros Hc. apply negb_false_iff in E0.
  rewrite forallb_forall in E0. by apply E0, list_elem_of_In.
Qed.

Lemma split_list_elem b c l : c ∈ l → is_char b c = true ∨ ∃ w, w ∈ split_list b l ∧ c ∈ w.
Proof.
  induction l as [|x l IH]; [by intros ?%elem_of_nil|]. cbn [split_list].
  destruct (split_list_head b l) as (w & ws & Hs). rewrite Hs in IH |- *. destruct (is_char b x) eqn:Ex.
  - intros [-> |Hc]%elem_of_cons; [by left|]. destruct (IH Hc) as [?|(v & Hv & Hcv)]; [by left|].
    right. exists v. split; [by right|done].
  - intros [-> |Hc]%elem_of_cons.
    + right. exists (x :: w). split; [left|left].
    + destruct (IH Hc) as [?|(v & Hv & Hcv)]; [by left|]. right.
      apply elem_of_cons in Hv as [-> |Hv]; [exists (x :: w); split; [left|by right]|].
      exists v. split; [by right|done].
Qed.

Lemma validateDomain_good name n : validateDomain name n = Ok tt → good_name n.
Proof.
  unfold validateDomain. intros Hv. res_inv Hv. apply orb_false_iff in E as [E E2].
  apply orb_false_iff in E as [_ E1]. split.
  - intros ->. done.
  - intros c Hc. destruct (split_list_elem 46 c _ Hc) as [Hd|(w & Hw & Hcw)].
    + unfold host_char. rewrite Hd. by rewrite !orb_true_r.
    + unfold host_char. assert (is_char 45 c || is_alnum c = true) as Hx.
      { apply (validateLabels_chars name _ Hv (of_list w)); [|by rewrite str_list_of_list].
        unfold Split. apply list_elem_of_fmap. eauto. }
      rewrite (orb_comm (is_alnum c)), Hx. done.
  - intros c l Hl. unfold HasPrefix in E1. rewrite Hl in E1. cbn in E1. rewrite andb_true_r in E1.
    change (Ascii.Ascii false true true true false true false false) with ("."%char) in E1. by rewrite <-dot_is_char.
  - intros c l Hl. unfold HasSuffix in E2. rewrite Hl, rev_app_distr in E2. cbn in E2.
    rewrite andb_true_r in E2. by rewrite <-dot_is_char.
Qed.

Lemma good_ascii n : good_name n → is_ascii n = true.
Proof.
  intros [_ Hc _ _]. unfold is_ascii. apply forallb_forall. intros c Hin.
  specialize (Hc c (proj2 (list_elem_of_In _ _) Hin)).
  unfold host_char, is_alnum, is_upper, is_lower, is_digit, between, is_char in Hc. lia.
Qed.

Lemma ascii_lower s : is_ascii s = true → is_ascii (ToLower s) = true.
Proof.
  unfold is_ascii, ToLower. rewrite str_list_of_list, !forallb_forall. intros Ha c Hc.
  apply in_map_iff in Hc as (d & <- & Hd). specialize (Ha d Hd). apply Z.ltb_lt in Ha. apply Z.ltb_lt.
  unfold lower_char. destruct (is_upper d) eqn:Eu; [|done]. unfold is_upper, between in Eu. rewrite byte_val_chr; lia.
Qed.

(** ** The covering domain *)

(** [name] is [d] or below it. *)
Definition covers (d name : string) : Prop := name = d ∨ ∃ k, str_list name = k ++ chr 46 :: str_list d.

Lemma HasSuffix_true s p : HasSuffix s p = true ↔ ∃ k, str_list s = k ++ str_list p.
Proof. unfold HasSuffix. rewrite is_prefix_true. split; intros [k Hk].
  - exists (rev k). apply (f_equal (@rev ascii)) in Hk. by rewrite rev_involutive, rev_app_distr, rev_involutive in Hk.
  - exists (rev k). by rewrite Hk, rev_app_distr.
Qed.

Lemma covers_code name d :
  negb (bool_decide (name = d)) && negb (HasSuffix name ("." +:+ d)) = false ↔ covers d name.
Proof.
  rewrite andb_false_iff, !negb_false_iff, bool_decide_eq_true, HasSuffix_true. unfold covers.
  by rewrite str_list_app.
Qed.

Lemma covers_len d name : covers d name → str_len d ≤ str_len name.
Proof.
  intros [-> |[k Hk]]; [done|]. rewrite !str_len_list, Hk, length_app. cbn. lia.
Qed.

(** Two names that cover the same one and are equally long are equal. *)
Lemma covers_same d d' name : covers d name → covers d' name → str_len d = str_len d' → d = d'.
Proof.
  rewrite !str_len_list. intros Hd Hd' Hl. apply str_list_inj.
  assert (Hs : ∀ x, covers x name → ∃ k, str_list name = k ++ str_list x).
  { intros x [-> |[k Hk]]; [by exists []|]. exists (k ++ [chr 46]). by rewrite <-app_assoc. }
  destruct (Hs d Hd) as [k Hk], (Hs d' Hd') as [k' Hk']. rewrite Hk in Hk'.
  apply app_inj_2 in Hk' as [_ ?]; [done|lia].
Qed.

(** The most specific configured domain covering [name]. *)
Definition best (ds : list Domain) (name : string) (r : option Domain) : Prop :=
  match r with
  | None => ∀ d, d ∈ ds → ¬ covers (dName d) name
  | Some m => m ∈ ds ∧ covers (dName m) name ∧
      ∀ d, d ∈ ds → covers (dName d) name → str_len (dName d) ≤ str_len (dName m)
  end.

Lemma closer_best name ds : best ds name (fold_left (closer name) ds None).
Proof.
  induction ds as [|d ds IH] using rev_ind; [intros d ?%elem_of_nil; done|].
  rewrite fold_left_app. cbn [fold_left]. unfold closer at 1.
  assert (Hc := covers_code name (dName d)).
  destruct (negb (bool_decide (name = dName d)) && negb (HasSuffix name ("." +:+ dName d))).
  - assert (¬ covers (dName d) name) as Hn by (by intros ?%Hc).
    destruct (fold_left (closer name) ds None) as [m|]; cbn [best] in *.
    + destruct IH as (Hm & Hcm & Hb). split_and!; [apply elem_of_app; by left|done|].
      intros x [Hx| ->%list_elem_of_singleton]%elem_of_app; [by apply Hb|done].
    + intros x [Hx| ->%list_elem_of_singleton]%elem_of_app; [by apply IH|done].
  - assert (Hd : covers (dName d) name) by (by apply Hc).
    assert (Hin : d ∈ ds ++ [d]) by (apply elem_of_app; right; by left).
    destruct (fold_left (closer name) ds None) as [m|]; cbn [best] in *.
    + destruct IH as (Hm & Hcm & Hb). destruct (Z.ltb_spec (str_len (dName m)) (str_len (dName d))).
      * split_and!; [done..|]. intros x [Hx| ->%list_elem_of_singleton]%elem_of_app Hcx; [|done].
        specialize (Hb x Hx Hcx). lia.
      * split_and!; [apply elem_of_app; by left|done|].
        intros x [Hx| ->%list_elem_of_singleton]%elem_of_app Hcx; [by apply Hb|lia].
    + split_and!; [done..|]. intros x [Hx| ->%list_elem_of_singleton]%elem_of_app Hcx; [by destruct (IH x Hx)|done].
Qed.

Section facts.
Context `{CaseTables} `{AddressParser} `{UrlParser}.
Variable ToASCII : string → res string.
Variable scaled : Z → Z → Z → Z.
Variable cwd : string.

#[local] Abbreviation Validate := (Validate ToASCII scaled cwd).

Lemma DomainFor_spec cfg name :
  best (cDomains cfg) (ToLowerText (TrimSuffix name ".")) (DomainFor cfg name).
Proof. apply closer_best. Qed.

Lemma DomainFor_domains a b : cDomains a = cDomains b → DomainFor a = DomainFor b.
Proof. intros E. unfold DomainFor. by rewrite E. Qed.

Lemma validateUsers_domains a b seen us : cDomains a = cDomains b →
  validateUsers ToASCII a seen us = validateUsers ToASCII b seen us.
Proof.
  intros E. apply DomainFor_domains in E. revert seen.
  induction us as [|u us IH]; intros seen; cbn [validateUsers]; [done|].
  rewrite E. repeat (case_match; [|done]). case_match; [done|]. case_match; [done|]. by rewrite IH.
Qed.

(** What an accepted configuration went through. *)
Record validated (cfg c : Config) : Prop := {
  va_server : cServer c = cServer cfg;
  va_domains : cDomains c = cDomains cfg;
  va_base : cBaseDir c = cBaseDir cfg;
  va_host : validateDomain "server.hostname" (sHostname (cServer c)) = Ok tt;
  va_names : validateDomains cwd c = Ok tt;
  va_limits : validateServerLimits (cServer c) = Ok tt;
  va_queue : validateQueueLimits (cServer c) = Ok tt;
  va_replies : validateReplyRejection ToASCII scaled (cReplyRejection cfg) = Ok (cReplyRejection c);
  va_durations : validateDurations scaled (durations (cServer c) (cDelivery c)) = Ok tt;
  va_times : validateTimes scaled (cDelivery c) = Ok tt;
  va_delivery : validateDelivery (cDelivery cfg) = Ok (cDelivery c);
  va_dns : ∃ x, cDNS x = cDNS cfg ∧ validateDNS cwd x = Ok (cDNS c);
  va_users : validateUsers ToASCII c ∅ (cUsers cfg) = Ok (cUsers c)
}.

Lemma validateDomainList_base a b names paths l :
  cBaseDir a = cBaseDir b → cServer a = cServer b →
  validateDomainList cwd a names paths l = validateDomainList cwd b names paths l.
Proof.
  intros E1 E2. revert names paths. induction l as [|d l IH]; intros names paths; cbn [validateDomainList]; [done|].
  unfold ResolveGenerated, res_bind. rewrite E1, E2. repeat (case_match; try done).
Qed.

Lemma delivery_kept d d' : validateDelivery d = Ok d' →
  ∃ bind, d' = mkDelivery (vTLSMode d) (vAllowPlaintext d) (vMaxAttempts d) (vMaximumLifetime d)
    (vInitialRetryDelay d) (vMaximumRetryDelay d) (vDomainConcurrency d) (vGlobalConcurrency d)
    (vUserConcurrency d) (vDNSTimeout d) (vAttemptTimeout d) (vMaxMXCandidates d) (vMaxIPCandidatesPerMX d)
    (vConnectionTimeout d) (vCommandTimeout d) (vSubmissionTimeout d) (vRequireValidMXTLSCert d) bind
    (vBindIPv6 d) (vAllowPrivateDestinations d) (vDestinationAllowlist d).
Proof. unfold validateDelivery. intros Hd. res_inv Hd. injection Hd as <-. eauto. Qed.

(** The limits of accepted delivery and server settings. *)
Lemma delivery_bounds d d' : validateDelivery d = Ok d' →
  0 < vMaxAttempts d' ≤ MaxDeliveryAttempts ∧ 0 < vUserConcurrency d' ≤ MaxUserConcurrency ∧
  0 < vDomainConcurrency d' ≤ vGlobalConcurrency d' ∧ vGlobalConcurrency d' ≤ MaxGlobalConcurrency ∧
  0 < vMaxMXCandidates d' ≤ limMXCandidates ∧ 0 < vMaxIPCandidatesPerMX d' ≤ limIPCandidatesPerMX ∧
  vTLSMode d' ∈ ["opportunistic"; "required"; "opportunistic_insecure"].
Proof.
  intros Hd. destruct (delivery_kept _ _ Hd) as [bind ->]. unfold validateDelivery in Hd. res_inv Hd. zbool.
  cbn [vMaxAttempts vUserConcurrency vDomainConcurrency vGlobalConcurrency vMaxMXCandidates vMaxIPCandidatesPerMX vTLSMode].
  split_and!; (lia || done).
Qed.

Lemma server_bounds s : validateServerLimits s = Ok tt →
  0 < sMaxMessageBytes s ≤ limMessageBytes ∧ 0 < sMaxRecipients s ≤ limRecipients ∧
  0 < sMaxMessagesPerHour s ≤ limMessagesPerHour ∧ 0 < sMaxRecipientsPerHour s ≤ limRecipientsPerHour ∧
  0 ≤ sMessageBurst s ≤ sMaxMessagesPerHour s ∧ 0 ≤ sRecipientBurst s ≤ sMaxRecipientsPerHour s ∧
  0 < sMaxConnectionsPerIP s ≤ sMaxConnections s ∧ 0 < sAuthWorkers s ≤ MaxAuthWorkers.
Proof. unfold validateServerLimits. intros Hl. res_inv Hl. zbool. split_and!; (lia || done). Qed.

Lemma Validate_inv cfg c : Validate cfg = Ok c → validated cfg c.
Proof.
  unfold Config.Validate. intros Hv.
  destruct (negb _); [done|].
  destruct (validateDomain _ _) as [[]|] eqn:Eh; [|done]. cbn [res_bind] in Hv.
  destruct (validateDomains cwd cfg) as [[]|] eqn:Ed; [|done]. cbn [res_bind] in Hv.
  destruct (validateServerLimits _) as [[]|] eqn:Es; [|done]. cbn [res_bind] in Hv.
  destruct (validateReplyRejection _ _ _) as [rr|] eqn:Er; [|done]. cbn [res_bind] in Hv.
  destruct (validateQueueLimits _) as [[]|] eqn:Eq; [|done]. cbn [res_bind] in Hv.
  destruct (validateDurations _ _) as [[]|] eqn:Edu; [|done]. cbn [res_bind] in Hv.
  destruct (validateTimes _ _) as [[]|] eqn:Et; [|done]. cbn [res_bind] in Hv.
  destruct (validateTLS _) as [[]|]; [|done]. cbn [res_bind] in Hv.
  destruct (validateOpenPGP _ _ _) as [pg|]; [|done]. cbn [res_bind] in Hv.
  destruct (validateDelivery _) as [dv|] eqn:Edv; [|done]. cbn [res_bind] in Hv.
  destruct (validateDNS _ _) as [dn|] eqn:Edn; [|done]. cbn [res_bind] in Hv.
  destruct (validateUsers _ _ _ _) as [us|] eqn:Eu; [|done]. cbn [res_bind] in Hv. injection Hv as <-.
  destruct (delivery_kept _ _ Edv) as [bind ->]. split; try done.
  - unfold validateDomains in Ed |- *. cbn [cDomains with_users with_dns with_delivery with_openpgp with_replies].
    destruct (_ || _); [done|]. by erewrite validateDomainList_base.
  - eexists. split; [|exact Edn]. done.
  - cbn [cUsers with_users]. by erewrite validateUsers_domains.
Qed.

(** [Init] validates the canonical form and adds the index of accounts. *)
Lemma Init_inv cfg c : Init ToASCII scaled cwd cfg = Ok c →
  validated (canonicalize cfg) c ∧ cUserLookup c = indexUsers (cUsers c).
Proof.
  unfold Init. destruct (Config.Validate _ _ _ (canonicalize cfg)) as [v|] eqn:Ev; [|done]. cbn [res_bind].
  intros [= <-]. split; [|done]. apply Validate_inv in Ev. destruct Ev. split; try done.
  - unfold validateDomains in *. cbn [cDomains with_lookup]. destruct (_ || _); [done|].
    by erewrite validateDomainList_base.
  - cbn [cUsers with_lookup]. by erewrite validateUsers_domains.
Qed.

(** Configured names are in lower case. *)
Lemma Init_lower cfg c : Init ToASCII scaled cwd cfg = Ok c →
  Forall (λ d, ToLower (dName d) = dName d) (cDomains c) ∧ ToLower (sHostname (cServer c)) = sHostname (cServer c).
Proof.
  intros [Hv _]%Init_inv. rewrite (va_domains _ _ Hv), (va_server _ _ Hv). split; [|apply lower_fixed].
  cbn [canonicalize cDomains]. rewrite Forall_fmap, Forall_forall. intros d _. apply lower_fixed.
Qed.

(** ** Domains *)

Lemma validateDomainList_ok cfg names paths ds : validateDomainList cwd cfg names paths ds = Ok tt →
  Forall (λ d, (good_name (dName d) ∧ validateDNSLabel "domains.dkim.selector" (kSelector (dDKIM d)) = Ok tt)
               ∧ dName d ∉ names) ds ∧ NoDup (dName <$> ds).
Proof.
  revert names paths. induction ds as [|d ds IH]; intros names paths; cbn [validateDomainList]; [by intros _; split; constructor|].
  intros Hv. res_inv Hv. apply IH in Hv as [Hf Hn]. rewrite fmap_cons.
  match goal with Hg : validateDomain _ _ = Ok ?u |- _ => destruct u; apply validateDomain_good in Hg as Hgood end.
  match goal with Hg : bool_decide (dName d ∈ names) = false |- _ => apply bool_decide_eq_false_1 in Hg as Hnew end.
  match goal with Hg : validateDNSLabel _ _ = Ok ?u |- _ => destruct u end.
  split.
  - constructor; [done|]. eapply Forall_impl; [exact Hf|]. intros x [? ?]. split; [done|set_solver].
  - constructor; [|done]. intros (x & Hx & Hin)%list_elem_of_fmap. rewrite Forall_forall in Hf.
    destruct (Hf x Hin) as [_ Hni]. apply Hni. rewrite <-Hx. set_solver.
Qed.

Lemma validated_domains cfg c : validated cfg c →
  cDomains c ≠ [] ∧ Forall (λ d, good_name (dName d)) (cDomains c) ∧ NoDup (dName <$> cDomains c).
Proof.
  intros Hv. pose proof (va_names _ _ Hv) as Hn. unfold validateDomains in Hn. res_inv Hn. zbool.
  apply validateDomainList_ok in Hn as [Hf Hd]. split_and!; [done| |done].
  eapply Forall_impl; [exact Hf|]. by intros d [[? _] _].
Qed.

(** Selectors are single labels. *)
Lemma validated_selectors cfg c : validated cfg c →
  Forall (λ d, ∀ x, x ∈ str_list (kSelector (dDKIM d)) → byte_val x ≠ 46) (cDomains c).
Proof.
  intros Hv. pose proof (va_names _ _ Hv) as Hn. unfold validateDomains in Hn. res_inv Hn.
  apply validateDomainList_ok in Hn as [Hf _]. eapply Forall_impl; [exact Hf|]. intros d [[_ Hl] _] x Hx.
  unfold validateDNSLabel in Hl. res_inv Hl. zbool.
  match goal with Hc : forallb _ _ = true |- _ => rewrite forallb_forall in Hc; specialize (Hc x (proj1 (list_elem_of_In _ _) Hx)) end.
  unfold is_char, is_alnum, is_upper, is_lower, is_digit, between in *. lia.
Qed.

(** ** Accounts *)

Lemma validateUsers_ok cfg seen us us' : validateUsers ToASCII cfg seen us = Ok us' →
  Forall (λ u, canonicalUsername (uUsername u) ∉ seen ∧
               Forall (λ s, DomainFor cfg (senderDomain s) ≠ None) (AllowedSenders u)) us' ∧
  NoDup (canonicalUsername ∘ uUsername <$> us').
Proof.
  revert seen us'. induction us as [|u us IH]; intros seen us'; cbn [validateUsers].
  { intros [= <-]. split; constructor. }
  intros Hv. destruct (let? user := _ in _) as [v|]; [|done]. res_inv Hv. injection Hv as <-.
  match goal with Hr : validateUsers _ _ _ us = Ok _ |- _ => apply IH in Hr as [Hf Hn] end. rewrite fmap_cons.
  match goal with Hg : bool_decide (_ ∈ seen) = false |- _ => apply bool_decide_eq_false_1 in Hg as Hnew end.
  match goal with Hg : existsb _ _ = false |- _ => rename Hg into Hs end. split.
  - constructor.
    + split; [done|]. apply Forall_forall. intros s Hin He.
      assert (existsb (λ s, bool_decide (DomainFor cfg (senderDomain s) = None)) (AllowedSenders v) = true) as Ht;
        [|by rewrite Ht in Hs].
      apply existsb_exists. exists s. split; [by apply list_elem_of_In|by apply bool_decide_eq_true_2].
    + eapply Forall_impl; [exact Hf|]. intros x [? ?]. split; [set_solver|done].
  - constructor; [|done]. intros (x & Hx & Hin)%list_elem_of_fmap. rewrite Forall_forall in Hf.
    destruct (Hf x Hin) as [Hni _]. apply Hni. cbn in Hx. rewrite Hx. set_solver.
Qed.

Lemma indexUsers_spec us name u : NoDup (canonicalUsername ∘ uUsername <$> us) →
  indexUsers us !! name = Some u ↔ u ∈ us ∧ canonicalUsername (uUsername u) = name.
Proof.
  unfold indexUsers. induction us as [|v us IH] using rev_ind; intros Hn.
  { cbn. rewrite lookup_empty. split; [done|]. by intros [?%elem_of_nil _]. }
  rewrite fold_left_app. cbn [fold_left]. rewrite fmap_app in Hn. apply NoDup_app in Hn as (Hn & Hd & _).
  rewrite lookup_insert_Some, elem_of_app, list_elem_of_singleton, (IH Hn). split.
  - intros [[? ->]|[? [? ?]]]; auto.
  - intros [[Hin| ->] Hu]; [right|by left]. split; [|by split]. intros He.
    apply (Hd (canonicalUsername (uUsername u))); [apply list_elem_of_fmap; exists u; by split|].
    apply list_elem_of_fmap. exists v. split; [by rewrite Hu|by left].
Qed.

(** The account found for a name is the one account with that name, whatever the
    letter case and the white space around it. *)
Lemma UserOf_spec cfg c name u : Init ToASCII scaled cwd cfg = Ok c →
  UserOf c name = Some u ↔ u ∈ cUsers c ∧ canonicalUsername (uUsername u) = canonicalUsername name.
Proof.
  unfold Init. destruct (Config.Validate _ _ _ (canonicalize cfg)) as [v|] eqn:Ev; [|done]. cbn [res_bind].
  intros [= <-]. apply Validate_inv in Ev. apply va_users, validateUsers_ok in Ev as [_ Hn].
  unfold UserOf, lookupUser. cbn [cUserLookup with_lookup cUsers]. by apply indexUsers_spec.
Qed.

(** ** Times *)

Lemma validateDuration_ok name value m : validateDuration scaled name value m = Ok tt →
  0 < Duration scaled value ≤ m.
Proof.
  unfold validateDuration, Duration. destruct (ParseDuration scaled value) as [d|]; [|done].
  intros Hv. res_inv Hv. lia.
Qed.

Lemma validateDurations_ok l : validateDurations scaled l = Ok tt →
  Forall (λ e, 0 < Duration scaled (deValue e) ≤ deMax e) l.
Proof.
  induction l as [|e l IH]; cbn [validateDurations]; [by constructor|].
  destruct (validateDuration _ _ _ _) as [[]|] eqn:E; [|done]. cbn [res_bind]. intros Hl.
  constructor; [by eapply validateDuration_ok|auto].
Qed.

(** The times of an accepted configuration. *)
Record times_ok (c : Config) : Prop := {
  ti_initial : 0 < Duration scaled (vInitialRetryDelay (cDelivery c)) ≤ Duration scaled (vMaximumRetryDelay (cDelivery c));
  ti_maximum : Duration scaled (vMaximumRetryDelay (cDelivery c)) ≤ Duration scaled (vMaximumLifetime (cDelivery c));
  ti_lifetime : Duration scaled (vMaximumLifetime (cDelivery c)) ≤ MaxDeliveryLifetime;
  ti_delay : Duration scaled (vMaximumRetryDelay (cDelivery c)) ≤ MaxRetryDelay;
  ti_connection : 0 < Duration scaled (vConnectionTimeout (cDelivery c)) ≤ Duration scaled (vCommandTimeout (cDelivery c));
  ti_command : Duration scaled (vCommandTimeout (cDelivery c)) ≤ Duration scaled (vSubmissionTimeout (cDelivery c));
  ti_submission : Duration scaled (vSubmissionTimeout (cDelivery c)) ≤ Duration scaled (vAttemptTimeout (cDelivery c));
  ti_dns : 0 < Duration scaled (vDNSTimeout (cDelivery c)) ≤ Duration scaled (vAttemptTimeout (cDelivery c));
  ti_attempt : Duration scaled (vAttemptTimeout (cDelivery c)) ≤ MaxDeliveryAttemptTimeout;
  ti_dead : 0 < Duration scaled (sDeadRetention (cServer c)) ≤ MaxDeadRetention;
  ti_corrupt : 0 < Duration scaled (sCorruptRetention (cServer c)) ≤ MaxCorruptRetention
}.

Lemma validated_times cfg c : validated cfg c → times_ok c.
Proof.
  intros Hv. pose proof (validateDurations_ok _ (va_durations _ _ Hv)) as Hd.
  pose proof (va_times _ _ Hv) as Ht. unfold validateTimes in Ht. res_inv Ht. zbool.
  unfold durations in Hd. rewrite !Forall_cons in Hd. cbn [deValue deMax] in Hd.
  destruct Hd as (_ & _ & ? & ? & ? & ? & ? & ? & ? & ? & ? & ? & _). split; lia.
Qed.
End facts.

(** ** A sample *)

#[local] Instance plainParser : AddressParser := { ParseAddress v := Ok ("", v) }.

(** Reads "mailto:" URIs only. *)
#[local] Instance mailtoParser : UrlParser := {
  ParseURL s := if HasPrefix s "mailto:" then Ok (mkURL "mailto" (str_drop 7 s) "" "" "" "" "" false)
                else Err (Message "unsupported")
}.

Definition sampleHash : string := Password.wasteHash.

(** What an operator wrote: two domains, one below the other, and one account. *)
Definition sampleWritten : Config :=
  mkConfig "/srv/config.yml" "/srv" ∅ "print" defaultServer
    (mkReplyRejection true ":25" "listed_only" "This address does not accept email" ["Example.org"]
       [mkReplyRecipient "NoReply@example.org" "Nobody reads this"] 128 8 "1m" "30s")
    (cTLS Default)
    [mkDomain "example.org" (mkDKIM "mail" "dkim/example.key" (Some defaultDKIMHeaders));
     mkDomain "mail.example.org" (mkDKIM "mail" "dkim/mail.key" (Some defaultDKIMHeaders))]
    (cOpenPGP Default) defaultDelivery
    (mkDNS "203.0.113.7" "2001:db8::7" "reject" "mailto:reports@example.net!10m" "" ["spf.example.net"] false "dns.txt")
    [mkAccount "alice" sampleHash ["alice@example.org"; "*@Lists.Example.org"] true].

Definition sampleConfigured : Config :=
  match Config.Validate sampleIDNA (λ f u d, 0) "/" sampleWritten with Ok c => c | Err _ => Default end.

Definition sampleAccount : User := mkAccount "alice" sampleHash ["alice@example.org"; "*@lists.example.org"] true.

Lemma sampleConfigured_ok : Config.Validate sampleIDNA (λ f u d, 0) "/" sampleWritten = Ok sampleConfigured.
Proof. vm_compute. reflexivity. Qed.
