(* ===== verification/Signing.v ===== *)
(** * DKIM identities (src/internal/sign/sign.go)

    Every configured domain has its own key; a message is signed with the identity of
    the most specific configured domain that covers its From address.  The
    cryptography (RSA keys, PEM and DER) is a parameter, [Crypto]; the DKIM library's
    signer is [dkimSign].  The key files are a [tree]; what other processes do between
    two steps of this one is [others].

    [signature_identity] connects the label-by-label search of [Signers.Signature]
    with [Config.DomainFor], which validation checks senders against: a sender a user
    may use always has a key, of the right domain.  [keys_provisioned] says that
    provisioning never replaces a key. *)

From S2P Require Import Prelude Errors GoLib Capacity Utf8 Mailbox Text Base64 Password Paths SecretFiles.
From S2P Require Import Duration Users Netpolicy Discovery IpText Config ConfigFacts.
Open Scope Z_scope.

Definition keyBits : Z := 2048.
Definition maxPrivateKeyBytes : Z := Z.shiftl 1 20.

Inductive anyKey (Key : Type) := RSAKey (key : Key) | OtherKey.
Arguments RSAKey {Key} key.
Arguments OtherKey {Key}.

(** crypto/rsa, crypto/x509 and encoding/pem. *)
Record Crypto (Key : Type) := mkCrypto {
  pemDecode : string → option (string * string);
  pemEncode : string → string → string;
  ParsePKCS1 : string → res Key;
  ParsePKCS8 : string → res (anyKey Key);
  MarshalPKCS8 : Key → res string;
  MarshalPKIX : Key → res string;
  BitLen : Key → Z;
  keyCheck : Key → res unit
}.
Arguments pemDecode {Key}. Arguments pemEncode {Key}. Arguments ParsePKCS1 {Key}. Arguments ParsePKCS8 {Key}.
Arguments MarshalPKCS8 {Key}. Arguments MarshalPKIX {Key}. Arguments BitLen {Key}. Arguments keyCheck {Key}.

(** [Signer]: the options of the DKIM library and the key for the DNS record. *)
Record Signer (Key : Type) := mkSigner {
  gDomain : string;
  gSelector : string;
  gKey : Key;
  gHeaders : list string;
  gPublicKey : string
}.
Arguments mkSigner {Key}. Arguments gDomain {Key}. Arguments gSelector {Key}. Arguments gKey {Key}.
Arguments gHeaders {Key}. Arguments gPublicKey {Key}.

(** ** Choosing the identity *)

Section choice.
Context {A : Type}.

(** The loop of [Signers.Signature]: the name, then the name without its first
    label, and so on.  Every round drops a byte at least. *)
Fixpoint findSigner (fuel : nat) (signers : gmap string A) (domain : bytes) : option A :=
  match fuel with
  | O => None
  | S fuel =>
      match domain with
      | [] => None
      | _ =>
          match signers !! of_list domain with
          | Some s => Some s
          | None => findSigner fuel signers (cut_byte 46 domain).1.2
          end
      end
  end.

Definition signerFor (signers : gmap string A) (domain : string) : option A :=
  findSigner (S (String.length domain)) signers (str_list domain).

(** Cutting the first label loses no covering name but the name itself. *)
Lemma covers_cut n l : n ≠ "" → n ≠ of_list l →
  covers n (of_list l) ↔ covers n (of_list (cut_byte 46 l).1.2).
Proof.
  intros Hne Hn. unfold covers, cut_byte. rewrite str_list_of_list. destruct (index_byte 46 l) as [i|] eqn:Ei.
  - apply index_byte_Some in Ei as (c & Hl & Hc & Hfirst). cbn [fst snd]. rewrite str_list_of_list.
    assert (Hdot : c = chr 46) by (apply is_char_eq, is_char_true; by rewrite Hc). subst c.
    assert (Hsplit : l = take i l ++ chr 46 :: drop (S i) l) by (symmetry; by apply take_drop_middle).
    split.
    + intros [E|[k Hk]]; [by rewrite E in Hn|]. destruct (decide (i = length k)) as [-> |Hi].
      * left. rewrite Hk. replace (S (length k)) with (length (k ++ [chr 46])) by (rewrite length_app; cbn; lia).
        change (chr 46 :: str_list n) with ([chr 46] ++ str_list n).
        rewrite app_assoc, drop_app_length. by rewrite of_list_str_list.
      * right. exists (drop (S i) k). assert (i < length k)%nat as Hik.
        { destruct (decide (i < length k)%nat); [done|]. exfalso. apply (Hfirst (chr 46)); [|done].
          rewrite Hk, take_app_ge by lia. apply elem_of_app. right.
          destruct (i - length k)%nat eqn:Ek; [lia|]. left. }
        rewrite Hk. by rewrite drop_app_le by lia.
    + intros [E|[k Hk]]; right.
      * exists (take i l). rewrite <-E, str_list_of_list. done.
      * exists (take i l ++ chr 46 :: k). rewrite Hsplit at 1. rewrite Hk. by rewrite <-app_assoc.
  - cbn [fst snd]. split; [|by intros [E|[k Hk]]; [by rewrite <-E in Hne|destruct k]].
    intros [E|[k Hk]]; [by rewrite E in Hn|]. exfalso. rewrite index_byte_None in Ei. apply (Ei (chr 46)); [|done].
    rewrite Hk. apply elem_of_app. right. left.
Qed.

(** The value found is that of the longest key covering the name. *)
Lemma findSigner_best fuel m l : m !! "" = None → (length l < fuel)%nat →
  match findSigner fuel m l with
  | None => ∀ n s, m !! n = Some s → ¬ covers n (of_list l)
  | Some s => ∃ n, m !! n = Some s ∧ covers n (of_list l) ∧
      ∀ n' s', m !! n' = Some s' → covers n' (of_list l) → str_len n' ≤ str_len n
  end.
Proof.
  intros Hm. revert l. induction fuel as [|fuel IH]; intros l Hf; [lia|]. cbn [findSigner].
  destruct l as [|c l].
  { intros n s Hn [E|[k Hk]]; [|by destruct k]. cbn in E. by rewrite <-E, Hm in Hn. }
  destruct (m !! of_list (c :: l)) as [s|] eqn:Es.
  { exists (of_list (c :: l)). split_and!; [done|by left|]. intros n' s' _. apply covers_len. }
  assert (Hlt : (length (cut_byte 46 (c :: l)).1.2 < fuel)%nat).
  { unfold cut_byte. destruct (index_byte 46 (c :: l)); cbn [fst snd]; [rewrite length_drop|]; cbn in *; lia. }
  specialize (IH _ Hlt).
  assert (Hc : ∀ n s, m !! n = Some s →
            covers n (of_list (c :: l)) ↔ covers n (of_list (cut_byte 46 (c :: l)).1.2)).
  { intros n s Hn. apply covers_cut; intros E; [by rewrite E, Hm in Hn|by rewrite E, Es in Hn]. }
  destruct (findSigner fuel m _) as [s|].
  - destruct IH as (n & Hn & Hcov & Hmax). exists n. split_and!; [done|by apply (Hc n s)|].
    intros n' s' Hn' Hcov'. apply (Hmax n' s' Hn'). by apply (Hc n' s').
  - intros n s Hn Hcov. apply (IH n s Hn). by apply (Hc n s).
Qed.

(** Domains with distinct names are told apart by them. *)
Lemma same_domain ds m m' : NoDup (dName <$> ds) → m ∈ ds → m' ∈ ds → dName m = dName m' → m = m'.
Proof.
  intros Hn [i Hi]%list_elem_of_lookup_1 [j Hj]%list_elem_of_lookup_1 E.
  assert (i = j) as ->; [|congruence].
  eapply NoDup_lookup; [exact Hn| |]; rewrite list_lookup_fmap; [by rewrite Hi|]. rewrite Hj. cbn. by rewrite E.
Qed.

Lemma signerFor_best m d : m !! "" = None →
  match signerFor m d with
  | None => ∀ n s, m !! n = Some s → ¬ covers n d
  | Some s => ∃ n, m !! n = Some s ∧ covers n d ∧
      ∀ n' s', m !! n' = Some s' → covers n' d → str_len n' ≤ str_len n
  end.
Proof.
  intros Hm. unfold signerFor.
  pose proof (findSigner_best (S (String.length d)) m (str_list d) Hm) as Hb.
  rewrite length_str_list, of_list_str_list in Hb. apply Hb. lia.
Qed.
End choice.

(** ** Keys *)

Section keys.
Context {Key : Type} (C : Crypto Key).

Definition validateKey (key : Key) : res Key :=
  reject BitLen C key <? keyBits with Message "dkim RSA key must be at least 2048 bits" in
  match keyCheck C key with
  | Err e => Err (Wrap "invalid dkim RSA private key" e)
  | Ok _ => Ok key
  end.

Definition parseKey (body : string) : res Key :=
  match pemDecode C body with
  | None => Err (Message "dkim private key is not PEM encoded")
  | Some (type, der) =>
      if bool_decide (type = "RSA PRIVATE KEY") then let? key := ParsePKCS1 C der in validateKey key
      else if bool_decide (type = "PRIVATE KEY") then
        let? parsed := ParsePKCS8 C der in
        match parsed with
        | RSAKey key => validateKey key
        | OtherKey => Err (Message "unsupported dkim key type")
        end
      else Err (Message "unsupported PEM block")
  end.

Definition readKey (files : tree) (path : string) : res string :=
  ReadCheckedFile files path true false maxPrivateKeyBytes.

Definition loadKey (files : tree) (path : string) : res Key :=
  match readKey files path with
  | Err e => Err (Wrap "read dkim private key" e)
  | Ok body =>
      match parseKey body with Err e => Err (Wrap "parse dkim private key" e) | Ok key => Ok key end
  end.

(** [disk.WriteExclusive] on the tree: an existing object is left alone; [fault] is a
    failure with what it leaves of the file (nothing before the directory is synced,
    if the removal succeeds).  Missing parent directories, which the call creates first,
    are not entered into the tree here; [Certs.WriteExclusive] has them. *)
Definition WriteExclusive (files : tree) (path body : string) (fault : option (error * option string))
    : res unit * tree :=
  match files !! path with
  | Some _ => (Err (Errno 17), files)
  | None =>
      match fault with
      | Some (e, None) => (Err e, files)
      | Some (e, Some rest) => (Err e, <[path := Regular 384 rest]> files)
      | None => (Ok tt, <[path := Regular 384 body]> files)
      end
  end.

(** What one provisioning step meets: the new key, what others write meanwhile, the
    failure of the write. *)
Record keyWorld := mkKeyWorld { generate : res Key; others : tree → tree; writeFault : option (error * option string) }.

Definition ensureKey (kw : keyWorld) (files : tree) (path : string) : res (Key * bool) * tree :=
  match readKey files path with
  | Ok body => ((let? key := parseKey body in Ok (key, false)), files)
  | Err e =>
      if negb (errors_Is e ErrNotExist) then (Err e, files)
      else
        match (let? key := generate kw in let? encoded := MarshalPKCS8 C key in Ok (key, encoded)) with
        | Err e => (Err e, files)
        | Ok (key, encoded) =>
            let files := others kw files in
            match WriteExclusive files path (pemEncode C "PRIVATE KEY" encoded) (writeFault kw) with
            | (Ok _, files) => (Ok (key, true), files)
            | (Err e, files) =>
                if errors_Is e ErrExist then
                  ((let? body := readKey files path in let? key := parseKey body in Ok (key, false)), files)
                else (Err e, files)
            end
        end
  end.

Definition signer (domain : Domain) (key : Key) : res (Signer Key) :=
  let? public := MarshalPKIX C key in
  Ok (mkSigner (dName domain) (kSelector (dDKIM domain)) key (default [] (kHeaders (dDKIM domain)))
        (of_list (std_encode (str_list public)))).

(** [Signer.Record]. *)
Definition dkimRecord (s : Signer Key) : string := "v=DKIM1; k=rsa; h=sha256; p=" +:+ gPublicKey s.

Definition PublicKeys (signers : gmap string (Signer Key)) : gmap string string := gPublicKey <$> signers.
Definition Records (signers : gmap string (Signer Key)) : gmap string string := dkimRecord <$> signers.

Section load.
Variable cwd : string.
Variable lstatFault : string → option error.
Variable cfg : Config.

Definition dataDir : string :=
  filepath_Abs cwd (filepath_Clean (ResolvedDataDir cwd (cBaseDir cfg) (sDataDirectory (cServer cfg)))).

(** The path of a domain's key, checked. *)
Definition keyPath (files : tree) (domain : Domain) : res string :=
  let? path := ResolveGenerated cwd cfg (kPrivateKeyFile (dDKIM domain)) in
  let? _ := CheckGeneratedParents files lstatFault dataDir path in
  Ok path.

Definition fetchKey (kw : option keyWorld) (files : tree) (path : string) : res (Key * bool) * tree :=
  match kw with
  | Some kw => ensureKey kw files path
  | None => ((let? key := loadKey files path in Ok (key, false)), files)
  end.

(** The loop of [load]; [worlds] has one entry per domain when keys are provisioned. *)
Fixpoint loadDomains (worlds : nat → option keyWorld) (i : nat) (domains : list Domain)
    (publicKeys : gmap string string) (signers : gmap string (Signer Key)) (generated : bool) (files : tree)
    : res (gmap string (Signer Key)) * bool * tree :=
  match domains with
  | [] => (Ok signers, generated, files)
  | domain :: domains =>
      match keyPath files domain with
      | Err e => (Err (Wrap "DKIM" e), generated, files)
      | Ok path =>
          match fetchKey (worlds i) files path with
          | (Err e, files) => (Err (Wrap "DKIM" e), generated, files)
          | (Ok (key, created), files) =>
              let generated := generated || created in
              match signer domain key with
              | Err e => (Err (Wrap "DKIM" e), generated, files)
              | Ok loaded =>
                  match publicKeys !! gPublicKey loaded with
                  | Some _ => (Err (Message "DKIM domains must use distinct keys"), generated, files)
                  | None =>
                      loadDomains worlds (S i) domains (<[gPublicKey loaded := dName domain]> publicKeys)
                        (<[dName domain := loaded]> signers) generated files
                  end
              end
          end
      end
  end.

Definition load (worlds : nat → option keyWorld) (files : tree) : res (gmap string (Signer Key)) * bool * tree :=
  loadDomains worlds 0 (cDomains cfg) ∅ ∅ false files.

Definition Load (files : tree) : res (gmap string (Signer Key)) := (load (λ _, None) files).1.1.

Definition Ensure (worlds : nat → keyWorld) (files : tree) : res (gmap string (Signer Key)) * bool * tree :=
  load (λ i, Some (worlds i)) files.
End load.

(** ** Provisioning *)

(** Other processes create files but replace none. *)
Definition creates_only (kw : keyWorld) : Prop := ∀ files, files ⊆ others kw files.

Lemma WriteExclusive_keeps files path body fault : files ⊆ (WriteExclusive files path body fault).2.
Proof.
  unfold WriteExclusive. destruct (files !! path) eqn:E; [done|].
  destruct fault as [[e [rest|]]|]; cbn [snd]; [by apply insert_subseteq|done|by apply insert_subseteq].
Qed.

Lemma ensureKey_keeps kw files path : creates_only kw → files ⊆ (ensureKey kw files path).2.
Proof.
  intros Ho. unfold ensureKey. destruct (readKey files path); [done|].
  destruct (negb _); [done|]. destruct (let? key := _ in _) as [[key encoded]|]; [|done].
  pose proof (WriteExclusive_keeps (others kw files) path (pemEncode C "PRIVATE KEY" encoded) (writeFault kw)) as Hw.
  destruct (WriteExclusive _ _ _ _) as [[[]|e0] files']; cbn [snd] in *; [|destruct (errors_Is e0 ErrExist); cbn [snd]];
    (etransitivity; [apply Ho|exact Hw]).
Qed.

Lemma loadDomains_keeps cwd lf cfg worlds ds : (∀ i kw, worlds i = Some kw → creates_only kw) →
  ∀ i pks sg g files, files ⊆ (loadDomains cwd lf cfg worlds i ds pks sg g files).2.
Proof.
  intros Hw. induction ds as [|d ds IH]; intros i pks sg g files; cbn [loadDomains]; [done|].
  destruct (keyPath _ _ _ _ _) as [path|]; [|done].
  assert (Hf : files ⊆ (fetchKey (worlds i) files path).2).
  { unfold fetchKey. destruct (worlds i) as [kw|] eqn:Ek; [|done]. apply ensureKey_keeps. by eapply Hw. }
  destruct (fetchKey _ _ _) as [[[key created]|] files']; cbn [snd] in *; [|done].
  destruct (signer d key) as [loaded|]; [|done]. destruct (pks !! _); [done|].
  etransitivity; [exact Hf|apply IH].
Qed.

(** What was loaded, for the domains [done] so far. *)
Record loaded_ok (done_ : list Domain) (pks : gmap string string) (sg : gmap string (Signer Key)) : Prop := {
  lk_from : ∀ n s, sg !! n = Some s → pks !! gPublicKey s = Some n ∧
    ∃ d, d ∈ done_ ∧ dName d = n ∧ signer d (gKey s) = Ok s;
  lk_all : ∀ d, d ∈ done_ → is_Some (sg !! dName d)
}.

Lemma loadDomains_ok cwd lf cfg worlds ds : ∀ done_ i pks sg g files sg' g' files',
  NoDup (dName <$> done_ ++ ds) → loaded_ok done_ pks sg →
  loadDomains cwd lf cfg worlds i ds pks sg g files = (Ok sg', g', files') →
  ∃ pks', loaded_ok (done_ ++ ds) pks' sg'.
Proof.
  induction ds as [|d ds IH]; intros done_ i pks sg g files sg' g' files' Hn Hok; cbn [loadDomains].
  { intros [= <- <- <-]. rewrite app_nil_r. eauto. }
  destruct (keyPath _ _ _ _ _) as [path|]; [|done].
  destruct (fetchKey _ _ _) as [[[key created]|] files1]; [|done].
  destruct (signer d key) as [loaded|] eqn:Es; [|done]. destruct (pks !! gPublicKey loaded) eqn:Ep; [done|].
  intros Hl. replace (done_ ++ d :: ds) with ((done_ ++ [d]) ++ ds) in * by (by rewrite <-app_assoc).
  eapply IH; [exact Hn| |exact Hl]. destruct Hok as [Hfrom Hall].
  assert (Hk : signer d (gKey loaded) = Ok loaded).
  { unfold signer in Es |- *. destruct (MarshalPKIX C key) eqn:Em; [|done]. injection Es as <-. cbn. by rewrite Em. }
  assert (Hnew : ∀ x, x ∈ done_ → dName x ≠ dName d).
  { intros x Hx E. rewrite !fmap_app in Hn. apply NoDup_app in Hn as (Hn & _ & _).
    apply NoDup_app in Hn as (_ & Hd & _). apply (Hd (dName x)); [apply list_elem_of_fmap; eauto|].
    rewrite E. left. }
  split.
  - intros n s [[<- <-]|[Hne Hs]]%lookup_insert_Some.
    + split; [by rewrite lookup_insert_eq|]. exists d. split_and!; [apply elem_of_app; right; left|done|done].
    + destruct (Hfrom n s Hs) as [Hp (x & Hx & Hxn & Hxs)]. split.
      * rewrite lookup_insert_ne; [done|]. intros E. by rewrite E, Hp in Ep.
      * exists x. split_and!; [apply elem_of_app; by left|done..].
  - intros x [Hx| ->%list_elem_of_singleton]%elem_of_app.
    + rewrite lookup_insert_ne; [by apply Hall|]. intros E. by apply (Hnew x).
    + by rewrite lookup_insert_eq.
Qed.

Lemma load_ok cwd lf cfg worlds files sg g files' :
  NoDup (dName <$> cDomains cfg) → load cwd lf cfg worlds files = (Ok sg, g, files') →
  ∃ pks, loaded_ok (cDomains cfg) pks sg.
Proof.
  intros Hn Hl. apply (loadDomains_ok _ _ _ _ _ [] _ _ _ _ _ _ _ _ Hn) in Hl; [done|]. split.
  - intros n s Hs. by rewrite lookup_empty in Hs.
  - by intros d ?%elem_of_nil.
Qed.

(** [Signers.Signature]: the identity, then the DKIM library. *)
Section signature.
Variable ToASCII : string → res string.
Variable dkimSign : Signer Key → bytes → res string.

Definition Signature (signers : gmap string (Signer Key)) (from : string) (message : bytes) : res string :=
  let? domain := DomainOf ToASCII from in
  match signerFor signers domain with
  | Some s => dkimSign s message
  | None => Err (Message "no DKIM identity for From")
  end.
End signature.
End keys.

(** ** The identity of a message *)

Lemma TrimSuffix_none s suffix : HasSuffix s suffix = false → TrimSuffix s suffix = s.
Proof. unfold TrimSuffix. by intros ->. Qed.

(** A routing domain is lower-case ASCII and does not end in a dot. *)
Lemma routing_plain ToASCII `{!IdnaProfile ToASCII} x fqdn d : asciiDomain ToASCII x fqdn = Ok d →
  is_ascii d = true ∧ ToLower d = d ∧ TrimSuffix d "." = d.
Proof.
  intros Hd. destruct (asciiDomain_name _ _ _ _ Hd) as (_ & Hl & _ & _ & Hlab). split_and!; [|done|].
  - unfold asciiDomain in Hd. res_inv Hd. injection Hd as <-.
    match goal with Ht : ToASCII x = Ok ?a |- _ => pose proof (host_lower a (idna_host _ _ Ht)) as Hc end.
    unfold is_ascii. apply forallb_forall. intros c Hin%list_elem_of_In. apply Z.ltb_lt. by apply Hc.
  - apply TrimSuffix_none. unfold HasSuffix. change (rev (str_list ".")) with ["."%char].
    apply (split_dots (str_list d)). unfold Split in Hlab. rewrite Forall_fmap in Hlab.
    destruct (split_list 46 (str_list d)) as [|w ws]; [done|]. inversion Hlab as [|? ? _ Hws]; subst.
    cbn [tail]. eapply Forall_impl; [exact Hws|]. intros v [Hv _] ->. done.
Qed.

Section identity.
Context `{CaseTables} `{AddressParser} `{UrlParser}.
Context (ToASCII : string → res string) `{!IdnaProfile ToASCII}.
Context {Key : Type} (C : Crypto Key).
Variable scaled : Z → Z → Z → Z.
Variable cwd : string.
Variable lstatFault : string → option error.

(** The search by labels finds the identity of [DomainFor]. *)
Lemma signerFor_domain cfg c worlds files signers g files' x fqdn d :
  Config.Validate ToASCII scaled cwd cfg = Ok c →
  load C cwd lstatFault c worlds files = (Ok signers, g, files') →
  asciiDomain ToASCII x fqdn = Ok d →
  match DomainFor c d with
  | None => signerFor signers d = None
  | Some m => covers (dName m) d ∧ ∃ s, signerFor signers d = Some s ∧ signer C m (gKey s) = Ok s
  end.
Proof.
  intros Hv%Validate_inv Hl Hx. destruct (validated_domains _ _ _ _ _ Hv) as (_ & Hg & Hn).
  destruct (load_ok C _ _ _ _ _ _ _ _ Hn Hl) as (pks & Hfrom & Hall).
  destruct (routing_plain _ _ _ _ Hx) as (Ha & Hlow & Htrim).
  pose proof (DomainFor_spec c d) as Hb. rewrite Htrim, lower_ascii, Hlow in Hb by done.
  rewrite Forall_forall in Hg.
  assert (Hne : signers !! "" = None).
  { destruct (signers !! "") as [s|] eqn:E; [|done]. destruct (Hfrom _ _ E) as [_ (m & Hm & He & _)].
    by destruct (gn_some _ (Hg m Hm)). }
  pose proof (signerFor_best signers d Hne) as Hs. destruct (DomainFor c d) as [m|]; cbn [best] in Hb.
  - destruct Hb as (Hm & Hcov & Hmax). split; [done|]. destruct (Hall m Hm) as [sm Hsm].
    destruct (signerFor signers d) as [s|]; [|by destruct (Hs _ _ Hsm)].
    destruct Hs as (n & Hns & Hcn & Hlong). exists s. split; [done|].
    destruct (Hfrom n s Hns) as [_ (m' & Hm' & Hnm & Hsig)]. subst n.
    assert (dName m = dName m') as E.
    { apply (covers_same _ _ d Hcov Hcn). pose proof (Hlong _ _ Hsm Hcov). pose proof (Hmax m' Hm' Hcn). lia. }
    by rewrite (same_domain _ _ _ Hn Hm Hm' E).
  - destruct (signerFor signers d) as [s|]; [|done]. destruct Hs as (n & Hns & Hcn & _).
    destruct (Hfrom n s Hns) as [_ (m & Hm & <- & _)]. by destruct (Hb m Hm).
Qed.

(** A message is signed by the most specific configured domain covering its From
    address: for every From with a routable domain, the label-by-label search of
    [Signature] over the loaded keys and [DomainFor] over the configuration agree,
    the signature carries that domain, its selector and its headers, and where no
    configured domain covers the address nothing is signed. *)
Theorem signature_identity cfg c worlds files signers g files' from d dkimSign message :
  Config.Validate ToASCII scaled cwd cfg = Ok c →
  load C cwd lstatFault c worlds files = (Ok signers, g, files') →
  DomainOf ToASCII from = Ok d →
  match DomainFor c d with
  | None => Signature ToASCII dkimSign signers from message = Err (Message "no DKIM identity for From")
  | Some m => covers (dName m) d ∧
      (∀ m', m' ∈ cDomains c → covers (dName m') d → str_len (dName m') ≤ str_len (dName m)) ∧
      ∃ s, Signature ToASCII dkimSign signers from message = dkimSign s message ∧
        gDomain s = dName m ∧ gSelector s = kSelector (dDKIM m) ∧ gHeaders s = default [] (kHeaders (dDKIM m))
  end.
Proof.
  intros Hv Hl Hd. unfold Signature. rewrite Hd. cbn [res_bind].
  unfold DomainOf in Hd. res_inv Hd. unfold RoutingDomain in Hd.
  pose proof (signerFor_domain _ _ _ _ _ _ _ _ _ _ Hv Hl Hd) as Hs.
  destruct (routing_plain _ _ _ _ Hd) as (Ha & Hlow & Htrim).
  pose proof (DomainFor_spec c d) as Hb. rewrite Htrim, lower_ascii, Hlow in Hb by done.
  destruct (DomainFor c d) as [m|]; [|by rewrite Hs]. destruct Hs as [Hcov (s & -> & Hsig)].
  split_and!; [done|by apply Hb|]. exists s. split; [done|]. unfold signer in Hsig. res_inv Hsig.
  by injection Hsig as <-.
Qed.

(** *** A sender a user may use has a key *)

Lemma lower_at c : is_char 64 (lower_char c) = is_char 64 c.
Proof.
  unfold lower_char. destruct (is_upper c) eqn:Eu; [|done]. unfold is_upper, between in Eu.
  unfold is_char. rewrite byte_val_chr by lia. lia.
Qed.

Lemma lower_no_at x y : ToLower x = ToLower y → (∀ c, c ∈ str_list y → byte_val c ≠ 64) →
  ∀ c, c ∈ str_list x → byte_val c ≠ 64.
Proof.
  intros E Hy c Hc Hb. apply (f_equal str_list) in E. unfold ToLower in E. rewrite !str_list_of_list in E.
  assert (Hin : lower_char c ∈ map lower_char (str_list x)) by (by apply list_elem_of_fmap_2).
  rewrite E in Hin. apply list_elem_of_fmap in Hin as (d & Hd & Hdy). apply (Hy d Hdy).
  apply is_char_true. rewrite <-lower_at, <-Hd, lower_at. by apply is_char_true.
Qed.

Lemma elem_of_drop_inv {A} i (l : list A) x : x ∈ drop i l → ∃ j, l !! j = Some x ∧ (i ≤ j)%nat.
Proof. intros [j Hj]%list_elem_of_lookup_1. rewrite lookup_drop in Hj. exists (i + j)%nat. split; [done|lia]. Qed.

Lemma ascii_drop i s : is_ascii s = true → is_ascii (str_drop i s) = true.
Proof.
  unfold is_ascii, str_drop. rewrite str_list_of_list, !forallb_forall. intros Ha c Hc. apply Ha.
  apply list_elem_of_In. apply list_elem_of_In, elem_of_drop_inv in Hc as (j & Hj & _). by eapply list_elem_of_lookup_2.
Qed.

Lemma after_last_at s i : last_index 64 (str_list s) = Some i → ∀ c, c ∈ str_list (str_drop (i + 1) s) → byte_val c ≠ 64.
Proof.
  intros Hi c. unfold str_drop. rewrite str_list_of_list. intros (j & Hj & Hle)%elem_of_drop_inv Hb.
  apply last_index_Some in Hi as (x & _ & _ & Hmax). specialize (Hmax j c Hj Hb). lia.
Qed.

(** The part of a matching allowed sender after its last at sign is the address's
    domain up to letter case. *)
Lemma allowed_domain loc D sender :
  sender_allows loc D sender = true → is_ascii sender = true → is_ascii D = true →
  (∀ c, c ∈ str_list D → byte_val c ≠ 64) →
  senderDomain sender = ToLower D.
Proof.
  intros Hs Ha HaD HD. unfold sender_allows in Hs. unfold senderDomain, LastIndexByte, after_at.
  destruct (HasPrefix sender "*@" && EqualFold (str_drop 2 sender) D) eqn:E.
  - apply andb_true_iff in E as [Hp Ef]. rewrite fold_ascii in Ef by (done || by apply ascii_drop).
    apply bool_decide_eq_true_1 in Ef. unfold HasPrefix in Hp. apply is_prefix_true in Hp as [k Hk].
    assert (Hdrop : str_list (str_drop 2 sender) = k) by (unfold str_drop; by rewrite str_list_of_list, Hk).
    pose proof (lower_no_at _ _ Ef HD) as Hno. rewrite Hdrop in Hno.
    assert (last_index 64 (str_list sender) = Some 1%nat) as ->.
    { rewrite Hk. change (str_list "*@" ++ k) with ([chr 42] ++ chr 64 :: k). by apply last_index_app. }
    change (Z.to_nat (Z.of_nat 1 + 1)) with 2%nat. by rewrite lower_ascii, Ef by (by apply ascii_drop).
  - destruct (last_index 64 (str_list sender)) as [k|]; [|done].
    apply andb_true_iff in Hs as [_ Ef]. rewrite fold_ascii in Ef by (done || by apply ascii_drop).
    apply bool_decide_eq_true_1 in Ef. replace (Z.to_nat (Z.of_nat k + 1)) with (k + 1)%nat by lia.
    by rewrite lower_ascii, Ef by (by apply ascii_drop).
Qed.

(** What the IDNA profile does to ASCII names: nothing but letter case. *)
Hypothesis idna_ascii : ∀ x a, is_ascii x = true → ToASCII x = Ok a → ToLower a = ToLower x.

Lemma asciiDomain_lower x fqdn d : is_ascii x = true → asciiDomain ToASCII x fqdn = Ok d → d = ToLower x.
Proof.
  intros Ha Hd. unfold asciiDomain in Hd. res_inv Hd. injection Hd as <-. by apply idna_ascii.
Qed.

(** Whoever may send as an address can have it signed.  In an accepted
    configuration with its keys loaded, every ASCII address an account is allowed to
    use and whose domain can be routed has a DKIM identity: the key of a configured
    domain that is the address's domain or a parent of it. *)
Theorem allowed_sender_signed cfg c worlds files signers g files' u from d dkimSign message :
  Config.Validate ToASCII scaled cwd cfg = Ok c →
  load C cwd lstatFault c worlds files = (Ok signers, g, files') →
  u ∈ cUsers c → Forall (λ s, is_ascii s = true) (AllowedSenders u) →
  is_ascii from = true → TrimSpace from = from →
  Allows u from = true → DomainOf ToASCII from = Ok d →
  ∃ m s, m ∈ cDomains c ∧ covers (dName m) d ∧ gDomain s = dName m ∧
    Signature ToASCII dkimSign signers from message = dkimSign s message.
Proof.
  intros Hv Hl Hu Has Ha Htrim Hallow Hd. unfold Signature. rewrite Hd. cbn [res_bind].
  unfold DomainOf in Hd. res_inv Hd. unfold RoutingDomain in Hd.
  unfold Allows in Hallow. rewrite Htrim in Hallow. unfold LastIndexByte, after_at in Hd.
  destruct (last_index 64 (str_list from)) as [i|] eqn:Ei; [|done].
  destruct (_ || _) in Hallow; [done|]. replace (Z.to_nat (Z.of_nat i + 1)) with (i + 1)%nat in Hd by lia.
  apply existsb_exists in Hallow as (sender & Hin%list_elem_of_In & Hallow). rewrite Forall_forall in Has.
  apply allowed_domain in Hallow; [|by apply Has|by apply ascii_drop|by apply after_last_at].
  rewrite <-(asciiDomain_lower _ _ _ (ascii_drop _ _ Ha) Hd) in Hallow.
  pose proof (signerFor_domain _ _ _ _ _ _ _ _ _ _ Hv Hl Hd) as Hs.
  pose proof (DomainFor_spec c d) as Hb.
  apply Validate_inv in Hv. pose proof (va_users _ _ _ _ _ Hv) as Hus.
  apply validateUsers_ok in Hus as [Hus _]. rewrite Forall_forall in Hus. destruct (Hus u Hu) as [_ Hdom].
  rewrite Forall_forall in Hdom. specialize (Hdom sender Hin). rewrite Hallow in Hdom.
  destruct (DomainFor c d) as [m|]; [|done]. destruct Hs as [Hcov (s & -> & Hsig)]. exists m, s.
  split_and!; [by apply Hb|done| |done]. unfold signer in Hsig. res_inv Hsig. by injection Hsig as <-.
Qed.

(** C37: Keys are never replaced and never shared.  Provisioning leaves every file
    that exists as it is, whoever created it and whatever fails, as long as other
    processes only create files; loading writes nothing.  When the keys of an accepted
    configuration load, each configured domain has one, with its own selector and
    headers, and no two domains publish the same key. *)
Theorem keys_provisioned cfg c worlds files r g files' :
  Config.Validate ToASCII scaled cwd cfg = Ok c →
  (∀ i kw, worlds i = Some kw → creates_only kw) →
  load C cwd lstatFault c worlds files = (r, g, files') →
  files ⊆ files' ∧ ((∀ i, worlds i = None) → files' = files ∧ g = false) ∧
  ∀ signers, r = Ok signers →
    (∀ m, m ∈ cDomains c → ∃ s, signers !! dName m = Some s ∧ signer C m (gKey s) = Ok s) ∧
    ∀ n n' s s', signers !! n = Some s → signers !! n' = Some s' → gPublicKey s = gPublicKey s' → n = n'.
Proof.
  intros Hv%Validate_inv Hw Hl. destruct (validated_domains _ _ _ _ _ Hv) as (_ & _ & Hn). split_and!.
  - pose proof (loadDomains_keeps C cwd lstatFault c worlds (cDomains c) Hw 0 ∅ ∅ false files) as Hk.
    unfold load in Hl. by rewrite Hl in Hk.
  - intros Hnone. unfold load in Hl. revert Hl. generalize 0%nat, (∅ : gmap string string), (∅ : gmap string (Signer Key)).
    induction (cDomains c) as [|m ms IH]; intros i pks sg; cbn [loadDomains]; [by intros [= _ <- <-]|].
    destruct (keyPath _ _ _ _ _); [|by intros [= _ <- <-]]. unfold fetchKey. rewrite Hnone.
    destruct (loadKey C files _) as [key|]; cbn [res_bind]; [|by intros [= _ <- <-]].
    destruct (signer C m key); [|by intros [= _ <- <-]]. destruct (pks !! _); [by intros [= _ <- <-]|].
    apply IH. inversion Hn. done.
  - intros signers ->. destruct (load_ok C _ _ _ _ _ _ _ _ Hn Hl) as (pks & Hfrom & Hall). split.
    + intros m Hm. destruct (Hall m Hm) as [s Hs]. exists s. split; [done|].
      destruct (Hfrom _ _ Hs) as [_ (m' & Hm' & E & Hsig)].
      by rewrite <-(same_domain _ _ _ Hn Hm' Hm E).
    + intros n n' s s' Hs Hs' E. destruct (Hfrom _ _ Hs) as [Hp _], (Hfrom _ _ Hs') as [Hp' _]. congruence.
Qed.
End identity.

(** ** Samples *)

#[local] Existing Instances plainParser mailtoParser.

Definition sampleCrypto : Crypto string := {|
  pemDecode s := Some ("PRIVATE KEY", s); pemEncode _ s := s; ParsePKCS1 s := Ok s; ParsePKCS8 s := Ok (RSAKey s);
  MarshalPKCS8 k := Ok k; MarshalPKIX k := Ok k; BitLen _ := 2048; keyCheck _ := Ok tt |}.

Definition sampleKeys : tree := <["/srv/data/dkim/example.key" := Regular 384 "key one"]> ∅.

Definition sampleWorlds (i : nat) : option (@keyWorld string) :=
  Some (mkKeyWorld (Ok "key two") (λ files, files) None).

Definition sampleLoad := load sampleCrypto "/" (λ _, None) sampleConfigured sampleWorlds sampleKeys.

Definition sampleSigners : gmap string (Signer string) :=
  match sampleLoad.1.1 with Ok signers => signers | Err _ => ∅ end.

Lemma sampleLoad_ok : sampleLoad = (Ok sampleSigners, sampleLoad.1.2, sampleLoad.2).
Proof. vm_compute. reflexivity. Qed.

Lemma sampleIDNA_ascii x a : is_ascii x = true → sampleIDNA x = Ok a → ToLower a = ToLower x.
Proof. unfold sampleIDNA. destruct (forallb _ _); [|done]. by intros _ [= ->]. Qed.

Definition sampleSign (s : Signer string) (message : bytes) : res string := Ok (gDomain s).

Lemma sampleDomainFor :
  dName <$> DomainFor sampleConfigured "lists.mail.example.org" = Some "mail.example.org".
Proof. vm_compute. reflexivity. Qed.

Lemma signature_identity_witness :
  Signature sampleIDNA sampleSign sampleSigners "bob@lists.mail.example.org" [] = Ok "mail.example.org".
Proof.
  pose proof (signature_identity sampleIDNA sampleCrypto (λ f u d, 0) "/" (λ _, None) sampleWritten sampleConfigured
    sampleWorlds sampleKeys sampleSigners sampleLoad.1.2 sampleLoad.2 "bob@lists.mail.example.org"
    "lists.mail.example.org" sampleSign [] sampleConfigured_ok sampleLoad_ok eq_refl) as Hs.
  pose proof sampleDomainFor as Hm. destruct (DomainFor sampleConfigured "lists.mail.example.org") as [m|];
    [|discriminate Hm]. destruct Hs as (_ & _ & s & Hs & Hd & _).
  rewrite Hs. unfold sampleSign. rewrite Hd. injection Hm as ->. reflexivity.
Defined.

Lemma allowed_sender_signed_witness :
  ∃ m, m ∈ cDomains sampleConfigured ∧
    Signature sampleIDNA sampleSign sampleSigners "Bob@Lists.Example.org" [] = Ok (dName m).
Proof.
  destruct (allowed_sender_signed sampleIDNA sampleCrypto (λ f u d, 0) "/" (λ _, None) sampleIDNA_ascii
    sampleWritten sampleConfigured sampleWorlds sampleKeys sampleSigners sampleLoad.1.2 sampleLoad.2
    sampleAccount "Bob@Lists.Example.org" "lists.example.org" sampleSign []) as (m & s & Hm & _ & Hd & Hs);
    [exact sampleConfigured_ok|exact sampleLoad_ok|left|repeat constructor|reflexivity|vm_compute; reflexivity
    |vm_compute; reflexivity|vm_compute; reflexivity|].
  exists m. split; [exact Hm|]. rewrite Hs. unfold sampleSign. by rewrite Hd.
Defined.

Lemma keys_provisioned_witness :
  sampleKeys ⊆ sampleLoad.2 ∧ ∀ n n' s s', sampleSigners !! n = Some s → sampleSigners !! n' = Some s' →
    gPublicKey s = gPublicKey s' → n = n'.
Proof.
  destruct (keys_provisioned sampleIDNA sampleCrypto (λ f u d, 0) "/" (λ _, None) sampleWritten sampleConfigured
    sampleWorlds sampleKeys (Ok sampleSigners) sampleLoad.1.2 sampleLoad.2) as (Hk & _ & Hs);
    [exact sampleConfigured_ok|intros i kw [= <-] files; reflexivity|exact sampleLoad_ok|].
  split; [exact Hk|]. exact (proj2 (Hs sampleSigners eq_refl)).
Defined.
