(* ===== verification/WkdHash.v ===== *)
(** * The name of a key in a web key directory (src/internal/openpgp/publish.go)

    [wkdHash] encodes the SHA-1 digest of a local part in z-base-32 with a 32-bit
    accumulator that overflows on the way.  [wkd_hash_groups]: the result is the
    digest's 160 bits read as 32 groups of five. *)

From S2P Require Import Prelude Errors GoLib Sha256 Capacity Utf8 Mailbox Text Base64.
Open Scope Z_scope.

(** ** crypto/sha1 *)

Module Sha1.
Definition rotl (x n : Z) : Z := Z.lor (w32 (Z.shiftl x n)) (Z.shiftr x (32 - n)).

Definition initial : list Z := [1732584193; 4023233417; 2562383102; 271733878; 3285377520].

(** The schedule, newest word first. *)
Fixpoint extend (n : nat) (w : list Z) : list Z :=
  match n with
  | O => w
  | S n => extend n (rotl (Z.lxor (Z.lxor (nth 2 w 0) (nth 7 w 0)) (Z.lxor (nth 13 w 0) (nth 15 w 0))) 1 :: w)
  end.

Record state := mkState { sa : Z; sb : Z; sc : Z; sd : Z; se : Z }.

Definition mix (t : nat) (s : state) : Z * Z :=
  if (t <? 20)%nat then (Z.lor (Z.land (sb s) (sc s)) (Z.land (Z.lxor (sb s) 4294967295) (sd s)), 1518500249)
  else if (t <? 40)%nat then (Z.lxor (Z.lxor (sb s) (sc s)) (sd s), 1859775393)
  else if (t <? 60)%nat then
    (Z.lor (Z.lor (Z.land (sb s) (sc s)) (Z.land (sb s) (sd s))) (Z.land (sc s) (sd s)), 2400959708)
  else (Z.lxor (Z.lxor (sb s) (sc s)) (sd s), 3395469782).

Definition round (s : state) (tw : nat * Z) : state :=
  let '(f, k) := mix tw.1 s in
  mkState (w32 (rotl (sa s) 5 + f + se s + k + tw.2)) (sa s) (rotl (sb s) 30) (sc s) (sd s).

Definition compress (h block : list Z) : list Z :=
  let w := rev (extend 64 (rev (words block))) in
  let s := fold_left round (combine (seq 0 80) w) (mkState (nth 0 h 0) (nth 1 h 0) (nth 2 h 0) (nth 3 h 0) (nth 4 h 0)) in
  zip_with (λ a b, w32 (a + b)) h [sa s; sb s; sc s; sd s; se s].

Fixpoint blocks (fuel : nat) (h l : list Z) : list Z :=
  match fuel with
  | O => h
  | S fuel => match l with [] => h | _ => blocks fuel (compress h (take 64 l)) (drop 64 l) end
  end.

Lemma sha1_compress_length h b : length h = 5%nat → length (compress h b) = 5%nat.
Proof. intros Hh. unfold compress. rewrite length_zip_with, Hh. done. Qed.

Lemma sha1_blocks_length fuel h l : length h = 5%nat → length (blocks fuel h l) = 5%nat.
Proof.
  revert h l. induction fuel as [|fuel IH]; intros h l Hh; simpl; [done|].
  destruct l; [done|]. apply IH. by apply sha1_compress_length.
Qed.
End Sha1.

(** [sha1.Sum]: the 20 digest bytes. *)
Definition Sum1 (s : string) : list Z :=
  let msg := pad (byte_val <$> str_list s) in
  mjoin (be_bytes 4 <$> Sha1.blocks (S (length msg / 64)%nat) Sha1.initial msg).

Example sha1_abc : EncodeToString (of_list (chr <$> Sum1 "abc")) = "a9993e364706816aba3e25717850c26c9cd0d89d".
Proof. vm_compute. reflexivity. Qed.

Lemma length_Sum1 s : length (Sum1 s) = 20%nat.
Proof. unfold Sum1. rewrite length_join_be, Sha1.sha1_blocks_length by done. done. Qed.

Lemma be_bytes_range n z : Forall (λ b, 0 ≤ b < 256) (be_bytes n z).
Proof.
  induction n as [|n IH]; cbn [be_bytes]; constructor; [|done].
  change 255 with (Z.ones 8). rewrite Z.land_ones by lia. apply Z.mod_pos_bound. lia.
Qed.

Lemma Sum1_bytes s : Forall (λ b, 0 ≤ b < 256) (Sum1 s).
Proof.
  unfold Sum1. generalize (Sha1.blocks (S (length (pad (byte_val <$> str_list s)) / 64)%nat) Sha1.initial (pad (byte_val <$> str_list s))).
  induction l as [|x l IH]; [constructor|].
  change (Forall (λ b, 0 ≤ b < 256) (be_bytes 4 x ++ mjoin (be_bytes 4 <$> l))). apply Forall_app. split; [apply be_bytes_range|done].
Qed.

(** ** z-base-32 *)

Definition zBase32Alphabet : string := "ybndrfg8ejkmcpqxot1uwisza345h769".

Definition zchar (v : Z) : ascii := default (chr 0) (str_list zBase32Alphabet !! Z.to_nat v).

(** The inner loop; at most twelve bits are pending. *)
Fixpoint drain (fuel : nat) (accumulator bits : Z) (encoded : list ascii) : Z * list ascii :=
  match fuel with
  | O => (bits, encoded)
  | S fuel =>
      if 5 <=? bits then
        let bits := bits - 5 in
        drain fuel accumulator bits (encoded ++ [zchar (Z.land (Z.shiftr accumulator bits) 31)])
      else (bits, encoded)
  end.

Definition maxDrains : nat := 3.

Fixpoint encodeDigest (digest : list Z) (accumulator bits : Z) (encoded : list ascii) : list ascii :=
  match digest with
  | [] => encoded
  | value :: digest =>
      let accumulator := Z.lor (w32 (Z.shiftl accumulator 8)) value in
      let '(bits, encoded) := drain maxDrains accumulator (bits + 8) encoded in
      encodeDigest digest accumulator bits encoded
  end.

Definition wkdHash (local : string) : string := of_list (encodeDigest (Sum1 local) 0 0 []).

Example wkdHash_joe : wkdHash "joe.doe" = "iy9q119eutrkn8s1mk4r39qejnbu3n5q".
Proof. vm_compute. reflexivity. Qed.

(** ** Names (publish.go) *)

(** [strings.Map] over the runes: an invalid byte becomes U+FFFD. *)
Fixpoint validRunes (rs : list (Z * bool)) (l : bytes) : bytes :=
  match rs with
  | [] => []
  | r :: rs =>
      (if r.2 then take (rune_bytes r) l else [chr 239; chr 191; chr 189]) ++ validRunes rs (drop (rune_bytes r) l)
  end.

(** Bytes of longer runes are above the upper-case letters. *)
Definition wkdLocalPart (local : string) : string :=
  of_list (map lower_char (validRunes (runes (str_list local)) (str_list local))).

Section names.
Variable ToASCII : string → res string.

Definition splitSender (sender : string) : res (string * string) :=
  let at_ := LastIndexByte sender 64 in
  reject (at_ <=? 0) || (at_ =? str_len sender - 1) with Message "invalid sender" in
  match RoutingDomain ToASCII (after_at sender at_) with
  | Err e => Err (Wrap "invalid publication domain for sender" e)
  | Ok domain => Ok (str_take (Z.to_nat at_) sender, domain)
  end.

(** [OpenPGPKeyOwner]; [nfc] is [norm.NFC.String]. *)
Definition OpenPGPKeyOwner (nfc : string → string) (sender : string) : res string :=
  let? (local, domain) := splitSender sender in
  Ok (EncodeToString (str_take 28 (Sum256 (nfc local))) +:+ "._openpgpkey." +:+ domain +:+ ".").
End names.

(** ** Groups of five bits *)

Fixpoint digestValue (n : Z) (digest : list Z) : Z :=
  match digest with [] => n | b :: digest => digestValue (n * 256 + b) digest end.

(** Group [i] of a number of [bits] bits, from its high end. *)
Definition group5 (value bits : Z) (i : nat) : Z := Z.land (Z.shiftr value (bits - 5 * (Z.of_nat i + 1))) 31.

Definition groups (value bits : Z) : list ascii := (λ i, zchar (group5 value bits i)) <$> seq 0 (Z.to_nat (bits / 5)).

Lemma land31 a s : 0 ≤ s → Z.land (Z.shiftr a s) 31 = a / 2 ^ s mod 32.
Proof. intros Hs. change 31 with (Z.ones 5). by rewrite Z.land_ones, Z.shiftr_div_pow2 by lia. Qed.

Lemma w32_mod z : w32 z = z mod 2 ^ 32.
Proof. unfold w32. change 4294967295 with (Z.ones 32). by rewrite Z.land_ones by lia. Qed.

(** The accumulator keeps the low 32 bits. *)
Lemma accumulate n b : 0 ≤ b < 256 → Z.lor (w32 (Z.shiftl (n mod 2 ^ 32) 8)) b = (n * 256 + b) mod 2 ^ 32.
Proof.
  intros Hb. rewrite w32_mod, Z.shiftl_mul_pow2 by lia.
  assert (E : (n mod 2 ^ 32 * 2 ^ 8) mod 2 ^ 32 = Z.shiftl ((n * 256) mod 2 ^ 32 / 256) 8).
  { rewrite Z.shiftl_mul_pow2 by lia. change (2 ^ 8) with 256. change (2 ^ 32) with 4294967296. Z.div_mod_to_equations. lia. }
  rewrite E, shiftl_lor by lia. change (2 ^ 8) with 256. change (2 ^ 32) with 4294967296. Z.div_mod_to_equations. lia.
Qed.

(** The low bits are enough for a group near the end. *)
Lemma window_bits n s : 0 ≤ s ≤ 7 → Z.land (Z.shiftr (n mod 2 ^ 32) s) 31 = Z.land (Z.shiftr n s) 31.
Proof.
  intros Hs. apply Z.bits_inj'. intros i Hi. rewrite !Z.land_spec, !Z.shiftr_spec by lia.
  destruct (decide (i < 5)).
  - by rewrite Z.mod_pow2_bits_low by lia.
  - change 31 with (Z.ones 5). rewrite Z.ones_spec_high by lia. by rewrite !andb_false_r.
Qed.

Lemma digestValue_spec digest : ∀ n, Forall (λ b, 0 ≤ b < 256) digest →
  n * 256 ^ Z.of_nat (length digest) ≤ digestValue n digest < (n + 1) * 256 ^ Z.of_nat (length digest).
Proof.
  induction digest as [|b digest IH]; intros n; [intros _; cbn; lia|]. intros [Hb Hd]%Forall_cons. cbn [digestValue length].
  specialize (IH (n * 256 + b) Hd). rewrite Nat2Z.inj_succ, Z.pow_succ_r by lia.
  set (p := 256 ^ Z.of_nat (length digest)) in *. assert (0 < p) by (unfold p; lia). nia.
Qed.

(** The groups that start within the first byte do not depend on what follows. *)
Lemma shift_digest digest n s : 0 ≤ s → Forall (λ b, 0 ≤ b < 256) digest →
  Z.shiftr (digestValue n digest) (8 * Z.of_nat (length digest) + s) = Z.shiftr n s.
Proof.
  intros Hs Hd. rewrite <-Z.shiftr_shiftr by lia. f_equal. rewrite Z.shiftr_div_pow2, Z.pow_mul_r by lia.
  change (2 ^ 8) with 256. pose proof (digestValue_spec digest n Hd).
  symmetry. apply (Z.div_unique_pos _ _ _ (digestValue n digest - n * 256 ^ Z.of_nat (length digest))); lia.
Qed.

Lemma groups_step value bits e : 5 * Z.of_nat e ≤ bits →
  groups value bits = ((λ i, zchar (group5 value bits i)) <$> seq 0 e) ++ groups value (bits - 5 * Z.of_nat e).
Proof.
  intros He. unfold groups. replace (Z.to_nat (bits / 5)) with (e + Z.to_nat ((bits - 5 * Z.of_nat e) / 5))%nat
    by (Z.div_mod_to_equations; lia).
  rewrite seq_app, fmap_app. f_equal. change (0 + e)%nat with e. rewrite <-(Nat.add_0_r e) at 1. rewrite <-fmap_add_seq, <-list_fmap_compose. apply list_fmap_ext. intros _ i _.
  unfold compose, group5. do 3 f_equal. lia.
Qed.

(** One byte: what the inner loop emits is the next groups of the whole digest. *)
Lemma drain_groups digest n bits encoded : 0 ≤ bits < 5 → Forall (λ b, 0 ≤ b < 256) digest →
  ∃ e : nat, 5 * Z.of_nat e ≤ bits + 8 < 5 * Z.of_nat e + 5 ∧
  drain maxDrains (n mod 2 ^ 32) (bits + 8) encoded =
  (bits + 8 - 5 * Z.of_nat e,
   encoded ++ ((λ i, zchar (group5 (digestValue n digest) (8 * Z.of_nat (length digest) + (bits + 8)) i)) <$> seq 0 e)).
Proof.
  intros Hb Hd. assert (Hg : ∀ i, 5 * (Z.of_nat i + 1) ≤ bits + 8 →
    group5 (digestValue n digest) (8 * Z.of_nat (length digest) + (bits + 8)) i
    = Z.land (Z.shiftr (n mod 2 ^ 32) (bits + 8 - 5 * (Z.of_nat i + 1))) 31).
  { intros i Hi. unfold group5. rewrite window_bits by lia. f_equal. rewrite <-(shift_digest digest n) by (done || lia).
    f_equal. lia. }
  unfold maxDrains. cbn [drain]. destruct (Z.leb_spec 5 (bits + 8)); [|lia].
  destruct (Z.leb_spec 5 (bits + 8 - 5)).
  - destruct (Z.leb_spec 5 (bits + 8 - 5 - 5)); [lia|]. exists 2%nat. split; [lia|].
    cbn [seq fmap list_fmap]. rewrite !Hg, <-app_assoc by lia.
    replace (bits + 8 - 5 * (Z.of_nat 1 + 1)) with (bits + 8 - 5 - 5) by lia.
    by replace (bits + 8 - 5 * Z.of_nat 2) with (bits + 8 - 5 - 5) by lia.
  - exists 1%nat. split; [lia|]. cbn [seq fmap list_fmap]. by rewrite !Hg by lia.
Qed.

Lemma encodeDigest_groups digest : ∀ n bits encoded, 0 ≤ bits < 5 → Forall (λ b, 0 ≤ b < 256) digest →
  encodeDigest digest (n mod 2 ^ 32) bits encoded = encoded ++ groups (digestValue n digest) (8 * Z.of_nat (length digest) + bits).
Proof.
  induction digest as [|v digest IH]; intros n bits encoded Hb Hd; cbn [encodeDigest digestValue].
  { unfold groups. cbn [length]. replace ((8 * Z.of_nat 0 + bits) / 5) with 0 by (Z.div_mod_to_equations; lia). by rewrite app_nil_r. }
  apply Forall_cons in Hd as [Hv Hd]. rewrite accumulate by done.
  destruct (drain_groups digest (n * 256 + v) bits encoded Hb Hd) as (e & He & ->).
  rewrite IH, <-app_assoc by (done || lia). f_equal. cbn [length].
  rewrite (groups_step _ (8 * Z.of_nat (S (length digest)) + bits) e) by lia.
  replace (8 * Z.of_nat (S (length digest)) + bits) with (8 * Z.of_nat (length digest) + (bits + 8)) by lia. f_equal. f_equal. lia.
Qed.

Lemma wkdHash_groups local :
  wkdHash local = of_list ((λ i, zchar (group5 (digestValue 0 (Sum1 local)) 160 i)) <$> seq 0 32) ∧
  String.length (wkdHash local) = 32%nat.
Proof.
  assert (E : wkdHash local = of_list (groups (digestValue 0 (Sum1 local)) 160)).
  { unfold wkdHash. pose proof (encodeDigest_groups (Sum1 local) 0 0 [] ltac:(lia) (Sum1_bytes local)) as E.
    rewrite length_Sum1 in E. exact (f_equal of_list E). }
  split; [done|]. rewrite E, <-length_str_list, str_list_of_list. unfold groups. by rewrite length_fmap, length_seq.
Qed.

(** C22: the encoding of a digest with a 32-bit accumulator, which overflows after four
    bytes, is the z-base-32 encoding of the digest as one 160-bit number: character [i]
    is that of its group [i] of five bits from the high end, and there are exactly the 32
    characters the fixed-size buffer has room for. *)
Theorem wkd_hash_groups local :
  wkdHash local = of_list ((λ i, zchar (group5 (digestValue 0 (Sum1 local)) 160 i)) <$> seq 0 32) ∧
  String.length (wkdHash local) = 32%nat.
Proof. apply wkdHash_groups. Qed.
