(* ===== verification/DnsRecords.v ===== *)
(** * DNS records and deployment checks (src/internal/records/records.go,
      src/internal/check: check.go, spf.go, dkim.go, dmarc.go, mx.go, fcrdns.go, hostname.go)

    The records an operator is told to publish ([Build]) and the checks of what is
    published ([RunChecks]).  The resolver is a parameter.  DnsFacts.v shows that the
    two agree.  The text around the records (Write) is not modelled. *)

From S2P Require Import Prelude Errors GoLib Capacity Utf8 Mailbox Text Base64 Password Paths Duration Users.
From S2P Require Import Netpolicy Discovery IpText Config WkdHash.
Open Scope Z_scope.

(** [strings.Fields]: maximal runs of bytes outside white space, rune by rune. *)
Fixpoint fields_from (rs : list (Z * bool)) (l cur : bytes) : list bytes :=
  match rs with
  | [] => if bool_decide (cur = []) then [] else [cur]
  | r :: rs =>
      let n := rune_bytes r in
      if IsSpace r.1 then
        (if bool_decide (cur = []) then [] else [cur]) ++ fields_from rs (drop n l) []
      else fields_from rs (drop n l) (cur ++ take n l)
  end.

Definition fields (l : bytes) : list bytes := fields_from (runes l) l [].
Definition Fields (s : string) : list string := of_list <$> fields (str_list s).

(** [strings.Cut] at one byte, on strings. *)
Definition Cut (s : string) (b : Z) : string * string * bool :=
  let '(k, v, ok) := cut_byte b (str_list s) in (of_list k, of_list v, ok).

(** [sort.Strings]: by bytes. *)
Definition string_le (a b : string) : Prop := String.leb a b = true.

#[export] Instance string_le_dec a b : Decision (string_le a b).
Proof. unfold string_le. apply _. Defined.

Definition sort_strings (l : list string) : list string := merge_sort string_le l.

(** ** The records to publish (records.go) *)

Record DnsRecord := mkRecord { rName : string; rType : string; rValue : string; rBinary : string }.

Definition TXT (name value : string) : DnsRecord := mkRecord name "TXT" value "".

Section records.
Context `{CaseTables} `{AddressParser} `{UrlParser}.

(** A name as an absolute owner name. *)
Definition ownerName (name : string) : string := TrimSuffix (ToLowerText name) "." +:+ ".".

Definition addOwner (owners : list string) (name : string) : list string :=
  let name := ownerName name in
  if bool_decide (name = ".") then owners
  else if bool_decide (name ∈ owners) then owners else owners ++ [name].

(** The domain of an allowed sender in [spfOwnerNames]. *)
Definition senderOwner (sender : string) : option string :=
  let sender := TrimSpace sender in
  if bool_decide (sender = "") then None
  else if HasPrefix sender "*@" then Some (str_drop 2 sender)
  else
    match last_index 64 (str_list sender) with
    | None => None
    | Some i => if (i =? String.length sender - 1)%nat then None else Some (str_drop (S i) sender)
    end.

Definition senders (cfg : Config) : list string := List.concat (AllowedSenders <$> cUsers cfg).

Definition spfOwnerNames (cfg : Config) : list string :=
  let owners := fold_left addOwner (dName <$> cDomains cfg) [] in
  let owners := fold_left addOwner (omap senderOwner (senders cfg)) owners in
  let hostname := ownerName (sHostname (cServer cfg)) in
  if bool_decide (hostname ∈ owners) then owners else addOwner owners hostname.

Definition dmarc (cfg : Config) : string :=
  let policy := if bool_decide (nDMARC (cDNS cfg) = "") then "none" else nDMARC (cDNS cfg) in
  let rua := TrimSpace (nReportURI (cDNS cfg)) in
  "v=DMARC1; p=" +:+ policy +:+ "; sp=" +:+ policy +:+ "; adkim=r; aspf=r"
  +:+ (if bool_decide (rua = "") then "" else "; rua=" +:+ rua).

Definition trimDMARCSize (value : string) : string :=
  match last_index 33 (str_list value) with
  | None => value
  | Some bang =>
      let suffix := drop (S bang) (str_list value) in
      match rev suffix with
      | [] => value
      | unit :: front =>
          let suffix := if is_unit unit then rev front else suffix in
          if bool_decide (suffix = []) || negb (forallb is_digit suffix) then value else str_take bang value
      end
  end.

(** The host a report URI sends to. *)
Definition reportHost (uri : string) : option string :=
  match ParseURL (trimDMARCSize (TrimSpace uri)) with
  | Err _ => None
  | Ok parsed =>
      let scheme := ToLowerText (uScheme parsed) in
      let host :=
        if bool_decide (scheme = "mailto") then
          match last_index 64 (str_list (uOpaque parsed)) with
          | Some i => str_drop (S i) (uOpaque parsed)
          | None => ""
          end
        else if bool_decide (scheme = "https") then uHostname parsed else "" in
      Some (ToLowerText (TrimSuffix host "."))
  end.

Definition external (reportURI orgDomain : string) : list string :=
  let orgDomain := ToLowerText (TrimSuffix (TrimSpace orgDomain) ".") in
  fold_left (λ domains uri,
    match reportHost uri with
    | None => domains
    | Some host =>
        if bool_decide (host = "") || bool_decide (host = orgDomain) || HasSuffix host ("." +:+ orgDomain)
           || bool_decide (host ∈ domains)
        then domains else domains ++ [host]
    end) (Split reportURI 44) [].

(** The records of one configured domain. *)
Definition domainRecords (cfg : Config) (dkim : gmap string string) (d : Domain) : list DnsRecord :=
  let domain := dName d +:+ "." in
  [TXT (kSelector (dDKIM d) +:+ "._domainkey." +:+ domain) (default "" (dkim !! dName d));
   TXT ("_dmarc." +:+ domain) (dmarc cfg)]
  ++ ((λ host, TXT (TrimSuffix domain "." +:+ "._report._dmarc." +:+ host +:+ ".") "v=DMARC1")
        <$> external (nReportURI (cDNS cfg)) (dName d))
  ++ (let tlsURI := TrimSpace (nTLSRPTURI (cDNS cfg)) in
      if bool_decide (tlsURI = "") then []
      else [TXT ("_smtp._tls." +:+ domain) ("v=TLSRPTv1; rua=" +:+ tlsURI)]).

Definition Build (cfg : Config) (dkim : gmap string string) : list DnsRecord :=
  let hostname := ownerName (sHostname (cServer cfg)) in
  (if bool_decide (nPublicIPv4 (cDNS cfg) = "") then []
   else match canonicalIPv4 (nPublicIPv4 (cDNS cfg)) with
        | Some ip => [mkRecord hostname "A" ip ""]
        | None => []
        end)
  ++ (if bool_decide (nPublicIPv6 (cDNS cfg) = "") then [] else [mkRecord hostname "AAAA" (nPublicIPv6 (cDNS cfg)) ""])
  ++ (if rrEnabled (cReplyRejection cfg)
      then (λ d, mkRecord (ownerName d) "MX" ("10 " +:+ hostname) "") <$> rrDomains (cReplyRejection cfg) else [])
  ++ ((λ owner, TXT owner (ExpectedSPF cfg)) <$> spfOwnerNames cfg)
  ++ List.concat (domainRecords cfg dkim <$> cDomains cfg).

Section openpgp.
Variable ToASCII : string → res string.
(** [norm.NFC.String]. *)
Variable nfc : string → string.

Fixpoint openPGPRecords (owners : gmap string string) (identities : list (string * string)) : res (list DnsRecord) :=
  match identities with
  | [] => Ok []
  | (sender, key) :: identities =>
      reject 65535 <? str_len key with Message "DNS RDATA is limited to 65535 bytes" in
      let? owner := OpenPGPKeyOwner ToASCII nfc sender in
      match owners !! owner with
      | Some previous =>
          reject negb (bool_decide (previous = key)) with Message "OPENPGPKEY owner collision" in
          openPGPRecords owners identities
      | None =>
          let? rest := openPGPRecords (<[owner := key]> owners) identities in
          Ok (mkRecord owner "OPENPGPKEY" (of_list (std_encode (str_list key))) key :: rest)
      end
  end.

(** [buildOpenPGPRecords], identities as sender and key. *)
Definition buildOpenPGPRecords (identities : list (string * string)) : res (list DnsRecord) :=
  openPGPRecords ∅ identities.
End openpgp.

(** The domain of an allowed sender, as bounces see it. *)
Definition bounceDomain (sender : string) : option string :=
  let sender := TrimSpace sender in
  if HasPrefix sender "*@" then Some (str_drop 2 sender)
  else match last_index 64 (str_list sender) with Some i => Some (str_drop (S i) sender) | None => None end.

Definition uncoveredEnvelopeDomains (cfg : Config) : list string :=
  let rejection : gset string :=
    list_to_set ((λ d, ToLowerText (TrimSuffix d ".")) <$> rrDomains (cReplyRejection cfg)) in
  let domains : gset string :=
    list_to_set (filter (λ d, d ≠ "")
      (canonicalName <$> (dName <$> cDomains cfg) ++ omap bounceDomain (senders cfg))) in
  sort_strings (elements (domains ∖ rejection)).

(** [maxString] and the loop of [quote]: the character-strings of a TXT value. *)
Fixpoint txtStrings (fuel : nat) (value : bytes) : list bytes :=
  match fuel with
  | O => []
  | S fuel => if (length value <=? 255)%nat then [value] else take 255 value :: txtStrings fuel (drop 255 value)
  end.

(** ** The checks *)

Inductive Level := Pass | Warn | Fail.

#[export] Instance Level_eq_dec : EqDecision Level.
Proof. solve_decision. Defined.

Definition Result : Type := string * Level.

Record CheckResolver := mkCheckResolver {
  LookupIPAddr : string → res (list (list Z));
  LookupAddr : string → res (list string);
  LookupTXT : string → res (list string);
  LookupMX : string → res (list string)
}.

Variable R : CheckResolver.

Definition normalizeSPF (value : string) : string := ToLowerText (join_with " " (Fields value)).

(** The domain of an allowed sender in [requiredSPFOwners]. *)
Definition requiredOwner (sender : string) : option string :=
  let sender := TrimSpace sender in
  if HasPrefix sender "*@" then Some (ToLowerText (str_drop 2 sender))
  else
    match last_index 64 (str_list sender) with
    | Some i => if (i =? 0)%nat then None else Some (ToLowerText (str_drop (S i) sender))
    | None => None
    end.

Definition requiredSPFOwners (cfg : Config) : list string :=
  let set : gset string :=
    list_to_set (ToLowerText (TrimSuffix (sHostname (cServer cfg)) ".") :: (dName <$> cDomains cfg)
                 ++ omap requiredOwner (senders cfg)) in
  sort_strings (elements (set ∖ {[""]})).

Definition is_spf (text : string) : bool :=
  match Fields text with f :: _ => EqualFold f "v=spf1" | [] => false end.

Definition checkSPFOwner (cfg : Config) (owner : string) : Result :=
  let name := "spf_" +:+ TrimSuffix owner "." in
  match LookupTXT R (TrimSuffix owner ".") with
  | Err _ => (name, Fail)
  | Ok txts =>
      match filter (λ t, is_spf t = true) (TrimSpace <$> txts) with
      | [spf] => if bool_decide (normalizeSPF spf = normalizeSPF (ExpectedSPF cfg)) then (name, Pass) else (name, Fail)
      | _ => (name, Fail)
      end
  end.

Definition checkSPF (cfg : Config) : list Result := checkSPFOwner cfg <$> requiredSPFOwners cfg.

Definition collapseSpaces (s : string) : string := join_with "" (Fields s).

Definition parseTags (record : string) : gmap string string :=
  fold_left (λ out part,
    let part := TrimSpace part in
    if bool_decide (part = "") then out
    else
      let '(k, v, ok) := Cut part 61 in
      if ok : bool then <[ToLowerText (TrimSpace k) := TrimSpace v]> out else out) (Split record 59) ∅.

Definition normalizeB64 (s : string) : string :=
  let s := collapseSpaces s in
  match std_decode (str_list s) with
  | Some raw => of_list (std_encode raw)
  | None => match raw_decode (str_list s) with Some raw => of_list (std_encode raw) | None => s end
  end.

Definition is_dkim (text : string) : bool := HasPrefix (ToLowerText text) "v=dkim1".

Definition checkDKIM (domain : Domain) (publicKey : string) : Result :=
  let name := kSelector (dDKIM domain) +:+ "._domainkey." +:+ dName domain in
  let checkName := "dkim_" +:+ dName domain in
  match LookupTXT R name with
  | Err _ => (checkName, Fail)
  | Ok txts =>
      match filter (λ t, is_dkim t = true) ((λ t, TrimSpace (collapseSpaces t)) <$> txts) with
      | [dkim] =>
          if bool_decide (publicKey = "") then (checkName, Warn)
          else
            match parseTags dkim !! "p" with
            | None => (checkName, Fail)
            | Some pub =>
                if bool_decide (normalizeB64 pub = normalizeB64 publicKey) then (checkName, Pass) else (checkName, Fail)
            end
      | _ => (checkName, Fail)
      end
  end.

Definition asciiLetters (value : string) : bool :=
  forallb is_lower (str_list value) && negb (bool_decide (value = "")).

(** The loop of [parseDMARCTags]; the last part may be empty. *)
Fixpoint dmarcTags (tags : gmap string string) (parts : list string) : res (gmap string string) :=
  match parts with
  | [] => Ok tags
  | part :: parts =>
      let part := TrimSpace part in
      if bool_decide (part = "") then
        if bool_decide (parts = []) then Ok tags else Err (Message "empty tag")
      else
        let '(key, value, ok) := Cut part 61 in
        let key := ToLowerText (TrimSpace key) in
        let value := TrimSpace value in
        reject negb ok || bool_decide (key = "") || bool_decide (value = "") || negb (asciiLetters key)
          with Message "malformed tag" in
        reject bool_decide (is_Some (tags !! key)) with Message "duplicate tag" in
        dmarcTags (<[key := value]> tags) parts
  end.

Definition parseDMARCTags (record : string) : res (gmap string string) :=
  let? tags := dmarcTags ∅ (Split record 59) in
  reject negb (EqualFold (default "" (tags !! "v")) "DMARC1") with Message "first tag must be exactly v=DMARC1" in
  Ok tags.

Definition is_dmarc (text : string) : bool := EqualFold (TrimSpace (Cut text 59).1.1) "v=DMARC1".

Definition checkDMARC (cfg : Config) (domain : string) : Result :=
  let checkName := "dmarc_" +:+ domain in
  match LookupTXT R ("_dmarc." +:+ domain) with
  | Err _ => (checkName, Fail)
  | Ok txts =>
      match filter (λ t, is_dmarc t = true) (TrimSpace <$> txts) with
      | [found] =>
          match parseDMARCTags found with
          | Err _ => (checkName, Fail)
          | Ok tags =>
              let p := ToLowerText (default "" (tags !! "p")) in
              if negb (bool_decide (p ∈ ["none"; "quarantine"; "reject"])) then (checkName, Fail)
              else
                let want := ToLowerText (nDMARC (cDNS cfg)) in
                let want := if bool_decide (want = "") then "none" else want in
                let level := if negb (bool_decide (p = want)) then Fail
                             else if bool_decide (p = "none") then Warn else Pass in
                let rua := default "" (tags !! "rua") in
                if bool_decide (rua = "") then (checkName, if bool_decide (level = Pass) then Warn else level)
                else
                  match ValidateDMARCReportURIList rua with
                  | Err _ => (checkName, Fail)
                  | Ok _ => (checkName, level)
                  end
          end
      | _ => (checkName, Fail)
      end
  end.

Definition envelopeDomains (cfg : Config) : list string :=
  let of_sender sender :=
    let sender := TrimSpace sender in
    if HasPrefix sender "*@" then Some (ToLowerText (TrimSuffix (str_drop 2 sender) "."))
    else
      match last_index 64 (str_list sender) with
      | Some i => if (i =? 0)%nat then None else Some (ToLowerText (TrimSuffix (str_drop (S i) sender) "."))
      | None => None
      end in
  let set : gset string :=
    list_to_set ((dName <$> cDomains cfg) ++ omap of_sender (senders cfg)
      ++ (if rrEnabled (cReplyRejection cfg)
          then (λ d, ToLowerText (TrimSuffix d ".")) <$> rrDomains (cReplyRejection cfg) else [])) in
  sort_strings (elements (set ∖ {[""]})).

Definition rejectionDomain (cfg : Config) (domain : string) : bool :=
  rrEnabled (cReplyRejection cfg)
  && existsb (λ d, EqualFold (TrimSuffix d ".") (TrimSuffix domain ".")) (rrDomains (cReplyRejection cfg)).

(** One domain of [checkEnvelopeMX]; MX hosts only, preferences are not read. *)
Definition checkMX (cfg : Config) (d : string) : Result :=
  let name := "envelope_mx_" +:+ d in
  let implicit := match LookupIPAddr R d with Ok (_ :: _) => (name, Warn) | _ => (name, Fail) end in
  match LookupMX R d with
  | Ok (m :: ms) =>
      let mxs := m :: ms in
      let hasRejectionHost :=
        existsb (λ h, EqualFold (TrimSuffix (TrimSpace h) ".") (TrimSuffix (sHostname (cServer cfg)) ".")) mxs in
      if existsb (λ h, bool_decide (TrimSpace h = ".")) mxs then (name, Fail)
      else if rejectionDomain cfg d && (negb hasRejectionHost || negb (length mxs =? 1)%nat) then (name, Fail)
      else (name, Pass)
  | _ => if rejectionDomain cfg d then (name, Fail) else implicit
  end.

Definition checkEnvelopeMX (cfg : Config) : list Result := checkMX cfg <$> envelopeDomains cfg.

(** [net.IP.Equal]: the same address, in either form. *)
Definition IP_Equal (a b : list Z) : bool :=
  match To4 a, To4 b with
  | Some x, Some y => bool_decide (x = y)
  | None, None => bool_decide (a = b)
  | _, _ => false
  end.

Definition checkIP (cfg : Config) (ip label : string) : list Result :=
  let host := ToLowerText (TrimSuffix (sHostname (cServer cfg)) ".") in
  let name := "fcrdns_" +:+ label in
  if bool_decide (ip = "") then []
  else
    match LookupAddr R ip with
    | Err _ => [(name, Fail)]
    | Ok names =>
        if negb (existsb (λ n, bool_decide (ToLowerText (TrimSuffix n ".") = host)) names) then [(name, Fail)]
        else
          match LookupIPAddr R host with
          | Err _ => [(name, Fail)]
          | Ok addrs =>
              if existsb (λ a, IP_Equal a (default [] (ParseIP ip))) addrs then [(name, Pass)] else [(name, Fail)]
          end
    end.

Definition checkFCrDNS (cfg : Config) : list Result :=
  match checkIP cfg (nPublicIPv4 (cDNS cfg)) "v4" ++ checkIP cfg (nPublicIPv6 (cDNS cfg)) "v6" with
  | [] => [("fcrdns", Fail)]
  | rs => rs
  end.

Definition checkHostnameAddrs (cfg : Config) : list Result :=
  let name := "hostname_address" in
  let n := cDNS cfg in
  if bool_decide (nPublicIPv4 n = "") && bool_decide (nPublicIPv6 n = "") then [(name, Fail)]
  else
    match LookupIPAddr R (TrimSuffix (sHostname (cServer cfg)) ".") with
    | Err _ => [(name, Fail)]
    | Ok addrs =>
        let have4 := omap (λ a, ip_string <$> To4 a) addrs in
        let have6 := ip_string <$> filter (λ a, To4 a = None ∧ length a = 16%nat) addrs in
        (if bool_decide (nPublicIPv4 n = "") then []
         else [(name +:+ "_a", if bool_decide (nPublicIPv4 n ∈ have4) then Pass else Fail)])
        ++ (if bool_decide (nPublicIPv6 n = "") then []
            else [(name +:+ "_aaaa",
                   match ParseIP (nPublicIPv6 n) with
                   | Some want =>
                       if existsb (λ ip, match ParseIP ip with Some x => IP_Equal x want | None => IP_Equal [] want end) have6
                       then Pass else Fail
                   | None => Fail
                   end)])
    end.

(** [Run] and [Failed]; [dkim] holds the public keys by domain. *)
Definition RunChecks (cfg : Config) (dkim : gmap string string) : list Result :=
  checkHostnameAddrs cfg ++ checkFCrDNS cfg ++ checkSPF cfg
  ++ List.concat ((λ d, [checkDKIM d (default "" (dkim !! dName d)); checkDMARC cfg (dName d)]) <$> cDomains cfg)
  ++ checkEnvelopeMX cfg.

Definition Failed (results : list Result) : bool := existsb (λ r, bool_decide (r.2 = Fail)) results.
End records.
