(* ===== verification/DnsFacts.v ===== *)
(** * The records published and the checks made agree

    [published_records_pass]: an operator who publishes what [Build] says passes the
    program's own checks of sender policy, keys and report policy, where senders and
    report URIs are plain in a sense that validation does not ensure.
    [spf_single_policy]: no owner name is given two sender policies.
    [semicolon_breaks_dmarc]: a report URI that validation accepts and that makes the
    published policy unreadable. *)

From S2P Require Import Prelude Errors GoLib Capacity Utf8 Mailbox Text Base64 Password Paths SecretFiles Duration Users.
From S2P Require Import Netpolicy Discovery IpText Config ConfigFacts Signing DnsRecords.
Open Scope Z_scope.

(** ** ASCII text *)

Definition low (l : bytes) : Prop := Forall (λ c, byte_val c < 128) l.
Definition space (c : ascii) : bool := IsSpace (byte_val c).
Definition wordy (l : bytes) : Prop := Forall (λ c, byte_val c < 128 ∧ space c = false) l.

Lemma is_ascii_low s : is_ascii s = true ↔ low (str_list s).
Proof.
  unfold is_ascii, low. rewrite forallb_forall, Forall_forall. split.
  - intros Ha c Hc. apply Z.ltb_lt, Ha. by apply list_elem_of_In.
  - intros Ha c Hc. apply Z.ltb_lt, Ha. by apply list_elem_of_In.
Qed.

Lemma wordy_low l : wordy l → low l.
Proof. intros Hw. eapply Forall_impl; [exact Hw|]. by intros c [? _]. Qed.

Lemma runes_low l : low l → runes l = (λ c, (byte_val c, true)) <$> l.
Proof.
  induction 1 as [|c l Hc _ IH]; [done|]. cbn [runes]. rewrite (proj2 (Z.ltb_lt _ _) Hc), fmap_cons. by rewrite IH.
Qed.

Lemma rune_bytes_low c : byte_val c < 128 → rune_bytes (byte_val c, true) = 1%nat.
Proof. intros Hc. unfold rune_bytes, RuneLen. cbn [fst snd]. by rewrite (proj2 (Z.ltb_lt _ _) Hc). Qed.

Lemma width_low l : low l → width ((λ c, (byte_val c, true)) <$> l) = length l.
Proof.
  induction 1 as [|c l Hc _ IH]; [done|]. unfold width in *. rewrite !fmap_cons.
  change (list_sum (?x :: ?k)) with (x + list_sum k)%nat. by rewrite rune_bytes_low, IH.
Qed.

(** The spaces at the front. *)
Fixpoint spaces (l : bytes) : bytes := match l with c :: l => if space c then c :: spaces l else [] | [] => [] end.

Lemma leading_space_low l : low l →
  leading_space ((λ c, (byte_val c, true)) <$> l) = (λ c, (byte_val c, true)) <$> spaces l.
Proof.
  induction 1 as [|c l Hc _ IH]; [done|]. rewrite fmap_cons. cbn [leading_space spaces fst]. unfold space.
  destruct (IsSpace (byte_val c)); [|done]. by rewrite fmap_cons, IH.
Qed.

Lemma spaces_prefix l : ∃ r, l = spaces l ++ r.
Proof.
  induction l as [|c l [r IH]]; [by exists []|]. cbn [spaces]. destruct (space c); [|by exists (c :: l)].
  exists r. cbn [app]. by f_equal.
Qed.

Lemma spaces_app_word w l : w ≠ [] → wordy w → spaces (w ++ l) = [].
Proof. intros Hw Hf. destruct Hf as [|c w [_ Hc] _]; [done|]. cbn [app spaces]. by rewrite Hc. Qed.

Lemma low_spaces l : low l → low (spaces l).
Proof.
  intros Hl. destruct (spaces_prefix l) as [r Hr]. assert (Hx : low (spaces l ++ r)) by (by rewrite <-Hr).
  by apply Forall_app in Hx as [? _].
Qed.

(** Trimming ASCII text. *)
Lemma trim_low l : low l →
  trim_space l = let rest := drop (length (spaces l)) l in take (length rest - length (spaces (rev rest))) rest.
Proof.
  intros Hl. unfold trim_space. rewrite runes_low, leading_space_low by done.
  assert (Hd : low (rev (drop (length (spaces l)) l))) by (apply Forall_rev; by apply Forall_drop).
  rewrite length_fmap, <-fmap_drop.
  assert (Hr : ∀ k : bytes, rev ((λ c, (byte_val c, true)) <$> k) = (λ c, (byte_val c, true)) <$> rev k).
  { intros k. symmetry. apply map_rev. }
  rewrite Hr, leading_space_low by done. cbn zeta. by rewrite !width_low by (by apply low_spaces).
Qed.

(** Trimming keeps a word at the front. *)
Lemma trim_word w r : w ≠ [] → wordy w → low r → ∃ k, trim_space (w ++ r) = w ++ take k r.
Proof.
  intros Hw Hf Hr. assert (Hl : low (w ++ r)) by (apply Forall_app; split; [by apply wordy_low|done]).
  rewrite trim_low by done. cbn zeta. rewrite spaces_app_word by done. cbn [length]. rewrite drop_0.
  destruct (exists_last Hw) as (w' & c & ->). rewrite rev_app_distr, rev_app_distr. cbn [rev app].
  assert (Hs : (length (spaces (rev r ++ c :: rev w')) ≤ length r)%nat).
  { rewrite <-(length_rev r). induction (rev r) as [|x l IH]; cbn [app spaces].
    - apply Forall_app in Hf as [_ [[_ ->] _]%Forall_cons]. done.
    - destruct (space x); cbn [length]; lia. }
  exists (length r - length (spaces (rev r ++ c :: rev w')))%nat.
  rewrite take_app_ge by (rewrite !length_app in *; cbn in *; lia). f_equal. f_equal. rewrite !length_app. cbn. lia.
Qed.

Lemma trim_id l : low l → spaces l = [] → spaces (rev l) = [] → trim_space l = l.
Proof. intros Hl H1 H2. rewrite trim_low by done. cbn zeta. rewrite H1. cbn [length]. rewrite drop_0. rewrite H2. cbn. rewrite Nat.sub_0_r. apply firstn_all. Qed.

(** ** Words of ASCII text *)

Fixpoint afields (l cur : bytes) : list bytes :=
  match l with
  | [] => if bool_decide (cur = []) then [] else [cur]
  | c :: l => if space c then (if bool_decide (cur = []) then [] else [cur]) ++ afields l [] else afields l (cur ++ [c])
  end.

Lemma fields_low l : low l → fields l = afields l [].
Proof.
  intros Hl. unfold fields. rewrite runes_low by done. generalize (@nil ascii) as cur.
  induction Hl as [|c l Hc _ IH]; intros cur; [done|]. rewrite fmap_cons. cbn [fields_from afields fst].
  rewrite rune_bytes_low by done. unfold space.
  destruct (IsSpace (byte_val c)); by rewrite <-IH.
Qed.

Lemma afields_word w l cur : wordy w → afields (w ++ l) cur = afields l (cur ++ w).
Proof.
  intros Hw. revert cur. induction Hw as [|c w [_ Hc] _ IH]; intros cur; [by rewrite app_nil_r|].
  cbn [app afields]. rewrite Hc, IH. by rewrite <-app_assoc.
Qed.

Lemma afields_head l cur : cur ≠ [] → low l → ∃ v fs, afields l cur = (cur ++ v) :: fs ∧ low v.
Proof.
  intros Hc Hl. revert cur Hc. induction Hl as [|c l Hcl _ IH]; intros cur Hc; cbn [afields].
  - rewrite bool_decide_eq_false_2 by done. exists [], []. rewrite app_nil_r. split; [done|constructor].
  - destruct (space c).
    + rewrite bool_decide_eq_false_2 by done. exists [], (afields l []). rewrite app_nil_r. split; [done|constructor].
    + destruct (IH (cur ++ [c])) as (v & fs & E & Hv); [by destruct cur|]. exists (c :: v), fs.
      rewrite E, <-app_assoc. split; [done|by constructor].
Qed.

Lemma afields_low l cur : low l → low cur → Forall low (afields l cur).
Proof.
  intros Hl. revert cur. induction Hl as [|c l Hc _ IH]; intros cur Hcur; cbn [afields].
  - case_bool_decide; repeat constructor; done.
  - destruct (space c).
    + apply Forall_app. split; [case_bool_decide; repeat constructor; done|apply IH; constructor].
    + apply IH. apply Forall_app. split; [done|by repeat constructor].
Qed.

(** A word followed by a space is a field. *)
Lemma fields_cons w c r : w ≠ [] → wordy w → space c = true → byte_val c < 128 → low r →
  fields (w ++ c :: r) = w :: fields r.
Proof.
  intros Hne Hw Hs Hc Hr. rewrite !fields_low; [|done|apply Forall_app; split; [by apply wordy_low|by constructor]].
  rewrite afields_word by done. cbn [app afields]. by rewrite Hs, bool_decide_eq_false_2.
Qed.

Lemma fields_word w : w ≠ [] → wordy w → fields w = [w].
Proof.
  intros Hne Hw. rewrite fields_low by (by apply wordy_low). rewrite <-(app_nil_r w) at 1.
  rewrite afields_word by done. cbn [app afields]. by rewrite bool_decide_eq_false_2.
Qed.

(** ** Text that begins with a word *)

(** [s] is ASCII and begins with [q]. *)
Definition begins (q : bytes) (s : string) : Prop := ∃ r, str_list s = q ++ r ∧ low r.

Lemma begins_ascii q s : wordy q → begins q s → is_ascii s = true.
Proof. intros Hq (r & E & Hr). apply is_ascii_low. rewrite E. apply Forall_app. split; [by apply wordy_low|done]. Qed.

Lemma begins_trim q s : q ≠ [] → wordy q → begins q s → begins q (TrimSpace s).
Proof.
  intros Hne Hq (r & E & Hr). unfold begins, TrimSpace. rewrite str_list_of_list, E.
  destruct (trim_word q r Hne Hq Hr) as [k ->]. exists (take k r). split; [done|by apply Forall_take].
Qed.

Lemma begins_fields q s : q ≠ [] → wordy q → begins q s → ∃ f fs, Fields s = f :: fs ∧ begins q f ∧ Forall (λ f, is_ascii f = true) fs.
Proof.
  intros Hne Hq (r & E & Hr). unfold Fields. rewrite E.
  assert (Hl : low (q ++ r)) by (apply Forall_app; split; [by apply wordy_low|done]).
  pose proof (afields_low (q ++ r) [] Hl ltac:(constructor)) as Hf.
  rewrite fields_low by done. rewrite afields_word in Hf |- * by done. cbn [app] in Hf |- *.
  destruct (afields_head r q Hne Hr) as (v & fs & Ea & Hv). rewrite Ea in Hf |- *.
  apply Forall_cons in Hf as [_ Hf]. exists (of_list (q ++ v)), (of_list <$> fs). rewrite fmap_cons. split_and!; [done| |].
  - exists v. by rewrite str_list_of_list.
  - rewrite Forall_fmap. eapply Forall_impl; [exact Hf|]. intros w Hw. cbn. apply is_ascii_low. by rewrite str_list_of_list.
Qed.

Lemma join_empty fs : Forall (λ f, is_ascii f = true) fs → low (str_list (join_with "" fs)).
Proof.
  destruct fs as [|f fs]; [constructor|]. intros [Hf Hfs]%Forall_cons. cbn [join_with].
  apply is_ascii_low in Hf. revert f Hf. induction Hfs as [|g fs Hg _ IH]; intros f Hf; [done|]. cbn [fold_left].
  apply IH. rewrite !str_list_app. apply is_ascii_low in Hg. apply Forall_app. split; [done|]. by apply Forall_app.
Qed.

Lemma begins_collapse q s : q ≠ [] → wordy q → begins q s → begins q (collapseSpaces s).
Proof.
  intros Hne Hq Hb. destruct (begins_fields q s Hne Hq Hb) as (f & fs & E & (r & Ef & Hr) & Hfs).
  unfold collapseSpaces. rewrite E, join_with_cons. destruct fs as [|g fs]; [by exists r|].
  exists (r ++ str_list (join_with "" (g :: fs))). rewrite !str_list_app, Ef. split; [by rewrite <-app_assoc|].
  apply Forall_app. split; [done|by apply join_empty].
Qed.

Lemma begins_cut q s : (∀ c, c ∈ q → byte_val c ≠ 59) → begins q s → begins q (Cut s 59).1.1.
Proof.
  intros Hq (r & E & Hr). unfold Cut, cut_byte. rewrite E. destruct (index_byte 59 (q ++ r)) as [i|] eqn:Ei; cbn [fst].
  - apply index_byte_Some in Ei as (c & Hc & Hb & _). destruct (decide (i < length q)%nat) as [Hi|Hi].
    { exfalso. rewrite lookup_app_l in Hc by done. apply (Hq c); [by eapply list_elem_of_lookup_2|done]. }
    exists (take (i - length q) r). rewrite str_list_of_list, take_app_ge by lia. split; [done|by apply Forall_take].
  - exists r. by rewrite str_list_of_list.
Qed.

(** Text that begins otherwise is not equal up to letter case. *)
Lemma begins_differs `{CaseTables} q s t : wordy q → begins q s → is_ascii t = true →
  is_prefix (lower_char <$> q) (lower_char <$> str_list t) = false → EqualFold s t = false.
Proof.
  intros Hq Hb Ht Hp. rewrite fold_ascii by (done || by eapply begins_ascii). apply bool_decide_eq_false_2. intros E.
  destruct Hb as (r & Es & _). apply (f_equal str_list) in E. unfold ToLower in E. rewrite !str_list_of_list, Es in E.
  change (map lower_char (q ++ r)) with (lower_char <$> (q ++ r)) in E. rewrite fmap_app in E.
  change (map lower_char (str_list t)) with (lower_char <$> str_list t) in E. rewrite <-E in Hp.
  by rewrite is_prefix_app in Hp.
Qed.

(** ** Addresses in text form are ASCII *)

Lemma low_incl l k : (∀ c, c ∈ k → c ∈ l) → low l → low k.
Proof. intros Hs Hl. unfold low in *. rewrite Forall_forall in *. auto. Qed.

Lemma parseIPv4Fields_low fs v d s ip : parseIPv4Fields fs v d s = Ok ip → low s.
Proof.
  revert fs v d. induction s as [|c s IH]; intros fs v d; cbn [parseIPv4Fields]; [constructor|].
  destruct (is_digit c) eqn:Ed.
  - destruct (_ && _); [done|]. destruct (_ <? _); [done|]. intros He%IH. constructor; [|done].
    unfold is_digit, between in Ed. lia.
  - destruct (is_char 46 c) eqn:Ec; [|done]. destruct (_ =? _)%nat; [done|]. destruct (_ =? _)%nat; [done|].
    intros He%IH. constructor; [|done]. unfold is_char in Ec. lia.
Qed.

Lemma hexField_low n a s n' a' rest : hexField n a s = Ok (n', a', rest) → ∃ p, s = p ++ rest ∧ low p.
Proof.
  revert n a. induction s as [|c s IH]; intros n a; cbn [hexField].
  { intros [= <- <- <-]. exists []. split; [done|constructor]. }
  assert (Hd : ∀ d, (if is_digit c then Some (byte_val c - 48) else if between 97 102 c then Some (byte_val c - 97 + 10)
      else if between 65 70 c then Some (byte_val c - 65 + 10) else None) = Some d → byte_val c < 128).
  { unfold is_digit, between. intros d. repeat (case_match; zbool; try done); intros _; lia. }
  destruct (if is_digit c then _ else _) as [d|].
  - destruct (_ <? _)%nat; [done|]. intros (p & -> & Hp)%IH. exists (c :: p). split; [done|].
    constructor; [by eapply Hd|done].
  - intros [= <- <- <-]. exists []. split; [done|constructor].
Qed.

Lemma parseGroups_low fuel : ∀ ip e s r, parseGroups fuel ip e s = Ok r → low s.
Proof.
  induction fuel as [|fuel IH]; intros ip e s r; cbn [parseGroups].
  { case_bool_decide as Hs; [|done]. subst s. constructor. }
  destruct (hexField 0 0 s) as [[[n a] rest]|] eqn:Eh; [|done]. cbn [res_bind].
  apply hexField_low in Eh as (p & -> & Hp). destruct (n =? 0)%nat; [done|].
  destruct rest as [|c after]; [intros _; by rewrite app_nil_r|]. destruct (is_char 46 c) eqn:E46.
  { destruct (_ && _); [done|]. destruct (_ <? _)%nat; [done|].
    destruct (parseIPv4Fields [] 0 0 _) as [q|] eqn:Eq; [|done]. intros _. by eapply parseIPv4Fields_low. }
  destruct (is_char 58 c) eqn:E58; [|done]. cbn [negb]. unfold is_char in E58.
  destruct after as [|d after']; [done|]. destruct (is_char 58 d) eqn:Ed.
  - destruct e; [done|]. unfold is_char in Ed. destruct after' as [|x after'].
    + intros _. apply Forall_app. split; [done|]. repeat constructor; lia.
    + intros He%IH. apply Forall_app. split; [done|]. constructor; [lia|]. by constructor; [lia|].
  - intros He%IH. apply Forall_app. split; [done|]. constructor; [lia|done].
Qed.

Lemma ParseIP_low text ip : ParseIP text = Some ip → low (str_list text).
Proof.
  unfold ParseIP, ParseAddr. destruct (addrKind (str_list text)) as [c|]; [|done]. destruct (is_char 46 c).
  { destruct (parseIPv4Fields [] 0 0 _) as [q|] eqn:Eq; [|done]. intros _. by eapply parseIPv4Fields_low. }
  destruct (is_char 58 c); [|done]. unfold parseIPv6, cut_byte.
  destruct (index_byte 37 (str_list text)) as [i|] eqn:Ei.
  - destruct (drop (S i) (str_list text)) as [|z zone] eqn:Ez; [done|]. cbn [andb]. rewrite bool_decide_eq_false_2 by done.
    assert (Hz : ∀ x : res (list Z), match (let? ip := x in Ok (ip, of_list (z :: zone))) with
                           | Ok (ip, zone) => if bool_decide (zone = "") then Some ip else None | Err _ => None end
                         = None) by (intros [?|?]; done).
    destruct (match take i (str_list text) with [] => _ | _ => _ end) as [s el].
    destruct (_ && _); [done|]. destruct (parseGroups 8 [] el s) as [[g e]|]; [|done]. cbn [res_bind]. by rewrite Hz.
  - cbn [andb].
    destruct (str_list text) as [|c1 [|c2 rest]] eqn:Et; [intros _; constructor| |].
    { cbn [andb]. rewrite (bool_decide_eq_false_2 (None = Some 0%nat)) by done. cbn [andb].
      destruct (parseGroups 8 [] None [c1]) as [g|] eqn:Eg; [|done]. intros _. by eapply parseGroups_low. }
    destruct (is_char 58 c1 && is_char 58 c2) eqn:Ec.
    + destruct (bool_decide (Some 0%nat = Some 0%nat) && bool_decide (rest = [])) eqn:Ee.
      * apply andb_true_iff in Ee as [_ Ee]. apply bool_decide_eq_true_1 in Ee. subst rest. intros _.
        unfold is_char in Ec. repeat constructor; lia.
      * destruct (parseGroups 8 [] (Some 0%nat) rest) as [g|] eqn:Eg; [|done]. intros _.
        apply parseGroups_low in Eg. unfold is_char in Ec. constructor; [lia|]. by constructor; [lia|].
    + rewrite (bool_decide_eq_false_2 (None = Some 0%nat)) by done. cbn [andb].
      destruct (parseGroups 8 [] None _) as [g|] eqn:Eg; [|done]. intros _. by eapply parseGroups_low.
Qed.

Lemma v4_text_low a b c d : is_byte a → is_byte b → is_byte c → is_byte d → low (str_list (ip_string [a; b; c; d])).
Proof.
  intros Ha Hb Hc Hd. apply (ParseIP_low _ [a; b; c; d]). unfold ParseIP. by rewrite ParseAddr_v4.
Qed.

Lemma canonicalIPv4_low text t : canonicalIPv4 text = Some t → low (str_list t).
Proof. intros (a & b & c & d & Ha & Hb & Hc & Hd & ->)%canonicalIPv4_bytes. by apply v4_text_low. Qed.

(** ** The texts of the records *)

Definition vSPF : bytes := str_list "v=spf1".
Definition vDKIM : bytes := str_list "v=DKIM1".
Definition vDMARC : bytes := str_list "v=DMARC1".
Definition vTLS : bytes := str_list "v=TLSRPTv1".

Lemma version_wordy q : q ∈ [vSPF; vDKIM; vDMARC; vTLS] → q ≠ [] ∧ wordy q ∧ ∀ c, c ∈ q → byte_val c ≠ 59.
Proof.
  intros Hq. split_and!.
  - repeat apply elem_of_cons in Hq as [-> |Hq]; [done..|by apply elem_of_nil in Hq].
  - repeat apply elem_of_cons in Hq as [-> |Hq]; [repeat constructor..|by apply elem_of_nil in Hq].
  - intros c Hc. repeat apply elem_of_cons in Hq as [-> |Hq]; [..|by apply elem_of_nil in Hq];
      (repeat apply elem_of_cons in Hc as [-> |Hc]; [done..|by apply elem_of_nil in Hc]).
Qed.

Section texts.
Context `{CaseTables}.

(** Which texts each check picks up. *)
Lemma not_spf q s : q ∈ [vDKIM; vDMARC; vTLS] → begins q s → is_spf (TrimSpace s) = false.
Proof.
  intros Hq Hb. destruct (version_wordy q) as (Hne & Hw & _); [by right|].
  apply begins_trim in Hb; [|done..]. destruct (begins_fields q _ Hne Hw Hb) as (f & fs & E & Hf & _).
  unfold is_spf. rewrite E. eapply begins_differs; [done|exact Hf|done|].
  repeat apply elem_of_cons in Hq as [-> |Hq]; [done..|by apply elem_of_nil in Hq].
Qed.

Lemma not_dmarc q s : q ∈ [vSPF; vDKIM; vTLS] → begins q s → is_dmarc (TrimSpace s) = false.
Proof.
  intros Hq Hb. destruct (version_wordy q) as (Hne & Hw & Hs); [set_solver|].
  apply begins_trim in Hb; [|done..]. apply begins_cut in Hb; [|done]. apply begins_trim in Hb; [|done..].
  unfold is_dmarc. eapply begins_differs; [done|exact Hb|done|].
  repeat apply elem_of_cons in Hq as [-> |Hq]; [done..|by apply elem_of_nil in Hq].
Qed.

Lemma not_dkim q s : q ∈ [vSPF; vDMARC; vTLS] → begins q s → is_dkim (TrimSpace (collapseSpaces s)) = false.
Proof.
  intros Hq Hb. destruct (version_wordy q) as (Hne & Hw & Hs); [set_solver|].
  apply begins_collapse in Hb; [|done..]. apply begins_trim in Hb; [|done..].
  unfold is_dkim. rewrite lower_ascii by (by eapply begins_ascii). destruct Hb as (r & E & _).
  unfold ToLower, HasPrefix. rewrite str_list_of_list, E, map_app.
  repeat apply elem_of_cons in Hq as [-> |Hq]; [done..|by apply elem_of_nil in Hq].
Qed.

Lemma canonicalName_ascii i : is_ascii i = true → is_ascii (canonicalName i) = true.
Proof.
  intros Hi. unfold canonicalName. assert (Ht : is_ascii (TrimSuffix (TrimSpace i) ".") = true).
  { apply is_ascii_low. apply is_ascii_low in Hi. revert Hi. apply low_incl. unfold TrimSuffix.
    assert (Htr : ∀ c, c ∈ str_list (TrimSpace i) → c ∈ str_list i).
    { unfold TrimSpace. rewrite str_list_of_list. intros c. apply trim_space_elem. }
    destruct (HasSuffix _ _); [|done]. intros c Hc. apply Htr. unfold str_take in Hc. rewrite str_list_of_list in Hc.
    apply elem_of_take in Hc as (j & Hj & _). by eapply list_elem_of_lookup_2. }
  rewrite lower_ascii by done. by apply ascii_lower.
Qed.

(** The sender policy: ASCII, the version, a space, and an end that is no space. *)
Lemma spf_text cfg :
  (nPublicIPv6 (cDNS cfg) = "" ∨ is_Some (ParseIP (nPublicIPv6 (cDNS cfg)))) →
  Forall (λ i, is_ascii i = true) (nSPFIncludes (cDNS cfg)) →
  ∃ r, str_list (ExpectedSPF cfg) = vSPF ++ chr 32 :: r ∧ low r ∧ spaces (rev r) = [] ∧ r ≠ [].
Proof.
  intros H6 Hi. unfold ExpectedSPF. rewrite !str_list_app. fold vSPF.
  set (a4 := str_list (if bool_decide (nPublicIPv4 (cDNS cfg) = "") then _ else _)).
  set (a6 := str_list (if bool_decide (nPublicIPv6 (cDNS cfg) = "") then _ else _)).
  set (inc := str_list (fold_right _ _ _)).
  assert (Hhead : ∀ x : string, str_list (" " +:+ x) = chr 32 :: str_list x) by done.
  assert (H4l : low a4 ∧ (a4 = [] ∨ ∃ x, a4 = chr 32 :: x)).
  { unfold a4. case_bool_decide; [split; [constructor|by left]|].
    destruct (canonicalIPv4 (nPublicIPv4 (cDNS cfg))) as [t|] eqn:Et; [|split; [constructor|by left]].
    apply canonicalIPv4_low in Et. rewrite str_list_app. split; [|right; by eexists].
    apply Forall_app. split; [repeat constructor|done]. }
  assert (H6l : low a6 ∧ (a6 = [] ∨ ∃ x, a6 = chr 32 :: x)).
  { unfold a6. case_bool_decide as Hn; [split; [constructor|by left]|]. destruct H6 as [?|[ip Hip]]; [done|].
    apply ParseIP_low in Hip. rewrite str_list_app. split; [|right; by eexists].
    apply Forall_app. split; [repeat constructor|done]. }
  assert (Hil : low inc ∧ (inc = [] ∨ ∃ x, inc = chr 32 :: x)).
  { unfold inc. induction Hi as [|i incs Hx _ [IH _]]; [split; [constructor|by left]|]. cbn [fold_right].
    rewrite !str_list_app. split; [|right; by eexists]. apply Forall_app. split; [repeat constructor|].
    apply Forall_app. split; [|done]. apply is_ascii_low. by apply canonicalName_ascii. }
  set (e := str_list " -all"). assert (He : ∃ z, e = chr 32 :: z ++ str_list "-all" ∧ low (z ++ str_list "-all"))
    by (exists []; split; [done|repeat constructor]).
  assert (Hstep : ∀ a t : bytes, low a → (a = [] ∨ ∃ x, a = chr 32 :: x) →
    (∃ z, t = chr 32 :: z ++ str_list "-all" ∧ low (z ++ str_list "-all")) →
    ∃ z, a ++ t = chr 32 :: z ++ str_list "-all" ∧ low (z ++ str_list "-all")).
  { intros a t Ha [-> |[x ->]] (z & -> & Hz); [by exists z|]. apply Forall_cons in Ha as [_ Ha].
    exists (x ++ chr 32 :: z). rewrite <-!app_assoc. split; [done|].
    apply Forall_app. split; [done|]. cbn [app]. by constructor. }
  destruct (Hstep a4 (a6 ++ inc ++ e)) as (z & E & Hz); [apply H4l|apply H4l| |].
  { apply Hstep; [apply H6l|apply H6l|]. apply Hstep; [apply Hil|apply Hil|done]. }
  exists (z ++ str_list "-all"). rewrite E. split_and!; [done|done| |by destruct z].
  rewrite rev_app_distr. reflexivity.
Qed.

Lemma spf_fields r : low r → fields (vSPF ++ chr 32 :: r) = vSPF :: fields r.
Proof. intros Hr. apply fields_cons; [done|apply version_wordy; left|done|done|done]. Qed.

(** The published policy is found and is the expected one. *)
Lemma spf_found cfg r : str_list (ExpectedSPF cfg) = vSPF ++ chr 32 :: r → low r → spaces (rev r) = [] → r ≠ [] →
  TrimSpace (ExpectedSPF cfg) = ExpectedSPF cfg ∧ is_spf (ExpectedSPF cfg) = true.
Proof.
  intros E Hr Hs Hne. split.
  - unfold TrimSpace. rewrite trim_id; [apply of_list_str_list|..].
    + rewrite E. apply Forall_app. split; [repeat constructor|by constructor].
    + rewrite E. done.
    + rewrite E, rev_app_distr. cbn [rev]. rewrite <-app_assoc.
      destruct (exists_last Hne) as (r' & c & ->). rewrite rev_app_distr in Hs |- *. cbn [rev app spaces] in Hs |- *.
      by destruct (space c).
  - unfold is_spf, Fields. rewrite E, spf_fields by done. rewrite fmap_cons. apply fold_refl.
Qed.
End texts.

(** ** Publishing *)

(** The answer to a TXT query where exactly [recs] are published. *)
Definition publishedTXT (recs : list DnsRecord) (name : string) : res (list string) :=
  match rValue <$> filter (λ r, rType r = "TXT" ∧ rName r = name +:+ ".") recs with
  | [] => Err (Message "no such host")
  | texts => Ok texts
  end.

(** The texts at [name] a check picks: [G] prepares a text, [P] selects. *)
Definition picked (P : string → bool) (G : string → string) (name : string) (recs : list DnsRecord) : list string :=
  filter (λ t, P t = true) (G <$> (rValue <$> filter (λ r, rType r = "TXT" ∧ rName r = name +:+ ".") recs)).

Section picking.
Variables (P : string → bool) (G : string → string) (name : string).

Lemma picked_app l k : picked P G name (l ++ k) = picked P G name l ++ picked P G name k.
Proof. unfold picked. by rewrite filter_app, !fmap_app, filter_app. Qed.

Lemma picked_none l :
  Forall (λ r, rType r = "TXT" → rName r = name +:+ "." → P (G (rValue r)) = false) l → picked P G name l = [].
Proof.
  induction 1 as [|r l Hr _ IH]; [done|]. change (r :: l) with ([r] ++ l). rewrite picked_app, IH, app_nil_r.
  unfold picked. rewrite filter_cons, filter_nil. case_decide as Hd; [|done]. destruct Hd as [Ht Hn].
  rewrite !fmap_cons, !fmap_nil, filter_cons, filter_nil. by rewrite Hr.
Qed.

Lemma picked_TXT v : P (G v) = true → picked P G name [TXT (name +:+ ".") v] = [G v].
Proof.
  intros Hp. unfold picked. rewrite filter_cons_True, filter_nil by done.
  rewrite !fmap_cons, !fmap_nil. by rewrite filter_cons_True, filter_nil.
Qed.

(** One element of a list contributes the text, the others nothing. *)
Lemma picked_single {A} (f : A → list DnsRecord) x l t :
  NoDup l → x ∈ l → picked P G name (f x) = [t] → (∀ y, y ∈ l → y ≠ x → picked P G name (f y) = []) →
  picked P G name (List.concat (f <$> l)) = [t].
Proof.
  intros Hn. induction Hn as [|y l Hy Hl IH]; [by intros ?%elem_of_nil|].
  intros [-> |Hx]%elem_of_cons Ht Ho; rewrite fmap_cons; cbn [List.concat]; rewrite picked_app.
  - rewrite Ht. assert (Hz : picked P G name (List.concat (f <$> l)) = []); [|by rewrite Hz].
    assert (Hz : ∀ z, z ∈ l → picked P G name (f z) = []).
    { intros z Hz. apply Ho; [by right|]. intros ->. done. }
    clear -Hz. induction l as [|z l IH]; [done|]. rewrite fmap_cons. cbn [List.concat]. rewrite picked_app.
    rewrite Hz, IH; [done|..]; [|left]. intros w Hw. apply Hz. by right.
  - rewrite (Ho y); [|left|by intros ->]. apply IH; [done|done|]. intros z Hz. apply Ho. by right.
Qed.

(** What a lookup answers when something is picked. *)
Lemma published_picked recs t : picked P G name recs = [t] →
  ∃ texts, publishedTXT recs name = Ok texts ∧ filter (λ t, P t = true) (G <$> texts) = [t].
Proof.
  unfold picked, publishedTXT. destruct (rValue <$> _) as [|x l]; [done|]. intros E. eauto.
Qed.
End picking.

(** ** Owners *)

Section owners.
Context `{CaseTables}.

Lemma addOwner_spec owners n : NoDup owners →
  NoDup (addOwner owners n) ∧ ∀ o, o ∈ addOwner owners n ↔ o ∈ owners ∨ (o = ownerName n ∧ o ≠ ".").
Proof.
  intros Hn. unfold addOwner. destruct (decide (ownerName n = ".")) as [Hd|Hd].
  { rewrite bool_decide_eq_true_2 by done. split; [done|]. intros o. split; [by left|]. intros [?|[-> ?]]; done. }
  rewrite bool_decide_eq_false_2 by done. destruct (decide (ownerName n ∈ owners)) as [Hi|Hi].
  - rewrite bool_decide_eq_true_2 by done. split; [done|]. intros o. split; [by left|]. by intros [?|[-> ?]].
  - rewrite bool_decide_eq_false_2 by done. split.
    + apply NoDup_app. split_and!; [done| |apply NoDup_singleton]. intros x Hx ->%list_elem_of_singleton. done.
    + intros o. rewrite elem_of_app, list_elem_of_singleton. split; [|intros [?|[? ?]]; auto].
      intros [?| ->]; auto.
Qed.

Lemma addOwners_spec ns : ∀ owners, NoDup owners →
  NoDup (fold_left addOwner ns owners) ∧
  ∀ o, o ∈ fold_left addOwner ns owners ↔ o ∈ owners ∨ (o ≠ "." ∧ ∃ n, n ∈ ns ∧ o = ownerName n).
Proof.
  induction ns as [|n ns IH]; intros owners Hn; cbn [fold_left].
  { split; [done|]. intros o. split; [by left|]. intros [?|(_ & n & ?%elem_of_nil & _)]; done. }
  destruct (addOwner_spec owners n Hn) as [Hn' Ha]. destruct (IH _ Hn') as [Hd Hm]. split; [done|].
  intros o. rewrite Hm, Ha. split.
  - intros [[?|[-> ?]]|(? & m & ? & ->)]; [by left|right|right]; split; try done.
    + exists n. split; [left|done].
    + exists m. split; [by right|done].
  - intros [?|(Ho & m & Hin & ->)]; [by left; left|]. apply elem_of_cons in Hin as [-> |Hin]; [left; right; done|].
    right. split; [done|]. eauto.
Qed.

Lemma spfOwnerNames_NoDup cfg : NoDup (spfOwnerNames cfg).
Proof.
  unfold spfOwnerNames. destruct (addOwners_spec (dName <$> cDomains cfg) [] (NoDup_nil_2)) as [Hn _].
  destruct (addOwners_spec (omap senderOwner (senders cfg)) _ Hn) as [Hn' _].
  destruct (bool_decide _); [done|]. by apply addOwner_spec.
Qed.

(** The owners include every domain and the domain of every sender. *)
Lemma spfOwnerNames_all cfg n :
  (n ∈ dName <$> cDomains cfg ∨ ∃ s, s ∈ senders cfg ∧ senderOwner s = Some n) → ownerName n ≠ "." →
  ownerName n ∈ spfOwnerNames cfg.
Proof.
  intros Hn Hd. unfold spfOwnerNames. destruct (addOwners_spec (dName <$> cDomains cfg) [] (NoDup_nil_2)) as [Hnd Hm].
  destruct (addOwners_spec (omap senderOwner (senders cfg)) _ Hnd) as [Hnd' Hm'].
  set (owners := fold_left addOwner (omap _ _) _) in *.
  assert (Hin : ownerName n ∈ owners).
  { apply Hm'. destruct Hn as [Hn|(s & Hs & Hn)]; [left; apply Hm; right; eauto|].
    right. split; [done|]. exists n. split; [|done]. apply list_elem_of_omap. eauto. }
  destruct (bool_decide _); [done|]. apply (addOwner_spec owners); [done|]. by left.
Qed.

Lemma spfOwnerNames_host cfg : ownerName (ownerName (sHostname (cServer cfg))) = ownerName (sHostname (cServer cfg)) →
  ownerName (sHostname (cServer cfg)) ≠ "." → ownerName (sHostname (cServer cfg)) ∈ spfOwnerNames cfg.
Proof.
  intros Hi Hd. unfold spfOwnerNames. destruct (addOwners_spec (dName <$> cDomains cfg) [] (NoDup_nil_2)) as [Hn _].
  destruct (addOwners_spec (omap senderOwner (senders cfg)) _ Hn) as [Hn' _].
  destruct (bool_decide _) eqn:E; [by apply bool_decide_eq_true_1 in E|].
  apply addOwner_spec; [done|]. right. by rewrite Hi.
Qed.

(** A name in canonical form. *)
Definition plain_name (n : string) : Prop := good_name n ∧ ToLower n = n.

Lemma str_take_full n s : (String.length s ≤ n)%nat → str_take n s = s.
Proof. intros Hn. unfold str_take. rewrite take_ge by (by rewrite length_str_list). apply of_list_str_list. Qed.

Lemma TrimSuffix_app s t : TrimSuffix (s +:+ t) t = s.
Proof.
  unfold TrimSuffix. rewrite (proj2 (HasSuffix_true (s +:+ t) t)) by (exists (str_list s); apply str_list_app).
  unfold str_take. rewrite str_list_app, <-!length_str_list, str_list_app, length_app.
  replace (length (str_list s) + length (str_list t) - length (str_list t))%nat with (length (str_list s)) by lia.
  rewrite take_app_length. apply of_list_str_list.
Qed.

Lemma good_trim n : good_name n → TrimSuffix n "." = n.
Proof.
  intros Hg. apply TrimSuffix_none. apply not_true_is_false. intros [k Hk]%HasSuffix_true.
  by specialize (gn_end _ Hg _ _ Hk).
Qed.

Lemma plain_owner n : plain_name n → ownerName n = n +:+ ".".
Proof.
  intros [Hg Hl]. unfold ownerName. rewrite lower_ascii, Hl by (by apply good_ascii). by rewrite good_trim.
Qed.

Lemma dotted_owner n : plain_name n → ownerName (n +:+ ".") = n +:+ ".".
Proof.
  intros [Hg Hl]. unfold ownerName. rewrite lower_ascii.
  - assert (E : ToLower (n +:+ ".") = n +:+ ".").
    { unfold ToLower in Hl |- *. apply str_list_inj. apply (f_equal str_list) in Hl.
      rewrite str_list_of_list in Hl |- *. rewrite str_list_app, map_app. by rewrite Hl. }
    by rewrite E, TrimSuffix_app.
  - apply good_ascii, is_ascii_low in Hg. apply is_ascii_low. rewrite str_list_app. apply Forall_app.
    split; [done|repeat constructor].
Qed.

Lemma str_app_dot s : s +:+ "." = "." → s = "".
Proof. destruct s as [|c s]; [done|]. intros E. injection E as _ E. by destruct s. Qed.

Lemma str_app_assoc s t u : (s +:+ t) +:+ u = s +:+ t +:+ u.
Proof. apply str_list_inj. by rewrite !str_list_app, <-app_assoc. Qed.

Lemma str_app_inj_r s t u : s +:+ u = t +:+ u → s = t.
Proof. intros E. apply str_list_inj. apply (f_equal str_list) in E. rewrite !str_list_app in E. by apply app_inv_tail in E. Qed.
End owners.

(** ** A configuration and its keys *)

(** What the texts of the records rely on and validation does not ensure: report URIs
    in ASCII; for the report policy, a URI without outer spaces and semicolons
    ([semicolon_breaks_dmarc]); and for the sender policies, no sender at the root
    domain. *)
Record dns_ascii (c : Config) : Prop := {
  dp_report : is_ascii (nReportURI (cDNS c)) = true;
  dp_tls : is_ascii (nTLSRPTURI (cDNS c)) = true
}.

Record report_plain (c : Config) : Prop := {
  dp_trimmed : TrimSpace (nReportURI (cDNS c)) = nReportURI (cDNS c);
  dp_semicolon : contains_byte 59 (nReportURI (cDNS c)) = false
}.

Definition no_root_sender `{CaseTables} (c : Config) : Prop := Forall (λ s, requiredOwner s ≠ Some ".") (senders c).

Section published.
Context `{CaseTables} `{AddressParser} `{UrlParser}.
Context (ToASCII : string → res string).
Context {Key : Type} (C : Crypto Key).
Variable scaled : Z → Z → Z → Z.
Variable cwd : string.
Variable lstatFault : string → option error.

(** What initialisation and loading give. *)
Record published (c : Config) (signers : gmap string (Signer Key)) : Prop := {
  pb_host : plain_name (sHostname (cServer c));
  pb_names : Forall (λ d, plain_name (dName d)) (cDomains c);
  pb_selectors : Forall (λ d, ∀ x, x ∈ str_list (kSelector (dDKIM d)) → byte_val x ≠ 46) (cDomains c);
  pb_distinct : NoDup (dName <$> cDomains c);
  pb_ipv6 : nPublicIPv6 (cDNS c) = "" ∨ is_Some (ParseIP (nPublicIPv6 (cDNS c)));
  pb_includes : Forall (λ i, is_ascii i = true) (nSPFIncludes (cDNS c));
  pb_policy : nDMARC (cDNS c) ∈ ["none"; "quarantine"; "reject"];
  pb_report : nReportURI (cDNS c) = "" ∨ ValidateDMARCReportURIList (nReportURI (cDNS c)) = Ok tt;
  pb_keys : Forall (λ d, ∃ raw, PublicKeys signers !! dName d = Some (of_list (std_encode raw)) ∧
    Records signers !! dName d = Some ("v=DKIM1; k=rsa; h=sha256; p=" +:+ of_list (std_encode raw))) (cDomains c);
  pb_plain : dns_ascii c
}.

Lemma validateIncludes_ascii l : validateIncludes l = Ok tt → Forall (λ i, is_ascii i = true) l.
Proof.
  induction l as [|i l IH]; cbn [validateIncludes]; [constructor|]. intros Hv. res_inv Hv. constructor; [|auto].
  eapply good_ascii, validateDomain_good. by match goal with Hd : validateDomain _ i = Ok ?u |- _ => destruct u; exact Hd end.
Qed.

Lemma validateDNS_ok cwd' x n : validateDNS cwd' x = Ok n →
  (nPublicIPv6 n = "" ∨ is_Some (ParseIP (nPublicIPv6 n))) ∧ Forall (λ i, is_ascii i = true) (nSPFIncludes n) ∧
  nDMARC n ∈ ["none"; "quarantine"; "reject"] ∧ (nReportURI n = "" ∨ ValidateDMARCReportURIList (nReportURI n) = Ok tt).
Proof.
  unfold validateDNS. intros Hv. res_inv Hv. injection Hv as <-.
  cbn [nPublicIPv6 nSPFIncludes nDMARC nReportURI]. split_and!.
  - destruct (decide (nPublicIPv6 (cDNS x) = "")) as [?|Hn]; [by left|]. right.
    match goal with Ho : optionalIPv6 _ _ = Ok _ |- _ => unfold optionalIPv6 in Ho; rewrite bool_decide_eq_false_2 in Ho by done end.
    destruct (ParseIP _); [by eexists|done].
  - match goal with Hi : validateIncludes _ = Ok ?u |- _ => destruct u; by apply validateIncludes_ascii end.
  - by zbool.
  - destruct (decide (nReportURI (cDNS x) = "")) as [?|Hn]; [by left|]. right.
    match goal with Hr : (if bool_decide (nReportURI _ = "") then _ else _) = Ok _ |- _ => rewrite bool_decide_eq_false_2 in Hr by done end.
    by destruct (ValidateDMARCReportURIList _) as [[]|].
Qed.

Lemma published_intro cfg c worlds files signers g files' :
  Init ToASCII scaled cwd cfg = Ok c → load C cwd lstatFault c worlds files = (Ok signers, g, files') →
  dns_ascii c → published c signers.
Proof.
  intros Hi Hl Hp. destruct (Init_inv _ _ _ _ _ Hi) as [Hv _]. destruct (Init_lower _ _ _ _ _ Hi) as [Hlow Hhost].
  destruct (validated_domains _ _ _ _ _ Hv) as (_ & Hg & Hn). destruct (load_ok C _ _ _ _ _ _ _ _ Hn Hl) as (pks & Hfrom & Hall).
  destruct (va_dns _ _ _ _ _ Hv) as (x & _ & (H6 & Hinc & Hpol & Hrep)%validateDNS_ok). split; try done.
  - split; [|done]. eapply validateDomain_good, va_host, Hv.
  - apply Forall_forall. intros d Hd. rewrite !Forall_forall in *. by split; auto.
  - by eapply validated_selectors.
  - apply Forall_forall. intros d Hd. destruct (Hall d Hd) as [s Hs]. destruct (Hfrom _ _ Hs) as (_ & d' & _ & _ & Hsig).
    unfold signer in Hsig. destruct (MarshalPKIX C (gKey s)) as [public|]; [|done]. cbn [res_bind] in Hsig.
    injection Hsig as Hsig. apply (f_equal gPublicKey) in Hsig. cbn [gPublicKey] in Hsig.
    exists (str_list public). unfold PublicKeys, Records, dkimRecord. rewrite !lookup_fmap, Hs.
    cbn [fmap option_fmap option_map]. by rewrite <-Hsig.
Qed.
End published.

Section agreement.
Context `{CaseTables} `{AddressParser} `{UrlParser}.
Context {Key : Type}.
Variable c : Config.
Variable signers : gmap string (Signer Key).
Hypothesis Hp : published c signers.

Lemma key_chars raw x : x ∈ std_encode raw → (byte_val x < 128 ∧ space x = false) ∧ byte_val x ≠ 59.
Proof.
  intros Hx. destruct (base64_encode_chars true raw x Hx) as [_ [[-> _]|(v & Hv & ->)]]; [by vm_compute|].
  assert (Hall : forallb (λ n, (byte_val (sextet_char (Z.of_nat n)) <? 128) && negb (space (sextet_char (Z.of_nat n)))
            && negb (byte_val (sextet_char (Z.of_nat n)) =? 59)) (seq 0 64) = true) by (by vm_compute).
  rewrite forallb_forall in Hall. specialize (Hall (Z.to_nat v)). rewrite Z2Nat.id in Hall by lia.
  assert (Hin : In (Z.to_nat v) (seq 0 64)) by (apply in_seq; lia). specialize (Hall Hin). clear Hin.
  apply andb_true_iff in Hall as [Hall H59]. apply andb_true_iff in Hall as [Hlt Hsp].
  apply Z.ltb_lt in Hlt. apply negb_true_iff in Hsp, H59. apply Z.eqb_neq in H59. done.
Qed.

Lemma key_wordy raw : wordy (std_encode raw).
Proof. apply Forall_forall. intros x Hx. by apply key_chars in Hx as [? _]. Qed.

Lemma begins_app (q : bytes) (a b : string) : (∃ r, str_list a = q ++ r ∧ low r) → low (str_list b) → begins q (a +:+ b).
Proof.
  intros (r & E & Hr) Hb. exists (r ++ str_list b). rewrite str_list_app, E, <-app_assoc. split; [done|]. by apply Forall_app.
Qed.

Lemma report_low : low (str_list (nReportURI (cDNS c))).
Proof. apply is_ascii_low, (dp_report _ (pb_plain _ _ Hp)). Qed.

Lemma dmarc_begins : begins vDMARC (dmarc c).
Proof.
  unfold dmarc.
  assert (Hpol : nDMARC (cDNS c) ≠ "" ∧ low (str_list (nDMARC (cDNS c)))).
  { pose proof (pb_policy _ _ Hp) as Hd.
    repeat apply elem_of_cons in Hd as [-> |Hd]; [split; [done|repeat constructor]..|by apply elem_of_nil in Hd]. }
  destruct Hpol as [Hne Hlow]. rewrite bool_decide_eq_false_2 by done.
  apply begins_app; [exists (str_list "; p="); split; [done|repeat constructor]|].
  rewrite !str_list_app. apply Forall_app; split; [done|]. apply Forall_app; split; [repeat constructor|].
  apply Forall_app; split; [done|]. apply Forall_app; split; [repeat constructor|].
  destruct (bool_decide _); [constructor|]. rewrite str_list_app.
  apply Forall_app; split; [repeat constructor|]. unfold TrimSpace. rewrite str_list_of_list.
  eapply low_incl; [intros x; apply trim_space_elem|apply report_low].
Qed.

(** The texts published for a domain, by version: its key, then the others. *)
Lemma key_begins d : d ∈ cDomains c → begins vDKIM (default "" (Records signers !! dName d)).
Proof.
  intros Hd. pose proof (pb_keys _ _ Hp) as Hk. rewrite Forall_forall in Hk. destruct (Hk d Hd) as (raw & _ & ->).
  cbn [default]. apply begins_app; [exists (str_list "; k=rsa; h=sha256; p="); split; [done|repeat constructor]|].
  rewrite str_list_of_list. apply wordy_low, key_wordy.
Qed.

Lemma late_texts d r : r ∈ tail (tail (domainRecords c (Records signers) d)) →
  (∃ host, r = TXT (dName d +:+ "._report._dmarc." +:+ host +:+ ".") "v=DMARC1") ∨ begins vTLS (rValue r).
Proof.
  unfold domainRecords. cbn [app tail]. rewrite elem_of_app. intros [Hr|Hr].
  - left. apply list_elem_of_fmap in Hr as (host & -> & _). exists host. by rewrite TrimSuffix_app.
  - right. destruct (bool_decide _); [by apply elem_of_nil in Hr|]. apply list_elem_of_singleton in Hr as ->.
    cbn [TXT rValue]. apply begins_app; [exists (str_list "; rua="); split; [done|repeat constructor]|].
    unfold TrimSpace. rewrite str_list_of_list. eapply low_incl; [intros x; apply trim_space_elem|].
    apply is_ascii_low, (dp_tls _ (pb_plain _ _ Hp)).
Qed.

Lemma other_texts d r : r ∈ tail (domainRecords c (Records signers) d) →
  r = TXT ("_dmarc." +:+ dName d +:+ ".") (dmarc c) ∨
  (∃ host, r = TXT (dName d +:+ "._report._dmarc." +:+ host +:+ ".") "v=DMARC1") ∨
  begins vTLS (rValue r).
Proof. intros [-> |Hr]%elem_of_cons; [by left|right; by apply late_texts]. Qed.

Lemma domain_split d : domainRecords c (Records signers) d =
  [TXT (kSelector (dDKIM d) +:+ "._domainkey." +:+ dName d +:+ ".") (default "" (Records signers !! dName d))]
  ++ tail (domainRecords c (Records signers) d).
Proof. done. Qed.

Lemma report_begins : begins vDMARC "v=DMARC1".
Proof. exists []. split; [done|constructor]. Qed.

(** Only the owners and the domains contribute texts. *)
Lemma picked_build P G name : picked P G name (Build c (Records signers)) =
  picked P G name (List.concat ((λ o, [TXT o (ExpectedSPF c)]) <$> spfOwnerNames c))
  ++ picked P G name (List.concat (domainRecords c (Records signers) <$> cDomains c)).
Proof.
  unfold Build. rewrite !picked_app.
  assert (Hn : ∀ l, Forall (λ r, rType r ≠ "TXT") l → picked P G name l = []).
  { intros l Hl. apply picked_none. eapply Forall_impl; [exact Hl|]. done. }
  rewrite Hn by (destruct (bool_decide _); [constructor|]; destruct (canonicalIPv4 _); by repeat constructor).
  rewrite Hn by (destruct (bool_decide _); by repeat constructor).
  rewrite Hn by (destruct (rrEnabled _); [|constructor]; apply Forall_fmap, Forall_forall; done).
  cbn [app]. f_equal. f_equal. induction (spfOwnerNames c) as [|o l IH]; [done|]. rewrite !fmap_cons. cbn [List.concat app].
  by rewrite IH.
Qed.

Lemma picked_domains_none P G name :
  (∀ d r, d ∈ cDomains c → r ∈ domainRecords c (Records signers) d → rName r = name +:+ "." → P (G (rValue r)) = false) →
  picked P G name (List.concat (domainRecords c (Records signers) <$> cDomains c)) = [].
Proof.
  intros Hn. apply picked_none, Forall_forall. intros r Hr _ Hname. apply list_elem_of_In, in_concat in Hr as (l & Hl & Hr).
  apply list_elem_of_In, list_elem_of_fmap in Hl as (d & -> & Hd). apply (Hn d); [done|by apply list_elem_of_In|done].
Qed.

Lemma picked_owners_none P G name : P (G (ExpectedSPF c)) = false →
  picked P G name (List.concat ((λ o, [TXT o (ExpectedSPF c)]) <$> spfOwnerNames c)) = [].
Proof.
  intros Hn. apply picked_none, Forall_forall. intros r Hr _ _. apply list_elem_of_In, in_concat in Hr as (l & Hl & Hr).
  apply list_elem_of_In, list_elem_of_fmap in Hl as (o & -> & _). by destruct Hr as [<-|[]].
Qed.

Lemma spf_begins : begins vSPF (ExpectedSPF c).
Proof.
  destruct (spf_text c) as (r & E & Hr & _); [apply Hp|apply Hp|]. exists (chr 32 :: r). split; [done|]. by constructor.
Qed.

(** ** Sender policies *)

Variable R : CheckResolver.
Hypothesis Hres : ∀ name, LookupTXT R name = publishedTXT (Build c (Records signers)) name.

Lemma sender_owners s o : requiredOwner s = Some o → o ≠ "" → ∃ n, senderOwner s = Some n ∧ o = ToLowerText n.
Proof.
  unfold requiredOwner, senderOwner. cbn zeta. intros Hr Ho.
  destruct (HasPrefix (TrimSpace s) "*@") eqn:Ep.
  - injection Hr as <-. destruct (decide (TrimSpace s = "")) as [E|E]; [by rewrite E in Ep|].
    rewrite bool_decide_eq_false_2 by done. eauto.
  - destruct (last_index 64 (str_list (TrimSpace s))) as [i|] eqn:Ei; [|done].
    destruct (i =? 0)%nat eqn:E0; [done|]. injection Hr as <-.
    rewrite bool_decide_eq_false_2 by (intros E; by rewrite E in Ei).
    destruct (i =? String.length (TrimSpace s) - 1)%nat eqn:El; [|by eauto]. exfalso. apply Ho.
    apply Nat.eqb_eq in El. apply Nat.eqb_neq in E0. unfold str_drop.
    rewrite drop_ge by (rewrite length_str_list; lia). by apply lower_ascii.
Qed.

(** Every name that is checked is published. *)
Lemma owner_published o : no_root_sender c → o ∈ requiredSPFOwners c → TrimSuffix o "." +:+ "." ∈ spfOwnerNames c.
Proof.
  intros Hroot. unfold requiredSPFOwners, sort_strings. cbn zeta. rewrite merge_sort_Permutation.
  rewrite elem_of_elements, elem_of_difference, elem_of_list_to_set, not_elem_of_singleton, elem_of_cons, elem_of_app.
  intros [[-> |[Hd|Hs]] Hne].
  - pose proof (pb_host _ _ Hp) as Hh. destruct (Hh) as [Hg Hl].
    rewrite (good_trim _ Hg), lower_ascii, Hl, (good_trim _ Hg) by (by apply good_ascii). rewrite <-(plain_owner _ Hh).
    apply spfOwnerNames_host; rewrite (plain_owner _ Hh); [by apply dotted_owner|].
    intros E%str_app_dot. by apply (gn_some _ Hg).
  - pose proof (pb_names _ _ Hp) as Hn. apply list_elem_of_fmap in Hd as (d & -> & Hd). rewrite Forall_forall in Hn.
    specialize (Hn d Hd). rewrite good_trim by apply Hn. rewrite <-(plain_owner _ Hn).
    apply spfOwnerNames_all; [left; apply list_elem_of_fmap; eauto|]. rewrite (plain_owner _ Hn).
    intros E%str_app_dot. by apply (gn_some _ (proj1 Hn)).
  - apply list_elem_of_omap in Hs as (s & Hs & Hr). destruct (sender_owners _ _ Hr Hne) as (n & Hn & ->).
    apply (spfOwnerNames_all c n); [eauto|]. unfold ownerName. intros E%str_app_dot.
    unfold no_root_sender in Hroot. rewrite Forall_forall in Hroot. apply (Hroot s Hs). rewrite Hr. f_equal.
    unfold TrimSuffix in E. destruct (HasSuffix _ _) eqn:Es; [|done]. apply HasSuffix_true in Es as [k Hk].
    apply str_list_inj. rewrite Hk. apply (f_equal str_list) in E. unfold str_take in E.
    rewrite str_list_of_list, <-(length_str_list (ToLowerText n)), Hk, length_app in E.
    change (String.length ".") with 1%nat in E. change (length (str_list ".")) with 1%nat in E.
    rewrite Nat.add_sub, take_app_length in E. change (str_list "") with (@nil ascii) in E. by rewrite E.
Qed.

Lemma checkSPF_passes r : no_root_sender c → r ∈ checkSPF R c → r.2 = Pass.
Proof.
  intros Hroot (o & -> & Ho)%list_elem_of_fmap. pose proof (owner_published o Hroot Ho) as Hin. unfold checkSPFOwner. cbn zeta.
  destruct (spf_text c) as (t & Et & Ht & Hs & Hne); [apply Hp|apply Hp|].
  destruct (spf_found c t Et Ht Hs Hne) as [Htrim His].
  destruct (published_picked (λ t, is_spf t) TrimSpace (TrimSuffix o ".") (Build c (Records signers)) (TrimSpace (ExpectedSPF c)))
    as (texts & Etx & Ef).
  - rewrite picked_build. rewrite picked_domains_none, app_nil_r.
    + eapply picked_single; [apply spfOwnerNames_NoDup|exact Hin|apply picked_TXT; by rewrite Htrim|].
      intros o' _ Hd. apply picked_none. repeat constructor. intros _ E. exfalso. by apply Hd.
    + intros d r Hd Hr _. rewrite domain_split in Hr. apply elem_of_cons in Hr as [-> |Hr].
      { apply (not_spf vDKIM); [left|by apply key_begins]. }
      destruct (other_texts d r Hr) as [-> |[[host ->]|Hb]].
      * apply (not_spf vDMARC); [right; left|apply dmarc_begins].
      * apply (not_spf vDMARC); [right; left|apply report_begins].
      * by apply (not_spf vTLS); [right; right; left|].
  - rewrite Hres, Etx, Ef, Htrim. by rewrite bool_decide_eq_true_2.
Qed.

(** ** Keys *)

Lemma wordy_trim s : wordy (str_list s) → TrimSpace s = s.
Proof.
  intros Hw. unfold TrimSpace. destruct (decide (str_list s = [])) as [E|Hne].
  { rewrite <-(of_list_str_list s), E. done. }
  rewrite trim_id; [apply of_list_str_list|by apply wordy_low|..].
  - rewrite <-(app_nil_r (str_list s)). by apply spaces_app_word.
  - rewrite <-(app_nil_r (rev _)). apply spaces_app_word; [|by apply Forall_rev].
    intros E. apply (f_equal (@rev ascii)) in E. rewrite rev_involutive in E. done.
Qed.

Definition dkimTight (key : string) : string := "v=DKIM1;k=rsa;h=sha256;p=" +:+ key.

Lemma key_collapses raw : collapseSpaces ("v=DKIM1; k=rsa; h=sha256; p=" +:+ of_list (std_encode raw))
  = dkimTight (of_list (std_encode raw)).
Proof.
  unfold collapseSpaces, Fields. rewrite str_list_app, str_list_of_list.
  assert (Hl : low (std_encode raw)) by (apply wordy_low, key_wordy).
  change (str_list "v=DKIM1; k=rsa; h=sha256; p=") with
    (str_list "v=DKIM1;" ++ chr 32 :: str_list "k=rsa;" ++ chr 32 :: str_list "h=sha256;" ++ chr 32 :: str_list "p=").
  rewrite <-!app_assoc. cbn [app]. rewrite <-!app_assoc. cbn [app]. rewrite <-!app_assoc. cbn [app].
  assert (Hp1 : low (str_list "p=" ++ std_encode raw)) by (apply Forall_app; split; [repeat constructor|done]).
  assert (Hp2 : low (str_list "h=sha256;" ++ chr 32 :: str_list "p=" ++ std_encode raw))
    by (apply Forall_app; split; [repeat constructor|by constructor]).
  assert (Hp3 : low (str_list "k=rsa;" ++ chr 32 :: str_list "h=sha256;" ++ chr 32 :: str_list "p=" ++ std_encode raw))
    by (apply Forall_app; split; [repeat constructor|by constructor]).
  rewrite (fields_cons (str_list "v=DKIM1;")) by (done || (repeat constructor)).
  rewrite (fields_cons (str_list "k=rsa;")) by (done || (repeat constructor)).
  rewrite (fields_cons (str_list "h=sha256;")) by (done || (repeat constructor)).
  rewrite fields_word; [|done|apply Forall_app; split; [repeat constructor|apply key_wordy]].
  reflexivity.
Qed.

Lemma tight_wordy raw : wordy (str_list (dkimTight (of_list (std_encode raw)))).
Proof.
  unfold dkimTight. rewrite str_list_app, str_list_of_list. apply Forall_app. split; [repeat constructor|apply key_wordy].
Qed.

Lemma cut_at k v : (∀ x, x ∈ str_list k → byte_val x ≠ 61) → Cut (k +:+ "=" +:+ v) 61 = (k, v, true).
Proof.
  intros Hk. unfold Cut, cut_byte. rewrite !str_list_app. change (str_list "=") with [chr 61]. cbn [app].
  rewrite (index_byte_app 61) by done. rewrite take_app_length.
  replace (S (length (str_list k))) with (length (str_list k ++ [chr 61])) by (rewrite length_app; cbn; lia).
  change (chr 61 :: str_list v) with ([chr 61] ++ str_list v). rewrite app_assoc, drop_app_length.
  by rewrite !of_list_str_list.
Qed.

Lemma key_tag raw : parseTags (dkimTight (of_list (std_encode raw))) !! "p" = Some (of_list (std_encode raw)).
Proof.
  set (key := of_list (std_encode raw)).
  assert (Hs : Split (dkimTight key) 59 = ["v=DKIM1"; "k=rsa"; "h=sha256"; "p=" +:+ key]).
  { unfold Split, dkimTight, key. rewrite str_list_app, str_list_of_list.
    change (str_list "v=DKIM1;k=rsa;h=sha256;p=" ++ std_encode raw) with
      (str_list "v=DKIM1" ++ chr 59 :: str_list "k=rsa" ++ chr 59 :: str_list "h=sha256" ++ chr 59 :: str_list "p=" ++ std_encode raw).
    assert (Hno : ∀ w, w ∈ [str_list "v=DKIM1"; str_list "k=rsa"; str_list "h=sha256"; str_list "p="] → ∀ x, x ∈ w → byte_val x ≠ 59).
    { intros w Hw x Hx. repeat apply elem_of_cons in Hw as [-> |Hw]; [..|by apply elem_of_nil in Hw];
        (repeat apply elem_of_cons in Hx as [-> |Hx]; [done..|by apply elem_of_nil in Hx]). }
    rewrite (split_list_sep 59 (str_list "v=DKIM1")), (split_list_sep 59 (str_list "k=rsa")),
      (split_list_sep 59 (str_list "h=sha256")) by (done || (apply Hno; set_solver)).
    rewrite split_list_none; [reflexivity|].
    intros x [Hx|Hx]%elem_of_app; [|by apply key_chars in Hx as [_ ?]]. apply (Hno (str_list "p=")); [set_solver|done]. }
  unfold parseTags. rewrite Hs. generalize (∅ : gmap string string). intros m0. cbn [fold_left].
  match goal with |- context [if bool_decide (TrimSpace ("p=" +:+ key) = "") then ?o else _] => generalize o end. intros m.
  assert (Hw : wordy (str_list key)) by (unfold key; rewrite str_list_of_list; apply key_wordy).
  rewrite (wordy_trim ("p=" +:+ key)) by (rewrite str_list_app; apply Forall_app; split; [repeat constructor|done]).
  rewrite bool_decide_eq_false_2 by done. change ("p=" +:+ key) with ("p" +:+ "=" +:+ key).
  rewrite cut_at by (intros x Hx; apply list_elem_of_singleton in Hx as ->; done).
  rewrite (wordy_trim key) by done. replace (ToLowerText (TrimSpace "p")) with "p"; [apply lookup_insert_eq|].
  change (TrimSpace "p") with "p". by rewrite lower_ascii.
Qed.

Lemma tight_dkim raw : is_dkim (dkimTight (of_list (std_encode raw))) = true.
Proof.
  unfold is_dkim, HasPrefix. rewrite lower_ascii by (apply is_ascii_low, wordy_low, tight_wordy).
  unfold ToLower, dkimTight. rewrite str_list_of_list, str_list_app, map_app. done.
Qed.

Lemma selector_names d d' : d ∈ cDomains c → d' ∈ cDomains c →
  kSelector (dDKIM d) +:+ "._domainkey." +:+ dName d +:+ "." = (kSelector (dDKIM d') +:+ "._domainkey." +:+ dName d') +:+ "." →
  d = d'.
Proof.
  intros Hd Hd' E. eapply same_domain; [apply Hp|done|done|].
  pose proof (pb_selectors _ _ Hp) as Hs. rewrite Forall_forall in Hs.
  apply (f_equal str_list) in E. rewrite !str_list_app in E. rewrite <-!app_assoc in E.
  assert (Hcut : ∀ a b x y : bytes, (∀ z, z ∈ a → byte_val z ≠ 46) → (∀ z, z ∈ b → byte_val z ≠ 46) →
            a ++ chr 46 :: x = b ++ chr 46 :: y → x = y).
  { intros a b x y Ha Hb Eq. assert (Hi : index_byte 46 (a ++ chr 46 :: x) = Some (length a)) by (by apply index_byte_app).
    rewrite Eq, (index_byte_app 46) in Hi by done. injection Hi as Hi. apply app_inj_1 in Eq as [_ Eq]; [by injection Eq|done]. }
  change (str_list "._domainkey.") with (chr 46 :: str_list "_domainkey.") in E. cbn [app] in E.
  apply Hcut in E; [|by apply Hs..]. apply (app_inv_head (str_list "_domainkey.")) in E.
  apply app_inv_tail in E. by apply str_list_inj.
Qed.

Lemma domains_NoDup : NoDup (cDomains c).
Proof. eapply NoDup_fmap_1, Hp. Qed.

Lemma checkDKIM_passes d : d ∈ cDomains c → (checkDKIM R d (default "" (PublicKeys signers !! dName d))).2 ≠ Fail.
Proof.
  intros Hd. pose proof (pb_keys _ _ Hp) as Hk. rewrite Forall_forall in Hk. destruct (Hk d Hd) as (raw & Ek & Er).
  set (key := of_list (std_encode raw)) in *. unfold checkDKIM. cbn zeta.
  set (G := λ t, TrimSpace (collapseSpaces t)). set (name := kSelector (dDKIM d) +:+ "._domainkey." +:+ dName d).
  assert (HG : G ("v=DKIM1; k=rsa; h=sha256; p=" +:+ key) = dkimTight key).
  { unfold G, key. rewrite key_collapses. apply wordy_trim, tight_wordy. }
  destruct (published_picked is_dkim G name (Build c (Records signers)) (dkimTight key)) as (texts & Etx & Ef).
  - rewrite picked_build, picked_owners_none by (apply (not_dkim vSPF); [left|apply spf_begins]). cbn [app].
    assert (Hother : ∀ y, picked is_dkim G name (tail (domainRecords c (Records signers) y)) = []).
    { intros y. apply picked_none, Forall_forall. intros r Hr _ _. destruct (other_texts y r Hr) as [-> |[[host ->]|Hb]].
      - apply (not_dkim vDMARC); [right; left|apply dmarc_begins].
      - apply (not_dkim vDMARC); [right; left|apply report_begins].
      - by apply (not_dkim vTLS); [right; right; left|]. }
    eapply picked_single; [apply domains_NoDup|exact Hd|..].
    + rewrite domain_split, picked_app, Hother, app_nil_r, Er. cbn [default]. rewrite <-HG.
      replace (kSelector (dDKIM d) +:+ _) with (name +:+ ".") by (unfold name; by rewrite !str_app_assoc).
      apply picked_TXT. rewrite HG. apply tight_dkim.
    + intros y Hy Hne. rewrite domain_split, picked_app, Hother, app_nil_r. apply picked_none. repeat constructor.
      cbn [TXT rName]. intros _ E. exfalso. apply Hne. by apply selector_names.
  - rewrite Hres, Etx, Ef, Ek. cbn [default]. destruct (decide (key = "")) as [E|E]; [by rewrite bool_decide_eq_true_2|].
    rewrite bool_decide_eq_false_2 by done. unfold key at 1. rewrite key_tag. by rewrite bool_decide_eq_true_2.
Qed.

(** ** Report policies *)

(** ASCII text without outer spaces. *)
Definition tight (l : bytes) : Prop := low l ∧ spaces l = [] ∧ spaces (rev l) = [].

Lemma tight_trim l : tight l → trim_space l = l.
Proof. intros (Hl & Hfront & Hback). by apply trim_id. Qed.

Lemma trim_tight l : low l → trim_space l = l → tight l.
Proof.
  intros Hl E. rewrite trim_low in E by done. cbn zeta in E. apply (f_equal length) in E.
  rewrite length_take, length_drop in E. destruct (spaces_prefix l) as [r Hr].
  assert (Hlen : length l = (length (spaces l) + length r)%nat) by (rewrite Hr at 1; apply length_app).
  assert (Hz : length (spaces l) = 0%nat) by lia. rewrite Hz, drop_0 in E.
  assert (Hle : (length (spaces (rev l)) ≤ length l)%nat).
  { destruct (spaces_prefix (rev l)) as [r' Hr']. apply (f_equal length) in Hr'. rewrite length_app, length_rev in Hr'. lia. }
  split; [done|]. split; apply nil_length_inv; lia.
Qed.

Lemma tight_app a l : a ≠ [] → low a → spaces a = [] → tight l → l ≠ [] → tight (a ++ l).
Proof.
  intros Hne Ha Hs (Hl & _ & Hback) Hl0. split_and!.
  - by apply Forall_app.
  - destruct a as [|x a]; [done|]. cbn [app spaces] in Hs |- *. by destruct (space x).
  - destruct (exists_last Hl0) as (l' & x & ->). rewrite rev_app_distr in Hback. rewrite !rev_app_distr.
    cbn [rev app spaces] in Hback |- *. by destruct (space x).
Qed.

Lemma trim_behind l : tight l → trim_space (chr 32 :: l) = l.
Proof.
  intros (Hl & Hfront & Hback). rewrite trim_low by (by constructor). cbn zeta.
  change (spaces (chr 32 :: l)) with (chr 32 :: spaces l). rewrite Hfront. cbn [length drop]. rewrite drop_0, Hback.
  cbn [length]. rewrite Nat.sub_0_r. apply firstn_all.
Qed.

(** One tag read. *)
Lemma dmarcTags_step tags k v part parts :
  asciiLetters k = true → v ≠ "" → tight (str_list v) → TrimSpace part = k +:+ "=" +:+ v → tags !! k = None →
  dmarcTags tags (part :: parts) = dmarcTags (<[k := v]> tags) parts.
Proof.
  intros Hk Hv Ht Hpart Hn. cbn [dmarcTags]. rewrite Hpart.
  pose proof Hk as Hk'. unfold asciiLetters in Hk'. apply andb_true_iff in Hk' as [Hlow Hke].
  apply negb_true_iff, bool_decide_eq_false_1 in Hke. rewrite forallb_forall in Hlow.
  assert (Hc : ∀ x, x ∈ str_list k → 97 ≤ byte_val x ≤ 122).
  { intros x Hx%list_elem_of_In. specialize (Hlow x Hx). unfold is_lower, between in Hlow. lia. }
  assert (Hwk : wordy (str_list k)).
  { apply Forall_forall. intros x Hx%Hc. split; [lia|]. unfold space. apply not_true_is_false. intros Hs.
    unfold IsSpace, in_ranges, in_range in Hs. cbn [existsb fst snd] in Hs. lia. }
  rewrite bool_decide_eq_false_2 by (destruct k; done).
  rewrite cut_at by (intros x Hx%Hc; lia). rewrite (wordy_trim k) by done.
  assert (Hlk : ToLowerText k = k).
  { rewrite lower_ascii by (by apply is_ascii_low, wordy_low). unfold ToLower. apply str_list_inj. rewrite str_list_of_list.
    rewrite <-(map_id (str_list k)) at 2. apply map_ext_in. intros x Hx%list_elem_of_In%Hc. unfold lower_char, is_upper, between.
    destruct ((65 <=? byte_val x) && (byte_val x <=? 90)) eqn:E; [lia|done]. }
  rewrite Hlk. replace (TrimSpace v) with v by (unfold TrimSpace; rewrite (tight_trim _ Ht); by rewrite of_list_str_list).
  rewrite (bool_decide_eq_false_2 (k = "")), (bool_decide_eq_false_2 (v = "")) by done. rewrite Hk. cbn [negb orb].
  rewrite bool_decide_eq_false_2; [done|]. rewrite Hn. by intros [? ?].
Qed.

Lemma split_list_app b l x k : byte_val x = b → split_list b (l ++ x :: k) = split_list b l ++ split_list b k.
Proof.
  intros Hx. induction l as [|y l IH]; cbn [app split_list].
  - by rewrite (proj2 (is_char_true b x) Hx).
  - rewrite IH. destruct (is_char b y); [done|]. destruct (split_list b l) as [|w ws] eqn:E; [|done].
    exfalso. destruct l as [|z l]; cbn [split_list] in E; [done|]. destruct (is_char b z); [done|].
    by destruct (split_list b l).
Qed.

(** The fixed tags, for a policy. *)
Definition dmarcBase (policy : string) : string :=
  "v=DMARC1; p=" +:+ policy +:+ "; sp=" +:+ policy +:+ "; adkim=r; aspf=r".

Definition dmarcFixed (policy : string) : gmap string string :=
  <["aspf" := "r"]> (<["adkim" := "r"]> (<["sp" := policy]> (<["p" := policy]> (<["v" := "DMARC1"]> ∅)))).

Lemma dmarc_split policy uri : policy ∈ ["none"; "quarantine"; "reject"] → contains_byte 59 uri = false →
  Split (dmarcBase policy +:+ "; rua=" +:+ uri) 59 = Split (dmarcBase policy) 59 ++ [" rua=" +:+ uri].
Proof.
  intros Hpol Hu. unfold Split. rewrite !str_list_app. change (str_list "; rua=") with (chr 59 :: str_list " rua=").
  cbn [app]. rewrite split_list_app by done. rewrite fmap_app. f_equal.
  rewrite split_list_none; [by rewrite <-str_list_app, fmap_cons, fmap_nil, of_list_str_list|].
  rewrite contains_byte_false in Hu.
  intros x [Hx|Hx]%elem_of_app; [|by apply Hu].
  repeat apply elem_of_cons in Hx as [-> |Hx]; [done..|by apply elem_of_nil in Hx].
Qed.

Lemma dmarc_fixed policy rest : policy ∈ ["none"; "quarantine"; "reject"] →
  dmarcTags ∅ (Split (dmarcBase policy) 59 ++ rest) = dmarcTags (dmarcFixed policy) rest.
Proof.
  intros Hpol.
  assert (Hs : Split (dmarcBase policy) 59
    = ["v=DMARC1"; " p=" +:+ policy; " sp=" +:+ policy; " adkim=r"; " aspf=r"]).
  { repeat apply elem_of_cons in Hpol as [-> |Hpol]; [by vm_compute..|by apply elem_of_nil in Hpol]. }
  assert (Hw : policy ≠ "" ∧ tight (str_list policy) ∧ TrimSpace (" p=" +:+ policy) = "p=" +:+ policy
            ∧ TrimSpace (" sp=" +:+ policy) = "sp=" +:+ policy).
  { repeat apply elem_of_cons in Hpol as [-> |Hpol]; [..|by apply elem_of_nil in Hpol];
      (split_and!; [done| |by vm_compute|by vm_compute]; split; [repeat constructor|by vm_compute]). }
  destruct Hw as (Hne & Ht & Hp1 & Hp2). rewrite Hs. cbn [app]. clear Hs.
  assert (Hr : tight (str_list "r")) by (split; [repeat constructor|by vm_compute]).
  rewrite (dmarcTags_step _ "v" "DMARC1"); [|done|done|split; [repeat constructor|by vm_compute]|by vm_compute|done].
  rewrite (dmarcTags_step _ "p" policy); [|done|done|done|done|done].
  rewrite (dmarcTags_step _ "sp" policy); [|done|done|done|done|done].
  rewrite (dmarcTags_step _ "adkim" "r"); [|done|done|done|by vm_compute|done].
  rewrite (dmarcTags_step _ "aspf" "r"); [|done|done|done|by vm_compute|done].
  done.
Qed.

(** The published report policy reads back. *)
Lemma dmarc_reads : report_plain c → ∃ tags, parseDMARCTags (dmarc c) = Ok tags ∧ tags !! "p" = Some (nDMARC (cDNS c)) ∧
  default "" (tags !! "rua") = nReportURI (cDNS c).
Proof.
  intros [Htr Hsemi]. pose proof (pb_policy _ _ Hp) as Hpol. destruct (pb_plain _ _ Hp) as [Ha _].
  assert (Hne : nDMARC (cDNS c) ≠ "").
  { intros E. rewrite E in Hpol. repeat apply elem_of_cons in Hpol as [?|Hpol]; [done..|by apply elem_of_nil in Hpol]. }
  unfold parseDMARCTags, dmarc. rewrite Htr, (bool_decide_eq_false_2 (nDMARC (cDNS c) = "")) by done.
  set (policy := nDMARC (cDNS c)) in *. set (uri := nReportURI (cDNS c)) in *.
  assert (Hv : ∀ m : gmap string string, m !! "v" = Some "DMARC1" → EqualFold (default "" (m !! "v")) "DMARC1" = true).
  { intros m ->. apply fold_refl. }
  destruct (decide (uri = "")) as [E|E].
  - rewrite bool_decide_eq_true_2 by done. replace ("v=DMARC1; p=" +:+ _) with (dmarcBase policy)
      by (unfold dmarcBase; apply str_list_inj; rewrite !str_list_app; by rewrite ?app_nil_r, <-?app_assoc).
    rewrite <-(app_nil_r (Split _ _)), dmarc_fixed by done. cbn [dmarcTags res_bind]. rewrite Hv by done. cbn [negb].
    exists (dmarcFixed policy). rewrite E. done.
  - rewrite bool_decide_eq_false_2 by done. replace ("v=DMARC1; p=" +:+ _) with (dmarcBase policy +:+ "; rua=" +:+ uri)
      by (unfold dmarcBase; apply str_list_inj; rewrite !str_list_app; by rewrite ?app_nil_r, <-?app_assoc).
    assert (Ht : tight (str_list uri)).
    { apply trim_tight; [by apply is_ascii_low|]. unfold TrimSpace in Htr. apply (f_equal str_list) in Htr.
      by rewrite str_list_of_list in Htr. }
    rewrite dmarc_split, dmarc_fixed by done.
    rewrite (dmarcTags_step _ "rua" uri); [|done|done|done| |done].
    2:{ unfold TrimSpace. change (str_list (" rua=" +:+ uri)) with (chr 32 :: (str_list "rua=" ++ str_list uri)).
        rewrite trim_behind; [|apply tight_app; [done|repeat constructor|done|done|]].
        - by rewrite <-str_list_app, of_list_str_list.
        - intros E'. apply E. by apply str_list_inj. }
    cbn [dmarcTags res_bind]. rewrite Hv by (by rewrite lookup_insert_ne). cbn [negb]. eexists. split; [done|].
    rewrite lookup_insert_ne, lookup_insert_eq by done. done.
Qed.

Lemma dmarc_shape : report_plain c → ∃ r, str_list (dmarc c) = vDMARC ++ chr 59 :: r ∧ tight (str_list (dmarc c)).
Proof.
  intros [Htr _]. pose proof (pb_policy _ _ Hp) as Hpol. destruct (pb_plain _ _ Hp) as [Ha _].
  assert (Hb : dmarcBase (nDMARC (cDNS c)) ≠ "" ∧ tight (str_list (dmarcBase (nDMARC (cDNS c)))) ∧ nDMARC (cDNS c) ≠ "").
  { repeat apply elem_of_cons in Hpol as [-> |Hpol]; [..|by apply elem_of_nil in Hpol];
      (split_and!; [done| |done]; split; [repeat constructor|by vm_compute]). }
  destruct Hb as (Hb & Ht & Hne).
  assert (Hd : dmarc c = dmarcBase (nDMARC (cDNS c)) +:+
            (if bool_decide (nReportURI (cDNS c) = "") then "" else "; rua=" +:+ nReportURI (cDNS c))).
  { unfold dmarc, dmarcBase. rewrite Htr, (bool_decide_eq_false_2 (nDMARC (cDNS c) = "")) by done.
    by rewrite !str_app_assoc. }
  exists (drop 9 (str_list (dmarc c))). rewrite Hd. split; [by rewrite str_list_app|].
  rewrite str_list_app. destruct (decide (nReportURI (cDNS c) = "")) as [E|E].
  - rewrite bool_decide_eq_true_2, app_nil_r by done. done.
  - rewrite bool_decide_eq_false_2 by done. destruct Ht as (Hl & Hs & _). rewrite str_list_app, app_assoc.
    apply tight_app.
    + by destruct (str_list (dmarcBase (nDMARC (cDNS c)))).
    + apply Forall_app. split; [done|repeat constructor].
    + cbn [app spaces] in *. done.
    + apply trim_tight; [apply report_low|]. unfold TrimSpace in Htr. apply (f_equal str_list) in Htr.
      by rewrite str_list_of_list in Htr.
    + intros E'. apply E. by apply str_list_inj.
Qed.

Lemma dmarc_found : report_plain c → TrimSpace (dmarc c) = dmarc c ∧ is_dmarc (dmarc c) = true.
Proof.
  intros (r & Er & Ht)%dmarc_shape. split.
  - unfold TrimSpace. rewrite (tight_trim _ Ht). apply of_list_str_list.
  - unfold is_dmarc, Cut, cut_byte. rewrite Er. cbn [fst].
    rewrite (index_byte_app 59) by (done || (apply version_wordy; set_solver)). rewrite take_app_length. cbn [fst].
    apply fold_refl.
Qed.

Lemma dmarc_names d d' host : d ∈ cDomains c → d' ∈ cDomains c →
  dName d +:+ "._report._dmarc." +:+ host +:+ "." ≠ ("_dmarc." +:+ dName d') +:+ ".".
Proof.
  intros Hd Hd' E. pose proof (pb_names _ _ Hp) as Hn. rewrite Forall_forall in Hn. destruct (Hn d Hd) as [Hg _].
  destruct (str_list (dName d)) as [|x l] eqn:Ex.
  { apply (gn_some _ Hg). by apply str_list_inj. }
  apply (f_equal str_list) in E. rewrite !str_list_app, Ex in E. injection E as Eq _.
  pose proof (gn_chars _ Hg x) as Hc. rewrite Ex, Eq in Hc. specialize (Hc ltac:(left)). done.
Qed.

Lemma checkDMARC_passes d : report_plain c → d ∈ cDomains c → (checkDMARC R c (dName d)).2 ≠ Fail.
Proof.
  intros Hrp Hd. destruct (dmarc_found Hrp) as [Htrim His]. destruct (dmarc_reads Hrp) as (tags & Et & Etp & Etr).
  unfold checkDMARC. cbn zeta. set (name := "_dmarc." +:+ dName d).
  assert (Hrest : ∀ y, y ∈ cDomains c → picked is_dmarc TrimSpace name (domainRecords c (Records signers) y)
    = picked is_dmarc TrimSpace name [TXT ("_dmarc." +:+ dName y +:+ ".") (dmarc c)]).
  { intros y Hy. change (domainRecords c (Records signers) y) with
      ([TXT (kSelector (dDKIM y) +:+ "._domainkey." +:+ dName y +:+ ".") (default "" (Records signers !! dName y))]
       ++ [TXT ("_dmarc." +:+ dName y +:+ ".") (dmarc c)] ++ tail (tail (domainRecords c (Records signers) y))).
    rewrite !picked_app. rewrite picked_none by (repeat constructor; intros _ _; apply (not_dmarc vDKIM); [right; left|by apply key_begins]).
    cbn [app]. rewrite <-(app_nil_r (picked _ _ _ [_])) at 2. f_equal. apply picked_none, Forall_forall. intros r Hr _ Hname.
    destruct (late_texts y r Hr) as [[host ->]|Hb]; [by apply dmarc_names in Hname|].
    by apply (not_dmarc vTLS); [right; right; left|]. }
  destruct (published_picked is_dmarc TrimSpace name (Build c (Records signers)) (TrimSpace (dmarc c))) as (texts & Etx & Ef).
  - rewrite picked_build, picked_owners_none by (apply (not_dmarc vSPF); [left|apply spf_begins]). cbn [app].
    eapply picked_single; [apply domains_NoDup|exact Hd|..].
    + rewrite Hrest by done. replace ("_dmarc." +:+ dName d +:+ ".") with (name +:+ ".") by (unfold name; by rewrite !str_app_assoc).
      apply picked_TXT. by rewrite Htrim.
    + intros y Hy Hne. rewrite Hrest by done. apply picked_none. repeat constructor. cbn [TXT rName]. intros _ E. exfalso.
      apply Hne. eapply same_domain; [apply Hp|done|done|].
      unfold name in E. rewrite !str_app_assoc in E. apply (f_equal str_list) in E. rewrite !str_list_app in E.
      apply (app_inv_head (str_list "_dmarc.")), app_inv_tail in E. by apply str_list_inj.
  - rewrite Hres, Etx, Ef, Htrim, Et, Etp. change (default "" (Some (nDMARC (cDNS c)))) with (nDMARC (cDNS c)). pose proof (pb_policy _ _ Hp) as Hpol.
    assert (Hlow : ToLowerText (nDMARC (cDNS c)) = nDMARC (cDNS c) ∧ nDMARC (cDNS c) ≠ "").
    { repeat apply elem_of_cons in Hpol as [-> |Hpol]; [..|by apply elem_of_nil in Hpol];
        (split; [by rewrite lower_ascii|done]). }
    destruct Hlow as [Hlow Hne]. rewrite Hlow, bool_decide_eq_true_2, (bool_decide_eq_false_2 (nDMARC (cDNS c) = "")) by done.
    cbn [negb]. rewrite (bool_decide_eq_true_2 (nDMARC (cDNS c) = nDMARC (cDNS c))) by done. cbn [negb]. rewrite Etr.
    destruct (pb_report _ _ Hp) as [E|E]; [rewrite (bool_decide_eq_true_2 (_ = "")) by done|rewrite E; destruct (bool_decide (nReportURI (cDNS c) = ""))];
      by destruct (bool_decide (nDMARC (cDNS c) = "none")).
Qed.
End agreement.


(** A report URI with a semicolon is accepted and makes the policy unreadable.
    Where the URL parser reads "https://reports.example.com/in;box" as an https URL of
    that host, validation accepts it as dns.dmarc_report_uri, but the record built
    from it does not parse: the semicolon ends the tag. *)
Theorem semicolon_breaks_dmarc `{CaseTables} `{AddressParser} `{UrlParser} c :
  ParseURL "https://reports.example.com/in;box"
    = Ok (mkURL "https" "" "reports.example.com" "reports.example.com" "" "" "" false) →
  nDMARC (cDNS c) ∈ ["none"; "quarantine"; "reject"] →
  nReportURI (cDNS c) = "https://reports.example.com/in;box" →
  ValidateDMARCReportURIList (nReportURI (cDNS c)) = Ok tt ∧
  parseDMARCTags (dmarc c) = Err (Message "malformed tag").
Proof.
  intros Hurl Hpol Huri. rewrite Huri. split.
  - unfold ValidateDMARCReportURIList, validateReportURIList. rewrite bool_decide_eq_false_2 by done.
    change (Split _ 44) with ["https://reports.example.com/in;box"]. cbn [validateReportURIs].
    change (TrimSpace "https://reports.example.com/in;box") with "https://reports.example.com/in;box".
    rewrite bool_decide_eq_false_2 by done. unfold validateReportURI.
    change (TrimSpace "https://reports.example.com/in;box") with "https://reports.example.com/in;box".
    change (reportSize _) with (@None nat). cbn zeta iota. rewrite Hurl. cbn [uScheme].
    rewrite (lower_ascii "https") by done. change (ToLower "https") with "https". rewrite bool_decide_eq_false_2 by done.
    rewrite bool_decide_eq_true_2 by done. unfold validateHTTPS. cbn. rewrite lower_ascii by done. done.
  - unfold parseDMARCTags, dmarc. rewrite Huri.
    change (TrimSpace "https://reports.example.com/in;box") with "https://reports.example.com/in;box".
    assert (Hne : nDMARC (cDNS c) ≠ "").
    { intros E. rewrite E in Hpol. repeat apply elem_of_cons in Hpol as [?|Hpol]; [done..|by apply elem_of_nil in Hpol]. }
    rewrite (bool_decide_eq_false_2 (nDMARC (cDNS c) = "")) by done. rewrite bool_decide_eq_false_2 by done.
    set (policy := nDMARC (cDNS c)) in *.
    assert (Hs : Split ("v=DMARC1; p=" +:+ policy +:+ "; sp=" +:+ policy +:+ "; adkim=r; aspf=r" +:+ "; rua="
              +:+ "https://reports.example.com/in;box") 59
            = Split (dmarcBase policy) 59 ++ [" rua=https://reports.example.com/in"; "box"]).
    { replace ("v=DMARC1; p=" +:+ _) with (dmarcBase policy +:+ "; rua=https://reports.example.com/in;box")
        by (unfold dmarcBase; by rewrite !str_app_assoc).
      unfold Split. rewrite str_list_app.
      change (str_list "; rua=https://reports.example.com/in;box") with (chr 59 :: str_list " rua=https://reports.example.com/in;box").
      rewrite split_list_app by done. by rewrite fmap_app. }
    rewrite Hs, dmarc_fixed by done.
    rewrite (dmarcTags_step _ "rua" "https://reports.example.com/in");
      [done|done|done|split; [repeat constructor|by vm_compute]|by vm_compute|done].
Qed.

(** ** Samples *)

#[local] Existing Instances plainParser mailtoParser.

Definition sampleInitialised : Config :=
  match Init sampleIDNA (λ f u d, 0) "/" sampleWritten with Ok c => c | Err _ => Default end.

Definition sampleInitLoad := load sampleCrypto "/" (λ _, None) sampleInitialised sampleWorlds sampleKeys.

Definition sampleInitSigners : gmap string (Signer string) :=
  match sampleInitLoad.1.1 with Ok signers => signers | Err _ => ∅ end.

(** A resolver that answers with what was published. *)
Definition sampleZone : CheckResolver := {|
  LookupIPAddr _ := Err (Message "no such host"); LookupAddr _ := Err (Message "no such host");
  LookupTXT := publishedTXT (Build sampleInitialised (Records sampleInitSigners));
  LookupMX _ := Err (Message "no such host") |}.

Lemma sampleInitialised_ok : Init sampleIDNA (λ f u d, 0) "/" sampleWritten = Ok sampleInitialised.
Proof. vm_compute. reflexivity. Qed.

Lemma sampleInitLoad_ok : sampleInitLoad = (Ok sampleInitSigners, sampleInitLoad.1.2, sampleInitLoad.2).
Proof. vm_compute. reflexivity. Qed.

Lemma sampleInitialised_plain : dns_ascii sampleInitialised ∧ report_plain sampleInitialised ∧ no_root_sender sampleInitialised.
Proof.
  split; [split; vm_compute; reflexivity|]. split; [split; vm_compute; reflexivity|].
  assert (E : senders sampleInitialised = ["alice@example.org"; "*@lists.example.org"]) by (vm_compute; reflexivity).
  unfold no_root_sender. rewrite E. repeat constructor; (vm_compute; discriminate).
Qed.


(** Reads one https URL. *)
Definition httpsParser : UrlParser := {|
  ParseURL s := if bool_decide (s = "https://reports.example.com/in;box")
                then Ok (mkURL "https" "" "reports.example.com" "reports.example.com" "" "" "" false)
                else Err (Message "unsupported") |}.

Definition sampleSemicolon : Config :=
  mkConfig "" "" ∅ "print" defaultServer defaultReplyRejection (cTLS Default) [] (cOpenPGP Default) defaultDelivery
    (mkDNS "" "" "none" "https://reports.example.com/in;box" "" [] false "dns.txt") [].

Lemma semicolon_breaks_dmarc_witness : parseDMARCTags (dmarc sampleSemicolon) = Err (Message "malformed tag").
Proof. exact (proj2 (@semicolon_breaks_dmarc _ _ httpsParser sampleSemicolon eq_refl ltac:(left) eq_refl)). Defined.
