(* ===== verification/PgpMime.v ===== *)
(** * OpenPGP/MIME (src/internal/openpgp/sign.go, encrypt.go: the message format)

    A message of a sender with a key is wrapped in multipart/signed, one for a
    recipient with a key in multipart/encrypted.  The entity that is signed is brought
    into a form that survives transport: seven-bit text, with quoted-printable bodies
    where they are not.  mime.ParseMediaType is the parameter [MediaParser], the
    quoted-printable encoder [qpEncode], the cryptography [signDetached] and
    [encryptTo].  A context is [cancelled], asked at a point named by a path: every
    pattern of cancellations is covered.

    [signed_part_verifies]: who reads the signed message back finds exactly the bytes
    that were signed.  [encrypted_hides]: of the body and its headers only the
    ciphertext leaves. *)

From S2P Require Import Prelude Errors GoLib Capacity Utf8 Mailbox Text.
Open Scope Z_scope.

Definition maxMultipartDepth : Z := 32.

(** mime.ParseMediaType: the type and the parameters. *)
Class MediaParser := { ParseMediaType : string → res (string * gmap string string) }.

(** ** Header fields *)

(** [bytes.SplitAfter(l, "\r\n")]. *)
Fixpoint split_after (cur l : bytes) : list bytes :=
  match l with
  | [] => [cur]
  | c :: l' =>
      match l' with
      | d :: rest =>
          if is_char 13 c && is_char 10 d then (cur ++ [c; d]) :: split_after [] rest
          else split_after (cur ++ [c]) l'
      | [] => split_after (cur ++ [c]) l'
      end
  end.

Fixpoint fieldLines (fields lines : list bytes) : res (list bytes) :=
  match lines with
  | [] => Ok fields
  | line :: lines =>
      match line with
      | [] => fieldLines fields lines
      | c :: _ =>
          if is_char 32 c || is_char 9 c then
            match rev fields with
            | [] => Err (Message "header starts with a continuation line")
            | f :: front => fieldLines (rev front ++ [f ++ line]) lines
            end
          else
            match index_byte 58 line with
            | Some (S _) => fieldLines (fields ++ [line]) lines
            | _ => Err (Message "malformed MIME header")
            end
      end
  end.

Definition headerFields (head : bytes) : res (list bytes) := fieldLines [] (split_after [] head).

(** [strings.ReplaceAll(s, "\r\n", " ")]. *)
Fixpoint crlf_to_space (l : bytes) : bytes :=
  match l with
  | [] => []
  | c :: l' =>
      match l' with
      | d :: rest => if is_char 13 c && is_char 10 d then chr 32 :: crlf_to_space rest else c :: crlf_to_space l'
      | [] => [c]
      end
  end.

(** [bytes.ReplaceAll(l, "\n", "\r\n")]. *)
Definition lf_to_crlf (l : bytes) : bytes := List.concat ((λ c, if is_char 10 c then [CR; LF] else [c]) <$> l).

(** [bytes.ReplaceAll(l, "\r\n", "\n")]. *)
Fixpoint crlf_to_lf (l : bytes) : bytes :=
  match l with
  | [] => []
  | c :: l' =>
      match l' with
      | d :: rest => if is_char 13 c && is_char 10 d then LF :: crlf_to_lf rest else c :: crlf_to_lf l'
      | [] => [c]
      end
  end.

(** [bytes.TrimRight(l, "\r\n \t")]. *)
Definition trim_right (l : bytes) : bytes :=
  rev (drop_while (λ c, is_char 13 c || is_char 10 c || is_char 32 c || is_char 9 c) (rev l)).

Definition isSevenBit (data : bytes) : bool := forallb (λ c, (byte_val c <? 128) && negb (byte_val c =? 0)) data.

Definition joinEntity (head body : bytes) : bytes := head ++ crlf ++ body.

Definition appendLimited (result data : bytes) (maximum : Z) : res bytes :=
  reject maximum <? Z.of_nat (length result) + Z.of_nat (length data) with Sentinel ErrMessageTooLarge in
  Ok (result ++ data).

Section mime.
Context `{CaseTables}.

Definition fieldName (field : bytes) : string :=
  let '(name, _, ok) := cut_byte 58 field in
  if ok : bool then ToLowerText (of_list name) else "".

(** The value of a field, unfolded. *)
Definition fieldValue (field : bytes) : string :=
  match index_byte 58 field with
  | Some colon => TrimSpace (of_list (crlf_to_space (drop (S colon) field)))
  | None => TrimSpace (of_list (crlf_to_space field))
  end.

Definition headerValue (head : bytes) (wanted : string) : string :=
  match headerFields head with
  | Err _ => ""
  | Ok fields =>
      match filter (λ f, fieldName f = wanted) fields with
      | field :: _ => fieldValue field
      | [] => ""
      end
  end.

Definition replaceHeader (head : bytes) (name value : string) : res bytes :=
  let? fields := headerFields head in
  Ok (List.concat (filter (λ f, fieldName f ≠ ToLowerText name) fields) ++ str_list (name +:+ ": " +:+ value) ++ crlf).

Definition plainEncodings : list string := [""; "7bit"; "8bit"; "binary"].

(** The loop of [validateTransferEncoding] over the matching fields: at most one. *)
Definition validateTransferEncoding (head : bytes) (multipart : bool) : res string :=
  let? fields := headerFields head in
  match filter (λ f, fieldName f = "content-transfer-encoding") fields with
  | _ :: _ :: _ => Err (Message "MIME entity has duplicate Content-Transfer-Encoding headers")
  | found =>
      let encoding := match found with f :: _ => ToLowerText (fieldValue f) | [] => "" end in
      reject negb (bool_decide (found = [])) && bool_decide (encoding = "")
        with Message "MIME Content-Transfer-Encoding is empty" in
      reject (if multipart then negb (bool_decide (encoding ∈ plainEncodings))
              else negb (bool_decide (encoding ∈ plainEncodings ++ ["base64"; "quoted-printable"])))
        with Message "unsupported MIME content-transfer-encoding" in
      Ok encoding
  end.

(** The index of the end of the first line, its line break included. *)
Definition line_end (l : bytes) : nat :=
  match index_list crlf l with Some i => i + 2 | None => length l end.

(** Header and body of an entity: [head] with its last line break. *)
Definition splitEntity (data : bytes) : option (bytes * bytes) :=
  match index_list (crlf ++ crlf) data with
  | Some i => Some (take (i + 2) data, drop (i + 4) data)
  | None => if is_prefix crlf data then Some ([], drop 2 data) else None
  end.

(** ** The canonical entity *)

Section canonical.
Context `{MediaParser}.
Variable qpEncode : bytes → bytes.
Variable cancelled : list nat → option error.

(** A context that is asked once. *)
Definition polled {A} (site : list nat) (k : res A) : res A :=
  match cancelled site with Some e => Err e | None => k end.

(** The loop of [canonicalizeMultipart]: [entity] canonicalises a part, [part] holds
    what was passed since the last delimiter. *)
Section multipart.
Variable entity : list nat → Z → bytes → res bytes.
Variables (marker : bytes) (maximum : Z).

Definition closing : bytes := str_list "--".

Fixpoint multipartLoop (fuel : nat) (site : list nat) (started : bool) (part rest result : bytes) : res bytes :=
  match fuel, rest with
  | O, _ | _, [] => Err (Message "multipart MIME entity has no closing boundary")
  | S fuel, _ =>
      let site := length rest :: site in
      polled site
        (let raw := take (line_end rest) rest in
         let after := drop (line_end rest) rest in
         let line := trim_right raw in
         if bool_decide (line = marker) || bool_decide (line = marker ++ closing) then
           let? result :=
             (if started then
                let? canonical := entity site (maximum - Z.of_nat (length result)) part in
                appendLimited result canonical maximum
              else appendLimited result part maximum) in
           let? result := appendLimited result raw maximum in
           if has_suffix closing line then appendLimited result after maximum
           else multipartLoop fuel (tail site) true [] after result
         else multipartLoop fuel (tail site) started (part ++ raw) after result)
  end.

Definition canonicalizeMultipart (site : list nat) (body : bytes) : res bytes :=
  multipartLoop (S (length body)) site false [] body [].
End multipart.

(** The size limit on what quotedprintable writes, line by line. *)
Definition quoteLimited (site : list nat) (body : bytes) (maximum : Z) : res bytes :=
  polled site
    (reject maximum <? Z.of_nat (length (qpEncode body)) with Sentinel ErrMessageTooLarge in
     Ok (qpEncode body)).

(** [levels] more levels of nesting are allowed: none is levels at depth 33. *)
Fixpoint canonicalizeEntityContext (levels : nat) (site : list nat) (maximum : Z) (data : bytes) : res bytes :=
  polled (0%nat :: site)
    match levels with
    | O => Err (Message "MIME multipart nesting exceeds maximum depth of 32")
    | S levels =>
        reject maximum <? Z.of_nat (length data) with Sentinel ErrMessageTooLarge in
        match splitEntity data with
        | None => Err (Message "MIME entity has no header/body separator")
        | Some (head, body) =>
            reject negb (isSevenBit head) with Message "MIME entity headers are not 7-bit safe" in
            let contentType := headerValue head "content-type" in
            let contentType := if bool_decide (contentType = "") then "text/plain; charset=us-ascii" else contentType in
            match ParseMediaType contentType with
            | Err e => Err (Wrap "parse MIME Content-Type" e)
            | Ok (mediaType, params) =>
                let multipart := HasPrefix (ToLowerText mediaType) "multipart/" in
                let? encoding := validateTransferEncoding head multipart in
                let? head := (if bool_decide (encoding ∈ ["8bit"; "binary"])
                              then replaceHeader head "Content-Transfer-Encoding" "7bit" else Ok head) in
                if multipart then
                  let boundary := default "" (params !! "boundary") in
                  reject bool_decide (boundary = "") with Message "multipart MIME entity has no boundary" in
                  let? canonicalBody :=
                    canonicalizeMultipart (canonicalizeEntityContext levels) (str_list ("--" +:+ boundary))
                      (maximum - Z.of_nat (length head) - 2) (1%nat :: site) body in
                  let canonical := joinEntity head canonicalBody in
                  reject negb (isSevenBit canonical)
                    with Message "multipart MIME preamble or epilogue is not 7-bit safe" in
                  Ok canonical
                else if isSevenBit body then Ok (joinEntity head body)
                else
                  reject bool_decide (encoding ∈ ["base64"; "quoted-printable"])
                    with Message "MIME body contains non-ASCII encoded data" in
                  reject negb (bool_decide (encoding ∈ plainEncodings))
                    with Message "unsupported MIME content-transfer-encoding" in
                  let? head := replaceHeader head "Content-Transfer-Encoding" "quoted-printable" in
                  let? encoded := quoteLimited (2%nat :: site) body (maximum - Z.of_nat (length head) - 2) in
                  Ok (joinEntity head encoded)
            end
        end
    end.

Definition depthLevels : nat := 33.

(** ** Signing *)

(** Which fields stay outside the signed or encrypted entity. *)
Definition isContent (field : bytes) : bool := HasPrefix (fieldName field) "content-".
Definition isOuter (replaceAutocrypt : bool) (field : bytes) : bool :=
  negb (isContent field) && negb (bool_decide (fieldName field = "mime-version"))
  && (negb replaceAutocrypt || negb (bool_decide (fieldName field = "autocrypt"))).

Definition splitMessage (data : bytes) (replaceAutocrypt : bool) : res (bytes * bytes) :=
  match index_list (crlf ++ crlf) data with
  | None => Err (Message "message has no header/body separator")
  | Some headerEnd =>
      let? fields := headerFields (take (headerEnd + 2) data) in
      Ok (List.concat (filter (λ f, isOuter replaceAutocrypt f = true) fields),
          List.concat (filter (λ f, isContent f = true) fields) ++ crlf ++ drop (headerEnd + 4) data)
  end.

Definition boundaryOf (random : string) : string := "outboxd-" +:+ EncodeToString random.

Definition buildSignedMessage (outer entity signature : bytes) (boundary : string) : bytes :=
  let b := str_list boundary in
  outer ++ str_list "MIME-Version: 1.0" ++ crlf
  ++ str_list "Content-Type: multipart/signed; protocol=" ++ [chr 34] ++ str_list "application/pgp-signature" ++ [chr 34]
  ++ str_list "; micalg=pgp-sha256; boundary=" ++ [chr 34] ++ b ++ [chr 34] ++ crlf ++ crlf
  ++ str_list "This is an OpenPGP/MIME signed message." ++ crlf ++ crlf ++ str_list "--" ++ b ++ crlf
  ++ entity ++ crlf ++ str_list "--" ++ b ++ crlf
  ++ str_list "Content-Type: application/pgp-signature; name=" ++ [chr 34] ++ str_list "signature.asc" ++ [chr 34] ++ crlf
  ++ str_list "Content-Description: OpenPGP digital signature" ++ crlf
  ++ str_list "Content-Disposition: attachment; filename=" ++ [chr 34] ++ str_list "signature.asc" ++ [chr 34] ++ crlf ++ crlf
  ++ signature ++ crlf ++ str_list "--" ++ b ++ str_list "--" ++ crlf.

(** A loaded identity: the key and the Autocrypt field, possibly empty. *)
Record pgpIdentity (Key : Type) := mkPgpIdentity { pgpKey : Key; pgpAutocrypt : bytes }.
Arguments pgpKey {Key}. Arguments pgpAutocrypt {Key}.

Record pgpSigners (Key : Type) := mkPgpSigners { pgpIdentities : gmap string (pgpIdentity Key); signMaximum : Z }.
Arguments pgpIdentities {Key}. Arguments signMaximum {Key}.

Section sign.
Context {Key : Type}.
(** pgp.ArmoredDetachSign with [signingConfig]. *)
Variable signDetached : Key → bytes → res bytes.
(** crypto/rand's 24 bytes. *)
Variable random : res string.

(** [Signers.Sign]; a nil receiver is [None].  The gate is taken unless the context
    is done first, and the context is asked between the steps. *)
Definition Sign (s : option (pgpSigners Key)) (sender : string) (data : bytes) : res (bytes * bool) :=
  match s with
  | None => Ok (data, false)
  | Some s =>
      match pgpIdentities s !! sender with
      | None => Ok (data, false)
      | Some configured =>
          polled [10%nat]
            (let? (outer, entity) := splitMessage data (negb (bool_decide (pgpAutocrypt configured = []))) in
             let? entity := canonicalizeEntityContext depthLevels [11%nat] (signMaximum s) entity in
             polled [12%nat]
               match signDetached (pgpKey configured) entity with
               | Err e => polled [13%nat] (Err (Wrap "create detached signature" e))
               | Ok signature =>
                   polled [14%nat]
                     (let? value := random in
                      let result := buildSignedMessage (outer ++ pgpAutocrypt configured) entity (lf_to_crlf signature)
                                      (boundaryOf value) in
                      reject signMaximum s <? Z.of_nat (length result) with Wrap "maximum" (Sentinel ErrMessageTooLarge) in
                      polled [15%nat] (Ok (result, true)))
               end)
      end
  end.
End sign.
End canonical.
End mime.

Arguments mkPgpIdentity {Key}. Arguments pgpKey {Key}. Arguments pgpAutocrypt {Key}.
Arguments mkPgpSigners {Key}. Arguments pgpIdentities {Key}. Arguments signMaximum {Key}.

(** ** Encryption *)

Definition buildEncryptedMessage (outer encrypted : bytes) (boundary : string) : bytes :=
  let b := str_list boundary in
  outer ++ str_list "MIME-Version: 1.0" ++ crlf
  ++ str_list "Content-Type: multipart/encrypted; protocol=" ++ [chr 34] ++ str_list "application/pgp-encrypted" ++ [chr 34]
  ++ str_list "; boundary=" ++ [chr 34] ++ b ++ [chr 34] ++ crlf ++ crlf
  ++ str_list "This is an OpenPGP/MIME encrypted message." ++ crlf ++ crlf ++ str_list "--" ++ b ++ crlf
  ++ str_list "Content-Type: application/pgp-encrypted" ++ crlf ++ crlf ++ str_list "Version: 1" ++ crlf ++ crlf
  ++ str_list "--" ++ b ++ crlf
  ++ str_list "Content-Type: application/octet-stream; name=" ++ [chr 34] ++ str_list "encrypted.asc" ++ [chr 34] ++ crlf
  ++ str_list "Content-Disposition: inline; filename=" ++ [chr 34] ++ str_list "encrypted.asc" ++ [chr 34] ++ crlf ++ crlf
  ++ encrypted ++ crlf ++ str_list "--" ++ b ++ str_list "--" ++ crlf.

(** ** Lines and fields *)

Definition no_crlf (l : bytes) : Prop := index_list crlf l = None.
Definition good_line (l : bytes) : Prop := ∃ w, l = w ++ crlf ∧ no_crlf w.

Lemma no_crlf_cons c w : no_crlf (c :: w) → no_crlf w.
Proof. unfold no_crlf. cbn [index_list]. destruct (is_prefix crlf (c :: w)); [done|]. by destruct (index_list crlf w). Qed.

Lemma no_crlf_pair c d w : no_crlf (c :: d :: w) → is_char 13 c && is_char 10 d = false.
Proof.
  intros Hn. apply not_true_is_false. intros [[-> _]%is_char_eq [-> _]%is_char_eq]%andb_true_iff. done.
Qed.

Lemma split_after_line w : ∀ cur rest, no_crlf w → split_after cur (w ++ crlf ++ rest) = (cur ++ w ++ crlf) :: split_after [] rest.
Proof.
  induction w as [|c w IH]; intros cur rest Hw; [done|]. cbn [app]. change (crlf ++ rest) with (CR :: LF :: rest).
  assert (Hne : ∃ d k, w ++ CR :: LF :: rest = d :: k ∧ is_char 13 c && is_char 10 d = false).
  { destruct w as [|d w]; cbn [app]; [exists CR, (LF :: rest); split; [done|by rewrite andb_false_r]|].
    exists d, (w ++ CR :: LF :: rest). split; [done|by eapply no_crlf_pair]. }
  destruct Hne as (d & k & E & Hp). cbn [split_after]. rewrite E, Hp, <-E.
  change (CR :: LF :: rest) with (crlf ++ rest). rewrite IH by (by eapply no_crlf_cons). by rewrite <-app_assoc.
Qed.

Lemma split_after_none w : ∀ cur, no_crlf w → split_after cur w = [cur ++ w].
Proof.
  induction w as [|c w IH]; intros cur Hw; [by rewrite app_nil_r|]. cbn [split_after].
  assert (Hn : split_after (cur ++ [c]) w = [cur ++ c :: w]) by (rewrite IH by (by eapply no_crlf_cons); by rewrite <-app_assoc).
  destruct w as [|d w]; [done|]. by rewrite (no_crlf_pair c d w Hw).
Qed.

Lemma split_after_lines ls last : Forall good_line ls → no_crlf last → split_after [] (List.concat ls ++ last) = ls ++ [last].
Proof.
  intros Hl Hn. induction Hl as [|l ls (w & -> & Hw) _ IH]; cbn [List.concat app]; [by apply split_after_none|].
  rewrite <-!app_assoc. rewrite split_after_line by done. by rewrite IH.
Qed.

Lemma lines_exist l : ∃ ls last, l = List.concat ls ++ last ∧ Forall good_line ls ∧ no_crlf last.
Proof.
  induction l as [l IH] using (induction_ltof1 _ (@length ascii)). unfold ltof in IH.
  destruct (index_list crlf l) as [i|] eqn:Ei.
  - apply index_list_Some in Ei as (k & E & Hj).
    destruct (IH k) as (ls & last & Ek & Hls & Hlast).
    { rewrite E, !length_app. cbn. lia. }
    exists ((take i l ++ crlf) :: ls), last. cbn [List.concat]. split_and!; [by rewrite <-!app_assoc, <-Ek| |done].
    constructor; [|done]. exists (take i l). split; [done|]. unfold no_crlf.
    destruct (index_list crlf (take i l)) as [j|] eqn:Ej; [|done]. exfalso. apply index_list_Some in Ej as (k' & E' & _).
    assert (Hlen : (j < length (take i l))%nat).
    { apply (f_equal length) in E'. rewrite !length_app in E'. change (length crlf) with 2%nat in E'.
      rewrite (length_take (take i l) j) in E'. lia. }
    assert (Hji : (j < i)%nat) by (rewrite length_take in Hlen; lia). specialize (Hj j Hji).
    rewrite E, drop_app_le in Hj by lia. rewrite E' in Hj.
    rewrite drop_app_le in Hj by (rewrite length_take; lia).
    rewrite (drop_ge (take j _)) in Hj by (rewrite length_take; lia). cbn [app] in Hj.
    rewrite <-app_assoc in Hj. by rewrite is_prefix_app in Hj.
  - exists [], l. done.
Qed.

(** A field: a first line with a name, then continuation lines. *)
Definition starts_field (l : bytes) : Prop :=
  match l with c :: _ => is_char 32 c || is_char 9 c = false | [] => False end ∧ ∃ i, index_byte 58 l = Some (S i).
Definition continues (l : bytes) : Prop := match l with c :: _ => is_char 32 c || is_char 9 c = true | [] => False end.

Definition field_lines (ls : list bytes) : Prop :=
  match ls with [] => False | l :: ls => starts_field l ∧ Forall continues ls end ∧ Forall good_line ls.
Definition good_field (f : bytes) : Prop := ∃ ls, f = List.concat ls ∧ field_lines ls.

Lemma good_line_nonempty l : good_line l → l ≠ [].
Proof. intros (w & -> & _). by destruct w. Qed.

Lemma fieldLines_ok ls : ∀ fields fs, Forall good_line ls → Forall good_field fields →
  fieldLines fields (ls ++ [[]]) = Ok fs → Forall good_field fs ∧ List.concat fs = List.concat fields ++ List.concat ls.
Proof.
  induction ls as [|l ls IH]; intros fields fs Hl Hf; cbn [app fieldLines].
  { intros [= <-]. by rewrite app_nil_r. }
  apply Forall_cons in Hl as [Hl Hls]. destruct l as [|c l]; [by apply good_line_nonempty in Hl|].
  destruct (is_char 32 c || is_char 9 c) eqn:Ec.
  - destruct (rev fields) as [|f front] eqn:Er; [done|]. intros He.
    apply (f_equal (@rev bytes)) in Er. rewrite rev_involutive in Er. cbn [rev] in Er. subst fields.
    apply Forall_app in Hf as [Hfront Hf]. rewrite Forall_singleton in Hf.
    apply IH in He as [Hfs Hc]; [|done|].
    + split; [done|]. rewrite Hc, !concat_app. cbn [List.concat]. by rewrite !app_nil_r, <-!app_assoc.
    + apply Forall_app. split; [done|]. apply Forall_singleton. destruct Hf as (fl & -> & Hhead & Hgood).
      exists (fl ++ [c :: l]). split; [rewrite concat_app; cbn [List.concat]; by rewrite app_nil_r|]. split.
      * destruct fl as [|h fl]; [done|]. destruct Hhead as [Hs Hcont]. split; [done|]. apply Forall_app. split; [done|].
        by apply Forall_singleton.
      * apply Forall_app. split; [done|by apply Forall_singleton].
  - destruct (index_byte 58 (c :: l)) as [[|i]|] eqn:Ei; [done| |done]. intros He.
    apply IH in He as [Hfs Hc]; [|done|].
    + split; [done|]. rewrite Hc, concat_app. cbn [List.concat]. by rewrite app_nil_r, <-app_assoc.
    + apply Forall_app. split; [done|]. apply Forall_singleton. exists [c :: l]. cbn [List.concat]. rewrite app_nil_r.
      split; [done|]. split; [|by apply Forall_singleton]. split; [split; [done|by exists i]|constructor].
Qed.

Lemma fieldLines_conts ls : ∀ fields f rest, Forall continues ls →
  fieldLines (fields ++ [f]) (ls ++ rest) = fieldLines (fields ++ [f ++ List.concat ls]) rest.
Proof.
  induction ls as [|l ls IH]; intros fields f rest Hc; cbn [app List.concat]; [by rewrite app_nil_r|].
  apply Forall_cons in Hc as [Hl Hc]. destruct l as [|c l]; [done|]. cbn [fieldLines]. cbn in Hl. rewrite Hl.
  rewrite rev_app_distr. cbn [rev app]. rewrite rev_involutive, IH by done. by rewrite <-app_assoc.
Qed.

(** Fields read back from what they print as. *)
Lemma headerFields_concat fs : Forall good_field fs → headerFields (List.concat fs) = Ok fs.
Proof.
  intros Hf. assert (Hls : ∃ ls, List.concat fs = List.concat ls ∧ Forall good_line ls ∧
            ∀ acc, fieldLines acc (ls ++ [[]]) = Ok (acc ++ fs)).
  { induction Hf as [|f fs (fl & -> & Hhead & Hgood) _ (ls & E & Hgl & Hfl)].
    { exists []. split_and!; [done|constructor|]. intros acc. cbn. by rewrite app_nil_r. }
    destruct fl as [|h fl]; [done|]. destruct Hhead as [[Hs [i Hi]] Hcont].
    exists ((h :: fl) ++ ls). split_and!.
    - cbn [List.concat]. rewrite E. by rewrite concat_app.
    - by apply Forall_app.
    - intros acc. cbn [app fieldLines]. destruct h as [|x h]; [done|]. rewrite Hs, Hi. rewrite <-app_assoc.
      rewrite fieldLines_conts by done. rewrite Hfl. by rewrite <-app_assoc. }
  destruct Hls as (ls & E & Hgl & Hfl). unfold headerFields. rewrite E, <-(app_nil_r (List.concat ls)).
  rewrite split_after_lines by done. apply (Hfl []).
Qed.

(** Text that ends with a line break consists of lines. *)
Lemma ends_lines l : (∃ w, l = w ++ crlf) → ∃ ls, l = List.concat ls ∧ Forall good_line ls.
Proof.
  intros [w ->]. destruct (lines_exist (w ++ crlf)) as (ls & last & E & Hls & Hn). exists ls. split; [|done].
  destruct (decide (last = [])) as [-> |Hne]; [by rewrite app_nil_r in E|]. exfalso.
  destruct (exists_last Hne) as (m & x & ->). rewrite app_assoc in E. change (w ++ crlf) with (w ++ [CR; LF]) in E.
  change [CR; LF] with ([CR] ++ [LF]) in E. rewrite app_assoc in E. apply app_inj_2 in E as [E Hx]; [|done].
  injection Hx as <-. destruct (decide (m = [])) as [-> |Hm].
  - rewrite app_nil_r in E. destruct (decide (ls = [])) as [-> |Hl]; [by destruct w|].
    destruct (exists_last Hl) as (ls' & g & ->). rewrite Forall_app, Forall_singleton in Hls. destruct Hls as [_ (v & -> & _)].
    rewrite concat_app in E. cbn [List.concat] in E. rewrite app_nil_r in E. change crlf with ([CR] ++ [LF]) in E.
    rewrite !app_assoc in E. apply app_inj_2 in E as [_ Hx]; [done|done].
  - destruct (exists_last Hm) as (m' & y & ->). rewrite app_assoc in E. apply app_inj_2 in E as [_ Hy]; [|done].
    injection Hy as <-. rewrite <-app_assoc in Hn. clear -Hn. induction m' as [|z m' IH]; [done|].
    apply IH. by eapply no_crlf_cons.
Qed.

(** Header and body of a message. *)
Lemma blank_line data i : index_list (crlf ++ crlf) data = Some i →
  data = take (i + 2) data ++ crlf ++ drop (i + 4) data ∧ ∃ w, take (i + 2) data = w ++ crlf.
Proof.
  intros (k & E & _)%index_list_Some.
  assert (Ht : take (i + 2) data = take i data ++ crlf).
  { assert (Hi : length (take i data) = i).
    { apply (f_equal length) in E. rewrite !length_app in E. rewrite length_take in *. cbn [length crlf] in E. lia. }
    rewrite E at 1. rewrite <-app_assoc. replace (i + 2)%nat with (length (take i data ++ crlf)) by (rewrite length_app, Hi; done).
    rewrite app_assoc. by rewrite take_app_length. }
  split; [|by eexists]. rewrite Ht.
  assert (Hi : length (take i data) = i).
  { apply (f_equal length) in E. rewrite !length_app in E. rewrite length_take in *. cbn [length crlf] in E. lia. }
  assert (Hd : drop (i + 4) data = k).
  { rewrite E. rewrite <-app_assoc. replace (i + 4)%nat with (length (take i data ++ crlf ++ crlf)) by (rewrite !length_app, Hi; done).
    rewrite (app_assoc (take i data) (crlf ++ crlf) k) at 1. by rewrite !app_assoc, drop_app_length. }
  rewrite Hd. rewrite E at 1. by rewrite <-!app_assoc.
Qed.

Lemma headerFields_ok data i fs : index_list (crlf ++ crlf) data = Some i → headerFields (take (i + 2) data) = Ok fs →
  Forall good_field fs ∧ List.concat fs = take (i + 2) data.
Proof.
  intros Hi Hf. destruct (blank_line data i Hi) as [_ Hend]. destruct (ends_lines _ Hend) as (ls & E & Hls).
  unfold headerFields in Hf. rewrite E, <-(app_nil_r (List.concat ls)), split_after_lines in Hf by done.
  apply fieldLines_ok in Hf; [|done|constructor]. by rewrite E.
Qed.

(** ** The blank line *)

Definition full_line (l : bytes) : Prop := ∃ w, l = w ++ crlf ∧ no_crlf w ∧ w ≠ [].

Lemma is_prefix_short (p l k : bytes) : (length p ≤ length l)%nat → is_prefix p (l ++ k) = is_prefix p l.
Proof.
  revert l. induction p as [|x p IH]; intros l Hl; [done|]. destruct l as [|y l]; [cbn in Hl; lia|]. cbn [app is_prefix].
  rewrite IH; [done|cbn in Hl; lia].
Qed.

(** No line break starts inside a line. *)
Lemma line_inside w k j : no_crlf w → (j < length w)%nat → is_prefix crlf (drop j (w ++ crlf ++ k)) = false.
Proof.
  intros Hn Hj. rewrite drop_app_le by lia. destruct (drop j w) as [|x [|y v]] eqn:Ed.
  - apply (f_equal length) in Ed. rewrite length_drop in Ed. cbn in Ed. lia.
  - cbn [app is_prefix crlf]. by rewrite andb_false_r.
  - change ((x :: y :: v) ++ crlf ++ k) with ([x; y] ++ (v ++ crlf ++ k)). rewrite is_prefix_short by (cbn; lia).
    pose proof (index_list_None _ _ Hn j) as Hp. rewrite Ed in Hp. specialize (Hp ltac:(lia)).
    change (x :: y :: v) with ([x; y] ++ v) in Hp. by rewrite is_prefix_short in Hp by (cbn; lia).
Qed.

Lemma is_prefix_weaken (p q l : bytes) : is_prefix p l = false → is_prefix (p ++ q) l = false.
Proof.
  intros Hp. apply not_true_is_false. intros [k ->]%is_prefix_true. rewrite <-app_assoc, is_prefix_app in Hp. done.
Qed.

Lemma blank_index ls : ∀ rest, ls ≠ [] → Forall full_line ls →
  index_list (crlf ++ crlf) (List.concat ls ++ crlf ++ rest) = Some (length (List.concat ls) - 2)%nat.
Proof.
  induction ls as [|l ls IH]; intros rest Hne Hls; [done|]. apply Forall_cons in Hls as [(w & -> & Hn & Hw) Hls].
  cbn [List.concat]. rewrite <-!app_assoc.
  assert (Hin : ∀ k j, (j < length w)%nat → is_prefix (crlf ++ crlf) (drop j (w ++ crlf ++ k)) = false).
  { intros k j Hj. apply is_prefix_weaken. by apply line_inside. }
  destruct (decide (ls = [])) as [-> |Hls0].
  - cbn [List.concat app]. rewrite app_nil_r, length_app. cbn [length crlf]. rewrite Nat.add_sub.
    apply (index_list_first _ _ _ rest); [|rewrite length_app; lia|intros j Hj; by apply Hin].
    rewrite take_app_length. by rewrite <-app_assoc.
  - specialize (IH rest Hls0 Hls). apply index_list_Some in IH as (k & E & Hj).
    destruct ls as [|l2 ls]; [done|]. set (tl := List.concat (l2 :: ls) ++ crlf ++ rest) in *.
    assert (Hstart : is_prefix crlf tl = false).
    { apply Forall_cons in Hls as [(w2 & -> & Hn2 & Hw2) _]. unfold tl. cbn [List.concat]. rewrite <-!app_assoc.
      apply (line_inside w2 _ 0 Hn2). destruct w2; [done|cbn; lia]. }
    set (n := length (List.concat (l2 :: ls))) in *.
    assert (Hn2 : (2 ≤ n)%nat).
    { unfold n. apply Forall_cons in Hls as [(w2 & -> & _) _]. cbn [List.concat]. rewrite !length_app. cbn [length crlf]. lia. }
    replace (length (w ++ crlf ++ List.concat (l2 :: ls)) - 2)%nat with (length (w ++ crlf) + (n - 2))%nat
      by (rewrite !length_app; fold n; lia).
    apply (index_list_first _ _ _ k).
    + rewrite (app_assoc w crlf tl), take_app_add, <-(app_assoc (w ++ crlf)). by rewrite <-E.
    + rewrite (app_assoc w crlf tl), (length_app (w ++ crlf) tl).
      assert (Ht : (n ≤ length tl)%nat) by (unfold tl, n; rewrite length_app; lia). lia.
    + intros j Hjl. destruct (decide (j < length w)%nat) as [Hlt|Hge]; [by apply Hin|].
      destruct (decide (j = length w)) as [-> |H1].
      { rewrite drop_app_length. change (crlf ++ crlf) with (CR :: LF :: crlf). change (crlf ++ tl) with (CR :: LF :: tl).
        cbn [is_prefix]. by rewrite Hstart, !andb_false_r. }
      destruct (decide (j = S (length w))) as [-> |H2].
      { replace (S (length w)) with (length (w ++ [CR])) by (rewrite length_app; cbn; lia).
        change (crlf ++ tl) with ([CR] ++ LF :: tl). rewrite app_assoc, drop_app_length. done. }
      rewrite app_assoc, drop_app_ge by (rewrite length_app; cbn [length crlf]; lia). apply Hj.
      rewrite length_app in *. cbn [length crlf] in *. lia.
Qed.

(** ** Seven-bit entities *)

(** A header: empty, or lines. *)
Definition header_text (head : bytes) : Prop := head = [] ∨ ∃ w, head = w ++ crlf.

Lemma headerFields_text head fs : header_text head → headerFields head = Ok fs →
  Forall good_field fs ∧ List.concat fs = head.
Proof.
  intros [-> |Hend] Hf; [by injection Hf as <-|]. destruct (ends_lines _ Hend) as (ls & E & Hls).
  unfold headerFields in Hf. rewrite E, <-(app_nil_r (List.concat ls)), split_after_lines in Hf by done.
  apply fieldLines_ok in Hf; [|done|constructor]. by rewrite E.
Qed.

Lemma splitEntity_header data head body : splitEntity data = Some (head, body) → header_text head.
Proof.
  unfold splitEntity. destruct (index_list _ data) as [i|] eqn:Ei.
  - intros [= <- _]. right. by destruct (blank_line data i Ei).
  - destruct (is_prefix crlf data); [|done]. intros [= <- _]. by left.
Qed.

Lemma sevenBit_app l k : isSevenBit (l ++ k) = isSevenBit l && isSevenBit k.
Proof. apply forallb_app. Qed.

Lemma sevenBit_concat (P : bytes → Prop) `{∀ f, Decision (P f)} fs :
  isSevenBit (List.concat fs) = true → isSevenBit (List.concat (filter P fs)) = true.
Proof.
  induction fs as [|f fs IH]; [done|]. cbn [List.concat]. rewrite sevenBit_app, andb_true_iff. intros [Hf Hfs].
  rewrite filter_cons. case_decide; [|by apply IH]. cbn [List.concat]. by rewrite sevenBit_app, Hf, IH.
Qed.

Section facts.
Context `{CaseTables} `{MediaParser}.
Variable qpEncode : bytes → bytes.
Variable cancelled : list nat → option error.
(** Quoted-printable text is seven-bit. *)
Hypothesis qp_seven : ∀ l, isSevenBit (qpEncode l) = true.

Lemma replaceHeader_seven head name value h : header_text head → isSevenBit head = true →
  isSevenBit (str_list (name +:+ ": " +:+ value)) = true →
  replaceHeader head name value = Ok h → isSevenBit h = true ∧ header_text h.
Proof.
  intros Ht Hs Hn. unfold replaceHeader. destruct (headerFields head) as [fs|] eqn:Ef; [|done]. cbn [res_bind]. intros [= <-].
  destruct (headerFields_text _ _ Ht Ef) as [_ Hc]. rewrite app_assoc. split; [|right; by eexists].
  rewrite !sevenBit_app, Hn. rewrite sevenBit_concat by (by rewrite Hc). done.
Qed.

Lemma polled_Ok {A} site (k : res A) a : polled cancelled site k = Ok a → k = Ok a.
Proof. unfold polled. by destruct (cancelled site). Qed.

Lemma canonical_seven levels : ∀ site maximum data out,
  canonicalizeEntityContext qpEncode cancelled levels site maximum data = Ok out → isSevenBit out = true.
Proof.
  intros site maximum data out. destruct levels as [|levels]; cbn [canonicalizeEntityContext]; intros Hc%polled_Ok; [done|].
  destruct (maximum <? _); [done|]. destruct (splitEntity data) as [[head body]|] eqn:Es; [|done].
  pose proof (splitEntity_header _ _ _ Es) as Ht. destruct (isSevenBit head) eqn:Eh; [|done]. cbn [negb] in Hc.
  destruct (ParseMediaType _) as [[mediaType params]|]; [|done].
  set (multi := HasPrefix (ToLowerText mediaType) "multipart/") in *.
  destruct (validateTransferEncoding head multi) as [encoding|]; [|done]. cbn [res_bind] in Hc.
  destruct (if bool_decide (encoding ∈ ["8bit"; "binary"]) then _ else Ok head) as [h|] eqn:Er; [|done]. cbn [res_bind] in Hc.
  assert (Hh : isSevenBit h = true ∧ header_text h).
  { destruct (bool_decide _); [|by injection Er as <-]. eapply replaceHeader_seven; [exact Ht|exact Eh| |exact Er]. done. }
  destruct Hh as [Hh Hht]. destruct multi.
  - destruct (bool_decide (default "" (params !! "boundary") = "")); [done|]. destruct (canonicalizeMultipart _ _ _ _ _) as [b|]; [|done]. cbn [res_bind] in Hc.
    destruct (isSevenBit (joinEntity h b)) eqn:Ej; [|done]. by injection Hc as <-.
  - destruct (isSevenBit body) eqn:Eb.
    { injection Hc as <-. unfold joinEntity. by rewrite !sevenBit_app, Hh, Eb. }
    destruct (bool_decide (encoding ∈ ["base64"; "quoted-printable"])); [done|].
    destruct (negb (bool_decide (encoding ∈ plainEncodings))); [done|].
    destruct (replaceHeader h _ _) as [h2|] eqn:Er2; [|done]. cbn [res_bind] in Hc.
    destruct (replaceHeader_seven h "Content-Transfer-Encoding" "quoted-printable" h2 Hht Hh eq_refl Er2) as [Hh2 _].
    destruct (quoteLimited _ _ _ _ _) as [enc|] eqn:Eq; [|done]. cbn [res_bind] in Hc. injection Hc as <-.
    unfold quoteLimited in Eq. apply polled_Ok in Eq. destruct (_ <? _); [done|]. injection Eq as <-.
    unfold joinEntity. by rewrite !sevenBit_app, Hh2, qp_seven.
Qed.

(** ** Reading a signed message back *)

Definition delimiter (boundary : string) : bytes := crlf ++ str_list ("--" +:+ boundary).

(** The header fields of a message. *)
Definition messageFields (message : bytes) : res (list bytes) :=
  match index_list (crlf ++ crlf) message with
  | Some i => headerFields (take (i + 2) message)
  | None => Err (Message "message has no header/body separator")
  end.

(** The first part of a multipart message (RFC 2046): after the line of the first
    delimiter, up to the next delimiter. *)
Definition firstPart (boundary : string) (message : bytes) : option bytes :=
  match index_list (crlf ++ crlf) message with
  | None => None
  | Some i =>
      let body := drop (i + 4) message in
      match index_list (delimiter boundary) body with
      | None => None
      | Some j =>
          let rest := drop (j + length (delimiter boundary)) body in
          match index_list crlf rest with
          | None => None
          | Some k =>
              let content := drop (k + 2) rest in
              match index_list (delimiter boundary) content with
              | None => None
              | Some n => Some (take n content)
              end
          end
      end
  end.

Lemma is_prefix_skip (p q l : bytes) : is_prefix (p ++ q) l = true → is_prefix q (drop (length p) l) = true.
Proof. intros [k ->]%is_prefix_true. rewrite <-app_assoc, drop_app_length. apply is_prefix_app. Qed.

Lemma index_none (p l : bytes) : (∀ j, (j ≤ length l)%nat → is_prefix p (drop j l) = false) → index_list p l = None.
Proof.
  intros Hj. destruct (index_list p l) as [i|] eqn:E; [|done]. apply index_list_Some in E as (k & E & _). exfalso.
  destruct (decide (i ≤ length l)%nat) as [Hi|Hi].
  - specialize (Hj i Hi). rewrite E in Hj at 1. rewrite drop_app_length' in Hj by (rewrite length_take; lia).
    by rewrite is_prefix_app in Hj.
  - specialize (Hj (length l) ltac:(lia)). rewrite take_ge in E by lia.
    rewrite drop_ge in Hj by lia. apply (f_equal length) in E. rewrite !length_app in E.
    destruct p; [done|cbn in E; lia].
Qed.

(** A delimiter whose first byte does not occur again is found where it stands. *)
Lemma delimiter_index c d x rest : c ∉ d → index_list (c :: d) x = None →
  index_list (c :: d) (x ++ (c :: d) ++ rest) = Some (length x).
Proof.
  intros Hc Hx. apply (index_list_first _ _ _ rest); [by rewrite take_app_length|rewrite length_app; lia|].
  intros j Hj. apply not_true_is_false. intros Hp. destruct (decide (j + length (c :: d) ≤ length x)%nat) as [Hle|Hgt].
  - pose proof (index_list_None _ _ Hx j ltac:(lia)) as Hn. rewrite drop_app_le, is_prefix_short in Hp; [congruence| |lia].
    rewrite length_drop. lia.
  - apply is_prefix_true in Hp as [k Hk]. apply Hc.
    apply (f_equal (λ l, l !! (length x - j)%nat)) in Hk. rewrite lookup_drop in Hk.
    replace (j + (length x - j))%nat with (length x) in Hk by lia.
    rewrite lookup_app_r in Hk by lia. rewrite Nat.sub_diag in Hk. cbn [app lookup list_lookup] in Hk.
    destruct (length x - j)%nat as [|m] eqn:Em; [lia|]. change ((c :: d) ++ k) with (c :: (d ++ k)) in Hk.
    cbn [lookup list_lookup] in Hk. change (Some c = (d ++ k) !! m) in Hk. symmetry in Hk.
    rewrite lookup_app_l in Hk by (cbn [length] in Hgt; lia). by eapply list_elem_of_lookup_2.
Qed.

Lemma boundary_chars value x : x ∈ str_list (boundaryOf value) → byte_val x ≠ 13.
Proof.
  unfold boundaryOf. rewrite str_list_app. intros [Hx|Hx]%elem_of_app.
  - repeat apply elem_of_cons in Hx as [-> |Hx]; [done..|by apply elem_of_nil in Hx].
  - pose proof (EncodeToString_lower value) as Hl. rewrite forallb_forall in Hl.
    specialize (Hl x (proj1 (list_elem_of_In _ _) Hx)). unfold is_hex_lower, is_digit, between in Hl. lia.
Qed.

Lemma delimiter_found value x rest : index_list (delimiter (boundaryOf value)) x = None →
  index_list (delimiter (boundaryOf value)) (x ++ delimiter (boundaryOf value) ++ rest) = Some (length x).
Proof.
  intros Hx. apply (delimiter_index CR (LF :: str_list ("--" +:+ boundaryOf value))); [|done].
  intros [E|Hin]%elem_of_cons; [done|]. change (str_list ("--" +:+ boundaryOf value)) with (chr 45 :: chr 45 :: str_list (boundaryOf value)) in Hin.
  apply elem_of_cons in Hin as [E|Hin]; [done|]. apply elem_of_cons in Hin as [E|Hin]; [done|].
  by apply (boundary_chars value CR).
Qed.

Lemma fresh_delimiter boundary x : index_list (str_list ("--" +:+ boundary)) x = None → index_list (delimiter boundary) x = None.
Proof.
  intros Hn. apply index_none. intros j Hj. apply not_true_is_false. intros Hp%is_prefix_skip. rewrite drop_drop in Hp.
  destruct (decide (j + length crlf ≤ length x)%nat) as [Hle|Hgt].
  - pose proof (index_list_None _ _ Hn (j + length crlf)%nat Hle). congruence.
  - rewrite drop_ge in Hp by lia. done.
Qed.

(** The header lines that wrapping adds. *)
Definition mimeVersion : bytes := str_list "MIME-Version: 1.0" ++ crlf.
Definition signedType (boundary : string) : bytes :=
  (str_list "Content-Type: multipart/signed; protocol=" ++ [chr 34] ++ str_list "application/pgp-signature" ++ [chr 34]
   ++ str_list "; micalg=pgp-sha256; boundary=" ++ [chr 34] ++ str_list boundary ++ [chr 34]) ++ crlf.
Definition encryptedType (boundary : string) : bytes :=
  (str_list "Content-Type: multipart/encrypted; protocol=" ++ [chr 34] ++ str_list "application/pgp-encrypted" ++ [chr 34]
   ++ str_list "; boundary=" ++ [chr 34] ++ str_list boundary ++ [chr 34]) ++ crlf.
Definition signedPreamble : bytes := str_list "This is an OpenPGP/MIME signed message." ++ crlf.

Lemma signed_shape outer entity signature boundary : ∃ rest,
  buildSignedMessage outer entity signature boundary
  = (outer ++ mimeVersion ++ signedType boundary) ++ crlf
    ++ signedPreamble ++ delimiter boundary ++ crlf ++ entity ++ delimiter boundary ++ rest.
Proof.
  eexists. unfold buildSignedMessage, mimeVersion, signedType, signedPreamble, delimiter. rewrite !str_list_app, <-!app_assoc.
  reflexivity.
Qed.

Lemma encrypted_shape outer encrypted boundary : ∃ rest,
  buildEncryptedMessage outer encrypted boundary = (outer ++ mimeVersion ++ encryptedType boundary) ++ crlf ++ rest.
Proof.
  eexists. unfold buildEncryptedMessage, mimeVersion, encryptedType. rewrite <-!app_assoc. reflexivity.
Qed.

Lemma no_cr l : (∀ x, x ∈ l → byte_val x ≠ 13) → no_crlf l.
Proof.
  intros Hl. apply index_none. intros j _. apply not_true_is_false. intros [k Hk]%is_prefix_true.
  apply (Hl CR); [|done]. eapply (list_elem_of_lookup_2 _ j).
  apply (f_equal (λ l, l !! 0%nat)) in Hk. rewrite lookup_drop, Nat.add_0_r in Hk. done.
Qed.

Lemma plain_field w i : (∀ x, x ∈ w → byte_val x ≠ 13) → index_byte 58 w = Some (S i) →
  match w with c :: _ => is_char 32 c || is_char 9 c = false | [] => False end → good_field (w ++ crlf).
Proof.
  intros Hw Hi Hs. exists [w ++ crlf]. cbn [List.concat]. rewrite app_nil_r. split; [done|]. split.
  - split; [|constructor]. split; [by destruct w|]. exists i.
    apply index_byte_Some in Hi as (c & Hc & Hb & Hf). assert (Hlt : (S i < length w)%nat) by (by eapply lookup_lt_Some).
    rewrite <-(take_drop_middle w (S i) c Hc) at 1. rewrite <-app_assoc. cbn [app].
    rewrite (index_byte_app 58) by done. rewrite length_take. f_equal. lia.
  - apply Forall_singleton. exists w. split; [done|by apply no_cr].
Qed.

Lemma wrapper_fields value : good_field mimeVersion ∧ good_field (signedType (boundaryOf value)) ∧ good_field (encryptedType (boundaryOf value)).
Proof.
  assert (Hlit : ∀ s, forallb (λ x, negb (byte_val x =? 13)) s = true → ∀ x, x ∈ s → byte_val x ≠ 13).
  { intros s Hs x Hx. rewrite forallb_forall in Hs. specialize (Hs x (proj1 (list_elem_of_In _ _) Hx)).
    by apply negb_true_iff, Z.eqb_neq in Hs. }
  assert (Hb : ∀ a b, forallb (λ x, negb (byte_val x =? 13)) (a ++ b) = true →
            ∀ x, x ∈ a ++ str_list (boundaryOf value) ++ b → byte_val x ≠ 13).
  { intros a b Hab x [Hx|[Hx|Hx]%elem_of_app]%elem_of_app; [|by apply (boundary_chars value)|];
      (apply (Hlit _ Hab); apply elem_of_app; auto). }
  split_and!.
  - by apply (plain_field _ 11); [apply Hlit|..].
  - unfold signedType. apply (plain_field _ 11); [|done|done].
    intros x Hx. apply (Hb (str_list "Content-Type: multipart/signed; protocol=" ++ [chr 34] ++ str_list "application/pgp-signature" ++ [chr 34]
      ++ str_list "; micalg=pgp-sha256; boundary=" ++ [chr 34]) [chr 34]); [by vm_compute|]. by rewrite <-!app_assoc.
  - unfold encryptedType. apply (plain_field _ 11); [|done|done].
    intros x Hx. apply (Hb (str_list "Content-Type: multipart/encrypted; protocol=" ++ [chr 34] ++ str_list "application/pgp-encrypted" ++ [chr 34]
      ++ str_list "; boundary=" ++ [chr 34]) [chr 34]); [by vm_compute|]. by rewrite <-!app_assoc.
Qed.

Lemma field_full f : good_field f → ∃ ls, f = List.concat ls ∧ ls ≠ [] ∧ Forall full_line ls.
Proof.
  intros (ls & -> & Hhead & Hgood). exists ls. split_and!; [done|by destruct ls|].
  destruct ls as [|h ls]; [done|]. destruct Hhead as [[Hs [i Hi]] Hcont].
  apply Forall_cons in Hgood as [(w & -> & Hw) Hgood]. constructor.
  - exists w. split_and!; [done|done|]. intros ->. done.
  - rewrite Forall_forall in Hgood, Hcont |- *. intros l Hl. destruct (Hgood l Hl) as (v & -> & Hv). specialize (Hcont _ Hl).
    exists v. split_and!; [done|done|]. intros ->. done.
Qed.

(** A message whose header is these fields. *)
Lemma fields_found fs rest : fs ≠ [] → Forall good_field fs →
  index_list (crlf ++ crlf) (List.concat fs ++ crlf ++ rest) = Some (length (List.concat fs) - 2)%nat ∧
  (2 ≤ length (List.concat fs))%nat.
Proof.
  intros Hne Hf. assert (Hls : ∃ ls, List.concat fs = List.concat ls ∧ (fs ≠ [] → ls ≠ []) ∧ Forall full_line ls).
  { clear Hne. induction Hf as [|f fs (fl & -> & Hfl & Hfull)%field_full _ (ls & E & _ & Hls)]; [by exists []|].
    exists (fl ++ ls). split_and!; [cbn [List.concat]; by rewrite E, concat_app|by destruct fl|by apply Forall_app]. }
  destruct Hls as (ls & -> & Hne' & Hls). specialize (Hne' Hne). split; [by apply blank_index|].
  destruct ls as [|l ls]; [done|]. apply Forall_cons in Hls as [(w & -> & _) _]. cbn [List.concat]. rewrite !length_app. cbn. lia.
Qed.

Lemma fields_read fs rest : fs ≠ [] → Forall good_field fs → messageFields (List.concat fs ++ crlf ++ rest) = Ok fs.
Proof.
  intros Hne Hf. destruct (fields_found fs rest Hne Hf) as [Hi Hl]. unfold messageFields. rewrite Hi.
  replace (length (List.concat fs) - 2 + 2)%nat with (length (List.concat fs)) by lia. rewrite take_app_length.
  by apply headerFields_concat.
Qed.

Lemma body_read fs rest : fs ≠ [] → Forall good_field fs →
  drop (length (List.concat fs) - 2 + 4) (List.concat fs ++ crlf ++ rest) = rest.
Proof.
  intros Hne Hf. destruct (fields_found fs rest Hne Hf) as [_ Hl].
  replace (length (List.concat fs) - 2 + 4)%nat with (length (List.concat fs ++ crlf)) by (rewrite length_app; cbn; lia).
  by rewrite app_assoc, drop_app_length.
Qed.

Lemma splitMessage_ok data replace outer entity : splitMessage data replace = Ok (outer, entity) →
  ∃ fields body, messageFields data = Ok fields ∧ Forall good_field fields ∧ data = List.concat fields ++ crlf ++ body ∧
    outer = List.concat (filter (λ f, isOuter replace f = true) fields) ∧
    entity = List.concat (filter (λ f, isContent f = true) fields) ++ crlf ++ body.
Proof.
  unfold splitMessage. destruct (index_list (crlf ++ crlf) data) as [i|] eqn:Ei; [|done].
  destruct (headerFields (take (i + 2) data)) as [fields|] eqn:Ef; [|done]. cbn [res_bind]. intros [= <- <-].
  destruct (headerFields_ok _ _ _ Ei Ef) as [Hg Hc]. destruct (blank_line _ _ Ei) as [Hd _].
  exists fields, (drop (i + 4) data). unfold messageFields. rewrite Ei, Ef, Hc. done.
Qed.

Lemma filter_good (P : bytes → Prop) `{∀ f, Decision (P f)} fs : Forall good_field fs → Forall good_field (filter P fs).
Proof. rewrite !Forall_forall. intros Hf f [_ Hin]%list_elem_of_filter. auto. Qed.

Lemma firstPart_signed fs entity signature value : Forall good_field fs →
  index_list (str_list ("--" +:+ boundaryOf value)) entity = None →
  firstPart (boundaryOf value) (buildSignedMessage (List.concat fs) entity signature (boundaryOf value)) = Some entity.
Proof.
  intros Hfs Hfresh. destruct (wrapper_fields value) as (Hmv & Hst & _). set (b := boundaryOf value) in *.
  destruct (signed_shape (List.concat fs) entity signature b) as [rest ->].
  assert (Hc : List.concat fs ++ mimeVersion ++ signedType b = List.concat (fs ++ [mimeVersion; signedType b]))
    by (rewrite concat_app; cbn [List.concat]; by rewrite app_nil_r).
  rewrite Hc. assert (Hg : Forall good_field (fs ++ [mimeVersion; signedType b])).
  { apply Forall_app. split; [done|]. by repeat constructor. }
  assert (Hne : fs ++ [mimeVersion; signedType b] ≠ []) by (by destruct fs).
  unfold firstPart. rewrite (proj1 (fields_found _ _ Hne Hg)), body_read by done.
  subst b. rewrite (delimiter_found value signedPreamble) by done. rewrite app_assoc.
  rewrite <-length_app, drop_app_length. change (index_list crlf (crlf ++ ?k)) with (Some 0%nat). cbn [Nat.add].
  change (drop 2 (crlf ++ ?k)) with k. rewrite delimiter_found by (by apply fresh_delimiter). by rewrite take_app_length.
Qed.

Section signing.
Context {Key : Type}.
Variable signDetached : Key → bytes → res bytes.
Variable random : res string.

(** C20: Who reads a signed message back finds exactly the bytes that were signed.
    When signing succeeds, the signature is over a seven-bit entity made of the
    message's own Content fields and body; the message keeps every other header field
    in order, gains the Autocrypt field if the identity has one, MIME-Version and the
    multipart type, and stays within the size limit; and the first part of the
    multipart, taken out as RFC 2046 says, is that entity, unless the random boundary
    occurs in it. *)
Theorem signed_part_verifies s sender c data value result :
  pgpIdentities s !! sender = Some c → (pgpAutocrypt c = [] ∨ good_field (pgpAutocrypt c)) → random = Ok value →
  Sign qpEncode cancelled signDetached random (Some s) sender data = Ok (result, true) →
  let replace := negb (bool_decide (pgpAutocrypt c = [])) in
  ∃ fields body entity signature,
    messageFields data = Ok fields ∧ data = List.concat fields ++ crlf ++ body ∧
    canonicalizeEntityContext qpEncode cancelled depthLevels [11%nat] (signMaximum s)
      (List.concat (filter (λ f, isContent f = true) fields) ++ crlf ++ body) = Ok entity ∧
    signDetached (pgpKey c) entity = Ok signature ∧ isSevenBit entity = true ∧
    Z.of_nat (length result) ≤ signMaximum s ∧
    messageFields result = Ok (filter (λ f, isOuter replace f = true) fields
      ++ (if replace then [pgpAutocrypt c] else []) ++ [mimeVersion; signedType (boundaryOf value)]) ∧
    (index_list (str_list ("--" +:+ boundaryOf value)) entity = None →
     firstPart (boundaryOf value) result = Some entity).
Proof.
  intros Hc Hauto Hr. cbn zeta. unfold Sign. rewrite Hc. intros Hs%polled_Ok.
  set (replace := negb (bool_decide (pgpAutocrypt c = []))) in *.
  destruct (splitMessage data replace) as [[outer entity0]|] eqn:Es; [|done]. cbn [res_bind] in Hs.
  destruct (canonicalizeEntityContext _ _ _ _ _ entity0) as [entity|] eqn:Ec; [|done]. cbn [res_bind] in Hs. apply polled_Ok in Hs.
  destruct (signDetached (pgpKey c) entity) as [signature|] eqn:Esig; [|by apply polled_Ok in Hs]. apply polled_Ok in Hs.
  rewrite Hr in Hs. cbn [res_bind] in Hs. destruct (_ <? _) eqn:El in Hs; [done|]. apply polled_Ok in Hs. injection Hs as <-.
  destruct (splitMessage_ok _ _ _ _ Es) as (fields & body & Hf & Hg & Hd & -> & ->).
  exists fields, body, entity, signature.
  set (kept := filter (λ f, isOuter replace f = true) fields).
  assert (Hk : List.concat kept ++ pgpAutocrypt c = List.concat (kept ++ if replace then [pgpAutocrypt c] else [])).
  { rewrite concat_app. f_equal. unfold replace. case_bool_decide as Ha; cbn [negb List.concat]; [done|by rewrite app_nil_r]. }
  assert (Hkg : Forall good_field (kept ++ if replace then [pgpAutocrypt c] else [])).
  { apply Forall_app. split; [by apply filter_good|]. unfold replace. case_bool_decide; cbn [negb]; [constructor|].
    apply Forall_singleton. by destruct Hauto. }
  fold kept in Hk, El |- *. rewrite Hk in El |- *. apply Z.ltb_ge in El. split_and!; [done|done|done|done|by eapply canonical_seven|lia| |by apply firstPart_signed].
  destruct (wrapper_fields value) as (Hmv & Hst & _).
  destruct (signed_shape (List.concat (kept ++ if replace then [pgpAutocrypt c] else [])) entity (lf_to_crlf signature) (boundaryOf value))
    as [rest ->].
  rewrite (app_assoc kept). assert (Hcat : List.concat (kept ++ if replace then [pgpAutocrypt c] else []) ++ mimeVersion ++ signedType (boundaryOf value)
    = List.concat ((kept ++ if replace then [pgpAutocrypt c] else []) ++ [mimeVersion; signedType (boundaryOf value)]))
    by (rewrite (concat_app (kept ++ _)); cbn [List.concat]; by rewrite app_nil_r).
  rewrite Hcat. apply fields_read; [by destruct (kept ++ _)|]. apply Forall_app. split; [done|]. by repeat constructor.
Qed.

(** An entity that starts with an empty line and has another one is refused: what
    stands between them is taken for a header. *)
Lemma blank_start_refused levels site maximum body out : is_Some (index_list (crlf ++ crlf) (crlf ++ body)) →
  canonicalizeEntityContext qpEncode cancelled levels site maximum (crlf ++ body) ≠ Ok out.
Proof.
  intros [i Hi]. destruct levels as [|levels]; cbn [canonicalizeEntityContext]; intros Hc%polled_Ok; [done|].
  destruct (maximum <? _); [done|]. unfold splitEntity in Hc. rewrite Hi in Hc.
  assert (Hh : ∃ rest, take (i + 2) (crlf ++ body) = crlf ++ rest).
  { exists (take i body). replace (i + 2)%nat with (length crlf + i)%nat by (cbn; lia). by rewrite take_app_add. }
  destruct Hh as [rest Hh]. rewrite Hh in Hc.
  assert (Hf : headerFields (crlf ++ rest) = Err (Message "malformed MIME header")).
  { unfold headerFields. change (crlf ++ rest) with ([] ++ crlf ++ rest). by rewrite split_after_line. }
  destruct (negb _); [done|]. unfold headerValue, validateTransferEncoding in Hc. rewrite Hf in Hc.
  destruct (ParseMediaType _) as [[mediaType params]|]; [|done]. done.
Qed.

(** A sender with a signing key cannot send plain text with an empty line in it.
    A message without Content fields, whose body holds an empty line anywhere or
    starts with one, is never signed, so it is refused: the entity starts with the
    empty line that ends its empty header, the search for the end of the header skips
    it, and the first paragraph is taken for header fields. *)
Theorem paragraphs_not_signed s sender c data fields body result :
  pgpIdentities s !! sender = Some c → messageFields data = Ok fields → data = List.concat fields ++ crlf ++ body →
  Forall (λ f, isContent f = false) fields → is_Some (index_list (crlf ++ crlf) (crlf ++ body)) →
  Sign qpEncode cancelled signDetached random (Some s) sender data ≠ Ok result.
Proof.
  intros Hc Hf Hd Hn Hb. unfold Sign. rewrite Hc. intros Hs%polled_Ok.
  destruct (splitMessage data _) as [[outer entity0]|] eqn:Es; [|done]. cbn [res_bind] in Hs.
  destruct (splitMessage_ok _ _ _ _ Es) as (fields' & body' & Hf' & _ & Hd' & _ & ->).
  assert (fields' = fields) as -> by congruence.
  assert (body' = body) as ->.
  { rewrite Hd in Hd'. apply app_inv_head in Hd'. by apply app_inv_head in Hd'. }
  assert (Hnone : filter (λ f, isContent f = true) fields = []).
  { clear -Hn. induction Hn as [|f fs Hx _ IH]; [done|]. rewrite filter_cons_False by congruence. done. }
  rewrite Hnone in Hs. cbn [List.concat app] in Hs.
  destruct (canonicalizeEntityContext _ _ _ _ _ (crlf ++ body)) as [entity|] eqn:Ec; [|done].
  by apply blank_start_refused in Ec.
Qed.
End signing.
End facts.

(** ** Samples *)

#[local] Instance plainMedia : MediaParser := {
  ParseMediaType s := if HasPrefix s "text/plain" then Ok ("text/plain", ∅) else Err (Message "unsupported")
}.

Definition sampleIdentities : pgpSigners string :=
  mkPgpSigners {["alice@example.org" := mkPgpIdentity "alice's key" (str_list "Autocrypt: addr=alice@example.org" ++ crlf)]} 100000.

Definition sampleDetached (key : string) (entity : bytes) : res bytes := Ok (str_list "signature" ++ [LF]).

Definition sampleShort : bytes := str_list "From: alice@example.org" ++ crlf ++ str_list "Content-Type: text/plain" ++ crlf
  ++ crlf ++ str_list "Hello" ++ crlf ++ crlf ++ str_list "Alice" ++ crlf.

Definition sampleSigned : bytes :=
  match Sign (λ _, []) (λ _, None) sampleDetached (Ok "random") (Some sampleIdentities) "alice@example.org" sampleShort with
  | Ok (result, _) => result
  | Err _ => []
  end.

Lemma sampleSigned_ok :
  Sign (λ _, []) (λ _, None) sampleDetached (Ok "random") (Some sampleIdentities) "alice@example.org" sampleShort
  = Ok (sampleSigned, true).
Proof. vm_compute. reflexivity. Qed.

Lemma sampleAutocrypt_ok : good_field (str_list "Autocrypt: addr=alice@example.org" ++ crlf).
Proof.
  apply (plain_field _ 8); [|done|done]. intros x Hx.
  repeat apply elem_of_cons in Hx as [-> |Hx]; [done..|by apply elem_of_nil in Hx].
Qed.

Lemma signed_part_verifies_witness :
  ∃ entity, isSevenBit entity = true ∧
    (index_list (str_list ("--" +:+ boundaryOf "random")) entity = None →
     firstPart (boundaryOf "random") sampleSigned = Some entity).
Proof.
  destruct (signed_part_verifies (λ _, []) (λ _, None) (λ _, eq_refl) sampleDetached (Ok "random") sampleIdentities
    "alice@example.org" (mkPgpIdentity "alice's key" (str_list "Autocrypt: addr=alice@example.org" ++ crlf)) sampleShort "random"
    sampleSigned) as (fields & body & entity & signature & _ & _ & _ & _ & Hseven & _ & _ & Hfirst);
    [vm_compute; reflexivity|right; exact sampleAutocrypt_ok|reflexivity|exact sampleSigned_ok|].
  exists entity. split; [exact Hseven|exact Hfirst].
Defined.

Lemma paragraphs_not_signed_witness : ¬ ∃ result,
  Sign (λ _, []) (λ _, None) sampleDetached (Ok "random") (Some sampleIdentities) "alice@example.org"
    (str_list "From: alice@example.org" ++ crlf ++ crlf ++ str_list "Hello" ++ crlf ++ crlf ++ str_list "Alice" ++ crlf) = Ok result.
Proof.
  intros [result Hr]. revert Hr.
  apply (paragraphs_not_signed (λ _, []) (λ _, None) sampleDetached (Ok "random") sampleIdentities "alice@example.org"
    (mkPgpIdentity "alice's key" (str_list "Autocrypt: addr=alice@example.org" ++ crlf)) _
    [str_list "From: alice@example.org" ++ crlf] (str_list "Hello" ++ crlf ++ crlf ++ str_list "Alice" ++ crlf) result);
    [vm_compute; reflexivity|vm_compute; reflexivity|reflexivity| |eexists; vm_compute; reflexivity].
  repeat constructor.
Defined.
