(* ===== verification/PgpKeys.v ===== *)
(** * OpenPGP keys (src/internal/openpgp: sign.go, encrypt.go, public.go)

    Signing identities and recipient keys are read once at start.  The key format and
    the cryptography are the parameter [PgpLib]: what parsing a key file gives, and
    what the library says of an entity at a time.

    [keys_name_recipient]: a key is only used for an address that one of its active,
    verified user identities names, and every recipient that must be encrypted to has
    one.  [autocrypt_roundtrip]: the Autocrypt field is one well-formed field from
    which the key reads back. *)

From S2P Require Import Prelude Errors GoLib Capacity Utf8 Mailbox Text Base64 Password Paths SecretFiles Duration Users.
From S2P Require Import Netpolicy Discovery IpText Config ConfigFacts DnsRecords PgpMime.
Open Scope Z_scope.

Definition maxKeyBytes : Z := Z.shiftl 4 20.
Definition maxPassphraseBytes : Z := Z.shiftl 4 10.
Definition MaxOpenPGPRecipientKeys : Z := 1000.
Definition maxAutocryptFieldBytes : Z := Z.shiftl 10 10.

Inductive pubKeyAlgorithm :=
  PubKeyAlgoRSA | PubKeyAlgoRSAEncryptOnly | PubKeyAlgoECDH | PubKeyAlgoX25519 | PubKeyAlgoX448 | PubKeyAlgoOther.

#[export] Instance pubKeyAlgorithm_eq_dec : EqDecision pubKeyAlgorithm.
Proof. solve_decision. Defined.

(** The key the library selects for encryption. *)
Record encryptionKey := mkEncryptionKey {
  ekFingerprint : string; ekAlgorithm : pubKeyAlgorithm; ekCanEncrypt : bool; ekBits : res Z
}.

(** A user identity: its text, what it has, and its packets. *)
Record pgpUser := mkPgpUser {
  puName : string;
  puUserId : option (res string);
  puSelf : option (res string);
  puExpired : Z → bool;
  puRevoked : Z → bool;
  puVerify : res unit;
  puRevocations : list (res string)
}.

(** A private key: a stub, encrypted, or neither. *)
Record privateKey := mkPrivateKey { pkDummy : bool; pkEncrypted : bool }.

Record subkey := mkSubkey {
  skPublic : option (res string); skPrivate : option privateKey; skRevocations : list (res string); skSig : option (res string)
}.

(** github.com/ProtonMail/go-crypto/openpgp; packets by their serialization. *)
Class PgpLib (Entity : Type) := {
  ReadArmoredKeyRing : string → res (list Entity);
  ReadKeyRing : string → res (list Entity);
  enPrivate : Entity → option privateKey;
  enSubkeys : Entity → list subkey;
  enUsers : Entity → list pgpUser;
  enFingerprint : Entity → string;
  enPrimary : Entity → res string;
  enRevocations : Entity → list (res string);
  enSelf : Entity → option (res string);
  EncryptionKey : Entity → Z → option encryptionKey;
  SigningKey : Entity → Z → option bool;
  DecryptPrivateKeys : Entity → string → res Entity;
  signsEmpty : Entity → res unit;
  encryptArmored : Entity → Z → bytes → res bytes
}.

Definition is_some {A} (o : option A) : bool := match o with Some _ => true | None => false end.

Section keys.
Context {Entity : Type} `{PgpLib Entity} `{CaseTables} `{AddressParser}.
Variable ToASCII : string → res string.

(** ** Reading an entity *)

Definition parseEntities (keyData : string) : res (list Entity) :=
  match ReadArmoredKeyRing keyData with
  | Ok entities => Ok entities
  | Err _ => ReadKeyRing keyData
  end.

(** An identity that counts. *)
Definition activeUser (now : Z) (u : pgpUser) : bool := is_some (puSelf u) && negb (puExpired u now) && negb (puRevoked u now).

(** ** Recipients (encrypt.go) *)

Definition supportedEncryptionAlgorithm (a : pubKeyAlgorithm) : bool := negb (bool_decide (a = PubKeyAlgoOther)).

Definition recipientIdentityAddress (value : string) : res string :=
  match ParseAddress value with
  | Ok (_, address) => CanonicalAddress ToASCII address
  | Err _ =>
      match last_index 60 (str_list value) with
      | None => Err (Message "user ID is not an RFC mailbox or terminal angle address")
      | Some open =>
          reject negb (HasSuffix value ">") with Message "user ID is not an RFC mailbox or terminal angle address" in
          let front := str_take open value in
          reject contains_byte 60 front || contains_byte 62 front with Message "user ID contains an ambiguous angle address" in
          let address := str_take (String.length value - 1 - S open) (str_drop (S open) value) in
          reject bool_decide (address = "") || negb (bool_decide (TrimSpace address = address))
                 || contains_byte 60 address || contains_byte 62 address
            with Message "user ID has an invalid terminal angle address" in
          CanonicalAddress ToASCII address
      end
  end.

(** The loop over the identities: the addresses found so far. *)
Fixpoint userAddresses (now : Z) (found : gset string) (users : list pgpUser) : res (gset string) :=
  match users with
  | [] => Ok found
  | u :: users =>
      if negb (is_some (puUserId u)) || negb (activeUser now u) then userAddresses now found users
      else
        match puVerify u with
        | Err e => Err (Wrap "verify user ID self-signature" e)
        | Ok _ =>
            match recipientIdentityAddress (puName u) with
            | Err _ => userAddresses now found users
            | Ok address => userAddresses now ({[address]} ∪ found) users
            end
        end
  end.

Definition parseRecipientEntity (now : Z) (keyData : string) : res (Entity * list string) :=
  match parseEntities keyData with
  | Err e => Err (Wrap "parse public key" e)
  | Ok entities =>
      match entities with
      | [entity] =>
          reject is_some (enPrivate entity) || existsb (λ s, is_some (skPrivate s)) (enSubkeys entity)
            with Message "key file contains private key material" in
          match EncryptionKey entity now with
          | None => Err (Message "key has no currently valid encryption key")
          | Some key =>
              reject negb (ekCanEncrypt key) with Message "selected key algorithm cannot encrypt" in
              reject negb (supportedEncryptionAlgorithm (ekAlgorithm key))
                with Message "selected key uses an unsupported encryption algorithm" in
              reject bool_decide (ekAlgorithm key ∈ [PubKeyAlgoRSA; PubKeyAlgoRSAEncryptOnly])
                     && match ekBits key with Ok bits => bits <? 2048 | Err _ => true end
                with Message "RSA encryption key must be at least 2048 bits" in
              let? addresses := userAddresses now ∅ (enUsers entity) in
              reject bool_decide (addresses = ∅) with Message "key has no active supported email identity" in
              Ok (entity, sort_strings (elements addresses))
          end
      | _ => Err (Message "key file must contain exactly one entity")
      end
  end.

(** [Recipients]. *)
Record Recipients := mkRecipients { rcKeys : gmap string Entity; rcRequired : gset string; rcMaximum : Z }.

Definition hexUpper (s : string) : string := ToUpper (EncodeToString s).

(** [KeyID]; a nil receiver is [None]. *)
Definition KeyID (r : option Recipients) (now : Z) (recipient : string) : res (option string) :=
  match r with
  | None => Ok None
  | Some r =>
      match CanonicalAddress ToASCII recipient with
      | Err e => Err (Wrap "canonicalize recipient" e)
      | Ok recipient =>
          match rcKeys r !! recipient with
          | None =>
              reject bool_decide (recipient ∈ rcRequired r) with Message "required encryption recipient has no usable key" in
              Ok None
          | Some entity =>
              match EncryptionKey entity now with
              | None => Err (Message "recipient no longer has a usable encryption key")
              | Some key => Ok (Some (hexUpper (ekFingerprint key)))
              end
          end
      end
  end.

Section encrypt.
Variable cancelled : list nat → option error.
Variable random : res string.

(** [Encrypt]: [None] is the message as it was. *)
Definition Encrypt (r : option Recipients) (now : Z) (recipient keyID : string) (data : bytes) : res (option bytes) :=
  match r with
  | None => Ok None
  | Some r =>
      match CanonicalAddress ToASCII recipient with
      | Err e => Err (Wrap "canonicalize recipient" e)
      | Ok recipient =>
          match rcKeys r !! recipient with
          | None => Ok None
          | Some entity =>
              match EncryptionKey entity now with
              | None => Err (Message "recipient no longer has a usable encryption key")
              | Some key =>
                  reject negb (bool_decide (hexUpper (ekFingerprint key) = keyID))
                    with Message "recipient encryption key changed during preparation" in
                  polled cancelled [20%nat]
                    (let? (outer, mimeEntity) := splitMessage data false in
                     let? value := random in
                     match (let? armored := encryptArmored entity now mimeEntity in
                            reject rcMaximum r <? Z.of_nat (length armored) with Sentinel ErrMessageTooLarge in
                            Ok armored) with
                     | Err e => polled cancelled [21%nat] (Err (Wrap "encrypt" e))
                     | Ok armored =>
                         let result := buildEncryptedMessage outer (lf_to_crlf (crlf_to_lf armored)) (boundaryOf value) in
                         reject rcMaximum r <? Z.of_nat (length result) with Wrap "maximum" (Sentinel ErrMessageTooLarge) in
                         Ok (Some result)
                     end)
              end
          end
      end
  end.
End encrypt.

(** *** Loading *)

Section load.
Variable cwd : string.
Variable cfg : Config.
Variable files : tree.
Variable lstatFault : string → option error.
(** The time at a file, and of the signing keys. *)
Variable clock : string → Z.
Variable now : Z.

Definition resolved (path : string) : string := ResolvePath (cBaseDir cfg) (sDataDirectory (cServer cfg)) path.
Definition pgpDataDir : string :=
  filepath_Abs cwd (filepath_Clean (ResolvedDataDir cwd (cBaseDir cfg) (sDataDirectory (cServer cfg)))).

(** The parents of a relative path are checked. *)
Definition checkRelative (configured path : string) : res unit :=
  if filepath_IsAbs configured then Ok tt else CheckGeneratedParents files lstatFault pgpDataDir path.

(** [filepath.Ext]: from the last dot of the last element. *)
Definition filepath_Ext (name : string) : string :=
  match last_index 46 (str_list name) with
  | Some i => if contains_byte 47 (str_drop i name) then "" else str_drop i name
  | None => ""
  end.

Definition isKeyFile (name : string) : bool := bool_decide (ToLowerText (filepath_Ext name) ∈ [".asc"; ".pgp"]).

Definition readRecipientEntity (path : string) : res (Entity * list string) :=
  let? keyData := ReadCheckedFile files path true false maxKeyBytes in
  parseRecipientEntity (clock path) keyData.

(** The addresses of one key. *)
Fixpoint addAddresses (entity : Entity) (addresses : list string) (keys : gmap string Entity) : res (gmap string Entity) :=
  match addresses with
  | [] => Ok keys
  | address :: addresses =>
      reject bool_decide (is_Some (keys !! address)) with Message "recipient address is present in multiple key files" in
      addAddresses entity addresses (<[address := entity]> keys)
  end.

(** The loop over the directory's entries. *)
Fixpoint loadKeyFiles (directory : string) (keyFiles : Z) (names : list string) (keys : gmap string Entity)
    : res (gmap string Entity) :=
  match names with
  | [] => Ok keys
  | name :: names =>
      if negb (isKeyFile name) then loadKeyFiles directory keyFiles names keys
      else
        reject MaxOpenPGPRecipientKeys <? keyFiles + 1 with Message "recipient key directory contains more than 1000 key files" in
        match readRecipientEntity (filepath_Join directory name) with
        | Err e => Err (Wrap "recipient key" e)
        | Ok (entity, addresses) =>
            let? keys := addAddresses entity addresses keys in
            loadKeyFiles directory (keyFiles + 1) names keys
        end
  end.

Definition loadStatic (keys : gmap string Entity) : res (gmap string Entity) :=
  let configured := pRecipientKeysDirectory (cOpenPGP cfg) in
  if bool_decide (configured = "") then Ok keys
  else
    let directory := resolved configured in
    let? _ := checkRelative configured (filepath_Join directory "recipient-key") in
    let? _ := ValidatePath files lstatFault cwd directory in
    let? _ := ValidatePrivateDirectory files directory in
    let? entries := ReadDir files directory in
    loadKeyFiles directory 0 (sort_strings entries) keys.

(** [loadWKDRecipient]: the cache, then discovery; the tree with what it cached. *)
Variable loadWKDRecipient : tree → string → res Entity * tree.

Fixpoint requiredSet (addresses : list string) (required : gset string) : res (gset string) :=
  match addresses with
  | [] => Ok required
  | address :: addresses =>
      match CanonicalAddress ToASCII address with
      | Err e => Err (Wrap "canonicalize required encryption recipient" e)
      | Ok canonical => requiredSet addresses ({[canonical]} ∪ required)
      end
  end.

(** The loop that fills in missing keys; an address that does not canonicalise has
    been refused before. *)
Fixpoint discoverKeys (cache : tree) (addresses : list string) (keys : gmap string Entity)
    : res (gmap string Entity) * tree :=
  match addresses with
  | [] => (Ok keys, cache)
  | configured :: addresses =>
      let address := match CanonicalAddress ToASCII configured with Ok a => a | Err _ => "" end in
      match keys !! address with
      | Some _ => discoverKeys cache addresses keys
      | None =>
          if negb (pUseWKD (cOpenPGP cfg)) then (Err (Message "required encryption recipient has no usable static key"), cache)
          else
            match loadWKDRecipient cache address with
            | (Err e, cache) => (Err (Wrap "required encryption recipient" e), cache)
            | (Ok entity, cache) => discoverKeys cache addresses (<[address := entity]> keys)
            end
      end
  end.

Definition loadRecipients : res Recipients * tree :=
  match requiredSet (pRequireEncryptionFor (cOpenPGP cfg)) ∅ with
  | Err e => (Err e, files)
  | Ok required =>
      match loadStatic ∅ with
      | Err e => (Err e, files)
      | Ok keys =>
          match discoverKeys files (pRequireEncryptionFor (cOpenPGP cfg)) keys with
          | (Err e, cache) => (Err e, cache)
          | (Ok keys, cache) => (Ok (mkRecipients keys required (sMaxMessageBytes (cServer cfg))), cache)
          end
      end
  end.

(** ** Signing identities (sign.go, public.go) *)

Definition canonicalAddress (address : string) : string :=
  match last_index 64 (str_list address) with
  | None => address
  | Some i => str_take i address +:+ "@" +:+ ToLowerText (str_drop (S i) address)
  end.

Definition namesSender (sender : string) (u : pgpUser) : bool :=
  match ParseAddress (puName u) with
  | Ok (_, address) => bool_decide (canonicalAddress address = sender)
  | Err _ => false
  end.

Definition hasIdentity (entity : Entity) (sender : string) : bool :=
  existsb (λ u, activeUser now u && namesSender sender u) (enUsers entity).

Definition readEntity (configured : OpenPGPIdentity) : res Entity :=
  let keyPath := resolved (iSigningKey configured) in
  let? _ := checkRelative (iSigningKey configured) keyPath in
  let? keyData := ReadCheckedFile files keyPath true false maxKeyBytes in
  let? entities := parseEntities keyData in
  match entities with
  | [entity] => Ok entity
  | _ => Err (Message "signing key must contain exactly one entity")
  end.

(** The private keys of an entity that are not stubs. *)
Definition privateKeys (entity : Entity) : list privateKey :=
  filter (λ k, pkDummy k = false) (omap id (enPrivate entity :: (skPrivate <$> enSubkeys entity))).

Definition validatePrivateComponents (entity : Entity) (passphraseConfigured : bool) : res bool :=
  let encrypted := existsb pkEncrypted (privateKeys entity) in
  let unencrypted := existsb (λ k, negb (pkEncrypted k)) (privateKeys entity) in
  reject encrypted && unencrypted with Message "private key contains mixed encrypted and unencrypted components" in
  reject negb (eqb passphraseConfigured encrypted)
    with (if encrypted then Message "signing key is encrypted but passphrase_file is not configured"
          else Message "passphrase_file is configured but the signing key is not encrypted") in
  Ok encrypted.

Definition TrimSuffixByte (s : string) (b : Z) : string :=
  match rev (str_list s) with
  | c :: front => if is_char b c then of_list (rev front) else s
  | [] => s
  end.

Definition readPassphrase (path : string) : res string :=
  let resolvedPath := resolved path in
  let? _ := checkRelative path resolvedPath in
  let? value := ReadCheckedFile files resolvedPath true false maxPassphraseBytes in
  let trimmed := TrimSuffixByte (TrimSuffixByte value 10) 13 in
  reject bool_decide (trimmed = "") with Message "passphrase file is empty" in
  reject contains_byte 13 trimmed || contains_byte 10 trimmed || contains_byte 0 trimmed
    with Message "passphrase file must contain one non-empty line without NUL" in
  Ok trimmed.

(** The loop of [selectIdentity]; the identities in the order of the map. *)
Fixpoint selectUser (sender : string) (selected : option pgpUser) (users : list pgpUser) : res (option pgpUser) :=
  match users with
  | [] => Ok selected
  | u :: users =>
      if negb (is_some (puUserId u)) || negb (activeUser now u) || negb (namesSender sender u)
      then selectUser sender selected users
      else
        reject is_some selected with Message "sender matches multiple active key identities" in
        selectUser sender (Some u) users
  end.

Definition selectIdentity (entity : Entity) (sender : string) : res pgpUser :=
  let? selected := selectUser sender None (enUsers entity) in
  match selected with
  | None => Err (Message "sender is not present in the active key identities")
  | Some u =>
      match puVerify u with
      | Err e => Err (Wrap "verify user ID self-signature" e)
      | Ok _ => Ok u
      end
  end.

(** Packets written one after another. *)
Fixpoint writePackets (packets : list (res string)) : res string :=
  match packets with
  | [] => Ok ""
  | p :: packets => let? a := p in let? rest := writePackets packets in Ok (a +:+ rest)
  end.

Definition subkeyPackets (k : subkey) : list (res string) :=
  match skPublic k, skSig k with
  | Some public, Some sig => public :: skRevocations k ++ [sig]
  | _, _ => [Err (Message "public subkey is missing its key or binding signature")]
  end.

Record PublicIdentity := mkPublicIdentity { piSender : string; piFingerprint : string; piKey : string }.

Definition opt_list {A} (o : option A) : list A := match o with Some a => [a] | None => [] end.

Definition publicIdentity (entity : Entity) (sender : string) : res PublicIdentity :=
  let? u := selectIdentity entity sender in
  let? key := writePackets
    (enPrimary entity :: enRevocations entity ++ opt_list (enSelf entity) ++ opt_list (puUserId u) ++ opt_list (puSelf u)
     ++ puRevocations u ++ List.concat (subkeyPackets <$> enSubkeys entity)) in
  Ok (mkPublicIdentity sender (hexUpper (enFingerprint entity)) key).

(** *** The Autocrypt field *)

(** Base64 in lines of 76. *)
Fixpoint foldLines (fuel : nat) (l : bytes) : bytes :=
  match fuel with
  | O => l
  | S fuel => if (length l <=? 76)%nat then l else take 76 l ++ crlf ++ [SP] ++ foldLines fuel (drop 76 l)
  end.

Definition autocryptPrefix (sender : string) : bytes := str_list ("Autocrypt: addr=" +:+ sender +:+ "; keydata=").

Definition autocryptField (identity : PublicIdentity) : res bytes :=
  match ReadKeyRing (piKey identity) with
  | Ok [entity] =>
      match EncryptionKey entity now with
      | None => Err (Message "autocrypt requires a currently valid encryption key")
      | Some _ =>
          let encoded := std_encode (str_list (piKey identity)) in
          let field := autocryptPrefix (piSender identity) ++ foldLines (length encoded) encoded ++ crlf in
          reject maxAutocryptFieldBytes <? Z.of_nat (length field) with Message "autocrypt field exceeds the maximum" in
          Ok field
      end
  | _ => Err (Message "minimized public key cannot be parsed")
  end.

(** [loadIdentity]; [later] is the time of the second look at the signing key. *)
Definition loadIdentity (later : Z) (configured : OpenPGPIdentity) : res (pgpIdentity Entity) :=
  let? entity := readEntity configured in
  match SigningKey entity now with
  | Some true =>
      let? encrypted := validatePrivateComponents entity (negb (bool_decide (iPassphraseFile configured = ""))) in
      let? entity := (if encrypted : bool then
                        let? passphrase := readPassphrase (iPassphraseFile configured) in
                        match DecryptPrivateKeys entity passphrase with
                        | Err e => Err (Wrap "decrypt signing key" e)
                        | Ok entity => Ok entity
                        end
                      else Ok entity) in
      reject negb (is_some (SigningKey entity later)) with Message "no currently valid signing key" in
      reject negb (hasIdentity entity (iSender configured)) with Message "sender is not present in the key identities" in
      let? _ := signsEmpty entity in
      let? autocrypt := (if iAutocrypt configured then
                           let? public := publicIdentity entity (iSender configured) in autocryptField public
                         else Ok []) in
      Ok (mkPgpIdentity entity autocrypt)
  | _ => Err (Message "no valid private signing key")
  end.

Fixpoint loadIdentities (later : Z) (configured : list OpenPGPIdentity) (identities : gmap string (pgpIdentity Entity))
    : res (gmap string (pgpIdentity Entity)) :=
  match configured with
  | [] => Ok identities
  | c :: configured =>
      match loadIdentity later c with
      | Err e => Err (Wrap "openpgp identity" e)
      | Ok loaded => loadIdentities later configured (<[iSender c := loaded]> identities)
      end
  end.

Definition LoadSigners (later : Z) : res (pgpSigners Entity) :=
  let? identities := loadIdentities later (pIdentities (cOpenPGP cfg)) ∅ in
  Ok (mkPgpSigners identities (sMaxMessageBytes (cServer cfg))).

Fixpoint loadPublic (configured : list OpenPGPIdentity) : res (list PublicIdentity) :=
  match configured with
  | [] => Ok []
  | c :: configured =>
      let? entity := readEntity c in
      let? identity := publicIdentity entity (iSender c) in
      let? rest := loadPublic configured in
      Ok (identity :: rest)
  end.

Definition LoadPublic : res (list PublicIdentity) := loadPublic (pIdentities (cOpenPGP cfg)).
End load.

(** ** Facts *)

(** What makes an entity usable for an address. *)
Definition strongKey (key : encryptionKey) : Prop :=
  ekCanEncrypt key = true ∧ ekAlgorithm key ≠ PubKeyAlgoOther ∧
  (ekAlgorithm key ∈ [PubKeyAlgoRSA; PubKeyAlgoRSAEncryptOnly] → ∃ bits, ekBits key = Ok bits ∧ 2048 ≤ bits).

Definition publicOnly (entity : Entity) : Prop :=
  enPrivate entity = None ∧ ∀ s, s ∈ enSubkeys entity → skPrivate s = None.

Definition identityFor (now : Z) (entity : Entity) (address : string) : Prop :=
  ∃ u, u ∈ enUsers entity ∧ is_Some (puUserId u) ∧ activeUser now u = true ∧ puVerify u = Ok tt ∧
       recipientIdentityAddress (puName u) = Ok address.

Definition usableFor (now : Z) (entity : Entity) (address : string) : Prop :=
  publicOnly entity ∧ (∃ key, EncryptionKey entity now = Some key ∧ strongKey key) ∧ identityFor now entity address.

Lemma userAddresses_spec now users : ∀ found result, userAddresses now found users = Ok result →
  ∀ a, a ∈ result → a ∈ found ∨ ∃ u, u ∈ users ∧ is_Some (puUserId u) ∧ activeUser now u = true ∧ puVerify u = Ok tt ∧
       recipientIdentityAddress (puName u) = Ok a.
Proof.
  induction users as [|u users IH]; intros found result He a Ha; cbn [userAddresses] in He; [injection He as <-; by left|].
  assert (Hskip : ∀ f, userAddresses now f users = Ok result → a ∈ f ∨ ∃ v, v ∈ u :: users ∧ is_Some (puUserId v) ∧
            activeUser now v = true ∧ puVerify v = Ok tt ∧ recipientIdentityAddress (puName v) = Ok a).
  { intros f Hf. destruct (IH _ _ Hf a Ha) as [?|(v & Hv & Hr)]; [by left|]. right. exists v. split; [by right|done]. }
  destruct (puUserId u) as [i|] eqn:Eu; cbn [is_some negb orb] in He; [|by apply Hskip].
  destruct (activeUser now u) eqn:Ea; cbn [negb] in He; [|by apply Hskip].
  destruct (puVerify u) as [[]|] eqn:Ev; [|done].
  destruct (recipientIdentityAddress (puName u)) as [b|] eqn:Eb; [|by apply Hskip].
  destruct (Hskip _ He) as [[->%elem_of_singleton|?]%elem_of_union|?]; [|by left|by right].
  right. exists u. rewrite Eu. split; [by left|]. eauto.
Qed.

Lemma strongKey_checks key : ekCanEncrypt key = true → supportedEncryptionAlgorithm (ekAlgorithm key) = true →
  bool_decide (ekAlgorithm key ∈ [PubKeyAlgoRSA; PubKeyAlgoRSAEncryptOnly])
  && match ekBits key with Ok bits => bits <? 2048 | Err _ => true end = false → strongKey key.
Proof.
  unfold supportedEncryptionAlgorithm. rewrite negb_true_iff, bool_decide_eq_false. intros Hc Ho Hb. split_and!; [done|done|].
  intros Hrsa. rewrite bool_decide_eq_true_2 in Hb by done. destruct (ekBits key) as [bits|]; [|done].
  apply Z.ltb_ge in Hb. eauto.
Qed.

Lemma publicOnly_checks entity :
  is_some (enPrivate entity) || existsb (λ s, is_some (skPrivate s)) (enSubkeys entity) = false → publicOnly entity.
Proof.
  intros [Hp Hs]%orb_false_iff. split; [by destruct (enPrivate entity)|]. intros s Hin.
  destruct (skPrivate s) eqn:E; [|done]. rewrite <-not_true_iff_false, existsb_exists in Hs. destruct Hs.
  exists s. split; [by apply list_elem_of_In|]. by rewrite E.
Qed.

Lemma sort_strings_in l a : a ∈ sort_strings l ↔ a ∈ l.
Proof. unfold sort_strings. by rewrite merge_sort_Permutation. Qed.

Lemma parseRecipientEntity_usable now keyData entity addresses : parseRecipientEntity now keyData = Ok (entity, addresses) →
  ∀ a, a ∈ addresses → usableFor now entity a.
Proof.
  unfold parseRecipientEntity. destruct (parseEntities keyData) as [[|e [|]]|]; try done.
  destruct (_ || existsb _ _) eqn:Ep; [done|]. destruct (EncryptionKey e now) as [key|] eqn:Ek; [|done].
  destruct (ekCanEncrypt key) eqn:Ec; [|done]. destruct (supportedEncryptionAlgorithm _) eqn:Es; [|done].
  cbn [negb]. destruct (_ && _) eqn:Er; [done|].
  destruct (userAddresses now ∅ (enUsers e)) as [found|] eqn:Eu; [|done]. cbn [res_bind].
  destruct (bool_decide (found = ∅)); [done|]. intros [= <- <-] a Ha.
  rewrite sort_strings_in, elem_of_elements in Ha. destruct (userAddresses_spec _ _ _ _ Eu a Ha) as [?%elem_of_empty|Hid]; [done|].
  split_and!; [by apply publicOnly_checks| |done]. exists key. split; [done|]. by apply strongKey_checks.
Qed.

Lemma addAddresses_spec entity addresses : ∀ keys keys', addAddresses entity addresses keys = Ok keys' →
  ∀ a e, keys' !! a = Some e → keys !! a = Some e ∨ a ∈ addresses ∧ e = entity.
Proof.
  induction addresses as [|b addresses IH]; intros keys keys' He a e Ha; cbn [addAddresses] in He.
  { injection He as <-. by left. }
  destruct (bool_decide (is_Some (keys !! b))); [done|]. destruct (IH _ _ He a e Ha) as [Hl|[Hl ->]].
  - apply lookup_insert_Some in Hl as [[-> ->]|[_ Hl]]; [right|by left]. split; [left|done].
  - right. split; [by right|done].
Qed.

Lemma requiredSet_spec addresses : ∀ found required, requiredSet addresses found = Ok required →
  found ⊆ required ∧ ∀ a, a ∈ addresses → ∃ c, CanonicalAddress ToASCII a = Ok c ∧ c ∈ required.
Proof.
  induction addresses as [|b addresses IH]; intros found required He; cbn [requiredSet] in He.
  { injection He as <-. split; [done|]. intros a Ha. by apply elem_of_nil in Ha. }
  destruct (CanonicalAddress ToASCII b) as [c|] eqn:Ec; [|done]. destruct (IH _ _ He) as [Hsub Hall].
  split; [set_solver|]. intros a [-> |Ha]%elem_of_cons; [|by apply Hall]. exists c. split; [done|]. set_solver.
Qed.

Lemma requiredSet_from addresses : ∀ found required, requiredSet addresses found = Ok required →
  ∀ c, c ∈ required → c ∈ found ∨ ∃ a, a ∈ addresses ∧ CanonicalAddress ToASCII a = Ok c.
Proof.
  induction addresses as [|b addresses IH]; intros found required He c Hc; cbn [requiredSet] in He.
  { injection He as <-. by left. }
  destruct (CanonicalAddress ToASCII b) as [d|] eqn:Ec; [|done]. destruct (IH _ _ He c Hc) as [Hf|(a & Ha & Hca)].
  - apply elem_of_union in Hf as [->%elem_of_singleton|Hf]; [right|by left]. exists b. split; [left|done].
  - right. exists a. split; [by right|done].
Qed.
Section loading.
Context (cwd : string) (cfg : Config) (files : tree) (lstatFault : string → option error) (clock : string → Z).

(** Every key so far is usable for its address at some time. *)
Definition keysUsable (keys : gmap string Entity) : Prop := ∀ a e, keys !! a = Some e → ∃ now, usableFor now e a.

Lemma loadKeyFiles_usable directory names : ∀ n keys keys', loadKeyFiles files clock directory n names keys = Ok keys' →
  keysUsable keys → keysUsable keys'.
Proof.
  induction names as [|name names IH]; intros n keys keys' He Hk; cbn [loadKeyFiles] in He; [by injection He as <-|].
  destruct (negb (isKeyFile name)); [by eapply IH|]. destruct (MaxOpenPGPRecipientKeys <? n + 1); [done|].
  destruct (readRecipientEntity _ _ _) as [[entity addresses]|] eqn:Er; [|done].
  destruct (addAddresses _ _ _) as [keys1|] eqn:Ea; [|done]. apply IH in He; [done|]. intros a e Hl.
  destruct (addAddresses_spec _ _ _ _ Ea a e Hl) as [?|[Hin ->]]; [by apply Hk|].
  unfold readRecipientEntity in Er. destruct (ReadCheckedFile _ _ _ _ _) as [keyData|]; [|done].
  eexists. by eapply parseRecipientEntity_usable.
Qed.

Lemma loadStatic_usable keys : loadStatic cwd cfg files lstatFault clock ∅ = Ok keys → keysUsable keys.
Proof.
  unfold loadStatic. destruct (bool_decide (_ = "")); [intros [= <-] a e; by rewrite lookup_empty|].
  destruct (checkRelative _ _ _ _ _ _) as [[]|]; [|done]. destruct (ValidatePath _ _ _ _) as [[]|]; [|done].
  destruct (ValidatePrivateDirectory _ _) as [[]|]; [|done]. destruct (ReadDir _ _) as [names|]; [|done]. cbn [res_bind].
  intros He. eapply loadKeyFiles_usable; [done|]. intros a e. by rewrite lookup_empty.
Qed.

End loading.

(** *** The Autocrypt field reads back *)

(** A reader: white space is ignored, the attributes are separated by a semicolon. *)
Definition blank (c : ascii) : bool := is_char 32 c || is_char 9 c || is_char 13 c || is_char 10 c.
Definition unspaced (l : bytes) : bytes := filter (λ c, blank c = false) l.

Definition readAutocrypt (field : bytes) : option (bytes * bytes) :=
  let '(name, value, _) := cut_byte 58 field in
  let '(addr, rest, _) := cut_byte 59 (unspaced value) in
  if bool_decide (name = str_list "Autocrypt") && is_prefix (str_list "addr=") addr && is_prefix (str_list "keydata=") rest
  then match std_decode (drop 8 rest) with Some key => Some (drop 5 addr, key) | None => None end
  else None.

Lemma unspaced_app l k : unspaced (l ++ k) = unspaced l ++ unspaced k.
Proof. apply filter_app. Qed.

Lemma unspaced_id l : (∀ c, c ∈ l → blank c = false) → unspaced l = l.
Proof.
  induction l as [|c l IH]; intros Hl; [done|]. unfold unspaced. rewrite filter_cons_True by (apply Hl; left).
  f_equal. apply IH. intros x Hx. apply Hl. by right.
Qed.

Lemma encoded_chars l c : c ∈ std_encode l → blank c = false ∧ byte_val c ≠ 59.
Proof.
  intros Hc. destruct (base64_encode_chars true l c Hc) as [_ [[-> _]|(v & Hv & ->)]]; [done|].
  assert (Hall : forallb (λ c, negb (blank c) && negb (byte_val c =? 59)) alphabet = true) by reflexivity.
  unfold sextet_char. destruct (alphabet !! Z.to_nat v) as [x|] eqn:Ex; [|done]. cbn [default].
  rewrite forallb_forall in Hall. apply list_elem_of_lookup_2, list_elem_of_In, Hall in Ex.
  apply andb_true_iff in Ex as [Hb%negb_true_iff Hs%negb_true_iff%Z.eqb_neq]. done.
Qed.

Lemma foldLines_lines fuel : ∀ l, ∃ first rest,
  foldLines fuel l ++ crlf = first ++ crlf ++ List.concat ((λ k, SP :: k ++ crlf) <$> rest) ∧ l = first ++ List.concat rest.
Proof.
  induction fuel as [|fuel IH]; intros l; cbn [foldLines]; [exists l, []; by rewrite !app_nil_r|].
  destruct (length l <=? 76)%nat; [exists l, []; by rewrite !app_nil_r|].
  destruct (IH (drop 76 l)) as (first & rest & E1 & E2). exists (take 76 l), (first :: rest).
  cbn [fmap list_fmap List.concat]. rewrite <-E2, take_drop, <-!app_assoc, E1. split; [|done].
  cbn [app]. by rewrite <-!app_assoc.
Qed.

Lemma no_blank_cr l : (∀ c, c ∈ l → blank c = false) → no_crlf l.
Proof.
  intros Hl. apply no_cr. intros x Hx Hb. specialize (Hl x Hx). unfold blank in Hl.
  by rewrite (proj2 (is_char_true 13 x) Hb), !orb_true_r in Hl.
Qed.

Lemma unspaced_lines rest : (∀ c, c ∈ List.concat rest → blank c = false) →
  unspaced (List.concat ((λ k, SP :: k ++ crlf) <$> rest)) = List.concat rest.
Proof.
  induction rest as [|k rest IH]; intros Hr; [done|]. cbn [fmap list_fmap List.concat app].
  change (SP :: (k ++ crlf) ++ ?m) with ([SP] ++ (k ++ crlf) ++ m). rewrite !unspaced_app, IH, (unspaced_id k).
  - change (unspaced [SP]) with (@nil ascii). change (unspaced crlf) with (@nil ascii). by rewrite app_nil_r.
  - intros c Hc. apply Hr. cbn [List.concat]. rewrite elem_of_app. by left.
  - intros c Hc. apply Hr. cbn [List.concat]. rewrite elem_of_app. by right.
Qed.

Lemma plain_text s : forallb (λ c, negb (byte_val c =? 13)) (str_list s) = true → ∀ x, x ∈ str_list s → byte_val x ≠ 13.
Proof.
  intros Hs x Hx. rewrite forallb_forall in Hs. apply list_elem_of_In, Hs in Hx. by apply negb_true_iff, Z.eqb_neq in Hx.
Qed.

Lemma autocrypt_lines sender first rest : (∀ c, c ∈ str_list sender → blank c = false) →
  (∀ c, c ∈ first ++ List.concat rest → blank c = false) →
  good_field (autocryptPrefix sender ++ first ++ crlf ++ List.concat ((λ k, SP :: k ++ crlf) <$> rest)).
Proof.
  intros Hs Hr. exists ((autocryptPrefix sender ++ first ++ crlf) :: ((λ k, SP :: k ++ crlf) <$> rest)).
  unfold autocryptPrefix. rewrite !str_list_app. cbn [List.concat]. rewrite <-!app_assoc. split; [done|]. split; [split|].
  - split; [done|]. exists 8%nat. reflexivity.
  - apply Forall_fmap, Forall_forall. intros k _. done.
  - constructor.
    + eexists (str_list "Autocrypt: addr=" ++ str_list sender ++ str_list "; keydata=" ++ first).
      rewrite <-!app_assoc. split; [done|]. apply no_cr. intros x Hx Hb.
      assert (Hn : ∀ l : bytes, (∀ c, c ∈ l → blank c = false) → x ∉ l).
      { intros l Hl Hin. specialize (Hl x Hin). unfold blank in Hl. by rewrite (proj2 (is_char_true 13 x) Hb), !orb_true_r in Hl. }
      rewrite !elem_of_app in Hx. destruct Hx as [Hx|[Hx|[Hx|Hx]]].
      * by apply (plain_text "Autocrypt: addr=" eq_refl x).
      * by apply (Hn (str_list sender)).
      * by apply (plain_text "; keydata=" eq_refl x).
      * apply (Hn first); [|done]. intros c Hc. apply Hr. rewrite elem_of_app. by left.
    + apply Forall_fmap, Forall_forall. intros k Hk. exists (SP :: k). split; [done|]. apply no_cr.
      intros x [-> |Hx]%elem_of_cons Hb; [done|]. specialize (Hr x). unfold blank in Hr.
      rewrite (proj2 (is_char_true 13 x) Hb), !orb_true_r in Hr. discriminate Hr. rewrite elem_of_app. right.
      rewrite list_elem_of_In, in_concat. exists k. split; by apply list_elem_of_In.
Qed.

Lemma readAutocrypt_lines sender key first rest :
  (∀ c, c ∈ str_list sender → blank c = false ∧ byte_val c ≠ 59) → std_encode key = first ++ List.concat rest →
  readAutocrypt (autocryptPrefix sender ++ first ++ crlf ++ List.concat ((λ k, SP :: k ++ crlf) <$> rest)) = Some (str_list sender, key).
Proof.
  intros Hs He. assert (Hk : ∀ c, c ∈ first ++ List.concat rest → blank c = false) by (rewrite <-He; intros c Hc; by eapply encoded_chars).
  assert (Hsq : unspaced (first ++ crlf ++ List.concat ((λ k, SP :: k ++ crlf) <$> rest)) = std_encode key).
  { rewrite !unspaced_app, unspaced_lines, He, (unspaced_id first); [done| |]; intros c Hc; apply Hk; rewrite elem_of_app; auto. }
  unfold readAutocrypt, autocryptPrefix. rewrite !str_list_app, <-!app_assoc. unfold cut_byte at 1.
  set (tl := str_list sender ++ _).
  change (index_byte 58 (str_list "Autocrypt: addr=" ++ tl)) with (Some 9%nat). cbv beta iota.
  change (take 9 (str_list "Autocrypt: addr=" ++ tl)) with (str_list "Autocrypt").
  change (drop 10 (str_list "Autocrypt: addr=" ++ tl)) with (str_list " addr=" ++ tl). subst tl.
  rewrite unspaced_app, (unspaced_app (str_list sender)), (unspaced_app (str_list "; keydata=")), Hsq, (unspaced_id (str_list sender))
    by (intros c Hc; by apply Hs).
  change (unspaced (str_list " addr=")) with (str_list "addr="). change (unspaced (str_list "; keydata=")) with (chr 59 :: str_list "keydata=").
  rewrite app_assoc. cbn [app]. unfold cut_byte. rewrite index_byte_app; [|done|].
  2: { intros c Hc. apply elem_of_app in Hc as [Hc|Hc]; [|by apply Hs].
       repeat apply elem_of_cons in Hc as [-> |Hc]; [done..|by apply elem_of_nil in Hc]. }
  rewrite take_app_length, (cons_middle (chr 59)), (app_assoc _ [chr 59]), drop_app_length'
    by (rewrite (length_app _ [chr 59]); cbn [length]; lia).
  cbv beta iota.
  rewrite bool_decide_eq_true_2 by done. cbn [andb]. change (is_prefix (str_list "addr=") (str_list "addr=" ++ str_list sender)) with true.
  change (drop 5 (str_list "addr=" ++ str_list sender)) with (str_list sender).
  change (drop 8 (str_list "keydata=" ++ std_encode key)) with (std_encode key). by rewrite std_roundtrip.
Qed.

(** The Autocrypt field of an identity is one well-formed header field of at
    most 10 KiB, whatever the size of its key, from which a reader that ignores white
    space gets back the sender and exactly the bytes of the key. *)
Theorem autocrypt_roundtrip now identity field :
  (∀ c, c ∈ str_list (piSender identity) → blank c = false ∧ byte_val c ≠ 59) →
  autocryptField now identity = Ok field →
  good_field field ∧ Z.of_nat (length field) ≤ maxAutocryptFieldBytes ∧
  readAutocrypt field = Some (str_list (piSender identity), str_list (piKey identity)).
Proof.
  intros Hs. unfold autocryptField. destruct (ReadKeyRing _) as [[|e [|]]|]; try done.
  destruct (EncryptionKey e now); [|done]. set (encoded := std_encode _).
  destruct (Z.ltb_spec maxAutocryptFieldBytes (Z.of_nat (length (autocryptPrefix (piSender identity) ++ foldLines (length encoded) encoded ++ crlf))))
    as [|Hlen]; [done|]. intros [= <-]. assert (Henc : ∀ c, c ∈ encoded → blank c = false) by (intros c Hc; by eapply encoded_chars).
  destruct (foldLines_lines (length encoded) encoded) as (first & rest & E1 & E2). rewrite E1 in *. rewrite E2 in Henc. split_and!; [|done|].
  { apply autocrypt_lines; [|done]. intros c Hc. by apply Hs. }
  by apply readAutocrypt_lines.
Qed.

End keys.

(** ** A key library for examples: a key is the text of its identity *)

Definition sampleUser (text : string) : pgpUser :=
  mkPgpUser text (Some (Ok text)) (Some (Ok "self")) (λ _, false) (λ _, false) (Ok tt) [].

#[local] Instance sampleLib : PgpLib string := {
  ReadArmoredKeyRing _ := Err (Message "no armor");
  ReadKeyRing s := Ok [s];
  enPrivate _ := None;
  enSubkeys _ := [];
  enUsers s := [sampleUser s];
  enFingerprint s := s;
  enPrimary s := Ok s;
  enRevocations _ := [];
  enSelf _ := None;
  EncryptionKey s _ := Some (mkEncryptionKey s PubKeyAlgoRSA true (Ok 3072));
  SigningKey _ _ := Some true;
  DecryptPrivateKeys s _ := Ok s;
  signsEmpty _ := Ok tt;
  encryptArmored s _ m := Ok (str_list "armored" ++ [LF])
}.

Definition samplePublic : PublicIdentity :=
  mkPublicIdentity "alice@example.org" "FP" (of_list (replicate 200 (chr 77))).

Lemma autocrypt_roundtrip_witness :
  is_ok (autocryptField (Entity := string) 0 samplePublic) = true ∧
  match autocryptField (Entity := string) 0 samplePublic with
  | Ok field => good_field field ∧ readAutocrypt field = Some (str_list "alice@example.org", replicate 200 (chr 77))
  | Err _ => False
  end.
Proof.
  assert (Hok : is_ok (autocryptField (Entity := string) 0 samplePublic) = true) by (vm_compute; reflexivity). split; [exact Hok|].
  destruct (autocryptField (Entity := string) 0 samplePublic) as [field|e] eqn:Ef; [|discriminate Hok].
  destruct (autocrypt_roundtrip (Entity := string) 0 samplePublic field) as (Hg & _ & Hr); [|exact Ef|split; [exact Hg|exact Hr]].
  intros c Hc. repeat apply elem_of_cons in Hc as [-> |Hc]; [split; [reflexivity|discriminate]..|by apply elem_of_nil in Hc].
Defined.
