(* ===== verification/Wkd.v ===== *)
(** * Key discovery (src/internal/openpgp: wkd.go, wkd_key.go, wkd_cache.go)

    A recipient that must be encrypted to and has no local key is looked up in the
    web key directory of its domain, and what was found is cached for a day.
    Parameters: the packet reader and the key library, the resolver, the dialer and
    the HTTP client, which dials through [dialContext].

    [keys_name_recipient]: whatever a server or a cache file holds, a key is used for an
    address only if one of its active, verified identities names that address.
    [lookup_pinned]: a lookup only connects to the addresses that were resolved once
    and checked against the address policy. *)

From S2P Require Import Prelude Errors GoLib Sha256 Capacity Utf8 Mailbox Text Base64 Password Paths SecretFiles Duration Users.
From S2P Require Import Netpolicy Discovery IpText Config ConfigFacts DnsRecords PgpMime PgpKeys WkdHash.
Open Scope Z_scope.

Definition wkdMaxIPs : nat := 8.
Definition wkdMaxKeyBytes : Z := Z.shiftl 1 20.
Definition wkdCacheLifetime : Z := 24 * 3600 * 1000000000.
Definition wkdMaxPackets : nat := 256.
Definition wkdSignaturePacket : Z := 2.
Definition wkdPublicKeyPacket : Z := 6.
Definition wkdUserIDPacket : Z := 13.
Definition wkdPublicSubkeyPacket : Z := 14.
Definition wkdUserAttributePacket : Z := 17.
Definition wkdEmbeddedSignature : Z := 32.

(** ** Requests *)

(** [url.QueryEscape]. *)
Definition upperHex (z : Z) : ascii := upper_char (hex_digit z).
Definition QueryEscape (s : string) : string :=
  of_list (List.concat ((λ c,
    if is_alnum c || is_char 45 c || is_char 95 c || is_char 46 c || is_char 126 c then [c]
    else if is_char 32 c then [chr 43]
    else [chr 37; upperHex (byte_val c / 16); upperHex (byte_val c mod 16)]) <$> str_list s)).

(** [net.JoinHostPort]. *)
Definition JoinHostPort (host port : string) : string :=
  if contains_byte 58 host then "[" +:+ host +:+ "]:" +:+ port else host +:+ ":" +:+ port.

(** ** Lookup (wkd.go) *)

Record endpoint := mkEndpoint { epHost : string; epPath : string; epQuery : string }.

(** An HTTP response: status, declared length and body. *)
Record response := mkResponse { StatusCode : Z; ContentLength : Z; rsBody : res string }.

Section lookup.
Variable ToASCII : string → res string.
Variable lookupIP : string → res (list IP).
Context {Conn : Type}.
Variable dial : string → res Conn.
(** [httpClient.Do] with the transport's [DialContext]. *)
Variable Do : (string → res Conn) → endpoint → res response.
(** [ctx.Err() != nil] after the attempt for an address. *)
Variable expired : IP → bool.

(** The loop of [DialContext]; [dialError] is the last error. *)
Fixpoint dialPinned (ips : list IP) (dialError : error) : res Conn :=
  match ips with
  | [] => Err dialError
  | ip :: ips =>
      match dial (JoinHostPort (ip_string ip) "443") with
      | Ok connection => Ok connection
      | Err e => if expired ip then Err e else dialPinned ips e
      end
  end.

Definition dialContext (e : endpoint) (ips : list IP) (address : string) : res Conn :=
  reject negb (bool_decide (address = JoinHostPort (epHost e) "443")) with Message "unexpected WKD dial target" in
  dialPinned ips (Message "no addresses").

Definition fetch (e : endpoint) (ips : list IP) : res string :=
  match Do (dialContext e ips) e with
  | Err err => Err (Wrap "fetch WKD key" err)
  | Ok r =>
      reject negb (StatusCode r =? 200) with Message "WKD returned an HTTP status" in
      reject wkdMaxKeyBytes <? ContentLength r with Message "WKD key exceeds size limit" in
      match rsBody r with
      | Err err => Err (Wrap "read WKD key" err)
      | Ok body =>
          let keyData := str_take (Z.to_nat (wkdMaxKeyBytes + 1)) body in
          reject wkdMaxKeyBytes <? str_len keyData with Message "WKD key exceeds size limit" in
          Ok keyData
      end
  end.

(** The host of the method used, its path and its addresses. *)
Definition resolveWKD (domain : string) : res (string * string * list IP) :=
  let host := "openpgpkey." +:+ domain in
  match lookupIP (host +:+ ".") with
  | Ok ips => Ok (host, "/.well-known/openpgpkey/" +:+ domain +:+ "/hu/", ips)
  | Err err =>
      reject negb (dns_not_found err) with Wrap "resolve advanced WKD host" err in
      match lookupIP (domain +:+ ".") with
      | Ok ips => Ok (domain, "/.well-known/openpgpkey/hu/", ips)
      | Err err => Err (Wrap "resolve direct WKD host" err)
      end
  end.

Definition lookup (recipient : string) : res string :=
  let? (local, domain) := splitSender ToASCII recipient in
  let? (host, path, ips) := resolveWKD domain in
  reject bool_decide (ips = []) with Message "WKD host has no addresses" in
  reject existsb Restricted ips with Message "WKD host resolves to restricted destination" in
  fetch (mkEndpoint host (path +:+ wkdHash (wkdLocalPart local)) ("l=" +:+ QueryEscape local)) (take wkdMaxIPs ips).
End lookup.

(** ** Where a lookup connects *)

Section pinned.
Context (ToASCII : string → res string) (lookupIP : string → res (list IP)) {Conn : Type} (dial : string → res Conn)
  (expired : IP → bool).

Lemma dialPinned_from ips : ∀ e c, dialPinned dial expired ips e = Ok c →
  ∃ ip, ip ∈ ips ∧ dial (JoinHostPort (ip_string ip) "443") = Ok c.
Proof.
  induction ips as [|ip ips IH]; intros e c Hd; cbn [dialPinned] in Hd; [done|].
  destruct (dial _) as [c'|e'] eqn:Ed; [injection Hd as ->; exists ip; split; [left|done]|].
  destruct (expired ip); [done|]. destruct (IH _ _ Hd) as (ip' & Hin & He). exists ip'. split; [by right|done].
Qed.

Lemma fetch_bound Do e ips key : fetch dial Do expired e ips = Ok key → str_len key ≤ wkdMaxKeyBytes.
Proof.
  unfold fetch. destruct (Do _ _) as [r|]; [|done]. destruct (negb _); [done|]. destruct (_ <? ContentLength r); [done|].
  destruct (rsBody r) as [body|]; [|done]. cbn zeta.
  destruct (Z.ltb_spec wkdMaxKeyBytes (str_len (str_take (Z.to_nat (wkdMaxKeyBytes + 1)) body))); [done|].
  by intros [= <-].
Qed.

(** The method: the advanced host, or the domain itself when that host does not exist. *)
Definition wkdMethod (domain host path : string) : Prop :=
  host = "openpgpkey." +:+ domain ∧ path = "/.well-known/openpgpkey/" +:+ domain +:+ "/hu/" ∨
  host = domain ∧ path = "/.well-known/openpgpkey/hu/" ∧
    ∃ e, lookupIP ("openpgpkey." +:+ domain +:+ ".") = Err e ∧ dns_not_found e = true.

Lemma resolveWKD_method domain host path ips : resolveWKD lookupIP domain = Ok (host, path, ips) →
  wkdMethod domain host path ∧ lookupIP (host +:+ ".") = Ok ips.
Proof.
  unfold resolveWKD, wkdMethod. destruct (lookupIP (("openpgpkey." +:+ domain) +:+ ".")) as [found|e] eqn:Ea.
  { intros [= <- <- <-]. auto. }
  destruct (dns_not_found e) eqn:En; [|done]. cbn [negb]. destruct (lookupIP (domain +:+ ".")) as [found|] eqn:Eb; [|done].
  intros [= <- <- <-]. split; [|done]. right. split_and!; [done|done|]. by exists e.
Qed.

(** C21: key discovery cannot be turned against the server's own network.  A lookup either
    fails before the HTTP client is called, or calls it with one https endpoint, of the
    recipient's own domain, and a dialer that only ever connects to port 443 of at most
    eight addresses, all of them resolved for that host beforehand and none of them
    restricted; a dial for any other host, as a redirect or a proxy would need, is
    refused, and the key is at most a mebibyte. *)
Theorem lookup_pinned recipient :
  (∃ e, ∀ Do, lookup ToASCII lookupIP dial Do expired recipient = Err e) ∨
  ∃ local domain host path ips,
    splitSender ToASCII recipient = Ok (local, domain) ∧ wkdMethod domain host path ∧ (length ips ≤ wkdMaxIPs)%nat ∧
    let e := mkEndpoint host (path +:+ wkdHash (wkdLocalPart local)) ("l=" +:+ QueryEscape local) in
    (∀ Do, lookup ToASCII lookupIP dial Do expired recipient = fetch dial Do expired e ips) ∧
    (∀ Do key, lookup ToASCII lookupIP dial Do expired recipient = Ok key → str_len key ≤ wkdMaxKeyBytes) ∧
    ∀ address c, dialContext dial expired e ips address = Ok c →
      address = JoinHostPort host "443" ∧
      ∃ ip found, lookupIP (host +:+ ".") = Ok found ∧ ip ∈ found ∧ Restricted ip = false ∧
        dial (JoinHostPort (ip_string ip) "443") = Ok c.
Proof.
  unfold lookup. destruct (splitSender ToASCII recipient) as [[local domain]|e]; [|left; by exists e]. cbn [res_bind].
  destruct (resolveWKD lookupIP domain) as [[[host path] found]|e] eqn:Er; [|left; by exists e]. cbn [res_bind].
  destruct (bool_decide (found = [])); [left; eauto|]. destruct (existsb Restricted found) eqn:Ex; [left; eauto|].
  destruct (resolveWKD_method _ _ _ _ Er) as [Hm Hf]. right. exists local, domain, host, path, (take wkdMaxIPs found).
  split_and!; [done|done|apply firstn_le_length|done| |].
  { intros Do key. by apply fetch_bound. }
  intros address c. unfold dialContext. cbn [epHost].
  destruct (bool_decide_reflect (address = JoinHostPort host "443")) as [-> |]; [|done]. cbn [negb].
  intros (ip & Hin & Hd)%dialPinned_from. split; [done|]. exists ip, found. apply elem_of_take in Hin as (i & Hi & _).
  apply list_elem_of_lookup_2 in Hi. split_and!; [done|done| |done].
  destruct (Restricted ip) eqn:E; [|done]. rewrite <-not_true_iff_false, existsb_exists in Ex. destruct Ex.
  exists ip. split; [by apply list_elem_of_In|done].
Qed.
End pinned.

(** ** Keys (wkd_key.go) *)

(** The packet level of the library. *)
Class PacketLib := {
  (** [OpaqueReader.Next]: tag, contents and what follows. *)
  Next : bytes → res (Z * bytes * bytes);
  Parse : Z → bytes → res unit;
  OpaqueSubpackets : bytes → res (list (Z * bytes))
}.

Section packets.
Context `{PacketLib}.

Definition bigEndian (l : bytes) : Z := fold_left (λ n c, n * 256 + byte_val c) l 0.

(** The loop over subpackets. *)
Fixpoint checkSubpackets (nested : bytes → res unit) (subpackets : list (Z * bytes)) : res unit :=
  match subpackets with
  | [] => Ok tt
  | (subType, contents) :: subpackets =>
      if negb (Z.land subType 127 =? wkdEmbeddedSignature) then checkSubpackets nested subpackets
      else let? _ := nested contents in checkSubpackets nested subpackets
  end.

(** The two areas of subpackets. *)
Fixpoint checkAreas (areas lengthBytes : nat) (nested : bytes → res unit) (body : bytes) : res unit :=
  match areas with
  | O => Ok tt
  | S areas =>
      reject (length body <? lengthBytes)%nat with Message "truncated WKD signature length" in
      let len := bigEndian (take lengthBytes body) in
      let body := drop lengthBytes body in
      reject Z.of_nat (length body) <? len with Message "WKD signature subpackets exceed packet size" in
      match OpaqueSubpackets (take (Z.to_nat len) body) with
      | Err e => Err (Wrap "read WKD signature subpackets" e)
      | Ok subpackets =>
          let? _ := checkSubpackets nested subpackets in
          checkAreas areas lengthBytes nested (drop (Z.to_nat len) body)
      end
  end.

Definition signatureBody (nested : bytes → res unit) (body : bytes) : res unit :=
  match body with
  | v :: _ :: _ :: _ :: rest =>
      reject (byte_val v <? 4) || (6 <? byte_val v) with Message "invalid WKD signature header" in
      checkAreas 2 (if byte_val v =? 6 then 4%nat else 2%nat) nested rest
  | _ => Err (Message "invalid WKD signature header")
  end.

(** [embedded] cuts the recursion. *)
Definition validateWKDSignature (body : bytes) (embedded : bool) : res unit :=
  let inner := signatureBody (λ _, Err (Message "WKD signature nesting exceeds limit")) in
  if embedded then inner body else signatureBody inner body.

(** The loop over packets: how many primary keys. *)
Fixpoint wkdPackets (room : nat) (primaryKeys : Z) (body : bytes) : res Z :=
  match body with
  | [] => Ok primaryKeys
  | _ =>
      match Next body with
      | Err e => Err (Wrap "read WKD packet" e)
      | Ok (tag, contents, rest) =>
          match room with
          | O => Err (Message "WKD key exceeds packet limit")
          | S room =>
              let? primaryKeys :=
                (if tag =? wkdPublicKeyPacket then Ok (primaryKeys + 1)
                 else if tag =? wkdSignaturePacket then let? _ := validateWKDSignature contents false in Ok primaryKeys
                 else if bool_decide (tag ∈ [wkdPublicSubkeyPacket; wkdUserIDPacket; wkdUserAttributePacket]) then Ok primaryKeys
                 else Err (Message "WKD response contains a non-public-key packet")) in
              match Parse tag contents with
              | Err e => Err (Wrap "parse WKD packet" e)
              | Ok _ => wkdPackets room primaryKeys rest
              end
          end
      end
  end.
End packets.

Section recipient.
Context {Entity : Type} `{PgpLib Entity} `{CaseTables} `{AddressParser} `{PacketLib}.
Variable ToASCII : string → res string.

Definition parseWKDRecipient (now : Z) (keyData recipient : string) : res Entity :=
  reject (str_len keyData =? 0) || (wkdMaxKeyBytes <? str_len keyData) with Message "invalid WKD key size" in
  let? primaryKeys := wkdPackets wkdMaxPackets 0 (str_list keyData) in
  reject negb (primaryKeys =? 1) with Message "WKD response must contain exactly one public entity" in
  let? (entity, addresses) := parseRecipientEntity ToASCII now keyData in
  reject negb (bool_decide (recipient ∈ addresses))
    with Message "WKD key has no active self-signed identity for the exact recipient" in
  Ok entity.

(** ** The cache (wkd_cache.go) *)

Record wkdCacheEntry := mkCacheEntry { ceRecipient : string; ceFetchedAt : Z; ceKey : string }.

(** [encoding/json] on the entry. *)
Variable marshal : wkdCacheEntry → res string.
Variable unmarshal : string → res wkdCacheEntry.

Section cache.
Variable cwd : string.
Variable cfg : Config.
Variable lstatFault : string → option error.

(** The loop from the cache directory up to the data directory. *)
Fixpoint checkPrivate (fuel : nat) (files : tree) (current : string) : res unit :=
  match fuel with
  | O => Err (Message "cache directory is not beneath the data directory")
  | S fuel =>
      let data := ResolvedDataDir cwd (cBaseDir cfg) (sDataDirectory (cServer cfg)) in
      reject negb (eqb (filepath_IsAbs data) (filepath_IsAbs current)) with Message "cannot make path relative" in
      let? _ := match ValidatePrivateDirectory files current with
                | Err e => if errors_Is e ErrNotExist then Ok tt else Err e
                | Ok _ => Ok tt
                end in
      if bool_decide (filepath_Rel (filepath_Clean data) current = ".") then Ok tt
      else checkPrivate fuel files (filepath_Dir current)
  end.

Definition wkdCachePath (files : tree) (recipient : string) : res string :=
  let configured := if bool_decide (pWKDCacheDirectory (cOpenPGP cfg) = "") then "openpgp/cache" else pWKDCacheDirectory (cOpenPGP cfg) in
  let? directory := ResolveGeneratedPath cwd (cBaseDir cfg) (sDataDirectory (cServer cfg)) configured in
  let path := filepath_Join directory (EncodeToString (Sum256 recipient) +:+ ".json") in
  let? _ := ValidatePath files lstatFault cwd path in
  let? _ := checkPrivate (S (String.length directory)) files directory in
  match Lstat files lstatFault path with
  | Err e => if errors_Is e ErrNotExist then Ok path else Err e
  | Ok (Regular _ _) => let? _ := CheckFile files path true in Ok path
  | Ok _ => Err (Message "WKD cache entry must be a regular file")
  end.

Definition readWKDCache (now : Z) (files : tree) (path recipient : string) : res (option Entity) :=
  match ReadCheckedFile files path true false (2 * wkdMaxKeyBytes) with
  | Err e => if errors_Is e ErrNotExist then Ok None else Err e
  | Ok body =>
      let? entry := unmarshal body in
      reject negb (bool_decide (ceRecipient entry = recipient)) with Message "WKD cache recipient mismatch" in
      let age := now - ceFetchedAt entry in
      if (age <? 0) || (wkdCacheLifetime <=? age) then Ok None
      else
        match parseWKDRecipient now (ceKey entry) recipient with
        | Err _ => Ok None
        | Ok entity => Ok (Some entity)
        end
  end.

(** *** Writing it *)

(** What happens around one recipient: which calls of [disk.MkdirDurable] fail;
    whether [disk.Write] does, and after its rename; the context after the lookup; and
    the times of the steps. *)
Record wkdWorld := mkWkdWorld {
  mkdirFault : string → option error; syncFault : string → option error; writeFault : option (error * bool);
  cancelled : option error; readAt : Z; parsedAt : Z; fetchedAt : Z
}.
Variable w : wkdWorld.

(** The missing components, outermost first. *)
Fixpoint missingDirs (fuel : nat) (files : tree) (current : string) (missing : list string) : res (list string) :=
  match fuel with
  | O => Err ENOENT
  | S fuel =>
      match follow maxLinks files current with
      | Ok (Directory _) => Ok missing
      | Ok _ => Err (Errno 17)
      | Err e =>
          reject negb (errors_Is e ErrNotExist) with e in
          let parent := filepath_Dir current in
          reject bool_decide (parent = current) with e in
          missingDirs fuel files parent (current :: missing)
      end
  end.

Definition fault (f : option error) : res unit := match f with Some e => Err e | None => Ok tt end.

(** A component that exists after all is a link to nothing. *)
Fixpoint createDirs (files : tree) (missing : list string) : res unit * tree :=
  match missing with
  | [] => (Ok tt, files)
  | path :: missing =>
      match mkdirFault w path, files !! path with
      | Some e, _ => (Err e, files)
      | None, Some _ => (Err ENOENT, files)
      | None, None =>
          match syncFault w (filepath_Dir path) with
          | Some e => (Err e, files)
          | None => createDirs (<[path := Directory 448]> files) missing
          end
      end
  end.

(** The ancestors synced when nothing is missing. *)
Fixpoint syncParents (fuel : nat) (current : string) : res unit :=
  match fuel with
  | O => Ok tt
  | S fuel =>
      let parent := filepath_Dir current in
      if bool_decide (parent = current) then Ok tt
      else let? _ := fault (syncFault w parent) in syncParents fuel parent
  end.

Definition mkdirDurable (files : tree) (path : string) : res unit * tree :=
  let abs := filepath_Abs cwd path in
  match missingDirs (S (String.length abs)) files abs [] with
  | Err e => (Err e, files)
  | Ok [] => (syncParents (S (String.length abs)) abs, files)
  | Ok missing => createDirs files missing
  end.

(** [disk.Write] with mode 0600. *)
Definition writeCache (files : tree) (path body : string) : res unit * tree :=
  let written := <[path := Regular 384 body]> files in
  match writeFault w with
  | None => (Ok tt, written)
  | Some (e, renamed) => (Err e, if renamed : bool then written else files)
  end.

Variable lookup : string → res string.

Definition storeWKD (files : tree) (path recipient keyData : string) : res unit * tree :=
  match (let? _ := fault (cancelled w) in
         let? body := marshal (mkCacheEntry recipient (fetchedAt w) keyData) in
         let? _ := wkdCachePath files recipient in Ok body) with
  | Err e => (Err e, files)
  | Ok body =>
      match mkdirDurable files (filepath_Dir path) with
      | (Err e, files) => (Err (Wrap "create WKD cache" e), files)
      | (Ok _, files) =>
          match wkdCachePath files recipient with
          | Err e => (Err e, files)
          | Ok _ => writeCache files path body
          end
      end
  end.

Definition loadWKDRecipient (files : tree) (recipient : string) : res Entity * tree :=
  match wkdCachePath files recipient with
  | Err e => (Err (Wrap "validate WKD cache" e), files)
  | Ok path =>
      match readWKDCache (readAt w) files path recipient with
      | Err e => (Err (Wrap "read WKD cache" e), files)
      | Ok (Some entity) => (Ok entity, files)
      | Ok None =>
          match (let? keyData := lookup recipient in
                 match parseWKDRecipient (parsedAt w) keyData recipient with
                 | Err e => Err (Wrap "validate WKD key" e)
                 | Ok entity => Ok (keyData, entity)
                 end) with
          | Err e => (Err e, files)
          | Ok (keyData, entity) =>
              match storeWKD files path recipient keyData with
              | (Err e, files) => (Err e, files)
              | (Ok _, files) => (Ok entity, files)
              end
          end
      end
  end.
End cache.

(** ** What is used for a recipient *)

Lemma parseWKDRecipient_usable now keyData recipient entity : parseWKDRecipient now keyData recipient = Ok entity →
  usableFor ToASCII now entity recipient ∧ 0 < str_len keyData ≤ wkdMaxKeyBytes.
Proof.
  unfold parseWKDRecipient. destruct (_ || _) eqn:El; [done|]. apply orb_false_iff in El as [Hz%Z.eqb_neq Hm%Z.ltb_ge].
  destruct (wkdPackets _ _ _) as [n|]; [|done]. cbn [res_bind]. destruct (negb (n =? 1)); [done|].
  destruct (parseRecipientEntity _ _ _) as [[e addresses]|] eqn:Ep; [|done]. cbn [res_bind].
  destruct (bool_decide_reflect (recipient ∈ addresses)) as [Hin|]; [|done]. intros [= <-].
  split; [by eapply parseRecipientEntity_usable|]. unfold str_len in *. lia.
Qed.

Lemma loadWKDRecipient_usable cwd cfg lstatFault w lookup files recipient entity files' :
  loadWKDRecipient cwd cfg lstatFault w lookup files recipient = (Ok entity, files') →
  ∃ now, usableFor ToASCII now entity recipient.
Proof.
  unfold loadWKDRecipient. destruct (wkdCachePath _ _ _ _ _) as [path|]; [|done].
  destruct (readWKDCache _ _ _ _) as [[e|]|] eqn:Er; [| |done].
  - intros [= -> <-]. unfold readWKDCache in Er. destruct (ReadCheckedFile _ _ _ _ _) as [body|err]; [|by destruct (errors_Is err _)].
    destruct (unmarshal body) as [entry|]; [|done]. cbn [res_bind] in Er. destruct (negb _) in Er; [done|]. destruct (_ || _) in Er; [done|].
    destruct (parseWKDRecipient _ _ _) as [e|] eqn:Ep; [|done]. injection Er as ->.
    eexists. by eapply parseWKDRecipient_usable.
  - destruct (lookup recipient) as [keyData|]; [|done]. cbn [res_bind].
    destruct (parseWKDRecipient _ _ _) as [e|] eqn:Ep; [|done]. destruct (storeWKD _ _ _ _ _ _ _ _) as [[]]; [|done].
    intros [= -> <-]. eexists. by eapply parseWKDRecipient_usable.
Qed.

Section required.
Context (cwd : string) (cfg : Config) (lstatFault : string → option error).
Variable lookup : string → res string.
Variable worlds : string → wkdWorld.

(** [LoadRecipients]. *)
Definition LoadRecipients (files : tree) (clock : string → Z) : res Recipients * tree :=
  loadRecipients ToASCII cwd cfg files lstatFault clock
    (λ files recipient, loadWKDRecipient cwd cfg lstatFault (worlds recipient) lookup files recipient).

Lemma discoverKeys_usable addresses : ∀ cache keys keys' cache',
  discoverKeys ToASCII cfg (λ files recipient, loadWKDRecipient cwd cfg lstatFault (worlds recipient) lookup files recipient)
    cache addresses keys = (Ok keys', cache') →
  (keysUsable ToASCII keys → keysUsable ToASCII keys') ∧ keys ⊆ keys' ∧
  ∀ a c, a ∈ addresses → CanonicalAddress ToASCII a = Ok c → is_Some (keys' !! c).
Proof.
  induction addresses as [|b addresses IH]; intros cache keys keys' cache' He; cbn [discoverKeys] in He.
  { injection He as <- <-. split_and!; [done|done|]. intros a c Ha. by apply elem_of_nil in Ha. }
  set (address := match CanonicalAddress ToASCII b with Ok a => a | Err _ => "" end) in *.
  destruct (keys !! address) as [e|] eqn:Ek.
  - destruct (IH _ _ _ _ He) as (Hu & Hsub & Hall). split_and!; [done|done|].
    intros a c [-> |Ha]%elem_of_cons Hc; [|by eapply Hall]. subst address. rewrite Hc in Ek.
    exists e. by eapply lookup_weaken.
  - destruct (pUseWKD (cOpenPGP cfg)); [|done]. cbn [negb] in He.
    destruct (loadWKDRecipient _ _ _ _ _ _ _) as [[e|] cache1] eqn:El; [|done].
    destruct (IH _ _ _ _ He) as (Hu & Hsub & Hall). split_and!.
    + intros Hk. apply Hu. intros a x Hx. apply lookup_insert_Some in Hx as [[<- <-]|[_ Hx]]; [|by apply Hk].
      by eapply loadWKDRecipient_usable.
    + etrans; [|exact Hsub]. by apply insert_subseteq.
    + intros a c [-> |Ha]%elem_of_cons Hc; [|by eapply Hall]. subst address. rewrite Hc in Hsub.
      exists e. eapply lookup_weaken; [|exact Hsub]. by rewrite lookup_insert_eq.
Qed.

Lemma LoadRecipients_keys files clock r files' :
  LoadRecipients files clock = (Ok r, files') →
  (∀ a e, rcKeys r !! a = Some e → ∃ now, usableFor ToASCII now e a) ∧
  ∀ a, a ∈ pRequireEncryptionFor (cOpenPGP cfg) →
    ∃ c, CanonicalAddress ToASCII a = Ok c ∧ c ∈ rcRequired r ∧ is_Some (rcKeys r !! c).
Proof.
  unfold LoadRecipients, loadRecipients. destruct (requiredSet _ _ _) as [required|] eqn:Er; [|done].
  destruct (loadStatic _ _ _ _ _ _ _) as [keys|] eqn:Es; [|done].
  destruct (discoverKeys _ _ _ _ _ _) as [[keys'|] cache] eqn:Ed; [|done]. intros [= <- <-]. cbn [rcKeys rcRequired].
  destruct (discoverKeys_usable _ _ _ _ _ Ed) as (Hu & _ & Hall). split; [by apply Hu, (loadStatic_usable ToASCII cwd cfg files lstatFault clock)|].
  intros a Ha. edestruct requiredSet_spec as [_ Hreq]; [exact Er|]. destruct (Hreq a Ha) as (c & Hc & Hin). eauto.
Qed.

(** Whatever the key directory, the cache and the web key directories hold, after a
    successful start every key is used only for an address that one of its active user
    identities with a verified self-signature names, is free of private material, and has
    an encryption key of a supported algorithm, RSA keys of at least 2048 bits; and every
    address encryption is required for has a key. *)
Theorem keys_name_recipient files clock r files' :
  LoadRecipients files clock = (Ok r, files') →
  (∀ a e, rcKeys r !! a = Some e → ∃ now, usableFor ToASCII now e a) ∧
  ∀ a, a ∈ pRequireEncryptionFor (cOpenPGP cfg) →
    ∃ c, CanonicalAddress ToASCII a = Ok c ∧ c ∈ rcRequired r ∧ is_Some (rcKeys r !! c).
Proof. apply LoadRecipients_keys. Qed.
End required.
End recipient.

(** ** Examples *)

#[local] Existing Instances sampleLib plainParser.

#[local] Instance samplePackets : PacketLib := {
  Next body := Ok (wkdPublicKeyPacket, body, []);
  Parse _ _ := Ok tt;
  OpaqueSubpackets _ := Ok []
}.

(** Encryption is required for two recipients: one has a key file, the other's key is
    found by discovery. *)
Definition sampleCfg : Config :=
  mkConfig "" "/srv" ∅ "" (cServer sampleWritten) (cReplyRejection sampleWritten) (cTLS sampleWritten) [] (mkOpenPGP [] "keys"
    ["you@example.org"; "other@Example.net"] true "") (cDelivery sampleWritten) (cDNS sampleWritten) [].

Definition sampleData : string := ResolvedDataDir "/" "/srv" (sDataDirectory (cServer sampleCfg)).

Definition sampleKeyTree : tree :=
  <["/" := Directory 493]> (<["/srv" := Directory 493]> (<[sampleData := Directory 448]>
  (<[filepath_Join sampleData "keys" := Directory 448]>
  (<[filepath_Join sampleData "keys/you.asc" := Regular 384 "you@example.org"]> ∅)))).

Definition sampleMarshal (e : wkdCacheEntry) : res string := Ok (ceKey e).
Definition sampleUnmarshal (s : string) : res wkdCacheEntry := Ok (mkCacheEntry s 0 s).
Definition sampleWorld : wkdWorld := mkWkdWorld (λ _, None) (λ _, None) None None 0 0 0.

Definition sampleRecipients : res Recipients * tree :=
  LoadRecipients (Entity := string) sampleIDNA sampleMarshal sampleUnmarshal "/" sampleCfg (λ _, None)
    (λ r, Ok r) (λ _, sampleWorld) sampleKeyTree (λ _, 0).

Lemma keys_name_recipient_witness :
  is_ok sampleRecipients.1 = true ∧
  match sampleRecipients.1 with Ok r => is_Some (rcKeys r !! "other@example.net") | Err _ => False end.
Proof.
  assert (Hok : is_ok sampleRecipients.1 = true) by (vm_compute; reflexivity). split; [exact Hok|].
  destruct sampleRecipients as [[r|e] files'] eqn:E; [|discriminate Hok]. unfold fst.
  destruct (keys_name_recipient sampleIDNA sampleMarshal sampleUnmarshal "/" sampleCfg (λ _, None) (λ r, Ok r) (λ _, sampleWorld)
    sampleKeyTree (λ _, 0) r files' E) as [_ Hreq].
  destruct (Hreq "other@Example.net") as (c & Hc & _ & Hk); [right; left|].
  assert (E' : CanonicalAddress sampleIDNA "other@Example.net" = Ok "other@example.net") by (vm_compute; reflexivity).
  rewrite E' in Hc. injection Hc as <-. exact Hk.
Defined.
