(* ===== verification/Certs.v ===== *)
(** * The serving certificate (src/internal/certs: certs.go, generate.go, validation.go)

    [Keeper] serves the certificate of the submission listeners and reloads it at most
    once a minute.  In mode [self_signed] a missing pair is generated: marker, staged
    key, staged certificate, then two renames; [recoverGeneration] finishes or discards
    what an interrupted generation left.  The file system is the tree of SecretFiles.v;
    every change of it has a [fate]: it is done, it fails with or without its effect, or
    the machine stops before, within or after it.  The x509 and tls libraries are the
    parameter [X509].  The theorems:
    the invariant [safe_slots] on the five files of a self-signed pair, kept by every run
    of [ensureFiles] however it is interrupted; and serving over every interleaving of
    handshakes, the two halves of [get] being separate steps. *)

From S2P Require Import Prelude Errors GoLib Sha256 Capacity Utf8 Mailbox Text Base64 Password Paths SecretFiles Duration Users Netpolicy.
From S2P Require Import Discovery IpText Config WkdHash PgpMime PgpKeys Wkd.
Open Scope Z_scope.

Definition second : Z := 1000000000.
Definition reloadInterval : Z := 60 * second.
Definition maxCertificateBytes : Z := Z.shiftl 4 20.
Definition certPrivateKeyBytes : Z := Z.shiftl 1 20.
Definition generationMarkerText : string := "outboxd self-signed tls generation" +:+ of_list [LF].

Inductive extKeyUsage := ExtKeyUsageAny | ExtKeyUsageServerAuth | ExtKeyUsageOther.

#[export] Instance extKeyUsage_eq_dec : EqDecision extKeyUsage.
Proof. solve_decision. Defined.

(** [x509.Certificate], as far as it is looked at. *)
Record leafCert := mkLeaf {
  lfNotBefore : Z; lfNotAfter : Z; lfDNSNames : list string; lfExtKeyUsage : list extKeyUsage; lfUnknownUsages : nat;
  lfVerifyHostname : string → res unit; lfPKIX : res string
}.

(** A private key: whether it has a public key, whether that can be compared, the
    comparison, and its encoding. *)
Record tlsKey := mkTlsKey { tkPublic : bool; tkEqualer : bool; tkEqual : leafCert → bool; tkPKIX : res string }.

(** [tls.Certificate]. *)
Record tlsCertificate := mkTlsCertificate { tcChain : list string; tcPrivateKey : option tlsKey }.

(** The template of a self-signed certificate. *)
Record certTemplate := mkTemplate {
  tpCommonName : string; tpDNSNames : list string; tpNotBefore : Z; tpNotAfter : Z; tpExtKeyUsage : list extKeyUsage; tpIsCA : bool
}.

Class X509 := {
  X509KeyPair : string → string → res tlsCertificate;
  ParseCertificate : string → res leafCert;
  (** [leaf.Verify] with the intermediates, the roots being fixed. *)
  VerifyLeaf : leafCert → string → list leafCert → Z → res unit;
  (** A new key and its certificate for a template, as PEM. *)
  createPair : certTemplate → res (string * string);
  (** [AddDate(10, 0, 0)]. *)
  tenYears : Z → Z
}.

Section x509.
Context `{X509}.

(** ** Validation (validation.go) *)

Definition matchKey (leaf : leafCert) (key : tlsKey) : res unit :=
  reject negb (tkPublic key) with Message "tls private key type is unsupported" in
  if negb (tkEqualer key) then
    let? want := lfPKIX leaf in
    let? got := tkPKIX key in
    reject negb (bool_decide (want = got)) with Message "tls private key does not match certificate" in
    Ok tt
  else
    reject negb (tkEqual key leaf) with Message "tls private key does not match certificate" in
    Ok tt.

Definition leafHasServerAuth (leaf : leafCert) : res unit :=
  if bool_decide (lfExtKeyUsage leaf = []) && (lfUnknownUsages leaf =? 0)%nat then Ok tt
  else if existsb (λ u, bool_decide (u = ExtKeyUsageServerAuth) || bool_decide (u = ExtKeyUsageAny)) (lfExtKeyUsage leaf) then Ok tt
  else Err (Message "tls certificate lacks serverAuth extended key usage").

Definition validateCertificate (now : Z) (certificate : tlsCertificate) (hostname : string) : res unit :=
  match tcChain certificate with
  | [] => Err (Message "tls certificate chain is empty")
  | raw :: _ =>
      match ParseCertificate raw with
      | Err e => Err (Wrap "parse leaf certificate" e)
      | Ok leaf =>
          let? _ := match tcPrivateKey certificate with Some key => matchKey leaf key | None => Ok tt end in
          reject now <? lfNotBefore leaf with Message "tls certificate not yet valid" in
          reject lfNotAfter leaf <? now with Message "tls certificate expired" in
          let? _ := leafHasServerAuth leaf in
          if bool_decide (hostname = "") then Ok tt
          else
            match lfVerifyHostname leaf hostname with
            | Err e => Err (Wrap "tls certificate does not match hostname" e)
            | Ok _ => Ok tt
            end
      end
  end.

Fixpoint parseIntermediates (raws : list string) : res (list leafCert) :=
  match raws with
  | [] => Ok []
  | raw :: raws =>
      match ParseCertificate raw with
      | Err e => Err (Wrap "parse intermediate certificate" e)
      | Ok c => let? rest := parseIntermediates raws in Ok (c :: rest)
      end
  end.

Definition verifyChain (certificate : option tlsCertificate) (hostname : string) (now : Z) : res unit :=
  match certificate with
  | Some (mkTlsCertificate (raw :: raws) _) =>
      match ParseCertificate raw with
      | Err e => Err (Wrap "parse leaf certificate" e)
      | Ok leaf =>
          let? intermediates := parseIntermediates raws in
          match VerifyLeaf leaf hostname intermediates now with
          | Err e => Err (Wrap "verify tls certificate chain" e)
          | Ok _ => Ok tt
          end
      end
  | _ => Err (Message "tls certificate chain is empty")
  end.

Definition certificateValid (certificate : option tlsCertificate) (now : Z) : bool :=
  match certificate with
  | Some (mkTlsCertificate (raw :: _) _) =>
      match ParseCertificate raw with
      | Ok leaf => negb (now <? lfNotBefore leaf) && (now <? lfNotAfter leaf)
      | Err _ => false
      end
  | _ => false
  end.

(** ** The keeper (certs.go) *)

Record Keeper := mkKeeper {
  kpCertificateFile : string; kpPrivateKeyFile : string; kpMinimumVersion : Z; kpHostname : string; kpMode : string;
  kpCertificate : option tlsCertificate; kpFingerprint : string; kpChecked : Z; kpLastError : option error
}.

Definition setLoaded (k : Keeper) (c : option tlsCertificate) (fp : string) (checked : Z) (e : option error) : Keeper :=
  mkKeeper (kpCertificateFile k) (kpPrivateKeyFile k) (kpMinimumVersion k) (kpHostname k) (kpMode k) c fp checked e.

Definition setLastError (k : Keeper) (e : option error) : Keeper :=
  setLoaded k (kpCertificate k) (kpFingerprint k) (kpChecked k) e.

(** [readPair]: certificate, key and fingerprint. *)
Definition readPair (k : Keeper) (files : tree) : res (string * string * string) :=
  let allowSymlink := bool_decide (kpMode k = "files") in
  match ReadCheckedFile files (kpCertificateFile k) false allowSymlink maxCertificateBytes with
  | Err e => Err (Wrap "tls certificate" e)
  | Ok certPEM =>
      match ReadCheckedFile files (kpPrivateKeyFile k) true allowSymlink certPrivateKeyBytes with
      | Err e => Err (Wrap "tls private key" e)
      | Ok keyPEM => Ok (certPEM, keyPEM, Sum256 (certPEM +:+ of_list [chr 0] +:+ keyPEM))
      end
  end.

Definition parsePair (now : Z) (k : Keeper) (certPEM keyPEM : string) : res tlsCertificate :=
  let? certificate := X509KeyPair certPEM keyPEM in
  let? _ := validateCertificate now certificate (kpHostname k) in
  Ok certificate.

Definition loadPair (now : Z) (k : Keeper) (files : tree) : res (tlsCertificate * string) :=
  let? (certPEM, keyPEM, fingerprint) := readPair k files in
  let? certificate := parsePair now k certPEM keyPEM in
  Ok (certificate, fingerprint).

(** [load] at [now]; [checked] is the time under the lock. *)
Definition loadKeeper (now checked : Z) (k : Keeper) (files : tree) : res tlsCertificate * Keeper :=
  match loadPair now k files with
  | Err e => (Err e, k)
  | Ok (certificate, fingerprint) => (Ok certificate, setLoaded k (Some certificate) fingerprint checked None)
  end.

(** *** A handshake: [get] *)

(** What [get] took under its first lock, when it goes on to read the files. *)
Record reload := mkReload { roCertificate : option tlsCertificate; roFingerprint : string }.

(** Up to the first unlock: [since] is the time the age is taken at, [now] that of what
    follows. *)
Definition getBegin (k : Keeper) (since now : Z) : (res tlsCertificate + reload) * Keeper :=
  if since - kpChecked k <? reloadInterval then
    (inl (match kpCertificate k with
          | Some c =>
              if certificateValid (Some c) now then Ok c
              else Err (default (Message "no currently valid tls certificate loaded") (kpLastError k))
          | None => Err (default (Message "no currently valid tls certificate loaded") (kpLastError k))
          end), k)
  else
    (inr (mkReload (kpCertificate k) (kpFingerprint k)), setLoaded k (kpCertificate k) (kpFingerprint k) now (kpLastError k)).

Definition finishReloadError (k : Keeper) (now : Z) (certificate : option tlsCertificate) (e : error) : res tlsCertificate * Keeper :=
  (match certificate with
   | Some c => if certificateValid certificate now then Ok c else Err e
   | None => Err e
   end, setLastError k (Some e)).

(** From reading the files on, by the keeper as it then is: [checkedAt] is the time of
    the validation or of the check of the old certificate, [finishedAt] that of
    [finishReloadError]. *)
Definition getEnd (k : Keeper) (checkedAt finishedAt : Z) (o : reload) (files : tree) : res tlsCertificate * Keeper :=
  match readPair k files with
  | Err e => finishReloadError k finishedAt (roCertificate o) e
  | Ok (certPEM, keyPEM, fingerprint) =>
      if bool_decide (fingerprint = roFingerprint o) then
        match roCertificate o with
        | Some c =>
            if certificateValid (Some c) checkedAt then (Ok c, setLastError k None)
            else finishReloadError k finishedAt (roCertificate o) (Message "loaded tls certificate is no longer valid")
        | None => finishReloadError k finishedAt (roCertificate o) (Message "loaded tls certificate is no longer valid")
        end
      else
        match parsePair checkedAt k certPEM keyPEM with
        | Err e => finishReloadError k finishedAt (roCertificate o) e
        | Ok certificate => (Ok certificate, setLoaded k (Some certificate) fingerprint (kpChecked k) None)
        end
  end.

(** [Status], the error as such. *)
Record certStatus := mkStatus { csLoaded : bool; csNotBefore : Z; csNotAfter : Z; csDNSNames : list string; csLastError : option error }.

Definition Status (k : Keeper) : certStatus :=
  match kpCertificate k with
  | Some (mkTlsCertificate (raw :: _) _) =>
      match ParseCertificate raw with
      | Err e => mkStatus false 0 0 [] (Some e)
      | Ok leaf => mkStatus true (lfNotBefore leaf) (lfNotAfter leaf) (lfDNSNames leaf) (kpLastError k)
      end
  | _ => mkStatus false 0 0 [] (kpLastError k)
  end.

(** ** Changes of the file system *)

(** [kept] says whether a call that does not succeed has its effect: for a file being
    written, the content that is there afterwards. *)
Inductive fate := Done | Failed (e : error) (kept : option string) | Crashed (kept : option string).

Inductive outcome (A : Type) := Returned (r : res A) (files : tree) (rest : list fate) | Stopped (files : tree).
#[local] Arguments Returned {A} _ _ _.
#[local] Arguments Stopped {A} _.

Definition prog (A : Type) : Type := tree → list fate → outcome A.

Definition pret {A} (r : res A) : prog A := λ files fs, Returned r files fs.

Definition pbind {A B} (p : prog A) (k : A → prog B) : prog B := λ files fs,
  match p files fs with
  | Returned (Ok a) files fs => k a files fs
  | Returned (Err e) files fs => Returned (Err e) files fs
  | Stopped files => Stopped files
  end.

Notation "p >>! q" := (pbind p (λ _, q)) (at level 60, right associativity).

(** A change with its complete effect and what a partial one leaves. *)
Definition act (full : tree) (partial : string → tree) : prog unit := λ files fs,
  match fs with
  | [] => Returned (Ok tt) full []
  | Done :: fs => Returned (Ok tt) full fs
  | Failed e kept :: fs => Returned (Err e) (match kept with Some c => partial c | None => files end) fs
  | Crashed kept :: _ => Stopped (match kept with Some c => partial c | None => files end)
  end.

Definition addDirs (files : tree) (missing : list string) : tree := foldl (λ f p, <[p := Directory 448]> f) files missing.

(** [disk.Mkdir]: the missing parents, outermost first; a partial one has made as many
    as its mark is long. *)
Definition Mkdir (path : string) : prog unit := λ files fs,
  match missingDirs (S (String.length path)) files path [] with
  | Err e => Returned (Err e) files fs
  | Ok missing => act (addDirs files missing) (λ c, addDirs files (take (String.length c) missing)) files fs
  end.

(** [disk.WriteExclusive]. *)
Definition WriteExclusive (path body : string) (mode : Z) : prog unit :=
  Mkdir (filepath_Dir path) >>! λ files fs,
  match files !! path with
  | Some _ => Returned (Err (Errno 17)) files fs
  | None => act (<[path := Regular mode body]> files) (λ c, <[path := Regular mode c]> files) files fs
  end.

(** [disk.Rename]. *)
Definition renamePath (old new : string) : prog unit := λ files fs,
  match files !! old with
  | None => Returned (Err ENOENT) files fs
  | Some n => let full := <[new := n]> (delete old files) in act full (λ _, full) files fs
  end.

Definition removeDurable (path : string) : prog unit := λ files fs,
  match files !! path with
  | None => Returned (Err ENOENT) files fs
  | Some _ => act (delete path files) (λ _, delete path files) files fs
  end.

Definition removeIfExistsDurable (path : string) : prog unit := λ files fs,
  match removeDurable path files fs with
  | Returned (Err e) files fs => Returned (if errors_Is e ErrNotExist then Ok tt else Err e) files fs
  | o => o
  end.

(** ** Generation (generate.go) *)

Section generation.
Variable k : Keeper.
(** The times of a run: of the generation and of the validation. *)
Variables generatedAt validatedAt : Z.
(** [os.Stat] and [os.Lstat] failures. *)
Variable statFault : string → option error.

Definition generationMarker : string := kpCertificateFile k +:+ ".outboxd-generation".
Definition certificateStage : string := kpCertificateFile k +:+ ".outboxd-stage".
Definition privateKeyStage : string := kpPrivateKeyFile k +:+ ".outboxd-stage".

Definition Stat (files : tree) (path : string) : res node :=
  match statFault path with Some e => Err e | None => follow maxLinks files path end.

(** Whether a path exists; any other failure is an error. *)
Definition exists_at (files : tree) (path : string) : res bool :=
  match Stat files path with
  | Ok _ => Ok true
  | Err e => if errors_Is e ErrNotExist then Ok false else Err e
  end.

Definition selfTemplate : certTemplate :=
  mkTemplate (kpHostname k) [kpHostname k] (generatedAt - 3600 * second) (tenYears generatedAt) [ExtKeyUsageServerAuth] false.

(** A stage must not exist; links count. *)
Definition noStage (path : string) : prog unit := λ files fs,
  match Lstat files statFault path with
  | Ok _ => Returned (Err (Message "self-signed tls staging file already exists")) files fs
  | Err e => Returned (if errors_Is e ErrNotExist then Ok tt else Err e) files fs
  end.

(** The files of a new pair. *)
Definition generateFiles (pair : string * string) : prog unit :=
  noStage privateKeyStage >>! noStage certificateStage >>!
  WriteExclusive generationMarker generationMarkerText 384 >>!
  WriteExclusive privateKeyStage pair.1 384 >>!
  WriteExclusive certificateStage pair.2 420 >>!
  renamePath privateKeyStage (kpPrivateKeyFile k) >>!
  renamePath certificateStage (kpCertificateFile k) >>!
  removeDurable generationMarker.

Definition generate : prog unit := pbind (pret (createPair selfTemplate)) generateFiles.

Definition discardGenerationStages : prog unit :=
  removeIfExistsDurable privateKeyStage >>! removeIfExistsDurable certificateStage >>! removeDurable generationMarker.

(** One target of the last loop of [recoverGeneration]: whether it is present. *)
Definition settleTarget (path stage : string) : prog bool := λ files fs,
  match Stat files path, Stat files stage with
  | Ok _, Ok _ => pbind (removeDurable stage) (λ _, pret (Ok true)) files fs
  | Ok _, Err _ => Returned (Ok true) files fs
  | Err _, Ok _ => pbind (renamePath stage path) (λ _, pret (Ok true)) files fs
  | Err _, Err _ => Returned (Ok false) files fs
  end.

(** The files the pair would be made of. *)
Definition pairSource (files : tree) (path stage : string) : string :=
  match Stat files path with
  | Err e => if errors_Is e ErrNotExist then stage else path
  | Ok _ => path
  end.

Definition recoverPair : prog bool :=
  pbind (settleTarget (kpPrivateKeyFile k) privateKeyStage) (λ key,
    pbind (settleTarget (kpCertificateFile k) certificateStage) (λ cert,
      if key && cert then removeDurable generationMarker >>! pret (Ok true)
      else pret (Err (Message "incomplete marked self-signed tls generation cannot be recovered")))).

(** The staged or final pair read and parsed. *)
Definition interruptedPair (files : tree) : res tlsCertificate :=
  let certPEM := ReadCheckedFile files (pairSource files (kpCertificateFile k) certificateStage) false false maxCertificateBytes in
  let keyPEM := ReadCheckedFile files (pairSource files (kpPrivateKeyFile k) privateKeyStage) true false certPrivateKeyBytes in
  match certPEM, keyPEM with
  | Err e, Err e' => Err (Join e e')
  | Err e, Ok _ | Ok _, Err e => Err e
  | Ok certPEM, Ok keyPEM => parsePair validatedAt k certPEM keyPEM
  end.

Definition recoverGeneration : prog bool := λ files fs,
  match (let? key := exists_at files (kpPrivateKeyFile k) in
         let? keyStage := exists_at files privateKeyStage in
         let? cert := exists_at files (kpCertificateFile k) in
         let? certStage := exists_at files certificateStage in
         Ok (key, keyStage, cert, certStage)) with
  | Err e => Returned (Err e) files fs
  | Ok (key, keyStage, cert, certStage) =>
      let finals := key || cert in
      if negb ((key || keyStage) && (cert || certStage)) then
        if finals : bool
        then Returned (Err (Message "incomplete marked self-signed tls generation cannot be recovered without replacing a final file")) files fs
        else (discardGenerationStages >>! pret (Ok false)) files fs
      else
        match interruptedPair files with
        | Err e =>
            if negb finals then (discardGenerationStages >>! pret (Ok false)) files fs
            else Returned (Err (Wrap "validate interrupted self-signed generation" e)) files fs
        | Ok _ => recoverPair files fs
        end
  end.

Definition ensureFiles : prog bool := λ files fs,
  match (let? cert := exists_at files (kpCertificateFile k) in
         let? key := exists_at files (kpPrivateKeyFile k) in Ok (cert, key)) with
  | Err e => Returned (Err e) files fs
  | Ok (certOK, keyOK) =>
      if bool_decide (kpMode k = "self_signed") then
        match exists_at files generationMarker with
        | Err e => Returned (Err e) files fs
        | Ok true => pbind recoverGeneration (λ complete, if complete : bool then pret (Ok true) else generate >>! pret (Ok true)) files fs
        | Ok false =>
            if certOK && keyOK then Returned (Ok false) files fs
            else if certOK || keyOK then Returned (Err (Message "incomplete self-signed tls pair")) files fs
            else (generate >>! pret (Ok true)) files fs
        end
      else if negb certOK then Returned (Err (Message "tls certificate does not exist")) files fs
      else if negb keyOK then Returned (Err (Message "tls private key does not exist")) files fs
      else Returned (Ok false) files fs
  end.
End generation.

(** ** From the configuration *)

Definition named {A} (what : string) (r : res A) : res A := match r with Ok a => Ok a | Err e => Err (Wrap what e) end.

Definition configuredKeeper (cwd : string) (cfg : Config) (files : tree) (lstatFault : string → option error) : res Keeper :=
  let server := cServer cfg in
  let make certificateFile privateKeyFile :=
    mkKeeper certificateFile privateKeyFile (MinimumTLSVersion cfg) (sHostname server) (tMode (cTLS cfg)) None "" 0 None in
  if bool_decide (tMode (cTLS cfg) = "self_signed") then
    let data := filepath_Abs cwd (filepath_Clean (ResolvedDataDir cwd (cBaseDir cfg) (sDataDirectory server))) in
    let? certificateFile := named "tls certificate file" (ResolveGeneratedPath cwd (cBaseDir cfg) (sDataDirectory server) (tCertificateFile (cTLS cfg))) in
    let? privateKeyFile := named "tls private key file" (ResolveGeneratedPath cwd (cBaseDir cfg) (sDataDirectory server) (tPrivateKeyFile (cTLS cfg))) in
    let? _ := named "tls certificate file" (CheckGeneratedParents files lstatFault data certificateFile) in
    let? _ := named "tls private key file" (CheckGeneratedParents files lstatFault data privateKeyFile) in
    Ok (make certificateFile privateKeyFile)
  else
    Ok (make (ResolvePath (cBaseDir cfg) (sDataDirectory server) (tCertificateFile (cTLS cfg)))
             (ResolvePath (cBaseDir cfg) (sDataDirectory server) (tPrivateKeyFile (cTLS cfg)))).

(** [Load] and [Ensure]: the keeper, and whether files were created. *)
Definition LoadCertificate (cwd : string) (cfg : Config) (files : tree) (lstatFault : string → option error) (now checked : Z) : res Keeper :=
  let? k := configuredKeeper cwd cfg files lstatFault in
  match loadKeeper now checked k files with
  | (Err e, _) => Err e
  | (Ok _, k) => Ok k
  end.

Definition EnsureCertificate (cwd : string) (cfg : Config) (lstatFault statFault : string → option error)
    (generatedAt validatedAt now checked : Z) : prog (Keeper * bool) := λ files fs,
  match configuredKeeper cwd cfg files lstatFault with
  | Err e => Returned (Err e) files fs
  | Ok k =>
      pbind (ensureFiles k generatedAt validatedAt statFault) (λ created files fs,
        match loadKeeper now checked k files with
        | (Err e, _) => Returned (Err e) files fs
        | (Ok _, k) => Returned (Ok (k, created)) files fs
        end) files fs
  end.

(** [CheckWithRoots]. *)
Definition CheckCertificate (cwd : string) (cfg : Config) (files : tree) (lstatFault : string → option error) (now checked verifiedAt : Z) : res unit :=
  let? k := LoadCertificate cwd cfg files lstatFault now checked in
  verifyChain (kpCertificate k) (kpHostname k) verifiedAt.
End x509.

Arguments Returned {A} _ _ _.
Arguments Stopped {A} _.

(** ** Directories *)

Fixpoint ancestors (fuel : nat) (path : string) : list string :=
  match fuel with O => [] | S fuel => path :: ancestors fuel (filepath_Dir path) end.

Lemma missingDirs_ancestors fuel files path acc missing :
  missingDirs fuel files path acc = Ok missing → ∀ q, q ∈ missing → q ∈ ancestors fuel path ∨ q ∈ acc.
Proof.
  revert path acc. induction fuel as [|fuel IH]; intros path acc; [done|]. cbn [missingDirs].
  destruct (follow _ _ _) as [[]|e]; try done; [by intros [= <-]; right|].
  destruct (negb _); [done|]. cbn [res_bind]. destruct (bool_decide _); [done|]. cbn [res_bind].
  intros Hm q Hq. destruct (IH _ _ Hm q Hq) as [Ha|Ha]; cbn [ancestors]; set_solver.
Qed.

Lemma addDirs_lookup files missing q : q ∉ missing → addDirs files missing !! q = files !! q.
Proof.
  revert files. induction missing as [|d missing IH]; intros files Hq; [done|].
  unfold addDirs. cbn [foldl]. fold (addDirs (<[d := Directory 448]> files) missing).
  rewrite IH by set_solver. apply lookup_insert_ne. set_solver.
Qed.

(** ** The five files *)

Section generation_facts.
Context `{X509}.
Variable k : Keeper.

Definition certPaths : list string :=
  [kpPrivateKeyFile k; kpCertificateFile k; privateKeyStage k; certificateStage k; generationMarker k].

(** They are five files and none of them is a directory above another. *)
Definition separate : Prop :=
  NoDup certPaths ∧
  Forall (λ p, Forall (λ q, q ∉ certPaths) (ancestors (S (String.length (filepath_Dir p))) (filepath_Dir p))) certPaths.

#[export] Instance separate_dec : Decision separate.
Proof. unfold separate. apply _. Defined.

Record slots := mkSlots {
  slKey : option node; slCert : option node; slKeyStage : option node; slCertStage : option node; slMarker : option node
}.

Definition view (files : tree) : slots :=
  mkSlots (files !! kpPrivateKeyFile k) (files !! kpCertificateFile k)
    (files !! privateKeyStage k) (files !! certificateStage k) (files !! generationMarker k).

Definition plain (o : option node) : Prop := match o with None | Some (Regular _ _) => True | _ => False end.

(** A key nobody else may read, and the certificate that belongs to it. *)
Definition paired (key cert : option node) : Prop :=
  match key, cert with
  | Some (Regular perm keyPEM), Some (Regular _ certPEM) =>
      Z.land perm 63 = 0 ∧ ∃ c, X509KeyPair certPEM keyPEM = Ok c
  | _, _ => False
  end.

Definition present (o : option node) : Prop := match o with Some (Regular _ _) => True | _ => False end.

(** A complete pair and nothing else. *)
Definition settled (s : slots) : Prop :=
  paired (slKey s) (slCert s) ∧ slKeyStage s = None ∧ slCertStage s = None ∧ slMarker s = None.

Definition untouched (s : slots) : Prop := s = mkSlots None None None None None.

(** Marked, with no final file. *)
Definition staging (s : slots) : Prop :=
  slKey s = None ∧ slCert s = None ∧ plain (slKeyStage s) ∧ plain (slCertStage s) ∧ present (slMarker s).

(** Marked, the key final and its certificate staged. *)
Definition halfway (s : slots) : Prop :=
  slCert s = None ∧ slKeyStage s = None ∧ paired (slKey s) (slCertStage s) ∧ present (slMarker s).

(** Marked, both final. *)
Definition closing (s : slots) : Prop :=
  slKeyStage s = None ∧ slCertStage s = None ∧ paired (slKey s) (slCert s) ∧ present (slMarker s).

Definition safe_slots (s : slots) : Prop := untouched s ∨ settled s ∨ staging s ∨ halfway s ∨ closing s.

(** ** Changes and triples *)

Hypothesis Hsep : separate.

Lemma sep_ne : 
  kpPrivateKeyFile k ≠ kpCertificateFile k ∧ kpPrivateKeyFile k ≠ privateKeyStage k ∧ kpPrivateKeyFile k ≠ certificateStage k ∧
  kpPrivateKeyFile k ≠ generationMarker k ∧ kpCertificateFile k ≠ privateKeyStage k ∧ kpCertificateFile k ≠ certificateStage k ∧
  kpCertificateFile k ≠ generationMarker k ∧ privateKeyStage k ≠ certificateStage k ∧ privateKeyStage k ≠ generationMarker k ∧
  certificateStage k ≠ generationMarker k.
Proof. destruct Hsep as [Hn _]. unfold certPaths in Hn. rewrite !NoDup_cons in Hn. set_solver. Qed.

Lemma view_addDirs files p missing :
  p ∈ certPaths → (∀ q, q ∈ missing → q ∈ ancestors (S (String.length (filepath_Dir p))) (filepath_Dir p)) →
  view (addDirs files missing) = view files.
Proof.
  intros Hp Hm. destruct Hsep as [_ Ha]. rewrite Forall_forall in Ha. specialize (Ha _ Hp).
  rewrite Forall_forall in Ha.
  assert (Hq : ∀ q, q ∈ certPaths → q ∉ missing) by (intros q Hq Hin; by apply (Ha q (Hm _ Hin))).
  unfold view. by rewrite !addDirs_lookup by (apply Hq; unfold certPaths; set_solver).
Qed.

(** A removal that had no effect does not say that the file is missing. *)
Definition honest_fate (f : fate) : Prop :=
  match f with Failed e None => errors_Is e ErrNotExist = false | _ => True end.

Definition post {A} (Q : A → slots → Prop) (o : outcome A) : Prop :=
  match o with
  | Returned (Ok a) files fs => Q a (view files) ∧ Forall honest_fate fs
  | Returned (Err _) files fs => safe_slots (view files) ∧ Forall honest_fate fs
  | Stopped files => safe_slots (view files)
  end.

Definition slots_triple {A} (P : slots → Prop) (p : prog A) (Q : A → slots → Prop) : Prop :=
  ∀ files fs, Forall honest_fate fs → P (view files) → post Q (p files fs).

Lemma slots_bind {A B} P (p : prog A) Q (q : A → prog B) R :
  slots_triple P p Q → (∀ a, slots_triple (Q a) (q a) R) → slots_triple P (pbind p q) R.
Proof.
  intros Hp Hq files fs Hf HP. specialize (Hp files fs Hf HP). unfold pbind.
  destruct (p files fs) as [[a|e] f' fs'|f']; [|done..]. destruct Hp as [Ha Hf']. by apply Hq.
Qed.

Lemma slots_seq {A B} P (p : prog A) Q (q : prog B) R :
  slots_triple P p (λ _, Q) → slots_triple Q q R → slots_triple P (pbind p (λ _, q)) R.
Proof. intros Hp Hq. by eapply slots_bind. Qed.

Lemma slots_ret {A} (P : slots → Prop) (r : res A) (Q : A → slots → Prop) :
  match r with Ok a => ∀ s, P s → Q a s | Err _ => ∀ s, P s → safe_slots s end → slots_triple P (pret r) Q.
Proof. intros Hr files fs Hf HP. destruct r; cbn; auto. Qed.

Lemma post_act (Q : slots → Prop) full partial files fs :
  Forall honest_fate fs → Q (view full) → safe_slots (view files) → (∀ c, safe_slots (view (partial c))) →
  post (λ _, Q) (act full partial files fs).
Proof.
  intros Hf HQ Hs Hp. unfold act. destruct fs as [|[|e kept|kept] fs]; cbn [post]; [done|..];
    rewrite Forall_cons in Hf; destruct Hf as [_ Hf]; [done|..]; destruct kept; auto.
Qed.

Lemma slots_Mkdir p (P : slots → Prop) :
  p ∈ certPaths → (∀ s, P s → safe_slots s) → slots_triple P (Mkdir (filepath_Dir p)) (λ _, P).
Proof.
  intros Hp Hs files fs Hf HP. unfold Mkdir. destruct (missingDirs _ _ _ _) as [missing|e] eqn:Em; [|cbn; auto].
  assert (Hm : ∀ q, q ∈ missing → q ∈ ancestors (S (String.length (filepath_Dir p))) (filepath_Dir p)).
  { intros q Hq. destruct (missingDirs_ancestors _ _ _ _ _ Em q Hq) as [|Hn]; [done|by apply elem_of_nil in Hn]. }
  apply post_act; [done|..].
  - by rewrite (view_addDirs _ p).
  - auto.
  - intros c. rewrite (view_addDirs _ p); [auto|done|].
    intros q Hq. apply Hm. apply elem_of_take in Hq as (i & Hi & _). by eapply list_elem_of_lookup_2.
Qed.

Lemma slots_write p body mode (P Q : slots → Prop) :
  p ∈ certPaths → (∀ s, P s → safe_slots s) →
  (∀ f, P (view f) → f !! p = None →
    Q (view (<[p := Regular mode body]> f)) ∧ ∀ c, safe_slots (view (<[p := Regular mode c]> f))) →
  slots_triple P (WriteExclusive p body mode) (λ _, Q).
Proof.
  intros Hp Hs Hw. unfold WriteExclusive. eapply slots_bind; [by apply slots_Mkdir|].
  intros _ files fs Hf HP. destruct (files !! p) as [n|] eqn:Ep; [cbn; auto|].
  destruct (Hw files HP Ep). apply post_act; auto.
Qed.

Lemma slots_rename old new (P Q : slots → Prop) :
  (∀ s, P s → safe_slots s) → (∀ s, Q s → safe_slots s) →
  (∀ f n, P (view f) → f !! old = Some n → Q (view (<[new := n]> (delete old f)))) →
  slots_triple P (renamePath old new) (λ _, Q).
Proof.
  intros Hs Hq Hr files fs Hf HP. unfold renamePath. destruct (files !! old) as [n|] eqn:Eo; [|cbn; auto].
  apply post_act; auto.
Qed.

Lemma slots_remove p (P Q : slots → Prop) :
  (∀ s, P s → safe_slots s) → (∀ s, Q s → safe_slots s) →
  (∀ f n, P (view f) → f !! p = Some n → Q (view (delete p f))) → slots_triple P (removeDurable p) (λ _, Q).
Proof.
  intros Hs Hq Hr files fs Hf HP. unfold removeDurable. destruct (files !! p) as [n|] eqn:Eo; [|cbn; auto].
  apply post_act; eauto.
Qed.

Lemma slots_removeIfExists p (P Q : slots → Prop) :
  (∀ s, P s → safe_slots s) → (∀ s, Q s → safe_slots s) →
  (∀ f, P (view f) → f !! p = None → Q (view f)) →
  (∀ f n, P (view f) → f !! p = Some n → Q (view (delete p f))) → slots_triple P (removeIfExistsDurable p) (λ _, Q).
Proof.
  intros Hs Hq Hn Hr files fs Hf HP. unfold removeIfExistsDurable, removeDurable.
  destruct (files !! p) as [n|] eqn:Eo; [|cbn; auto]. unfold act.
  destruct fs as [|[|e kept|kept] fs]; [cbn; eauto|..]; rewrite Forall_cons in Hf; destruct Hf as [Hk Hf].
  - cbn; eauto.
  - destruct kept as [c|]; cbn in Hk; cbn [post].
    + destruct (errors_Is e ErrNotExist); split; eauto.
    + rewrite Hk. split; auto.
  - destruct kept; cbn; eauto.
Qed.
(** ** A generation *)

Definition marked (keyStage certStage : option node) (s : slots) : Prop :=
  slKey s = None ∧ slCert s = None ∧ slKeyStage s = keyStage ∧ slCertStage s = certStage ∧ present (slMarker s).

Lemma safe_untouched s : untouched s → safe_slots s.
Proof. by left. Qed.
Lemma safe_settled s : settled s → safe_slots s.
Proof. by right; left. Qed.
Lemma safe_staging s : staging s → safe_slots s.
Proof. by right; right; left. Qed.
Lemma safe_halfway s : halfway s → safe_slots s.
Proof. by do 3 right; left. Qed.
Lemma safe_closing s : closing s → safe_slots s.
Proof. by do 4 right. Qed.
Lemma marked_staging a b s : plain a → plain b → marked a b s → staging s.
Proof. intros Ha Hb (? & ? & <- & <- & ?). by repeat split. Qed.
Lemma safe_marked a b s : plain a → plain b → marked a b s → safe_slots s.
Proof. intros Ha Hb Hm. exact (safe_staging _ (marked_staging _ _ _ Ha Hb Hm)). Qed.

#[local] Hint Resolve safe_untouched safe_settled safe_staging safe_halfway safe_closing : slots.
#[local] Hint Extern 1 (safe_slots _) => eapply safe_marked; [..|eassumption]; exact I : slots.

(** The five lookups of a changed tree. *)
Ltac slots :=
  pose proof sep_ne as (? & ? & ? & ? & ? & ? & ? & ? & ? & ?);
  unfold untouched, settled, staging, halfway, closing, marked, view in *;
  cbn [slKey slCert slKeyStage slCertStage slMarker] in *; destruct_and?; simplify_map_eq;
  repeat match goal with
         | Hl : ?m !! ?i = _ |- context [?m !! ?i] => rewrite Hl
         | Hl : ?m !! ?i = _, Hp : paired _ _ |- _ => rewrite Hl in Hp
         end; repeat split; try done; auto.

Variable statFault : string → option error.
Hypothesis Hstat : ∀ p e, statFault p = Some e → errors_Is e ErrNotExist = false.
Hypothesis Hcreate : ∀ t keyPEM certPEM, createPair t = Ok (keyPEM, certPEM) → ∃ c, X509KeyPair certPEM keyPEM = Ok c.

Lemma slots_noStage p (P : slots → Prop) :
  (∀ s, P s → safe_slots s) → slots_triple P (noStage statFault p) (λ _, P).
Proof.
  intros Hs files fs Hf HP. unfold noStage. destruct (Lstat _ _ _) as [|e]; [cbn; auto|].
  destruct (errors_Is e ErrNotExist); cbn; auto.
Qed.

Lemma slots_generate generatedAt : slots_triple untouched (generate k generatedAt statFault) (λ _, settled).
Proof.
  unfold generate. destruct (createPair _) as [[keyPEM certPEM]|e] eqn:Ec.
  2: { intros files fs Hf HP. cbn. eauto with slots. }
  apply Hcreate in Ec as [c Hc].
  eapply slots_bind with (Q := λ pair s, pair = (keyPEM, certPEM) ∧ untouched s); [by apply slots_ret|].
  intros pair files fs Hf [-> HP]. revert files fs Hf HP.
  fold (slots_triple untouched (generateFiles k statFault (keyPEM, certPEM)) (λ _, settled)). unfold generateFiles. cbn [fst snd].
  eapply slots_seq; [apply slots_noStage; eauto with slots|].
  eapply slots_seq; [apply slots_noStage; eauto with slots|].
  eapply slots_seq with (Q := marked None None).
  { apply slots_write; [unfold certPaths; set_solver|eauto with slots|].
    intros f HP _. split; [slots|]. intros c'. apply safe_staging. slots. }
  eapply slots_seq with (Q := marked (Some (Regular 384 keyPEM)) None).
  { apply slots_write; [unfold certPaths; set_solver|eauto with slots|].
    intros f HP _. split; [slots|]. intros c'. apply safe_staging. slots. }
  eapply slots_seq with (Q := marked (Some (Regular 384 keyPEM)) (Some (Regular 420 certPEM))).
  { apply slots_write; [unfold certPaths; set_solver|eauto with slots|].
    intros f HP _. split; [slots|]. intros c'. apply safe_staging. slots. }
  eapply slots_seq with (Q := halfway).
  { apply slots_rename; [eauto with slots..|]. intros f n HP Hn. slots. cbn. eauto. }
  eapply slots_seq with (Q := closing).
  { apply slots_rename; [eauto with slots..|]. intros f n HP Hn. slots. }
  apply slots_remove; [eauto with slots..|]. intros f n HP Hn. slots.
Qed.

(** ** A recovery *)

Lemma slots_discard : slots_triple staging (discardGenerationStages k) (λ _, untouched).
Proof.
  unfold discardGenerationStages.
  eapply slots_seq with (Q := λ s, staging s ∧ slKeyStage s = None).
  { apply slots_removeIfExists; [eauto with slots|intros s [Hs _]; eauto with slots|..]; intros f; intros; slots. }
  eapply slots_seq with (Q := marked None None).
  { apply slots_removeIfExists; [intros s [Hs _]; eauto with slots|eauto with slots|..]; intros f; intros; slots. }
  apply slots_remove; [eauto with slots..|]. intros f n HP Hn. slots.
Qed.

Lemma Stat_plain files p :
  plain (files !! p) → statFault p = None →
  Stat statFault files p = match files !! p with Some n => Ok n | None => Err ENOENT end.
Proof.
  intros Hp Hf. unfold Stat. rewrite Hf. unfold maxLinks. cbn [follow]. by destruct (files !! p) as [[]|].
Qed.

Lemma exists_at_plain files p b :
  plain (files !! p) → exists_at statFault files p = Ok b →
  statFault p = None ∧ b = match files !! p with Some _ => true | None => false end.
Proof.
  intros Hp. unfold exists_at. destruct (statFault p) as [e|] eqn:Ef.
  - unfold Stat. rewrite Ef. by rewrite (Hstat p e Ef).
  - rewrite Stat_plain by done. destruct (files !! p); cbn; by intros [= <-].
Qed.

(** Both stages complete and belonging together. *)
Definition ready (s : slots) : Prop := staging s ∧ paired (slKeyStage s) (slCertStage s).

Lemma paired_present a b : paired a b → present a ∧ present b.
Proof. destruct a as [[]|], b as [[]|]; done. Qed.

Lemma present_plain a : present a → plain a.
Proof. by destruct a as [[]|]. Qed.

Lemma present_some a : present a → ∃ m b, a = Some (Regular m b).
Proof. destruct a as [[]|]; try done. eauto. Qed.

Lemma safe_plain s :
  safe_slots s → plain (slKey s) ∧ plain (slCert s) ∧ plain (slKeyStage s) ∧ plain (slCertStage s) ∧ plain (slMarker s).
Proof.
  intros [-> |[(Hp & -> & -> & ->)|[(-> & -> & ? & ? & ?)|[(-> & -> & Hp & ?)|(-> & -> & Hp & ?)]]]]; try (by repeat split).
  - apply paired_present in Hp as [? ?]. repeat split; try done; auto using present_plain.
  - repeat split; try done; auto using present_plain.
  - apply paired_present in Hp as [? ?]. repeat split; try done; auto using present_plain.
  - apply paired_present in Hp as [? ?]. repeat split; try done; auto using present_plain.
Qed.

Section recovery.
Hypothesis Hfree : ∀ p, p ∈ certPaths → statFault p = None.

Lemma Stat_path files p :
  p ∈ certPaths → safe_slots (view files) →
  Stat statFault files p = match files !! p with Some n => Ok n | None => Err ENOENT end.
Proof.
  intros Hp (? & ? & ? & ? & ?)%safe_plain. apply Stat_plain; [|auto].
  by repeat (apply elem_of_cons in Hp as [-> |Hp]; [done|]); apply elem_of_nil in Hp.
Qed.

Lemma slots_settle_key :
  slots_triple (λ s, ready s ∨ halfway s ∨ closing s) (settleTarget statFault (kpPrivateKeyFile k) (privateKeyStage k))
    (λ b s, b = true ∧ (halfway s ∨ closing s)).
Proof.
  intros files fs Hf HP. unfold settleTarget.
  rewrite !Stat_path by (try (unfold certPaths; set_solver); destruct HP as [[? _]|[?|?]]; eauto with slots).
  destruct HP as [[Hs Hp]|Hq].
  - pose proof Hp as [Hk Hc]%paired_present. cbn in Hk, Hc.
    apply present_some in Hk as (m & b & Hk). destruct Hs as (Hn & Hs). cbn in Hn. rewrite Hn, Hk.
    eapply (slots_seq (λ s, ready s) _ halfway); [apply slots_rename; [intros s [? _]; eauto with slots|eauto with slots|]| |done|].
    + intros f n [HP Hp'] Hn'. slots.
    + apply slots_ret. auto.
    + split; [|done]. split; done.
  - assert (Hk : present (files !! kpPrivateKeyFile k) ∧ files !! privateKeyStage k = None).
    { destruct Hq as [(? & ? & [? ?]%paired_present & ?)|(? & ? & [? ?]%paired_present & ?)]; done. }
    destruct Hk as [(m & b & ->)%present_some ->]. cbn [post]. auto.
Qed.

Lemma slots_settle_cert :
  slots_triple (λ s, halfway s ∨ closing s) (settleTarget statFault (kpCertificateFile k) (certificateStage k))
    (λ b s, b = true ∧ closing s).
Proof.
  intros files fs Hf HP. unfold settleTarget.
  rewrite !Stat_path by (try (unfold certPaths; set_solver); destruct HP as [?|?]; eauto with slots).
  destruct HP as [Hh|Hc].
  - pose proof Hh as (Hn & _ & [_ Hc]%paired_present & _). cbn in Hn, Hc.
    apply present_some in Hc as (m & b & Hc). rewrite Hn, Hc.
    eapply (slots_seq halfway _ closing); [apply slots_rename; [eauto with slots..|]| |done|done].
    + intros f n HP Hn'. slots.
    + apply slots_ret. auto.
  - pose proof Hc as (_ & Hn & [_ Hp]%paired_present & _). cbn in Hn, Hp.
    destruct (present_some _ Hp) as (m & b & ->). rewrite Hn. cbn [post]. auto.
Qed.

Lemma slots_recoverPair :
  slots_triple (λ s, ready s ∨ halfway s ∨ closing s) (recoverPair k statFault) (λ b s, b = true ∧ settled s).
Proof.
  unfold recoverPair. eapply slots_bind; [apply slots_settle_key|]. intros key files fs Hf [-> HP].
  eapply (slots_bind (λ s, halfway s ∨ closing s)); [apply slots_settle_cert| |done|done].
  intros cert files' fs' Hf' [-> HC]. cbn [andb].
  eapply (slots_seq closing _ settled); [apply slots_remove; [eauto with slots..|]| |done|done].
  - intros f n HP' Hn. slots.
  - apply slots_ret. auto.
Qed.
End recovery.

Lemma ReadCheckedFile_at files p private maximum body :
  ReadCheckedFile files p private false maximum = Ok body → ∃ perm, files !! p = Some (Regular perm body).
Proof.
  unfold ReadCheckedFile, openChecked. destruct (files !! p) as [[perm content| | |]|]; try done.
  cbn [res_bind]. destruct (private && _); [done|]. cbn [res_bind].
  destruct (maximum <? str_len content); [done|]. intros [= <-]. eauto.
Qed.

Lemma interrupted_ready files validatedAt c :
  (∀ p, p ∈ certPaths → statFault p = None) → staging (view files) →
  interruptedPair k validatedAt statFault files = Ok c → ready (view files).
Proof.
  intros Hfree Hs Hi. split; [done|]. revert Hi. unfold interruptedPair, pairSource.
  assert (safe_slots (view files)) by eauto with slots.
  rewrite !Stat_path by (done || (unfold certPaths; set_solver)).
  destruct Hs as (Hk & Hc & _). cbn in Hk, Hc. rewrite Hk, Hc.
  change (errors_Is ENOENT ErrNotExist) with true. cbv match.
  destruct (ReadCheckedFile files (certificateStage k) _ _ _) as [certPEM|e] eqn:Ec;
    destruct (ReadCheckedFile files (privateKeyStage k) _ _ _) as [keyPEM|e'] eqn:Ek; try done.
  apply ReadCheckedFile_at in Ec as [m Hcs]. apply ReadCheckedFile_secret in Ek as (m' & Hks & Hm & _).
  unfold parsePair. destruct (X509KeyPair certPEM keyPEM) as [pair|] eqn:Ex; [|done]. intros _.
  unfold view. cbn [slKeyStage slCertStage]. rewrite Hks, Hcs. split; [done|eauto].
Qed.

Lemma slots_recover validatedAt :
  statFault (generationMarker k) = None →
  slots_triple (λ s, staging s ∨ halfway s ∨ closing s) (recoverGeneration k validatedAt statFault)
    (λ b s, if b : bool then settled s else untouched s).
Proof.
  intros Hm files fs Hf HP. assert (Hsafe : safe_slots (view files)) by (destruct HP as [?|[?|?]]; eauto with slots).
  pose proof (safe_plain _ Hsafe) as (Hk & Hc & Hks & Hcs & _). cbn in Hk, Hc, Hks, Hcs.
  unfold recoverGeneration.
  destruct (exists_at _ files (kpPrivateKeyFile k)) as [key|e] eqn:Ek; cbn [res_bind]; [|done].
  destruct (exists_at _ files (privateKeyStage k)) as [keyStage|e] eqn:Eks; cbn [res_bind]; [|done].
  destruct (exists_at _ files (kpCertificateFile k)) as [cert|e] eqn:Ec; cbn [res_bind]; [|done].
  destruct (exists_at _ files (certificateStage k)) as [certStage|e] eqn:Ecs; cbn [res_bind]; [|done].
  apply exists_at_plain in Ek as [Fk Ek]; [|done]. apply exists_at_plain in Eks as [Fks Eks]; [|done].
  apply exists_at_plain in Ec as [Fc Ec]; [|done]. apply exists_at_plain in Ecs as [Fcs Ecs]; [|done].
  assert (Hfree : ∀ p, p ∈ certPaths → statFault p = None).
  { intros p Hp. by repeat (apply elem_of_cons in Hp as [-> |Hp]; [done|]); apply elem_of_nil in Hp. }
  assert (Hdiscard : key || cert = false → post (λ b s, if b : bool then settled s else untouched s)
    (pbind (discardGenerationStages k) (λ _, pret (Ok false)) files fs)).
  { intros Hn. eapply (slots_seq staging _ untouched); [apply slots_discard|by apply slots_ret|done|].
    destruct HP as [|[(? & ? & [Hp _]%paired_present & ?)|(? & ? & [Hp _]%paired_present & ?)]]; [done|..];
      apply present_some in Hp as (m & b & Hp); cbn in Hp; rewrite Hp in Ek; by subst. }
  destruct (negb _).
  { destruct (key || cert); [done|auto]. }
  destruct (interruptedPair _ _ _ _) as [c|e] eqn:Ei.
  - assert (Hr : ready (view files) ∨ halfway (view files) ∨ closing (view files)).
    { destruct HP as [Hs|HP]; [left; by eapply interrupted_ready|by right]. }
    pose proof (slots_recoverPair Hfree files fs Hf Hr) as Hpost.
    destruct (recoverPair _ _ _ _) as [[b|e] f' fs'|f']; [|done..]. cbn [post] in Hpost |- *.
    by destruct Hpost as [[-> ?] ?].
  - destruct (key || cert); cbn [negb]; [done|auto].
Qed.

(** ** A run *)

Lemma slots_ensure generatedAt validatedAt :
  kpMode k = "self_signed" →
  slots_triple safe_slots (ensureFiles k generatedAt validatedAt statFault) (λ _, settled).
Proof.
  intros Hmode files fs Hf HP. pose proof (safe_plain _ HP) as (Hk & Hc & _ & _ & Hm). cbn in Hk, Hc, Hm.
  unfold ensureFiles. rewrite Hmode, bool_decide_true by done.
  destruct (exists_at _ files (kpCertificateFile k)) as [cert|e] eqn:Ec; cbn [res_bind]; [|done].
  destruct (exists_at _ files (kpPrivateKeyFile k)) as [key|e] eqn:Ek; cbn [res_bind]; [|done].
  destruct (exists_at _ files (generationMarker k)) as [marker|e] eqn:Em; [|done].
  apply exists_at_plain in Ek as [_ Ek]; [|done]. apply exists_at_plain in Ec as [_ Ec]; [|done].
  apply exists_at_plain in Em as [Fm Em]; [|done].
  assert (Hgen : slots_triple untouched (pbind (generate k generatedAt statFault) (λ _, pret (Ok true))) (λ _, settled)).
  { eapply slots_seq; [apply slots_generate|by apply slots_ret]. }
  destruct HP as [Hu|[Hs|HP]].
  - pose proof Hu as Hu'. injection Hu' as Hk0 Hc0 _ _ Hm0. rewrite Hk0 in Ek. rewrite Hc0 in Ec. rewrite Hm0 in Em. subst.
    cbn [andb orb]. by apply Hgen.
  - pose proof Hs as ([Hpk Hpc]%paired_present & _ & _ & Hm0). cbn in Hm0.
    apply present_some in Hpk as (m & b & Hpk). apply present_some in Hpc as (m' & b' & Hpc). cbn in Hpk, Hpc.
    rewrite Hpk in Ek. rewrite Hpc in Ec. rewrite Hm0 in Em. subst. done.
  - assert (marker = true) as ->.
    { assert (Hp : present (files !! generationMarker k)) by (destruct HP as [(? & ? & ? & ? & ?)|[(? & ? & ? & ?)|(? & ? & ? & ?)]]; done).
      apply present_some in Hp as (m & b & Hp). by rewrite Hp in Em. }
    eapply slots_bind; [by apply slots_recover| |done|done].
    intros [|]; [by apply slots_ret|done].
Qed.

(** ** A run in which nothing fails *)

Lemma pbind_ok {A B} (p : prog A) (q : A → prog B) files fs a files' fs' :
  p files fs = Returned (Ok a) files' fs' → pbind p q files fs = q a files' fs'.
Proof. intros Hp. unfold pbind. by rewrite Hp. Qed.

Definition dirs_exist (files : tree) : Prop :=
  Forall (λ p, ∃ perm, files !! filepath_Dir p = Some (Directory perm)) certPaths.

Lemma write_free files p body mode :
  p ∈ certPaths → dirs_exist files → files !! p = None →
  WriteExclusive p body mode files [] = Returned (Ok tt) (<[p := Regular mode body]> files) [].
Proof.
  intros Hp Hd Hn. unfold dirs_exist in Hd. rewrite Forall_forall in Hd. destruct (Hd p Hp) as [perm Hperm].
  unfold WriteExclusive, pbind, Mkdir. cbn [missingDirs]. unfold maxLinks. cbn [follow]. rewrite Hperm. cbn.
  by rewrite Hn.
Qed.

Lemma dirs_ne p q : p ∈ certPaths → q ∈ certPaths → q ≠ filepath_Dir p.
Proof.
  intros Hp Hq ->. destruct Hsep as [_ Ha]. rewrite Forall_forall in Ha. specialize (Ha _ Hp).
  rewrite Forall_forall in Ha. eapply (Ha (filepath_Dir p)); [|done]. cbn [ancestors]. by left.
Qed.

Lemma dirs_insert files p n : p ∈ certPaths → dirs_exist files → dirs_exist (<[p := n]> files).
Proof.
  unfold dirs_exist. rewrite !Forall_forall. intros Hp Hd q Hq. destruct (Hd q Hq) as [perm Hperm].
  exists perm. rewrite lookup_insert_ne; [done|by apply dirs_ne].
Qed.

Lemma dirs_delete files p : p ∈ certPaths → dirs_exist files → dirs_exist (delete p files).
Proof.
  unfold dirs_exist. rewrite !Forall_forall. intros Hp Hd q Hq. destruct (Hd q Hq) as [perm Hperm].
  exists perm. rewrite lookup_delete_ne; [done|by apply dirs_ne].
Qed.

Lemma rename_free files old new n :
  files !! old = Some n → renamePath old new files [] = Returned (Ok tt) (<[new := n]> (delete old files)) [].
Proof. intros Ho. unfold renamePath. by rewrite Ho. Qed.

Lemma remove_free files p n : files !! p = Some n → removeDurable p files [] = Returned (Ok tt) (delete p files) [].
Proof. intros Hp. unfold removeDurable. by rewrite Hp. Qed.

Lemma removeIfExists_free files p :
  removeIfExistsDurable p files [] = Returned (Ok tt) (delete p files) [].
Proof.
  unfold removeIfExistsDurable, removeDurable. destruct (files !! p) eqn:Ep; [done|].
  cbn. by rewrite delete_id.
Qed.

Lemma path_members :
  kpPrivateKeyFile k ∈ certPaths ∧ kpCertificateFile k ∈ certPaths ∧ privateKeyStage k ∈ certPaths ∧
  certificateStage k ∈ certPaths ∧ generationMarker k ∈ certPaths.
Proof. unfold certPaths. set_solver. Qed.

Lemma noStage_free files p :
  statFault p = None → files !! p = None → noStage statFault p files [] = Returned (Ok tt) files [].
Proof. intros Hf Hn. unfold noStage, Lstat. by rewrite Hf, Hn. Qed.

Lemma generate_free files generatedAt pair :
  (∀ p, statFault p = None) → untouched (view files) → dirs_exist files →
  createPair (selfTemplate k generatedAt) = Ok pair →
  ∃ files', generate k generatedAt statFault files [] = Returned (Ok tt) files' [].
Proof.
  intros Hfree Hu Hd Hc. pose proof path_members as (? & ? & ? & ? & ?). unfold generate.
  rewrite (pbind_ok _ _ _ _ pair files []) by (unfold pret; by rewrite Hc). unfold generateFiles.
  erewrite pbind_ok by (apply noStage_free; [done|slots]).
  erewrite pbind_ok by (apply noStage_free; [done|slots]).
  erewrite pbind_ok by (apply write_free; [done|done|slots]).
  erewrite pbind_ok by (apply write_free; [done|by repeat apply dirs_insert|slots]).
  erewrite pbind_ok by (apply write_free; [done|by repeat apply dirs_insert|slots]).
  erewrite pbind_ok by (apply rename_free; slots).
  erewrite pbind_ok by (apply rename_free; slots).
  eexists. eapply remove_free. slots.
Qed.

Lemma discard_free files :
  staging (view files) →
  ∃ files', discardGenerationStages k files [] = Returned (Ok tt) files' [] ∧ (dirs_exist files → dirs_exist files').
Proof.
  intros Hs. pose proof path_members as (? & ? & ? & ? & ?).
  pose proof Hs as (_ & _ & _ & _ & (m & b & Hm)%present_some).
  unfold discardGenerationStages. erewrite !pbind_ok by apply removeIfExists_free.
  eexists. split; [eapply remove_free; slots|]. intros Hd. by repeat apply dirs_delete.
Qed.

Lemma settle_free files path stage :
  (∀ p, statFault p = None) → path ∈ certPaths → stage ∈ certPaths → safe_slots (view files) →
  is_Some (files !! path) ∨ is_Some (files !! stage) →
  ∃ files', settleTarget statFault path stage files [] = Returned (Ok true) files' [].
Proof.
  intros Hfree Hp Hs Hsafe Hn. unfold settleTarget. rewrite !Stat_path by auto.
  destruct (files !! path) as [n|] eqn:En, (files !! stage) as [n'|] eqn:En'.
  - eexists. by erewrite pbind_ok by by eapply remove_free.
  - eauto.
  - eexists. by erewrite pbind_ok by by eapply rename_free.
  - by destruct Hn as [[]|[]].
Qed.

Lemma recoverPair_free files :
  (∀ p, statFault p = None) → ready (view files) ∨ halfway (view files) ∨ closing (view files) →
  ∃ files', recoverPair k statFault files [] = Returned (Ok true) files' [].
Proof.
  intros Hfree HP. pose proof path_members as (? & ? & ? & ? & ?). unfold recoverPair.
  destruct (settle_free files (kpPrivateKeyFile k) (privateKeyStage k)) as [f1 E1]; [done..| | |].
  { destruct HP as [[? _]|[?|?]]; eauto with slots. }
  { destruct HP as [[_ [(m & b & Hk)%present_some _]%paired_present]|
      [(_ & _ & [(m & b & Hk)%present_some _]%paired_present & _)|(_ & _ & [(m & b & Hk)%present_some _]%paired_present & _)]];
      cbn in Hk; rewrite Hk; eauto. }
  erewrite pbind_ok by exact E1.
  pose proof (slots_settle_key (λ p _, Hfree p) files [] (Forall_nil_2 _) HP) as Hpost. rewrite E1 in Hpost.
  destruct Hpost as [[_ Hst] _].
  destruct (settle_free f1 (kpCertificateFile k) (certificateStage k)) as [f2 E2]; [done..| | |].
  { destruct Hst as [?|?]; eauto with slots. }
  { destruct Hst as [(_ & _ & [_ (m & b & Hk)%present_some]%paired_present & _)|(_ & _ & [_ (m & b & Hk)%present_some]%paired_present & _)];
      cbn in Hk; rewrite Hk; eauto. }
  erewrite pbind_ok by exact E2.
  pose proof (slots_settle_cert (λ p _, Hfree p) f1 [] (Forall_nil_2 _) Hst) as Hpost. rewrite E2 in Hpost.
  destruct Hpost as [[_ (_ & _ & _ & (m & b & Hm)%present_some)] _]. cbn in Hm. cbn [andb].
  eexists. by erewrite pbind_ok by by eapply remove_free.
Qed.

Lemma exists_at_free files p :
  (∀ p, statFault p = None) → p ∈ certPaths → safe_slots (view files) →
  exists_at statFault files p = Ok (match files !! p with Some _ => true | None => false end).
Proof.
  intros Hfree Hp Hs. unfold exists_at. rewrite Stat_path by auto. by destruct (files !! p).
Qed.

Lemma recover_free files validatedAt :
  (∀ p, statFault p = None) → staging (view files) ∨ halfway (view files) ∨ closing (view files) →
  files !! kpPrivateKeyFile k = None ∨ (∃ c, interruptedPair k validatedAt statFault files = Ok c) →
  ∃ b files', recoverGeneration k validatedAt statFault files [] = Returned (Ok b) files' [] ∧
    (dirs_exist files → b = false → dirs_exist files').
Proof.
  intros Hfree HP Hv. pose proof path_members as (? & ? & ? & ? & ?).
  assert (Hsafe : safe_slots (view files)) by (destruct HP as [?|[?|?]]; eauto with slots).
  unfold recoverGeneration. rewrite !exists_at_free by done. cbn [res_bind].
  destruct HP as [Hs|HP].
  - pose proof Hs as (Hk & Hc & _). cbn in Hk, Hc. rewrite Hk, Hc. cbn [orb].
    assert (Hdiscard : ∃ b files', pbind (discardGenerationStages k) (λ _, pret (Ok false)) files [] = Returned (Ok b) files' [] ∧
      (dirs_exist files → b = false → dirs_exist files')).
    { destruct (discard_free files Hs) as (f' & E & Hd). exists false, f'. split; [|auto]. by erewrite pbind_ok by exact E. }
    destruct (negb _); [done|]. destruct (interruptedPair _ _ _ _) as [c|e] eqn:Ei; [|done].
    destruct (recoverPair_free files Hfree) as [f' Er]; [left; by eapply interrupted_ready|].
    exists true, f'. split; [done|by intros].
  - assert (Hkn : present (files !! kpPrivateKeyFile k) ∧
        (present (files !! kpCertificateFile k) ∨ present (files !! certificateStage k))).
    { destruct HP as [(_ & _ & [? ?]%paired_present & _)|(_ & _ & [? ?]%paired_present & _)]; auto. }
    destruct Hkn as [(m & b & Hk)%present_some Hc]. rewrite Hk in Hv |- *. destruct Hv as [|[c Ec]]; [done|]. rewrite Ec. cbn [orb andb].
    assert (Hav : (match files !! kpCertificateFile k with Some _ => true | None => false end)
        || (match files !! certificateStage k with Some _ => true | None => false end) = true).
    { destruct Hc as [(m' & b' & ->)%present_some|(m' & b' & ->)%present_some]; [done|by rewrite orb_true_r]. }
    rewrite Hav. cbn [negb].
    destruct (recoverPair_free files Hfree) as [f' Er]; [by right|]. exists true, f'. split; [done|by intros].
Qed.

Lemma ensure_free files generatedAt validatedAt pair :
  kpMode k = "self_signed" → (∀ p, statFault p = None) → safe_slots (view files) → dirs_exist files →
  createPair (selfTemplate k generatedAt) = Ok pair →
  files !! kpPrivateKeyFile k = None ∨ files !! generationMarker k = None ∨
    (∃ c, interruptedPair k validatedAt statFault files = Ok c) →
  ∃ b files', ensureFiles k generatedAt validatedAt statFault files [] = Returned (Ok b) files' [].
Proof.
  intros Hmode Hfree Hsafe Hd Hc Hv. pose proof path_members as (? & ? & ? & ? & ?).
  unfold ensureFiles. rewrite Hmode, bool_decide_true by done. rewrite !exists_at_free by done. cbn [res_bind].
  assert (Hgen : ∀ f, untouched (view f) → dirs_exist f →
    ∃ b files', pbind (generate k generatedAt statFault) (λ _, pret (Ok true)) f [] = Returned (Ok b) files' []).
  { intros f Hu Hdf. destruct (generate_free f generatedAt pair Hfree Hu Hdf Hc) as [f' E]. exists true, f'.
    by erewrite pbind_ok by exact E. }
  destruct Hsafe as [Hu|[Hs|HP]].
  - pose proof Hu as Hu'. injection Hu' as -> -> _ _ ->. cbn [andb orb]. by apply Hgen.
  - pose proof Hs as ([(m & b & Hk)%present_some (m' & b' & Hct)%present_some]%paired_present & _ & _ & Hm).
    cbn in Hk, Hct, Hm. rewrite Hk, Hct, Hm. cbn [andb]. eauto.
  - assert (Hp : present (files !! generationMarker k)) by (destruct HP as [(? & ? & ? & ? & ?)|[(? & ? & ? & ?)|(? & ? & ? & ?)]]; done).
    apply present_some in Hp as (m & b & Hp). rewrite Hp in Hv |- *.
    destruct (recover_free files validatedAt Hfree HP) as (complete & f' & E & Hd'); [by destruct Hv as [?|[?|?]]; auto|].
    erewrite pbind_ok by exact E. destruct complete; [by repeat eexists|].
    apply Hgen; [|auto].
    pose proof (slots_recover validatedAt (Hfree _) files [] (Forall_nil_2 _) HP) as Hpost. rewrite E in Hpost. by destruct Hpost.
Qed.

(** ** Files that are already there *)

Definition leaves {A} (o : outcome A) : tree := match o with Returned _ files _ | Stopped files => files end.

Section final_files.
Variables (p : string) (perm : Z) (body : string).
Hypothesis Hp : p = kpPrivateKeyFile k ∨ p = kpCertificateFile k.

Definition holds (files : tree) : Prop := files !! p = Some (Regular perm body).

Definition final_kept {A} (g : prog A) : Prop := ∀ files fs, holds files → holds (leaves (g files fs)).

Lemma final_kept_bind {A B} (g : prog A) (q : A → prog B) : final_kept g → (∀ a, final_kept (q a)) → final_kept (pbind g q).
Proof.
  intros Hg Hq files fs Hh. specialize (Hg files fs Hh). unfold pbind.
  destruct (g files fs) as [[a|e] f' fs'|f']; [|done..]. by apply Hq.
Qed.

Lemma final_kept_ret {A} (r : res A) : final_kept (pret r).
Proof. by intros files fs Hh. Qed.

Lemma holds_act full partial files fs :
  holds files → holds full → (∀ c, holds (partial c)) → holds (leaves (act full partial files fs)).
Proof. intros ? ? ?. unfold act. destruct fs as [|[|e [c|]|[c|]] fs]; cbn [leaves]; auto. Qed.

Lemma final_kept_remove q : p ≠ q → final_kept (removeDurable q).
Proof.
  intros Hq files fs Hh. unfold removeDurable. destruct (files !! q); [|done].
  apply holds_act; [done|..]; unfold holds; by intros; rewrite lookup_delete_ne.
Qed.

Lemma final_kept_rename old new : p ≠ old → p ≠ new → final_kept (renamePath old new).
Proof.
  intros Ho Hn files fs Hh. unfold renamePath. destruct (files !! old); [|done].
  apply holds_act; [done|..]; unfold holds; intros; by rewrite lookup_insert_ne, lookup_delete_ne.
Qed.

Lemma final_kept_settle path stage :
  statFault p = None → p ≠ stage → final_kept (settleTarget statFault path stage).
Proof.
  intros Hf Hs files fs Hh. unfold settleTarget.
  destruct (Stat statFault files path) as [n|e] eqn:Es, (Stat statFault files stage) as [n'|e']; cbn [leaves]; try done.
  - by apply final_kept_bind; [apply final_kept_remove|intros; apply final_kept_ret|].
  - apply final_kept_bind; [|intros; apply final_kept_ret|done]. apply final_kept_rename; [done|]. intros <-.
    rewrite Stat_plain in Es; [|by rewrite Hh|done]. by rewrite Hh in Es.
Qed.

Lemma final_not_staged : p ≠ privateKeyStage k ∧ p ≠ certificateStage k ∧ p ≠ generationMarker k.
Proof. pose proof sep_ne. naive_solver. Qed.

Lemma final_kept_recoverPair : statFault p = None → final_kept (recoverPair k statFault).
Proof.
  intros Hf. destruct final_not_staged as (? & ? & ?). unfold recoverPair.
  apply final_kept_bind; [by apply final_kept_settle|]. intros key. apply final_kept_bind; [by apply final_kept_settle|]. intros cert.
  destruct (key && cert); [|apply final_kept_ret]. apply final_kept_bind; [by apply final_kept_remove|intros; apply final_kept_ret].
Qed.

Lemma exists_holds files b :
  holds files → exists_at statFault files p = Ok b → statFault p = None ∧ b = true.
Proof. intros Hh Hb. apply exists_at_plain in Hb; rewrite Hh in *; done. Qed.

Lemma recoverPair_true files fs b f' fs' : recoverPair k statFault files fs = Returned (Ok b) f' fs' → b = true.
Proof.
  unfold recoverPair, pbind. destruct (settleTarget _ _ _ _ _) as [[key|] f1 fs1|]; try done.
  destruct (settleTarget _ _ _ f1 fs1) as [[cert|] f2 fs2|]; try done. destruct (key && cert); [|done].
  destruct (removeDurable _ f2 fs2) as [[]|]; try done. by intros [= <-].
Qed.

(** Nothing is generated over it. *)
Lemma final_kept_recover validatedAt files fs :
  holds files → holds (leaves (recoverGeneration k validatedAt statFault files fs)) ∧
  ∀ b f' fs', recoverGeneration k validatedAt statFault files fs = Returned (Ok b) f' fs' → b = true.
Proof.
  intros Hh. unfold recoverGeneration.
  destruct (exists_at _ files (kpPrivateKeyFile k)) as [key|e] eqn:Ek; cbn [res_bind]; [|done].
  destruct (exists_at _ files (privateKeyStage k)) as [keyStage|e] eqn:Eks; cbn [res_bind]; [|done].
  destruct (exists_at _ files (kpCertificateFile k)) as [cert|e] eqn:Ec; cbn [res_bind]; [|done].
  destruct (exists_at _ files (certificateStage k)) as [certStage|e] eqn:Ecs; cbn [res_bind]; [|done].
  assert (Hfin : statFault p = None ∧ key || cert = true).
  { destruct Hp as [He|He]; rewrite <- He in *; [apply exists_holds in Ek as [? ->]|apply exists_holds in Ec as [? ->]]; auto.
    by rewrite orb_true_r. }
  destruct Hfin as [Hf ->]. destruct (negb _); [done|]. destruct (interruptedPair _ _ _ _); [|done].
  split; [by apply final_kept_recoverPair|apply recoverPair_true].
Qed.

Lemma final_kept_ensure generatedAt validatedAt : final_kept (ensureFiles k generatedAt validatedAt statFault).
Proof.
  intros files fs Hh. unfold ensureFiles.
  destruct (exists_at _ files (kpCertificateFile k)) as [cert|e] eqn:Ec; cbn [res_bind]; [|done].
  destruct (exists_at _ files (kpPrivateKeyFile k)) as [key|e] eqn:Ek; cbn [res_bind]; [|done].
  assert (Hfin : statFault p = None ∧ cert || key = true).
  { destruct Hp as [He|He]; rewrite <- He in *; [apply exists_holds in Ek as [? ->]|apply exists_holds in Ec as [? ->]]; auto.
    by rewrite orb_true_r. }
  destruct Hfin as [Hf Hor]. destruct (bool_decide _).
  2: { destruct cert, key; done. }
  destruct (exists_at _ files (generationMarker k)) as [[|]|e]; [|by rewrite Hor; destruct (cert && key)|done].
  destruct (final_kept_recover validatedAt files fs Hh) as [Hk Hb]. unfold pbind.
  destruct (recoverGeneration _ _ _ _ _) as [[b|e] f' fs'|f']; [|done..]. by rewrite (Hb b f' fs' eq_refl).
Qed.
End final_files.
End generation_facts.

(** ** Runs of [Ensure] *)

(** One run: its times, what [os.Stat] says, the fates of its changes. *)
Record certRun := mkCertRun {
  crGeneratedAt : Z; crValidatedAt : Z; crStatFault : string → option error; crFates : list fate
}.

(** No file that is there is said to be missing. *)
Definition honest_run (r : certRun) : Prop :=
  (∀ p e, crStatFault r p = Some e → errors_Is e ErrNotExist = false) ∧ Forall honest_fate (crFates r).

Definition ensureRun `{X509} (k : Keeper) (files : tree) (r : certRun) : outcome bool :=
  ensureFiles k (crGeneratedAt r) (crValidatedAt r) (crStatFault r) files (crFates r).

Definition afterRuns `{X509} (k : Keeper) (files : tree) (runs : list certRun) : tree :=
  foldl (λ files r, leaves (ensureRun k files r)) files runs.

(** A new key and its certificate belong together. *)
Definition creates_pairs `{X509} : Prop :=
  ∀ t keyPEM certPEM, createPair t = Ok (keyPEM, certPEM) → ∃ c, X509KeyPair certPEM keyPEM = Ok c.

Lemma afterRuns_safe `{X509} k files runs :
  separate k → kpMode k = "self_signed" → creates_pairs → Forall honest_run runs →
  safe_slots (view k files) → safe_slots (view k (afterRuns k files runs)).
Proof.
  intros Hsep Hmode Hc Hr. revert files. induction Hr as [|r runs [Hs Hf] _ IH]; intros files Hsafe; [done|].
  cbn. apply IH.
  pose proof (slots_ensure k Hsep _ Hs Hc (crGeneratedAt r) (crValidatedAt r) Hmode files _ Hf Hsafe) as Hpost.
  unfold ensureRun. destruct (ensureFiles _ _ _ _ _ _) as [[b|e] f' fs'|f']; cbn [post leaves] in *; [|by destruct Hpost|done].
  destruct Hpost as [? _]. by apply safe_settled.
Qed.

(** C17: From an installation that has neither key nor certificate, after any number of
    runs of the self-signed provisioning, each failing or stopping wherever it may, the
    files are in one of five states: nothing; a complete pair with nothing else beside
    it; or, always with the marker, no final file, the final key with the staged
    certificate that belongs to it, or both final files.  A run that returns without an
    error leaves exactly a private key that only the owner may read and the certificate
    that belongs to it. *)
Theorem generation_recovers `{X509} k files runs r :
  separate k → kpMode k = "self_signed" → creates_pairs → untouched (view k files) →
  Forall honest_run runs → honest_run r →
  safe_slots (view k (afterRuns k files runs)) ∧
  ∀ b f' rest, ensureRun k (afterRuns k files runs) r = Returned (Ok b) f' rest → settled (view k f').
Proof.
  intros Hsep Hmode Hc Hu Hr [Hs Hf].
  assert (Hsafe : safe_slots (view k (afterRuns k files runs))) by (apply afterRuns_safe; [done..|by left]).
  split; [done|]. intros b f' rest He. unfold ensureRun in He.
  pose proof (slots_ensure k Hsep _ Hs Hc (crGeneratedAt r) (crValidatedAt r) Hmode _ _ Hf Hsafe) as Hpost.
  rewrite He in Hpost. by destruct Hpost.
Qed.

(** C18: After any such history, a run in which nothing fails completes: with the
    directories there and a pair created, and with the interrupted pair still valid when
    its key is final already, it returns and leaves a complete pair. *)
Theorem generation_completes `{X509} k files runs generatedAt validatedAt pair :
  separate k → kpMode k = "self_signed" → creates_pairs → untouched (view k files) → Forall honest_run runs →
  let f := afterRuns k files runs in
  dirs_exist k f → createPair (selfTemplate k generatedAt) = Ok pair →
  f !! kpPrivateKeyFile k = None ∨ f !! generationMarker k = None ∨
    (∃ c, interruptedPair k validatedAt (λ _, None) f = Ok c) →
  ∃ b f', ensureRun k f (mkCertRun generatedAt validatedAt (λ _, None) []) = Returned (Ok b) f' [] ∧ settled (view k f').
Proof.
  intros Hsep Hmode Hc Hu Hr f Hd Hp Hv.
  assert (Hsafe : safe_slots (view k f)) by (apply afterRuns_safe; [done..|by left]).
  destruct (ensure_free k Hsep (λ _, None) ltac:(done) Hc f generatedAt validatedAt pair) as (b & f' & E); [done..|].
  exists b, f'. split; [exact E|].
  pose proof (slots_ensure k Hsep (λ _, None) ltac:(done) Hc generatedAt validatedAt Hmode f [] (Forall_nil_2 _) Hsafe) as Hpost.
  rewrite E in Hpost. by destruct Hpost.
Qed.

(** C40: Whatever is on the disk, in every mode and however a run ends, a key or
    certificate file that was there before it is there after it with the same content
    and permissions. *)
Theorem final_file_kept `{X509} k files r p perm body :
  separate k → (∀ q e, crStatFault r q = Some e → errors_Is e ErrNotExist = false) →
  p = kpPrivateKeyFile k ∨ p = kpCertificateFile k → files !! p = Some (Regular perm body) →
  leaves (ensureRun k files r) !! p = Some (Regular perm body).
Proof. intros Hsep Hs Hp Hf. by apply (final_kept_ensure k Hsep _ Hs p perm body Hp). Qed.

(** ** Serving *)

(** A handshake starts, or a pending one goes on to the end. *)
Inductive handshake :=
| Begins (since now : Z)
| Finishes (i : nat) (checkedAt finishedAt : Z) (files : tree).

(** The keeper, the handshakes that are reading the files, the certificates served with
    the times of the call, and the times at which reloads started, latest first. *)
Record serving := mkServing {
  svKeeper : Keeper; svPending : list reload; svServed : list (tlsCertificate * list Z); svStarts : list Z
}.

Definition noteServed (r : res tlsCertificate) (times : list Z) (served : list (tlsCertificate * list Z)) :=
  match r with Ok c => (c, times) :: served | Err _ => served end.

Definition handle `{X509} (s : serving) (h : handshake) : serving :=
  match h with
  | Begins since now =>
      match getBegin (svKeeper s) since now with
      | (inl r, k) => mkServing k (svPending s) (noteServed r [now] (svServed s)) (svStarts s)
      | (inr o, k) => mkServing k (svPending s ++ [o]) (svServed s) (now :: svStarts s)
      end
  | Finishes i checkedAt finishedAt files =>
      match svPending s !! i with
      | None => s
      | Some o =>
          let '(r, k) := getEnd (svKeeper s) checkedAt finishedAt o files in
          mkServing k (delete i (svPending s)) (noteServed r [checkedAt; finishedAt] (svServed s)) (svStarts s)
      end
  end.

(** A leaf for [hostname], made for servers, with the key served, in force at [t]. *)
Definition in_force `{X509} (hostname : string) (c : tlsCertificate) (t : Z) : Prop :=
  ∃ raw rest leaf, tcChain c = raw :: rest ∧ ParseCertificate raw = Ok leaf ∧
    lfNotBefore leaf ≤ t ≤ lfNotAfter leaf ∧ leafHasServerAuth leaf = Ok tt ∧
    (hostname = "" ∨ lfVerifyHostname leaf hostname = Ok tt) ∧
    ∀ key, tcPrivateKey c = Some key → matchKey leaf key = Ok tt.

(** Consecutive times at least a minute apart. *)
Definition spaced (starts : list Z) : Prop :=
  ∀ i a b, starts !! i = Some a → starts !! S i = Some b → reloadInterval ≤ a - b.

Section serving_facts.
Context `{X509}.
#[local] Arguments certificateValid : simpl never.

Lemma validated_in_force t c hostname : validateCertificate t c hostname = Ok tt → in_force hostname c t.
Proof.
  unfold validateCertificate. destruct (tcChain c) as [|raw rest] eqn:Ec; [done|].
  destruct (ParseCertificate raw) as [leaf|] eqn:Ep; [|done].
  destruct (match tcPrivateKey c with Some key => _ | None => _ end) as [[]|] eqn:Ek; cbn [res_bind]; [|done].
  destruct (Z.ltb_spec t (lfNotBefore leaf)); cbn [res_bind]; [done|].
  destruct (Z.ltb_spec (lfNotAfter leaf) t); cbn [res_bind]; [done|].
  destruct (leafHasServerAuth leaf) as [[]|] eqn:Ea; cbn [res_bind]; [|done].
  intros Hh. exists raw, rest, leaf. repeat split; [done..| |].
  - case_bool_decide; [by left|right]. by destruct (lfVerifyHostname leaf hostname) as [[]|].
  - intros key Hk. by rewrite Hk in Ek.
Qed.

Lemma valid_in_force t t' c hostname :
  in_force hostname c t → certificateValid (Some c) t' = true → in_force hostname c t'.
Proof.
  intros (raw & rest & leaf & Hc & Hp & _ & Ha & Hh & Hk). unfold certificateValid. destruct c as [chain key]. cbn in Hc. subst chain.
  rewrite Hp. intros [Hb%negb_true_iff Hn]%andb_true_iff. exists raw, rest, leaf. repeat split; try done; lia.
Qed.

Definition vetted (hostname : string) (o : option tlsCertificate) : Prop :=
  match o with Some c => ∃ t, in_force hostname c t | None => True end.

Lemma parsePair_vetted t k certPEM keyPEM c : parsePair t k certPEM keyPEM = Ok c → in_force (kpHostname k) c t.
Proof.
  unfold parsePair. destruct (X509KeyPair _ _) as [c'|]; [|done]. cbn [res_bind].
  destruct (validateCertificate _ _ _) as [[]|] eqn:Ev; [|done]. intros [= <-]. by apply validated_in_force.
Qed.

Definition serving_ok (hostname : string) (s : serving) : Prop :=
  kpHostname (svKeeper s) = hostname ∧ vetted hostname (kpCertificate (svKeeper s)) ∧
  Forall (λ o, vetted hostname (roCertificate o)) (svPending s) ∧
  Forall (λ '(c, ts), Exists (in_force hostname c) ts) (svServed s).

Lemma getBegin_ok hostname k since now r k' :
  kpHostname k = hostname → vetted hostname (kpCertificate k) → getBegin k since now = (r, k') →
  kpHostname k' = hostname ∧ vetted hostname (kpCertificate k') ∧
  match r with inl (Ok c) => in_force hostname c now | inl (Err _) => True | inr o => vetted hostname (roCertificate o) end.
Proof.
  intros Hh Hv. unfold getBegin. destruct (_ <? _).
  - intros [= <- <-]. split_and!; [done..|]. destruct (kpCertificate k) as [c|]; [|done].
    destruct (certificateValid (Some c) now) eqn:Ec; [|done]. destruct Hv as [t Ht]. by eapply valid_in_force.
  - intros [= <- <-]. by split_and!.
Qed.

Lemma finish_ok hostname k now o e r k' :
  kpHostname k = hostname → vetted hostname (kpCertificate k) → vetted hostname o →
  finishReloadError k now o e = (r, k') →
  kpHostname k' = hostname ∧ vetted hostname (kpCertificate k') ∧ ∀ c, r = Ok c → in_force hostname c now.
Proof.
  intros Hh Hv Ho. unfold finishReloadError. intros [= <- <-]. split_and!; [done..|]. intros c.
  destruct o as [c'|]; [|done]. destruct (certificateValid (Some c') now) eqn:Ec; [|done]. intros [= ->].
  destruct Ho as [t Ht]. by eapply valid_in_force.
Qed.

Lemma getEnd_ok hostname k checkedAt finishedAt o files r k' :
  kpHostname k = hostname → vetted hostname (kpCertificate k) → vetted hostname (roCertificate o) →
  getEnd k checkedAt finishedAt o files = (r, k') →
  kpHostname k' = hostname ∧ vetted hostname (kpCertificate k') ∧
  ∀ c, r = Ok c → in_force hostname c checkedAt ∨ in_force hostname c finishedAt.
Proof.
  intros Hh Hv Ho. unfold getEnd.
  assert (Hfin : ∀ e, finishReloadError k finishedAt (roCertificate o) e = (r, k') →
    kpHostname k' = hostname ∧ vetted hostname (kpCertificate k') ∧
    ∀ c, r = Ok c → in_force hostname c checkedAt ∨ in_force hostname c finishedAt).
  { intros e He. destruct (finish_ok hostname _ _ _ _ _ _ Hh Hv Ho He) as (? & ? & ?). split_and!; auto. }
  destruct (readPair k files) as [[[certPEM keyPEM] fingerprint]|e]; [|apply Hfin].
  destruct (bool_decide _).
  - destruct (roCertificate o) as [c|] eqn:Er; [|apply Hfin].
    destruct (certificateValid (Some c) checkedAt) eqn:Ec; [|apply Hfin]. intros [= <- <-]. split_and!; [done..|].
    intros c' [= <-]. left. destruct Ho as [t Ht]. by eapply valid_in_force.
  - destruct (parsePair _ _ _ _) as [c|e] eqn:Ep; [|apply Hfin]. apply parsePair_vetted in Ep. rewrite Hh in Ep.
    intros [= <- <-]. split_and!; [done| |].
    + by exists checkedAt.
    + intros c' [= <-]. by left.
Qed.

Lemma noteServed_ok hostname r ts served :
  (∀ c, r = Ok c → Exists (in_force hostname c) ts) →
  Forall (λ '(c, ts), Exists (in_force hostname c) ts) served →
  Forall (λ '(c, ts), Exists (in_force hostname c) ts) (noteServed r ts served).
Proof. intros Hr Hs. destruct r as [c|]; [|done]. cbn. constructor; auto. Qed.

Lemma handle_ok hostname s h : serving_ok hostname s → serving_ok hostname (handle s h).
Proof.
  intros (Hh & Hv & Hp & Hs). destruct h as [since now|i checkedAt finishedAt files]; cbn [handle].
  - destruct (getBegin _ _ _) as [r k'] eqn:E. destruct (getBegin_ok hostname _ _ _ _ _ Hh Hv E) as (Hh' & Hv' & Hr).
    destruct r as [r|o]; split_and!; cbn; try done.
    + apply noteServed_ok; [|done]. intros c ->. by constructor.
    + apply Forall_app. split; [done|]. by constructor.
  - destruct (svPending s !! i) as [o|] eqn:Eo; [|done].
    assert (Ho : vetted hostname (roCertificate o)) by (by eapply (Forall_lookup_1 _ _ _ _ Hp Eo)).
    destruct (getEnd _ _ _ _ _) as [r k'] eqn:E.
    destruct (getEnd_ok hostname _ _ _ _ _ _ _ Hh Hv Ho E) as (Hh' & Hv' & Hr). split_and!; cbn; try done.
    + by apply Forall_delete.
    + apply noteServed_ok; [|done]. intros c Hc. destruct (Hr c Hc); auto using Exists_cons_hd, Exists_cons_tl.
Qed.

Lemma handles_ok hostname s hs : serving_ok hostname s → serving_ok hostname (foldl handle s hs).
Proof. revert s. induction hs as [|h hs IH]; intros s Hs; [done|]. cbn. by apply IH, handle_ok. Qed.

Lemma getEnd_checked k checkedAt finishedAt o files : kpChecked (getEnd k checkedAt finishedAt o files).2 = kpChecked k.
Proof.
  unfold getEnd, finishReloadError. destruct (readPair _ _) as [[[] ?]|]; [|done]. destruct (bool_decide _).
  - destruct (roCertificate o); [|done]. by destruct (certificateValid _ _).
  - by destruct (parsePair _ _ _ _).
Qed.

Definition starts_ok (s : serving) : Prop :=
  spaced (svStarts s) ∧ ∀ t, head (svStarts s) = Some t → kpChecked (svKeeper s) = t.

Lemma handle_starts s h :
  match h with Begins since now => since ≤ now | Finishes _ _ _ _ => True end → starts_ok s → starts_ok (handle s h).
Proof.
  intros Hle [Hs Hc]. destruct h as [since now|i checkedAt finishedAt files]; cbn [handle].
  - unfold getBegin. destruct (Z.ltb_spec (since - kpChecked (svKeeper s)) reloadInterval); [done|].
    split; [|by intros t [= <-]]. cbn [svStarts]. intros [|i] a b Ha Hb; cbn in Ha, Hb; [|by eapply Hs].
    injection Ha as <-. rewrite (Hc b) in * by (by destruct (svStarts s)). lia.
  - destruct (svPending s !! i) as [o|]; [|done]. pose proof (getEnd_checked (svKeeper s) checkedAt finishedAt o files) as Hk.
    destruct (getEnd _ _ _ _ _) as [r k']. cbn in Hk. split; [done|]. cbn. by rewrite Hk.
Qed.

Lemma handles_starts s hs :
  Forall (λ h, match h with Begins since now => since ≤ now | Finishes _ _ _ _ => True end) hs →
  starts_ok s → starts_ok (foldl handle s hs).
Proof.
  intros Hf. revert s. induction Hf as [|h hs Hh _ IH]; intros s Hs; [done|]. cbn. by apply IH, handle_starts.
Qed.

(** C19: Once the certificate is loaded, every certificate any interleaving of handshakes
    and reloads serves, whatever the files hold then, is for the configured host name,
    for servers, belongs to the key served with it, and is in force at a time the call
    looked at; and reloads start at least a minute apart. *)
Theorem served_valid now checked k files c k' hs :
  loadKeeper now checked k files = (Ok c, k') →
  Forall (λ h, match h with Begins since now => since ≤ now | Finishes _ _ _ _ => True end) hs →
  Forall (λ '(c, ts), Exists (in_force (kpHostname k) c) ts) (svServed (foldl handle (mkServing k' [] [] []) hs)) ∧
  spaced (svStarts (foldl handle (mkServing k' [] [] []) hs)).
Proof.
  intros Hl Hc. split.
  - apply handles_ok. unfold loadKeeper, loadPair in Hl.
    destruct (readPair k files) as [[[certPEM keyPEM] fp]|]; [|done]. cbn [res_bind] in Hl.
    destruct (parsePair _ _ _ _) as [c'|] eqn:Ep; [|done]. cbn in Hl. injection Hl as -> <-.
    apply parsePair_vetted in Ep. repeat split; cbn; eauto.
  - apply handles_starts; [done|]. split; [by intros i a b|done].
Qed.

(** A renewal that cannot be read or is not valid never interrupts service: while
    the certificate held is in force, the call answers with a certificate, whatever is
    on the disk. *)
Theorem renewal_never_interrupts k since now checkedAt finishedAt files c :
  kpCertificate k = Some c → certificateValid (Some c) now = true → certificateValid (Some c) finishedAt = true →
  match getBegin k since now with
  | (inl r, _) => r = Ok c
  | (inr o, k') => ∃ c', (getEnd k' checkedAt finishedAt o files).1 = Ok c'
  end.
Proof.
  intros Hk Hn Hf. unfold getBegin. destruct (_ <? _); [by rewrite Hk, Hn|].
  unfold getEnd, finishReloadError. cbn [roCertificate roFingerprint]. rewrite Hk.
  destruct (readPair _ _) as [[[? ?] ?]|]; [|rewrite Hf; eauto]. destruct (bool_decide _).
  - destruct (certificateValid (Some c) checkedAt); [eauto|rewrite Hf; eauto].
  - destruct (parsePair _ _ _ _); [eauto|rewrite Hf; eauto].
Qed.
End serving_facts.

(** ** Instances *)

#[local] Instance sampleX509 : X509 := {
  X509KeyPair cert key :=
    if bool_decide (cert = "CERT" ∧ key = "KEY") then Ok (mkTlsCertificate ["LEAF"] (Some (mkTlsKey true true (λ _, true) (Ok "SPKI"))))
    else Err (Message "no pair");
  ParseCertificate raw :=
    if bool_decide (raw = "LEAF") then
      Ok (mkLeaf 0 (second * 1000000) ["mail.example.org"] [ExtKeyUsageServerAuth] 0
            (λ h, if bool_decide (h = "mail.example.org") then Ok tt else Err (Message "another name")) (Ok "SPKI"))
    else Err (Message "no certificate");
  VerifyLeaf _ _ _ _ := Err (Message "unknown authority");
  createPair _ := Ok ("KEY", "CERT");
  tenYears t := t + 3650 * 86400 * second
}.

Definition sampleKeeper : Keeper :=
  mkKeeper "/data/tls/cert.pem" "/data/tls/key.pem" 772 "mail.example.org" "self_signed" None "" 0 None.

Definition sampleDisk : tree := <["/data/tls" := Directory 448]> (<["/data" := Directory 448]> (<["/" := Directory 493]> ∅)).

(** Stopped within the staged certificate; then between the renames; then a failed
    removal of the marker. *)
Definition sampleRuns : list certRun :=
  [mkCertRun 7200000000000 0 (λ _, None) [Done; Done; Done; Done; Done; Crashed (Some "CE")];
   mkCertRun 7200000000000 5 (λ _, None) [Done; Done; Done; Done; Done; Done; Done; Done; Done; Done; Crashed None];
   mkCertRun 7200000000000 5 (λ _, None) [Done; Failed (Message "disk") None]].

Lemma sample_creates : creates_pairs.
Proof. intros t key cert [= <- <-]. eexists. reflexivity. Qed.

Lemma sample_separate : separate sampleKeeper.
Proof. refine (@bool_decide_unpack _ (separate_dec sampleKeeper) _). vm_compute. exact I. Qed.

Lemma sample_honest : Forall honest_run sampleRuns.
Proof. repeat constructor; done. Qed.

Lemma generation_recovers_witness :
  halfway (view sampleKeeper (afterRuns sampleKeeper sampleDisk (take 2 sampleRuns))) ∧
  closing (view sampleKeeper (afterRuns sampleKeeper sampleDisk sampleRuns)) ∧
  safe_slots (view sampleKeeper (afterRuns sampleKeeper sampleDisk sampleRuns)).
Proof.
  split; [|split].
  - vm_compute. repeat split. eexists. reflexivity.
  - vm_compute. repeat split. eexists. reflexivity.
  - apply (generation_recovers sampleKeeper sampleDisk sampleRuns (mkCertRun 0 5 (λ _, None) [])).
    + exact sample_separate.
    + reflexivity.
    + exact sample_creates.
    + vm_compute. reflexivity.
    + exact sample_honest.
    + split; [by intros|constructor].
Defined.

(** The run after the three: the marker goes and the pair stays. *)
Lemma generation_completes_witness :
  ∃ b f', ensureRun sampleKeeper (afterRuns sampleKeeper sampleDisk sampleRuns) (mkCertRun 0 5 (λ _, None) []) = Returned (Ok b) f' [] ∧
    settled (view sampleKeeper f').
Proof.
  apply (generation_completes sampleKeeper sampleDisk sampleRuns 0 5 ("KEY", "CERT")).
  - exact sample_separate.
  - reflexivity.
  - exact sample_creates.
  - vm_compute. reflexivity.
  - exact sample_honest.
  - repeat constructor; eexists; vm_compute; reflexivity.
  - reflexivity.
  - right. right. eexists. vm_compute. reflexivity.
Defined.

(** A key the operator put there, without its certificate: refused and kept. *)
Lemma final_file_kept_witness :
  leaves (ensureRun sampleKeeper (<["/data/tls/key.pem" := Regular 384 "OLD"]> sampleDisk) (mkCertRun 0 5 (λ _, None) [Crashed None]))
    !! "/data/tls/key.pem" = Some (Regular 384 "OLD").
Proof.
  apply final_file_kept.
  - exact sample_separate.
  - intros q e [=].
  - left. reflexivity.
  - reflexivity.
Defined.

Definition sampleServed : tree :=
  <["/data/tls/key.pem" := Regular 384 "KEY"]> (<["/data/tls/cert.pem" := Regular 420 "CERT"]> sampleDisk).

(** A handshake within the minute, then one that finds a broken renewal. *)
Definition sampleHandshakes : list handshake :=
  [Begins (30 * second) (30 * second); Begins (90 * second) (90 * second);
   Finishes 0 (91 * second) (91 * second) (<["/data/tls/cert.pem" := Regular 420 "BROKEN"]> sampleServed)].

Lemma served_valid_witness :
  length (svServed (foldl handle (mkServing (loadKeeper 5 5 sampleKeeper sampleServed).2 [] [] []) sampleHandshakes)) = 2%nat ∧
  Forall (λ '(c, ts), Exists (in_force "mail.example.org" c) ts)
    (svServed (foldl handle (mkServing (loadKeeper 5 5 sampleKeeper sampleServed).2 [] [] []) sampleHandshakes)) ∧
  spaced (svStarts (foldl handle (mkServing (loadKeeper 5 5 sampleKeeper sampleServed).2 [] [] []) sampleHandshakes)).
Proof.
  split; [vm_compute; reflexivity|].
  apply (served_valid 5 5 sampleKeeper sampleServed
    (mkTlsCertificate ["LEAF"] (Some (mkTlsKey true true (λ _, true) (Ok "SPKI"))))).
  - vm_compute. reflexivity.
  - repeat constructor; lia.
Defined.

Lemma renewal_never_interrupts_witness :
  match getBegin (loadKeeper 5 5 sampleKeeper sampleServed).2 (90 * second) (90 * second) with
  | (inl r, _) => r = Ok (mkTlsCertificate ["LEAF"] (Some (mkTlsKey true true (λ _, true) (Ok "SPKI"))))
  | (inr o, k') => ∃ c', (getEnd k' (91 * second) (91 * second) o sampleDisk).1 = Ok c'
  end.
Proof. apply renewal_never_interrupts; vm_compute; reflexivity. Defined.
