(* ===== verification/Create.v ===== *)
(** * Configuration files, and creating an OpenPGP identity
    (src/internal/config/load.go, save.go, config_file_linux.go;
    src/internal/openpgp/create.go)

    A configuration file is read whole, decoded over the defaults and validated; it is
    saved by replacing it, or created where there is none.  [Create] generates an
    encrypted key for an exact sender of an account, writes the key and its passphrase
    beneath the data directory and adds the identity to the configuration file; a
    failure before the configuration is replaced takes the files back.  The file changes
    are those of Certs.v, each with its fate.  The YAML library is the class [Yaml] and
    the OpenPGP library's key generation a parameter; a lock is a call that may fail, its
    own file not being part of the tree.  A temporary file left behind by a failed
    replacement is not part of the tree either.  [save_atomic] and
    [ensure_overwrites_nothing] are about the configuration file alone;
    [identity_has_its_files] relates what it names to what is on the disk. *)

From S2P Require Import Prelude Errors GoLib Sha256 Capacity Utf8 Mailbox Text Base64 Password Paths SecretFiles Duration Users Netpolicy.
From S2P Require Import Discovery IpText Config ConfigFacts WkdHash PgpMime PgpKeys Wkd Certs.
Open Scope Z_scope.

Record CreatedKey := mkCreated { ckSender : string; ckFingerprint : string; ckSigningKey : string; ckPassphraseFile : string }.
Record generatedKey := mkGenerated { gkArmored : string; gkPassphrase : string; gkFingerprint : string }.

(** ** Configuration files *)

Class Yaml := {
  (** The commented encoding of a configuration. *)
  yamlEncode : Config → res string;
  (** The first document decoded over a configuration, unknown fields refused. *)
  yamlDecode : string → Config → res Config;
  (** What a second decoding meets: the end, another document, or an error. *)
  yamlRest : string → option (option error)
}.

Definition maxConfigFileBytes : Z := Z.shiftl 1 20.
Definition defaultConfigName : string := "config.yml".

(** [bytes.ReplaceAll(l, "\n#\n", "\n\n")]. *)
Fixpoint blankComments (l : bytes) : bytes :=
  match l with
  | a :: (b :: c :: rest) as tl =>
      if is_char 10 a && is_char 35 b && is_char 10 c then a :: c :: blankComments rest else a :: blankComments tl
  | l => l
  end.

Section config_files.
Context `{CaseTables} `{AddressParser} `{UrlParser} `{Yaml}.
Variable ToASCII : string → res string.
Variable scaled : Z → Z → Z → Z.
Variable cwd : string.
(** A file of mode 0440 is root's, and the process is root or of its group. *)
Variable rootReadable : bool.

Definition validateConfigPermissions (perm : Z) : res unit :=
  if Z.land perm 63 =? 0 then Ok tt
  else if rootReadable && (perm =? 288) then Ok tt
  else Err (Message "permissions allow group or other access").

Definition readConfigFile (files : tree) (path : string) (maximum : Z) : res string :=
  match files !! path with
  | None => Err ENOENT
  | Some (Symlink _) => Err ELOOP
  | Some (Regular perm content) =>
      let? _ := validateConfigPermissions perm in
      reject maximum <? str_len content with Message "exceeds the read limit" in
      Ok content
  | Some _ => Err (Message "must open as a regular file")
  end.

Definition LoadFile (files : tree) (path : string) : res Config :=
  let abs := filepath_Abs cwd path in
  match readConfigFile files abs maxConfigFileBytes with
  | Err e => Err (Wrap "config file" e)
  | Ok raw =>
      let? _ := rejectMultiDoc (str_list raw) in
      loadDecoded ToASCII scaled cwd abs (filepath_Dir abs) (λ base,
        let? cfg := yamlDecode raw base in
        match yamlRest raw with
        | None => Ok cfg
        | Some None => Err (Message "config contains trailing YAML content")
        | Some (Some e) => Err (Wrap "trailing YAML content" e)
        end)
  end.

Definition marshal (cfg : Config) : res string :=
  let? body := yamlEncode cfg in Ok (of_list (blankComments (str_list body))).

Definition savePath (cfg : Config) : string := if bool_decide (cPath cfg = "") then defaultConfigName else cPath cfg.

(** [disk.Write]: a complete temporary file takes the place of the old one. *)
Definition writeFile (path body : string) (mode : Z) : prog unit :=
  pbind (Mkdir (filepath_Dir path)) (λ _ files fs,
    act (<[path := Regular mode body]> files) (λ _, <[path := Regular mode body]> files) files fs).

Definition Save (cfg : Config) : prog unit := pbind (pret (marshal cfg)) (λ body, writeFile (savePath cfg) body 384).

Definition storeExclusive (cfg : Config) : prog unit :=
  pbind (pret (marshal cfg)) (λ body, WriteExclusive (savePath cfg) body 384).

(** A check of the tree. *)
Definition preads {A} (f : tree → res A) : prog A := λ files fs, Returned (f files) files fs.

(** A step whose failure is handled by what follows. *)
Definition ptry {A} (p : prog A) : prog (res A) := λ files fs,
  match p files fs with
  | Returned r files fs => Returned (Ok r) files fs
  | Stopped files => Stopped files
  end.

(** The configuration of a new installation. *)
Definition freshConfig (path : string) : Config :=
  let abs := filepath_Abs cwd path in
  applyDefaults (mkConfig abs (filepath_Dir abs) (cUserLookup Default) (cLogLevel Default) (cServer Default) (cReplyRejection Default)
    (cTLS Default) (cDomains Default) (cOpenPGP Default) (cDelivery Default) (cDNS Default) (cUsers Default)).

Definition EnsurePath (path : string) : prog (Config * bool) :=
  pbind (ptry (preads (λ files, LoadFile files path))) (λ r,
    match r with
    | Ok cfg => pret (Ok (cfg, false))
    | Err e =>
        if negb (errors_Is e ErrNotExist) then pret (Err e)
        else
          pbind (pret (Init ToASCII scaled cwd (freshConfig path))) (λ cfg,
            pbind (ptry (storeExclusive cfg)) (λ r,
              match r with
              | Ok _ => pret (Ok (cfg, true))
              | Err e =>
                  if errors_Is e ErrExist then preads (λ files, let? cfg := LoadFile files path in Ok (cfg, false))
                  else pret (Err e)
              end))
    end).

(** [LockForMutation]; [lock] is the answer of the lock, [others] what was changed by
    others before it. *)
Definition LockForMutation (path : string) (lock : res unit) (others : tree → tree) : prog Config := λ files fs,
  let abs := filepath_Abs cwd path in
  match (let? _ := LoadFile files abs in lock) with
  | Err e => Returned (Err e) files fs
  | Ok _ =>
      let files := others files in
      Returned (match LoadFile files abs with Err e => Err (Wrap "reload config under mutation lock" e) | Ok cfg => Ok cfg end) files fs
  end.

Definition UpdateFile (path : string) (lock : res unit) (others : tree → tree) : prog Config :=
  pbind (LockForMutation path lock others) (λ latest, pbind (Save latest) (λ _, pret (Ok latest))).
End config_files.

(** What the library answers ([cwArmor] is the armored private key, or the error with
    the step that met it), the lock of the configuration and what others did to the
    files before it was taken. *)
Record createWorld (Entity : Type) := mkCreateWorld {
  cwEntity : string → res Entity;
  cwRandom : res string;
  cwEncrypt : Entity → string → res Entity;
  cwArmor : Entity → res string;
  cwLock : res unit;
  cwOthers : tree → tree;
  cwRootReadable : bool;
  cwLstatFault : string → option error;
  cwNow : Z; cwLater : Z
}.
#[global] Arguments cwEntity {Entity} _.
#[global] Arguments cwRandom {Entity} _.
#[global] Arguments cwEncrypt {Entity} _.
#[global] Arguments cwArmor {Entity} _.
#[global] Arguments cwLock {Entity} _.
#[global] Arguments cwOthers {Entity} _.
#[global] Arguments cwRootReadable {Entity} _.
#[global] Arguments cwLstatFault {Entity} _.
#[global] Arguments cwNow {Entity} _.
#[global] Arguments cwLater {Entity} _.

(** ** Checks *)

Section checks.
Context `{CaseTables} `{AddressParser}.
Variable ToASCII : string → res string.

Definition canonicalSender (sender : string) : res string :=
  match Address_of ToASCII sender with
  | Err e => Err (Wrap "invalid sender" e)
  | Ok address => Ok (canonicalAddress address)
  end.

(** Before and after the last at sign. *)
Definition splitAt (address : string) : option (string * string) :=
  match last_index 64 (str_list address) with
  | Some i => Some (str_take i address, str_drop (S i) address)
  | None => None
  end.

Definition allowsExact (user : User) (sender : string) : bool :=
  match splitAt sender with
  | None => false
  | Some (local, domain) =>
      existsb (λ allowed,
        match splitAt allowed with
        | Some (allowedLocal, allowedDomain) =>
            negb (bool_decide (allowedLocal = "")) && negb (HasPrefix allowed "*") && bool_decide (allowedLocal = local) && EqualFold allowedDomain domain
        | None => false
        end) (AllowedSenders user)
  end.

Definition validateCreate (cfg : Config) (username sender : string) : res unit :=
  match UserOf cfg username with
  | None => Err (Message "user does not exist")
  | Some user =>
      reject negb (Enabled user) with Message "user is disabled" in
      reject negb (allowsExact user sender) with Message "sender is not an exact allowed sender" in
      reject existsb (λ i, bool_decide (iSender i = sender)) (pIdentities (cOpenPGP cfg)) with Message "OpenPGP identity already exists" in
      reject MaxOpenPGPIdentities <=? Z.of_nat (length (pIdentities (cOpenPGP cfg))) with Message "openpgp.identities already contains the maximum" in
      Ok tt
  end.

Definition hasConfiguredIdentity (cfg : Config) (wanted : OpenPGPIdentity) : bool :=
  existsb (λ i, bool_decide (iSender i = iSender wanted) && bool_decide (iSigningKey i = iSigningKey wanted)
             && bool_decide (iPassphraseFile i = iPassphraseFile wanted) && bool_decide (iSigning i = iSigning wanted)) (pIdentities (cOpenPGP cfg)).
End checks.

(** ** Files *)

(** An object of the tree lies in the directory. *)
Definition nonEmpty (files : tree) (dir : string) : bool :=
  existsb (λ p, bool_decide (filepath_Dir p = dir) && negb (bool_decide (p = dir))) (map_to_list files).*1.

(** [removeDurable]: a missing file is no failure; a directory must be empty. *)
Definition removeGenerated (path : string) : prog unit := λ files fs,
  match files !! path with
  | Some (Directory _) =>
      if nonEmpty files path then Returned (Err (Errno 39)) files fs
      else act (delete path files) (λ _, delete path files) files fs
  | _ => act (delete path files) (λ _, delete path files) files fs
  end.

Definition joinErr (result : option error) (r : res unit) (what : string) : option error :=
  match r with Ok _ => result | Err e => errors_Join result (Some (Wrap what e)) end.

Fixpoint rollbackGenerated (paths : list string) (result : option error) : prog (option error) :=
  match paths with
  | [] => pret (Ok result)
  | path :: paths => pbind (ptry (removeGenerated path)) (λ r, rollbackGenerated paths (joinErr result r "remove generated file"))
  end.

(** [rollback] of [Create]. *)
Definition rollback (directory : option string) (paths : list string) : prog (option error) :=
  pbind (rollbackGenerated paths None) (λ result,
    match directory with
    | None => pret (Ok result)
    | Some dir => pbind (ptry (removeGenerated dir)) (λ r, pret (Ok (joinErr result r "remove generated directory")))
    end).

(** The error with that of the rollback. *)
Definition failRolledBack {A} (err : error) (directory : option string) (paths : list string) : prog A :=
  pbind (rollback directory paths) (λ result, pret (Err (match result with Some e => Join err e | None => err end))).

Section create.
Context {Entity : Type} `{PgpLib Entity} `{CaseTables} `{AddressParser} `{UrlParser} `{Yaml}.
Variable ToASCII : string → res string.
Variable scaled : Z → Z → Z → Z.
Variable cwd : string.
Variable w : createWorld Entity.

Definition generateKey (sender : string) : res generatedKey :=
  match cwEntity w sender with
  | Err e => Err (Wrap "generate OpenPGP key" e)
  | Ok entity =>
      match cwRandom w with
      | Err e => Err (Wrap "generate OpenPGP passphrase" e)
      | Ok random =>
          let passphrase := EncodeToString random in
          match cwEncrypt w entity passphrase with
          | Err e => Err (Wrap "encrypt OpenPGP private key" e)
          | Ok entity =>
              let? body := cwArmor w entity in
              reject maxKeyBytes <? str_len body with Message "generated OpenPGP private key exceeds size limit" in
              Ok (mkGenerated body passphrase (hexUpper (enFingerprint entity)))
          end
      end
  end.

(** [disk.EnsurePrivateRoot]. *)
Definition EnsurePrivateRoot (path : string) : prog unit := λ files fs,
  match ValidatePath files (cwLstatFault w) cwd path with
  | Err e => Returned (Err e) files fs
  | Ok _ => pbind (Mkdir (filepath_Abs cwd path)) (λ _ files fs, Returned (ValidatePrivateDirectory files path) files fs) files fs
  end.

Definition pnamed {A} (what : string) (p : prog A) : prog A := λ files fs,
  match p files fs with
  | Returned r files fs => Returned (named what r) files fs
  | Stopped files => Stopped files
  end.

Definition keyRelative (g : generatedKey) : string := "openpgp/senders/" +:+ ToLowerText (gkFingerprint g) +:+ ".private.asc".
Definition passRelative (g : generatedKey) : string := "openpgp/senders/" +:+ ToLowerText (gkFingerprint g) +:+ ".passphrase".

Definition newIdentity (sender : string) (g : generatedKey) : OpenPGPIdentity :=
  mkIdentity sender (keyRelative g) (passRelative g) "required" false.

Definition withIdentity (cfg : Config) (identity : OpenPGPIdentity) : Config :=
  let p := cOpenPGP cfg in
  with_openpgp (mkOpenPGP (pIdentities p ++ [identity]) (pRecipientKeysDirectory p) (pRequireEncryptionFor p) (pUseWKD p) (pWKDCacheDirectory p)) cfg.

(** From the validation of the new configuration on, with both files written. *)
Definition commitIdentity (latest : Config) (sender : string) (g : generatedKey) (directory : option string) (keyPath passPath : string)
    : prog CreatedKey :=
  let identity := newIdentity sender g in
  let undo {A} err : prog A := failRolledBack err directory [passPath; keyPath] in
  match Init ToASCII scaled cwd (withIdentity latest identity) with
  | Err e => undo e
  | Ok latest => λ files fs,
      match LoadSigners cwd latest files (cwLstatFault w) (cwNow w) (cwLater w) with
      | Err e => undo (Wrap "validate generated OpenPGP key" e) files fs
      | Ok _ =>
          pbind (ptry (Save latest)) (λ r,
            match r with
            | Ok _ => pret (Ok (mkCreated sender (gkFingerprint g) (keyRelative g) (passRelative g)))
            | Err e => λ files fs,
                match LoadFile ToASCII scaled cwd (cwRootReadable w) files (cPath latest) with
                | Err e' => Returned (Err (Join e (Wrap "config commit outcome is unknown; generated key files were preserved" e'))) files fs
                | Ok reloaded =>
                    if hasConfiguredIdentity reloaded identity
                    then Returned (Err (Wrap "config was replaced but durability confirmation failed; generated key files were preserved" e)) files fs
                    else undo e files fs
                end
            end) files fs
      end
  end.

(** The two files. *)
Definition installKey (latest : Config) (sender : string) (g : generatedKey) (directory : option string) (keyPath passPath : string)
    : prog CreatedKey :=
  pbind (ptry (WriteExclusive keyPath (gkArmored g) 384)) (λ r,
    match r with
    | Err e =>
        if errors_Is e ErrExist then pret (Err (Wrap "write OpenPGP private key" e))
        else failRolledBack (Wrap "write OpenPGP private key" e) directory [keyPath]
    | Ok _ =>
        pbind (ptry (WriteExclusive passPath (gkPassphrase g +:+ of_list [LF]) 384)) (λ r,
          match r with
          | Err e =>
              if errors_Is e ErrExist then failRolledBack (Wrap "write OpenPGP passphrase file" e) directory [keyPath]
              else failRolledBack (Wrap "write OpenPGP passphrase file" e) directory [passPath; keyPath]
          | Ok _ => commitIdentity latest sender g directory keyPath passPath
          end)
    end).

Definition createDataDir (cfg : Config) : string := ResolvedDataDir cwd (cBaseDir cfg) (sDataDirectory (cServer cfg)).

(** The sender directory is made, and whether it was missing. *)
Definition prepareDirectory (latest : Config) (keyPath : string) : prog (option string) := λ files fs,
  let directory := filepath_Dir keyPath in
  match Lstat files (cwLstatFault w) directory with
  | Err e =>
      if errors_Is e ErrNotExist
      then pbind (pnamed "prepare private OpenPGP directory" (EnsurePrivateRoot directory)) (λ _, pret (Ok (Some directory))) files fs
      else Returned (Err (Wrap "inspect private OpenPGP sender directory" e)) files fs
  | Ok _ => pbind (pnamed "prepare private OpenPGP directory" (EnsurePrivateRoot directory)) (λ _, pret (Ok None)) files fs
  end.

(** What is decided before any file is touched: the canonical sender and the new key;
    then, under the lock, the configuration and the paths. *)
Definition createPlan (configPath username sender : string) (files : tree) : res (string * generatedKey) :=
  let? sender := canonicalSender ToASCII sender in
  let? initial := LoadFile ToASCII scaled cwd (cwRootReadable w) files configPath in
  let? _ := validateCreate initial username sender in
  let? g := generateKey sender in
  Ok (sender, g).

Definition createPaths (latest : Config) (username sender : string) (g : generatedKey) : res (string * string) :=
  let? _ := validateCreate latest username sender in
  let? keyPath := ResolveGeneratedPath cwd (cBaseDir latest) (sDataDirectory (cServer latest)) (keyRelative g) in
  let? passPath := ResolveGeneratedPath cwd (cBaseDir latest) (sDataDirectory (cServer latest)) (passRelative g) in
  Ok (keyPath, passPath).

(** Under the lock. *)
Definition createLocked (latest : Config) (sender : string) (g : generatedKey) (keyPath passPath : string) : prog CreatedKey :=
  pbind (pnamed "validate private data directory" (preads (λ files, ValidatePath files (cwLstatFault w) cwd (createDataDir latest)))) (λ _,
  pbind (pnamed "prepare private data directory" (EnsurePrivateRoot (createDataDir latest))) (λ _,
  pbind (prepareDirectory latest keyPath) (λ directory,
  pbind (pnamed "check generated OpenPGP path"
           (preads (λ files, CheckGeneratedParents files (cwLstatFault w) (filepath_Abs cwd (filepath_Clean (createDataDir latest))) keyPath))) (λ _,
  installKey latest sender g directory keyPath passPath)))).

Definition Create (configPath username sender : string) : prog CreatedKey :=
  pbind (preads (createPlan configPath username sender)) (λ '(sender, g),
  pbind (LockForMutation ToASCII scaled cwd (cwRootReadable w) configPath (cwLock w) (cwOthers w)) (λ latest,
  pbind (pret (createPaths latest username sender g)) (λ '(keyPath, passPath),
  createLocked latest sender g keyPath passPath))).
End create.

(** ** What a change leaves alone *)

Lemma missingDirs_absent fuel files path acc missing q :
  missingDirs fuel files path acc = Ok missing → q ∈ missing → q ∈ acc ∨ ∃ e, follow maxLinks files q = Err e.
Proof.
  revert path acc. induction fuel as [|fuel IH]; intros path acc; [done|]. cbn [missingDirs].
  destruct (follow maxLinks files path) as [[]|e] eqn:Ef; try done; [by intros [= <-]; left|].
  destruct (negb _); [done|]. cbn [res_bind]. destruct (bool_decide _); [done|]. cbn [res_bind].
  intros Hm Hq. destruct (IH _ _ Hm Hq) as [Ha|Ha]; [|by right]. apply elem_of_cons in Ha as [->|Ha]; [right; eauto|by left].
Qed.

(** [q] keeps the regular file it has. *)
Definition leavesFile {A} (q : string) (p : prog A) : Prop :=
  ∀ files fs m b, files !! q = Some (Regular m b) → leaves (p files fs) !! q = Some (Regular m b).

Lemma leavesFile_bind {A B} q (p : prog A) (k : A → prog B) : leavesFile q p → (∀ a, leavesFile q (k a)) → leavesFile q (pbind p k).
Proof.
  intros Hp Hk files fs m b Hq. specialize (Hp files fs m b Hq). unfold pbind.
  destruct (p files fs) as [[a|e] f' fs'|f']; [|done..]. by apply Hk.
Qed.

Lemma leavesFile_pure {A} q (f : tree → res A) : leavesFile q (preads f).
Proof. by intros files fs m b Hq. Qed.

Lemma leavesFile_ret {A} q (r : res A) : leavesFile q (pret r).
Proof. by intros files fs m b Hq. Qed.

Lemma leavesFile_try {A} q (p : prog A) : leavesFile q p → leavesFile q (ptry p).
Proof. intros Hp files fs m b Hq. specialize (Hp files fs m b Hq). unfold ptry. by destruct (p files fs). Qed.

Lemma leavesFile_named {A} q what (p : prog A) : leavesFile q p → leavesFile q (pnamed what p).
Proof. intros Hp files fs m b Hq. specialize (Hp files fs m b Hq). unfold pnamed. by destruct (p files fs). Qed.

Lemma act_lookup full partial files fs q x :
  files !! q = x → full !! q = x → (∀ c, partial c !! q = x) → leaves (act full partial files fs) !! q = x.
Proof. intros ? ? ?. unfold act. destruct fs as [|[|e [c|]|[c|]] fs]; cbn [leaves]; auto. Qed.

Lemma leavesFile_Mkdir q path : leavesFile q (Mkdir path).
Proof.
  intros files fs m b Hq. unfold Mkdir. destruct (missingDirs _ _ _ _) as [missing|] eqn:Em; [|done].
  assert (Hn : q ∉ missing).
  { intros Hin. destruct (missingDirs_absent _ _ _ _ _ _ Em Hin) as [Ha|[e He]]; [by apply elem_of_nil in Ha|].
    unfold maxLinks in He. cbn [follow] in He. by rewrite Hq in He. }
  apply act_lookup; [done|by rewrite addDirs_lookup|]. intros c. rewrite addDirs_lookup; [done|].
  intros Hin. apply Hn. apply elem_of_take in Hin as (i & Hi & _). by eapply list_elem_of_lookup_2.
Qed.

Lemma leavesFile_WriteExclusive q path body mode : leavesFile q (WriteExclusive path body mode).
Proof.
  apply leavesFile_bind; [apply leavesFile_Mkdir|]. intros _ files fs m b Hq.
  destruct (files !! path) eqn:Ep; [done|]. apply act_lookup; [done|..]; intros; rewrite lookup_insert_ne; congruence.
Qed.

Lemma leavesFile_writeFile q path body mode : q ≠ path → leavesFile q (writeFile path body mode).
Proof.
  intros Hne. apply leavesFile_bind; [apply leavesFile_Mkdir|]. intros _ files fs m b Hq.
  apply act_lookup; [done|..]; intros; by rewrite lookup_insert_ne.
Qed.

Lemma leavesFile_remove q path : q ≠ path → leavesFile q (removeGenerated path).
Proof.
  intros Hne files fs m b Hq. unfold removeGenerated.
  assert (Ha : leaves (act (delete path files) (λ _, delete path files) files fs) !! q = Some (Regular m b))
    by (apply act_lookup; [done|..]; intros; by rewrite lookup_delete_ne).
  destruct (files !! path) as [[]|]; try done. by destruct (nonEmpty files path).
Qed.

Lemma leavesFile_rollback q paths result : q ∉ paths → leavesFile q (rollbackGenerated paths result).
Proof.
  revert result. induction paths as [|p paths IH]; intros result Hn; [apply leavesFile_ret|]. cbn [rollbackGenerated].
  apply leavesFile_bind; [apply leavesFile_try, leavesFile_remove; set_solver|]. intros r. apply IH. set_solver.
Qed.

Lemma leavesFile_fail {A} q err directory paths :
  q ∉ paths → (∀ d, directory = Some d → q ≠ d) → leavesFile q (@failRolledBack A err directory paths).
Proof.
  intros Hp Hd. apply leavesFile_bind; [|intros; apply leavesFile_ret]. apply leavesFile_bind; [by apply leavesFile_rollback|].
  intros result. destruct directory as [d|]; [|apply leavesFile_ret].
  apply leavesFile_bind; [apply leavesFile_try, leavesFile_remove; auto|intros; apply leavesFile_ret].
Qed.

(** [q] keeps what it has, or is gone. *)
Definition onlyRemoves {A} (q : string) (p : prog A) : Prop :=
  ∀ files fs, leaves (p files fs) !! q = files !! q ∨ leaves (p files fs) !! q = None.

Lemma onlyRemoves_ret {A} q (r : res A) : onlyRemoves q (pret r).
Proof. intros files fs. by left. Qed.

Lemma onlyRemoves_bind {A B} q (p : prog A) (k : A → prog B) : onlyRemoves q p → (∀ a, onlyRemoves q (k a)) → onlyRemoves q (pbind p k).
Proof.
  intros Hp Hk files fs. specialize (Hp files fs). unfold pbind.
  destruct (p files fs) as [[a|e] f' fs'|f']; [|done..]. cbn [leaves] in Hp. destruct (Hk a f' fs') as [-> | ->]; [done|by right].
Qed.

Lemma onlyRemoves_remove q path : onlyRemoves q (ptry (removeGenerated path)).
Proof.
  intros files fs.
  assert (Ha : ∀ x, x = files ∨ x = delete path files → x !! q = files !! q ∨ x !! q = None).
  { intros x [-> | ->]; [by left|]. destruct (decide (q = path)) as [-> |Hne]; [right; apply lookup_delete_eq|].
    left. by rewrite lookup_delete_ne. }
  unfold ptry, removeGenerated, act. apply Ha.
  destruct (files !! path) as [[]|]; try destruct (nonEmpty files path); try (by left);
    destruct fs as [|[|e [c|]|[c|]] fs]; cbn [leaves]; auto.
Qed.

Lemma onlyRemoves_fail {A} q err directory paths : onlyRemoves q (@failRolledBack A err directory paths).
Proof.
  apply onlyRemoves_bind; [|intros; apply onlyRemoves_ret]. apply onlyRemoves_bind.
  - generalize (@None error). induction paths as [|p paths IH]; intros result; [apply onlyRemoves_ret|].
    apply onlyRemoves_bind; [apply onlyRemoves_remove|intros r; apply IH].
  - intros result. destruct directory; [|apply onlyRemoves_ret].
    apply onlyRemoves_bind; [apply onlyRemoves_remove|intros; apply onlyRemoves_ret].
Qed.

Lemma WriteExclusive_wrote path body mode files fs f' fs' :
  WriteExclusive path body mode files fs = Returned (Ok tt) f' fs' → f' !! path = Some (Regular mode body).
Proof.
  unfold WriteExclusive, pbind. destruct (Mkdir _ files fs) as [[[]|e] f1 fs1|f1]; [|done..].
  destruct (f1 !! path); [done|]. unfold act. destruct fs1 as [|[|e [c|]|[c|]] fs1]; intros [= <- <-]; apply lookup_insert_eq.
Qed.

Lemma WriteExclusive_absent path body mode files fs f' fs' m b :
  WriteExclusive path body mode files fs = Returned (Ok tt) f' fs' → files !! path ≠ Some (Regular m b).
Proof.
  unfold WriteExclusive, pbind. intros Hw Hq. pose proof (leavesFile_Mkdir path (filepath_Dir path) files fs m b Hq) as Hl.
  destruct (Mkdir _ files fs) as [[[]|e] f1 fs1|f1]; [|done..]. cbn [leaves] in Hl. by rewrite Hl in Hw.
Qed.

(** A saved configuration is the old file or the new one, whole, however the saving
    ends; every other file stays. *)
Theorem save_atomic `{Yaml} cfg q files fs m b :
  files !! q = Some (Regular m b) →
  leaves (Save cfg files fs) !! q = Some (Regular m b) ∨
  q = savePath cfg ∧ ∃ body, marshal cfg = Ok body ∧ leaves (Save cfg files fs) !! q = Some (Regular 384 body).
Proof.
  intros Hq. unfold Save, pbind at 1, pret. destruct (marshal cfg) as [body|e]; [|by left].
  destruct (decide (q = savePath cfg)) as [Hs|Hne]; [|left; by apply leavesFile_writeFile].
  unfold writeFile, pbind. pose proof (leavesFile_Mkdir q (filepath_Dir (savePath cfg)) files fs m b Hq) as Hl.
  destruct (Mkdir _ files fs) as [[[]|e] f' fs'|f']; cbn [leaves] in Hl; [|by left..]. rewrite <- Hs.
  unfold act. destruct fs' as [|[|e [c|]|[c|]] fs']; cbn [leaves]; try (by left);
    right; (split; [done|]; eexists; split; [done|apply lookup_insert_eq]).
Qed.

(** Making sure that a configuration exists changes no file that exists. *)
Theorem ensure_overwrites_nothing `{CaseTables} `{AddressParser} `{UrlParser} `{Yaml} ToASCII scaled cwd rootReadable path q :
  leavesFile q (EnsurePath ToASCII scaled cwd rootReadable path).
Proof.
  apply leavesFile_bind; [apply leavesFile_try, leavesFile_pure|]. intros [cfg|e]; [apply leavesFile_ret|].
  destruct (negb _); [apply leavesFile_ret|]. apply leavesFile_bind; [apply leavesFile_ret|]. intros cfg.
  apply leavesFile_bind; [apply leavesFile_try, leavesFile_bind; [apply leavesFile_ret|intros; apply leavesFile_WriteExclusive]|].
  intros [[]|e']; [apply leavesFile_ret|]. destruct (errors_Is e' ErrExist); [apply leavesFile_pure|apply leavesFile_ret].
Qed.

(** ** The configuration names no identity without its files *)

Section created.
Context {Entity : Type} `{PgpLib Entity} `{CaseTables} `{AddressParser} `{UrlParser} `{Yaml}.
Variable ToASCII : string → res string.
Variable scaled : Z → Z → Z → Z.
Variable cwd : string.
Variable w : createWorld Entity.
Variables configPath username : string.
(** The path and the base directory are not fields of the YAML document. *)
Hypothesis decode_keeps_path : ∀ raw base cfg, yamlDecode raw base = Ok cfg → cPath cfg = cPath base.
Hypothesis config_absolute : filepath_Abs cwd configPath = configPath.
Hypothesis config_named : configPath ≠ "".
Variable sender : string.
Variable g : generatedKey.
Variables keyPath passPath : string.

Notation load files := (LoadFile ToASCII scaled cwd (cwRootReadable w) files configPath).
Notation Init' := (Init ToASCII scaled cwd).

(** Both files are there, whole and private. *)
Definition installed (files : tree) : Prop :=
  files !! keyPath = Some (Regular 384 (gkArmored g)) ∧ files !! passPath = Some (Regular 384 (gkPassphrase g +:+ of_list [LF])).

(** The configuration file names the new identity. *)
Definition namesIdentity (files : tree) : Prop :=
  ∃ cfg, load files = Ok cfg ∧ hasConfiguredIdentity cfg (newIdentity sender g) = true.

Lemma Validate_path cfg c : Validate ToASCII scaled cwd cfg = Ok c → cPath c = cPath cfg.
Proof.
  unfold Validate. intros Hv. destruct (negb _); [done|].
  repeat match type of Hv with res_bind ?r _ = _ => destruct r; [cbn [res_bind] in Hv|done] end. by injection Hv as <-.
Qed.

Lemma Init_path cfg c : Init' cfg = Ok c → cPath c = cPath cfg.
Proof.
  unfold Init. destruct (Validate _ _ _ _) as [v|] eqn:Ev; [|done]. cbn [res_bind]. intros [= <-].
  exact (Validate_path _ _ Ev).
Qed.

Lemma load_regular files cfg : load files = Ok cfg → ∃ m b, files !! configPath = Some (Regular m b).
Proof. unfold LoadFile, readConfigFile. rewrite config_absolute. destruct (files !! configPath) as [[]|]; naive_solver. Qed.

Lemma load_path files cfg : load files = Ok cfg → cPath cfg = configPath.
Proof.
  unfold LoadFile. rewrite config_absolute. destruct (readConfigFile _ _ _ _) as [raw|]; [|done].
  destruct (rejectMultiDoc _); [|done]. cbn [res_bind]. unfold loadDecoded.
  destruct (yamlDecode raw _) as [c|] eqn:Ed; [|done]. cbn [res_bind]. apply decode_keeps_path in Ed. cbn [cPath] in Ed.
  destruct (yamlRest raw) as [[]|]; [done..|]. cbn [res_bind]. intros Hi. apply Init_path in Hi. by rewrite Hi.
Qed.

Lemma load_same files files' : files !! configPath = files' !! configPath → load files = load files'.
Proof. unfold LoadFile, readConfigFile. rewrite config_absolute. by intros ->. Qed.

Lemma load_gone files : files !! configPath = None → ¬ namesIdentity files.
Proof. intros Hn (cfg & Hl & _). apply load_regular in Hl as (m & b & Hl). congruence. Qed.

Lemma validated_unnamed files cfg : load files = Ok cfg → validateCreate cfg username sender = Ok tt → ¬ namesIdentity files.
Proof.
  intros Hl Hv (cfg' & Hl' & Hi). rewrite Hl in Hl'. injection Hl' as <-. unfold validateCreate in Hv.
  destruct (UserOf cfg username); [|done]. destruct (negb (Enabled _)); [done|]. destruct (negb (allowsExact _ _)); [done|].
  destruct (existsb (λ i, bool_decide (iSender i = sender)) _) eqn:Ee; [done|].
  apply not_true_iff_false in Ee. apply Ee. unfold hasConfiguredIdentity in Hi.
  apply existsb_exists in Hi as (i & Hin & Hi). apply existsb_exists. exists i. split; [done|].
  by apply andb_true_iff in Hi as [[[? _]%andb_true_iff _]%andb_true_iff _].
Qed.

Lemma unnamed_same files files' :
  ¬ namesIdentity files → files' !! configPath = files !! configPath ∨ files' !! configPath = None → ¬ namesIdentity files'.
Proof.
  intros Hn [Hs|Hg]; [|by apply load_gone]. intros (cfg & Hl & Hi). apply Hn. exists cfg. by rewrite <- (load_same _ _ Hs).
Qed.

(** However a run ends: what the configuration names is installed, and so is what was
    reported as created. *)
Definition sound (o : outcome CreatedKey) : Prop :=
  (namesIdentity (leaves o) → installed (leaves o)) ∧ (∀ c files fs, o = Returned (Ok c) files fs → installed files).

(** The configuration is there and does not name the identity. *)
Definition unnamed (files : tree) : Prop := (∃ m b, files !! configPath = Some (Regular m b)) ∧ ¬ namesIdentity files.

Lemma sound_installed o : installed (leaves o) → sound o.
Proof. intros Hi. split; [done|]. by intros c f fs ->. Qed.

Lemma sound_unnamed o : ¬ namesIdentity (leaves o) → (∀ c files fs, o ≠ Returned (Ok c) files fs) → sound o.
Proof. intros Hn Ho. split; [done|]. intros c f fs E. by apply Ho in E. Qed.

Lemma sound_fail err directory paths files fs : ¬ namesIdentity files → sound (failRolledBack err directory paths files fs).
Proof.
  intros Hn. apply sound_unnamed.
  - eapply unnamed_same; [exact Hn|apply onlyRemoves_fail].
  - intros c f fs'. unfold failRolledBack, pbind, pret. by destruct (rollback directory paths files fs) as [[]|].
Qed.

Lemma unnamed_leaves {A} (p : prog A) files fs : leavesFile configPath p → unnamed files → unnamed (leaves (p files fs)).
Proof.
  intros Hp [(m & b & Hm) Hn]. pose proof (Hp _ fs _ _ Hm) as Hm'. split; [eauto|]. eapply unnamed_same; [exact Hn|left; congruence].
Qed.

Lemma sound_bind {A} (p : prog A) k files fs :
  leavesFile configPath p → (∀ a files fs, unnamed files → sound (k a files fs)) → unnamed files → sound (pbind p k files fs).
Proof.
  intros Hp Hk Hu. pose proof (unnamed_leaves p files fs Hp Hu) as Hu'. unfold pbind.
  destruct (p files fs) as [[a|e] f' fs'|f']; cbn [leaves] in Hu'; [by apply Hk|apply sound_unnamed; [apply Hu'|done]..].
Qed.

Lemma sound_commit latest directory files fs :
  cPath latest = configPath → configPath ≠ keyPath → configPath ≠ passPath → installed files → ¬ namesIdentity files →
  sound (commitIdentity ToASCII scaled cwd w latest sender g directory keyPath passPath files fs).
Proof.
  intros Hp Hk Hs [Hik Hip] Hn. unfold commitIdentity.
  destruct (Init' (withIdentity latest (newIdentity sender g))) as [new|e] eqn:Ei; [|by apply sound_fail].
  apply Init_path in Ei. change (cPath (withIdentity _ _)) with (cPath latest) in Ei. rewrite Hp in Ei.
  destruct (LoadSigners _ _ _ _ _ _) as [sg|e]; [|by apply sound_fail].
  assert (Hl : ∀ q, q ≠ configPath → leavesFile q (Save new)).
  { intros q Hq. apply leavesFile_bind; [apply leavesFile_ret|]. intros body. apply leavesFile_writeFile.
    unfold savePath. rewrite Ei. by rewrite bool_decide_false. }
  assert (Hi : installed (leaves (Save new files fs))) by (split; apply Hl; done).
  unfold pbind, ptry. destruct (Save new files fs) as [[[]|e] f' fs'|f']; try by apply sound_installed. cbn [leaves] in Hi.
  rewrite Ei. destruct (load f') as [re|e'] eqn:El; [|by apply sound_installed].
  destruct (hasConfiguredIdentity re _) eqn:Eh; [by apply sound_installed|]. apply sound_fail.
  intros (cfg & Hc & Hcfg). congruence.
Qed.

Lemma sound_install latest directory files fs : cPath latest = configPath → unnamed files →
  sound (installKey ToASCII scaled cwd w latest sender g directory keyPath passPath files fs).
Proof.
  intros Hp Hu. unfold installKey. unfold pbind at 1, ptry at 1.
  pose proof (unnamed_leaves _ files fs (leavesFile_WriteExclusive configPath keyPath (gkArmored g) 384) Hu) as Hu1.
  destruct (WriteExclusive keyPath _ _ files fs) as [[[]|e] f1 fs1|f1] eqn:E1; cbn [leaves] in Hu1.
  2: destruct (errors_Is e ErrExist); [apply sound_unnamed; [apply Hu1|done]|apply sound_fail, Hu1].
  2: apply sound_unnamed; [apply Hu1|done].
  assert (Hck : configPath ≠ keyPath).
  { destruct Hu as [(m & b & Hm) _]. intros Hq. rewrite Hq in Hm. by eapply WriteExclusive_absent. }
  apply WriteExclusive_wrote in E1. set (pass := gkPassphrase g +:+ of_list [LF]).
  unfold pbind at 1, ptry at 1. pose proof (unnamed_leaves _ f1 fs1 (leavesFile_WriteExclusive configPath passPath pass 384) Hu1) as Hu2.
  pose proof (leavesFile_WriteExclusive keyPath passPath pass 384 f1 fs1 _ _ E1) as Hk2.
  destruct (WriteExclusive passPath _ _ f1 fs1) as [[[]|e] f2 fs2|f2] eqn:E2; cbn [leaves] in Hu2, Hk2.
  2: destruct (errors_Is e ErrExist); apply sound_fail, Hu2.
  2: apply sound_unnamed; [apply Hu2|done].
  assert (Hcp : configPath ≠ passPath).
  { destruct Hu1 as [(m & b & Hm) _]. intros Hq. rewrite Hq in Hm. by eapply WriteExclusive_absent. }
  apply WriteExclusive_wrote in E2. apply sound_commit; try done. apply Hu2.
Qed.

Lemma leavesFile_EnsurePrivateRoot path : leavesFile configPath (EnsurePrivateRoot cwd w path).
Proof.
  intros files fs m b Hm. unfold EnsurePrivateRoot. destruct (ValidatePath _ _ _ _); [|done].
  eapply (leavesFile_bind _ (Mkdir _) (λ _ files fs, Returned (ValidatePrivateDirectory files path) files fs)); [apply leavesFile_Mkdir| |done].
  by intros _ f' fs' m' b' Hm'.
Qed.

Lemma leavesFile_prepare latest : leavesFile configPath (prepareDirectory cwd w latest keyPath).
Proof.
  intros files fs m b Hm. unfold prepareDirectory.
  destruct (Lstat _ _ _) as [i|e]; [|destruct (errors_Is e ErrNotExist); [|done]];
    (eapply leavesFile_bind; [apply leavesFile_named, leavesFile_EnsurePrivateRoot|intros; apply leavesFile_ret|done]).
Qed.

Lemma sound_locked latest files fs : cPath latest = configPath → unnamed files →
  sound (createLocked ToASCII scaled cwd w latest sender g keyPath passPath files fs).
Proof.
  intros Hp. apply sound_bind; [apply leavesFile_named, leavesFile_pure|]. intros _ f1 fs1.
  apply sound_bind; [apply leavesFile_named, leavesFile_EnsurePrivateRoot|]. intros _ f2 fs2.
  apply sound_bind; [apply leavesFile_prepare|]. intros directory f3 fs3.
  apply sound_bind; [apply leavesFile_named, leavesFile_pure|]. intros _ f4 fs4. by apply sound_install.
Qed.

Lemma plan_unnamed requested files :
  createPlan ToASCII scaled cwd w configPath username requested files = Ok (sender, g) → unnamed files.
Proof.
  unfold createPlan. destruct (canonicalSender _ _) as [s|]; [|done]. cbn [res_bind].
  destruct (load files) as [initial|] eqn:El; [|done]. cbn [res_bind].
  destruct (validateCreate initial username s) as [[]|] eqn:Ev; [|done]. cbn [res_bind].
  destruct (generateKey w s) as [g'|]; [|done]. cbn [res_bind]. intros [= -> ->].
  split; [by eapply load_regular|by eapply validated_unnamed].
Qed.

(** C16: Whenever and however [Create] ends, between any two changes of the files and with
    any of them failed or cut short, a configuration file that names the new identity
    has its private key and its passphrase on the disk, complete and private; so has a
    run that reports success.  No configuration is saved ahead of its files, and no
    rollback takes the files of a configuration that was replaced after all. *)
Theorem identity_has_its_files requested latest files fs :
  createPlan ToASCII scaled cwd w configPath username requested files = Ok (sender, g) →
  load (cwOthers w files) = Ok latest →
  createPaths cwd latest username sender g = Ok (keyPath, passPath) →
  (namesIdentity (leaves (Create ToASCII scaled cwd w configPath username requested files fs)) →
     installed (leaves (Create ToASCII scaled cwd w configPath username requested files fs))) ∧
  (∀ c files' fs', Create ToASCII scaled cwd w configPath username requested files fs = Returned (Ok c) files' fs' → installed files').
Proof.
  intros Hplan Hlatest Hpaths. change (sound (Create ToASCII scaled cwd w configPath username requested files fs)).
  pose proof (plan_unnamed _ _ Hplan) as Hu. unfold Create. unfold pbind at 1, preads. rewrite Hplan.
  unfold pbind at 1, LockForMutation. rewrite config_absolute.
  destruct (let? _ := load files in cwLock w) as [[]|e]; [|apply sound_unnamed; [apply Hu|done]].
  rewrite Hlatest. unfold pbind at 1, pret. rewrite Hpaths. apply sound_locked; [by eapply load_path|].
  split; [by eapply load_regular|]. eapply validated_unnamed; [exact Hlatest|]. revert Hpaths. unfold createPaths.
  by destruct (validateCreate _ _ _) as [[]|].
Qed.
End created.

(** ** A sample *)

#[local] Existing Instances plainParser mailtoParser.

(** A key is the text of its identity, encrypted. *)
#[local] Instance sampleKeyLib : PgpLib string := {
  ReadArmoredKeyRing _ := Err (Message "no armor");
  ReadKeyRing s := Ok [s];
  enPrivate _ := Some (mkPrivateKey false true);
  enSubkeys _ := [];
  enUsers s := [sampleUser s];
  enFingerprint s := s;
  enPrimary s := Ok s;
  enRevocations _ := [];
  enSelf _ := None;
  EncryptionKey s _ := Some (mkEncryptionKey s PubKeyAlgoRSA true (Ok 3072));
  SigningKey _ _ := Some true;
  DecryptPrivateKeys s _ := Ok s;
  signsEmpty _ := Ok tt;
  encryptArmored s _ m := Ok (str_list "armored" ++ [LF])
}.

Definition sampleCreate : createWorld string :=
  mkCreateWorld string (λ s, Ok s) (Ok "secret") (λ e _, Ok e) (λ e, Ok e) (Ok tt) (λ files, files) false (λ _, None) 0 0.

Definition sampleGenerated : generatedKey :=
  match generateKey sampleCreate "alice@example.org" with Ok g => g | Err _ => mkGenerated "" "" "" end.

(** Two documents: the sample configuration, and the same with the new identity. *)
Definition sampleDocument (identities : list OpenPGPIdentity) (base : Config) : Config :=
  let p := cOpenPGP Default in
  let c := with_openpgp (mkOpenPGP identities (pRecipientKeysDirectory p) (pRequireEncryptionFor p) (pUseWKD p) (pWKDCacheDirectory p)) sampleWritten in
  mkConfig (cPath base) (cBaseDir base) (cUserLookup c) (cLogLevel c) (cServer c) (cReplyRejection c) (cTLS c) (cDomains c) (cOpenPGP c)
    (cDelivery c) (cDNS c) (cUsers c).

#[local] Instance sampleYaml : Yaml := {
  yamlEncode c := Ok (match pIdentities (cOpenPGP c) with [] => "plain" | _ => "keyed" end);
  yamlDecode raw base :=
    if bool_decide (raw = "plain") then Ok (sampleDocument [] base)
    else if bool_decide (raw = "keyed") then Ok (sampleDocument [newIdentity "alice@example.org" sampleGenerated] base)
    else Err (Message "unknown document");
  yamlRest _ := None
}.

Lemma sampleYaml_path raw base cfg : yamlDecode raw base = Ok cfg → cPath cfg = cPath base.
Proof. cbn [yamlDecode sampleYaml]. do 2 (destruct (bool_decide _); [by intros [= <-]|]). done. Qed.

Definition sampleFiles : tree :=
  <["/srv/config.yml" := Regular 384 "plain"]> (<["/srv" := Directory 448]> (<["/" := Directory 493]> ∅)).

Definition sampleRun (fs : list fate) : outcome CreatedKey :=
  Create sampleIDNA (λ f u d, 0) "/" sampleCreate "/srv/config.yml" "alice" "alice@Example.org" sampleFiles fs.

(** The paths of the sample. *)
Definition sampleKeyPath : string := "/srv/data/" +:+ keyRelative sampleGenerated.
Definition samplePassPath : string := "/srv/data/" +:+ passRelative sampleGenerated.

Example sampleRun_ok :
  match sampleRun [] with
  | Returned (Ok c) files _ => (ckSender c, files !! "/srv/config.yml", files !! sampleKeyPath)
  | Returned (Err e) files _ => ("", None, None)
  | Stopped files => ("", None, None)
  end = ("alice@example.org", Some (Regular 384 "keyed"), Some (Regular 384 "alice@example.org")).
Proof. vm_compute. reflexivity. Qed.

(** The replacement of the configuration takes place but reports an error: the files
    are kept.  It does not take place: they are taken back. *)
Definition lateFailure : list fate := replicate 7 Done ++ [Failed (Message "sync") (Some "")].
Definition earlyFailure : list fate := replicate 7 Done ++ [Failed (Message "rename") None].

Example earlyFailure_undone : leaves (sampleRun earlyFailure) !! sampleKeyPath = None ∧ leaves (sampleRun earlyFailure) !! samplePassPath = None ∧
  leaves (sampleRun earlyFailure) !! "/srv/config.yml" = Some (Regular 384 "plain").
Proof. split_and!; vm_compute; reflexivity. Qed.

Lemma identity_has_its_files_witness :
  is_ok (match sampleRun lateFailure with Returned r _ _ => r | Stopped _ => Err ENOENT end) = false ∧
  installed sampleGenerated sampleKeyPath samplePassPath (leaves (sampleRun lateFailure)).
Proof.
  split; [vm_compute; reflexivity|].
  destruct (LoadFile sampleIDNA (λ f u d, 0) "/" false sampleFiles "/srv/config.yml") as [latest|e] eqn:El; [|exfalso; vm_compute in El; discriminate El].
  destruct (identity_has_its_files sampleIDNA (λ f u d, 0) "/" sampleCreate "/srv/config.yml" "alice" sampleYaml_path
    ltac:(vm_compute; reflexivity) ltac:(discriminate) "alice@example.org" sampleGenerated sampleKeyPath samplePassPath
    "alice@Example.org" latest sampleFiles lateFailure) as [Hn _].
  - vm_compute; reflexivity.
  - exact El.
  - assert (E : Ok latest = LoadFile sampleIDNA (λ f u d, 0) "/" false sampleFiles "/srv/config.yml") by (symmetry; exact El).
    vm_compute in E. injection E as ->. vm_compute. reflexivity.
  - apply Hn. destruct (LoadFile sampleIDNA (λ f u d, 0) "/" false (leaves (sampleRun lateFailure)) "/srv/config.yml") as [c|e] eqn:Ec;
      [|exfalso; vm_compute in Ec; discriminate Ec].
    exists c. split; [exact Ec|]. vm_compute in Ec. injection Ec as <-. vm_compute. reflexivity.
Defined.
