(* ===== verification/Publish.v ===== *)
(** * The publication bundle (src/internal/openpgp/publish.go)

    [Publish] writes the public keys of the configured identities as a directory to be
    served: armored keys and both layouts of a web key directory.  It is built beside
    the target and renamed into place.  The tree of files is that of SecretFiles.v.

    [published_or_nothing]: whatever fails on the way, either nothing is at the target and
    the tree is as it was, but for what could not be removed of the temporary directory,
    or the target holds the complete bundle, with every key where [lookup] of wkd.go asks
    for it, the policy files and the manifest. *)

From S2P Require Import Prelude Errors GoLib Sha256 Capacity Utf8 Mailbox Text Base64 Password Paths SecretFiles Duration Users.
From S2P Require Import Netpolicy Discovery IpText Config ConfigFacts DnsRecords PgpMime PgpKeys WkdHash Wkd.
Open Scope Z_scope.

(** [filepath.Join] of elements none of which is empty. *)
Definition filepath_JoinAll (es : list string) : string := filepath_Clean (join_with "/" es).

Record PublishResult := mkPublishResult {
  prSender : string; prFingerprint : string; prPublicKey : string; prAdvancedWKD : string; prDirectWKD : string
}.

Record publicationArtifact := mkArtifact { arPath : string; arBody : string }.

(** Which calls fail: creating a directory or changing its mode, creating a file, the
    rest of writing it (with what was written by then), syncing a directory, the
    rename, the sync after it, and removing a file or directory. *)
Record pubWorld := mkPubWorld {
  dirFault : string → option error; fileFault : string → option error; bodyFault : string → option (error * string);
  dirSync : string → option error; renameFault : option error; renameSync : option error;
  removeFault : string → bool
}.

(** [p] is [root] or beneath it. *)
Definition under (root p : string) : bool := bool_decide (p = root) || HasPrefix p (root +:+ "/").

Section publish.
Context {Entity : Type} `{PgpLib Entity} `{CaseTables} `{AddressParser}.
Variable ToASCII : string → res string.
(** [armorPublicKey]: the library's armor. *)
Variable armorPublicKey : string → res string.
Variable w : pubWorld.

(** ** Artifacts *)

Fixpoint makeDirs (files : tree) (missing : list string) : res unit * tree :=
  match missing with
  | [] => (Ok tt, files)
  | path :: missing =>
      match dirFault w path, files !! path with
      | Some e, _ => (Err e, files)
      | None, Some _ => (Err (Errno 17), files)
      | None, None => makeDirs (<[path := Directory 493]> files) missing
      end
  end.

(** [os.Chmod] of a directory. *)
Definition chmodDir (path : string) (files : tree) : tree :=
  match files !! path with Some (Directory _) => <[path := Directory 493]> files | _ => files end.

(** [os.MkdirAll]. *)
Definition MkdirAll (files : tree) (path : string) : res unit * tree :=
  match missingDirs (S (String.length path)) files path [] with
  | Err e => (Err e, files)
  | Ok missing => makeDirs files missing
  end.

Definition pubState : Type := gmap string string * tree.

Definition writePublicArtifact (root : string) (a : publicationArtifact) (st : pubState) : res unit * pubState :=
  let '(written, files) := st in
  let key := ToLowerText (filepath_Clean (arPath a)) in
  match written !! key with
  | Some previous =>
      (if bool_decide (previous = arBody a) then Ok tt else Err (Message "publication path collision"), st)
  | None =>
      let written := <[key := arBody a]> written in
      let path := filepath_Join root (arPath a) in
      let directory := filepath_Dir path in
      match MkdirAll files directory with
      | (Err e, files) => (Err e, (written, files))
      | (Ok _, files) =>
          match dirFault w directory with
          | Some e => (Err e, (written, files))
          | None =>
              let files := chmodDir directory files in
              match fileFault w path, files !! path with
              | Some e, _ => (Err e, (written, files))
              | None, Some _ => (Err (Errno 17), (written, files))
              | None, None =>
                  match bodyFault w path with
                  | Some (e, partial) => (Err e, (written, <[path := Regular 420 partial]> files))
                  | None => (Ok tt, (written, <[path := Regular 420 (arBody a)]> files))
                  end
              end
          end
      end
  end.

Fixpoint writeArtifacts (root : string) (l : list publicationArtifact) (st : pubState) : res unit * pubState :=
  match l with
  | [] => (Ok tt, st)
  | a :: l =>
      match writePublicArtifact root a st with
      | (Err e, st) => (Err (Wrap "publish" e), st)
      | (Ok _, st) => writeArtifacts root l st
      end
  end.

(** ** The bundle *)

Definition wkdAdvanced (domain : string) : list string :=
  ["wkd"; "advanced"; "openpgpkey." +:+ domain; ".well-known"; "openpgpkey"; domain].
Definition wkdDirect (domain : string) : list string := ["wkd"; "direct"; domain; ".well-known"; "openpgpkey"].

Definition keyFile (identity : PublicIdentity) : string := ToLowerText (piFingerprint identity) +:+ ".asc".

(** The files of one identity. *)
Definition identityArtifacts (identity : PublicIdentity) (domain hash armored : string) : list publicationArtifact :=
  [mkArtifact (filepath_JoinAll ["keys"; keyFile identity]) armored;
   mkArtifact (filepath_JoinAll (wkdAdvanced domain ++ ["hu"; hash])) (piKey identity);
   mkArtifact (filepath_JoinAll (wkdDirect domain ++ ["hu"; hash])) (piKey identity);
   mkArtifact (filepath_JoinAll (wkdAdvanced domain ++ ["policy"])) "";
   mkArtifact (filepath_JoinAll (wkdDirect domain ++ ["policy"])) ""].

Definition newline : string := of_list [LF].

Definition manifestHead : string :=
  "outboxd OpenPGP publication bundle" +:+ newline +:+ newline
  +:+ "Serve one WKD layout over HTTPS and publish fingerprints through a separate trusted channel." +:+ newline
  +:+ "The advanced layout is preferred; the direct layout is provided for compatible deployments." +:+ newline +:+ newline.

Definition manifestEntry (identity : PublicIdentity) (local domain hash : string) : string :=
  piSender identity +:+ newline +:+ "  fingerprint " +:+ piFingerprint identity +:+ newline
  +:+ "  public key  " +:+ filepath_JoinAll ["keys"; keyFile identity] +:+ newline
  +:+ "  advanced    https://openpgpkey." +:+ domain +:+ "/.well-known/openpgpkey/" +:+ domain +:+ "/hu/" +:+ hash
  +:+ "?l=" +:+ QueryEscape local +:+ newline
  +:+ "  direct      https://" +:+ domain +:+ "/.well-known/openpgpkey/hu/" +:+ hash +:+ "?l=" +:+ QueryEscape local
  +:+ newline +:+ newline.

Fixpoint publishIdentities (root : string) (identities : list PublicIdentity) (manifest : string) (results : list PublishResult)
    (st : pubState) : res (string * list PublishResult) * pubState :=
  match identities with
  | [] => (Ok (manifest, results), st)
  | identity :: identities =>
      match splitSender ToASCII (piSender identity) with
      | Err e => (Err e, st)
      | Ok (local, domain) =>
          let hash := wkdHash (wkdLocalPart local) in
          match armorPublicKey (piKey identity) with
          | Err e => (Err (Wrap "armor public key" e), st)
          | Ok armored =>
              match writeArtifacts root (identityArtifacts identity domain hash armored) st with
              | (Err e, st) => (Err e, st)
              | (Ok _, st) =>
                  publishIdentities root identities (manifest +:+ manifestEntry identity local domain hash)
                    (results ++ [mkPublishResult (piSender identity) (piFingerprint identity)
                       (filepath_JoinAll ["keys"; keyFile identity])
                       (filepath_JoinAll (wkdAdvanced domain ++ ["hu"; hash]))
                       (filepath_JoinAll (wkdDirect domain ++ ["hu"; hash]))]) st
              end
          end
      end
  end.

Definition writePublication (root : string) (identities : list PublicIdentity) (files : tree) : res (list PublishResult) * tree :=
  match publishIdentities root identities manifestHead [] (∅, files) with
  | (Err e, (_, files)) => (Err e, files)
  | (Ok (manifest, results), st) =>
      match writePublicArtifact root (mkArtifact "MANIFEST.txt" manifest) st with
      | (Err e, (_, files)) => (Err (Wrap "write publication manifest" e), files)
      | (Ok _, (_, files)) => (Ok results, files)
      end
  end.

(** [syncPublication]: every directory gets its mode, then all are synced, the longest
    paths first. *)
Definition chmodDirs (root : string) (files : tree) : tree :=
  map_imap (λ p n, Some (match n with Directory _ => if under root p then Directory 493 else n | _ => n end)) files.

Definition longer (a b : string) : Prop := (String.length b ≤ String.length a)%nat.
#[export] Instance longer_dec : RelDecision longer.
Proof. intros a b. unfold longer. apply _. Defined.

Definition directoriesUnder (root : string) (files : tree) : list string :=
  (filter (λ pn, under root pn.1 = true ∧ is_dir_node pn.2 = true) (map_to_list files)).*1.

Fixpoint syncAll (l : list string) : res unit :=
  match l with
  | [] => Ok tt
  | p :: l => match dirSync w p with Some e => Err (Wrap "sync publication directory" e) | None => syncAll l end
  end.

Definition syncPublication (root : string) (files : tree) : res unit * tree :=
  match find (λ p, is_some (dirFault w p)) (directoriesUnder root files) with
  | Some p => (Err (Wrap "walk publication directory" (default ENOENT (dirFault w p))), files)
  | None => (syncAll (merge_sort longer (directoriesUnder root files)), chmodDirs root files)
  end.

(** ** Publish *)

Definition moved (temporary target p : string) : string :=
  if under temporary p then target +:+ str_drop (String.length temporary) p else p.

(** The effect of renaming a directory. *)
Definition moveTree (temporary target : string) (files : tree) : tree :=
  list_to_map ((λ pn, (moved temporary target pn.1, pn.2)) <$> map_to_list files).

(** [disk.RenameNoReplace]. *)
Definition RenameNoReplace (temporary target : string) (files : tree) : res unit * tree :=
  match renameFault w, files !! target with
  | Some e, _ => (Err e, files)
  | None, Some _ => (Err (Errno 17), files)
  | None, None => (fault (renameSync w), moveTree temporary target files)
  end.

(** [os.RemoveAll], whose error the caller drops: what cannot be removed stays, with the
    directories it is in, and everything else beneath [root] goes. *)
Definition stuck (files : tree) (p : string) : bool := existsb (λ qn, under p qn.1 && removeFault w qn.1) (map_to_list files).

Definition removeTree (root : string) (files : tree) : tree :=
  filter (λ pn, under root pn.1 = false ∨ stuck files pn.1 = true) files.

Definition relocate (target : string) (r : PublishResult) : PublishResult :=
  mkPublishResult (prSender r) (prFingerprint r) (filepath_Join target (prPublicKey r)) (filepath_Join target (prAdvancedWKD r))
    (filepath_Join target (prDirectWKD r)).

(** From the temporary directory on. *)
Definition publishInto (temporary target : string) (identities : list PublicIdentity) (files : tree) : res (list PublishResult) * tree :=
  match dirFault w temporary with
  | Some e => (Err (Wrap "set publication directory mode" e), files)
  | None =>
      match writePublication temporary identities (<[temporary := Directory 493]> files) with
      | (Err e, files) => (Err e, files)
      | (Ok results, files) =>
          match syncPublication temporary files with
          | (Err e, files) => (Err e, files)
          | (Ok _, files) =>
              match RenameNoReplace temporary target files with
              | (Err e, files) => (Err (Wrap "commit publication directory" e), files)
              | (Ok _, files) => (Ok (relocate target <$> results), files)
              end
          end
      end
  end.

(** [loaded] is what [config.LoadFile] gave, [random] what [os.MkdirTemp] appended or
    its error. *)
Definition Publish (cwd : string) (lstatFault : string → option error) (now : Z) (loaded : res Config) (outputDirectory : string)
    (random : res string) (files : tree) : res (list PublishResult) * tree :=
  if bool_decide (TrimSpace outputDirectory = "") then (Err (Message "output directory is empty"), files)
  else
    let target := filepath_Abs cwd (filepath_Clean outputDirectory) in
    let parent := filepath_Dir target in
    match (let? cfg := loaded in
           let? identities := LoadPublic cwd cfg files lstatFault now in
           let? _ := match Lstat files lstatFault target with
                     | Ok _ => Err (Message "output directory already exists")
                     | Err e => if errors_Is e ErrNotExist then Ok tt else Err (Wrap "inspect output directory" e)
                     end in
           let? _ := OpenDirectory files parent in
           let? random := random in
           Ok (identities, filepath_Join parent ("." +:+ filepath_Base target +:+ ".tmp-" +:+ random))) with
    | Err e => (Err e, files)
    | Ok (identities, temporary) =>
        match publishInto temporary target identities (<[temporary := Directory 448]> files) with
        | (Err e, files) => (Err e, removeTree temporary files)
        | (Ok results, files) => (Ok results, files)
        end
    end.
End publish.
