(* ===== verification/PublishFacts.v ===== *)
(** * What publication leaves behind

    Everything [Publish] does before its rename happens beneath the temporary
    directory ([only_under]), and each artifact is written once under its own lower-case
    path; [published_or_nothing] puts the two together. *)

From S2P Require Import Prelude Errors GoLib Sha256 Capacity Utf8 Mailbox Text Base64 Password Paths SecretFiles Duration Users.
From S2P Require Import Netpolicy Discovery IpText Config ConfigFacts DnsRecords Signing PgpMime PgpKeys WkdHash Wkd Publish.
Open Scope Z_scope.

(** ** Paths *)

Lemma clean_elems_keep abs stack es : Forall plain_elem es → clean_elems abs stack es = rev stack ++ es.
Proof.
  revert stack. induction es as [|e es IH]; intros stack; cbn [clean_elems]; [by rewrite app_nil_r|].
  intros [(He & Hd & Hdd & _) Hes]%Forall_cons. rewrite !bool_decide_eq_false_2 by done. cbn [orb].
  rewrite IH by done. cbn [rev]. by rewrite <-app_assoc.
Qed.

Lemma join_with_app a b : a ≠ [] → b ≠ [] → join_with "/" (a ++ b) = join_with "/" a +:+ "/" +:+ join_with "/" b.
Proof.
  intros Ha Hb. induction a as [|x a IH]; [done|]. cbn [app]. rewrite join_with_cons. destruct a as [|y a].
  - cbn [app]. destruct b; [done|]. done.
  - cbn [app]. change (y :: a ++ b) with ((y :: a) ++ b). rewrite IH by done. rewrite (join_with_cons _ x (y :: a)).
    apply str_list_inj. by rewrite !str_list_app, <-!app_assoc.
Qed.

Lemma join_nonempty es : Forall plain_elem es → es ≠ [] → join_with "/" es ≠ "".
Proof.
  intros Hes Hne He. pose proof (Split_join es Hes Hne) as Hs. rewrite He in Hs. destruct es as [|e es]; [done|].
  apply Forall_cons in Hes as [(Hx & _) _]. cbn in Hs. by injection Hs as <- _.
Qed.

Lemma join_relative es : Forall plain_elem es → es ≠ [] → filepath_IsAbs (join_with "/" es) = false.
Proof.
  intros Hes Hne. destruct es as [|e es]; [done|]. apply Forall_cons in Hes as [(Hx & _ & _ & Hs) _].
  destruct e as [|c e]; [done|]. rewrite join_with_cons. assert (Hc : byte_val c ≠ 47) by (apply Hs; left).
  assert (H1 : filepath_IsAbs (String c e) = false ∧ ∀ t, filepath_IsAbs (String c e +:+ t) = false).
  { assert (E : is_prefix (str_list "/") [c] = false).
    { cbn. rewrite andb_true_r. apply bool_decide_eq_false_2. intros <-. by apply Hc. }
    unfold filepath_IsAbs, HasPrefix. cbn in E |- *. split; [|intros t]; exact E. }
  destruct es; [apply H1|apply H1].
Qed.

Lemma Clean_rel es : Forall plain_elem es → es ≠ [] → filepath_Clean (join_with "/" es) = join_with "/" es.
Proof.
  intros Hes Hne. unfold filepath_Clean. rewrite join_relative, Split_join, clean_elems_keep by done. cbn [rev app].
  by rewrite bool_decide_eq_false_2 by (by apply join_nonempty).
Qed.

Lemma abs_path_app es rel : es ≠ [] → rel ≠ [] → abs_path (es ++ rel) = abs_path es +:+ "/" +:+ join_with "/" rel.
Proof. intros He Hr. unfold abs_path. rewrite join_with_app by done. apply str_list_inj. by rewrite !str_list_app, <-!app_assoc. Qed.

Lemma Join_abs es rel : Forall plain_elem es → es ≠ [] → Forall plain_elem rel → rel ≠ [] →
  filepath_Join (abs_path es) (join_with "/" rel) = abs_path (es ++ rel).
Proof.
  intros Hes He Hrel Hr. unfold filepath_Join. rewrite (bool_decide_eq_false_2 (abs_path es = "")) by done.
  rewrite bool_decide_eq_false_2 by (by apply join_nonempty). rewrite <-abs_path_app by done.
  unfold filepath_Clean. change (filepath_IsAbs (abs_path (es ++ rel))) with true. cbn iota.
  change (Split (abs_path (es ++ rel)) 47) with ("" :: Split (join_with "/" (es ++ rel)) 47).
  rewrite Split_join by (by apply Forall_app || by destruct es). cbn [clean_elems]. rewrite bool_decide_eq_true_2 by done. cbn [orb].
  by rewrite clean_elems_keep by (by apply Forall_app).
Qed.

Lemma HasPrefix_app s t : HasPrefix (s +:+ t) s = true.
Proof. unfold HasPrefix. rewrite str_list_app. apply is_prefix_app. Qed.

Lemma under_abs es rel : es ≠ [] → under (abs_path es) (abs_path (es ++ rel)) = true.
Proof.
  intros He. unfold under. destruct rel as [|r rel]; [by rewrite app_nil_r, bool_decide_eq_true_2|].
  rewrite abs_path_app by done. apply orb_true_iff. right.
  replace (abs_path es +:+ "/" +:+ join_with "/" (r :: rel)) with ((abs_path es +:+ "/") +:+ join_with "/" (r :: rel))
    by (apply str_list_inj; by rewrite !str_list_app, <-!app_assoc). apply HasPrefix_app.
Qed.

Lemma Dir_rel es rel e : Forall plain_elem es → Forall plain_elem (rel ++ [e]) →
  filepath_Dir (abs_path (es ++ rel ++ [e])) = abs_path (es ++ rel).
Proof. intros Hes Hr. rewrite app_assoc. apply Dir_abs. rewrite <-app_assoc. by apply Forall_app. Qed.

(** What [under] says of the text. *)
Lemma under_spec root p : under root p = true ↔ ∃ t, p = root +:+ t ∧ (t = "" ∨ ∃ u, t = "/" +:+ u).
Proof.
  unfold under, HasPrefix. split.
  - intros [Hp%bool_decide_eq_true|Hp]%orb_true_iff.
    + exists "". split; [|by left]. apply str_list_inj. by rewrite str_list_app, app_nil_r, Hp.
    + apply is_prefix_true in Hp as [t Ht]. exists ("/" +:+ of_list t). split; [|right; by eexists].
      apply str_list_inj. rewrite Ht, !str_list_app, str_list_of_list, <-app_assoc. done.
  - intros (t & -> & [-> |(u & ->)]).
    + rewrite bool_decide_eq_true_2; [done|]. apply str_list_inj. by rewrite str_list_app, app_nil_r.
    + apply orb_true_iff. right. apply is_prefix_true. exists (str_list u). by rewrite !str_list_app, <-app_assoc.
Qed.

Lemma under_trans a b c : under a b = true → under b c = true → under a c = true.
Proof.
  intros (t & -> & Ht)%under_spec (u & -> & Hu)%under_spec. apply under_spec. exists (t +:+ u).
  split; [apply str_list_inj; by rewrite !str_list_app, <-app_assoc|].
  destruct Ht as [-> |(t' & ->)]; [exact Hu|]. right. exists (t' +:+ u). apply str_list_inj. by rewrite !str_list_app, <-app_assoc.
Qed.

(** ** Beneath the root *)

Lemma tree_ne (f : tree) p q n : p ≠ q → (<[p := n]> f : tree) !! q = f !! q.
Proof. apply lookup_insert_ne. Qed.

Lemma tree_eq (f : tree) p n : (<[p := n]> f : tree) !! p = Some n.
Proof. apply lookup_insert_eq. Qed.

Definition only_under (root : string) (f f' : tree) : Prop := ∀ p, under root p = false → f' !! p = f !! p.

(** Regular files stay as they are. *)
Definition keeps (f f' : tree) : Prop := ∀ p m b, f !! p = Some (Regular m b) → f' !! p = Some (Regular m b).

Definition is_directory (f : tree) (p : string) : Prop := ∃ m, f !! p = Some (Directory m).

Record extends (root : string) (f f' : tree) : Prop := {
  ex_under : only_under root f f';
  ex_keeps : keeps f f';
  ex_root : is_directory f root → is_directory f' root
}.

#[export] Instance extends_preorder root : PreOrder (extends root).
Proof.
  split; [intros f; split; [by intros p|by intros p|done]|]. intros f g h [U1 K1 R1] [U2 K2 R2]. split; [|intros p m b ?; by apply K2, K1|auto].
  intros p Hp. by rewrite U2, U1.
Qed.

Lemma extends_insert root f p n : under root p = true → f !! p = None → extends root f (<[p := n]> f).
Proof.
  intros Hu Hn. split.
  - intros q Hq. apply lookup_insert_ne. intros <-. by rewrite Hu in Hq.
  - intros q m b Hq. rewrite tree_ne; [done|]. intros <-. by rewrite Hn in Hq.
  - intros [m Hm]. exists m. rewrite tree_ne; [done|]. intros <-. by rewrite Hn in Hm.
Qed.

Lemma extends_chmod root f p : under root p = true → extends root f (chmodDir p f).
Proof.
  intros Hu. unfold chmodDir. destruct (f !! p) as [[| | |]|] eqn:Ep; try reflexivity. split.
  - intros q Hq. apply lookup_insert_ne. intros <-. by rewrite Hu in Hq.
  - intros q m b Hq. rewrite tree_ne; [done|]. intros <-. by rewrite Ep in Hq.
  - intros [m Hm]. destruct (decide (root = p)) as [-> |Hne]; [exists 493; by rewrite tree_eq|].
    exists m. by rewrite tree_ne.
Qed.

Lemma extends_makeDirs w root missing : ∀ f r f', Forall (λ p, under root p = true) missing →
  makeDirs w f missing = (r, f') → extends root f f'.
Proof.
  induction missing as [|p missing IH]; intros f r f' Hm He; cbn [makeDirs] in He; [by injection He as _ <-|].
  apply Forall_cons in Hm as [Hp Hm]. destruct (dirFault w p); [by injection He as _ <-|].
  destruct (f !! p) eqn:Ep; [by injection He as _ <-|]. transitivity (<[p := Directory 493]> f); [by apply extends_insert|].
  by eapply IH.
Qed.

Section root.
Context (es : list string).
Hypothesis (Hes : Forall plain_elem es) (Hne : es ≠ []).
Local Notation root := (abs_path es).

Lemma missing_under fuel : ∀ f rel acc missing, is_directory f root → Forall plain_elem rel →
  Forall (λ p, under root p = true) acc →
  missingDirs fuel f (abs_path (es ++ rel)) acc = Ok missing → Forall (λ p, under root p = true) missing.
Proof.
  induction fuel as [|fuel IH]; intros f rel acc missing Hr Hp Ha He; [done|]. cbn [missingDirs] in He.
  destruct (follow maxLinks f (abs_path (es ++ rel))) as [[| | |]|e] eqn:Ef; try done; [by injection He as <-|].
  destruct (errors_Is e ErrNotExist); [|done]. cbn [negb] in He.
  destruct (bool_decide (filepath_Dir (abs_path (es ++ rel)) = abs_path (es ++ rel))); [done|].
  destruct rel as [|x rel _] using rev_ind.
  - rewrite app_nil_r in Ef. destruct Hr as [m Hm]. unfold maxLinks in Ef. cbn [follow] in Ef. rewrite Hm in Ef. discriminate Ef.
  - rewrite Dir_rel in He by done. apply Forall_app in Hp as [Hrel Hx]. apply (IH f rel (abs_path (es ++ rel ++ [x]) :: acc)); [done|done| |done].
    constructor; [|done]. by apply under_abs.
Qed.

Lemma MkdirAll_extends w f rel r f' : is_directory f root → Forall plain_elem rel →
  MkdirAll w f (abs_path (es ++ rel)) = (r, f') → extends root f f'.
Proof.
  intros Hr Hp. unfold MkdirAll. destruct (missingDirs _ _ _ _) as [missing|] eqn:Em; [|by intros [= _ <-]].
  apply extends_makeDirs. by eapply missing_under; [| |constructor|].
Qed.

(** *** Lower-case path elements *)

Definition lower_text (s : string) : Prop := ∀ c, c ∈ str_list s → byte_val c < 128 ∧ lower_char c = c.

Definition file_elem (e : string) : Prop := plain_elem e ∧ lower_text e.

Lemma file_elems_plain rel : Forall file_elem rel → Forall plain_elem rel.
Proof. intros Hr. eapply Forall_impl; [exact Hr|]. by intros e [He _]. Qed.

Lemma lower_text_app a b : lower_text a → lower_text b → lower_text (a +:+ b).
Proof. intros Ha Hb c. rewrite str_list_app, elem_of_app. intros [?|?]; auto. Qed.

Lemma lower_join rel : Forall file_elem rel → lower_text (join_with "/" rel).
Proof.
  induction rel as [|e rel IH]; [intros _ c Hc; by apply elem_of_nil in Hc|]. intros [[_ He] Hrel]%Forall_cons.
  rewrite join_with_cons. destruct rel as [|x rel]; [done|]. repeat apply lower_text_app; [done| |by apply IH].
  intros c ->%list_elem_of_singleton. done.
Qed.

Context `{CaseTables}.

Lemma lower_text_id s : lower_text s → ToLowerText s = s.
Proof.
  intros Hs. rewrite lower_ascii.
  - apply str_list_inj. unfold ToLower. rewrite str_list_of_list. rewrite <-(map_id (str_list s)) at 2.
    apply map_ext_in. intros c Hc. by apply Hs, list_elem_of_In.
  - unfold is_ascii. apply forallb_forall. intros c Hc. apply Z.ltb_lt. by apply Hs, list_elem_of_In.
Qed.

Lemma artifact_key rel : Forall file_elem rel → rel ≠ [] → ToLowerText (filepath_Clean (join_with "/" rel)) = join_with "/" rel.
Proof. intros Hr Hn. rewrite Clean_rel by (done || by apply file_elems_plain). by apply lower_text_id, lower_join. Qed.

(** *** What has been written *)

Definition written_ok (st : pubState) : Prop := ∀ k b, st.1 !! k = Some b →
  ∃ rel, (1 < length rel)%nat ∧ Forall file_elem rel ∧ k = join_with "/" rel ∧ st.2 !! abs_path (es ++ rel) = Some (Regular 420 b).

Lemma written_extends written f f' : written_ok (written, f) → extends root f f' → written_ok (written, f').
Proof.
  intros Hw Hx k b Hk. destruct (Hw k b Hk) as (rel & Hn & Hf & -> & Hl). exists rel. split_and!; [done|done|done|].
  by apply (ex_keeps _ _ _ Hx).
Qed.

(** Creating one file beneath the root. *)
Lemma artifact_files w a rel written f r st' : is_directory f root → Forall plain_elem rel → rel ≠ [] →
  arPath a = join_with "/" rel → writePublicArtifact w root a (written, f) = (r, st') →
  extends root f st'.2 ∧
  (r = Ok tt → let key := ToLowerText (filepath_Clean (arPath a)) in
     st' = (written, f) ∧ written !! key = Some (arBody a) ∨
     st'.1 = <[key := arBody a]> written ∧ written !! key = None ∧ st'.2 !! abs_path (es ++ rel) = Some (Regular 420 (arBody a))).
Proof.
  intros Hd Hr Hn Ha. unfold writePublicArtifact. set (key := ToLowerText _).
  destruct (written !! key) as [previous|] eqn:Ew.
  { case_bool_decide; intros [= <- <-]; (split; [reflexivity|]); [|done]. subst. auto. }
  rewrite Ha, Join_abs by done. destruct rel as [|x rel _] using rev_ind; [done|]. rewrite Dir_rel by done.
  destruct (MkdirAll w f _) as [r1 f1] eqn:Em. apply Forall_app in Hr as Hr'. destruct Hr' as [Hrel _].
  pose proof (MkdirAll_extends _ _ _ _ _ Hd Hrel Em) as H1. destruct r1 as [[]|e]; [|by intros [= <- <-]].
  destruct (dirFault w _); [by intros [= <- <-]|].
  pose proof (extends_chmod root f1 (abs_path (es ++ rel)) (under_abs es rel Hne)) as H2.
  set (f2 := chmodDir _ f1) in *. assert (H12 : extends root f f2) by (by transitivity f1).
  destruct (fileFault w _); [by intros [= <- <-]|]. destruct (f2 !! _) eqn:El; [by intros [= <- <-]|].
  pose proof (under_abs es (rel ++ [x]) Hne) as Hu.
  destruct (bodyFault w _) as [[e partial]|]; intros [= <- <-]; (split; [transitivity f2; [done|by apply extends_insert]|]); [done|].
  intros _. right. cbn [fst snd]. by rewrite tree_eq.
Qed.

Lemma artifact_written w a rel st r st' : is_directory st.2 root → Forall file_elem rel → (1 < length rel)%nat →
  arPath a = join_with "/" rel → written_ok st → writePublicArtifact w root a st = (r, st') →
  extends root st.2 st'.2 ∧ (r = Ok tt → written_ok st' ∧ st.1 ⊆ st'.1 ∧ st'.1 !! arPath a = Some (arBody a)).
Proof.
  destruct st as [written f]. cbn [fst snd]. intros Hd Hr Hlen Ha Hw Hp. assert (Hn : rel ≠ []) by (by intros ->; cbn in Hlen; lia).
  destruct (artifact_files _ _ _ _ _ _ _ Hd (file_elems_plain _ Hr) Hn Ha Hp) as [Hx Hok]. split; [done|]. intros E.
  rewrite Ha in Hok. rewrite artifact_key in Hok by done. rewrite Ha.
  destruct (Hok E) as [[-> Hl]|(E1 & Hl & Hf)]; [done|]. rewrite E1, lookup_insert_eq.
  split_and!; [|by apply insert_subseteq|done].
  intros k b Hk. rewrite E1 in Hk. apply lookup_insert_Some in Hk as [[<- <-]|[_ Hk]].
  - exists rel. by rewrite Hf.
  - destruct st' as [written' f']. exact (written_extends _ _ _ Hw Hx k b Hk).
Qed.

Lemma artifacts_written w l : ∀ st r st', is_directory st.2 root → written_ok st →
  Forall (λ a, ∃ rel, (1 < length rel)%nat ∧ Forall file_elem rel ∧ arPath a = join_with "/" rel) l →
  writeArtifacts w root l st = (r, st') →
  extends root st.2 st'.2 ∧
  (r = Ok tt → written_ok st' ∧ st.1 ⊆ st'.1 ∧ ∀ a, a ∈ l → st'.1 !! arPath a = Some (arBody a)).
Proof.
  induction l as [|a l IH]; intros st r st' Hd Hw Hl; cbn [writeArtifacts].
  { intros [= <- <-]. split; [reflexivity|]. intros _. split_and!; [done|done|]. intros a Ha. by apply elem_of_nil in Ha. }
  apply Forall_cons in Hl as [(rel & Hn & Hr & Ha) Hl].
  destruct (writePublicArtifact w root a st) as [r1 st1] eqn:E1.
  destruct (artifact_written _ _ _ _ _ _ Hd Hr Hn Ha Hw E1) as [Hx Hok]. destruct r1 as [[]|e]; [|by intros [= <- <-]].
  destruct (Hok eq_refl) as (Hw1 & Hs1 & Hl1). intros He.
  destruct (IH st1 r st' (ex_root _ _ _ Hx Hd) Hw1 Hl He) as [Hx2 Hok2]. split; [by transitivity st1.2|]. intros E.
  destruct (Hok2 E) as (Hw2 & Hs2 & Hl2). split_and!; [done|by transitivity st1.1|].
  intros b [-> |Hb]%elem_of_cons; [by eapply lookup_weaken|by apply Hl2].
Qed.

(** *** The elements used *)

Lemma chars_file_elem e : (2 < String.length e)%nat →
  (∀ c, c ∈ str_list e → byte_val c ≠ 47 ∧ byte_val c < 128 ∧ lower_char c = c) → file_elem e.
Proof.
  intros Hl Hc. split; [split_and!|]; [by intros ->; cbn in Hl; lia..| |]; intros c Hin; by apply Hc.
Qed.

Lemma literal_file_elem e : (2 < String.length e)%nat →
  forallb (λ c, negb (byte_val c =? 47) && (byte_val c <? 128) && bool_decide (lower_char c = c)) (str_list e) = true → file_elem e.
Proof.
  intros Hl Hf. apply chars_file_elem; [done|]. intros c Hc. rewrite forallb_forall in Hf.
  apply list_elem_of_In, Hf in Hc. apply andb_true_iff in Hc as [Hc Hlow%bool_decide_eq_true].
  apply andb_true_iff in Hc as [Hs%negb_true_iff%Z.eqb_neq Ha%Z.ltb_lt]. done.
Qed.

Lemma hash_file_elem local : file_elem (wkdHash local).
Proof.
  assert (Hall : forallb (λ c, negb (byte_val c =? 47) && (byte_val c <? 128) && bool_decide (lower_char c = c))
            (str_list zBase32Alphabet) = true) by reflexivity.
  destruct (wkdHash_groups local) as [E Hlen]. apply literal_file_elem; [lia|]. rewrite E, str_list_of_list, forallb_forall.
  rewrite forallb_forall in Hall. intros c (i & -> & _)%list_elem_of_In%list_elem_of_fmap. apply Hall, list_elem_of_In.
  unfold zchar, group5. set (v := Z.land _ 31).
  assert (Hv : 0 ≤ v < 32).
  { unfold v. change 31 with (Z.ones 5). rewrite Z.land_ones by lia. apply Z.mod_pos_bound. lia. }
  destruct (str_list zBase32Alphabet !! Z.to_nat v) as [x|] eqn:Ex; [by eapply list_elem_of_lookup_2|].
  apply lookup_ge_None in Ex. change (length (str_list zBase32Alphabet)) with 32%nat in Ex. lia.
Qed.

Lemma upper_hex c : is_hex_lower c = true →
  byte_val c < 128 ∧ byte_val (upper_char c) < 128 ∧ lower_char (upper_char c) = c ∧ lower_char c = c ∧ byte_val c ≠ 47.
Proof.
  intros Hc. unfold is_hex_lower in Hc. assert (Hr : 48 ≤ byte_val c ≤ 57 ∨ 97 ≤ byte_val c ≤ 102).
  { unfold is_digit, between in Hc. lia. }
  unfold lower_char, upper_char, is_lower, is_upper, between.
  destruct ((97 <=? byte_val c) && (byte_val c <=? 122)) eqn:El.
  - rewrite byte_val_chr by lia. destruct ((65 <=? byte_val c - 32) && (byte_val c - 32 <=? 90)) eqn:Eu; [|lia].
    replace (byte_val c - 32 + 32) with (byte_val c) by lia. rewrite chr_byte_val.
    destruct ((65 <=? byte_val c) && (byte_val c <=? 90)) eqn:Eu'; [lia|]. split_and!; [lia|lia|done|done|lia].
  - destruct ((65 <=? byte_val c) && (byte_val c <=? 90)) eqn:Eu; [lia|]. split_and!; [lia|lia|done|done|lia].
Qed.

Lemma keyFile_elem identity f : piFingerprint identity = hexUpper f → file_elem (keyFile identity).
Proof.
  intros E. unfold keyFile. rewrite E.
  assert (Hx : ∀ c, c ∈ str_list (EncodeToString f) → is_hex_lower c = true).
  { intros c Hc. pose proof (EncodeToString_lower f) as Hf. rewrite forallb_forall in Hf. by apply Hf, list_elem_of_In. }
  assert (El : ToLowerText (hexUpper f) = EncodeToString f).
  { unfold hexUpper. rewrite lower_ascii.
    - apply str_list_inj. unfold ToLower, ToUpper. rewrite !str_list_of_list, map_map.
      rewrite <-(map_id (str_list (EncodeToString f))) at 2. apply map_ext_in. intros c Hc%list_elem_of_In. by apply upper_hex, Hx.
    - unfold is_ascii, ToUpper. rewrite str_list_of_list. apply forallb_forall. intros c (d & <- & Hd)%in_map_iff.
      apply Z.ltb_lt. by apply upper_hex, Hx, list_elem_of_In. }
  rewrite El. apply chars_file_elem; [rewrite <-length_str_list, str_list_app, length_app; cbn; lia|].
  intros c. rewrite str_list_app, elem_of_app. intros [Hc|Hc].
  - by apply Hx, upper_hex in Hc as (? & _ & _ & ? & ?).
  - repeat apply elem_of_cons in Hc as [-> |Hc]; [done..|by apply elem_of_nil in Hc].
Qed.

Section idna.
Context (ToASCII : string → res string) `{!IdnaProfile ToASCII}.

Lemma domain_chars x fqdn d : asciiDomain ToASCII x fqdn = Ok d →
  ∀ c, c ∈ str_list d → byte_val c ≠ 47 ∧ byte_val c < 128 ∧ lower_char c = c.
Proof.
  intros Hd c Hc. unfold asciiDomain in Hd. res_inv Hd. injection Hd as <-.
  match goal with Ht : ToASCII x = Ok ?a |- _ => pose proof (idna_host _ _ Ht) as Hh end.
  unfold ToLower in Hc. rewrite str_list_of_list in Hc. apply list_elem_of_In, in_map_iff in Hc as (y & <- & Hy).
  rewrite forallb_forall in Hh. specialize (Hh y Hy). rewrite lower_char_idem.
  unfold host_char, is_alnum, is_digit, is_char, is_upper, is_lower, between in Hh. unfold lower_char, is_upper, between.
  destruct ((65 <=? byte_val y) && (byte_val y <=? 90)) eqn:Eu; [rewrite byte_val_chr by lia|]; (split_and!; [lia|lia|done]).
Qed.

Lemma domain_elem sender local domain : splitSender ToASCII sender = Ok (local, domain) →
  file_elem domain ∧ file_elem ("openpgpkey." +:+ domain).
Proof.
  unfold splitSender. destruct (_ || _); [done|]. destruct (RoutingDomain _ _) as [d|] eqn:Ed; [|done]. intros [= _ ->].
  unfold RoutingDomain in Ed. pose proof (domain_chars _ _ _ Ed) as Hc.
  destruct (asciiDomain_name _ _ _ _ Ed) as (Hne' & _ & _ & _ & Hlab). split.
  - split; [split_and!|]; [done| | | |]; [by intros ->; vm_compute in Hlab; inversion Hlab as [|? ? []]; subst..| |]; intros c Hin; by apply Hc.
  - apply chars_file_elem; [rewrite <-length_str_list, str_list_app, length_app; cbn; lia|].
    intros c. rewrite str_list_app, elem_of_app. intros [Hin|Hin]; [|by apply Hc].
    repeat apply elem_of_cons in Hin as [-> |Hin]; [done..|by apply elem_of_nil in Hin].
Qed.

Lemma JoinAll_id rel : Forall file_elem rel → rel ≠ [] → filepath_JoinAll rel = join_with "/" rel.
Proof. intros Hr Hn. apply Clean_rel; [by apply file_elems_plain|done]. Qed.

Ltac literal_elems := repeat (apply Forall_cons; split; [first [assumption|by apply literal_file_elem; [cbn; lia|reflexivity]]|]); constructor.

Lemma wkd_elems domain hash : file_elem domain → file_elem ("openpgpkey." +:+ domain) → file_elem hash →
  Forall file_elem (wkdAdvanced domain ++ ["hu"; hash]) ∧ Forall file_elem (wkdDirect domain ++ ["hu"; hash]) ∧
  Forall file_elem (wkdAdvanced domain ++ ["policy"]) ∧ Forall file_elem (wkdDirect domain ++ ["policy"]).
Proof.
  intros Hd Hk Hh. assert (Hhu : file_elem "hu").
  { split; [split_and!; [done|done|done|]|]; intros c Hc; (repeat apply elem_of_cons in Hc as [-> |Hc]; [done..|by apply elem_of_nil in Hc]). }
  unfold wkdAdvanced, wkdDirect. cbn [app]. split_and!; literal_elems.
Qed.

Lemma join_artifact rel b : Forall file_elem rel → (1 < length rel)%nat →
  ∃ rel', (1 < length rel')%nat ∧ Forall file_elem rel' ∧ arPath (mkArtifact (filepath_JoinAll rel) b) = join_with "/" rel'.
Proof. intros Hr Hn. exists rel. split_and!; [done|done|]. apply JoinAll_id; [done|]. by intros ->; cbn in Hn; lia. Qed.

Lemma identity_paths identity f local domain armored :
  piFingerprint identity = hexUpper f → splitSender ToASCII (piSender identity) = Ok (local, domain) →
  Forall (λ a, ∃ rel, (1 < length rel)%nat ∧ Forall file_elem rel ∧ arPath a = join_with "/" rel)
    (identityArtifacts identity domain (wkdHash (wkdLocalPart local)) armored).
Proof.
  intros Hf Hs. destruct (domain_elem _ _ _ Hs) as [Hd Hk].
  destruct (wkd_elems domain _ Hd Hk (hash_file_elem (wkdLocalPart local))) as (H1 & H2 & H3 & H4).
  assert (H0 : Forall file_elem ["keys"; keyFile identity]).
  { pose proof (keyFile_elem _ _ Hf) as Hx. literal_elems. }
  unfold identityArtifacts. repeat (apply Forall_cons; split; [apply join_artifact; [done|cbn; lia]|]). constructor.
Qed.
Context {Entity : Type} `{PgpLib Entity}.
Context (armorPublicKey : string → res string).

(** The files of an identity, by what [get] finds at their paths. *)
Definition bundled (get : string → option string) (identity : PublicIdentity) : Prop :=
  ∃ local domain armored,
    splitSender ToASCII (piSender identity) = Ok (local, domain) ∧ armorPublicKey (piKey identity) = Ok armored ∧
    ∀ a, a ∈ identityArtifacts identity domain (wkdHash (wkdLocalPart local)) armored → get (arPath a) = Some (arBody a).

Lemma bundled_mono get get' identity : (∀ p b, get p = Some b → get' p = Some b) → bundled get identity → bundled get' identity.
Proof. intros Hg (local & domain & armored & H1 & H2 & H3). exists local, domain, armored. split_and!; [done|done|]. intros a Ha. by apply Hg, H3. Qed.

Definition fingerprinted (identity : PublicIdentity) : Prop := ∃ f, piFingerprint identity = hexUpper f.

(** What the manifest says of an identity, and what is returned for it. *)
Definition entryOf (identity : PublicIdentity) : string :=
  match splitSender ToASCII (piSender identity) with
  | Ok (local, domain) => manifestEntry identity local domain (wkdHash (wkdLocalPart local))
  | Err _ => ""
  end.

Definition manifestText (ids : list PublicIdentity) : string := fold_left (λ m identity, m +:+ entryOf identity) ids manifestHead.

Definition resultOf (identity : PublicIdentity) : PublishResult :=
  match splitSender ToASCII (piSender identity) with
  | Ok (local, domain) =>
      let hash := wkdHash (wkdLocalPart local) in
      mkPublishResult (piSender identity) (piFingerprint identity) (filepath_JoinAll ["keys"; keyFile identity])
        (filepath_JoinAll (wkdAdvanced domain ++ ["hu"; hash])) (filepath_JoinAll (wkdDirect domain ++ ["hu"; hash]))
  | Err _ => mkPublishResult "" "" "" "" ""
  end.

Lemma identities_written w ids : ∀ manifest results st r st', is_directory st.2 root → written_ok st → Forall fingerprinted ids →
  publishIdentities ToASCII armorPublicKey w root ids manifest results st = (r, st') →
  extends root st.2 st'.2 ∧
  (∀ x, r = Ok x → x = (fold_left (λ m identity, m +:+ entryOf identity) ids manifest, results ++ (resultOf <$> ids)) ∧
     written_ok st' ∧ st.1 ⊆ st'.1 ∧ ∀ identity, identity ∈ ids → bundled (λ p, st'.1 !! p) identity).
Proof.
  induction ids as [|identity ids IH]; intros manifest results st r st' Hd Hw Hf; cbn [publishIdentities].
  { intros [= <- <-]. split; [reflexivity|]. intros y [= <-]. rewrite app_nil_r. split_and!; [done|done|done|].
    intros x Hx. by apply elem_of_nil in Hx. }
  apply Forall_cons in Hf as [[f Hfp] Hf]. destruct (splitSender ToASCII (piSender identity)) as [[local domain]|] eqn:Es; [|by intros [= <- <-]].
  destruct (armorPublicKey (piKey identity)) as [armored|] eqn:Ea; [|by intros [= <- <-]].
  destruct (writeArtifacts _ _ _ st) as [r1 st1] eqn:E1.
  destruct (artifacts_written _ _ _ _ _ Hd Hw (identity_paths _ _ _ _ armored Hfp Es) E1) as [Hx Hok].
  destruct r1 as [[]|e]; [|by intros [= <- <-]]. destruct (Hok eq_refl) as (Hw1 & Hs1 & Hl1). intros He.
  destruct (IH _ _ st1 r st' (ex_root _ _ _ Hx Hd) Hw1 Hf He) as [Hx2 Hok2]. split; [by transitivity st1.2|]. intros y E.
  destruct (Hok2 y E) as (-> & Hw2 & Hs2 & Hl2). split_and!; [|done|by transitivity st1.1|].
  { cbn [fold_left fmap list_fmap]. unfold entryOf at 3, resultOf at 2. rewrite Es. cbn zeta. by rewrite <-app_assoc. }
  intros x [-> |Hx']%elem_of_cons; [|by apply Hl2]. exists local, domain, armored. split_and!; [done|done|].
  intros a Ha'. eapply lookup_weaken; [by apply Hl1|done].
Qed.

(** A whole bundle: the files of each identity and the manifest. *)
Record complete (get : string → option string) (ids : list PublicIdentity) : Prop := {
  cp_identities : ∀ identity, identity ∈ ids → bundled get identity;
  cp_manifest : get "MANIFEST.txt" = Some (manifestText ids)
}.

Lemma complete_mono get get' ids : (∀ p b, get p = Some b → get' p = Some b) → complete get ids → complete get' ids.
Proof. intros Hg [Hi Hm]. split; [|by apply Hg]. intros identity Hin. by eapply bundled_mono, Hi. Qed.

(** The manifest has a path of its own. *)
Lemma manifest_unwritten st : written_ok st → st.1 !! ToLowerText (filepath_Clean "MANIFEST.txt") = None.
Proof.
  intros Hw. assert (ToLowerText (filepath_Clean "MANIFEST.txt") = "manifest.txt") as -> by (by rewrite lower_ascii).
  destruct (st.1 !! "manifest.txt") as [b|] eqn:E; [|done]. exfalso. destruct (Hw _ _ E) as (rel & Hn & _ & Hj & _).
  destruct rel as [|x [|y rel]]; [cbn in Hn; lia..|].
  change (x :: y :: rel) with ([x] ++ y :: rel) in Hj. rewrite join_with_app in Hj by done.
  assert (Hin : chr 47 ∈ str_list "manifest.txt") by (rewrite Hj, !str_list_app, !elem_of_app; right; left; left).
  repeat apply elem_of_cons in Hin as [Hin|Hin]; [done..|by apply elem_of_nil in Hin].
Qed.

(** The regular file of a tree below [base]. *)
Definition fileAt (f : tree) (base p : string) : option string :=
  match f !! (base +:+ "/" +:+ p) with Some (Regular 420 b) => Some b | _ => None end.

Lemma fileAt_Some f base p b : fileAt f base p = Some b ↔ f !! (base +:+ "/" +:+ p) = Some (Regular 420 b).
Proof.
  unfold fileAt. split; [|by intros ->]. destruct (f !! _) as [[m x| | |]|]; try done.
  destruct (decide (m = 420)) as [-> |Hm]; [by intros [= ->]|].
  intros He. exfalso. apply Hm. destruct m as [|m|m]; try done. do 9 (destruct m as [m|m|]; try done).
Qed.

Lemma publication_written w ids files r files' : is_directory files root → Forall fingerprinted ids →
  writePublication ToASCII armorPublicKey w root ids files = (r, files') →
  extends root files files' ∧ (∀ rs, r = Ok rs → rs = resultOf <$> ids ∧ complete (fileAt files' root) ids).
Proof.
  intros Hd Hf. unfold writePublication.
  destruct (publishIdentities _ _ _ _ _ _ _ _) as [r1 [written f1]] eqn:E1.
  assert (Hw0 : written_ok (∅, files)) by (intros k b Hk; cbn [fst] in Hk; by rewrite lookup_empty in Hk).
  destruct (identities_written w ids manifestHead [] (∅, files) r1 (written, f1) Hd Hw0 Hf E1) as [Hx Hok]. cbn [snd] in Hx.
  destruct r1 as [[manifest results]|e]; [|by intros [= <- <-]]. destruct (Hok _ eq_refl) as ([= -> ->] & Hw & _ & Hall).
  fold (manifestText ids). cbn [app].
  destruct (writePublicArtifact _ _ _ _) as [r2 [written2 f2]] eqn:E2.
  assert (Hm : Forall plain_elem ["MANIFEST.txt"]).
  { apply Forall_singleton. split_and!; [done|done|done|]. intros c Hc.
    repeat apply elem_of_cons in Hc as [-> |Hc]; [done..|by apply elem_of_nil in Hc]. }
  destruct (artifact_files w (mkArtifact "MANIFEST.txt" (manifestText ids)) ["MANIFEST.txt"] written f1 r2 (written2, f2)
    (ex_root _ _ _ Hx Hd) Hm ltac:(done) eq_refl E2) as [Hx2 Hman]. cbn [snd] in Hx2.
  assert (Hxx : extends root files f2) by (by transitivity f1).
  destruct r2 as [[]|e]; intros [= <- <-]; (split; [done|]); [|done]. intros rs [= <-]. split; [done|]. split.
  - intros identity Hi. eapply bundled_mono; [|by apply Hall]. intros p b Hp. cbn [fst] in Hp.
    destruct (Hw p b Hp) as (rel & Hn & Hr & -> & Hl). apply fileAt_Some.
    rewrite <-abs_path_app by (done || by intros ->; cbn in Hn; lia). by apply (ex_keeps _ _ _ Hx2).
  - apply fileAt_Some. destruct (Hman eq_refl) as [[_ Hl]|(_ & _ & Hl)].
    + pose proof (manifest_unwritten _ Hw) as Hn. cbn [fst arPath] in Hn, Hl. by rewrite Hn in Hl.
    + cbn [snd] in Hl. by rewrite abs_path_app in Hl.
Qed.
End idna.
End root.

Lemma extends_sync w root f r f' : syncPublication w root f = (r, f') → extends root f f'.
Proof.
  unfold syncPublication. destruct (find _ _); [by intros [= _ <-]|]. intros [= _ <-]. unfold chmodDirs. split.
  - intros p Hp. rewrite map_lookup_imap, Hp. by destruct (f !! p) as [[| | |]|].
  - intros p m b Hp. by rewrite map_lookup_imap, Hp.
  - intros [m Hm]. unfold is_directory. rewrite map_lookup_imap, Hm. cbn. destruct (under root root); eauto.
Qed.

(** ** Moving and removing *)

(** Nothing is at [p] or beneath it. *)
Definition vacant (f : tree) (p : string) : Prop := ∀ q, under p q = true → f !! q = None.

(** What [removeTree] leaves: everything outside, and beneath the root only what resists. *)
Lemma remove_outside w root f f' : only_under root f f' → only_under root f (removeTree w root f').
Proof.
  intros Ho q Eu. rewrite <-(Ho q Eu). unfold removeTree. destruct (f' !! q) as [n|] eqn:En.
  - apply map_lookup_filter_Some. split; [done|]. by left.
  - apply map_lookup_filter_None. by left.
Qed.

Lemma remove_restores w root f f' : vacant f root → only_under root f f' →
  removeTree w root f' = f ∨ ∃ q, under root q = true ∧ is_Some (f' !! q) ∧ removeFault w q = true.
Proof.
  intros Hv Ho. destruct (existsb (λ qn, under root qn.1 && removeFault w qn.1) (map_to_list f')) eqn:Ex.
  - right. apply existsb_exists in Ex as ([q n] & Hin & Hq). apply list_elem_of_In, elem_of_map_to_list in Hin. cbn in Hq. zbool.
    exists q. split_and!; [done|by eexists|done].
  - left. apply map_eq. intros q. destruct (under root q) eqn:Eu; [|by apply (remove_outside w root f f')].
    rewrite (Hv q Eu). apply map_lookup_filter_None. right. intros n Hn. cbn. rewrite Eu. intros [?|Hs]; [done|].
    unfold stuck in Hs. apply existsb_exists in Hs as ([q' n'] & Hin & Hq'). cbn in Hq'.
    apply andb_true_iff in Hq' as [Hu Hf]. rewrite <-not_true_iff_false in Ex. apply Ex, existsb_exists. exists (q', n').
    split; [done|]. cbn. by rewrite (under_trans root q q' Eu Hu), Hf.
Qed.

Lemma remove_vacant w root f : vacant f root → removeTree w root f = f.
Proof.
  intros Hv. destruct (remove_restores w root f f Hv (λ _ _, eq_refl)) as [|(q & Hq & [n Hn] & _)]; [done|].
  by rewrite (Hv q Hq) in Hn.
Qed.

Section move.
Context (temporary target : string) (f : tree).
Hypothesis (Hvac : vacant f target).

Lemma moved_under t : t = "" ∨ (∃ u, t = "/" +:+ u) → moved temporary target (temporary +:+ t) = target +:+ t.
Proof.
  intros Ht. unfold moved. rewrite (proj2 (under_spec temporary (temporary +:+ t))) by eauto. f_equal.
  apply str_list_inj. unfold str_drop. rewrite str_list_of_list, str_list_app, <-length_str_list. apply drop_app_length.
Qed.

Lemma moved_target p : under temporary p = true → under target (moved temporary target p) = true.
Proof. intros (t & -> & Ht)%under_spec. rewrite moved_under by done. apply under_spec. eauto. Qed.

Lemma moved_inj p q n m : f !! p = Some n → f !! q = Some m → moved temporary target p = moved temporary target q → p = q.
Proof.
  intros Hp Hq E. assert (Hout : ∀ x y k, under temporary x = true → under temporary y = false → f !! y = Some k →
    moved temporary target x ≠ moved temporary target y).
  { intros x y k Hx Hy Hk E'. apply moved_target in Hx. rewrite E' in Hx. unfold moved in Hx. rewrite Hy in Hx.
    by rewrite (Hvac _ Hx) in Hk. }
  destruct (under temporary p) eqn:Ep, (under temporary q) eqn:Eq.
  - apply under_spec in Ep as (t & -> & Ht), Eq as (u & -> & Hu). rewrite !moved_under in E by done.
    apply (f_equal str_list) in E. rewrite !str_list_app in E. apply app_inv_head in E. by apply str_list_inj in E as ->.
  - by destruct (Hout p q m).
  - by destruct (Hout q p n).
  - unfold moved in E. by rewrite Ep, Eq in E.
Qed.

Lemma moveTree_lookup q n : moveTree temporary target f !! q = Some n ↔ ∃ p, f !! p = Some n ∧ q = moved temporary target p.
Proof.
  unfold moveTree. rewrite <-elem_of_list_to_map.
  - rewrite list_elem_of_fmap. split.
    + intros ([p m] & [= -> ->] & Hin%elem_of_map_to_list). eauto.
    + intros (p & Hp & ->). exists (p, n). split; [done|]. by apply elem_of_map_to_list.
  - rewrite <-list_fmap_compose. apply NoDup_fmap_2_strong; [|apply NoDup_map_to_list].
    intros [p x] [q' y] Hp%elem_of_map_to_list Hq%elem_of_map_to_list E. cbn in E. pose proof (moved_inj _ _ _ _ Hp Hq E) as ->. congruence.
Qed.

Lemma moveTree_inside t n : t = "" ∨ (∃ u, t = "/" +:+ u) → f !! (temporary +:+ t) = Some n →
  moveTree temporary target f !! (target +:+ t) = Some n.
Proof. intros Ht Hf. apply moveTree_lookup. eexists. split; [done|]. by rewrite moved_under. Qed.

Lemma moveTree_outside q : under target q = false →
  moveTree temporary target f !! q = if under temporary q then None else f !! q.
Proof.
  intros Hq. destruct (moveTree temporary target f !! q) as [n|] eqn:Em.
  - apply moveTree_lookup in Em as (p & Hp & E). destruct (under temporary p) eqn:Ep.
    + by rewrite E, moved_target in Hq.
    + unfold moved in E. rewrite Ep in E. subst q. by rewrite Ep.
  - destruct (under temporary q) eqn:Eq; [done|]. destruct (f !! q) as [n|] eqn:Ef; [|done].
    assert (moveTree temporary target f !! q = Some n) as E; [|by rewrite E in Em].
    apply moveTree_lookup. exists q. split; [done|]. unfold moved. by rewrite Eq.
Qed.
End move.

(** ** The names of a publication *)

Definition temporaryOf (target random : string) : string :=
  filepath_Join (filepath_Dir target) ("." +:+ filepath_Base target +:+ ".tmp-" +:+ random).

Lemma Join_one pes x : Forall plain_elem pes → plain_elem x → filepath_Join (abs_path pes) x = abs_path (pes ++ [x]).
Proof.
  intros Hp Hx. destruct (decide (pes = [])) as [-> |Hne].
  - unfold filepath_Join. rewrite (bool_decide_eq_false_2 (abs_path [] = "")) by done. destruct Hx as (Hn & Hd & Hdd & Hs).
    rewrite bool_decide_eq_false_2 by done. unfold filepath_Clean. change (filepath_IsAbs (abs_path [] +:+ "/" +:+ x)) with true.
    cbn iota. change (Split (abs_path [] +:+ "/" +:+ x) 47) with ("" :: "" :: Split (join_with "/" [x]) 47).
    rewrite Split_join by (done || by apply Forall_singleton). cbn [clean_elems].
    rewrite !bool_decide_eq_true_2, !bool_decide_eq_false_2 by done. done.
  - rewrite <-Join_abs by (done || by apply Forall_singleton). done.
Qed.

Lemma Base_abs pes x : Forall plain_elem pes → plain_elem x → filepath_Base (abs_path (pes ++ [x])) = x.
Proof.
  intros Hp (_ & _ & _ & Hs). unfold filepath_Base.
  assert (Hl : ∃ front, str_list (abs_path (pes ++ [x])) = front ++ chr 47 :: str_list x).
  { unfold abs_path. destruct (decide (pes = [])) as [-> |Hne]; [by exists []|].
    rewrite join_with_app by done. exists (str_list ("/" +:+ join_with "/" pes)). by rewrite !str_list_app, <-app_assoc. }
  destruct Hl as [front Hl]. rewrite Hl, last_index_app by done. unfold str_drop. rewrite Hl.
  apply str_list_inj. rewrite str_list_of_list. change (chr 47 :: str_list x) with ([chr 47] ++ str_list x).
  rewrite app_assoc. apply drop_app_length'. rewrite length_app. cbn. lia.
Qed.

(** Two names without a slash in one directory: nothing is beneath both. *)
Lemma siblings_disjoint pes x y q : plain_elem x → plain_elem y → x ≠ y →
  under (abs_path (pes ++ [x])) q = true → under (abs_path (pes ++ [y])) q = false.
Proof.
  intros Hx Hy Hne (t & -> & Ht)%under_spec. destruct (under _ _) eqn:Eu; [|done].
  apply under_spec in Eu as (u & E & Hu). destruct Hne.
  assert (Hpre : ∃ p, ∀ z, abs_path (pes ++ [z]) = p +:+ z).
  { unfold abs_path. destruct (decide (pes = [])) as [-> |Hn]; [by exists "/"|].
    exists ("/" +:+ join_with "/" pes +:+ "/"). intros z. rewrite join_with_app by done.
    apply str_list_inj. by rewrite !str_list_app, <-!app_assoc. }
  destruct Hpre as [p Hp]. rewrite !Hp in E. apply (f_equal str_list) in E. rewrite !str_list_app, <-!app_assoc in E.
  apply app_inv_head in E. apply (f_equal (λ l, hd [] (split_list 47 l))) in E.
  assert (Hhd : ∀ z v, plain_elem z → v = "" ∨ (∃ s, v = "/" +:+ s) → hd [] (split_list 47 (str_list z ++ str_list v)) = str_list z).
  { intros z v (_ & _ & _ & Hz) [-> |(s & ->)].
    - rewrite app_nil_r. by rewrite split_list_none.
    - rewrite str_list_app. change (str_list "/" ++ str_list s) with (chr 47 :: str_list s). by rewrite split_list_sep. }
  rewrite !Hhd in E by done. by apply str_list_inj in E.
Qed.

Lemma temporary_elem x random : plain_elem x → forallb is_digit (str_list random) = true →
  plain_elem ("." +:+ x +:+ ".tmp-" +:+ random) ∧ "." +:+ x +:+ ".tmp-" +:+ random ≠ x.
Proof.
  intros (Hx & _ & _ & Hs) Hr. assert (Hlen : (5 < String.length ("." +:+ x +:+ ".tmp-" +:+ random) - String.length x)%nat).
  { rewrite <-!length_str_list, !str_list_app, !length_app. cbn. lia. }
  split; [split_and!|]; [by intros E; rewrite E in Hlen; cbn in Hlen; lia..| |intros E; rewrite E in Hlen; lia].
  intros c. rewrite !str_list_app, !elem_of_app. intros [Hc|[Hc|[Hc|Hc]]].
  - apply list_elem_of_singleton in Hc as ->. done.
  - by apply Hs.
  - repeat apply elem_of_cons in Hc as [-> |Hc]; [done..|by apply elem_of_nil in Hc].
  - rewrite forallb_forall in Hr. apply list_elem_of_In, Hr in Hc. unfold is_digit, between in Hc. lia.
Qed.

Section atomic.
Context {Entity : Type} `{PgpLib Entity} `{CaseTables} `{AddressParser}.
Context (ToASCII : string → res string) `{!IdnaProfile ToASCII}.
Context (armorPublicKey : string → res string) (w : pubWorld).

Lemma LoadPublic_fingerprinted cwd cfg files lstatFault now ids :
  LoadPublic cwd cfg files lstatFault now = Ok ids → Forall fingerprinted ids.
Proof.
  unfold LoadPublic. generalize (pIdentities (cOpenPGP cfg)). intros l. revert ids.
  induction l as [|c l IH]; intros ids; cbn [loadPublic]; [by intros [= <-]|].
  destruct (readEntity _ _ _ _ _) as [entity|]; [|done]. cbn [res_bind].
  destruct (publicIdentity now entity (iSender c)) as [identity|] eqn:Ep; [|done]. cbn [res_bind].
  destruct (loadPublic _ _ _ _ _ l) as [rest|]; [|done]. intros [= <-]. constructor; [|by apply IH].
  unfold publicIdentity in Ep. destruct (selectIdentity _ _ _) as [u|]; [|done]. cbn [res_bind] in Ep.
  destruct (writePackets _) as [key|]; [|done]. injection Ep as <-. by eexists.
Qed.

Lemma rename_complete pes x t (ids : list PublicIdentity) f0 f r f' : plain_elem x → plain_elem t → x ≠ t →
  let temporary := abs_path (pes ++ [t]) in let target := abs_path (pes ++ [x]) in
  vacant f0 temporary → vacant f0 target → only_under temporary f0 f →
  complete ToASCII armorPublicKey (fileAt f temporary) ids →
  RenameNoReplace w temporary target f = (r, f') →
  is_ok r = false ∧ f' = f ∨
  only_under target f0 f' ∧ vacant f' temporary ∧ complete ToASCII armorPublicKey (fileAt f' target) ids.
Proof.
  intros Hx Ht Hne temporary target Hv1 Hv2 Ho Hb. unfold RenameNoReplace.
  destruct (renameFault w); [intros [= <- <-]; by left|]. destruct (f !! target) eqn:Et; [intros [= <- <-]; by left|].
  intros [= _ <-]. right.
  assert (Hdis : ∀ q, under target q = true → under temporary q = false) by (intros q; by apply siblings_disjoint).
  assert (Hvac : vacant f target) by (intros q Hq; rewrite Ho by (by apply Hdis); by apply Hv2). split_and!.
  - intros q Hq. rewrite moveTree_outside by done. destruct (under temporary q) eqn:Eq; [by rewrite Hv1|by apply Ho].
  - intros q Hq. destruct (under target q) eqn:Eq; [by rewrite Hdis in Hq|]. by rewrite moveTree_outside, Hq.
  - eapply complete_mono; [|exact Hb]. intros p b. rewrite !fileAt_Some. intros Hf.
    apply moveTree_inside; [done|right; by eexists|done].
Qed.

Lemma publishInto_atomic pes x t ids f0 r f' : Forall plain_elem pes → plain_elem x → plain_elem t → x ≠ t →
  let temporary := abs_path (pes ++ [t]) in let target := abs_path (pes ++ [x]) in
  vacant f0 temporary → vacant f0 target → Forall fingerprinted ids →
  publishInto ToASCII armorPublicKey w temporary target ids (<[temporary := Directory 448]> f0) = (r, f') →
  is_ok r = false ∧ only_under temporary f0 f' ∨
  only_under target f0 f' ∧ vacant f' temporary ∧ complete ToASCII armorPublicKey (fileAt f' target) ids ∧
  (∀ rs, r = Ok rs → rs = relocate target <$> (resultOf ToASCII <$> ids)).
Proof.
  intros Hpes Hx Ht Hne temporary target Hv1 Hv2 Hfp. unfold publishInto. rewrite insert_insert_eq.
  assert (Hself : under temporary temporary = true) by (unfold under; by rewrite bool_decide_eq_true_2).
  assert (Hins : ∀ m, only_under temporary f0 (<[temporary := Directory m]> f0)).
  { intros m q Hq. apply lookup_insert_ne. intros <-. by rewrite Hself in Hq. }
  destruct (dirFault w temporary); [intros [= <- <-]; by left|].
  destruct (writePublication _ _ _ _ _ _) as [r1 f1] eqn:E1.
  assert (Hroot : Forall plain_elem (pes ++ [t])) by (apply Forall_app; split; [done|by apply Forall_singleton]).
  assert (Hdir : is_directory (<[temporary := Directory 493]> f0) temporary) by (exists 493; by rewrite lookup_insert_eq).
  destruct (publication_written (pes ++ [t]) Hroot ltac:(by destruct pes) ToASCII armorPublicKey w ids _ r1 f1 Hdir Hfp E1) as [Hx1 Hb1].
  assert (Ho1 : only_under temporary f0 f1) by (intros q Hq; rewrite (ex_under _ _ _ Hx1) by done; by apply Hins).
  destruct r1 as [results|e]; [|intros [= <- <-]; by left]. destruct (Hb1 _ eq_refl) as [-> Hc1].
  destruct (syncPublication w temporary f1) as [r2 f2] eqn:E2. pose proof (extends_sync _ _ _ _ _ E2) as Hx2.
  assert (Ho2 : only_under temporary f0 f2) by (intros q Hq; rewrite (ex_under _ _ _ Hx2) by done; by apply Ho1).
  destruct r2 as [[]|e]; [|intros [= <- <-]; by left].
  destruct (RenameNoReplace w temporary target f2) as [r3 f3] eqn:E3.
  destruct (rename_complete pes x t ids f0 f2 r3 f3 Hx Ht Hne Hv1 Hv2 Ho2) as [[Hr ->]|Hdone]; [|done| |].
  - eapply complete_mono; [|exact Hc1]. intros p b. rewrite !fileAt_Some. apply (ex_keeps _ _ _ Hx2).
  - destruct r3 as [[]|e]; [done|]. intros [= <- <-]. by left.
  - destruct Hdone as (D1 & D2 & D3). destruct r3 as [[]|e]; intros [= <- <-]; right; (split_and!; [done..|]); [by intros rs [= <-]|done].
Qed.
(** Where a layout of the bundle holds what is asked of [host] under [path]. *)
Definition servedAt (target layout host path : string) : string := target +:+ "/wkd/" +:+ layout +:+ "/" +:+ host +:+ path.

Lemma bundled_served f target identity : bundled ToASCII armorPublicKey (fileAt f target) identity → fingerprinted identity →
  ∃ local domain armored, splitSender ToASCII (piSender identity) = Ok (local, domain) ∧
    armorPublicKey (piKey identity) = Ok armored ∧
    let hash := wkdHash (wkdLocalPart local) in
    f !! (target +:+ "/keys/" +:+ keyFile identity) = Some (Regular 420 armored) ∧
    f !! servedAt target "advanced" ("openpgpkey." +:+ domain) ("/.well-known/openpgpkey/" +:+ domain +:+ "/hu/" +:+ hash)
      = Some (Regular 420 (piKey identity)) ∧
    f !! servedAt target "direct" domain ("/.well-known/openpgpkey/hu/" +:+ hash) = Some (Regular 420 (piKey identity)) ∧
    f !! servedAt target "advanced" ("openpgpkey." +:+ domain) ("/.well-known/openpgpkey/" +:+ domain +:+ "/policy")
      = Some (Regular 420 "") ∧
    f !! servedAt target "direct" domain "/.well-known/openpgpkey/policy" = Some (Regular 420 "").
Proof.
  intros (local & domain & armored & Hs & Ha & Hall) [fp Hfp]. exists local, domain, armored. split_and!; [done|done|].
  destruct (domain_elem _ _ _ _ Hs) as [Hd Hk].
  destruct (wkd_elems domain _ Hd Hk (hash_file_elem (wkdLocalPart local))) as (H1' & H2' & H3' & H4').
  assert (Hkeys : Forall file_elem ["keys"; keyFile identity]).
  { apply Forall_cons. split; [by apply literal_file_elem; [cbn; lia|reflexivity]|]. apply Forall_singleton. by eapply keyFile_elem. }
  assert (Hat : ∀ n rel body path, identityArtifacts identity domain (wkdHash (wkdLocalPart local)) armored !! n =
      Some (mkArtifact (filepath_JoinAll rel) body) → Forall file_elem rel → rel ≠ [] → target +:+ "/" +:+ join_with "/" rel = path →
      f !! path = Some (Regular 420 body)).
  { intros n rel body path Hn Hrel Hne <-. apply list_elem_of_lookup_2, Hall in Hn. cbn [arPath arBody] in Hn.
    by rewrite JoinAll_id, fileAt_Some in Hn. }
  cbn zeta. split_and!; [apply (Hat 0%nat _ _ _ eq_refl)|apply (Hat 1%nat _ _ _ eq_refl)|apply (Hat 2%nat _ _ _ eq_refl)
    |apply (Hat 3%nat _ _ _ eq_refl)|apply (Hat 4%nat _ _ _ eq_refl)]; try done; apply str_list_inj;
    unfold servedAt, wkdAdvanced, wkdDirect, app, join_with, fold_left; by rewrite !str_list_app, <-?app_assoc.
Qed.

(** C15: Publication is all or nothing at its target.  If a call fails while the bundle is
    built, [Publish] returns an error, nothing is at the target, and the tree of files is
    exactly as it was, unless the removal of the temporary directory failed too (its
    error is dropped): then files beneath that directory are all that remains.  Otherwise
    nothing outside the target has changed, and the target holds the whole bundle: the
    manifest of all identities, and for every configured identity its armored key, its
    key in both layouts of a web key directory, under the host and path at which
    [lookup] asks for it, and the policy file of both layouts; and on success the results
    name these files.  (If only the sync after the rename fails, the complete bundle is
    there although an error is returned.)  The target and the temporary name were free,
    nothing was beneath them. *)
Theorem published_or_nothing cwd lstatFault now loaded outputDirectory random files r files' :
  let target := filepath_Abs cwd (filepath_Clean outputDirectory) in
  filepath_IsAbs cwd = true → vacant files target →
  (∀ v, random = Ok v → forallb is_digit (str_list v) = true ∧ vacant files (temporaryOf target v)) →
  Publish ToASCII armorPublicKey w cwd lstatFault now loaded outputDirectory random files = (r, files') →
  (is_ok r = false ∧ vacant files' target ∧
   (files' = files ∨
    ∃ v q, random = Ok v ∧ only_under (temporaryOf target v) files files' ∧
      under (temporaryOf target v) q = true ∧ removeFault w q = true)) ∨
  only_under target files files' ∧
  ∃ cfg ids, loaded = Ok cfg ∧ LoadPublic cwd cfg files lstatFault now = Ok ids ∧
    (∀ rs, r = Ok rs → rs = relocate target <$> (resultOf ToASCII <$> ids)) ∧
    files' !! (target +:+ "/MANIFEST.txt") = Some (Regular 420 (manifestText ToASCII ids)) ∧
    ∀ identity, identity ∈ ids →
    ∃ local domain armored, splitSender ToASCII (piSender identity) = Ok (local, domain) ∧
      armorPublicKey (piKey identity) = Ok armored ∧
      let hash := wkdHash (wkdLocalPart local) in
      files' !! (target +:+ "/keys/" +:+ keyFile identity) = Some (Regular 420 armored) ∧
      files' !! servedAt target "advanced" ("openpgpkey." +:+ domain) ("/.well-known/openpgpkey/" +:+ domain +:+ "/hu/" +:+ hash)
        = Some (Regular 420 (piKey identity)) ∧
      files' !! servedAt target "direct" domain ("/.well-known/openpgpkey/hu/" +:+ hash) = Some (Regular 420 (piKey identity)) ∧
      files' !! servedAt target "advanced" ("openpgpkey." +:+ domain) ("/.well-known/openpgpkey/" +:+ domain +:+ "/policy")
        = Some (Regular 420 "") ∧
      files' !! servedAt target "direct" domain "/.well-known/openpgpkey/policy" = Some (Regular 420 "").
Proof.
  intros target Hcwd Hv Hrand HP. assert (Hsame : (∃ e, (Err e, files) = (r, files')) →
    is_ok r = false ∧ vacant files' target ∧ (files' = files ∨ ∃ v q, random = Ok v ∧ only_under (temporaryOf target v) files files' ∧
      under (temporaryOf target v) q = true ∧ removeFault w q = true)) by (intros [e [= <- <-]]; auto).
  revert HP. unfold Publish. fold target. destruct (bool_decide (TrimSpace outputDirectory = "")); [intros HP; left; apply Hsame; by eexists; exact HP|].
  destruct loaded as [cfg|]; [|intros HP; left; apply Hsame; by eexists; exact HP]. cbn [res_bind].
  destruct (LoadPublic cwd cfg files lstatFault now) as [ids|] eqn:El; [|intros HP; left; apply Hsame; by eexists; exact HP]. cbn [res_bind].
  destruct (match Lstat files lstatFault target with Ok _ => _ | Err e => _ end) as [[]|]; [|intros HP; left; apply Hsame; by eexists; exact HP]. cbn [res_bind].
  destruct (OpenDirectory files (filepath_Dir target)) as [perm|] eqn:Eo; [|intros HP; left; apply Hsame; by eexists; exact HP]. cbn [res_bind].
  destruct random as [v|]; [|intros HP; left; apply Hsame; by eexists; exact HP]. cbn [res_bind]. clear Hsame. destruct (Hrand v eq_refl) as [Hdig Hvt].
  destruct (Abs_abs cwd (filepath_Clean outputDirectory) Hcwd) as (tes & Htes & Et). fold target in Et.
  destruct tes as [|x pes _] using rev_ind.
  { rewrite Et in Eo, Hv. unfold OpenDirectory in Eo. by rewrite (Hv (filepath_Dir (abs_path [])) eq_refl) in Eo. }
  apply Forall_app in Htes as [Hpes Hx]. rewrite Forall_singleton in Hx. destruct (temporary_elem x v Hx Hdig) as [Ht Hne].
  assert (Etmp : temporaryOf target v = abs_path (pes ++ ["." +:+ x +:+ ".tmp-" +:+ v])).
  { unfold temporaryOf. rewrite Et, Dir_abs, Base_abs by (done || (apply Forall_app; split; [done|by apply Forall_singleton])). by apply Join_one. }
  fold (temporaryOf target v). rewrite Etmp in *. rewrite Et in *.
  destruct (publishInto _ _ _ _ _ _ _) as [r1 f1] eqn:Ep. pose proof (LoadPublic_fingerprinted _ _ _ _ _ _ El) as Hfp.
  destruct (publishInto_atomic pes x _ ids files r1 f1 Hpes Hx Ht (not_eq_sym Hne) Hvt Hv Hfp Ep) as [[Hr Ho]|(Ho & Hvac & Hb & Hres)].
  - destruct r1 as [|e]; [done|]. intros [= <- <-]. left. pose proof (remove_outside w _ _ _ Ho) as Hout. split_and!; [done| |].
    + intros q Hq. rewrite Hout; [by apply Hv|]. by apply (siblings_disjoint pes x).
    + destruct (remove_restores w _ _ _ Hvt Ho) as [?|(q & Hq & _ & Hf)]; [by left|]. right. exists v, q. rewrite Etmp. by split_and!.
  - intros Hret. right. assert (files' = f1 ∧ ∀ rs, r = Ok rs → r1 = Ok rs) as [-> Hrr].
    { destruct r1 as [rs|e]; injection Hret as <- <-; [done|]. split; [by apply remove_vacant|done]. }
    split; [done|]. exists cfg, ids. split_and!; [done|done|by intros rs Hrs; apply Hres, Hrr| |].
    + apply fileAt_Some, (cp_manifest _ _ _ _ Hb).
    + intros identity Hi. apply bundled_served; [by apply (cp_identities _ _ _ _ Hb)|]. rewrite Forall_forall in Hfp. by apply Hfp.
Qed.
End atomic.

(** ** An example *)

Lemma vacant_check (f : tree) p : forallb (λ pn, negb (under p pn.1)) (map_to_list f) = true → vacant f p.
Proof.
  intros Hf q Hq. destruct (f !! q) as [n|] eqn:E; [|done]. rewrite forallb_forall in Hf.
  apply elem_of_map_to_list, list_elem_of_In, Hf in E. cbn in E. by rewrite Hq in E.
Qed.

#[local] Existing Instances sampleLib plainParser.

Definition samplePubTree : tree :=
  <["/" := Directory 493]> (<["/etc" := Directory 493]> (<["/etc/alice.asc" := Regular 384 "alice@example.org"]> ∅)).

Definition samplePubCfg : Config :=
  mkConfig "" "/etc" ∅ "" (cServer sampleWritten) (cReplyRejection sampleWritten) (cTLS sampleWritten) []
    (mkOpenPGP [mkIdentity "alice@example.org" "/etc/alice.asc" "" "" false] "" [] false "") (cDelivery sampleWritten) (cDNS sampleWritten) [].

Definition noFaults : pubWorld := mkPubWorld (λ _, None) (λ _, None) (λ _, None) (λ _, None) None None (λ _, false).

Definition samplePublish :=
  Publish (Entity := string) sampleIDNA (λ k, Ok k) noFaults "/" (λ _, None) 0 (Ok samplePubCfg) "/www" (Ok "7") samplePubTree.

(** The same with a file that cannot be created and cannot be removed again. *)
Definition stuckFaults : pubWorld :=
  mkPubWorld (λ _, None) (λ p, if HasSuffix p "/MANIFEST.txt" then Some ENOENT else None) (λ _, None) (λ _, None) None None
    (λ p, HasPrefix p "/.www.tmp-7/keys/").

Lemma published_or_nothing_witness :
  is_ok samplePublish.1 = true ∧ only_under "/www" samplePubTree samplePublish.2 ∧
  let failed := Publish (Entity := string) sampleIDNA (λ k, Ok k) stuckFaults "/" (λ _, None) 0 (Ok samplePubCfg) "/www" (Ok "7") samplePubTree in
  failed.2 !! "/.www.tmp-7/keys" = Some (Directory 493) ∧ vacant failed.2 "/www".
Proof.
  assert (H1 : is_ok samplePublish.1 = true) by (vm_compute; reflexivity).
  assert (Hfree : vacant samplePubTree "/www") by (apply vacant_check; vm_compute; reflexivity).
  assert (Htmp : ∀ v, @Ok string "7" = Ok v → forallb is_digit (str_list v) = true ∧ vacant samplePubTree (temporaryOf "/www" v)).
  { intros v [= <-]. split; [reflexivity|]. apply vacant_check. vm_compute. reflexivity. }
  split; [exact H1|]. split.
  - destruct samplePublish as [r f] eqn:E.
    destruct (published_or_nothing (Entity := string) sampleIDNA (λ k, Ok k) noFaults "/" (λ _, None) 0 (Ok samplePubCfg)
      "/www" (Ok "7") samplePubTree r f eq_refl Hfree Htmp E) as [[Hr _]|[Ho _]]; [|exact Ho].
    unfold fst in H1. rewrite Hr in H1. discriminate H1.
  - intros failed. split; [vm_compute; reflexivity|]. assert (Hf : is_ok failed.1 = false) by (vm_compute; reflexivity).
    assert (Hm : failed.2 !! "/www/MANIFEST.txt" = None) by (vm_compute; reflexivity).
    destruct failed as [r f] eqn:E. cbn [fst snd] in Hf, Hm |- *.
    destruct (published_or_nothing (Entity := string) sampleIDNA (λ k, Ok k) stuckFaults "/" (λ _, None) 0 (Ok samplePubCfg)
      "/www" (Ok "7") samplePubTree r f eq_refl Hfree Htmp E) as [(_ & Hv & _)|(_ & cfg & ids & _ & _ & _ & Hm' & _)]; [exact Hv|].
    change (f !! "/www/MANIFEST.txt" = Some (Regular 420 (manifestText sampleIDNA ids))) in Hm'. rewrite Hm in Hm'. discriminate Hm'.
Defined.
