(* ===== verification/ConnLimit.v ===== *)
(** * Connection limits and serving
    (src/internal/smtpd/connlimit.go, authdeadline.go, serve.go)

    The global and per-address caps on concurrent connections, and the tracker
    that closes every connection at shutdown.  A connection is a number; [live]
    maps the connections whose [Close] has not run yet to their address, which is
    what [sync.Once] in [limitedConn] and [trackedConn] guarantees to count once.
    Accepting is two steps, as in the code: the limiter admits, then the tracker
    adds, and a shutdown may come between.  Then the deadline a connection has until
    its client logs in, and how a session finds the connection it lifts it for; and
    [Run] as a transition system of accept loops, waiter and shutdown, which always
    returns ([serve_returns]). *)

From S2P Require Import Prelude Errors.
Open Scope Z_scope.

Record connectionLimiter := mkConnLimiter {
  global : Z;
  perIP : Z;
  active : Z;
  byIP : gmap string Z
}.

Definition newConnectionLimiter (g p : Z) : connectionLimiter :=
  mkConnLimiter (if g <=? 0 then 256 else g) (if p <=? 0 then 16 else p) 0 ∅.

Definition count_ip (l : connectionLimiter) (ip : string) : Z := default 0 (byIP l !! ip).

Definition acquire (ip : string) (l : connectionLimiter) : bool * connectionLimiter :=
  if global l <=? active l then (false, l)
  else if perIP l <=? count_ip l ip then (false, l)
  else (true, mkConnLimiter (global l) (perIP l) (active l + 1)
                (<[ip := count_ip l ip + 1]> (byIP l))).

Definition release (ip : string) (l : connectionLimiter) : connectionLimiter :=
  let a := active l - 1 in
  let a := if a <? 0 then 0 else a in
  let n := count_ip l ip - 1 in
  mkConnLimiter (global l) (perIP l) a
    (if n <=? 0 then delete ip (byIP l) else <[ip := n]> (byIP l)).

(** ** Listeners *)

Record listener := mkListener {
  limiter : connectionLimiter;
  live : gmap nat string;
  tracked : gset nat;
  stopped : bool;
  nextConn : nat
}.

Definition newListener (g p : Z) : listener :=
  mkListener (newConnectionLimiter g p) ∅ ∅ false 0.

(** [limitListener.Accept] for one incoming connection: over the limit it is
    closed at once, without a connection object. *)
Definition acceptConn (ip : string) (s : listener) : option nat * listener :=
  let (ok, l) := acquire ip (limiter s) in
  if ok then (Some (nextConn s),
              mkListener l (<[nextConn s := ip]> (live s)) (tracked s) (stopped s) (S (nextConn s)))
  else (None, mkListener l (live s) (tracked s) (stopped s) (nextConn s)).

(** [trackedConn.Close], and [limitedConn.Close] below it: once per connection. *)
Definition closeConn (c : nat) (s : listener) : listener :=
  match live s !! c with
  | None => s
  | Some ip => mkListener (release ip (limiter s)) (delete c (live s)) (tracked s ∖ {[c]})
                 (stopped s) (nextConn s)
  end.

(** [trackListener.Accept] on an admitted connection: [tracker.add], or close. *)
Definition track (c : nat) (s : listener) : bool * listener :=
  match live s !! c with
  | None => (false, s)
  | Some _ =>
      if stopped s then (false, closeConn c s)
      else (true, mkListener (limiter s) (live s) ({[c]} ∪ tracked s) (stopped s) (nextConn s))
  end.

(** [closeAll]: the snapshot is closed in some order. *)
Definition closeAll (s : listener) : listener :=
  fold_left (λ s c, closeConn c s) (elements (tracked s))
    (mkListener (limiter s) (live s) (tracked s) true (nextConn s)).

Inductive conn_op := Admit (ip : string) | Track (c : nat) | CloseConn (c : nat) | CloseAll.

Definition conn_step (s : listener) (op : conn_op) : listener :=
  match op with
  | Admit ip => (acceptConn ip s).2
  | Track c => (track c s).2
  | CloseConn c => closeConn c s
  | CloseAll => closeAll s
  end.

Definition conn_run (ops : list conn_op) (s : listener) : listener := fold_left conn_step ops s.

(** ** The counters count the open connections *)

Definition from_ip (ip : string) (m : gmap nat string) : Z :=
  map_sum (λ _ i, if bool_decide (i = ip) then 1 else 0) m.

Record conns_core (s : listener) : Prop := {
  ck_active : active (limiter s) = Z.of_nat (size (live s));
  ck_ip : ∀ ip, count_ip (limiter s) ip = from_ip ip (live s);
  ck_positive : ∀ ip n, byIP (limiter s) !! ip = Some n → 0 < n;
  ck_global : Z.of_nat (size (live s)) ≤ global (limiter s);
  ck_perIP : ∀ ip, from_ip ip (live s) ≤ perIP (limiter s);
  ck_tracked : ∀ c, c ∈ tracked s → is_Some (live s !! c);
  ck_fresh : ∀ c, is_Some (live s !! c) → (c < nextConn s)%nat
}.

(** After a shutdown nothing is tracked. *)
Definition conns_ok (s : listener) : Prop := conns_core s ∧ (stopped s = true → tracked s = ∅).

Lemma from_ip_nonneg ip m : 0 ≤ from_ip ip m.
Proof. apply map_sum_nonneg. intros. case_bool_decide; lia. Qed.

Lemma from_ip_insert ip i c m :
  m !! c = None → from_ip ip (<[c := i]> m) = (if bool_decide (i = ip) then 1 else 0) + from_ip ip m.
Proof. intros Hc. unfold from_ip. by rewrite map_sum_insert. Qed.

Lemma from_ip_delete ip i c m :
  m !! c = Some i → from_ip ip (delete c m) = from_ip ip m - (if bool_decide (i = ip) then 1 else 0).
Proof. intros Hc. unfold from_ip. by rewrite (map_sum_delete _ _ _ i). Qed.

Lemma newListener_ok g p : conns_ok (newListener g p).
Proof.
  unfold newListener, newConnectionLimiter.
  assert (0 ≤ if g <=? 0 then 256 else g) by (destruct (Z.leb_spec g 0); lia).
  assert (0 ≤ if p <=? 0 then 16 else p) by (destruct (Z.leb_spec p 0); lia).
  split; [|done]. split; cbn; try done. intros c [? Hc]. by rewrite lookup_empty in Hc.
Qed.

Lemma admit_ok ip s : conns_ok s → conns_ok (acceptConn ip s).2.
Proof.
  intros [[Ha Hi Hp Hg Hpi Ht Hf] Hs]. unfold acceptConn, acquire.
  destruct (Z.leb_spec (global (limiter s)) (active (limiter s))); [by split; [split|]|].
  destruct (Z.leb_spec (perIP (limiter s)) (count_ip (limiter s) ip)); [by split; [split|]|].
  assert (Hn : live s !! nextConn s = None).
  { apply eq_None_not_Some. intros H'%Hf. lia. }
  assert (Hcount : ∀ j, default 0 (<[ip := count_ip (limiter s) ip + 1]> (byIP (limiter s)) !! j) =
            (if bool_decide (ip = j) then 1 else 0) + from_ip j (live s)).
  { intros j. destruct (decide (ip = j)) as [<-|Hne].
    - rewrite lookup_insert_eq, bool_decide_eq_true_2 by done. cbn. rewrite Hi. lia.
    - rewrite lookup_insert_ne, bool_decide_eq_false_2 by done. by rewrite <-Hi. }
  split; [|done]. split; cbn; try done.
  - rewrite map_size_insert_None by done. lia.
  - intros j. unfold count_ip. cbn. by rewrite Hcount, from_ip_insert.
  - intros j n. destruct (decide (ip = j)) as [<-|Hne].
    + rewrite lookup_insert_eq. intros [= <-]. rewrite Hi. pose proof (from_ip_nonneg ip (live s)). lia.
    + rewrite lookup_insert_ne by done. apply Hp.
  - rewrite map_size_insert_None by done. lia.
  - intros j. rewrite from_ip_insert by done. specialize (Hpi j).
    destruct (decide (ip = j)) as [<-|Hne].
    + rewrite bool_decide_eq_true_2 by done. rewrite Hi in *. lia.
    + rewrite bool_decide_eq_false_2 by done. lia.
  - intros c Hc. destruct (decide (nextConn s = c)) as [<-|Hne].
    + by rewrite lookup_insert_eq.
    + rewrite lookup_insert_ne by done. by apply Ht.
  - intros c. destruct (decide (nextConn s = c)) as [<-|Hne]; [lia|].
    rewrite lookup_insert_ne by done. intros Hc%Hf. lia.
Qed.

(** An open connection is counted. *)
Lemma live_counted c ip s : conns_core s → live s !! c = Some ip →
  1 ≤ active (limiter s) ∧ 1 ≤ count_ip (limiter s) ip.
Proof.
  intros Hs Hc. rewrite (ck_active _ Hs), (ck_ip _ Hs). split.
  - destruct (decide (size (live s) = 0%nat)) as [E|]; [|lia].
    apply map_size_empty_inv in E. by rewrite E, lookup_empty in Hc.
  - pose proof (map_sum_lookup_le (λ (_ : nat) i, if bool_decide (i = ip) then 1 else 0) (live s) c ip)
      as Hle. cbv beta in Hle. rewrite bool_decide_eq_true_2 in Hle by done.
    apply Hle; [|done]. intros. case_bool_decide; lia.
Qed.

Lemma closeConn_core c s : conns_core s → conns_core (closeConn c s).
Proof.
  intros [Ha Hi Hp Hg Hpi Ht Hf]. unfold closeConn.
  destruct (live s !! c) as [ip|] eqn:Hc; [|by split].
  assert (size (delete c (live s)) = pred (size (live s))) as Hsize
    by (apply map_size_delete_Some; by eexists).
  destruct (live_counted c ip s (Build_conns_core _ Ha Hi Hp Hg Hpi Ht Hf) Hc) as [Hpos Hone].
  rewrite Ha in Hpos. rewrite Hi in Hone.
  assert (Hrel : ∀ j, count_ip (release ip (limiter s)) j = from_ip j (delete c (live s))).
  { intros j. rewrite (from_ip_delete _ _ _ _ Hc). unfold count_ip, release. cbn.
    fold (count_ip (limiter s) ip). rewrite (Hi ip).
    destruct (Z.leb_spec (from_ip ip (live s) - 1) 0), (decide (ip = j)) as [<-|Hne].
    - rewrite lookup_delete_eq, bool_decide_eq_true_2 by done. cbn. lia.
    - rewrite lookup_delete_ne, bool_decide_eq_false_2 by done.
      change (default 0 (byIP (limiter s) !! j)) with (count_ip (limiter s) j). rewrite Hi. lia.
    - rewrite lookup_insert_eq, bool_decide_eq_true_2 by done. done.
    - rewrite lookup_insert_ne, bool_decide_eq_false_2 by done.
      change (default 0 (byIP (limiter s) !! j)) with (count_ip (limiter s) j). rewrite Hi. lia. }
  split; cbn; try done.
  - rewrite Hsize, Ha. destruct (Z.ltb_spec (Z.of_nat (size (live s)) - 1) 0); lia.
  - intros j n. destruct (Z.leb_spec (count_ip (limiter s) ip - 1) 0).
    + rewrite lookup_delete_Some. intros [_ Hj]. by eapply Hp.
    + rewrite lookup_insert_Some. intros [[_ <-]|[_ Hj]]; [lia|by eapply Hp].
  - lia.
  - intros j. specialize (Hpi j). rewrite (from_ip_delete _ _ _ _ Hc). case_bool_decide; lia.
  - intros d [Hd Hne]%elem_of_difference. rewrite lookup_delete_ne by set_solver. by apply Ht.
  - intros d [x [_ Hx]%lookup_delete_Some]. apply Hf. by exists x.
Qed.

Lemma closeConn_tracked c s : conns_core s → tracked (closeConn c s) = tracked s ∖ {[c]}.
Proof.
  intros Hc. unfold closeConn. destruct (live s !! c) as [ip|] eqn:E; [done|].
  assert (c ∉ tracked s); [|set_solver]. intros Hin%(ck_tracked _ Hc). rewrite E in Hin. by destruct Hin.
Qed.

Lemma closeConn_stopped c s : stopped (closeConn c s) = stopped s.
Proof. unfold closeConn. by case_match. Qed.

Lemma closeConn_ok c s : conns_ok s → conns_ok (closeConn c s).
Proof.
  intros [Hc Hs]. split; [by apply closeConn_core|]. rewrite closeConn_stopped, closeConn_tracked by done.
  intros Hst. rewrite (Hs Hst). set_solver.
Qed.

Lemma track_ok c s : conns_ok s → conns_ok (track c s).2.
Proof.
  intros Hok. unfold track. destruct (live s !! c) as [ip|] eqn:E; [|done].
  destruct (stopped s) eqn:Est; [by apply closeConn_ok|]. destruct Hok as [[Ha Hi Hp Hg Hpi Ht Hf] Hs].
  split; [|done]. split; cbn; try done.
  intros d [->%elem_of_singleton|Hd]%elem_of_union; [by exists ip|by apply Ht].
Qed.

Lemma closing_loop l : ∀ s,
  conns_core s → conns_core (fold_left (λ s c, closeConn c s) l s) ∧
  stopped (fold_left (λ s c, closeConn c s) l s) = stopped s ∧
  tracked (fold_left (λ s c, closeConn c s) l s) = tracked s ∖ list_to_set l.
Proof.
  induction l as [|c l IH]; intros s Hc; cbn [fold_left].
  { split_and!; [done|done|]. set_solver. }
  destruct (IH (closeConn c s)) as (H1 & H2 & H3); [by apply closeConn_core|].
  split_and!; [done|by rewrite H2, closeConn_stopped|]. rewrite H3, closeConn_tracked by done.
  set_solver.
Qed.

Lemma closeAll_ok s : conns_ok s → conns_ok (closeAll s).
Proof.
  intros [[Ha Hi Hp Hg Hpi Ht Hf] _]. unfold closeAll.
  destruct (closing_loop (elements (tracked s))
              (mkListener (limiter s) (live s) (tracked s) true (nextConn s))) as (H1 & H2 & H3).
  { by split. }
  split; [done|]. intros _. rewrite H3. cbn. rewrite list_to_set_elements_L. set_solver.
Qed.

Lemma conn_run_ok ops s : conns_ok s → conns_ok (conn_run ops s).
Proof.
  intros Hs. unfold conn_run. apply fold_left_inv; [|done]. intros t [ip|c|c|] _ Ht; cbn [conn_step].
  - by apply admit_ok.
  - by apply track_ok.
  - by apply closeConn_ok.
  - by apply closeAll_ok.
Qed.

Lemma limits_kept ops : ∀ s,
  global (limiter (conn_run ops s)) = global (limiter s) ∧
  perIP (limiter (conn_run ops s)) = perIP (limiter s).
Proof.
  assert (Hclose : ∀ c s, global (limiter (closeConn c s)) = global (limiter s) ∧
            perIP (limiter (closeConn c s)) = perIP (limiter s)).
  { intros c s. unfold closeConn. by case_match. }
  induction ops as [|op ops IH]; intros s; [done|].
  change (conn_run (op :: ops) s) with (conn_run ops (conn_step s op)).
  destruct (IH (conn_step s op)) as [-> ->]. destruct op as [ip|c|c|]; cbn [conn_step].
  - unfold acceptConn, acquire. destruct (global (limiter s) <=? active (limiter s)); [done|].
    by destruct (perIP (limiter s) <=? count_ip (limiter s) ip).
  - unfold track. destruct (live s !! c); [|done]. destruct (stopped s); [apply Hclose|done].
  - apply Hclose.
  - unfold closeAll. revert s. intros s.
    apply (fold_left_inv (λ t, global (limiter t) = global (limiter s) ∧
             perIP (limiter t) = perIP (limiter s))); [|done].
    intros t c _ [<- <-]. apply Hclose.
Qed.

(** The connection counters are exact in every history of accepting, tracking,
    closing (once or more often) and shutting down.  The global counter is the
    number of open connections and never exceeds the configured cap; the counter of
    an address is the number of its open connections, never exceeds the
    per-address cap, and is forgotten at zero; and after a shutdown nothing is
    tracked, while a connection admitted meanwhile is closed when the tracker sees
    it. *)
Theorem connections_bounded g p ops :
  let s := conn_run ops (newListener g p) in
  active (limiter s) = Z.of_nat (size (live s)) ∧
  Z.of_nat (size (live s)) ≤ (if g <=? 0 then 256 else g) ∧
  (∀ ip, count_ip (limiter s) ip = from_ip ip (live s) ∧
     from_ip ip (live s) ≤ (if p <=? 0 then 16 else p) ∧
     (from_ip ip (live s) = 0 → byIP (limiter s) !! ip = None)) ∧
  (stopped s = true → tracked s = ∅ ∧
     ∀ c ip, live s !! c = Some ip → track c s = (false, closeConn c s)).
Proof.
  intros s. destruct (conn_run_ok ops (newListener g p) (newListener_ok g p)) as [Hc Hs].
  fold s in Hc, Hs. destruct (limits_kept ops (newListener g p)) as [Hg Hp]. fold s in Hg, Hp.
  split_and!.
  - apply Hc.
  - etrans; [apply Hc|]. by rewrite Hg.
  - intros ip. split_and!; [apply Hc|etrans; [apply Hc|by rewrite Hp]|].
    rewrite <-(ck_ip _ Hc). unfold count_ip. destruct (byIP (limiter s) !! ip) as [n|] eqn:E; [|done].
    apply (ck_positive _ Hc) in E. cbn. lia.
  - intros Hst. split; [by apply Hs|]. intros c ip Hl. unfold track. by rewrite Hl, Hst.
Qed.

(** ** The deadline of a connection that has not logged in (authdeadline.go) *)

Definition connectionKey : Type := string * string.

(** [authDeadlineConn] with the deadlines of the connection below; no deadline is the
    zero time. *)
Record authDeadlineConn := mkAuthConn {
  acKey : connectionKey; acDeadline : Z; acActive : bool; acRead : option Z; acWrite : option Z; acClosed : bool
}.

(** The connections in the order they came, and [authConnections] of the server. *)
Record authConns := mkAuthConns { acConns : list authDeadlineConn; authConnections : gmap connectionKey nat }.

Definition clamp (c : authDeadlineConn) (deadline : option Z) : option Z :=
  if acActive c && match deadline with None => true | Some d => acDeadline c <? d end then Some (acDeadline c) else deadline.

Definition SetReadDeadline (deadline : option Z) (c : authDeadlineConn) : authDeadlineConn :=
  mkAuthConn (acKey c) (acDeadline c) (acActive c) (clamp c deadline) (acWrite c) (acClosed c).
Definition SetWriteDeadline (deadline : option Z) (c : authDeadlineConn) : authDeadlineConn :=
  mkAuthConn (acKey c) (acDeadline c) (acActive c) (acRead c) (clamp c deadline) (acClosed c).
Definition SetDeadline (deadline : option Z) (c : authDeadlineConn) : authDeadlineConn :=
  mkAuthConn (acKey c) (acDeadline c) (acActive c) (clamp c deadline) (clamp c deadline) (acClosed c).

Definition clearAuth (c : authDeadlineConn) : authDeadlineConn := mkAuthConn (acKey c) (acDeadline c) false None None (acClosed c).

(** [authDeadlineListener.Accept] of a connection, at [now]. *)
Definition acceptAuth (lifetime : Z) (key : connectionKey) (now : Z) (s : authConns) : authConns :=
  let c := mkAuthConn key (now + lifetime) true None None false in
  mkAuthConns (acConns s ++ [SetDeadline (Some (acDeadline c)) c]) (<[key := length (acConns s)]> (authConnections s)).

(** [authDeadlineConn.Close]: once. *)
Definition closeAuth (i : nat) (s : authConns) : authConns :=
  match acConns s !! i with
  | Some c =>
      if acClosed c then s
      else mkAuthConns (<[i := mkAuthConn (acKey c) (acDeadline c) (acActive c) (acRead c) (acWrite c) true]> (acConns s))
             (delete (acKey c) (authConnections s))
  | None => s
  end.

(** [Server.authDeadline]. *)
Definition authDeadline (key : connectionKey) (s : authConns) : option nat := authConnections s !! key.

Inductive authOp :=
  | AuthAccept (key : connectionKey) (now : Z)
  | AuthSet (i : nat) (deadline : option Z)
  | AuthSetRead (i : nat) (deadline : option Z)
  | AuthSetWrite (i : nat) (deadline : option Z)
  | AuthClear (i : nat)
  | AuthClose (i : nat).

Definition onConn (f : authDeadlineConn → authDeadlineConn) (i : nat) (s : authConns) : authConns :=
  mkAuthConns (alter f i (acConns s)) (authConnections s).

Definition auth_step (lifetime : Z) (s : authConns) (op : authOp) : authConns :=
  match op with
  | AuthAccept key now => acceptAuth lifetime key now s
  | AuthSet i d => onConn (SetDeadline d) i s
  | AuthSetRead i d => onConn (SetReadDeadline d) i s
  | AuthSetWrite i d => onConn (SetWriteDeadline d) i s
  | AuthClear i => onConn clearAuth i s
  | AuthClose i => closeAuth i s
  end.

Definition auth_run (lifetime : Z) (ops : list authOp) (s : authConns) : authConns := fold_left (auth_step lifetime) ops s.
Definition noConns : authConns := mkAuthConns [] ∅.

(** Until the login both deadlines are set and no later than the connection's own. *)
Definition authLimited (c : authDeadlineConn) : Prop :=
  acActive c = true → (∃ d, acRead c = Some d ∧ d ≤ acDeadline c) ∧ ∃ d, acWrite c = Some d ∧ d ≤ acDeadline c.

Lemma clamp_limited c d : acActive c = true → ∃ d', clamp c d = Some d' ∧ d' ≤ acDeadline c.
Proof.
  intros Ha. unfold clamp. rewrite Ha. destruct d as [d|]; cbn [andb]; [|eauto with lia].
  destruct (Z.ltb_spec (acDeadline c) d); eauto with lia.
Qed.

Definition authKept (key : connectionKey) (deadline : Z) (c : authDeadlineConn) : Prop :=
  acKey c = key ∧ acDeadline c = deadline ∧ authLimited c.

Lemma auth_step_kept lifetime s op i key deadline c :
  acConns s !! i = Some c → authKept key deadline c →
  ∃ c', acConns (auth_step lifetime s op) !! i = Some c' ∧ authKept key deadline c' ∧
    (acActive c' = acActive c ∨ op = AuthClear i).
Proof.
  intros Hi (Hk & Hd & Hl).
  assert (Halter : ∀ f j, authKept key deadline (f c) → acActive (f c) = acActive c ∨ op = AuthClear j →
    ∃ c', acConns (onConn f j s) !! i = Some c' ∧ authKept key deadline c' ∧ (acActive c' = acActive c ∨ op = AuthClear i)).
  { intros f j Hf Ha. cbn [acConns onConn]. destruct (decide (j = i)) as [-> |Hne].
    - rewrite list_lookup_alter_eq, Hi. exists (f c). split_and!; done || apply Hf.
    - rewrite list_lookup_alter_ne by done. exists c. by split_and!; [|split|left]. }
  destruct op as [k now|j d|j d|j d|j|j]; cbn [auth_step].
  - cbn [acceptAuth acConns]. rewrite lookup_app_l by (by eapply lookup_lt_Some). exists c. by split_and!; [|split|left].
  - apply Halter; [|by left]. split_and!; [done..|]. intros Ha. split; exact (clamp_limited c d Ha).
  - apply Halter; [|by left]. split_and!; [done..|]. intros Ha. split; [exact (clamp_limited c d Ha)|by apply Hl].
  - apply Halter; [|by left]. split_and!; [done..|]. intros Ha. split; [by apply Hl|exact (clamp_limited c d Ha)].
  - apply Halter; [|by right]. by split_and!.
  - unfold closeAuth. destruct (acConns s !! j) as [cj|] eqn:Ej; [|exists c; by split_and!; [|split|left]].
    destruct (acClosed cj); [exists c; by split_and!; [|split|left]|]. cbn [acConns].
    destruct (decide (j = i)) as [-> |Hne].
    + rewrite list_lookup_insert_eq by (by eapply lookup_lt_Some). assert (cj = c) as -> by congruence.
      eexists. by split_and!; [|split|left].
    + rewrite list_lookup_insert_ne by done. exists c. by split_and!; [|split|left].
Qed.

Lemma auth_run_kept lifetime ops s i key deadline c :
  acConns s !! i = Some c → authKept key deadline c →
  ∃ c', acConns (auth_run lifetime ops s) !! i = Some c' ∧ authKept key deadline c' ∧
    (AuthClear i ∉ ops → acActive c' = acActive c).
Proof.
  revert s c. induction ops as [|op ops IH]; intros s c Hi Hk; [by exists c|].
  destruct (auth_step_kept lifetime s op i key deadline c Hi Hk) as (c1 & Hi1 & Hk1 & Ha1).
  destruct (IH _ _ Hi1 Hk1) as (c2 & Hi2 & Hk2 & Ha2). exists c2. split_and!; [done|apply Hk2..|].
  intros Hn. rewrite Ha2 by set_solver. destruct Ha1 as [Ha1|Ha1]; [done|set_solver].
Qed.

(** A client that does not log in cannot hold its connection longer than the lifetime:
    whatever deadlines the SMTP library sets, in every history of all connections, both
    deadlines of the connection stay set and end at the latest a lifetime after it was
    accepted, until the session that owns it has logged in. *)
Theorem auth_deadline_enforced lifetime before key now after :
  ∃ c, acConns (auth_run lifetime (before ++ AuthAccept key now :: after) noConns)
         !! length (acConns (auth_run lifetime before noConns)) = Some c ∧
    (AuthClear (length (acConns (auth_run lifetime before noConns))) ∉ after →
       (∃ d, acRead c = Some d ∧ d ≤ now + lifetime) ∧ ∃ d, acWrite c = Some d ∧ d ≤ now + lifetime).
Proof.
  set (s := auth_run lifetime before noConns). unfold auth_run. rewrite fold_left_app. fold (auth_run lifetime before noConns). fold s.
  cbn [fold_left]. fold (auth_run lifetime after (auth_step lifetime s (AuthAccept key now))).
  pose (c0 := mkAuthConn key (now + lifetime) true None None false).
  destruct (auth_run_kept lifetime after (auth_step lifetime s (AuthAccept key now)) (length (acConns s)) key (now + lifetime)
    (SetDeadline (Some (now + lifetime)) c0)) as (c & Hc & (_ & Hd & Hl) & Ha).
  - cbn [auth_step acceptAuth acConns]. by rewrite lookup_app_r, Nat.sub_diag by lia.
  - split_and!; [done..|]. intros _. split; by apply (clamp_limited c0).
  - exists c. split; [done|]. intros Hn. rewrite <- Hd. by apply Hl, Ha.
Qed.

(** No open connection has the addresses of a new one. *)
Fixpoint distinct_accepts (lifetime : Z) (ops : list authOp) (s : authConns) : bool :=
  match ops with
  | [] => true
  | op :: ops =>
      match op with
      | AuthAccept key _ => forallb (λ c, acClosed c || negb (bool_decide (acKey c = key))) (acConns s)
      | _ => true
      end && distinct_accepts lifetime ops (auth_step lifetime s op)
  end.

Definition authFound (s : authConns) : Prop := ∀ key i,
  authDeadline key s = Some i ↔ ∃ c, acConns s !! i = Some c ∧ acKey c = key ∧ acClosed c = false.

Lemma found_onConn f i s : (∀ c, acKey (f c) = acKey c ∧ acClosed (f c) = acClosed c) → authFound s → authFound (onConn f i s).
Proof.
  intros Hf Hs key j. unfold authDeadline, onConn. cbn [authConnections acConns]. rewrite (Hs key j).
  destruct (decide (i = j)) as [-> |Hne]; [|by rewrite list_lookup_alter_ne].
  rewrite list_lookup_alter_eq. destruct (acConns s !! j) as [c|]; cbn; [|naive_solver].
  destruct (Hf c) as [H1 H2]. split; intros (c' & [= <-] & Hk & Ho).
  - exists (f c). split_and!; congruence.
  - exists c. split_and!; congruence.
Qed.

Lemma found_accept lifetime key now s :
  forallb (λ c, acClosed c || negb (bool_decide (acKey c = key))) (acConns s) = true → authFound s → authFound (acceptAuth lifetime key now s).
Proof.
  intros Hd Hs k i. rewrite forallb_forall in Hd.
  assert (Hfree : ∀ j c, acConns s !! j = Some c → acClosed c = false → acKey c ≠ key).
  { intros j c Hj Hc. apply list_elem_of_lookup_2, list_elem_of_In in Hj. specialize (Hd c Hj). rewrite Hc in Hd. cbn in Hd.
    apply negb_true_iff in Hd. by apply bool_decide_eq_false_1 in Hd. }
  unfold authDeadline, acceptAuth. cbn [authConnections acConns acDeadline].
  destruct (decide (i = length (acConns s))) as [-> |Hne].
  - rewrite lookup_app_r, Nat.sub_diag by lia. cbn. split.
    + destruct (decide (k = key)) as [-> |Hk]; [eauto|]. rewrite lookup_insert_ne by done. intros (c & Hc & _)%Hs.
      apply lookup_lt_Some in Hc. lia.
    + intros (c & [= <-] & <- & _). apply lookup_insert_eq.
  - assert (Hl : (acConns s ++ [SetDeadline (Some (now + lifetime)) (mkAuthConn key (now + lifetime) true None None false)]) !! i = acConns s !! i).
    { destruct (decide (i < length (acConns s))%nat); [by apply lookup_app_l|].
      rewrite (lookup_ge_None_2 (acConns s)) by lia. apply lookup_ge_None_2. rewrite length_app. cbn. lia. }
    rewrite Hl. destruct (decide (k = key)) as [-> |Hk]; [|rewrite lookup_insert_ne by done; apply Hs].
    rewrite lookup_insert_eq. split; [intros [= <-]; done|]. intros (c & Hc & Hkey & Ho). by destruct (Hfree i c Hc Ho).
Qed.

Lemma found_close i s : authFound s → authFound (closeAuth i s).
Proof.
  intros Hs. unfold closeAuth. destruct (acConns s !! i) as [c|] eqn:Ei; [|done]. destruct (acClosed c) eqn:Ec; [done|].
  assert (Hi : authDeadline (acKey c) s = Some i) by (apply Hs; eauto).
  intros k j. unfold authDeadline. cbn [authConnections acConns]. destruct (decide (i = j)) as [-> |Hne].
  - rewrite list_lookup_insert_eq by (by eapply lookup_lt_Some). split; [|by intros (c' & [= <-] & _ & Hc')].
    destruct (decide (k = acKey c)) as [-> |Hk]; [by rewrite lookup_delete_eq|]. rewrite lookup_delete_ne by done.
    intros (c' & Hc' & Hk' & _)%Hs. congruence.
  - rewrite list_lookup_insert_ne by done. destruct (decide (k = acKey c)) as [-> |Hk]; [|rewrite lookup_delete_ne by done; apply Hs].
    rewrite lookup_delete_eq. split; [done|]. intros Hj. apply Hs in Hj. congruence.
Qed.

(** A login lifts the deadline of its own connection only: while no two open
    connections have the same addresses, the connection a session finds by its
    addresses is the open one that has them. *)
Theorem session_finds_connection lifetime ops :
  distinct_accepts lifetime ops noConns = true → authFound (auth_run lifetime ops noConns).
Proof.
  assert (H0 : authFound noConns) by (intros key i; split; [done|by intros (c & Hc & _)]).
  revert H0. generalize noConns. induction ops as [|op ops IH]; intros s Hs; [done|]. cbn [distinct_accepts].
  intros [Hop Hops]%andb_true_iff. apply (IH (auth_step lifetime s op)); [|done].
  destruct op as [k now|j d|j d|j d|j|j]; cbn [auth_step]; [by apply found_accept|by apply found_onConn..|by apply found_close].
Qed.

Lemma session_finds_connection_witness :
  authDeadline ("a", "c") (auth_run 30 [AuthAccept ("a", "b") 0; AuthAccept ("a", "c") 1; AuthClose 0; AuthAccept ("a", "b") 5; AuthClear 2] noConns)
    = Some 1%nat.
Proof.
  apply (session_finds_connection 30 [AuthAccept ("a", "b") 0; AuthAccept ("a", "c") 1; AuthClose 0; AuthAccept ("a", "b") 5; AuthClear 2]);
    [vm_compute; reflexivity|]. eexists. split; [vm_compute; reflexivity|split; reflexivity].
Defined.

(** ** Serving (serve.go)

    [Run] starts a goroutine for each open listener and one that waits for the parent
    context, and returns when all of them have ended.  [shutdown] runs once, behind a
    [sync.Once] that makes every other caller wait for it, and only after every accept
    loop has entered [Accept].  A step is what one goroutine does between two points at
    which it may wait. *)

Inductive servePhase :=
  | Entering     (* started, before the first Accept *)
  | Accepting    (* in Serve *)
  | Stopping     (* Serve has returned; in shutdown *)
  | Leaving      (* before the deferred function *)
  | LastStop     (* the last one, in shutdown again *)
  | Gone.

Inductive waiterPhase := Waiting | WaiterStop | WaiterGone.

Inductive serveThread := Loop (i : nat) | Waiter.

Inductive onceState := Idle | Running (t : serveThread) | Ran.

#[export] Instance servePhase_eq_dec : EqDecision servePhase.
Proof. solve_decision. Defined.
#[export] Instance serveThread_eq_dec : EqDecision serveThread.
Proof. solve_decision. Defined.
#[export] Instance onceState_eq_dec : EqDecision onceState.
Proof. solve_decision. Defined.

Record serveState := mkServe {
  svLoops : list servePhase;
  svWaiter : waiterPhase;
  svCancelled : bool;
  svOnce : onceState;
  svClosed : bool;
  svDrained : bool;
  svErrs : list error
}.

Inductive serveEvent :=
  | Cancel
  | EnterAccept (i : nat)
  | ServeReturns (i : nat) (err : option error)
  | ShutdownRuns (t : serveThread)
  | ShutdownReturns (t : serveThread) (errs : list error)
  | ShutdownPassed (t : serveThread)
  | LoopLeaves (i : nat)
  | WaitCancelled
  | WaitStarted.

Section serving.
(** [net.ErrClosed] and the library's [ErrServerClosed]. *)
Variable isClosed : error → bool.

Definition ignoreClosed (err : option error) : option error :=
  match err with Some e => if isClosed e then None else Some e | None => None end.

Definition serveSetLoop (i : nat) (p : servePhase) (s : serveState) : serveState :=
  mkServe (<[i := p]> (svLoops s)) (svWaiter s) (svCancelled s) (svOnce s) (svClosed s) (svDrained s) (svErrs s).
Definition serveSetWaiter (p : waiterPhase) (s : serveState) : serveState :=
  mkServe (svLoops s) p (svCancelled s) (svOnce s) (svClosed s) (svDrained s) (svErrs s).
Definition recordErr (err : option error) (s : serveState) : serveState :=
  mkServe (svLoops s) (svWaiter s) (svCancelled s) (svOnce s) (svClosed s) (svDrained s)
    (svErrs s ++ match ignoreClosed err with Some e => [e] | None => [] end).

(** [started] is closed. *)
Definition allStarted (s : serveState) : bool := forallb (λ p, negb (bool_decide (p = Entering))) (svLoops s).

Definition callsShutdown (t : serveThread) (s : serveState) : bool :=
  match t with
  | Loop i => bool_decide (svLoops s !! i = Some Stopping ∨ svLoops s !! i = Some LastStop)
  | Waiter => match svWaiter s with WaiterStop => true | _ => false end
  end.

(** [shutdown] has returned to its caller. *)
Definition passShutdown (t : serveThread) (s : serveState) : serveState :=
  match t with
  | Loop i => serveSetLoop i (if bool_decide (svLoops s !! i = Some LastStop) then Gone else Leaving) s
  | Waiter => serveSetWaiter WaiterGone s
  end.

(** [active], the loops whose deferred function has not run. *)
Definition activeLoops (s : serveState) : nat :=
  length (filter (λ p, p ≠ LastStop ∧ p ≠ Gone) (svLoops s)).

Definition serveStep (ev : serveEvent) (s : serveState) : option serveState :=
  match ev with
  | Cancel => Some (mkServe (svLoops s) (svWaiter s) true (svOnce s) (svClosed s) (svDrained s) (svErrs s))
  | EnterAccept i => if bool_decide (svLoops s !! i = Some Entering) then Some (serveSetLoop i Accepting s) else None
  | ServeReturns i err =>
      if bool_decide (svLoops s !! i = Some Accepting) then Some (serveSetLoop i Stopping (recordErr (Wrap "serve" <$> err) s)) else None
  | ShutdownRuns t =>
      if callsShutdown t s && allStarted s && bool_decide (svOnce s = Idle)
      then Some (mkServe (svLoops s) (svWaiter s) (svCancelled s) (Running t) true (svDrained s) (svErrs s)) else None
  | ShutdownReturns t errs =>
      if bool_decide (svOnce s = Running t)
      then Some (passShutdown t (mkServe (svLoops s) (svWaiter s) (svCancelled s) Ran (svClosed s) true
                  (svErrs s ++ omap (λ e, ignoreClosed (Some (Wrap "shutdown" e))) errs)))
      else None
  | ShutdownPassed t =>
      if callsShutdown t s && allStarted s && bool_decide (svOnce s = Ran) then Some (passShutdown t s) else None
  | LoopLeaves i =>
      if bool_decide (svLoops s !! i = Some Leaving)
      then Some (serveSetLoop i (if (activeLoops s =? 1)%nat then LastStop else Gone) s) else None
  | WaitCancelled =>
      match svWaiter s with Waiting => if svCancelled s then Some (serveSetWaiter WaiterStop s) else None | _ => None end
  | WaitStarted =>
      match svWaiter s with
      | Waiting => if bool_decide (svOnce s = Idle) then None else Some (serveSetWaiter WaiterGone s)
      | _ => None
      end
  end.

Definition serveStart (n : nat) : serveState := mkServe (replicate n Entering) Waiting false Idle false false [].

Inductive serve_reachable (n : nat) : serveState → Prop :=
  | serve_start : serve_reachable n (serveStart n)
  | serve_next s ev s' : serve_reachable n s → serveStep ev s = Some s' → serve_reachable n s'.

(** [wg.Wait] returns. *)
Definition serveFinished (s : serveState) : Prop := Forall (λ p, p = Gone) (svLoops s) ∧ svWaiter s = WaiterGone.

(** A reason to stop: the context is done, an accept loop has ended, or [shutdown] runs. *)
Definition mustStop (s : serveState) : Prop :=
  svCancelled s = true ∨ svOnce s ≠ Idle ∨ Exists (λ p, p ≠ Entering ∧ p ≠ Accepting) (svLoops s).

(** Steps the program takes by itself: a loop that accepts returns once its listener is
    closed, and the library's shutdown returns within its deadline. *)
Definition ownStep (ev : serveEvent) (s : serveState) : Prop :=
  match ev with Cancel => False | ServeReturns _ _ => svClosed s = true | _ => True end.

Definition beyond (p : servePhase) : Prop := p = Leaving ∨ p = LastStop ∨ p = Gone.

Record serve_ok (s : serveState) : Prop := {
  so_running : ∀ t, svOnce s = Running t → match t with Loop i => svLoops s !! i = Some Stopping | Waiter => svWaiter s = WaiterStop end;
  so_closed : svOnce s ≠ Idle → svClosed s = true;
  so_drained : svOnce s = Ran → svDrained s = true;
  so_beyond : ∀ i p, svLoops s !! i = Some p → beyond p → svOnce s = Ran;
  so_waiter : svWaiter s = WaiterGone → svOnce s ≠ Idle;
  so_started : svOnce s ≠ Idle → allStarted s = true
}.

Lemma serve_start_ok n : serve_ok (serveStart n).
Proof.
  split; try done. intros i p Hi Hb. cbn in Hi. apply lookup_replicate in Hi as [-> _]. by destruct Hb as [|[]].
Qed.

Lemma allStarted_insert i p s : p ≠ Entering → allStarted s = true → allStarted (serveSetLoop i p s) = true.
Proof.
  unfold allStarted, serveSetLoop. cbn [svLoops]. rewrite !forallb_forall. intros Hp Hs x Hx.
  apply list_elem_of_In, list_elem_of_lookup in Hx as [j Hj].
  destruct (decide (i = j)) as [-> |Hne].
  - apply list_lookup_insert_Some in Hj as [(_ & -> & _)|(? & _)]; [|done]. by rewrite bool_decide_eq_false_2.
  - rewrite list_lookup_insert_ne in Hj by done. apply Hs, list_elem_of_In. by eapply list_elem_of_lookup_2.
Qed.

(** Replacing the phase of a loop. *)
Lemma serve_ok_setLoop i p p' s :
  serve_ok s → svLoops s !! i = Some p → (beyond p' → svOnce s = Ran) → p' ≠ Entering → (p = Stopping → svOnce s ≠ Running (Loop i)) →
  serve_ok (serveSetLoop i p' s).
Proof.
  intros [Hr Hc Hd Hb Hw Hs] Hi Hp Hne Hrun. split; cbn [svOnce svClosed svDrained svWaiter serveSetLoop]; try done.
  - intros t Ht. specialize (Hr t Ht). destruct t as [j|]; [|done]. cbn [svLoops serveSetLoop].
    destruct (decide (i = j)) as [-> |Hij]; [|by rewrite list_lookup_insert_ne].
    assert (p = Stopping) by congruence. by apply Hrun in H.
  - intros j q Hj Hq. cbn [svLoops serveSetLoop] in Hj. apply list_lookup_insert_Some in Hj as [(_ & -> & _)|(_ & Hj)]; eauto.
  - intros Ho. apply allStarted_insert; auto.
Qed.

Lemma serveStep_ok ev s s' : serve_ok s → serveStep ev s = Some s' → serve_ok s'.
Proof.
  intros Hok. pose proof Hok as [Hr Hc Hd Hb Hw Hs]. destruct ev as [|i|i err|t|t errs|t|i| |]; cbn [serveStep]; intros Hst.
  - by injection Hst as <-.
  - case_bool_decide as Hi; [|done]. injection Hst as <-. eapply serve_ok_setLoop; [done|exact Hi|by intros [|[]]|done|done].
  - case_bool_decide as Hi; [|done]. injection Hst as <-.
    eapply (serve_ok_setLoop i Accepting Stopping (recordErr _ s)); [|exact Hi|by intros [|[]]|done|done].
    by split.
  - destruct (callsShutdown t s) eqn:Ec; [|done]. destruct (allStarted s) eqn:Es; [|done]. cbn [andb] in Hst.
    case_bool_decide as Ho; [|done]. injection Hst as <-. split; cbn [svOnce svClosed svDrained svLoops svWaiter]; try done.
    + intros t' [= <-]. unfold callsShutdown in Ec. destruct t as [i|]; [|by destruct (svWaiter s)].
      apply bool_decide_eq_true in Ec as [Ec|Ec]; [done|]. assert (svOnce s = Ran) by (eapply Hb; [exact Ec|by right; left]). congruence.
    + intros i p Hi Hp. assert (svOnce s = Ran) by eauto. congruence.
  - case_bool_decide as Ho; [|done]. injection Hst as <-. specialize (Hr t Ho).
    assert (Hne : svOnce s ≠ Idle) by congruence.
    set (s1 := mkServe _ _ _ _ _ _ _). assert (Hok1 : serve_ok s1) by (split; cbn; auto; done).
    destruct t as [i|]; cbn [passShutdown].
    + rewrite bool_decide_eq_false_2 by (cbn; congruence). by eapply (serve_ok_setLoop i Stopping).
    + destruct Hok1. by split; cbn; auto.
  - destruct (callsShutdown t s) eqn:Ec; [|done]. destruct (allStarted s) eqn:Es; [|done]. cbn [andb] in Hst.
    case_bool_decide as Ho; [|done]. injection Hst as <-. destruct t as [i|]; cbn [passShutdown].
    + unfold callsShutdown in Ec. apply bool_decide_eq_true in Ec.
      destruct Ec as [Ec|Ec]; (eapply serve_ok_setLoop; [done|exact Ec|done|by case_bool_decide|congruence]).
    + split; cbn; auto; congruence.
  - case_bool_decide as Hi; [|done]. injection Hst as <-.
    assert (Hran : svOnce s = Ran) by (eapply Hb; [exact Hi|by left]).
    eapply serve_ok_setLoop; [done|exact Hi|done|by destruct (_ =? _)%nat|done].
  - destruct (svWaiter s) eqn:Ew; [|done..]. destruct (svCancelled s); [|done]. injection Hst as <-. split; cbn; auto; try done.
    intros t Ht. specialize (Hr t Ht). destruct t; [done|congruence].
  - destruct (svWaiter s) eqn:Ew; [|done..]. case_bool_decide as Ho; [done|]. injection Hst as <-. split; cbn; auto; try done.
    intros t Ht. specialize (Hr t Ht). destruct t; [done|congruence].
Qed.

Lemma serve_reachable_ok n s : serve_reachable n s → serve_ok s ∧ length (svLoops s) = n.
Proof.
  intros Hr. split.
  - induction Hr as [|s ev s' _ IH Hs]; [apply serve_start_ok|by eapply serveStep_ok].
  - induction Hr as [|s ev s' _ IH Hs]; [apply length_replicate|]. rewrite <- IH. clear IH.
    destruct ev as [|i|i err|t|t errs|t|i| |]; cbn [serveStep] in Hs;
      repeat (case_match; try done); simplify_eq; try destruct t; cbn; rewrite ?length_insert; done.
Qed.

(** How far the goroutines have to go. *)
Definition phaseRank (p : servePhase) : nat :=
  match p with Entering => 5 | Accepting => 4 | Stopping => 3 | Leaving => 2 | LastStop => 1 | Gone => 0 end.

Definition serveRank (s : serveState) : nat :=
  sum_list_with phaseRank (svLoops s) + match svWaiter s with Waiting => 2 | WaiterStop => 1 | WaiterGone => 0 end
  + match svOnce s with Idle => 1 | _ => 0 end.

Lemma rank_insert i p p' l :
  l !! i = Some p → (phaseRank p' < phaseRank p)%nat → (sum_list_with phaseRank (<[i := p']> l) < sum_list_with phaseRank l)%nat.
Proof.
  intros Hi Hp. apply list_elem_of_split_length in Hi as (l1 & l2 & -> & ->).
  rewrite insert_app_r_alt, Nat.sub_diag by done. cbn [list_insert insert]. rewrite !sum_list_with_app. cbn. lia.
Qed.

(** Every step but a cancellation brings the return nearer. *)
Lemma serveStep_rank ev s s' : ev ≠ Cancel → serve_ok s → serveStep ev s = Some s' → (serveRank s' < serveRank s)%nat.
Proof.
  intros Hev Hok Hst. unfold serveRank.
  assert (Hloop : ∀ i p p' o, svLoops s !! i = Some p → (phaseRank p' < phaseRank p)%nat → svOnce s = o ∨ o ≠ Idle →
    (sum_list_with phaseRank (<[i := p']> (svLoops s)) + match svWaiter s with Waiting => 2 | WaiterStop => 1 | WaiterGone => 0 end
      + match o with Idle => 1 | _ => 0 end
     < sum_list_with phaseRank (svLoops s) + match svWaiter s with Waiting => 2 | WaiterStop => 1 | WaiterGone => 0 end
      + match svOnce s with Idle => 1 | _ => 0 end)%nat).
  { intros i p p' o Hi Hp Ho. pose proof (rank_insert i p p' _ Hi Hp). destruct Ho as [-> |Ho]; [lia|]. destruct o, (svOnce s); try done; lia. }
  destruct ev as [|i|i err|t|t errs|t|i| |]; cbn [serveStep] in Hst; [done|..].
  - case_bool_decide as Hi; [|done]. injection Hst as <-. eapply Hloop; [exact Hi|cbn; lia|by left].
  - case_bool_decide as Hi; [|done]. injection Hst as <-. eapply Hloop; [exact Hi|cbn; lia|by left].
  - destruct (callsShutdown t s); [|done]. destruct (allStarted s); [|done]. cbn [andb] in Hst.
    case_bool_decide as Ho; [|done]. injection Hst as <-. cbn [svLoops svWaiter svOnce]. rewrite Ho. lia.
  - case_bool_decide as Ho; [|done]. injection Hst as <-. pose proof (so_running _ Hok t Ho) as Hr. destruct t as [i|]; cbn [passShutdown].
    + rewrite bool_decide_eq_false_2 by (cbn; congruence). eapply Hloop; [exact Hr|cbn; lia|by right].
    + cbn [svLoops svWaiter svOnce serveSetWaiter]. rewrite Ho, Hr. lia.
  - destruct (callsShutdown t s) eqn:Ec; [|done]. destruct (allStarted s); [|done]. cbn [andb] in Hst.
    case_bool_decide as Ho; [|done]. injection Hst as <-. unfold callsShutdown in Ec. destruct t as [i|]; cbn [passShutdown].
    + apply bool_decide_eq_true in Ec as [Ec|Ec].
      * rewrite bool_decide_eq_false_2 by congruence. eapply Hloop; [exact Ec|cbn; lia|by left].
      * rewrite bool_decide_eq_true_2 by done. eapply Hloop; [exact Ec|cbn; lia|by left].
    + cbn [svLoops svWaiter svOnce serveSetWaiter]. destruct (svWaiter s); try done. lia.
  - case_bool_decide as Hi; [|done]. injection Hst as <-. eapply Hloop; [exact Hi|by destruct (_ =? _)%nat; cbn; lia|by left].
  - destruct (svWaiter s) eqn:Ew; [|done..]. destruct (svCancelled s); [|done]. injection Hst as <-. cbn [svLoops svWaiter svOnce serveSetWaiter]. lia.
  - destruct (svWaiter s) eqn:Ew; [|done..]. case_bool_decide; [done|]. injection Hst as <-. cbn [svLoops svWaiter svOnce serveSetWaiter]. lia.
Qed.

Lemma started_or_entering s : allStarted s = true ∨ ∃ i, svLoops s !! i = Some Entering.
Proof.
  destruct (decide (Exists (λ p, p = Entering) (svLoops s))) as [He|He].
  - right. apply Exists_exists in He as (p & Hp & ->). by apply list_elem_of_lookup in Hp.
  - left. apply forallb_forall. intros p Hp. apply negb_true_iff, bool_decide_eq_false_2. intros ->.
    apply He, Exists_exists. exists Entering. by split; [apply list_elem_of_In|].
Qed.

(** Something can always be done until [Run] returns. *)
Lemma serve_progress s : serve_ok s → mustStop s → ¬ serveFinished s → ∃ ev s', ownStep ev s ∧ serveStep ev s = Some s'.
Proof.
  intros Hok Hstop Hnf. destruct (started_or_entering s) as [Hst|[i Hi]].
  2:{ exists (EnterAccept i). eexists. split; [done|]. cbn [serveStep]. by rewrite bool_decide_eq_true_2. }
  destruct (svOnce s) as [|t|] eqn:Eo.
  - assert (Hrun : ∀ t, callsShutdown t s = true → ∃ ev s', ownStep ev s ∧ serveStep ev s = Some s').
    { intros t Ht. exists (ShutdownRuns t). eexists. split; [done|]. cbn [serveStep]. by rewrite Ht, Hst, bool_decide_eq_true_2. }
    destruct Hstop as [Hcan|[?|Hex]]; [|done|].
    + destruct (svWaiter s) eqn:Ew.
      * exists WaitCancelled. eexists. split; [done|]. cbn [serveStep]. by rewrite Ew, Hcan.
      * apply (Hrun Waiter). cbn. by rewrite Ew.
      * by apply (so_waiter _ Hok) in Ew.
    + apply Exists_exists in Hex as (p & Hp & Hp1 & Hp2). apply list_elem_of_lookup in Hp as [i Hi].
      destruct p; try done; [|assert (svOnce s = Ran) by (eapply (so_beyond _ Hok); [exact Hi|unfold beyond; tauto]); congruence..].
      apply (Hrun (Loop i)). apply bool_decide_eq_true_2. by left.
  - exists (ShutdownReturns t []). eexists. split; [done|]. cbn [serveStep]. by rewrite bool_decide_eq_true_2.
  - assert (Hpass : ∀ t, callsShutdown t s = true → ∃ ev s', ownStep ev s ∧ serveStep ev s = Some s').
    { intros t Ht. exists (ShutdownPassed t). eexists. split; [done|]. cbn [serveStep]. by rewrite Ht, Hst, bool_decide_eq_true_2. }
    destruct (decide (Forall (λ p, p = Gone) (svLoops s))) as [Hall|Hall].
    + destruct (svWaiter s) eqn:Ew; [|apply (Hpass Waiter); cbn; by rewrite Ew|by destruct Hnf].
      exists WaitStarted. eexists. split; [done|]. cbn [serveStep]. by rewrite Ew, bool_decide_eq_false_2 by congruence.
    + apply not_Forall_Exists in Hall; [|apply _]. apply Exists_exists in Hall as (p & Hp & Hg). apply list_elem_of_lookup in Hp as [i Hi].
      destruct p; try done.
      * unfold allStarted in Hst. rewrite forallb_forall in Hst. apply list_elem_of_lookup_2, list_elem_of_In in Hi. by apply Hst in Hi.
      * exists (ServeReturns i None). eexists. split; [apply (so_closed _ Hok); congruence|]. cbn [serveStep]. by rewrite bool_decide_eq_true_2.
      * apply (Hpass (Loop i)), bool_decide_eq_true_2. by left.
      * exists (LoopLeaves i). eexists. split; [done|]. cbn [serveStep]. by rewrite bool_decide_eq_true_2.
      * apply (Hpass (Loop i)), bool_decide_eq_true_2. by right.
      * by destruct Hg.
Qed.

(** C39: [Run] of the submission server returns, and returns drained.  In every interleaving
    of the accept loops, the waiter and their shared shutdown: once the context is done
    or a loop has ended, the program can take a step of its own until [Run] returns, and
    there are at most [serveRank] steps of any kind but cancellation to it; and when it
    has returned the shutdown has run to its end, the listeners are closed and every
    tracked connection has been closed. *)
Theorem serve_returns n s : (0 < n)%nat → serve_reachable n s →
  (mustStop s → ¬ serveFinished s → ∃ ev s', ownStep ev s ∧ serveStep ev s = Some s') ∧
  (∀ ev s', ev ≠ Cancel → serveStep ev s = Some s' → (serveRank s' < serveRank s)%nat) ∧
  (serveFinished s → svOnce s = Ran ∧ svClosed s = true ∧ svDrained s = true).
Proof.
  intros Hn Hr. destruct (serve_reachable_ok n s Hr) as [Hok Hlen]. split_and!.
  - by apply serve_progress.
  - intros ev s' Hev Hst. by eapply serveStep_rank.
  - intros [Hall _]. destruct (svLoops s) as [|p l] eqn:El; [cbn in Hlen; lia|]. apply Forall_cons in Hall as [-> _].
    assert (Hran : svOnce s = Ran) by (eapply (so_beyond _ Hok 0%nat Gone); [by rewrite El|unfold beyond; tauto]).
    split_and!; [done|apply (so_closed _ Hok); congruence|by apply (so_drained _ Hok)].
Qed.
End serving.

(** Two listeners; the second one fails, which stops the first. *)
Definition sampleServe : list serveEvent :=
  [EnterAccept 1; ServeReturns 1 (Some (Message "accept")); EnterAccept 0; ShutdownRuns (Loop 1); WaitStarted;
   ServeReturns 0 None; ShutdownReturns (Loop 1) []; LoopLeaves 1; ShutdownPassed (Loop 0); LoopLeaves 0; ShutdownPassed (Loop 0)].

Definition serveRun (isClosed : error → bool) (evs : list serveEvent) (s : serveState) : option serveState :=
  foldl (λ o ev, o ≫= serveStep isClosed ev) (Some s) evs.

Example sampleServe_returns :
  serveRun (λ _, false) sampleServe (serveStart 2)
    = Some (mkServe [Gone; Gone] WaiterGone false Ran true true [Wrap "serve" (Message "accept")]).
Proof. vm_compute. reflexivity. Qed.

Lemma serveRun_reachable isClosed n evs s : serveRun isClosed evs (serveStart n) = Some s → serve_reachable isClosed n s.
Proof.
  unfold serveRun. revert s. induction evs as [|ev evs IH] using rev_ind; intros s; cbn [foldl]; [intros [= <-]; constructor|].
  rewrite foldl_app. cbn [foldl]. destruct (foldl _ _ evs) as [s0|]; [|done]. cbn [mbind option_bind]. intros Hs.
  by eapply serve_next; [apply IH|].
Qed.

(** After the second listener has failed there is a step to take, and at the end the
    server is drained. *)
Lemma serve_returns_witness :
  (∃ s, serveRun (λ _, false) (take 2 sampleServe) (serveStart 2) = Some s ∧
     ∃ ev s', ownStep ev s ∧ serveStep (λ _, false) ev s = Some s') ∧
  (∃ s, serveRun (λ _, false) sampleServe (serveStart 2) = Some s ∧ svDrained s = true).
Proof.
  split.
  - destruct (serveRun (λ _, false) (take 2 sampleServe) (serveStart 2)) as [s|] eqn:E; [|vm_compute in E; discriminate E].
    exists s. split; [reflexivity|]. pose proof (serveRun_reachable _ _ _ _ E) as Hr. vm_compute in E. injection E as <-.
    apply (proj1 (serve_returns (λ _, false) 2 _ ltac:(lia) Hr)).
    + right. right. right. left. split; discriminate.
    + intros [Hall _]. inversion Hall. discriminate.
  - destruct (serveRun (λ _, false) sampleServe (serveStart 2)) as [s|] eqn:E; [|vm_compute in E; discriminate E].
    exists s. split; [reflexivity|]. pose proof (serveRun_reachable _ _ _ _ E) as Hr. vm_compute in E. injection E as <-.
    apply (proj2 (proj2 (serve_returns (λ _, false) 2 _ ltac:(lia) Hr))). split; [repeat constructor|reflexivity].
Defined.

(** *** Opening the listeners *)

(** The two listeners, and the sockets that are open. *)
Record sockets := mkSockets { skStarttls : option nat; skImplicit : option nat; skOpen : gset nat }.

(** [net.Listen] for an address that is not empty; the new socket is [n]. *)
Definition openSocket (answer : res unit) (addr : string) (n : nat) (opened : gset nat) : res (option nat * gset nat) :=
  if bool_decide (addr = "") then Ok (None, opened)
  else match answer with Ok _ => Ok (Some n, {[n]} ∪ opened) | Err e => Err (Wrap "listen" e) end.

(** [Server.Listen]; [submission] and [implicit] are the configured addresses, [a] and [b]
    what the system answers, [n] and [m] the sockets it gives. *)
Definition Listen (submission implicit : string) (a b : res unit) (n m : nat) (s : sockets) : res unit * sockets :=
  match skStarttls s, skImplicit s with
  | None, None =>
      match openSocket a submission n (skOpen s) with
      | Err e => (Err e, s)
      | Ok (l1, opened) =>
          match openSocket b implicit m opened with
          | Err e => (Err e, mkSockets None None (match l1 with Some n => opened ∖ {[n]} | None => opened end))
          | Ok (l2, opened) =>
              (match l1, l2 with None, None => Err (Message "no submission listeners enabled") | _, _ => Ok tt end,
               mkSockets l1 l2 opened)
          end
      end
  | _, _ => (Err (Message "submission listeners are already open"), s)
  end.

Definition closeSocket (l : option nat) (opened : gset nat) : gset nat := match l with Some n => opened ∖ {[n]} | None => opened end.

Definition CloseListeners (s : sockets) : sockets :=
  mkSockets None None (closeSocket (skImplicit s) (closeSocket (skStarttls s) (skOpen s))).

(** [Listen] opens every configured listener or leaves no socket behind, and
    [CloseListeners] gives all of them back. *)
Theorem listen_all_or_nothing submission implicit a b n m opened :
  n ∉ opened → m ∉ opened → n ≠ m →
  match Listen submission implicit a b n m (mkSockets None None opened) with
  | (Ok _, s) =>
      (skStarttls s = None ↔ submission = "") ∧ (skImplicit s = None ↔ implicit = "") ∧
      skOpen (CloseListeners s) = opened ∧ skOpen s ≠ opened
  | (Err _, s) => s = mkSockets None None opened
  end.
Proof.
  intros Hn Hm Hnm. unfold Listen, openSocket. cbn [skStarttls skImplicit skOpen].
  destruct (bool_decide (submission = "")) eqn:E1; [apply bool_decide_eq_true in E1|apply bool_decide_eq_false in E1; destruct a as [[]|]];
    try done; (destruct (bool_decide (implicit = "")) eqn:E2; [apply bool_decide_eq_true in E2|apply bool_decide_eq_false in E2; destruct b as [[]|]]);
    cbn [skStarttls skImplicit skOpen CloseListeners closeSocket]; try done.
  all: try (f_equal; set_solver).
  all: split_and!; try done; try (apply set_eq; set_solver); intros Hx; set_solver.
Qed.
