(* ===== verification/Rejection.v ===== *)
(** * The rejection listener (src/internal/rejection/server.go)

    A public SMTP endpoint that refuses every message.  go-smtp, the protocol
    engine, is not part of this code; two layers keep it from taking a message: a
    filter on the byte stream of a connection ([protocolConn.Read]), which hides the
    commands that transfer data, and a session whose answers are all refusals.

    The stream theorem ([rejection_stream]) says what go-smtp can read, however it
    sizes its reads; [rejection_answers] says what a recipient is told;
    [rejection_connections] bounds the connections and [rejected_connection_ends] their
    lifetime. *)

From S2P Require Import Prelude Errors GoLib Utf8 Mailbox Text Users ConnLimit.
Open Scope Z_scope.

(** ** The byte stream *)

Definition maxCommandsPerConnection : Z := 100.

(** The default size of a [bufio.Reader]. *)
Definition bufferSize : nat := 4096.

(** [bufio.Reader.ReadSlice] of a line: the bytes up to the first LF; a full buffer
    without one ([true]); or what is left. *)
Definition ReadSlice (input : bytes) : bytes * bytes * bool :=
  match index_byte 10 (take bufferSize input) with
  | Some i => (take (S i) input, drop (S i) input, false)
  | None =>
      if (bufferSize <=? length input)%nat then (take bufferSize input, drop bufferSize input, true)
      else (input, [], false)
  end.

Definition quit : bytes := str_list "QUIT" ++ crlf.

Definition word_end (c : ascii) : bool := is_char 32 c || is_char 13 c || is_char 10 c.

Fixpoint command_word (line : bytes) : bytes :=
  match line with
  | [] => []
  | c :: line => if word_end c then [] else c :: command_word line
  end.

(** [bytes.EqualFold] with a word none of whose letters folds to a character outside
    ASCII. *)
Definition is_word (w : string) (command : bytes) : bool :=
  bool_decide (map lower_char command = map lower_char (str_list w)).

(** [copy(line, w)]. *)
Definition overwrite (w : string) (line : bytes) : bytes :=
  take (length line) (str_list w) ++ drop (String.length w) line.

(** The line go-smtp is given for the [n]th line of the connection. *)
Definition rewriteLine (n : Z) (line : bytes) : bytes :=
  let command := command_word line in
  if maxCommandsPerConnection <? n then quit
  else if is_word "EHLO" command then overwrite "HELO" line
  else if is_word "DATA" command then overwrite "XATA" line
  else if is_word "BDAT" command then overwrite "XDAT" line
  else if is_word "VRFY" command then overwrite "XRFY" line
  else line.

Record protocolConn := mkProtocolConn {
  input : bytes;
  failure : error;
  pendingBytes : bytes;
  commands : Z
}.

Definition protocolRead (size : nat) (c : protocolConn) : (bytes * option error) * protocolConn :=
  let serve line input n :=
    ((take size line, None), mkProtocolConn input (failure c) (drop size line) n) in
  match pendingBytes c with
  | [] =>
      let '(line, rest, full) := ReadSlice (input c) in
      let line := if full : bool then quit else line in
      match line with
      | [] => (([], Some (failure c)), mkProtocolConn rest (failure c) [] (commands c))
      | _ => serve (rewriteLine (commands c + 1) line) rest (commands c + 1)
      end
  | pending => serve pending (input c) (commands c)
  end.

(** A sequence of reads: the pieces, and the connection after them. *)
Fixpoint protocolReads (sizes : list nat) (c : protocolConn) : list bytes * protocolConn :=
  match sizes with
  | [] => ([], c)
  | size :: sizes =>
      let '((out, _), c) := protocolRead size c in
      let '(outs, c) := protocolReads sizes c in (out :: outs, c)
  end.

Definition newProtocolConn (bs : bytes) (err : error) : protocolConn := mkProtocolConn bs err [] 0.

(** ** What the filter lets through *)

(** The lines served for [input] after [n] lines; every line takes a byte of it, so
    its length is fuel enough. *)
Fixpoint wire_lines (fuel : nat) (n : Z) (input : bytes) : list bytes :=
  match fuel with
  | O => []
  | S fuel =>
      let '(line, rest, full) := ReadSlice input in
      let line := if full : bool then quit else line in
      match line with
      | [] => []
      | _ => rewriteLine (n + 1) line :: wire_lines fuel (n + 1) rest
      end
  end.

Definition served_lines (n : Z) (input : bytes) : list bytes := wire_lines (S (length input)) n input.

(** What is still to be read. *)
Definition stream (c : protocolConn) : bytes :=
  pendingBytes c ++ concat (served_lines (commands c) (input c)).

Definition no_lf (l : bytes) : Prop := ∀ c, c ∈ l → byte_val c ≠ 10.

Definition terminated (l : bytes) : Prop := ∃ b, l = b ++ [LF] ∧ no_lf b.

(** The three outcomes of [ReadSlice]. *)
Lemma ReadSlice_cases input line rest full :
  ReadSlice input = (line, rest, full) →
  line ++ rest = input ∧ (length line ≤ bufferSize)%nat ∧
  (full = false ∧ terminated line ∨
   full = true ∧ length line = bufferSize ∨
   full = false ∧ no_lf line ∧ rest = []).
Proof.
  unfold ReadSlice. destruct (index_byte 10 (take bufferSize input)) as [i|] eqn:Ei.
  - intros [= <- <- <-]. destruct (index_byte_Some _ _ _ Ei) as (c & Hc & Hb & Hx).
    apply lookup_take_Some in Hc as [Hc Hi]. rewrite take_drop. split; [done|].
    split; [rewrite length_take; unfold bufferSize in *; lia|]. left. split; [done|]. exists (take i input).
    rewrite (take_S_r _ _ c) by done. rewrite <-(chr_byte_val c), Hb. split; [done|].
    intros x Hin. apply Hx. rewrite take_take, Nat.min_l by lia. done.
  - destruct (Nat.leb_spec bufferSize (length input)); intros [= <- <- <-].
    + rewrite take_drop, length_take. split_and!; [done|lia|]. right; left. split; [done|lia].
    + rewrite app_nil_r. split_and!; [done|lia|]. right; right. split_and!; [done| |done].
      rewrite take_ge in Ei by lia. exact (proj1 (index_byte_None _ _) Ei).
Qed.

(** ** Lines and their words *)

Lemma command_word_split line :
  ∃ rest, line = command_word line ++ rest ∧
    (rest = [] ∨ ∃ c rest', rest = c :: rest' ∧ word_end c = true) ∧
    ∀ c, c ∈ command_word line → word_end c = false.
Proof.
  induction line as [|a line (rest & Hl & Hr & Hc)]; cbn [command_word].
  { exists []. split_and!; [done|by left|]. by intros c ?%elem_of_nil. }
  destruct (word_end a) eqn:Ea.
  - exists (a :: line). split_and!; [done|right; eauto|]. by intros c ?%elem_of_nil.
  - exists rest. split_and!; [cbn; by rewrite <-Hl|done|]. intros c [-> |Hin]%elem_of_cons; auto.
Qed.

Lemma command_word_app w rest :
  (∀ c, c ∈ w → word_end c = false) → (rest = [] ∨ ∃ c rest', rest = c :: rest' ∧ word_end c = true) →
  command_word (w ++ rest) = w.
Proof.
  intros Hw Hr. induction w as [|a w IH]; cbn [app command_word].
  - destruct Hr as [-> |(c & rest' & -> & Hc)]; [done|]. cbn. by rewrite Hc.
  - rewrite (Hw a) by left. f_equal. apply IH. intros c Hc. apply Hw. by right.
Qed.

Definition hidden_words : list string := ["EHLO"; "DATA"; "BDAT"; "VRFY"].

(** No command of [hidden_words], in any letter case. *)
Definition harmless_line (line : bytes) : Prop :=
  ∀ w, w ∈ hidden_words → is_word w (command_word line) = false.

(** Replacing a four-letter word by another keeps the rest of the line. *)
Lemma overwrite_word w w' line :
  length (str_list w) = 4%nat → String.length w' = 4%nat → is_word w (command_word line) = true →
  ∃ rest, line = command_word line ++ rest ∧ overwrite w' line = str_list w' ++ rest ∧
    (rest = [] ∨ ∃ c rest', rest = c :: rest' ∧ word_end c = true).
Proof.
  intros Hw Hw' Hi. destruct (command_word_split line) as (rest & Hl & Hr & _). exists rest.
  split_and!; [done| |done]. apply bool_decide_eq_true in Hi.
  assert (Hlen : length (command_word line) = 4%nat).
  { apply (f_equal length) in Hi. rewrite !length_map in Hi. lia. }
  unfold overwrite. rewrite Hw'. rewrite Hl at 2. rewrite <-Hlen, drop_app_length.
  rewrite take_ge; [done|]. rewrite length_str_list, Hw', Hl, length_app. lia.
Qed.

(** What [rewriteLine] can do to a line: replace it by QUIT, or replace its word. *)
Definition shown_words : list string := ["HELO"; "XATA"; "XDAT"; "XRFY"].

Lemma rewriteLine_cases n line :
  rewriteLine n line = quit ∨
  (rewriteLine n line = line ∧ harmless_line line) ∨
  ∃ w' rest, w' ∈ shown_words ∧ line = command_word line ++ rest ∧
    length (command_word line) = 4%nat ∧ rewriteLine n line = str_list w' ++ rest ∧
    (rest = [] ∨ ∃ c rest', rest = c :: rest' ∧ word_end c = true).
Proof.
  unfold rewriteLine. destruct (maxCommandsPerConnection <? n); [by left|]. right.
  assert (Hword : ∀ w w', length (str_list w) = 4%nat → String.length w' = 4%nat →
    w' ∈ shown_words → is_word w (command_word line) = true →
    ∃ w0 rest, w0 ∈ shown_words ∧ line = command_word line ++ rest ∧
      length (command_word line) = 4%nat ∧ overwrite w' line = str_list w0 ++ rest ∧
      (rest = [] ∨ ∃ c rest', rest = c :: rest' ∧ word_end c = true)).
  { intros w w' Hw Hw' Hin Hi. destruct (overwrite_word w w' line Hw Hw' Hi) as (rest & Hl & Ho & Hr).
    exists w', rest. split_and!; try done. apply bool_decide_eq_true in Hi.
    apply (f_equal length) in Hi. rewrite !length_map in Hi. lia. }
  destruct (is_word "EHLO" _) eqn:E1; [right; eapply Hword; [| | |exact E1]; try done; set_solver|].
  destruct (is_word "DATA" _) eqn:E2; [right; eapply Hword; [| | |exact E2]; try done; set_solver|].
  destruct (is_word "BDAT" _) eqn:E3; [right; eapply Hword; [| | |exact E3]; try done; set_solver|].
  destruct (is_word "VRFY" _) eqn:E4; [right; eapply Hword; [| | |exact E4]; try done; set_solver|].
  left. split; [done|]. intros w Hw. unfold hidden_words in Hw. set_unfold in Hw. naive_solver.
Qed.

Lemma shown_words_plain w c : w ∈ shown_words → c ∈ str_list w → word_end c = false.
Proof.
  intros Hw Hc. assert (Ha : forallb (λ w, forallb (λ c, negb (word_end c)) (str_list w)) shown_words = true)
    by (vm_compute; reflexivity).
  rewrite forallb_forall in Ha. apply list_elem_of_In in Hw. specialize (Ha w Hw).
  rewrite forallb_forall in Ha. apply list_elem_of_In in Hc. by apply negb_true_iff, Ha.
Qed.

Lemma shown_words_harmless w : w ∈ shown_words →
  ∀ w0, w0 ∈ hidden_words → is_word w0 (str_list w) = false.
Proof.
  intros Hw w0 Hw0.
  assert (Ha : forallb (λ w, forallb (λ w0, negb (is_word w0 (str_list w))) hidden_words) shown_words = true)
    by (vm_compute; reflexivity).
  rewrite forallb_forall in Ha. apply list_elem_of_In in Hw. specialize (Ha w Hw).
  rewrite forallb_forall in Ha. apply list_elem_of_In in Hw0. by apply negb_true_iff, Ha.
Qed.

Lemma rewriteLine_harmless n line : harmless_line (rewriteLine n line).
Proof.
  destruct (rewriteLine_cases n line) as [-> |[[-> ?]|(w & rest & Hw & _ & _ & -> & Hr)]]; [|done|].
  - intros w Hw. unfold hidden_words in Hw.
    repeat apply elem_of_cons in Hw as [-> |Hw]; [done..|by apply elem_of_nil in Hw].
  - intros w0 Hw0. rewrite command_word_app; [by apply shown_words_harmless| |done].
    intros c. by apply shown_words_plain.
Qed.

Lemma word_end_lf c : word_end c = false → byte_val c ≠ 10.
Proof. unfold word_end, is_char. lia. Qed.

Lemma quit_terminated : terminated quit.
Proof. exists (str_list "QUIT" ++ [CR]). split; [done|]. intros c Hc. cbn in Hc. set_unfold in Hc. naive_solver. Qed.

(** Rewriting neither adds nor removes a line end, and does not lengthen a line
    beyond QUIT. *)
Lemma rewriteLine_shape n line :
  (length line ≤ bufferSize)%nat →
  (length (rewriteLine n line) ≤ bufferSize)%nat ∧
  (terminated line → terminated (rewriteLine n line)) ∧
  (no_lf line → no_lf (rewriteLine n line) ∨ terminated (rewriteLine n line)) ∧
  (line ≠ [] → rewriteLine n line ≠ []).
Proof.
  intros Hl. destruct (rewriteLine_cases n line) as [-> |[[-> _]|(w & rest & Hw & Heq & H4 & -> & Hr)]].
  { split_and!; [vm_compute; lia|intros _; apply quit_terminated|intros _; right; apply quit_terminated|done]. }
  { split_and!; auto. }
  assert (Hlen : length (str_list w) = 4%nat).
  { unfold shown_words in Hw. repeat apply elem_of_cons in Hw as [-> |Hw]; [done..|by apply elem_of_nil in Hw]. }
  assert (Hlf : no_lf (str_list w)) by (intros c Hc; by apply word_end_lf, (shown_words_plain w)).
  destruct (command_word_split line) as (_ & _ & _ & Hc).
  split_and!.
  - rewrite Heq, length_app in Hl. rewrite length_app. lia.
  - intros (b & Hb & Hno). rewrite Heq in Hb.
    destruct (decide (rest = [])) as [-> |Hne].
    { exfalso. rewrite app_nil_r in Hb. assert (LF ∈ command_word line) as Hin by (rewrite Hb; set_solver).
      apply Hc, word_end_lf in Hin. done. }
    destruct (exists_last Hne) as (rest' & x & ->). rewrite app_assoc in Hb.
    apply app_inj_tail in Hb as [Hb ->]. exists (str_list w ++ rest'). split; [by rewrite app_assoc|].
    intros c [Hin|Hin]%elem_of_app; [by apply Hlf|]. apply Hno. rewrite <-Hb. set_solver.
  - intros Hno. left. intros c [Hin|Hin]%elem_of_app; [by apply Hlf|]. apply Hno. rewrite Heq. set_solver.
  - intros _. destruct (str_list w); done.
Qed.

(** ** The stream *)

(** One step of [wire_lines]: the end, or one line and the rest of the input. *)
Lemma wire_step fuel n input :
  wire_lines (S fuel) n input = [] ∨
  ∃ line rest, wire_lines (S fuel) n input = rewriteLine (n + 1) line :: wire_lines fuel (n + 1) rest ∧
    line ≠ [] ∧ (length rest < length input)%nat ∧ (length line ≤ bufferSize)%nat ∧
    (terminated line ∨ (no_lf line ∧ rest = [])).
Proof.
  cbn [wire_lines]. destruct (ReadSlice input) as [[line rest] full] eqn:Er.
  destruct (ReadSlice_cases _ _ _ _ Er) as (Happ & Hle & Hcase).
  apply (f_equal length) in Happ. rewrite length_app in Happ. destruct full.
  - right. exists quit, rest. split; [done|]. split; [done|].
    destruct Hcase as [[? _]|[[_ Hlen]|[? _]]]; [done| |done]. unfold bufferSize in *.
    split_and!; [lia|vm_compute; lia|left; apply quit_terminated].
  - destruct line as [|c line]; [by left|]. right. exists (c :: line), rest. cbn [length] in *.
    split_and!; [done|done|lia|done|]. destruct Hcase as [[_ ?]|[[? _]|[_ ?]]]; [by left|done|by right].
Qed.

Lemma wire_lines_fuel f1 f2 n input :
  (length input < f1)%nat → (length input < f2)%nat → wire_lines f1 n input = wire_lines f2 n input.
Proof.
  revert f2 n input. induction f1 as [|f1 IH]; intros f2 n input H1 H2; [lia|].
  destruct f2 as [|f2]; [lia|]. cbn [wire_lines].
  destruct (ReadSlice input) as [[line rest] full] eqn:Er.
  destruct (ReadSlice_cases _ _ _ _ Er) as (Happ & _ & Hcase).
  apply (f_equal length) in Happ. rewrite length_app in Happ.
  assert (Hrest : line ≠ [] → wire_lines f1 (n + 1) rest = wire_lines f2 (n + 1) rest).
  { intros Hne. apply IH; destruct line; cbn in *; try lia; done. }
  destruct full.
  - destruct Hcase as [[? _]|[[_ Hlen]|[? _]]]; [done| |done].
    cbn. f_equal. apply Hrest. intros ->. done.
  - destruct line; [done|]. by rewrite Hrest.
Qed.

Lemma wire_lines_nil fuel n : wire_lines fuel n [] = [].
Proof. by destruct fuel. Qed.

Lemma wire_lines_ok fuel : ∀ n input j line, 0 ≤ n →
  wire_lines fuel n input !! j = Some line →
  harmless_line line ∧ (length line ≤ bufferSize)%nat ∧ (100 ≤ n + Z.of_nat j → line = quit) ∧
  (terminated line ∨ (no_lf line ∧ S j = length (wire_lines fuel n input))).
Proof.
  induction fuel as [|fuel IH]; intros n input j line Hn; [done|].
  destruct (wire_step fuel n input) as [-> |(l & rest & -> & Hne & _ & Hl & Ht)]; [done|].
  destruct j as [|j]; cbn.
  - intros [= <-]. destruct (rewriteLine_shape (n + 1) l Hl) as (Hlen & Hterm & Hno & _).
    split_and!; [apply rewriteLine_harmless|done| |].
    + intros H100. unfold rewriteLine, maxCommandsPerConnection.
      by destruct (Z.ltb_spec 100 (n + 1)); [|lia].
    + destruct Ht as [Ht|[Ht ->]]; [left; auto|]. rewrite wire_lines_nil. cbn.
      destruct (Hno Ht); auto.
  - intros Hj. destruct (IH (n + 1) rest j line ltac:(lia) Hj) as (Hh & Hlen & Hq & Hterm).
    split_and!; [done|done| |].
    + intros H100. apply Hq. lia.
    + destruct Hterm as [?|[? Hj']]; [by left|right]. split; [done|]. by rewrite Hj'.
Qed.

(** A read hands out a prefix of the stream, and nothing only at its end. *)
Lemma protocolRead_stream size c : (1 ≤ size)%nat →
  let '((out, err), c') := protocolRead size c in
  out ++ stream c' = stream c ∧ (out = [] ↔ stream c = []) ∧
  (err = if decide (out = []) then Some (failure c) else None) ∧ failure c' = failure c.
Proof.
  intros Hs. unfold protocolRead, stream.
  assert (Hcut : ∀ l : bytes, l ≠ [] → take size l ≠ []) by (intros [|x l]; destruct size; done || lia).
  destruct (pendingBytes c) as [|p ps] eqn:Ep.
  2:{ cbn [pendingBytes commands input failure]. rewrite app_assoc, take_drop.
      split_and!; [done| |by rewrite decide_False by (by apply Hcut)|done].
      split; [by intros ?%Hcut|done]. }
  cbn [app]. destruct (ReadSlice (input c)) as [[line rest] full] eqn:Er.
  assert (Hsv : served_lines (commands c) (input c) = match (if full then quit else line) with
    | [] => [] | l => rewriteLine (commands c + 1) l :: wire_lines (length (input c)) (commands c + 1) rest end)
    by (unfold served_lines; cbn [wire_lines]; rewrite Er; by destruct full, line).
  destruct (ReadSlice_cases _ _ _ _ Er) as (Happ & Hle & Hcase).
  apply (f_equal length) in Happ. rewrite length_app in Happ.
  set (l := if full then quit else line) in *.
  assert (Hl : (l = [] → rest = []) ∧ (l ≠ [] → (length rest < length (input c))%nat) ∧
               (length l ≤ bufferSize)%nat).
  { unfold l. destruct full, Hcase as [[? Ht]|[[? Hlen]|[? [? ->]]]]; try done.
    - unfold bufferSize in *. split_and!; [done|lia|vm_compute; lia].
    - destruct Ht as (b & -> & _). rewrite length_app in Happ. cbn in Happ.
      split_and!; [by destruct b|lia|done].
    - split_and!; [done| |done]. destruct line; [done|]. cbn in *. lia. }
  destruct Hl as (Hnil & Hlt & Hlen). destruct l as [|x l'] eqn:El.
  - cbn [pendingBytes commands input failure app concat]. rewrite Hsv, (Hnil eq_refl). by split_and!.
  - destruct (rewriteLine_shape (commands c + 1) (x :: l') Hlen) as (_ & _ & _ & Hne).
    specialize (Hne ltac:(done)). cbn [pendingBytes commands input failure].
    rewrite app_assoc, take_drop, Hsv. cbn [concat]. unfold served_lines.
    rewrite (wire_lines_fuel (S (length rest)) (length (input c))) by (lia || (apply Hlt; done)).
    split_and!; [done| |by rewrite decide_False by (by apply Hcut)|done].
    split; [by intros ?%Hcut|]. by intros [? _]%app_nil.
Qed.

Lemma protocolReads_stream sizes : ∀ c outs c',
  Forall (λ n, 1 ≤ n)%nat sizes → protocolReads sizes c = (outs, c') →
  concat outs ++ stream c' = stream c ∧
  ((length (stream c) ≤ length sizes)%nat → stream c' = []).
Proof.
  induction sizes as [|size sizes IH]; intros c outs c' Hf; cbn [protocolReads].
  { intros [= <- <-]. split; [done|]. destruct (stream c); cbn; [done|lia]. }
  apply Forall_cons in Hf as [Hs Hf]. pose proof (protocolRead_stream size c Hs) as Hr.
  destruct (protocolRead size c) as [[out err] c1]. destruct Hr as (Happ & Hempty & _ & _).
  destruct (protocolReads sizes c1) as [outs1 c2] eqn:E. intros [= <- <-].
  destruct (IH c1 outs1 c2 Hf E) as [Happ' Hall]. cbn [concat]. rewrite <-app_assoc, Happ'.
  split; [done|]. intros Hlen. apply Hall. destruct out as [|x out].
  - cbn in Happ. rewrite Happ, (proj1 Hempty eq_refl). cbn. lia.
  - rewrite <-Happ, length_app in Hlen. cbn in Hlen. lia.
Qed.

(** A dialogue the filter leaves alone: at most a hundred short lines, none of them
    with a hidden command. *)
Lemma wire_lines_plain ls : ∀ fuel n,
  (length (concat ls) < fuel)%nat → 0 ≤ n → n + Z.of_nat (length ls) ≤ 100 →
  Forall (λ l, terminated l ∧ (length l ≤ bufferSize)%nat ∧ harmless_line l) ls →
  wire_lines fuel n (concat ls) = ls.
Proof.
  induction ls as [|l ls IH]; intros fuel n Hf Hn H100 Hls; [apply wire_lines_nil|].
  apply Forall_cons in Hls as [(Ht & Hlen & Hh) Hls]. destruct fuel as [|fuel]; [lia|].
  destruct Ht as (b & -> & Hb). cbn [concat length] in *. rewrite !length_app in *. cbn [length] in *.
  assert (HR : ReadSlice ((b ++ [LF]) ++ concat ls) = (b ++ [LF], concat ls, false)).
  { unfold ReadSlice. rewrite <-app_assoc. cbn [app]. rewrite take_app_ge by lia.
    destruct (bufferSize - length b)%nat as [|m] eqn:Em; [lia|]. cbn [firstn].
    rewrite index_byte_app by done. rewrite (cons_middle LF), app_assoc.
    rewrite take_app_length', drop_app_length' by (rewrite length_app; cbn; lia). done. }
  cbn [wire_lines]. rewrite HR.
  assert (rewriteLine (n + 1) (b ++ [LF]) = b ++ [LF]) as Hrw.
  { unfold rewriteLine, maxCommandsPerConnection. destruct (Z.ltb_spec 100 (n + 1)); [lia|].
    rewrite !Hh by set_solver. done. }
  rewrite Hrw, IH by (done || lia). by destruct b.
Qed.

(** C34: The rejection listener cannot be talked into taking data.  Whatever bytes a
    client sends and however go-smtp sizes its reads, what go-smtp reads is a prefix
    of a sequence of lines, and all of it when it reads on; every line is at most
    4096 bytes, is ended by its only line feed unless it is the last, has none of the
    commands EHLO, DATA, BDAT and VRFY in any letter case, and from the hundred and
    first on is QUIT.  A dialogue of at most a hundred short lines without these
    commands is passed on byte for byte. *)
Theorem rejection_stream bs err sizes outs c :
  Forall (λ n, 1 ≤ n)%nat sizes →
  protocolReads sizes (newProtocolConn bs err) = (outs, c) →
  let lines := served_lines 0 bs in
  concat outs ++ stream c = concat lines ∧
  ((length (concat lines) ≤ length sizes)%nat → concat outs = concat lines) ∧
  (∀ j line, lines !! j = Some line →
     harmless_line line ∧ (length line ≤ bufferSize)%nat ∧ ((100 ≤ j)%nat → line = quit) ∧
     (terminated line ∨ (no_lf line ∧ S j = length lines))) ∧
  (∀ ls, bs = concat ls → (length ls ≤ 100)%nat →
     Forall (λ l, terminated l ∧ (length l ≤ bufferSize)%nat ∧ harmless_line l) ls → lines = ls).
Proof.
  intros Hs Hr. cbn zeta. destruct (protocolReads_stream sizes _ _ _ Hs Hr) as [Happ Hall].
  change (stream (newProtocolConn bs err)) with (concat (served_lines 0 bs)) in Happ, Hall.
  split_and!; [done| | |].
  - intros Hlen. rewrite (Hall Hlen), app_nil_r in Happ. done.
  - intros j line Hj. destruct (wire_lines_ok _ 0 bs j line ltac:(lia) Hj) as (? & ? & Hq & ?).
    split_and!; [done|done|intros; apply Hq; lia|done].
  - intros ls -> Hlen Hls. apply wire_lines_plain; [lia|lia|lia|done].
Qed.

Definition sampleDialogue : bytes :=
  str_list "EHLO x" ++ crlf ++ str_list "data" ++ crlf ++ str_list "NOOP" ++ crlf.

Lemma rejection_stream_witness :
  concat (protocolReads [3; 7; 100; 100; 100]%nat (newProtocolConn sampleDialogue (Message "EOF"))).1
    = str_list "HELO x" ++ crlf ++ str_list "XATA" ++ crlf ++ str_list "NOOP" ++ crlf ∧
  ∀ line, line ∈ served_lines 0 sampleDialogue → harmless_line line.
Proof.
  destruct (protocolReads [3; 7; 100; 100; 100]%nat (newProtocolConn sampleDialogue (Message "EOF")))
    as [outs c] eqn:Hr.
  destruct (rejection_stream sampleDialogue (Message "EOF") [3; 7; 100; 100; 100]%nat outs c)
    as (_ & _ & Hlines & _); [repeat constructor; lia|exact Hr|].
  split; [vm_compute in Hr; injection Hr as <- _; vm_compute; reflexivity|].
  intros line [j Hj]%list_elem_of_lookup_1. apply (Hlines j line Hj).
Defined.

(** ** The session *)

Record rejectionConfig := mkRejectionConfig {
  UnknownRecipients : string;
  DefaultMessage : string;
  rejDomains : list string;
  rejRecipients : list (string * string)
}.

Record rejectionServer := mkRejectionServer {
  srvConfig : rejectionConfig;
  srvDomains : gset string;
  srvRecipients : gmap string string
}.

(** The session's own state is the sender; the answers do not depend on it. *)
Inductive rejectionCommand := RMail (from : string) | RRcpt (to : string) | RData | RReset.

Section session.
Context `{CaseTables} `{AddressParser} (ToASCII : string → res string).

Definition newRejection (cfg : rejectionConfig) : rejectionServer :=
  mkRejectionServer cfg
    (fold_left (λ m d, {[ToLowerText d]} ∪ m) (rejDomains cfg) ∅)
    (fold_left (λ m r, <[ToLowerText r.1 := if bool_decide (r.2 = "") then DefaultMessage cfg else r.2]> m)
       (rejRecipients cfg) ∅).

Definition rejectRecipient (enhanced message : string) : res unit := Err (SMTPError 550 enhanced message).

Definition rejectionRcpt (s : rejectionServer) (to : string) : res unit :=
  match Address_of ToASCII to with
  | Err _ => rejectRecipient "5.1.3" "Invalid recipient address"
  | Ok address =>
      match DomainOf ToASCII address with
      | Err _ => rejectRecipient "5.1.3" "Invalid recipient address"
      | Ok domain =>
          if negb (bool_decide (domain ∈ srvDomains s)) then rejectRecipient "5.7.1" "Relaying denied"
          else
            match srvRecipients s !! ToLowerText address with
            | Some message => rejectRecipient "5.1.1" message
            | None =>
                if bool_decide (UnknownRecipients (srvConfig s) = "all")
                then rejectRecipient "5.1.1" (DefaultMessage (srvConfig s))
                else rejectRecipient "5.1.1" "Recipient does not exist"
            end
      end
  end.

Definition rejectionData : res unit := Err (SMTPError 554 "5.5.1" "Message data is not accepted").

(** One command: the answer and the sender afterwards. *)
Definition rejectionCommand_step (s : rejectionServer) (c : rejectionCommand) (sender : string)
    : res unit * string :=
  match c with
  | RMail from => (Ok tt, from)
  | RRcpt to => (rejectionRcpt s to, sender)
  | RData => (rejectionData, sender)
  | RReset => (Ok tt, "")
  end.

Fixpoint rejectionRun (s : rejectionServer) (cs : list rejectionCommand) (sender : string)
    : list (rejectionCommand * res unit) :=
  match cs with
  | [] => []
  | c :: cs =>
      let '(r, sender) := rejectionCommand_step s c sender in (c, r) :: rejectionRun s cs sender
  end.

(** *** The answers from the configuration's lists *)

(** The last entry for the address counts. *)
Definition configuredMessage (cfg : rejectionConfig) (address : string) : option string :=
  (λ r, if bool_decide (r.2 = "") then DefaultMessage cfg else r.2) <$>
  last (filter (λ r, ToLowerText r.1 = ToLowerText address) (rejRecipients cfg)).

Lemma srvDomains_spec cfg d :
  d ∈ srvDomains (newRejection cfg) ↔ ∃ x, x ∈ rejDomains cfg ∧ ToLowerText x = d.
Proof.
  cbn. assert (Hg : ∀ l (m : gset string),
    d ∈ fold_left (λ m d, {[ToLowerText d]} ∪ m) l m ↔ d ∈ m ∨ ∃ x, x ∈ l ∧ ToLowerText x = d).
  { induction l as [|y l IH]; intros m; cbn [fold_left]; [set_solver|]. rewrite IH. set_solver. }
  rewrite Hg. set_solver.
Qed.

Lemma srvRecipients_spec cfg a :
  srvRecipients (newRejection cfg) !! ToLowerText a = configuredMessage cfg a.
Proof.
  unfold configuredMessage. cbn. induction (rejRecipients cfg) as [|r l IH] using rev_ind.
  - apply lookup_empty.
  - rewrite fold_left_app, filter_app. cbn [fold_left]. rewrite filter_cons, filter_nil.
    destruct (decide (ToLowerText r.1 = ToLowerText a)) as [He|Hne].
    + rewrite He, lookup_insert_eq, last_snoc. done.
    + by rewrite lookup_insert_ne, app_nil_r by done.
Qed.

(** The rejection endpoint refuses every recipient and all message data.  In
    every sequence of commands, each recipient gets a permanent refusal (550): as
    invalid if it is not an address with a routable domain, as relaying unless its
    domain is one of the configured ones, with its own message if the configuration
    lists the address (in any letter case, the last entry counting), and otherwise
    with the default message or as unknown; message data is refused with 554. *)
Theorem rejection_answers cfg cs sender c r :
  (c, r) ∈ rejectionRun (newRejection cfg) cs sender →
  match c with
  | RRcpt to =>
      ∃ enhanced message, r = Err (SMTPError 550 enhanced message) ∧
      match (let? a := Address_of ToASCII to in let? d := DomainOf ToASCII a in Ok (a, d)) with
      | Err _ => enhanced = "5.1.3"
      | Ok (a, d) =>
          (enhanced = "5.7.1" ↔ ∀ x, x ∈ rejDomains cfg → ToLowerText x ≠ d) ∧
          (enhanced = "5.7.1" ∨ enhanced = "5.1.1" ∧
           message = default (if bool_decide (UnknownRecipients cfg = "all") then DefaultMessage cfg
                              else "Recipient does not exist") (configuredMessage cfg a))
      end
  | RData => r = Err (SMTPError 554 "5.5.1" "Message data is not accepted")
  | _ => r = Ok tt
  end.
Proof.
  revert sender. induction cs as [|c0 cs IH]; intros sender; [by intros ?%elem_of_nil|].
  cbn [rejectionRun]. destruct c0 as [from|to| |]; cbn [rejectionCommand_step];
    (intros [[= -> ->]|Hin]%elem_of_cons; [|by eapply IH]); try done.
  unfold rejectionRcpt, rejectRecipient. destruct (Address_of ToASCII to) as [a|]; [|by do 2 eexists].
  cbn [res_bind]. destruct (DomainOf ToASCII a) as [d|]; [|by do 2 eexists]. cbn [res_bind].
  destruct (decide (d ∈ srvDomains (newRejection cfg))) as [Hd|Hd];
    [rewrite bool_decide_eq_true_2 by done|rewrite bool_decide_eq_false_2 by done]; cbn [negb].
  - rewrite srvRecipients_spec.
    assert (Hx : ∀ m, ∃ enhanced message, Err (A:=unit) (SMTPError 550 "5.1.1" m) = Err (SMTPError 550 enhanced message) ∧
      (enhanced = "5.7.1" ↔ ∀ x, x ∈ rejDomains cfg → ToLowerText x ≠ d) ∧
      (enhanced = "5.7.1" ∨ enhanced = "5.1.1" ∧ message = m)).
    { intros m. exists "5.1.1", m. split_and!; [done| |by right].
      apply srvDomains_spec in Hd as (x & Hx & Hd). split; [done|]. intros Hn. by destruct (Hn x Hx). }
    destruct (configuredMessage cfg a); cbn; [apply Hx|]. case_bool_decide; apply Hx.
  - exists "5.7.1", "Relaying denied". split_and!; [done| |by left]. split; [|done]. intros _ x Hx Hd'.
    apply Hd, srvDomains_spec. eauto.
Qed.
End session.

Definition sampleRejection : rejectionConfig :=
  mkRejectionConfig "all" "No replies here" ["example.com"] [("NoReply@example.com", "")].

#[local] Instance plainAddresses : AddressParser := {| ParseAddress s := Ok ("", s) |}.

Lemma rejection_answers_witness :
  ∃ enhanced message,
    rejectionRcpt sampleIDNA (newRejection sampleRejection) "noreply@example.com"
      = Err (SMTPError 550 enhanced message) ∧ (enhanced = "5.7.1" ∨ enhanced = "5.1.1").
Proof.
  destruct (rejection_answers sampleIDNA sampleRejection [RMail "a@b"; RRcpt "noreply@example.com"] ""
    (RRcpt "noreply@example.com") (rejectionRcpt sampleIDNA (newRejection sampleRejection) "noreply@example.com"))
    as (enhanced & message & Hr & Ha); [right; left|].
  exists enhanced, message. split; [exact Hr|].
  vm_compute in Ha. destruct Ha as [_ [Ha|[Ha _]]]; [left|right]; exact Ha.
Defined.

(** ** Connections *)

Definition rejAcquire (ip : string) (l : connectionLimiter) : bool * connectionLimiter :=
  if (global l <=? active l) || (perIP l <=? count_ip l ip) then (false, l)
  else (true, mkConnLimiter (global l) (perIP l) (active l + 1) (<[ip := count_ip l ip + 1]> (byIP l))).

Definition rejRelease (ip : string) (l : connectionLimiter) : connectionLimiter :=
  let n := count_ip l ip - 1 in
  mkConnLimiter (global l) (perIP l) (active l - 1)
    (if n =? 0 then delete ip (byIP l) else <[ip := n]> (byIP l)).

Definition newRejListener (g p : Z) : listener := mkListener (mkConnLimiter g p 0 ∅) ∅ ∅ false 0.

Definition rejAccept (ip : string) (s : listener) : option nat * listener :=
  let (ok, l) := rejAcquire ip (limiter s) in
  if ok then (Some (nextConn s),
              mkListener l (<[nextConn s := ip]> (live s)) (tracked s) (stopped s) (S (nextConn s)))
  else (None, mkListener l (live s) (tracked s) (stopped s) (nextConn s)).

Definition rejClose (c : nat) (s : listener) : listener :=
  match live s !! c with
  | None => s
  | Some ip => mkListener (rejRelease ip (limiter s)) (delete c (live s)) (tracked s ∖ {[c]})
                 (stopped s) (nextConn s)
  end.

Definition rejTrack (c : nat) (s : listener) : bool * listener :=
  match live s !! c with
  | None => (false, s)
  | Some _ =>
      if stopped s then (false, rejClose c s)
      else (true, mkListener (limiter s) (live s) ({[c]} ∪ tracked s) (stopped s) (nextConn s))
  end.

Definition rejCloseAll (s : listener) : listener :=
  fold_left (λ s c, rejClose c s) (elements (tracked s))
    (mkListener (limiter s) (live s) (tracked s) true (nextConn s)).

Definition rej_step (s : listener) (op : conn_op) : listener :=
  match op with
  | Admit ip => (rejAccept ip s).2
  | Track c => (rejTrack c s).2
  | CloseConn c => rejClose c s
  | CloseAll => rejCloseAll s
  end.

Definition rej_run (ops : list conn_op) (s : listener) : listener := fold_left rej_step ops s.

(** On consistent counters the two limiters of the program agree: the guards of the
    submission server's never apply. *)
Lemma rejClose_agrees c s : conns_core s → rejClose c s = closeConn c s.
Proof.
  intros Hc. unfold rejClose, closeConn. destruct (live s !! c) as [ip|] eqn:E; [|done]. f_equal.
  pose proof (live_counted c ip s Hc E) as [Ha Hi]. unfold rejRelease, release.
  assert (active (limiter s) - 1 <? 0 = false) as -> by lia.
  destruct (Z.eqb_spec (count_ip (limiter s) ip - 1) 0), (Z.leb_spec (count_ip (limiter s) ip - 1) 0);
    (done || lia).
Qed.

Lemma rej_step_agrees op s : conns_ok s → rej_step s op = conn_step s op.
Proof.
  intros [Hc Hs]. destruct op as [ip|c|c|]; cbn [rej_step conn_step].
  - unfold rejAccept, acceptConn, rejAcquire, acquire.
    by destruct (global (limiter s) <=? active (limiter s)), (perIP (limiter s) <=? count_ip (limiter s) ip).
  - unfold rejTrack, track. destruct (live s !! c); [|done]. destruct (stopped s); [|done].
    cbn. by apply rejClose_agrees.
  - by apply rejClose_agrees.
  - unfold rejCloseAll, closeAll. set (s0 := mkListener _ _ _ true _).
    assert (Hc0 : conns_core s0) by (destruct Hc; by split). clearbody s0. revert s0 Hc0.
    induction (elements (tracked s)) as [|c l IH]; intros s0 Hc0; [done|]. cbn [fold_left].
    rewrite rejClose_agrees by done. apply IH. by apply closeConn_core.
Qed.

Lemma rej_run_agrees ops : ∀ s, conns_ok s → rej_run ops s = conn_run ops s.
Proof.
  induction ops as [|op ops IH]; intros s Hs; [done|].
  change (rej_run ops (rej_step s op) = conn_run ops (conn_step s op)).
  rewrite rej_step_agrees by done. apply IH. exact (conn_run_ok [op] s Hs).
Qed.

(** The rejection endpoint's connection counters are exact.  In every history of
    accepting, tracking, closing and shutting down, starting from limits that are not
    negative, the counters are the numbers of open connections, in all and per
    address, and neither exceeds its limit: the limiter behaves as the submission
    server's, although it decrements without checks. *)
Theorem rejection_connections g p ops :
  0 ≤ g → 0 ≤ p →
  let s := rej_run ops (newRejListener g p) in
  s = conn_run ops (newRejListener g p) ∧
  active (limiter s) = Z.of_nat (size (live s)) ∧ Z.of_nat (size (live s)) ≤ g ∧
  ∀ ip, count_ip (limiter s) ip = from_ip ip (live s) ∧ from_ip ip (live s) ≤ p.
Proof.
  intros Hg Hp. assert (Hok : conns_ok (newRejListener g p)).
  { split; [|done]. split; cbn; try done. intros c [? Hc]. by rewrite lookup_empty in Hc. }
  cbn zeta. rewrite rej_run_agrees by done. destruct (conn_run_ok ops _ Hok) as [Hc _].
  destruct (limits_kept ops (newRejListener g p)) as [Lg Lp]. split_and!; [done|apply Hc| |].
  - etrans; [apply Hc|]. by rewrite Lg.
  - intros ip. split; [apply Hc|]. etrans; [apply Hc|]. by rewrite Lp.
Qed.

Lemma rejection_connections_witness :
  Z.of_nat (size (live (rej_run [Admit "a"; Admit "a"; Admit "b"; CloseConn 0] (newRejListener 2 1)))) ≤ 2.
Proof.
  destruct (rejection_connections 2 1 [Admit "a"; Admit "a"; Admit "b"; CloseConn 0]) as (_ & _ & Hl & _);
    [lia|lia|exact Hl].
Defined.

(** ** The lifetime of a connection *)

(** [deadlineConn] with the deadlines of the connection below. *)
Record deadlineConn := mkDeadlineConn { dcExpires : Z; dcRead : option Z; dcWrite : option Z }.

Definition boundedDeadline (c : deadlineConn) (deadline : option Z) : option Z :=
  match deadline with
  | None => Some (dcExpires c)
  | Some d => if dcExpires c <? d then Some (dcExpires c) else Some d
  end.

Inductive deadlineOp := SetBoth (d : option Z) | SetRead (d : option Z) | SetWrite (d : option Z).

Definition setDeadline (c : deadlineConn) (op : deadlineOp) : deadlineConn :=
  match op with
  | SetBoth d => mkDeadlineConn (dcExpires c) (boundedDeadline c d) (boundedDeadline c d)
  | SetRead d => mkDeadlineConn (dcExpires c) (boundedDeadline c d) (dcWrite c)
  | SetWrite d => mkDeadlineConn (dcExpires c) (dcRead c) (boundedDeadline c d)
  end.

(** What [limitListener.Accept] does with an admitted connection. *)
Definition acceptDeadline (now lifetime : Z) : deadlineConn :=
  setDeadline (mkDeadlineConn (now + lifetime) None None) (SetBoth (Some (now + lifetime))).

(** Whatever deadlines the SMTP library sets, also none, a connection of this endpoint
    ends at the latest a lifetime after it was accepted. *)
Theorem rejected_connection_ends now lifetime ops :
  ∃ r w, dcRead (fold_left setDeadline ops (acceptDeadline now lifetime)) = Some r ∧ r ≤ now + lifetime ∧
         dcWrite (fold_left setDeadline ops (acceptDeadline now lifetime)) = Some w ∧ w ≤ now + lifetime.
Proof.
  pose (P c := dcExpires c = now + lifetime ∧
    ∃ r w, dcRead c = Some r ∧ r ≤ now + lifetime ∧ dcWrite c = Some w ∧ w ≤ now + lifetime).
  assert (Hb : ∀ c d, dcExpires c = now + lifetime → ∃ x, boundedDeadline c d = Some x ∧ x ≤ now + lifetime).
  { intros c [d|] Hc; unfold boundedDeadline; rewrite Hc; [|eauto with lia]. destruct (Z.ltb_spec (now + lifetime) d); eauto with lia. }
  apply (fold_left_inv P).
  - intros c op _ [He (r & w & Hr & Hrl & Hw & Hwl)].
    assert (Hd : ∃ x, boundedDeadline c (match op with SetBoth d | SetRead d | SetWrite d => d end) = Some x ∧ x ≤ now + lifetime) by auto.
    destruct Hd as (x & Hx & Hxl). split; destruct op; cbn; try done; eauto 10.
  - split; [done|]. cbn. destruct (Z.ltb_spec (now + lifetime) (now + lifetime)); eauto 10 with lia.
Qed.

(** ** Serving *)

(** [Run]: [selected] is the answer of [Serve] when it came before the end of the
    context, [late] the one after the shutdown.  The tests are [errors.Is] with
    net.ErrClosed or ErrServerClosed, and with context.Canceled. *)
Definition rejectionServe (isClosed isCanceled : error → bool) (opened : bool) (selected : option (option error))
    (shutdownErr late : option error) : option error :=
  if negb opened then Some (Message "reply rejection listener is not open")
  else
    let serveErr := match selected with Some e => e | None => late end in
    let serveErr := match serveErr with Some e => if isClosed e then None else Some (Wrap "reply rejection serve" e) | None => None end in
    let shutdownErr := match shutdownErr with
                       | Some e => if isCanceled e then None else Some (Wrap "reply rejection shutdown" e)
                       | None => None
                       end in
    errors_Join serveErr shutdownErr.

(** [Run] reports a failing accept loop whenever it failed, before the shutdown or
    after, and nothing when the loop ended because it was closed. *)
Theorem rejection_run_reports isClosed isCanceled selected shutdownErr late :
  rejectionServe isClosed isCanceled true selected shutdownErr late = None ↔
  (∀ e, default late selected = Some e → isClosed e = true) ∧ (∀ e, shutdownErr = Some e → isCanceled e = true).
Proof.
  unfold rejectionServe. cbn [negb]. change (match selected with Some e => e | None => late end) with (default late selected).
  destruct (default late selected) as [e|], shutdownErr as [e'|]; cbn;
    try destruct (isClosed e) eqn:E1; try destruct (isCanceled e') eqn:E2; cbn; split; try done; naive_solver congruence.
Qed.
