(* ===== verification/Heap.v ===== *)
(** * Binary heaps (Go's container/heap over an indexed array)

    The two heaps of src/internal/queue/schedule.go, [envelopeHeap] and
    [userHeap], share their array operations: the elements are pointers whose
    [index] field [Swap], [Push] and [Pop] keep up to date.  The library's
    algorithms [up], [down], [Push], [Pop], [Remove] and [Fix] work on top. *)

From S2P Require Import Prelude.

(** The array of pointers, and the [index] field of every object. *)
Record heap := mkHeap { arr : list nat; idx : gmap nat Z }.

(** ** The interface methods *)

Definition heap_Swap (i j : nat) (h : heap) : heap :=
  match arr h !! i, arr h !! j with
  | Some a, Some b =>
      mkHeap (<[j := a]> (<[i := b]> (arr h)))
        (<[a := Z.of_nat j]> (<[b := Z.of_nat i]> (idx h)))
  | _, _ => h
  end.

Definition heap_append (x : nat) (h : heap) : heap :=
  mkHeap (arr h ++ [x]) (<[x := Z.of_nat (length (arr h))]> (idx h)).

Definition heap_shrink (h : heap) : option nat * heap :=
  match last (arr h) with
  | Some x => (Some x, mkHeap (take (length (arr h) - 1) (arr h)) (<[x := (-1)%Z]> (idx h)))
  | None => (None, h)
  end.

Section ops.
Variable less : nat → nat → bool.

Definition heap_Less (h : heap) (i j : nat) : bool :=
  match arr h !! i, arr h !! j with
  | Some a, Some b => less a b
  | _, _ => false
  end.

(** ** container/heap *)

Definition parent (j : nat) : nat := (j - 1) / 2.

Fixpoint up (fuel j : nat) (h : heap) : heap :=
  match fuel with
  | O => h
  | S fuel =>
      let i := parent j in
      if (i =? j) || negb (heap_Less h j i) then h else up fuel i (heap_Swap i j h)
  end.

(** The smaller child of [i] among the first [n] elements. *)
Definition child (n i : nat) (h : heap) : nat :=
  let j1 := 2 * i + 1 in
  let j2 := j1 + 1 in
  if (j2 <? n) && heap_Less h j2 j1 then j2 else j1.

(** The second component is where the element ends up. *)
Fixpoint down (fuel i n : nat) (h : heap) : heap * nat :=
  match fuel with
  | O => (h, i)
  | S fuel =>
      if n <=? 2 * i + 1 then (h, i)
      else
        let j := child n i h in
        if negb (heap_Less h j i) then (h, i) else down fuel j n (heap_Swap i j h)
  end.

Definition down_or_up (i n : nat) (h : heap) : heap :=
  let '(h, i') := down (S n) i n h in if i <? i' then h else up (S i) i h.

Definition heap_Push (x : nat) (h : heap) : heap :=
  let h := heap_append x h in up (length (arr h)) (length (arr h) - 1) h.

Definition heap_Pop (h : heap) : option nat * heap :=
  let n := length (arr h) - 1 in
  heap_shrink (down (S n) 0 n (heap_Swap 0 n h)).1.

Definition heap_Remove (i : nat) (h : heap) : option nat * heap :=
  let n := length (arr h) - 1 in
  if n =? i then heap_shrink h else heap_shrink (down_or_up i n (heap_Swap i n h)).

Definition heap_Fix (i : nat) (h : heap) : heap := down_or_up i (length (arr h)) h.
End ops.

(** ** The index fields *)

Record indexed (h : heap) : Prop := {
  ix_at : ∀ i x, arr h !! i = Some x → idx h !! x = Some (Z.of_nat i)
}.

Lemma indexed_inj h i j x :
  indexed h → arr h !! i = Some x → arr h !! j = Some x → i = j.
Proof.
  intros H Hi Hj. apply (ix_at _ H) in Hi. apply (ix_at _ H) in Hj.
  rewrite Hi in Hj. injection Hj. lia.
Qed.

Lemma indexed_NoDup h : indexed h → NoDup (arr h).
Proof. intros H. apply NoDup_alt. intros i j x Hi Hj. by apply (indexed_inj h i j x). Qed.

(** Reorderings: the same elements, the same indices elsewhere. *)
Record reorders (h h' : heap) : Prop := {
  ro_perm : arr h' ≡ₚ arr h;
  ro_indexed : indexed h → indexed h';
  ro_frame : ∀ x, x ∉ arr h → idx h' !! x = idx h !! x
}.

#[export] Instance reorders_preorder : PreOrder reorders.
Proof.
  split; [by constructor|]. intros a b c [P1 I1 F1] [P2 I2 F2]. constructor.
  - by rewrite P2.
  - auto.
  - intros x Hx. rewrite F2, F1; [done..|]. by rewrite P1.
Qed.

Lemma Swap_lookup h i j a b :
  arr h !! i = Some a → arr h !! j = Some b →
  arr (heap_Swap i j h) = <[j := a]> (<[i := b]> (arr h)) ∧
  idx (heap_Swap i j h) = <[a := Z.of_nat j]> (<[b := Z.of_nat i]> (idx h)).
Proof. intros Hi Hj. unfold heap_Swap. by rewrite Hi, Hj. Qed.

Lemma Swap_at h i j k a b :
  arr h !! i = Some a → arr h !! j = Some b →
  arr (heap_Swap i j h) !! k =
    if decide (k = j) then Some a else if decide (k = i) then Some b else arr h !! k.
Proof.
  intros Hi Hj. destruct (Swap_lookup h i j a b Hi Hj) as [-> _].
  pose proof (lookup_lt_Some _ _ _ Hi). pose proof (lookup_lt_Some _ _ _ Hj).
  destruct (decide (k = j)) as [->|Hk].
  { rewrite list_lookup_insert_eq; [done|]. by rewrite length_insert. }
  rewrite list_lookup_insert_ne by done. destruct (decide (k = i)) as [->|Hk'].
  - by apply list_lookup_insert_eq.
  - by rewrite list_lookup_insert_ne.
Qed.

Lemma Swap_reorders h i j : reorders h (heap_Swap i j h).
Proof.
  unfold heap_Swap at 1. destruct (arr h !! i) as [a|] eqn:Hi; [|done].
  destruct (arr h !! j) as [b|] eqn:Hj; [|done]. constructor; cbn.
  - by apply Permutation_insert_swap.
  - intros Hx. constructor. intros k x Hk. cbn in *.
    pose proof (Swap_at h i j k a b Hi Hj) as Hs. unfold heap_Swap in Hs. rewrite Hi, Hj in Hs.
    cbn in Hs. rewrite Hk in Hs. destruct (decide (k = j)) as [->|Hkj].
    { injection Hs as ->. by rewrite lookup_insert_eq. }
    destruct (decide (k = i)) as [->|Hki].
    { injection Hs as ->. rewrite lookup_insert_ne; [by rewrite lookup_insert_eq|].
      intros Heq. apply Hkj, (indexed_inj h i j b); [done|by rewrite Hi, Heq|done]. }
    symmetry in Hs. rewrite !lookup_insert_ne; [by apply (ix_at _ Hx)| |].
    + intros Heq. apply Hkj, (indexed_inj h k j x); [done..|by rewrite <-Heq].
    + intros Heq. apply Hki, (indexed_inj h k i x); [done..|by rewrite <-Heq].
  - intros x Hx. rewrite !lookup_insert_ne; [done| |];
      intros ->; apply Hx; by eapply list_elem_of_lookup_2.
Qed.

Section facts.
Variable less : nat → nat → bool.

Lemma up_reorders fuel j h : reorders h (up less fuel j h).
Proof.
  revert j h. induction fuel as [|fuel IH]; intros j h; [done|]. cbn [up].
  destruct (_ || _); [done|]. etrans; [apply Swap_reorders|apply IH].
Qed.

Lemma down_reorders fuel i n h : reorders h (down less fuel i n h).1.
Proof.
  revert i h. induction fuel as [|fuel IH]; intros i h; [done|]. cbn [down].
  destruct (n <=? _); [done|]. destruct (negb _); [done|].
  etrans; [apply Swap_reorders|apply IH].
Qed.

Lemma down_or_up_reorders i n h : reorders h (down_or_up less i n h).
Proof.
  unfold down_or_up. pose proof (down_reorders (S n) i n h) as Hd.
  destruct (down less (S n) i n h) as [h' i']. cbn in Hd.
  destruct (i <? i'); [done|]. etrans; [exact Hd|apply up_reorders].
Qed.

(** ** Heap order *)

Hypothesis less_asym : ∀ a b, less a b = true → less b a = false.
Hypothesis le_trans : ∀ a b c, less b a = false → less c b = false → less c a = false.

(** No element [j] below [i]. *)
Definition le_at (h : heap) (i j : nat) : Prop :=
  ∀ a b, arr h !! i = Some a → arr h !! j = Some b → less b a = false.

Definition ordered (n : nat) (h : heap) : Prop :=
  ∀ k, 0 < k < n → le_at h (parent k) k.

(** Ordered, except that the element at [i] may be out of place. *)
Definition almost (i n : nat) (h : heap) : Prop :=
  (∀ k, 0 < k < n → k ≠ i → parent k ≠ i → le_at h (parent k) k) ∧
  (∀ k, 0 < i → 0 < k < n → parent k = i → le_at h (parent i) k).

(** Ordered, except that the element at [i] may be below its parent ... *)
Definition high (i n : nat) (h : heap) : Prop :=
  (∀ k, 0 < k < n → k ≠ i → le_at h (parent k) k) ∧
  (∀ k, 0 < i → 0 < k < n → parent k = i → le_at h (parent i) k).

(** ... or that its children may be below it. *)
Definition low (i n : nat) (h : heap) : Prop :=
  (∀ k, 0 < k < n → parent k ≠ i → le_at h (parent k) k) ∧
  (∀ k, 0 < i → 0 < k < n → parent k = i → le_at h (parent i) k).

Lemma parent_lt j : 0 < j → parent j < j.
Proof. intros H. unfold parent. apply Nat.Div0.div_lt_upper_bound. lia. Qed.

Lemma parent_spec k i : 0 < k → parent k = i ↔ k = 2 * i + 1 ∨ k = 2 * i + 2.
Proof.
  intros Hk. unfold parent. pose proof (Nat.div_mod_eq (k - 1) 2).
  pose proof (Nat.mod_upper_bound (k - 1) 2). lia.
Qed.

Lemma le_at_total h i j : heap_Less less h j i = false → le_at h i j.
Proof. unfold heap_Less, le_at. intros Hl a b Ha Hb. by rewrite Ha, Hb in Hl. Qed.

Lemma Less_true h i j : heap_Less less h i j = true →
  ∃ a b, arr h !! i = Some a ∧ arr h !! j = Some b ∧ less a b = true.
Proof. unfold heap_Less. destruct (arr h !! i), (arr h !! j); naive_solver. Qed.

Lemma up_ordered fuel j n h : j < fuel → j < n → high j n h → ordered n (up less fuel j h).
Proof.
  revert j h. induction fuel as [|fuel IH]; intros j h Hf Hn [H1 H2]; [lia|]. cbn [up].
  destruct (decide (j = 0)) as [->|Hj].
  { change (parent 0 =? 0) with true. cbn. intros k Hk. apply H1; lia. }
  pose proof (parent_lt j) as Hp.
  assert (parent j =? j = false) as -> by (apply Nat.eqb_neq; lia). cbn [orb].
  destruct (heap_Less less h j (parent j)) eqn:Hl; cbn [negb].
  2:{ intros k Hk. destruct (decide (k = j)) as [->|Hkj]; [by apply le_at_total|by apply H1]. }
  apply Less_true in Hl as (a & b & Ha & Hb & Hlt).
  pose proof (Swap_at h (parent j) j) as Hs.
  apply IH; [lia..|]. split.
  - intros k Hk Hkp x y. rewrite !(Hs _ b a) by done.
    rewrite (decide_False (P := k = parent j)) by done.
    destruct (decide (k = j)) as [->|Hkj].
    { rewrite decide_False, decide_True by lia. intros [= <-] [= <-]. by apply less_asym. }
    destruct (decide (parent k = j)) as [Hkc|Hkc].
    { intros [= <-] Hy. by apply (H2 k); [lia..|done|]. }
    destruct (decide (parent k = parent j)) as [Heq|Hne].
    { intros [= <-] Hy. apply (le_trans _ b); [by apply less_asym|].
      apply (H1 k); [lia|done|by rewrite Heq|done]. }
    intros Hx Hy. by apply (H1 k Hk Hkj).
  - intros k Hpj Hk Hkp x y. rewrite !(Hs _ b a) by done.
    pose proof (parent_lt (parent j) Hpj).
    rewrite (decide_False (P := parent (parent j) = j)) by lia.
    rewrite (decide_False (P := parent (parent j) = parent j)) by lia. intros Hx.
    pose proof (H1 (parent j) ltac:(lia) ltac:(lia) _ _ Hx Hb) as Hpp.
    destruct (decide (k = j)) as [->|Hkj]; [by intros [= <-]|].
    rewrite decide_False by (intros ->; pose proof (parent_lt (parent j)); lia).
    intros Hy. apply (le_trans _ b); [done|].
    apply (H1 k); [lia|done|by rewrite Hkp|done].
Qed.

Lemma less_irrefl a : less a a = false.
Proof. destruct (less a a) eqn:E; [|done]. by rewrite (less_asym _ _ E) in E. Qed.

Lemma child_spec n i h :
  2 * i + 1 < n → n ≤ length (arr h) →
  parent (child less n i h) = i ∧ i < child less n i h < n ∧
  ∀ k, 0 < k < n → parent k = i → le_at h (child less n i h) k.
Proof.
  intros Hc Hn. unfold child. destruct ((_ <? n) && _) eqn:Hb.
  - apply andb_true_iff in Hb as [Hj Hl]. apply Nat.ltb_lt in Hj.
    apply Less_true in Hl as (a & b & Ha & Hb & Hl).
    split_and!; [apply parent_spec; lia|lia|lia|]. intros k Hk Hp x y Hx Hy.
    apply (parent_spec k i) in Hp as [-> | ->]; [| |lia].
    + rewrite Ha in Hx. rewrite Hb in Hy. simplify_eq. by apply less_asym.
    + replace (2 * i + 1 + 1) with (2 * i + 2) in Hx by lia. simplify_eq.
      apply less_irrefl.
  - split_and!; [apply parent_spec; lia|lia|lia|]. intros k Hk Hp.
    apply (parent_spec k i) in Hp as [-> | ->]; [| |lia].
    + intros x y Hx Hy. simplify_eq. apply less_irrefl.
    + apply andb_false_iff in Hb as [Hb|Hb]; [apply Nat.ltb_ge in Hb; lia|].
      apply le_at_total. by replace (2 * i + 2) with (2 * i + 1 + 1) by lia.
Qed.

Lemma low_almost i n h : low i n h → almost i n h.
Proof. intros [H1 H2]. split; [|done]. intros k Hk _. by apply H1. Qed.

Lemma down_step i n h :
  2 * i + 1 < n → n ≤ length (arr h) → almost i n h →
  let j := child less n i h in
  heap_Less less h j i = true → low j n (heap_Swap i j h).
Proof.
  intros Hc Hn [H1 H2] j Hl. destruct (child_spec n i h Hc Hn) as (Hpj & Hij & Hsm).
  fold j in Hpj, Hij, Hsm. apply Less_true in Hl as (c & x & Hcj & Hxi & Hlt).
  pose proof (Swap_at h i j) as Hs. split.
  - intros k Hk Hpk a b. rewrite !(Hs _ x c) by done.
    rewrite (decide_False (P := parent k = j)) by done.
    destruct (decide (k = j)) as [Hkj|Hkj].
    { rewrite Hkj, Hpj, decide_True by done. intros [= <-] [= <-]. by apply less_asym. }
    destruct (decide (k = i)) as [Hki|Hki].
    { assert (parent k ≠ i) by (pose proof (parent_lt k); lia). rewrite decide_False by done.
      intros Ha [= <-]. rewrite Hki in Ha. apply (H2 j); [lia..|done|done|done]. }
    destruct (decide (parent k = i)) as [Hpi|Hpi].
    { intros [= <-] Hb. by apply (Hsm k Hk Hpi). }
    intros Ha Hb. by apply (H1 k).
  - intros k _ Hk Hpk a b. rewrite !(Hs _ x c) by done. rewrite Hpj.
    pose proof (parent_lt k). rewrite decide_False, decide_True by lia. intros [= <-].
    rewrite !decide_False by lia. intros Hb. by apply (H1 k); [lia..|rewrite Hpk|].
Qed.

Lemma Swap_length i j h : length (arr (heap_Swap i j h)) = length (arr h).
Proof. apply Permutation_length, Swap_reorders. Qed.

(** What the loop of [down] does when it stops at once. *)
Lemma settled_children i n h :
  n ≤ length (arr h) → i < n → almost i n h →
  n ≤ 2 * i + 1 ∨ heap_Less less h (child less n i h) i = false →
  ∀ k, 0 < k < n → parent k = i → le_at h i k.
Proof.
  intros Hn Hi Ha [Hc|Hl] k Hk Hp.
  { apply (parent_spec k i) in Hp; lia. }
  destruct (decide (2 * i + 1 < n)) as [Hc|Hc]; [|by apply (parent_spec k i) in Hp; lia].
  destruct (child_spec n i h Hc Hn) as (Hpj & Hij & Hsm).
  intros a b Hia Hkb. destruct (lookup_lt_is_Some_2 (arr h) (child less n i h)) as [c Hcj]; [lia|].
  apply (le_trans _ c).
  - by apply (le_at_total h i (child less n i h)).
  - by apply (Hsm k Hk Hp).
Qed.

Lemma down_ordered fuel i n h :
  n < fuel + i → i < n → n ≤ length (arr h) → low i n h → ordered n (down less fuel i n h).1.
Proof.
  revert i h. induction fuel as [|fuel IH]; intros i h Hf Hi Hn Hlow; [lia|]. cbn [down].
  assert (Hdone : n ≤ 2 * i + 1 ∨ heap_Less less h (child less n i h) i = false → ordered n h).
  { intros Hs k Hk. destruct (decide (parent k = i)) as [Hp|Hp]; [|by apply Hlow].
    rewrite Hp. by apply (settled_children i n h Hn Hi (low_almost _ _ _ Hlow) Hs). }
  destruct (n <=? 2 * i + 1) eqn:Hc; [apply Nat.leb_le in Hc; by apply Hdone; left|].
  apply Nat.leb_gt in Hc.
  destruct (heap_Less less h (child less n i h) i) eqn:Hl; cbn [negb]; [|by apply Hdone; right].
  destruct (child_spec n i h Hc Hn) as (_ & Hij & _).
  apply IH; [lia|lia|by rewrite Swap_length|]. by apply down_step; [|done|apply low_almost|].
Qed.

Lemma down_moves fuel i n h : i ≤ (down less fuel i n h).2.
Proof.
  revert i h. induction fuel as [|fuel IH]; intros i h; cbn [down]; [done|].
  destruct (n <=? _) eqn:Hc; [done|]. destruct (negb _); [done|].
  etrans; [|apply IH]. unfold child. destruct (_ && _); lia.
Qed.

Lemma down_or_up_ordered i n h :
  i < n → n ≤ length (arr h) → almost i n h → ordered n (down_or_up less i n h).
Proof.
  intros Hi Hn Ha. unfold down_or_up. cbn [down].
  assert (Hup : n ≤ 2 * i + 1 ∨ heap_Less less h (child less n i h) i = false →
            ordered n (if i <? i then h else up less (S i) i h)).
  { intros Hs. rewrite Nat.ltb_irrefl. apply up_ordered; [lia..|]. split; [|apply Ha].
    intros k Hk Hki. destruct (decide (parent k = i)) as [Hp|Hp]; [|by apply Ha].
    rewrite Hp. by apply (settled_children i n h Hn Hi Ha Hs). }
  destruct (n <=? 2 * i + 1) eqn:Hc; [apply Nat.leb_le in Hc; by apply Hup; left|].
  apply Nat.leb_gt in Hc.
  destruct (heap_Less less h (child less n i h) i) eqn:Hl; cbn [negb]; [|by apply Hup; right].
  destruct (child_spec n i h Hc Hn) as (_ & Hij & _).
  pose proof (down_moves n (child less n i h) n (heap_Swap i (child less n i h) h)) as Hm.
  pose proof (down_ordered n (child less n i h) n (heap_Swap i (child less n i h) h)) as Ho.
  destruct (down _ _ _ _ _) as [h' i']. cbn [fst snd] in Hm, Ho.
  assert (i <? i' = true) as -> by (apply Nat.ltb_lt; lia).
  apply Ho; [lia|lia|by rewrite Swap_length|]. by apply down_step.
Qed.

(** ** The operations *)

Record good (h : heap) : Prop := {
  gd_indexed : indexed h;
  gd_ordered : ordered (length (arr h)) h
}.

Lemma root_least h i a b :
  good h → arr h !! 0 = Some a → arr h !! i = Some b → less b a = false.
Proof.
  intros [_ Ho] Ha. revert b. induction i as [i IH] using (well_founded_induction lt_wf).
  intros b Hb. destruct (decide (i = 0)) as [->|Hi].
  { simplify_eq. apply less_irrefl. }
  pose proof (lookup_lt_Some _ _ _ Hb). pose proof (parent_lt i ltac:(lia)).
  destruct (lookup_lt_is_Some_2 (arr h) (parent i)) as [c Hc]; [lia|].
  apply (le_trans _ c); [by apply (IH (parent i))|]. by apply (Ho i); [lia|..].
Qed.

Lemma append_lookup x h k y :
  arr (heap_append x h) !! k = Some y →
  arr h !! k = Some y ∨ k = length (arr h) ∧ y = x.
Proof.
  cbn. intros Hk. apply lookup_app_Some in Hk as [Hk|[Hk Hy]]; [by left|].
  apply list_lookup_singleton_Some in Hy as [? <-]. right. split; [lia|done].
Qed.

Lemma append_indexed x h : x ∉ arr h → indexed h → indexed (heap_append x h).
Proof.
  intros Hx Hi. constructor. intros k y Hk. apply append_lookup in Hk as [Hk|[-> ->]]; cbn.
  - rewrite lookup_insert_ne; [by apply (ix_at _ Hi)|]. intros ->.
    apply Hx. by eapply list_elem_of_lookup_2.
  - by rewrite lookup_insert_eq.
Qed.

Lemma append_high x h :
  ordered (length (arr h)) h → high (length (arr h)) (length (arr (heap_append x h))) (heap_append x h).
Proof.
  intros Ho. assert (Hlen : length (arr (heap_append x h)) = length (arr h) + 1).
  { cbn. by rewrite length_app. }
  rewrite Hlen. split.
  - intros k Hk Hkl a b Ha Hb. pose proof (parent_lt k).
    apply append_lookup in Ha as [Ha|[Ha _]]; [|lia].
    apply append_lookup in Hb as [Hb|[Hb _]]; [|lia]. by apply (Ho k); [lia|..].
  - intros k _ Hk Hp. pose proof (parent_lt k). lia.
Qed.

Lemma Push_good x h :
  good h → x ∉ arr h →
  let h' := heap_Push less x h in
  good h' ∧ arr h' ≡ₚ x :: arr h ∧ ∀ y, y ∉ x :: arr h → idx h' !! y = idx h !! y.
Proof.
  intros [Hi Ho] Hx h'. unfold heap_Push in h'.
  assert (Hlen : length (arr (heap_append x h)) = length (arr h) + 1).
  { cbn. by rewrite length_app. }
  pose proof (up_reorders (length (arr (heap_append x h)))
    (length (arr (heap_append x h)) - 1) (heap_append x h)) as [Hp Hix Hf]. fold h' in Hp, Hix, Hf.
  assert (Hperm : arr h' ≡ₚ x :: arr h).
  { rewrite Hp. cbn. by rewrite Permutation_app_comm. }
  split_and!; [|done|].
  - constructor; [by apply Hix, append_indexed|].
    rewrite (Permutation_length Hp). apply up_ordered; [lia..|].
    replace (length (arr (heap_append x h)) - 1) with (length (arr h)) by lia. by apply append_high.
  - intros y [Hy1 Hy2]%not_elem_of_cons. rewrite Hf; [cbn; by rewrite lookup_insert_ne|].
    cbn. rewrite elem_of_app, list_elem_of_singleton. naive_solver.
Qed.

(** The last element leaves; the order below it is enough. *)
Lemma shrink_good n h x :
  indexed h → length (arr h) = S n → ordered n h → arr h !! n = Some x →
  let r := heap_shrink h in
  r.1 = Some x ∧ good r.2 ∧ arr h ≡ₚ x :: arr r.2 ∧ arr r.2 = take n (arr h) ∧
  idx r.2 = <[x := (-1)%Z]> (idx h).
Proof.
  intros Hi Hl Ho Hx. unfold heap_shrink. rewrite last_lookup, Hl. cbn [Init.Nat.pred].
  rewrite Hx. cbn. rewrite Nat.sub_0_r.
  assert (Htake : ∀ k y, take n (arr h) !! k = Some y ↔ arr h !! k = Some y ∧ k < n).
  { intros k y. apply lookup_take_Some. }
  split_and!; [done| | |done|done].
  - constructor; cbn.
    + constructor. cbn. intros k y [Hk Hkn]%Htake. rewrite lookup_insert_ne; [by apply (ix_at _ Hi)|].
      intros ->. pose proof (indexed_inj h k n y Hi Hk Hx). lia.
    + rewrite length_take, Hl. intros k Hk a b Ha Hb. cbn in Ha, Hb.
      apply Htake in Ha as [Ha _]. apply Htake in Hb as [Hb _]. apply (Ho k); [lia|done..].
  - rewrite <-(take_drop n (arr h)) at 1. rewrite (drop_S _ x) by done.
    rewrite drop_ge by lia. by rewrite Permutation_app_comm.
Qed.

Lemma Swap_frame i j k h : k ≠ i → k ≠ j → arr (heap_Swap i j h) !! k = arr h !! k.
Proof.
  intros Hi Hj. unfold heap_Swap. destruct (arr h !! i); [|done]. destruct (arr h !! j); [|done].
  cbn. by rewrite !list_lookup_insert_ne.
Qed.

Lemma down_frame fuel i n k h :
  i < n → k < i ∨ n ≤ k → arr (down less fuel i n h).1 !! k = arr h !! k.
Proof.
  revert i h. induction fuel as [|fuel IH]; intros i h Hi Hk; [done|]. cbn [down].
  destruct (n <=? _) eqn:Hc; [done|]. apply Nat.leb_gt in Hc. destruct (negb _); [done|].
  assert (Hj : i < child less n i h < n).
  { unfold child. destruct (_ <? n) eqn:E; cbn [andb]; [|lia]. apply Nat.ltb_lt in E.
    destruct (heap_Less _ _ _ _); lia. }
  rewrite IH by lia. apply Swap_frame; lia.
Qed.

Lemma up_frame fuel j k h : j < k → arr (up less fuel j h) !! k = arr h !! k.
Proof.
  revert j h. induction fuel as [|fuel IH]; intros j h Hk; [done|]. cbn [up].
  destruct (_ || _) eqn:E; [done|]. apply orb_false_iff in E as [E _]. apply Nat.eqb_neq in E.
  assert (parent j ≤ j) by (unfold parent; apply Nat.Div0.div_le_upper_bound; lia).
  rewrite IH by lia. apply Swap_frame; lia.
Qed.

(** The least element stays at the root. *)
Lemma up_root fuel j h a :
  arr h !! 0 = Some a → (∀ k b, arr h !! k = Some b → less b a = false) →
  0 < j → arr (up less fuel j h) !! 0 = Some a.
Proof.
  revert j h. induction fuel as [|fuel IH]; intros j h Ha Hl Hj; [done|]. cbn [up].
  destruct (_ || _) eqn:E; [done|]. apply orb_false_iff in E as [_ E]. apply negb_false_iff in E.
  apply Less_true in E as (b & c & Hb & Hc & Hlt).
  destruct (decide (parent j = 0)) as [Hp|Hp].
  { rewrite Hp in Hc. simplify_eq. by rewrite (Hl j b Hb) in Hlt. }
  apply IH; [by rewrite Swap_frame by lia| |lia].
  intros k d Hd. assert (d ∈ arr h) as (k' & Hk')%list_elem_of_lookup; [|by apply (Hl k')].
  rewrite <-(ro_perm _ _ (Swap_reorders h (parent j) j)). by eapply list_elem_of_lookup_2.
Qed.

Lemma ordered_almost i n h : i < n → n ≤ length (arr h) → ordered n h → almost i n h.
Proof.
  intros Hi Hn Ho. split; [intros k Hk _ _; by apply Ho|].
  intros k Hi0 Hk Hp a b Ha Hb. pose proof (parent_lt k).
  destruct (lookup_lt_is_Some_2 (arr h) i) as [c Hc]; [lia|].
  apply (le_trans _ c); [by apply (Ho i); [lia|..]|]. apply (Ho k); [lia|by rewrite Hp|done].
Qed.

Lemma Swap_almost i n h : i < n → almost i (S n) h → almost i n (heap_Swap i n h).
Proof.
  intros Hi [H1 H2]. split.
  - intros k Hk Hki Hp a b. pose proof (parent_lt k). rewrite !Swap_frame by lia.
    apply H1; lia.
  - intros k Hi0 Hk Hp a b. pose proof (parent_lt k). pose proof (parent_lt i).
    rewrite !Swap_frame by lia. apply H2; lia.
Qed.

(** What taking an element out gives. *)
Definition takes (x : nat) (h : heap) (r : option nat * heap) : Prop :=
  r.1 = Some x ∧ good r.2 ∧ arr h ≡ₚ x :: arr r.2 ∧ idx r.2 !! x = Some (-1)%Z ∧
  ∀ y, y ∉ arr h → idx r.2 !! y = idx h !! y.

Lemma shrink_takes n h h' x :
  indexed h → reorders h h' → length (arr h) = S n → ordered n h' → arr h' !! n = Some x →
  takes x h (heap_shrink h').
Proof.
  intros Hi Hr Hl Ho Hx.
  destruct (shrink_good n h' x) as (H1 & H2 & H3 & _ & H5);
    [by apply Hr|by rewrite (Permutation_length (ro_perm _ _ Hr))|done..|].
  split_and!; [done|done| | |].
  - by rewrite <-(ro_perm _ _ Hr).
  - by rewrite H5, lookup_insert_eq.
  - intros y Hy. rewrite H5, lookup_insert_ne; [by apply Hr|]. intros ->. apply Hy.
    rewrite <-(ro_perm _ _ Hr). by eapply list_elem_of_lookup_2.
Qed.

Lemma Swap_last i n h x :
  length (arr h) = S n → arr h !! i = Some x → arr (heap_Swap i n h) !! n = Some x.
Proof.
  intros Hl Hx. destruct (lookup_lt_is_Some_2 (arr h) n) as [c Hc]; [lia|].
  rewrite (Swap_at h i n n x c) by done. by rewrite decide_True.
Qed.

Lemma Pop_good h x : good h → arr h !! 0 = Some x → takes x h (heap_Pop less h).
Proof.
  intros [Hi Ho] Hx. pose proof (lookup_lt_Some _ _ _ Hx).
  destruct (length (arr h)) as [|n] eqn:Hl; [lia|]. unfold heap_Pop. rewrite Hl.
  replace (S n - 1) with n by lia.
  assert (Hr : reorders h (down less (S n) 0 n (heap_Swap 0 n h)).1).
  { etrans; [apply Swap_reorders|apply down_reorders]. }
  assert (Hlast : arr (heap_Swap 0 n h) !! n = Some x) by (by apply Swap_last).
  apply (shrink_takes n); [done..| |].
  - destruct (decide (n = 0)) as [->|Hn]; [intros k Hk; lia|].
    apply down_ordered; [lia|lia|rewrite Swap_length; lia|].
    destruct (Swap_almost 0 n h) as [H1 H2]; [lia|apply ordered_almost; [lia..|done]|].
    split; [|done].
    intros k Hk. apply H1; lia.
  - destruct (decide (n = 0)) as [->|Hn]; [done|]. by rewrite down_frame by lia.
Qed.

(** The element taken out may be out of place. *)
Lemma Remove_takes i h x :
  indexed h → almost i (length (arr h)) h → arr h !! i = Some x → takes x h (heap_Remove less i h).
Proof.
  intros Hi Ha Hx. pose proof (lookup_lt_Some _ _ _ Hx).
  destruct (length (arr h)) as [|n] eqn:Hl; [lia|]. unfold heap_Remove. rewrite Hl.
  replace (S n - 1) with n by lia. destruct (n =? i) eqn:E.
  { apply Nat.eqb_eq in E. subst i. apply (shrink_takes n); [done..| |done].
    intros k Hk. pose proof (parent_lt k). apply Ha; lia. }
  apply Nat.eqb_neq in E. apply (shrink_takes n); [done| |done| |].
  - etrans; [apply Swap_reorders|apply down_or_up_reorders].
  - apply down_or_up_ordered; [lia|rewrite Swap_length; lia|]. apply Swap_almost; [lia|done].
  - pose proof (Swap_last i n h x Hl Hx) as Hsl. unfold down_or_up.
    pose proof (down_frame (S n) i n n (heap_Swap i n h)) as Hd.
    destruct (down _ _ _ _ _) as [h' i']. cbn [fst] in Hd.
    destruct (i <? i'); [|rewrite up_frame by lia]; rewrite Hd by lia; done.
Qed.

Lemma Remove_root i h a :
  good h → 0 < i < length (arr h) → arr h !! 0 = Some a → arr (heap_Remove less i h).2 !! 0 = Some a.
Proof.
  intros Hg Hi Ha. destruct (length (arr h)) as [|n] eqn:Hl; [lia|]. unfold heap_Remove. rewrite Hl.
  replace (S n - 1) with n by lia.
  assert (Hshrink : ∀ h', length (arr h') = S n → arr h' !! 0 = Some a →
            arr (heap_shrink h').2 !! 0 = Some a).
  { intros h' Hl' H0. unfold heap_shrink. destruct (last (arr h')); [|done]. cbn.
    by rewrite lookup_take_lt by lia. }
  destruct (n =? i) eqn:E; [by apply Hshrink|]. apply Nat.eqb_neq in E.
  assert (Hs0 : arr (heap_Swap i n h) !! 0 = Some a) by (by rewrite Swap_frame by lia).
  apply Hshrink.
  { rewrite (Permutation_length (ro_perm _ _ (down_or_up_reorders i n _))). by rewrite Swap_length. }
  unfold down_or_up. pose proof (down_frame (S n) i n 0 (heap_Swap i n h)) as Hd.
  pose proof (down_reorders (S n) i n (heap_Swap i n h)) as Hdr.
  destruct (down _ _ _ _ _) as [h' i']. cbn [fst] in Hd, Hdr. rewrite Hs0 in Hd.
  destruct (i <? i'); [by apply Hd; lia|]. apply up_root; [by apply Hd; lia| |lia].
  intros k b Hb. assert (b ∈ arr h) as (k' & Hk')%list_elem_of_lookup.
  { rewrite <-(ro_perm _ _ (Swap_reorders h i n)), <-(ro_perm _ _ Hdr).
    by eapply list_elem_of_lookup_2. }
  by apply (root_least h k').
Qed.

Lemma Fix_good i h :
  indexed h → i < length (arr h) → almost i (length (arr h)) h →
  good (heap_Fix less i h) ∧ reorders h (heap_Fix less i h).
Proof.
  intros Hi Hl Ha. pose proof (down_or_up_reorders i (length (arr h)) h) as Hr.
  split; [|done]. constructor; [by apply Hr|]. unfold heap_Fix.
  rewrite (Permutation_length (ro_perm _ _ Hr)). by apply down_or_up_ordered.
Qed.

(** After a push the root is the new element or the old root. *)
Lemma Push_root x h a :
  good h → x ∉ arr h → arr h !! 0 = Some a →
  arr (heap_Push less x h) !! 0 = Some x ∨ arr (heap_Push less x h) !! 0 = Some a.
Proof.
  intros Hg Hx Ha. unfold heap_Push.
  set (h1 := heap_append x h). assert (Hlen : length (arr h1) = length (arr h) + 1).
  { cbn. by rewrite length_app. }
  pose proof (lookup_lt_Some _ _ _ Ha).
  assert (Hgen : ∀ fuel j h', arr h' !! 0 = Some a → arr h' !! j = Some x → 0 < j →
            (arr (up less fuel j h') !! 0 = Some x ∨ arr (up less fuel j h') !! 0 = Some a)).
  { induction fuel as [|fuel IH]; intros j h' H0 Hj Hpos; cbn [up]; [by right|].
    destruct (_ || _) eqn:E; [by right|]. apply orb_false_iff in E as [E1 E2].
    apply negb_false_iff, Less_true in E2 as (b & c & Hb & Hc & Hlt).
    rewrite Hj in Hb. injection Hb as <-. pose proof (parent_lt j Hpos). pose proof (Swap_at h' (parent j) j) as Hs.
    destruct (decide (parent j = 0)) as [Hp|Hp].
    - left. rewrite Hp in *. assert (∀ h, arr (up less fuel 0 h) = arr h) as ->.
      { intros h0. by destruct fuel. }
      rewrite (Hs _ a x) by done. by rewrite decide_False, decide_True by lia.
    - apply IH; [by rewrite Swap_frame by lia| |lia]. rewrite (Hs _ c x) by done.
      by rewrite decide_False, decide_True by lia. }
  apply Hgen; [|rewrite Hlen; cbn|lia].
  - cbn. rewrite lookup_app_l by lia. done.
  - replace (length (arr h) + 1 - 1) with (length (arr h)) by lia. by rewrite lookup_app_r, Nat.sub_diag.
Qed.
End facts.

(** ** Changing the order or the indices *)

Lemma good_frame less arr0 idx0 idx1 :
  (∀ x, x ∈ arr0 → idx1 !! x = idx0 !! x) →
  good less (mkHeap arr0 idx0) → good less (mkHeap arr0 idx1).
Proof.
  intros Hf [Hi Ho]. constructor; [|done]. constructor. cbn. intros i x Hx.
  rewrite Hf by (by eapply list_elem_of_lookup_2). by apply (ix_at _ Hi).
Qed.

Lemma good_less less less' h :
  (∀ a b, a ∈ arr h → b ∈ arr h → less' a b = less a b) → good less h → good less' h.
Proof.
  intros Hl [Hi Ho]. constructor; [done|]. intros k Hk a b Ha Hb.
  rewrite Hl by (by eapply list_elem_of_lookup_2). by apply (Ho k Hk).
Qed.

(** The key of one element has changed. *)
Lemma good_almost less less' h i p :
  (∀ a b c, less b a = false → less c b = false → less c a = false) →
  (∀ a b, a ∈ arr h → b ∈ arr h → a ≠ p → b ≠ p → less' a b = less a b) →
  good less h → arr h !! i = Some p → almost less' i (length (arr h)) h.
Proof.
  intros Htr Hl [Hi Ho] Hp. pose proof (lookup_lt_Some _ _ _ Hp).
  assert (Hne : ∀ k x, arr h !! k = Some x → k ≠ i → x ≠ p).
  { intros k x Hx Hk ->. by apply Hk, (indexed_inj h k i p). }
  pose proof (ordered_almost less Htr i (length (arr h)) h ltac:(lia) ltac:(lia) Ho) as [H1 H2].
  split.
  - intros k Hk Hki Hpk a b Ha Hb. pose proof (parent_lt k).
    rewrite Hl; [by apply (H1 k)|by eapply list_elem_of_lookup_2..| |]; by eapply Hne.
  - intros k Hi0 Hk Hpk a b Ha Hb. pose proof (parent_lt k). pose proof (parent_lt i).
    rewrite Hl; [by apply (H2 k)|by eapply list_elem_of_lookup_2..| |].
    + apply (Hne k); [done|lia].
    + apply (Hne (parent i)); [done|lia].
Qed.
