(* ===== verification/Schedule.v ===== *)
(** * The delivery schedule (src/internal/queue/schedule.go)

    One heap of messages per owner, ordered by the next attempt; the owners
    wait in a heap of their own, ordered by their first message, until it is
    due, and are then served in rotation.  Pointers are handles: the fields of
    an object are looked up in the maps of the state. *)

From Stdlib Require Import Lia.
From S2P Require Import Prelude Envelope Heap.

(** ** Data *)

Record userQueue := mkUser {
  u_name : string;
  u_mail : list nat;
  u_due : bool
}.

(** [sEnv] and [sObj] hold the envelopes and the owners, [sIdx] and [sUIdx] their
    [index] fields; [sNext] is the next pointer the allocator returns. *)
Record schedule := mkSchedule {
  sEnv : gmap nat Envelope;
  sIdx : gmap nat Z;
  sObj : gmap nat userQueue;
  sUIdx : gmap nat Z;
  sUsers : gmap string nat;
  sFuture : list nat;
  sDue : list nat;
  sCount : Z;
  sNext : nat
}.

Definition emptySchedule : schedule := mkSchedule ∅ ∅ ∅ ∅ ∅ [] [] 0 0.

Definition set_due (b : bool) (u : userQueue) : userQueue := mkUser (u_name u) (u_mail u) b.
Definition set_mail (m : list nat) (u : userQueue) : userQueue := mkUser (u_name u) m (u_due u).

(** ** [Less] *)

Definition before (a b : Z * string) : bool :=
  if (a.1 =? b.1)%Z then String.ltb a.2 b.2 else (a.1 <? b.1)%Z.

Definition envKey (s : schedule) (h : nat) : Z * string :=
  match sEnv s !! h with Some e => (NextAttempt e, ID e) | None => (0%Z, "") end.

Definition envLess (s : schedule) (a b : nat) : bool := before (envKey s a) (envKey s b).

(** The first message of an owner. *)
Definition first_attempt (s : schedule) (p : nat) : option Z :=
  u ← sObj s !! p; h ← head (u_mail u); e ← sEnv s !! h; Some (NextAttempt e).

Definition userKey (s : schedule) (p : nat) : Z * string :=
  (default 0%Z (first_attempt s p), from_option u_name "" (sObj s !! p)).

Definition userLess (s : schedule) (a b : nat) : bool := before (userKey s a) (userKey s b).

(** ** Running the two heaps *)

Definition mailHeap (s : schedule) (u : userQueue) : heap := mkHeap (u_mail u) (sIdx s).

Definition put_mail (p : nat) (u : userQueue) (h : heap) (s : schedule) : schedule :=
  mkSchedule (sEnv s) (idx h) (<[p := set_mail (arr h) u]> (sObj s)) (sUIdx s) (sUsers s)
    (sFuture s) (sDue s) (sCount s) (sNext s).

Definition futureHeap (s : schedule) : heap := mkHeap (sFuture s) (sUIdx s).

Definition put_future (h : heap) (s : schedule) : schedule :=
  mkSchedule (sEnv s) (sIdx s) (sObj s) (idx h) (sUsers s) (arr h) (sDue s) (sCount s) (sNext s).

Definition put_due (l : list nat) (s : schedule) : schedule :=
  mkSchedule (sEnv s) (sIdx s) (sObj s) (sUIdx s) (sUsers s) (sFuture s) l (sCount s) (sNext s).

Definition put_user (p : nat) (u : userQueue) (s : schedule) : schedule :=
  mkSchedule (sEnv s) (sIdx s) (<[p := u]> (sObj s)) (sUIdx s) (sUsers s) (sFuture s) (sDue s)
    (sCount s) (sNext s).

Definition drop_user (n : string) (s : schedule) : schedule :=
  mkSchedule (sEnv s) (sIdx s) (sObj s) (sUIdx s) (delete n (sUsers s)) (sFuture s) (sDue s)
    (sCount s) (sNext s).

Definition add_count (n : Z) (s : schedule) : schedule :=
  mkSchedule (sEnv s) (sIdx s) (sObj s) (sUIdx s) (sUsers s) (sFuture s) (sDue s)
    (wrap64 (sCount s + n)) (sNext s).

Definition pushFuture (p : nat) (s : schedule) : schedule :=
  put_future (heap_Push (userLess s) p (futureHeap s)) s.

Definition fixFuture (p : nat) (s : schedule) : schedule :=
  match sUIdx s !! p with
  | Some i => put_future (heap_Fix (userLess s) (Z.to_nat i) (futureHeap s)) s
  | None => s
  end.

(** ** Operations *)

(** The envelope's pointer, allocated by the caller, and the owner's object. *)
Definition allocate (e : Envelope) (s : schedule) : nat * schedule :=
  let h := sNext s in
  (h, mkSchedule (<[h := e]> (sEnv s)) (<[h := 0%Z]> (sIdx s)) (sObj s) (sUIdx s) (sUsers s)
        (sFuture s) (sDue s) (sCount s) (S h)).

Definition findUser (name : string) (s : schedule) : nat * schedule :=
  match sUsers s !! name with
  | Some p => (p, s)
  | None =>
      let p := sNext s in
      (p, mkSchedule (sEnv s) (sIdx s) (<[p := mkUser name [] false]> (sObj s))
            (<[p := (-1)%Z]> (sUIdx s)) (<[name := p]> (sUsers s)) (sFuture s) (sDue s)
            (sCount s) (S p))
  end.

Definition pushMail (p h : nat) (u : userQueue) (s : schedule) : schedule :=
  let oldFirst := bool_decide (u_mail u = []) in
  let s := put_mail p u (heap_Push (envLess s) h (mailHeap s u)) s in
  let s := add_count 1 s in
  if u_due u then s
  else if oldFirst then pushFuture p s
  else if bool_decide (sIdx s !! h = Some 0%Z) then fixFuture p s
  else s.

Definition schedule_Push (e : Envelope) (s : schedule) : nat * schedule :=
  let '(h, s) := allocate e s in
  let '(p, s) := findUser (Username e) s in
  (h, match sObj s !! p with Some u => pushMail p h u s | None => s end).

Definition schedule_NextAttempt (s : schedule) : option Z :=
  match sDue s, sFuture s with
  | p :: _, _ => first_attempt s p
  | [], p :: _ => first_attempt s p
  | [], [] => None
  end.

(** The owners whose first message is due leave the heap. *)
Fixpoint promote (fuel : nat) (now : Z) (s : schedule) : schedule :=
  match fuel, sFuture s with
  | S fuel, p :: _ =>
      match first_attempt s p with
      | Some t =>
          if (now <? t)%Z then s
          else
            match heap_Pop (userLess s) (futureHeap s) with
            | (Some p, h) =>
                let s := put_future h s in
                let s := match sObj s !! p with
                         | Some u => put_user p (set_due true u) s | None => s end in
                promote fuel now (put_due (sDue s ++ [p]) s)
            | (None, _) => s
            end
      | None => s
      end
  | _, _ => s
  end.

(** [!messages[0].NextAttempt.After(now)]. *)
Definition is_due (s : schedule) (p : nat) (now : Z) : bool :=
  match first_attempt s p with Some t => negb (now <? t)%Z | None => false end.

Definition schedule_PopDue (now : Z) (s : schedule) : option nat * schedule :=
  let s := promote (length (sFuture s)) now s in
  match sDue s with
  | [] => (None, s)
  | p :: rest =>
      let s := put_due rest s in
      match sObj s !! p with
      | None => (None, s)
      | Some u =>
          match heap_Pop (envLess s) (mailHeap s u) with
          | (None, _) => (None, s)
          | (Some e, h) =>
              let s := add_count (-1) (put_mail p u h s) in
              let u := set_mail (arr h) u in
              (Some e,
               if bool_decide (u_mail u = []) then put_user p (set_due false u) (drop_user (u_name u) s)
               else if is_due s p now then put_due (sDue s ++ [p]) s
               else pushFuture p (put_user p (set_due false u) s))
          end
      end
  end.

Fixpoint remove_first (p : nat) (l : list nat) : list nat :=
  match l with
  | [] => []
  | q :: l => if decide (q = p) then l else q :: remove_first p l
  end.

(** After the message has left the owner's heap. *)
Definition removed (now : Z) (p : nat) (u : userQueue) (wasFirst : bool) (s : schedule) : schedule :=
  if bool_decide (u_mail u = []) then
    let s := drop_user (u_name u) s in
    if u_due u then put_due (remove_first p (sDue s)) s
    else
      match sUIdx s !! p with
      | Some i => if (0 <=? i)%Z
                  then put_future (heap_Remove (userLess s) (Z.to_nat i) (futureHeap s)).2 s else s
      | None => s
      end
  else if wasFirst && u_due u && negb (is_due s p now) then
    let s := put_due (remove_first p (sDue s)) s in
    pushFuture p (put_user p (set_due false u) s)
  else if wasFirst && negb (u_due u) then fixFuture p s
  else s.

Definition schedule_Remove (now : Z) (h : nat) (s : schedule) : bool * schedule :=
  match e ← sEnv s !! h; p ← sUsers s !! Username e; u ← sObj s !! p; i ← sIdx s !! h;
        Some (p, u, i) with
  | None => (false, s)
  | Some (p, u, i) =>
      if (i <? 0)%Z || (Z.of_nat (length (u_mail u)) <=? i)%Z
         || negb (bool_decide (u_mail u !! Z.to_nat i = Some h))
      then (false, s)
      else
        let wasFirst := (i =? 0)%Z in
        let hp := (heap_Remove (envLess s) (Z.to_nat i) (mailHeap s u)).2 in
        let s := add_count (-1) (put_mail p u hp s) in
        (true, removed now p (set_mail (arr hp) u) wasFirst s)
  end.

(** ** The order *)

Lemma ltb_le_trans a b c : String.ltb b a = false → String.ltb c b = false → String.ltb c a = false.
Proof.
  unfold String.ltb. revert a b.
  induction c as [|z c IH]; intros [|x a] [|y b]; cbn; try done.
  unfold Ascii.compare.
  destruct (N.compare_spec (N_of_ascii y) (N_of_ascii x)) as [Hyx|Hyx|Hyx]; [|done|].
  - destruct (N.compare_spec (N_of_ascii z) (N_of_ascii y)) as [Hzy|Hzy|Hzy]; [|done|].
    + intros H1 H2. rewrite Hzy, Hyx, N.compare_refl. by apply (IH a b).
    + intros _ _. destruct (N.compare_spec (N_of_ascii z) (N_of_ascii x)); [lia|lia|done].
  - destruct (N.compare_spec (N_of_ascii z) (N_of_ascii y)) as [Hzy|Hzy|Hzy]; [|done|];
      intros _ _; destruct (N.compare_spec (N_of_ascii z) (N_of_ascii x)); [lia|lia|done|lia|lia|done].
Qed.

Lemma ltb_asym a b : String.ltb a b = true → String.ltb b a = false.
Proof.
  unfold String.ltb. rewrite (String.compare_antisym b a). by destruct (String.compare a b).
Qed.

Lemma before_asym a b : before a b = true → before b a = false.
Proof.
  unfold before. rewrite (Z.eqb_sym b.1). destruct (a.1 =? b.1)%Z eqn:E; [apply ltb_asym|]. lia.
Qed.

Lemma before_trans a b c : before b a = false → before c b = false → before c a = false.
Proof.
  unfold before. destruct (b.1 =? a.1)%Z eqn:E1, (c.1 =? b.1)%Z eqn:E2; intros H1 H2; zbool.
  - assert ((c.1 =? a.1)%Z = true) as -> by lia. by apply (ltb_le_trans _ b.2).
  - assert ((c.1 =? a.1)%Z = false) as -> by lia. lia.
  - assert ((c.1 =? a.1)%Z = false) as -> by lia. lia.
  - assert ((c.1 =? a.1)%Z = false) as -> by lia. lia.
Qed.

Lemma before_first a b : before a b = false → (b.1 ≤ a.1)%Z.
Proof. unfold before. destruct (a.1 =? b.1)%Z eqn:E; intros; zbool; lia. Qed.

Lemma envLess_asym s a b : envLess s a b = true → envLess s b a = false.
Proof. apply before_asym. Qed.
Lemma envLess_trans s a b c : envLess s b a = false → envLess s c b = false → envLess s c a = false.
Proof. apply before_trans. Qed.
Lemma userLess_asym s a b : userLess s a b = true → userLess s b a = false.
Proof. apply before_asym. Qed.
Lemma userLess_trans s a b c :
  userLess s b a = false → userLess s c b = false → userLess s c a = false.
Proof. apply before_trans. Qed.

(** ** The invariant *)

(** The owner's object, its messages. *)
Record owner (s : schedule) (n : string) (p : nat) (u : userQueue) : Prop := {
  ow_users : sUsers s !! n = Some p;
  ow_obj : sObj s !! p = Some u;
  ow_name : u_name u = n;
  ow_heap : good (envLess s) (mailHeap s u);
  ow_mail : ∀ h, h ∈ u_mail u → ∃ e, sEnv s !! h = Some e ∧ Username e = n
}.

Definition waits (b : bool) (s : schedule) (p : nat) : Prop :=
  ∃ n u, sUsers s !! n = Some p ∧ sObj s !! p = Some u ∧ u_due u = b.

(** The schedule while the owner [p], called [n], is worked on: its messages may
    have run out, its place may be wrong, and the heap of owners is ordered by
    its key before the work began. *)
Record working (s : schedule) (n : string) (p : nat) (u : userQueue) : Prop := {
  wk_owner : owner s n p u;
  wk_others : ∀ m q, m ≠ n → sUsers s !! m = Some q → ∃ v, owner s m q v ∧ u_mail v ≠ [];
  wk_future : ∀ q, q ≠ p → q ∈ sFuture s ↔ waits false s q;
  wk_due : ∀ q, q ≠ p → q ∈ sDue s ↔ waits true s q;
  wk_nodup : NoDup (sDue s);
  wk_heap : ∃ less, (∀ a b, less a b = true → less b a = false) ∧
    (∀ a b c, less b a = false → less c b = false → less c a = false) ∧
    (∀ a b, a ≠ p → b ≠ p → userLess s a b = less a b) ∧ good less (futureHeap s);
  wk_fresh : ∀ k, (sNext s ≤ k)%nat → sEnv s !! k = None ∧ sObj s !! k = None
}.

Record sched_ok (s : schedule) : Prop := {
  so_owner : ∀ n p, sUsers s !! n = Some p → ∃ u, owner s n p u ∧ u_mail u ≠ [];
  so_future : ∀ q, q ∈ sFuture s ↔ waits false s q;
  so_due : ∀ q, q ∈ sDue s ↔ waits true s q;
  so_nodup : NoDup (sDue s);
  so_heap : good (userLess s) (futureHeap s);
  so_fresh : ∀ k, (sNext s ≤ k)%nat → sEnv s !! k = None ∧ sObj s !! k = None
}.

Lemma owner_inj s n m p u v : owner s n p u → owner s m p v → n = m ∧ u = v.
Proof. intros [] []. split; congruence. Qed.

Lemma waits_owner s n p u b : owner s n p u → waits b s p ↔ u_due u = b.
Proof.
  intros Ho. split; [|intros Hb; exists n, u; by destruct Ho].
  intros (m & v & _ & Hv & Hb). destruct Ho. congruence.
Qed.

Lemma begin_work s n p :
  sched_ok s → sUsers s !! n = Some p →
  ∃ u, working s n p u ∧ u_mail u ≠ [] ∧ (p ∈ sFuture s ↔ u_due u = false) ∧
       (p ∈ sDue s ↔ u_due u = true).
Proof.
  intros [Ho Hf Hd Hn Hh Hfr] Hp. destruct (Ho n p Hp) as (u & Hu & Hne). exists u.
  split_and!; [|done|by rewrite Hf, (waits_owner s n p u)|by rewrite Hd, (waits_owner s n p u)].
  constructor; [done|intros m q _; by apply Ho|by intros q _|by intros q _|done| |done].
  exists (userLess s). split_and!; [apply userLess_asym|apply userLess_trans|done|done].
Qed.

(** Owners share no message. *)
Lemma owners_disjoint s n m p q u v h :
  owner s n p u → owner s m q v → h ∈ u_mail u → h ∈ u_mail v → n = m.
Proof.
  intros Hu Hv H1 H2. destruct (ow_mail _ _ _ _ Hu h H1) as (e & He & <-).
  destruct (ow_mail _ _ _ _ Hv h H2) as (e' & He' & <-). by simplify_eq.
Qed.

(** ** Steps of the work *)

Lemma first_attempt_eq s s' p :
  sObj s' !! p = sObj s !! p → sEnv s' = sEnv s → first_attempt s' p = first_attempt s p.
Proof. intros Ho He. unfold first_attempt. by rewrite Ho, He. Qed.

Lemma userKey_eq s s' p :
  sObj s' !! p = sObj s !! p → sEnv s' = sEnv s → userKey s' p = userKey s p.
Proof. intros Ho He. unfold userKey. by rewrite (first_attempt_eq s s'), Ho. Qed.

Lemma working_put_mail s n p u hp :
  working s n p u → good (envLess s) hp →
  (∀ h, h ∈ arr hp → ∃ e, sEnv s !! h = Some e ∧ Username e = n) →
  (∀ x, x ∉ u_mail u → x ∉ arr hp → idx hp !! x = sIdx s !! x) →
  working (put_mail p u hp s) n p (set_mail (arr hp) u).
Proof.
  intros [Ho Hot Hf Hd Hn (less & Ha & Ht & Hl & Hh) Hfr] Hg Hm Hidx.
  assert (Hobj : ∀ q, q ≠ p → sObj (put_mail p u hp s) !! q = sObj s !! q).
  { intros q Hq. cbn. by rewrite lookup_insert_ne. }
  assert (Hw : ∀ b q, q ≠ p → waits b (put_mail p u hp s) q ↔ waits b s q).
  { intros b q Hq. unfold waits. by rewrite (Hobj q Hq). }
  constructor; try done.
  - destruct Ho as [O1 O2 O3 _ _]. constructor; [done|by cbn; rewrite lookup_insert_eq|done| |done].
    by destruct hp.
  - intros m q Hne Hq. destruct (Hot m q Hne Hq) as (v & Hv & Hvne). exists v. split; [|done].
    assert (q ≠ p) as Hqp. { intros ->. by destruct (owner_inj _ _ _ _ _ _ Hv Ho). }
    pose proof Hv as [V1 V2 V3 V4 V5]. constructor; try done; [by rewrite Hobj|].
    apply (good_frame _ _ (sIdx s)); [|done]. intros x Hx. cbn. apply Hidx.
    + intros Hx'. by apply Hne, (owners_disjoint s m n q p v u x).
    + intros Hx'. destruct (Hm x Hx') as (e & He & Hen). destruct (V5 x Hx) as (e' & He' & Hen').
      by simplify_eq.
  - intros q Hq. rewrite (Hw false q Hq). by apply Hf.
  - intros q Hq. rewrite (Hw true q Hq). by apply Hd.
  - exists less. split_and!; [done|done| |done]. intros a b Hap Hbp. rewrite <-Hl by done.
    unfold userLess. by rewrite !(userKey_eq s (put_mail p u hp s)) by (done || by apply Hobj).
  - intros k Hk. split; [by apply Hfr|]. cbn. rewrite lookup_insert_ne; [by apply Hfr|].
    intros <-. destruct (Hfr p Hk) as [_ Hnone]. by rewrite (ow_obj _ _ _ _ Ho) in Hnone.
Qed.

Lemma working_set_due s n p u b :
  working s n p u → working (put_user p (set_due b u) s) n p (set_due b u).
Proof.
  intros [Ho Hot Hf Hd Hn (less & Ha & Ht & Hl & Hh) Hfr].
  assert (Hobj : ∀ q, q ≠ p → sObj (put_user p (set_due b u) s) !! q = sObj s !! q).
  { intros q Hq. cbn. by rewrite lookup_insert_ne. }
  assert (Hw : ∀ b' q, q ≠ p → waits b' (put_user p (set_due b u) s) q ↔ waits b' s q).
  { intros b' q Hq. unfold waits. by rewrite (Hobj q Hq). }
  constructor; try done.
  - destruct Ho. constructor; try done. cbn. by rewrite lookup_insert_eq.
  - intros m q Hne Hq. destruct (Hot m q Hne Hq) as (v & Hv & Hvne). exists v. split; [|done].
    assert (q ≠ p) as Hqp. { intros ->. by destruct (owner_inj _ _ _ _ _ _ Hv Ho). }
    destruct Hv. constructor; try done. by rewrite Hobj.
  - intros q Hq. rewrite (Hw false q Hq). by apply Hf.
  - intros q Hq. rewrite (Hw true q Hq). by apply Hd.
  - exists less. split_and!; [done|done| |done]. intros x y Hx Hy. rewrite <-Hl by done.
    unfold userLess. by rewrite !(userKey_eq s (put_user p (set_due b u) s)) by (done || by apply Hobj).
  - intros k Hk. split; [by apply Hfr|]. cbn. rewrite lookup_insert_ne; [by apply Hfr|].
    intros <-. destruct (Hfr p Hk) as [_ Hnone]. by rewrite (ow_obj _ _ _ _ Ho) in Hnone.
Qed.

Lemma working_put_due s n p u l :
  working s n p u → NoDup l → (∀ q, q ≠ p → q ∈ l ↔ q ∈ sDue s) → working (put_due l s) n p u.
Proof.
  intros [Ho Hot Hf Hd Hn Hh Hfr] Hl Hin. constructor; try done.
  - by destruct Ho.
  - intros m q Hne Hq. destruct (Hot m q Hne Hq) as (v & Hv & ?). exists v. by destruct Hv.
  - intros q Hq. cbn. rewrite Hin by done. by apply Hd.
Qed.

Lemma working_add_count s n p u z : working s n p u → working (add_count z s) n p u.
Proof.
  intros [Ho Hot Hf Hd Hn Hh Hfr]. constructor; try done.
  - by destruct Ho.
  - intros m q Hne Hq. destruct (Hot m q Hne Hq) as (v & Hv & ?). exists v. by destruct Hv.
Qed.

(** ** Ends of the work *)

Lemma put_future_owner h s n p u : owner s n p u → owner (put_future h s) n p u.
Proof. by intros []. Qed.

Lemma end_work s n p u :
  working s n p u → u_mail u ≠ [] → (p ∈ sFuture s ↔ u_due u = false) →
  (p ∈ sDue s ↔ u_due u = true) → good (userLess s) (futureHeap s) → sched_ok s.
Proof.
  intros [Ho Hot Hf Hd Hn _ Hfr] Hne Hpf Hpd Hg. constructor; try done.
  - intros m q Hq. destruct (decide (m = n)) as [->|Hm]; [|by apply Hot].
    exists u. split; [|done]. rewrite (ow_users _ _ _ _ Ho) in Hq. by simplify_eq.
  - intros q. destruct (decide (q = p)) as [->|Hq]; [|by apply Hf]. by rewrite Hpf, waits_owner.
  - intros q. destruct (decide (q = p)) as [->|Hq]; [|by apply Hd]. by rewrite Hpd, waits_owner.
Qed.

Lemma working_good s n p u :
  working s n p u → p ∉ sFuture s → good (userLess s) (futureHeap s).
Proof.
  intros [_ _ _ _ _ (less & _ & _ & Hl & Hh) _] Hp. apply (good_less less); [|done].
  intros a b Ha Hb. apply Hl; by intros ->.
Qed.

Lemma futureHeap_put h s : futureHeap (put_future h s) = h.
Proof. by destruct h. Qed.

Lemma userLess_put_future h s : userLess (put_future h s) = userLess s.
Proof. done. Qed.

Lemma end_push s n p u :
  working s n p u → u_mail u ≠ [] → u_due u = false → p ∉ sFuture s → p ∉ sDue s →
  sched_ok (pushFuture p s).
Proof.
  intros Hw Hne Hdue Hpf Hpd. pose proof (working_good _ _ _ _ Hw Hpf) as Hg.
  destruct (Push_good (userLess s) (userLess_asym s) (userLess_trans s) p (futureHeap s) Hg Hpf)
    as (Hg' & Hperm & _).
  assert (Hin : ∀ q, q ∈ sFuture (pushFuture p s) ↔ q = p ∨ q ∈ sFuture s).
  { intros q. unfold pushFuture. cbn. by rewrite Hperm, elem_of_cons. }
  assert (Hw' : working (pushFuture p s) n p u).
  { destruct Hw as [Ho Hot Hf Hd Hn _ Hfr]. constructor; try done.
    - by apply put_future_owner.
    - intros m q Hm Hq. destruct (Hot m q Hm Hq) as (v & Hv & ?). exists v.
      split; [by apply put_future_owner|done].
    - intros q Hq. rewrite Hin. unfold waits. cbn. rewrite <-(Hf q Hq). naive_solver.
    - exists (userLess s). split_and!; [apply userLess_asym|apply userLess_trans|done|].
      unfold pushFuture. by rewrite futureHeap_put. }
  apply (end_work _ n p u Hw' Hne).
  - rewrite Hin, Hdue. naive_solver.
  - rewrite Hdue. split; [|done]. intros H. by apply Hpd in H.
  - unfold pushFuture. by rewrite futureHeap_put.
Qed.

(** [p]'s place in the heap of owners. *)
Lemma working_index s n p u :
  working s n p u → p ∈ sFuture s →
  ∃ i, sUIdx s !! p = Some (Z.of_nat i) ∧ sFuture s !! i = Some p ∧
    almost (userLess s) i (length (sFuture s)) (futureHeap s) ∧ indexed (futureHeap s).
Proof.
  intros [_ _ _ _ _ (less & _ & Ht & Hl & Hh) _] Hp. apply list_elem_of_lookup in Hp as [i Hi].
  exists i. split_and!; [apply (ix_at _ (gd_indexed _ _ Hh)), Hi|done| |apply Hh].
  apply (good_almost less (userLess s) (futureHeap s) i p); [done| |done..].
  intros a b _ _ Ha Hb. by apply Hl.
Qed.

Lemma end_fix s n p u :
  working s n p u → u_mail u ≠ [] → u_due u = false → p ∈ sFuture s → p ∉ sDue s →
  sched_ok (fixFuture p s).
Proof.
  intros Hw Hne Hdue Hpf Hpd. destruct (working_index _ _ _ _ Hw Hpf) as (i & Hix & Hi & Ha & Hid).
  unfold fixFuture. rewrite Hix, Nat2Z.id. pose proof (lookup_lt_Some _ _ _ Hi).
  destruct (Fix_good (userLess s) (userLess_asym s) (userLess_trans s) i (futureHeap s))
    as [Hg Hr]; [done..|]. set (hp := heap_Fix (userLess s) i (futureHeap s)) in *.
  assert (Hin : ∀ q, q ∈ arr hp ↔ q ∈ sFuture s) by (intros q; by rewrite (ro_perm _ _ Hr)).
  assert (Hw' : working (put_future hp s) n p u).
  { destruct Hw as [Ho Hot Hf Hd Hn _ Hfr]. constructor; try done.
    - by apply put_future_owner.
    - intros m q Hm Hq. destruct (Hot m q Hm Hq) as (v & Hv & ?). exists v.
      split; [by apply put_future_owner|done].
    - intros q Hq. cbn. rewrite Hin. by apply Hf.
    - exists (userLess s). split_and!; [apply userLess_asym|apply userLess_trans|done|].
      by rewrite futureHeap_put. }
  apply (end_work _ n p u Hw' Hne).
  - cbn. rewrite Hin, Hdue. done.
  - cbn. rewrite Hdue. split; [|done]. intros Hx. by apply Hpd in Hx.
  - by rewrite futureHeap_put.
Qed.

(** The owner leaves the heap of owners. *)
Lemma working_takes s n p u r :
  working s n p u → takes (userLess s) p (futureHeap s) r →
  working (put_future r.2 s) n p u ∧ p ∉ sFuture (put_future r.2 s).
Proof.
  intros Hw (_ & Hg & Hperm & _). set (hp := r.2) in *.
  assert (Hnd : NoDup (p :: arr hp)).
  { rewrite <-Hperm. destruct (wk_heap _ _ _ _ Hw) as (less & _ & _ & _ & Hh).
    by apply (indexed_NoDup (futureHeap s)), (gd_indexed less). }
  apply NoDup_cons in Hnd as [Hni _].
  assert (Hin : ∀ q, q ≠ p → q ∈ arr hp ↔ q ∈ sFuture s).
  { intros q Hq. change (sFuture s) with (arr (futureHeap s)). rewrite Hperm, elem_of_cons.
    naive_solver. }
  split; [|done]. destruct Hw as [Ho Hot Hf Hd Hn _ Hfr]. constructor; try done.
  - by apply put_future_owner.
  - intros m q Hm Hq. destruct (Hot m q Hm Hq) as (v & Hv & ?). exists v.
    split; [by apply put_future_owner|done].
  - intros q Hq. cbn. rewrite Hin by done. by apply Hf.
  - exists (userLess s). split_and!; [apply userLess_asym|apply userLess_trans|done|].
    by rewrite futureHeap_put.
Qed.

Lemma working_remove_future s n p u :
  working s n p u → p ∈ sFuture s →
  ∃ i, sUIdx s !! p = Some (Z.of_nat i) ∧
    let s' := put_future (heap_Remove (userLess s) i (futureHeap s)).2 s in
    working s' n p u ∧ p ∉ sFuture s'.
Proof.
  intros Hw Hpf. destruct (working_index _ _ _ _ Hw Hpf) as (i & Hix & Hi & Ha & Hid).
  exists i. split; [done|]. apply working_takes; [done|].
  by apply (Remove_takes (userLess s) (userLess_asym s) (userLess_trans s)).
Qed.

Lemma end_drop s n p u :
  working s n p u → p ∉ sFuture s → p ∉ sDue s → sched_ok (drop_user n s).
Proof.
  intros Hw Hpf Hpd. pose proof (working_good _ _ _ _ Hw Hpf) as Hg.
  destruct Hw as [Ho Hot Hf Hd Hn _ Hfr].
  assert (Hpn : ∀ m q, m ≠ n → sUsers s !! m = Some q → q ≠ p).
  { intros m q Hm Hq ->. destruct (Hot m p Hm Hq) as (v & Hv & _).
    by destruct (owner_inj _ _ _ _ _ _ Hv Ho). }
  assert (Hwt : ∀ b q, waits b (drop_user n s) q ↔ q ≠ p ∧ waits b s q).
  { intros b q. unfold waits. cbn. split.
    - intros (m & v & [Hm Hv]%lookup_delete_Some & Hrest). split; [by apply (Hpn m)|]. eauto.
    - intros (Hq & m & v & Hm & Hv & Hb). exists m, v. split_and!; [|done|done].
      rewrite lookup_delete_ne; [done|]. intros <-.
      rewrite (ow_users _ _ _ _ Ho) in Hm. by injection Hm as <-. }
  constructor; try done.
  - intros m q Hdel. cbn in Hdel. apply lookup_delete_Some in Hdel as [Hm Hq].
    destruct (Hot m q) as (v & Hv & Hvne); [done..|].
    exists v. split; [|done]. destruct Hv. constructor; try done. cbn. by rewrite lookup_delete_ne.
  - intros q. rewrite Hwt. destruct (decide (q = p)) as [->|Hq]; [naive_solver|].
    cbn. rewrite (Hf q Hq). naive_solver.
  - intros q. rewrite Hwt. destruct (decide (q = p)) as [->|Hq]; [naive_solver|].
    cbn. rewrite (Hd q Hq). naive_solver.
Qed.

(** ** Messages of an owner *)

Definition mail_of (s : schedule) (n : string) : list nat :=
  match sUsers s !! n with
  | Some p => from_option u_mail [] (sObj s !! p)
  | None => []
  end.

Definition is_held (s : schedule) (x : nat * Envelope) : Prop := x.1 ∈ mail_of s (Username x.2).

#[export] Instance is_held_dec s x : Decision (is_held s x).
Proof. unfold is_held. apply _. Defined.

(** The envelopes in the schedule. *)
Definition held_of (s : schedule) : gmap nat Envelope := filter (is_held s) (sEnv s).

Lemma held_of_Some s h e :
  held_of s !! h = Some e ↔ sEnv s !! h = Some e ∧ h ∈ mail_of s (Username e).
Proof. unfold held_of. by rewrite map_lookup_filter_Some. Qed.

Lemma mail_of_owner s n p u : owner s n p u → mail_of s n = u_mail u.
Proof. intros []. unfold mail_of. by rewrite ow_users0, ow_obj0. Qed.

Lemma mail_of_known s n h :
  sched_ok s → h ∈ mail_of s n → ∃ e, sEnv s !! h = Some e ∧ Username e = n.
Proof.
  intros Hs Hh. unfold mail_of in Hh. destruct (sUsers s !! n) as [p|] eqn:Hp.
  - destruct (so_owner _ Hs n p Hp) as (u & Hu & _). rewrite (ow_obj _ _ _ _ Hu) in Hh.
    by apply (ow_mail _ _ _ _ Hu).
  - by apply elem_of_nil in Hh.
Qed.

(** A handle is held exactly when its owner has it. *)
Lemma held_of_mail s h e :
  sched_ok s → held_of s !! h = Some e ↔ h ∈ mail_of s (Username e) ∧ sEnv s !! h = Some e.
Proof. intros _. rewrite held_of_Some. naive_solver. Qed.

Lemma mail_of_put_mail s n p u hp m :
  working s n p u →
  mail_of (put_mail p u hp s) m = if decide (m = n) then arr hp else mail_of s m.
Proof.
  intros Hw. pose proof (wk_owner _ _ _ _ Hw) as Ho. unfold mail_of. cbn.
  destruct (decide (m = n)) as [->|Hm]; [by rewrite (ow_users _ _ _ _ Ho), lookup_insert_eq|].
  destruct (sUsers s !! m) as [q|] eqn:Hq; [|done]. rewrite lookup_insert_ne; [done|].
  intros <-. destruct (wk_others _ _ _ _ Hw m p Hm Hq) as (v & Hv & _).
  by destruct (owner_inj _ _ _ _ _ _ Hv Ho).
Qed.

Lemma mail_of_set_due s n p u b m :
  owner s n p u → mail_of (put_user p (set_due b u) s) m = mail_of s m.
Proof.
  intros Ho. unfold mail_of. cbn. destruct (sUsers s !! m) as [q|]; [|done].
  destruct (decide (q = p)) as [->|Hq]; [|by rewrite lookup_insert_ne].
  by rewrite lookup_insert_eq, (ow_obj _ _ _ _ Ho).
Qed.

Lemma mail_of_drop s n p u m :
  owner s n p u → u_mail u = [] → mail_of (drop_user n s) m = mail_of s m.
Proof.
  intros Ho Hu. destruct (decide (m = n)) as [->|Hm].
  - rewrite (mail_of_owner s n p u Ho), Hu. unfold mail_of. cbn. by rewrite lookup_delete_eq.
  - unfold mail_of. cbn. by rewrite lookup_delete_ne.
Qed.

Lemma mail_of_pushFuture p s m : mail_of (pushFuture p s) m = mail_of s m.
Proof. done. Qed.

Lemma mail_of_fixFuture p s m :
  mail_of (fixFuture p s) m = mail_of s m ∧ sEnv (fixFuture p s) = sEnv s.
Proof. unfold fixFuture. by destruct (sUIdx s !! p). Qed.

(** ** Push *)

Lemma allocate_ok e s :
  sched_ok s →
  let '(h, s') := allocate e s in
  sched_ok s' ∧ h = sNext s ∧ sEnv s !! h = None ∧ sEnv s' = <[h := e]> (sEnv s) ∧
  ∀ m, mail_of s' m = mail_of s m.
Proof.
  intros Hs. unfold allocate. pose proof Hs as [Ho Hf Hd Hn Hh Hfr].
  destruct (Hfr (sNext s)) as [Hnone _]; [done|].
  set (s' := mkSchedule _ _ _ _ _ _ _ _ _).
  assert (Henv : ∀ x, is_Some (sEnv s !! x) → sEnv s' !! x = sEnv s !! x ∧ sIdx s' !! x = sIdx s !! x).
  { intros x [y Hx]. cbn. rewrite !lookup_insert_ne; [done|congruence..]. }
  assert (Hown : ∀ n p u, owner s n p u → owner s' n p u).
  { intros n p u [O1 O2 O3 O4 O5].
    assert (Hx : ∀ x, x ∈ u_mail u → is_Some (sEnv s !! x)).
    { intros x Hx. destruct (O5 x Hx) as (y & -> & _). eauto. }
    constructor; try done.
    - apply (good_frame _ _ (sIdx s)); [intros x Hin; by apply Henv, Hx|].
      apply (good_less (envLess s)); [|done]. cbn. intros a b Ha Hb. unfold envLess, envKey.
      by rewrite !(proj1 (Henv _ (Hx _ Ha))), !(proj1 (Henv _ (Hx _ Hb))).
    - intros x Hin. destruct (O5 x Hin) as (y & Hy & Hu). exists y.
      split; [|done]. rewrite (proj1 (Henv x (Hx x Hin))). done. }
  split_and!; [|done|done|done|done]. constructor; try done.
  - intros n p Hp. destruct (Ho n p Hp) as (u & Hu & Hne). eauto.
  - apply (good_less (userLess s)); [|done]. cbn. intros a b Ha Hb.
    assert (Hk : ∀ q, q ∈ sFuture s → userKey s' q = userKey s q).
    { intros q (n & u & Hq & Hu & _)%Hf. unfold userKey, first_attempt. cbn. rewrite Hu. cbn.
      destruct (Ho n q Hq) as (v & [O1 O2 O3 O4 O5] & _).
      assert (v = u) as -> by congruence.
      destruct (u_mail u) as [|x l] eqn:Hm; [done|]. cbn.
      destruct (O5 x) as (y & Hy & _); [left|].
      pose proof (proj1 (Henv x ltac:(eauto))) as Hx. cbn in Hx. by rewrite Hx. }
    unfold userLess. by rewrite !Hk.
  - cbn. intros k Hk. rewrite lookup_insert_ne by lia. apply Hfr. lia.
Qed.

(** The owner the message goes to. *)
Lemma findUser_work n s :
  sched_ok s →
  let '(p, s') := findUser n s in
  ∃ u, working s' n p u ∧ sEnv s' = sEnv s ∧ (∀ m, mail_of s' m = mail_of s m) ∧
    u_mail u = mail_of s n ∧
    (sUsers s !! n = None ∧ u_mail u = [] ∧ u_due u = false ∧ p ∉ sFuture s' ∧ p ∉ sDue s' ∨
     s' = s ∧ u_mail u ≠ [] ∧ (p ∈ sFuture s ↔ u_due u = false) ∧ (p ∈ sDue s ↔ u_due u = true)).
Proof.
  intros Hs. unfold findUser. destruct (sUsers s !! n) as [p|] eqn:Hp.
  { destruct (begin_work s n p Hs Hp) as (u & Hw & Hne & Hf & Hd). exists u.
    rewrite (mail_of_owner s n p u) by apply Hw. split_and!; auto. }
  pose proof Hs as [Ho Hf Hd Hn Hh Hfr]. destruct (Hfr (sNext s)) as [_ Hnone]; [done|].
  set (p := sNext s) in *. set (u := mkUser n [] false).
  set (s' := mkSchedule _ _ _ _ _ _ _ _ _).
  assert (Hpn : ∀ m q, sUsers s !! m = Some q → q ≠ p ∧ m ≠ n).
  { intros m q Hq. split; [|congruence]. intros ->.
    destruct (Ho m p Hq) as (v & Hv & _). pose proof (ow_obj _ _ _ _ Hv). congruence. }
  assert (Hpw : ∀ b, ¬ waits b s p).
  { intros b (m & v & Hm & Hv & _). congruence. }
  assert (Hwt : ∀ b q, q ≠ p → waits b s' q ↔ waits b s q).
  { intros b q Hq. unfold waits. cbn. rewrite lookup_insert_ne by done. split.
    - intros (m & v & Hm & Hv & Hb). exists m, v. split_and!; [|done|done].
      destruct (decide (m = n)) as [->|Hmn]; [|by rewrite lookup_insert_ne in Hm].
      rewrite lookup_insert_eq in Hm. by injection Hm as <-.
    - intros (m & v & Hm & Hv & Hb). exists m, v. split_and!; [|done|done].
      rewrite lookup_insert_ne; [done|]. intros <-. congruence. }
  exists u. split_and!; [|done| | |left; split_and!; try done].
  - constructor; try done.
    + constructor; cbn; [by rewrite lookup_insert_eq..|done| |intros h Hh'; by apply elem_of_nil in Hh'].
      constructor; [constructor; cbn; intros i x Hx; by rewrite lookup_nil in Hx|].
      intros k Hk. cbn in Hk. lia.
    + intros m q Hm Hq. cbn in Hq. rewrite lookup_insert_ne in Hq by done.
      destruct (Ho m q Hq) as (v & Hv & Hvne). exists v. split; [|done].
      destruct (Hpn m q Hq) as [Hqp _]. destruct Hv. constructor; try done; cbn.
      * by rewrite lookup_insert_ne.
      * by rewrite lookup_insert_ne.
    + intros q Hq. rewrite (Hwt false q Hq). apply Hf.
    + intros q Hq. rewrite (Hwt true q Hq). apply Hd.
    + exists (userLess s). split_and!; [apply userLess_asym|apply userLess_trans| |].
      * intros a b Ha Hb. unfold userLess.
        rewrite !(userKey_eq s s') by (done || (cbn; by rewrite lookup_insert_ne)). done.
      * apply (good_frame _ _ (sUIdx s)); [|done]. intros x Hx. cbn. apply lookup_insert_ne.
        intros <-. apply Hf in Hx. by apply Hpw in Hx.
    + cbn. intros k Hk. rewrite lookup_insert_ne by lia. apply Hfr. lia.
  - intros m. unfold mail_of. cbn. destruct (decide (m = n)) as [->|Hm].
    + by rewrite lookup_insert_eq, Hp, lookup_insert_eq.
    + rewrite lookup_insert_ne by done. destruct (sUsers s !! m) as [q|] eqn:Hq; [|done].
      destruct (Hpn m q Hq). by rewrite lookup_insert_ne.
  - unfold mail_of. by rewrite Hp.
  - cbn. intros Hx. apply Hf in Hx. by apply Hpw in Hx.
  - cbn. intros Hx. apply Hd in Hx. by apply Hpw in Hx.
Qed.

Lemma userLess_head s p u hp a b :
  sObj s !! p = Some u → head (arr hp) = head (u_mail u) →
  userLess (put_mail p u hp s) a b = userLess s a b.
Proof.
  intros Hu Hh. assert (Hk : ∀ q, userKey (put_mail p u hp s) q = userKey s q).
  { intros q. destruct (decide (q = p)) as [->|Hq].
    - unfold userKey, first_attempt. cbn. rewrite lookup_insert_eq, Hu. cbn. by rewrite Hh.
    - apply userKey_eq; [|done]. cbn. by rewrite lookup_insert_ne. }
  unfold userLess. by rewrite !Hk.
Qed.

Lemma pushMail_ok s n p u h e :
  working s n p u → sEnv s !! h = Some e → Username e = n → h ∉ u_mail u →
  (p ∈ sFuture s ↔ u_mail u ≠ [] ∧ u_due u = false) → (p ∈ sDue s ↔ u_due u = true) →
  (u_mail u ≠ [] → sched_ok s) →
  sched_ok (pushMail p h u s) ∧ sEnv (pushMail p h u s) = sEnv s ∧
  ∀ m, mail_of (pushMail p h u s) m ≡ₚ if decide (m = n) then h :: u_mail u else mail_of s m.
Proof.
  intros Hw He Hen Hni Hf Hd Hs. pose proof (wk_owner _ _ _ _ Hw) as Ho.
  destruct (Push_good (envLess s) (envLess_asym s) (envLess_trans s) h (mailHeap s u)
    (ow_heap _ _ _ _ Ho) Hni) as (Hg & Hperm & Hfr).
  set (hp := heap_Push (envLess s) h (mailHeap s u)) in *. cbn [arr mailHeap idx] in Hperm, Hfr.
  assert (Hw1 : working (add_count 1 (put_mail p u hp s)) n p (set_mail (arr hp) u)).
  { apply working_add_count, working_put_mail; [done|done| |].
    - intros x. rewrite Hperm. intros [->|Hx]%elem_of_cons; [eauto|by apply (ow_mail _ _ _ _ Ho)].
    - intros x Hx1 Hx2. apply Hfr. by rewrite <-Hperm. }
  assert (Hne : arr hp ≠ []).
  { intros Hnil. rewrite Hnil in Hperm. by apply Permutation_nil_cons in Hperm. }
  assert (Hmail : ∀ m, mail_of (add_count 1 (put_mail p u hp s)) m ≡ₚ
            if decide (m = n) then h :: u_mail u else mail_of s m).
  { intros m. change (mail_of (add_count 1 ?x) m) with (mail_of x m).
    rewrite (mail_of_put_mail s n p u hp m Hw). by destruct (decide (m = n)). }
  unfold pushMail. fold hp. set (s1 := add_count 1 (put_mail p u hp s)) in *.
  destruct (u_due u) eqn:Hdue.
  { split_and!; [|done|done].
    assert (Hpf : p ∉ sFuture s) by (rewrite Hf; naive_solver).
    apply (end_work _ _ _ _ Hw1); [done| | |by apply (working_good _ _ _ _ Hw1)]; cbn; rewrite Hdue.
    - split; [intros Hx; by apply Hpf in Hx|done].
    - by rewrite Hd. }
  assert (Hpd : p ∉ sDue s1) by (change (p ∉ sDue s); rewrite Hd; done).
  destruct (bool_decide (u_mail u = [])) eqn:Hold; zbool.
  { split_and!; [|done|done]. apply (end_push _ _ _ _ Hw1); [done|done| |done].
    change (p ∉ sFuture s). rewrite Hf. naive_solver. }
  assert (Hpf : p ∈ sFuture s1) by (change (p ∈ sFuture s); by apply Hf).
  destruct (bool_decide (sIdx s1 !! h = Some 0%Z)) eqn:Hix; zbool.
  { destruct (mail_of_fixFuture p s1 n) as [_ ->].
    split_and!; [by apply (end_fix _ _ _ _ Hw1)|done|].
    intros m. by rewrite (proj1 (mail_of_fixFuture p s1 m)). }
  split_and!; [|done|done]. apply (end_work _ _ _ _ Hw1); [done|by cbn; rewrite Hdue| |].
  - cbn. rewrite Hdue. split; [intros Hx; by apply Hpd in Hx|done].
  - apply (good_less (userLess s)); [|apply Hs, Hold]. intros a b _ _.
    change (userLess s1 a b) with (userLess (put_mail p u hp s) a b).
    apply userLess_head; [apply Ho|]. rewrite !head_lookup.
    destruct (u_mail u !! 0%nat) as [x|] eqn:Hx; [|by destruct (u_mail u)].
    destruct (Push_root (envLess s) h (mailHeap s u) x) as [Hr|Hr];
      [apply Ho|done|done| |by fold hp in Hr].
    destruct Hix. apply (ix_at _ (gd_indexed _ _ Hg) 0). done.
Qed.

Lemma schedule_Push_ok e s :
  sched_ok s →
  let '(h, s') := schedule_Push e s in
  sched_ok s' ∧ sEnv s !! h = None ∧ sEnv s' = <[h := e]> (sEnv s) ∧
  ∀ m, mail_of s' m ≡ₚ if decide (m = Username e) then h :: mail_of s m else mail_of s m.
Proof.
  intros Hs. unfold schedule_Push. pose proof (allocate_ok e s Hs) as Ha.
  destruct (allocate e s) as [h s1]. destruct Ha as (Hs1 & _ & Hnone & Henv & Hm1).
  pose proof (findUser_work (Username e) s1 Hs1) as Hfu.
  destruct (findUser (Username e) s1) as [p s2].
  destruct Hfu as (u & Hw & Henv2 & Hm2 & Hmu & Hcase).
  pose proof (wk_owner _ _ _ _ Hw) as Ho. rewrite (ow_obj _ _ _ _ Ho).
  assert (Hni : h ∉ u_mail u).
  { rewrite Hmu, Hm1. intros Hx. destruct (mail_of_known s _ _ Hs Hx) as (y & Hy & _). congruence. }
  destruct (pushMail_ok s2 (Username e) p u h e) as (Hok & He & Hm); try done.
  - by rewrite Henv2, Henv, lookup_insert_eq.
  - destruct Hcase as [(_ & -> & -> & Hf & Hd)|(-> & Hne & Hf & Hd)]; [|naive_solver].
    split; [intros Hx; by apply Hf in Hx|naive_solver].
  - destruct Hcase as [(_ & _ & -> & Hf & Hd)|(-> & Hne & Hf & Hd)]; [|done].
    split; [intros Hx; by apply Hd in Hx|done].
  - intros Hne. destruct Hcase as [(_ & Hnil & _)|(-> & _)]; [done|done].
  - split_and!; [done|done|by rewrite He, Henv2, Henv|]. intros m. rewrite Hm.
    destruct (decide (m = Username e)) as [->|Hne]; [by rewrite Hmu, Hm1|by rewrite Hm2, Hm1].
Qed.

(** ** PopDue *)

Lemma owner_first s n p u :
  owner s n p u → u_mail u ≠ [] →
  ∃ h l e, u_mail u = h :: l ∧ (sEnv s !! h = Some e ∧ Username e = n) ∧
    first_attempt s p = Some (NextAttempt e).
Proof.
  intros Ho Hne. destruct (u_mail u) as [|h l] eqn:Hm; [done|].
  destruct (ow_mail _ _ _ _ Ho h) as (e & He & Hen); [rewrite Hm; left|].
  exists h, l, e. split_and!; [done|done|done|]. unfold first_attempt.
  rewrite (ow_obj _ _ _ _ Ho). cbn. rewrite Hm. cbn. by rewrite He.
Qed.

(** The first message of an owner is its earliest. *)
Lemma first_earliest s n p u h e t :
  owner s n p u → h ∈ u_mail u → sEnv s !! h = Some e → first_attempt s p = Some t →
  (t ≤ NextAttempt e)%Z.
Proof.
  intros Ho Hh He Ht. destruct (owner_first s n p u Ho) as (h0 & l & e0 & Hm & [He0 _] & Hf0).
  { intros Hnil. rewrite Hnil in Hh. by apply elem_of_nil in Hh. }
  rewrite Hf0 in Ht. injection Ht as <-. apply list_elem_of_lookup in Hh as [i Hi].
  pose proof (root_least (envLess s) (envLess_asym s) (envLess_trans s) (mailHeap s u) i h0 h
    (ow_heap _ _ _ _ Ho)) as Hl. cbn in Hl. rewrite Hm in Hl, Hi. specialize (Hl eq_refl Hi).
  apply before_first in Hl. unfold envKey in Hl. by rewrite He, He0 in Hl.
Qed.

(** So is the first owner among those waiting. *)
Lemma future_earliest s p0 l p t :
  sched_ok s → sFuture s = p0 :: l → p ∈ sFuture s → first_attempt s p = Some t →
  ∃ t0, first_attempt s p0 = Some t0 ∧ (t0 ≤ t)%Z.
Proof.
  intros Hs Hf Hp Ht.
  assert (Hp0 : p0 ∈ sFuture s) by (rewrite Hf; left).
  apply (so_future _ Hs) in Hp0 as (n & u & Hn & Hu & _).
  destruct (so_owner _ Hs n p0 Hn) as (v & Hv & Hne).
  destruct (owner_first s n p0 v Hv Hne) as (h & l' & e & _ & _ & Hfa).
  exists (NextAttempt e). split; [done|]. apply list_elem_of_lookup in Hp as [i Hi].
  pose proof (root_least (userLess s) (userLess_asym s) (userLess_trans s) (futureHeap s) i p0 p
    (so_heap _ Hs)) as Hl. cbn in Hl. rewrite Hf in Hl, Hi. specialize (Hl eq_refl Hi).
  apply before_first in Hl. unfold userKey in Hl. by rewrite Hfa, Ht in Hl.
Qed.

(** Waiting owners whose first message is due move to the rotation. *)
Record promoted (now : Z) (s s' : schedule) : Prop := {
  pm_ok : sched_ok s';
  pm_env : sEnv s' = sEnv s;
  pm_mail : ∀ m, mail_of s' m = mail_of s m;
  pm_future : ∀ p t, p ∈ sFuture s' → first_attempt s' p = Some t → (now < t)%Z;
  pm_first : ∀ p, first_attempt s' p = first_attempt s p;
  pm_due : ∃ l, sDue s' = sDue s ++ l ∧
    ∀ p, p ∈ l → ∃ t, first_attempt s p = Some t ∧ (t ≤ now)%Z
}.

Definition promote1 (p : nat) (u : userQueue) (h : heap) (s : schedule) : schedule :=
  put_due (sDue s ++ [p]) (put_user p (set_due true u) (put_future h s)).

Lemma promote1_ok s n p u l :
  sched_ok s → owner s n p u → sFuture s = p :: l →
  let r := heap_Pop (userLess s) (futureHeap s) in
  let s' := promote1 p u r.2 s in
  r.1 = Some p ∧ sched_ok s' ∧ (∀ m, mail_of s' m = mail_of s m) ∧
  (∀ q, first_attempt s' q = first_attempt s q) ∧ length (sFuture s) = S (length (sFuture s')).
Proof.
  intros Hs Ho Hfu r s'.
  assert (Ht : takes (userLess s) p (futureHeap s) r).
  { apply (Pop_good (userLess s) (userLess_asym s) (userLess_trans s)); [apply Hs|].
    cbn. by rewrite Hfu. }
  pose proof Ht as (Hr & _ & Hperm & _).
  destruct (begin_work s n p Hs (ow_users _ _ _ _ Ho)) as (u' & Hw & Hne & Hf & Hd).
  destruct (owner_inj _ _ _ _ _ _ Ho (wk_owner _ _ _ _ Hw)) as [_ <-].
  assert (Hdue : u_due u = false) by (apply Hf; rewrite Hfu; left).
  assert (Hpd : p ∉ sDue s) by (rewrite Hd, Hdue; done).
  destruct (working_takes s n p u r Hw Ht) as [Hw1 Hp1].
  pose proof (working_set_due _ _ _ _ true Hw1) as Hw2.
  assert (Hw3 : working s' n p (set_due true u)).
  { apply (working_put_due _ _ _ _ (sDue s ++ [p])) in Hw2; [done| |].
    - apply NoDup_app. split_and!; [apply Hs| |apply NoDup_singleton].
      intros x Hx ->%list_elem_of_singleton. done.
    - intros q Hq. cbn. rewrite elem_of_app, list_elem_of_singleton. naive_solver. }
  split_and!; [done| | | |].
  - apply (end_work _ _ _ _ Hw3); [done| | |by apply (working_good _ _ _ _ Hw3)].
    + cbn. split; [intros Hx; by apply Hp1 in Hx|done].
    + cbn. rewrite elem_of_app, list_elem_of_singleton. naive_solver.
  - intros m. change (mail_of s' m) with (mail_of (put_user p (set_due true u) (put_future r.2 s)) m).
    rewrite (mail_of_set_due _ n) by (by apply put_future_owner). done.
  - intros q. destruct (decide (q = p)) as [->|Hq].
    + unfold first_attempt. cbn. by rewrite lookup_insert_eq, (ow_obj _ _ _ _ Ho).
    + apply first_attempt_eq; [|done]. cbn. by rewrite lookup_insert_ne.
  - change (sFuture s) with (arr (futureHeap s)). by rewrite Hperm.
Qed.

Lemma promote_ok fuel now s :
  sched_ok s → (length (sFuture s) ≤ fuel)%nat → promoted now s (promote fuel now s).
Proof.
  revert s. induction fuel as [|fuel IH]; intros s Hs Hl.
  { assert (sFuture s = []) as Hnil by (destruct (sFuture s); [done|cbn in Hl; lia]).
    constructor; try done; [|by exists []; rewrite app_nil_r; set_solver].
    cbn. rewrite Hnil. intros p t Hp. by apply elem_of_nil in Hp. }
  cbn [promote]. destruct (sFuture s) as [|p l] eqn:Hfu.
  { constructor; try done; [|by exists []; rewrite app_nil_r; set_solver].
    rewrite Hfu. intros p t Hp. by apply elem_of_nil in Hp. }
  assert (Hp : p ∈ sFuture s) by (rewrite Hfu; left).
  pose proof Hp as (n & u0 & Hn & Hu0 & Hdu)%(so_future _ Hs).
  destruct (so_owner _ Hs n p Hn) as (u & Ho & Hne).
  destruct (owner_first s n p u Ho Hne) as (h & l' & e & _ & _ & Hfa). rewrite Hfa.
  destruct (now <? NextAttempt e)%Z eqn:Hlt; zbool.
  { constructor; try done; [|by exists []; rewrite app_nil_r; set_solver].
    intros q t Hq Ht. destruct (future_earliest s p l q t Hs Hfu Hq Ht) as (t0 & Ht0 & Hle).
    rewrite Hfa in Ht0. injection Ht0 as <-. lia. }
  destruct (promote1_ok s n p u l Hs Ho Hfu) as (Hr & Hok & Hm & Hfirst & Hlen).
  destruct (heap_Pop (userLess s) (futureHeap s)) as [o hp]. cbn [fst snd] in *. subst o.
  change (sObj (put_future hp s)) with (sObj s). rewrite (ow_obj _ _ _ _ Ho).
  change (promoted now s (promote fuel now (promote1 p u hp s))).
  destruct (IH (promote1 p u hp s) Hok) as [P1 P2 P3 P4 P5 (k & P6 & P7)]; [rewrite Hfu in Hlen; lia|].
  constructor; [done|done| |done| |].
  - intros m. by rewrite P3.
  - intros q. by rewrite P5.
  - exists (p :: k). split; [rewrite P6; cbn; by rewrite <-app_assoc|].
    intros q [->|Hq]%elem_of_cons; [by eauto|]. destruct (P7 q Hq) as (t & Ht & Hle).
    exists t. by rewrite <-Hfirst.
Qed.

(** What taking a message out of an owner's heap gives. *)
Lemma working_take_mail s n p u r h :
  working s n p u → takes (envLess s) h (mailHeap s u) r →
  let s1 := add_count (-1) (put_mail p u r.2 s) in
  working s1 n p (set_mail (arr r.2) u) ∧ u_mail u ≡ₚ h :: arr r.2 ∧
  ∀ m, mail_of s1 m = if decide (m = n) then arr r.2 else mail_of s m.
Proof.
  intros Hw (_ & Hg & Hperm & _ & Hfr). cbn zeta. pose proof (wk_owner _ _ _ _ Hw) as Ho.
  split_and!.
  - apply working_add_count, working_put_mail; [done|done| |].
    + intros x Hx. apply (ow_mail _ _ _ _ Ho). change (x ∈ arr (mailHeap s u)). rewrite Hperm. by right.
    + intros x Hx _. by apply Hfr.
  - done.
  - intros m. by apply mail_of_put_mail.
Qed.

Lemma sched_due_owner s p l :
  sched_ok s → sDue s = p :: l →
  ∃ n u, working s n p u ∧ u_mail u ≠ [] ∧ u_due u = true ∧ p ∉ sFuture s ∧ p ∉ l ∧ NoDup l.
Proof.
  intros Hs Hd. assert (Hp : p ∈ sDue s) by (rewrite Hd; left).
  apply (so_due _ Hs) in Hp as (n & u0 & Hn & _).
  destruct (begin_work s n p Hs Hn) as (u & Hw & Hne & Hf & Hdu).
  pose proof (so_nodup _ Hs) as Hnd. rewrite Hd in Hnd. apply NoDup_cons in Hnd as [Hni Hnd].
  assert (u_due u = true) as Hdue by (apply Hdu; rewrite Hd; left).
  exists n, u. split_and!; try done. rewrite Hf, Hdue. done.
Qed.

(** The owner at the head of the rotation is served; it goes to the back when
    its next message is due, and waits otherwise. *)
Definition serve (now : Z) (s : schedule) : option nat * schedule :=
  match sDue s with
  | [] => (None, s)
  | p :: rest =>
      let s := put_due rest s in
      match sObj s !! p with
      | None => (None, s)
      | Some u =>
          match heap_Pop (envLess s) (mailHeap s u) with
          | (None, _) => (None, s)
          | (Some e, h) =>
              let s := add_count (-1) (put_mail p u h s) in
              let u := set_mail (arr h) u in
              (Some e,
               if bool_decide (u_mail u = []) then put_user p (set_due false u) (drop_user (u_name u) s)
               else if is_due s p now then put_due (sDue s ++ [p]) s
               else pushFuture p (put_user p (set_due false u) s))
          end
      end
  end.

Lemma PopDue_serve now s :
  schedule_PopDue now s = serve now (promote (length (sFuture s)) now s).
Proof. done. Qed.

Record served (now : Z) (s : schedule) (n : string) (p : nat) (l : list nat) (h : nat)
    (s' : schedule) : Prop := {
  sv_ok : sched_ok s';
  sv_env : sEnv s' = sEnv s;
  sv_first : ∃ e, sEnv s !! h = Some e ∧ Username e = n ∧ first_attempt s p = Some (NextAttempt e);
  sv_mail : mail_of s n ≡ₚ h :: mail_of s' n;
  sv_others : ∀ m, m ≠ n → mail_of s' m = mail_of s m;
  sv_due : sDue s' = l ∨ sDue s' = l ++ [p] ∧ ∃ t, first_attempt s' p = Some t ∧ (t ≤ now)%Z;
  sv_attempts : ∀ q, q ≠ p → first_attempt s' q = first_attempt s q
}.

Lemma serve_ok now s p l :
  sched_ok s → sDue s = p :: l →
  ∃ n h s', serve now s = (Some h, s') ∧ sUsers s !! n = Some p ∧ served now s n p l h s'.
Proof.
  intros Hs Hd. destruct (sched_due_owner s p l Hs Hd) as (n & u & Hw & Hne & Hdu & Hpf & Hpl & Hnd).
  pose proof (wk_owner _ _ _ _ Hw) as Ho.
  destruct (owner_first s n p u Ho Hne) as (h & k & e & Hmu & [He Hen] & Hfa).
  assert (Hw0 : working (put_due l s) n p u).
  { apply working_put_due; [done|done|]. intros q Hq. rewrite Hd, elem_of_cons. naive_solver. }
  set (s0 := put_due l s) in *.
  assert (Ht : takes (envLess s0) h (mailHeap s0 u) (heap_Pop (envLess s0) (mailHeap s0 u))).
  { apply (Pop_good (envLess s0) (envLess_asym s0) (envLess_trans s0)); [apply Hw0|].
    cbn. by rewrite Hmu. }
  pose proof Ht as (Hr & _). destruct (working_take_mail s0 n p u _ h Hw0 Ht) as (Hw1 & Hperm & Hm1).
  unfold serve. rewrite Hd. fold s0. change (sObj s0) with (sObj s). rewrite (ow_obj _ _ _ _ Ho).
  destruct (heap_Pop (envLess s0) (mailHeap s0 u)) as [o hp]. cbn [fst snd] in *. subst o.
  set (s1 := add_count (-1) (put_mail p u hp s0)) in *. set (u1 := set_mail (arr hp) u) in *.
  pose proof (wk_owner _ _ _ _ Hw1) as Ho1.
  exists n, h. eexists. split; [done|]. split; [apply Ho|].
  assert (Hothers : ∀ m, m ≠ n → mail_of s1 m = mail_of s m).
  { intros m Hm. by rewrite Hm1, decide_False. }
  assert (Hmine : mail_of s n ≡ₚ h :: mail_of s1 n).
  { by rewrite Hm1, decide_True, (mail_of_owner s n p u). }
  assert (Hatt : ∀ q, q ≠ p → first_attempt s1 q = first_attempt s q).
  { intros q Hq. apply first_attempt_eq; [|done]. cbn. by rewrite lookup_insert_ne. }
  change (u_name u1) with (u_name u). rewrite (ow_name _ _ _ _ Ho).
  destruct (bool_decide (u_mail u1 = [])) eqn:Hemp; zbool.
  { pose proof (working_set_due _ _ _ _ false Hw1) as Hw2.
    pose proof (wk_owner _ _ _ _ Hw2) as Ho2.
    assert (Hmm : ∀ m, mail_of (put_user p (set_due false u1) (drop_user n s1)) m = mail_of s1 m).
    { intros m. change (mail_of (drop_user n (put_user p (set_due false u1) s1)) m = mail_of s1 m).
      rewrite (mail_of_drop _ n p _ m Ho2) by done. by apply (mail_of_set_due s1 n). }
    constructor; try done.
    - change (sched_ok (drop_user n (put_user p (set_due false u1) s1))).
      by apply (end_drop _ _ _ _ Hw2).
    - by exists e.
    - by rewrite Hmm.
    - intros m Hm. rewrite Hmm. by apply Hothers.
    - by left.
    - intros q Hq. rewrite <-(Hatt q Hq). apply first_attempt_eq; [|done]. cbn.
      by rewrite !lookup_insert_ne. }
  destruct (owner_first s1 n p u1 Ho1 Hemp) as (h1 & k1 & e1 & _ & _ & Hfa1).
  unfold is_due. rewrite Hfa1. destruct (now <? NextAttempt e1)%Z eqn:Hlt; cbn [negb]; zbool.
  - pose proof (working_set_due _ _ _ _ false Hw1) as Hw2.
    constructor; try done.
    + by apply (end_push _ _ _ _ Hw2).
    + by exists e.
    + rewrite mail_of_pushFuture. by rewrite (mail_of_set_due s1 n p u1 false n Ho1).
    + intros m Hm. rewrite mail_of_pushFuture, (mail_of_set_due s1 n p u1 false m Ho1). by apply Hothers.
    + by left.
    + intros q Hq. rewrite <-(Hatt q Hq). apply first_attempt_eq; [|done]. cbn.
      by rewrite !lookup_insert_ne.
  - constructor; try done.
    + assert (Hw2 : working (put_due (sDue s1 ++ [p]) s1) n p u1).
      { apply working_put_due; [done| |].
        - apply NoDup_app. split_and!; [done| |apply NoDup_singleton].
          intros x Hx ->%list_elem_of_singleton. done.
        - intros q Hq. rewrite elem_of_app, list_elem_of_singleton. naive_solver. }
      apply (end_work _ _ _ _ Hw2); [done| | |by apply (working_good _ _ _ _ Hw2)].
      * cbn. rewrite Hdu. split; [intros Hx; by apply Hpf in Hx|done].
      * cbn. rewrite Hdu, elem_of_app, list_elem_of_singleton. naive_solver.
    + by exists e.
    + right. split; [done|]. exists (NextAttempt e1). split; [done|lia].
Qed.

(** ** Remove *)

Lemma remove_first_spec p l :
  NoDup l → NoDup (remove_first p l) ∧ ∀ q, q ∈ remove_first p l ↔ q ∈ l ∧ q ≠ p.
Proof.
  induction l as [|x l IH]; intros Hnd; cbn; [set_solver|].
  apply NoDup_cons in Hnd as [Hni Hnd]. destruct (decide (x = p)) as [->|Hx].
  - split; [done|]. intros q. rewrite elem_of_cons. set_solver.
  - destruct (IH Hnd) as [H1 H2]. split.
    + apply NoDup_cons. split; [|done]. rewrite H2. naive_solver.
    + intros q. rewrite !elem_of_cons, H2. naive_solver.
Qed.

Lemma working_leave_due s n p u :
  working s n p u → working (put_due (remove_first p (sDue s)) s) n p u ∧
  p ∉ remove_first p (sDue s).
Proof.
  intros Hw. destruct (remove_first_spec p (sDue s) (wk_nodup _ _ _ _ Hw)) as [Hnd Hin].
  split; [|rewrite Hin; naive_solver]. apply working_put_due; [done|done|].
  intros q Hq. rewrite Hin. naive_solver.
Qed.

Lemma removed_ok now s n p u wasFirst :
  working s n p u → (p ∈ sFuture s ↔ u_due u = false) → (p ∈ sDue s ↔ u_due u = true) →
  (wasFirst = false → u_mail u ≠ [] → good (userLess s) (futureHeap s)) →
  let s' := removed now p u wasFirst s in
  sched_ok s' ∧ sEnv s' = sEnv s ∧ ∀ m, mail_of s' m = mail_of s m.
Proof.
  intros Hw Hf Hd Hg. pose proof (wk_owner _ _ _ _ Hw) as Ho. cbn zeta. unfold removed.
  rewrite (ow_name _ _ _ _ Ho). destruct (bool_decide (u_mail u = [])) eqn:Hemp; zbool.
  { destruct (u_due u) eqn:Hdu.
    - destruct (working_leave_due _ _ _ _ Hw) as [Hw1 Hp1].
      split_and!; [|done|intros m; by apply (mail_of_drop s n p u)].
      change (sched_ok (drop_user n (put_due (remove_first p (sDue s)) s))).
      apply (end_drop _ _ _ _ Hw1); [|done]. cbn. rewrite Hf. done.
    - destruct (working_remove_future _ _ _ _ Hw) as (i & Hix & Hw1 & Hp1); [by apply Hf|].
      change (sUIdx (drop_user n s)) with (sUIdx s). rewrite Hix.
      assert ((0 <=? Z.of_nat i)%Z = true) as -> by (apply Z.leb_le; lia). rewrite Nat2Z.id.
      split_and!; [|done|intros m; by apply (mail_of_drop s n p u)].
      change (sched_ok (drop_user n (put_future (heap_Remove (userLess s) i (futureHeap s)).2 s))).
      apply (end_drop _ _ _ _ Hw1); [done|]. cbn. rewrite Hd. done. }
  destruct (wasFirst && u_due u && negb (is_due s p now)) eqn:E1; zbool.
  { destruct (working_leave_due _ _ _ _ Hw) as [Hw1 Hp1].
    pose proof (working_set_due _ _ _ _ false Hw1) as Hw2.
    split_and!; [|done|].
    - apply (end_push _ _ _ _ Hw2); [done|done| |done]. cbn. rewrite Hf. congruence.
    - intros m. rewrite mail_of_pushFuture, (mail_of_set_due _ n); [done|apply Hw1]. }
  destruct (wasFirst && negb (u_due u)) eqn:E2; zbool.
  { split_and!; [|apply (mail_of_fixFuture p s n)|intros m; apply mail_of_fixFuture].
    apply (end_fix _ _ _ _ Hw); [done|done|by apply Hf|]. rewrite Hd. congruence. }
  split_and!; [|done|done]. apply (end_work _ _ _ _ Hw Hemp Hf Hd).
  destruct wasFirst; [|by apply Hg]. destruct (u_due u) eqn:Hdu; [|done].
  apply (working_good _ _ _ _ Hw). rewrite Hf. done.
Qed.

Lemma schedule_Remove_ok now h s :
  sched_ok s →
  let '(b, s') := schedule_Remove now h s in
  sched_ok s' ∧ sEnv s' = sEnv s ∧ held_of s' = delete h (held_of s) ∧
  (b = true ↔ is_Some (held_of s !! h)).
Proof.
  intros Hs. unfold schedule_Remove.
  destruct (sEnv s !! h) as [e|] eqn:He; cbn [mbind option_bind].
  2:{ assert (Hn : held_of s !! h = None).
      { destruct (held_of s !! h) as [x|] eqn:Hx; [|done]. apply held_of_Some in Hx as [Hx _]. congruence. }
      split_and!; [done|done|by rewrite delete_id|]. rewrite Hn. split; [done|by intros []]. }
  assert (Hmiss : h ∉ mail_of s (Username e) →
            sched_ok s ∧ sEnv s = sEnv s ∧ held_of s = delete h (held_of s) ∧
            (false = true ↔ is_Some (held_of s !! h))).
  { intros Hni. assert (Hn : held_of s !! h = None).
    { destruct (held_of s !! h) as [x|] eqn:Hx; [|done]. apply held_of_Some in Hx as [Hx Hin].
      assert (x = e) as -> by congruence. done. }
    split_and!; [done|done|by rewrite delete_id|]. rewrite Hn. split; [done|by intros []]. }
  destruct (sUsers s !! Username e) as [p|] eqn:Hp; cbn [mbind option_bind].
  2:{ apply Hmiss. unfold mail_of. rewrite Hp. by intros ?%elem_of_nil. }
  destruct (begin_work s (Username e) p Hs Hp) as (u & Hw & Hne & Hf & Hd).
  pose proof (wk_owner _ _ _ _ Hw) as Ho. rewrite (ow_obj _ _ _ _ Ho). cbn [mbind option_bind].
  assert (Hidx : ∀ j, u_mail u !! j = Some h → sIdx s !! h = Some (Z.of_nat j)).
  { intros j Hj. by apply (ix_at _ (gd_indexed _ _ (ow_heap _ _ _ _ Ho))). }
  destruct (sIdx s !! h) as [i|] eqn:Hi; cbn [mbind option_bind].
  2:{ apply Hmiss. rewrite (mail_of_owner s _ p u Ho). intros [j Hj]%list_elem_of_lookup.
      by apply Hidx in Hj. }
  destruct ((i <? 0)%Z || _ || _) eqn:Eg.
  { apply Hmiss. rewrite (mail_of_owner s _ p u Ho). intros [j Hj]%list_elem_of_lookup.
    pose proof (Hidx j Hj) as [= ->]. pose proof (lookup_lt_Some _ _ _ Hj). rewrite Nat2Z.id in Eg.
    rewrite bool_decide_eq_true_2, orb_false_r in Eg by done.
    apply orb_true_iff in Eg as [Eg|Eg]; zbool; lia. }
  apply orb_false_iff in Eg as [Eg Hj]. zbool. set (j := Z.to_nat i) in *.
  pose proof (lookup_lt_Some _ _ _ Hj) as Hlt.
  set (hp := heap_Remove (envLess s) j (mailHeap s u)).
  assert (Ht : takes (envLess s) h (mailHeap s u) hp).
  { apply (Remove_takes (envLess s) (envLess_asym s) (envLess_trans s)); [apply Ho| |done].
    apply (ordered_almost _ (envLess_trans s)); [done|done|apply Ho]. }
  destruct (working_take_mail s _ p u hp h Hw Ht) as (Hw1 & Hperm & Hm1).
  set (s1 := add_count (-1) (put_mail p u hp.2 s)) in *.
  destruct (removed_ok now s1 (Username e) p (set_mail (arr hp.2) u) (i =? 0)%Z) as (Hok & Henv & Hm);
    [done|done|done| |].
  { intros Hfi Hne1. zbool. apply (good_less (userLess s)); [|apply Hs]. intros a b _ _.
    change (userLess s1 a b) with (userLess (put_mail p u hp.2 s) a b).
    apply userLess_head; [apply Ho|]. rewrite !head_lookup.
    destruct (u_mail u !! 0%nat) as [x|] eqn:Hx; [|by destruct (u_mail u)].
    apply (Remove_root (envLess s) (envLess_asym s) (envLess_trans s)); [apply Ho| |done].
    cbn. lia. }
  split_and!; [done|by rewrite Henv| |].
  - apply map_eq. intros k. apply option_eq. intros x.
    rewrite lookup_delete_Some, !held_of_Some, Henv, Hm, Hm1. change (sEnv s1) with (sEnv s).
    assert (Hnd : NoDup (h :: arr hp.2)).
    { rewrite <-Hperm. apply (indexed_NoDup (mailHeap s u)), (gd_indexed _ _ (ow_heap _ _ _ _ Ho)). }
    apply NoDup_cons in Hnd as [Hni _]. destruct (decide (Username x = Username e)) as [Heq|Hneq].
    + rewrite Heq, (mail_of_owner s _ p u Ho), Hperm, elem_of_cons. split; [|naive_solver].
      intros [Hx Hin]. split_and!; [by intros ->|done|by right].
    + split; [|naive_solver]. intros [Hx Hin]. split_and!; [|done|done]. intros <-. congruence.
  - split; [intros _|done]. exists e. apply held_of_Some. split; [done|].
    rewrite (mail_of_owner s _ p u Ho). by eapply list_elem_of_lookup_2.
Qed.

(** ** Nothing is served early *)

(** The owners in the rotation had a due message at time [T]. *)
Definition timely (T : Z) (s : schedule) : Prop :=
  ∀ p t, p ∈ sDue s → first_attempt s p = Some t → (t ≤ T)%Z.

Lemma timely_mono T T' s : (T ≤ T')%Z → timely T s → timely T' s.
Proof. intros HT Ht p t Hp Hf. specialize (Ht p t Hp Hf). lia. Qed.

Lemma pushMail_frame p h u s :
  sDue (pushMail p h u s) = sDue s ∧ sUsers (pushMail p h u s) = sUsers s.
Proof.
  unfold pushMail, pushFuture, fixFuture.
  repeat match goal with |- context [if ?b then _ else _] => destruct b
                    | |- context [match ?o with Some _ => _ | None => _ end] => destruct o end; done.
Qed.

Lemma schedule_Push_frame e s n p :
  let s' := (schedule_Push e s).2 in
  sDue s' = sDue s ∧ (sUsers s !! n = Some p → sUsers s' !! n = Some p).
Proof.
  unfold schedule_Push, allocate, findUser. cbn.
  destruct (sUsers s !! Username e) as [q|] eqn:Hq; cbn.
  - destruct (sObj s !! q); [|done].
    match goal with |- context [pushMail ?a ?b ?c ?d] => destruct (pushMail_frame a b c d) as [-> ->] end.
    done.
  - rewrite lookup_insert_eq.
    match goal with |- context [pushMail ?a ?b ?c ?d] => destruct (pushMail_frame a b c d) as [-> ->] end.
    cbn. split; [done|]. intros Hn. rewrite lookup_insert_ne; [done|]. intros <-. congruence.
Qed.

Lemma timely_Push T e s : sched_ok s → timely T s → timely T (schedule_Push e s).2.
Proof.
  intros Hs Ht p t Hp Hf. pose proof (schedule_Push_ok e s Hs) as Hok.
  pose proof (λ n q, schedule_Push_frame e s n q) as Hfr.
  destruct (schedule_Push e s) as [h s']. cbn [fst snd] in *.
  destruct Hok as (Hs' & Hnone & Henv & Hmail). destruct (Hfr "" 0%nat) as [Hdue _].
  rewrite Hdue in Hp. pose proof Hp as (n & u & Hn & Hu & _)%(so_due _ Hs).
  destruct (so_owner _ Hs n p Hn) as (v & Hv & Hne).
  destruct (so_owner _ Hs' n p (proj2 (Hfr n p) Hn)) as (v' & Hv' & _).
  destruct (owner_first s n p v Hv Hne) as (h0 & l & e0 & Hm & [He0 _] & Hf0).
  specialize (Ht p _ Hp Hf0). etrans; [|exact Ht].
  apply (first_earliest s' n p v' h0 e0 t Hv'); [|rewrite Henv, lookup_insert_ne; [done|congruence]|done].
  rewrite <-(mail_of_owner s' n p v' Hv'), Hmail, (mail_of_owner s n p v Hv), Hm.
  destruct (decide _); set_solver.
Qed.

Lemma removed_frame now p u wasFirst s :
  sObj s !! p = Some u → NoDup (sDue s) →
  let s' := removed now p u wasFirst s in
  (∀ q, q ∈ sDue s' → q ∈ sDue s) ∧ (∀ q, first_attempt s' q = first_attempt s q) ∧
  (p ∈ sDue s' → u_mail u ≠ [] → wasFirst = true → u_due u = true → is_due s p now = true).
Proof.
  intros Hu Hnd. cbn zeta. unfold removed.
  assert (Hrf : ∀ q, q ∈ remove_first p (sDue s) → q ∈ sDue s ∧ q ≠ p).
  { intros q. by rewrite (proj2 (remove_first_spec p (sDue s) Hnd)). }
  assert (Hset : ∀ l q, first_attempt (put_user p (set_due false u) (put_due l s)) q = first_attempt s q).
  { intros l q. destruct (decide (q = p)) as [->|Hq].
    - unfold first_attempt. cbn. by rewrite lookup_insert_eq, Hu.
    - apply first_attempt_eq; [|done]. cbn. by rewrite lookup_insert_ne. }
  destruct (bool_decide (u_mail u = [])) eqn:E0; zbool.
  { destruct (u_due u); [|by destruct (sUIdx _ !! p) as [i|]; [destruct (0 <=? i)%Z|]].
    split_and!; [intros q Hq; by apply Hrf|done|done]. }
  destruct (wasFirst && u_due u && negb (is_due s p now)) eqn:E1; zbool.
  { split_and!.
    - intros q Hq. by apply Hrf.
    - intros q. apply (Hset [] q).
    - intros Hp. by destruct (Hrf p Hp). }
  assert (Hd : wasFirst = true → u_due u = true → is_due s p now = true).
  { intros -> Hdu. rewrite Hdu in E1. cbn in E1. by apply negb_false_iff in E1. }
  destruct (wasFirst && negb (u_due u)); [|done].
  unfold fixFuture. destruct (sUIdx s !! p); (split_and!; [done|done|auto]).
Qed.

Lemma timely_Remove T now h s :
  sched_ok s → (now ≤ T)%Z → timely T s → timely T (schedule_Remove now h s).2.
Proof.
  intros Hs HT Ht. unfold schedule_Remove.
  destruct (sEnv s !! h) as [e|] eqn:He; [|done]. cbn [mbind option_bind].
  destruct (sUsers s !! Username e) as [p|] eqn:Hp; [|done]. cbn [mbind option_bind].
  destruct (so_owner _ Hs _ p Hp) as (u & Ho & Hne). rewrite (ow_obj _ _ _ _ Ho).
  cbn [mbind option_bind]. destruct (sIdx s !! h) as [i|] eqn:Hi; [|done]. cbn [mbind option_bind].
  destruct ((i <? 0)%Z || _ || _) eqn:Eg; [done|]. apply orb_false_iff in Eg as [Eg Hj]. zbool. cbn [snd].
  set (hp := (heap_Remove (envLess s) (Z.to_nat i) (mailHeap s u)).2).
  set (s1 := add_count (-1) (put_mail p u hp s)).
  assert (Hobj : sObj s1 !! p = Some (set_mail (arr hp) u)) by (cbn; apply lookup_insert_eq).
  destruct (removed_frame now p (set_mail (arr hp) u) (i =? 0)%Z s1 Hobj (so_nodup _ Hs))
    as (Hd & Hfa & Hp1).
  intros q t Hq Hf. rewrite Hfa in Hf. pose proof (Hd q Hq) as Hqd.
  change (sDue s1) with (sDue s) in Hqd. destruct (decide (q = p)) as [->|Hqp].
  2:{ apply (Ht q); [done|]. rewrite <-Hf. symmetry. apply first_attempt_eq; [|done].
      cbn. by rewrite lookup_insert_ne. }
  apply (so_due _ Hs) in Hqd as Hqw. destruct Hqw as (n' & u' & _ & Hu' & Hdu).
  assert (u' = u) as -> by (rewrite (ow_obj _ _ _ _ Ho) in Hu'; congruence).
  assert (Hne1 : arr hp ≠ []).
  { intros Hnil. unfold first_attempt in Hf. rewrite Hobj in Hf. cbn in Hf. by rewrite Hnil in Hf. }
  destruct (i =? 0)%Z eqn:Hi0; zbool.
  - specialize (Hp1 Hq Hne1 eq_refl Hdu). unfold is_due in Hp1. rewrite Hf in Hp1. zbool. lia.
  - apply (Ht p); [done|]. rewrite <-Hf. unfold first_attempt. rewrite Hobj, (ow_obj _ _ _ _ Ho). cbn.
    assert (Hhead : head (arr hp) = head (u_mail u)); [|by rewrite Hhead].
    rewrite !head_lookup. destruct (u_mail u !! 0%nat) as [x|] eqn:Hx; [|by destruct (u_mail u)].
    pose proof (lookup_lt_Some _ _ _ Hj).
    apply (Remove_root (envLess s) (envLess_asym s) (envLess_trans s)); [apply Ho|cbn; lia|done].
Qed.
