(* ===== verification/Queue.v ===== *)
(** * The queue in memory (src/internal/queue/queue.go, transitions.go,
    schedule.go, capacity.go, layout.go)

    The fields of [Queue], the life cycle of operations, the ownership of an
    identifier during a transition, and the schedule's use.  The schedule
    itself is an interface: [Scheduler] states what the queue relies on. *)

From S2P Require Import Prelude Errors GoLib Envelope Capacity FileSystem Disk.
Open Scope Z_scope.

(** ** Layout *)

Definition metaName : string := "meta.json".
Definition bodyName : string := "message.eml".
Definition addStateName : string := "add.state".
Definition reviveMetaName : string := "revive.json".

Definition newline : string := of_list [chr 10].
Definition addPending : string := "outboxd-add-v1:pending " +:+ newline.
Definition addAccepted : string := "outboxd-add-v1:accepted" +:+ newline.

Definition maxAddStateBytes : Z := 64.

(** ** The schedule as the queue sees it

    [held s] are the envelopes waiting in [s], by the pointer the queue keeps
    for each. *)

Class Scheduler (S : Type) := {
  s_empty : S;
  held : S → gmap nat Envelope;
  s_Push : Envelope → S → nat * S;
  s_Remove : Z → nat → S → bool * S;
  s_PopDue : Z → S → option nat * S;
  s_NextAttempt : S → option Z;
  held_empty : held s_empty = ∅;
  held_Push : ∀ e s, held s !! (s_Push e s).1 = None ∧
    held (s_Push e s).2 = <[(s_Push e s).1 := e]> (held s);
  held_Remove : ∀ now h s, held (s_Remove now h s).2 = delete h (held s);
  held_PopDue : ∀ now s,
    match s_PopDue now s with
    | (None, s') => held s' = held s ∧ ∀ h e, held s !! h = Some e → now < NextAttempt e
    | (Some h, s') => is_Some (held s !! h) ∧ held s' = delete h (held s)
    end;
  next_None : ∀ s, s_NextAttempt s = None ↔ held s = ∅
}.

Section queue.
Context {S : Type} `{Scheduler S}.

Record Queue := mkQueue {
  cap : Capacity;
  disk : world;
  pending : S;
  notify : bool;
  scheduled : gmap string nat;
  transitioning : gset string;
  requeues : gmap string (list Envelope);
  blocked : gset string;
  lastSpoolScan : Z;
  active : Z;
  closing : bool;
  readOnly : bool;
  Corrupt : list error;
  Warnings : list error
}.

Definition set_cap v q := mkQueue v (disk q) (pending q) (notify q) (scheduled q)
  (transitioning q) (requeues q) (blocked q) (lastSpoolScan q) (active q) (closing q)
  (readOnly q) (Corrupt q) (Warnings q).
Definition set_disk v q := mkQueue (cap q) v (pending q) (notify q) (scheduled q)
  (transitioning q) (requeues q) (blocked q) (lastSpoolScan q) (active q) (closing q)
  (readOnly q) (Corrupt q) (Warnings q).
Definition set_pending v q := mkQueue (cap q) (disk q) v (notify q) (scheduled q)
  (transitioning q) (requeues q) (blocked q) (lastSpoolScan q) (active q) (closing q)
  (readOnly q) (Corrupt q) (Warnings q).
Definition set_notify v q := mkQueue (cap q) (disk q) (pending q) v (scheduled q)
  (transitioning q) (requeues q) (blocked q) (lastSpoolScan q) (active q) (closing q)
  (readOnly q) (Corrupt q) (Warnings q).
Definition set_scheduled v q := mkQueue (cap q) (disk q) (pending q) (notify q) v
  (transitioning q) (requeues q) (blocked q) (lastSpoolScan q) (active q) (closing q)
  (readOnly q) (Corrupt q) (Warnings q).
Definition set_transitioning v q := mkQueue (cap q) (disk q) (pending q) (notify q)
  (scheduled q) v (requeues q) (blocked q) (lastSpoolScan q) (active q) (closing q)
  (readOnly q) (Corrupt q) (Warnings q).
Definition set_requeues v q := mkQueue (cap q) (disk q) (pending q) (notify q)
  (scheduled q) (transitioning q) v (blocked q) (lastSpoolScan q) (active q) (closing q)
  (readOnly q) (Corrupt q) (Warnings q).
Definition set_blocked v q := mkQueue (cap q) (disk q) (pending q) (notify q)
  (scheduled q) (transitioning q) (requeues q) v (lastSpoolScan q) (active q) (closing q)
  (readOnly q) (Corrupt q) (Warnings q).
Definition set_lastSpoolScan v q := mkQueue (cap q) (disk q) (pending q) (notify q)
  (scheduled q) (transitioning q) (requeues q) (blocked q) v (active q) (closing q)
  (readOnly q) (Corrupt q) (Warnings q).
Definition set_active v q := mkQueue (cap q) (disk q) (pending q) (notify q)
  (scheduled q) (transitioning q) (requeues q) (blocked q) (lastSpoolScan q) v (closing q)
  (readOnly q) (Corrupt q) (Warnings q).
Definition set_Corrupt v q := mkQueue (cap q) (disk q) (pending q) (notify q)
  (scheduled q) (transitioning q) (requeues q) (blocked q) (lastSpoolScan q) (active q)
  (closing q) (readOnly q) v (Warnings q).
Definition set_Warnings v q := mkQueue (cap q) (disk q) (pending q) (notify q)
  (scheduled q) (transitioning q) (requeues q) (blocked q) (lastSpoolScan q) (active q)
  (closing q) (readOnly q) (Corrupt q) v.

Abbreviation M A := (ST Queue A) (only parsing).

(** A disk operation of the queue's spool. *)
Definition onDisk {A} (m : ST world A) : ST Queue A := λ q,
  let '(a, w) := m (disk q) in (a, set_disk w q).

(** A change of the accounting. *)
Definition onCap (f : Capacity → Capacity) : ST Queue unit := λ q, (tt, set_cap (f (cap q)) q).

(** ** Operations in progress *)

Definition beginOperation : ST Queue (res unit) := λ q,
  if closing q then (Err (Sentinel ErrQueueClosed), q)
  else (Ok tt, set_active (active q + 1) q).

Definition endOperation : ST Queue unit := modify (λ q, set_active (active q - 1) q).

Definition rejectReadOnly : ST Queue (res unit) := λ q,
  (if readOnly q then Err (Sentinel ErrReadOnly) else Ok tt, q).

(** An operation of an open, writable queue. *)
Definition operation {A} (m : ST Queue (res A)) : ST Queue (res A) :=
  try! _ := beginOperation in
  let! r := (try! _ := rejectReadOnly in m) in
  let! _ := endOperation in
  ret r.

(** ** The schedule *)

(** The send on the notification channel of capacity one. *)
Definition signal : ST Queue unit := modify (set_notify true).

Definition scheduleLocked (envelope : Envelope) : ST Queue bool := λ q,
  if decide (ID envelope ∈ blocked q) then (false, q)
  else
    match accounted (cap q) !! ID envelope with
    | None => (false, q)
    | Some a =>
        if negb (bool_decide (a_incarnation a = Incarnation envelope))
           || negb (a_revision a =? Revision envelope) then (false, q)
        else
          match scheduled q !! ID envelope with
          | Some _ => (false, q)
          | None =>
              let queued := cloneEnvelope envelope in
              let '(h, s) := s_Push queued (pending q) in
              (true, set_scheduled (<[ID envelope := h]> (scheduled q)) (set_pending s q))
          end
    end.

(** [slices.ContainsFunc(q.requeues[id], q.scheduleLocked)]. *)
Fixpoint scheduleFirst (envelopes : list Envelope) : ST Queue bool :=
  match envelopes with
  | [] => ret false
  | e :: es => let! added := scheduleLocked e in if added then ret true else scheduleFirst es
  end.

(** ** Transitions *)

Definition beginTransitions (ids : list string) : ST Queue (res unit) := λ q,
  if existsb (λ id, bool_decide (id ∈ transitioning q)) ids
  then (Err (Sentinel ErrQueueBusy), q)
  else (Ok tt, set_transitioning (list_to_set ids ∪ transitioning q) q).

Definition beginTransition (id : string) : ST Queue (res unit) := beginTransitions [id].

Fixpoint endTransitions_loop (ids : list string) (added : bool) : ST Queue bool :=
  match ids with
  | [] => ret added
  | id :: ids =>
      let! _ := modify (λ q, set_transitioning (transitioning q ∖ {[id]}) q) in
      let! pend := gets (λ q, default [] (requeues q !! id)) in
      let! found := scheduleFirst pend in
      let! _ := modify (λ q, set_requeues (delete id (requeues q)) q) in
      endTransitions_loop ids (added || found)
  end.

Definition endTransitions (ids : list string) : ST Queue unit :=
  let! added := endTransitions_loop ids false in
  if added then signal else ret tt.

Definition endTransition (id : string) : ST Queue unit := endTransitions [id].

(** [delete(q.transitioning, id); delete(q.requeues, id)]. *)
Definition dropTransition (id : string) : ST Queue unit := modify (λ q,
  set_requeues (delete id (requeues q)) (set_transitioning (transitioning q ∖ {[id]}) q)).

(** ** Accounting with the schedule *)

Definition noteRemovedQ (id : string) : ST Queue unit := modify (λ q,
  match accounted (cap q) !! id with
  | None => q
  | Some _ =>
      set_requeues (delete id (requeues q))
        (set_scheduled (delete id (scheduled q)) (set_cap (noteRemoved id (cap q)) q))
  end).

Definition block (id : string) : ST Queue unit :=
  modify (λ q, set_blocked ({[id]} ∪ blocked q) q).

(** ** Mutations *)

Section env.
Variable E : Environment.
(** [q.FreeDisk]: the hook, or [None]. *)
Variable FreeDisk : option (res Z).

Definition refreshSpoolUsage : ST Queue (res unit) :=
  try! total := onDisk (AllocatedRoot E) in
  let! now := onDisk (time_Now E) in
  let! _ := modify (λ q, set_lastSpoolScan now (set_cap (set_spoolBytes total (cap q)) q)) in
  ret (Ok tt).

(** [startMutation] under the spool lock: re-measure the spool when the estimate
    is near the limit and a minute old. *)
Definition startMutation : ST Queue (res unit) :=
  let! now := onDisk (time_Now E) in
  let! refresh := gets (λ q,
    let l := limits (cap q) in
    let limit := wrap64 (MaxSpoolBytes l - SpoolEmergencyBytes l) in
    let '(used, ok) := checkedAddInt64 (spoolBytes (cap q)) (spoolReserved (cap q)) in
    let nearLimit := (0 <? MaxSpoolBytes l) && (negb ok || (limit <? 0) || (limit <=? used)) in
    let stale := 60000000000 <=? now - lastSpoolScan q in
    nearLimit && stale) in
  if refresh then
    let! r := refreshSpoolUsage in
    match r with
    | Err e => ret (Err (Wrap "measure spool usage" e))
    | Ok _ => ret (Ok tt)
    end
  else ret (Ok tt).

(** [reserveLocked] on the queue's accounting. *)
Definition reserve_ (size physical : Z) (exempt emergency : bool) (owner : string)
    : ST Queue (res unit) := λ q,
  match reserveLocked FreeDisk size physical exempt emergency owner (cap q) with
  | Ok c => (Ok tt, set_cap c q)
  | Err e => (Err e, q)
  end.

Definition hold (n : Z) (terminal : bool) : ST Queue (res unit) := λ q,
  match holdPhysical FreeDisk n terminal (cap q) with
  | Ok c => (Ok tt, set_cap c q)
  | Err e => (Err e, q)
  end.
End env.

(** ** Delivery checkout *)

(** One pass of the loop of [Next]: the envelope that is due, if any. *)
Definition takeDue (now : Z) : ST Queue (option Envelope) := λ q,
  match s_NextAttempt (pending q) with
  | None => (None, q)
  | Some _ =>
      match s_PopDue now (pending q) with
      | (None, s) => (None, set_pending s q)
      | (Some h, s) =>
          match held (pending q) !! h with
          | None => (None, set_pending s q)
          | Some e => (Some e, set_scheduled (delete (ID e) (scheduled q)) (set_pending s q))
          end
      end
  end.

(** [Requeue]. *)
Definition Requeue (envelope : Envelope) : ST Queue unit := λ q,
  match beginOperation q with
  | (Err _, q) => (tt, q)
  | (Ok _, q) =>
      (let! transit := gets (λ q, bool_decide (ID envelope ∈ transitioning q)) in
       let! _ :=
         if transit then
           modify (λ q,
             let waiting := default [] (requeues q !! ID envelope) in
             if existsb (λ e, bool_decide (Incarnation e = Incarnation envelope)
                              && (Revision e =? Revision envelope)) waiting then q
             else set_requeues (<[ID envelope := waiting ++ [cloneEnvelope envelope]]>
                                  (requeues q)) q)
         else
           let! added := scheduleLocked envelope in
           if added then signal else ret tt in
       endOperation) q
  end.

(** [RequeueAfter]. *)
Definition RequeueAfter (E : Environment) (envelope : Envelope) (delay : Z)
    : ST Queue unit := λ q,
  match beginOperation q with
  | (Err _, q) => (tt, q)
  | (Ok _, q) =>
      (let! now := onDisk (time_Now E) in
       let deferred := set_NextAttempt (now + delay) (cloneEnvelope envelope) in
       let! _ := modify (λ q,
         match scheduled q !! ID envelope with
         | None => q
         | Some h =>
             set_scheduled (delete (ID envelope) (scheduled q))
               (set_pending (s_Remove (clock E (ticks (disk q))) h (pending q)).2 q)
         end) in
       let! added := scheduleLocked deferred in
       let! _ := if added then signal else ret tt in
       endOperation) q
  end.
End queue.
Arguments Queue S : clear implicits.

(** ** A reference schedule: the envelopes and nothing else *)

Definition refSchedule : Type := gmap nat Envelope.

Definition ref_PopDue (now : Z) (s : refSchedule) : option nat * refSchedule :=
  match list_find (λ p, NextAttempt p.2 ≤ now) (map_to_list s) with
  | Some (_, (h, _)) => (Some h, delete h s)
  | None => (None, s)
  end.

Definition ref_Push (e : Envelope) (s : refSchedule) : nat * refSchedule :=
  let h := fresh (dom s) in (h, <[h := e]> s).

#[export] Program Instance refScheduler : Scheduler refSchedule := {
  s_empty := ∅;
  held s := s;
  s_Push := ref_Push;
  s_Remove _ h s := (match s !! h with Some _ => true | None => false end, delete h s);
  s_PopDue := ref_PopDue;
  s_NextAttempt s := (λ p, NextAttempt p.2) <$> head (map_to_list s)
}.
Next Obligation. done. Qed.
Next Obligation.
  intros e s. unfold ref_Push. simpl. split; [|done].
  apply not_elem_of_dom. apply is_fresh.
Qed.
Next Obligation. done. Qed.
Next Obligation.
  intros now s. unfold ref_PopDue.
  destruct (list_find _ _) as [[i [h e]]|] eqn:E.
  - apply list_find_Some in E as (Hi & _ & _). split; [|done].
    exists e. by apply elem_of_map_to_list, (list_elem_of_lookup_2 _ i).
  - split; [done|]. intros h e He. apply list_find_None in E.
    rewrite Forall_forall in E. specialize (E (h, e)). simpl in E.
    apply Z.nle_gt. apply E. by apply elem_of_map_to_list.
Qed.
Next Obligation.
  intros s. cbv beta. rewrite fmap_None, head_None. apply (map_to_list_empty_iff (M := gmap nat)).
Qed.
