(* ===== verification/Rotation.v ===== *)
(** * What the schedule promises

    [schedule] with its invariant is a [Scheduler], the interface the queue is
    verified against.  Every history refines a plain map of waiting envelopes,
    no message leaves before its time, and the owners of due messages are
    served in turn. *)

From Stdlib Require Import Lia.
From S2P Require Import Prelude Envelope Heap Schedule Queue.

Lemma emptySchedule_ok : sched_ok emptySchedule.
Proof.
  constructor; cbn; try done.
  - intros q. split; [by intros ?%elem_of_nil|]. intros (n & u & Hn & _). cbn in Hn.
    by rewrite lookup_empty in Hn.
  - intros q. split; [by intros ?%elem_of_nil|]. intros (n & u & Hn & _). cbn in Hn.
    by rewrite lookup_empty in Hn.
  - constructor.
Qed.

(** ** The effect on the waiting envelopes *)

Lemma Push_held e s :
  sched_ok s →
  let '(h, s') := schedule_Push e s in
  sched_ok s' ∧ held_of s !! h = None ∧ held_of s' = <[h := e]> (held_of s).
Proof.
  intros Hs. pose proof (schedule_Push_ok e s Hs) as Hok.
  destruct (schedule_Push e s) as [h s']. destruct Hok as (Hs' & Hn & Henv & Hm).
  assert (Hheld : held_of s !! h = None).
  { destruct (held_of s !! h) as [x|] eqn:Hx; [|done]. apply held_of_Some in Hx as [Hx _]. congruence. }
  split_and!; [done|done|]. apply map_eq. intros k. apply option_eq. intros x.
  rewrite held_of_Some, Henv, Hm. destruct (decide (k = h)) as [->|Hk].
  - rewrite !lookup_insert_eq. split; [by intros [Hx _]|]. intros [= <-]. split; [done|].
    rewrite decide_True by done. left.
  - rewrite !lookup_insert_ne, held_of_Some by done.
    destruct (decide (Username x = Username e)); [|done]. rewrite elem_of_cons. naive_solver.
Qed.

(** What [PopDue] hands out: the earliest message of its owner. *)
Definition earliest (h : nat) (m : gmap nat Envelope) : Prop :=
  ∃ e, m !! h = Some e ∧
  ∀ h' e', m !! h' = Some e' → Username e' = Username e → (NextAttempt e ≤ NextAttempt e')%Z.

Lemma all_waiting now s s' h e :
  promoted now s s' → sDue s' = [] → held_of s !! h = Some e → (now < NextAttempt e)%Z.
Proof.
  intros Hp Hd Hh. pose proof (pm_ok _ _ _ Hp) as Hs. apply held_of_Some in Hh as [He Hin].
  rewrite <-(pm_mail _ _ _ Hp) in Hin. rewrite <-(pm_env _ _ _ Hp) in He.
  unfold mail_of in Hin. destruct (sUsers s' !! Username e) as [p|] eqn:Hn;
    [|by apply elem_of_nil in Hin].
  destruct (so_owner _ Hs _ p Hn) as (u & Ho & Hne). rewrite (ow_obj _ _ _ _ Ho) in Hin. cbn in Hin.
  destruct (owner_first _ _ _ _ Ho Hne) as (h0 & l & e0 & _ & _ & Hf).
  pose proof (first_earliest _ _ _ _ h e _ Ho Hin He Hf).
  assert (Hpf : p ∈ sFuture s'); [|pose proof (pm_future _ _ _ Hp p _ Hpf Hf); lia].
  apply (so_future _ Hs). exists (Username e), u. split_and!; [done|apply Ho|].
  destruct (u_due u) eqn:Hdu; [|done]. assert (Hpd : p ∈ sDue s').
  { apply (so_due _ Hs). exists (Username e), u. split_and!; [done|apply Ho|done]. }
  rewrite Hd in Hpd. by apply elem_of_nil in Hpd.
Qed.

Lemma held_promoted now s s' : promoted now s s' → held_of s' = held_of s.
Proof.
  intros Hp. apply map_eq. intros k. apply option_eq. intros x.
  by rewrite !held_of_Some, (pm_env _ _ _ Hp), (pm_mail _ _ _ Hp).
Qed.

Lemma served_held now s n p l h s' :
  sched_ok s → sUsers s !! n = Some p → served now s n p l h s' →
  held_of s' = delete h (held_of s) ∧ earliest h (held_of s).
Proof.
  intros Hs Hn [Hs' Henv (e & He & Hen & Hf) Hm Hot _ _].
  destruct (so_owner _ Hs n p Hn) as (u & Ho & Hne).
  assert (Hnd : NoDup (h :: mail_of s' n)).
  { rewrite <-Hm, (mail_of_owner s n p u Ho).
    apply (indexed_NoDup (mailHeap s u)), (gd_indexed _ _ (ow_heap _ _ _ _ Ho)). }
  apply NoDup_cons in Hnd as [Hni _]. split.
  - apply map_eq. intros k. apply option_eq. intros x.
    rewrite lookup_delete_Some, !held_of_Some, Henv.
    destruct (decide (Username x = n)) as [Hx|Hx].
    + rewrite Hx, Hm, elem_of_cons. split; [|naive_solver].
      intros [Hk Hin]. split_and!; [by intros ->|done|by right].
    + rewrite Hot by done. split; [|naive_solver]. intros [Hk Hin]. split_and!; [|done|done].
      intros <-. congruence.
  - exists e. split; [apply held_of_Some; split; [done|]; rewrite Hen, Hm; left|].
    intros h' e' [He' Hin]%held_of_Some Hu. rewrite Hu, Hen, (mail_of_owner s n p u Ho) in Hin.
    by apply (first_earliest s n p u h' e' _ Ho).
Qed.

Lemma PopDue_held now s :
  sched_ok s →
  match schedule_PopDue now s with
  | (None, s') => sched_ok s' ∧ held_of s' = held_of s ∧
      ∀ h e, held_of s !! h = Some e → (now < NextAttempt e)%Z
  | (Some h, s') => sched_ok s' ∧ held_of s' = delete h (held_of s) ∧ earliest h (held_of s)
  end.
Proof.
  intros Hs. rewrite PopDue_serve. pose proof (promote_ok (length (sFuture s)) now s Hs) as Hp.
  specialize (Hp ltac:(lia)). set (s1 := promote _ now s) in *.
  pose proof (pm_ok _ _ _ Hp) as Hs1. destruct (sDue s1) as [|p l] eqn:Hd.
  - unfold serve. rewrite Hd. split_and!; [done|by apply (held_promoted now)|].
    intros h e. by apply (all_waiting now s s1).
  - destruct (serve_ok now s1 p l Hs1 Hd) as (n & h & s' & -> & Hn & Hsv).
    rewrite <-(held_promoted now s s1 Hp). split; [apply Hsv|]. by apply (served_held now s1 n p l).
Qed.

Lemma held_some s h e :
  sched_ok s → held_of s !! h = Some e →
  ∃ p u, owner s (Username e) p u ∧ u_mail u ≠ [] ∧ (p ∈ sFuture s ∨ p ∈ sDue s).
Proof.
  intros Hs [He Hin]%held_of_Some. unfold mail_of in Hin.
  destruct (sUsers s !! Username e) as [p|] eqn:Hn; [|by apply elem_of_nil in Hin].
  destruct (so_owner _ Hs _ p Hn) as (u & Ho & Hne). exists p, u. split_and!; [done|done|].
  destruct (u_due u) eqn:Hdu.
  - right. apply (so_due _ Hs). exists (Username e), u. split_and!; [done|apply Ho|done].
  - left. apply (so_future _ Hs). exists (Username e), u. split_and!; [done|apply Ho|done].
Qed.

Lemma NextAttempt_None s : sched_ok s → schedule_NextAttempt s = None ↔ held_of s = ∅.
Proof.
  intros Hs.
  assert (Hw : ∀ p, p ∈ sFuture s ∨ p ∈ sDue s →
            is_Some (first_attempt s p) ∧ ∃ h e, held_of s !! h = Some e).
  { intros p Hp. assert (∃ n, sUsers s !! n = Some p) as [n Hn].
    { destruct Hp as [Hp|Hp]; [apply (so_future _ Hs) in Hp|apply (so_due _ Hs) in Hp];
        destruct Hp as (n & _ & Hn & _); eauto. }
    destruct (so_owner _ Hs n p Hn) as (u & Ho & Hne).
    destruct (owner_first s n p u Ho Hne) as (h & l & e & Hm & [He Hen] & ->). split; [eauto|].
    exists h, e. apply held_of_Some. split; [done|].
    rewrite Hen, (mail_of_owner s n p u Ho), Hm. left. }
  unfold schedule_NextAttempt. split.
  - intros Hnone. apply map_empty. intros h. destruct (held_of s !! h) as [e|] eqn:Hh; [|done].
    destruct (held_some s h e Hs Hh) as (p & u & _ & _ & Hp).
    destruct (sDue s) as [|q l] eqn:Hd.
    + destruct (sFuture s) as [|q l] eqn:Hf; [set_solver|].
      destruct (Hw q) as [[t Ht] _]; [left; left|]. by rewrite Ht in Hnone.
    + destruct (Hw q) as [[t Ht] _]; [right; left|]. by rewrite Ht in Hnone.
  - intros Hemp. destruct (sDue s) as [|q l] eqn:Hd.
    + destruct (sFuture s) as [|q l] eqn:Hf; [done|].
      destruct (Hw q) as (_ & h & e & Hh); [left; left|]. by rewrite Hemp, lookup_empty in Hh.
    + destruct (Hw q) as (_ & h & e & Hh); [right; left|]. by rewrite Hemp, lookup_empty in Hh.
Qed.

(** ** The interface *)

Record goodSchedule := GoodSchedule { sched :> schedule; sched_good : sched_ok sched }.

Lemma Push_good_ok e (s : goodSchedule) : sched_ok (schedule_Push e s).2.
Proof.
  pose proof (Push_held e s (sched_good s)). destruct (schedule_Push e s) as [h s']. naive_solver.
Qed.
Lemma Remove_good_ok now h (s : goodSchedule) : sched_ok (schedule_Remove now h s).2.
Proof.
  pose proof (schedule_Remove_ok now h s (sched_good s)).
  destruct (schedule_Remove now h s) as [b s']. naive_solver.
Qed.
Lemma PopDue_good_ok now (s : goodSchedule) : sched_ok (schedule_PopDue now s).2.
Proof.
  pose proof (PopDue_held now s (sched_good s)).
  destruct (schedule_PopDue now s) as [[h|] s']; naive_solver.
Qed.

#[export] Program Instance heapScheduler : Scheduler goodSchedule := {
  s_empty := GoodSchedule emptySchedule emptySchedule_ok;
  held s := held_of s;
  s_Push e s := ((schedule_Push e s).1, GoodSchedule _ (Push_good_ok e s));
  s_Remove now h s := ((schedule_Remove now h s).1, GoodSchedule _ (Remove_good_ok now h s));
  s_PopDue now s := ((schedule_PopDue now s).1, GoodSchedule _ (PopDue_good_ok now s));
  s_NextAttempt s := schedule_NextAttempt s
}.
Next Obligation. done. Qed.
Next Obligation.
  intros e s. cbn [fst snd sched]. pose proof (Push_held e s (sched_good s)) as Hp.
  destruct (schedule_Push e s) as [h s']. by destruct Hp as (_ & ? & ?).
Qed.
Next Obligation.
  intros now h s. cbn [fst snd sched]. pose proof (schedule_Remove_ok now h s (sched_good s)) as Hr.
  destruct (schedule_Remove now h s) as [b s']. by destruct Hr as (_ & _ & ? & _).
Qed.
Next Obligation.
  intros now s. pose proof (PopDue_held now s (sched_good s)) as Hp.
  rewrite (surjective_pairing (schedule_PopDue now s)) in Hp. cbv beta iota.
  destruct (schedule_PopDue now s).1 as [h|]; cbv beta iota in Hp; cbn [sched].
  - destruct Hp as (_ & -> & e & He & _). split; [by exists e|done].
  - by destruct Hp as (_ & ? & ?).
Qed.
Next Obligation. intros s. apply NextAttempt_None, sched_good. Qed.

(** ** Histories *)

Inductive sched_op :=
  | OpPush (e : Envelope)
  | OpPopDue (now : Z)
  | OpRemove (now : Z) (h : nat)
  | OpNextAttempt.

Inductive sched_out :=
  | OutHandle (h : nat)
  | OutEnvelope (o : option nat)
  | OutRemoved (b : bool)
  | OutTime (t : option Z).

Definition sched_step (op : sched_op) (s : schedule) : sched_out * schedule :=
  match op with
  | OpPush e => let '(h, s) := schedule_Push e s in (OutHandle h, s)
  | OpPopDue now => let '(o, s) := schedule_PopDue now s in (OutEnvelope o, s)
  | OpRemove now h => let '(b, s) := schedule_Remove now h s in (OutRemoved b, s)
  | OpNextAttempt => (OutTime (schedule_NextAttempt s), s)
  end.

Fixpoint sched_run (ops : list sched_op) (s : schedule) : list sched_out * schedule :=
  match ops with
  | [] => ([], s)
  | op :: ops =>
      let '(o, s) := sched_step op s in
      let '(os, s) := sched_run ops s in (o :: os, s)
  end.

(** The abstract schedule is the map of waiting envelopes. *)
Inductive map_step : sched_op → sched_out → gmap nat Envelope → gmap nat Envelope → Prop :=
  | map_push e h m : m !! h = None → map_step (OpPush e) (OutHandle h) m (<[h := e]> m)
  | map_pop now h m : earliest h m →
      map_step (OpPopDue now) (OutEnvelope (Some h)) m (delete h m)
  | map_idle now m : (∀ h e, m !! h = Some e → (now < NextAttempt e)%Z) →
      map_step (OpPopDue now) (OutEnvelope None) m m
  | map_remove now h m :
      map_step (OpRemove now h) (OutRemoved (bool_decide (is_Some (m !! h)))) m (delete h m)
  | map_next t m : t = None ↔ m = ∅ → map_step OpNextAttempt (OutTime t) m m.

Inductive map_run : list sched_op → list sched_out → gmap nat Envelope → gmap nat Envelope → Prop :=
  | map_done m : map_run [] [] m m
  | map_more op o ops os m m1 m2 :
      map_step op o m m1 → map_run ops os m1 m2 → map_run (op :: ops) (o :: os) m m2.

Lemma sched_step_refines op s :
  sched_ok s →
  let '(o, s') := sched_step op s in sched_ok s' ∧ map_step op o (held_of s) (held_of s').
Proof.
  intros Hs. destruct op as [e|now|now h|]; cbn [sched_step].
  - pose proof (Push_held e s Hs) as Hp. destruct (schedule_Push e s) as [h s'].
    destruct Hp as (Hs' & Hn & ->). split; [done|by constructor].
  - pose proof (PopDue_held now s Hs) as Hp. destruct (schedule_PopDue now s) as [[h|] s'].
    + destruct Hp as (Hs' & -> & He). split; [done|by constructor].
    + destruct Hp as (Hs' & -> & He). split; [done|by constructor].
  - pose proof (schedule_Remove_ok now h s Hs) as Hr. destruct (schedule_Remove now h s) as [b s'].
    destruct Hr as (Hs' & _ & -> & Hb). split; [done|].
    assert (b = bool_decide (is_Some (held_of s !! h))) as ->; [|constructor].
    destruct b; symmetry; [by apply bool_decide_eq_true_2, Hb|].
    apply bool_decide_eq_false_2. intros Hx. by apply Hb in Hx.
  - split; [done|]. constructor. by apply NextAttempt_None.
Qed.

Lemma sched_run_refines ops s :
  sched_ok s →
  let '(os, s') := sched_run ops s in sched_ok s' ∧ map_run ops os (held_of s) (held_of s').
Proof.
  revert s. induction ops as [|op ops IH]; intros s Hs; cbn; [split; [done|constructor]|].
  pose proof (sched_step_refines op s Hs) as H1. destruct (sched_step op s) as [o s1].
  destruct H1 as [Hs1 H1]. specialize (IH s1 Hs1). destruct (sched_run ops s1) as [os s2].
  destruct IH as [Hs2 H2]. split; [done|]. by econstructor.
Qed.

(** C6: Every history of [Push], [PopDue], [Remove] and [NextAttempt] on the
    two-level heap schedule behaves like a plain map of waiting envelopes:
    [Push] stores under a new handle; [PopDue] takes out the earliest message
    of some owner, and reports nothing only when no waiting message is due;
    [Remove] takes out exactly the message named and says whether it was there;
    [NextAttempt] reports a time exactly when something waits. *)
Theorem schedule_refines_map ops :
  let '(os, s) := sched_run ops emptySchedule in map_run ops os ∅ (held_of s).
Proof.
  pose proof (sched_run_refines ops emptySchedule emptySchedule_ok) as H.
  destruct (sched_run ops emptySchedule) as [os s]. apply H.
Qed.

(** ** Time *)

Definition op_time (op : sched_op) : option Z :=
  match op with OpPopDue now | OpRemove now _ => Some now | _ => None end.

(** The clock does not run backwards. *)
Fixpoint clock_ok (T : Z) (ops : list sched_op) : Prop :=
  match ops with
  | [] => True
  | op :: ops =>
      match op_time op with
      | Some now => (T ≤ now)%Z ∧ clock_ok now ops
      | None => clock_ok T ops
      end
  end.

Lemma PopDue_timely T now s :
  sched_ok s → (T ≤ now)%Z → timely T s →
  let '(o, s') := schedule_PopDue now s in
  timely now s' ∧ ∀ h, o = Some h → ∃ e, sEnv s !! h = Some e ∧ (NextAttempt e ≤ now)%Z.
Proof.
  intros Hs HT Ht. rewrite PopDue_serve. pose proof (promote_ok (length (sFuture s)) now s Hs) as Hp.
  specialize (Hp ltac:(lia)). set (s1 := promote _ now s) in *.
  assert (Ht1 : timely now s1).
  { intros p t Hin Hf. rewrite (pm_first _ _ _ Hp) in Hf. destruct (pm_due _ _ _ Hp) as (l & Hd & Hl).
    rewrite Hd in Hin. apply elem_of_app in Hin as [Hin|Hin].
    - specialize (Ht p t Hin Hf). lia.
    - destruct (Hl p Hin) as (t' & Ht' & Hle). congruence. }
  pose proof (pm_ok _ _ _ Hp) as Hs1. destruct (sDue s1) as [|p l] eqn:Hd.
  { unfold serve. rewrite Hd. done. }
  destruct (serve_ok now s1 p l Hs1 Hd) as (n & h & s' & -> & Hn & Hsv). split.
  - intros q t Hq Hf.
    assert (Hpl : p ∉ l).
    { pose proof (so_nodup _ Hs1) as Hnd. rewrite Hd in Hnd. by apply NoDup_cons in Hnd as [? _]. }
    assert (Hin : q ∈ l → (t ≤ now)%Z).
    { intros Hql. apply (Ht1 q); [rewrite Hd; by right|]. rewrite <-Hf. symmetry.
      apply (sv_attempts _ _ _ _ _ _ _ Hsv). by intros ->. }
    destruct (sv_due _ _ _ _ _ _ _ Hsv) as [Heq|[Heq (t' & Ht' & Hle)]]; rewrite Heq in Hq; [auto|].
    apply elem_of_app in Hq as [Hq|Hq]; [auto|]. apply list_elem_of_singleton in Hq as ->. congruence.
  - intros h' [= <-]. destruct (sv_first _ _ _ _ _ _ _ Hsv) as (e & He & _ & Hf).
    rewrite (pm_env _ _ _ Hp) in He. exists e. split; [done|]. apply (Ht1 p); [rewrite Hd; left|done].
Qed.

(** Every message handed out was due at the time of the call. *)
Fixpoint punctual (ops : list sched_op) (s : schedule) : Prop :=
  match ops with
  | [] => True
  | op :: ops =>
      match op, sched_step op s with
      | OpPopDue now, (OutEnvelope (Some h), s') =>
          (∃ e, held_of s !! h = Some e ∧ (NextAttempt e ≤ now)%Z) ∧ punctual ops s'
      | _, (_, s') => punctual ops s'
      end
  end.

Lemma run_punctual ops T s : sched_ok s → timely T s → clock_ok T ops → punctual ops s.
Proof.
  revert T s. induction ops as [|op ops IH]; intros T s Hs Ht Hc; [done|].
  cbn [punctual]. pose proof (sched_step_refines op s Hs) as Hr.
  destruct op as [e|now|now h|]; cbn [sched_step clock_ok op_time] in *.
  - pose proof (timely_Push T e s Hs Ht) as Ht'. destruct (schedule_Push e s) as [h s'].
    apply (IH T); [apply Hr|done|done].
  - destruct Hc as [HT Hc]. pose proof (PopDue_timely T now s Hs HT Ht) as Hp.
    pose proof (PopDue_held now s Hs) as Hh.
    destruct (schedule_PopDue now s) as [[h|] s']; cbn; destruct Hp as [Ht' Hd];
      [|by apply (IH now); [apply Hr|..]].
    destruct Hh as (_ & _ & e & He & _). destruct (Hd h eq_refl) as (e' & He' & Hle).
    split; [|by apply (IH now); [apply Hr|..]]. exists e. split; [done|].
    apply held_of_Some in He as [He _]. congruence.
  - destruct Hc as [HT Hc].
    pose proof (timely_Remove now now h s Hs ltac:(lia) (timely_mono T now s HT Ht)) as Ht'.
    destruct (schedule_Remove now h s) as [b s']. apply (IH now); [apply Hr|done|done].
  - apply (IH T); [done|done|done].
Qed.

(** No message is delivered before its time: in every history in which the
    clock does not run backwards, each envelope [PopDue] hands out has a next
    attempt no later than the time of that call, whatever pushes and removals
    came before. *)
Theorem no_early_delivery ops T : clock_ok T ops → punctual ops emptySchedule.
Proof.
  intros Hc. apply (run_punctual ops T); [apply emptySchedule_ok| |done].
  intros p t Hp. by apply elem_of_nil in Hp.
Qed.

(** ** Turns *)

Lemma promote_users fuel now s : sUsers (promote fuel now s) = sUsers s.
Proof.
  revert s. induction fuel as [|fuel IH]; intros s; [done|]. cbn [promote].
  destruct (sFuture s) as [|p l]; [done|]. destruct (first_attempt s p); [|done].
  destruct (now <? z)%Z; [done|]. destruct (heap_Pop _ _) as [[q|] hp]; [|done].
  rewrite IH. by destruct (sObj (put_future hp s) !! q).
Qed.

Lemma serve_users now s p l n q :
  sched_ok s → sDue s = p :: l → q ≠ p → sUsers s !! n = Some q →
  sUsers (serve now s).2 !! n = Some q.
Proof.
  intros Hs Hd Hq Hn. unfold serve. rewrite Hd. cbn [put_due sObj].
  destruct (sched_due_owner s p l Hs Hd) as (m & u & Hw & _).
  pose proof (wk_owner _ _ _ _ Hw) as Ho. rewrite (ow_obj _ _ _ _ Ho).
  destruct (heap_Pop _ _) as [[h|] hp]; [|done]. cbn [snd].
  destruct (bool_decide _).
  - cbn. rewrite lookup_delete_ne; [done|]. rewrite (ow_name _ _ _ _ Ho). intros <-.
    pose proof (ow_users _ _ _ _ Ho). congruence.
  - by destruct (is_due _ _ _).
Qed.

(** What the rotation looks like after one [PopDue]. *)
Lemma PopDue_turn now s p l :
  sched_ok s → sDue s = p :: l →
  ∃ n h s' l', schedule_PopDue now s = (Some h, s') ∧ sUsers s !! n = Some p ∧
    (∃ e, sEnv s !! h = Some e ∧ Username e = n) ∧ sEnv s' = sEnv s ∧ sDue s' = l ++ l' ∧
    ∀ m q, q ≠ p → sUsers s !! m = Some q → sUsers s' !! m = Some q.
Proof.
  intros Hs Hd. rewrite PopDue_serve. pose proof (promote_ok (length (sFuture s)) now s Hs) as Hp.
  specialize (Hp ltac:(lia)). pose proof (promote_users (length (sFuture s)) now s) as Hu.
  set (s1 := promote _ now s) in *. destruct (pm_due _ _ _ Hp) as (k & Hk & _).
  rewrite Hd in Hk. cbn in Hk. pose proof (pm_ok _ _ _ Hp) as Hs1.
  pose proof (serve_users now s1 p (l ++ k)) as Hsu.
  destruct (serve_ok now s1 p (l ++ k) Hs1 Hk) as (n & h & s' & Heq & Hn & Hsv).
  rewrite Heq in Hsu |- *. rewrite Hu in Hsu, Hn.
  destruct (sv_first _ _ _ _ _ _ _ Hsv) as (e & He & Hen & _).
  assert (Hl : ∃ l', sDue s' = l ++ l').
  { destruct (sv_due _ _ _ _ _ _ _ Hsv) as [->|[-> _]]; [eauto|]. rewrite <-app_assoc. eauto. }
  destruct Hl as [l' Hl]. rewrite (pm_env _ _ _ Hp) in He.
  exists n, h, s', l'. split_and!; [done|done|by exists e| |done|].
  - by rewrite (sv_env _ _ _ _ _ _ _ Hsv), (pm_env _ _ _ Hp).
  - intros m q Hq Hm. by apply Hsu.
Qed.

(** The results of the [PopDue] calls. *)
Fixpoint pops (os : list sched_out) : list (option nat) :=
  match os with
  | [] => []
  | OutEnvelope o :: os => o :: pops os
  | _ :: os => pops os
  end.

Definition serves (op : sched_op) : bool :=
  match op with OpRemove _ _ => false | _ => true end.

Lemma step_env op s h e :
  sched_ok s → sEnv s !! h = Some e → sEnv (sched_step op s).2 !! h = Some e.
Proof.
  intros Hs He. destruct op as [x|now|now k|]; cbn [sched_step].
  - pose proof (schedule_Push_ok x s Hs) as Hp. destruct (schedule_Push x s) as [h' s']. cbn [snd].
    destruct Hp as (_ & Hn & -> & _). rewrite lookup_insert_ne; [done|congruence].
  - rewrite PopDue_serve. pose proof (promote_ok (length (sFuture s)) now s Hs ltac:(lia)) as Hp.
    set (s1 := promote _ now s) in *. rewrite <-(pm_env _ _ _ Hp) in He.
    destruct (sDue s1) as [|p l] eqn:Hd; [unfold serve; by rewrite Hd|].
    destruct (serve_ok now s1 p l (pm_ok _ _ _ Hp) Hd) as (n & h' & s' & -> & _ & Hsv). cbn [snd].
    by rewrite (sv_env _ _ _ _ _ _ _ Hsv).
  - pose proof (schedule_Remove_ok now k s Hs) as Hr. destruct (schedule_Remove now k s) as [b s']. cbn [snd].
    by destruct Hr as (_ & -> & _).
  - done.
Qed.

Lemma run_env ops s h e :
  sched_ok s → sEnv s !! h = Some e → sEnv (sched_run ops s).2 !! h = Some e.
Proof.
  revert s. induction ops as [|op ops IH]; intros s Hs He; [done|]. cbn [sched_run].
  pose proof (sched_step_refines op s Hs) as Hr. pose proof (step_env op s h e Hs He) as He1.
  destruct (sched_step op s) as [o s1]. destruct Hr as [Hs1 _]. specialize (IH s1 Hs1 He1).
  by destruct (sched_run ops s1).
Qed.

Lemma run_turns ops s k n p o :
  sched_ok s → sDue s !! k = Some p → sUsers s !! n = Some p → forallb serves ops = true →
  pops (sched_run ops s).1 !! k = Some o →
  ∃ h e, o = Some h ∧ sEnv (sched_run ops s).2 !! h = Some e ∧ Username e = n.
Proof.
  revert s k. induction ops as [|op ops IH]; intros s k Hs Hk Hn Hops Ho; [done|].
  cbn [sched_run forallb] in *. apply andb_true_iff in Hops as [Hop Hops].
  pose proof (sched_step_refines op s Hs) as Hr.
  destruct op as [x|now|now h|]; [| |done|]; cbn [sched_step] in *.
  - pose proof (schedule_Push_frame x s n p) as [Hd Hu].
    destruct (schedule_Push x s) as [h s1]. cbn [snd] in Hd, Hu.
    specialize (IH s1 k (proj1 Hr)). rewrite Hd in IH. specialize (IH Hk (Hu Hn) Hops).
    destruct (sched_run ops s1) as [os s2]. by apply IH.
  - destruct (sDue s) as [|p0 l] eqn:Hd; [done|].
    destruct (PopDue_turn now s p0 l Hs Hd) as (m & h & s1 & l' & Heq & Hm & (e & He & Hen) & Henv & Hd1 & Hu).
    rewrite Heq in Hr, Ho |- *. destruct Hr as [Hs1 _].
    pose proof (run_env ops s1 h e Hs1) as Hre.
    destruct k as [|k].
    + injection Hk as ->. assert (m = n) as <-.
      { destruct (so_owner _ Hs m p Hm) as (u & Hu1 & _). destruct (so_owner _ Hs n p Hn) as (v & Hv1 & _).
        apply (owner_inj _ _ _ _ _ _ Hu1 Hv1). }
      destruct (sched_run ops s1) as [os s2]. cbn in Ho. injection Ho as <-.
      exists h, e. split_and!; [done|by apply Hre; rewrite Henv|done].
    + cbn in Hk. assert (Hne : p ≠ p0).
      { intros ->. pose proof (so_nodup _ Hs) as Hnd. rewrite Hd in Hnd.
        apply NoDup_cons in Hnd as [Hni _]. apply Hni. by eapply list_elem_of_lookup_2. }
      specialize (IH s1 k Hs1). rewrite Hd1, lookup_app_l in IH by (by eapply lookup_lt_Some).
      specialize (IH Hk (Hu n p Hne Hn) Hops). destruct (sched_run ops s1) as [os s2]. by apply IH.
  - specialize (IH s k Hs Hk Hn Hops). destruct (sched_run ops s) as [os s2]. by apply IH.
Qed.

(** C10: Owners of due messages are served in turn.  In any state a history can
    reach, if an owner stands at position [k] of the rotation, the [k]-th next
    [PopDue] (counting from 0) hands out one of that owner's messages, whatever
    is pushed in between and however many messages the owners ahead of it
    have. *)
Theorem owners_served_in_turn history ops k n p o :
  let s := (sched_run history emptySchedule).2 in
  sDue s !! k = Some p → sUsers s !! n = Some p → forallb serves ops = true →
  pops (sched_run ops s).1 !! k = Some o →
  ∃ h e, o = Some h ∧ sEnv (sched_run ops s).2 !! h = Some e ∧ Username e = n.
Proof.
  intros s Hk Hn Hops Ho. apply (run_turns ops s k n p o); try done.
  pose proof (sched_run_refines history emptySchedule emptySchedule_ok) as Hr.
  unfold s. destruct (sched_run history emptySchedule). apply Hr.
Qed.

(** Owner "a" has three due messages, owner "b" one. *)
Definition mail_from (n id : string) (t : Z) : Envelope :=
  mkEnvelope id "" 1 n "" [] [] 0 0 0 t "" false false "" "" "" "" 0 0 "".

Definition busy : list sched_op :=
  [OpPush (mail_from "a" "m1" 1); OpPush (mail_from "a" "m2" 2); OpPush (mail_from "a" "m3" 3);
   OpPush (mail_from "b" "m4" 4); OpPopDue 10].

Lemma owners_served_witness :
  ∃ h e, pops (sched_run [OpPopDue 11] (sched_run busy emptySchedule).2).1 = [Some h] ∧
    sEnv (sched_run [OpPopDue 11] (sched_run busy emptySchedule).2).2 !! h = Some e ∧
    Username e = "b".
Proof.
  destruct (owners_served_in_turn busy [OpPopDue 11] 0 "b" 5
    (default None (head (pops (sched_run [OpPopDue 11] (sched_run busy emptySchedule).2).1))))
    as (h & e & Hh & He & Hu).
  - vm_compute. reflexivity.
  - vm_compute. reflexivity.
  - reflexivity.
  - vm_compute. reflexivity.
  - exists h, e. split; [|split; [exact He|exact Hu]]. rewrite <-Hh. vm_compute. reflexivity.
Defined.

Lemma no_early_witness : punctual (busy ++ [OpRemove 11 2; OpPopDue 12]) emptySchedule.
Proof. apply (no_early_delivery _ 0). vm_compute. intuition discriminate. Defined.
