(* ===== verification/Storage.v ===== *)
(** * Stored entries (src/internal/queue/storage.go, body.go, quarantine.go)

    Reading an entry back with every integrity check, replacing its metadata,
    moving it between namespaces and quarantining it.  JSON encoding
    (encoding/json) and IDNA are parameters. *)

From S2P Require Import Prelude Errors GoLib Sha256 Envelope Capacity Utf8 Mailbox Validation.
From S2P Require Import FileSystem Disk Queue.
Open Scope Z_scope.

(** The codec of envelope metadata.  Decoding what was encoded gives the
    envelope back when its text survives JSON ([json_safe]: valid UTF-8). *)
Class JsonCodec := {
  json_Marshal : Envelope → res string;
  json_Unmarshal : string → res Envelope;
  json_safe : Envelope → Prop;
  json_roundtrip : ∀ e b, json_safe e → json_Marshal e = Ok b → json_Unmarshal b = Ok e;
  json_plain : ∀ e err, json_Marshal e = Err err → plain_error err = true
}.

Section storage.
Context `{JsonCodec}.
Variable ToASCII : string → res string.
Variable E : Environment.

(** ** Encoding *)

Definition marshalEnvelope (envelope : Envelope) : res string :=
  let? body := json_Marshal envelope in
  reject maxEnvelopeMetadata <? str_len body with Message "envelope metadata exceeds the limit" in
  Ok body.

Definition decodeEnvelopeMetadata (raw expectID : string) : res Envelope :=
  match json_Unmarshal raw with
  | Err _ => Err (corruptionf "invalid json")
  | Ok env =>
      reject negb (bool_decide (ID env = expectID)) with corruptionf "id != directory" in
      match ValidateID (ID env) with
      | Err _ => Err (corruptionf "invalid stored id")
      | Ok _ =>
          match validateEnvelope ToASCII env with
          | (_, Err _) => Err (corruptionf "invalid envelope")
          | (env, Ok _) => Ok env
          end
      end
  end.

(** ** Reading files *)

(** [openRegular]: the open file; nothing changes it between the check and the
    open, so the identity check of the source holds. *)
Definition openRegularFromInfo (o : object) : ST world (res nat) :=
  match o with
  | Directory _ => ret (Err (corruptionf "queue file is not a regular file"))
  | Regular f => call E (λ w, (Ok f, w))
  end.

Definition openRegular (p : path) : ST world (res nat) :=
  try! _ := CheckRead E p in
  try! o := os_Stat E p in
  openRegularFromInfo o.

Definition readBoundedRegular (p : path) (max : Z) : ST world (res string) :=
  try! _ := CheckRead E p in
  try! before := os_Stat E p in
  match before with
  | Directory _ => ret (Err (corruptionf "queue metadata is not a regular file"))
  | Regular i =>
      let! size := gets (λ w, str_len (content w i)) in
      if max <? size then ret (Err (corruptionf "queue metadata exceeds the limit"))
      else
        try! file := openRegularFromInfo before in
        try! raw := os_ReadFile E file in
        if max <? str_len raw then ret (Err (corruptionf "queue metadata exceeds the limit"))
        else ret (Ok raw)
  end.

Definition acceptedDir (dir : path) : ST world (res unit) :=
  try! state := readBoundedRegular (join dir addStateName) maxAddStateBytes in
  if bool_decide (state = addAccepted) then ret (Ok tt)
  else ret (Err (corruptionf "queue entry is not accepted")).

Definition loadEnvelopeMetadata (dir : path) (expectID : string) : ST world (res Envelope) :=
  let! raw := readBoundedRegular (join dir metaName) maxEnvelopeMetadata in
  match raw with
  | Err e => if errors_Is e ErrNotExist then ret (Err (corruptionf "missing metadata"))
             else ret (Err e)
  | Ok raw => ret (decodeEnvelopeMetadata raw expectID)
  end.

Definition loadAcceptedMetadata (dir : path) (expectID : string) : ST world (res Envelope) :=
  let! r := acceptedDir dir in
  match r with
  | Err e =>
      if errors_Is e ErrNotExist then
        let! st := os_Stat E dir in
        match st with
        | Ok _ => ret (Err (corruptionf "queue entry is missing accepted state"))
        | Err statErr => ret (Err statErr)
        end
      else ret (Err e)
  | Ok _ => loadEnvelopeMetadata dir expectID
  end.

(** ** Verifying bodies *)

(** [copyExactBody] and the digest comparison, on the content of the file. *)
Definition verifyWhole (body : string) (expected : Z) (digest : string) : res unit :=
  reject negb (checkedAddInt64 expected 1).2 with Message "body size is too large" in
  reject negb (str_len body =? expected) with corruptionf "body size mismatch while reading" in
  reject negb (bool_decide (bodyDigest body = digest)) with corruptionf "body digest mismatch" in
  Ok tt.

(** [data[off : off+size]]. *)
Definition slice (off size : Z) (data : string) : string :=
  str_take (Z.to_nat size) (str_drop (Z.to_nat off) data).

(** The loop over the variants: consume [rest] body by body. *)
Fixpoint verifyVariants (rest : string) (bodies : list Body) : res unit :=
  match bodies with
  | [] => Ok tt
  | body :: bodies =>
      reject str_len rest <? bSize body with corruptionf "body size mismatch while reading" in
      let variant := str_take (Z.to_nat (bSize body)) rest in
      reject negb (bool_decide (bodyDigest variant = bDigest body))
        with corruptionf "body digest mismatch" in
      verifyVariants (str_drop (Z.to_nat (bSize body)) rest) bodies
  end.

Definition bodies_size (bodies : list Body) : Z := zsum bSize bodies.

Definition verifyEnvelopeBody (body : string) (env : Envelope) : res unit :=
  match Bodies env with
  | [] => verifyWhole body (Size env) (BodyDigest env)
  | bodies =>
      let? _ := verifyVariants body bodies in
      reject negb (str_len body =? Size env) with corruptionf "body size mismatch while reading" in
      reject negb (bool_decide
          (bodyDigest (str_take (Z.to_nat (bodies_size bodies)) body) = BodyDigest env))
        with corruptionf "body digest mismatch" in
      Ok tt
  end.

(** [verifyEnvelopeBodyHandle]: the reads may fail. *)
Definition verifyEnvelopeBodyHandle (f : nat) (env : Envelope) : ST world (res unit) :=
  try! body := os_ReadFile E f in
  ret (verifyEnvelopeBody body env).

Definition verifyBodyData (env : Envelope) (data : string) : res unit :=
  if forallb (λ b, bool_decide (bodyDigest (slice (bOffset b) (bSize b) data) = bDigest b))
       (Bodies env)
  then Ok tt else Err (Message "body: digest does not match data").

(** The part [loadDir] and [loadAcceptedDir] share. *)
Definition loadBody (dir : path) (env : Envelope) : ST world (res Envelope) :=
  let! r := openRegular (join dir bodyName) in
  match r with
  | Err e => if errors_Is e ErrNotExist then ret (Err (corruptionf "missing body"))
             else ret (Err (Wrap "missing body" e))
  | Ok f =>
      let! size := gets (λ w, str_len (content w f)) in
      if negb (size =? Size env) then ret (Err (corruptionf "body size mismatch"))
      else try! _ := verifyEnvelopeBodyHandle f env in ret (Ok env)
  end.

Definition loadDir (dir : path) (expectID : string) : ST world (res Envelope) :=
  try! env := loadEnvelopeMetadata dir expectID in loadBody dir env.

Definition loadAcceptedDir (dir : path) (expectID : string) : ST world (res Envelope) :=
  try! env := loadAcceptedMetadata dir expectID in loadBody dir env.

(** [openBody]: the size is checked before and after the test seam. *)
Definition openBody (dir : path) (env : Envelope) : ST world (res nat) :=
  try! f := openRegular (join dir bodyName) in
  let! size := gets (λ w, str_len (content w f)) in
  if negb (size =? Size env) then ret (Err (corruptionf "body size mismatch"))
  else
    try! _ := call E (λ w, (Ok tt, w)) in
    try! _ := verifyEnvelopeBodyHandle f env in
    ret (Ok f).

Definition openAcceptedBody (dir : path) (expectID : string)
    : ST world (res (Envelope * nat)) :=
  try! env := loadAcceptedMetadata dir expectID in
  try! f := openBody dir env in
  ret (Ok (env, f)).

Definition readBodyFromFile (f : nat) (expected : Z) (digest : string) : ST world (res string) :=
  try! body := os_ReadFile E f in
  match verifyWhole body expected digest with
  | Err e => ret (Err e)
  | Ok _ => ret (Ok body)
  end.

Definition firstBodyVariant (env : Envelope) (data : string) : res string :=
  match Bodies env with
  | [] => Ok data
  | body :: _ =>
      let data := slice (bOffset body) (bSize body) data in
      reject negb (bool_decide (bodyDigest data = bDigest body))
        with corruptionf "message body digest mismatch" in
      Ok data
  end.

(** ** Identity of an entry *)

Definition sameRecipient (before after : Recipient) : bool :=
  bool_decide (Address before = Address after) && bool_decide (rDomain before = rDomain after)
  && (rBody before =? rBody after).

Fixpoint sameRecipients (a b : list Recipient) : bool :=
  match a, b with
  | [], [] => true
  | x :: a, y :: b => sameRecipient x y && sameRecipients a b
  | _, _ => false
  end.

Definition sameMessageContent (current updated : Envelope) : bool :=
  bool_decide (Username current = Username updated)
  && bool_decide (Sender current = Sender updated)
  && (Created current =? Created updated)
  && Bool.eqb (SMTPUTF8 current) (SMTPUTF8 updated)
  && Bool.eqb (EightBit current) (EightBit updated)
  && bool_decide (Bodies current = Bodies updated)
  && sameRecipients (Recipients current) (Recipients updated).

Definition sameDSNSourceLinkage (current updated : Envelope) : bool :=
  bool_decide (DSNSourceID current = DSNSourceID updated)
  && bool_decide (DSNSourceIncarnation current = DSNSourceIncarnation updated)
  && (DSNSourceRevision current =? DSNSourceRevision updated)
  && (DSNGeneration current =? DSNGeneration updated).

Definition sameDSNLinkage (current updated : Envelope) : bool :=
  bool_decide (DSNID current = DSNID updated) && sameDSNSourceLinkage current updated.

Definition sameMessageIdentity (current updated : Envelope) : bool :=
  sameMessageContent current updated && sameDSNLinkage current updated.

Definition addsDSNLink (current updated : Envelope) : bool :=
  is_empty (DSNID current) && negb (is_empty (DSNID updated))
  && sameDSNSourceLinkage current updated.

Definition conflict (m : string) : error := Wrap m (Sentinel ErrIDConflict).

Definition matchReadyUpdate (envelope : Envelope) (allowDSNLink : bool) : ST world (res unit) :=
  try! _ := acceptedDir (PEntry Ready (ID envelope)) in
  try! current := loadDir (PEntry Ready (ID envelope)) (ID envelope) in
  ret
   (reject negb (bool_decide (Incarnation current = Incarnation envelope))
      with conflict "queue incarnation changed" in
    reject negb (Revision current =? Revision envelope)
      with conflict "queue metadata changed" in
    reject negb (Size current =? Size envelope)
           || negb (bool_decide (BodyDigest current = BodyDigest envelope))
      with conflict "queue body identity changed" in
    let identityMatches :=
      if allowDSNLink then sameMessageContent current envelope && addsDSNLink current envelope
      else sameMessageIdentity current envelope in
    reject negb identityMatches with conflict "queue message identity changed" in
    Ok tt).

Definition matchReady (envelope : Envelope) : ST world (res unit) :=
  matchReadyUpdate envelope false.

(** ** Moving and removing *)

(** The flag says whether the live namespace changed. *)
Definition moveState (s : space) (n : string) (s' : space) (n' : string)
    : ST world (bool * res unit) :=
  let! r := Rename E s n s' n' in
  match r with
  | Ok _ => ret (true, Ok tt)
  | Err e =>
      let! src := os_Stat E (PEntry s n) in
      let! dst := os_Stat E (PEntry s' n') in
      match src, dst with
      | Err srcErr, Ok _ =>
          if errors_Is srcErr ErrNotExist then ret (true, Err e) else ret (false, Err e)
      | _, _ => ret (false, Err e)
      end
  end.

(** [moveState] of a file within an entry. *)
Definition moveFile (s : space) (n f f' : string) : ST world (bool * res unit) :=
  let! r := RenameFile E s n f f' in
  match r with
  | Ok _ => ret (true, Ok tt)
  | Err e =>
      let! src := os_Stat E (PFile s n f) in
      let! dst := os_Stat E (PFile s n f') in
      match src, dst with
      | Err srcErr, Ok _ =>
          if errors_Is srcErr ErrNotExist then ret (true, Err e) else ret (false, Err e)
      | _, _ => ret (false, Err e)
      end
  end.

Definition opt_err {A} (r : res A) : option error :=
  match r with Ok _ => None | Err e => Some e end.

Definition to_res (e : option error) : res unit :=
  match e with None => Ok tt | Some e => Err e end.

Definition removeTrash (n : string) : ST world (res unit) :=
  let! removeErr := RemoveAll E Trash n in
  let! syncErr := Sync E (PSpace Trash) in
  ret (to_res (errors_Join (opt_err removeErr) (opt_err syncErr))).

Definition removeAndSync (s : space) (n f : string) : ST world (res unit) :=
  let! r := os_remove_path E (PFile s n f) in
  match r with
  | Err e => if errors_Is e ErrNotExist then Sync E (PEntry s n) else ret (Err e)
  | Ok _ => Sync E (PEntry s n)
  end.

Definition ensureDurableDir (p : path) : ST world (res unit) :=
  let! r := os_Stat E p in
  match r with
  | Ok o => if is_dir o then ret (Ok tt) else ret (Err EEXIST)
  | Err e => if errors_Is e ErrNotExist then MkdirDurable E p else ret (Err e)
  end.

(** ** Metadata replacement *)

Definition writeMeta (s : space) (n f : string) (envelope : Envelope) : ST world (res unit) :=
  match marshalEnvelope envelope with
  | Err e => ret (Err e)
  | Ok body => Write E s n f body
  end.

(** Committed, temporary file retained, error. *)
Definition writeMetaReconciled (s : space) (n f : string) (envelope : Envelope)
    : ST world (bool * bool * res unit) :=
  match marshalEnvelope envelope with
  | Err e => ret (false, false, Err e)
  | Ok body =>
      let! wr := WriteWithTempState E s n f body in
      match wr with
      | (retainedTemp, Err e) =>
          let! visible := readBoundedRegular (PFile s n f) maxEnvelopeMetadata in
          match visible with
          | Ok v =>
              if bool_decide (v = body) then ret (true, retainedTemp, Err e)
              else ret (false, retainedTemp, Err e)
          | Err readErr => ret (false, retainedTemp, Err (Join e readErr))
          end
      | (_, Ok _) => ret (true, false, Ok tt)
      end
  end.

(** ** Quarantine *)

(** [strconv.FormatInt]. *)
Definition FormatInt (z : Z) : string :=
  if z <? 0 then "-" +:+ FormatUint (- z) else FormatUint z.

Definition stamped (name : string) (now : Z) : string := name +:+ "." +:+ FormatInt now.

Definition quarantineDir (s : space) (n name : string) : ST world (res unit) :=
  try! _ := ensureDurableDir (PSpace Corr) in
  let! now := time_Now E in
  let! r := Rename E s n Corr (stamped name now) in
  match r with
  | Err e => ret (Err (Wrap "quarantine" e))
  | Ok _ => ret (Ok tt)
  end.

Definition quarantineFile (s : space) (n name : string) : ST world (res unit) :=
  try! _ := ensureDurableDir (PSpace Corr) in
  let! now := time_Now E in
  let dst := stamped name now in
  try! _ := MkdirDurable E (PEntry Corr dst) in
  let! r := RenameInto E s n Corr dst n in
  match r with
  | Err e =>
      let! removeErr := os_remove_path E (PEntry Corr dst) in
      let! syncErr := Sync E (PSpace Corr) in
      ret (to_res (errors_Join (errors_Join (Some (Wrap "quarantine file" e)) (opt_err removeErr))
                     (opt_err syncErr)))
  | Ok _ => ret (Ok tt)
  end.
End storage.
