(* ===== verification/Bounce.v ===== *)
(** * Failure reports (src/internal/deliver/dsn.go)

    The delivery status notification for the failed recipients of a message: its
    text ([buildDSN]), the status codes it reports, and its envelope
    ([dsnEnvelope]).  The clock's formatted dates, the random boundary and the DKIM
    signer are parameters. *)

From S2P Require Import Prelude Errors GoLib Sha256 Envelope Utf8 Text Mailbox Validation Storage Diagnostic.
Open Scope Z_scope.

Definition dsnOriginalLimit : Z := 262144.
Definition generatedDSNOwner : string := of_list [chr 0] +:+ "generated-dsn".

Definition CRLF : string := of_list crlf.
Definition blank_line : string := CRLF +:+ CRLF.

(** What [buildDSN] takes from outside: [randomBoundary]'s twelve random bytes, the
    current date and the date of an instant in RFC 1123 form. *)
Record dsnStamp := mkDsnStamp {
  randomBytes : res string;
  nowText : string;
  dateText : Z → string
}.

Definition randomBoundary (st : dsnStamp) : res string :=
  let? b := randomBytes st in Ok ("outboxd=" +:+ EncodeToString b).

Definition hasHighOctet (value : string) : bool := existsb (λ c, 128 <=? byte_val c) (str_list value).

Definition is_failed (r : Recipient) : bool := bool_decide (rStatus r = StatusFailed).

Definition dsnReportUTF8 (env : Envelope) : bool :=
  SMTPUTF8 env || hasHighOctet (Sender env)
  || existsb (λ r, is_failed r && (hasHighOctet (Address r) || hasHighOctet (Detail r)))
       (Recipients env).

Definition dsnStatus (r : Recipient) : string :=
  if negb (is_empty (EnhancedCode r))
     && bool_decide (parseEnhancedCode (Code r) (EnhancedCode r) = EnhancedCode r)
  then EnhancedCode r
  else
    let class := Z.quot (Code r) 100 in
    if (class =? 4) || (class =? 5) then FormatInt class +:+ ".0.0" else "5.0.0".

(** Drop bytes from the end until the text is valid UTF-8. *)
Fixpoint valid_front (fuel : nat) (l : list ascii) : list ascii :=
  match fuel with
  | O => l
  | S fuel =>
      if ValidString (of_list l) then l else valid_front fuel (take (length l - 1) l)
  end.

Definition sanitizeHeader (s : string) : string :=
  let l := map (λ c, if is_char 13 c || is_char 10 c then SP else c) (str_list s) in
  of_list (if (200 <? length l)%nat then valid_front 200 (take 200 l) else l).

Definition dsnEnvelopeID (original incarnation : string) (generation : Z) : string :=
  DSNID_of original incarnation generation.

(** [readDSNOriginal] on the bytes read, at most one more than the limit. *)
Definition dsnOriginal (original : string) : string :=
  if str_len original <=? dsnOriginalLimit then original
  else
    match index_list (str_list blank_line) (str_list original) with
    | Some end_ => str_take (end_ + 4) original
    | None => str_take (Z.to_nat dsnOriginalLimit) original
    end.

(** The cut [buildDSN] makes itself. *)
Definition dsnCut (original : string) : string :=
  if is_empty original then CRLF
  else if dsnOriginalLimit <? str_len original then
    match index_list (str_list blank_line) (str_list original) with
    | Some idx => str_take (idx + 4) original
    | None => original
    end
  else original.

(** The human-readable part. *)
Definition humanPart (hostname : string) (failed : list Recipient) : string :=
  "This is the mail system at host " +:+ hostname +:+ "." +:+ blank_line
  +:+ "I'm sorry to have to inform you that your message could not" +:+ CRLF
  +:+ "be delivered to one or more recipients." +:+ blank_line
  +:+ String.concat "" (map (λ r, "<" +:+ Address r +:+ ">: " +:+ Detail r +:+ CRLF) failed).

(** The fields for one recipient of the report. *)
Definition recipientFields (addressType : string) (r : Recipient) : string :=
  CRLF +:+ "Final-Recipient: " +:+ addressType +:+ "; " +:+ Address r +:+ CRLF
  +:+ "Action: failed" +:+ CRLF
  +:+ "Status: " +:+ dsnStatus r +:+ CRLF
  +:+ (if is_empty (Detail r) then ""
       else "Diagnostic-Code: smtp; " +:+ sanitizeHeader (Detail r) +:+ CRLF).

Definition reportPart (hostname addressType arrival : string) (env : Envelope)
    (failed : list Recipient) : string :=
  "Reporting-MTA: dns; " +:+ hostname +:+ CRLF
  +:+ "Arrival-Date: " +:+ arrival +:+ CRLF
  +:+ "X-Original-Envelope-ID: " +:+ ID env +:+ CRLF
  +:+ String.concat "" (map (recipientFields addressType) failed).

(** End the last line of a part. *)
Definition line_ended (s : string) : string := if HasSuffix s CRLF then s else s +:+ CRLF.

Definition dsnHeader (domain sender now msgID reportType boundary : string) : string :=
  "From: Mail Delivery System <MAILER-DAEMON@" +:+ domain +:+ ">" +:+ CRLF
  +:+ "To: <" +:+ sender +:+ ">" +:+ CRLF
  +:+ "Subject: Undelivered Mail Returned to Sender" +:+ CRLF
  +:+ "Date: " +:+ now +:+ CRLF
  +:+ "Message-ID: " +:+ msgID +:+ CRLF
  +:+ "MIME-Version: 1.0" +:+ CRLF
  +:+ "Content-Type: multipart/report; report-type=" +:+ reportType +:+ ";" +:+ CRLF
  +:+ of_list [HT] +:+ "boundary=" +:+ of_list [chr 34] +:+ boundary +:+ of_list [chr 34] +:+ CRLF
  +:+ "Auto-Submitted: auto-replied" +:+ CRLF.

Definition dsnBody (boundary human statusType report originalType original : string) : string :=
  "--" +:+ boundary +:+ CRLF
  +:+ "Content-Type: text/plain; charset=utf-8" +:+ CRLF
  +:+ "Content-Disposition: inline" +:+ CRLF
  +:+ "Content-Transfer-Encoding: 8bit" +:+ blank_line
  +:+ line_ended human
  +:+ CRLF +:+ "--" +:+ boundary +:+ CRLF
  +:+ "Content-Type: " +:+ statusType +:+ CRLF
  +:+ "Content-Description: Delivery report" +:+ blank_line
  +:+ line_ended report
  +:+ CRLF +:+ "--" +:+ boundary +:+ CRLF
  +:+ "Content-Type: " +:+ originalType +:+ CRLF
  +:+ "Content-Description: Undelivered Message" +:+ blank_line
  +:+ line_ended original
  +:+ CRLF +:+ "--" +:+ boundary +:+ "--" +:+ CRLF.

Section bounce.
Variable ToASCII : string → res string.

Definition buildDSN (st : dsnStamp) (hostname : string) (env : Envelope) (original : string)
    : res string :=
  let? domain := match DomainOf ToASCII (Sender env) with
                 | Err e => Err (Wrap "dsn sender domain" e) | r => r end in
  let hostname := if is_empty hostname then "localhost" else hostname in
  let? boundary := randomBoundary st in
  let failed := filter (λ r, is_failed r = true) (Recipients env) in
  reject bool_decide (failed = []) with Message "no failed recipients for DSN" in
  let global := dsnReportUTF8 env in
  let msgID := "<" +:+ dsnEnvelopeID (ID env) (Incarnation env) (DSNGeneration env)
               +:+ "@" +:+ hostname +:+ ">" in
  let orig := dsnCut original in
  Ok (dsnHeader domain (Sender env) (nowText st) msgID
        (if global then "global-delivery-status" else "delivery-status") boundary
      +:+ CRLF
      +:+ dsnBody boundary (humanPart hostname failed)
            (if global then "message/global-delivery-status" else "message/delivery-status")
            (reportPart hostname (if global then "utf-8" else "rfc822")
               (dateText st (Created env)) env failed)
            (if global then "message/global" else "message/rfc822") orig).

(** The notification's envelope. *)
Definition dsnEnvelope (now : Z) (envelope : Envelope) (domain msg : string) : Envelope :=
  mkEnvelope (dsnEnvelopeID (ID envelope) (Incarnation envelope) (DSNGeneration envelope)) "" 0
    generatedDSNOwner "" [mkRecipient (Sender envelope) domain 0 StatusPending "" 0 ""] [] 0 now 0 now ""
    (dsnReportUTF8 envelope) (hasHighOctet msg) "" "" (ID envelope) (Incarnation envelope) 0
    (DSNGeneration envelope) "".

(** Whether a report is due at all. *)
Definition dsnDue (envelope : Envelope) : bool :=
  is_empty (DSNID envelope) && is_empty (DSNSourceID envelope) && negb (is_empty (Sender envelope))
  && negb (Failed envelope =? 0).

(** The body variant that goes into the report: the first failed recipient's. *)
Definition dsnBodyIndex (envelope : Envelope) : Z :=
  match List.find is_failed (Recipients envelope) with Some r => rBody r | None => 0 end.

(** The report and its envelope, from the original's first bytes. *)
Definition composeDSN (st : dsnStamp) (hostname : string)
    (signer : option (string → string → res string)) (now : Z) (envelope : Envelope) (body : string)
    : res (Envelope * string) :=
  let? domain := match DomainOf ToASCII (Sender envelope) with
                 | Err e => Err (Wrap "dsn recipient domain" e) | r => r end in
  let? msg := buildDSN st hostname envelope body in
  let? msg := match signer with
              | None => Ok msg
              | Some sign =>
                  match sign ("MAILER-DAEMON@" +:+ domain) msg with
                  | Err e => Err (Wrap "dsn dkim" e)
                  | Ok sig => Ok (sig +:+ msg)
                  end
              end in
  Ok (dsnEnvelope now envelope domain msg, msg).
End bounce.
