(* ===== verification/BodyReader.v ===== *)
(** * Streaming a stored body (src/internal/queue/body.go)

    [trackedReader] hands out a stored body in the pieces the file system gives
    it and checks length and SHA-256 digest before it reports the end.
    [copy_limited] is [io.Copy] from [io.LimitReader]: with the fuel of
    [copy_verified] it always ends, and it ends without an error only when
    exactly the announced bytes, with the announced digest, were read. *)

From S2P Require Import Prelude Errors GoLib Sha256 Envelope FileSystem Disk Queue Storage.
Open Scope Z_scope.

Definition errIsEOF : error := Message "EOF".

(** The operating system's side of one [File.Read]: how many bytes it has ready,
    or an error.  A read that is not at the end returns at least one byte. *)
Record pieces := mkPieces { ready : nat → nat; faults : nat → option error }.

(** [tr_rest]: what [r.reader] has not yet returned (for a whole body that is also
    what [r.file] has left); [tr_seen]: what went into the hash; [tr_calls]: reads
    made so far. *)
Record trackedReader := mkTracked {
  tr_rest : list ascii;
  tr_remaining : Z;
  tr_digest : string;
  tr_seen : list ascii;
  tr_whole : bool;
  tr_verified : bool;
  tr_calls : nat
}.

Inductive read_err := NoErr | EOF | Failed_ (e : error).

Section reader.
Variable os : pieces.

(** [File.Read] of at most [n] bytes, [n] positive. *)
Definition file_read (n : nat) (r : trackedReader) : list ascii * read_err * trackedReader :=
  let next rest := mkTracked rest (tr_remaining r) (tr_digest r) (tr_seen r) (tr_whole r)
                     (tr_verified r) (S (tr_calls r)) in
  match faults os (tr_calls r) with
  | Some e => ([], Failed_ e, next (tr_rest r))
  | None =>
      match tr_rest r with
      | [] => ([], EOF, next [])
      | rest =>
          let k := Nat.min n (Nat.max 1 (ready os (tr_calls r))) in
          (take k rest, NoErr, next (drop k rest))
      end
  end.

Definition sizeMismatch : error := corruptionf "body size mismatch while reading".
Definition digestMismatch : error := corruptionf "body digest mismatch".

Definition set_verified (r : trackedReader) : trackedReader :=
  mkTracked (tr_rest r) (tr_remaining r) (tr_digest r) (tr_seen r) (tr_whole r) true (tr_calls r).

(** The bytes read go into the hash and off the remaining count. *)
Definition consume (bs : list ascii) (r : trackedReader) : trackedReader :=
  mkTracked (tr_rest r) (tr_remaining r - Z.of_nat (length bs)) (tr_digest r) (tr_seen r ++ bs)
    (tr_whole r) (tr_verified r) (tr_calls r).

(** [(r *trackedReader) Read]. *)
Definition Read (n : nat) (r : trackedReader) : list ascii * read_err * trackedReader :=
  if tr_verified r then ([], EOF, r)
  else if tr_remaining r =? 0 then
    let '(extra, err, r) := if tr_whole r then file_read 1 r else ([], EOF, r) in
    match extra, err with
    | _ :: _, _ => ([], Failed_ sizeMismatch, r)
    | [], Failed_ e => ([], Failed_ e, r)
    | [], _ =>
        if negb (bool_decide (bodyDigestPrefix +:+ EncodeToString (Sum256 (of_list (tr_seen r)))
                              = tr_digest r))
        then ([], Failed_ digestMismatch, r)
        else ([], EOF, set_verified r)
    end
  else
    let n := if tr_remaining r <? Z.of_nat n then Z.to_nat (tr_remaining r) else n in
    let '(bs, err, r) := file_read n r in
    let r := consume bs r in
    match err with
    | EOF => if negb (tr_remaining r =? 0) then (bs, Failed_ sizeMismatch, r) else (bs, EOF, r)
    | _ => (bs, err, r)
    end.

(** The buffer [io.Copy] uses for a limited reader. *)
Definition copy_buffer (limit : Z) : nat :=
  if 32768 <=? limit then Z.to_nat 32768 else if limit <? 1 then 1 else Z.to_nat limit.

(** [(l *LimitedReader) Read]. *)
Definition limited_read (n : nat) (limit : Z) (r : trackedReader)
    : list ascii * read_err * Z * trackedReader :=
  if limit <=? 0 then ([], EOF, limit, r)
  else
    let n := if limit <? Z.of_nat n then Z.to_nat limit else n in
    let '(bs, err, r) := Read n r in
    (bs, err, limit - Z.of_nat (length bs), r).

(** The loop of [io.Copy]: the pieces in order and how it ended; [None] when the
    fuel ran out. *)
Fixpoint copy_loop (fuel : nat) (buf : nat) (limit : Z) (r : trackedReader)
    : option (list (list ascii) * option error) :=
  match fuel with
  | O => None
  | S fuel =>
      let '(bs, err, limit, r) := limited_read buf limit r in
      let piece rest := match bs with [] => rest | _ => bs :: rest end in
      match err with
      | EOF => Some (piece [], None)
      | Failed_ e => Some (piece [], Some e)
      | NoErr =>
          match copy_loop fuel buf limit r with
          | Some (rest, e) => Some (piece rest, e)
          | None => None
          end
      end
  end.

Definition copy_limited (limit : Z) (r : trackedReader) : option (list (list ascii) * option error) :=
  copy_loop (S (length (tr_rest r))) (copy_buffer limit) limit r.
End reader.

(** ** Opening a body *)

Section open.
Context {S : Type} `{Scheduler S} `{JsonCodec}.
Variable ToASCII : string → res string.
Variable E : Environment.

Definition errBodyIndex : error := Message "invalid message body index".

(** The reader of one variant of an opened body file. *)
Definition variantReader (env : Envelope) (data : string) (bodyIndex : Z) : res trackedReader :=
  match Bodies env with
  | [] =>
      reject negb (bodyIndex =? 0) with errBodyIndex in
      Ok (mkTracked (str_list data) (Size env) (BodyDigest env) [] true false 0)
  | bodies =>
      reject (bodyIndex <? 0) || (Z.of_nat (length bodies) <=? bodyIndex) with errBodyIndex in
      match bodies !! Z.to_nat bodyIndex with
      | None => Err errBodyIndex
      | Some body =>
          Ok (mkTracked (str_list (slice (bOffset body) (bSize body) data)) (bSize body)
                (bDigest body) [] false false 0)
      end
  end.

(** [ReaderVariant]; on success the operation stays open until [CloseReader]. *)
Definition ReaderVariant (id : string) (bodyIndex : Z) : ST (Queue S) (res trackedReader) :=
  try! _ := beginOperation in
  let! r :=
    match ValidateID id with
    | Err e => ret (Err e)
    | Ok _ =>
        try! (env, f) := onDisk (openAcceptedBody ToASCII E (PEntry Ready id) id) in
        let! data := gets (λ q, content (disk q) f) in
        ret (variantReader env data bodyIndex)
    end in
  match r with
  | Ok reader => ret (Ok reader)
  | Err e => let! _ := endOperation in ret (Err e)
  end.

Definition Reader (id : string) : ST (Queue S) (res trackedReader) := ReaderVariant id 0.

(** [(r *trackedReader) Close], the first time. *)
Definition CloseReader : ST (Queue S) unit := endOperation.

Definition readEntryBody (s : space) (id : string) : ST (Queue S) (res (Envelope * nat)) :=
  onDisk (openAcceptedBody ToASCII E (PEntry s id) id).

Definition readOpened (ef : Envelope * nat) : ST (Queue S) (res string) :=
  try! body := onDisk (readBodyFromFile E ef.2 (Size ef.1) (BodyDigest ef.1)) in
  ret (firstBodyVariant ef.1 body).

(** [ReadBody] of a writable queue: the ready entry, or else the dead one. *)
Definition ReadBody (id : string) : ST (Queue S) (res string) :=
  try! _ := beginOperation in
  let! r :=
    match ValidateID id with
    | Err e => ret (Err e)
    | Ok _ =>
        let! opened := readEntryBody Ready id in
        match opened with
        | Ok ef => readOpened ef
        | Err e =>
            if negb (errors_Is e ErrNotExist) then ret (Err e)
            else try! ef := readEntryBody Dead id in readOpened ef
        end
    end in
  let! _ := endOperation in
  ret r.

(** A reader starts unread and unverified, with a body of the stored envelope. *)
Lemma variantReader_fresh env data i r :
  variantReader env data i = Ok r →
  tr_verified r = false ∧ tr_seen r = [] ∧
  ((Bodies env = [] ∧ tr_remaining r = Size env ∧ tr_digest r = BodyDigest env) ∨
   ∃ b, b ∈ Bodies env ∧ tr_remaining r = bSize b ∧ tr_digest r = bDigest b).
Proof.
  unfold variantReader. destruct (Bodies env) as [|b bs] eqn:Eb.
  - destruct (negb _); [done|]. intros [= <-]. cbn. split_and!; [done|done|]. by left.
  - destruct (_ || _); [done|]. destruct ((b :: bs) !! Z.to_nat i) as [b'|] eqn:El; [|done].
    intros [= <-]. apply list_elem_of_lookup_2 in El. cbn. split_and!; [done|done|]. eauto.
Qed.
End open.

(** ** The end of a copy *)

Section copy.
Context (os : pieces).
#[local] Opaque Sum256 EncodeToString.

Definition digest_ok (r : trackedReader) (data : list ascii) : Prop :=
  bodyDigest (of_list (tr_seen r ++ data)) = tr_digest r.

(** What an error-free end means for the bytes [data] read and the bytes [tail]
    the reader still has. *)
Definition complete_body (r : trackedReader) (data tail : list ascii) : Prop :=
  Z.of_nat (length data) = tr_remaining r ∧ digest_ok r data ∧ (tr_whole r = true → tail = []).

(** A read at the end of the body: the digest, and for a whole body the absence of
    more bytes, decide. *)
Lemma read_end n r bs err r' :
  tr_verified r = false → tr_remaining r = 0 → Read os n r = (bs, err, r') →
  bs = [] ∧ err ≠ NoErr ∧ (err = EOF → complete_body r [] (tr_rest r)) ∧
  ((∀ i, faults os i = None) → complete_body r [] (tr_rest r) → err = EOF).
Proof.
  intros Hv Hz. unfold Read. rewrite Hv, Hz. cbn [Z.eqb].
  unfold complete_body, digest_ok, bodyDigest. rewrite app_nil_r, Hz.
  destruct (tr_whole r) eqn:Ew.
  - unfold file_read. destruct (faults os (tr_calls r)) as [e|] eqn:Ef.
    { intros [= <- <- <-]. split_and!; [done|done|done|]. intros Hf. by rewrite Hf in Ef. }
    destruct (tr_rest r) as [|c rest].
    + cbn. case_bool_decide as Hd; intros [= <- <- <-]; naive_solver.
    + assert (∃ k, Nat.min 1 (Nat.max 1 (ready os (tr_calls r))) = S k) as [k ->] by (exists 0%nat; lia).
      intros [= <- <- <-]. split_and!; [done|done|done|]. intros _ (_ & _ & Hx). by specialize (Hx eq_refl).
  - cbn. case_bool_decide as Hd; intros [= <- <- <-]; naive_solver.
Qed.

(** A read returns no more than it was asked for. *)
Lemma Read_length n r bs err r' : Read os n r = (bs, err, r') → (length bs ≤ n)%nat.
Proof.
  assert (Hf : ∀ m r bs err r', file_read os m r = (bs, err, r') → (length bs ≤ m)%nat).
  { clear. intros m r bs err r'. unfold file_read. destruct (faults os _); [intros [= <- _ _]; simpl; lia|].
    destruct (tr_rest r); [intros [= <- _ _]; simpl; lia|]. intros [= <- _ _]. rewrite length_take. lia. }
  unfold Read. destruct (tr_verified r); [intros [= <- _ _]; simpl; lia|].
  destruct (tr_remaining r =? 0).
  - destruct (if tr_whole r then file_read os 1 r else ([], EOF, r)) as [[x y] z]. repeat case_match; intros [= <- _ _]; simpl; lia.
  - set (m := if tr_remaining r <? Z.of_nat n then Z.to_nat (tr_remaining r) else n).
    assert (m ≤ n)%nat by (unfold m; case_match; lia). clearbody m.
    destruct (file_read os m r) as [[x y] z] eqn:Ef. apply Hf in Ef.
    assert (length x ≤ n)%nat by lia.
    destruct y; [|case_match|]; by intros [= <- _ _].
Qed.

(** A read before the end: some bytes, or the copy is over with an error. *)
Lemma read_more n r bs err r' :
  tr_verified r = false → 0 < tr_remaining r → (1 ≤ n)%nat → Read os n r = (bs, err, r') →
  (err = NoErr ∧ bs ≠ [] ∧ tr_rest r = bs ++ tr_rest r' ∧
   tr_remaining r' = tr_remaining r - Z.of_nat (length bs) ∧ 0 ≤ tr_remaining r' ∧
   tr_seen r' = tr_seen r ++ bs ∧ tr_digest r' = tr_digest r ∧ tr_whole r' = tr_whole r ∧
   tr_verified r' = false) ∨
  (bs = [] ∧ (∃ e, err = Failed_ e) ∧
   ((∀ i, faults os i = None) → tr_rest r = [])).
Proof.
  intros Hv Hpos Hn. unfold Read. rewrite Hv. assert (tr_remaining r =? 0 = false) as -> by lia.
  set (m := if tr_remaining r <? Z.of_nat n then Z.to_nat (tr_remaining r) else n).
  assert ((1 ≤ m)%nat ∧ Z.of_nat m ≤ tr_remaining r) as [Hm1 Hm2] by (unfold m; case_match; lia).
  clearbody m. unfold file_read. destruct (faults os (tr_calls r)) as [e|] eqn:Ef.
  { intros [= <- <- <-]. right. split_and!; [done|by eauto|]. intros Hf. by rewrite Hf in Ef. }
  destruct (tr_rest r) as [|c rest] eqn:Er.
  { cbn. rewrite Z.sub_0_r. assert (tr_remaining r =? 0 = false) as -> by lia.
    intros [= <- <- <-]. right. eauto. }
  set (k := Nat.min m (Nat.max 1 (ready os (tr_calls r)))).
  assert (1 ≤ k ≤ m)%nat as [Hk1 Hk2] by lia. clearbody k.
  intros [= <- <- <-]. left. cbn.
  pose proof (length_take_le (c :: rest) k) as Hl. rewrite length_take.
  split_and!; try done; try lia.
  - destruct k; [lia|done].
  - by rewrite take_drop.
Qed.

Lemma complete_step r r' bs data tail :
  tr_remaining r' = tr_remaining r - Z.of_nat (length bs) →
  tr_seen r' = tr_seen r ++ bs → tr_digest r' = tr_digest r → tr_whole r' = tr_whole r →
  complete_body r' data tail ↔ complete_body r (bs ++ data) tail.
Proof.
  intros Hr Hs Hd Hw. unfold complete_body, digest_ok. rewrite Hs, Hd, Hw, Hr, <-app_assoc, length_app.
  split; intros (H1 & H2 & H3); split_and!; try done; lia.
Qed.

Lemma copy_loop_spec fuel buf r :
  (length (tr_rest r) < fuel)%nat → (1 ≤ buf)%nat → 0 ≤ tr_remaining r → tr_verified r = false →
  ∃ ps e tail, copy_loop os fuel buf (tr_remaining r + 1) r = Some (ps, e) ∧
    tr_rest r = concat ps ++ tail ∧
    Z.of_nat (length (concat ps)) ≤ tr_remaining r ∧
    (e = None → complete_body r (concat ps) tail) ∧
    ((∀ i, faults os i = None) →
     (∃ data tail, tr_rest r = data ++ tail ∧ complete_body r data tail) → e = None).
Proof.
  revert r. induction fuel as [|fuel IH]; intros r Hlen Hbuf Hrem Hv; [lia|]. cbn [copy_loop].
  unfold limited_read. assert (tr_remaining r + 1 <=? 0 = false) as -> by lia.
  set (n := if tr_remaining r + 1 <? Z.of_nat buf then Z.to_nat (tr_remaining r + 1) else buf).
  assert (1 ≤ n)%nat as Hn by (unfold n; case_match; lia). clearbody n.
  destruct (Read os n r) as [[bs err] r'] eqn:ER.
  destruct (decide (tr_remaining r = 0)) as [Hz|Hnz].
  { destruct (read_end _ _ _ _ _ Hv Hz ER) as (-> & Hne & Hend & Hall).
    assert (Hall' : (∀ i, faults os i = None) →
              (∃ data tail, tr_rest r = data ++ tail ∧ complete_body r data tail) → err = EOF).
    { intros Hf (data & tail & Hd & Hc). apply Hall; [done|].
      assert (data = []) as ->. { destruct Hc as [Hl _]. rewrite Hz in Hl. by destruct data. }
      by rewrite Hd. }
    destruct err as [| |e]; [done| |].
    - exists [], None, (tr_rest r). split_and!; [done|done|simpl; lia|by auto|done].
    - exists [], (Some e), (tr_rest r). split_and!; [done|done|simpl; lia|done|].
      intros Hf Hd. discriminate (Hall' Hf Hd). }
  destruct (read_more _ _ _ _ _ Hv ltac:(lia) Hn ER) as
    [(-> & Hbs & Hrest & Hr & Hr0 & Hs & Hd & Hw & Hv')|(-> & [e ->] & Hall)].
  - assert (Hlt : (length (tr_rest r') < fuel)%nat).
    { rewrite Hrest, length_app in Hlen. destruct bs; [done|]. simpl in Hlen. lia. }
    destruct (IH r' Hlt Hbuf Hr0 Hv') as (ps & e & tail & Hc & Hps & Hle & Hok & Hall).
    replace (tr_remaining r + 1 - Z.of_nat (length bs)) with (tr_remaining r' + 1) by lia.
    rewrite Hc. destruct bs as [|c bs]; [done|]. exists ((c :: bs) :: ps), e, tail.
    cbn [concat]. split_and!; [done| | | |].
    + by rewrite Hrest, Hps, app_assoc.
    + rewrite length_app. lia.
    + intros He. rewrite <-(complete_step r r' (c :: bs)) by done. by apply Hok.
    + intros Hf (data & tl & Hdata & Hcomp). apply Hall; [done|].
      assert (∃ data', data = (c :: bs) ++ data') as [data' ->].
      { destruct Hcomp as [Hl _]. exists (drop (length (c :: bs)) data).
        rewrite Hrest in Hdata. rewrite <-(take_drop (length (c :: bs)) data) at 1. f_equal.
        rewrite <-(take_app_le data tl) by lia. by rewrite <-Hdata, take_app_length. }
      exists data', tl. split.
      * rewrite Hrest, <-app_assoc in Hdata. by apply app_inv_head in Hdata.
      * by rewrite (complete_step r r' (c :: bs)).
  - exists [], (Some e), (tr_rest r). split_and!; [done|done|simpl; lia|done|].
    intros Hf (data & tl & Hdata & [Hl _]). rewrite (Hall Hf) in Hdata.
    destruct data; [simpl in Hl; lia|done].
Qed.

(** Whatever the limit: an error-free end is at the limit or at a complete body. *)
Lemma copy_loop_any fuel buf limit r :
  (length (tr_rest r) < fuel)%nat → (1 ≤ buf)%nat → 0 ≤ tr_remaining r → tr_verified r = false →
  ∃ ps e, copy_loop os fuel buf limit r = Some (ps, e) ∧
    (e = None → Z.of_nat (length (concat ps)) = Z.max 0 limit ∨ ∃ tail, complete_body r (concat ps) tail).
Proof.
  revert limit r. induction fuel as [|fuel IH]; intros limit r Hlen Hbuf Hrem Hv; [lia|]. cbn [copy_loop].
  unfold limited_read. destruct (Z.leb_spec limit 0).
  { exists [], None. split; [done|]. intros _. left. simpl. lia. }
  set (n := if limit <? Z.of_nat buf then Z.to_nat limit else buf).
  assert (1 ≤ n)%nat as Hn by (unfold n; case_match; lia).
  assert (Z.of_nat n ≤ limit) as Hnl by (unfold n; case_match; lia). clearbody n.
  destruct (Read os n r) as [[bs err] r'] eqn:ER.
  destruct (decide (tr_remaining r = 0)) as [Hz|Hnz].
  { destruct (read_end _ _ _ _ _ Hv Hz ER) as (-> & Hne & Hend & _).
    destruct err as [| |e]; [done| |].
    - exists [], None. split; [done|]. intros _. right. by exists (tr_rest r); apply Hend.
    - by exists [], (Some e). }
  destruct (read_more _ _ _ _ _ Hv ltac:(lia) Hn ER) as
    [(-> & Hbs & Hrest & Hr & Hr0 & Hs & Hd & Hw & Hv')|(-> & [e ->] & Hall)];
    [|by exists [], (Some e)].
  assert (Hlt : (length (tr_rest r') < fuel)%nat).
  { rewrite Hrest, length_app in Hlen. destruct bs; [done|]. simpl in Hlen. lia. }
  assert (Hbl : Z.of_nat (length bs) ≤ limit) by (pose proof (Read_length _ _ _ _ _ ER); lia).
  destruct (IH (limit - Z.of_nat (length bs)) r' Hlt Hbuf Hr0 Hv') as (ps & e & Hc & Hok).
  rewrite Hc. destruct bs as [|c bs]; [done|]. exists ((c :: bs) :: ps), e. cbn [concat].
  split; [done|]. intros He. destruct (Hok He) as [Hmax|[tail Ht]].
  - left. rewrite length_app. lia.
  - right. exists tail. by rewrite <-(complete_step r r' (c :: bs)).
Qed.

Lemma copy_limited_any limit r :
  0 ≤ tr_remaining r → tr_verified r = false →
  ∃ ps e, copy_limited os limit r = Some (ps, e) ∧
    (e = None → Z.of_nat (length (concat ps)) = Z.max 0 limit ∨ ∃ tail, complete_body r (concat ps) tail).
Proof.
  intros Hr Hv. apply copy_loop_any; [lia| |done|done].
  unfold copy_buffer. case_match; [by apply Nat.leb_le|]. case_match; lia.
Qed.

(** C26: Copying a stored body always ends, whatever pieces the file system returns
    and whether or not its reads fail, and it ends without an error exactly for an
    intact body: as many bytes as the metadata announces, with the announced
    SHA-256 digest and, when the file holds one body, nothing after them; then
    exactly those bytes were handed out.  Without read errors an intact body is
    never refused. *)
Theorem copy_verified r :
  tr_verified r = false → tr_seen r = [] → 0 ≤ tr_remaining r →
  ∃ ps e tail, copy_limited os (tr_remaining r + 1) r = Some (ps, e) ∧
    tr_rest r = concat ps ++ tail ∧
    Z.of_nat (length (concat ps)) ≤ tr_remaining r ∧
    (e = None → Z.of_nat (length (concat ps)) = tr_remaining r ∧
                bodyDigest (of_list (concat ps)) = tr_digest r ∧
                (tr_whole r = true → tail = [])) ∧
    ((∀ i, faults os i = None) →
     (∃ data tail, tr_rest r = data ++ tail ∧ Z.of_nat (length data) = tr_remaining r ∧
                   bodyDigest (of_list data) = tr_digest r ∧ (tr_whole r = true → tail = [])) →
     e = None).
Proof.
  intros Hv Hs Hr.
  assert (1 ≤ copy_buffer (tr_remaining r + 1))%nat as Hb.
  { unfold copy_buffer. case_match; [by apply Nat.leb_le|]. case_match; lia. }
  destruct (copy_loop_spec (S (length (tr_rest r))) _ r ltac:(lia) Hb Hr Hv)
    as (ps & e & tail & Hc & Hps & Hle & Hok & Hall).
  exists ps, e, tail. unfold complete_body, digest_ok in Hok, Hall. rewrite Hs in Hok, Hall.
  split_and!; [done|done|done|exact Hok|exact Hall].
Qed.
End copy.

(** A five-byte body read in two pieces. *)
Definition sampleReader : trackedReader :=
  mkTracked (str_list "hello") 5 (bodyDigest "hello") [] true false 0.

Lemma copy_verified_witness :
  ∃ ps e tail, copy_limited (mkPieces (λ _, 3%nat) (λ _, None)) 6 sampleReader = Some (ps, e) ∧
    str_list "hello" = concat ps ++ tail ∧ e = None.
Proof.
  destruct (copy_verified (mkPieces (λ _, 3%nat) (λ _, None)) sampleReader eq_refl eq_refl
              ltac:(done)) as (ps & e & tail & Hc & Hr & _ & _ & Hall).
  exists ps, e, tail. split_and!; [exact Hc|exact Hr|]. apply Hall; [done|].
  exists (str_list "hello"), []. split_and!; [done|done|done|done].
Defined.
