(* ===== verification/Send.v ===== *)
(** * One SMTP transaction and one domain (src/internal/deliver/send.go, domain.go,
      outcome.go, response.go)

    [send] delivers one message variant to the recipients of one domain through
    one host; [domain] goes through the domain's hosts.  The envelope is passed
    along as it is written to; what went over the wire is kept per host. *)

From S2P Require Import Prelude Errors GoLib Text Envelope Storage Diagnostic Netpolicy Discovery Client BodyReader.
Open Scope Z_scope.

(** [err.Error()] for the sentinels of deliver/errors.go. *)
Definition sentinel_text (s : sentinel) : string :=
  match s with
  | errBodyTooShort => "queued body shorter than envelope size"
  | errBodyTooLong => "queued body longer than envelope size"
  | errNullMX => "domain does not accept mail (null MX)"
  | errNoSuchDomain => "recipient domain does not exist"
  | errSMTPUTF8Unsupported => "destination does not support SMTPUTF8"
  | err8BITMIMEUnsupported => "destination does not support 8BITMIME"
  | errTLSRequired => "TLS required but STARTTLS not available"
  | errTLSFailed => "STARTTLS failed; refusing plaintext downgrade"
  | errNoUsableIP => "no usable destination address"
  | errPrivateDestination => "destination address is not publicly routable"
  | errAttemptTimeout => "delivery attempt timeout exceeded"
  | errLifetime => "maximum queue lifetime exceeded"
  | errSMTPResponseTooLarge => "SMTP response exceeds size limit"
  | _ => ""
  end.

(** ** Writing outcomes *)

(** [recipient := &envelope.Recipients[index]] and assignments through it. *)
Definition at_index (f : Recipient → Recipient) (index : nat) (e : Envelope) : Envelope :=
  set_Recipients (alter f index (Recipients e)) e.

Definition at_indexes (f : Recipient → Recipient) (indexes : list nat) (e : Envelope) : Envelope :=
  fold_left (λ e i, at_index f i e) indexes e.

(** [(d *Deliverer) reject]. *)
Definition rejectDetail (indexes : list nat) (detail : string) (e : Envelope) : Envelope :=
  let detail := normalizeDiagnostic detail in
  at_indexes (λ r, set_Detail detail (set_rStatus StatusFailed r)) indexes e.

Section send.
Context `{CaseTables}.

(** [err.Error()]: the error trees keep no text for the operating system's errors. *)
Variable err_text : error → string.

Definition describe (e : error) : string :=
  match errors_AsSMTP e with
  | Some (code, _, msg) => normalizeDiagnostic (FormatInt code +:+ " " +:+ msg)
  | None => normalizeDiagnostic (err_text e)
  end.

Definition rejectSMTP (indexes : list nat) (err : error) (e : Envelope) : Envelope :=
  let detail := describe err in
  let code := smtpCode err in
  let enhanced := smtpEnhancedCode err in
  at_indexes (λ r, set_EnhancedCode enhanced (set_Code code (set_Detail detail
                     (set_rStatus StatusFailed r)))) indexes e.

(** ** Recipients *)

Definition is_pending (e : Envelope) (i : nat) : bool :=
  match Recipients e !! i with
  | Some r => bool_decide (rStatus r = StatusPending)
  | None => false
  end.

Definition address_at (e : Envelope) (i : nat) : string :=
  match Recipients e !! i with Some r => Address r | None => "" end.

(** One RCPT after the other, whatever the answers. *)
Fixpoint rcptEach (addresses : list string) : ST Client (list (option error)) :=
  match addresses with
  | [] => ret []
  | a :: addresses =>
      let! r := RcptTo a in
      let! rest := rcptEach addresses in
      ret ((match r with Ok _ => None | Err e => Some e end) :: rest)
  end.

Definition rcptResults (addresses : list string) : ST Client (list (option error) * option error) :=
  let! pipelining := gets (Extension "PIPELINING") in
  if pipelining && (1 <? length addresses)%nat then RcptBatch addresses
  else let! rs := rcptEach addresses in ret (rs, None).

(** The loop over the results: accepted indexes, temporary failures, envelope. *)
Fixpoint applyResults (pairs : list (nat * option error)) (accepted : list nat)
    (temporary : list string) (e : Envelope) : list nat * list string * Envelope :=
  match pairs with
  | [] => (accepted, temporary, e)
  | (index, None) :: pairs => applyResults pairs (accepted ++ [index]) temporary e
  | (index, Some result) :: pairs =>
      if permanent result then
        applyResults pairs accepted temporary (rejectSMTP [index] result e)
      else
        let detail := describe result in
        applyResults pairs accepted (temporary ++ [address_at e index +:+ ": " +:+ detail])
          (at_index (set_Detail detail) index e)
  end.

Definition temporaryFailures (temporary : list string) : option error :=
  match temporary with
  | [] => None
  | _ => Some (Message ("temporary RCPT failures: " +:+ join_with "; " temporary))
  end.

(** ** The transaction *)

(** What [send] returns and the envelope it leaves. *)
Definition verdict : Type := bool * option error * Envelope.

Definition done (temporary : list string) (e : Envelope) : verdict :=
  match temporaryFailures temporary with
  | Some err => (false, Some err, e)
  | None => (true, None, e)
  end.

(** A permanent reply fails the given recipients and ends the work; any other
    error is returned. *)
Definition refused (indexes : list nat) (err : error) (e : Envelope) : verdict :=
  if permanent err then (true, None, rejectSMTP indexes err e) else (false, Some err, e).

(** [io.Copy] to the data writer: a failing write ends it. *)
Fixpoint writePieces (ps : list (list ascii)) : ST Client (option error) :=
  match ps with
  | [] => ret None
  | p :: ps =>
      let! w := put (Content (of_list p)) in
      match w with Some e => ret (Some e) | None => writePieces ps end
  end.

Fixpoint pieces_size (ps : list (list ascii)) : Z :=
  match ps with [] => 0 | p :: ps => Z.of_nat (length p) + pieces_size ps end.

(** DATA and the body; [ps] and [end_] are what the body's reader hands out. *)
Definition transfer (h : string) (messageSize : Z) (ps : list (list ascii)) (end_ : option error)
    (accepted : list nat) (temporary : list string) (e : Envelope) : ST Client verdict :=
  let! started := DataStart in
  match started with
  | Err err => ret (refused accepted err e)
  | Ok _ =>
      let! w := writePieces ps in
      match (match w with Some err => Some err | None => end_ end) with
      | Some err => let! _ := CloseClient in ret (false, Some err, e)
      | None =>
          let written := pieces_size ps in
          if negb (written =? messageSize) then
            let! _ := CloseClient in
            ret (false,
                 Some (if written <? messageSize then Wrap "got" (Sentinel errBodyTooShort)
                       else Wrap "got at least" (Sentinel errBodyTooLong)), e)
          else
            let! closed := DataClose in
            match closed with
            | Err err => ret (refused accepted err e)
            | Ok reply =>
                let detail := normalizeDiagnostic (h +:+ ": " +:+ reply) in
                let e := at_indexes (λ r, set_Detail detail (set_rStatus StatusSent r)) accepted e in
                let! _ := Quit in
                ret (done temporary e)
            end
      end
  end.

(** The transaction on a connected client.  [open_body] opens the body; a copy
    that runs out of fuel does not exist (copy_verified), [None] stands for it. *)
Definition transaction (h : string) (messageSize : Z) (eightBit : bool)
    (open_body : res (option (list (list ascii) * option error))) (indexes : list nat) (e : Envelope)
    : ST Client (option verdict) :=
  let! utf8 := gets (Extension "SMTPUTF8") in
  if SMTPUTF8 e && negb utf8 then
    let! _ := Quit in ret (Some (false, Some (Sentinel errSMTPUTF8Unsupported), e))
  else
  let! eight := gets (Extension "8BITMIME") in
  if eightBit && negb eight then
    let! _ := Quit in ret (Some (false, Some (Sentinel err8BITMIMEUnsupported), e))
  else
  let! mailed := MailFrom (Sender e) (mkMailOpts messageSize (SMTPUTF8 e) eightBit) in
  match mailed with
  | Err err =>
      if errors_Is err errSMTPUTF8Unsupported || errors_Is err err8BITMIMEUnsupported then
        let! _ := Quit in ret (Some (false, Some err, e))
      else ret (Some (refused indexes err e))
  | Ok _ =>
      let pendingIndexes := filter (λ i, is_pending e i = true) indexes in
      let! (results, batchErr) := rcptResults (address_at e <$> pendingIndexes) in
      let '(accepted, temporary, e) := applyResults (zip pendingIndexes results) [] [] e in
      match batchErr with
      | Some err => ret (Some (false, Some err, e))
      | None =>
          match accepted with
          | [] => let! _ := Quit in ret (Some (done temporary e))
          | _ =>
              match open_body with
              | Err err => ret (Some (false, Some err, e))
              | Ok None => ret None
              | Ok (Some (ps, end_)) =>
                  let! v := transfer h messageSize ps end_ accepted temporary e in ret (Some v)
              end
          end
      end
  end.

(** ** Hosts *)

(** What an attempt finds outside: DNS, the hosts it can dial, its files, its
    context.  [ctxErr n] and [globalErr n] are the outcomes before the [n]th host. *)
Record Outside := mkOutside {
  resolver : Resolver;
  dial : string → IP → res Peer;
  openReader : string → Z → res trackedReader;
  filePieces : pieces;
  ctxErr : nat → option error;
  globalErr : nat → option error
}.

(** The parts of the configuration the code reads. *)
Record Outbound := mkOutbound {
  tlsPolicy : outboundTLS;
  hostname : string;
  dns : dnsPolicy;
  orderIPs : list IP → list IP;
  orderMX : list MX → list MX
}.

Variable cfg : Outbound.
Variable net : Outside.

(** The dial results of a candidate's addresses, looked up unless known. *)
Definition candidateDials (c : mxCandidate) : res (list (res Peer)) :=
  let? found := match ips c with
                | Some found => Ok found
                | None => lookupHostIPs (resolver net) (dns cfg) (orderIPs cfg) (host c)
                end in
  Ok (dial net (host c) <$> found).

(** [send]; [None] stands for a panic: no recipient, or one outside the envelope. *)
Definition send (c : mxCandidate) (body : Z) (indexes : list nat) (e : Envelope)
    : option (verdict * list wire) :=
  first ← head indexes;
  messageSize ← MessageSize e first;
  eightBit ← MessageEightBit e first;
  if forallb (λ i, i <? length (Recipients e))%nat indexes then
    match connect (tlsPolicy cfg) (hostname cfg) (candidateDials c)
            (negb (SMTPUTF8 e) && negb eightBit) with
    | Err err => Some (false, Some err, e, [])
    | Ok client =>
        let opened := let? r := openReader net (ID e) body in
                      Ok (copy_limited (filePieces net) (wrap64 (messageSize + 1)) r) in
        match transaction (host c) messageSize eightBit opened indexes e client with
        | (None, _) => None
        | (Some v, client) => Some (v, log (CloseClient client).2)
        end
    end
  else None.

Definition capabilityDetail (needUTF8 needEight : bool) : string :=
  if needUTF8 && needEight then
    sentinel_text errSMTPUTF8Unsupported +:+ "; " +:+ sentinel_text err8BITMIMEUnsupported
  else if needUTF8 then sentinel_text errSMTPUTF8Unsupported
  else if needEight then sentinel_text err8BITMIMEUnsupported
  else "required SMTP capability missing".

(** The variables of [domain]'s loop. *)
Record progress := mkProgress {
  last : option error;
  sawEligible : bool;
  sawRetryable : bool;
  capabilityOnly : bool;
  sawUTF8CapErr : bool;
  sawEightBitCapErr : bool
}.

Definition start : progress := mkProgress None false false true false false.

Definition first_error (st : progress) (err : error) : option error :=
  match last st with None => Some err | l => l end.

(** A host that did not finish the work. *)
Definition note (err : option error) (st : progress) : progress :=
  match err with
  | None => mkProgress (last st) (sawEligible st) true false (sawUTF8CapErr st) (sawEightBitCapErr st)
  | Some err =>
      if errors_Is err errSMTPUTF8Unsupported then
        mkProgress (first_error st err) true (sawRetryable st) (capabilityOnly st) true
          (sawEightBitCapErr st)
      else if errors_Is err err8BITMIMEUnsupported then
        mkProgress (first_error st err) true (sawRetryable st) (capabilityOnly st)
          (sawUTF8CapErr st) true
      else if errors_Is err errPrivateDestination then
        mkProgress (first_error st err) true (sawRetryable st) false (sawUTF8CapErr st)
          (sawEightBitCapErr st)
      else
        mkProgress (Some err) true true false (sawUTF8CapErr st) (sawEightBitCapErr st)
  end.

(** After the last host. *)
Definition conclude (indexes : list nat) (st : progress) (e : Envelope) : option error * Envelope :=
  if sawEligible st && capabilityOnly st && (sawUTF8CapErr st || sawEightBitCapErr st) then
    (None, rejectDetail indexes (capabilityDetail (sawUTF8CapErr st) (sawEightBitCapErr st)) e)
  else
    match last st with
    | Some l =>
        if negb (sawRetryable st) && errors_Is l errPrivateDestination
        then (None, rejectDetail indexes (err_text l) e) else (Some l, e)
    | None => (Some (Message "no usable MX host"), e)
    end.

(** The hosts in order; what each was sent. *)
Fixpoint tryHosts (n : nat) (cands : list mxCandidate) (body : Z) (indexes : list nat)
    (st : progress) (e : Envelope) (logs : list (string * list wire))
    : option (option error * Envelope * list (string * list wire)) :=
  match cands with
  | [] => let '(err, e) := conclude indexes st e in Some (err, e, logs)
  | c :: cands =>
      match ctxErr net n, globalErr net n with
      | Some err, _ | None, Some err => Some (Some err, e, logs)
      | None, None =>
          match send c body indexes e with
          | None => None
          | Some (done_, err, e, log_) =>
              let logs := logs ++ [(host c, log_)] in
              if done_ then Some (None, e, logs)
              else tryHosts (S n) cands body indexes (note err st) e logs
          end
      end
  end.

(** [(d *Deliverer) domain]. *)
Definition domain (name : string) (body : Z) (indexes : list nat) (e : Envelope)
    : option (option error * Envelope * list (string * list wire)) :=
  match hosts (resolver net) (dns cfg) (orderIPs cfg) (orderMX cfg) name with
  | Err err =>
      if errors_Is err errNullMX || errors_Is err errNoSuchDomain
      then Some (None, rejectDetail indexes (err_text err) e, [])
      else Some (Some err, e, [])
  | Ok cands => tryHosts 0 cands body indexes start e []
  end.
End send.
