(* ===== verification/SendFacts.v ===== *)
(** * What a delivery attempt writes into the envelope

    [moves] relates an envelope before and after delivery code has worked on some
    of its recipients; every step of [send] and [domain] is one ([domain_moves]). *)

From S2P Require Import Prelude Errors GoLib Text Envelope Mailbox Validation Storage Diagnostic Netpolicy Discovery Client ClientFacts BodyReader Send.
Open Scope Z_scope.

(** ** Outcomes the queue accepts *)

Definition displayable (s : string) : Prop :=
  str_len s ≤ maxEnvelopeDetailBytes ∧ containsDisplayControl s = false.

(** The outcomes delivery writes: pending and sent recipients carry no code, a
    failed one none or a permanent one. *)
Definition settled (r : Recipient) : Prop :=
  displayable (Detail r) ∧
  ((rStatus r = StatusPending ∨ rStatus r = StatusSent) ∧ Code r = 0 ∧ EnhancedCode r = ""
   ∨ rStatus r = StatusFailed ∧
     (Code r = 0 ∧ EnhancedCode r = "" ∨
      500 ≤ Code r < 600 ∧
      (EnhancedCode r = "" ∨ validEnhancedCode (EnhancedCode r) (Code r) = true))).

Lemma settled_valid r : settled r → validateOutcome r = Ok tt.
Proof.
  intros [_ [(Hs & Hc & He)|(Hs & Ho)]]; unfold validateOutcome.
  - rewrite Hc, He. destruct Hs as [-> | ->]; done.
  - rewrite Hs. destruct Ho as [[-> ->]|[Hc He]]; [done|].
    assert (Code r =? 0 = false) as -> by lia. cbn [negb andb].
    assert ((Code r <? 200) || (599 <? Code r) = false) as -> by lia.
    assert (Code r ÷ 100 =? 5 = true) as Hq.
    { apply Z.eqb_eq. rewrite Z.quot_div_nonneg by lia.
      pose proof (Z.div_mod (Code r) 100 ltac:(lia)). pose proof (Z.mod_pos_bound (Code r) 100 ltac:(lia)). lia. }
    destruct He as [-> | ->].
    + cbn. by rewrite Hq.
    + rewrite andb_false_r. cbn. by rewrite Hq.
Qed.

Lemma normalized_displayable s : displayable (normalizeDiagnostic s).
Proof. destruct (diagnostic_display s) as (Hl & _ & Hc). split; [unfold maxEnvelopeDetailBytes; lia|done]. Qed.

(** ** The relation *)

(** One recipient before and after; [may] says whether it may become sent. *)
Record moved (may : Prop) (r r' : Recipient) : Prop := {
  mv_address : Address r' = Address r;
  mv_domain : rDomain r' = rDomain r;
  mv_body : rBody r' = rBody r;
  mv_settled : settled r → settled r';
  mv_pending : rStatus r' = StatusPending → rStatus r = StatusPending;
  mv_sent : rStatus r' = StatusSent → rStatus r = StatusSent ∨ (rStatus r = StatusPending ∧ may)
}.

(** Outside [indexes] nothing changed; within, only as [moved] says. *)
Record moves (may : nat → Prop) (indexes : list nat) (e e' : Envelope) : Prop := {
  ms_fields : e' = set_Recipients (Recipients e') e;
  ms_length : length (Recipients e') = length (Recipients e);
  ms_other : ∀ i, i ∉ indexes → Recipients e' !! i = Recipients e !! i;
  ms_moved : ∀ i r r', Recipients e !! i = Some r → Recipients e' !! i = Some r' → moved (may i) r r'
}.

Definition never (i : nat) : Prop := False.

Lemma moved_refl may r : moved may r r.
Proof. split; auto. Qed.

Lemma moves_refl may idx e : moves may idx e e.
Proof.
  split; [by destruct e|done|done|]. intros i r r' H1 H2. simplify_eq. apply moved_refl.
Qed.

Lemma moves_trans may idx e1 e2 e3 :
  moves may idx e1 e2 → moves may idx e2 e3 → moves may idx e1 e3.
Proof.
  intros [F1 L1 O1 M1] [F2 L2 O2 M2]. split.
  - rewrite F2 at 1. rewrite F1. by destruct e1.
  - congruence.
  - intros i Hi. by rewrite O2, O1.
  - intros i r r' H1 H3.
    destruct (Recipients e2 !! i) as [r2|] eqn:E2.
    + destruct (M1 i r r2 H1 E2) as [A1 D1 B1 S1 P1 T1].
      destruct (M2 i r2 r' E2 H3) as [A2 D2 B2 S2 P2 T2].
      split; try congruence; [by auto|by auto|]. intros Hs. destruct (T2 Hs) as [Hs2|[Hp Hm]]; auto.
    + apply lookup_ge_None in E2. apply lookup_lt_Some in H1. lia.
Qed.

Lemma moves_weaken (may may' : nat → Prop) idx idx' e e' :
  (∀ i, may i → may' i) → (∀ i, i ∈ idx → i ∈ idx') → moves may idx e e' → moves may' idx' e e'.
Proof.
  intros Hm Hi [F L O M]. split; [done|done|by auto|].
  intros i r r' H1 H2. destruct (M i r r' H1 H2) as [A D B S P T]. split; try done.
  intros Hs. destruct (T Hs) as [|[? ?]]; auto.
Qed.

(** Assignments through recipient pointers.  [P] is what the assignment needs. *)
Lemma at_indexes_moves (P : Recipient → Prop) f (may : nat → Prop) idx e :
  (∀ i r, i ∈ idx → P r → moved (may i) r (f r) ∧ P (f r)) →
  (∀ i r, i ∈ idx → Recipients e !! i = Some r → P r) → moves may idx e (at_indexes f idx e).
Proof.
  intros Hf. unfold at_indexes.
  cut (∀ l e, (∀ i, i ∈ l → i ∈ idx) → (∀ i r, i ∈ idx → Recipients e !! i = Some r → P r) →
         moves may idx e (fold_left (λ e i, at_index f i e) l e)); [by eauto|].
  induction l as [|i l IH]; intros e0 Hl HP; cbn [fold_left]; [apply moves_refl|].
  assert (Hi : i ∈ idx) by (apply Hl; left).
  apply (moves_trans _ _ _ (at_index f i e0)).
  - split; [done|by cbn; rewrite length_alter| |].
    + intros j Hj. cbn. rewrite list_lookup_alter_ne; [done|]. by intros ->.
    + intros j r r' H1 H2. cbn in H2. destruct (decide (i = j)) as [<-|Hne].
      * rewrite list_lookup_alter_eq, H1 in H2. simplify_eq/=. by apply Hf; [|eapply HP].
      * rewrite list_lookup_alter_ne, H1 in H2 by done. simplify_eq. apply moved_refl.
  - apply IH; [intros j Hj; apply Hl; by right|].
    intros j r Hj Hr. cbn in Hr. destruct (decide (i = j)) as [<-|Hne].
    + rewrite list_lookup_alter_eq in Hr. destruct (Recipients e0 !! i) as [r0|] eqn:E0; [|done].
      simplify_eq/=. by apply (Hf i r0 Hi), (HP i r0).
    + rewrite list_lookup_alter_ne in Hr by done. by eapply HP.
Qed.

Lemma at_index_fold f i e : at_index f i e = at_indexes f [i] e.
Proof. done. Qed.

(** ** The assignments *)

Lemma reject_moved may d r : moved may r (set_Detail (normalizeDiagnostic d) (set_rStatus StatusFailed r)).
Proof.
  split; try done. intros [_ Ho]. split; [apply normalized_displayable|]. right. split; [done|].
  destruct Ho as [(_ & ? & ?)|(_ & ?)]; [left; by split|done].
Qed.

Lemma detail_moved may d r : displayable d → moved may r (set_Detail d r).
Proof. intros Hd. split; try done; [|cbn; by auto]. intros [_ Ho]. by split. Qed.

Lemma sent_moved (may : Prop) d r :
  may → displayable d → rStatus r = StatusPending ∨ rStatus r = StatusSent →
  moved may r (set_Detail d (set_rStatus StatusSent r)).
Proof.
  intros Hm Hd Hs. split; try done.
  - intros [_ [(_ & Hc & He)|(Hf & _)]]; [|destruct Hs as [E|E]; rewrite E in Hf; done].
    split; [done|]. left. split_and!; [by right|done|done].
  - intros _. destruct Hs as [Hs|Hs]; [right|left]; by try split.
Qed.

Lemma rejectDetail_moves idx d e : moves never idx e (rejectDetail idx d e).
Proof.
  apply (at_indexes_moves (λ _, True)); [|done]. intros i r _ _. split; [apply reject_moved|done].
Qed.

Section facts.
Context `{CaseTables}.
Context (err_text : error → string).

Lemma describe_displayable e : displayable (describe err_text e).
Proof. unfold describe. destruct (errors_AsSMTP e) as [[[]]|]; apply normalized_displayable. Qed.

Lemma rejectSMTP_moves idx err e :
  permanent err = true → reply_ok err → moves never idx e (rejectSMTP err_text idx err e).
Proof.
  intros Hp Hr. apply (at_indexes_moves (λ _, True)); [|done]. intros i r _ _. split; [|done].
  split; try done. intros _. split; [apply describe_displayable|]. right. split; [done|]. right.
  unfold permanent, smtpCode, smtpEnhancedCode, reply_ok in *. cbn.
  destruct (errors_AsSMTP err) as [[[code enh] msg]|]; [|done].
  split; [lia|]. destruct Hr as [->|[_ ?]]; auto.
Qed.

Lemma refused_moves idx err e d r e' :
  reply_ok err → refused err_text idx err e = (d, r, e') → moves never idx e e'.
Proof.
  unfold refused. destruct (permanent err) eqn:Ep; intros Hr [= _ _ <-]; [|apply moves_refl].
  by apply rejectSMTP_moves.
Qed.

(** The replies to RCPT. *)
Lemma applyResults_spec pairs acc temp e acc' temp' e' :
  results_ok (pairs.*2) →
  applyResults err_text pairs acc temp e = (acc', temp', e') →
  moves never (pairs.*1) e e' ∧
  (∀ i, i ∈ acc' → i ∈ acc ∨ (i, None) ∈ pairs) ∧
  (∀ i, (∀ err, (i, Some err) ∉ pairs) → Recipients e' !! i = Recipients e !! i).
Proof.
  revert acc temp e. induction pairs as [|[i [err|]] pairs IH]; intros acc temp e Hr; cbn [applyResults].
  { intros [= <- <- <-]. split_and!; [apply moves_refl|by auto|done]. }
  - apply Forall_cons in Hr as [He Hr]. cbn in He.
    assert (Hgo : ∀ t e1, moves never [i] e e1 → (∀ j, j ≠ i → Recipients e1 !! j = Recipients e !! j) →
       applyResults err_text pairs acc t e1 = (acc', temp', e') →
       moves never (((i, Some err) :: pairs).*1) e e' ∧
       (∀ j, j ∈ acc' → j ∈ acc ∨ (j, None) ∈ (i, Some err) :: pairs) ∧
       (∀ j, (∀ err', (j, Some err') ∉ (i, Some err) :: pairs) → Recipients e' !! j = Recipients e !! j)).
    { intros t e1 Hm Ho Ha. destruct (IH _ _ _ Hr Ha) as (IH1 & IH2 & IH3). split_and!.
      - eapply moves_trans.
        + eapply moves_weaken; [done| |exact Hm]. intros j ->%list_elem_of_singleton. left.
        + eapply moves_weaken; [done| |exact IH1]. intros j Hj. by right.
      - intros j Hj. destruct (IH2 j Hj); [by left|]. right. by right.
      - intros j Hj. rewrite IH3; [apply Ho|].
        + intros ->. apply (Hj err). left.
        + intros err' Hin. apply (Hj err'). by right. }
    destruct (permanent err) eqn:Ep.
    + apply Hgo; [by apply rejectSMTP_moves|].
      intros j Hj. apply (ms_other _ _ _ _ (rejectSMTP_moves [i] err e Ep He)).
      by intros ->%list_elem_of_singleton.
    + apply Hgo; [|intros j Hj; cbn; by rewrite list_lookup_alter_ne].
      rewrite at_index_fold. apply (at_indexes_moves (λ _, True)); [|done].
      intros j r _ _. split; [|done]. apply detail_moved, describe_displayable.
  - apply Forall_cons in Hr as [_ Hr]. intros Ha. destruct (IH _ _ _ Hr Ha) as (IH1 & IH2 & IH3).
    split_and!.
    + eapply moves_weaken; [done| |exact IH1]. intros j Hj. by right.
    + intros j Hj. destruct (IH2 j Hj) as [[Hj'|Hj']%elem_of_app|Hj']; [by left| |right; by right].
      apply list_elem_of_singleton in Hj' as ->. right. left.
    + intros j Hj. apply IH3. intros err Hin. apply (Hj err). by right.
Qed.

(** ** The wire *)

Lemma grows_elem c c' w : grows c c' → w ∈ log c → w ∈ log c'.
Proof. intros (l & -> & _) Hw. apply elem_of_app. by left. Qed.

Lemma grows_commands c c' : grows c c' → Forall is_command (log c) → Forall is_command (log c').
Proof. intros (l & -> & Hl) Hc. by apply Forall_app. Qed.

(** The RCPT commands with the reply to each, if there was one. *)
Definition rcpt_asked (rcpts : list (string * option answer)) : list wire := (λ x, Command (rcptLine x.1)) <$> rcpts.
Definition rcpt_heard (rcpts : list (string * option answer)) : list answer := omap snd rcpts.

(** A result without error is an accepting reply. *)
Definition rcpt_result (r : option error) (x : string * option answer) : Prop :=
  r = None → ∃ code msg, x.2 = Some (Reply code msg) ∧ unexpected 25 code = false.

Definition exchanged (addresses : list string) (rs : list (option error)) (c c' : Client) : Prop :=
  ∃ rcpts, rcpts.*1 = addresses ∧ said (rcpt_asked rcpts) (rcpt_heard rcpts) c c' ∧ Forall2 rcpt_result rs rcpts.

Lemma rcptEach_spec addresses c rs c' : peer_ok c → rcptEach addresses c = (rs, c') →
  grows c c' ∧ peer_ok c' ∧ results_ok rs ∧ exchanged addresses rs c c'.
Proof.
  revert c rs. induction addresses as [|a addresses IH]; intros c rs Hc; cbn [rcptEach].
  { intros [= <- <-]. split_and!; [reflexivity|done|constructor|]. exists []. split_and!; [done| |constructor].
    split; [by rewrite app_nil_r|done]. }
  unfold bind. destruct (RcptTo a c) as [r c1] eqn:Er.
  destruct (RcptTo_speaks a c Hc) as [Hg [Hc1 Hr]]. rewrite Er in Hg, Hc1, Hr. cbn in Hg, Hc1, Hr.
  destruct (ask_said _ _ (λ _, ret (Ok tt)) _ _ _ ltac:(intros x s0; by do 2 eexists) Hc Er) as (o & Hs & Ho).
  destruct (rcptEach addresses c1) as [rs1 c2] eqn:E2. unfold ret. intros [= <- ->].
  destruct (IH c1 rs1 Hc1 E2) as (Hg2 & Hc2 & Hr2 & rcpts & Hf & Hs2 & HF). split_and!; [by etrans|done|constructor; [by destruct r|done]|].
  exists ((a, o) :: rcpts). split_and!; [cbn; by rewrite Hf| |].
  - pose proof (said_trans _ _ _ _ _ _ _ Hs Hs2) as Hx. unfold rcpt_heard in *. destruct o; exact Hx.
  - constructor; [|done]. unfold rcpt_result. destruct r as [[]|e]; [|done]. intros _. exact Ho.
Qed.

Lemma putAll_said addresses c w c' : putAll addresses c = (w, c') →
  peer c' = peer c ∧ (w = None → log c' = log c ++ ((λ a, Command (rcptLine a)) <$> addresses)).
Proof.
  revert c. induction addresses as [|a addresses IH]; intros c; cbn [putAll].
  { intros [= <- <-]. by rewrite app_nil_r. }
  unfold bind, put. cbn. destruct (writeErr _ _); [by intros [= <- <-]|].
  intros (Hp & Hl)%IH. cbn in *. split; [done|]. intros Hw. by rewrite (Hl Hw), <-app_assoc.
Qed.

Lemma readAllReplies_said addresses c rs c' : peer_ok c → readAllReplies addresses c = ((rs, None), c') →
  ∃ rcpts, rcpts.*1 = addresses ∧ said [] (rcpt_heard rcpts) c c' ∧ Forall2 rcpt_result rs rcpts.
Proof.
  revert c rs. induction addresses as [|a addresses IH]; intros c rs Hc; cbn [readAllReplies].
  { intros [= <- <-]. exists []. split_and!; [done| |constructor]. split; [by rewrite app_nil_r|done]. }
  unfold bind. destruct (readResponse 25 c) as [r c1] eqn:Er. destruct (readResponse_speaks 25 c Hc) as [_ [Hc1 _]].
  rewrite Er in Hc1. cbn [snd] in Hc1. destruct (readResponse_said _ _ _ _ Hc Er) as (o & Hs & Ho).
  assert (Hgo : ∀ x more, readAllReplies addresses c1 = ((more, None), c') →
    (x = None → ∃ code msg, o = Some (Reply code msg) ∧ unexpected 25 code = false) →
    ∃ rcpts, rcpts.*1 = a :: addresses ∧ said [] (rcpt_heard rcpts) c c' ∧ Forall2 rcpt_result (x :: more) rcpts).
  { intros x more Hm Hx. destruct (IH c1 more Hc1 Hm) as (rcpts & Hf & Hs2 & HF). exists ((a, o) :: rcpts).
    split_and!; [cbn; by rewrite Hf| |by constructor].
    pose proof (said_trans _ _ _ _ _ _ _ Hs Hs2) as Hy. unfold rcpt_heard in *. destruct o; exact Hy. }
  destruct r as [[code msg]|e]; [|destruct (smtpCode e =? 0); [done|]];
    destruct (readAllReplies addresses c1) as [[more b] c2]; unfold ret; intros [= <- -> ->]; apply Hgo; try done.
  intros _. by exists code, msg.
Qed.

Lemma rcptResults_spec addresses c rs b c' : peer_ok c → rcptResults addresses c = ((rs, b), c') →
  grows c c' ∧ peer_ok c' ∧ results_ok rs ∧ (b = None → exchanged addresses rs c c').
Proof.
  intros Hc. unfold rcptResults, bind at 1, gets at 1. destruct (_ && _).
  - intros Hr. destruct (RcptBatch_ok addresses c Hc) as [Hg (Hc1 & Hrs & _)]. rewrite Hr in Hg, Hc1, Hrs.
    cbn [fst snd] in Hg, Hc1, Hrs. split_and!; [done..|]. intros ->. unfold RcptBatch, bind in Hr.
    destruct (putAll addresses c) as [[e|] c1] eqn:Ep; [done|]. apply putAll_said in Ep as [Hp Hl].
    destruct (readAllReplies_said addresses c1 rs c') as (rcpts & Hf & [L A] & HF); [by unfold peer_ok in *; rewrite Hp|done|].
    exists rcpts. split_and!; [done| |done]. split; [|by rewrite <-Hp].
    rewrite L, app_nil_r, (Hl eq_refl). unfold rcpt_asked. by rewrite <-Hf, <-list_fmap_compose.
  - unfold bind. destruct (rcptEach addresses c) as [rs1 c1] eqn:Er. unfold ret. intros [= <- <- <-].
    destruct (rcptEach_spec addresses c rs1 c1 Hc Er) as (? & ? & ? & ?). by split_and!.
Qed.

(** ** The body *)

Definition contents (ps : list (list ascii)) : list wire := (λ p, Content (of_list p)) <$> ps.

Lemma writePieces_spec ps c w c' : writePieces ps c = (w, c') →
  peer c' = peer c ∧ ∃ k, log c' = log c ++ contents (take k ps) ∧ (w = None → take k ps = ps).
Proof.
  revert c. induction ps as [|p ps IH]; intros c; cbn [writePieces].
  { intros [= <- <-]. split; [done|]. exists 0%nat. by rewrite app_nil_r. }
  unfold bind, put. cbn. destruct (writeErr _ _).
  - intros [= <- <-]. split; [done|]. exists 1%nat. split; [done|done].
  - intros (Hp & k & Hl & Hk)%IH. cbn in *. split; [done|]. exists (S k). rewrite firstn_cons. cbn.
    rewrite Hl, <-app_assoc. split; [done|]. intros Hw. by rewrite Hk.
Qed.

Lemma pieces_size_concat ps : pieces_size ps = Z.of_nat (length (concat ps)).
Proof. induction ps as [|p ps IH]; [done|]. cbn. rewrite length_app, IH. lia. Qed.

Lemma Terminator_contents ps : Terminator ∉ contents ps.
Proof. unfold contents. intros (p & Hp & _)%list_elem_of_fmap. done. Qed.

Lemma Terminator_commands l : Forall is_command l → Terminator ∉ l.
Proof. intros Hl Ht. rewrite Forall_forall in Hl. by apply (Hl _ Ht). Qed.

(** How a message goes out after RCPT: DATA, the pieces, the end, each taken by the host. *)
Definition body_sent (ps : list (list ascii)) : list wire :=
  Command "DATA" :: contents ps ++ [Terminator; Command "QUIT"].
Definition body_heard (go end_ : string) : list answer := [Reply 354 go; Reply 250 end_].

Definition transmitted (size : Z) (opened : res (option (list (list ascii) * option error)))
    (c c' : Client) (ps : list (list ascii)) : Prop :=
  opened = Ok (Some (ps, None)) ∧ pieces_size ps = size ∧
  ∃ go end_, said (body_sent ps) (body_heard go end_) c c'.

Lemma transfer_spec h size ps end_ acc temp e c d err e' c' :
  peer_ok c → Forall is_command (log c) →
  (∀ i r, i ∈ acc → Recipients e !! i = Some r → rStatus r = StatusPending) →
  transfer err_text h size ps end_ acc temp e c = ((d, err, e'), c') →
  moves (λ i, i ∈ acc ∧ transmitted size (Ok (Some (ps, end_))) c c' ps) acc e e' ∧
  (Terminator ∈ log c' → end_ = None ∧ pieces_size ps = size).
Proof.
  intros Hc Hl Hacc. unfold transfer, bind.
  destruct (DataStart_speaks c Hc) as [Hg [Hc1 Hr]].
  destruct (DataStart c) as [[u|err1] c1] eqn:Ed; cbn in Hg, Hc1, Hr.
  2:{ unfold ret. destruct (refused _ _ _ _) as [[d0 r0] e0] eqn:Er. intros [= <- <- <- <-]. split.
      - eapply moves_weaken; [|done|by eapply refused_moves]. done.
      - intros Ht. exfalso. eapply Terminator_commands; [|exact Ht]. by eapply grows_commands. }
  pose proof (grows_commands _ _ Hg Hl) as Hl1.
  destruct (ask_said _ _ (λ _, ret (Ok tt)) _ _ _ ltac:(intros x s0; by do 2 eexists) Hc Ed) as (o & Hs1 & code1 & go & -> & Hgo%expected_354).
  destruct (writePieces ps c1) as [w c2] eqn:Ew.
  destruct (writePieces_spec _ _ _ _ Ew) as (Hp2 & k & Hlog2 & Hk).
  assert (Hno : Terminator ∉ log c2).
  { rewrite Hlog2. intros [?|?]%elem_of_app; [by eapply Terminator_commands|by eapply Terminator_contents]. }
  assert (Hc2 : peer_ok c2) by (unfold peer_ok in *; by rewrite Hp2).
  destruct (match w with Some err0 => Some err0 | None => end_ end) as [err2|] eqn:Ee.
  { cbn. intros [= <- <- <- <-]. split; [apply moves_refl|]. by intros Ht. }
  destruct w as [|]; [done|]. subst end_. rewrite (Hk eq_refl) in Hlog2. clear Hk.
  destruct (Z.eqb_spec (pieces_size ps) size) as [Hsz|Hsz]; cbn [negb].
  2:{ cbn. intros [= <- <- <- <-]. split; [apply moves_refl|]. by intros Ht. }
  unfold DataClose at 1, bind at 1, put at 1.
  destruct (writeErr (peer c2) _) as [err3|] eqn:Ewe.
  { cbn. destruct (refused _ _ _ _) as [[d0 r0] e0] eqn:Er. intros [= <- <- <- <-]. split; [|by auto].
    eapply moves_weaken; [|done|eapply refused_moves; [|exact Er]]; [done|].
    apply reply_ok_None. by eapply (proj1 Hc2). }
  set (c3 := mkClient _ _ _ _ _ _). unfold try_, bind at 1.
  destruct (readResponse_speaks 250 c3 Hc2) as [_ [_ Hrr]].
  destruct (readResponse 250 c3) as [[[code msg]|err4] c4] eqn:E4; cbn in Hrr; unfold ret at 1.
  2:{ unfold ret. destruct (refused _ _ _ _) as [[d0 r0] e0] eqn:Er. intros [= <- <- <- <-].
      split; [|by auto]. eapply moves_weaken; [|done|by eapply refused_moves]. done. }
  destruct (readResponse_said 250 c3 _ c4 Hc2 E4) as (o4 & [Hl4 Ha4] & -> & Hend%expected_250).
  rewrite app_nil_r in Hl4. cbn in Hl4, Ha4.
  unfold Quit, bind, put, CloseClient, modify, ret. cbn. unfold done.
  set (f := λ r, set_Detail _ (set_rStatus StatusSent r)).
  assert (Hm : ∀ may : nat → Prop, (∀ i, i ∈ acc → may i) → moves may acc e (at_indexes f acc e)).
  { intros may Hmay. apply (at_indexes_moves (λ r, rStatus r = StatusPending ∨ rStatus r = StatusSent)).
    - intros i r Hi Hs. split; [|by right]. apply sent_moved; [by apply Hmay|apply normalized_displayable|done].
    - intros i r Hi Hr0. left. by eapply Hacc. }
  assert (Hfin : ∀ c', log c' = log c4 ++ [Command "QUIT"] → peer c' = peer c4 →
    moves (λ i, i ∈ acc ∧ transmitted size (Ok (Some (ps, None))) c c' ps) acc e (at_indexes f acc e)).
  { intros c5 HL HP. apply Hm. intros i Hi. split; [done|]. split_and!; [done|done|]. exists go, msg. destruct Hs1 as [L1 A1].
    split; [rewrite HL, Hl4, Hlog2, L1; unfold body_sent; rewrite <-!app_assoc; done|].
    rewrite A1, <-Hp2, Ha4, HP. subst. done. }
  destruct (temporaryFailures temp) as [err5|]; intros [= <- <- <- <-]; (split; [by apply Hfin|by auto]).
Qed.

(** ** The transaction *)

(** The recipient at [i] of [e] was accepted by a reply to its RCPT command, and then
    the message by the reply to its end. *)
Definition carried (e : Envelope) (size : Z) (opened : res (option (list (list ascii) * option error)))
    (c c' : Client) (i : nat) : Prop :=
  ∃ r rcpts ps go end_ code msg, Recipients e !! i = Some r ∧
    opened = Ok (Some (ps, None)) ∧ pieces_size ps = size ∧
    said (rcpt_asked rcpts ++ body_sent ps) (rcpt_heard rcpts ++ body_heard go end_) c c' ∧
    (Address r, Some (Reply code msg)) ∈ rcpts ∧ 250 ≤ code < 260.

Lemma zip_lookup_elem {A B} (k : list A) (l : list B) a b : (a, b) ∈ zip k l → a ∈ k ∧ b ∈ l.
Proof. intros Hz. by apply elem_of_zip_with in Hz as (x & y & [= -> ->] & Hx & Hy). Qed.

Lemma NoDup_zip_fst {A B} (k : list A) (l : list B) a b b' :
  NoDup k → (a, b) ∈ zip k l → (a, b') ∈ zip k l → b = b'.
Proof.
  intros Hn [i Hi]%list_elem_of_lookup_1 [j Hj]%list_elem_of_lookup_1.
  apply lookup_zip_with_Some in Hi as (x & y & [= -> ->] & Hi & Hi').
  apply lookup_zip_with_Some in Hj as (x' & y' & [= -> ->] & Hj & Hj').
  assert (i = j) as -> by (eapply NoDup_lookup; eauto). congruence.
Qed.

Lemma zip_fst_elem {A B} (k : list A) (l : list B) a : a ∈ (zip k l).*1 → a ∈ k.
Proof. intros ((x & y) & -> & Hz)%list_elem_of_fmap. by apply zip_lookup_elem in Hz as [? _]. Qed.

Lemma results_zip {A} (k : list A) rs : results_ok rs → results_ok (zip k rs).*2.
Proof.
  intros Hr. unfold results_ok in *. rewrite Forall_forall in *.
  intros x ((a & y) & -> & Hz)%list_elem_of_fmap. apply Hr. by apply zip_lookup_elem in Hz as [_ ?].
Qed.

Lemma is_pending_true e i : is_pending e i = true ↔ ∃ r, Recipients e !! i = Some r ∧ rStatus r = StatusPending.
Proof.
  unfold is_pending. destruct (Recipients e !! i) as [r|]; [|naive_solver].
  rewrite bool_decide_eq_true. naive_solver.
Qed.

(** A recipient without error in the results has an accepting reply. *)
Lemma accepted_reply e P (results : list (option error)) rcpts (i : nat) :
  rcpts.*1 = address_at e <$> P → Forall2 rcpt_result results rcpts → (i, None) ∈ zip P results →
  ∃ code msg, (address_at e i, Some (Reply code msg)) ∈ rcpts ∧ unexpected 25 code = false.
Proof.
  intros Hf HF [j Hj]%list_elem_of_lookup_1. apply lookup_zip_with_Some in Hj as (x & y & [= <- <-] & Hi & Hn).
  destruct (Forall2_lookup_l _ _ _ _ _ HF Hn) as ([a o] & Hx & Hres). destruct (Hres eq_refl) as (code & msg & Ho & Hu).
  cbn in Ho. subst o. exists code, msg. split; [|done].
  assert (rcpts.*1 !! j = Some (address_at e i)) as Ha by (rewrite Hf, list_lookup_fmap, Hi; done).
  rewrite list_lookup_fmap, Hx in Ha. injection Ha as ->. by apply list_elem_of_lookup_2 in Hx.
Qed.

(** The part after MAIL was accepted. *)
Lemma after_mail h size opened idx e c v c' :
  peer_ok c → Forall is_command (log c) → NoDup idx →
  (let pendingIndexes := filter (λ i, is_pending e i = true) idx in
   let! (results, batchErr) := rcptResults (address_at e <$> pendingIndexes) in
   let '(accepted, temporary, e) := applyResults err_text (zip pendingIndexes results) [] [] e in
   match batchErr with
   | Some err => ret (Some (false, Some err, e))
   | None =>
       match accepted with
       | [] => let! _ := Quit in ret (Some (done temporary e))
       | _ =>
           match opened with
           | Err err => ret (Some (false, Some err, e))
           | Ok None => ret None
           | Ok (Some (ps, end_)) =>
               let! v := transfer err_text h size ps end_ accepted temporary e in ret (Some v)
           end
       end
   end) c = (Some v, c') →
  moves (carried e size opened c c') idx e v.2 ∧
  (Terminator ∈ log c' → ∃ ps, opened = Ok (Some (ps, None)) ∧ pieces_size ps = size).
Proof.
  intros Hc Hl Hnd. cbn zeta. set (P := filter _ idx). unfold bind at 1.
  destruct (rcptResults (address_at e <$> P) c) as [[results batchErr] c1] eqn:Er.
  destruct (rcptResults_spec _ _ _ _ _ Hc Er) as (Hg & Hc1 & Hrs & Hask).
  pose proof (grows_commands _ _ Hg Hl) as Hl1.
  destruct (applyResults err_text (zip P results) [] [] e) as [[acc temp] e1] eqn:Ea.
  destruct (applyResults_spec _ _ _ _ _ _ _ (results_zip P results Hrs) Ea) as (Hm & Hacc & Hsame).
  assert (HPi : ∀ i, i ∈ P → i ∈ idx) by (intros i [_ ?]%list_elem_of_filter; done).
  assert (HM : ∀ may, moves may idx e e1).
  { intros may. eapply moves_weaken; [| |exact Hm]; [done|]. intros i Hi%zip_fst_elem. by apply HPi. }
  assert (Hquiet : ∀ c2, grows c1 c2 → Terminator ∈ log c2 →
            ∃ ps, opened = Ok (Some (ps, None)) ∧ pieces_size ps = size).
  { intros c2 Hg2 Ht. exfalso. eapply Terminator_commands; [|exact Ht]. by eapply grows_commands. }
  assert (HaccP : ∀ i, i ∈ acc → i ∈ P ∧ Recipients e1 !! i = Recipients e !! i ∧ (i, None) ∈ zip P results).
  { intros i Hi. destruct (Hacc i Hi) as [Hn|Hz]; [by apply elem_of_nil in Hn|].
    pose proof (zip_lookup_elem _ _ _ _ Hz) as [HiP HiR]. split_and!; [done| |done].
    - apply Hsame. intros err Hz'.
      pose proof (NoDup_zip_fst _ _ _ _ _ (NoDup_filter _ _ Hnd) Hz Hz'). done. }
  destruct batchErr as [err|]; [unfold ret; intros [= <- <-]; split; [by apply HM|by apply Hquiet]|].
  destruct acc as [|i0 acc].
  { unfold bind. destruct (Quit_grows c1 Hc1) as [Hg2 _]. destruct (Quit c1) as [[] c2]. cbn in Hg2.
    unfold ret. intros [= <- <-]. split; [|by apply Hquiet].
    unfold done. destruct (temporaryFailures temp); by apply HM. }
  destruct opened as [[[ps end_]|]|err]; [|done|unfold ret; intros [= <- <-]; split; [by apply HM|by apply Hquiet]].
  unfold bind. destruct (transfer err_text h size ps end_ (i0 :: acc) temp e1 c1) as [[[d err] e2] c2] eqn:Et.
  destruct (transfer_spec h size ps end_ (i0 :: acc) temp e1 c1 d err e2 c2 Hc1 Hl1) as [Hmv Hterm];
    [|exact Et|].
  { intros i r Hi Hr. destruct (HaccP i Hi) as (HiP & Hs & _). rewrite Hs in Hr.
    apply list_elem_of_filter in HiP as [Hp _]. apply is_pending_true in Hp as (r' & ? & ?). congruence. }
  unfold ret. intros [= <- <-]. cbn. split.
  - eapply moves_trans; [apply HM|]. eapply moves_weaken; [| |exact Hmv].
    + intros i (Hi & Ho & Hsz & go & fin & Hbody). destruct (HaccP i Hi) as (HiP & _ & Hz).
      pose proof HiP as [Hp _]%list_elem_of_filter. apply is_pending_true in Hp as (r & Hr & _).
      destruct (Hask eq_refl) as (rcpts & Hf & Hs & HF).
      destruct (accepted_reply e P results rcpts i Hf HF Hz) as (code & msg & Hin & Hcode%expected_25).
      exists r, rcpts, ps, go, fin, code, msg. split_and!; [done|congruence|done|by eapply said_trans| |lia|lia].
      unfold address_at in Hin. by rewrite Hr in Hin.
    + intros i Hi. destruct (HaccP i Hi) as (HiP & _). by apply HPi.
  - intros Ht. destruct (Hterm Ht) as [-> Hsz]. eauto.
Qed.

(** A transaction in which the host takes the message: MAIL, RCPT and DATA with their
    replies, the pieces of the body, and the reply to its end. *)
Record exchange := mkExchange {
  x_params : string;
  x_ok : string;
  x_rcpts : list (string * option answer);
  x_go : string;
  x_body : list (list ascii);
  x_end : string
}.

Definition x_sent (sender : string) (x : exchange) : list wire :=
  Command ("MAIL FROM:<" +:+ sender +:+ ">" +:+ x_params x) :: rcpt_asked (x_rcpts x) ++ body_sent (x_body x).

Definition x_heard (x : exchange) : list answer :=
  Reply 250 (x_ok x) :: rcpt_heard (x_rcpts x) ++ body_heard (x_go x) (x_end x).

Definition x_accepts (x : exchange) (address : string) : Prop :=
  ∃ code msg, (address, Some (Reply code msg)) ∈ x_rcpts x ∧ 250 ≤ code < 260.

Definition delivered (e : Envelope) (size : Z) (opened : res (option (list (list ascii) * option error)))
    (c c' : Client) (i : nat) : Prop :=
  ∃ r x, Recipients e !! i = Some r ∧ opened = Ok (Some (x_body x, None)) ∧ pieces_size (x_body x) = size ∧
    said (x_sent (Sender e) x) (x_heard x) c c' ∧ x_accepts x (Address r).

Lemma MailFrom_said from opts c c' u : peer_ok c → MailFrom from opts c = (Ok u, c') →
  ∃ params ok, said [Command ("MAIL FROM:<" +:+ from +:+ ">" +:+ params)] [Reply 250 ok] c c'.
Proof.
  intros Hc. unfold MailFrom. destruct (mailLine from opts c) as [line|] eqn:El; [|done]. intros Hm.
  destruct (ask_said _ _ (λ _, ret (Ok tt)) _ _ _ ltac:(intros x s0; by do 2 eexists) Hc Hm) as (o & Hs & code & ok & -> & Hcode%expected_250).
  subst code. unfold mailLine in El. destruct (_ && _); [done|]. destruct (_ && _); [done|]. injection El as <-. eauto.
Qed.

Lemma transaction_spec h size eb opened idx e c v c' :
  peer_ok c → Forall is_command (log c) → NoDup idx →
  transaction err_text h size eb opened idx e c = (Some v, c') →
  moves (delivered e size opened c c') idx e v.2 ∧
  (Terminator ∈ log c' → ∃ ps, opened = Ok (Some (ps, None)) ∧ pieces_size ps = size).
Proof.
  intros Hc Hl Hnd. unfold transaction, bind at 1, gets at 1.
  assert (Hstop : ∀ c1 c2 e1, grows c c1 → (∀ may, moves may idx e e1) → grows c1 c2 →
            moves (delivered e size opened c c2) idx e e1 ∧
            (Terminator ∈ log c2 → ∃ ps, opened = Ok (Some (ps, None)) ∧ pieces_size ps = size)).
  { intros c1 c2 e1 Hg1 Hm Hg2. split; [by apply Hm|]. intros Ht. exfalso.
    eapply Terminator_commands; [|exact Ht].
    apply (grows_commands c1 c2 Hg2), (grows_commands c c1 Hg1), Hl. }
  assert (Hquit : ∀ c1 err, peer_ok c1 → grows c c1 →
            (let! _ := Quit in ret (Some (false, Some err, e))) c1 = (Some v, c') →
            moves (delivered e size opened c c') idx e v.2 ∧
            (Terminator ∈ log c' → ∃ ps, opened = Ok (Some (ps, None)) ∧ pieces_size ps = size)).
  { intros c1 err Hc1 Hg1. unfold bind. destruct (Quit_grows c1 Hc1) as [Hg2 _].
    destruct (Quit c1) as [[] c2]. cbn in Hg2. unfold ret. intros [= <- <-].
    apply (Hstop c1); [done|intros may; apply moves_refl|done]. }
  destruct (SMTPUTF8 e && _); [by apply Hquit|].
  unfold bind at 1, gets at 1. destruct (eb && _); [by apply Hquit|].
  unfold bind at 1. destruct (MailFrom_speaks (Sender e) (mkMailOpts size (SMTPUTF8 e) eb) c Hc) as [Hg [Hc1 Hr]].
  destruct (MailFrom _ _ c) as [[u|err] c1] eqn:Em; cbn in Hg, Hc1, Hr.
  - intros Ha. destruct (after_mail h size opened idx e c1 v c' Hc1) as [Hm Ht]; [by eapply grows_commands|done|done|].
    split; [|done]. destruct (MailFrom_said _ _ _ _ _ Hc Em) as (params & ok & Hs). eapply moves_weaken; [|done|exact Hm].
    intros i (r & rcpts & ps & go & fin & code & msg & Hr0 & Ho & Hsz & Hsaid & Hin & Hcode).
    exists r, (mkExchange params ok rcpts go ps fin). split_and!; [done..|exact (said_trans _ _ _ _ _ _ _ Hs Hsaid)|by exists code, msg].
  - destruct (_ || _); [by apply Hquit|]. unfold ret. intros [= <- <-].
    destruct (refused err_text idx err e) as [[d r] e1] eqn:Er. cbn.
    apply (Hstop c1); [done| |done]. intros may.
    eapply moves_weaken; [| |by eapply refused_moves]; done.
Qed.

Lemma transaction_total h size eb ps end_ idx e c :
  ∃ v c', transaction err_text h size eb (Ok (Some (ps, end_))) idx e c = (Some v, c').
Proof.
  unfold transaction, bind, gets, ret. repeat case_match; eauto.
  all: simplify_eq; eauto.
Qed.

(** ** Hosts *)

Context (cfg : Outbound) (net : Outside).

(** Dialled transports fail with transport errors; opened bodies are unread. *)
Hypothesis dialled_ok : ∀ h ip p, dial net h ip = Ok p → peer_ok (NewClient p).
Hypothesis opened_ok : ∀ id b r, openReader net id b = Ok r →
  tr_verified r = false ∧ tr_seen r = [] ∧ 0 ≤ tr_remaining r.

Definition stays (c c' : Client) : Prop := peer_ok c → peer_ok c'.

#[local] Instance stays_preorder : PreOrder stays.
Proof. split; unfold stays; [by auto|]. intros a b c. auto. Qed.

Lemma speaks_stays {A} (m : ST Client (res A)) : triple grows peer_ok m result_ok → keeps stays m.
Proof. intros Hm c Hc. by destruct (Hm c Hc) as [_ [? _]]. Qed.

Lemma EHLO_stays h : keeps stays (EHLO h).
Proof.
  unfold EHLO. apply keeps_try; [typeclasses eauto|apply speaks_stays, cmd_speaks|].
  intros [code msg] c Hc. exact Hc.
Qed.

Lemma session_stays policy h noExt : keeps stays (session_on policy h noExt).
Proof.
  assert (Hclose : ∀ {A} (r : A), keeps stays (let! _ := CloseClient in ret r)) by (intros A r c Hc; exact Hc).
  unfold session_on. apply keeps_bind; [typeclasses eauto| |].
  { apply keeps_try; [typeclasses eauto|apply speaks_stays, readResponse_speaks|]. intros a c Hc. exact Hc. }
  intros [g|e]; [|by apply Hclose]. apply keeps_bind; [typeclasses eauto|apply EHLO_stays|].
  intros [u|e].
  - apply keeps_bind; [typeclasses eauto|apply keeps_gets; typeclasses eauto|]. intros [|]; cbn [negb].
    + apply keeps_bind; [typeclasses eauto| |].
      { apply keeps_try; [typeclasses eauto|apply speaks_stays, cmd_speaks|].
        intros [code msg] c Hc. destruct (handshake _ _); exact Hc. }
      intros [v|e]; [|by apply Hclose]. apply keeps_bind; [typeclasses eauto|apply EHLO_stays|].
      intros [w|e]; [apply keeps_ret; typeclasses eauto|by apply Hclose].
    + case_match; [by apply Hclose|apply keeps_ret; typeclasses eauto].
  - case_match; [by apply Hclose|]. apply keeps_bind; [typeclasses eauto| |].
    { unfold HELO. apply keeps_try; [typeclasses eauto|apply speaks_stays, cmd_speaks|].
      intros [code msg] c Hc. exact Hc. }
    intros [v|e']; [apply keeps_ret; typeclasses eauto|by apply Hclose].
Qed.

Lemma connect_ready policy h c noExt client :
  connect policy h (candidateDials cfg net c) noExt = Ok client →
  peer_ok client ∧ Forall is_command (log client) ∧
  ∃ ip p, dial net (host c) ip = Ok p ∧ greeted (NewClient p) client.
Proof.
  intros (ds & p & Hds & Hp & Hs)%connect_session.
  assert (∃ ip, dial net (host c) ip = Ok p) as [ip Hip].
  { unfold candidateDials in Hds. destruct (match ips c with Some _ => _ | None => _ end); [|done].
    cbn in Hds. injection Hds as <-. apply list_elem_of_fmap in Hp as (ip & Hip & _). by exists ip. }
  pose proof (dialled_ok _ _ _ Hip) as Hok.
  pose proof (session_stays policy h noExt (NewClient p) Hok) as Hst. rewrite Hs in Hst. cbn [snd] in Hst.
  pose proof (session_greeted _ _ _ _ _ Hok Hs) as Hg. pose proof Hg as (ws & hs & [Hl _] & Hc & _).
  split_and!; [done|by rewrite Hl|by exists ip, p].
Qed.

(** The message of [id] and [body], of [size] bytes and with the stored digest, was
    accepted by [h] for [address] in the conversation [l]: the host greeted and answered
    each command of the session [hello], then the replies of the transaction were those
    of an [exchange]. *)
Definition reached (id : string) (body size : Z) (sender address h : string) (l : list wire) : Prop :=
  ∃ ip p hello greet x rest rd, dial net h ip = Ok p ∧
    l = hello ++ x_sent sender x ∧ answers p = greet ++ x_heard x ++ rest ∧
    Forall is_command hello ∧ length greet = S (length hello) ∧ x_accepts x address ∧
    openReader net id body = Ok rd ∧ Z.of_nat (length (concat (x_body x))) = size ∧
    bodyDigest (of_list (concat (x_body x))) = tr_digest rd.

Lemma opened_complete id body size ps :
  in64 size →
  (let? r := openReader net id body in
   Ok (copy_limited (filePieces net) (wrap64 (size + 1)) r)) = Ok (Some (ps, None)) →
  pieces_size ps = size →
  ∃ rd, openReader net id body = Ok rd ∧ Z.of_nat (length (concat ps)) = size ∧
        bodyDigest (of_list (concat ps)) = tr_digest rd.
Proof.
  intros Hs. destruct (openReader net id body) as [rd|] eqn:Eo; [|done]. cbn [res_bind].
  destruct (opened_ok _ _ _ Eo) as (Hv & Hseen & Hrem).
  destruct (copy_limited_any (filePieces net) (wrap64 (size + 1)) rd Hrem Hv) as (ps' & e & -> & Hok).
  intros [= -> ->] Hsz. rewrite pieces_size_concat in Hsz. exists rd. split_and!; [done|done|].
  destruct (Hok eq_refl) as [Hmax|[tail (_ & Hd & _)]].
  - exfalso. destruct (decide (size = MaxInt64)) as [->|Hne].
    + assert (Z.max 0 (wrap64 (MaxInt64 + 1)) = 0) as Hw by (vm_compute; reflexivity).
      rewrite Hw in Hmax. unfold MaxInt64 in Hsz. lia.
    + rewrite wrap64_id in Hmax by lia64. lia.
  - unfold digest_ok in Hd. by rewrite Hseen in Hd.
Qed.

Lemma send_spec c body idx e d err e' l :
  NoDup idx → (∀ i s, MessageSize e i = Some s → in64 s) →
  send err_text cfg net c body idx e = Some (d, err, e', l) →
  ∃ i0 size, head idx = Some i0 ∧ MessageSize e i0 = Some size ∧
    moves (λ i, ∃ r, Recipients e !! i = Some r ∧ reached (ID e) body size (Sender e) (Address r) (host c) l) idx e e'.
Proof.
  intros Hnd H64. unfold send. destruct (head idx) as [i0|]; [|done]. cbn [mbind option_bind].
  destruct (MessageSize e i0) as [size|] eqn:Es; [|done]. cbn [mbind option_bind].
  destruct (MessageEightBit e i0) as [eb|]; [|done]. cbn [mbind option_bind].
  destruct (forallb _ _); [|done].
  intros Hr. exists i0, size. split_and!; [done|done|].
  destruct (connect _ _ _ _) as [client|ce] eqn:Ec; [|injection Hr as <- <- <- <-; apply moves_refl].
  apply connect_ready in Ec as (Hp & Hl & ip & p & Hdial & hello & greet & [Hlog Hans] & Hhello & Hlen).
  destruct (transaction _ _ _ _ _ _ _ _) as [[v|] c1] eqn:Et; [|done].
  apply transaction_spec in Et as [Hm _]; [|done|done|done].
  injection Hr as -> <-. cbn [snd] in Hm. eapply moves_weaken; [|done|exact Hm].
  intros i (r & x & Hi & Ho & Hsz & [HL HA] & Hacc). exists r. split; [done|].
  destruct (opened_complete _ _ _ _ (H64 _ _ Es) Ho Hsz) as (rd & Hrd & Hlen' & Hdig).
  exists ip, p, hello, greet, x, (answers (peer c1)), rd. split_and!; try done.
  - rewrite HL, Hlog. done.
  - cbn [peer NewClient] in Hans. by rewrite Hans, HA.
Qed.

(** Delivery does not touch what identifies the message. *)
Lemma moves_message may idx e e' i : moves may idx e e' →
  ID e' = ID e ∧ MessageSize e' i = MessageSize e i ∧ MessageEightBit e' i = MessageEightBit e i ∧ Sender e' = Sender e.
Proof.
  intros [F L _ M]. assert (Hsend : Sender e' = Sender e) by (rewrite F; done). assert (ID e' = ID e ∧ Bodies e' = Bodies e ∧ Size e' = Size e ∧ EightBit e' = EightBit e)
    as (HI & HB & HS & HE) by (rewrite F; done).
  split; [done|]. unfold MessageSize, MessageEightBit. rewrite HB, HS, HE.
  destruct (Bodies e) as [|b bs]; [done|].
  destruct (Recipients e !! i) as [r|] eqn:E1.
  - destruct (Recipients e' !! i) as [r'|] eqn:E2.
    + destruct (M i r r' E1 E2) as [_ _ Hb _ _ _]. cbn [mbind option_bind]. by rewrite Hb.
    + apply lookup_ge_None in E2. apply lookup_lt_Some in E1. lia.
  - destruct (Recipients e' !! i) as [r'|] eqn:E2; [|done].
    apply lookup_ge_None in E1. apply lookup_lt_Some in E2. lia.
Qed.

Lemma sameRecipients_lookup a b : length a = length b →
  (∀ i r r', a !! i = Some r → b !! i = Some r' → sameRecipient r r' = true) → sameRecipients a b = true.
Proof.
  revert b. induction a as [|x a IH]; intros [|y b] Hl Hs; simpl in Hl; try done. cbn [sameRecipients].
  rewrite (Hs 0%nat x y) by done. apply IH; [lia|]. intros i r r'. apply (Hs (S i)).
Qed.

Lemma moves_content may idx e e' : moves may idx e e' → sameMessageContent e e' = true.
Proof.
  intros [F L _ M]. unfold sameMessageContent.
  assert (sameRecipients (Recipients e) (Recipients e') = true) as ->.
  { apply sameRecipients_lookup; [done|]. intros i r r' H1 H2. destruct (M i r r' H1 H2) as [A D B _ _ _].
    unfold sameRecipient. by rewrite A, D, B, !bool_decide_eq_true_2, Z.eqb_refl. }
  rewrite F. cbn. rewrite !bool_decide_eq_true_2, !Z.eqb_refl, !eqb_reflx by done. done.
Qed.

(** The message of the group [idx] went out for recipient [i], to some host. *)
Definition went_out (logs : list (string * list wire)) (body : Z) (idx : list nat) (e : Envelope)
    (i : nat) : Prop :=
  ∃ i0 size r h l, head idx = Some i0 ∧ MessageSize e i0 = Some size ∧ Recipients e !! i = Some r ∧
    (h, l) ∈ logs ∧ reached (ID e) body size (Sender e) (Address r) h l.

Lemma went_out_back may logs body idx e e' i :
  moves may idx e e' → went_out logs body idx e' i → went_out logs body idx e i.
Proof.
  intros Hm (i0 & size & r & h & l & H0 & Hs & Hr & Hl & Hreach).
  destruct (moves_message may idx e e' i0 Hm) as (HI & HS & _ & HE).
  destruct (Recipients e !! i) as [r0|] eqn:E0.
  - destruct (ms_moved _ _ _ _ Hm i r0 r E0 Hr) as [HA _ _ _ _ _].
    exists i0, size, r0, h, l. rewrite <-HI, <-HS, <-HA, <-HE. by split_and!.
  - apply lookup_ge_None in E0. apply lookup_lt_Some in Hr. rewrite (ms_length _ _ _ _ Hm) in Hr. lia.
Qed.

Lemma conclude_moves may idx st e err e' :
  conclude err_text idx st e = (err, e') → moves may idx e e'.
Proof.
  unfold conclude.
  assert (Hr : ∀ d, moves may idx e (rejectDetail idx d e)).
  { intros d. by eapply moves_weaken; [| |apply rejectDetail_moves]. }
  repeat case_match; intros [= _ <-]; by try apply moves_refl.
Qed.

Lemma tryHosts_spec cands n body idx st e logs err e' logs' :
  NoDup idx → (∀ i s, MessageSize e i = Some s → in64 s) →
  tryHosts err_text cfg net n cands body idx st e logs = Some (err, e', logs') →
  (∀ x, x ∈ logs → x ∈ logs') ∧ moves (went_out logs' body idx e) idx e e'.
Proof.
  intros Hnd. revert n st e logs. induction cands as [|c cands IH]; intros n st e logs H64; cbn [tryHosts].
  { destruct (conclude _ _ _ _) as [err0 e0] eqn:Ec. intros [= <- <- <-]. split; [done|].
    by eapply conclude_moves. }
  destruct (ctxErr net n) as [x|]; [intros [= <- <- <-]; split; [done|apply moves_refl]|].
  destruct (globalErr net n) as [x|]; [intros [= <- <- <-]; split; [done|apply moves_refl]|].
  destruct (send err_text cfg net c body idx e) as [[[[d err1] e1] l]|] eqn:Es; [|done].
  destruct (send_spec _ _ _ _ _ _ _ _ Hnd H64 Es) as (i0 & size & H0 & Hs & Hm).
  assert (Hm1 : ∀ lg, (host c, l) ∈ lg → moves (went_out lg body idx e) idx e e1).
  { intros lg Hin. eapply moves_weaken; [|done|exact Hm]. intros i (r & Hr & Hreach).
    exists i0, size, r, (host c), l. by split_and!. }
  destruct d.
  - intros [= <- <- <-]. split; [intros x Hx; apply elem_of_app; by left|].
    apply Hm1. apply elem_of_app. right. left.
  - intros Ht. apply IH in Ht as [Hin Hmv].
    2:{ intros i s. destruct (moves_message _ _ _ _ i Hm) as (_ & -> & _). apply H64. }
    split; [intros x Hx; apply Hin, elem_of_app; by left|].
    eapply moves_trans; [apply Hm1, Hin, elem_of_app; right; left|].
    eapply moves_weaken; [|done|exact Hmv]. intros i. by eapply went_out_back.
Qed.

(** The groups [domain] is called for. *)
Record group_ok (idx : list nat) (e : Envelope) : Prop := {
  g_nodup : NoDup idx;
  g_head : ∃ i0 size eb, head idx = Some i0 ∧ MessageSize e i0 = Some size ∧ MessageEightBit e i0 = Some eb;
  g_range : ∀ i, i ∈ idx → (i < length (Recipients e))%nat
}.

Lemma group_ok_moves may idx e e' : group_ok idx e → moves may idx e e' → group_ok idx e'.
Proof.
  intros [Hn (i0 & size & eb & H0 & Hs & He) Hr] Hm.
  destruct (moves_message _ _ _ _ i0 Hm) as (_ & HS & HE & _). split; [done| |].
  - exists i0, size, eb. by rewrite HS, HE.
  - intros i Hi. rewrite (ms_length _ _ _ _ Hm). by apply Hr.
Qed.

Lemma send_total c body idx e : group_ok idx e → ∃ v l, send err_text cfg net c body idx e = Some (v, l).
Proof.
  intros [_ (i0 & size & eb & H0 & Hs & He) Hr]. unfold send. rewrite H0. cbn [mbind option_bind].
  rewrite Hs. cbn [mbind option_bind]. rewrite He. cbn [mbind option_bind].
  assert (forallb (λ i, i <? length (Recipients e))%nat idx = true) as ->.
  { apply forallb_forall. intros i Hi. apply Nat.ltb_lt, Hr. by apply list_elem_of_In. }
  destruct (connect _ _ _ _) as [client|ce]; [|by eexists (_, _), _].
  destruct (openReader net (ID e) body) as [rd|re] eqn:Eo; cbn [res_bind].
  - destruct (opened_ok _ _ _ Eo) as (Hv & _ & Hrem).
    destruct (copy_limited_any (filePieces net) (wrap64 (size + 1)) rd Hrem Hv) as (ps & er & -> & _).
    destruct (transaction_total (host c) size eb ps er idx e client) as (v & c1 & ->). eauto.
  - destruct (transaction _ _ _ _ _ _ _ _) as [[v|] c1] eqn:Et; [by eauto|]. exfalso. revert Et.
    unfold transaction, bind, gets, ret. repeat case_match; intros; simplify_eq.
Qed.

Lemma tryHosts_total cands n body idx st e logs :
  group_ok idx e → (∀ i s, MessageSize e i = Some s → in64 s) →
  ∃ r, tryHosts err_text cfg net n cands body idx st e logs = Some r.
Proof.
  revert n st e logs. induction cands as [|c cands IH]; intros n st e logs Hg H64; cbn [tryHosts].
  { destruct (conclude _ _ _ _). eauto. }
  destruct (ctxErr net n); [by eauto|]. destruct (globalErr net n); [by eauto|].
  destruct (send_total c body idx e Hg) as ([[d err] e1] & l & Es). rewrite Es. destruct d; [by eauto|].
  destruct (send_spec _ _ _ _ _ _ _ _ (g_nodup _ _ Hg) H64 Es) as (i0 & size & H0 & Hs & Hm).
  apply IH; [by eapply group_ok_moves|].
  intros i s. destruct (moves_message _ _ _ _ i Hm) as (_ & -> & _). apply H64.
Qed.

Lemma domain_moves name body idx e :
  group_ok idx e → (∀ i s, MessageSize e i = Some s → in64 s) →
  ∃ err e' logs, domain err_text cfg net name body idx e = Some (err, e', logs) ∧
    moves (went_out logs body idx e) idx e e'.
Proof.
  intros Hg H64. unfold domain. destruct (hosts _ _ _ _ _) as [cands|err].
  - destruct (tryHosts_total cands 0 body idx start e [] Hg H64) as ([[err e'] logs] & Ht).
    exists err, e', logs. split; [done|]. by apply tryHosts_spec in Ht as [_ ?]; [|apply Hg|].
  - destruct (_ || _); do 3 eexists; (split; [done|]); [|apply moves_refl].
    by eapply moves_weaken; [| |apply rejectDetail_moves].
Qed.
End facts.
