(* ===== verification/Outcomes.v ===== *)
(** * What delivery to one domain guarantees

    The theorems about [domain]: when a recipient is recorded as sent, which
    outcomes are recorded, and a sequence of replies after which an accepted
    message is recorded as failed. *)

From S2P Require Import Prelude Errors GoLib Text Envelope Mailbox Validation Storage Diagnostic Netpolicy Discovery Client ClientFacts BodyReader Send SendFacts.
Open Scope Z_scope.

Section outcomes.
Context `{CaseTables}.
Context (err_text : error → string) (cfg : Outbound) (net : Outside).
Hypothesis dialled_ok : ∀ h ip p, dial net h ip = Ok p → peer_ok (NewClient p).
Hypothesis opened_ok : ∀ id b r, openReader net id b = Ok r →
  tr_verified r = false ∧ tr_seen r = [] ∧ 0 ≤ tr_remaining r.

(** C9: A recipient is recorded as sent only when a host accepted the message for it.
    Working through a domain's hosts always comes to an end; for a recipient that is
    sent afterwards and was not before there is a host that was dialled, greeted, and
    answered each command of the session; to MAIL for the envelope's sender it then
    replied 250, to the RCPT of this recipient 25x, to DATA 354, and, after exactly the
    announced number of body bytes, with the stored SHA-256 digest, and the
    end-of-message line were transmitted, 250.  [x_sent] and [x_heard] are what went
    over the wire in the two directions, in order. *)
Theorem sent_transmitted name body idx e :
  group_ok idx e → (∀ i s, MessageSize e i = Some s → in64 s) →
  ∃ err e' logs, domain err_text cfg net name body idx e = Some (err, e', logs) ∧
  ∀ i r', Recipients e' !! i = Some r' → rStatus r' = StatusSent →
    (∃ r, Recipients e !! i = Some r ∧ rStatus r = StatusSent) ∨
    ∃ i0 size h ip p hello greet x rest rd,
      head idx = Some i0 ∧ MessageSize e i0 = Some size ∧ dial net h ip = Ok p ∧
      (h, hello ++ x_sent (Sender e) x) ∈ logs ∧ answers p = greet ++ x_heard x ++ rest ∧
      Forall is_command hello ∧ length greet = S (length hello) ∧ x_accepts x (Address r') ∧
      openReader net (ID e) body = Ok rd ∧ Z.of_nat (length (concat (x_body x))) = size ∧
      bodyDigest (of_list (concat (x_body x))) = tr_digest rd.
Proof.
  intros Hg H64.
  destruct (domain_moves err_text cfg net dialled_ok opened_ok name body idx e Hg H64)
    as (err & e' & logs & Hd & Hm).
  exists err, e', logs. split; [done|]. intros i r' Hr' Hs.
  destruct (Recipients e !! i) as [r|] eqn:Er.
  2:{ apply lookup_ge_None in Er. apply lookup_lt_Some in Hr'. rewrite (ms_length _ _ _ _ Hm) in Hr'. lia. }
  destruct (ms_moved _ _ _ _ Hm i r r' Er Hr') as [HA _ _ _ _ Hsent].
  destruct (Hsent Hs) as [?|[_ (i0 & size & r0 & h & l & H0 & Hsz & Hr0 & Hin & Hreach)]]; [by left; eauto|].
  right. rewrite Er in Hr0. injection Hr0 as <-.
  destruct Hreach as (ip & p & hello & greet & x & rest & rd & Hdial & -> & Hreach). rewrite HA.
  by exists i0, size, h, ip, p, hello, greet, x, rest, rd.
Qed.

(** Delivery records only what the queue will take back.  Whatever the DNS and
    the servers answer, working on some recipients of a message changes nothing else:
    not the other recipients, not the addresses, routing domains and body choices,
    and no other field; and every recipient worked on ends with a status, reply
    code, enhanced code and detail that the queue's validation accepts. *)
Theorem domain_outcomes name body idx e :
  group_ok idx e → (∀ i s, MessageSize e i = Some s → in64 s) →
  (∀ i r, i ∈ idx → Recipients e !! i = Some r → settled r) →
  ∃ err e' logs, domain err_text cfg net name body idx e = Some (err, e', logs) ∧
  e' = set_Recipients (Recipients e') e ∧
  sameMessageContent e e' = true ∧
  (∀ i, i ∉ idx → Recipients e' !! i = Recipients e !! i) ∧
  (∀ i r', i ∈ idx → Recipients e' !! i = Some r' →
     validateOutcome r' = Ok tt ∧ str_len (Detail r') ≤ maxEnvelopeDetailBytes ∧
     containsDisplayControl (Detail r') = false).
Proof.
  intros Hg H64 Hset.
  destruct (domain_moves err_text cfg net dialled_ok opened_ok name body idx e Hg H64)
    as (err & e' & logs & Hd & Hm).
  exists err, e', logs. split_and!; [done|apply Hm|by eapply moves_content|apply Hm|].
  intros i r' Hi Hr'. destruct (Recipients e !! i) as [r|] eqn:Er.
  2:{ apply lookup_ge_None in Er. apply lookup_lt_Some in Hr'. rewrite (ms_length _ _ _ _ Hm) in Hr'. lia. }
  assert (settled r') as Hs.
  { apply (mv_settled _ _ _ (ms_moved _ _ _ _ Hm i r r' Er Hr')). by apply (Hset i). }
  split; [by apply settled_valid|apply Hs].
Qed.
End outcomes.

(** ** A message to two recipients and two hosts *)

Definition twoRecipients : Envelope :=
  mkEnvelope "m1" "00112233445566778899aabbccddeeff" 1 "user" "me@example.org"
    [mkRecipient "a@example.com" "example.com" 0 StatusPending "" 0 "";
     mkRecipient "b@example.com" "example.com" 0 StatusPending "" 0 ""]
    [] 5 1000 0 0 "" false false (bodyDigest "hello") "" "" "" 0 0 "".

(** Plaintext is permitted; two hosts at most, any address. *)
Definition openPolicy : Outbound :=
  mkOutbound (effectiveTLS "opportunistic" false true) "out.example.org"
    (mkDnsPolicy "" "" true ∅ 2 2) id id.

Definition greeting : list answer := [Reply 220 "ready"; Reply 250 "mx"].

(** The first host takes the message for a but not for b. *)
Definition firstHost : Peer :=
  mkPeer (greeting ++ [Reply 250 "ok"; Reply 250 "ok"; Reply 450 "4.2.1 mailbox busy"; Reply 354 "go";
                       Reply 250 "queued"]) (λ _, None) (λ _, None).

(** The second refuses the sender. *)
Definition secondHost : Peer :=
  mkPeer (greeting ++ [Reply 550 "5.7.1 sender refused"]) (λ _, None) (λ _, None).

Definition sampleNet (second : Peer) : Outside :=
  mkOutside
    (mkResolver (λ _, Ok [Some (mkMX "mx1.example.com." 10); Some (mkMX "mx2.example.com." 20)])
       (λ _ _, Ok [[192; 0; 2; 1]]))
    (λ h _, Ok (if bool_decide (h = "mx1.example.com") then firstHost else second))
    (λ _ _, Ok (mkTracked (str_list "hello") 5 (bodyDigest "hello") [] true false 0))
    (mkPieces (λ _, 5%nat) (λ _, None)) (λ _, None) (λ _, None).

Definition no_text (e : error) : string := "error".

Lemma sample_dialled second h ip p :
  (∀ code msg e, ReadFails code msg e ∉ answers second) → (∀ n, writeErr second n = None) →
  dial (sampleNet second) h ip = Ok p → peer_ok (NewClient p).
Proof.
  intros Ha Hw. cbn. case_bool_decide; intros [= <-]; split; cbn.
  - done.
  - intros code msg e He. exfalso. unfold greeting in He. set_unfold in He. naive_solver.
  - intros n e He. by rewrite Hw in He.
  - intros code msg e He. by apply Ha in He.
Qed.

Lemma secondHost_quiet : ∀ code msg e, ReadFails code msg e ∉ answers secondHost.
Proof. intros code msg e He. unfold secondHost, greeting in He. cbn in He. set_unfold in He. naive_solver. Qed.

Lemma sample_opened second id b r : openReader (sampleNet second) id b = Ok r →
  tr_verified r = false ∧ tr_seen r = [] ∧ 0 ≤ tr_remaining r.
Proof. cbn. intros [= <-]. done. Qed.

Lemma sample_group : group_ok [0; 1]%nat twoRecipients.
Proof.
  split.
  - apply (bool_decide_unpack _). vm_compute. exact I.
  - exists 0%nat, 5, false. done.
  - intros i. set_unfold. cbn. lia.
Qed.

Lemma sample_sizes : ∀ i s, MessageSize twoRecipients i = Some s → in64 s.
Proof. intros i s. cbn. intros [= <-]. lia64. Qed.

(** With a second host that gives no reply the first recipient stays sent: the first
    host accepted it. *)
Definition silentHost : Peer := mkPeer greeting (λ _, None) (λ _, None).

Lemma silentHost_quiet : ∀ code msg e, ReadFails code msg e ∉ answers silentHost.
Proof. intros code msg e He. unfold silentHost, greeting in He. cbn in He. set_unfold in He. naive_solver. Qed.

Lemma sent_transmitted_witness :
  ∃ err e' logs, domain no_text openPolicy (sampleNet silentHost) "example.com" 0 [0; 1]%nat
                   twoRecipients = Some (err, e', logs) ∧
  (rStatus <$> Recipients e') = [StatusSent; StatusPending] ∧
  ∃ h ip p x, dial (sampleNet silentHost) h ip = Ok p ∧ x_accepts x "a@example.com" ∧
    ∃ greet rest, answers p = greet ++ x_heard x ++ rest.
Proof.
  destruct (sent_transmitted no_text openPolicy (sampleNet silentHost)
              (λ h ip p, sample_dialled silentHost h ip p silentHost_quiet (λ n, eq_refl))
              (sample_opened silentHost) "example.com" 0 [0; 1]%nat twoRecipients sample_group sample_sizes)
    as (err & e' & logs & Hd & Hsent).
  exists err, e', logs. split; [exact Hd|]. vm_compute in Hd. injection Hd as <- <- <-.
  split; [reflexivity|].
  destruct (Hsent 0%nat _ eq_refl eq_refl) as [(r & Hr & Hs)|(i0 & size & h & ip & p & hello & greet & x & rest & rd & H)].
  - vm_compute in Hr. injection Hr as <-. vm_compute in Hs. discriminate Hs.
  - destruct H as (_ & _ & Hdial & _ & Hans & _ & _ & Hacc & _).
    exists h, ip, p, x. split; [exact Hdial|]. split; [exact Hacc|]. exists greet, rest. exact Hans.
Defined.

Lemma domain_outcomes_witness :
  ∃ err e' logs, domain no_text openPolicy (sampleNet secondHost) "example.com" 0 [0; 1]%nat
                   twoRecipients = Some (err, e', logs) ∧
  sameMessageContent twoRecipients e' = true.
Proof.
  destruct (domain_outcomes no_text openPolicy (sampleNet secondHost)
              (λ h ip p, sample_dialled secondHost h ip p secondHost_quiet (λ n, eq_refl))
              (sample_opened secondHost) "example.com" 0 [0; 1]%nat twoRecipients sample_group sample_sizes)
    as (err & e' & logs & Hd & _ & Hc & _).
  - intros i r _ Hr. destruct i as [|[|i]]; cbn in Hr; [| |done]; injection Hr as <-;
      (split; [split; [vm_compute; discriminate|vm_compute; reflexivity]|left; auto]).
  - exists err, e', logs. split; [exact Hd|exact Hc].
Defined.

(** An accepted message can be recorded as failed.  The first host accepts the
    message for one recipient (250 after the end of the data) and defers the other,
    so delivery goes on to the next host; when that host refuses the sender, the
    refusal is written to both recipients: the one already sent is now failed, with
    the second host's reply, and will be reported as undelivered. *)
Theorem sent_overwritten :
  ∃ l1 e1 l2 e2,
    send no_text openPolicy (sampleNet secondHost) (mkCandidate "mx1.example.com" None) 0 [0; 1]%nat
      twoRecipients
      = Some (false, Some (Message "temporary RCPT failures: b@example.com: 450 4.2.1 mailbox busy"), e1, l1) ∧
    (rStatus <$> Recipients e1) = [StatusSent; StatusPending] ∧
    domain no_text openPolicy (sampleNet secondHost) "example.com" 0 [0; 1]%nat twoRecipients
      = Some (None, e2, [("mx1.example.com", l1); ("mx2.example.com", l2)]) ∧
    ((λ r, (Address r, rStatus r, Code r, EnhancedCode r)) <$> Recipients e2)
      = [("a@example.com", StatusFailed, 550, "5.7.1"); ("b@example.com", StatusFailed, 550, "5.7.1")].
Proof. do 4 eexists. split_and!; vm_compute; reflexivity. Qed.
