(* ===== verification/Delivery.v ===== *)
(** * Settling a delivery (src/internal/queue/delivery.go, storage.go,
    quarantine.go)

    What a delivery worker does with an envelope it has checked out: store the
    next revision ([retry]), remove it ([Finish]) or put a damaged one aside
    ([QuarantineCheckedOut]). *)

From S2P Require Import Prelude Errors GoLib Sha256 Envelope Capacity Utf8 Mailbox Validation.
From S2P Require Import FileSystem Disk Queue Storage.
Open Scope Z_scope.

Section delivery.
Context {S : Type} `{Scheduler S} `{JsonCodec}.
Variable ToASCII : string → res string.
Variable E : Environment.
Variable FreeDisk : option (res Z).

Definition errNilEnvelope : error := Message "missing envelope".

(** ** Storing the next revision *)

(** The charged entry follows the stored revision. *)
Definition noteRevision (envelope : Envelope) : ST (Queue S) unit := modify (λ q,
  match accounted (cap q) !! ID envelope with
  | Some entry =>
      if bool_decide (a_incarnation entry = Incarnation envelope)
      then set_cap (set_accounted
             (<[ID envelope := mkAccounted (a_size entry) (a_owner entry) (a_incarnation entry)
                                 (Revision envelope)]> (accounted (cap q))) (cap q)) q
      else q
  | None => q
  end).

(** The write and its accounting, once everything is checked: the envelope, the
    flag of [storeReadyUpdate], the result. *)
Definition storeChecked (envelope updated : Envelope) (metadata : string) (before : Z)
    : ST (Queue S) (Envelope * bool * res unit) :=
  let id := ID envelope in
  let! (committed, retainedTemp, err) :=
    onDisk (writeMetaReconciled E Ready id metaName updated) in
  let! measured := onDisk (AllocatedBytes E Ready id) in
  let! (retainedTemp, err) :=
    match measured with
    | Ok after =>
        let! _ := onCap (adjustPhysicalDelta before after) in ret (false, err)
    | Err measureErr =>
        if committed || retainedTemp then
          let! _ := onCap (addPhysicalLocked
                      (wrap64 (AllocationSize (str_len metadata) + AllocationSize 0))) in
          ret (false, to_res (errors_Join (opt_err err)
                                (Some (Wrap "measure updated queue entry" measureErr))))
        else ret (retainedTemp, err)
    end in
  if negb committed then ret (envelope, retainedTemp, err)
  else
    let envelope := set_Revision (Revision updated) envelope in
    let! _ := noteRevision envelope in
    ret (envelope, retainedTemp, err).

(** [storeReadyUpdate].  The copy it validates shares its recipients with the
    caller's envelope, which the result shows. *)
Definition storeReadyUpdate (envelope : Envelope) (allowDSNLink : bool)
    : ST (Queue S) (Envelope * bool * res unit) :=
  match incrementRevision (Revision envelope) with
  | Err e => ret (envelope, false, Err e)
  | Ok nextRevision =>
      let! checked :=
        onDisk (try! _ := matchReadyUpdate ToASCII E envelope allowDSNLink in
                AllocatedBytes E Ready (ID envelope)) in
      match checked with
      | Err e => ret (envelope, false, Err e)
      | Ok before =>
          let '(updated, valid) := validateEnvelope ToASCII (set_Revision nextRevision envelope) in
          let envelope := set_Recipients (Recipients updated) envelope in
          match (let? _ := valid in marshalEnvelope updated) with
          | Err e => ret (envelope, false, Err e)
          | Ok metadata => storeChecked envelope updated metadata before
          end
      end
  end.

Definition storeReady (envelope : Envelope) := storeReadyUpdate envelope false.
Definition storeReadyDSNLink (envelope : Envelope) := storeReadyUpdate envelope true.

(** ** Retry *)

(** [publish]: the transition ends with the envelope scheduled, or not. *)
Definition publish (envelope : Envelope) (schedule : bool) : ST (Queue S) unit :=
  let! _ := dropTransition (ID envelope) in
  let! added := if schedule then scheduleLocked envelope else ret false in
  if added then signal else ret tt.

(** The size held for the new metadata and its temporary file. *)
Definition retryHold (meta : string) : Z :=
  wrap64 (AllocationSize (wrap64 (str_len meta + AllocationSize 0)) + AllocationSize 0).

(** With the transition owned: the caller's envelope and the result. *)
Definition retryOwned (envelope : Envelope) (reschedule : bool)
    : ST (Queue S) (Envelope * res unit) :=
  let! started := startMutation E in
  match started with
  | Err e => let! _ := endTransition (ID envelope) in ret (envelope, Err e)
  | Ok _ =>
      let '(envelope, valid) := validateEnvelope ToASCII envelope in
      match valid with
      | Err e =>
          let! durable := onDisk (loadAcceptedDir ToASCII E (PEntry Ready (ID envelope)) (ID envelope)) in
          let! _ := publish (match durable with Ok d => d | Err _ => envelope end) true in
          ret (envelope, Err e)
      | Ok _ =>
          match marshalEnvelope envelope with
          | Err e => let! _ := publish envelope true in ret (envelope, Err e)
          | Ok meta =>
              let! held := hold FreeDisk (retryHold meta) false in
              match held with
              | Err e => let! _ := publish envelope true in ret (envelope, Err e)
              | Ok _ =>
                  let! (envelope, commitHold, err) := storeReady envelope in
                  match err with
                  | Ok _ =>
                      let! _ := publish envelope reschedule in
                      let! _ := onCap (releaseHold (retryHold meta) commitHold) in
                      ret (envelope, Ok tt)
                  | Err e =>
                      if errors_Is e ErrIDConflict then
                        let! _ := onCap (releaseHold (retryHold meta) commitHold) in
                        let! _ := endTransition (ID envelope) in
                        ret (envelope, Err e)
                      else
                        let! _ := publish envelope true in
                        let! _ := onCap (releaseHold (retryHold meta) commitHold) in
                        ret (envelope, Err e)
                  end
              end
          end
      end
  end.

Definition retry (envelope : option Envelope) (reschedule : bool)
    : ST (Queue S) (option Envelope * res unit) :=
  match envelope with
  | None => ret (None, Err errNilEnvelope)
  | Some env =>
      let! opened := beginOperation in
      match opened with
      | Err e => ret (envelope, Err e)
      | Ok _ =>
          let! (env, r) :=
            (let! allowed :=
               (try! _ := rejectReadOnly in
                match ValidateID (ID env) with
                | Err e => ret (Err e)
                | Ok _ => beginTransition (ID env)
                end) in
             match allowed with
             | Err e => ret (env, Err e)
             | Ok _ => retryOwned env reschedule
             end) in
          let! _ := endOperation in
          ret (Some env, r)
      end
  end.

Definition Retry (envelope : option Envelope) := retry envelope true.
Definition RetryDeferred (envelope : option Envelope) := retry envelope false.

(** ** Operations on one identifier *)

(** The preamble that [Finish], [Bury] and [QuarantineCheckedOut] share: an open,
    writable queue, a valid identifier, the transition, the mutation lock. *)
Definition transition (id : string) (m : ST (Queue S) (res unit)) : ST (Queue S) (res unit) :=
  operation
    (match ValidateID id with
     | Err e => ret (Err e)
     | Ok _ =>
         try! _ := beginTransition id in
         let! r := (try! _ := startMutation E in m) in
         let! _ := endTransition id in
         ret r
     end).

(** ** Finish *)

Definition finishEntry (envelope : Envelope) : ST (Queue S) (res unit) :=
  let id := ID envelope in
  let! matched := onDisk (matchReady ToASCII E envelope) in
  let stop := match matched with
              | Err e => if errors_Is e ErrNotExist then None else Some e
              | Ok _ => None end in
  match stop with
  | Some e => ret (Err e)
  | None =>
      let! measured := onDisk (AllocatedBytes E Ready id) in
      let entryBytes := match measured with Ok n => n | Err _ => 0 end in
      let! now := onDisk (time_Now E) in
      let dst := stamped id now in
      try! _ := onDisk (Mkdir E (PSpace Trash)) in
      let! (moved, r) := onDisk (moveState E Ready id Trash dst) in
      match r with
      | Err e =>
          if moved || errors_Is e ErrNotExist then
            let! _ := noteRemovedQ id in
            if moved then ret (Err e) else ret (Ok tt)
          else ret (Err e)
      | Ok _ =>
          let! _ := noteRemovedQ id in
          let! removed := onDisk (removeTrash E dst) in
          match removed with
          | Err e => ret (Err (Join (Sentinel ErrCleanup) e))
          | Ok _ =>
              let! _ := onCap (removePhysical entryBytes) in
              ret (Ok tt)
          end
      end
  end.

Definition Finish (envelope : option Envelope) : ST (Queue S) (res unit) :=
  match envelope with
  | None => ret (Err errNilEnvelope)
  | Some env => transition (ID env) (finishEntry env)
  end.

(** ** Quarantine of a checked-out entry *)

Definition noteCorrupt (e : error) : ST (Queue S) unit :=
  modify (λ q, set_Corrupt (Corrupt q ++ [e]) q).

Definition noteWarning (e : error) : ST (Queue S) unit :=
  modify (λ q, set_Warnings (Warnings q ++ [e]) q).

Definition blockCheckedOut (id : string) (cause relocation : error) : ST (Queue S) unit :=
  let! _ := block id in
  let! _ := modify (λ q,
    match scheduled q !! id with
    | None => q
    | Some h =>
        set_scheduled (delete id (scheduled q))
          (set_pending (s_Remove (clock E (ticks (disk q))) h (pending q)).2 q)
    end) in
  noteCorrupt (Wrap "QUARANTINE FAILED; BLOCKED" relocation).

Definition recordQuarantineFailure (id : string) (cause quarantineErr : error)
    : ST (Queue S) unit :=
  let! _ := block id in
  noteCorrupt (Wrap "QUARANTINE FAILED; BLOCKED" quarantineErr).

Definition recordBlocked (id : string) (cause : error) : ST (Queue S) unit :=
  let! _ := block id in
  noteCorrupt (Wrap "BLOCKED" cause).

Definition recordTransientBlocked (id : string) (cause : error) : ST (Queue S) unit :=
  let! _ := block id in
  noteWarning (Wrap "TRANSIENTLY BLOCKED" cause).

Definition quarantineChecked (envelope : Envelope) (cause : error) : ST (Queue S) (res unit) :=
  let id := ID envelope in
  let! entry := gets (λ q, accounted (cap q) !! id) in
  let! isScheduled := gets (λ q, bool_decide (is_Some (scheduled q !! id))) in
  let same := match entry with
              | None => false
              | Some a => bool_decide (a_incarnation a = Incarnation envelope)
                          && (a_revision a =? Revision envelope) end in
  if negb same || isScheduled
  then ret (Err (conflict "checked-out queue identity changed"))
  else
    let! current := onDisk (loadAcceptedMetadata ToASCII E (PEntry Ready id) id) in
    match current with
    | Err e =>
        let! _ := blockCheckedOut id cause (Wrap "verify checked-out identity" e) in
        ret (Err e)
    | Ok current =>
        if negb (bool_decide (Incarnation current = Incarnation envelope))
           || negb (Revision current =? Revision envelope)
           || negb (Size current =? Size envelope)
           || negb (bool_decide (BodyDigest current = BodyDigest envelope))
        then
          let e := conflict "checked-out queue identity changed" in
          let! _ := blockCheckedOut id cause e in
          ret (Err e)
        else
          let! now := onDisk (time_Now E) in
          let dst := stamped (id +:+ "-runtime") now in
          let! made := onDisk (ensureDurableDir E (PSpace Corr)) in
          match made with
          | Err e => let! _ := blockCheckedOut id cause e in ret (Err e)
          | Ok _ =>
              let! (moved, r) := onDisk (moveState E Ready id Corr dst) in
              match moved, r with
              | false, Err e => let! _ := blockCheckedOut id cause e in ret (Err e)
              | true, Err e =>
                  let! _ := noteRemovedQ id in
                  let! _ := block id in
                  let! _ := noteCorrupt (Wrap "QUARANTINE DURABILITY FAILED; BLOCKED" e) in
                  ret (Err e)
              | _, Ok _ =>
                  let! _ := noteRemovedQ id in
                  let! _ := noteCorrupt (Wrap "ready" cause) in
                  ret (Ok tt)
              end
          end
    end.

Definition QuarantineCheckedOut (envelope : option Envelope) (cause : error)
    : ST (Queue S) (res unit) :=
  match envelope with
  | Some env =>
      if negb (IsCorruption cause)
      then ret (Err (Message "checked-out quarantine requires a corruption error"))
      else transition (ID env) (quarantineChecked env cause)
  | None => ret (Err (Message "checked-out quarantine requires a corruption error"))
  end.
End delivery.
