(* ===== verification/Dead.v ===== *)
(** * Dead letters (src/internal/queue/dead.go)

    [Bury] stores the final status inside ready/ and moves the entry to dead/
    with one rename; [ReviveDead] stages new metadata beside the old, moves the
    entry back and activates the staged metadata. *)

From S2P Require Import Prelude Errors GoLib Sha256 Envelope Capacity Utf8 Mailbox Validation.
From S2P Require Import FileSystem Disk Queue Storage Delivery.
Open Scope Z_scope.

Section dead.
Context {S : Type} `{Scheduler S} `{JsonCodec}.
Variable ToASCII : string → res string.
Variable E : Environment.
Variable FreeDisk : option (res Z).

(** ** Bury *)

(** How an operation that owns a transition ends: by rescheduling the envelope,
    or by ending the transition. *)
Definition buryMissing (envelope : Envelope) (err : error) : ST (Queue S) (bool * res unit) :=
  let id := ID envelope in
  let again := (negb (errors_Is err ErrIDConflict), Err err) in
  let! src := onDisk (os_Stat E (PEntry Ready id)) in
  let gone := match src with Err e => errors_Is e ErrNotExist | Ok _ => false end in
  if gone then
    let! dead := onDisk (loadAcceptedDir ToASCII E (PEntry Dead id) id) in
    match dead with
    | Ok dead =>
        if negb (bool_decide (Incarnation dead = Incarnation envelope))
           || negb (Revision dead =? Revision envelope)
        then ret (false, Err (conflict "dead-letter identity changed"))
        else let! _ := noteRemovedQ id in ret (false, Ok tt)
    | Err deadErr =>
        if negb (errors_Is deadErr ErrNotExist) then ret (false, Err deadErr) else ret again
    end
  else ret again.

(** After the hold: the envelope, whether the hold is charged, whether the
    envelope is rescheduled, and the result. *)
Definition buryHeld (envelope : Envelope)
    : ST (Queue S) (Envelope * bool * bool * res unit) :=
  let id := ID envelope in
  let! matched := onDisk (matchReady ToASCII E envelope) in
  match matched with
  | Err e => let! (again, r) := buryMissing envelope e in ret (envelope, false, again, r)
  | Ok _ =>
      let! dst := onDisk (os_Stat E (PEntry Dead id)) in
      match dst with
      | Ok _ => ret (envelope, false, true, Err (conflict "dead-letter id already exists"))
      | Err e =>
          if negb (errors_Is e ErrNotExist) then ret (envelope, false, true, Err e)
          else
            let! (envelope, commitHold, stored) := storeReady ToASCII E envelope in
            match stored with
            | Err e => ret (envelope, commitHold, negb (errors_Is e ErrIDConflict), Err e)
            | Ok _ =>
                let! (moved, r) := onDisk (moveState E Ready id Dead id) in
                match r with
                | Err e =>
                    if moved : bool then
                      let! _ := noteRemovedQ id in ret (envelope, commitHold, false, Err e)
                    else ret (envelope, commitHold, true, Err e)
                | Ok _ => let! _ := noteRemovedQ id in ret (envelope, commitHold, false, Ok tt)
                end
            end
      end
  end.

Definition buryOwned (envelope : Envelope) : ST (Queue S) (Envelope * res unit) :=
  let! started := startMutation E in
  match started with
  | Err e => let! _ := endTransition (ID envelope) in ret (envelope, Err e)
  | Ok _ =>
      let '(envelope, valid) := validateEnvelope ToASCII envelope in
      match valid with
      | Err e =>
          let! durable := onDisk (loadAcceptedDir ToASCII E (PEntry Ready (ID envelope)) (ID envelope)) in
          let! _ := publish (match durable with Ok d => d | Err _ => envelope end) true in
          ret (envelope, Err e)
      | Ok _ =>
          match marshalEnvelope envelope with
          | Err e => let! _ := publish envelope true in ret (envelope, Err e)
          | Ok meta =>
              let! held := hold FreeDisk (retryHold meta) true in
              match held with
              | Err e => let! _ := publish envelope true in ret (envelope, Err e)
              | Ok _ =>
                  let! (envelope, commitHold, again, r) := buryHeld envelope in
                  let! _ := if again : bool then publish envelope true else ret tt in
                  let! _ := onCap (releaseHold (retryHold meta) commitHold) in
                  let! _ := if again : bool then ret tt else endTransition (ID envelope) in
                  ret (envelope, r)
              end
          end
      end
  end.

Definition Bury (envelope : option Envelope) : ST (Queue S) (option Envelope * res unit) :=
  match envelope with
  | None => ret (None, Err errNilEnvelope)
  | Some env =>
      let! opened := beginOperation in
      match opened with
      | Err e => ret (envelope, Err e)
      | Ok _ =>
          let! (env, r) :=
            (let! allowed :=
               (try! _ := rejectReadOnly in
                match ValidateID (ID env) with
                | Err e => ret (Err e)
                | Ok _ => beginTransition (ID env)
                end) in
             match allowed with
             | Err e => ret (env, Err e)
             | Ok _ => buryOwned env
             end) in
          let! _ := endOperation in
          ret (Some env, r)
      end
  end.

(** ** ReviveDead *)

(** The loop of [claimLinkedDeadDSN] over the namespaces. *)
Fixpoint linkedDSNAbsent (dsnID : string) (namespaces : list space) : ST world (res unit) :=
  match namespaces with
  | [] => ret (Ok tt)
  | s :: namespaces =>
      let! r := (try! _ := CheckRead E (PEntry s dsnID) in ret (Ok tt)) in
      match r with
      | Err e => ret (Err (Wrap "inspect linked DSN" e))
      | Ok _ =>
          let! st := os_Stat E (PEntry s dsnID) in
          match st with
          | Ok _ => ret (Err (conflict "linked DSN still exists"))
          | Err e => if negb (errors_Is e ErrNotExist) then ret (Err (Wrap "inspect linked DSN" e))
                     else linkedDSNAbsent dsnID namespaces
          end
      end
  end.

(** The identifier that is now owned too, and the result. *)
Definition claimLinkedDeadDSN (env : Envelope) : ST (Queue S) (string * res unit) :=
  if negb (is_empty (DSNSourceID env)) || is_empty (DSNID env) then ret ("", Ok tt)
  else
    let dsnID := DSNID env in
    let! owned := beginTransition dsnID in
    match owned with
    | Err e => ret ("", Err (Wrap "inspect linked DSN" e))
    | Ok _ =>
        let! r := onDisk (linkedDSNAbsent dsnID [Dsn; Ready; Dead]) in
        ret (dsnID, r)
    end.

(** [commitPhysical] of [ReviveDead] and [AddDSN]: what remains held. *)
Definition commitUpTo (bytes physicalHeld : Z) : ST (Queue S) Z :=
  if (bytes <=? 0) || (physicalHeld =? 0) then ret physicalHeld
  else
    let bytes := if physicalHeld <? bytes then physicalHeld else bytes in
    let! _ := onCap (commitPhysicalLocked bytes) in
    ret (physicalHeld - bytes).

Definition commitIf (b : bool) (bytes physicalHeld : Z) : ST (Queue S) Z :=
  if b then commitUpTo bytes physicalHeld else ret physicalHeld.

Definition reviveRecipient (r : Recipient) : Recipient :=
  if bool_decide (rStatus r = StatusFailed)
  then mkRecipient (Address r) (rDomain r) (rBody r) StatusPending "" 0 ""
  else r.

(** The envelope that is put back. *)
Definition reviveEnvelope (env : Envelope) (now nextRevision : Z) : Envelope :=
  let env := set_Recipients (map reviveRecipient (Recipients env)) env in
  let env := set_NextAttempt now (set_LastError "" (set_Attempts 0 env)) in
  let env := if is_empty (DSNSourceID env)
             then set_DSNID "" (set_DSNGeneration (DSNGeneration env + 1) env) else env in
  set_Revision nextRevision env.

(** What is held for the staged and the replaced metadata. *)
Definition revivePhysical (meta : string) : Z :=
  wrap64 (2 * AllocationSize (wrap64 (str_len meta + AllocationSize 0)) + AllocationSize 0).

(** The checks before anything changes: the envelope, its measured size and
    its next revision. *)
Definition reviveChecks (id : string) : ST (Queue S) (string * res (Envelope * Z * Z)) :=
  let! blocked := gets (λ q, bool_decide (id ∈ blocked q)) in
  if blocked : bool
  then ret ("", Err (conflict "queue id is blocked by an unresolved corrupt entry"))
  else
    let! loaded := onDisk (try! _ := acceptedDir E (PEntry Dead id) in loadDir ToASCII E (PEntry Dead id) id) in
    match loaded with
    | Err e => ret ("", Err e)
    | Ok env =>
        let! (linked, claimed) := claimLinkedDeadDSN env in
        match claimed with
        | Err e => ret (linked, Err e)
        | Ok _ =>
            let! measured := onDisk (AllocatedBytes E Dead id) in
            ret (linked,
              let? oldEntryBytes := measured in
              let? nextRevision := incrementRevision (Revision env) in
              reject is_empty (DSNSourceID env) && (DSNGeneration env =? MaxUint64)
                with Message "DSN generation overflow" in
              Ok (env, oldEntryBytes, nextRevision))
        end
    end.

Definition join_all (es : list (option error)) : option error :=
  foldl errors_Join None es.

(** Stage the metadata, move the entry, activate the metadata: what remains
    held, and either the error that stopped it or the error to report beside
    the revived entry. *)
Definition reviveMove (id : string) (env : Envelope) (metaLen physicalHeld : Z)
    : ST (Queue S) (Z * res (option error)) :=
  let file := AllocationSize metaLen in
  let fileAndDir := wrap64 (AllocationSize metaLen + AllocationSize 0) in
  let! (_, retainedStageTemp, staged) :=
    onDisk (writeMetaReconciled E Dead id reviveMetaName env) in
  match staged with
  | Err e =>
      let! cleanupErr := onDisk (removeAndSync E Dead id reviveMetaName) in
      let! held := commitIf retainedStageTemp file physicalHeld in
      let! held := commitIf (negb (is_ok cleanupErr)) fileAndDir held in
      ret (held, Err (default e (errors_Join (Some e) (opt_err cleanupErr))))
  | Ok _ =>
      let! (moved, moveErr) := onDisk (moveState E Dead id Ready id) in
      match moveErr, moved with
      | Err e, false =>
          let! cleanupErr := onDisk (removeAndSync E Dead id reviveMetaName) in
          let! held := commitIf (negb (is_ok cleanupErr)) fileAndDir physicalHeld in
          ret (held, Err (default e (errors_Join (Some e) (opt_err cleanupErr))))
      | _, _ =>
          let! (activated, activateErr) := onDisk (moveFile E Ready id reviveMetaName metaName) in
          match activateErr, activated with
          | Err e, false =>
              let! (rolledBack, rollbackErr) := onDisk (moveState E Ready id Dead id) in
              if rolledBack : bool then
                let! cleanupErr := onDisk (removeAndSync E Dead id reviveMetaName) in
                let! held := commitIf (negb (is_ok cleanupErr)) fileAndDir physicalHeld in
                ret (held, Err (default e
                  (join_all [opt_err moveErr; Some e; opt_err rollbackErr; opt_err cleanupErr])))
              else
                let wrapped := Wrap "rollback revive" (default (Message "<nil>") (opt_err rollbackErr)) in
                let! (committed, retained, reconcileErr) :=
                  onDisk (writeMetaReconciled E Ready id metaName env) in
                let! held := commitIf retained file physicalHeld in
                if negb committed then
                  ret (held, Err (default e
                    (join_all [opt_err moveErr; Some e; Some wrapped; opt_err reconcileErr])))
                else
                  let! cleanupErr := onDisk (removeAndSync E Ready id reviveMetaName) in
                  let! held := commitIf (negb (is_ok cleanupErr)) fileAndDir held in
                  ret (held, Ok (errors_Join (opt_err moveErr)
                    (join_all [Some e; Some wrapped; opt_err reconcileErr; opt_err cleanupErr])))
          | _, _ => ret (physicalHeld, Ok (errors_Join (opt_err moveErr) (opt_err activateErr)))
          end
      end
  end.

(** Measure, settle the reservation, charge and schedule. *)
Definition revivePublish (id linkedDSNID owner : string) (env : Envelope)
    (metaLen oldEntryBytes physicalHeld : Z) (moveErr : option error)
    : ST (Queue S) (option error) :=
  let! measured := onDisk (AllocatedBytes E Ready id) in
  let! (physicalHeld, moveErr) :=
    match measured with
    | Err e =>
        let! held := commitUpTo (wrap64 (AllocationSize metaLen + AllocationSize 0)) physicalHeld in
        ret (held, errors_Join moveErr (Some (Wrap "measure revived entry" e)))
    | Ok newEntryBytes =>
        let! _ := onCap (adjustPhysicalDelta oldEntryBytes newEntryBytes) in
        ret (physicalHeld, moveErr)
    end in
  let! _ := onCap (releaseReserveLocked (Size env) physicalHeld owner) in
  let! _ := onCap (λ c, (noteAddedLocked env c).1) in
  let! _ := dropTransition id in
  let! _ := if is_empty linkedDSNID then ret tt else dropTransition linkedDSNID in
  let! _ := scheduleLocked env in
  let! _ := signal in
  ret moveErr.

(** With the identifier owned: whether the transition has ended, and the
    envelope with the error beside it. *)
Definition reviveOwned (id : string)
    : ST (Queue S) (bool * string * res (Envelope * option error)) :=
  let! started := startMutation E in
  match started with
  | Err e => ret (false, "", Err e)
  | Ok _ =>
      let! (linked, checked) := reviveChecks id in
      match checked with
      | Err e => ret (false, linked, Err e)
      | Ok (env, oldEntryBytes, nextRevision) =>
          let! exists_ := gets (λ q, bool_decide (is_Some (accounted (cap q) !! id))) in
          if exists_ : bool then ret (false, linked, Err (Message "queue id is already ready"))
          else
            match marshalEnvelope env with
            | Err e => ret (false, linked, Err e)
            | Ok meta =>
                let exempt := negb (is_empty (DSNSourceID env)) in
                let owner := if exempt then "" else Username env in
                let! reserved := reserve_ FreeDisk (Size env) (revivePhysical meta) exempt true owner in
                match reserved with
                | Err e => ret (false, linked, Err e)
                | Ok _ =>
                    let! now := onDisk (time_Now E) in
                    let '(env, valid) :=
                      validateEnvelope ToASCII (reviveEnvelope env now nextRevision) in
                    let! (held, moved) :=
                      match valid with
                      | Err e => ret (revivePhysical meta, Err e)
                      | Ok _ => reviveMove id env (str_len meta) (revivePhysical meta)
                      end in
                    match moved with
                    | Err e =>
                        let! _ := onCap (releaseReserveLocked (Size env) held owner) in
                        ret (false, linked, Err e)
                    | Ok moveErr =>
                        let! moveErr := revivePublish id linked owner env (str_len meta)
                                          oldEntryBytes held moveErr in
                        ret (true, linked, Ok (env, moveErr))
                    end
                end
            end
      end
  end.

Definition ReviveDead (id : string) : ST (Queue S) (res (Envelope * option error)) :=
  operation
    (match ValidateID id with
     | Err e => ret (Err e)
     | Ok _ =>
         try! _ := beginTransition id in
         let! (ended, linked, r) := reviveOwned id in
         let! _ := if ended : bool then ret tt else endTransitions [id; linked] in
         ret r
     end).
End dead.
