(* ===== verification/Add.v ===== *)
(** * Accepting a message (src/internal/queue/add.go)

    [AddContext] builds the entry under tmp/, renames it into ready/ while its
    marker still says pending, and commits by rewriting the marker in place and
    syncing it.  The deferred clean-ups of the source are explicit: each part
    returns what its defers would release. *)

From S2P Require Import Prelude Errors GoLib Sha256 Envelope Capacity Utf8 Mailbox Validation.
From S2P Require Import FileSystem Disk Queue Storage.
Open Scope Z_scope.

Section add.
Context {S : Type} `{Scheduler S} `{JsonCodec}.
Variable ToASCII : string → res string.
Variable E : Environment.
Variable FreeDisk : option (res Z).
(** Whether the caller's context is done at a given moment. *)
Variable ctx : nat → bool.

Definition ctxErr : ST world (res unit) := λ w,
  (if ctx (ticks w) then Err (Message "context canceled") else Ok tt, set_ticks (Datatypes.S (ticks w)) w).

(** ** The acceptance transition *)

Definition os_WriteAt (f : nat) (c : string) : ST world (res unit) := call E (λ w,
  (Ok tt, put_file f (c +:+ str_drop (String.length c) (content w f)) w)).

Definition writeAddState (f : nat) (state : string) : ST world (res unit) := os_WriteAt f state.

(** The flag says whether the pending marker is restored durably. *)
Definition rollbackAdd (f : nat) (cause : error) : ST world (bool * error) :=
  let! seam := call E (λ w, (Ok tt, w)) in
  match seam with
  | Err e => ret (false, Join cause (Wrap "rollback add state" e))
  | Ok _ =>
      let! r := writeAddState f addPending in
      match r with
      | Err e => ret (false, Join cause (Wrap "rollback add state" e))
      | Ok _ =>
          let! r := SyncFile E f in
          match r with
          | Err e => ret (false, Join cause (Wrap "sync rolled-back add state" e))
          | Ok _ => ret (true, cause)
          end
      end
  end.

Definition rolledBack (f : nat) (cause : error) : ST world (res unit) :=
  let! (rolledBack, result) := rollbackAdd f cause in
  if rolledBack then ret (Err result) else ret (Err (acceptanceUnknown result)).

Definition acceptAdd (s : space) (n : string) : ST world (res unit) :=
  try! o := os_Stat E (PFile s n addStateName) in
  match o with
  | Directory _ => ret (Err EISDIR)
  | Regular f =>
      let! r := writeAddState f addAccepted in
      match r with
      | Err e => rolledBack f e
      | Ok _ =>
          let! r := SyncFile E f in
          match r with
          | Err e => rolledBack f e
          | Ok _ => ret (Ok tt)
          end
      end
  end.

(** ** Building the entry *)

Definition addBuild (id data meta : string) : ST world (res unit) :=
  try! _ := ctxErr in
  try! _ := Write E Tmp id addStateName addPending in
  try! _ := ctxErr in
  try! _ := Write E Tmp id bodyName data in
  try! _ := ctxErr in
  try! _ := Write E Tmp id metaName meta in
  try! _ := ctxErr in
  try! _ := Sync E (PEntry Tmp id) in
  try! _ := ctxErr in
  Rename E Tmp id Ready id.

(** [commitPhysical]: what is still held is charged. *)
Definition commitHeld (physicalHeld : Z) : ST (Queue S) unit :=
  if physicalHeld =? 0 then ret tt else onCap (commitPhysicalLocked physicalHeld).

(** The deferred removal of tmp/<id>; the result is what remains held. *)
Definition addCleanup (id : string) (physicalHeld : Z) : ST (Queue S) Z :=
  let! removeErr := onDisk (RemoveAll E Tmp id) in
  let! syncErr := onDisk (Sync E (PSpace Tmp)) in
  let! tmpErr := onDisk (os_Stat E (PEntry Tmp id)) in
  let! readyErr := onDisk (os_Stat E (PEntry Ready id)) in
  if negb (is_ok removeErr) || negb (is_ok syncErr) || is_ok tmpErr || is_ok readyErr
  then let! _ := commitHeld physicalHeld in ret 0
  else ret physicalHeld.

(** From the removal of an old stage to the rename into ready/.  The first
    component is what remains held. *)
Definition addStage (id data meta : string) (physicalHeld : Z) : ST (Queue S) (Z * res unit) :=
  let! r :=
    (try! _ := onDisk ctxErr in
     let! removed := onDisk (RemoveAll E Tmp id) in
     match removed with
     | Err e => if errors_Is e ErrNotExist then ret (Ok tt) else ret (Err e)
     | Ok _ => ret (Ok tt)
     end) in
  match r with
  | Err e => ret (physicalHeld, Err e)
  | Ok _ =>
      let! made := onDisk (Mkdir E (PEntry Tmp id)) in
      match made with
      | Err e => ret (physicalHeld, Err e)
      | Ok _ =>
          let! built := onDisk (addBuild id data meta) in
          match built with
          | Ok _ => ret (physicalHeld, Ok tt)
          | Err e => let! held := addCleanup id physicalHeld in ret (held, Err e)
          end
      end
  end.

(** ** Backing out of ready/ *)

Definition abortReady (envelope : Envelope) (metaLen physicalHeld : Z) (cause : error)
    : ST (Queue S) (Z * error) :=
  let id := ID envelope in
  let! measured := onDisk (AllocatedBytes E Ready id) in
  let persistent := match measured with
                    | Ok m => m
                    | Err _ => estimatePersistentEntryAllocation (Size envelope) metaLen end in
  let! abortErr := onDisk (quarantineDir E Ready id (id +:+ "-uncommitted")) in
  let commitPhysicalBytes := Z.min persistent physicalHeld in
  let! _ := onCap (commitPhysicalLocked commitPhysicalBytes) in
  let physicalHeld := physicalHeld - commitPhysicalBytes in
  match abortErr with
  | Ok _ => ret (physicalHeld, definiteAcceptanceCause cause)
  | Err abortErr =>
      let! syncErr := onDisk (Sync E (PSpace Ready)) in
      let! statErr := onDisk (os_Stat E (PEntry Ready id)) in
      let gone := match statErr with Err e => errors_Is e ErrNotExist | Ok _ => false end in
      if is_ok syncErr && gone
      then ret (physicalHeld,
             Join (definiteAcceptanceCause cause)
               (Wrap "quarantine reported an error after removing ready entry" abortErr))
      else
        let cleanupErr := match syncErr with Err e => Join abortErr e | Ok _ => abortErr end in
        let cleanupErr :=
          match statErr with
          | Err e => if errors_Is e ErrNotExist then cleanupErr else Join cleanupErr e
          | Ok _ => cleanupErr
          end in
        if IsAcceptanceUnknown cause then
          let! _ := block id in
          ret (physicalHeld,
             acceptanceUnknown (Join (definiteAcceptanceCause cause)
               (Wrap "quarantine failed add" cleanupErr)))
        else ret (physicalHeld, Join cause (Wrap "quarantine failed add" cleanupErr))
  end.

(** ** Conflicts with other entries *)

(** ready/<id>: an accepted entry conflicts, an uncommitted one is put aside. *)
Definition reconcileReady (id : string) : ST world (res unit) :=
  let! st := os_Stat E (PEntry Ready id) in
  match st with
  | Err e => if errors_Is e ErrNotExist then ret (Ok tt) else ret (Err e)
  | Ok _ =>
      try! state := readBoundedRegular E (PFile Ready id addStateName) maxAddStateBytes in
      if bool_decide (state = addAccepted)
      then ret (Err (conflict "queue id already exists"))
      else
        let! r := quarantineDir E Ready id (id +:+ "-uncommitted") in
        match r with
        | Err e => ret (Err (Wrap "reconcile prior uncommitted add" e))
        | Ok _ => ret (Ok tt)
        end
  end.

Fixpoint checkAbsent (id : string) (dirs : list space) : ST world (res unit) :=
  match dirs with
  | [] => ret (Ok tt)
  | dir :: dirs =>
      let! st := os_Stat E (PEntry dir id) in
      match st with
      | Ok _ => ret (Err (conflict "queue id already exists"))
      | Err e => if errors_Is e ErrNotExist then checkAbsent id dirs else ret (Err e)
      end
  end.

(** ** Publication *)

(** After the commit: settle the reservations, account and schedule. *)
Definition addPublish (envelope : Envelope) (metaLen physicalHeld : Z) : ST (Queue S) unit :=
  let persistentPhysical := estimatePersistentEntryAllocation (Size envelope) metaLen in
  let! _ := onCap (commitPhysicalLocked persistentPhysical) in
  let physicalHeld := physicalHeld - persistentPhysical in
  let! _ := onCap (releaseReserveLocked (Size envelope) physicalHeld (Username envelope)) in
  let! _ := onCap (λ c, (noteAddedLocked envelope c).1) in
  let! _ := dropTransition (ID envelope) in
  let! _ := scheduleLocked envelope in
  signal.

(** With the reservation held: build, rename, commit, publish. *)
Definition addReserved (envelope : Envelope) (data meta : string) (physical : Z)
    : ST (Queue S) (Z * res bool) :=
  let! (physicalHeld, built) := addStage (ID envelope) data meta physical in
  match built with
  | Err e => ret (physicalHeld, Err e)
  | Ok _ =>
      let! r := onDisk (try! _ := ctxErr in acceptAdd Ready (ID envelope)) in
      match r with
      | Err e =>
          let! (physicalHeld, e) := abortReady envelope (str_len meta) physicalHeld e in
          ret (physicalHeld, Err e)
      | Ok _ =>
          let! _ := addPublish envelope (str_len meta) physicalHeld in
          ret (0, Ok true)
      end
  end.

(** The body of [AddContext] once the identifier is owned: the envelope as
    written, and whether the transition was already ended. *)
Definition addOwned (envelope : Envelope) (data : string) : ST (Queue S) (Envelope * res unit) :=
  let id := ID envelope in
  let! r :=
    (try! _ := startMutation E in
     try! _ := onDisk ctxErr in
     let! blocked := gets (λ q, bool_decide (id ∈ blocked q)) in
     let! exists_ := gets (λ q, match accounted (cap q) !! id with Some _ => true | _ => false end) in
     if blocked then ret (Err (conflict "queue id is blocked by an unresolved corrupt entry"))
     else if exists_ then ret (Err (conflict "queue id is already ready"))
     else
       try! _ := onDisk (reconcileReady id) in
       onDisk (checkAbsent id [Dead; Dsn])) in
  match r with
  | Err e => ret (envelope, Err e)
  | Ok _ =>
      let envelope := set_BodyDigest (bodyDigest data) (set_Size (str_len data) envelope) in
      let '(envelope, valid) := validateEnvelope ToASCII envelope in
      let checked :=
        let? _ := valid in
        let? _ := verifyBodyData envelope data in
        marshalEnvelope envelope in
      match checked with
      | Err e => ret (envelope, Err e)
      | Ok meta =>
          let physical := estimateEntryAllocation (Size envelope) (str_len meta) in
          let! r :=
            (try! _ := onDisk ctxErr in
             reserve_ FreeDisk (Size envelope) physical false false (Username envelope)) in
          match r with
          | Err e => ret (envelope, Err e)
          | Ok _ =>
              let! (physicalHeld, r) := addReserved envelope data meta physical in
              match r with
              | Ok _ => ret (envelope, Ok tt)
              | Err e =>
                  let! _ := onCap (releaseReserveLocked (Size envelope) physicalHeld
                                     (Username envelope)) in
                  ret (envelope, Err e)
              end
          end
      end
  end.

(** [AddContext]: the envelope as the caller sees it afterwards, and the
    result.  [envelope] is [None] for a nil pointer. *)
Definition AddContext (envelope : option Envelope) (data : string)
    : ST (Queue S) (option Envelope * res unit) :=
  let! pre := (try! _ := onDisk ctxErr in beginOperation) in
  match pre with
  | Err e => ret (envelope, Err e)
  | Ok _ =>
      let! result :=
        (let! ro := rejectReadOnly in
         match ro, envelope with
         | Err e, _ => ret (envelope, Err e)
         | _, None => ret (envelope, Err (Message "missing envelope"))
         | _, Some env =>
             match ValidateID (ID env) with
             | Err e => ret (envelope, Err e)
             | Ok _ =>
                 if negb (is_empty (DSNSourceID env)) || negb (is_empty (DSNID env))
                    || negb (DSNGeneration env =? 0)
                 then ret (envelope, Err (Message "DSN state is managed by AddDSN and ReviveDead"))
                 else
                   let! token := onDisk (call E (λ w, (Ok (random E (ticks w)), w))) in
                   match token with
                   | Err e => ret (envelope, Err e)
                   | Ok token =>
                       let env := set_Revision 1 (set_Incarnation (newIncarnation token) env) in
                       let! owned := beginTransition (ID env) in
                       match owned with
                       | Err e => ret (Some env, Err e)
                       | Ok _ =>
                           let! (env, r) := addOwned env data in
                           let! _ := if is_ok r then ret tt else endTransition (ID env) in
                           ret (Some env, r)
                       end
                   end
             end
         end) in
      let! _ := endOperation in
      ret result
  end.
End add.
