(* ===== verification/Session.v ===== *)
(** * SMTP submission sessions (src/internal/smtpd/session.go, data.go, login.go,
      smtpd.go)

    One session of the submission server: authentication behind the hash-worker
    slots and the authentication limiter, MAIL, RCPT, DATA and RSET, and what DATA
    hands to the queue.  The shared server state is the authentication limiter,
    the submission-rate limiter, the two worker-slot counters and the queue.

    go-smtp (the protocol engine), the TLS connection, the password hash, OpenPGP
    and DKIM are parameters.  A session's calls are sequential; a call is one
    step.  The submission-rate limiter is an interface. *)

From S2P Require Import AuthLimiter.
From S2P Require Import Prelude Errors GoLib Sha256 Envelope Capacity Utf8 Mailbox Validation.
From S2P Require Import FileSystem Disk Queue Storage Add Text Message Users.
Open Scope Z_scope.

(** ** Replies *)

(** go-smtp's own error values: the code only returns them. *)
Definition ErrAuthFailed : error := Prelude.Message "smtp.ErrAuthFailed".
Definition ErrAuthRequired : error := Prelude.Message "smtp.ErrAuthRequired".
Definition ErrAuthUnsupported : error := Prelude.Message "smtp.ErrAuthUnsupported".
Definition ErrAuthUnknownMechanism : error := Prelude.Message "smtp.ErrAuthUnknownMechanism".
Definition ErrUnexpectedClientResponse : error :=
  Prelude.Message "sasl.ErrUnexpectedClientResponse".

Definition errTemporaryFailure : error :=
  SMTPError 451 "4.3.0" "Temporary failure, try again later".
Definition errSubmissionRate : error :=
  SMTPError 452 "4.7.0" "Submission rate limit exceeded, try again later".
Definition errAuthBusy : error := SMTPError 451 "4.7.0" "Authentication busy, try again later".
Definition errQueueFull : error := SMTPError 452 "4.3.1" "Queue full, try again later".
Definition errTooManyRecipients : error := SMTPError 452 "4.5.3" "Too many recipients".
Definition errDataBusy : error :=
  SMTPError 421 "4.3.2" "Message processing busy; connection closing".

Definition maxResponseLength : nat := 256.

(** [strings.Join(strings.Fields(s), " ")] on text whose only white space is the
    blank. *)
Definition squeeze (l : bytes) : bytes :=
  str_list (join_with " " (of_list <$> filter (λ w, w ≠ []) (split_list 32 l))).

Definition responseText (value : string) : string :=
  let mapped := (λ r : Z * bool, if (r.1 <? 32) || (126 <? r.1) then SP else chr r.1)
                  <$> runes (str_list value) in
  let value := squeeze mapped in
  match value with
  | [] => "Invalid message"
  | _ => of_list (take maxResponseLength value)
  end.

(** ** Sessions and the server *)

Definition Body7Bit : string := "7BIT".

Record session := mkSession {
  user : User;
  sender : string;
  recipients : list string;
  smtpUTF8 : bool;
  body : string;
  authActive : bool;
  dataDeadline : bool;
  connClosed : bool
}.

(** A new session of an accepted connection, under its authentication deadline. *)
Definition newSession : session := mkSession noUser "" [] false "" true false false.

Definition set_user u s := mkSession u (sender s) (recipients s) (smtpUTF8 s) (body s)
  (authActive s) (dataDeadline s) (connClosed s).
Definition set_authActive b s := mkSession (user s) (sender s) (recipients s) (smtpUTF8 s) (body s)
  b (dataDeadline s) (connClosed s).
Definition set_recipients l s := mkSession (user s) (sender s) l (smtpUTF8 s) (body s)
  (authActive s) (dataDeadline s) (connClosed s).
Definition set_transaction sn l u b s := mkSession (user s) sn l u b
  (authActive s) (dataDeadline s) (connClosed s).
Definition set_dataDeadline b s := mkSession (user s) (sender s) (recipients s) (smtpUTF8 s) (body s)
  (authActive s) b (connClosed s).
Definition set_connClosed b s := mkSession (user s) (sender s) (recipients s) (smtpUTF8 s) (body s)
  (authActive s) (dataDeadline s) b.

(** What the handlers read of the configuration. *)
Record ServerConfig := mkServerConfig {
  cfgHostname : string;
  MaxMessageBytes : Z;
  MaxRecipients : Z;
  IncludeClientIP : bool;
  AuthWorkers : Z;
  DataWorkers : Z;
  userLookup : gmap string User
}.

(** The submission-rate limiter as DATA sees it: [take(username, recipients)]. *)
Class RateLimiter (R : Type) := { take_rate : Z → string → Z → R → bool * R }.

Definition needsUTF8 (s : string) : bool :=
  if negb (ValidString s) then true else fieldHasHighBit (str_list s).

Definition incrementLimit (limit : Z) : Z := if limit =? MaxInt64 then MaxInt64 else limit + 1.

(** [io.LimitReader(r, n)] over the results of [r]'s reads. *)
Fixpoint limit_reads (n : Z) (reads : list (bytes * option error)) : list (bytes * option error) :=
  if n <=? 0 then []
  else
    match reads with
    | [] => []
    | (chunk, err) :: rest =>
        let got := take (Z.to_nat n) chunk in
        if (length got <? length chunk)%nat then [(got, None)]
        else (got, err) :: limit_reads (n - Z.of_nat (length got)) rest
    end.

Record MailOptions := mkMailOptions { oSize : Z; oUTF8 : bool; oBody : string }.

(** What one DATA command meets: the reader and its terminator hook, the context
    at each of its checks, the connection, clock and random source, OpenPGP and
    DKIM. *)
Record DataIO := mkDataIO {
  ioReads : list (bytes * option error);
  ioTerminator : res unit;
  ioPoll : site → option error;
  ioExpired : nat → bool;
  ioStamp : Stamp;
  ioHelo : string;
  ioHost : string;
  ioTLS : string;
  ioRateTime : Z;
  ioNow : Z;
  ioNext : Z;
  ioID : string;
  ioSign : string → bytes → res (bytes * bool);
  ioKeyID : string → res (option string);
  ioEncrypt : string → string → bytes → res (option bytes);
  ioDKIM : string → bytes → res bytes;
  ioText : error → string
}.

Section session.
Context {S R : Type} `{Scheduler S} `{RateLimiter R} `{JsonCodec} `{CaseTables}.
Context `{MailParser} `{AddressParser}.
Variable ToASCII : string → res string.
Variable cfg : ServerConfig.
(** [passwd.Verify(hash, password)]. *)
Variable Verify : string → string → bool.
(** [range] over the limiter's maps. *)
Variable range : gmap string nat → list string.
(** The queue's environment: disk, free space, cancellation inside [AddContext]. *)
Variable E : Environment.
Variable FreeDisk : option (res Z).
Variable addCtx : nat → bool.

Record server := mkServer {
  authLimit : authLimiter;
  rates : R;
  hashing : Z;
  dataWork : Z;
  spool : Queue S
}.

Definition set_authLimit v s := mkServer v (rates s) (hashing s) (dataWork s) (spool s).
Definition set_rates v s := mkServer (authLimit s) v (hashing s) (dataWork s) (spool s).
Definition set_hashing v s := mkServer (authLimit s) (rates s) v (dataWork s) (spool s).
Definition set_dataWork v s := mkServer (authLimit s) (rates s) (hashing s) v (spool s).
Definition set_spool v s := mkServer (authLimit s) (rates s) (hashing s) (dataWork s) v.

Definition state : Type := session * server.

Definition onSession (f : session → session) : ST state unit := λ st, (tt, (f st.1, st.2)).
Definition onServer (f : server → server) : ST state unit := λ st, (tt, (st.1, f st.2)).

(** A send on a buffered channel that does not wait. *)
Definition acquireHashSlot : ST state bool := λ st,
  if hashing st.2 <? AuthWorkers cfg then (true, (st.1, set_hashing (hashing st.2 + 1) st.2))
  else (false, st).

Definition releaseHashSlot : ST state unit := onServer (λ s, set_hashing (hashing s - 1) s).

Definition acquireDataSlot : ST state bool := λ st,
  if dataWork st.2 <? DataWorkers cfg then (true, (st.1, set_dataWork (dataWork st.2 + 1) st.2))
  else (false, st).

Definition releaseDataSlot : ST state unit := onServer (λ s, set_dataWork (dataWork s - 1) s).

(** ** Authentication *)

(** [authenticate] from [ip]; [now] and [later] are the limiter's clock readings. *)
Definition verifyUser (ip : string) (later : Z) (username password : string)
    : ST state (res unit) :=
  let fail := onServer (λ s, set_authLimit
                (failed canonicalUsername later ip username (authLimit s)) s) in
  match lookupUser (userLookup cfg) username with
  | None => let! _ := fail in ret (Err ErrAuthFailed)
  | Some u =>
      if negb (Enabled u) then let! _ := fail in ret (Err ErrAuthFailed)
      else if negb (Verify (PasswordHash u) password) then
        let! _ := fail in ret (Err ErrAuthFailed)
      else
        let! _ := onServer (λ s, set_authLimit
                    (succeeded canonicalUsername later ip username (authLimit s)) s) in
        let! _ := onSession (λ s, set_authActive false (set_user u s)) in
        ret (Ok tt)
  end.

Definition authenticate (ip : string) (now later : Z) (username password : string)
    : ST state (res unit) :=
  let! slot := acquireHashSlot in
  if negb slot then ret (Err errAuthBusy)
  else
    let! r :=
      (λ st : state,
        let (l, ok) := reserve range canonicalUsername now ip username (authLimit st.2) in
        let st := (st.1, set_authLimit l st.2) in
        if negb ok then (Err ErrAuthFailed, st)
        else verifyUser ip later username password st) in
    let! _ := releaseHashSlot in
    ret r.

(** PLAIN: the callback of [sasl.NewPlainServer]. *)
Definition authPlain (ip : string) (now later : Z) (identity username password : string)
    : ST state (res unit) :=
  if negb (bool_decide (identity = "")) && negb (bool_decide (identity = username))
  then ret (Err ErrAuthFailed)
  else authenticate ip now later username password.

(** [Auth]: which mechanism a connection may use. *)
Inductive mechanism := Plain | Login.

Definition Auth (secure : bool) (mech : string) : res mechanism :=
  reject negb secure with ErrAuthUnsupported in
  if bool_decide (mech = "PLAIN") then Ok Plain
  else if bool_decide (mech = "LOGIN") then Ok Login
  else Err ErrAuthUnknownMechanism.

(** LOGIN. *)
Inductive loginState := loginStateInit | loginStateUsername | loginStatePassword | loginStateDone.

Record loginServer := mkLogin { lUsername : string; lState : loginState }.

Definition newLoginServer : loginServer := mkLogin "" loginStateInit.

(** The result of [Next]: the challenge, whether the exchange is over, its error. *)
Definition Next (auth : string → string → ST state (res unit)) (response : string) (s : loginServer)
    : ST state (loginServer * (string * bool * res unit)) :=
  let started := match lState s with loginStateInit => true | _ => false end in
  let s := if started then mkLogin (lUsername s) loginStateUsername else s in
  if started && bool_decide (response = "") then ret (s, ("Username:", false, Ok tt))
  else
    match lState s with
    | loginStateUsername =>
        if bool_decide (response = "")
        then ret (mkLogin (lUsername s) loginStateDone, ("", true, Err ErrUnexpectedClientResponse))
        else ret (mkLogin response loginStatePassword, ("Password:", false, Ok tt))
    | loginStatePassword =>
        let! r := auth (lUsername s) response in
        ret (mkLogin (lUsername s) loginStateDone, ("", true, r))
    | _ => ret (s, ("", true, Err ErrUnexpectedClientResponse))
    end.

(** ** The mail transaction *)

Definition Mail (from : string) (opts : option MailOptions) : ST state (res unit) := λ st,
  let s := st.1 in
  let utf8Wanted := match opts with Some o => oUTF8 o | None => false end in
  if bool_decide (uUsername (user s) = "") then (Err ErrAuthRequired, st)
  else
    match Address_of ToASCII from with
    | Err _ => (Err (SMTPError 501 "5.1.7" "Invalid sender address"), st)
    | Ok address =>
        if needsUTF8 address && negb utf8Wanted
        then (Err (SMTPError 550 "5.6.7" "SMTPUTF8 required for this sender address"), st)
        else if negb (Allows (user s) address)
        then (Err (SMTPError 550 "5.7.1" "Sender address not allowed for this account"), st)
        else if match opts with Some o => MaxMessageBytes cfg <? oSize o | None => false end
        then (Err (SMTPError 552 "5.3.4" "Message too large"), st)
        else
          let b := match opts with
                   | Some o => if bool_decide (oBody o = "") then Body7Bit else oBody o
                   | None => Body7Bit
                   end in
          (Ok tt, (set_transaction address [] utf8Wanted b s, st.2))
    end.

(** [address[strings.LastIndexByte(address, '@')+1:]]. *)
Definition address_domain (address : string) : string :=
  match last_index 64 (str_list address) with
  | Some at_ => str_drop (at_ + 1) address
  | None => address
  end.

Definition routing_of (to : string) : res (string * string) :=
  let? address := Address_of ToASCII to in
  reject HasPrefix (address_domain address) "[" with Prelude.Message "literal address" in
  let? routing := DomainOf ToASCII address in
  Ok (address, routing).

Definition Rcpt (to : string) : ST state (res unit) := λ st,
  let s := st.1 in
  if bool_decide (sender s = "") then (Err (SMTPError 503 "5.5.1" "MAIL FROM required first"), st)
  else
    match routing_of to with
    | Err _ => (Err (SMTPError 501 "5.1.3" "Invalid recipient address"), st)
    | Ok (address, routing) =>
        if bool_decide (routing = "")
        then (Err (SMTPError 501 "5.1.3" "Invalid recipient address"), st)
        else if needsUTF8 address && negb (smtpUTF8 s)
        then (Err (SMTPError 553 "5.6.7" "SMTPUTF8 required for this recipient address"), st)
        else if bool_decide (address ∈ recipients s) then (Ok tt, st)
        else if Z.of_nat (length (recipients s)) =? MaxRecipients cfg
        then (Err errTooManyRecipients, st)
        else (Ok tt, (set_recipients (recipients s ++ [address]) s, st.2))
    end.

(** [Reset] and [Logout] end the DATA deadline; [Reset] also ends the transaction. *)
Definition Reset : ST state unit :=
  onSession (λ s, set_transaction "" [] false "" (set_dataDeadline false s)).

Definition Logout : ST state unit := onSession (set_dataDeadline false).

(** [abortData] closes the connection. *)
Definition abortData (err : error) : ST state (res unit) :=
  let! _ := onSession (set_connClosed true) in ret (Err err).
End session.
