(* ===== verification/Submission.v ===== *)
(** * The DATA command (src/internal/smtpd/data.go)

    [Data] admits the command to a worker slot and the rate limiter, prepares and
    checks the message, signs it, builds one body variant per encryption key, and
    hands envelope and bodies to [AddContext].  Everything up to the queue is a
    function of the session and of what the command meets ([compose]). *)

From S2P Require Import AuthLimiter.
From S2P Require Import Prelude Errors GoLib Sha256 Envelope Capacity Utf8 Mailbox Validation.
From S2P Require Import FileSystem Disk Queue Storage Add Text Message Users Session.
Open Scope Z_scope.

(** ** Body variants *)

(** The loop state of [prepareVariants]. *)
Record variants := mkVariants {
  vMap : gmap string nat;
  vIndexes : list nat;
  vBodies : list Body;
  vBundle : string
}.

Definition noVariants : variants := mkVariants ∅ [] [] "".

Definition variantKey (keyID : option string) : string :=
  match keyID with None => "plaintext" | Some k => "key:" +:+ k end.

Section data.
Context {S R : Type} `{Scheduler S} `{RateLimiter R} `{JsonCodec} `{CaseTables}.
Context `{MailParser} `{AddressParser}.
Variable ToASCII : string → res string.
Variable cfg : ServerConfig.
Variable E : Environment.
Variable FreeDisk : option (res Z).
Variable addCtx : nat → bool.
Variable io : DataIO.

(** The bytes a recipient with [keyID] gets, before the signature. *)
Definition variantOf (recipient : string) (keyID : option string) (message : bytes) (eightBit : bool)
    : res (bytes * bool) :=
  match keyID with
  | None => Ok (message, eightBit)
  | Some k =>
      let? r := ioEncrypt io recipient k message in
      match r with
      | None => Err (Prelude.Message "recipient encryption key disappeared")
      | Some v => Ok (v, false)
      end
  end.

(** One recipient of [prepareVariants]. *)
Definition addVariant (from : string) (message : bytes) (eightBit : bool) (recipient : string)
    (v : variants) : res variants :=
  let? keyID := ioKeyID io recipient in
  match vMap v !! variantKey keyID with
  | Some i => Ok (mkVariants (vMap v) (vIndexes v ++ [i]) (vBodies v) (vBundle v))
  | None =>
      let? (variant, variantEightBit) := variantOf recipient keyID message eightBit in
      match ioDKIM io from variant with
      | Err e => Err (Wrap "dkim signing" e)
      | Ok signature =>
          let variant := of_list (signature ++ variant) in
          reject negb (length (vBodies v) =? 0)%nat
                 && (MaxMessageBytes cfg <? str_len (vBundle v) + str_len variant)
            with Wrap "all recipient variants exceed the limit" (Sentinel ErrMessageTooLarge) in
          let i := length (vBodies v) in
          Ok (mkVariants (<[variantKey keyID := i]> (vMap v)) (vIndexes v ++ [i])
                (vBodies v ++ [NewBody (str_len (vBundle v)) variant variantEightBit])
                (vBundle v +:+ variant))
      end
  end.

Fixpoint addVariants (from : string) (message : bytes) (eightBit : bool) (rs : list string)
    (v : variants) : res variants :=
  match rs with
  | [] => Ok v
  | r :: rs =>
      let? v := addVariant from message eightBit r v in
      addVariants from message eightBit rs v
  end.

Definition prepareVariants (from : string) (message : bytes) (rs : list string) (eightBit : bool)
    : res (string * list Body * list nat) :=
  let? v := addVariants from message eightBit rs noVariants in
  Ok (vBundle v, vBodies v, vIndexes v).

(** ** Composing the envelope *)

(** The recipients of the envelope, with the body each one gets. *)
Fixpoint queueRecipients (rs : list string) (indexes : list nat) : res (list Recipient) :=
  match rs with
  | [] => Ok []
  | r :: rs =>
      match DomainOf ToASCII r with
      | Err _ => Err (SMTPError 501 "5.1.3" "Invalid recipient address")
      | Ok domain =>
          let? more := queueRecipients rs (tail indexes) in
          Ok (mkRecipient r domain (Z.of_nat (default 0%nat (head indexes))) StatusPending "" 0 ""
              :: more)
      end
  end.

(** The options of [PrepareContext]. *)
Definition prepareOptions : Options :=
  mkOptions (cfgHostname cfg) (ioHelo io) (if IncludeClientIP cfg then ioHost io else "")
    (ioTLS io) (MaxMessageBytes cfg).

(** [message.PrepareContext] on the limited reader. *)
Definition prepared : res PreparedMessage :=
  let reads := if 0 <? MaxMessageBytes cfg
               then limit_reads (incrementLimit (MaxMessageBytes cfg)) (ioReads io)
               else ioReads io in
  PrepareContext ToASCII (ioPoll io) (ioStamp io) prepareOptions reads.

(** The reply to a message [PrepareContext] refuses. *)
Definition prepareReply (e : error) : error :=
  if ioExpired io 0 then errTemporaryFailure
  else if errors_Is e errOversized || errors_Is e ErrDataTooLarge
  then SMTPError 552 "5.3.4" "Message too large"
  else SMTPError 550 "5.6.0" (responseText (ioText io e)).

(** The checks of the session against the prepared message. *)
Definition checkPrepared (s : session) (p : PreparedMessage) : res unit :=
  reject bool_decide (body s = Body7Bit) && mEightBit p
    with SMTPError 550 "5.6.3" "BODY=7BIT message contains 8-bit data" in
  reject NeedsUTF8 p && negb (smtpUTF8 s)
    with SMTPError 550 "5.6.7" "SMTPUTF8 required for this message" in
  reject negb (Allows (user s) (From p))
    with SMTPError 550 "5.7.1" "From header not allowed for this account" in
  reject negb (bool_decide (mSender p = "")) && negb (Allows (user s) (mSender p))
    with SMTPError 550 "5.7.1" "Sender header not allowed for this account" in
  Ok tt.

(** The reply when signing or encryption fails. *)
Definition transformReply (k : nat) (what : string) (e : error) : error :=
  if ioExpired io k then errTemporaryFailure
  else if errors_Is e ErrMessageTooLarge then SMTPError 552 "5.3.4" what
  else errTemporaryFailure.

Definition newEnvelope (s : session) (p : PreparedMessage) (rs : list Recipient) (bodies : list Body)
    : Envelope :=
  mkEnvelope (ioID io) "" 0 (uUsername (user s)) (sender s) rs
    (if (1 <? length bodies)%nat then bodies else []) 0 (ioNow io) 0 (ioNext io) ""
    (NeedsUTF8 p || needsUTF8 (sender s) || existsb needsUTF8 (recipients s))
    (match bodies with b :: _ => bEightBit b | [] => false end)
    "" "" "" "" 0 0 "".

(** Everything between the rate limiter and the queue. *)
Definition compose (s : session) : res (Envelope * string) :=
  match ioTerminator io with
  | Err _ => Err errTemporaryFailure
  | Ok _ =>
      match prepared with
      | Err e => Err (prepareReply e)
      | Ok p =>
          let? _ := checkPrepared s p in
          reject ioExpired io 1 with errTemporaryFailure in
          match ioSign io (From p) (Data p) with
          | Err e => Err (transformReply 2 "Message too large after OpenPGP signing" e)
          | Ok (signed, wasSigned) =>
              let eightBit := if wasSigned : bool then false else mEightBit p in
              match prepareVariants (From p) signed (recipients s) eightBit with
              | Err e => Err (transformReply 3 "Message too large after recipient encryption" e)
              | Ok (data, bodies, indexes) =>
                  let? rs := queueRecipients (recipients s) indexes in
                  reject ioExpired io 4 with errTemporaryFailure in
                  Ok (newEnvelope s p rs bodies, data)
              end
          end
      end
  end.

(** The reply to a message the queue refuses. *)
Definition queueReply (e : error) : error :=
  if errors_Is e ErrQueueFull || errors_Is e ErrInsufficientDisk then errQueueFull
  else errTemporaryFailure.

Definition queueAdd (env : Envelope) (data : string) : ST (@state S R) (res unit) := λ st,
  let '((_, r), q) := AddContext ToASCII E FreeDisk addCtx (Some env) data (spool st.2) in
  (match r with Ok _ => Ok tt | Err e => Err (queueReply e) end, (st.1, set_spool q st.2)).

(** DATA once it holds a worker slot. *)
Definition dataAdmitted : ST (@state S R) (res unit) := λ st,
  let s := st.1 in
  let (ok, r) := take_rate (ioRateTime io) (uUsername (user s)) (Z.of_nat (length (recipients s)))
                   (rates st.2) in
  let st := (s, set_rates r st.2) in
  if negb ok then abortData errSubmissionRate st
  else
    match compose s with
    | Err e => (Err e, st)
    | Ok (env, data) => queueAdd env data st
    end.

Definition DataCommand : ST (@state S R) (res unit) :=
  let! _ := onSession (set_dataDeadline true) in
  let! s := gets fst in
  if bool_decide (sender s = "") || (length (recipients s) =? 0)%nat
  then ret (Err (SMTPError 503 "5.5.1" "No valid recipients"))
  else
    let! slot := acquireDataSlot cfg in
    if negb slot then abortData errDataBusy
    else
      let! r := dataAdmitted in
      let! _ := releaseDataSlot in
      ret r.
End data.
