(* ===== verification/Dsn.v ===== *)
(** * Delivery status notifications (src/internal/queue/dsn.go)

    [AddDSN] builds the accepted notification under dsn/, links the source to
    it by storing the source's next revision, and only then moves the
    notification to ready/. *)

From S2P Require Import Prelude Errors GoLib Sha256 Envelope Capacity Utf8 Mailbox Validation.
From S2P Require Import FileSystem Disk Queue Storage Delivery Dead Add.
Open Scope Z_scope.

Definition sameDSNIdentity (a b : Envelope) : bool :=
  bool_decide (ID a = ID b) && bool_decide (Incarnation a = Incarnation b)
  && bool_decide (DSNSourceID a = DSNSourceID b)
  && bool_decide (DSNSourceIncarnation a = DSNSourceIncarnation b)
  && (DSNGeneration a =? DSNGeneration b).

(** The checks of the two envelopes. *)
Definition dsnIdentity (source dsn : Envelope) : res unit :=
  let? _ := ValidateID (ID source) in
  reject negb (bool_decide (DSNSourceID dsn = ID source))
         || negb (bool_decide (DSNSourceIncarnation dsn = Incarnation source))
         || negb (DSNGeneration dsn =? DSNGeneration source)
         || negb (bool_decide (ID dsn = DSNID_of (ID source) (Incarnation source)
                                          (DSNGeneration source)))
    with conflict "DSN identity mismatch" in
  reject negb (is_empty (DSNSourceID source)) with Message "cannot generate a DSN for a DSN" in
  reject negb (Pending source =? 0)
    with Message "cannot generate a DSN while recipients are pending" in
  reject Failed source =? 0 with Message "cannot generate a DSN without failed recipients" in
  Ok tt.

(** The stored source is the one the caller has. *)
Definition dsnSourceMatches (durableSource source : Envelope) : res unit :=
  reject negb (DSNGeneration durableSource =? DSNGeneration source)
    with conflict "source DSN generation changed" in
  reject negb (bool_decide (Incarnation durableSource = Incarnation source))
    with conflict "source incarnation changed" in
  reject negb (Size durableSource =? Size source)
         || negb (bool_decide (BodyDigest durableSource = BodyDigest source))
    with conflict "source body identity changed" in
  reject negb (sameMessageContent durableSource source)
    with conflict "source message identity changed" in
  Ok tt.

Section dsn.
Context {S : Type} `{Scheduler S} `{JsonCodec}.
Variable ToASCII : string → res string.
Variable E : Environment.
Variable FreeDisk : option (res Z).

(** ** Publication of a stage *)

(** The entry, whether it moved, and the error.  [expectedSource] may be nil. *)
Definition publishStagedDSN (expectedSource : option Envelope) (dsn : Envelope)
    : ST world (option Envelope * bool * res unit) :=
  let stop e := ret (None, false, Err e) in
  let! loaded :=
    (try! _ := Sync E (PEntry Ready (DSNSourceID dsn)) in
     loadAcceptedDir ToASCII E (PEntry Ready (DSNSourceID dsn)) (DSNSourceID dsn)) in
  match loaded with
  | Err e => stop e
  | Ok durableSource =>
      if negb (bool_decide (Incarnation durableSource = DSNSourceIncarnation dsn))
         || negb (DSNGeneration durableSource =? DSNGeneration dsn)
         || negb (bool_decide (DSNID durableSource = ID dsn))
      then stop (conflict "source DSN link changed")
      else if match expectedSource with
              | None => false
              | Some x => negb (bool_decide (Incarnation durableSource = Incarnation x))
                          || negb (Revision durableSource =? Revision x) end
      then stop (conflict "source metadata changed before DSN publication")
      else
        let! st := os_Stat E (PEntry Dsn (ID dsn)) in
        match st with
        | Err e =>
            if errors_Is e ErrNotExist then
              let! existing := loadAcceptedDir ToASCII E (PEntry Ready (ID dsn)) (ID dsn) in
              match existing with
              | Ok existing =>
                  if negb (sameDSNIdentity existing dsn)
                     || negb (DSNSourceRevision existing =? Revision durableSource)
                  then stop (conflict "published DSN identity changed")
                  else ret (Some existing, false, Ok tt)
              | Err readyErr =>
                  if negb (errors_Is readyErr ErrNotExist) then stop readyErr
                  else ret (None, false, Ok tt)
              end
            else stop e
        | Ok _ =>
            let! staged := loadAcceptedDir ToASCII E (PEntry Dsn (ID dsn)) (ID dsn) in
            match staged with
            | Err e => stop e
            | Ok staged =>
                if negb (sameDSNIdentity staged dsn)
                   || negb (DSNSourceRevision staged =? Revision durableSource)
                then stop (conflict "staged DSN identity mismatch")
                else
                  let! (moved, r) := moveState E Dsn (ID dsn) Ready (ID dsn) in
                  match r, moved with
                  | Err e, false => stop e
                  | _, _ => ret (Some staged, true, r)
                  end
            end
        end
  end.

(** End both transitions with the notification charged and scheduled. *)
Definition dsnPublished (sourceID dsnID : string) (charged scheduled_ : Envelope)
    : ST (Queue S) unit :=
  let! _ := onCap (λ c, (noteAddedLocked charged c).1) in
  let! _ := dropTransition sourceID in
  let! _ := dropTransition dsnID in
  let! _ := scheduleLocked scheduled_ in
  signal.

(** ** Building the stage *)

Record dsnPlan := mkPlan {
  pl_meta : string;
  pl_linked : Envelope;
  pl_linkedMeta : string;
  pl_persistent : Z;
  pl_physical : Z
}.

(** Everything that is computed before the disk is touched: the notification as
    validated, and the plan. *)
Definition planDSN (source durableSource dsn : Envelope) (data : string)
    : Envelope * res dsnPlan :=
  if negb (Revision durableSource =? Revision source)
  then (dsn, Err (conflict "source metadata changed"))
  else
    match incrementRevision (Revision durableSource) with
    | Err e => (dsn, Err e)
    | Ok expectedSourceRevision =>
        let '(dsn, valid) :=
          validateEnvelope ToASCII (set_DSNSourceRevision expectedSourceRevision dsn) in
        (dsn,
         let? _ := valid in
         let? _ := verifyBodyData dsn data in
         let? meta := marshalEnvelope dsn in
         let '(linked, linkedValid) :=
           validateEnvelope ToASCII (set_DSNID (ID dsn) (cloneEnvelope source)) in
         let? _ := linkedValid in
         let? linkedMeta := marshalEnvelope linked in
         let persistent := estimatePersistentEntryAllocation (Size dsn) (str_len meta) in
         let replacement :=
           wrap64 (AllocationSize (wrap64 (str_len linkedMeta + AllocationSize 0))
                   + AllocationSize 0) in
         let '(physical, ok) := checkedAddInt64 persistent (AllocationSize 0) in
         let '(physical, ok) :=
           if ok : bool then checkedAddInt64 physical replacement else (physical, ok) in
         reject negb ok with Sentinel ErrSpoolFull in
         Ok (mkPlan meta linked linkedMeta persistent physical))
    end.

Fixpoint dsnAbsent (id : string) (dirs : list space) : ST world (res unit) :=
  match dirs with
  | [] => ret (Ok tt)
  | dir :: dirs =>
      let! st := os_Stat E (PEntry dir id) in
      match st with
      | Ok _ => ret (Err (conflict "already exists"))
      | Err e => if errors_Is e ErrNotExist then dsnAbsent id dirs else ret (Err e)
      end
  end.

(** Remove a stage that was never linked. *)
Definition clearStage (id : string) : ST (Queue S) (res unit) :=
  let! st := onDisk (os_Stat E (PEntry Dsn id)) in
  match st with
  | Ok _ =>
      let! measured := onDisk (AllocatedBytes E Dsn id) in
      try! _ := onDisk (try! _ := RemoveAll E Dsn id in Sync E (PSpace Dsn)) in
      let! _ := onCap (removePhysical (match measured with Ok n => n | Err _ => 0 end)) in
      ret (Ok tt)
  | Err e => if errors_Is e ErrNotExist then ret (Ok tt) else ret (Err e)
  end.

(** The files of the stage, up to its acceptance. *)
Definition writeStage (id data meta : string) : ST world (res unit) :=
  try! _ := Write E Dsn id addStateName addPending in
  try! _ := Write E Dsn id bodyName data in
  try! _ := Write E Dsn id metaName meta in
  try! _ := Sync E (PEntry Dsn id) in
  acceptAdd E Dsn id.

(** The deferred removal of a stage that was not accepted. *)
Definition stageCleanup (id : string) (bytes physicalHeld : Z) : ST (Queue S) Z :=
  let! removeErr := onDisk (RemoveAll E Dsn id) in
  let! syncErr := onDisk (Sync E (PSpace Dsn)) in
  commitIf (negb (is_ok removeErr) || negb (is_ok syncErr)) bytes physicalHeld.

(** With the reservation held: what remains held, and the linked source with the
    published entry. *)
Definition dsnReserved (source durableSource dsn : Envelope) (data : string) (p : dsnPlan)
    : ST (Queue S) (Z * res (Envelope * option Envelope * option error)) :=
  let id := ID dsn in
  let staging := AllocationSize 0 in
  let! made := onDisk (MkdirDurable E (PEntry Dsn id)) in
  match made with
  | Err e => ret (pl_physical p, Err e)
  | Ok _ =>
      let! written := onDisk (writeStage id data (pl_meta p)) in
      match written with
      | Err e =>
          let! held := stageCleanup id (pl_persistent p + staging) (pl_physical p) in
          ret (held, Err e)
      | Ok _ =>
          let! held := commitUpTo (pl_persistent p) (pl_physical p) in
          let! (linked, retained, stored) := storeReadyDSNLink ToASCII E (pl_linked p) in
          let! held := commitIf retained (AllocationSize (str_len (pl_linkedMeta p))) held in
          match stored with
          | Err e =>
              let! held := commitUpTo staging held in
              let! _ := modify (λ q, set_requeues
                (<[ID source := default [] (requeues q !! ID source)
                                  ++ [cloneEnvelope durableSource]]> (requeues q)) q) in
              ret (held, Err e)
          | Ok _ =>
              let! (staged, moved, r) := onDisk (publishStagedDSN (Some linked) dsn) in
              match r, moved with
              | Err e, false => let! held := commitUpTo staging held in ret (held, Err e)
              | _, _ => ret (held, Ok (linked, staged, opt_err r))
              end
          end
      end
  end.

(** The source is linked already: complete the publication. *)
Definition dsnResume (source durableSource dsn : Envelope)
    : ST (Queue S) (Envelope * bool * res unit) :=
  if negb (bool_decide (DSNID durableSource = ID dsn))
  then ret (source, false, Err (conflict "source links another DSN"))
  else
    let! (staged, published, r) := onDisk (publishStagedDSN (Some durableSource) dsn) in
    let! _ := match published, staged with
              | true, Some staged => dsnPublished (ID source) (ID dsn) staged staged
              | _, _ => ret tt
              end in
    match r with
    | Err e => ret (source, published, Err e)
    | Ok _ => ret (set_Revision (Revision durableSource) (set_DSNID (ID dsn) source),
                   published, Ok tt)
    end.

(** With both identifiers owned: the caller's envelopes, whether the transitions
    have ended, and the result.  A nil entry would be dereferenced. *)
Definition dsnOwned (source dsn : Envelope) (data : string)
    : ST (Queue S) (Envelope * Envelope * bool * res unit) :=
  let stop e := ret (source, dsn, false, Err e) in
  let! loaded :=
    (try! _ := startMutation E in
     let! blocked := gets (λ q, bool_decide (ID source ∈ blocked q) || bool_decide (ID dsn ∈ blocked q)) in
     if blocked : bool
     then ret (Err (conflict "DSN source or destination is blocked by unresolved corruption"))
     else onDisk (loadAcceptedDir ToASCII E (PEntry Ready (ID source)) (ID source))) in
  match loaded with
  | Err e => stop e
  | Ok durableSource =>
      match dsnSourceMatches durableSource source with
      | Err e => stop e
      | Ok _ =>
          if negb (is_empty (DSNID durableSource)) then
            let! (source, ended, r) := dsnResume source durableSource dsn in
            ret (source, dsn, ended, r)
          else
            let '(dsn, planned) := planDSN source durableSource dsn data in
            match planned with
            | Err e => ret (source, dsn, false, Err e)
            | Ok p =>
                let! ready :=
                  (try! _ := onDisk (dsnAbsent (ID dsn) [Ready; Dead]) in
                   try! _ := clearStage (ID dsn) in
                   reserve_ FreeDisk (Size dsn) (pl_physical p) true true "") in
                match ready with
                | Err e => ret (source, dsn, false, Err e)
                | Ok _ =>
                    let! (held, r) := dsnReserved source durableSource dsn data p in
                    let! _ := onCap (releaseReserveLocked (Size dsn) held "") in
                    match r with
                    | Err e => ret (source, dsn, false, Err e)
                    | Ok (linked, None, err) =>
                        ret (source, dsn, false, Err (Message "nil pointer dereference"))
                    | Ok (linked, Some staged, err) =>
                        let! _ := dsnPublished (ID source) (ID dsn) staged dsn in
                        ret (set_Revision (Revision linked) (set_DSNID (ID dsn) source), dsn, true,
                             to_res err)
                    end
                end
            end
      end
  end.

(** The fields [AddDSN] fills in. *)
Definition stampDSN (dsn : Envelope) (data incarnation : string) : Envelope :=
  set_BodyDigest (bodyDigest data) (set_Size (str_len data)
    (set_Revision 1 (set_Incarnation incarnation dsn))).

Definition AddDSN (source dsn : option Envelope) (data : string)
    : ST (Queue S) (option Envelope * option Envelope * res unit) :=
  let! opened := beginOperation in
  match opened with
  | Err e => ret (source, dsn, Err e)
  | Ok _ =>
      let! result :=
        (let! ro := rejectReadOnly in
         match ro, source, dsn with
         | Err e, _, _ => ret (source, dsn, Err e)
         | _, Some src, Some d =>
             match dsnIdentity src d with
             | Err e => ret (source, dsn, Err e)
             | Ok _ =>
                 let! token :=
                   if is_empty (Incarnation d)
                   then onDisk (call E (λ w, (Ok (newIncarnation (random E (ticks w))), w)))
                   else ret (Ok (Incarnation d)) in
                 match token with
                 | Err e => ret (source, dsn, Err e)
                 | Ok incarnation =>
                     let d := stampDSN d data incarnation in
                     let! owned := beginTransitions [ID src; ID d] in
                     match owned with
                     | Err e => ret (source, Some d, Err e)
                     | Ok _ =>
                         let! (src', d', ended, r) := dsnOwned src d data in
                         let! _ := if ended : bool then ret tt
                                   else endTransitions [ID src; ID d] in
                         ret (Some src', Some d', r)
                     end
                 end
             end
         | _, _, _ => ret (source, dsn, Err (Message "missing DSN envelope"))
         end) in
      let! _ := endOperation in
      ret result
  end.
End dsn.
