(* ===== verification/Attempt.v ===== *)
(** * Delivery attempts (src/internal/deliver/limiter.go, admission.go, outcome.go,
      attempt.go, run.go)

    The deliverer's own state is the capacity in use per user and per domain and
    the messages parked for capacity; it works on the queue.  An attempt groups a
    message's pending recipients by domain and body, works through the groups and
    then settles the message with the queue.  The clock, the contexts and the
    outside world of each group are parameters of an attempt. *)

From S2P Require Import Prelude Errors GoLib Sha256 Envelope Capacity Utf8 Text Mailbox Validation.
From S2P Require Import FileSystem Disk Queue Storage Delivery Dead Dsn Diagnostic Discovery Client BodyReader Send Bounce.
Open Scope Z_scope.

(** ** Capacity per user or domain (limiter.go) *)

(** [slots]: the holders of each key that has any. *)
Definition newDomainLimiter (limit : Z) : Z := if limit <? 1 then 1 else limit.

Definition tryAcquire (limit : Z) (key : string) (slots : gmap string Z) : bool * gmap string Z :=
  if bool_decide (key = "") then (true, slots)
  else
    match slots !! key with
    | Some holders =>
        if limit <=? holders then (false, slots) else (true, <[key := holders + 1]> slots)
    | None => (true, <[key := 1]> slots)
    end.

(** The remaining slots and whether the release callback runs. *)
Definition releaseSlot (key : string) (slots : gmap string Z) : gmap string Z * bool :=
  match slots !! key with
  | None => (slots, false)
  | Some holders =>
      (if holders - 1 <=? 0 then delete key slots else <[key := holders - 1]> slots, true)
  end.

Definition available (limit : Z) (key : string) (slots : gmap string Z) : bool :=
  bool_decide (key = "")
  || match slots !! key with None => true | Some holders => holders <? limit end.

(** ** Parked messages (admission.go) *)

Inductive admissionKind := admissionUser | admissionDomain.

#[export] Instance admissionKind_eq_dec : EqDecision admissionKind.
Proof. solve_decision. Defined.

Record admissionWait := mkWait { w_envelope : Envelope; w_kind : admissionKind; w_key : string }.

(** The part of the configuration attempts read. *)
Record attemptConfig := mkAttemptConfig {
  outbound : Outbound;
  serverName : string;
  signer : option (string → string → res string);
  userLimit : Z;
  domainLimit : Z;
  lifetime : Z;
  attemptTimeout : Z;
  initialDelay : Z;
  maximumDelay : Z;
  admissionDelay : Z;
  MaxAttempts : Z
}.

(** Constants of outcome.go and run.go. *)
Definition lifetimeDetail : string := "maximum queue lifetime exceeded".
Definition exhaustedDetail : string := "delivery attempts exhausted".
Definition terminalEnhancedCode : string := "5.4.7".
Definition storageRetryDelay : Z := 30 * 1000000000.

(** ** Choosing what to deliver *)

Definition pending_recipient (r : Recipient) : bool := bool_decide (rStatus r = StatusPending).

Definition nextPendingDomain (e : Envelope) : string :=
  if negb (is_empty (PreferredDomain e))
     && existsb (λ r, pending_recipient r && bool_decide (rDomain r = PreferredDomain e)) (Recipients e)
  then PreferredDomain e
  else match List.find pending_recipient (Recipients e) with Some r => rDomain r | None => "" end.

Definition deliveryOwner (e : Envelope) : string :=
  if negb (is_empty (DSNSourceID e)) then generatedDSNOwner else Username e.

(** [groupKey]: the routing domain and the body. *)
Abbreviation groupKey := (string * Z)%type (only parsing).

Definition recipient_key (r : Recipient) : groupKey := (rDomain r, rBody r).

(** [groups[key] = append(groups[key], i)], with the keys in first-seen order. *)
Fixpoint addToGroup (key : groupKey) (i : nat) (groups : list (groupKey * list nat))
    : list (groupKey * list nat) :=
  match groups with
  | [] => [(key, [i])]
  | (k, ids) :: groups =>
      if bool_decide (k = key) then (k, ids ++ [i]) :: groups else (k, ids) :: addToGroup key i groups
  end.

Fixpoint groupFrom (i : nat) (rs : list Recipient) (groups : list (groupKey * list nat))
    : list (groupKey * list nat) :=
  match rs with
  | [] => groups
  | r :: rs =>
      groupFrom (S i) rs (if pending_recipient r then addToGroup (recipient_key r) i groups else groups)
  end.

Definition groupRecipients (e : Envelope) : list (groupKey * list nat) := groupFrom 0 (Recipients e) [].

(** The first group of the admitted domain moves to the front. *)
Fixpoint takeDomain (d : string) (groups : list (groupKey * list nat))
    : option ((groupKey * list nat) * list (groupKey * list nat)) :=
  match groups with
  | [] => None
  | g :: groups =>
      if bool_decide (g.1.1 = d) then Some (g, groups)
      else (λ p, (p.1, g :: p.2)) <$> takeDomain d groups
  end.

Definition admittedFirst (d : string) (groups : list (groupKey * list nat))
    : list (groupKey * list nat) :=
  if is_empty d then groups
  else match takeDomain d groups with Some (g, rest) => g :: rest | None => groups end.

(** ** Back-off (outcome.go) *)

Fixpoint doubled (n : nat) (delay maximum : Z) : Z :=
  match n with
  | O => delay
  | S n =>
      if (maximum <=? delay) || (Z.quot maximum 2 <? delay) then maximum
      else doubled n (wrap64 (delay * 2)) maximum
  end.

(** [draw spread] is [rand.Int64N(spread)]. *)
Definition backoff (initial maximum : Z) (draw : Z → Z) (attempts : Z) : Z :=
  let delay := doubled (Z.to_nat (attempts - 1)) initial maximum in
  let spread := Z.quot delay 5 in
  if spread <=? 0 then delay
  else
    let delta := wrap64 (draw spread - Z.quot delay 10) in
    if (0 <? delta) && (wrap64 (maximum - delta) <? delay) then maximum
    else
      let delay := wrap64 (delay + delta) in
      if maximum <? delay then maximum else delay.

(** ** Terminal outcomes *)

(** The pending recipients of an expired message. *)
Definition expireRecipient (r : Recipient) : Recipient :=
  if pending_recipient r
  then mkRecipient (Address r) (rDomain r) (rBody r) StatusFailed lifetimeDetail 554 terminalEnhancedCode
  else r.

Definition expiredEnvelope (e : Envelope) : Envelope :=
  set_LastError lifetimeDetail (set_Recipients (expireRecipient <$> Recipients e) e).

(** The pending recipients when the attempts are used up. *)
Definition exhaustRecipient (r : Recipient) : Recipient :=
  if pending_recipient r
  then mkRecipient (Address r) (rDomain r) (rBody r) StatusFailed
         (if is_empty (Detail r) then exhaustedDetail else Detail r) 554 terminalEnhancedCode
  else r.

Definition exhaustedEnvelope (e : Envelope) : Envelope :=
  set_Recipients (exhaustRecipient <$> Recipients e) e.

(** What one attempt meets: instants of [time.Now], contexts, the outside of the
    [n]th group, the random numbers and texts it uses. *)
Record attemptWorld := mkWorld {
  now : nat → Z;
  cancelledBefore : bool;
  doneBefore : nat → bool;
  doneAfter : nat → bool;
  cause : option error;
  parentDone : bool;
  outside : nat → Outside;
  draw : Z → Z;
  stamp : dsnStamp
}.

Section attempt.
Context {S : Type} `{Scheduler S} `{JsonCodec} `{CaseTables}.
Variable ToASCII : string → res string.
Variable E : Environment.
Variable FreeDisk : option (res Z).
Variable err_text : error → string.
Variable os : pieces.
Variable cfg : attemptConfig.

Record deliverer := mkDeliverer {
  dqueue : Queue S;
  users : gmap string Z;
  domains : gmap string Z;
  parked : list admissionWait
}.

Definition set_dqueue v d := mkDeliverer v (users d) (domains d) (parked d).
Definition set_users v d := mkDeliverer (dqueue d) v (domains d) (parked d).
Definition set_domains v d := mkDeliverer (dqueue d) (users d) v (parked d).
Definition set_parked v d := mkDeliverer (dqueue d) (users d) (domains d) v.

Definition onQueue {A} (m : ST (Queue S) A) : ST deliverer A := λ d,
  let '(a, q) := m (dqueue d) in (a, set_dqueue q d).

(** The first parked message for the capacity, and the others. *)
Fixpoint takeWaiting (kind : admissionKind) (key : string) (ws : list admissionWait)
    : option (admissionWait * list admissionWait) :=
  match ws with
  | [] => None
  | w :: ws =>
      if bool_decide (w_kind w = kind) && bool_decide (w_key w = key) then Some (w, ws)
      else (λ p, (p.1, w :: p.2)) <$> takeWaiting kind key ws
  end.

Definition kind_slots (kind : admissionKind) (d : deliverer) : gmap string Z :=
  match kind with admissionUser => users d | admissionDomain => domains d end.

Definition kind_limit (kind : admissionKind) : Z :=
  match kind with
  | admissionUser => newDomainLimiter (userLimit cfg)
  | admissionDomain => newDomainLimiter (domainLimit cfg)
  end.

Definition wakeAdmission (kind : admissionKind) (key : string) : ST deliverer unit := λ d,
  if negb (available (kind_limit kind) key (kind_slots kind d)) then (tt, d)
  else
    match takeWaiting kind key (parked d) with
    | None => (tt, d)
    | Some (w, ws) => onQueue (Requeue (w_envelope w)) (set_parked ws d)
    end.

Definition parkAdmission (e : Envelope) (kind : admissionKind) (key : string) : ST deliverer unit :=
  let e := match kind with admissionDomain => set_PreferredDomain key e | admissionUser => e end in
  let! _ := modify (λ d, set_parked (parked d ++ [mkWait e kind key]) d) in
  wakeAdmission kind key.

Fixpoint requeueAll (ws : list admissionWait) : ST deliverer unit :=
  match ws with
  | [] => ret tt
  | w :: ws => let! _ := onQueue (Requeue (w_envelope w)) in requeueAll ws
  end.

Definition requeueParked : ST deliverer unit := λ d,
  requeueAll (parked d) (set_parked [] d).

(** [users.release] and [domains.release], with their callbacks. *)
Definition releaseUser (key : string) : ST deliverer unit := λ d,
  let '(slots, freed) := releaseSlot key (users d) in
  let d := set_users slots d in
  if freed then wakeAdmission admissionUser key d else (tt, d).

Definition releaseDomain (key : string) : ST deliverer unit := λ d,
  let '(slots, freed) := releaseSlot key (domains d) in
  let d := set_domains slots d in
  if freed then wakeAdmission admissionDomain key d else (tt, d).

Definition acquireUser (key : string) : ST deliverer bool := λ d,
  let '(ok, slots) := tryAcquire (kind_limit admissionUser) key (users d) in (ok, set_users slots d).

Definition acquireDomain (key : string) : ST deliverer bool := λ d,
  let '(ok, slots) := tryAcquire (kind_limit admissionDomain) key (domains d) in (ok, set_domains slots d).

(** ** Reports and settling (dsn.go, outcome.go) *)

(** [ensureDSN]: the envelope carries the link to its report afterwards.  The copy
    has fuel for every read (copy_loop_any), so it is never [None]. *)
Definition ensureDSN (w : attemptWorld) (e : Envelope) : ST deliverer (Envelope * res unit) :=
  if negb (dsnDue e) then ret (e, Ok tt)
  else
    let! opened := onQueue (ReaderVariant ToASCII E (ID e) (dsnBodyIndex e)) in
    match opened with
    | Err err => ret (e, Err err)
    | Ok reader =>
        let! _ := onQueue CloseReader in
        match copy_loop os (Datatypes.S (length (tr_rest reader))) 512 (dsnOriginalLimit + 1) reader with
        | None => ret (e, Err sizeMismatch)
        | Some (_, Some err) => ret (e, Err err)
        | Some (ps, None) =>
            match composeDSN ToASCII (stamp w) (serverName cfg) (signer cfg) (now w 5) e
                    (dsnOriginal (of_list (concat ps))) with
            | Err err => ret (e, Err err)
            | Ok (dsn, msg) =>
                let! (src, _, r) := onQueue (AddDSN ToASCII E FreeDisk (Some e) (Some dsn) msg) in
                ret (default e src, r)
            end
        end
    end.

Definition wrapped (m : string) (r : res unit) : res unit :=
  match r with Err e => Err (Wrap m e) | Ok _ => Ok tt end.

Definition failTerminal (w : attemptWorld) (e : Envelope) : ST deliverer (Envelope * res unit) :=
  let! (e, r) := ensureDSN w e in
  match r with
  | Err err => ret (e, Err (Wrap "dsn" err))
  | Ok _ =>
      let! (e', r) := onQueue (Bury ToASCII E FreeDisk (Some e)) in
      ret (default e e', wrapped "bury" r)
  end.

Definition expirePending (w : attemptWorld) (e : Envelope) : ST deliverer (Envelope * res unit) :=
  failTerminal w (expiredEnvelope e).

Definition complete (w : attemptWorld) (e : Envelope) : ST deliverer (Envelope * res unit) :=
  let delivered := count_status StatusSent (Recipients e) in
  let failed := count_status StatusFailed (Recipients e) in
  if (delivered =? 0) && (0 <? failed) then failTerminal w e
  else
    let! (e, r) := ensureDSN w e in
    match r with
    | Err err => ret (e, Err (Wrap "dsn" err))
    | Ok _ =>
        let! r := onQueue (Finish ToASCII E (Some e)) in
        match r with
        | Err err => if errors_Is err ErrCleanup then ret (e, Ok tt) else ret (e, Err (Wrap "finish" err))
        | Ok _ => ret (e, Ok tt)
        end
    end.

Definition retryWith (m : string) (e : Envelope) : ST deliverer (Envelope * res unit) :=
  let! (e', r) := onQueue (Retry ToASCII E FreeDisk (Some e)) in ret (default e e', wrapped m r).

(** ** One attempt (attempt.go) *)

(** The state of the loop over the groups.  [g_stop] is an error that ends the
    attempt at once. *)
Record groupState := mkGroupState {
  g_env : Envelope;
  g_held : string;
  g_diags : list string;
  g_blocked : string;
  g_stop : option error
}.

(** Give the still pending recipients of an interrupted group their details back. *)
Definition restoreDetails (before : Envelope) (indexes : list nat) (e : Envelope) : Envelope :=
  fold_left (λ e i,
    at_index (λ r, if pending_recipient r
                   then set_Detail (from_option Detail "" (Recipients before !! i)) r else r) i e)
    indexes e.

Definition fillDetails (detail : string) (indexes : list nat) (e : Envelope) : Envelope :=
  at_indexes (λ r, if pending_recipient r && is_empty (Detail r) then set_Detail detail r else r)
    indexes e.

Definition errPanic : error := Message "index out of range".

Fixpoint deliverGroups (w : attemptWorld) (n : nat) (groups : list (groupKey * list nat))
    (held : string) (e : Envelope) (diags : list string) : ST deliverer groupState :=
  match groups with
  | [] => ret (mkGroupState e held diags "" None)
  | ((name, body), indexes) :: groups =>
      if doneBefore w n then ret (mkGroupState e held diags "" None)
      else
        let! ok := if bool_decide (held = name) then ret true else acquireDomain name in
        if negb ok then ret (mkGroupState e held diags name None)
        else
          match domain err_text (outbound cfg) (outside w n) name body indexes e with
          | None => ret (mkGroupState e name diags "" (Some errPanic))
          | Some (err, e', _) =>
              let! _ := releaseDomain name in
              if match err with Some err => IsCorruption err | None => false end
              then ret (mkGroupState e' "" diags "" err)
              else if doneAfter w n
              then ret (mkGroupState (restoreDetails e indexes e') "" diags "" None)
              else
                match err with
                | None => deliverGroups w (Datatypes.S n) groups "" e' diags
                | Some err =>
                    let detail := normalizeDiagnostic (name +:+ ": " +:+ err_text err) in
                    deliverGroups w (Datatypes.S n) groups "" (fillDetails detail indexes e')
                      (diags ++ [detail])
                end
          end
  end.

(** The deadline of the attempt and what its passing means. *)
Definition attemptDeadline (w : attemptWorld) (e : Envelope) : Z * sentinel :=
  let lifetimeDeadline := Created e + lifetime cfg in
  let deadline := now w 1 + attemptTimeout cfg in
  if deadline <? lifetimeDeadline then (deadline, errAttemptTimeout) else (lifetimeDeadline, errLifetime).

Definition outcomeCause (w : attemptWorld) (e : Envelope) : option error :=
  match cause w with
  | Some c => Some c
  | None =>
      let '(deadline, c) := attemptDeadline w e in
      if negb (now w 2 <? deadline) then Some (Sentinel c) else None
  end.

(** The envelope with the attempt's diagnostics. *)
Definition summarize (w : attemptWorld) (started : Envelope) (diags : list string) (e : Envelope)
    : Envelope :=
  let diags := if errors_Is_opt (outcomeCause w started) errAttemptTimeout
               then diags ++ [sentinel_text errAttemptTimeout] else diags in
  set_LastError (normalizeDiagnostic (join_with "; " diags)) e.

(** When to try again. *)
Definition retryAt (w : attemptWorld) (e : Envelope) : Z :=
  let next := now w 3 + backoff (initialDelay cfg) (maximumDelay cfg) (draw w) (Attempts e) in
  let deadline := Created e + lifetime cfg in
  if deadline <? next then deadline else next.

(** The switch at the end of an attempt. *)
Definition settle (w : attemptWorld) (e : Envelope) (blocked : string)
    : ST deliverer (Envelope * res unit) :=
  if Pending e =? 0 then complete w e
  else if parentDone w then
    retryWith "retry canceled" (set_NextAttempt (now w 3) (set_Attempts (Attempts e - 1) e))
  else if errors_Is_opt (outcomeCause w e) errLifetime then expirePending w e
  else if negb (is_empty blocked) then
    let! (e', r) := onQueue (RetryDeferred ToASCII E FreeDisk (Some (set_NextAttempt (now w 3) e))) in
    match r with
    | Err err => ret (default e e', Err (Wrap "defer" err))
    | Ok _ =>
        let! _ := parkAdmission (default e e') admissionDomain blocked in
        ret (set_PreferredDomain blocked (default e e'), Ok tt)
    end
  else if MaxAttempts cfg <=? Attempts e then failTerminal w (exhaustedEnvelope e)
  else retryWith "retry" (set_NextAttempt (retryAt w e) e).

(** With both capacities held: the domain still held at the end is returned. *)
Definition attemptHeld (w : attemptWorld) (e : Envelope) (admittedDomain : string)
    : ST deliverer (Envelope * string * res unit) :=
  if cancelledBefore w then
    let! _ := onQueue (Requeue e) in ret (e, admittedDomain, Ok tt)
  else if negb (now w 0 <? Created e + lifetime cfg) then
    let! (e, r) := expirePending w e in ret (e, admittedDomain, r)
  else
    let started := set_LastError "" (set_Attempts (Attempts e + 1) e) in
    let groups := admittedFirst admittedDomain (groupRecipients started) in
    let! g := deliverGroups w 0 groups admittedDomain (set_PreferredDomain "" started) [] in
    match g_stop g with
    | Some err => ret (g_env g, g_held g, Err err)
    | None =>
        let! (e, r) := settle w (summarize w started (g_diags g) (g_env g)) (g_blocked g) in
        ret (e, g_held g, r)
    end.

Definition attemptAdmitted (w : attemptWorld) (e : Envelope) (admittedOwner admittedDomain : string)
    : ST deliverer (Envelope * res unit) :=
  let! (e, held, r) := attemptHeld w e admittedDomain in
  let! _ := if negb (is_empty held) then releaseDomain held else ret tt in
  let! _ := releaseUser admittedOwner in
  ret (e, r).

Definition attempt (w : attemptWorld) (e : Envelope) : ST deliverer (Envelope * res unit) :=
  let owner := deliveryOwner e in
  let! ok := acquireUser owner in
  if negb ok then
    retryWith "reschedule for user capacity" (set_NextAttempt (now w 3 + admissionDelay cfg) e)
  else
    let name := nextPendingDomain e in
    let! ok := acquireDomain name in
    if negb ok then
      let! _ := releaseUser owner in
      retryWith "reschedule for domain capacity" (set_NextAttempt (now w 3 + admissionDelay cfg) e)
    else attemptAdmitted w e owner name.

(** ** The worker loop (run.go) *)

(** Admission of a due message: with its capacities, or parked. *)
Definition admitDue (e : Envelope) : ST deliverer (option (string * string)) :=
  let owner := deliveryOwner e in
  let! ok := acquireUser owner in
  if negb ok then
    let! _ := parkAdmission e admissionUser owner in ret None
  else
    let name := nextPendingDomain e in
    let! ok := acquireDomain name in
    if negb ok then
      let! _ := releaseUser owner in
      let! _ := parkAdmission e admissionDomain name in ret None
    else ret (Some (owner, name)).

(** What becomes of an attempt's error; the result is the fatal error, if it is one. *)
Definition handleError (e : Envelope) (err : error) : ST deliverer (option error) :=
  if IsCorruption err then
    let! q := onQueue (QuarantineCheckedOut ToASCII E (Some e) err) in
    match q with
    | Err quarantineErr =>
        if errors_Is quarantineErr ErrIDConflict then ret (Some (Join err quarantineErr)) else ret None
    | Ok _ => ret None
    end
  else if IsStoragePressure err then
    let! _ := onQueue (RequeueAfter E e storageRetryDelay) in ret None
  else ret (Some err).

(** A worker's whole life: the attempt, then its error. *)
Definition worker (w : attemptWorld) (e : Envelope) (owner name : string) : ST deliverer (option error) :=
  let! (e, r) := attemptAdmitted w e owner name in
  match r with
  | Ok _ => ret None
  | Err err => handleError e err
  end.
End attempt.
