(* ===== verification/AttemptFacts.v ===== *)
(** * What a delivery attempt guarantees

    Capacity taken for a message is given back on every path
    ([capacity_returned]); the groups move only pending recipients, to outcomes
    the queue takes ([attempt_moves]); the next attempt is neither early nor after the
    message's lifetime ([backoff_bounds]). *)

From S2P Require Import Prelude Errors GoLib Sha256 Envelope Capacity Utf8 Text Mailbox Validation.
From S2P Require Import FileSystem Disk Queue Storage Delivery Dead Dsn Diagnostic Discovery Client ClientFacts BodyReader Send SendFacts Bounce Attempt.
Open Scope Z_scope.

(** ** Slots *)

(** Holders are counted from one, and never for the empty key. *)
Definition slots_ok (m : gmap string Z) : Prop := m !! "" = None ∧ map_Forall (λ _ h, 1 ≤ h) m.

(** [m] without the slot of [key], if there is one. *)
Definition freed (key : string) (m : gmap string Z) : gmap string Z := (releaseSlot key m).1.

Lemma freed_empty m : slots_ok m → freed "" m = m.
Proof. intros [He _]. unfold freed, releaseSlot. by rewrite He. Qed.

Lemma freed_acquired limit key m m' :
  slots_ok m → tryAcquire limit key m = (true, m') → freed key m' = m ∧ slots_ok m'.
Proof.
  intros [He Hm]. unfold tryAcquire. case_bool_decide as Hk.
  { intros [= <-]. subst. split; [by apply freed_empty|by split]. }
  assert (Hins : ∀ h, 1 ≤ h → slots_ok (<[key := h]> m)).
  { intros h Hh. split; [by rewrite lookup_insert_ne|]. by apply map_Forall_insert_2. }
  destruct (m !! key) as [h|] eqn:Eh.
  - assert (1 ≤ h) by (by apply (Hm key)). destruct (limit <=? h); [done|]. intros [= <-].
    split; [|apply Hins; lia]. unfold freed, releaseSlot. rewrite lookup_insert_eq.
    assert (h + 1 - 1 <=? 0 = false) as -> by lia. cbn [fst].
    rewrite insert_insert_eq. replace (h + 1 - 1) with h by lia. by apply insert_id.
  - intros [= <-]. split; [|by apply Hins]. unfold freed, releaseSlot. rewrite lookup_insert_eq.
    cbn. by rewrite delete_insert_id.
Qed.

Lemma tryAcquire_false limit key m m' : tryAcquire limit key m = (false, m') → m' = m.
Proof.
  unfold tryAcquire. case_bool_decide; [done|]. destruct (m !! key); [|done].
  destruct (limit <=? z); [|done]. by intros [= <-].
Qed.

Lemma tryAcquire_limit limit key m ok m' :
  1 ≤ limit → map_Forall (λ _ h, h ≤ limit) m → tryAcquire limit key m = (ok, m') →
  map_Forall (λ _ h, h ≤ limit) m'.
Proof.
  intros Hl Hm. unfold tryAcquire. case_bool_decide; [by intros [= _ <-]|].
  destruct (m !! key) as [h|] eqn:Eh.
  - destruct (Z.leb_spec limit h); intros [= _ <-]; [done|]. apply map_Forall_insert_2; [lia|done].
  - intros [= _ <-]. by apply map_Forall_insert_2.
Qed.

Lemma slots_ok_freed key m : slots_ok m → slots_ok (freed key m).
Proof.
  intros [He Hm]. unfold freed, releaseSlot. destruct (m !! key) as [h|] eqn:Eh; [|by split].
  destruct (Z.leb_spec (h - 1) 0); cbn [fst].
  - split; [by apply lookup_delete_None; auto|by apply map_Forall_delete].
  - split; [|apply map_Forall_insert_2; [lia|done]].
    rewrite lookup_insert_ne; [done|]. intros ->. by rewrite He in Eh.
Qed.

(** ** Groups *)

Abbreviation group := ((string * Z) * list nat)%type (only parsing).

Lemma addToGroup_keys k i (gs : list group) :
  (addToGroup k i gs).*1 = if bool_decide (k ∈ gs.*1) then gs.*1 else gs.*1 ++ [k].
Proof.
  induction gs as [|[k0 ids] gs IH]; [done|]. cbn [addToGroup].
  destruct (decide (k0 = k)) as [-> |Hk].
  - rewrite (bool_decide_eq_true_2 (k = k)) by done. rewrite !fmap_cons. cbn [fst].
    by rewrite bool_decide_eq_true_2 by (by left).
  - rewrite (bool_decide_eq_false_2 (k0 = k)) by done. rewrite !fmap_cons, IH. cbn [fst].
    repeat case_bool_decide; set_solver.
Qed.

Lemma addToGroup_elem k i (gs : list group) k' ids' :
  NoDup gs.*1 → (k', ids') ∈ addToGroup k i gs →
  (k' ≠ k ∧ (k', ids') ∈ gs) ∨
  (k' = k ∧ ((∃ ids, (k, ids) ∈ gs ∧ ids' = ids ++ [i]) ∨ ids' = [i])).
Proof.
  induction gs as [|[k0 ids] gs IH]; intros Hn; cbn [addToGroup].
  { intros [= -> ->]%list_elem_of_singleton. auto. }
  apply NoDup_cons in Hn as [Hk0 Hn]. case_bool_decide as Hk.
  - subst. intros [[= -> ->]|Hin]%elem_of_cons.
    + right. split; [done|]. left. exists ids. split; [left|done].
    + left. split; [|by right]. intros ->. apply Hk0. apply list_elem_of_fmap. by exists (k, ids').
  - intros [[= -> ->]|Hin]%elem_of_cons; [left; split; [done|left]|].
    destruct (IH Hn Hin) as [[? ?]|(-> & [(ids0 & ? & ->)| ->])].
    + left. split; [done|by right].
    + right. split; [done|]. left. exists ids0. split; [by right|done].
    + right. auto.
Qed.

Lemma addToGroup_has k i (gs : list group) : ∃ ids, (k, ids) ∈ addToGroup k i gs ∧ i ∈ ids.
Proof.
  induction gs as [|[k0 ids] gs (ids' & Hin & Hi)]; cbn [addToGroup].
  - exists [i]. split; left.
  - case_bool_decide as Hk; [subst; exists (ids ++ [i]); split; [left|set_solver]|].
    exists ids'. split; [by right|done].
Qed.

Lemma addToGroup_keeps k i (gs : list group) k0 ids :
  (k0, ids) ∈ gs → ∃ ids', (k0, ids') ∈ addToGroup k i gs ∧ ∀ j, j ∈ ids → j ∈ ids'.
Proof.
  induction gs as [|[k1 ids1] gs IH]; [by intros ?%elem_of_nil|]. cbn [addToGroup].
  intros [[= -> ->]|Hin]%elem_of_cons; case_bool_decide.
  - exists (ids1 ++ [i]). split; [left|set_solver].
  - exists ids1. split; [left|done].
  - exists ids. split; [by right|done].
  - destruct (IH Hin) as (ids' & ? & ?). exists ids'. split; [by right|done].
Qed.

(** [gs] groups the pending recipients among the first [n] of [rs]. *)
Record grouped (rs : list Recipient) (n : nat) (gs : list group) : Prop := {
  gr_keys : NoDup gs.*1;
  gr_sound : ∀ k ids, (k, ids) ∈ gs → ids ≠ [] ∧ NoDup ids ∧
    ∀ i, i ∈ ids → (i < n)%nat ∧ ∃ r, rs !! i = Some r ∧ rStatus r = StatusPending ∧ recipient_key r = k;
  gr_complete : ∀ i r, (i < n)%nat → rs !! i = Some r → rStatus r = StatusPending →
    ∃ ids, (recipient_key r, ids) ∈ gs ∧ i ∈ ids
}.

Lemma grouped_add rs n gs r :
  grouped rs n gs → rs !! n = Some r → rStatus r = StatusPending →
  grouped rs (S n) (addToGroup (recipient_key r) n gs).
Proof.
  intros [Hk Hs Hc] Hr Hp. split.
  - rewrite addToGroup_keys. case_bool_decide; [done|]. apply NoDup_app. split_and!; [done| |apply NoDup_singleton].
    set_solver.
  - intros k ids Hin. destruct (addToGroup_elem _ _ _ _ _ Hk Hin) as [[Hne Hold]|(-> & [(ids0 & Hold & ->)| ->])].
    + destruct (Hs k ids Hold) as (H1 & H2 & H3). split_and!; [done|done|]. intros i Hi.
      destruct (H3 i Hi) as [Hlt ?]. split; [lia|done].
    + destruct (Hs _ _ Hold) as (H1 & H2 & H3). split_and!.
      * by destruct ids0.
      * apply NoDup_app. split_and!; [done| |apply NoDup_singleton].
        intros i Hi ->%list_elem_of_singleton. destruct (H3 n Hi). lia.
      * intros i [Hi| ->%list_elem_of_singleton]%elem_of_app; [destruct (H3 i Hi); split; [lia|done]|].
        split; [lia|]. eauto.
    + split_and!; [done|apply NoDup_singleton|]. intros i ->%list_elem_of_singleton. split; [lia|]. eauto.
  - intros i r' Hi Hr' Hp'. destruct (decide (i = n)) as [-> |Hne].
    + rewrite Hr in Hr'. injection Hr' as <-. apply addToGroup_has.
    + destruct (Hc i r' ltac:(lia) Hr' Hp') as (ids & Hin & Hi').
      destruct (addToGroup_keeps (recipient_key r) n gs _ _ Hin) as (ids' & ? & Hsub). eauto.
Qed.

Lemma grouped_skip rs n gs r :
  grouped rs n gs → rs !! n = Some r → rStatus r ≠ StatusPending → grouped rs (S n) gs.
Proof.
  intros [Hk Hs Hc] Hr Hp. split; [done| |].
  - intros k ids Hin. destruct (Hs k ids Hin) as (H1 & H2 & H3). split_and!; [done|done|].
    intros i Hi. destruct (H3 i Hi). split; [lia|done].
  - intros i r' Hi Hr' Hp'. apply Hc; [|done|done]. destruct (decide (i = n)) as [-> |]; [congruence|lia].
Qed.

Lemma groupFrom_grouped rs pre rest gs :
  rs = pre ++ rest → grouped rs (length pre) gs → grouped rs (length rs) (groupFrom (length pre) rest gs).
Proof.
  revert pre gs. induction rest as [|r rest IH]; intros pre gs -> Hg; cbn [groupFrom].
  { by rewrite app_nil_r in *. }
  assert (Hr : (pre ++ r :: rest) !! length pre = Some r) by by rewrite list_lookup_middle.
  assert (Hrw : S (length pre) = length (pre ++ [r])) by (rewrite length_app; simpl; lia).
  rewrite Hrw. apply IH; [by rewrite <-app_assoc|]. rewrite <-Hrw.
  unfold pending_recipient. case_bool_decide; [by apply grouped_add|by eapply grouped_skip].
Qed.

Lemma groupRecipients_grouped e :
  grouped (Recipients e) (length (Recipients e)) (groupRecipients e).
Proof.
  apply (groupFrom_grouped _ []); [done|]. split; [constructor| |].
  - intros k ids Hin. by apply elem_of_nil in Hin.
  - intros i r Hi. simpl in Hi. lia.
Qed.

(** The admitted domain comes first. *)
Lemma takeDomain_spec d (gs : list group) :
  match takeDomain d gs with
  | Some (g, rest) => g.1.1 = d ∧ g :: rest ≡ₚ gs
  | None => ∀ g, g ∈ gs → g.1.1 ≠ d
  end.
Proof.
  induction gs as [|g gs IH]; cbn [takeDomain]; [by intros ? ?%elem_of_nil|].
  case_bool_decide as Hg; [by split|].
  destruct (takeDomain d gs) as [[g0 rest]|]; cbn.
  - destruct IH as [? IH]. split; [done|]. rewrite <-IH. apply Permutation_swap.
  - intros g' [-> |Hg']%elem_of_cons; auto.
Qed.

Lemma admittedFirst_perm d (gs : list group) : admittedFirst d gs ≡ₚ gs.
Proof.
  unfold admittedFirst. destruct (is_empty d); [done|]. pose proof (takeDomain_spec d gs) as Ht.
  destruct (takeDomain d gs) as [[g rest]|]; [apply Ht|done].
Qed.

Definition starts_with (held : string) (gs : list group) : Prop :=
  held = "" ∨ match gs with [] => True | g :: _ => g.1.1 = held end.

Lemma nextPendingDomain_found e : nextPendingDomain e ≠ "" →
  ∃ i r, Recipients e !! i = Some r ∧ rStatus r = StatusPending ∧ rDomain r = nextPendingDomain e.
Proof.
  unfold nextPendingDomain. destruct (negb _ && existsb _ _) eqn:Ep.
  - intros _. apply andb_true_iff in Ep as [_ Ep]. apply existsb_exists in Ep as (r & Hr & Hb).
    apply andb_true_iff in Hb as [Hp Hd]. apply bool_decide_eq_true in Hp, Hd.
    apply list_elem_of_In in Hr. apply list_elem_of_lookup_1 in Hr as [i Hi]. eauto.
  - destruct (List.find pending_recipient (Recipients e)) as [r|] eqn:Ef; [|done]. intros _.
    apply find_some in Ef as [Hr Hp]. apply bool_decide_eq_true in Hp.
    apply list_elem_of_In in Hr. apply list_elem_of_lookup_1 in Hr as [i Hi]. eauto.
Qed.

Lemma admitted_starts e e' : Recipients e' = Recipients e →
  starts_with (nextPendingDomain e) (admittedFirst (nextPendingDomain e) (groupRecipients e')).
Proof.
  intros Hrs. unfold starts_with, admittedFirst, is_empty. case_bool_decide as Hd; [by left|]. right.
  destruct (nextPendingDomain_found e Hd) as (i & r & Hi & Hp & Hdom). rewrite <-Hrs in Hi.
  destruct (gr_complete _ _ _ (groupRecipients_grouped e') i r) as (ids & Hin & _);
    [by apply lookup_lt_Some in Hi|done|done|].
  pose proof (takeDomain_spec (nextPendingDomain e) (groupRecipients e')) as Ht.
  destruct (takeDomain _ _) as [[g rest]|]; [apply Ht|]. by destruct (Ht _ Hin).
Qed.

Section facts.
Context {S : Type} `{Scheduler S} `{JsonCodec} `{CaseTables}.
Context (ToASCII : string → res string) (E : Environment) (FreeDisk : option (res Z)).
Context (err_text : error → string) (os : pieces) (cfg : attemptConfig).
Implicit Types d : @deliverer S.

(** ** Queue work leaves the capacity alone *)

Definition same_slots d d' : Prop := users d' = users d ∧ domains d' = domains d.

#[local] Instance same_slots_preorder : PreOrder same_slots.
Proof. split; unfold same_slots; [done|]. intros a b c [-> ->] [-> ->]. done. Qed.

Lemma onQueue_slots {A} (m : ST (Queue S) A) : keeps same_slots (onQueue m).
Proof. intros d. unfold onQueue. by destruct (m (dqueue d)). Qed.

Lemma wakeAdmission_slots kind key : keeps same_slots (wakeAdmission cfg kind key).
Proof.
  intros d. unfold wakeAdmission. destruct (available _ _ _); [|done]. cbn [negb].
  destruct (takeWaiting _ _ _) as [[w ws]|]; [|done]. exact (onQueue_slots (Requeue (w_envelope w)) (set_parked ws d)).
Qed.

Lemma parkAdmission_slots e kind key : keeps same_slots (parkAdmission cfg e kind key).
Proof.
  unfold parkAdmission. apply keeps_bind; [typeclasses eauto|by intros d|].
  intros _. apply wakeAdmission_slots.
Qed.

#[local] Hint Resolve onQueue_slots wakeAdmission_slots parkAdmission_slots : outbox.

Ltac slots_step :=
  repeat first
    [ apply keeps_ret; typeclasses eauto
    | apply keeps_bind; [typeclasses eauto|auto with outbox|intros ?]
    | progress auto with outbox
    | case_match ].

Lemma ensureDSN_slots w e : keeps same_slots (ensureDSN ToASCII E FreeDisk os cfg w e).
Proof. unfold ensureDSN. slots_step. Qed.

#[local] Hint Resolve ensureDSN_slots : outbox.

Lemma failTerminal_slots w e : keeps same_slots (failTerminal ToASCII E FreeDisk os cfg w e).
Proof. unfold failTerminal. slots_step. Qed.

#[local] Hint Resolve failTerminal_slots : outbox.

Lemma complete_slots w e : keeps same_slots (complete ToASCII E FreeDisk os cfg w e).
Proof. unfold complete. slots_step. Qed.

Lemma retryWith_slots m e : keeps same_slots (retryWith ToASCII E FreeDisk m e).
Proof. unfold retryWith. slots_step. Qed.

#[local] Hint Resolve complete_slots retryWith_slots : outbox.

Lemma settle_slots w e blocked : keeps same_slots (settle ToASCII E FreeDisk os cfg w e blocked).
Proof. unfold settle, expirePending. slots_step. Qed.

(** ** Capacity *)

Lemma releaseDomain_slots key d : users (releaseDomain cfg key d).2 = users d ∧
  domains (releaseDomain cfg key d).2 = freed key (domains d).
Proof.
  unfold releaseDomain, freed. destruct (releaseSlot key (domains d)) as [slots f]. destruct f; [|done].
  destruct (wakeAdmission_slots admissionDomain key (set_domains slots d)) as [-> ->]. done.
Qed.

Lemma releaseUser_slots key d : users (releaseUser cfg key d).2 = freed key (users d) ∧
  domains (releaseUser cfg key d).2 = domains d.
Proof.
  unfold releaseUser, freed. destruct (releaseSlot key (users d)) as [slots f]. destruct f; [|done].
  destruct (wakeAdmission_slots admissionUser key (set_users slots d)) as [-> ->]. done.
Qed.

Lemma deliverGroups_slots w gs : ∀ n held e diags d g d',
  slots_ok (domains d) → starts_with held gs →
  deliverGroups err_text cfg w n gs held e diags d = (g, d') →
  users d' = users d ∧ freed (g_held g) (domains d') = freed held (domains d) ∧ slots_ok (domains d').
Proof.
  induction gs as [|[[name body] idx] gs IH]; intros n held e diags d g d' Hok Hst; cbn [deliverGroups].
  { unfold ret. by intros [= <- <-]. }
  destruct (doneBefore w n); [unfold ret; by intros [= <- <-]|].
  unfold bind at 1. destruct ((if bool_decide (held = name) then ret true else acquireDomain cfg name) d)
    as [ok d1] eqn:Ea.
  assert (Hacq : users d1 = users d ∧ slots_ok (domains d1) ∧
            (if ok then freed name (domains d1) = freed held (domains d) else domains d1 = domains d)).
  { case_bool_decide as Hh.
    - unfold ret in Ea. injection Ea as <- <-. by rewrite Hh.
    - assert (held = "") as -> by (destruct Hst as [?|Hst]; [done|]; cbn in Hst; congruence).
      unfold acquireDomain in Ea. destruct (tryAcquire _ _ _) as [ok' m] eqn:Et.
      injection Ea as <- <-. cbn. destruct ok'.
      + destruct (freed_acquired _ _ _ _ Hok Et) as [Hf Hm]. split_and!; [done|done|].
        rewrite Hf. symmetry. by apply freed_empty.
      + apply tryAcquire_false in Et as ->. by split_and!. }
  destruct Hacq as (Hu & Hok1 & Hd1). destruct ok; cbn [negb].
  2:{ unfold ret. intros [= <- <-]. cbn. by rewrite Hd1. }
  destruct (domain err_text (outbound cfg) (outside w n) name body idx e) as [[[err e'] l]|].
  2:{ unfold ret. intros [= <- <-]. cbn. by split_and!. }
  unfold bind at 1. destruct (releaseDomain cfg name d1) as [[] d2] eqn:Er.
  pose proof (releaseDomain_slots name d1) as [Hu2 Hd2]. rewrite Er in Hu2, Hd2. cbn in Hu2, Hd2.
  assert (Hok2 : slots_ok (domains d2)) by (rewrite Hd2; by apply slots_ok_freed).
  assert (Hrest : ∀ e1 ds, deliverGroups err_text cfg w (Datatypes.S n) gs "" e1 ds d2 = (g, d') →
            users d' = users d ∧ freed (g_held g) (domains d') = freed held (domains d) ∧
            slots_ok (domains d')).
  { intros e1 ds Hg. destruct (IH _ _ _ _ _ _ _ Hok2 (or_introl eq_refl) Hg) as (H1' & H2' & H3').
    split_and!; [congruence| |done]. rewrite H2', freed_empty by done. congruence. }
  assert (Hend : ∀ st, g_held st = "" → ret st d2 = (g, d') →
            users d' = users d ∧ freed (g_held g) (domains d') = freed held (domains d) ∧
            slots_ok (domains d')).
  { intros st Hh. unfold ret. intros [= <- <-]. rewrite Hh, freed_empty by done.
    split_and!; [congruence|congruence|done]. }
  destruct err as [err|]; [destruct (IsCorruption err); [by apply Hend|]|];
    (destruct (doneAfter w n); [by apply Hend|]); by apply Hrest.
Qed.

Lemma attemptHeld_slots w e name d e' held r d' :
  slots_ok (domains d) → name = nextPendingDomain e →
  attemptHeld ToASCII E FreeDisk err_text os cfg w e name d = ((e', held, r), d') →
  users d' = users d ∧ freed held (domains d') = freed name (domains d) ∧ slots_ok (domains d').
Proof.
  intros Hok ->. unfold attemptHeld. destruct (cancelledBefore w).
  { unfold bind. pose proof (onQueue_slots (Requeue e) d) as Hs.
    destruct (onQueue (Requeue e) d) as [[] d1]. unfold ret. intros [= <- <- <- <-].
    destruct Hs as [Hs1 Hs2]. cbn in Hs1, Hs2. by rewrite Hs1, Hs2. }
  destruct (now w 0 <? Created e + lifetime cfg) eqn:Ex; cbn [negb].
  2:{ unfold bind. pose proof (failTerminal_slots w (expiredEnvelope e) d) as Hs. unfold expirePending.
      destruct (failTerminal _ _ _ _ _ _ _ d) as [[e1 r1] d1]. unfold ret. intros [= <- <- <- <-].
      destruct Hs as [Hs1 Hs2]. cbn in Hs1, Hs2. by rewrite Hs1, Hs2. }
  set (started := set_LastError "" _). unfold bind at 1.
  destruct (deliverGroups _ _ _ _ _ _ _ _ d) as [g d1] eqn:Eg.
  apply deliverGroups_slots in Eg as (Hu & Hf & Hok1); [|done|by apply admitted_starts].
  destruct (g_stop g) as [err|]; [unfold ret; by intros [= <- <- <- <-]|].
  unfold bind. pose proof (settle_slots w (summarize cfg w started (g_diags g) (g_env g)) (g_blocked g) d1) as Hs.
  destruct (settle _ _ _ _ _ _ _ _ d1) as [[e2 r2] d2]. unfold ret. intros [= <- <- <- <-].
  destruct Hs as [Hs1 Hs2]. cbn in Hs1, Hs2. rewrite Hs1, Hs2. by split_and!.
Qed.

(** Both kinds of capacity are well formed and within their limits. *)
Definition within_limits d : Prop :=
  slots_ok (users d) ∧ slots_ok (domains d) ∧
  map_Forall (λ _ h, h ≤ kind_limit cfg admissionUser) (users d) ∧
  map_Forall (λ _ h, h ≤ kind_limit cfg admissionDomain) (domains d).

Lemma kind_limit_pos kind : 1 ≤ kind_limit cfg kind.
Proof. destruct kind; cbn; unfold newDomainLimiter; case_match; lia. Qed.

(** C24: Delivery capacity is respected and always returned.  When a due message is
    admitted, its owner and the domain of its first pending recipient hold one slot
    more, within the configured limits; when it is not, nothing is held.  After the
    attempt, whatever happened in it (cancellation, expiry, errors, corruption,
    a second domain that was full, a finished or retried message), the capacity in
    use is exactly what it was before the message was admitted. *)
Theorem capacity_returned w e d adm d1 :
  within_limits d → admitDue cfg e d = (adm, d1) →
  within_limits d1 ∧
  match adm with
  | None => users d1 = users d ∧ domains d1 = domains d
  | Some (owner, name) =>
      ∀ e' r d2,
        attemptAdmitted ToASCII E FreeDisk err_text os cfg w e owner name d1 = ((e', r), d2) →
        users d2 = users d ∧ domains d2 = domains d
  end.
Proof.
  intros Hw. unfold admitDue. unfold bind at 1, acquireUser at 1.
  destruct (tryAcquire _ (deliveryOwner e) (users d)) as [ok1 m1] eqn:E1. destruct Hw as (Hu & Hd & Lu & Ld).
  destruct ok1; cbn [negb].
  2:{ apply tryAcquire_false in E1 as ->. unfold bind.
      pose proof (parkAdmission_slots e admissionUser (deliveryOwner e) (set_users (users d) d)) as Hs.
      destruct (parkAdmission _ _ _ _ _) as [[] d2]. unfold ret. intros [= <- <-].
      destruct Hs as [Hs1 Hs2]. cbn in Hs1, Hs2. unfold within_limits. by rewrite Hs1, Hs2. }
  destruct (freed_acquired _ _ _ _ Hu E1) as [Hf1 Ho1].
  pose proof (tryAcquire_limit _ _ _ _ _ (kind_limit_pos admissionUser) Lu E1) as Lu1.
  unfold bind at 1, acquireDomain at 1. cbn [domains set_users].
  destruct (tryAcquire _ (nextPendingDomain e) (domains d)) as [ok2 m2] eqn:E2. destruct ok2; cbn [negb].
  - destruct (freed_acquired _ _ _ _ Hd E2) as [Hf2 Ho2].
    pose proof (tryAcquire_limit _ _ _ _ _ (kind_limit_pos admissionDomain) Ld E2) as Ld1.
    unfold ret. intros [= <- <-]. split; [by split_and!|]. intros e' r d2.
    unfold attemptAdmitted, bind at 1. destruct (attemptHeld _ _ _ _ _ _ _ _ _ _) as [[[e1 held] r1] d3] eqn:Ea.
    apply attemptHeld_slots in Ea as (Hu3 & Hf3 & Ho3); [|done|done]. cbn in Hu3, Hf3.
    unfold bind at 1.
    assert (Hrel : ∀ d4, (if negb (is_empty held) then releaseDomain cfg held else ret tt) d3 = (tt, d4) →
              users d4 = m1 ∧ domains d4 = domains d).
    { intros d4. unfold is_empty. case_bool_decide as Hh; cbn [negb].
      - unfold ret. intros [= <-]. subst held. rewrite freed_empty in Hf3 by done. by rewrite Hf3.
      - intros Hr. pose proof (releaseDomain_slots held d3) as [Hu4 Hd4]. rewrite Hr in Hu4, Hd4.
        cbn in Hu4, Hd4. by rewrite Hu4, Hd4, Hf3. }
    destruct ((if negb (is_empty held) then releaseDomain cfg held else ret tt) d3) as [[] d4].
    destruct (Hrel d4 eq_refl) as [Hu4 Hd4]. unfold bind.
    pose proof (releaseUser_slots (deliveryOwner e) d4) as [Hu5 Hd5].
    destruct (releaseUser cfg (deliveryOwner e) d4) as [[] d5]. cbn in Hu5, Hd5.
    unfold ret. intros [= <- <- <-]. by rewrite Hu5, Hd5, Hu4, Hd4, Hf1.
  - apply tryAcquire_false in E2 as ->. unfold bind.
    pose proof (releaseUser_slots (deliveryOwner e) (set_domains (domains d) (set_users m1 d))) as [Hu3 Hd3].
    destruct (releaseUser cfg _ _) as [[] d3]. cbn in Hu3, Hd3.
    pose proof (parkAdmission_slots e admissionDomain (nextPendingDomain e) d3) as Hs.
    destruct (parkAdmission _ _ _ _ _) as [[] d4]. unfold ret. intros [= <- <-].
    destruct Hs as [Hs1 Hs2]. cbn in Hs1, Hs2. unfold within_limits. by rewrite Hs1, Hs2, Hu3, Hd3, Hf1.
Qed.

(** ** The envelope after the groups *)

(** Every recipient's message has a size, a 64-bit integer, and a transfer encoding. *)
Record bodies_ok (e : Envelope) : Prop := {
  bo_defined : ∀ i, (i < length (Recipients e))%nat →
    ∃ size eb, MessageSize e i = Some size ∧ MessageEightBit e i = Some eb;
  bo_in64 : ∀ i s, MessageSize e i = Some s → in64 s
}.

Lemma bodies_ok_moves may idx e e' : bodies_ok e → moves may idx e e' → bodies_ok e'.
Proof.
  intros [Hb H64] Hm. split.
  - intros i Hi. rewrite (ms_length _ _ _ _ Hm) in Hi.
    destruct (moves_message _ _ _ _ i Hm) as (_ & -> & -> & _). by apply Hb.
  - intros i s. destruct (moves_message _ _ _ _ i Hm) as (_ & -> & _). apply H64.
Qed.

Definition settled_at (idx : list nat) (e : Envelope) : Prop :=
  ∀ i r, i ∈ idx → Recipients e !! i = Some r → settled r.

Lemma settled_at_moves may idx idx' e e' : settled_at idx' e → moves may idx e e' → settled_at idx' e'.
Proof.
  intros Hs Hm i r' Hi Hr'. destruct (Recipients e !! i) as [r|] eqn:Er.
  - apply (mv_settled _ _ _ (ms_moved _ _ _ _ Hm i r r' Er Hr')). by eapply Hs.
  - apply lookup_ge_None in Er. apply lookup_lt_Some in Hr'. rewrite (ms_length _ _ _ _ Hm) in Hr'. lia.
Qed.

Definition may_any (i : nat) : Prop := True.

Lemma restoreDetails_moves before idx e :
  settled_at idx before → moves may_any idx e (restoreDetails before idx e).
Proof.
  intros Hb. unfold restoreDetails.
  cut (∀ l e, (∀ i, i ∈ l → i ∈ idx) → moves may_any idx e (fold_left (λ e i,
    at_index (λ r, if pending_recipient r
                   then set_Detail (from_option Detail "" (Recipients before !! i)) r else r) i e) l e));
    [by eauto|].
  induction l as [|i l IH]; intros e0 Hl; cbn [fold_left]; [apply moves_refl|].
  assert (Hi : i ∈ idx) by (apply Hl; left).
  eapply moves_trans; [|apply IH; intros j Hj; apply Hl; by right].
  rewrite at_index_fold. eapply (moves_weaken may_any may_any [i]); [done|by intros j ->%list_elem_of_singleton|].
  apply (at_indexes_moves (λ _, True)); [|done]. intros j r _ _. split; [|done].
  destruct (pending_recipient r); [|apply moved_refl]. apply detail_moved.
  destruct (Recipients before !! i) as [r0|] eqn:Er; cbn; [|by split].
  apply (Hb i r0 Hi Er).
Qed.

Lemma fillDetails_moves detail idx e :
  displayable detail → moves may_any idx e (fillDetails detail idx e).
Proof.
  intros Hd. apply (at_indexes_moves (λ _, True)); [|done]. intros j r _ _. split; [|done].
  destruct (_ && _); [by apply detail_moved|apply moved_refl].
Qed.

(** The groups are groups of recipients of [e] within [worked]. *)
Definition groups_in (worked : list nat) (e : Envelope) (gs : list group) : Prop :=
  ∀ k ids, (k, ids) ∈ gs → ids ≠ [] ∧ NoDup ids ∧
    ∀ i, i ∈ ids → i ∈ worked ∧ (i < length (Recipients e))%nat.

Lemma groups_in_moves may worked e e' gs :
  groups_in worked e gs → moves may worked e e' → groups_in worked e' gs.
Proof.
  intros Hg Hm k ids Hin. destruct (Hg k ids Hin) as (H1' & H2' & H3'). split_and!; [done|done|].
  intros i Hi. rewrite (ms_length _ _ _ _ Hm). by apply H3'.
Qed.

(** The outside of this attempt: transport errors are not SMTP replies, and the
    bodies it opens have not been read yet. *)
Context (w : attemptWorld).
Hypothesis dialled_ok : ∀ n h ip p, dial (outside w n) h ip = Ok p → peer_ok (NewClient p).
Hypothesis opened_ok : ∀ n id b r, openReader (outside w n) id b = Ok r →
  tr_verified r = false ∧ tr_seen r = [] ∧ 0 ≤ tr_remaining r.

Lemma group_is_ok worked e gs k ids :
  bodies_ok e → groups_in worked e gs → (k, ids) ∈ gs → group_ok ids e.
Proof.
  intros [Hb _] Hg Hin. destruct (Hg k ids Hin) as (Hne & Hnd & Hi). split; [done| |].
  - destruct ids as [|i0 ids]; [done|]. destruct (Hb i0) as (size & eb & ? & ?); [apply Hi; left|].
    by exists i0, size, eb.
  - intros i Hin'. by apply Hi.
Qed.

Lemma deliverGroups_env worked gs : ∀ n held e diags d g d',
  bodies_ok e → groups_in worked e gs → settled_at worked e →
  deliverGroups err_text cfg w n gs held e diags d = (g, d') →
  (∀ err, g_stop g = Some err → IsCorruption err = true) ∧ moves may_any worked e (g_env g).
Proof.
  induction gs as [|[[name body] ids] gs IH]; intros n held e diags d g d' Hb Hg Hs; cbn [deliverGroups].
  { unfold ret. intros [= <- <-]. split; [done|apply moves_refl]. }
  destruct (doneBefore w n); [unfold ret; intros [= <- <-]; split; [done|apply moves_refl]|].
  unfold bind at 1. destruct ((if bool_decide (held = name) then ret true else acquireDomain cfg name) d) as [ok d1].
  destruct ok; cbn [negb]; [|unfold ret; intros [= <- <-]; split; [done|apply moves_refl]].
  assert (Hok : group_ok ids e) by (eapply group_is_ok; [done|exact Hg|by left]).
  assert (Hsub : ∀ i, i ∈ ids → i ∈ worked).
  { intros i Hi. destruct (Hg (name, body) ids ltac:(by left)) as (_ & _ & Hx). by apply Hx. }
  destruct (domain_moves err_text (outbound cfg) (outside w n) (dialled_ok n) (opened_ok n) name body ids e Hok
              (bo_in64 e Hb)) as (err & e' & logs & -> & Hm).
  assert (Hm' : moves may_any worked e e') by (eapply moves_weaken; [| |exact Hm]; done).
  unfold bind at 1. destruct (releaseDomain cfg name d1) as [[] d2].
  assert (Hend : ∀ st, moves may_any worked e (g_env st) →
            (∀ err0, g_stop st = Some err0 → IsCorruption err0 = true) → ret st d2 = (g, d') →
            (∀ err0, g_stop g = Some err0 → IsCorruption err0 = true) ∧ moves may_any worked e (g_env g)).
  { intros st H1' H2'. unfold ret. by intros [= <- <-]. }
  assert (Hrest : ∀ e1 ds, moves may_any worked e e1 →
            deliverGroups err_text cfg w (Datatypes.S n) gs "" e1 ds d2 = (g, d') →
            (∀ err0, g_stop g = Some err0 → IsCorruption err0 = true) ∧ moves may_any worked e (g_env g)).
  { intros e1 ds Hm1 Hd. apply IH in Hd as [HA HB].
    - split; [done|]. by eapply moves_trans.
    - by eapply bodies_ok_moves.
    - eapply groups_in_moves; [|exact Hm1]. intros k is' Hin. apply (Hg k is'). by right.
    - by eapply settled_at_moves. }
  assert (Hrestore : moves may_any worked e (restoreDetails e ids e')).
  { eapply moves_trans; [exact Hm'|]. eapply moves_weaken; [done|exact Hsub|].
    apply restoreDetails_moves. intros i r Hi. apply Hs. by apply Hsub. }
  destruct err as [err|].
  - destruct (IsCorruption err) eqn:Ec; [apply Hend; [done|]; cbn; by intros ? [= <-]|].
    destruct (doneAfter w n); [by apply Hend|]. apply Hrest.
    eapply moves_trans; [exact Hm'|]. eapply moves_weaken; [done|exact Hsub|].
    apply fillDetails_moves, normalized_displayable.
  - destruct (doneAfter w n); [by apply Hend|]. by apply Hrest.
Qed.

(** Every recipient's outcome passes the queue's validation. *)
Definition acceptable (e : Envelope) : Prop :=
  ∀ r, r ∈ Recipients e → validateOutcome r = Ok tt ∧ displayable (Detail r).

Lemma pending_settled r :
  validateOutcome r = Ok tt → displayable (Detail r) → rStatus r = StatusPending → settled r.
Proof.
  intros Hv Hd Hs. split; [done|]. left. split; [by left|]. unfold validateOutcome in Hv. rewrite Hs in Hv.
  destruct (negb (Code r =? 0) && _); [done|]. destruct (negb (is_empty (EnhancedCode r)) && _); [done|].
  cbn in Hv. destruct (negb (Code r =? 0) || negb (is_empty (EnhancedCode r))) eqn:Eo; [done|].
  apply orb_false_iff in Eo as [E1%negb_false_iff E2%negb_false_iff].
  split; [by apply Z.eqb_eq|]. by apply bool_decide_eq_true in E2.
Qed.

Definition pending_indexes (e : Envelope) : list nat :=
  filter (λ i, is_pending e i = true) (seq 0 (length (Recipients e))).

Lemma groups_pending name e : groups_in (pending_indexes e) e (admittedFirst name (groupRecipients e)).
Proof.
  intros k ids Hin. rewrite admittedFirst_perm in Hin.
  destruct (gr_sound _ _ _ (groupRecipients_grouped e) k ids Hin) as (H1' & H2' & H3').
  split_and!; [done|done|]. intros i Hi. destruct (H3' i Hi) as [Hlt (r & Hr & Hp & _)].
  split; [|done]. apply list_elem_of_filter. split; [apply is_pending_true; eauto|]. apply elem_of_seq. lia.
Qed.

Lemma count_status_none st rs : (∀ r, r ∈ rs → rStatus r ≠ st) → count_status st rs = 0.
Proof.
  unfold count_status. generalize 0 as n. induction rs as [|r rs IH]; intros n Hr; [done|]. cbn [fold_left].
  rewrite bool_decide_eq_false_2 by (apply Hr; left). apply IH. intros r' Hr'. apply Hr. by right.
Qed.

Lemma terminal_envelopes e : acceptable e →
  acceptable (expiredEnvelope e) ∧ acceptable (exhaustedEnvelope e) ∧
  Pending (expiredEnvelope e) = 0 ∧ Pending (exhaustedEnvelope e) = 0.
Proof.
  intros Ha. split_and!.
  - intros r' (r & -> & Hr)%list_elem_of_fmap. unfold expireRecipient.
    destruct (pending_recipient r); [|by apply Ha].
    split; [done|]. split; [vm_compute; discriminate|vm_compute; reflexivity].
  - intros r' (r & -> & Hr)%list_elem_of_fmap. unfold exhaustRecipient.
    destruct (pending_recipient r); [|by apply Ha]. split; [done|]. cbn [Detail].
    destruct (is_empty (Detail r)); [split; [vm_compute; discriminate|vm_compute; reflexivity]|by apply Ha].
  - apply count_status_none. intros r' (r & -> & Hr)%list_elem_of_fmap. unfold expireRecipient.
    destruct (pending_recipient r) eqn:Ep; [done|]. by apply bool_decide_eq_false in Ep.
  - apply count_status_none. intros r' (r & -> & Hr)%list_elem_of_fmap. unfold exhaustRecipient.
    destruct (pending_recipient r) eqn:Ep; [done|]. by apply bool_decide_eq_false in Ep.
Qed.

(** The groups only move recipients that were pending, to outcomes the queue takes. *)
Lemma attempt_moves name e d g d' :
  bodies_ok e → acceptable e →
  deliverGroups err_text cfg w 0 (admittedFirst name (groupRecipients e)) name e [] d = (g, d') →
  (∀ err, g_stop g = Some err → IsCorruption err = true) ∧
  moves may_any (pending_indexes e) e (g_env g) ∧ acceptable (g_env g).
Proof.
  intros Hb Ha Hd.
  assert (Hset : settled_at (pending_indexes e) e).
  { intros i r Hi Hr. apply list_elem_of_filter in Hi as [Hp _].
    apply is_pending_true in Hp as (r' & Hr' & Hp). rewrite Hr in Hr'. injection Hr' as <-.
    apply list_elem_of_lookup_2 in Hr. apply pending_settled; [apply (Ha r Hr)|apply (Ha r Hr)|done]. }
  destruct (deliverGroups_env _ _ _ _ _ _ _ _ _ Hb (groups_pending name e) Hset Hd) as [Hstop Hm].
  split_and!; [done|done|]. intros r' Hr'. apply list_elem_of_lookup_1 in Hr' as [i Hi].
  destruct (decide (i ∈ pending_indexes e)) as [Hin|Hout].
  - pose proof (settled_at_moves _ _ _ _ _ Hset Hm i r' Hin Hi) as Hs.
    split; [by apply settled_valid|apply Hs].
  - rewrite (ms_other _ _ _ _ Hm i Hout) in Hi. apply Ha. by eapply list_elem_of_lookup_2.
Qed.
End facts.

(** ** Back-off *)

(** The reference: the initial delay doubled per attempt, up to the maximum. *)
Definition nominal (initial maximum attempts : Z) : Z :=
  Z.min (initial * 2 ^ Z.max 0 (attempts - 1)) maximum.

Lemma doubled_min n delay maximum :
  0 < delay ≤ maximum → maximum ≤ MaxInt64 →
  doubled n delay maximum = Z.min (delay * 2 ^ Z.of_nat n) maximum.
Proof.
  revert delay. induction n as [|n IH]; intros delay Hd Hm; cbn [doubled]; [simpl; lia|].
  rewrite Nat2Z.inj_succ, Z.pow_succ_r by lia.
  assert (1 ≤ 2 ^ Z.of_nat n) by (apply Z.lt_pred_le, Z.pow_pos_nonneg; lia).
  destruct ((maximum <=? delay) || (Z.quot maximum 2 <? delay)) eqn:Eo.
  - assert (maximum ≤ delay * 2).
    { rewrite Z.quot_div_nonneg in Eo by lia. pose proof (Z.div_mod maximum 2 ltac:(lia)).
      pose proof (Z.mod_pos_bound maximum 2 ltac:(lia)). lia. }
    rewrite Z.min_r; [done|nia].
  - rewrite Z.quot_div_nonneg in Eo by lia. pose proof (Z.div_mod maximum 2 ltac:(lia)).
    pose proof (Z.mod_pos_bound maximum 2 ltac:(lia)).
    rewrite wrap64_id by lia64. rewrite IH by lia. f_equal. lia.
Qed.

Lemma backoff_range initial maximum dr attempts :
  0 < initial ≤ maximum → maximum ≤ MaxInt64 → (∀ s, 0 < s → 0 ≤ dr s < s) →
  let n := nominal initial maximum attempts in
  n - n ÷ 10 ≤ backoff initial maximum dr attempts ≤ maximum ∧
  backoff initial maximum dr attempts ≤ n + n ÷ 10 + 1.
Proof.
  intros Hi Hm Hdr. cbn zeta. unfold backoff. rewrite doubled_min by done.
  replace (Z.of_nat (Z.to_nat (attempts - 1))) with (Z.max 0 (attempts - 1)) by lia.
  fold (nominal initial maximum attempts). set (n := nominal initial maximum attempts).
  assert (Hn : 0 < n ≤ maximum).
  { unfold n, nominal. assert (1 ≤ 2 ^ Z.max 0 (attempts - 1)) by (apply Z.lt_pred_le, Z.pow_pos_nonneg; lia).
    nia. }
  clearbody n. rewrite !Z.quot_div_nonneg by lia.
  pose proof (Z.div_mod n 5 ltac:(lia)). pose proof (Z.mod_pos_bound n 5 ltac:(lia)).
  pose proof (Z.div_mod n 10 ltac:(lia)). pose proof (Z.mod_pos_bound n 10 ltac:(lia)).
  destruct (Z.leb_spec (n / 5) 0) as [Hs|Hs]; [lia|].
  specialize (Hdr (n / 5) Hs). rewrite (wrap64_id (dr (n / 5) - n / 10)) by lia64.
  set (delta := dr (n / 5) - n / 10) in *.
  assert (delta = dr (n / 5) - n / 10) as Hdelta by done. clearbody delta.
  destruct (Z.ltb_spec 0 delta) as [Hpos|Hneg]; cbn [andb].
  - rewrite (wrap64_id (maximum - delta)) by lia64.
    destruct (Z.ltb_spec (maximum - delta) n); [lia|].
    rewrite wrap64_id by lia64. destruct (Z.ltb_spec maximum (n + delta)); lia.
  - rewrite wrap64_id by lia64. destruct (Z.ltb_spec maximum (n + delta)); lia.
Qed.

(** The delay before the next attempt is the initial delay doubled for every
    attempt made, up to the maximum, varied by at most a tenth either way and never
    above the maximum; no intermediate value overflows.  The next attempt is set no
    later than the end of the message's lifetime and, unless that comes first, not
    before the delay has passed. *)
Theorem backoff_bounds cfg w e :
  0 < initialDelay cfg ≤ maximumDelay cfg → maximumDelay cfg ≤ MaxInt64 →
  (∀ s, 0 < s → 0 ≤ draw w s < s) →
  let n := nominal (initialDelay cfg) (maximumDelay cfg) (Attempts e) in
  let b := backoff (initialDelay cfg) (maximumDelay cfg) (draw w) (Attempts e) in
  n - n ÷ 10 ≤ b ≤ maximumDelay cfg ∧ b ≤ n + n ÷ 10 + 1 ∧
  retryAt cfg w e ≤ Created e + lifetime cfg ∧
  (now w 3 + (n - n ÷ 10) ≤ retryAt cfg w e ∨ retryAt cfg w e = Created e + lifetime cfg).
Proof.
  intros Hi Hm Hd. destruct (backoff_range _ _ _ (Attempts e) Hi Hm Hd) as [Hr Hu]. cbn zeta in *.
  split_and!; [apply Hr|apply Hr|done| |]; unfold retryAt;
    destruct (Z.ltb_spec (Created e + lifetime cfg)
                (now w 3 + backoff (initialDelay cfg) (maximumDelay cfg) (draw w) (Attempts e))); lia.
Qed.
