(* ===== verification/Run.v ===== *)
(** * The delivery loop with its workers (src/internal/deliver/run.go)

    [Run] takes due messages, reserves the capacity of their owner and domain, parks
    them when there is none, and starts a worker for each of the others; workers give
    capacity back, which wakes a parked message.  The loop and the workers run
    concurrently: a step is one section under a lock, one receive or one call of the
    queue, and an event chooses which thread takes its next step and how the outside
    answers.  An attempt is seen from its capacity: the domains it holds one after the
    other and what it did with the message (Attempt.v has its inside).  A wake that a
    release or a parking owes is a task of its own, so it may also come later than in
    the code.  The theorems, over
    every interleaving: the capacity in use is what threads hold, messages are neither
    lost nor doubled, a parked message always has something that will wake it, a loop
    that has returned has given everything back, and shutting down never blocks. *)

From S2P Require Import Prelude Errors GoLib Sha256 Envelope Capacity FileSystem Disk Utf8 Mailbox Text Validation Diagnostic Client Discovery.
From S2P Require Import Queue Storage Bounce BodyReader Send SendFacts Outcomes Delivery Dead Dsn Attempt AttemptFacts.
Open Scope Z_scope.

(** The stages of [wakeAdmission]: before [available], before the waiting list, before
    [Requeue]. *)
Inductive wakeTask :=
| WakeCheck (kind : admissionKind) (key : string)
| WakeTake (kind : admissionKind) (key : string)
| WakeRequeue (e : Envelope).

(** Where [Run] is. *)
Inductive loopPhase :=
| LTop
| LNext
| LHolding (e : Envelope)
| LAdmit (e : Envelope)
| LOwner (e : Envelope) (owner : string)
| LRefused (e : Envelope) (owner domain : string)
| LPark (e : Envelope) (kind : admissionKind) (key : string)
| LBoth (e : Envelope) (owner domain : string)
| LUndoDomain (e : Envelope) (owner domain : string)
| LUndoOwner (e : Envelope) (owner : string)
| LGiveBack (e : Envelope)
| LLast
| LReturning (r : option error)
| LReturned (r : option error).

(** Where a worker is: in its attempt, refused the capacity of a later domain, or past
    it with the attempt's error, before the release of the domain, before that of the
    owner, before the handling of the error. *)
Inductive workerStage :=
| WAttempt
| WBlocked (domain : string)
| WCloseDomain (err : option error)
| WCloseOwner (err : option error)
| WHandle (err : option error).

Record runWorker := mkRunWorker { wkEnv : Envelope; wkOwner : string; wkHeld : string; wkStage : workerStage }.

(** The queue is seen as the messages that are due, those due later, those it is done
    with, and those left to it after an error nobody retries. *)
Record runState := mkRun {
  rsReady : list Envelope; rsLater : list Envelope; rsGone : list Envelope; rsStuck : list Envelope;
  rsUsers : gmap string Z; rsDomains : gmap string Z; rsParked : list admissionWait; rsOwed : list wakeTask;
  rsLoop : loopPhase; rsWorkers : list runWorker; rsCancelled : bool; rsFatal : option error
}.

Definition setQueue ready later gone stuck (s : runState) : runState :=
  mkRun ready later gone stuck (rsUsers s) (rsDomains s) (rsParked s) (rsOwed s) (rsLoop s) (rsWorkers s) (rsCancelled s) (rsFatal s).
Definition giveReady e s := setQueue (e :: rsReady s) (rsLater s) (rsGone s) (rsStuck s) s.
Definition giveLater e s := setQueue (rsReady s) (e :: rsLater s) (rsGone s) (rsStuck s) s.
Definition giveGone e s := setQueue (rsReady s) (rsLater s) (e :: rsGone s) (rsStuck s) s.
Definition giveStuck e s := setQueue (rsReady s) (rsLater s) (rsGone s) (e :: rsStuck s) s.
Definition setSlots u d (s : runState) : runState :=
  mkRun (rsReady s) (rsLater s) (rsGone s) (rsStuck s) u d (rsParked s) (rsOwed s) (rsLoop s) (rsWorkers s) (rsCancelled s) (rsFatal s).
Definition setParked p o (s : runState) : runState :=
  mkRun (rsReady s) (rsLater s) (rsGone s) (rsStuck s) (rsUsers s) (rsDomains s) p o (rsLoop s) (rsWorkers s) (rsCancelled s) (rsFatal s).
Definition setLoop l (s : runState) : runState :=
  mkRun (rsReady s) (rsLater s) (rsGone s) (rsStuck s) (rsUsers s) (rsDomains s) (rsParked s) (rsOwed s) l (rsWorkers s) (rsCancelled s) (rsFatal s).
Definition setWorkers w (s : runState) : runState :=
  mkRun (rsReady s) (rsLater s) (rsGone s) (rsStuck s) (rsUsers s) (rsDomains s) (rsParked s) (rsOwed s) (rsLoop s) w (rsCancelled s) (rsFatal s).
Definition setCancelled (s : runState) : runState :=
  mkRun (rsReady s) (rsLater s) (rsGone s) (rsStuck s) (rsUsers s) (rsDomains s) (rsParked s) (rsOwed s) (rsLoop s) (rsWorkers s) true (rsFatal s).

(** [setFatal]: the first one stays; then [cancel]. *)
Definition setFatal (err : error) (s : runState) : runState :=
  mkRun (rsReady s) (rsLater s) (rsGone s) (rsStuck s) (rsUsers s) (rsDomains s) (rsParked s) (rsOwed s) (rsLoop s) (rsWorkers s) true
    (match rsFatal s with Some f => Some f | None => Some err end).

Definition rsSlots (kind : admissionKind) (s : runState) : gmap string Z :=
  match kind with admissionUser => rsUsers s | admissionDomain => rsDomains s end.

Definition setKind (kind : admissionKind) (m : gmap string Z) (s : runState) : runState :=
  match kind with admissionUser => setSlots m (rsDomains s) s | admissionDomain => setSlots (rsUsers s) m s end.

Definition owe (t : wakeTask) (s : runState) : runState := setParked (rsParked s) (t :: rsOwed s) s.

(** [release], with the callback it owes. *)
Definition releaseKind (kind : admissionKind) (key : string) (s : runState) : runState :=
  let '(m, wakes) := releaseSlot key (rsSlots kind s) in
  let s := setKind kind m s in
  if wakes : bool then owe (WakeCheck kind key) s else s.

(** [parkAdmission] up to its own wake. *)
Definition park (e : Envelope) (kind : admissionKind) (key : string) (s : runState) : runState :=
  let e := match kind with admissionDomain => set_PreferredDomain key e | admissionUser => e end in
  setParked (rsParked s ++ [mkWait e kind key]) (WakeCheck kind key :: rsOwed s) s.

(** Answers of the outside to the loop: which due message [next] returns or how it
    fails, and which way the select goes. *)
Inductive loopChoice := Take (i : nat) | NextCancelled | NextFailed (err : error) | Slot | Abandon | Go.

(** What an attempt did with its message. *)
Inductive attemptOutcome :=
| OFinished
| ORetried (e : Envelope)
| OGivenBack
| OParked (e : Envelope)
| OError (e : Envelope) (err : error).

Inductive workerAction :=
| ReleaseHeld
| AcquireNext (domain : string)
| Outcome (o : attemptOutcome)
| CloseDomain
| CloseOwner
| HandleError (quarantine : res unit).

Inductive runEvent :=
| Arrive (e : Envelope)
| Due (i : nat)
| Cancel
| Loop (c : loopChoice)
| Work (i : nat) (a : workerAction)
| Wake (i : nat).

Section run.
Variable cfg : attemptConfig.
Variable attemptLimit : nat.

(** The next step of [Run]. *)
Definition loopStep (c : loopChoice) (s : runState) : option runState :=
  match rsLoop s, c with
  | LTop, Go =>
      match rsFatal s with
      | Some err => Some (setLoop (LReturning (Some err)) (setCancelled s))
      | None => Some (setLoop LNext s)
      end
  | LNext, Take i =>
      e ← rsReady s !! i;
      Some (setLoop (LHolding e) (setQueue (delete i (rsReady s)) (rsLater s) (rsGone s) (rsStuck s) s))
  | LNext, NextCancelled => if rsCancelled s then Some (setLoop LLast s) else None
  | LNext, NextFailed err => if rsCancelled s then None else Some (setLoop (LReturning (Some err)) (setCancelled s))
  | LHolding e, Go => Some (setLoop (if rsCancelled s then LGiveBack e else LAdmit e) s)
  | LAdmit e, Go =>
      let owner := deliveryOwner e in
      match tryAcquire (kind_limit cfg admissionUser) owner (rsUsers s) with
      | (true, m) => Some (setLoop (LOwner e owner) (setSlots m (rsDomains s) s))
      | (false, m) => Some (setLoop (LPark e admissionUser owner) (setSlots m (rsDomains s) s))
      end
  | LOwner e owner, Go =>
      let domain := nextPendingDomain e in
      match tryAcquire (kind_limit cfg admissionDomain) domain (rsDomains s) with
      | (true, m) => Some (setLoop (LBoth e owner domain) (setSlots (rsUsers s) m s))
      | (false, m) => Some (setLoop (LRefused e owner domain) (setSlots (rsUsers s) m s))
      end
  | LRefused e owner domain, Go => Some (setLoop (LPark e admissionDomain domain) (releaseKind admissionUser owner s))
  | LPark e kind key, Go => Some (setLoop LTop (park e kind key s))
  | LBoth e owner domain, Slot =>
      if (length (rsWorkers s) <? attemptLimit)%nat
      then Some (setLoop LTop (setWorkers (mkRunWorker e owner domain WAttempt :: rsWorkers s) s))
      else None
  | LBoth e owner domain, Abandon => if rsCancelled s then Some (setLoop (LUndoDomain e owner domain) s) else None
  | LUndoDomain e owner domain, Go => Some (setLoop (LUndoOwner e owner) (releaseKind admissionDomain domain s))
  | LUndoOwner e owner, Go => Some (setLoop (LGiveBack e) (releaseKind admissionUser owner s))
  | LGiveBack e, Go => Some (setLoop LLast (giveReady e s))
  | LLast, Go => Some (setLoop (LReturning (rsFatal s)) (setCancelled s))
  | LReturning r, Go =>
      (** [wg.Wait], then [requeueParked]. *)
      if bool_decide (rsWorkers s = []) && (length (rsOwed s) =? 0)%nat
      then Some (setLoop (LReturned r) (setParked [] [] (setQueue ((w_envelope <$> rsParked s) ++ rsReady s) (rsLater s) (rsGone s) (rsStuck s) s)))
      else None
  | _, _ => None
  end.

Definition set_stage (w : runWorker) (e : Envelope) (held : string) (st : workerStage) : runWorker := mkRunWorker e (wkOwner w) held st.

(** The worker takes a stage. *)
Definition toStage (i : nat) (w : runWorker) (s : runState) : runState := setWorkers (<[i := w]> (rsWorkers s)) s.

Definition pends (domain : string) (e : Envelope) : bool :=
  existsb (λ r, pending_recipient r && bool_decide (rDomain r = domain)) (Recipients e).

(** The end of an attempt; a message is stored, given back or parked as the message it
    was, a parked one still having recipients of the domain it was refused. *)
Definition outcomeStep (i : nat) (w : runWorker) (o : attemptOutcome) (s : runState) : option runState :=
  let closing e err := toStage i (set_stage w e (wkHeld w) (WCloseDomain err)) s in
  let same e := bool_decide (ID e = ID (wkEnv w)) in
  match wkStage w, o with
  | WAttempt, OFinished | WBlocked _, OFinished => Some (giveGone (wkEnv w) (closing (wkEnv w) None))
  | WAttempt, ORetried e | WBlocked _, ORetried e => if same e then Some (giveLater e (closing e None)) else None
  | WAttempt, OGivenBack => if rsCancelled s then Some (giveReady (wkEnv w) (closing (wkEnv w) None)) else None
  | WBlocked domain, OParked e =>
      if same e && pends domain e && negb (bool_decide (domain = ""))
      then Some (park e admissionDomain domain (closing e None)) else None
  | WAttempt, OError e err | WBlocked _, OError e err => if same e then Some (closing e (Some err)) else None
  | _, _ => None
  end.

(** After the attempt: [quarantine] is the answer of [QuarantineCheckedOut]. *)
Definition handleStep (w : runWorker) (err : option error) (quarantine : res unit) (s : runState) : runState :=
  match err with
  | None => s
  | Some err =>
      if IsCorruption err then
        match quarantine with
        | Ok _ => giveGone (wkEnv w) s
        | Err qe => let s := giveStuck (wkEnv w) s in if errors_Is qe ErrIDConflict then setFatal (Join err qe) s else s
        end
      else if IsStoragePressure err then giveLater (wkEnv w) s
      else setFatal err (giveStuck (wkEnv w) s)
  end.

Definition workStep (i : nat) (a : workerAction) (s : runState) : option runState :=
  w ← rsWorkers s !! i;
  match wkStage w, a with
  | WAttempt, ReleaseHeld =>
      if bool_decide (wkHeld w = "") then None
      else Some (toStage i (set_stage w (wkEnv w) "" WAttempt) (releaseKind admissionDomain (wkHeld w) s))
  | WAttempt, AcquireNext domain =>
      if bool_decide (wkHeld w = "") then
        match tryAcquire (kind_limit cfg admissionDomain) domain (rsDomains s) with
        | (true, m) => Some (toStage i (set_stage w (wkEnv w) domain WAttempt) (setSlots (rsUsers s) m s))
        | (false, m) => Some (toStage i (set_stage w (wkEnv w) "" (WBlocked domain)) (setSlots (rsUsers s) m s))
        end
      else None
  | _, Outcome o => outcomeStep i w o s
  | WCloseDomain err, CloseDomain =>
      Some (toStage i (set_stage w (wkEnv w) "" (WCloseOwner err))
              (if bool_decide (wkHeld w = "") then s else releaseKind admissionDomain (wkHeld w) s))
  | WCloseOwner err, CloseOwner => Some (toStage i (set_stage w (wkEnv w) "" (WHandle err)) (releaseKind admissionUser (wkOwner w) s))
  | WHandle err, HandleError quarantine => Some (handleStep w err quarantine (setWorkers (delete i (rsWorkers s)) s))
  | _, _ => None
  end.

(** The next stage of a wake. *)
Definition wakeStep (i : nat) (s : runState) : option runState :=
  t ← rsOwed s !! i;
  let done_ p ts := setParked p (ts ++ delete i (rsOwed s)) s in
  Some (match t with
        | WakeCheck kind key =>
            if available (kind_limit cfg kind) key (rsSlots kind s) then done_ (rsParked s) [WakeTake kind key]
            else done_ (rsParked s) []
        | WakeTake kind key =>
            match takeWaiting kind key (rsParked s) with
            | None => done_ (rsParked s) []
            | Some (w, ws) => done_ ws [WakeRequeue (w_envelope w)]
            end
        | WakeRequeue e => giveReady e (done_ (rsParked s) [])
        end).

Definition runStep (ev : runEvent) (s : runState) : option runState :=
  match ev with
  | Arrive e => Some (giveReady e s)
  | Due i =>
      e ← rsLater s !! i;
      Some (setQueue (e :: rsReady s) (delete i (rsLater s)) (rsGone s) (rsStuck s) s)
  | Cancel => Some (setCancelled s)
  | Loop c => loopStep c s
  | Work i a => workStep i a s
  | Wake i => wakeStep i s
  end.

Fixpoint runAll (evs : list runEvent) (s : runState) : option runState :=
  match evs with [] => Some s | ev :: evs => s' ← runStep ev s; runAll evs s' end.

Definition runStart (ready later : list Envelope) : runState :=
  mkRun ready later [] [] ∅ ∅ [] [] LTop [] false None.

Inductive run_reachable (ready later : list Envelope) : runState → Prop :=
| reach_start : run_reachable ready later (runStart ready later)
| reach_step s ev s' : run_reachable ready later s → runStep ev s = Some s' → run_reachable ready later s'.
End run.

(** ** Counting holders *)

Fixpoint cnt (k : string) (l : list string) : Z :=
  match l with [] => 0 | x :: l => (if decide (x = k) then 1 else 0) + cnt k l end.

Lemma cnt_app k l l' : cnt k (l ++ l') = cnt k l + cnt k l'.
Proof. induction l as [|x l IH]; cbn; [done|]. rewrite IH. lia. Qed.

Lemma cnt_nonneg k l : 0 ≤ cnt k l.
Proof. induction l; cbn; [lia|]. case_decide; lia. Qed.

#[export] Instance cnt_perm k : Proper ((≡ₚ) ==> eq) (cnt k).
Proof. intros l l' Hp. induction Hp; cbn; lia. Qed.

Definition holders (m : gmap string Z) (k : string) : Z := default 0 (m !! k).

(** [m] has exactly the non-empty keys of [l], with their numbers. *)
Definition exact (m : gmap string Z) (l : list string) : Prop :=
  slots_ok m ∧ ∀ k, k ≠ "" → holders m k = cnt k l.

Lemma exact_perm m l l' : l ≡ₚ l' → exact m l → exact m l'.
Proof. intros Hp [Ho He]. split; [done|]. intros k Hk. by rewrite <- Hp, He. Qed.

Lemma exact_empty l : (∀ k, k ∈ l → k = "") → exact ∅ l.
Proof.
  intros Hl. split; [done|]. intros k Hk. unfold holders. cbn. induction l as [|x l IH]; [done|]. cbn.
  rewrite decide_False by (rewrite (Hl x) by (by left); congruence). apply IH. intros y Hy. apply Hl. by right.
Qed.

Lemma exact_nil m : exact m [] → m = ∅.
Proof.
  intros [[He Hp] Hc]. apply map_empty. intros k. destruct (decide (k = "")) as [->|Hk]; [done|].
  specialize (Hc k Hk). unfold holders in Hc. destruct (m !! k) as [h|] eqn:Em; [|done].
  specialize (Hp k h Em). cbn in *. lia.
Qed.

Lemma acquire_holders limit key m m' k :
  tryAcquire limit key m = (true, m') → k ≠ "" →
  holders m' k = holders m k + (if decide (key = k) then 1 else 0).
Proof.
  unfold tryAcquire, holders. case_bool_decide as Hk; intros Ha Hne.
  - injection Ha as <-. rewrite decide_False by congruence. lia.
  - destruct (decide (key = k)) as [->|Hn]; destruct (m !! _) as [h|] eqn:Em; try (destruct (limit <=? h); [done|]);
      injection Ha as <-; simplify_map_eq; cbn; try lia; by rewrite ?Em.
Qed.

(** The slot of a key; the empty key needs none. *)
Definition slot_of (key : string) : list string := if decide (key = "") then [] else [key].

Lemma cnt_slot_of k key : k ≠ "" → cnt k (slot_of key) = if decide (key = k) then 1 else 0.
Proof. intros Hk. unfold slot_of. destruct (decide (key = "")) as [->|]; cbn; [by rewrite decide_False by congruence|lia]. Qed.

Lemma exact_acquire limit key m m' l : exact m l → tryAcquire limit key m = (true, m') → exact m' (slot_of key ++ l).
Proof.
  intros [Ho He] Ha. split; [by eapply (freed_acquired limit key m m')|].
  intros k Hk. rewrite (acquire_holders _ _ _ _ _ Ha Hk), He, cnt_app, cnt_slot_of by done. lia.
Qed.

Lemma freed_holders key m k :
  slots_ok m → holders (freed key m) k = if decide (key = k) then Z.max 0 (holders m k - 1) else holders m k.
Proof.
  intros [_ Hp]. unfold freed, releaseSlot, holders. destruct (m !! key) as [h|] eqn:Em; cbn [fst].
  - specialize (Hp key h Em). cbn in Hp. destruct (Z.leb_spec (h - 1) 0); destruct (decide (key = k)) as [->|Hn]; simplify_map_eq; cbn; lia.
  - destruct (decide (key = k)) as [->|Hn]; [|done]. rewrite Em. cbn. lia.
Qed.

Lemma exact_release key m l : exact m (slot_of key ++ l) → exact (freed key m) l.
Proof.
  intros [Ho He]. split; [by apply slots_ok_freed|]. intros k Hk. rewrite freed_holders, He, cnt_app, cnt_slot_of by done.
  pose proof (cnt_nonneg k l). destruct (decide (key = k)); lia.
Qed.

(** ** What threads hold *)

Definition loopHeld (kind : admissionKind) (l : loopPhase) : list string :=
  match kind, l with
  | admissionUser, (LOwner _ o | LRefused _ o _ | LBoth _ o _ | LUndoDomain _ o _ | LUndoOwner _ o) => slot_of o
  | admissionDomain, (LBoth _ _ d | LUndoDomain _ _ d) => slot_of d
  | _, _ => []
  end.

Definition workerHeld (kind : admissionKind) (w : runWorker) : list string :=
  match kind with
  | admissionUser => match wkStage w with WHandle _ => [] | _ => slot_of (wkOwner w) end
  | admissionDomain => match wkStage w with WCloseOwner _ | WHandle _ => [] | _ => slot_of (wkHeld w) end
  end.

Definition held (kind : admissionKind) (s : runState) : list string :=
  loopHeld kind (rsLoop s) ++ (rsWorkers s ≫= workerHeld kind).

Definition due (kind : admissionKind) (key : string) (s : runState) : list wakeTask :=
  match rsSlots kind s !! key with Some _ => [WakeCheck kind key] | None => [] end.

Lemma releaseKind_eq kind key s :
  releaseKind kind key s = setParked (rsParked s) (due kind key s ++ rsOwed s) (setKind kind (freed key (rsSlots kind s)) s).
Proof.
  unfold releaseKind, freed, due, releaseSlot. destruct (rsSlots kind s !! key); by destruct kind, s.
Qed.

Lemma bind_take {A} (f : runWorker → list A) ws i w : ws !! i = Some w → ws ≫= f ≡ₚ f w ++ (delete i ws ≫= f).
Proof.
  intros Hi. rewrite <- (take_drop_middle ws i w Hi) at 1. rewrite delete_take_drop, !bind_app. cbn.
  by rewrite Permutation_app_swap_app.
Qed.

Lemma bind_set {A} (f : runWorker → list A) ws i w w' :
  ws !! i = Some w → <[i := w']> ws ≫= f ≡ₚ f w' ++ (delete i ws ≫= f).
Proof.
  intros Hi. apply lookup_lt_Some in Hi as Hl. rewrite insert_take_drop by done.
  rewrite delete_take_drop, !bind_app. cbn. by rewrite Permutation_app_swap_app.
Qed.

(** ** The capacity in use is what threads hold *)

Definition exact_slots (s : runState) : Prop := ∀ kind, exact (rsSlots kind s) (held kind s).

(** A change of the threads that keeps what they hold. *)
Lemma exact_same s s' :
  exact_slots s → (∀ kind, rsSlots kind s' = rsSlots kind s) → (∀ kind, held kind s' ≡ₚ held kind s) → exact_slots s'.
Proof. intros He Hs Hh kind. rewrite Hs. by eapply exact_perm; [symmetry; apply Hh|]. Qed.

Lemma exact_taken limit key kind s s' m :
  exact_slots s → tryAcquire limit key (rsSlots kind s) = (true, m) → rsSlots kind s' = m →
  (∀ k, k ≠ kind → rsSlots k s' = rsSlots k s ∧ held k s' ≡ₚ held k s) → held kind s' ≡ₚ slot_of key ++ held kind s → exact_slots s'.
Proof.
  intros He Ht Hm Ho Hh k. destruct (decide (k = kind)) as [->|Hk].
  - rewrite Hm. eapply exact_perm; [symmetry; exact Hh|]. by eapply exact_acquire.
  - destruct (Ho k Hk) as [-> Hp]. by eapply exact_perm; [symmetry; exact Hp|].
Qed.

Lemma exact_freed key kind s s' :
  exact_slots s → rsSlots kind s' = freed key (rsSlots kind s) →
  (∀ k, k ≠ kind → rsSlots k s' = rsSlots k s ∧ held k s' ≡ₚ held k s) → held kind s ≡ₚ slot_of key ++ held kind s' → exact_slots s'.
Proof.
  intros He Hm Ho Hh k. destruct (decide (k = kind)) as [->|Hk].
  - rewrite Hm. apply exact_release. by eapply exact_perm.
  - destruct (Ho k Hk) as [-> Hp]. by eapply exact_perm; [symmetry; exact Hp|].
Qed.

(** Closes the step of a thread that changes no capacity, or that of one kind. *)
Ltac same_held El := eapply exact_same; [done|by intros []|intros []; unfold held; cbn; rewrite ?El; done].
Ltac other_held El := intros [] ?; try done; split; [done|unfold held; cbn; rewrite ?El; done].

Section invariant.
Variable cfg : attemptConfig.
Variable attemptLimit : nat.

Lemma exact_loop c s s' : exact_slots s → loopStep cfg attemptLimit c s = Some s' → exact_slots s'.
Proof.
  intros He. unfold loopStep. destruct (rsLoop s) as [| |e|e|e o|e o d|e kind key|e o d|e o d|e o|e| |r|r] eqn:El, c; try done.
  - destruct (rsFatal s); intros [= <-]; same_held El.
  - destruct (rsReady s !! i); [|done]. intros [= <-]. same_held El.
  - destruct (rsCancelled s); [|done]. intros [= <-]. same_held El.
  - destruct (rsCancelled s); [done|]. intros [= <-]. same_held El.
  - intros [= <-]. destruct (rsCancelled s); same_held El.
  - destruct (tryAcquire _ _ _) as [[] m] eqn:Et; intros [= <-].
    + eapply (exact_taken _ _ admissionUser); [done|exact Et|done|other_held El|]. unfold held. cbn. by rewrite El.
    + apply tryAcquire_false in Et as ->. same_held El.
  - destruct (tryAcquire _ _ _) as [[] m] eqn:Et; intros [= <-].
    + eapply (exact_taken _ _ admissionDomain); [done|exact Et|done|other_held El|]. unfold held. cbn. by rewrite El.
    + apply tryAcquire_false in Et as ->. same_held El.
  - intros [= <-]. rewrite releaseKind_eq. eapply (exact_freed o admissionUser); [done..|other_held El|]. unfold held. cbn. by rewrite El.
  - intros [= <-]. destruct kind; same_held El.
  - destruct (_ <? _)%nat; [|done]. intros [= <-]. same_held El.
  - destruct (rsCancelled s); [|done]. intros [= <-]. same_held El.
  - intros [= <-]. rewrite releaseKind_eq. eapply (exact_freed d admissionDomain); [done..|other_held El|]. unfold held. cbn. by rewrite El.
  - intros [= <-]. rewrite releaseKind_eq. eapply (exact_freed o admissionUser); [done..|other_held El|]. unfold held. cbn. by rewrite El.
  - intros [= <-]. same_held El.
  - intros [= <-]. same_held El.
  - destruct (_ && _); [|done]. intros [= <-]. same_held El.
Qed.

(** The worker's own part, before and after. *)
Lemma held_worker kind s s' i w w' :
  rsWorkers s !! i = Some w → rsLoop s' = rsLoop s → rsWorkers s' = <[i := w']> (rsWorkers s) →
  ∃ rest, held kind s ≡ₚ workerHeld kind w ++ rest ∧ held kind s' ≡ₚ workerHeld kind w' ++ rest.
Proof.
  intros Hi Hl Hw. exists (loopHeld kind (rsLoop s) ++ (delete i (rsWorkers s) ≫= workerHeld kind)).
  unfold held. rewrite Hl, Hw, (bind_take _ _ _ _ Hi), (bind_set _ _ _ _ w' Hi). split; apply Permutation_app_swap_app.
Qed.

Lemma exact_worker_same s s' i w w' :
  exact_slots s → rsWorkers s !! i = Some w → rsLoop s' = rsLoop s → rsWorkers s' = <[i := w']> (rsWorkers s) →
  (∀ kind, rsSlots kind s' = rsSlots kind s) → (∀ kind, workerHeld kind w' = workerHeld kind w) → exact_slots s'.
Proof.
  intros He Hi Hl Hw Hs Hh. eapply exact_same; [done|done|]. intros kind.
  destruct (held_worker kind s s' i w w' Hi Hl Hw) as (rest & -> & ->). by rewrite Hh.
Qed.

Lemma exact_worker_freed kind key s s' i w w' :
  exact_slots s → rsWorkers s !! i = Some w → rsLoop s' = rsLoop s → rsWorkers s' = <[i := w']> (rsWorkers s) →
  rsSlots kind s' = freed key (rsSlots kind s) → (∀ k, k ≠ kind → rsSlots k s' = rsSlots k s ∧ workerHeld k w' = workerHeld k w) →
  workerHeld kind w = slot_of key → workerHeld kind w' = [] → exact_slots s'.
Proof.
  intros He Hi Hl Hw Hs Ho Hh Hh'. eapply (exact_freed key kind); [done|done|..].
  - intros k Hk. destruct (Ho k Hk) as [? Hhk]. split; [done|].
    destruct (held_worker k s s' i w w' Hi Hl Hw) as (rest & -> & ->). by rewrite Hhk.
  - destruct (held_worker kind s s' i w w' Hi Hl Hw) as (rest & -> & ->). by rewrite Hh, Hh'.
Qed.

Lemma exact_worker_taken kind key limit m s s' i w w' :
  exact_slots s → rsWorkers s !! i = Some w → tryAcquire limit key (rsSlots kind s) = (true, m) →
  rsLoop s' = rsLoop s → rsWorkers s' = <[i := w']> (rsWorkers s) →
  rsSlots kind s' = m → (∀ k, k ≠ kind → rsSlots k s' = rsSlots k s ∧ workerHeld k w' = workerHeld k w) →
  workerHeld kind w = [] → workerHeld kind w' = slot_of key → exact_slots s'.
Proof.
  intros He Hi Ht Hl Hw Hs Ho Hh Hh'. eapply (exact_taken limit key kind); [done|exact Ht|done|..].
  - intros k Hk. destruct (Ho k Hk) as [? Hhk]. split; [done|].
    destruct (held_worker k s s' i w w' Hi Hl Hw) as (rest & -> & ->). by rewrite Hhk.
  - destruct (held_worker kind s s' i w w' Hi Hl Hw) as (rest & -> & ->). by rewrite Hh, Hh'.
Qed.

Ltac held_now Es := unfold workerHeld; cbn [wkStage set_stage wkHeld wkOwner]; rewrite ?Es; done.
Ltac other_worker Es := intros [] ?; [done || (split; [done|held_now Es])..].

Ltac worker_same Ei := eapply exact_worker_same; [done|exact Ei|done|done|by intros []|].

Lemma exact_outcome i w o s s' :
  exact_slots s → rsWorkers s !! i = Some w → outcomeStep i w o s = Some s' → exact_slots s'.
Proof.
  intros He Ei. unfold outcomeStep.
  destruct (wkStage w) eqn:Es, o; try done; repeat (case_match; try done); intros [= <-];
    (worker_same Ei; intros []; unfold workerHeld; cbn; by rewrite ?Es).
Qed.

Lemma exact_work i a s s' : exact_slots s → workStep cfg i a s = Some s' → exact_slots s'.
Proof.
  intros He. unfold workStep. destruct (rsWorkers s !! i) as [w|] eqn:Ei; [|done]. cbn [mbind option_bind].
  destruct a as [|domain|o| | |quarantine].
  3: { intros Ho. assert (outcomeStep i w o s = Some s') by (by destruct (wkStage w)). by eapply exact_outcome. }
  all: destruct (wkStage w) as [|d|err|err|err] eqn:Es; try done.
  - case_bool_decide; [done|]. intros [= <-]. rewrite releaseKind_eq.
    eapply (exact_worker_freed admissionDomain (wkHeld w)); [done|exact Ei|done|done|done|other_worker Es|held_now Es|held_now Es].
  - case_bool_decide as Hh; [|done]. destruct (tryAcquire _ _ _) as [[] m] eqn:Et; intros [= <-].
    + eapply (exact_worker_taken admissionDomain domain); [done|exact Ei|exact Et|done|done|done|other_worker Es| |held_now Es].
      unfold workerHeld. by rewrite Es, Hh.
    + apply tryAcquire_false in Et as ->. worker_same Ei. intros []; unfold workerHeld; cbn; by rewrite ?Es, ?Hh.
  - intros [= <-]. case_bool_decide as Hh.
    + worker_same Ei. intros []; unfold workerHeld; cbn; by rewrite ?Es, ?Hh.
    + rewrite releaseKind_eq.
      eapply (exact_worker_freed admissionDomain (wkHeld w)); [done|exact Ei|done|done|done|other_worker Es|held_now Es|held_now Es].
  - intros [= <-]. rewrite releaseKind_eq.
    eapply (exact_worker_freed admissionUser (wkOwner w)); [done|exact Ei|done|done|done|other_worker Es|held_now Es|held_now Es].
  - intros [= <-]. eapply exact_same; [done|..].
    + intros []; unfold handleStep; repeat case_match; done.
    + intros kind. assert (Hw : held kind (handleStep w err quarantine (setWorkers (delete i (rsWorkers s)) s))
        = loopHeld kind (rsLoop s) ++ (delete i (rsWorkers s) ≫= workerHeld kind)) by (unfold handleStep, held; repeat case_match; done).
      rewrite Hw. unfold held. rewrite (bind_take _ _ _ _ Ei). unfold workerHeld at 2. rewrite Es. by destruct kind.
Qed.

Lemma exact_step ev s s' : exact_slots s → runStep cfg attemptLimit ev s = Some s' → exact_slots s'.
Proof.
  intros He. destruct ev as [e|i| |c|i a|i]; cbn [runStep].
  - by intros [= <-].
  - destruct (rsLater s !! i); [|done]. by intros [= <-].
  - by intros [= <-].
  - by apply exact_loop.
  - by apply exact_work.
  - unfold wakeStep. destruct (rsOwed s !! i) as [t|]; [|done]. intros [= <-].
    eapply exact_same; [done|intros []; repeat case_match; done|intros kind; repeat case_match; done].
Qed.

(** ** What will wake a parked message *)

Definition keyOf (kind : admissionKind) (e : Envelope) : string :=
  match kind with admissionUser => deliveryOwner e | admissionDomain => nextPendingDomain e end.

Definition requeues (ts : list wakeTask) : list Envelope := omap (λ t, match t with WakeRequeue e => Some e | _ => None end) ts.

Definition loopSeek (kind : admissionKind) (l : loopPhase) : list Envelope :=
  match kind, l with
  | _, (LHolding e | LAdmit e | LGiveBack e) => [e]
  | admissionDomain, (LOwner e _ | LPark e admissionUser _) => [e]
  | _, _ => []
  end.

Definition parkedUsers (ws : list admissionWait) : list Envelope :=
  omap (λ w, match w_kind w with admissionUser => Some (w_envelope w) | admissionDomain => None end) ws.

(** The messages that are still going to ask for capacity of the kind. *)
Definition seekers (kind : admissionKind) (s : runState) : list Envelope :=
  rsReady s ++ requeues (rsOwed s) ++ loopSeek kind (rsLoop s)
  ++ match kind with admissionUser => [] | admissionDomain => parkedUsers (rsParked s) end.

Definition waits (s : runState) (kind : admissionKind) (key : string) : Prop :=
  ∃ w, w ∈ rsParked s ∧ w_kind w = kind ∧ w_key w = key.

(** Somebody holds the capacity and will release it, a wake is owed, or a message that
    will ask for it, and then hold it or find it held, is on its way. *)
Definition alive (s : runState) (kind : admissionKind) (key : string) : Prop :=
  1 ≤ holders (rsSlots kind s) key ∨ WakeCheck kind key ∈ rsOwed s ∨ WakeTake kind key ∈ rsOwed s ∨
  ∃ e, e ∈ seekers kind s ∧ keyOf kind e = key.

Definition keyed_loop (l : loopPhase) : Prop :=
  match l with
  | LPark e kind key => keyOf kind e = key ∧ key ≠ ""
  | LRefused e _ d => nextPendingDomain e = d ∧ d ≠ ""
  | _ => True
  end.

Definition keyed (s : runState) : Prop :=
  Forall (λ w, keyOf (w_kind w) (w_envelope w) = w_key w ∧ w_key w ≠ "") (rsParked s) ∧ keyed_loop (rsLoop s).

Definition wakeful (s : runState) : Prop := keyed s ∧ ∀ kind key, waits s kind key → alive s kind key.

Lemma keyed_waits s kind key : keyed s → waits s kind key → key ≠ "".
Proof. intros [Hf _] (w & Hw & _ & <-). rewrite Forall_forall in Hf. by apply Hf. Qed.

Lemma pends_next e d : nextPendingDomain e = d → d ≠ "" → pends d e = true.
Proof.
  unfold nextPendingDomain, pends. destruct (negb _ && _) eqn:Ep.
  - intros <- _. by apply andb_true_iff in Ep as [_ Ep].
  - destruct (List.find _ _) as [r|] eqn:Ef; [|by intros <-]. intros <- _. apply List.find_some in Ef as [Hr Hp].
    apply existsb_exists. exists r. split; [done|]. by rewrite Hp, bool_decide_true.
Qed.

Lemma next_preferred e d : pends d e = true → d ≠ "" → nextPendingDomain (set_PreferredDomain d e) = d.
Proof.
  intros Hp Hd. unfold nextPendingDomain. cbn [PreferredDomain set_PreferredDomain Recipients].
  unfold pends in Hp. rewrite Hp. unfold is_empty. by rewrite bool_decide_false.
Qed.

Lemma alive_move s s' kind key :
  holders (rsSlots kind s) key ≤ holders (rsSlots kind s') key ∨ WakeCheck kind key ∈ rsOwed s' →
  (∀ t, t ∈ rsOwed s → t = WakeCheck kind key ∨ t = WakeTake kind key → t ∈ rsOwed s') →
  (∀ e, e ∈ seekers kind s → keyOf kind e = key → e ∈ seekers kind s' ∨ 1 ≤ holders (rsSlots kind s') key) →
  alive s kind key → alive s' kind key.
Proof.
  intros Hh Ho Hs [Ha|[Ha|[Ha|(e & Ha & Hk)]]]; unfold alive.
  - destruct Hh; [left; lia|auto].
  - right; left. auto.
  - do 2 right; left. auto.
  - destruct (Hs e Ha Hk); [|by left]. do 3 right. eauto.
Qed.

Lemma tryAcquire_holders limit key m ok m' :
  1 ≤ limit → tryAcquire limit key m = (ok, m') → key ≠ "" → slots_ok m →
  1 ≤ holders m' key ∧ ∀ k, holders m k ≤ holders m' k.
Proof.
  intros Hl Ht Hk [_ Hp]. destruct ok.
  - assert (Ha : ∀ k, k ≠ "" → holders m' k = holders m k + (if decide (key = k) then 1 else 0)) by (intros; by eapply acquire_holders).
    assert (Hn : ∀ k, 0 ≤ holders m k).
    { intros k. unfold holders. destruct (m !! k) as [h|] eqn:E; cbn; [|lia]. specialize (Hp k h E). cbn in Hp. lia. }
    split; [rewrite Ha, decide_True by done; specialize (Hn key); lia|].
    intros k. destruct (decide (k = "")) as [->|]; [|rewrite Ha by done; case_decide; lia].
    revert Ht. unfold tryAcquire, holders. rewrite bool_decide_false by done.
    destruct (m !! key) as [h|]; [destruct (limit <=? h); [done|]|]; intros [= <-]; by rewrite lookup_insert_ne.
  - revert Ht. unfold tryAcquire. rewrite bool_decide_false by done.
    destruct (m !! key) as [h|] eqn:E; [|done]. destruct (Z.leb_spec limit h); [|done]. intros [= <-].
    split; [|lia]. unfold holders. rewrite E. cbn. lia.
Qed.

Lemma wakeful_quiet s s' :
  wakeful s → keyed s' → (∀ kind key, waits s' kind key → waits s kind key) →
  (∀ kind, rsSlots kind s' = rsSlots kind s) → (∀ t, t ∈ rsOwed s → t ∈ rsOwed s') →
  (∀ kind e, e ∈ seekers kind s → e ∈ seekers kind s') → wakeful s'.
Proof.
  intros [_ Hw] Hk Hp Hs Ho He. split; [done|]. intros kind key Hwait.
  apply (alive_move s); [left; by rewrite Hs|auto|auto|auto].
Qed.

Lemma due_covers kind key s : slots_ok (rsSlots kind s) →
  ∀ k, holders (rsSlots kind s) k ≤ holders (freed key (rsSlots kind s)) k ∨ WakeCheck kind k ∈ due kind key s.
Proof.
  intros Hok k. rewrite freed_holders by done. destruct (decide (key = k)) as [->|]; [|left; lia].
  unfold due. destruct (rsSlots kind s !! k) eqn:E; [right; by left|left]. unfold holders. rewrite E. cbn. lia.
Qed.

Lemma wakeful_release kind key s s' :
  wakeful s → slots_ok (rsSlots kind s) → keyed s' → rsParked s' = rsParked s →
  rsSlots kind s' = freed key (rsSlots kind s) → (∀ k, k ≠ kind → rsSlots k s' = rsSlots k s) →
  rsOwed s' = due kind key s ++ rsOwed s → (∀ k e, e ∈ seekers k s → e ∈ seekers k s') → wakeful s'.
Proof.
  intros [_ Hw] Hok Hk Hp Hs Hs' Ho He. split; [done|]. intros kd ky Hwait.
  assert (waits s kd ky) by (unfold waits in *; by rewrite Hp in Hwait).
  apply (alive_move s); [|rewrite Ho; set_solver|auto|auto].
  destruct (decide (kd = kind)) as [->|Hn].
  - rewrite Hs, Ho. destruct (due_covers kind key s Hok ky); [by left|right; set_solver].
  - left. by rewrite Hs'.
Qed.

(** A message asks for capacity: from then on the key is held. *)
Lemma wakeful_ask kind e key limit ok m s s' :
  wakeful s → exact_slots s → 1 ≤ limit → key = keyOf kind e →
  tryAcquire limit key (rsSlots kind s) = (ok, m) → keyed s' → rsParked s' = rsParked s →
  rsSlots kind s' = m → (∀ k, k ≠ kind → rsSlots k s' = rsSlots k s) → rsOwed s' = rsOwed s →
  (∀ k x, x ∈ seekers k s → x ∈ seekers k s' ∨ (k = kind ∧ x = e)) → wakeful s'.
Proof.
  intros [Hk Hw] Hex Hl -> Ht Hk' Hp Hs Hs' Ho He. split; [done|]. intros kd ky Hwait.
  assert (Hws : waits s kd ky) by (unfold waits in *; by rewrite Hp in Hwait).
  pose proof (keyed_waits s kd ky Hk Hws) as Hne.
  assert (Hm : (∀ k, holders (rsSlots kind s) k ≤ holders m k) ∧ (keyOf kind e ≠ "" → 1 ≤ holders m (keyOf kind e))).
  { destruct (decide (keyOf kind e = "")) as [E|E].
    - rewrite E in Ht. unfold tryAcquire in Ht. rewrite bool_decide_true in Ht by done. injection Ht as _ <-. split; [done|congruence].
    - destruct (tryAcquire_holders _ _ _ _ _ Hl Ht E) as [? ?]; [apply Hex|]. auto. }
  apply (alive_move s); [|by rewrite Ho| |auto].
  - left. destruct (decide (kd = kind)) as [->|Hn]; [rewrite Hs; apply Hm|by rewrite Hs'].
  - intros x Hx Hkx. destruct (He kd x Hx) as [|[-> ->]]; [by left|right]. rewrite Hs, <- Hkx. apply Hm. by rewrite Hkx.
Qed.

Lemma delete_split {A} (l : list A) i x y : l !! i = Some x → y ∈ l → y = x ∨ y ∈ delete i l.
Proof.
  intros Hi Hy. rewrite <- (take_drop_middle l i x Hi) in Hy. rewrite delete_take_drop. set_solver.
Qed.

Lemma wakeful_park e kind key s l :
  wakeful s → key ≠ "" → match kind with admissionUser => deliveryOwner e = key | admissionDomain => pends key e = true end → keyed_loop l →
  (∀ k x, x ∈ loopSeek k (rsLoop s) → x ∈ loopSeek k l ∨ (k = admissionDomain ∧ x = e ∧ kind = admissionUser)) →
  wakeful (setLoop l (park e kind key s)).
Proof.
  intros [[Hk Hl'] Hw] Hne Hp Hl Hs.
  assert (Hkey : keyOf kind (match kind with admissionDomain => set_PreferredDomain key e | admissionUser => e end) = key).
  { destruct kind; [done|]. by apply next_preferred. }
  split; [split; [|done]|].
  - cbn. apply Forall_app. split; [done|]. apply Forall_singleton. done.
  - intros kd ky (w & Hin & Hkd & Hky). cbn in Hin. apply elem_of_app in Hin as [Hin|Hin].
    + apply (alive_move s); [by left; destruct kd|cbn; set_solver| |apply Hw; by exists w].
      intros x Hx _. left. unfold seekers in *. cbn. specialize (Hs kd x). unfold parkedUsers in *. rewrite omap_app.
      rewrite !elem_of_app in Hx. rewrite !elem_of_app.
      destruct Hx as [Hx|[Hx|[Hx|Hx]]]; [by left|by right; left| |].
      * destruct (Hs Hx) as [|(-> & -> & ->)]; [by do 2 right; left|]. do 3 right. rewrite elem_of_app. right. cbn. by left.
      * do 3 right. destruct kd; [done|]. rewrite elem_of_app. by left.
    + apply list_elem_of_singleton in Hin as ->. cbn in Hkd, Hky. subst. right. left. cbn. by left.
Qed.

(** Membership in the seekers of a changed state. *)
Ltac seek El :=
  intros ?kind ?x; unfold seekers, loopSeek; cbn; rewrite ?El; rewrite ?elem_of_app; try (destruct kind); set_solver.

Ltac quiet El := eapply wakeful_quiet; [eassumption| |by intros ?kind ?key (w & ? & ? & ?); exists w|by intros []|done|seek El].

Lemma wakeful_loop c s s' :
  exact_slots s → wakeful s → loopStep cfg attemptLimit c s = Some s' → wakeful s'.
Proof.
  intros Hex Hw. pose proof Hw as [[Hk Hl] _]. unfold loopStep.
  destruct (rsLoop s) as [| |e|e|e o|e o d|e kind key|e o d|e o d|e o|e| |r|r] eqn:El, c; try done.
  - destruct (rsFatal s); intros [= <-]; quiet El; by split.
  - destruct (rsReady s !! i) as [e|] eqn:Ei; [|done]. intros [= <-].
    eapply wakeful_quiet; [eassumption|by split|by intros ?kind ?key (w & ? & ? & ?); exists w|by intros []|done|].
    intros kind x. unfold seekers. cbn. rewrite El, !elem_of_app.
    intros [Hx|[Hx|[Hx|Hx]]]; [destruct (delete_split _ _ _ _ Ei Hx) as [->|]|..]; destruct kind; cbn; set_solver.
  - destruct (rsCancelled s); [|done]. intros [= <-]. quiet El; by split.
  - destruct (rsCancelled s); [done|]. intros [= <-]. quiet El; by split.
  - intros [= <-]. destruct (rsCancelled s); quiet El; by split.
  - destruct (tryAcquire _ _ _) as [ok m] eqn:Et. intros Hs'.
    assert (Hne : ok = false → deliveryOwner e ≠ "").
    { intros -> E. rewrite E in Et. unfold tryAcquire in Et. by rewrite bool_decide_true in Et. }
    eapply (wakeful_ask admissionUser e); [done|done|apply (kind_limit_pos cfg admissionUser)|done|exact Et|..];
      destruct ok; injection Hs' as <-; try done; try (by split; cbn; auto); try (by intros [] ?); seek El.
  - destruct (tryAcquire _ _ _) as [ok m] eqn:Et. intros Hs'.
    assert (Hne : ok = false → nextPendingDomain e ≠ "").
    { intros -> E. rewrite E in Et. unfold tryAcquire in Et. by rewrite bool_decide_true in Et. }
    eapply (wakeful_ask admissionDomain e); [done|done|apply (kind_limit_pos cfg admissionDomain)|done|exact Et|..];
      destruct ok; injection Hs' as <-; try done; try (by split; cbn; auto); try (by intros [] ?); seek El.
  - intros [= <-]. rewrite releaseKind_eq. cbn in Hl.
    eapply (wakeful_release admissionUser o); [done|apply Hex|by split|done|done|by intros [] ?|done|].
    intros k x. unfold seekers. cbn. rewrite El. unfold requeues. rewrite omap_app, !elem_of_app. destruct k; cbn; set_solver.
  - intros [= <-]. destruct Hl as [Hkey Hne]. apply wakeful_park; [done|done| |done|].
    + destruct kind; [done|]. by apply pends_next.
    + intros k x. rewrite El. destruct k, kind; cbn; set_solver.
  - destruct (_ <? _)%nat; [|done]. intros [= <-]. quiet El; by split.
  - destruct (rsCancelled s); [|done]. intros [= <-]. quiet El; by split.
  - intros [= <-]. rewrite releaseKind_eq.
    eapply (wakeful_release admissionDomain d); [done|apply Hex|by split|done|done|by intros [] ?|done|].
    intros k x. unfold seekers. cbn. rewrite El. unfold requeues. rewrite omap_app, !elem_of_app. destruct k; cbn; set_solver.
  - intros [= <-]. rewrite releaseKind_eq.
    eapply (wakeful_release admissionUser o); [done|apply Hex|by split|done|done|by intros [] ?|done|].
    intros k x. unfold seekers. cbn. rewrite El. unfold requeues. rewrite omap_app, !elem_of_app. destruct k; cbn; set_solver.
  - intros [= <-]. quiet El; by split.
  - intros [= <-]. quiet El; by split.
  - destruct (_ && _); [|done]. intros [= <-]. split; [by split; [constructor|]|]. intros kind key (w & Hin & _). by apply elem_of_nil in Hin.
Qed.

(** A worker's stages hold no parked or seeking message. *)
Lemma wakeful_workers s s' :
  wakeful s → rsParked s' = rsParked s → rsLoop s' = rsLoop s → (∀ kind, rsSlots kind s' = rsSlots kind s) →
  rsOwed s' = rsOwed s → (∀ e, e ∈ rsReady s → e ∈ rsReady s') → wakeful s'.
Proof.
  intros Hw Hp Hl Hs Ho Hr. pose proof Hw as [Hk _].
  eapply wakeful_quiet; [done|by unfold keyed; rewrite Hp, Hl|by unfold waits; rewrite Hp|done|by rewrite Ho|].
  intros kind e. unfold seekers. rewrite Hp, Hl, Ho, !elem_of_app. destruct kind; set_solver.
Qed.

Lemma wakeful_outcome i w o s s' : wakeful s → outcomeStep i w o s = Some s' → wakeful s'.
Proof.
  intros Hw. unfold outcomeStep. destruct (wkStage w) eqn:Es, o; try done; repeat (case_match; try done); intros [= <-];
    try (eapply wakeful_workers; [exact Hw|done|done|by intros []|done|cbn; set_solver]).
  apply andb_true_iff in H as [[_ Hp]%andb_true_iff Hd%negb_true_iff%bool_decide_eq_false].
  change (wakeful (setLoop (rsLoop s) (park e admissionDomain domain (toStage i (set_stage w e (wkHeld w) (WCloseDomain None)) s)))).
  apply wakeful_park; [|done|done|apply Hw|by left].
  eapply wakeful_workers; [exact Hw|done|done|by intros []|done|done].
Qed.

Lemma wakeful_work i a s s' : exact_slots s → wakeful s → workStep cfg i a s = Some s' → wakeful s'.
Proof.
  intros Hex Hw. unfold workStep. destruct (rsWorkers s !! i) as [w|] eqn:Ei; [|done]. cbn [mbind option_bind].
  assert (Hrel : ∀ kind key st, wakeful (toStage i st (releaseKind kind key s))).
  { intros kind key st. rewrite releaseKind_eq. pose proof Hw as [Hk _].
    eapply (wakeful_release kind key); [exact Hw|apply Hex|by destruct kind|by destruct kind|by destruct kind| |by destruct kind|].
    - by destruct kind; intros [] ?.
    - intros k x. unfold seekers. destruct kind; cbn; unfold requeues; rewrite omap_app, !elem_of_app; destruct k; cbn; set_solver. }
  destruct a as [|domain|o| | |quarantine].
  3: { intros Ho. assert (outcomeStep i w o s = Some s') by (by destruct (wkStage w)). by eapply wakeful_outcome. }
  all: destruct (wkStage w) as [|d|err|err|err] eqn:Es; try done.
  - case_bool_decide; [done|]. intros [= <-]. apply Hrel.
  - case_bool_decide as Hh; [|done]. destruct (tryAcquire _ _ _) as [[] m] eqn:Et; intros [= <-].
    + pose proof Hw as [Hk Ha]. split; [done|]. intros kind key Hwait. pose proof (keyed_waits s kind key Hk Hwait) as Hne.
      apply (alive_move s); [|done|by left|by apply Ha]. left. destruct kind; [done|]. cbn.
      rewrite (acquire_holders _ _ _ _ _ Et Hne). case_decide; lia.
    + apply tryAcquire_false in Et as ->. eapply wakeful_workers; [exact Hw|done|done|by intros []|done|done].
  - intros [= <-]. case_bool_decide as Hh; [|apply Hrel]. eapply wakeful_workers; [exact Hw|done|done|by intros []|done|done].
  - intros [= <-]. apply Hrel.
  - intros [= <-]. unfold handleStep. repeat case_match; (eapply wakeful_workers; [exact Hw|done|done|by intros []|done|done]).
Qed.

Lemma takeWaiting_split kind key ws w ws' :
  takeWaiting kind key ws = Some (w, ws') → w_kind w = kind ∧ w_key w = key ∧ ws ≡ₚ w :: ws'.
Proof.
  revert w ws'. induction ws as [|x ws IH]; intros w ws'; [done|]. cbn [takeWaiting].
  destruct (bool_decide (w_kind x = kind) && bool_decide (w_key x = key)) eqn:E.
  - apply andb_true_iff in E as [?%bool_decide_eq_true ?%bool_decide_eq_true]. by intros [= <- <-].
  - destruct (takeWaiting kind key ws) as [[y ys]|]; [|done]. cbn. intros [= <- <-].
    destruct (IH y ys eq_refl) as (? & ? & Hp). split_and!; [done..|]. rewrite Hp. constructor.
Qed.

Lemma takeWaiting_none kind key ws w : takeWaiting kind key ws = None → w ∈ ws → w_kind w = kind → w_key w = key → False.
Proof.
  induction ws as [|x ws IH]; intros Ht Hin Hk Hy; [by apply elem_of_nil in Hin|]. cbn [takeWaiting] in Ht.
  destruct (bool_decide (w_kind x = kind) && bool_decide (w_key x = key)) eqn:E; [done|].
  apply elem_of_cons in Hin as [->|Hin].
  - by rewrite !bool_decide_true in E.
  - destruct (takeWaiting kind key ws); [done|]. auto.
Qed.

(** The end of one owed task touches only its own key. *)
Lemma wakeful_drop i t s s' :
  wakeful s → rsOwed s !! i = Some t → keyed s' → (∀ kind key, waits s' kind key → waits s kind key) →
  (∀ k, rsSlots k s' = rsSlots k s) → (∀ x, x ∈ delete i (rsOwed s) → x ∈ rsOwed s') →
  (∀ k e, e ∈ seekers k s → e ∈ seekers k s') →
  (∀ kind key, t = WakeCheck kind key ∨ t = WakeTake kind key → waits s' kind key → alive s' kind key) → wakeful s'.
Proof.
  intros [_ Hw] Hi Hk Hp Hs Ho He Hown. split; [done|]. intros kind key Hwait.
  destruct (Hw kind key (Hp _ _ Hwait)) as [Ha|[Ha|[Ha|(e & Ha & Hke)]]].
  - left. by rewrite Hs.
  - destruct (delete_split _ _ _ _ Hi Ha); [auto|]. right; left. auto.
  - destruct (delete_split _ _ _ _ Hi Ha); [auto|]. do 2 right; left. auto.
  - do 3 right. eauto.
Qed.

Lemma requeues_delete i t ts e : ts !! i = Some t → e ∈ requeues ts → t = WakeRequeue e ∨ e ∈ requeues (delete i ts).
Proof.
  intros Hi. unfold requeues. rewrite !list_elem_of_omap. intros (x & Hx & Hm).
  destruct (delete_split _ _ _ _ Hi Hx) as [<-|Hd]; [left|right; eauto]. by destruct x; simplify_eq.
Qed.

Lemma available_held limit key m : 1 ≤ limit → available limit key m = false → 1 ≤ holders m key.
Proof.
  intros Hl. unfold available, holders. destruct (bool_decide (key = "")); [done|]. cbn.
  destruct (m !! key) as [h|]; [|done]. cbn. destruct (Z.ltb_spec h limit); [done|lia].
Qed.

Lemma seekers_owed i t ts p s k e :
  rsOwed s !! i = Some t → (∀ x, t = WakeRequeue x → x ∈ requeues ts) →
  (∀ x, x ∈ parkedUsers (rsParked s) → x ∈ parkedUsers p ∨ x ∈ requeues ts) →
  e ∈ seekers k s → e ∈ seekers k (setParked p (ts ++ delete i (rsOwed s)) s).
Proof.
  intros Hi Hq Hp. unfold seekers, setParked. cbn [rsReady rsOwed rsLoop rsParked].
  assert (Happ : requeues (ts ++ delete i (rsOwed s)) = requeues ts ++ requeues (delete i (rsOwed s))) by apply omap_app. rewrite Happ.
  rewrite !elem_of_app. intros [He|[He|[He|He]]]; [by left| |by do 2 right; left|].
  - destruct (requeues_delete _ _ _ _ Hi He); [right; left; left; auto|right; left; by right].
  - destruct k; [by apply elem_of_nil in He|]. destruct (Hp e He); [by do 3 right|right; left; by left].
Qed.

Lemma wakeful_wake i s s' : wakeful s → wakeStep cfg i s = Some s' → wakeful s'.
Proof.
  intros Hw. pose proof Hw as [[Hk Hl] Ha]. unfold wakeStep. destruct (rsOwed s !! i) as [t|] eqn:Ei; [|done]. cbn [mbind option_bind].
  destruct t as [kind key|kind key|e].
  - destruct (available _ _ _) eqn:Ev; intros [= <-].
    + eapply wakeful_drop; [exact Hw|exact Ei|done|done|by intros []|cbn; set_solver| |].
      * intros k e. apply (seekers_owed i _ [WakeTake kind key] _ _ _ _ Ei); [done|by left].
      * intros kd ky [[= <- <-]|] _; [|done]. do 2 right. left. cbn. by left.
    + eapply wakeful_drop; [exact Hw|exact Ei|done|done|by intros []|cbn; set_solver| |].
      * intros k e. apply (seekers_owed i _ [] _ _ _ _ Ei); [done|by left].
      * intros kd ky [[= <- <-]|] _; [|done].
        left. eapply (available_held (kind_limit cfg kind)); [apply kind_limit_pos|]. by destruct kind.
  - destruct (takeWaiting kind key (rsParked s)) as [[w ws]|] eqn:Et; intros [= <-].
    + apply takeWaiting_split in Et as (<- & <- & Hp). rewrite Hp, Forall_cons in Hk. destruct Hk as [[Hkey _] Hk].
      eapply wakeful_drop; [exact Hw|exact Ei|by split| |by intros []|cbn; set_solver| |].
      * intros kd ky (x & Hx & ? & ?). exists x. cbn in Hx. rewrite Hp. split; [by right|done].
      * intros k e. apply (seekers_owed i _ [WakeRequeue (w_envelope w)] _ _ _ _ Ei); [done|]. intros x. unfold parkedUsers. rewrite !list_elem_of_omap.
        intros (y & Hy & Hm). rewrite Hp in Hy. apply elem_of_cons in Hy as [->|Hy]; [right|left; eauto].
        destruct (w_kind w); [|done]. injection Hm as ->. cbn. by left.
      * intros kd ky [|[= <- <-]] _; [done|]. do 3 right. exists (w_envelope w). split; [|done].
        unfold seekers. cbn. rewrite !elem_of_app, !elem_of_cons. auto.
    + eapply wakeful_drop; [exact Hw|exact Ei|done|done|by intros []|done| |].
      * intros k e. apply (seekers_owed i _ [] _ _ _ _ Ei); [done|by left].
      * intros kd ky [|[= <- <-]] (w & Hin & Hkd & Hky); [done|]. exfalso. by eapply takeWaiting_none.
  - intros [= <-]. eapply wakeful_drop; [exact Hw|exact Ei|done|done|by intros []|done| |by intros kd ky [|]].
    intros k x. unfold seekers, giveReady, setQueue, setParked. cbn [rsReady rsOwed rsLoop rsParked app].
    rewrite elem_of_cons, !elem_of_app. intros [Hx|[Hx|[Hx|Hx]]]; [auto..| |auto|auto].
    destruct (requeues_delete _ _ _ _ Ei Hx) as [[= ->]|]; auto.
Qed.

Lemma wakeful_step ev s s' : exact_slots s → wakeful s → runStep cfg attemptLimit ev s = Some s' → wakeful s'.
Proof.
  intros Hex Hw. destruct ev as [e|i| |c|i a|i]; cbn [runStep].
  - intros [= <-]. eapply wakeful_workers; [exact Hw|done|done|by intros []|done|cbn; set_solver].
  - destruct (rsLater s !! i); [|done]. intros [= <-]. eapply wakeful_workers; [exact Hw|done|done|by intros []|done|cbn; set_solver].
  - intros [= <-]. eapply wakeful_workers; [exact Hw|done|done|by intros []|done|done].
  - by apply wakeful_loop.
  - by apply wakeful_work.
  - by apply wakeful_wake.
Qed.

(** ** Limits *)

Definition step_slots (s s' : runState) : Prop :=
  ∀ kind, rsSlots kind s' = rsSlots kind s ∨
    (∃ key ok, tryAcquire (kind_limit cfg kind) key (rsSlots kind s) = (ok, rsSlots kind s')) ∨
    ∃ key, rsSlots kind s' = freed key (rsSlots kind s).

Lemma runStep_slots ev s s' : runStep cfg attemptLimit ev s = Some s' → step_slots s s'.
Proof.
  destruct ev as [e|i| |c|i a|i]; cbn [runStep].
  - intros [= <-] []; by left.
  - destruct (rsLater s !! i); [|done]. intros [= <-] []; by left.
  - intros [= <-] []; by left.
  - unfold loopStep. destruct (rsLoop s), c; try done; try rewrite releaseKind_eq; unfold mbind, option_bind.
    all: try (destruct (tryAcquire _ _ _) as [ok m] eqn:Et; destruct ok; intros [= <-] []; eauto; fail).
    all: try (intros [= <-] []; cbn; eauto; fail).
    all: repeat (case_match; try done); intros [= <-] []; by left.
  - unfold workStep. destruct (rsWorkers s !! i) as [w|]; [|done]. cbn [mbind option_bind].
    destruct a as [|domain|o| | |quarantine].
    3: { intros Ho. assert (Hs : outcomeStep i w o s = Some s') by (by destruct (wkStage w)). revert Hs. unfold outcomeStep.
         destruct (wkStage w), o; try done; repeat (case_match; try done); intros [= <-] []; by left. }
    all: destruct (wkStage w); try done; try rewrite !releaseKind_eq.
    + case_match; [done|]. intros [= <-] []; cbn; eauto.
    + case_match; [|done]. destruct (tryAcquire _ _ _) as [ok m] eqn:Et; destruct ok; intros [= <-] []; eauto.
    + intros [= <-] []; case_match; cbn; eauto.
    + intros [= <-] []; cbn; eauto.
    + intros [= <-]. intros kind. left. unfold handleStep. destruct kind; repeat case_match; done.
  - unfold wakeStep. destruct (rsOwed s !! i) as [t|]; [|done]. intros [= <-] kind. left. destruct kind; repeat case_match; done.
Qed.

Definition limited (s : runState) : Prop := ∀ kind, map_Forall (λ _ h, h ≤ kind_limit cfg kind) (rsSlots kind s).

Lemma freed_limit limit key m : map_Forall (λ _ h, h ≤ limit) m → map_Forall (λ _ h, h ≤ limit) (freed key m).
Proof.
  intros Hm. unfold freed, releaseSlot. destruct (m !! key) as [h|] eqn:E; [|done]. cbn [fst].
  destruct (h - 1 <=? 0); [by apply map_Forall_delete|]. apply map_Forall_insert_2; [|done]. specialize (Hm key h E). cbn in Hm. lia.
Qed.

Lemma limited_step ev s s' : limited s → runStep cfg attemptLimit ev s = Some s' → limited s'.
Proof.
  intros Hl Hs kind. destruct (runStep_slots _ _ _ Hs kind) as [->|[(key & ok & Ht)|[key ->]]]; [apply Hl| |by apply freed_limit].
  eapply tryAcquire_limit; [apply kind_limit_pos|apply Hl|exact Ht].
Qed.

Lemma workers_step ev s s' :
  (length (rsWorkers s) ≤ attemptLimit)%nat → runStep cfg attemptLimit ev s = Some s' → (length (rsWorkers s') ≤ attemptLimit)%nat.
Proof.
  intros Hl. destruct ev as [e|i| |c|i a|i]; cbn [runStep].
  - by intros [= <-].
  - destruct (rsLater s !! i); [|done]. by intros [= <-].
  - by intros [= <-].
  - unfold loopStep. destruct (rsLoop s), c; try done; try rewrite releaseKind_eq; unfold mbind, option_bind; repeat (case_match; try done); intros [= <-]; cbn; try done.
    apply Nat.ltb_lt. done.
  - unfold workStep. destruct (rsWorkers s !! i) as [w|] eqn:Ei; [|done]. cbn [mbind option_bind].
    destruct a as [|domain|o| | |quarantine].
    3: { intros Ho. assert (Hs : outcomeStep i w o s = Some s') by (by destruct (wkStage w)). revert Hs. unfold outcomeStep.
         destruct (wkStage w), o; try done; repeat (case_match; try done); intros [= <-]; cbn; by rewrite length_insert. }
    all: destruct (wkStage w); try done; try rewrite !releaseKind_eq; repeat (case_match; try done); intros [= <-]; cbn; rewrite ?length_insert; try done.
    assert (length (delete i (rsWorkers s)) ≤ length (rsWorkers s))%nat by (rewrite length_delete by (by eexists); lia).
    unfold handleStep. repeat case_match; cbn; lia.
  - unfold wakeStep. destruct (rsOwed s !! i) as [t|]; [|done]. intros [= <-]. repeat case_match; done.
Qed.

(** ** Every message is in one place *)

Definition loopMessage (l : loopPhase) : list Envelope :=
  match l with
  | LHolding e | LAdmit e | LOwner e _ | LRefused e _ _ | LPark e _ _ | LBoth e _ _ | LUndoDomain e _ _ | LUndoOwner e _ | LGiveBack e => [e]
  | LTop | LNext | LLast | LReturning _ | LReturned _ => []
  end.

(** A worker has its message until it has handed it over. *)
Definition workerMessage (w : runWorker) : list Envelope :=
  match wkStage w with
  | WCloseDomain None | WCloseOwner None | WHandle None => []
  | _ => [wkEnv w]
  end.

Definition everywhere (s : runState) : list Envelope :=
  rsReady s ++ rsLater s ++ rsGone s ++ rsStuck s ++ requeues (rsOwed s) ++ loopMessage (rsLoop s)
  ++ (w_envelope <$> rsParked s) ++ (rsWorkers s ≫= workerMessage).

Definition times (id : string) (l : list Envelope) : Z := cnt id (ID <$> l).

Lemma times_app id l l' : times id (l ++ l') = times id l + times id l'.
Proof. unfold times. by rewrite fmap_app, cnt_app. Qed.

Lemma times_cons id e l : times id (e :: l) = (if decide (ID e = id) then 1 else 0) + times id l.
Proof. done. Qed.

Lemma times_delete id i e l : l !! i = Some e → times id (delete i l) = times id l - (if decide (ID e = id) then 1 else 0).
Proof.
  intros Hi. rewrite <- (take_drop_middle l i e Hi) at 2. rewrite delete_take_drop, !times_app, times_cons. lia.
Qed.

Lemma times_perm id l l' : l ≡ₚ l' → times id l = times id l'.
Proof. intros Hp. unfold times. by rewrite Hp. Qed.

Definition total (id : string) (s : runState) : Z :=
  times id (rsReady s) + times id (rsLater s) + times id (rsGone s) + times id (rsStuck s) + times id (requeues (rsOwed s))
  + times id (loopMessage (rsLoop s)) + times id (w_envelope <$> rsParked s) + times id (rsWorkers s ≫= workerMessage).

Lemma total_everywhere id s : times id (everywhere s) = total id s.
Proof. unfold everywhere, total. rewrite !times_app. lia. Qed.

Definition arrival (id : string) (ev : runEvent) : Z :=
  match ev with Arrive e => if decide (ID e = id) then 1 else 0 | _ => 0 end.

Lemma requeues_due kind key s ts : requeues (due kind key s ++ ts) = requeues ts.
Proof. unfold due. by destruct (rsSlots kind s !! key). Qed.

Lemma requeues_check kind key ts : requeues (WakeCheck kind key :: ts) = requeues ts.
Proof. done. Qed.

Lemma ID_preferred d e : ID (set_PreferredDomain d e) = ID e.
Proof. done. Qed.

Lemma times_nil id : times id [] = 0.
Proof. done. Qed.

(** The places of a changed state, counted. *)
Ltac tally :=
  unfold total, park, toStage, set_stage, giveReady, giveLater, giveGone, giveStuck, setFatal, setKind;
  unfold setQueue, setSlots, setParked, setLoop, setWorkers, setCancelled;
  cbn [rsReady rsLater rsGone rsStuck rsUsers rsDomains rsParked rsOwed rsLoop rsWorkers loopMessage];
  rewrite ?requeues_due, ?fmap_app, ?times_app; cbn [fmap list_fmap w_envelope]; rewrite ?requeues_check, ?times_cons, ?times_nil, ?ID_preferred.

Lemma total_loop id c s s' : loopStep cfg attemptLimit c s = Some s' → total id s' = total id s.
Proof.
  unfold loopStep. destruct (rsLoop s) as [| |e|e|e o|e o d|e kind key|e o d|e o d|e o|e| |r|r] eqn:El, c; try done;
    try rewrite releaseKind_eq; unfold mbind, option_bind.
  all: try (destruct (tryAcquire _ _ _) as [[] m]; intros [= <-]; tally; rewrite ?El; tally; lia).
  all: try (intros [= <-]; tally; rewrite El; tally; lia).
  - destruct (rsFatal s); intros [= <-]; tally; rewrite El; tally; lia.
  - destruct (rsReady s !! i) as [e|] eqn:Ei; [|done]. intros [= <-]. tally. rewrite El, (times_delete id _ _ _ Ei). tally. lia.
  - destruct (rsCancelled s); [|done]. intros [= <-]. tally. rewrite El. tally. lia.
  - destruct (rsCancelled s); [done|]. intros [= <-]. tally. rewrite El. tally. lia.
  - intros [= <-]. destruct (rsCancelled s); tally; rewrite El; tally; lia.
  - intros [= <-]. destruct kind; tally; rewrite El; tally; lia.
  - destruct (_ <? _)%nat; [|done]. intros [= <-]. tally. rewrite El. tally. unfold mbind, list_bind. cbn [list_bind]. fold (mbind (M := list) workerMessage).
    rewrite times_app. unfold workerMessage at 1. tally. cbn [wkStage wkEnv]. tally. lia.
  - destruct (rsCancelled s); [|done]. intros [= <-]. tally. rewrite El. tally. lia.
  - destruct (bool_decide _ && _) eqn:Ew; [|done]. apply andb_true_iff in Ew as [_ Ho%Nat.eqb_eq%length_zero_iff_nil].
    intros [= <-]. tally. rewrite El, Ho. tally. lia.
Qed.

Lemma times_workers id ws i w w' :
  ws !! i = Some w →
  times id (<[i := w']> ws ≫= workerMessage) = times id (ws ≫= workerMessage) - times id (workerMessage w) + times id (workerMessage w').
Proof.
  intros Hi. rewrite (times_perm id _ _ (bind_take workerMessage ws i w Hi)), (times_perm id _ _ (bind_set workerMessage ws i w w' Hi)), !times_app. lia.
Qed.

Lemma times_handled id ws i w :
  ws !! i = Some w → times id (delete i ws ≫= workerMessage) = times id (ws ≫= workerMessage) - times id (workerMessage w).
Proof. intros Hi. rewrite (times_perm id _ _ (bind_take workerMessage ws i w Hi)), !times_app. lia. Qed.

Ltac message Es := unfold workerMessage; cbn [wkStage wkEnv]; rewrite ?Es; rewrite ?times_cons, ?times_nil.

Lemma total_outcome id i w o s s' :
  rsWorkers s !! i = Some w → outcomeStep i w o s = Some s' → total id s' = total id s.
Proof.
  intros Ei. unfold outcomeStep. destruct (wkStage w) eqn:Es, o; try done; cbv zeta;
    repeat match goal with |- context [if ?b then _ else _] => destruct b eqn:?Eb; try done end; intros [= <-];
    tally; rewrite (times_workers id _ _ _ _ Ei); message Es;
    repeat match goal with
           | Hb : bool_decide (ID _ = ID _) = true |- _ => apply bool_decide_eq_true in Hb; rewrite ?Hb
           | Hb : _ && _ = true |- _ => apply andb_true_iff in Hb as [? ?]
           end; lia.
Qed.

Lemma total_work id i a s s' : workStep cfg i a s = Some s' → total id s' = total id s.
Proof.
  unfold workStep. destruct (rsWorkers s !! i) as [w|] eqn:Ei; [|done]. cbn [mbind option_bind].
  destruct a as [|domain|o| | |quarantine].
  3: { intros Ho. assert (Hs : outcomeStep i w o s = Some s') by (by destruct (wkStage w)). by eapply total_outcome. }
  all: destruct (wkStage w) as [|d|err|err|err] eqn:Es; try done; try rewrite !releaseKind_eq.
  - destruct (bool_decide _); [done|]. intros [= <-]. tally. rewrite (times_workers id _ _ _ _ Ei). message Es. lia.
  - destruct (bool_decide _); [|done]. destruct (tryAcquire _ _ _) as [[] m]; intros [= <-]; tally; rewrite (times_workers id _ _ _ _ Ei); message Es; lia.
  - intros [= <-]. destruct (bool_decide _); tally; rewrite (times_workers id _ _ _ _ Ei); message Es; destruct err; message Es; lia.
  - intros [= <-]. tally; rewrite (times_workers id _ _ _ _ Ei); message Es; destruct err; message Es; lia.
  - intros [= <-]. unfold handleStep. repeat case_match; tally; rewrite (times_handled id _ _ _ Ei); message Es; lia.
Qed.

Lemma times_requeues id ts i t :
  ts !! i = Some t → times id (requeues (delete i ts)) = times id (requeues ts) - times id (requeues [t]).
Proof.
  intros Hi. rewrite <- (take_drop_middle ts i t Hi) at 2. change (t :: drop (S i) ts) with ([t] ++ drop (S i) ts).
  rewrite delete_take_drop. unfold requeues. rewrite !omap_app, !times_app. lia.
Qed.

Lemma total_wake id i s s' : wakeStep cfg i s = Some s' → total id s' = total id s.
Proof.
  unfold wakeStep. destruct (rsOwed s !! i) as [t|] eqn:Ei; [|done]. cbn [mbind option_bind]. intros [= <-].
  destruct t as [kind key|kind key|e].
  - destruct (available _ _ _); tally; cbn [app]; change (requeues (WakeTake kind key :: ?l)) with (requeues l);
      rewrite (times_requeues id _ _ _ Ei); cbn; lia.
  - destruct (takeWaiting _ _ _) as [[w ws]|] eqn:Et; tally; cbn [app].
    + apply takeWaiting_split in Et as (_ & _ & Hp). rewrite (times_perm id (w_envelope <$> rsParked s) (w_envelope <$> (w :: ws))) by (by rewrite Hp).
      change (requeues (WakeRequeue (w_envelope w) :: ?l)) with (w_envelope w :: requeues l). tally.
      rewrite (times_requeues id _ _ _ Ei). change (requeues [WakeTake kind key]) with (@nil Envelope). tally. lia.
    + rewrite (times_requeues id _ _ _ Ei). change (requeues [WakeTake kind key]) with (@nil Envelope). tally. lia.
  - tally. cbn [app]. rewrite (times_requeues id _ _ _ Ei). change (requeues [WakeRequeue e]) with [e]. tally. lia.
Qed.

Lemma total_step id ev s s' :
  runStep cfg attemptLimit ev s = Some s' → total id s' = total id s + arrival id ev.
Proof.
  destruct ev as [e|i| |c|i a|i]; cbn [runStep arrival].
  - intros [= <-]. tally. lia.
  - destruct (rsLater s !! i) as [e|] eqn:Ei; [|done]. intros [= <-]. tally. rewrite (times_delete id _ _ _ Ei). lia.
  - intros [= <-]. tally. lia.
  - intros Hs. rewrite (total_loop _ _ _ _ Hs). lia.
  - intros Hs. rewrite (total_work _ _ _ _ _ Hs). lia.
  - intros Hs. rewrite (total_wake _ _ _ _ Hs). lia.
Qed.

Fixpoint arrivals (id : string) (evs : list runEvent) : Z :=
  match evs with [] => 0 | ev :: evs => arrival id ev + arrivals id evs end.

Lemma total_all id evs s s' : runAll cfg attemptLimit evs s = Some s' → total id s' = total id s + arrivals id evs.
Proof.
  revert s. induction evs as [|ev evs IH]; intros s; cbn [runAll arrivals]; [intros [= <-]; lia|].
  destruct (runStep _ _ ev s) as [s1|] eqn:E; [|done]. cbn. intros Hr. rewrite (IH _ Hr), (total_step _ _ _ _ E). lia.
Qed.

(** ** The invariant *)

Definition returned_clean (s : runState) : Prop :=
  match rsLoop s with LReturned _ => rsWorkers s = [] ∧ rsOwed s = [] ∧ rsParked s = [] | _ => True end.

Definition run_inv (s : runState) : Prop :=
  exact_slots s ∧ wakeful s ∧ limited s ∧ (length (rsWorkers s) ≤ attemptLimit)%nat ∧ returned_clean s.

Lemma returned_step ev s s' : returned_clean s → runStep cfg attemptLimit ev s = Some s' → returned_clean s'.
Proof.
  intros Hr. destruct ev as [e|i| |c|i a|i]; cbn [runStep].
  - by intros [= <-].
  - destruct (rsLater s !! i); [|done]. by intros [= <-].
  - by intros [= <-].
  - unfold loopStep. destruct (rsLoop s) as [| |e|e|e o|e o d|e kind key|e o d|e o d|e o|e| |r|r] eqn:El, c; try done;
      unfold mbind, option_bind; repeat (case_match; try done); intros [= <-]; try done.
    apply andb_true_iff in H as [Hw%bool_decide_eq_true _]. by repeat split.
  - intros Hs. assert (Hl : rsLoop s' = rsLoop s).
    { revert Hs. unfold workStep. destruct (rsWorkers s !! i) as [w|]; [|done]. cbn [mbind option_bind].
      destruct (wkStage w), a; try done; unfold outcomeStep; try rewrite !releaseKind_eq; repeat (case_match; try done); try (intros [= <-]; done);
        intros [= <-]; unfold handleStep; repeat case_match; done. }
    unfold returned_clean in *. rewrite Hl. destruct (rsLoop s); try done. destruct Hr as (Hw & _). unfold workStep in Hs. by rewrite Hw in Hs.
  - intros Hs. unfold returned_clean in *. unfold wakeStep in Hs. destruct (rsOwed s !! i) as [t|] eqn:Ei; [|done].
    assert (Hl : rsLoop s' = rsLoop s) by (cbn in Hs; injection Hs as <-; destruct t; repeat case_match; done).
    rewrite Hl. destruct (rsLoop s); try done. destruct Hr as (_ & Ho & _). by rewrite Ho in Ei.
Qed.

Lemma run_inv_start ready later : run_inv (runStart ready later).
Proof.
  split_and!; [|split; [done|]|..].
  - intros []; apply exact_empty; by intros k ?%elem_of_nil.
  - intros kind key (w & Hw & _). by apply elem_of_nil in Hw.
  - intros []; apply map_Forall_empty.
  - cbn. lia.
  - done.
Qed.

Lemma run_inv_reachable ready later s : run_reachable cfg attemptLimit ready later s → run_inv s.
Proof.
  induction 1 as [|s ev s' _ (He & Hw & Hl & Hn & Hr) Hs]; [apply run_inv_start|].
  split_and!; [by eapply exact_step|by eapply wakeful_step|by eapply limited_step|by eapply workers_step|by eapply returned_step].
Qed.

Lemma runAll_reachable ready later evs s s' :
  run_reachable cfg attemptLimit ready later s → runAll cfg attemptLimit evs s = Some s' → run_reachable cfg attemptLimit ready later s'.
Proof.
  revert s. induction evs as [|ev evs IH]; intros s Hr; cbn [runAll]; [by intros [= <-]|].
  destruct (runStep _ _ ev s) as [s1|] eqn:E; [|done]. cbn. intros Hs. eapply IH; [|exact Hs]. by eapply reach_step.
Qed.
End invariant.

(** ** Shutting down *)

Section shutdown.
Variable cfg : attemptConfig.
Variable attemptLimit : nat.

Lemma cancelled_step ev s s' : runStep cfg attemptLimit ev s = Some s' → rsCancelled s = true → rsCancelled s' = true.
Proof.
  intros Hs Hc. destruct ev as [e|i| |c|i a|i]; cbn [runStep] in Hs.
  - by injection Hs as <-.
  - destruct (rsLater s !! i); [|done]. by injection Hs as <-.
  - by injection Hs as <-.
  - revert Hs. unfold loopStep. destruct (rsLoop s), c; try done; try rewrite releaseKind_eq; unfold mbind, option_bind;
      repeat (case_match; try done); intros [= <-]; try done; by destruct kind.
  - revert Hs. unfold workStep. destruct (rsWorkers s !! i) as [w|]; [|done]. cbn [mbind option_bind].
    destruct (wkStage w), a; try done; unfold outcomeStep; try rewrite !releaseKind_eq; repeat (case_match; try done); try (intros [= <-]; done);
      intros [= <-]; unfold handleStep; repeat case_match; done.
  - unfold wakeStep in Hs. destruct (rsOwed s !! i) as [t|]; [|done]. injection Hs as <-. destruct t; repeat case_match; done.
Qed.

(** Some events, none of them an arrival, lead from [s] to a loop that has returned. *)
Definition returns (s : runState) : Prop :=
  ∃ evs s' r, runAll cfg attemptLimit evs s = Some s' ∧ rsLoop s' = LReturned r ∧ Forall (λ ev, ∀ e, ev ≠ Arrive e) evs.

Lemma returns_step ev s s' : runStep cfg attemptLimit ev s = Some s' → (∀ e, ev ≠ Arrive e) → returns s' → returns s.
Proof. intros Hs Hev (evs & s2 & r & Hr & Hl & Hf). exists (ev :: evs), s2, r. cbn [runAll]. rewrite Hs. cbn. auto. Qed.

Definition weight (t : wakeTask) : nat := match t with WakeCheck _ _ => 3 | WakeTake _ _ => 2 | WakeRequeue _ => 1 end.

Lemma returns_drained r s : rsLoop s = LReturning r → rsWorkers s = [] → returns s.
Proof.
  remember (sum_list_with weight (rsOwed s)) as n eqn:En. revert s En. induction (lt_wf n) as [n _ IH]. intros s -> Hl Hw.
  destruct (rsOwed s) as [|t ts] eqn:Eo.
  - eapply (returns_step (Loop Go)); [cbn; unfold loopStep; rewrite Hl, Hw, Eo; done|done|]. eexists [], _, r. split; [done|]. split; [done|constructor].
  - assert (Hs : ∃ s', runStep cfg attemptLimit (Wake 0) s = Some s' ∧ (sum_list_with weight (rsOwed s') < weight t + sum_list_with weight ts)%nat ∧
      rsLoop s' = LReturning r ∧ rsWorkers s' = []).
    { cbn [runStep]. unfold wakeStep. rewrite Eo. cbn. eexists. split; [done|]. destruct t; repeat case_match; cbn; (split; [lia|done]). }
    destruct Hs as (s' & Hs & Hlt & Hl' & Hw'). eapply returns_step; [exact Hs|done|]. eapply IH; [|done|done|done]. exact Hlt.
Qed.

Definition stage_left (w : runWorker) : nat :=
  match wkStage w with WAttempt | WBlocked _ => 4 | WCloseDomain _ => 3 | WCloseOwner _ => 2 | WHandle _ => 1 end.

(** The first worker can always go on. *)
Lemma worker_progress s w ws :
  rsWorkers s = w :: ws → ∃ a s', runStep cfg attemptLimit (Work 0 a) s = Some s' ∧ rsLoop s' = rsLoop s ∧
    (sum_list_with stage_left (rsWorkers s') < sum_list_with stage_left (rsWorkers s))%nat.
Proof.
  intros Hw. destruct (wkStage w) as [|d|err|err|err] eqn:Es.
  - exists (Outcome (ORetried (wkEnv w))). eexists. cbn [runStep]. unfold workStep, outcomeStep. rewrite Hw. cbn. rewrite Es, bool_decide_true by done.
    split; [done|]. split; [done|]. cbn. rewrite Hw. cbn. unfold stage_left. cbn. rewrite Es. lia.
  - exists (Outcome (ORetried (wkEnv w))). eexists. cbn [runStep]. unfold workStep, outcomeStep. rewrite Hw. cbn. rewrite Es, bool_decide_true by done.
    split; [done|]. split; [done|]. cbn. rewrite Hw. cbn. unfold stage_left. cbn. rewrite Es. lia.
  - exists CloseDomain. eexists. cbn [runStep]. unfold workStep. rewrite Hw. cbn [lookup list_lookup mbind option_bind]. rewrite Es.
    split; [done|]. rewrite releaseKind_eq. case_bool_decide; (split; [done|]); cbn; rewrite Hw; cbn; unfold stage_left; cbn; rewrite Es; lia.
  - exists CloseOwner. eexists. cbn [runStep]. unfold workStep. rewrite Hw. cbn [lookup list_lookup mbind option_bind]. rewrite Es.
    split; [done|]. rewrite releaseKind_eq. split; [done|]. cbn. rewrite Hw. cbn. unfold stage_left. cbn. rewrite Es. lia.
  - exists (HandleError (Ok tt)). eexists. cbn [runStep]. unfold workStep. rewrite Hw. cbn [lookup list_lookup mbind option_bind]. rewrite Es.
    split; [done|]. unfold handleStep. repeat case_match; (split; [done|]); cbn; rewrite ?Hw; cbn; unfold stage_left; rewrite Es; lia.
Qed.

Lemma returns_returning r s : rsLoop s = LReturning r → returns s.
Proof.
  remember (sum_list_with stage_left (rsWorkers s)) as n eqn:En. revert s En. induction (lt_wf n) as [n _ IH]. intros s -> Hl.
  destruct (rsWorkers s) as [|w ws] eqn:Ew; [by eapply returns_drained|].
  destruct (worker_progress s w ws Ew) as (a & s' & Hs & Hl' & Hlt). eapply returns_step; [exact Hs|done|].
  eapply IH; [rewrite <- Ew; exact Hlt|done|congruence].
Qed.
(** One step of the loop, and what it leaves. *)
Lemma returns_go c s s' :
  loopStep cfg attemptLimit c s = Some s' → rsCancelled s = true → (rsCancelled s' = true → returns s') → returns s.
Proof.
  intros Hs Hc Hr. apply (returns_step (Loop c) s s'); [done|done|]. apply Hr. by apply (cancelled_step (Loop c) s).
Qed.

Ltac go c Hl := eapply (returns_go c); [unfold loopStep; rewrite Hl; cbn; reflexivity|done|intros ?Hc].

Lemma returns_last s : rsCancelled s = true → rsLoop s = LLast → returns s.
Proof. intros Hc Hl. go Go Hl. by eapply returns_returning. Qed.

Lemma returns_next s : rsCancelled s = true → rsLoop s = LNext → returns s.
Proof.
  intros Hc Hl. eapply (returns_go NextCancelled); [unfold loopStep; by rewrite Hl, Hc|done|]. intros Hc'. by apply returns_last.
Qed.

Lemma returns_top s : rsCancelled s = true → rsLoop s = LTop → returns s.
Proof.
  intros Hc Hl. destruct (rsFatal s) as [err|] eqn:Ef.
  - eapply (returns_go Go); [unfold loopStep; by rewrite Hl, Ef|done|]. intros _. by eapply returns_returning.
  - eapply (returns_go Go); [unfold loopStep; by rewrite Hl, Ef|done|]. intros Hc'. by apply returns_next.
Qed.

Lemma returns_giveBack e s : rsCancelled s = true → rsLoop s = LGiveBack e → returns s.
Proof. intros Hc Hl. go Go Hl. by apply returns_last. Qed.

Lemma returns_park e kind key s : rsCancelled s = true → rsLoop s = LPark e kind key → returns s.
Proof. intros Hc Hl. go Go Hl. by apply returns_top. Qed.

Lemma returns_undoOwner e o s : rsCancelled s = true → rsLoop s = LUndoOwner e o → returns s.
Proof. intros Hc Hl. go Go Hl. by eapply returns_giveBack. Qed.

Lemma returns_both e o d s : rsCancelled s = true → rsLoop s = LBoth e o d ∨ rsLoop s = LUndoDomain e o d → returns s.
Proof.
  assert (Hu : ∀ s, rsCancelled s = true → rsLoop s = LUndoDomain e o d → returns s).
  { intros s' Hc Hl. go Go Hl. by eapply returns_undoOwner. }
  intros Hc [Hl|Hl]; [|auto]. eapply (returns_go Abandon); [unfold loopStep; by rewrite Hl, Hc|done|]. intros Hc'. by apply Hu.
Qed.

Lemma returns_owner e o s : rsCancelled s = true → rsLoop s = LOwner e o → returns s.
Proof.
  intros Hc Hl. destruct (tryAcquire (kind_limit cfg admissionDomain) (nextPendingDomain e) (rsDomains s)) as [[] m] eqn:Et.
  - eapply (returns_go Go); [unfold loopStep; by rewrite Hl, Et|done|]. intros Hc'. eapply returns_both; [done|by left].
  - eapply (returns_go Go); [unfold loopStep; by rewrite Hl, Et|done|]. intros Hc'.
    eapply (returns_go Go); [done|done|]. intros Hc2. by eapply returns_park.
Qed.

Lemma returns_admit e s : rsCancelled s = true → rsLoop s = LAdmit e → returns s.
Proof.
  intros Hc Hl. destruct (tryAcquire (kind_limit cfg admissionUser) (deliveryOwner e) (rsUsers s)) as [[] m] eqn:Et.
  - eapply (returns_go Go); [unfold loopStep; by rewrite Hl, Et|done|]. intros Hc'. by eapply returns_owner.
  - eapply (returns_go Go); [unfold loopStep; by rewrite Hl, Et|done|]. intros Hc'. by eapply returns_park.
Qed.

Lemma returns_cancelled s : rsCancelled s = true → returns s.
Proof.
  intros Hc. destruct (rsLoop s) as [| |e|e|e o|e o d|e kind key|e o d|e o d|e o|e| |r|r] eqn:El.
  - by apply returns_top.
  - by apply returns_next.
  - eapply (returns_go Go); [unfold loopStep; by rewrite El, Hc|done|]. intros Hc'. by eapply returns_giveBack.
  - by eapply returns_admit.
  - by eapply returns_owner.
  - go Go El. by eapply returns_park.
  - by eapply returns_park.
  - eapply returns_both; [done|by left].
  - eapply returns_both; [done|by right].
  - by eapply returns_undoOwner.
  - by eapply returns_giveBack.
  - by apply returns_last.
  - by eapply returns_returning.
  - exists [], s, r. split; [done|]. split; [done|constructor].
Qed.
End shutdown.

(** In every interleaving, the slots taken of each owner and domain are exactly the
    threads that hold them, none above its limit, and there are never more workers than
    the attempt limit. *)
Theorem run_capacity cfg attemptLimit ready later s :
  run_reachable cfg attemptLimit ready later s →
  (∀ kind key, key ≠ "" → default 0 (rsSlots kind s !! key) = cnt key (held kind s)) ∧
  (∀ kind key n, rsSlots kind s !! key = Some n → 1 ≤ n ≤ kind_limit cfg kind) ∧
  (length (rsWorkers s) ≤ attemptLimit)%nat.
Proof.
  intros (He & _ & Hl & Hn & _)%run_inv_reachable. split_and!; [|..|done].
  - intros kind key Hk. by apply He.
  - intros kind key n Hs. destruct (He kind) as [[_ Hp] _]. split; [by apply (Hp key)|by apply (Hl kind key)].
Qed.

(** C11: No wake-up is lost: when no worker runs, no wake is owed, nothing is due and the
    loop waits for the next message, no message is parked. *)
Theorem no_message_stranded cfg attemptLimit ready later s :
  run_reachable cfg attemptLimit ready later s →
  rsLoop s = LNext → rsReady s = [] → rsWorkers s = [] → rsOwed s = [] → rsParked s = [].
Proof.
  intros (He & (Hk & Hw) & _)%run_inv_reachable Hl Hr Hws Ho.
  assert (Hheld : ∀ kind key, key ≠ "" → holders (rsSlots kind s) key = 0).
  { intros kind key Hkey. destruct (He kind) as [_ Hc]. rewrite Hc by done. unfold held. rewrite Hl, Hws. by destruct kind. }
  assert (Hno : ∀ kind, (∀ e, e ∈ seekers kind s → False) → ∀ key, waits s kind key → False).
  { intros kind Hs key Hwait. pose proof (keyed_waits s kind key Hk Hwait) as Hne.
    destruct (Hw kind key Hwait) as [Ha|[Ha|[Ha|(e & Ha & _)]]]; [rewrite Hheld in Ha by done; lia|rewrite Ho in Ha; by apply elem_of_nil in Ha..|eauto]. }
  assert (Huser : ∀ key, waits s admissionUser key → False).
  { apply Hno. intros e. unfold seekers. rewrite Hr, Ho, Hl. by intros ?%elem_of_nil. }
  assert (Hdomain : ∀ key, waits s admissionDomain key → False).
  { apply Hno. intros e. unfold seekers. rewrite Hr, Ho, Hl. cbn. unfold parkedUsers. rewrite list_elem_of_omap.
    intros (w & Hin & Hm). destruct (w_kind w) eqn:Ek; [|done]. apply (Huser (w_key w)). by exists w. }
  destruct (rsParked s) as [|w ws] eqn:Ep; [done|]. exfalso.
  destruct (w_kind w) eqn:Ek; [apply (Huser (w_key w))|apply (Hdomain (w_key w))]; exists w; rewrite Ep; (split; [by left|done]).
Qed.

(** C12: When the loop has returned it has given everything back: no worker runs, no
    wake is owed, nothing is parked, no capacity is held, and every message, as often as
    it was there at the start or arrived since, is with the queue: due, due later,
    disposed of, or left to it after an error. *)
Theorem run_returns_everything cfg attemptLimit ready later evs s r :
  runAll cfg attemptLimit evs (runStart ready later) = Some s → rsLoop s = LReturned r →
  rsWorkers s = [] ∧ rsOwed s = [] ∧ rsParked s = [] ∧ rsUsers s = ∅ ∧ rsDomains s = ∅ ∧
  ∀ id, times id (rsReady s ++ rsLater s ++ rsGone s ++ rsStuck s) = times id (ready ++ later) + arrivals id evs.
Proof.
  intros Hs Hl.
  assert (Hr : run_reachable cfg attemptLimit ready later s) by (eapply runAll_reachable; [apply reach_start|exact Hs]).
  apply run_inv_reachable in Hr as (He & _ & _ & _ & Hc). unfold returned_clean in Hc. rewrite Hl in Hc. destruct Hc as (Hw & Ho & Hp).
  assert (Hempty : ∀ kind, rsSlots kind s = ∅).
  { intros kind. apply exact_nil. specialize (He kind). unfold held in He. rewrite Hl, Hw in He. by destruct kind. }
  split_and!; [done|done|done|apply (Hempty admissionUser)|apply (Hempty admissionDomain)|]. intros id.
  pose proof (total_all cfg attemptLimit id _ _ _ Hs) as Ht. unfold total in Ht. rewrite Hl, Hw, Ho, Hp in Ht.
  cbn [runStart rsReady rsLater rsGone rsStuck rsOwed rsLoop rsParked rsWorkers loopMessage] in Ht.
  rewrite !times_app. cbn in Ht |- *. lia.
Qed.

(** C13: Shutting down never blocks: from every state in which the context is done, the
    steps of the loop, its workers and their wakes alone, with no further message
    arriving, can always take the loop to its return. *)
Theorem shutdown_returns cfg attemptLimit s :
  rsCancelled s = true →
  ∃ evs s' r, runAll cfg attemptLimit evs s = Some s' ∧ rsLoop s' = LReturned r ∧ Forall (λ ev, ∀ e, ev ≠ Arrive e) evs.
Proof. apply returns_cancelled. Qed.
