(* ===== verification/Storable.v ===== *)
(** * The queue takes back what an attempt leaves

    The composition of delivery and queue: the envelope of a validated message
    still passes [validateEnvelope] after any attempt, in every form in which an
    attempt hands it to the queue, unless the replies stored with the recipients
    outgrow the metadata limit. *)

From S2P Require Import Prelude Errors GoLib Sha256 Envelope Capacity Utf8 Text Mailbox Validation.
From S2P Require Import FileSystem Disk Queue Storage Delivery Dead Dsn Diagnostic Discovery Client ClientFacts BodyReader Send SendFacts Bounce Attempt AttemptFacts.
Open Scope Z_scope.

Section storable.
Context (ToASCII : string → res string).

(** ** Validation of a changed outcome *)

Lemma validateRecipient_parts bodies r :
  validateRecipient ToASCII bodies r = (r, Ok tt) →
  status_ok (rStatus r) ∧ validateOutcome r = Ok tt ∧ displayable (Detail r) ∧
  validateRouting ToASCII r = Ok (rDomain r) ∧ validateBodyIndex bodies r = Ok tt ∧
  str_len (rDomain r) ≤ maxEnvelopeStringBytes.
Proof.
  intros Hv. destruct (validateRecipient_ok _ _ _ _ Hv) as ([Hs _ _ _ _] & _ & _ & _ & _ & _ & Hst).
  revert Hv. unfold validateRecipient.
  assert (is_empty (rStatus r) = false) as ->.
  { unfold is_empty. apply bool_decide_eq_false. intros He. rewrite He in Hs. by destruct Hs as [?|[?|?]]. }
  destruct (validateBodyIndex bodies r) as [[]|]; [|done]. cbn [res_bind].
  destruct (Z.ltb_spec maxEnvelopeStringBytes (str_len (rDomain r))); [done|].
  destruct (Z.ltb_spec maxEnvelopeDetailBytes (str_len (Detail r))); [done|].
  destruct (containsDisplayControl (Detail r)) eqn:Hc; [done|].
  destruct (negb _); [done|]. destruct (validateOutcome r) as [[]|]; [|done]. cbn [res_bind].
  destruct (validateRouting ToASCII r) as [d|]; [|done]. intros Hr.
  assert (d = rDomain r) as -> by (apply (f_equal (λ p, rDomain p.1)) in Hr; exact Hr).
  split; [done|]. split; [done|]. split; [by split|]. done.
Qed.

Lemma validateRecipient_changed bodies r r' :
  validateRecipient ToASCII bodies r = (r, Ok tt) →
  Address r' = Address r → rDomain r' = rDomain r → rBody r' = rBody r →
  status_ok (rStatus r') → validateOutcome r' = Ok tt → displayable (Detail r') →
  validateRecipient ToASCII bodies r' = (r', Ok tt).
Proof.
  intros Hv Ha Hd Hb Hs Ho [Hl Hc].
  destruct (validateRecipient_parts _ _ Hv) as (_ & _ & _ & Hrt & Hbi & Hdl).
  unfold validateRecipient.
  assert (validateBodyIndex bodies r' = Ok tt) as -> by (rewrite <-Hbi; unfold validateBodyIndex; by rewrite Hb).
  cbn [res_bind]. rewrite Hd, Hc.
  assert (maxEnvelopeStringBytes <? str_len (rDomain r) = false) as -> by lia.
  assert (maxEnvelopeDetailBytes <? str_len (Detail r') = false) as -> by lia.
  assert (is_empty (rStatus r') = false) as ->.
  { unfold is_empty. apply bool_decide_eq_false. intros He. rewrite He in Hs. by destruct Hs as [?|[?|?]]. }
  assert (negb (bool_decide (rStatus r' = StatusPending) || bool_decide (rStatus r' = StatusSent)
                || bool_decide (rStatus r' = StatusFailed)) = false) as ->.
  { by destruct Hs as [-> |[-> | ->]]. }
  rewrite Ho. cbn [res_bind].
  assert (validateRouting ToASCII r' = Ok (rDomain r)) as ->.
  { rewrite <-Hrt. unfold validateRouting. by rewrite Ha, Hd. }
  rewrite <-Hd. by destruct r'.
Qed.

Lemma validateRecipients_each bodies rs :
  validateRecipients ToASCII bodies rs = (rs, Ok tt) ↔
  ∀ r, r ∈ rs → validateRecipient ToASCII bodies r = (r, Ok tt).
Proof.
  induction rs as [|r rs IH]; cbn [validateRecipients].
  { split; [|done]. by intros _ r ?%elem_of_nil. }
  split.
  - destruct (validateRecipient ToASCII bodies r) as [r1 [[]|]] eqn:Hr; [|done].
    destruct (validateRecipients ToASCII bodies rs) as [rs1 res1]. intros [= -> -> ->].
    intros r0 [-> |Hin]%elem_of_cons; [done|]. by apply IH.
  - intros Hall. rewrite (Hall r) by left. 
    assert (validateRecipients ToASCII bodies rs = (rs, Ok tt)) as ->; [|done].
    apply IH. intros r' Hr'. apply Hall. by right.
Qed.

(** [e'] is [e] with other delivery outcomes: nothing else that validation reads
    has changed. *)
Record restated (e e' : Envelope) : Prop := {
  re_fields : e' = set_Recipients (Recipients e') (set_Attempts (Attempts e') (set_LastError (LastError e')
    (set_NextAttempt (NextAttempt e') (set_PreferredDomain (PreferredDomain e') e))));
  re_attempts : 0 ≤ Attempts e' ≤ maxEnvelopeAttempts;
  re_error : str_len (LastError e') ≤ maxEnvelopeDetailBytes;
  re_recipients : Forall2 (λ r r', Address r' = Address r ∧ rDomain r' = rDomain r ∧ rBody r' = rBody r ∧
    status_ok (rStatus r') ∧ validateOutcome r' = Ok tt ∧ displayable (Detail r'))
    (Recipients e) (Recipients e')
}.

Lemma existsb_map {A B} (p : B → bool) (f : A → B) l : existsb (λ a, p (f a)) l = existsb p (map f l).
Proof. induction l as [|a l IH]; cbn; [done|by rewrite IH]. Qed.

Lemma existsb_ext {A} (p q : A → bool) l : (∀ a, p a = q a) → existsb p l = existsb q l.
Proof. intros Hp. induction l as [|a l IH]; cbn; [done|by rewrite IH, Hp]. Qed.

Lemma validateHeader_attempts e : validateHeader e = Ok tt → 0 ≤ Attempts e.
Proof.
  unfold validateHeader. intros Hv.
  destruct (ValidateID (ID e)) as [[]|]; [|done]. cbn [res_bind] in Hv.
  repeat match type of Hv with
  | (if ?b then Err _ else _) = _ => destruct b eqn:?; [done|]
  | res_bind (validateOrigin e) _ = _ =>
      destruct (validateOrigin e) as [[]|]; [|done]; cbn [res_bind] in Hv
  end.
  zbool. lia.
Qed.

Lemma validateHeader_restated e e' :
  validateHeader e = Ok tt → restated e e' → validateHeader e' = Ok tt.
Proof.
  intros Hv [F A L R]. apply Forall2_length in R.
  assert (HO : validateOrigin e' = validateOrigin e) by (by rewrite F).
  assert (HL : bool_decide (Recipients e' = []) = bool_decide (Recipients e = [])).
  { apply bool_decide_ext. by destruct (Recipients e), (Recipients e'). }
  revert Hv. unfold validateHeader. rewrite HO, HL, <-R.
  assert (maxEnvelopeDetailBytes <? str_len (LastError e') = false) as -> by lia.
  assert ((Attempts e' <? 0) || (maxEnvelopeAttempts <? Attempts e') = false) as -> by lia.
  clear HO HL. rewrite F.
  cbn [ID Incarnation Revision Username Bodies Size Created BodyDigest DSNID DSNGeneration
       set_Recipients set_Attempts set_LastError set_NextAttempt set_PreferredDomain].
  destruct (ValidateID (ID e)) as [[]|]; [|done]. cbn [res_bind].
  destruct (negb (validIncarnation _)); [done|].
  destruct ((Revision e =? 0) || _); [done|].
  destruct (is_empty (Username e)); [done|].
  destruct (_ <? str_len (Username e)); [done|].
  destruct (_ <? str_len (LastError e)); [done|].
  destruct (validateOrigin e) as [[]|]; [|done]. cbn [res_bind].
  repeat match goal with |- (if ?b then Err _ else _) = _ → _ => destruct b; [done|] end. done.
Qed.

Lemma validateEnvelope_restated e e' :
  validateEnvelope ToASCII e = (e, Ok tt) → restated e e' → envelopeMetadataWithinLimit e' = true →
  validateEnvelope ToASCII e' = (e', Ok tt).
Proof.
  intros Hv Hr Hmeta. destruct (validateEnvelope_ok _ _ _ Hv)
    as (Hh & (stop & Hb & Hstop) & rs & Hrs & He & Hu & Hn & _).
  assert (rs = Recipients e) as -> by (by rewrite He at 1).
  pose proof (validateHeader_restated _ _ Hh Hr) as Hh'. destruct Hr as [F _ _ R].
  assert (Hbod : Bodies e' = Bodies e ∧ Size e' = Size e ∧ SMTPUTF8 e' = SMTPUTF8 e ∧ Sender e' = Sender e)
    by (by rewrite F). destruct Hbod as (HB & HS & HU & HE).
  assert (Hmaps : map Address (Recipients e') = map Address (Recipients e) ∧
                  map rBody (Recipients e') = map rBody (Recipients e)).
  { clear -R. induction R as [|r r' l l' (? & ? & ? & _) _ [IH1 IH2]]; [done|]. cbn. split; congruence. }
  destruct Hmaps as [HA HBd].
  assert (Hvr : validateRecipients ToASCII (Bodies e') (Recipients e') = (Recipients e', Ok tt)).
  { rewrite HB. apply validateRecipients_each. intros r' Hin.
    apply list_elem_of_lookup_1 in Hin as [i Hi].
    destruct (Forall2_lookup_r _ _ _ _ _ R Hi) as (r & Hr & ? & ? & ? & ? & ? & ?).
    eapply validateRecipient_changed; [|done..].
    apply (proj1 (validateRecipients_each _ _) Hrs). by eapply list_elem_of_lookup_2. }
  unfold validateEnvelope. rewrite Hh'. cbn [res_bind]. rewrite HS, HB, Hb. cbn [res_bind].
  assert (negb (bool_decide (Bodies e = [])) && negb (stop =? Size e) = false) as ->.
  { destruct (decide (Bodies e = [])) as [Hnil|Hne].
    - by rewrite bool_decide_eq_true_2.
    - by rewrite (Hstop Hne), Z.eqb_refl, andb_false_r. }
  rewrite <-HB, Hvr. assert (set_Recipients (Recipients e') e' = e') as -> by (by destruct e').
  cbn [res_bind]. f_equal.
  assert (unused_body e' = unused_body e) as ->.
  { unfold unused_body. rewrite HB. apply existsb_ext. intros i. f_equal.
    rewrite !(existsb_map (λ b, b =? Z.of_nat i) rBody). by rewrite HBd. }
  assert (needUTF8 e' = needUTF8 e) as ->.
  { unfold needUTF8. rewrite HE, !(existsb_map addressHasNonASCII Address). by rewrite HA. }
  by rewrite Hu, HU, Hn, Hmeta.
Qed.

Lemma recipient_acceptable e : validateEnvelope ToASCII e = (e, Ok tt) → acceptable e.
Proof.
  intros Hv r Hr. destruct (validateEnvelope_ok _ _ _ Hv) as (_ & _ & rs & Hrs & He & _).
  assert (rs = Recipients e) as -> by (by rewrite He at 1).
  apply validateRecipients_each with (r := r) in Hrs; [|done].
  destruct (validateRecipient_parts _ _ Hrs) as (_ & ? & ? & _). done.
Qed.

Lemma validated_bodies e : validateEnvelope ToASCII e = (e, Ok tt) → Size e ≤ MaxInt64 → bodies_ok e.
Proof.
  intros Hv Hs. pose proof (validated_ok _ _ _ Hv) as Hok. split.
  - intros i Hi. destruct (envelope_ok_message _ _ _ Hok Hi) as (n & b & ? & ? & _). eauto.
  - intros i s Hi. destruct (decide (i < length (Recipients e))%nat) as [Hlt|Hge].
    + destruct (envelope_ok_message _ _ _ Hok Hlt) as (n & b & Hn & _ & ?). rewrite Hi in Hn.
      injection Hn as ->. lia64.
    + revert Hi. unfold MessageSize. destruct (Bodies e).
      * intros [= <-]. pose proof (eo_size _ _ Hok). lia64.
      * rewrite lookup_ge_None_2 by lia. done.
Qed.
End storable.

(** ** An attempt and its envelopes *)

(** The envelope an attempt works on. *)
Definition begun (e : Envelope) : Envelope := set_LastError "" (set_Attempts (Attempts e + 1) e).

(** The envelopes [settle] hands to the queue for the summarised envelope [s]:
    completed, interrupted, expired, deferred, exhausted and retried. *)
Definition handed (cfg : attemptConfig) (w : attemptWorld) (s : Envelope) : list Envelope :=
  [s; set_NextAttempt (now w 3) (set_Attempts (Attempts s - 1) s); expiredEnvelope s;
   set_NextAttempt (now w 3) s; exhaustedEnvelope s; set_NextAttempt (retryAt cfg w s) s].

Section attempted.
Context {S : Type} `{Scheduler S} `{JsonCodec} `{CaseTables}.
Context (ToASCII : string → res string) (err_text : error → string) (cfg : attemptConfig).
Context (w : attemptWorld).
Hypothesis dialled_ok : ∀ n h ip p, dial (outside w n) h ip = Ok p → peer_ok (NewClient p).
Hypothesis opened_ok : ∀ n id b r, openReader (outside w n) id b = Ok r →
  tr_verified r = false ∧ tr_seen r = [] ∧ 0 ≤ tr_remaining r.
Implicit Types d : @deliverer S.

(** What [restated] asks of one recipient. *)
Definition reworked (r r' : Recipient) : Prop :=
  Address r' = Address r ∧ rDomain r' = rDomain r ∧ rBody r' = rBody r ∧
  status_ok (rStatus r') ∧ validateOutcome r' = Ok tt ∧ displayable (Detail r').

Lemma reworked_expire r r' : reworked r r' → reworked r (expireRecipient r').
Proof.
  intros (? & ? & ? & ? & ? & ?). unfold expireRecipient. destruct (pending_recipient r'); [|by split_and!].
  split; [done|]. split; [done|]. split; [done|]. split; [by right; right|]. split; [done|].
  split; [vm_compute; discriminate|vm_compute; reflexivity].
Qed.

Lemma reworked_exhaust r r' : reworked r r' → reworked r (exhaustRecipient r').
Proof.
  intros (? & ? & ? & ? & ? & [? ?]). unfold exhaustRecipient. destruct (pending_recipient r'); [|by split_and!].
  split; [done|]. split; [done|]. split; [done|]. split; [by right; right|]. split; [done|].
  cbn [Detail]. destruct (is_empty (Detail r')); [split; [vm_compute; discriminate|vm_compute; reflexivity]|by split].
Qed.

Lemma moves_reworked may e e0 e' :
  validateEnvelope ToASCII e = (e, Ok tt) → Recipients e0 = Recipients e →
  moves may (pending_indexes e0) e0 e' → acceptable e' → Forall2 reworked (Recipients e) (Recipients e').
Proof.
  intros Hv Hsame Hm Hacc. apply Forall2_same_length_lookup_2; [by rewrite (ms_length _ _ _ _ Hm), Hsame|].
  intros i r r' Hr Hr'. rewrite <-Hsame in Hr.
  destruct (ms_moved _ _ _ _ Hm i r r' Hr Hr') as [A D B Hset _ _].
  destruct (Hacc r') as [Ho Hd]; [by eapply list_elem_of_lookup_2|]. split_and!; [done..| |done|done].
  assert (Hin : r ∈ Recipients e) by (rewrite <-Hsame; by eapply list_elem_of_lookup_2).
  destruct (recipient_acceptable _ _ Hv r Hin) as [Ho' Hd'].
  destruct (decide (rStatus r = StatusPending)) as [Hp|Hp].
  - destruct (Hset (pending_settled r Ho' Hd' Hp)) as [_ [([->| ->] & _)|[-> _]]]; unfold status_ok; auto.
  - rewrite (ms_other _ _ _ _ Hm i) in Hr'.
    + assert (r' = r) as -> by congruence. pose proof (validated_ok _ _ _ Hv) as Hok.
      pose proof (proj1 (Forall_forall _ _) (eo_recipients _ _ Hok) r Hin) as [? _ _ _ _]. done.
    + intros [Hp' _]%list_elem_of_filter. apply is_pending_true in Hp' as (r1 & Hr1 & ?). congruence.
Qed.

Lemma restated_summary e s :
  validateEnvelope ToASCII e = (e, Ok tt) → Attempts e < maxEnvelopeAttempts → restated e s →
  Attempts s = Attempts e + 1 → ∀ e', e' ∈ handed cfg w s → restated e e'.
Proof.
  intros Hv Ha Hr Hs e' Hin. destruct Hr as [F A L R].
  destruct (validateEnvelope_ok _ _ _ Hv) as (Hh & _).
  assert (Hlife : str_len lifetimeDetail ≤ maxEnvelopeDetailBytes) by (vm_compute; discriminate).
  assert (Hmap : ∀ f, (∀ r r', reworked r r' → reworked r (f r')) →
            Forall2 reworked (Recipients e) (f <$> Recipients s)).
  { intros f Hf. apply Forall2_fmap_r. eapply Forall2_impl; [exact R|]. exact Hf. }
  unfold handed in Hin. repeat apply elem_of_cons in Hin as [-> |Hin]; [..|by apply elem_of_nil in Hin];
    (split; cbn; [by rewrite F|try lia|done|]).
  all: try exact R.
  - apply validateHeader_attempts in Hh. lia.
  - apply Hmap, reworked_expire.
  - apply Hmap, reworked_exhaust.
Qed.

(** C8: The queue can always store what an attempt leaves.  For a message whose
    envelope is valid, working through all its groups, whatever the DNS and the
    servers answer, never goes outside the envelope and stops early only for a
    corrupt body; recipients settled by earlier attempts are untouched and the
    message's identity is kept.  Every form in which the attempt hands the envelope
    to the queue (completed, interrupted, deferred, retried, expired, exhausted)
    passes the queue's validation unchanged, unless the stored replies exceed the
    metadata limit; expired and exhausted envelopes have no recipient left pending. *)
Theorem attempt_storable name e d g d' :
  validateEnvelope ToASCII e = (e, Ok tt) → Attempts e < maxEnvelopeAttempts → Size e ≤ MaxInt64 →
  deliverGroups err_text cfg w 0 (admittedFirst name (groupRecipients (begun e))) name
    (set_PreferredDomain "" (begun e)) [] d = (g, d') →
  let s := summarize cfg w (begun e) (g_diags g) (g_env g) in
  (∀ err, g_stop g = Some err → IsCorruption err = true) ∧
  sameMessageContent e s = true ∧
  (∀ i r, Recipients e !! i = Some r → rStatus r ≠ StatusPending → Recipients s !! i = Some r) ∧
  (∀ e', e' ∈ handed cfg w s → envelopeMetadataWithinLimit e' = true →
     validateEnvelope ToASCII e' = (e', Ok tt)) ∧
  Pending (expiredEnvelope s) = 0 ∧ Pending (exhaustedEnvelope s) = 0.
Proof.
  intros Hv Ha Hs Hd. cbn zeta. set (e0 := set_PreferredDomain "" (begun e)) in *.
  assert (Hb : bodies_ok e0) by (destruct (validated_bodies _ _ Hv Hs) as [H1' H2']; by split).
  assert (Hacc : acceptable e0) by exact (recipient_acceptable _ _ Hv).
  destruct (attempt_moves err_text cfg w dialled_ok opened_ok name e0 d g d' Hb Hacc Hd) as (Hstop & Hm & Hacc').
  assert (Hat : Attempts (g_env g) = Attempts e + 1) by (by rewrite (ms_fields _ _ _ _ Hm)).
  assert (Hre : restated e (summarize cfg w (begun e) (g_diags g) (g_env g))).
  { split; [by rewrite (ms_fields _ _ _ _ Hm)| |apply normalized_displayable|].
    - cbn. rewrite Hat. apply (validateEnvelope_ok ToASCII) in Hv as [Hh _].
      apply validateHeader_attempts in Hh. lia.
    - exact (moves_reworked _ e e0 (g_env g) Hv eq_refl Hm Hacc'). }
  split_and!.
  - done.
  - transitivity (sameMessageContent e0 (g_env g)); [done|]. by eapply moves_content.
  - intros i r Hr Hp. change (Recipients (g_env g) !! i = Some r). rewrite (ms_other _ _ _ _ Hm i); [done|].
    intros [Hp' _]%list_elem_of_filter. apply is_pending_true in Hp' as (r' & Hr' & ?).
    change (Recipients e !! i = Some r') in Hr'. congruence.
  - intros e' Hin. apply validateEnvelope_restated with (e := e); [done|]. by eapply restated_summary.
  - by apply terminal_envelopes.
  - by apply terminal_envelopes.
Qed.
End attempted.
