(* ===== verification/Recovery.v ===== *)
(** * Recovery (src/internal/queue/recovery.go, open.go)

    What opening a spool does after a crash: interrupted additions are put
    aside, trash is emptied, linked notifications are published, dead letters
    are checked, and the accepted entries of ready/ are charged and
    scheduled. *)

From S2P Require Import Prelude Errors GoLib Sha256 Envelope Capacity Utf8 Mailbox Validation.
From S2P Require Import FileSystem Disk Queue Storage Delivery Dead Add Dsn.
Open Scope Z_scope.

(** A [range] loop. *)
Fixpoint for_each {St A} (f : A → ST St unit) (l : list A) : ST St unit :=
  match l with
  | [] => ret tt
  | a :: l => let! _ := f a in for_each f l
  end.

Section recovery.
Context {S : Type} `{Scheduler S} `{JsonCodec}.
Variable ToASCII : string → res string.
Variable E : Environment.

Abbreviation Q A := (ST (Queue S) A) (only parsing).

(** Put an entry aside; the entry is blocked when that fails. *)
Definition setAside (s : space) (id name : string) (cause report : error) : Q unit :=
  let! r := onDisk (quarantineDir E s id name) in
  match r with
  | Err qerr => recordQuarantineFailure id cause qerr
  | Ok _ => noteCorrupt report
  end.

Definition setAsideFile (s : space) (n name : string) (cause report : error) : Q unit :=
  let! r := onDisk (quarantineFile E s n name) in
  match r with
  | Err qerr => recordQuarantineFailure n cause qerr
  | Ok _ => noteCorrupt report
  end.

(** ** tmp/ *)

Definition recoverTmpEntry (e : string * object) : Q unit :=
  match e.2 with
  | Regular _ =>
      let! r := onDisk (os_remove_path E (PEntry Tmp e.1)) in
      match r with
      | Err err => if errors_Is err ErrNotExist then ret tt
                   else noteWarning (Wrap "remove stray tmp file" err)
      | Ok _ => ret tt
      end
  | Directory _ =>
      let id := e.1 in
      setAside Tmp id (id +:+ "-uncommitted") (Message "interrupted uncommitted add")
        (Message "interrupted uncommitted add")
  end.

Definition recoverTmp : Q (res unit) :=
  try! entries := onDisk (os_ReadDir E (PSpace Tmp)) in
  let! _ := for_each recoverTmpEntry entries in
  onDisk (Sync E (PSpace Tmp)).

(** ** trash/ *)

Fixpoint removeTrashEntries (entries : list (string * object)) (errs : option error)
    : ST world (option error) :=
  match entries with
  | [] => ret errs
  | e :: entries =>
      let! r := RemoveAll E Trash e.1 in
      removeTrashEntries entries
        (match r with Ok _ => errs | Err err => errors_Join errs (Some (Wrap "remove trash" err)) end)
  end.

Definition cleanTrash : ST world (res unit) :=
  try! entries := os_ReadDir E (PSpace Trash) in
  let! errs := removeTrashEntries entries None in
  let! synced := Sync E (PSpace Trash) in
  ret (to_res (match synced with
               | Ok _ => errs
               | Err err => errors_Join errs (Some (Wrap "sync trash" err)) end)).

(** ** dead/ *)

Definition validateDeadEntry (e : string * object) : Q unit :=
  let id := e.1 in
  match e.2 with
  | Regular _ =>
      let cause := corruptionf "stray file in dead" in
      setAsideFile Dead id (id +:+ "-dead-stray") cause (Wrap "dead" cause)
  | Directory _ =>
      let! cause :=
        match ValidateID id with
        | Err _ => ret (Some (corruptionf "invalid dead id"))
        | Ok _ =>
            let! r := onDisk (loadAcceptedDir ToASCII E (PEntry Dead id) id) in
            ret (opt_err r)
        end in
      match cause with
      | None => ret tt
      | Some cause =>
          if negb (IsCorruption cause)
          then recordTransientBlocked id (Wrap "validate dead" cause)
          else setAside Dead id (id +:+ "-invalid-dead") cause (Wrap "dead" cause)
      end
  end.

Definition validateDead : Q unit :=
  let! r := onDisk (os_ReadDir E (PSpace Dead)) in
  match r with
  | Err e => noteWarning (Wrap "validate dead" e)
  | Ok entries => for_each validateDeadEntry entries
  end.

(** ** dsn/ *)

Definition blockLinkedEntry (dsnID : string) (cause : error) (e : string * object) : Q unit :=
  match e.2 with
  | Regular _ => ret tt
  | Directory _ =>
      let! r := onDisk (loadAcceptedDir ToASCII E (PEntry Ready e.1) e.1) in
      match r with
      | Err err =>
          if IsCorruption err then ret tt
          else recordTransientBlocked e.1 (Wrap "inspect possible source for staged DSN" err)
      | Ok source =>
          if negb (bool_decide (DSNID source = dsnID)) then ret tt
          else recordTransientBlocked (ID source) (Wrap "linked staged DSN could not be read" cause)
      end
  end.

Definition blockLinkedSource (dsnID : string) (cause : error) : Q unit :=
  let! r := onDisk (os_ReadDir E (PSpace Ready)) in
  match r with
  | Err e => noteWarning (Wrap "inspect source for staged DSN" e)
  | Ok entries => for_each (blockLinkedEntry dsnID cause) entries
  end.

(** The entries of [rest] that link [id]; an unreadable one blocks them all. *)
Fixpoint linkedSources (id : string) (entries rest : list (string * object))
    : Q (res (list Envelope)) :=
  match rest with
  | [] => ret (Ok [])
  | (_, Regular _) :: rest => linkedSources id entries rest
  | (n, Directory _) :: rest =>
      let! r := onDisk (loadAcceptedDir ToASCII E (PEntry Ready n) n) in
      match r with
      | Err err =>
          if negb (IsCorruption err) then
            let! _ := for_each (λ c : string * object,
                if is_dir c.2
                then recordTransientBlocked c.1 (Wrap "source scan for corrupt staged DSN is incomplete" err)
                else ret tt) entries in
            ret (Err (Sentinel ErrDSNSourceScanIncomplete))
          else linkedSources id entries rest
      | Ok source =>
          try! linked := linkedSources id entries rest in
          ret (Ok (if bool_decide (DSNID source = id) then source :: linked else linked))
      end
  end.

Definition quarantineDSNStage (id suffix : string) (cause : error) : Q (res unit) :=
  if negb (IsCorruption cause)
  then ret (Err (Message "refusing to quarantine DSN stage without typed corruption"))
  else
    try! entries := onDisk (os_ReadDir E (PSpace Ready)) in
    try! linked := linkedSources id entries entries in
    let! _ := for_each (λ source : Envelope,
        setAside Ready (ID source) (ID source +:+ "-dsn-source")
          (Message "linked staged DSN is invalid") (Message "linked staged DSN is invalid")) linked in
    try! _ := onDisk (quarantineDir E Dsn id (id +:+ "-dsn-" +:+ suffix)) in
    let! _ := noteCorrupt (Wrap "staged DSN" cause) in
    ret (Ok tt).

(** Quarantine a stage, blocking it when that fails. *)
Definition orphanStage (id suffix : string) (cause : error) : Q unit :=
  let! r := quarantineDSNStage id suffix cause in
  match r with
  | Err qerr => recordQuarantineFailure id cause qerr
  | Ok _ => ret tt
  end.

(** Block a stage and the source it names. *)
Definition blockBoth (id sourceID : string) (cause : error) (note : string) : Q unit :=
  let! _ := recordTransientBlocked id cause in
  recordTransientBlocked sourceID (Message note).

(** A linked stage: it becomes the ready entry unless one exists. *)
Definition publishRecovered (id : string) (dsn source : Envelope) : Q unit :=
  let! st := onDisk (os_Stat E (PEntry Ready id)) in
  match st with
  | Ok _ =>
      let! existing := onDisk (loadAcceptedDir ToASCII E (PEntry Ready id) id) in
      match existing with
      | Ok existing =>
          if sameDSNIdentity existing dsn && (DSNSourceRevision existing =? Revision source)
          then setAside Dsn id (id +:+ "-dsn-duplicate") (corruptionf "duplicate ready DSN")
                 (Message "duplicate ready entry")
          else orphanStage id "collision" (corruptionf "ready DSN collision")
      | Err loadErr =>
          if negb (IsCorruption loadErr)
          then blockBoth id (ID source) (Wrap "read existing ready DSN" loadErr)
                 "linked DSN ready read failed"
          else orphanStage id "collision" (corruptionf "ready DSN collision")
      end
  | Err e =>
      if negb (errors_Is e ErrNotExist)
      then blockBoth id (ID source) (Wrap "inspect ready DSN" e) "linked DSN could not be inspected"
      else
        let! (moved, r) := onDisk (moveState E Dsn id Ready id) in
        match r with
        | Err e => blockBoth id (ID source) (Wrap "publish recovered DSN" e)
                     "linked DSN publication is unresolved"
        | Ok _ => ret tt
        end
  end.

Definition recoverDSNEntry (e : string * object) : Q unit :=
  let id := e.1 in
  match e.2 with
  | Regular _ =>
      setAsideFile Dsn id (id +:+ "-dsn-stray") (corruptionf "stray file in dsn")
        (Message "stray file in dsn")
  | Directory _ =>
      let! staged := onDisk (loadAcceptedDir ToASCII E (PEntry Dsn id) id) in
      match staged with
      | Err err =>
          if negb (IsCorruption err) then
            let! _ := recordTransientBlocked id (Wrap "read staged DSN" err) in
            blockLinkedSource id err
          else
            let! r := quarantineDSNStage id "invalid" err in
            match r with
            | Err qerr =>
                if errors_Is qerr ErrDSNSourceScanIncomplete
                then recordTransientBlocked id qerr
                else recordQuarantineFailure id err qerr
            | Ok _ => ret tt
            end
      | Ok dsn =>
          let sourceDir := join (PSpace Ready) (DSNSourceID dsn) in
          let! barrier := onDisk (Sync E sourceDir) in
          match barrier with
          | Err err =>
              blockBoth id (DSNSourceID dsn) (Wrap "establish source durability barrier" err)
                "linked DSN source barrier failed"
          | Ok _ =>
              let! loaded := onDisk (loadAcceptedDir ToASCII E sourceDir (DSNSourceID dsn)) in
              match loaded with
              | Err err =>
                  if negb (IsCorruption err) && negb (errors_Is err ErrNotExist)
                  then blockBoth id (DSNSourceID dsn) (Wrap "read linked DSN source" err)
                         "linked DSN source read failed"
                  else orphanStage id "orphan" (corruptionf "source link missing or invalid")
              | Ok source =>
                  if negb (bool_decide (Incarnation source = DSNSourceIncarnation dsn))
                     || negb (Revision source =? DSNSourceRevision dsn)
                     || negb (bool_decide (DSNID source = ID dsn))
                     || negb (DSNGeneration source =? DSNGeneration dsn)
                  then orphanStage id "orphan"
                         (corruptionf "source reciprocal DSN identity is invalid")
                  else publishRecovered id dsn source
              end
          end
      end
  end.

Definition recoverDSN : Q (res unit) :=
  try! entries := onDisk (os_ReadDir E (PSpace Dsn)) in
  let! _ := for_each recoverDSNEntry entries in
  ret (Ok tt).

(** ** ready/ *)

(** Charge and schedule a valid entry. *)
Definition chargeReady (id : string) (env : Envelope) : Q unit :=
  let! charged := (λ q, let '(c, ok) := noteAddedLocked env (cap q) in (ok, set_cap c q)) in
  if negb charged then
    setAside Ready id (id +:+ "-accounting-overflow") (corruptionf "queue accounting overflow")
      (Message "queue accounting overflow")
  else let! _ := scheduleLocked env in ret tt.

(** An entry whose metadata and body are valid: what dead/ says about it. *)
Definition reconcileDead (id : string) (env : Envelope) : Q unit :=
  let! dead := onDisk (loadAcceptedDir ToASCII E (PEntry Dead id) id) in
  match dead with
  | Ok dead =>
      if negb (bool_decide (Incarnation dead = Incarnation env))
         || negb (Revision dead =? Revision env)
      then recordBlocked id (conflict "ready and dead entries differ")
      else setAside Ready id (id +:+ "-dead-duplicate") (corruptionf "duplicate dead-letter entry")
             (Message "duplicate dead-letter entry")
  | Err deadErr =>
      if errors_Is deadErr ErrNotExist then chargeReady id env
      else if negb (IsCorruption deadErr)
      then recordTransientBlocked id (Wrap "read colliding dead entry" deadErr)
      else
        let! r := onDisk (quarantineDir E Dead id (id +:+ "-invalid-dead")) in
        match r with
        | Err qerr => recordQuarantineFailure id deadErr qerr
        | Ok _ =>
            let! _ := noteCorrupt (Wrap "dead" deadErr) in
            chargeReady id env
        end
  end.

(** Complete an interrupted revive. *)
Definition completeRevive (id : string) : Q (res unit) :=
  let! st := onDisk (os_Stat E (PFile Ready id reviveMetaName)) in
  match st with
  | Ok _ =>
      let! (moved, r) := onDisk (moveFile E Ready id reviveMetaName metaName) in
      match r, moved with
      | Err e, false => ret (Err (Wrap "complete revive" e))
      | _, _ => ret (Ok tt)
      end
  | Err e => if errors_Is e ErrNotExist then ret (Ok tt) else ret (Err (Wrap "inspect revive" e))
  end.

Definition loadReadyDir (id : string) : Q unit :=
  match ValidateID id with
  | Err err =>
      let cause := corruptionf "invalid ready id" in
      setAside Ready id ("badid-" +:+ sanitize id) cause (Wrap "ready" cause)
  | Ok _ =>
      let! accepted := onDisk (acceptedDir E (PEntry Ready id)) in
      match accepted with
      | Err err =>
          let err := if errors_Is err ErrNotExist
                     then corruptionf "queue entry is missing acceptance state" else err in
          if negb (IsCorruption err)
          then recordTransientBlocked id (Wrap "read acceptance state" err)
          else setAside Ready id id (Wrap "read add state" err) (Wrap "ready: read add state" err)
      | Ok _ =>
          let! revived := completeRevive id in
          match revived with
          | Err e => recordTransientBlocked id e
          | Ok _ =>
              let! loaded := onDisk (loadDir ToASCII E (PEntry Ready id) id) in
              match loaded with
              | Err err =>
                  if negb (IsCorruption err)
                  then recordTransientBlocked id (Wrap "read ready entry" err)
                  else setAside Ready id id err (Wrap "ready" err)
              | Ok env => reconcileDead id env
              end
          end
      end
  end.

Definition loadReadyEntry (e : string * object) : Q unit :=
  let! blocked := gets (λ q, bool_decide (e.1 ∈ blocked q)) in
  if blocked : bool then ret tt
  else
    match e.2 with
    | Regular _ =>
        setAsideFile Ready e.1 (e.1 +:+ "-stray") (corruptionf "stray file in ready")
          (Message "stray file in ready")
    | Directory _ => loadReadyDir e.1
    end.

Definition loadReady : Q (res unit) :=
  try! entries := onDisk (os_ReadDir E (PSpace Ready)) in
  let! _ := for_each loadReadyEntry entries in
  ret (Ok tt).
End recovery.
