(* ===== verification/Open.v ===== *)
(** * Deleting stored entries, and opening and closing a queue
    (src/internal/queue/prune.go, export.go, quarantine.go, open.go)

    Dead letters and quarantined entries are deleted through trash/, on request
    or when their retention has passed.  An administrator lists, loads, exports, retries
    and deletes entries.

    [OpenWithOptions] creates the namespaces, runs the recovery and loads the
    schedule; any failure that could lose an entry fails the open.  The
    platform's checks of the path and its permissions, and the process lock,
    are calls that may fail. *)

From S2P Require Import Prelude Errors GoLib Sha256 Envelope Capacity FileSystem Disk Utf8 Mailbox Validation Queue Storage Delivery Dead.
From S2P Require Import Add Dsn Recovery.
Open Scope Z_scope.

(** ** Names and times *)

(** [strconv.ParseInt(s, 10, 64)]. *)
Fixpoint parse_digits (acc : Z) (l : list ascii) : option Z :=
  match l with
  | [] => Some acc
  | c :: l => if is_digit c then parse_digits (acc * 10 + (byte_val c - 48)) l else None
  end.

Definition parse_unsigned (l : list ascii) : option Z :=
  match l with [] => None | _ => parse_digits 0 l end.

Definition ParseInt (s : string) : option Z :=
  let r := match str_list s with
           | [] => None
           | c :: l =>
               if is_char 45 c then Z.opp <$> parse_unsigned l
               else if is_char 43 c then parse_unsigned l
               else parse_unsigned (c :: l)
           end in
  match r with
  | Some v => if (MinInt64 <=? v) && (v <=? MaxInt64) then Some v else None
  | None => None
  end.

(** When an entry was stored: a quarantined name carries its time. *)
Definition storedAt (corrupt : bool) (name : string) (fallback : Z) : Z :=
  if negb corrupt then fallback
  else
    let dot := LastIndexByte name 46 in
    if dot <? 0 then fallback
    else default fallback (ParseInt (str_drop (Z.to_nat (dot + 1)) name)).

(** [time.Time.Sub] saturates. *)
Definition time_Sub (a b : Z) : Z := Z.max MinInt64 (Z.min MaxInt64 (a - b)).

Definition validOpaqueName (name : string) : bool :=
  negb (is_empty name) && negb (bool_decide (name = ".")) && negb (bool_decide (name = ".."))
  && bool_decide (filepath_Base name = name)
  && negb (contains_byte 47 name) && negb (contains_byte 92 name).

Section prune.
Context {S : Type} `{Scheduler S} `{JsonCodec}.
Variable ToASCII : string → res string.
Variable E : Environment.

Abbreviation Q A := (ST (Queue S) A) (only parsing).

(** [info.ModTime()] after a successful stat. *)
Definition statTime (s : space) (n : string) : ST world (res (object * Z)) :=
  try! o := os_Stat E (PEntry s n) in
  let! t := gets ticks in
  ret (Ok (o, modTime E t s n)).

(** ** Deletion through trash/ *)

Definition deleteStoredLocked (s : space) (name trashName : string) : Q (res unit) :=
  try! _ := onDisk (os_Stat E (PEntry s name)) in
  let! measured := onDisk (AllocatedBytes E s name) in
  let entryBytes := match measured with Ok n => n | Err _ => 0 end in
  let! now := onDisk (time_Now E) in
  let dst := stamped trashName now in
  let! (moved, r) := onDisk (moveState E s name Trash dst) in
  match r, moved with
  | Err e, false => ret (Err e)
  | _, _ =>
      let! cleanup := onDisk (removeTrash E dst) in
      match cleanup with
      | Err cleanupErr =>
          ret (to_res (errors_Join (opt_err r) (Some (Join (Sentinel ErrCleanup) cleanupErr))))
      | Ok _ =>
          let! _ := onCap (removePhysical entryBytes) in
          ret r
      end
  end.

Definition deleteStored (s : space) (name trashName : string) : Q (res unit) :=
  operation (try! _ := startMutation E in deleteStoredLocked s name trashName).

Definition DeleteCorrupt (name : string) : Q (res unit) :=
  if negb (validOpaqueName name) then ret (Err (Sentinel ErrInvalidID))
  else deleteStored Corr name ("corrupt-" +:+ sanitize name).

Definition CorruptIDs : Q (res (list string)) :=
  try! _ := beginOperation in
  let! r := onDisk (os_ReadDir E (PSpace Corr)) in
  let! _ := endOperation in
  ret (let? entries := r in
       Ok (List.filter validOpaqueName (map fst entries))).

(** [DeleteDead]: the linked notification must be gone. *)
Definition deleteDeadOwned (id : string) : Q (string * res unit) :=
  let! loaded := (try! _ := startMutation E in
                  onDisk (loadAcceptedDir ToASCII E (PEntry Dead id) id)) in
  match loaded with
  | Err e => ret ("", Err e)
  | Ok envelope =>
      let! (linked, claimed) := claimLinkedDeadDSN E envelope in
      match claimed with
      | Err e => ret (linked, Err e)
      | Ok _ => let! r := deleteStoredLocked Dead id id in ret (linked, r)
      end
  end.

Definition DeleteDead (id : string) : Q (res unit) :=
  operation
    (match ValidateID id with
     | Err e => ret (Err e)
     | Ok _ =>
         try! _ := beginTransition id in
         let! (linked, r) := deleteDeadOwned id in
         let! _ := endTransitions [id; linked] in
         ret r
     end).

(** ** What an administrator reads and does (export.go)

    A read-only queue reaches an entry through a directory handle, a writable one
    through its path; both are the entry of the namespace. *)

Definition storedIDs (s : space) : Q (res (list string)) :=
  try! _ := beginOperation in
  let! r := onDisk (os_ReadDir E (PSpace s)) in
  let! _ := endOperation in
  ret (let? entries := r in
       Ok (map fst (List.filter (λ e, is_dir e.2 && is_ok (ValidateID e.1)) entries))).

Definition ReadyIDs : Q (res (list string)) := storedIDs Ready.
Definition DeadIDs : Q (res (list string)) := storedIDs Dead.

Definition loadStored (s : space) (id : string) : Q (res Envelope) :=
  try! _ := beginOperation in
  let! r := match ValidateID id with
            | Err e => ret (Err e)
            | Ok _ => onDisk (loadAcceptedDir ToASCII E (PEntry s id) id)
            end in
  let! _ := endOperation in
  ret r.

Definition LoadReady (id : string) : Q (res Envelope) := loadStored Ready id.
Definition LoadDead (id : string) : Q (res Envelope) := loadStored Dead id.

(** [exportStored]: what is handed to the writer, and the error; [write] is the
    writer's answer. *)
Definition exportStored (write : string → res unit) (s : space) (id : string) : Q (option string * res unit) :=
  let! opened := beginOperation in
  match opened with
  | Err e => ret (None, Err e)
  | Ok _ =>
      let! r := match ValidateID id with
                | Err e => ret (Err e)
                | Ok _ =>
                    try! (env, f) := onDisk (openAcceptedBody ToASCII E (PEntry s id) id) in
                    try! body := onDisk (readBodyFromFile E f (Size env) (BodyDigest env)) in
                    ret (firstBodyVariant env body)
                end in
      let! _ := endOperation in
      ret (match r with Ok body => (Some body, write body) | Err e => (None, Err e) end)
  end.

Definition ExportReady write id := exportStored write Ready id.
Definition ExportDead write id := exportStored write Dead id.

(** The entry is taken out of the schedule. *)
Definition unschedule (id : string) : Q unit := modify (λ q,
  match scheduled q !! id with
  | None => q
  | Some h => set_scheduled (delete id (scheduled q)) (set_pending (s_Remove (clock E (ticks (disk q))) h (pending q)).2 q)
  end).

Definition RetryReady (FreeDisk : option (res Z)) (id : string) : Q (option Envelope * res unit) :=
  let! loaded := LoadReady id in
  match loaded with
  | Err e => ret (None, Err e)
  | Ok envelope =>
      let! _ := unschedule id in
      let! now := onDisk (time_Now E) in
      Retry ToASCII E FreeDisk (Some (set_NextAttempt now envelope))
  end.

Definition DeleteReady (id : string) : Q (res unit) :=
  try! envelope := LoadReady id in
  if negb (is_empty (DSNID envelope)) || negb (is_empty (DSNSourceID envelope))
  then ret (Err (Message "refusing to delete a queue entry with linked DSN state"))
  else
    let! _ := unschedule id in
    let! r := Finish ToASCII E (Some envelope) in
    let! _ := match r with Err _ => Requeue envelope | Ok _ => ret tt end in
    ret r.

(** ** Retention *)

(** Put a damaged dead letter aside: the entry is no longer charged. *)
Definition pruneAside (id : string) (r : res unit) (cause : error) : Q (res bool) :=
  match r with
  | Err e => let! _ := recordQuarantineFailure id cause e in ret (Err e)
  | Ok _ =>
      let! _ := noteRemovedQ id in
      let! _ := noteCorrupt (Wrap "dead" cause) in
      ret (Ok false)
  end.

Definition pruneDeadOwned (id : string) (retention now : Z) (initialDead : list string)
    : Q (string * res bool) :=
  let! started := startMutation E in
  match started with
  | Err e => ret ("", Err e)
  | Ok _ =>
      let! blocked := gets (λ q, bool_decide (id ∈ blocked q)) in
      if blocked : bool then ret ("", Ok false)
      else
        let! st := onDisk (statTime Dead id) in
        match st with
        | Err e => if errors_Is e ErrNotExist then ret ("", Ok false) else ret ("", Err e)
        | Ok (o, modified) =>
            if time_Sub now modified <? retention then ret ("", Ok false)
            else if negb (is_dir o) then
              let cause := corruptionf "stray file in dead" in
              let! r := onDisk (quarantineFile E Dead id (id +:+ "-dead-stray")) in
              let! r := pruneAside id r cause in
              ret ("", r)
            else
              let! loaded := onDisk (loadAcceptedDir ToASCII E (PEntry Dead id) id) in
              match loaded with
              | Err cause =>
                  if negb (IsCorruption cause) then ret ("", Err cause)
                  else
                    let! r := onDisk (quarantineDir E Dead id (id +:+ "-invalid-dead")) in
                    let! r := pruneAside id r cause in
                    ret ("", r)
              | Ok envelope =>
                  if is_empty (DSNSourceID envelope) && negb (is_empty (DSNID envelope))
                     && bool_decide (DSNID envelope ∈ initialDead)
                  then ret ("", Ok false)
                  else
                    let! (linked, claimed) := claimLinkedDeadDSN E envelope in
                    match claimed with
                    | Err e => ret (linked, Err e)
                    | Ok _ =>
                        let! r := deleteStoredLocked Dead id (sanitize id) in
                        ret (linked, match r with Err e => Err e | Ok _ => Ok true end)
                    end
              end
        end
  end.

Definition pruneDeadCandidate (id : string) (retention now : Z) (initialDead : list string)
    : Q (res bool) :=
  try! _ := beginTransition id in
  let! (linked, r) := pruneDeadOwned id retention now initialDead in
  let! _ := endTransitions [id; linked] in
  ret r.

Definition pruneCorruptCandidate (name : string) (retention now : Z) (prefix : string)
    : Q (res bool) :=
  try! _ := startMutation E in
  let! st := onDisk (statTime Corr name) in
  match st with
  | Err e => if errors_Is e ErrNotExist then ret (Ok false) else ret (Err e)
  | Ok (_, modified) =>
      if time_Sub now (storedAt true name modified) <? retention then ret (Ok false)
      else
        try! _ := deleteStoredLocked Corr name (prefix +:+ sanitize name) in
        ret (Ok true)
  end.

(** One entry of the loop: the count and the errors so far. *)
Definition pruneEntry (s : space) (retention now : Z) (prefix : string) (initialDead : list string)
    (e : string * object) (acc : Z * option error) : Q (Z * option error) :=
  let '(count, errs) := acc in
  let name := e.1 in
  let! info := onDisk (statTime s name) in
  match info with
  | Err err => ret (count, errors_Join errs (Some err))
  | Ok (_, modified) =>
      let stored := storedAt (bool_decide (s = Corr)) name modified in
      if (time_Sub now stored <? retention) || negb (validOpaqueName name)
      then ret (count, errs)
      else if bool_decide (s = Dead) && negb (is_ok (ValidateID name)) then ret (count, errs)
      else
        let! r := if bool_decide (s = Dead) then pruneDeadCandidate name retention now initialDead
                  else pruneCorruptCandidate name retention now prefix in
        match r with
        | Err err =>
            if errors_Is err ErrIDConflict || errors_Is err ErrQueueBusy then ret (count, errs)
            else ret (count, errors_Join errs (Some (Wrap "prune" err)))
        | Ok deleted => ret (if deleted : bool then count + 1 else count, errs)
        end
  end.

Fixpoint pruneLoop (s : space) (retention now : Z) (prefix : string) (initialDead : list string)
    (entries : list (string * object)) (acc : Z * option error) : Q (Z * option error) :=
  match entries with
  | [] => ret acc
  | e :: entries =>
      let! acc := pruneEntry s retention now prefix initialDead e acc in
      pruneLoop s retention now prefix initialDead entries acc
  end.

Definition pruneNamespace (s : space) (retention now : Z) (prefix : string)
    : Q (Z * option error) :=
  if retention <=? 0 then ret (0, None)
  else
    let! r := onDisk (os_ReadDir E (PSpace s)) in
    match r with
    | Err e => ret (0, Some e)
    | Ok entries =>
        let initialDead := if bool_decide (s = Dead) then map fst entries else [] in
        pruneLoop s retention now prefix initialDead entries (0, None)
    end.

Definition Prune (now : Z) : Q (Z * Z * option error) :=
  let! opened := (try! _ := beginOperation in ret (Ok tt)) in
  match opened with
  | Err e => ret (0, 0, Some e)
  | Ok _ =>
      let! result :=
        (let! ro := rejectReadOnly in
         match ro with
         | Err e => ret (0, 0, Some e)
         | Ok _ =>
             let! l := gets (λ q, limits (cap q)) in
             let! (dead, deadErr) := pruneNamespace Dead (DeadRetention l) now "" in
             let! (corrupt, corruptErr) :=
               pruneNamespace Corr (CorruptRetention l) now "corrupt-" in
             ret (dead, corrupt, errors_Join deadErr corruptErr)
         end) in
      let! _ := endOperation in
      ret result
  end.
End prune.

(** The checks of the limits. *)
Definition limitsError (l : Limits) : option error :=
  if (MaxMessages l <? 0) || (MaxBytes l <? 0) || (MaxMessagesPerUser l <? 0)
     || (MaxBytesPerUser l <? 0) || (MaxSpoolBytes l <? 0) || (SpoolEmergencyBytes l <? 0)
     || (MinFreeDisk l <? 0) || (DeadRetention l <? 0) || (CorruptRetention l <? 0)
  then Some (Message "queue limits must not be negative")
  else if (0 <? MaxSpoolBytes l)
          && ((SpoolEmergencyBytes l <? MinimumSpoolEmergencyBytes)
              || (MaxSpoolBytes l <=? SpoolEmergencyBytes l))
  then Some (Message "spool emergency reserve out of range")
  else None.

Section open.
Context {S : Type} `{Scheduler S} `{JsonCodec}.
Variable ToASCII : string → res string.
Variable E : Environment.

Abbreviation Q A := (ST (Queue S) A) (only parsing).

(** A queue with nothing loaded. *)
Definition newQueue (l : Limits) (w : world) : Queue S :=
  mkQueue (emptyCapacity l) w s_empty false ∅ ∅ ∅ ∅ 0 0 false false [] [].

(** A platform check. *)
Definition platformCheck : ST world (res unit) := call E (λ w, (Ok tt, w)).

Fixpoint openDirectories (spaces : list space) : ST world (res unit) :=
  match spaces with
  | [] => ret (Ok tt)
  | s :: spaces =>
      try! _ := MkdirDurable E (PSpace s) in
      try! _ := platformCheck in
      try! _ := platformCheck in
      openDirectories spaces
  end.

(** The retention pass after the load. *)
Definition startupPrune (disabled : bool) (l : Limits) : Q unit :=
  if negb disabled && ((0 <? DeadRetention l) || (0 <? CorruptRetention l)) then
    let! now := onDisk (time_Now E) in
    let! (dead, corrupt, pruneErr) := Prune ToASCII E now in
    match pruneErr with
    | Some e => noteWarning (Wrap "startup prune" e)
    | None => if 0 <? dead + corrupt
              then noteWarning (Message "startup prune removed entries") else ret tt
    end
  else ret tt.

(** The recovery, once the spool is locked. *)
Definition openRecover (disabled : bool) (l : Limits) : Q (res unit) :=
  try! _ := onDisk (openDirectories [Ready; Dead; Tmp; Dsn; Corr; Trash]) in
  try! _ := refreshSpoolUsage E in
  try! _ := recoverTmp E in
  let! trash := onDisk (cleanTrash E) in
  let! _ := match trash with
            | Err e => noteWarning (Wrap "trash cleanup" e) | Ok _ => ret tt end in
  try! _ := recoverDSN ToASCII E in
  let! _ := validateDead ToASCII E in
  try! _ := loadReady ToASCII E in
  let! _ := startupPrune disabled l in
  refreshSpoolUsage E.

(** The path checks, the lock and the check of the tree. *)
Definition openPlatform : ST world (res unit) :=
  try! _ := platformCheck in
  try! _ := platformCheck in
  try! _ := platformCheck in
  try! _ := platformCheck in
  platformCheck.

Definition OpenWithOptions (l : Limits) (disabled : bool) (w : world) : res (Queue S) * world :=
  match limitsError l with
  | Some e => (Err e, w)
  | None =>
      match (try! _ := onDisk openPlatform in openRecover disabled l) (newQueue l w) with
      | (Err e, q) => (Err e, disk q)
      | (Ok _, q) => (Ok q, disk q)
      end
  end.

Definition Open (l : Limits) (w : world) : res (Queue S) * world := OpenWithOptions l false w.

Definition OpenForMaintenance (l : Limits) (w : world) : res (Queue S) * world :=
  OpenWithOptions l true w.

(** [CloseContext] is irreversible: new operations are refused. *)
Definition startClose (q : Queue S) : Queue S :=
  mkQueue (cap q) (disk q) (pending q) (notify q) (scheduled q) (transitioning q) (requeues q)
    (blocked q) (lastSpoolScan q) (active q) true (readOnly q) (Corrupt q) (Warnings q).
End open.

(** ** Closing (open.go)

    Operations begin and end, [CloseContext] starts the close and waits for it at most
    until its own deadline, and [finishClose] runs in the background.  The spool lock is
    what keeps a second process out. *)

Section closing.
Context {S : Type}.

Record openQueue := mkOpenQueue { oqQueue : Queue S; oqLock : bool; oqErr : option error; oqDone : bool }.

Inductive closeOp :=
  | OpBegin
  | OpEnd
  | OpClose
  | OpFinish (released : res unit).

(** The critical section of [finishClose] with the release of the lock, once no
    operation is active; [released] is the answer of the platform. *)
Definition finishClose (released : res unit) (s : openQueue) : option openQueue :=
  if closing (oqQueue s) && negb (oqDone s) && (active (oqQueue s) <=? 0)
  then Some (mkOpenQueue (oqQueue s) false
               (if oqLock s then match released with Ok _ => None | Err e => Some e end else None) true)
  else None.

(** What [CloseContext] answers: the error of the finished close, or that of its
    context when the close is not done by then. *)
Definition closeAnswer (expired : option error) (s : openQueue) : option (option error) :=
  if oqDone s then Some (oqErr s) else match expired with Some e => Some (Some e) | None => None end.

(** One step; an operation ends only if one is active. *)
Definition closeStep (op : closeOp) (s : openQueue) : option openQueue :=
  match op with
  | OpBegin =>
      match beginOperation (oqQueue s) with
      | (Ok _, q) => Some (mkOpenQueue q (oqLock s) (oqErr s) (oqDone s))
      | (Err _, _) => None
      end
  | OpEnd =>
      if active (oqQueue s) <=? 0 then None
      else Some (mkOpenQueue (endOperation (oqQueue s)).2 (oqLock s) (oqErr s) (oqDone s))
  | OpClose => Some (mkOpenQueue (startClose (oqQueue s)) (oqLock s) (oqErr s) (oqDone s))
  | OpFinish released => finishClose released s
  end.

(** The queue as it was opened, with the lock. *)
Inductive close_reachable (q : Queue S) : openQueue → Prop :=
  | close_start : close_reachable q (mkOpenQueue q true None false)
  | close_step s op s' : close_reachable q s → closeStep op s = Some s' → close_reachable q s'.

(** The lock is held while an operation is active or may begin. *)
Record lock_ok (s : openQueue) : Prop := {
  lk_active : 0 ≤ active (oqQueue s);
  lk_held : oqLock s = negb (oqDone s);
  lk_done : oqDone s = true → closing (oqQueue s) = true ∧ active (oqQueue s) = 0
}.

Lemma closeStep_ok op s s' : lock_ok s → closeStep op s = Some s' → lock_ok s'.
Proof.
  intros [Ha Hl Hd]. destruct op as [| | |released]; cbn [closeStep].
  - unfold beginOperation. destruct (closing (oqQueue s)) eqn:Ec; [done|]. intros [= <-]. split; cbn; [lia|done|].
    intros Hdone. destruct (Hd Hdone); congruence.
  - destruct (Z.leb_spec (active (oqQueue s)) 0); [done|]. intros [= <-]. split; cbn; [lia|done|].
    intros Hdone. destruct (Hd Hdone); lia.
  - intros [= <-]. split; cbn; [done|done|]. intros Hdone. by destruct (Hd Hdone).
  - unfold finishClose. destruct (closing (oqQueue s)) eqn:Ec; [|done]. destruct (oqDone s); [done|]. cbn [andb negb].
    destruct (Z.leb_spec (active (oqQueue s)) 0); [|done]. intros [= <-]. split; cbn; [lia|done|]. intros _. split; [done|lia].
Qed.

(** A second process never runs on the spool of an active operation: in every
    interleaving of operations, closes and the background release, the lock is given up
    only after a close was started and the last operation has ended, and from then on no
    operation begins.  Once a close was started and no operation is active, the release
    can take place. *)
Theorem lock_outlives_operations q s : active q = 0 → close_reachable q s →
  (oqLock s = false → active (oqQueue s) = 0 ∧ (beginOperation (oqQueue s)).1 = Err (Sentinel ErrQueueClosed)) ∧
  (closing (oqQueue s) = true → active (oqQueue s) = 0 → oqLock s = true →
     ∀ released, ∃ s', closeStep (OpFinish released) s = Some s' ∧ oqLock s' = false ∧ oqDone s' = true).
Proof.
  intros Hq Hr. assert (Hs : lock_ok s).
  { induction Hr as [|s op s' _ IH Hst]; [split; cbn; (lia || done)|by apply (closeStep_ok op s)]. }
  destruct Hs as [Ha Hl Hd]. split.
  - intros Hlock. rewrite Hl in Hlock. apply negb_false_iff in Hlock. destruct (Hd Hlock) as [Hc H0]. split; [done|].
    unfold beginOperation. by rewrite Hc.
  - intros Hc H0 Hlock released. rewrite Hl in Hlock. apply negb_true_iff in Hlock. cbn [closeStep]. unfold finishClose.
    rewrite Hc, Hlock, H0. cbn. by eexists.
Qed.
End closing.
