(* ===== verification/Durability.v ===== *)
(** * What a crash can leave of an added message

    Which entries may be found accepted after a crash, and how the disk
    operations change that: the lemmas behind the two durability theorems of
    [AddContext] (AddFacts.v). *)

From S2P Require Import Prelude Errors GoLib FileSystem Disk Queue.
Open Scope Z_scope.

(** ** Calls *)

Definition tick (w : world) : world := set_ticks (S (ticks w)) w.

Lemma call_ok {A} E (k : world → res A * world) w a w' :
  call E k w = (Ok a, w') → k (tick w) = (Ok a, w').
Proof. unfold call. destruct (fault E (ticks w)) as [[e []]|]; [done..|]. done. Qed.

(** The state after a call: untouched, or with the effect. *)
Lemma call_state {A} E (k : world → res A * world) (Q : world → Prop) w :
  Q (tick w) → Q (k (tick w)).2 → Q (call E k w).2.
Proof. unfold call. by destruct (fault E (ticks w)) as [[e []]|]. Qed.

(** A failing call reports a fault of the environment or its own error. *)
Lemma call_err {A} E (k : world → res A * world) w e w' :
  call E k w = (Err e, w') →
  (k (tick w)).1 = Err e ∨ ∃ b, fault E (ticks w) = Some (e, b).
Proof.
  unfold call. destruct (fault E (ticks w)) as [[e' b]|] eqn:F.
  - destruct b; intros [= -> _]; right; eauto.
  - change (set_ticks (S (ticks w)) w) with (tick w). intros Hk. left. by rewrite Hk.
Qed.

(** ** Versions *)

Definition versions {A} (v : vers A) : list A := cur v :: pers v.

(** A crash may leave content [c] in file [f]. *)
Definition may_hold (w : world) (f : nat) (c : string) : Prop :=
  ∃ v, files w !! f = Some v ∧ c ∈ versions v.

(** A crash may leave name [n] of directory [d] bound to [o]. *)
Definition may_entry (w : world) (d : dref) (n : string) (o : object) : Prop :=
  ∃ v t, dirs w !! d = Some v ∧ t ∈ versions v ∧ t !! n = Some o.

Lemma may_entry_cur w d t n o :
  table_of w d = Some t → t !! n = Some o → may_entry w d n o.
Proof.
  unfold table_of. intros Ht Hn. destruct (dirs w !! d) as [v|] eqn:E; [|done].
  simplify_eq/=. exists v, (cur v). split_and!; [done|by left|done].
Qed.

Lemma may_entry_put w d t d' n o :
  may_entry (put_table d t w) d' n o → may_entry w d' n o ∨ (d' = d ∧ t !! n = Some o).
Proof.
  intros (v & t' & Hv & Ht & Hn). simpl in Hv. rewrite lookup_alter in Hv.
  case_decide as Hd; [|left; by exists v, t']. subst.
  destruct (dirs w !! d') as [v0|] eqn:E; simplify_eq/=.
  unfold versions in Ht. simpl in Ht. rewrite elem_of_cons, elem_of_app, list_elem_of_singleton in Ht.
  destruct Ht as [->|[Ht| ->]]; [by right| |by right].
  left. exists v0, t'. split_and!; [done|by right|done].
Qed.

Lemma may_hold_put w f c f' c' :
  may_hold (put_file f c w) f' c' → may_hold w f' c' ∨ (f' = f ∧ c' = c).
Proof.
  intros (v & Hv & Hc). simpl in Hv. rewrite lookup_alter in Hv.
  case_decide as Hf; [|left; by exists v]. subst.
  destruct (files w !! f') as [v0|] eqn:E; simplify_eq/=.
  unfold versions in Hc. simpl in Hc. rewrite elem_of_cons, elem_of_app, list_elem_of_singleton in Hc.
  destruct Hc as [->|[Hc| ->]]; [by right| |by right].
  left. exists v0. split; [done|by right].
Qed.

Lemma may_entry_settle w d d' n o :
  may_entry (set_dirs (alter settled d (dirs w)) w) d' n o → may_entry w d' n o.
Proof.
  intros (v & t' & Hv & Ht & Hn). simpl in Hv. rewrite lookup_alter in Hv.
  case_decide; [|by exists v, t']. subst. destruct (dirs w !! d') as [v0|] eqn:E; simplify_eq/=.
  exists v0, t'. split_and!; [done| |done].
  unfold versions in *. simpl in Ht.
  apply elem_of_cons in Ht as [->|Ht]; [by left|]. apply list_elem_of_singleton in Ht as ->. by left.
Qed.

Lemma may_hold_settle w f f' c :
  may_hold (set_files (alter settled f (files w)) w) f' c → may_hold w f' c.
Proof.
  intros (v & Hv & Hc). simpl in Hv. rewrite lookup_alter in Hv.
  case_decide; [|by exists v]. subst. destruct (files w !! f') as [v0|] eqn:E; simplify_eq/=.
  exists v0. split; [done|]. unfold versions in *. simpl in Hc.
  apply elem_of_cons in Hc as [->|Hc]; [by left|]. apply list_elem_of_singleton in Hc as ->. by left.
Qed.

(** ** Acceptance *)

Definition accAt (w : world) (s : space) (n : string) : Prop :=
  ∃ d f, may_entry w (Sp s) n (Directory d) ∧
         may_entry w (Ent d) addStateName (Regular f) ∧ may_hold w f addAccepted.

Definition ino (o : object) : nat := match o with Regular f => f | Directory d => d end.

(** Every inode a directory may refer to has been allocated. *)
Definition wfw (w : world) : Prop := ∀ d n o, may_entry w d n o → (ino o < inode w)%nat.

Section safe.
Variable id : string.

(** Entry [id] may be accepted, in ready/ or while still in tmp/. *)
Definition acc (w : world) : Prop := accAt w Ready id ∨ accAt w Tmp id.

(** Nothing becomes acceptable that was not. *)
Definition safe (w w' : world) : Prop := wfw w → wfw w' ∧ (acc w' → acc w).

#[export] Instance safe_preorder : PreOrder safe.
Proof.
  split.
  - intros w Hw. done.
  - intros a b c Hab Hbc Ha. destruct (Hab Ha) as [Hb Hab']. destruct (Hbc Hb) as [Hc Hbc'].
    split; auto.
Qed.

Lemma safe_tick w : safe w (tick w).
Proof. done. Qed.

(** Fewer possibilities are safe. *)
Lemma safe_shrink w w' :
  (∀ d n o, may_entry w' d n o → may_entry w d n o) →
  (∀ f c, may_hold w' f c → may_hold w f c) → (inode w ≤ inode w')%nat → safe w w'.
Proof.
  intros He Hh Hi Hw. split.
  - intros d n o Hm%He%Hw. lia.
  - unfold acc, accAt. intros [(d & f & H1 & H2 & H3)|(d & f & H1 & H2 & H3)]; [left|right];
      exists d, f; auto.
Qed.

Lemma safe_call {A} E (k : world → res A * world) :
  (∀ w, safe w (k w).2) → keeps safe (call E k).
Proof.
  intros Hk w. apply (call_state E k (safe w)); [apply safe_tick|].
  etrans; [apply safe_tick|apply Hk].
Qed.

Lemma safe_read {A} E (k : world → res A) : keeps safe (call E (λ w, (k w, w))).
Proof. apply safe_call. intros w. simpl. reflexivity. Qed.

Lemma safe_put_sub w d t :
  (∀ n o, t !! n = Some o → may_entry w d n o) → safe w (put_table d t w).
Proof.
  intros Ht. apply safe_shrink; [|done|done].
  intros d' n o [H|[-> H]]%may_entry_put; [done|by apply Ht].
Qed.

Lemma safe_os_Unlink E d n : keeps safe (os_Unlink E d n).
Proof.
  apply safe_call. intros w. destruct (table_of w d) as [t|] eqn:Ht; [|reflexivity].
  assert (Hsub : safe w (put_table d (delete n t) w)).
  { apply safe_put_sub. intros m o [_ Hm]%lookup_delete_Some. by apply (may_entry_cur w d t). }
  destruct (t !! n) as [[f|e]|]; [exact Hsub| |reflexivity].
  case_decide; [exact Hsub|reflexivity].
Qed.

Lemma safe_os_SyncDir E p : keeps safe (os_SyncDir E p).
Proof.
  apply safe_call. intros w.
  assert (Hs : ∀ d, safe w (set_dirs (alter settled d (dirs w)) w)).
  { intros d. apply safe_shrink; [apply may_entry_settle|done|done]. }
  destruct p; [reflexivity|destruct (resolve_dir w _); [apply Hs|reflexivity]..].
Qed.

Lemma safe_os_SyncFile E f : keeps safe (os_SyncFile E f).
Proof.
  apply safe_call. intros w. simpl.
  apply safe_shrink; [done|apply may_hold_settle|done].
Qed.

Lemma safe_os_MkdirSpace E s : keeps safe (os_MkdirSpace E s).
Proof.
  apply safe_call. intros w. destruct (dirs w !! Sp s) as [v|] eqn:Hs; [reflexivity|]. simpl.
  apply safe_shrink; [|done|done].
  intros d n o (v & t & Hv & Ht & Hn). simpl in Hv. rewrite lookup_insert in Hv.
  case_decide; [|by exists v, t]. simplify_eq. unfold versions in Ht. simpl in Ht. exfalso.
  repeat (apply elem_of_cons in Ht as [->|Ht]; [by rewrite lookup_empty in Hn|]).
  by apply elem_of_nil in Ht.
Qed.

(** A new empty directory. *)
Lemma may_entry_new_dir w k d n o :
  may_entry (set_dirs (<[k := fresh_vers ∅]> (dirs w)) w) d n o → d ≠ k ∧ may_entry w d n o.
Proof.
  intros (v & t & Hv & Ht & Hn). simpl in Hv. rewrite lookup_insert in Hv.
  case_decide as Hd; [|split; [congruence|by exists v, t]]. simplify_eq. exfalso.
  unfold versions in Ht. simpl in Ht.
  repeat (apply elem_of_cons in Ht as [->|Ht]; [by rewrite lookup_empty in Hn|]).
  by apply elem_of_nil in Ht.
Qed.

Lemma safe_os_Mkdir E s n : keeps safe (os_Mkdir E s n).
Proof.
  apply safe_call. intros w. destruct (table_of w (Sp s)) as [t|] eqn:Ht; [|reflexivity].
  destruct (t !! n) as [o|] eqn:Hn; [reflexivity|]. simpl.
  set (d := inode w).
  set (w1 := set_dirs (<[Ent d := fresh_vers ∅]> (dirs w)) (set_inode (Datatypes.S d) w)).
  intros Hw.
  assert (Hme : ∀ dr m o, may_entry (put_table (Sp s) (<[n:=Directory d]> t) w1) dr m o →
            (dr ≠ Ent d ∧ may_entry w dr m o) ∨ (dr = Sp s ∧ m = n ∧ o = Directory d)).
  { intros dr m o [Hm|[-> Hm]]%may_entry_put.
    - left. apply (may_entry_new_dir w (Ent d)) in Hm. done.
    - destruct (decide (m = n)) as [->|Hmn].
      + rewrite lookup_insert_eq in Hm. simplify_eq. by right.
      + rewrite lookup_insert_ne in Hm by done. left. split; [done|].
        by apply (may_entry_cur w (Sp s) t). }
  split.
  - intros dr m o [[_ Hm%Hw]|(_ & _ & ->)]%Hme; simpl; lia.
  - intros Hacc.
    assert (Hone : ∀ s', accAt (put_table (Sp s) (<[n:=Directory d]> t) w1) s' id → accAt w s' id).
    { intros s' (d' & f & H1 & H2 & H3). apply Hme in H2 as [[Hne H2]|[? _]]; [|done].
      apply Hme in H1 as [[_ H1]|(_ & _ & [= ->])]; [|by destruct Hne].
      by exists d', f. }
    destruct Hacc as [Ha|Ha]; [left|right]; by apply Hone.
Qed.

(** A new empty file. *)
Lemma safe_os_CreateTemp E d name : keeps safe (os_CreateTemp E d name).
Proof.
  apply safe_call. intros w. destruct (table_of w d) as [t|] eqn:Ht; [|reflexivity].
  destruct (t !! name) as [o|] eqn:Hn; [reflexivity|]. simpl.
  set (f := inode w). set (w1 := set_files _ _). intros Hw.
  assert (Hme : ∀ dr m o, may_entry (put_table d (<[name:=Regular f]> t) w1) dr m o →
            may_entry w dr m o ∨ o = Regular f).
  { intros dr m o [Hm|[-> Hm]]%may_entry_put; [by left|].
    destruct (decide (m = name)) as [->|Hmn].
    - rewrite lookup_insert_eq in Hm. simplify_eq. by right.
    - rewrite lookup_insert_ne in Hm by done. left. by apply (may_entry_cur w d t). }
  assert (Hho : ∀ f' c, may_hold (put_table d (<[name:=Regular f]> t) w1) f' c →
            (f' = f ∧ c = "") ∨ (f' ≠ f ∧ may_hold w f' c)).
  { intros f' c (v & Hv & Hc). simpl in Hv. rewrite lookup_insert in Hv. case_decide.
    - simplify_eq. left. split; [done|]. unfold versions in Hc. simpl in Hc. set_solver.
    - right. split; [congruence|by exists v]. }
  split.
  - intros dr m o [Hm%Hw| ->]%Hme; simpl; lia.
  - assert (Hone : ∀ s', accAt (put_table d (<[name:=Regular f]> t) w1) s' id → accAt w s' id).
    { intros s' (d' & f' & H1 & H2 & H3). apply Hho in H3 as [[_ ?]|[Hne H3]]; [done|].
      apply Hme in H1 as [H1|?]; [|done]. apply Hme in H2 as [H2|[= ->]]; [|done].
      by exists d', f'. }
    intros [Ha|Ha]; [left|right]; by apply Hone.
Qed.

(** Writing anything but the accepted marker. *)
Lemma safe_put_file w f c :
  (c ≠ addAccepted ∨ ∀ d, ¬ may_entry w d addStateName (Regular f)) → safe w (put_file f c w).
Proof.
  intros Hc Hw. split; [done|].
  assert (Hone : ∀ s', accAt (put_file f c w) s' id → accAt w s' id).
  { intros s' (d' & f' & H1 & H2 & [H3|[-> Hca]]%may_hold_put); [by exists d', f'|].
    destruct Hc as [Hc|Hc]; [congruence|]. exfalso. by apply (Hc (Ent d')). }
  intros [Ha|Ha]; [left|right]; by apply Hone.
Qed.

Lemma safe_os_Write E f c : c ≠ addAccepted → keeps safe (os_Write E f c).
Proof. intros Hc. apply safe_call. intros w. simpl. apply safe_put_file. by left. Qed.

(** ** Composite operations *)

Hint Resolve safe_os_Unlink safe_os_SyncDir safe_os_SyncFile safe_os_MkdirSpace safe_os_Mkdir
  safe_os_CreateTemp safe_os_Write : core.

Lemma safe_time_Now E : keeps safe (time_Now E).
Proof. intros w. apply safe_tick. Qed.

Lemma safe_os_Stat E p : keeps safe (os_Stat E p).
Proof. apply safe_read. Qed.

Lemma safe_Sync E p : keeps safe (Sync E p).
Proof. apply safe_os_SyncDir. Qed.

Lemma safe_SyncFile E f : keeps safe (SyncFile E f).
Proof. apply safe_os_SyncFile. Qed.

Hint Resolve safe_time_Now safe_os_Stat safe_Sync safe_SyncFile safe_read : core.

Lemma safe_Mkdir E p : keeps safe (Mkdir E p).
Proof.
  intros w. destruct p as [|s|s n|s n f]; unfold Mkdir; [reflexivity| | |reflexivity].
  - destruct (dirs w !! Sp s); [reflexivity|apply safe_os_MkdirSpace].
  - apply (keeps_try safe); [destruct (dirs w !! Sp s); keep|].
    intros [] w1. destruct (entry_obj w1 s n) as [[]|]; [reflexivity..|apply safe_os_Mkdir].
Qed.

Lemma safe_missing_loop E ps : keeps safe (missing_loop E ps).
Proof. induction ps as [|p ps IH]; simpl; keep. Qed.

Lemma safe_sync_parents E ps : keeps safe (sync_parents E ps).
Proof. induction ps as [|p ps IH]; simpl; keep. Qed.

Lemma safe_os_mkdir_path E p : keeps safe (os_mkdir_path E p).
Proof. destruct p; simpl; keep. Qed.

Lemma safe_os_remove_path E p : keeps safe (os_remove_path E p).
Proof.
  intros w. destruct p as [|s|s n|s n f]; unfold os_remove_path; try reflexivity.
  - apply safe_os_Unlink.
  - destruct (resolve_dir w _); [apply safe_os_Unlink|reflexivity].
Qed.

Hint Resolve safe_Mkdir safe_missing_loop safe_sync_parents safe_os_mkdir_path
  safe_os_remove_path : core.

Lemma safe_create_missing E ps : keeps safe (create_missing E ps).
Proof. induction ps as [|p ps IH]; simpl; keep. Qed.

Hint Resolve safe_create_missing : core.

Lemma safe_MkdirDurable E p : keeps safe (MkdirDurable E p).
Proof. unfold MkdirDurable. keep. Qed.

Lemma safe_unlink_all E fuel : ∀ d entries, keeps safe (unlink_all E fuel d entries).
Proof.
  induction fuel as [|fuel IHf]; intros d entries;
    (induction entries as [|[name o] entries IH]; simpl; [keep|]);
    (apply keeps_bind; [apply _| |intros []; keep]).
  - destruct o; keep.
  - destruct o as [f|e]; [keep|]. apply keeps_try; [apply _| |keep].
    intros w. destruct (table_of w (Ent e)); [apply IHf|reflexivity].
Qed.

Lemma safe_removeAllSecure E s n : keeps safe (removeAllSecure E s n).
Proof.
  intros w. unfold removeAllSecure. destruct (entry_obj w s n) as [[f|d]|]; [keep| |reflexivity].
  - apply safe_os_Unlink.
  - apply (keeps_try safe); [|keep].
    intros w1. destruct (table_of w1 (Ent d)); [apply safe_unlink_all|reflexivity].
Qed.

Lemma safe_RemoveAll E s n : keeps safe (RemoveAll E s n).
Proof. unfold RemoveAll. keep. apply safe_removeAllSecure. Qed.

(** Renaming an entry, other than into ready/<id> or tmp/<id>; or publishing
    the stage. *)
Lemma safe_os_Rename E s n s' n' :
  (s' ≠ Ready ∧ s' ≠ Tmp) ∨ n' ≠ id ∨ (s = Tmp ∧ n = id ∧ s' = Ready) →
  keeps safe (os_Rename E (Sp s) n (Sp s') n').
Proof.
  intros Hcond. apply safe_call. intros w.
  destruct (table_of w (Sp s)) as [t|] eqn:Ht; [|reflexivity].
  destruct (table_of w (Sp s')) as [t'|] eqn:Ht'; [|reflexivity].
  destruct (t !! n) as [o|] eqn:Ho; [|reflexivity].
  destruct (may_replace w o (t' !! n')); [reflexivity|].
  set (w' := (if decide (Sp s = Sp s') then _ else _).2).
  assert (Hsrc : may_entry w (Sp s) n o) by (by apply (may_entry_cur w _ t)).
  assert (Hme : ∀ dr m o', may_entry w' dr m o' →
            may_entry w dr m o' ∨ (dr = Sp s' ∧ m = n' ∧ o' = o)).
  { intros dr m o'. subst w'. case_decide as Hd; simpl.
    - intros [Hm|[-> Hm]]%may_entry_put; [by left|].
      destruct (decide (m = n')) as [->|Hmn].
      + rewrite lookup_insert_eq in Hm. simplify_eq. by right.
      + rewrite lookup_insert_ne in Hm by done. apply lookup_delete_Some in Hm as [_ Hm].
        left. by apply (may_entry_cur w _ t).
    - intros [[Hm|[-> Hm]]%may_entry_put|[-> Hm]]%may_entry_put; [by left| |].
      + apply lookup_delete_Some in Hm as [_ Hm]. left. by apply (may_entry_cur w _ t).
      + destruct (decide (m = n')) as [->|Hmn].
        * rewrite lookup_insert_eq in Hm. simplify_eq. by right.
        * rewrite lookup_insert_ne in Hm by done. left. by apply (may_entry_cur w _ t'). }
  assert (Hfiles : files w' = files w ∧ inode w' = inode w).
  { subst w'. by case_decide. }
  destruct Hfiles as [Hfl Hin]. intros Hw. split.
  - intros dr m o' [Hm%Hw|(_ & _ & ->)]%Hme; rewrite Hin; [done|]. by apply Hw in Hsrc.
  - assert (Hone : ∀ s1, s1 = Ready ∨ s1 = Tmp → accAt w' s1 id → acc w).
    { intros s1 Hs1 (d & f & H1 & H2 & H3).
      assert (H3' : may_hold w f addAccepted).
      { destruct H3 as (v & Hv & Hc). rewrite Hfl in Hv. by exists v. }
      apply Hme in H2 as [H2|[? _]]; [|done].
      apply Hme in H1 as [H1|([= Es] & En & Eo)].
      - destruct Hs1 as [-> | ->]; [left|right]; by exists d, f.
      - subst s1. destruct Hcond as [[? ?]|[?|(-> & -> & ->)]]; [naive_solver|congruence|].
        right. exists d, f. by rewrite Eo. }
    intros [Ha|Ha]; [apply (Hone Ready)|apply (Hone Tmp)]; auto.
Qed.

Lemma safe_Rename E s n s' n' :
  (s' ≠ Ready ∧ s' ≠ Tmp) ∨ n' ≠ id ∨ (s = Tmp ∧ n = id ∧ s' = Ready) →
  keeps safe (Rename E s n s' n').
Proof.
  intros Hcond. unfold Rename. keep. by apply safe_os_Rename.
Qed.

(** Renaming a file within an entry. *)
Lemma safe_os_RenameFile E e n n' w :
  (∀ t f, table_of w (Ent e) = Some t → t !! n = Some (Regular f) → n' = addStateName →
     ¬ may_hold w f addAccepted) →
  safe w (os_Rename E (Ent e) n (Ent e) n' w).2.
Proof.
  intros Hcond. unfold os_Rename. apply call_state; [apply safe_tick|].
  etrans; [apply safe_tick|]. set (w1 := tick w).
  change (table_of w (Ent e)) with (table_of w1 (Ent e)) in Hcond.
  change (may_hold w) with (may_hold w1) in Hcond. clearbody w1. clear w.
  destruct (table_of w1 (Ent e)) as [t|] eqn:Ht; [|reflexivity].
  destruct (t !! n) as [o|] eqn:Ho; [|reflexivity].
  destruct (may_replace w1 o (t !! n')); [reflexivity|].
  rewrite decide_True by done. simpl.
  assert (Hsrc : may_entry w1 (Ent e) n o) by (by apply (may_entry_cur w1 _ t)).
  assert (Hme : ∀ dr m o', may_entry (put_table (Ent e) (<[n':=o]> (delete n t)) w1) dr m o' →
            may_entry w1 dr m o' ∨ (dr = Ent e ∧ m = n' ∧ o' = o)).
  { intros dr m o' [Hm|[-> Hm]]%may_entry_put; [by left|].
    destruct (decide (m = n')) as [->|Hmn].
    - rewrite lookup_insert_eq in Hm. simplify_eq. by right.
    - rewrite lookup_insert_ne in Hm by done. apply lookup_delete_Some in Hm as [_ Hm].
      left. by apply (may_entry_cur w1 _ t). }
  intros Hw. split.
  - intros dr m o' [Hm%Hw|(_ & _ & ->)]%Hme; [done|]. by apply Hw in Hsrc.
  - assert (Hone : ∀ s1, accAt (put_table (Ent e) (<[n':=o]> (delete n t)) w1) s1 id →
              accAt w1 s1 id).
    { intros s1 (d & f & H1 & H2 & H3). apply Hme in H1 as [H1|[? _]]; [|done].
      apply Hme in H2 as [H2|(_ & En & Eo)]; [by exists d, f|].
      exfalso. subst o. by apply (Hcond t f eq_refl Ho (eq_sym En)). }
    intros [Ha|Ha]; [left|right]; by apply Hone.
Qed.

(** *** Writing a file of an entry *)

Section write.
Context (E : Environment) (base body : string).
Hypothesis Hmark : base ≠ addStateName ∨ body ≠ addAccepted.

(** The temporary file [f] of entry [e] cannot pass for an accepted marker. *)
Definition staged (e : nat) (temp : string) (f : nat) (w : world) : Prop :=
  wfw w ∧ (∃ t, table_of w (Ent e) = Some t ∧ t !! temp = Some (Regular f)) ∧
  ((base ≠ addStateName ∧ ∀ d, ¬ may_entry w d addStateName (Regular f)) ∨
   (body ≠ addAccepted ∧ ¬ may_hold w f addAccepted)).

Lemma triple_keeps {A} (m : ST world A) :
  keeps safe m → triple safe wfw m (λ _, wfw).
Proof. intros Hm w Hw. split; [apply Hm|]. by apply Hm. Qed.

Lemma staged_call e temp f {A} (k : world → res A * world) :
  (∀ w, staged e temp f w → safe w (k w).2 ∧ staged e temp f (k w).2) →
  triple safe (staged e temp f) (call E k) (λ _, staged e temp f).
Proof.
  intros Hk w Hw. assert (Hw1 : staged e temp f (tick w)) by exact Hw.
  destruct (Hk (tick w) Hw1) as [Hs Hst].
  split.
  - apply (call_state E k (safe w)); [apply safe_tick|]. etrans; [apply safe_tick|exact Hs].
  - by apply (call_state E k (staged e temp f)).
Qed.

Lemma staged_write e temp f :
  triple safe (staged e temp f) (os_Write E f body) (λ _, staged e temp f).
Proof.
  apply staged_call. intros w (Hw & Ht & Hc). simpl. split.
  - apply safe_put_file. destruct Hc as [[_ Hc]|[Hc _]]; auto.
  - split_and!; [done|done|]. destruct Hc as [[Hb Hc]|[Hb Hc]]; [by left|right].
    split; [done|]. intros [Hh|[_ Hh]]%may_hold_put; [done|congruence].
Qed.

Lemma staged_sync e temp f :
  triple safe (staged e temp f) (SyncFile E f) (λ _, staged e temp f).
Proof.
  apply staged_call. intros w (Hw & Ht & Hc). simpl. split.
  - apply safe_shrink; [done|apply may_hold_settle|done].
  - split_and!; [done|done|]. destruct Hc as [[Hb Hc]|[Hb Hc]]; [by left|right].
    split; [done|]. by intros Hh%may_hold_settle.
Qed.

Lemma staged_idle e temp f :
  triple safe (staged e temp f) (call E (λ w, (Ok tt, w))) (λ _, staged e temp f).
Proof. apply staged_call. intros w Hw. simpl. split; [reflexivity|done]. Qed.

Lemma staged_rename e temp f :
  triple safe (staged e temp f) (os_Rename E (Ent e) temp (Ent e) base) (λ _, wfw).
Proof.
  intros w (Hw & (t & Ht & Htemp) & Hc).
  assert (Hs : safe w (os_Rename E (Ent e) temp (Ent e) base w).2).
  { apply safe_os_RenameFile. intros t' f' Ht' Htemp' Hbase.
    assert (f' = f) as -> by congruence. destruct Hc as [[? _]|[_ ?]]; done. }
  split; [done|]. by apply Hs.
Qed.

Lemma staged_commit e temp f s n :
  triple safe (staged e temp f) (commit E (Ent e) temp f s n base) (λ _, wfw).
Proof.
  unfold commit.
  eapply triple_try; [apply _|apply (staged_idle e temp f)| |by intros ? ? (? & _)]. intros [].
  eapply triple_try; [apply _|apply (staged_sync e temp f)| |by intros ? ? (? & _)]. intros [].
  eapply triple_try; [apply _|apply (staged_idle e temp f)| |by intros ? ? (? & _)]. intros [].
  eapply triple_try; [apply _|apply (staged_rename e temp f)| |done]. intros [].
  apply triple_keeps, safe_Sync.
Qed.

(** What [Temp] returns. *)
Lemma staged_Temp s n :
  triple safe wfw (Temp E s n base) (λ r w,
    match r with
    | Ok (d, temp, f) => ∃ e, d = Ent e ∧ staged e temp f w
    | Err _ => wfw w
    end).
Proof.
  unfold Temp. eapply triple_try; [apply _|apply triple_keeps, safe_Mkdir| |done]. intros [] w Hw.
  destruct (resolve_dir w (PEntry s n)) as [d|] eqn:Hd; [|done].
  set (temp := tempName base (suffix E (ticks w))).
  assert (Hs : safe w ((try! f := os_CreateTemp E d temp in ret (Ok (d, temp, f))) w).2).
  { apply (keeps_try safe); [apply safe_os_CreateTemp|]. intros f. apply keeps_ret. apply _. }
  split; [done|]. destruct (Hs Hw) as [Hw' _]. revert Hw'. clear Hs. unfold try_, bind.
  destruct (os_CreateTemp E d temp w) as [[f|err] w'] eqn:Hc; simpl; [|done]. intros Hw'.
  apply call_ok in Hc. change (table_of (tick w) d) with (table_of w d) in Hc.
  destruct (table_of w d) as [t|] eqn:Ht; [|done].
  destruct (t !! temp) as [o|] eqn:Ho; [done|]. simplify_eq/=.
  assert (∃ e, d = Ent e) as [e ->].
  { unfold resolve_dir in Hd. repeat case_match; simplify_eq; eauto. }
  exists e. split; [done|]. split_and!; [done| |].
  - unfold table_of in Ht |- *. simpl. rewrite lookup_alter_eq.
    destruct (dirs w !! Ent e) as [v|]; [|done]. simpl. eexists. split; [done|].
    apply lookup_insert_eq.
  - destruct Hmark as [Hb|Hb]; [left|right]; (split; [done|]).
    + intros d Hm. apply may_entry_put in Hm as [Hm|[-> Hm]].
      * apply Hw in Hm. simpl in Hm. lia.
      * rewrite lookup_insert_ne in Hm by discriminate.
        apply (may_entry_cur w (Ent e) t) in Hm; [|done]. apply Hw in Hm. simpl in Hm. lia.
    + intros (v & Hv & Hin). simpl in Hv. rewrite lookup_insert_eq in Hv. simplify_eq.
      unfold versions in Hin. simpl in Hin. apply elem_of_cons in Hin as [?|Hin]; [done|].
      by apply list_elem_of_singleton in Hin.
Qed.

Lemma safe_WriteWithTempState s n : keeps safe (WriteWithTempState E s n base body).
Proof.
  assert (Ht : triple safe wfw (WriteWithTempState E s n base body) (λ _, wfw)).
  { unfold WriteWithTempState.
    eapply triple_bind; [apply _|apply staged_Temp|]. intros [[[d temp] f]|err]; [|by apply triple_ret; [apply _|]].
    intros w (e & -> & Hst). revert w Hst.
    change (triple safe (staged e temp f)
      (let! r := os_Write E f body in
       match r with
       | Ok _ =>
           let! r := Commit E (Ent e) temp f s n base in
           match r with
           | Ok _ => ret (false, Ok tt)
           | Err err => let! may := pathMayExist E s n temp in ret (may, Err err)
           end
       | Err err =>
           let! _ := os_Unlink E (Ent e) temp in
           let! may := pathMayExist E s n temp in ret (may, Err err)
       end) (λ _, wfw)).
    eapply triple_bind; [apply _|apply staged_write|].
    assert (Hmay : ∀ file, keeps safe (pathMayExist E s n file)).
    { intros file. unfold pathMayExist. keep. }
    intros [[]|err].
    - unfold Commit. eapply (triple_bind _ _ _ _ (λ _, wfw)).
      + eapply triple_bind; [apply _|apply staged_commit|].
        intros [[]|err]; apply triple_keeps; keep.
      + intros [[]|err]; apply triple_keeps; keep.
    - eapply (triple_conseq _ _ wfw); [apply triple_keeps; keep|by intros ? (? & _)|done]. }
  intros w Hw. by apply Ht.
Qed.

Lemma safe_Write s n : keeps safe (Write E s n base body).
Proof. unfold Write. apply keeps_bind; [apply _|apply safe_WriteWithTempState|]. intros. keep. Qed.
End write.
End safe.
