(* ===== verification/Samples.v ===== *)
(** * Concrete runs

    An empty spool, a codec of one envelope and environments without and with a
    failing call: the concrete inputs at which the theorems about the spool are
    applied. *)

From S2P Require Import Prelude Errors GoLib Sha256 Envelope Capacity Utf8 Mailbox Validation.
From S2P Require Import FileSystem Disk Queue Storage Add Durability.
Open Scope Z_scope.

(** A codec that knows the one envelope [stub]. *)
#[export] Program Instance sampleCodec (stub : Envelope) : JsonCodec | 100 := {
  json_Marshal e := if decide (e = stub) then Ok "{}" else Err (Message "unsupported value");
  json_Unmarshal raw := if decide (raw = "{}") then Ok stub else Err (Message "syntax error");
  json_safe e := e = stub
}.
Next Obligation. intros stub e b -> Hm. cbn in *. by case_decide; simplify_eq. Qed.
Next Obligation. intros stub e err Hm. cbn in *. by case_decide; simplify_eq. Qed.

(** Sixteen random bytes, a clock, one suffix; the calls in [failing] fail
    without effect. *)
Definition sampleEnv (failing : list nat) : Environment :=
  mkEnvironment (λ n, if decide (n ∈ failing) then Some (Errno 5, false) else None)
    Z.of_nat (λ _, "1") (λ _, "0123456789abcdef") (λ _, 4096)
    (λ _ _ _, 0).

#[export] Instance sampleEnv_honest failing : Honest (sampleEnv failing).
Proof.
  constructor. intros t e b. cbn. case_decide; [|done]. by intros [= <- <-].
Qed.

(** The namespace directories, all empty. *)
Definition emptySpool : world :=
  mkWorld (list_to_map (map (λ s, (Sp s, fresh_vers ∅)) [Ready; Dead; Tmp; Dsn; Corr; Trash]))
    ∅ 1 0.

Definition emptyQueue (l : Limits) : Queue refSchedule :=
  mkQueue (emptyCapacity l) emptySpool s_empty false ∅ ∅ ∅ ∅ 0 0 false false [] [].

Definition noLimits : Limits := mkLimits 0 0 0 0 0 0 0 0 0.

Definition sampleIncarnation : string := newIncarnation "0123456789abcdef".

(** [sample_envelope] as accepted. *)
Definition acceptedSample : Envelope :=
  set_Recipients [set_rDomain "example.org" (set_rStatus StatusPending sample_recipient)]
    (set_Incarnation sampleIncarnation sample_envelope).

Lemma emptySpool_entries d n o : ¬ may_entry emptySpool d n o.
Proof.
  intros (v & t & Hv & Ht & Ho).
  apply elem_of_list_to_map_2, list_elem_of_fmap in Hv as (s & [= _ ->] & _).
  unfold versions in Ht. simpl in Ht.
  repeat (apply elem_of_cons in Ht as [->|Ht]; [by rewrite lookup_empty in Ho|]).
  by apply elem_of_nil in Ht.
Qed.

Lemma emptySpool_wf : wfw emptySpool.
Proof. intros d n o H. by apply emptySpool_entries in H. Qed.

Lemma emptySpool_acc id : ¬ acc id emptySpool.
Proof. intros [(d & f & H & _)|(d & f & H & _)]; by apply emptySpool_entries in H. Qed.

Definition sampleAdd (failing : list nat) :=
  @AddContext refSchedule _ (sampleCodec acceptedSample) sampleIDNA (sampleEnv failing) None
    (λ _, false) (Some sample_envelope) "hello" (emptyQueue noLimits).
