(* ===== verification/SubmissionFacts.v ===== *)
(** * What submission guarantees

    The body variants of a submission tile its bundle, and a recipient with an
    encryption key never gets another recipient's variant ([variants_match_keys]).
    In every history of a session, whatever DATA accepts was sent by an account
    that proved its password, under addresses it may use ([submission_authorised]).
    LOGIN authenticates once, with the two responses it was sent ([login_once]). *)

From S2P Require Import AuthLimiter.
From S2P Require Import Prelude Errors GoLib Sha256 Envelope Capacity Utf8 Mailbox Validation.
From S2P Require Import FileSystem Disk Queue Storage Add Durability Samples.
From S2P Require Import Text Message MessageFacts Prepared Users Session Submission.
Open Scope Z_scope.

(** ** Body variants *)

(** [data[offset : offset+size]]. *)
Definition slice (offset size : Z) (data : string) : string :=
  of_list (take (Z.to_nat size) (drop (Z.to_nat offset) (str_list data))).

Lemma slice_app_l o n a b : 0 ≤ o → 0 ≤ n → o + n ≤ str_len a → slice o n (a +:+ b) = slice o n a.
Proof.
  intros Ho Hn Hl. unfold slice. rewrite str_list_app. f_equal. rewrite str_len_list in Hl.
  rewrite drop_app_le by lia. rewrite take_app_le; [done|]. rewrite length_drop. lia.
Qed.

Lemma str_len_app a b : str_len (a +:+ b) = str_len a + str_len b.
Proof. rewrite !str_len_list, str_list_app, length_app. lia. Qed.

Lemma slice_app_r a b : slice (str_len a) (str_len b) (a +:+ b) = b.
Proof.
  unfold slice. rewrite str_list_app, !str_len_list, !Nat2Z.id, drop_app_length, firstn_all.
  apply of_list_str_list.
Qed.

(** Consecutive bodies from [start] to [stop]; [tiles] without the sizes' sign. *)
Fixpoint packed (start stop : Z) (bodies : list Body) : Prop :=
  match bodies with
  | [] => start = stop
  | b :: bodies => bOffset b = start ∧ packed (start + bSize b) stop bodies
  end.

Lemma packed_snoc start stop bodies b :
  packed start stop bodies → bOffset b = stop → packed start (stop + bSize b) (bodies ++ [b]).
Proof.
  revert start. induction bodies as [|c bodies IH]; intros start; simpl.
  - intros -> Hb. split; [done|done].
  - intros [Hc Hp] Hb. split; [done|]. by apply IH.
Qed.

Lemma packed_tiles start stop bodies :
  packed start stop bodies → Forall (λ b, 0 < bSize b) bodies → tiles start stop bodies.
Proof.
  revert start. induction bodies as [|b bodies IH]; intros start; simpl; [done|].
  intros [Hb Hp] Hf. apply Forall_cons_1 in Hf as [Hpos Hf]. split_and!; [done|done|]. by apply IH.
Qed.

Section variants.
Variable cfg : ServerConfig.
Variable io : DataIO.
Variables (from : string) (message : bytes) (eightBit : bool).

(** Body [b] of [bundle] is the signed variant for [keyID]. *)
Definition holds_variant (bundle : string) (b : Body) (keyID : option string) : Prop :=
  ∃ r x e8 sig, ioKeyID io r = Ok keyID ∧ variantOf io r keyID message eightBit = Ok (x, e8) ∧
    ioDKIM io from x = Ok sig ∧ bEightBit b = e8 ∧
    slice (bOffset b) (bSize b) bundle = of_list (sig ++ x) ∧
    bDigest b = bodyDigest (of_list (sig ++ x)) ∧
    0 ≤ bOffset b ∧ 0 ≤ bSize b ∧ bOffset b + bSize b ≤ str_len bundle.

(** The recipient's body is the variant for the recipient's key. *)
Definition served (v : variants) (r : string) (i : nat) : Prop :=
  ∃ keyID b, ioKeyID io r = Ok keyID ∧ vBodies v !! i = Some b ∧ holds_variant (vBundle v) b keyID.

Record variants_ok (rs : list string) (v : variants) : Prop := {
  vo_packed : packed 0 (str_len (vBundle v)) (vBodies v);
  vo_map : ∀ keyID i, vMap v !! variantKey keyID = Some i →
    ∃ b, vBodies v !! i = Some b ∧ holds_variant (vBundle v) b keyID;
  vo_served : Forall2 (served v) rs (vIndexes v);
  vo_count : (length (vBodies v) ≤ length rs)%nat
}.

Lemma variantKey_inj a b : variantKey a = variantKey b → a = b.
Proof.
  destruct a as [a|], b as [b|]; simpl; try done. intros H. f_equal.
  by repeat (injection H as H).
Qed.

Lemma holds_app bundle t b keyID : holds_variant bundle b keyID → holds_variant (bundle +:+ t) b keyID.
Proof.
  intros (r & x & e8 & sig & ? & ? & ? & ? & Hs & ? & ? & ? & ?). exists r, x, e8, sig.
  split_and!; try done; [by rewrite slice_app_l|].
  rewrite str_len_app. pose proof (str_len_nonneg t). lia.
Qed.

Lemma addVariant_ok rs r v v' :
  variants_ok rs v → addVariant cfg io from message eightBit r v = Ok v' → variants_ok (rs ++ [r]) v'.
Proof.
  intros [Hp Hm Hs Hc]. unfold addVariant.
  destruct (ioKeyID io r) as [keyID|] eqn:Ek; [|done]. cbn [res_bind].
  destruct (vMap v !! variantKey keyID) as [i|] eqn:Em.
  { intros [= <-]. split; simpl; try done.
    - destruct (Hm _ _ Em) as (b & Hb & Hh). apply Forall2_app; [done|]. constructor; [|done].
      by exists keyID, b.
    - rewrite length_app. lia. }
  destruct (variantOf io r keyID message eightBit) as [[x e8]|] eqn:Ev; [|done]. cbn [res_bind].
  destruct (ioDKIM io from x) as [sig|] eqn:Ed; [|done].
  destruct (_ && _); [done|]. intros [= <-].
  set (t := of_list (sig ++ x)). set (b := NewBody (str_len (vBundle v)) t e8).
  assert (Hlen : str_len (vBundle v +:+ t) = str_len (vBundle v) + str_len t) by apply str_len_app.
  assert (Hnew : holds_variant (vBundle v +:+ t) b keyID).
  { exists r, x, e8, sig. pose proof (str_len_nonneg (vBundle v)). pose proof (str_len_nonneg t).
    split_and!; try done; [apply slice_app_r|]. rewrite Hlen. simpl. lia. }
  assert (Hold : ∀ i b', vBodies v !! i = Some b' → (vBodies v ++ [b]) !! i = Some b')
    by (intros i b'; apply lookup_app_l_Some).
  split; simpl.
  - rewrite Hlen. by apply (packed_snoc _ _ _ b).
  - intros k i. destruct (decide (keyID = k)) as [<-|Hne].
    + rewrite lookup_insert_eq. intros [= <-]. exists b. split; [|done].
      by rewrite lookup_app_r, Nat.sub_diag by lia.
    + rewrite lookup_insert_ne by (by intros Heq%variantKey_inj).
      intros Hi. destruct (Hm _ _ Hi) as (b' & Hb & Hh). exists b'.
      split; [by apply Hold|by apply holds_app].
  - apply Forall2_app.
    + eapply Forall2_impl; [exact Hs|]. intros r' i (k & b' & Hk & Hb & Hh).
      exists k, b'. split_and!; [done|by apply Hold|by apply holds_app].
    + constructor; [|done]. exists keyID, b. split_and!; [done| |done]. cbn [vBodies].
      by rewrite lookup_app_r, Nat.sub_diag by lia.
  - rewrite !length_app. simpl. lia.
Qed.

Lemma addVariants_ok rs : ∀ done v v',
  variants_ok done v → addVariants cfg io from message eightBit rs v = Ok v' →
  variants_ok (done ++ rs) v'.
Proof.
  induction rs as [|r rs IH]; intros done v v' Hv; cbn [addVariants].
  { intros [= <-]. by rewrite app_nil_r. }
  destruct (addVariant cfg io from message eightBit r v) as [w|] eqn:Ew; [|done]. cbn [res_bind].
  intros Hr. rewrite cons_middle, app_assoc. exact (IH _ _ _ (addVariant_ok _ _ _ _ Hv Ew) Hr).
Qed.

Lemma noVariants_ok : variants_ok [] noVariants.
Proof. by split. Qed.

Lemma prepareVariants_ok rs data bodies indexes :
  prepareVariants cfg io from message rs eightBit = Ok (data, bodies, indexes) →
  ∃ v, variants_ok rs v ∧ vBundle v = data ∧ vBodies v = bodies ∧ vIndexes v = indexes.
Proof.
  unfold prepareVariants. destruct (addVariants _ _ _ _ _ rs noVariants) as [v|] eqn:Ev; [|done].
  intros [= <- <- <-]. exists v. split_and!; try done. exact (addVariants_ok _ [] _ _ noVariants_ok Ev).
Qed.
End variants.

(** Every recipient's body is the one for the recipient's key.  When
    [prepareVariants] succeeds, the bodies are packed one after another into the
    bundle, there are no more of them than recipients, and each recipient is given
    a body index.  The bytes at that index are a DKIM signature followed by the
    message for a recipient without a key, and a signature followed by an
    encryption to that very key for a recipient with one: a message that must be
    encrypted for a recipient is never queued for them in clear or under another
    key.  The body's recorded size and digest are those of these bytes. *)
Theorem variants_match_keys cfg io from message rs eightBit data bodies indexes :
  prepareVariants cfg io from message rs eightBit = Ok (data, bodies, indexes) →
  packed 0 (str_len data) bodies ∧ (length bodies ≤ length rs)%nat ∧
  length indexes = length rs ∧
  ∀ j r, rs !! j = Some r → ∃ i b, indexes !! j = Some i ∧ bodies !! i = Some b ∧
    ∃ x sig, slice (bOffset b) (bSize b) data = of_list (sig ++ x) ∧
      bDigest b = bodyDigest (of_list (sig ++ x)) ∧ ioDKIM io from x = Ok sig ∧
      match ioKeyID io r with
      | Ok None => x = message ∧ bEightBit b = eightBit
      | Ok (Some k) => (∃ r', ioKeyID io r' = Ok (Some k) ∧ ioEncrypt io r' k message = Ok (Some x))
                       ∧ bEightBit b = false
      | Err _ => False
      end.
Proof.
  intros (v & [Hp Hm Hs Hc] & <- & <- & <-)%prepareVariants_ok.
  split_and!; [done|done|symmetry; by eapply Forall2_length|].
  intros j r Hj. destruct (Forall2_lookup_l _ _ _ _ _ Hs Hj) as (i & Hi & keyID & b & Hk & Hb & Hh).
  exists i, b. split_and!; [done|done|]. destruct Hh as (r' & x & e8 & sig & Hr' & Hv & Hd & He & Hsl & Hdg & _).
  exists x, sig. split_and!; [done|done|done|]. rewrite Hk. unfold variantOf in Hv.
  destruct keyID as [k|]; [|by injection Hv as <- <-].
  destruct (ioEncrypt io r' k message) as [[y|]|] eqn:Ee; cbn [res_bind] in Hv; try done.
  injection Hv as <- <-. split; [|done]. by exists r'.
Qed.

(** ** Sessions *)

Section histories.
Context {S R : Type} `{Scheduler S} `{RateLimiter R} `{JsonCodec} `{CaseTables}.
Context `{MailParser} `{AddressParser}.
Variable ToASCII : string → res string.
Variable cfg : ServerConfig.
Variable Verify : string → string → bool.
Variable range : gmap string nat → list string.
Variable E : Environment.
Variable FreeDisk : option (res Z).
Variable addCtx : nat → bool.
Hypothesis Hmax : 0 ≤ MaxRecipients cfg.

(** The calls go-smtp makes on a session. *)
Inductive command :=
  | CmdAuth (ip : string) (now later : Z) (identity username password : string)
  | CmdMail (from : string) (opts : option MailOptions)
  | CmdRcpt (to : string)
  | CmdData (io : DataIO)
  | CmdReset
  | CmdLogout.

Definition perform (c : command) : ST (@state S R) (res unit) :=
  match c with
  | CmdAuth ip now later i u p => authPlain cfg Verify range ip now later i u p
  | CmdMail from opts => Mail ToASCII cfg from opts
  | CmdRcpt to => Rcpt ToASCII cfg to
  | CmdData io => DataCommand ToASCII cfg E FreeDisk addCtx io
  | CmdReset => let! _ := Reset in ret (Ok tt)
  | CmdLogout => let! _ := Logout in ret (Ok tt)
  end.

(** go-smtp refuses AUTH once a session is authenticated. *)
Definition permitted (c : command) (s : session) : Prop :=
  match c with CmdAuth _ _ _ _ _ _ => user s = noUser | _ => True end.

(** Sessions a history of calls can reach. *)
Inductive reachable : @state S R → Prop :=
  | reach_new srv : reachable (newSession, srv)
  | reach_step st c : reachable st → permitted c st.1 → reachable (perform c st).2.

(** An account that proved its password. *)
Definition authenticated (u : User) : Prop :=
  Enabled u = true ∧ ∃ username password,
    lookupUser (userLookup cfg) username = Some u ∧ Verify (PasswordHash u) password = true.

(** A recipient RCPT accepted. *)
Definition routable (r : string) : Prop :=
  ValidateAddress ToASCII r = Ok tt ∧ ∃ d, DomainOf ToASCII r = Ok d ∧ d ≠ "".

Record session_ok (s : session) : Prop := {
  so_user : user s = noUser ∨ authenticated (user s);
  so_anonymous : user s = noUser → sender s = "" ∧ recipients s = [];
  so_sender : sender s ≠ "" → Allows (user s) (sender s) = true ∧
    ValidateAddress ToASCII (sender s) = Ok tt ∧ (smtpUTF8 s = false → needsUTF8 (sender s) = false);
  so_recipients : NoDup (recipients s) ∧ Z.of_nat (length (recipients s)) ≤ MaxRecipients cfg ∧
    Forall routable (recipients s) ∧
    (smtpUTF8 s = false → Forall (λ r, needsUTF8 r = false) (recipients s))
}.

Lemma newSession_ok : session_ok newSession.
Proof. split; simpl; [by left|done|done|]. split_and!; [constructor|done|constructor|constructor]. Qed.

(** The fields a call leaves alone. *)
Definition same_transaction (s s' : session) : Prop :=
  user s' = user s ∧ sender s' = sender s ∧ recipients s' = recipients s ∧ smtpUTF8 s' = smtpUTF8 s.

Lemma session_ok_same s s' : same_transaction s s' → session_ok s → session_ok s'.
Proof. intros (Hu & Hs & Hr & H8) [? ? ? ?]. split; rewrite ?Hu, ?Hs, ?Hr, ?H8; done. Qed.

Lemma authenticate_ok ip now later username password (st : @state S R) :
  user st.1 = noUser → session_ok st.1 →
  session_ok (authenticate cfg Verify range ip now later username password st).2.1.
Proof.
  intros Hu Hs. unfold authenticate, acquireHashSlot, bind at 1.
  destruct (hashing st.2 <? AuthWorkers cfg); [|done]. cbn [negb]. unfold bind at 1.
  destruct (reserve range canonicalUsername now ip username _) as [l ok].
  destruct ok; cbn [negb]; [|done]. unfold verifyUser.
  destruct (lookupUser (userLookup cfg) username) as [u|] eqn:El; [|done].
  destruct (Enabled u) eqn:Ee; cbn [negb]; [|done].
  destruct (Verify (PasswordHash u) password) eqn:Ev; cbn [negb]; [|done].
  destruct (so_anonymous _ Hs Hu) as [Hsn Hrs]. simpl. split; cbn.
  - right. split; [done|]. by exists username, password.
  - intros _. done.
  - by rewrite Hsn.
  - apply Hs.
Qed.

Lemma DataCommand_session io (st : @state S R) :
  same_transaction st.1 (DataCommand ToASCII cfg E FreeDisk addCtx io st).2.1.
Proof.
  unfold DataCommand, bind, onSession, gets, ret. cbn [fst snd].
  destruct (_ || _); [done|]. unfold acquireDataSlot. cbn [fst snd].
  destruct (dataWork st.2 <? DataWorkers cfg); cbn [negb]; [|done].
  unfold dataAdmitted. cbn [fst snd].
  destruct (take_rate _ _ _ _) as [ok r]. destruct ok; cbn [negb]; [|done].
  destruct (compose _ _ _ _) as [[env data]|]; [|done]. unfold queueAdd. cbn [fst snd].
  destruct (AddContext _ _ _ _ _ _ _) as [[e r'] q]. done.
Qed.

Lemma perform_ok c st :
  permitted c st.1 → session_ok st.1 → session_ok (perform c st).2.1.
Proof.
  intros Hp Hs. destruct c as [ip now later i u p|from opts|to|io| |]; cbn [perform].
  - unfold authPlain. destruct (_ && _); [done|]. by apply authenticate_ok.
  - unfold Mail. destruct (bool_decide (uUsername (user st.1) = "")) eqn:Eu; [done|].
    destruct (Address_of ToASCII from) as [a|] eqn:Ea; [|done].
    destruct (needsUTF8 a && _) eqn:E8; [done|]. destruct (negb (Allows (user st.1) a)) eqn:El; [done|].
    destruct (match opts with Some o => MaxMessageBytes cfg <? oSize o | None => false end); [done|].
    apply Address_of_inv in Ea as [Hv _]. apply negb_false_iff in El.
    destruct Hs as [Hu Ha _ _]. split; cbn; [done| | |].
    + intros Hn. rewrite Hn in Eu. done.
    + intros _. split_and!; [done|done|]. intros H8. rewrite H8 in E8. by destruct (needsUTF8 a).
    + split_and!; [constructor|done|constructor|constructor].
  - unfold Rcpt. destruct (bool_decide (sender st.1 = "")) eqn:Esn; [done|].
    destruct (routing_of ToASCII to) as [[a d]|] eqn:Er; [|done].
    destruct (bool_decide (d = "")) eqn:Ed; [done|]. destruct (needsUTF8 a && _) eqn:E8; [done|].
    destruct (bool_decide (a ∈ recipients st.1)) eqn:Ein; [done|].
    destruct (Z.of_nat (length (recipients st.1)) =? MaxRecipients cfg) eqn:Em; [done|]. zbool.
    destruct Hs as [Hu Ha Hsn (Hnd & Hl & Hf & H8)].
    assert (Hroute : routable a).
    { unfold routing_of in Er. destruct (Address_of ToASCII to) as [x|] eqn:Ex; [|done]. cbn [res_bind] in Er.
      destruct (HasPrefix _ _); [done|]. destruct (DomainOf ToASCII x) eqn:Edom; [|done].
      injection Er as <- <-. split; [|by eexists]. by apply Address_of_inv in Ex as [? _]. }
    split; cbn; [done| |done|].
    + intros Hn. by destruct (Ha Hn).
    + split_and!.
      * apply NoDup_app. split_and!; [done| |apply NoDup_singleton].
        intros x Hx ->%list_elem_of_singleton. done.
      * rewrite length_app. simpl. lia.
      * apply Forall_app. split; [done|]. by apply Forall_singleton.
      * intros Hfalse. apply Forall_app. split; [by apply H8|]. apply Forall_singleton.
        rewrite Hfalse in E8. by destruct (needsUTF8 a).
  - eapply session_ok_same; [apply DataCommand_session|done].
  - destruct Hs as [Hu Ha _ _]. split; cbn; [done|done|done|].
    split_and!; [constructor|done|constructor|constructor].
  - by eapply session_ok_same; [|exact Hs].
Qed.

Lemma reachable_ok st : reachable st → session_ok st.1.
Proof. induction 1 as [srv|st c _ IH Hp]; [apply newSession_ok|by apply perform_ok]. Qed.

(** ** What DATA accepts *)

Lemma queueRecipients_ok rs : ∀ indexes out,
  queueRecipients ToASCII rs indexes = Ok out →
  map Address out = rs ∧
  Forall (λ r, DomainOf ToASCII (Address r) = Ok (rDomain r) ∧ rStatus r = StatusPending) out.
Proof.
  induction rs as [|r rs IH]; intros indexes out; cbn [queueRecipients].
  { by intros [= <-]. }
  destruct (DomainOf ToASCII r) as [d|] eqn:Ed; [|done].
  destruct (queueRecipients ToASCII rs (tail indexes)) as [more|] eqn:Em; [|done]. cbn [res_bind].
  intros [= <-]. destruct (IH _ _ Em) as [<- Hf]. split; [done|]. by constructor.
Qed.

(** What a composed envelope says. *)
Record composed (s : session) (p : PreparedMessage) (env : Envelope) : Prop := {
  co_user : Username env = uUsername (user s);
  co_sender : Sender env = sender s;
  co_from : Allows (user s) (From p) = true;
  co_header_sender : mSender p = "" ∨ Allows (user s) (mSender p) = true;
  co_addresses : map Address (Recipients env) = recipients s;
  co_routed : Forall (λ r, DomainOf ToASCII (Address r) = Ok (rDomain r) ∧ rStatus r = StatusPending)
                (Recipients env);
  co_utf8 : SMTPUTF8 env = false → NeedsUTF8 p = false ∧ needsUTF8 (sender s) = false ∧
              Forall (λ r, needsUTF8 r = false) (recipients s);
  co_7bit : body s = Body7Bit → mEightBit p = false
}.

Lemma compose_ok io s env data :
  compose ToASCII cfg io s = Ok (env, data) →
  ∃ p, prepared ToASCII cfg io = Ok p ∧ composed s p env.
Proof.
  unfold compose. destruct (ioTerminator io); [|done].
  destruct (prepared ToASCII cfg io) as [p|]; [|done]. unfold checkPrepared.
  destruct (bool_decide (body s = Body7Bit) && mEightBit p) eqn:E7; [done|].
  destruct (NeedsUTF8 p && negb (smtpUTF8 s)) eqn:E8; [done|].
  destruct (negb (Allows (user s) (From p))) eqn:Ef; [done|].
  destruct (negb (bool_decide (mSender p = "")) && negb (Allows (user s) (mSender p))) eqn:Es; [done|].
  cbn [res_bind]. destruct (ioExpired io 1); [done|].
  destruct (ioSign io (From p) (Data p)) as [[signed was]|]; [|done].
  destruct (prepareVariants cfg io (From p) signed (recipients s) _) as [[[d bodies] indexes]|]; [|done].
  destruct (queueRecipients ToASCII (recipients s) indexes) as [rs|] eqn:Er; [|done]. cbn [res_bind].
  destruct (ioExpired io 4); [done|]. intros [= <- <-].
  apply queueRecipients_ok in Er as [Ha Hr]. exists p. split; [done|]. apply negb_false_iff in Ef.
  split; cbn; try done.
  - apply andb_false_iff in Es as [Es|Es]; apply negb_false_iff in Es; [|by right].
    left. by apply bool_decide_eq_true_1 in Es.
  - intros [[? ?]%orb_false_iff Hrs]%orb_false_iff. split_and!; [done|done|].
    apply Forall_forall. intros r Hin. apply not_true_iff_false. intros Ht.
    apply not_true_iff_false in Hrs. apply Hrs, existsb_exists. exists r.
    by rewrite <-list_elem_of_In.
  - intros Hb. rewrite Hb in E7. by destruct (mEightBit p).
Qed.

Lemma DataCommand_Ok io (st st' : @state S R) :
  DataCommand ToASCII cfg E FreeDisk addCtx io st = (Ok tt, st') →
  recipients st.1 ≠ [] ∧ sender st.1 ≠ "" ∧ dataWork st'.2 = dataWork st.2 ∧
  ∃ env data env', compose ToASCII cfg io st.1 = Ok (env, data) ∧
    AddContext ToASCII E FreeDisk addCtx (Some env) data (spool st.2) = ((env', Ok tt), spool st'.2).
Proof.
  unfold DataCommand, bind, onSession, gets, ret. cbn [fst snd].
  destruct (_ || _) eqn:Eempty; [done|].
  unfold acquireDataSlot. cbn [fst snd].
  destruct (dataWork st.2 <? DataWorkers cfg); cbn [negb]; [|done].
  unfold dataAdmitted. cbn [fst snd].
  destruct (take_rate _ _ _ _) as [ok r]. destruct ok; cbn [negb]; [|done].
  change (compose ToASCII cfg io (set_dataDeadline true st.1)) with (compose ToASCII cfg io st.1).
  destruct (compose ToASCII cfg io st.1) as [[env data]|e] eqn:Ec; [|done]. unfold queueAdd. cbn [fst snd].
  change (spool (set_rates r (set_dataWork (dataWork st.2 + 1) st.2))) with (spool st.2).
  destruct (AddContext ToASCII E FreeDisk addCtx (Some env) data (spool st.2)) as [[e r'] q] eqn:Ea.
  destruct r' as [[]|]; [|done]. intros [= <-]. apply orb_false_iff in Eempty as [Hs Hr]. zbool.
  split_and!; [|done|cbn; lia|by exists env, data, e]. intros Hnil. cbn in Hr. by rewrite Hnil in Hr.
Qed.

End histories.

(** ** LOGIN *)

Section login.
Context {S R : Type}.
Variable auth : string → string → ST (@state S R) (res unit).

(** The session after a client's responses. *)
Fixpoint login_run (rs : list string) (s : loginServer) (st : @state S R) : @state S R :=
  match rs with
  | [] => st
  | r :: rs => let '((s, _), st) := Next auth r s st in login_run rs s st
  end.

Lemma login_done rs u st : login_run rs (mkLogin u loginStateDone) st = st.
Proof. induction rs as [|r rs IH]; [done|]. cbn. apply IH. Qed.

Lemma login_username rs st :
  login_run rs (mkLogin "" loginStateUsername) st =
    match rs with
    | u :: p :: _ => if bool_decide (u = "") then st else (auth u p st).2
    | _ => st
    end.
Proof.
  destruct rs as [|u rs]; [done|]. cbn. destruct (bool_decide (u = "")).
  { cbn. rewrite login_done. by destruct rs. }
  destruct rs as [|p rs]; [done|]. cbn. unfold bind. destruct (auth u p st) as [r st'].
  cbn. apply login_done.
Qed.

(** A LOGIN exchange authenticates at most once.  Whatever responses a client
    sends, an empty first response only asks for the user name; the next two are
    the user name and the password of the one call to [authenticate], which an
    empty user name prevents; later responses have no effect. *)
Theorem login_once rs st :
  login_run rs newLoginServer st =
    match (match rs with "" :: rest => rest | _ => rs end) with
    | u :: p :: _ => if bool_decide (u = "") then st else (auth u p st).2
    | _ => st
    end.
Proof.
  destruct rs as [|u rs]; [done|]. rewrite <-login_username.
  destruct u as [|c u]; [done|]. done.
Qed.
End login.

(** ** A concrete session *)

#[export] Instance sampleRate : RateLimiter unit := { take_rate _ _ _ _ := (true, tt) }.
#[export] Instance sampleAddress : AddressParser | 100 := { ParseAddress v := Ok ("", v) }.

(** One recipient has an encryption key, the others have none. *)
Definition sampleIO : DataIO :=
  mkDataIO [(sampleSubmission, None)] (Ok tt) (λ _, None) (λ _, false) sampleStamp "client"
    "192.0.2.1" "TLS304" 0 1000 1000 "m1" (λ _ d, Ok (d, false))
    (λ r, Ok (if bool_decide (r = "you@example.org") then Some "K" else None))
    (λ _ _ m, Ok (Some (str_list "enc:" ++ m))) (λ _ _, Ok (str_list "DKIM-Signature: x" ++ crlf))
    (λ _, "").

Definition sampleServerConfig : ServerConfig :=
  mkServerConfig "mx.example.com" 1000 10 true 1 1
    {[ "me" := mkAccount "me" "hash" ["me@example.com"] true ]}.

Definition sampleVerify (hash password : string) : bool := bool_decide (password = "secret").

Definition sampleVariants :=
  prepareVariants sampleServerConfig sampleIO "me@example.com" (str_list "text")
    ["a@example.org"; "you@example.org"; "b@example.org"] false.

Lemma variants_match_keys_witness :
  is_ok sampleVariants = true ∧
  match sampleVariants with
  | Ok (data, bodies, indexes) => packed 0 (str_len data) bodies ∧ length indexes = 3%nat
  | Err _ => False
  end.
Proof.
  assert (Hok : is_ok sampleVariants = true) by (vm_compute; reflexivity). split; [exact Hok|].
  destruct sampleVariants as [[[data bodies] indexes]|e] eqn:Hv; [|discriminate Hok].
  destruct (variants_match_keys _ _ _ _ _ _ _ _ _ Hv) as (Hp & _ & Hl & _). split; [exact Hp|exact Hl].
Defined.

Definition sampleServer : @server refSchedule unit :=
  mkServer (newAuthLimiter 0) tt 0 0 (emptyQueue noLimits).

(** The session's calls before DATA. *)
Definition sampleCommands : list command :=
  [CmdAuth "192.0.2.1" 1 2 "" "me" "secret"; CmdMail "me@example.com" None;
   CmdRcpt "you@example.org"].

Definition sampleRange (m : gmap string nat) : list string := (map_to_list m).*1.

Definition samplePerform (stub : Envelope) (c : command) : ST (@state refSchedule unit) (res unit) :=
  @perform refSchedule unit _ _ (sampleCodec stub) _ _ _ sampleIDNA sampleServerConfig sampleVerify
    sampleRange (sampleEnv []) None (λ _, false) c.

Definition sampleSession (stub : Envelope) : @state refSchedule unit :=
  fold_left (λ st c, (samplePerform stub c st).2) sampleCommands (newSession, sampleServer).

(** The envelope as [AddContext] completes it before it is encoded. *)
Definition sampleStub : Envelope :=
  match compose sampleIDNA sampleServerConfig sampleIO (sampleSession sample_envelope).1 with
  | Ok (env, data) =>
      match (@AddContext refSchedule _ (sampleCodec sample_envelope) sampleIDNA (sampleEnv []) None
               (λ _, false) (Some env) data (emptyQueue noLimits)).1.1 with
      | Some e => e
      | None => env
      end
  | Err _ => sample_envelope
  end.

