(* ===== verification/Encryption.v ===== *)
(** * Encryption of what is queued

    The body variants of a submission ([prepareVariants], data.go) composed with the
    recipient keys of openpgp/encrypt.go: [required_never_plain] says what the queue
    holds for a recipient encryption is required for. *)

From S2P Require Import AuthLimiter.
From S2P Require Import Prelude Errors GoLib Sha256 Envelope Capacity Utf8 Mailbox Validation.
From S2P Require Import FileSystem Disk Queue Storage Add Samples.
From S2P Require Import Text Message Prepared Users Session Submission SubmissionFacts.
From S2P Require Import Paths SecretFiles Config ConfigFacts PgpMime PgpKeys Wkd.
Open Scope Z_scope.

Section encryption.
Context {Entity : Type} `{PgpLib Entity} `{CaseTables} `{AddressParser}.
Context (ToASCII : string → res string).

Lemma KeyID_required rc now r c k : CanonicalAddress ToASCII r = Ok c → c ∈ rcRequired rc →
  KeyID ToASCII (Some rc) now r = Ok k →
  ∃ e key, rcKeys rc !! c = Some e ∧ EncryptionKey e now = Some key ∧ k = Some (hexUpper (ekFingerprint key)).
Proof.
  intros Hc Hr. unfold KeyID. rewrite Hc. destruct (rcKeys rc !! c) as [e|] eqn:Ek.
  - destruct (EncryptionKey e now) as [key|] eqn:Ee; [|done]. intros [= <-]. eauto.
  - by rewrite bool_decide_eq_true_2.
Qed.

(** What [Encrypt] returns is built from the outer header fields and the ciphertext. *)
Lemma Encrypt_shape cancelled random rc now r keyID data x :
  Encrypt ToASCII cancelled random (Some rc) now r keyID data = Ok (Some x) →
  ∃ c e key outer entity cipher value,
    CanonicalAddress ToASCII r = Ok c ∧ rcKeys rc !! c = Some e ∧ EncryptionKey e now = Some key ∧
    hexUpper (ekFingerprint key) = keyID ∧ splitMessage data false = Ok (outer, entity) ∧ random = Ok value ∧
    encryptArmored e now entity = Ok cipher ∧
    x = buildEncryptedMessage outer (lf_to_crlf (crlf_to_lf cipher)) (boundaryOf value) ∧
    Z.of_nat (length x) ≤ rcMaximum rc.
Proof.
  unfold Encrypt. destruct (CanonicalAddress ToASCII r) as [c|]; [|done]. destruct (rcKeys rc !! c) as [e|] eqn:Ek; [|done].
  destruct (EncryptionKey e now) as [key|] eqn:Ee; [|done].
  destruct (bool_decide_reflect (hexUpper (ekFingerprint key) = keyID)) as [Hk|]; [|done]. cbn [negb].
  intros Hx%polled_Ok. destruct (splitMessage data false) as [[outer entity]|] eqn:Es; [|done]. cbn [res_bind] in Hx.
  destruct random as [value|]; [|done]. cbn [res_bind] in Hx.
  destruct (encryptArmored e now entity) as [cipher|] eqn:Ea; cbn [res_bind] in Hx; [|by apply polled_Ok in Hx].
  destruct (rcMaximum rc <? Z.of_nat (length cipher)); [by apply polled_Ok in Hx|]. cbn zeta in Hx.
  destruct (rcMaximum rc <? _) eqn:El in Hx; [done|]. injection Hx as <-. apply Z.ltb_ge in El.
  exists c, e, key, outer, entity, cipher, value. done.
Qed.

(** C14: a message is never queued in clear for a recipient encryption is required for.
    With the keys [LoadRecipients] loaded, whenever the variants of a message are built,
    the body of such a recipient is a signature followed by a multipart/encrypted message
    made of the message's outer header fields and a ciphertext of the rest; the key it is
    encrypted to has the fingerprint of a key that one of its identities gives the
    recipient's address; the body is never the 8-bit plain one. *)
Theorem required_never_plain `{PacketLib} marshal unmarshal cwd conf lstatFault lookup worlds files clock rc files'
    (timeK timeE : string → Z) (cancelled : string → list nat → option error) (random : string → res string)
    cfg io from message rs eightBit data bodies indexes :
  LoadRecipients ToASCII marshal unmarshal cwd conf lstatFault lookup worlds files clock = (Ok rc, files') →
  (∀ r, ioKeyID io r = KeyID ToASCII (Some rc) (timeK r) r) →
  (∀ r k d, ioEncrypt io r k d = Encrypt ToASCII (cancelled r) (random r) (Some rc) (timeE r) r k d) →
  prepareVariants cfg io from message rs eightBit = Ok (data, bodies, indexes) →
  ∀ j r a c, rs !! j = Some r → a ∈ pRequireEncryptionFor (cOpenPGP conf) →
    CanonicalAddress ToASCII a = Ok c → CanonicalAddress ToASCII r = Ok c →
  ∃ i b sig outer entity e e' key key' cipher boundary,
    indexes !! j = Some i ∧ bodies !! i = Some b ∧ bEightBit b = false ∧
    splitMessage message false = Ok (outer, entity) ∧
    slice (bOffset b) (bSize b) data = of_list (sig ++ buildEncryptedMessage outer (lf_to_crlf (crlf_to_lf cipher)) boundary) ∧
    (∃ now, usableFor ToASCII now e c) ∧ EncryptionKey e (timeK r) = Some key ∧
    (∃ t, EncryptionKey e' t = Some key' ∧ encryptArmored e' t entity = Ok cipher) ∧
    hexUpper (ekFingerprint key') = hexUpper (ekFingerprint key).
Proof.
  intros Hload Hkid Henc (v & Hok & <- & <- & <-)%prepareVariants_ok j r a c Hj Ha Hac Hrc.
  destruct (LoadRecipients_keys _ _ _ _ _ _ _ _ _ _ _ _ Hload) as [Hkeys Hreq].
  destruct (Hreq a Ha) as (c' & Hc' & Hin & _). rewrite Hac in Hc'. injection Hc' as <-.
  destruct (Forall2_lookup_l _ _ _ _ _ (vo_served _ _ _ _ _ _ Hok) Hj) as (i & Hi & keyID & b & Hk & Hb & Hh).
  destruct Hh as (r' & x & e8 & sig & Hr' & Hv & Hd & He & Hsl & _).
  rewrite Hkid in Hk. destruct (KeyID_required _ _ _ _ _ Hrc Hin Hk) as (e & key & Hlk & Hek & ->).
  unfold variantOf in Hv. rewrite Henc in Hv.
  destruct (Encrypt _ _ _ _ _ _ _ _) as [[y|]|] eqn:Ex; [|done|done]. injection Hv as -> <-.
  destruct (Encrypt_shape _ _ _ _ _ _ _ _ Ex) as (c1 & e' & key' & outer & entity & cipher & value & _ & _ & Hk' & Hfp & Hsplit & _ & Hcip & -> & _).
  exists i, b, sig, outer, entity, e, e', key, key', cipher, (boundaryOf value). split_and!; eauto.
Qed.
End encryption.

(** ** An example: one recipient must be encrypted to, the other has no key *)

#[local] Existing Instances sampleLib plainParser samplePackets.

Definition sampleRc : option Recipients := match sampleRecipients.1 with Ok rc => Some rc | Err _ => None end.

Definition sampleKeyIO : DataIO :=
  mkDataIO [] (Ok tt) (λ _, None) (λ _, false) sampleStamp "client" "192.0.2.1" "TLS304" 0 1000 1000 "m1" (λ _ d, Ok (d, false))
    (λ r, KeyID sampleIDNA sampleRc 0 r) (λ r k d, Encrypt sampleIDNA (λ _, None) (Ok "r") sampleRc 0 r k d)
    (λ _ _, Ok (str_list "DKIM-Signature: x" ++ crlf)) (λ _, "").

Definition sampleClear : bytes := str_list "From: me@example.com" ++ crlf ++ crlf ++ str_list "secret" ++ crlf.

Definition sampleEncrypted :=
  prepareVariants sampleServerConfig sampleKeyIO "me@example.com" sampleClear ["a@example.org"; "you@example.org"] true.

Lemma required_never_plain_witness :
  is_ok sampleEncrypted = true ∧
  match sampleEncrypted with
  | Ok (data, bodies, indexes) => ∃ i b, indexes !! 1%nat = Some i ∧ bodies !! i = Some b ∧ bEightBit b = false
  | Err _ => False
  end.
Proof.
  assert (Hok : is_ok sampleEncrypted = true) by (vm_compute; reflexivity). split; [exact Hok|].
  destruct sampleEncrypted as [[[data bodies] indexes]|e] eqn:Hv; [|discriminate Hok].
  assert (Hrc : is_ok sampleRecipients.1 = true) by (vm_compute; reflexivity).
  destruct sampleRecipients as [[rc|e] files'] eqn:El; [|discriminate Hrc].
  assert (Hs : sampleRc = Some rc) by (unfold sampleRc; rewrite El; reflexivity).
  destruct (required_never_plain sampleIDNA sampleMarshal sampleUnmarshal "/" sampleCfg (λ _, None) (λ r, Ok r) (λ _, sampleWorld)
    sampleKeyTree (λ _, 0) rc files' (λ _, 0) (λ _, 0) (λ _ _, None) (λ _, Ok "r") sampleServerConfig sampleKeyIO "me@example.com" sampleClear
    ["a@example.org"; "you@example.org"] true data bodies indexes El)
    with (j := 1%nat) (r := "you@example.org") (a := "you@example.org") (c := "you@example.org")
    as (i & b & _ & _ & _ & _ & _ & _ & _ & _ & _ & Hi & Hb & H8 & _).
  - intros r. unfold sampleKeyIO, ioKeyID. rewrite Hs. reflexivity.
  - intros r k d. unfold sampleKeyIO, ioEncrypt. rewrite Hs. reflexivity.
  - exact Hv.
  - reflexivity.
  - left.
  - vm_compute. reflexivity.
  - vm_compute. reflexivity.
  - exists i, b. split; [exact Hi|]. split; [exact Hb|exact H8].
Defined.
