(* ===== verification/AddFacts.v ===== *)
(** * Durability of acceptance

    The two theorems about [AddContext] and crashes: a message it reports as
    accepted survives every crash, and a message it reports as refused is not
    found accepted after any crash, unless the error says that the outcome is
    unknown. *)

From S2P Require Import Prelude Errors GoLib Sha256 Envelope Capacity Utf8 Mailbox Validation.
From S2P Require Import FileSystem Disk Queue Storage Add Durability Samples.
Open Scope Z_scope.

(** ** Entries of a namespace only disappear *)

Section at_space.
Variable s : space.

Definition shrinks_at (w w' : world) : Prop :=
  ∀ n o, may_entry w' (Sp s) n o → may_entry w (Sp s) n o.

#[export] Instance shrinks_at_preorder : PreOrder shrinks_at.
Proof. split; [intros w n o H; exact H|]. intros a b c Hab Hbc n o H. auto. Qed.

Lemma at_call {A} E (k : world → res A * world) :
  (∀ w, shrinks_at w (k w).2) → keeps shrinks_at (call E k).
Proof.
  intros Hk w. apply (call_state E k (shrinks_at w)); [intros n o H; exact H|].
  etrans; [|apply Hk]. intros n o H. exact H.
Qed.

Lemma at_read {A} E (k : world → res A) : keeps shrinks_at (call E (λ w, (k w, w))).
Proof. apply at_call. intros w. simpl. reflexivity. Qed.

Lemma at_files w v : shrinks_at w (set_files v w).
Proof. intros n o H. exact H. Qed.

Lemma at_put w d t :
  (d ≠ Sp s ∨ ∀ n o, t !! n = Some o → may_entry w d n o) → shrinks_at w (put_table d t w).
Proof.
  intros Hd n o [H|[Heq H]]%may_entry_put; [done|].
  destruct Hd as [Hd|Hd]; [congruence|]. subst. by apply Hd.
Qed.

Lemma at_SyncDir E p : keeps shrinks_at (os_SyncDir E p).
Proof.
  apply at_call. intros w.
  assert (Hs : ∀ d, shrinks_at w (set_dirs (alter settled d (dirs w)) w)).
  { intros d n o. apply may_entry_settle. }
  destruct p; [reflexivity|destruct (resolve_dir w _); [apply Hs|reflexivity]..].
Qed.

Lemma at_SyncFile E f : keeps shrinks_at (SyncFile E f).
Proof. apply at_call. intros w. apply at_files. Qed.

Lemma at_WriteAt E f c : keeps shrinks_at (os_WriteAt E f c).
Proof. apply at_call. intros w. apply at_files. Qed.

Lemma at_MkdirSpace E s' : keeps shrinks_at (os_MkdirSpace E s').
Proof.
  apply at_call. intros w. destruct (dirs w !! Sp s'); [reflexivity|]. simpl.
  intros n o H. by apply (may_entry_new_dir w (Sp s')) in H as [_ H].
Qed.

Lemma at_Unlink E d n : keeps shrinks_at (os_Unlink E d n).
Proof.
  apply at_call. intros w. destruct (table_of w d) as [t|] eqn:Ht; [|reflexivity].
  assert (Hsub : shrinks_at w (put_table d (delete n t) w)).
  { apply at_put. right. intros m o [_ Hm]%lookup_delete_Some. by apply (may_entry_cur w d t). }
  destruct (t !! n) as [[f|e]|]; [exact Hsub| |reflexivity].
  case_decide; [exact Hsub|reflexivity].
Qed.

Lemma at_Rename_os E a n b n' : b ≠ s → keeps shrinks_at (os_Rename E (Sp a) n (Sp b) n').
Proof.
  intros Hb. apply at_call. intros w.
  destruct (table_of w (Sp a)) as [t|] eqn:Ht; [|reflexivity].
  destruct (table_of w (Sp b)) as [t'|] eqn:Ht'; [|reflexivity].
  destruct (t !! n) as [o|]; [|reflexivity].
  destruct (may_replace w o (t' !! n')); [reflexivity|]. case_decide as Hd; simpl.
  - apply at_put. left. congruence.
  - etrans; [|apply at_put; left; congruence].
    apply at_put. right. intros m o' [_ Hm]%lookup_delete_Some. by apply (may_entry_cur w _ t).
Qed.

Hint Resolve at_read at_SyncDir at_SyncFile at_WriteAt at_MkdirSpace at_Unlink : core.

Lemma at_Sync E p : keeps shrinks_at (Sync E p).
Proof. apply at_SyncDir. Qed.
Lemma at_Stat E p : keeps shrinks_at (os_Stat E p).
Proof. apply at_read. Qed.
Lemma at_Now E : keeps shrinks_at (time_Now E).
Proof. intros w n o H. exact H. Qed.
Hint Resolve at_Sync at_Stat at_Now : core.

Lemma at_Rename E a n b n' : b ≠ s → keeps shrinks_at (Rename E a n b n').
Proof. intros Hb. unfold Rename. keep. by apply at_Rename_os. Qed.

Lemma at_create_missing E s' : keeps shrinks_at (create_missing E [PSpace s']).
Proof. simpl. keep. Qed.

Lemma at_MkdirDurable E s' : keeps shrinks_at (MkdirDurable E (PSpace s')).
Proof.
  intros w. unfold MkdirDurable, try_, bind, ret. cbn [lineage missing_loop]. unfold bind.
  pose proof (at_Stat E (PSpace s') w) as H1.
  destruct (os_Stat E (PSpace s') w) as [[o|e] w1]; simpl in H1.
  - destruct (is_dir o); [|exact H1]. etrans; [exact H1|].
    apply (keeps_try shrinks_at); [apply at_Sync|]. intros []. simpl. apply keeps_ret. apply _.
  - destruct (errors_Is e ErrNotExist); [|exact H1]. unfold try_, bind, ret.
    etrans; [exact H1|]. apply at_create_missing.
Qed.

Lemma at_ensure E s' : keeps shrinks_at (ensureDurableDir E (PSpace s')).
Proof. pose proof (at_MkdirDurable E s'). unfold ensureDurableDir. keep. Qed.

Lemma at_quarantineDir E a n name :
  s ≠ Corr → keeps shrinks_at (quarantineDir E a n name).
Proof.
  intros Hs. unfold quarantineDir. apply keeps_try; [apply _|apply at_ensure|]. intros [].
  assert (Hren : ∀ m, keeps shrinks_at (Rename E a n Corr m)).
  { intros m. apply at_Rename. congruence. }
  keep.
Qed.

Lemma at_rolledBack E f e : keeps shrinks_at (rolledBack E f e).
Proof. unfold rolledBack, rollbackAdd, writeAddState. keep. Qed.

Lemma at_acceptAdd E a n : keeps shrinks_at (acceptAdd E a n).
Proof.
  pose proof (at_rolledBack E). unfold acceptAdd, writeAddState. keep.
Qed.
End at_space.

(** ** The name [id] is gone from a namespace for good *)

Definition clear (s : space) (id : string) (w : world) : Prop :=
  ∀ o, ¬ may_entry w (Sp s) id o.

Lemma clear_shrinks s id w w' : shrinks_at s w w' → clear s id w → clear s id w'.
Proof. intros Hs Hc o H%Hs. by apply (Hc o). Qed.

Lemma clear_not_acc id w : clear Ready id w → clear Tmp id w → ¬ acc id w.
Proof. intros Hr Ht [(d & f & H & _)|(d & f & H & _)]; [by apply Hr in H|by apply Ht in H]. Qed.

(** A synced table without the name. *)
Lemma clear_settled s id w t :
  dirs w !! Sp s = Some (fresh_vers t) → t !! id = None → clear s id w.
Proof.
  intros Hd Ht o (v & t' & Hv & Hin & Ho). rewrite Hd in Hv. simplify_eq.
  unfold versions in Hin. simpl in Hin.
  repeat (apply elem_of_cons in Hin as [->|Hin]; [congruence|]). by apply elem_of_nil in Hin.
Qed.

Lemma Sync_ok E p w w' :
  Sync E p w = (Ok tt, w') → p ≠ PRoot →
  ∃ d, resolve_dir w p = Some d ∧ dirs w' = alter settled d (dirs w) ∧ files w' = files w ∧
       inode w' = inode w.
Proof.
  intros Hs%call_ok Hp. destruct p; [done|..];
    (destruct (resolve_dir (tick w) _) as [d|] eqn:E'; [|done]; simplify_eq/=; by exists d).
Qed.

(** A successful rename between namespaces: the name has moved, and both tables
    are durable. *)
Lemma Rename_ok E s n s' n' w w' :
  s ≠ s' → Rename E s n s' n' w = (Ok tt, w') →
  ∃ t t' o, table_of w (Sp s) = Some t ∧ table_of w (Sp s') = Some t' ∧ t !! n = Some o ∧
    dirs w' = <[Sp s := fresh_vers (delete n t)]> (<[Sp s' := fresh_vers (<[n' := o]> t')]> (dirs w)) ∧
    files w' = files w.
Proof.
  intros Hne. unfold Rename, try_, bind, ret. rewrite decide_False by done.
  destruct (call E _ w) as [[[]|] w1] eqn:H1; [|done]. apply call_ok in H1.
  destruct (os_Rename E (Sp s) n (Sp s') n' w1) as [[[]|] w2] eqn:H2; [|done].
  apply call_ok in H2.
  destruct (Sync E (PSpace s') w2) as [[[]|] w3] eqn:H3; [|done].
  intros H4. apply Sync_ok in H3 as (d3 & Hd3 & Ed3 & Ef3 & Ei3); [|done].
  apply Sync_ok in H4 as (d4 & Hd4 & Ed4 & Ef4 & Ei4); [|done].
  injection H1 as <-.
  destruct (table_of (tick (tick w)) (Sp s)) as [t|] eqn:Ht; [|done].
  destruct (table_of (tick (tick w)) (Sp s')) as [t'|] eqn:Ht'; [|done].
  destruct (t !! n) as [o|] eqn:Ho; [|done].
  destruct (may_replace _ _ _); [done|]. rewrite decide_False in H2 by congruence.
  injection H2 as <-.
  exists t, t', o. split_and!; [done..| |by rewrite Ef4, Ef3].
  assert (d3 = Sp s') as ->. { unfold resolve_dir in Hd3. by case_match; simplify_eq. }
  assert (d4 = Sp s) as ->. { unfold resolve_dir in Hd4. by case_match; simplify_eq. }
  rewrite Ed4, Ed3. unfold table_of in Ht, Ht'. simpl in Ht, Ht' |- *.
  destruct (dirs w !! Sp s) as [v|] eqn:Ev; [|done].
  destruct (dirs w !! Sp s') as [v'|] eqn:Ev'; [|done]. simplify_eq/=.
  apply map_eq. intros d. rewrite !lookup_alter, !lookup_insert.
  repeat case_decide; subst; simplify_eq; rewrite ?Ev, ?Ev'; try done.
Qed.

(** ** Refusal *)

Section refusal.
Variable id : string.
Abbreviation safe := (safe id).

Lemma prefix_neq p c rest : String.length p = String.length c → p ≠ c → p +:+ rest ≠ c.
Proof.
  revert c. induction p as [|a p IH]; intros [|b c]; simpl; intros Hl Hne He; try done.
  injection He as -> He. apply (IH c); [lia| |done]. intros ->. done.
Qed.

Lemma pending_not_accepted rest : addPending +:+ rest ≠ addAccepted.
Proof. apply prefix_neq; [reflexivity|discriminate]. Qed.

Lemma os_WriteAt_ok E f c w w' :
  os_WriteAt E f c w = (Ok tt, w') →
  dirs w' = dirs w ∧ inode w' = inode w ∧
  files w' = alter (change (c +:+ str_drop (String.length c) (content w f))) f (files w).
Proof. intros Hk%call_ok. by injection Hk as <-. Qed.

Lemma SyncFile_ok E f w w' :
  SyncFile E f w = (Ok tt, w') →
  dirs w' = dirs w ∧ inode w' = inode w ∧ files w' = alter settled f (files w).
Proof. intros Hk%call_ok. by injection Hk as <-. Qed.

(** Only the content of one file differs. *)
Definition only_file (f : nat) (w w' : world) : Prop :=
  dirs w' = dirs w ∧ inode w' = inode w ∧ ∀ f', f' ≠ f → files w' !! f' = files w !! f'.

#[export] Instance only_file_preorder f : PreOrder (only_file f).
Proof.
  split; [done|]. intros a b c (D1 & I1 & F1) (D2 & I2 & F2).
  split_and!; [congruence..|]. intros f' Hf. by rewrite F2, F1.
Qed.

Lemma only_file_call {A} E f (k : world → res A * world) :
  (∀ w, only_file f w (k w).2) → keeps (only_file f) (call E k).
Proof.
  intros Hk w. apply (call_state E k (only_file f w)); [done|].
  etrans; [|apply Hk]. done.
Qed.

Lemma only_file_WriteAt E f c : keeps (only_file f) (os_WriteAt E f c).
Proof.
  apply only_file_call. intros w. split_and!; [done..|]. intros f' Hf. simpl.
  by rewrite lookup_alter_ne.
Qed.

Lemma only_file_SyncFile E f : keeps (only_file f) (SyncFile E f).
Proof.
  apply only_file_call. intros w. split_and!; [done..|]. intros f' Hf. simpl.
  by rewrite lookup_alter_ne.
Qed.

(** The marker's file after a successful rollback cannot be accepted. *)
Lemma rollback_safe w0 w f :
  only_file f w0 w → (∀ c, may_hold w f c → c ≠ addAccepted) → safe w0 w.
Proof.
  intros (Hd & Hi & Hf) Hc Hw. split.
  - intros d n o Hm. rewrite Hi. apply (Hw d n). unfold may_entry in *. by rewrite <-Hd.
  - assert (Hone : ∀ s1, accAt w s1 id → accAt w0 s1 id).
    { intros s1 (d & f' & H1 & H2 & H3). exists d, f'. unfold may_entry in *. rewrite <-Hd.
      split_and!; [done..|]. destruct (decide (f' = f)) as [->|Hne].
      - exfalso. by apply (Hc addAccepted).
      - unfold may_hold in *. by rewrite <-Hf. }
    intros [Ha|Ha]; [left|right]; by apply Hone.
Qed.

(** An error is reported as unknown unless the rollback is durable. *)
Lemma rolledBack_spec E f cause w0 w r w' :
  only_file f w0 w → rolledBack E f cause w = (r, w') →
  (∃ e, r = Err e ∧ safe w0 w') ∨ ∃ c, r = Err (acceptanceUnknown c).
Proof.
  intros Ho. unfold rolledBack, rollbackAdd, writeAddState, bind, ret.
  destruct (call E (λ w, (Ok tt, w)) w) as [[[]|e] w1] eqn:H1; [|intros [= <- _]; eauto].
  destruct (os_WriteAt E f addPending w1) as [[[]|e] w2] eqn:H2; [|intros [= <- _]; eauto].
  destruct (SyncFile E f w2) as [[[]|e] w3] eqn:H3; [|intros [= <- _]; eauto].
  intros [= <- <-]. left. eexists. split; [done|].
  apply call_ok in H1. injection H1 as <-.
  pose proof (only_file_WriteAt E f addPending (tick w)) as O2. rewrite H2 in O2.
  pose proof (only_file_SyncFile E f w2) as O3. rewrite H3 in O3. simpl in O2, O3.
  apply (rollback_safe w0 w3 f).
  - etrans; [exact Ho|]. etrans; [|exact O3]. etrans; [|exact O2]. done.
  - apply os_WriteAt_ok in H2 as (_ & _ & F2). apply SyncFile_ok in H3 as (_ & _ & F3).
    intros c (v & Hv & Hc). rewrite F3, lookup_alter_eq, F2, lookup_alter_eq in Hv.
    destruct (files (tick w) !! f) as [v0|]; [|done]. simplify_eq/=.
    unfold versions in Hc. simpl in Hc.
    repeat (apply elem_of_cons in Hc as [->|Hc]; [apply pending_not_accepted|]).
    by apply elem_of_nil in Hc.
Qed.

Lemma acceptAdd_refused E s n w e w' :
  acceptAdd E s n w = (Err e, w') → safe w w' ∨ ∃ c, e = acceptanceUnknown c.
Proof.
  unfold acceptAdd, try_, bind, ret, writeAddState.
  pose proof (safe_os_Stat id E (PFile s n addStateName) w) as S1.
  destruct (os_Stat E _ w) as [[o|err] w1] eqn:H1; simpl in S1; [|by intros [= _ <-]; left].
  destruct o as [f|d]; [|by intros [= _ <-]; left].
  assert (Hr : ∀ cause w2, only_file f w1 w2 → rolledBack E f cause w2 = (Err e, w') →
            safe w w' ∨ ∃ c, e = acceptanceUnknown c).
  { intros cause w2 Ho Hrb.
    destruct (rolledBack_spec E f cause w1 w2 _ w' Ho Hrb) as [(e' & _ & Hs)|(c & [= ->])].
    - left. by etrans.
    - right. eauto. }
  pose proof (only_file_WriteAt E f addAccepted w1) as O2.
  destruct (os_WriteAt E f addAccepted w1) as [[[]|err] w2] eqn:H2; simpl in O2; [|by apply Hr].
  pose proof (only_file_SyncFile E f w2) as O3.
  destruct (SyncFile E f w2) as [[[]|err] w3] eqn:H3; simpl in O3; [done|].
  apply Hr. by etrans.
Qed.

(** *** The queue's operations *)

Lemma safe_quarantineDir E s n name : keeps safe (quarantineDir E s n name).
Proof.
  assert (Hm : ∀ p, keeps safe (MkdirDurable E p)) by (intros; apply safe_MkdirDurable).
  assert (Hst : ∀ p, keeps safe (os_Stat E p)) by (intros; apply safe_os_Stat).
  assert (Hn : keeps safe (time_Now E)) by apply safe_time_Now.
  assert (Hr : ∀ m, keeps safe (Rename E s n Corr m)).
  { intros m. apply safe_Rename. left. done. }
  unfold quarantineDir, ensureDurableDir. keep.
Qed.

Lemma os_Stat_missing E `{!Honest E} p w e w' :
  os_Stat E p w = (Err e, w') → errors_Is e ErrNotExist = true → object_at w p = None.
Proof.
  intros Hs Hn. apply call_err in Hs as [Hk|[b Hf]].
  - simpl in Hk. change (object_at (tick w) p) with (object_at w p) in Hk.
    by destruct (object_at w p).
  - apply honest_fault in Hf as [Hf _]. congruence.
Qed.

(** After a successful sync, a missing entry is gone for good. *)
Lemma sync_missing_clear E `{!Honest E} s w w1 e w2 :
  Sync E (PSpace s) w = (Ok tt, w1) → os_Stat E (PEntry s id) w1 = (Err e, w2) →
  errors_Is e ErrNotExist = true → clear s id w1.
Proof.
  intros Hs Hst Hn. apply os_Stat_missing in Hst; [|done|done].
  apply Sync_ok in Hs as (d & Hd & Ed & _); [|done].
  assert (d = Sp s) as ->. { unfold resolve_dir in Hd. by case_match; simplify_eq. }
  simpl in Hst. unfold entry_obj, table_of in Hst. rewrite Ed, lookup_alter_eq in Hst.
  unfold resolve_dir in Hd. destruct (dirs w !! Sp s) as [v|] eqn:Ev; [|done].
  apply (clear_settled s id w1 (cur v)); [|exact Hst].
  by rewrite Ed, lookup_alter_eq, Ev.
Qed.

(** After a successful quarantine the entry is gone from ready/. *)
Lemma quarantine_clear E n name w w' :
  quarantineDir E Ready n name w = (Ok tt, w') → clear Ready n w'.
Proof.
  unfold quarantineDir, try_, bind, ret.
  destruct (ensureDurableDir E (PSpace Corr) w) as [[[]|] w1]; [|done].
  destruct (time_Now E w1) as [now w2].
  destruct (Rename E Ready n Corr (stamped name now) w2) as [[[]|] w3] eqn:Hr; [|done].
  intros [= <-]. apply Rename_ok in Hr as (t & t' & o & _ & _ & _ & Hd & _); [|done].
  apply (clear_settled Ready n w3 (delete n t)); [|apply lookup_delete_eq].
  by rewrite Hd, lookup_insert_eq.
Qed.

Context {S : Type} `{Scheduler S}.
Implicit Types q : Queue S.

Definition qsafe (q q' : Queue S) : Prop := safe (disk q) (disk q').

#[export] Instance qsafe_preorder : PreOrder qsafe.
Proof.
  split; [intros q; apply (PreOrder_Reflexive (R:=safe))|].
  intros a b c Hab Hbc. exact (PreOrder_Transitive (R:=safe) _ _ _ Hab Hbc).
Qed.

Lemma qsafe_onDisk {A} (m : ST world A) : keeps safe m → keeps qsafe (onDisk m).
Proof.
  intros Hm q. unfold onDisk. specialize (Hm (disk q)). by destruct (m (disk q)).
Qed.

Lemma qsafe_onCap f : keeps qsafe (onCap (S:=S) f).
Proof. intros q. unfold qsafe. simpl. reflexivity. Qed.

Lemma onDisk_eq {A} (m : ST world A) q a q' :
  onDisk m q = (a, q') → m (disk q) = (a, disk q').
Proof. unfold onDisk. destruct (m (disk q)) as [b w]. by intros [= <- <-]. Qed.

Lemma qsafe_abortReady E envelope metaLen held cause :
  keeps qsafe (abortReady (S:=S) E envelope metaLen held cause).
Proof.
  assert (Hq : ∀ s n name, keeps qsafe (onDisk (quarantineDir E s n name))).
  { intros. apply qsafe_onDisk, safe_quarantineDir. }
  assert (Ha : ∀ s n, keeps qsafe (onDisk (AllocatedBytes E s n))).
  { intros. apply qsafe_onDisk, safe_read. }
  assert (Hs : ∀ p, keeps qsafe (onDisk (Sync E p))).
  { intros. apply qsafe_onDisk, safe_Sync. }
  assert (Hst : ∀ p, keeps qsafe (onDisk (os_Stat E p))).
  { intros. apply qsafe_onDisk, safe_os_Stat. }
  assert (Hb : ∀ n, keeps qsafe (block (S:=S) n)) by (intros n q; exact (reflexivity _)).
  pose proof qsafe_onCap. unfold abortReady. keep.
Qed.

Lemma onDisk_clear {A} s (m : ST world A) q a q' :
  keeps (shrinks_at s) m → onDisk m q = (a, q') → clear s id (disk q) → clear s id (disk q').
Proof.
  intros Hm He. apply onDisk_eq in He. apply clear_shrinks.
  specialize (Hm (disk q)). by rewrite He in Hm.
Qed.

(** An unknown acceptance that ends in a definite error has been taken out of
    ready/ durably. *)
Lemma abortReady_unknown E `{!Honest E} envelope metaLen held c q held' e q' :
  ID envelope = id → clear Tmp id (disk q) →
  abortReady E envelope metaLen held (acceptanceUnknown c) q = ((held', e), q') →
  IsAcceptanceUnknown e = false → clear Ready id (disk q') ∧ clear Tmp id (disk q').
Proof.
  intros Hid Htmp. unfold abortReady. rewrite Hid. unfold bind at 1.
  destruct (onDisk (AllocatedBytes E Ready id) q) as [m q1] eqn:H1.
  assert (T1 : clear Tmp id (disk q1)).
  { eapply onDisk_clear; [|exact H1|done]. apply at_read. }
  unfold bind at 1.
  destruct (onDisk (quarantineDir E Ready id _) q1) as [aerr q2] eqn:H2.
  assert (T2 : clear Tmp id (disk q2)).
  { eapply onDisk_clear; [|exact H2|done]. by apply at_quarantineDir. }
  unfold bind at 1. destruct (onCap _ q2) as [u q3] eqn:H3.
  assert (D3 : disk q3 = disk q2) by (by injection H3 as <- <-).
  destruct aerr as [[]|aerr].
  { intros [= <- <- <-] _. rewrite D3. split; [|done].
    apply onDisk_eq in H2. by apply (quarantine_clear E id _ (disk q1)) in H2. }
  unfold bind at 1. destruct (onDisk (Sync E (PSpace Ready)) q3) as [serr q4] eqn:H4.
  assert (T4 : clear Tmp id (disk q4)).
  { eapply onDisk_clear; [|exact H4|by rewrite D3]. apply at_Sync. }
  unfold bind at 1. destruct (onDisk (os_Stat E (PEntry Ready id)) q4) as [st q5] eqn:H5.
  assert (T5 : clear Tmp id (disk q5)).
  { eapply onDisk_clear; [|exact H5|done]. apply at_Stat. }
  destruct (is_ok serr && _) eqn:Hgone.
  - intros [= <- <- <-] _. split; [|done].
    apply andb_true_iff in Hgone as [Hok Hg]. destruct serr as [[]|]; [|done].
    destruct st as [o|err]; [done|].
    pose proof (onDisk_eq _ _ _ _ H4) as H4'. pose proof (onDisk_eq _ _ _ _ H5) as H5'.
    eapply (onDisk_clear Ready); [apply at_Stat|exact H5|].
    by apply (sync_missing_clear E Ready (disk q3) (disk q4) err (disk q5)).
  - intros He Hu. exfalso. revert He Hu. clear. simpl. unfold bind, ret.
    intros [= _ <- _]. done.
Qed.

(** [abortReady] leaves nothing acceptable behind unless it says so. *)
Lemma abortReady_refused E `{!Honest E} envelope metaLen held cause w0 q held' e q' :
  ID envelope = id → wfw w0 → ¬ acc id w0 → clear Tmp id (disk q) →
  safe w0 (disk q) ∨ (∃ c, cause = acceptanceUnknown c) →
  abortReady E envelope metaLen held cause q = ((held', e), q') →
  IsAcceptanceUnknown e = false → ¬ acc id (disk q').
Proof.
  intros Hid Hw0 Hna Htmp [Hs|[c ->]] He Hu.
  - pose proof (qsafe_abortReady E envelope metaLen held cause q) as Hq. rewrite He in Hq.
    intros Hacc. apply Hna. apply Hs; [done|]. apply Hq; [by apply Hs|done].
  - destruct (abortReady_unknown E envelope metaLen held c q held' e q' Hid Htmp He Hu).
    by apply clear_not_acc.
Qed.

Lemma try_ok {St A B} (m : ST St (res A)) (k : A → ST St (res B)) s b s' :
  try_ m k s = (Ok b, s') → ∃ a s1, m s = (Ok a, s1) ∧ k a s1 = (Ok b, s').
Proof.
  unfold try_, bind. destruct (m s) as [[a|e] s1]; [|done]. eauto.
Qed.

Section context.
Context (E : Environment) (ctx : nat → bool).

Lemma safe_ctxErr : keeps safe (ctxErr ctx).
Proof. intros w. apply safe_tick. Qed.

Lemma safe_addBuild data meta : keeps safe (addBuild E ctx id data meta).
Proof.
  pose proof safe_ctxErr.
  assert (H1 : keeps safe (Write E Tmp id addStateName addPending)).
  { apply safe_Write. right. discriminate. }
  assert (H2 : keeps safe (Write E Tmp id bodyName data)) by (apply safe_Write; by left).
  assert (H3 : keeps safe (Write E Tmp id metaName meta)) by (apply safe_Write; by left).
  assert (H4 : keeps safe (Sync E (PEntry Tmp id))) by apply safe_Sync.
  assert (H5 : keeps safe (Rename E Tmp id Ready id)) by (apply safe_Rename; auto).
  unfold addBuild. keep.
Qed.

Lemma addBuild_clear data meta w w' :
  addBuild E ctx id data meta w = (Ok tt, w') → clear Tmp id w'.
Proof.
  unfold addBuild. intros H1.
  do 9 apply try_ok in H1 as (? & ? & _ & H1).
  apply Rename_ok in H1 as (t & t' & o & _ & _ & _ & Hd & _); [|done].
  apply (clear_settled Tmp id w' (delete id t)); [|apply lookup_delete_eq].
  by rewrite Hd, lookup_insert_eq.
Qed.

Lemma qsafe_commitHeld held : keeps qsafe (commitHeld (S:=S) held).
Proof. unfold commitHeld. pose proof qsafe_onCap. keep. Qed.

Lemma qsafe_addCleanup held : keeps qsafe (addCleanup (S:=S) E id held).
Proof.
  pose proof qsafe_commitHeld.
  assert (H1 : keeps qsafe (onDisk (RemoveAll E Tmp id))) by apply qsafe_onDisk, safe_RemoveAll.
  assert (H2 : keeps qsafe (onDisk (Sync E (PSpace Tmp)))) by apply qsafe_onDisk, safe_Sync.
  assert (H3 : ∀ p, keeps qsafe (onDisk (os_Stat E p))).
  { intros p. apply qsafe_onDisk, safe_os_Stat. }
  unfold addCleanup. keep.
Qed.

Lemma qsafe_addStage data meta held : keeps qsafe (addStage (S:=S) E ctx id data meta held).
Proof.
  pose proof qsafe_addCleanup.
  assert (H1 : keeps qsafe (onDisk (RemoveAll E Tmp id))) by apply qsafe_onDisk, safe_RemoveAll.
  assert (H2 : keeps qsafe (onDisk (ctxErr ctx))) by apply qsafe_onDisk, safe_ctxErr.
  assert (H3 : keeps qsafe (onDisk (Mkdir E (PEntry Tmp id)))) by apply qsafe_onDisk, safe_Mkdir.
  assert (H4 : keeps qsafe (onDisk (addBuild E ctx id data meta))).
  { apply qsafe_onDisk, safe_addBuild. }
  unfold addStage. keep.
Qed.

Lemma addStage_clear data meta held q held' q' :
  addStage E ctx id data meta held q = ((held', Ok tt), q') → clear Tmp id (disk q').
Proof.
  unfold addStage, bind at 1. destruct (try_ _ _ q) as [[[]|e] q1]; [|done].
  unfold bind at 1. destruct (onDisk (Mkdir _ _) q1) as [[[]|e] q2]; [|done].
  unfold bind at 1. destruct (onDisk (addBuild _ _ _ _ _) q2) as [[[]|e] q3] eqn:Hb.
  - intros [= <- <-]. apply onDisk_eq in Hb. by apply addBuild_clear in Hb.
  - unfold bind. by destruct (addCleanup _ _ _ q3).
Qed.

(** [addReserved] that fails definitely leaves nothing acceptable. *)
Lemma addReserved_refused `{!Honest E} envelope data meta physical q held e q' :
  ID envelope = id → wfw (disk q) → ¬ acc id (disk q) →
  addReserved E ctx envelope data meta physical q = ((held, Err e), q') →
  IsAcceptanceUnknown e = false → ¬ acc id (disk q').
Proof.
  intros Hid Hw Hna. unfold addReserved. rewrite Hid. unfold bind at 1.
  pose proof (qsafe_addStage data meta physical q) as S1.
  destruct (addStage E ctx id data meta physical q) as [[held1 built] q1] eqn:H1. simpl in S1.
  destruct built as [[]|err].
  2:{ intros [= _ _ <-] _ Hacc. by apply Hna, S1. }
  pose proof (addStage_clear _ _ _ _ _ _ H1) as T1.
  unfold bind at 1. destruct (onDisk _ q1) as [[[]|err] q2] eqn:H2.
  { unfold bind. by destruct (addPublish _ _ _ q2). }
  unfold bind at 1.
  destruct (abortReady E envelope (str_len meta) held1 err q2) as [[held3 err3] q3] eqn:H3.
  intros [= <- <- <-] Hu. pose proof (onDisk_eq _ _ _ _ H2) as H2'.
  eapply (abortReady_refused E envelope _ held1 err (disk q)); [done|done|done| | |exact H3|done].
  - eapply onDisk_clear; [|exact H2|done]. apply keeps_try; [apply _| |].
    + intros w n o Hm. exact Hm.
    + intros []. apply at_acceptAdd.
  - revert H2'. unfold try_, bind. pose proof (safe_ctxErr (disk q1)) as Sc.
    destruct (ctxErr ctx (disk q1)) as [[[]|ce] wc]; simpl in Sc.
    + intros Ha. apply acceptAdd_refused in Ha as [Hs|Hs]; [|by right].
      left. etrans; [exact S1|]. by etrans.
    + intros [= <- <-]. left. by etrans.
Qed.

Lemma qsafe_id {A} (m : ST (Queue S) A) : (∀ q, disk (m q).2 = disk q) → keeps qsafe m.
Proof. intros Hm q. unfold qsafe. rewrite Hm. reflexivity. Qed.

Lemma qsafe_startMutation : keeps qsafe (startMutation (S:=S) E).
Proof.
  assert (H1 : keeps qsafe (onDisk (S:=S) (time_Now E))) by apply qsafe_onDisk, safe_time_Now.
  assert (H2 : keeps qsafe (onDisk (S:=S) (AllocatedRoot E))) by apply qsafe_onDisk, safe_read.
  assert (H3 : ∀ f, (∀ q, disk (f q) = disk q) → keeps qsafe (modify (S:=Queue S) f)).
  { intros f Hf. by apply qsafe_id. }
  unfold startMutation, refreshSpoolUsage. keep.
Qed.

Lemma safe_readBoundedRegular p max : keeps safe (readBoundedRegular E p max).
Proof.
  assert (Hr : ∀ A (k : world → res A), keeps safe (call E (λ w, (k w, w)))).
  { intros. apply safe_read. }
  unfold readBoundedRegular, CheckRead, os_Stat, os_ReadFile, openRegularFromInfo. keep.
Qed.

Lemma safe_reconcileReady : keeps safe (reconcileReady E id).
Proof.
  pose proof (safe_readBoundedRegular (PFile Ready id addStateName) maxAddStateBytes).
  assert (H1 : ∀ p, keeps safe (os_Stat E p)) by (intros; apply safe_os_Stat).
  assert (H2 : ∀ name, keeps safe (quarantineDir E Ready id name)).
  { intros. apply safe_quarantineDir. }
  unfold reconcileReady. keep.
Qed.

Lemma safe_checkAbsent ds : keeps safe (checkAbsent E id ds).
Proof.
  assert (H1 : ∀ p, keeps safe (os_Stat E p)) by (intros; apply safe_os_Stat).
  induction ds as [|d ds IH]; simpl; keep.
Qed.

Context `{JsonCodec} (ToASCII : string → res string) (FreeDisk : option (res Z)).

Lemma qsafe_reserve a b c d o : keeps qsafe (reserve_ (S:=S) FreeDisk a b c d o).
Proof. apply qsafe_id. intros q. unfold reserve_. by case_match. Qed.

Lemma addOwned_refused `{!Honest E} envelope data q envelope' e q' :
  ID envelope = id → wfw (disk q) → ¬ acc id (disk q) →
  addOwned ToASCII E FreeDisk ctx envelope data q = ((envelope', Err e), q') →
  IsAcceptanceUnknown e = false → wfw (disk q) ∧ ¬ acc id (disk q').
Proof.
  intros Hid Hw Hna. unfold addOwned. rewrite Hid. unfold bind at 1.
  match goal with |- context [ try_ (startMutation E) ?k q ] => set (pre := k) end.
  assert (Hpre : keeps qsafe (try_ (startMutation E) pre)).
  { assert (Hc : keeps qsafe (onDisk (ctxErr ctx))) by apply qsafe_onDisk, safe_ctxErr.
    assert (Hr : keeps qsafe (onDisk (reconcileReady E id))).
    { apply qsafe_onDisk, safe_reconcileReady. }
    assert (Ha : keeps qsafe (onDisk (checkAbsent E id [Dead; Dsn]))).
    { apply qsafe_onDisk, safe_checkAbsent. }
    pose proof qsafe_startMutation. subst pre. keep. }
  specialize (Hpre q). destruct (try_ (startMutation E) pre q) as [r q1]. simpl in Hpre.
  destruct (Hpre Hw) as [Hw1 Hacc1].
  destruct r as [[]|err]; [|intros [= _ _ <-] _; split; [done|tauto]].
  set (env1 := set_BodyDigest _ _). assert (Hid1 : ID env1 = id) by done.
  destruct (validateEnvelope ToASCII env1) as [env2 valid] eqn:Hv.
  assert (Hid2 : ID env2 = id).
  { rewrite <-Hid1. revert Hv. unfold validateEnvelope.
    destruct (res_bind (validateHeader env1) _); [|by intros [= <- _]].
    destruct (validateRecipients _ _ _). by intros [= <- _]. }
  match goal with |- context [ match ?c with Ok _ => _ | Err _ => _ end ] => destruct c as [meta|err] end;
    [|intros [= _ _ <-] _; split; [done|tauto]].
  unfold bind at 1.
  match goal with |- context [ try_ (onDisk (ctxErr ctx)) ?k q1 ] => set (resv := k) end.
  assert (Hres : keeps qsafe (try_ (onDisk (ctxErr ctx)) resv)).
  { assert (Hc : keeps qsafe (onDisk (ctxErr ctx))) by apply qsafe_onDisk, safe_ctxErr.
    pose proof qsafe_reserve. subst resv. keep. }
  specialize (Hres q1). destruct (try_ (onDisk (ctxErr ctx)) resv q1) as [r q2]. simpl in Hres.
  destruct (Hres Hw1) as [Hw2 Hacc2].
  destruct r as [[]|err]; [|intros [= _ _ <-] _; split; [done|tauto]].
  unfold bind at 1.
  destruct (addReserved E ctx env2 data meta _ q2) as [[held r] q3] eqn:H3.
  destruct r as [b|err]; [by intros [= _ ? _]|].
  intros [= _ <- <-] Hu. split; [done|]. simpl.
  eapply (addReserved_refused env2 data meta _ q2 held err q3); eauto.
Qed.

End context.
End refusal.

(** ** Operations that leave the disk alone *)

Section same_disk.
Context {S : Type} `{Scheduler S}.

Definition same_disk (q q' : Queue S) : Prop := disk q' = disk q.

#[export] Instance same_disk_preorder : PreOrder same_disk.
Proof. split; [done|]. intros a b c Hab Hbc. unfold same_disk in *. congruence. Qed.

Lemma same_scheduleLocked e : keeps same_disk (scheduleLocked (S:=S) e).
Proof. intros q. unfold same_disk, scheduleLocked. repeat (case_match; try done). Qed.

Lemma same_scheduleFirst es : keeps same_disk (scheduleFirst (S:=S) es).
Proof. pose proof same_scheduleLocked. induction es as [|e es IH]; simpl; keep. Qed.

Lemma endTransition_disk n (q : Queue S) : disk (endTransition n q).2 = disk q.
Proof.
  assert (Hk : keeps same_disk (endTransition (S:=S) n)); [|exact (Hk q)].
  assert (Hm : ∀ f, (∀ q, disk (f q) = disk q) → keeps same_disk (modify (S:=Queue S) f)).
  { intros f Hf' q1. apply Hf'. }
  assert (Hsig : keeps same_disk (signal (S:=S))) by done.
  pose proof same_scheduleFirst. unfold endTransition, endTransitions. simpl. keep.
Qed.
End same_disk.

(** ** What recovery finds *)

(** Entry [id] of ready/ carries the accepted marker. *)
Definition found_accepted (w : world) (id : string) : Prop :=
  ∃ d t f, entry_obj w Ready id = Some (Directory d) ∧ table_of w (Ent d) = Some t ∧
           t !! addStateName = Some (Regular f) ∧ content w f = addAccepted.

Lemma crash_table w w' d t :
  crash w w' → table_of w' d = Some t → ∃ v, dirs w !! d = Some v ∧ t ∈ versions v.
Proof.
  intros Hc. unfold table_of. pose proof (crash_dirs _ _ Hc d) as Hd.
  destruct (dirs w' !! d) as [v'|]; [|done]. intros [= <-]. inversion Hd as [v ? Hs|]; subst.
  exists v. split; [done|]. destruct Hs as (a & Ha & ->). unfold versions. simpl.
  destruct Ha as [->|Ha]; [by left|by right].
Qed.

Lemma crash_found w w' id : crash w w' → found_accepted w' id → accAt w Ready id.
Proof.
  intros Hc (d & t & f & Hr & Ht & Hf & Hcont).
  unfold entry_obj in Hr. destruct (table_of w' (Sp Ready)) as [tr|] eqn:Htr; [|done].
  simpl in Hr. destruct (crash_table _ _ _ _ Hc Htr) as (v1 & Hv1 & Hin1).
  destruct (crash_table _ _ _ _ Hc Ht) as (v2 & Hv2 & Hin2).
  exists d, f. split_and!; [by exists v1, tr|by exists v2, t|].
  unfold content in Hcont. pose proof (crash_files _ _ Hc f) as Hff.
  destruct (files w' !! f) as [v'|]; [|done]. simpl in Hcont.
  inversion Hff as [v ? Hs|]; subst. exists v. split; [done|].
  destruct Hs as (a & Ha & ->). simpl in *. subst. unfold versions.
  destruct Ha as [->|Ha]; [by left|by right].
Qed.

(** A definite refusal leaves nothing acceptable. *)
Lemma AddContext_refused {S} `{Scheduler S} `{JsonCodec} ToASCII E `{!Honest E}
    FreeDisk ctx envelope data (q : Queue S) envelope' e q' :
  wfw (disk q) → ¬ acc (ID envelope) (disk q) →
  AddContext ToASCII E FreeDisk ctx (Some envelope) data q = ((envelope', Err e), q') →
  IsAcceptanceUnknown e = false → ¬ acc (ID envelope) (disk q').
Proof.
  intros Hw Hna Hadd Hu. set (id := ID envelope) in *.
  revert Hadd. unfold AddContext, bind at 1.
  assert (Hpre : keeps (qsafe id) (try_ (onDisk (ctxErr ctx)) (λ _, beginOperation (S:=S)))).
  { apply keeps_try; [apply _|apply qsafe_onDisk, safe_ctxErr|]. intros [].
    apply qsafe_id. intros q1. unfold beginOperation. by case_match. }
  specialize (Hpre q). destruct (try_ _ _ q) as [r q1]. simpl in Hpre.
  destruct (Hpre Hw) as [Hw1 Ha1].
  destruct r as [[]|err]; [|intros [= _ _ <-]; tauto].
  unfold bind at 1, bind at 1. unfold rejectReadOnly.
  destruct (readOnly q1); [intros [= _ _ <-]; simpl; tauto|].
  destruct (ValidateID (ID envelope)); [|intros [= _ _ <-]; simpl; tauto].
  destruct (_ || _); [intros [= _ _ <-]; simpl; tauto|].
  unfold bind at 1.
  assert (Htok : keeps (qsafe id) (onDisk (S:=S) (call E (λ w, (Ok (random E (ticks w)), w))))).
  { apply qsafe_onDisk, safe_read. }
  specialize (Htok q1). destruct (onDisk _ q1) as [tok q2]. simpl in Htok.
  destruct (Htok Hw1) as [Hw2 Ha2].
  destruct tok as [token|err]; [|intros [= _ _ <-]; simpl; tauto].
  set (env1 := set_Revision 1 _). unfold bind at 1. unfold beginTransition, beginTransitions.
  destruct (existsb _ _); [intros [= _ _ <-]; simpl; tauto|].
  set (q3 := set_transitioning _ q2). assert (Hd3 : disk q3 = disk q2) by done.
  unfold bind at 1.
  destruct (addOwned ToASCII E FreeDisk ctx env1 data q3) as [[env2 r] q4] eqn:Ho.
  destruct r as [[]|err]; [by intros [= _ ? _]|].
  cbn [is_ok]. unfold bind at 1. destruct (endTransition (ID env2) q4) as [u q5] eqn:He.
  intros [= _ <- <-]. cbn.
  assert (Hn4 : ¬ acc id (disk q4)).
  { apply (addOwned_refused id E ctx ToASCII FreeDisk env1 data q3 env2 err q4); auto; tauto. }
  assert (Hs5 : disk q5 = disk q4).
  { pose proof (endTransition_disk (ID env2) q4) as Hd. by rewrite He in Hd. }
  by rewrite Hs5.
Qed.

(** A message that [AddContext] refuses is not accepted behind the caller's
    back: if no crash could have shown the identifier as accepted before, and
    the error is not "acceptance unknown", then no crash at that point can leave
    it accepted in ready/.  This holds for every failure of the file system, at
    every step, and for every cancellation. *)
Theorem add_refused_not_accepted {S} `{Scheduler S} `{JsonCodec} ToASCII E `{!Honest E}
    FreeDisk ctx envelope data (q : Queue S) envelope' e q' w' :
  wfw (disk q) → ¬ acc (ID envelope) (disk q) →
  AddContext ToASCII E FreeDisk ctx (Some envelope) data q = ((envelope', Err e), q') →
  IsAcceptanceUnknown e = false →
  crash (disk q') w' → ¬ found_accepted w' (ID envelope).
Proof.
  intros Hw Hna Hadd Hu Hc Hf. apply (crash_found _ _ _ Hc) in Hf.
  apply (AddContext_refused ToASCII E FreeDisk ctx envelope data q envelope' e q' Hw Hna Hadd Hu).
  by left.
Qed.

(** The sync of the accepted marker fails and is rolled back. *)
Lemma add_refused_witness :
  is_ok (sampleAdd [45%nat]).1.2 = false ∧
  ∀ w', crash (disk (sampleAdd [45%nat]).2) w' → ¬ found_accepted w' "m1".
Proof.
  split; [vm_compute; reflexivity|]. intros w' Hc.
  eapply (@add_refused_not_accepted refSchedule _ (sampleCodec acceptedSample) sampleIDNA
    (sampleEnv [45%nat]) _ None (λ _, false) sample_envelope "hello" (emptyQueue noLimits)).
  - exact emptySpool_wf.
  - apply emptySpool_acc.
  - vm_compute. reflexivity.
  - vm_compute. reflexivity.
  - exact Hc.
Defined.

(** ** Acceptance *)

(** Worlds that agree on everything but the clock. *)
Definition same_fs (w w' : world) : Prop :=
  dirs w' = dirs w ∧ files w' = files w ∧ inode w' = inode w.

Lemma os_Rename_same_ok E d n n' w w' :
  os_Rename E d n d n' w = (Ok tt, w') →
  ∃ t o, table_of w d = Some t ∧ t !! n = Some o ∧
    dirs w' = alter (change (<[n' := o]> (delete n t))) d (dirs w) ∧
    files w' = files w ∧ inode w' = inode w.
Proof.
  intros Hk%call_ok. change (table_of (tick w) d) with (table_of w d) in Hk.
  destruct (table_of w d) as [t|] eqn:Ht; [|done].
  destruct (t !! n) as [o|] eqn:Ho; [|done].
  destruct (may_replace _ _ _); [done|]. rewrite decide_True in Hk by done.
  injection Hk as <-. eauto 10.
Qed.

Lemma os_CreateTemp_ok E d name w f w' :
  os_CreateTemp E d name w = (Ok f, w') →
  ∃ v, dirs w !! d = Some v ∧ cur v !! name = None ∧ f = inode w ∧ inode w' = S f ∧
    dirs w' = <[d := change (<[name := Regular f]> (cur v)) v]> (dirs w) ∧
    files w' = <[f := fresh_vers ""]> (files w).
Proof.
  intros Hk%call_ok. change (table_of (tick w) d) with (table_of w d) in Hk.
  unfold table_of in Hk. destruct (dirs w !! d) as [v|] eqn:Hv; [|done]. simpl in Hk.
  destruct (cur v !! name) eqn:Hn; [done|]. injection Hk as <- <-.
  exists v. split_and!; try done. simpl. apply map_eq. intros j.
  rewrite lookup_alter, lookup_insert. case_decide; [|done]. subst. by rewrite Hv.
Qed.

Lemma os_Write_ok E f c w w' :
  os_Write E f c w = (Ok tt, w') →
  dirs w' = dirs w ∧ inode w' = inode w ∧ files w' = alter (change c) f (files w).
Proof. intros Hk%call_ok. by injection Hk as <-. Qed.

Lemma idle_ok E w w' : call E (λ w, (Ok tt, w)) w = (Ok tt, w') → same_fs w w'.
Proof. intros Hk%call_ok. by injection Hk as <-. Qed.

Lemma Mkdir_existing E s n d w :
  entry_obj w s n = Some (Directory d) → Mkdir E (PEntry s n) w = (Ok tt, w).
Proof.
  intros Ho. unfold Mkdir, try_, bind, ret.
  assert (∃ v, dirs w !! Sp s = Some v) as [v Hv].
  { unfold entry_obj, table_of in Ho. destruct (dirs w !! Sp s); [eauto|done]. }
  rewrite Hv. by rewrite Ho.
Qed.

Lemma resolve_entry w s n d dr :
  entry_obj w s n = Some (Directory d) → resolve_dir w (PEntry s n) = Some dr →
  dr = Ent d ∧ ∃ v, dirs w !! Ent d = Some v.
Proof.
  unfold resolve_dir. intros ->. destruct (dirs w !! Ent d) as [v|]; [|done].
  intros [= <-]. eauto.
Qed.

Lemma commit_ok E e temp f s n base w w' :
  entry_obj w s n = Some (Directory e) → commit E (Ent e) temp f s n base w = (Ok tt, w') →
  ∃ v o, dirs w !! Ent e = Some v ∧ cur v !! temp = Some o ∧
    dirs w' = <[Ent e := fresh_vers (<[base := o]> (delete temp (cur v)))]> (dirs w) ∧
    files w' = alter settled f (files w) ∧ inode w' = inode w.
Proof.
  intros Hent H. unfold commit in H.
  apply try_ok in H as ([] & w1 & H1 & H). apply idle_ok in H1 as (D1 & F1 & I1).
  apply try_ok in H as ([] & w2 & H2 & H). apply SyncFile_ok in H2 as (D2 & I2 & F2).
  apply try_ok in H as ([] & w3 & H3 & H). apply idle_ok in H3 as (D3 & F3 & I3).
  apply try_ok in H as ([] & w4 & H4 & H).
  apply os_Rename_same_ok in H4 as (t & o & Ht & Ho & D4 & F4 & I4).
  apply Sync_ok in H as (d & Hd & D5 & F5 & I5); [|done].
  assert (D03 : dirs w3 = dirs w) by congruence.
  unfold table_of in Ht. rewrite D03 in Ht. destruct (dirs w !! Ent e) as [v|] eqn:Hv; [|done].
  simplify_eq/=.
  assert (Hent4 : entry_obj w4 s n = Some (Directory e)).
  { unfold entry_obj, table_of in *. rewrite D4, lookup_alter_ne, D03 by done. exact Hent. }
  destruct (resolve_entry _ _ _ _ _ Hent4 Hd) as [-> _].
  exists v, o. split_and!; try done.
  - rewrite D5, D4, D03. apply map_eq. intros j. rewrite !lookup_alter, lookup_insert.
    repeat case_decide; subst; try done. by rewrite Hv.
  - congruence.
  - congruence.
Qed.

(** A successful write of a file of an entry: the file is new and durable, the
    directory is durable, nothing else changes. *)
Lemma Write_ok E s n base body e w w' :
  entry_obj w s n = Some (Directory e) → Write E s n base body w = (Ok tt, w') →
  ∃ v, dirs w !! Ent e = Some v ∧ inode w' = S (inode w) ∧
    dirs w' = <[Ent e := fresh_vers (<[base := Regular (inode w)]> (cur v))]> (dirs w) ∧
    files w' = <[inode w := fresh_vers body]> (files w).
Proof.
  intros Hent. unfold Write, WriteWithTempState, bind at 1, bind at 1, ret at 1.
  destruct (Temp E s n base w) as [[[[d temp] f]|err] w1] eqn:H1; [|done].
  unfold Temp, try_, bind in H1. rewrite (Mkdir_existing E s n e w Hent) in H1.
  destruct (resolve_dir w (PEntry s n)) as [dr|] eqn:Hres; [|done].
  destruct (resolve_entry _ _ _ _ _ Hent Hres) as [-> _].
  destruct (os_CreateTemp E (Ent e) _ w) as [[f0|err] w2] eqn:Hc; [|done].
  injection H1 as <- <- <- <-.
  apply os_CreateTemp_ok in Hc as (v & Hv & Hfree & -> & I2 & D2 & F2).
  set (temp := tempName base _) in *. unfold bind at 1.
  destruct (os_Write E (inode w) body w2) as [[[]|err] w3] eqn:H3; [|unfold bind;
    destruct (os_Unlink _ _ _ w3); by destruct (pathMayExist _ _ _ _ _)].
  apply os_Write_ok in H3 as (D3 & I3 & F3). unfold bind at 1, Commit, bind at 1.
  destruct (commit E (Ent e) temp (inode w) s n base w3) as [[[]|err] w4] eqn:H4.
  2:{ unfold bind at 1. destruct (os_Unlink E (Ent e) temp w4) as [? w5]. simpl. unfold bind.
      by destruct (pathMayExist E s n temp w5). }
  intros [= <-].
  assert (Hent3 : entry_obj w3 s n = Some (Directory e)).
  { unfold entry_obj, table_of in *. rewrite D3, D2, lookup_insert_ne by done. exact Hent. }
  apply commit_ok in H4 as (v4 & o & Hv4 & Ho & D4 & F4 & I4); [|done].
  rewrite D3, D2, lookup_insert_eq in Hv4. injection Hv4 as <-. simpl in Ho.
  rewrite lookup_insert_eq in Ho. injection Ho as <-.
  exists v. split_and!; [done|congruence| |].
  - rewrite D4, D3, D2, insert_insert_eq. simpl.
    by rewrite delete_insert_id by done.
  - rewrite F4, F3, F2. apply map_eq. intros j. rewrite !lookup_alter, !lookup_insert.
    repeat case_decide; subst; done.
Qed.

(** The entry is in ready/, and everything about it is durable. *)
Definition durable (w : world) (id state data meta : string) : Prop :=
  ∃ e tr t f1 f2 f3,
    dirs w !! Sp Ready = Some (fresh_vers tr) ∧ tr !! id = Some (Directory e) ∧
    dirs w !! Ent e = Some (fresh_vers t) ∧
    t !! addStateName = Some (Regular f1) ∧ t !! bodyName = Some (Regular f2) ∧
    t !! metaName = Some (Regular f3) ∧ f1 ≠ f2 ∧ f1 ≠ f3 ∧
    files w !! f1 = Some (fresh_vers state) ∧ files w !! f2 = Some (fresh_vers data) ∧
    files w !! f3 = Some (fresh_vers meta).

Lemma ctxErr_ok ctx w w' : ctxErr ctx w = (Ok tt, w') → same_fs w w'.
Proof. unfold ctxErr. destruct (ctx (ticks w)); [done|]. by intros [= <-]. Qed.

Lemma entry_obj_dirs w w' s n :
  dirs w' !! Sp s = dirs w !! Sp s → entry_obj w' s n = entry_obj w s n.
Proof. unfold entry_obj, table_of. by intros ->. Qed.

Lemma addBuild_ok E ctx id data meta e w w' :
  entry_obj w Tmp id = Some (Directory e) → addBuild E ctx id data meta w = (Ok tt, w') →
  durable w' id addPending data meta.
Proof.
  intros Hent H. unfold addBuild in H.
  apply try_ok in H as ([] & w1 & H1 & H). apply ctxErr_ok in H1 as (D1 & F1 & I1).
  apply try_ok in H as ([] & w2 & H2 & H).
  apply (Write_ok E Tmp id _ _ e) in H2 as (v2 & V2 & I2 & D2 & F2);
    [|rewrite (entry_obj_dirs w); [done|by rewrite D1]].
  apply try_ok in H as ([] & w3 & H3 & H). apply ctxErr_ok in H3 as (D3 & F3 & I3).
  assert (Hent3 : entry_obj w3 Tmp id = Some (Directory e)).
  { rewrite (entry_obj_dirs w); [done|]. by rewrite D3, D2, lookup_insert_ne, D1. }
  apply try_ok in H as ([] & w4 & H4 & H).
  apply (Write_ok E Tmp id _ _ e) in H4 as (v4 & V4 & I4 & D4 & F4); [|done].
  apply try_ok in H as ([] & w5 & H5 & H). apply ctxErr_ok in H5 as (D5 & F5 & I5).
  assert (Hent5 : entry_obj w5 Tmp id = Some (Directory e)).
  { rewrite (entry_obj_dirs w3); [done|]. by rewrite D5, D4, lookup_insert_ne. }
  apply try_ok in H as ([] & w6 & H6 & H).
  apply (Write_ok E Tmp id _ _ e) in H6 as (v6 & V6 & I6 & D6 & F6); [|done].
  apply try_ok in H as ([] & w7 & H7 & H). apply ctxErr_ok in H7 as (D7 & F7 & I7).
  assert (Hent7 : entry_obj w7 Tmp id = Some (Directory e)).
  { rewrite (entry_obj_dirs w5); [done|]. by rewrite D7, D6, lookup_insert_ne. }
  apply try_ok in H as ([] & w8 & H8 & H).
  apply Sync_ok in H8 as (d8 & R8 & D8 & F8 & I8); [|done].
  destruct (resolve_entry _ _ _ _ _ Hent7 R8) as [-> _].
  apply try_ok in H as ([] & w9 & H9 & H). apply ctxErr_ok in H9 as (D9 & F9 & I9).
  apply Rename_ok in H as (t & t' & o & Ht & Ht' & Ho & D & F); [|done].
  rewrite D3, D2, lookup_insert_eq in V4. injection V4 as <-.
  rewrite D5, D4, lookup_insert_eq in V6. injection V6 as <-. simpl in D4, D6.
  assert (o = Directory e) as ->.
  { unfold table_of in Ht. rewrite D9, D8, lookup_alter_ne in Ht by done.
    unfold entry_obj, table_of in Hent7.
    destruct (dirs w7 !! Sp Tmp) as [vt|]; [|done]. simplify_eq/=. congruence. }
  exists e. eexists _, _, (inode w1), (inode w3), (inode w5).
  rewrite D, F, F9, F8, F7, F6, F5, F4, F3, F2.
  split_and!.
  - rewrite lookup_insert_ne, lookup_insert_eq by done. done.
  - apply lookup_insert_eq.
  - rewrite !lookup_insert_ne by done.
    rewrite D9, D8, lookup_alter_eq, D7, D6, lookup_insert_eq. done.
  - cbn [cur fresh_vers]. rewrite !lookup_insert_ne by done. apply lookup_insert_eq.
  - cbn [cur fresh_vers]. rewrite lookup_insert_ne by done. apply lookup_insert_eq.
  - apply lookup_insert_eq.
  - lia.
  - lia.
  - rewrite !lookup_insert_ne by lia. apply lookup_insert_eq.
  - rewrite lookup_insert_ne by lia. apply lookup_insert_eq.
  - apply lookup_insert_eq.
Qed.

Lemma content_fresh w f c : files w !! f = Some (fresh_vers c) → content w f = c.
Proof. unfold content. by intros ->. Qed.

Lemma str_app_nil s : s +:+ "" = s.
Proof.
  apply str_list_inj. rewrite str_list_app. apply app_nil_r.
Qed.

(** The commit turns the pending marker into the accepted one, durably. *)
Lemma acceptAdd_ok E id data meta w w' :
  durable w id addPending data meta → acceptAdd E Ready id w = (Ok tt, w') →
  durable w' id addAccepted data meta.
Proof.
  intros (e & tr & t & f1 & f2 & f3 & HR & Hid & HE & H1 & H2 & H3 & N2 & N3 & C1 & C2 & C3) H.
  unfold acceptAdd in H. apply try_ok in H as (o & w1 & Hst & H).
  apply call_ok in Hst. change (object_at (tick w) ?p) with (object_at w p) in Hst.
  assert (Hobj : object_at w (PFile Ready id addStateName) = Some (Regular f1)).
  { simpl. unfold file_obj, resolve_dir, entry_obj, table_of. rewrite HR. simpl. rewrite Hid, HE.
    simpl. rewrite HE. simpl. exact H1. }
  rewrite Hobj in Hst. injection Hst as <- <-. unfold bind at 1, writeAddState in H.
  destruct (os_WriteAt E f1 addAccepted (tick w)) as [[[]|err] w2] eqn:Hw.
  2:{ exfalso. revert H. unfold rolledBack, bind.
      destruct (rollbackAdd _ _ _ _) as [[[] ?] ?]; done. }
  apply os_WriteAt_ok in Hw as (D2 & _ & F2). unfold bind at 1 in H.
  destruct (SyncFile E f1 w2) as [[[]|err] w3] eqn:Hs.
  2:{ exfalso. revert H. unfold rolledBack, bind.
      destruct (rollbackAdd _ _ _ _) as [[[] ?] ?]; done. }
  injection H as <-. apply SyncFile_ok in Hs as (D3 & _ & F3).
  change (content (tick w) f1) with (content w f1) in F2. rewrite (content_fresh w f1 _ C1) in F2.
  exists e, tr, t, f1, f2, f3. rewrite D3, D2, F3, F2. split_and!; try done.
  - rewrite !lookup_alter_eq. simpl. rewrite C1. simpl. unfold settled. simpl.
    unfold fresh_vers. do 2 f_equal; apply str_app_nil.
  - by rewrite !lookup_alter_ne by done.
  - by rewrite !lookup_alter_ne by done.
Qed.

(** What is durable survives a crash. *)
Definition stored (w : world) (id data meta : string) : Prop :=
  ∃ d t f1 f2 f3, entry_obj w Ready id = Some (Directory d) ∧ table_of w (Ent d) = Some t ∧
    t !! addStateName = Some (Regular f1) ∧ content w f1 = addAccepted ∧
    t !! bodyName = Some (Regular f2) ∧ content w f2 = data ∧
    t !! metaName = Some (Regular f3) ∧ content w f3 = meta.

Lemma survives_fresh {A} (a : A) v : survives (fresh_vers a) v → v = fresh_vers a.
Proof.
  intros (b & Hb & ->). simpl in Hb. destruct Hb as [->|Hb]; [done|].
  by apply list_elem_of_singleton in Hb as ->.
Qed.

Lemma durable_crash w w' id data meta :
  durable w id addAccepted data meta → crash w w' → stored w' id data meta.
Proof.
  intros (e & tr & t & f1 & f2 & f3 & HR & Hid & HE & H1 & H2 & H3 & _ & _ & C1 & C2 & C3) Hc.
  assert (Hdir : ∀ d x, dirs w !! d = Some (fresh_vers x) → dirs w' !! d = Some (fresh_vers x)).
  { intros d x Hd. pose proof (crash_dirs _ _ Hc d) as Hf. rewrite Hd in Hf.
    inversion Hf as [? v' Hs|]; subst. by rewrite (survives_fresh _ _ Hs). }
  assert (Hfile : ∀ f c, files w !! f = Some (fresh_vers c) → content w' f = c).
  { intros f c Hd. pose proof (crash_files _ _ Hc f) as Hf. rewrite Hd in Hf. unfold content.
    inversion Hf as [? v' Hs|]; subst. by rewrite (survives_fresh _ _ Hs). }
  exists e, t, f1, f2, f3. unfold entry_obj, table_of.
  rewrite (Hdir _ _ HR), (Hdir _ _ HE). simpl.
  split_and!; try done; by apply Hfile.
Qed.
