(* ===== verification/Accepted.v ===== *)
(** * Acceptance (src/internal/queue/add.go)

    A message that [AddContext] reports as accepted is durable, accounted and
    scheduled. *)

From S2P Require Import Prelude Errors GoLib Sha256 Envelope Capacity Utf8 Mailbox Validation.
From S2P Require Import FileSystem Disk Queue Storage Add Durability Samples AddFacts.
Open Scope Z_scope.

Lemma os_Mkdir_ok E s n w w' :
  os_Mkdir E s n w = (Ok tt, w') → entry_obj w' s n = Some (Directory (inode w)).
Proof.
  intros Hk%call_ok. change (table_of (tick w) (Sp s)) with (table_of w (Sp s)) in Hk.
  destruct (table_of w (Sp s)) as [t|] eqn:Ht; [|done].
  destruct (t !! n) eqn:Hn; [done|]. injection Hk as <-.
  unfold table_of in Ht. destruct (dirs w !! Sp s) as [v|] eqn:Hv; [|done].
  unfold entry_obj, table_of, put_table. simpl.
  rewrite lookup_alter_eq, lookup_insert_ne, Hv by done. simpl. apply lookup_insert_eq.
Qed.

Lemma Mkdir_ok E s n w w' :
  Mkdir E (PEntry s n) w = (Ok tt, w') → ∃ e, entry_obj w' s n = Some (Directory e).
Proof.
  unfold Mkdir. intros H. apply try_ok in H as ([] & w1 & _ & H).
  destruct (entry_obj w1 s n) as [[f|e]|] eqn:Ho; [done| |].
  - injection H as <-. eauto.
  - apply os_Mkdir_ok in H. eauto.
Qed.

(** ** The parts of [AddContext] on success *)

Section accepted.
Context {S : Type} `{Scheduler S} `{JsonCodec}.
Variable ToASCII : string → res string.
Variable E : Environment.
Variable FreeDisk : option (res Z).
Variable ctx : nat → bool.
Implicit Types q : Queue S.

Lemma addStage_ok id data meta held q held' q' :
  addStage E ctx id data meta held q = ((held', Ok tt), q') →
  held' = held ∧ durable (disk q') id addPending data meta.
Proof.
  unfold addStage, bind at 1. destruct (try_ _ _ q) as [[[]|e] q1]; [|done].
  unfold bind at 1. destruct (onDisk (Mkdir _ _) q1) as [[[]|e] q2] eqn:Hm; [|done].
  unfold bind at 1. destruct (onDisk (addBuild _ _ _ _ _) q2) as [[[]|e] q3] eqn:Hb.
  - intros [= <- <-]. split; [done|]. apply onDisk_eq in Hm, Hb.
    apply Mkdir_ok in Hm as [e He]. by apply (addBuild_ok E ctx id data meta e (disk q2)).
  - unfold bind. by destruct (addCleanup _ _ _ q3).
Qed.

(** What is charged, scheduled and blocked is as before. *)
Definition same_mem q q' : Prop :=
  scheduled q' = scheduled q ∧ pending q' = pending q ∧ blocked q' = blocked q ∧
  accounted (cap q') = accounted (cap q) ∧ count (cap q') = count (cap q) ∧
  bytes (cap q') = bytes (cap q).

#[local] Instance same_mem_preorder : PreOrder same_mem.
Proof.
  split; [done|]. intros a b c (?&?&?&?&?&?) (?&?&?&?&?&?). unfold same_mem.
  by split_and!; congruence.
Qed.

Lemma mem_onDisk {A} (m : ST world A) : keeps same_mem (onDisk m).
Proof. intros q. unfold onDisk. by destruct (m (disk q)). Qed.

Definition same_charges (f : Capacity → Capacity) : Prop :=
  ∀ c, accounted (f c) = accounted c ∧ count (f c) = count c ∧ bytes (f c) = bytes c.

Lemma mem_onCap f : same_charges f → keeps same_mem (onCap f).
Proof. intros Hf q. destruct (Hf (cap q)) as (?&?&?). done. Qed.

Lemma charges_commitPhysical n : same_charges (commitPhysicalLocked n).
Proof. intros c. unfold commitPhysicalLocked, addPhysicalLocked. by repeat case_match. Qed.

Lemma charges_release a b o : same_charges (releaseReserveLocked a b o).
Proof.
  intros c. unfold releaseReserveLocked. destruct (a <? 0); [done|].
  destruct (0 <? reserved c);
  match goal with |- context [ resBytes ?x <? a ] => destruct (resBytes x <? a) end;
  match goal with |- context [ spoolReserved ?x <? b ] => destruct (spoolReserved x <? b) end;
  by destruct (negb _).
Qed.

Lemma mem_commitHeld n : keeps same_mem (commitHeld (S:=S) n).
Proof.
  unfold commitHeld. case_match; [by intros q|]. apply mem_onCap, charges_commitPhysical.
Qed.

Lemma mem_addStage id data meta held : keeps same_mem (addStage (S:=S) E ctx id data meta held).
Proof.
  pose proof @mem_onDisk. pose proof mem_commitHeld. unfold addStage, addCleanup. keep.
Qed.

(** Before the reservation, nothing at all is charged or reserved. *)
Definition same_counts q q' : Prop :=
  same_mem q q' ∧ reserved (cap q') = reserved (cap q) ∧ resBytes (cap q') = resBytes (cap q).

#[local] Instance same_counts_preorder : PreOrder same_counts.
Proof.
  split; [done|]. intros a b c (?&?&?) (?&?&?). unfold same_counts.
  split_and!; [by etrans|congruence..].
Qed.

Lemma counts_onDisk {A} (m : ST world A) : keeps same_counts (onDisk m).
Proof. intros q. unfold onDisk. by destruct (m (disk q)). Qed.

Lemma counts_startMutation : keeps same_counts (startMutation (S:=S) E).
Proof.
  pose proof @counts_onDisk as Hd. unfold startMutation, refreshSpoolUsage. keep. by intros q.
Qed.

(** A reservation that is granted leaves the message room to be charged. *)
Definition room (n : Z) (c : Capacity) : Prop :=
  count c < MaxInt64 ∧ 0 ≤ bytes c ∧ bytes c + n ≤ MaxInt64.

Lemma reservePhysical_value physical x y c c' :
  reservePhysicalLocked FreeDisk physical x y c = Ok c' → ∃ v, c' = set_spoolReserved v c.
Proof.
  unfold reservePhysicalLocked. destruct (physical <? 0); [done|].
  destruct (checkedAddInt64 (spoolReserved c) physical) as [a []]; [|done].
  destruct (checkedAddInt64 (spoolBytes c) a) as [b []]; [|done]. simpl.
  destruct (_ && _); [done|]. destruct (checkFreeDisk _ _ _ _ _) as [[]|]; [|done].
  intros [= <-]. eauto.
Qed.

Lemma reserve_room size physical x y o c c' :
  0 ≤ count c ≤ MaxInt64 → 0 ≤ bytes c ≤ MaxInt64 → 0 ≤ reserved c ≤ MaxInt64 →
  0 ≤ resBytes c ≤ MaxInt64 → 0 ≤ size ≤ MaxInt64 →
  reserveLocked FreeDisk size physical x y o c = Ok c' →
  room size c ∧ accounted c' = accounted c ∧ count c' = count c ∧ bytes c' = bytes c.
Proof.
  intros Hc Hb Hr Hrb Hs. unfold reserveLocked.
  destruct (size <? 0); [done|]. destruct (physical <? 0); [done|].
  checked (count c) (reserved c); [|done].
  destruct (_ =? MaxInt64) eqn:E1; [done|]. zbool.
  checked (bytes c) (resBytes c); [|done].
  checked (bytes c + resBytes c) size; [|done].
  checked (resBytes c) size.
  destruct (if x then _ else _) as [[]|]; [|done]. cbn [res_bind].
  destruct (reservePhysicalLocked _ _ _ _ c) as [c1|] eqn:Hp; [|done]. cbn [res_bind].
  assert (∃ v, c1 = set_spoolReserved v c) as [v ->].
  { by apply reservePhysical_value in Hp. }
  intros Hx. split; [unfold room; lia64|]. by destruct x; injection Hx as <-.
Qed.

(** The accounting of [noteAddedLocked] when the counters have room. *)
Lemma noteAdded_accounted (envelope : Envelope) c :
  accounted c !! ID envelope = None → room (Size envelope) c → 0 ≤ Size envelope →
  accounted (noteAddedLocked envelope c).1 = <[ID envelope := Capacity.charge envelope]> (accounted c).
Proof.
  intros Hn (Hc & Hb & Hr) Hs. unfold noteAddedLocked. rewrite Hn.
  checked (bytes c) (Size envelope).
  destruct (count c =? MaxInt64) eqn:E1; zbool; [lia|].
  unfold Capacity.charge. by destruct (negb _).
Qed.

(** The envelope is charged and waits in the schedule. *)
Definition queued q (envelope : Envelope) : Prop :=
  accounted (cap q) !! ID envelope = Some (Capacity.charge envelope) ∧
  ∃ h, scheduled q !! ID envelope = Some h ∧
       held (pending q) !! h = Some (cloneEnvelope envelope).

Lemma addPublish_ok (envelope : Envelope) metaLen held q :
  ID envelope ∉ blocked q → accounted (cap q) !! ID envelope = None →
  scheduled q !! ID envelope = None → room (Size envelope) (cap q) → 0 ≤ Size envelope →
  let q' := (addPublish envelope metaLen held q).2 in disk q' = disk q ∧ queued q' envelope.
Proof.
  intros Hb Ha Hs Hr Hsz. unfold addPublish, onCap, dropTransition, signal, modify, bind.
  cbn [fst snd cap set_cap set_transitioning set_requeues scheduled pending blocked].
  set (c1 := commitPhysicalLocked _ (cap q)).
  destruct (charges_commitPhysical (estimatePersistentEntryAllocation (Size envelope) metaLen)
    (cap q)) as (A1 & C1 & B1). fold c1 in A1, C1, B1.
  set (c2 := releaseReserveLocked _ _ _ c1).
  destruct (charges_release (Size envelope)
    (held - estimatePersistentEntryAllocation (Size envelope) metaLen) (Username envelope) c1)
    as (A2 & C2 & B2). fold c2 in A2, C2, B2.
  assert (Hn : accounted (noteAddedLocked envelope c2).1
               = <[ID envelope := Capacity.charge envelope]> (accounted (cap q))).
  { rewrite (noteAdded_accounted envelope c2); [by rewrite A2, A1|by rewrite A2, A1| |done].
    unfold room in *. by rewrite C2, B2, C1, B1. }
  unfold scheduleLocked. cbn. rewrite decide_False by done.
  rewrite Hn, lookup_insert_eq. cbn.
  rewrite bool_decide_eq_true_2, Z.eqb_refl, Hs by done. cbn.
  destruct (s_Push (cloneEnvelope envelope) (pending q)) as [h s] eqn:Hp. cbn.
  split; [done|]. split; cbn; [by rewrite Hn, lookup_insert_eq|].
  exists h. rewrite lookup_insert_eq. split; [done|].
  destruct (held_Push (cloneEnvelope envelope) (pending q)) as [_ He].
  rewrite Hp in He. cbn in He. by rewrite He, lookup_insert_eq.
Qed.

(** With the reservation held, success means that the entry is durable. *)
Lemma addReserved_ok (envelope : Envelope) data meta physical q held b q' :
  ID envelope ∉ blocked q → accounted (cap q) !! ID envelope = None →
  scheduled q !! ID envelope = None → room (Size envelope) (cap q) → 0 ≤ Size envelope →
  addReserved E ctx envelope data meta physical q = ((held, Ok b), q') →
  durable (disk q') (ID envelope) addAccepted data meta ∧ queued q' envelope.
Proof.
  intros Hb Ha Hs Hr Hsz. unfold addReserved, bind at 1.
  pose proof (mem_addStage (ID envelope) data meta physical q) as M1.
  destruct (addStage _ _ _ _ _ _ _) as [[held1 built] q1] eqn:H1. simpl in M1.
  destruct built as [[]|]; [|done]. apply addStage_ok in H1 as [-> D1].
  unfold bind at 1.
  match goal with |- context [ onDisk ?m q1 ] => pose proof (mem_onDisk m q1) as M2;
    destruct (onDisk m q1) as [r q2] eqn:H2 end. simpl in M2.
  destruct r as [[]|err].
  2:{ unfold bind. by destruct (abortReady _ _ _ _ _ q2) as [[] ?]. }
  apply onDisk_eq in H2. apply try_ok in H2 as ([] & w & Hc & Hacc).
  apply ctxErr_ok in Hc as (Dc & Fc & _).
  assert (Dw : durable w (ID envelope) addPending data meta).
  { unfold durable in *. by rewrite Dc, Fc. }
  apply (acceptAdd_ok _ _ _ _ _ _ Dw) in Hacc.
  unfold bind. destruct (addPublish envelope (str_len meta) physical q2) as [u q3] eqn:H3.
  intros [= <- <- <-].
  assert (M : same_mem q q2) by (by etrans). destruct M as (E1 & E2 & E3 & E4 & E5 & E6).
  destruct (addPublish_ok envelope (str_len meta) physical q2) as [D3 Q3];
    [by rewrite ?E1, ?E3, ?E4..| |done|].
  - unfold room in *. by rewrite E5, E6.
  - rewrite H3 in D3, Q3. simpl in D3, Q3. by rewrite D3.
Qed.

(** [c] counts what is charged and reserved without overflow. *)
Definition counters (c : Capacity) : Prop :=
  0 ≤ count c ≤ MaxInt64 ∧ 0 ≤ bytes c ≤ MaxInt64 ∧ 0 ≤ reserved c ≤ MaxInt64 ∧
  0 ≤ resBytes c ≤ MaxInt64.

Lemma represents_counters R T c : represents R T c → counters c.
Proof. intros Hr. rep_ranges Hr. unfold counters. split_and!; lia. Qed.

(** Only charged identifiers are scheduled. *)
Definition scheduled_charged q : Prop :=
  ∀ id h, scheduled q !! id = Some h → is_Some (accounted (cap q) !! id).

(** The outcome of [AddContext]: the envelope as returned. *)
Record accepted (q : Queue S) (data : string) (envelope env : Envelope) : Prop := {
  ac_id : ID env = ID envelope;
  ac_digest : BodyDigest env = bodyDigest data;
  ac_size : Size env = str_len data;
  ac_valid : ∃ e0, validateEnvelope ToASCII e0 = (env, Ok tt);
  ac_bodies : verifyBodyData env data = Ok tt;
  ac_meta : ∃ meta, marshalEnvelope env = Ok meta ∧
              durable (disk q) (ID envelope) addAccepted data meta;
  ac_queued : queued q env
}.

Lemma addOwned_ok (envelope : Envelope) data q env q' :
  counters (cap q) → scheduled_charged q → str_len data ≤ MaxInt64 →
  addOwned ToASCII E FreeDisk ctx envelope data q = ((env, Ok tt), q') →
  accepted q' data envelope env.
Proof.
  intros Hcnt Hsch Hdata. unfold addOwned, bind at 1.
  match goal with |- context [ try_ (startMutation E) ?k q ] =>
    destruct (try_ (startMutation E) k q) as [r q1] eqn:Hpre end.
  destruct r as [[]|]; [|done].
  assert (Hq1 : same_counts q q1 ∧ ID envelope ∉ blocked q ∧
                accounted (cap q) !! ID envelope = None).
  { apply try_ok in Hpre as ([] & qa & Ha & Hpre).
    pose proof (counts_startMutation q) as Ma. rewrite Ha in Ma.
    apply try_ok in Hpre as ([] & qb & Hb & Hpre).
    pose proof (counts_onDisk (ctxErr ctx) qa) as Mb. rewrite Hb in Mb. simpl in Ma, Mb.
    unfold bind at 1 2, gets in Hpre.
    destruct (bool_decide (ID envelope ∈ blocked qb)) eqn:Eb; [done|].
    apply bool_decide_eq_false in Eb.
    destruct (accounted (cap qb) !! ID envelope) eqn:Ea; [done|].
    apply try_ok in Hpre as ([] & qc & Hc & Hd).
    pose proof (counts_onDisk (reconcileReady E (ID envelope)) qb) as Mc. rewrite Hc in Mc.
    pose proof (counts_onDisk (checkAbsent E (ID envelope) [Dead; Dsn]) qc) as Md.
    rewrite Hd in Md. simpl in Mc, Md.
    assert (M : same_counts q qb) by (by etrans).
    split; [etrans; [exact M|by etrans]|].
    destruct M as ((E1 & E2 & E3 & E4 & E5) & _). by rewrite <-E3, <-E4. }
  destruct Hq1 as (((E1 & E2 & E3 & E4 & E5 & E6) & E7 & E8) & Hb & Ha).
  set (env1 := set_BodyDigest _ _).
  destruct (validateEnvelope ToASCII env1) as [env2 valid] eqn:Hv.
  match goal with |- context [ match ?c with Ok _ => _ | Err _ => _ end ] =>
    destruct c as [meta|err] eqn:Hchk end; [|done].
  destruct valid as [[]|]; [|done]. cbn [res_bind] in Hchk.
  destruct (verifyBodyData env2 data) as [[]|] eqn:Hvb; [|done]. cbn [res_bind] in Hchk.
  destruct (validateEnvelope_ok _ _ _ Hv) as (_ & _ & rs & _ & He2 & _).
  assert (Hid : ID env2 = ID envelope) by (by rewrite He2).
  assert (Hsz : Size env2 = str_len data) by (by rewrite He2).
  assert (Hdg : BodyDigest env2 = bodyDigest data) by (by rewrite He2).
  clear He2. unfold bind at 1.
  match goal with |- context [ try_ (onDisk (ctxErr ctx)) ?k q1 ] =>
    destruct (try_ (onDisk (ctxErr ctx)) k q1) as [r q2] eqn:Hres end.
  destruct r as [[]|]; [|done].
  apply try_ok in Hres as ([] & qa & Hctx & Hres).
  pose proof (counts_onDisk (ctxErr ctx) q1) as Mc. rewrite Hctx in Mc. simpl in Mc.
  destruct Mc as ((F1 & F2 & F3 & F4 & F5 & F6) & F7 & F8).
  unfold reserve_ in Hres.
  destruct (reserveLocked _ _ _ _ _ _ _) as [c|] eqn:Hr; [|done]. injection Hres as <-.
  destruct Hcnt as (C1 & C2 & C3 & C4).
  assert (0 ≤ str_len data) by (unfold str_len; lia).
  apply reserve_room in Hr as (Hroom & A2 & B2 & D2);
    [|rewrite ?F5, ?F6, ?F7, ?F8, ?E5, ?E6, ?E7, ?E8, ?Hsz; done..].
  unfold bind at 1. destruct (addReserved _ _ _ _ _ _ _) as [[held r] q3] eqn:H3.
  destruct r as [b|err]; [|done]. intros [= <- <-].
  apply addReserved_ok in H3 as [Hdur Hq]; cbn [blocked cap scheduled set_cap];
    rewrite ?A2, ?F1, ?F3, ?F4, ?E1, ?E3, ?E4, ?Hid, ?Hsz; try done.
  - constructor; try done; [by exists env1|]. exists meta. by rewrite <-Hid.
  - destruct (scheduled q !! ID envelope) as [h|] eqn:Hs; [|done].
    destruct (Hsch _ _ Hs). congruence.
  - rewrite Hsz in Hroom. unfold room in *. by rewrite B2, D2.
Qed.
Lemma AddContext_ok envelope data q env q' :
  counters (cap q) → scheduled_charged q → str_len data ≤ MaxInt64 →
  AddContext ToASCII E FreeDisk ctx (Some envelope) data q = ((env, Ok tt), q') →
  ∃ e, env = Some e ∧ accepted q' data envelope e.
Proof.
  intros Hcnt Hsch Hdata. unfold AddContext, bind at 1.
  destruct (try_ _ _ q) as [r q1] eqn:H1. destruct r as [[]|]; [|done].
  assert (M1 : same_counts q q1).
  { apply try_ok in H1 as ([] & qa & Ha & Hb).
    pose proof (counts_onDisk (ctxErr ctx) q) as Ma. rewrite Ha in Ma. simpl in Ma.
    unfold beginOperation in Hb. destruct (closing qa); [done|]. by injection Hb as <-. }
  unfold bind at 1, bind at 1. unfold rejectReadOnly.
  destruct (readOnly q1); [done|]. destruct (ValidateID (ID envelope)); [|done].
  destruct (_ || _); [done|]. unfold bind at 1.
  pose proof (counts_onDisk (call E (λ w, (Ok (random E (ticks w)), w))) q1) as M2.
  destruct (onDisk _ q1) as [tok q2]. simpl in M2. destruct tok as [token|]; [|done].
  set (env1 := set_Revision 1 _). unfold bind at 1. unfold beginTransition, beginTransitions.
  destruct (existsb _ _); [done|]. set (q3 := set_transitioning _ q2).
  assert (M3 : same_counts q q3).
  { etrans; [exact M1|]. etrans; [exact M2|]. done. }
  destruct M3 as ((E1 & E2 & E3 & E4 & E5 & E6) & E7 & E8).
  unfold bind at 1. destruct (addOwned ToASCII E FreeDisk ctx env1 data q3) as [[e r] q4] eqn:Ho.
  destruct r as [[]|]; [|cbn [is_ok]; unfold bind; by destruct (endTransition (ID e) q4)].
  intros [= <- <-]. exists e. split; [done|].
  assert (Hid : ID env1 = ID envelope) by done.
  apply addOwned_ok in Ho; [..|done].
  - destruct Ho as [? ? ? ? ? Hm Hq]. rewrite Hid in *. by constructor.
  - unfold counters in *. by rewrite E5, E6, E7, E8.
  - intros id h. rewrite E1, E4. apply Hsch.
Qed.
End accepted.

(** C2: A message that [AddContext] reports as accepted is durable: whatever
    crash follows, ready/ holds an entry with the accepted marker, the complete
    message and the metadata of the returned envelope, whose size and digest are
    those of the message; and the envelope is charged and waits in the
    schedule. *)
Theorem add_accepted_durable {S} `{Scheduler S} `{JsonCodec} ToASCII E FreeDisk ctx
    envelope data (q : Queue S) R T env q' :
  represents R T (cap q) → scheduled_charged q → str_len data ≤ MaxInt64 →
  AddContext ToASCII E FreeDisk ctx (Some envelope) data q = ((env, Ok tt), q') →
  ∃ e meta, env = Some e ∧ ID e = ID envelope ∧ marshalEnvelope e = Ok meta ∧
    BodyDigest e = bodyDigest data ∧ Size e = str_len data ∧ verifyBodyData e data = Ok tt ∧
    queued q' e ∧ ∀ w', crash (disk q') w' → stored w' (ID envelope) data meta.
Proof.
  intros Hrep Hsch Hd Hadd. apply represents_counters in Hrep.
  destruct (AddContext_ok _ _ _ _ _ _ _ _ _ Hrep Hsch Hd Hadd) as (e & -> & Hacc).
  destruct Hacc as [Hid Hdg Hsz _ Hvb (meta & Hm & Hdur) Hq].
  exists e, meta. split_and!; try done. intros w' Hc. by apply (durable_crash (disk q')).
Qed.

Lemma add_accepted_witness :
  is_ok (sampleAdd []).1.2 = true ∧
  ∀ w', crash (disk (sampleAdd []).2) w' → stored w' "m1" "hello" "{}".
Proof.
  split; [vm_compute; reflexivity|].
  destruct (@add_accepted_durable refSchedule _ (sampleCodec acceptedSample) sampleIDNA
    (sampleEnv []) None (λ _, false) sample_envelope "hello" (emptyQueue noLimits) [] 0
    (Some acceptedSample) (sampleAdd []).2)
    as (e & meta & [= <-] & _ & Hm & _ & _ & _ & _ & Hc).
  - apply represents_empty.
  - intros id h Hs. vm_compute in Hs. discriminate Hs.
  - vm_compute. discriminate.
  - vm_compute. reflexivity.
  - vm_compute in Hm. injection Hm as <-. exact Hc.
Defined.
