(* ===== verification/Load.v ===== *)
(** * Reading entries back

    What a load of an accepted entry guarantees ([load_verified]), and that it
    succeeds on what [AddContext] stored ([accepted_reads_back]). *)

From S2P Require Import Prelude Errors GoLib Sha256 Envelope Capacity Utf8 Mailbox Validation.
From S2P Require Import FileSystem Disk Queue Storage Add Durability Samples AddFacts Accepted.
Open Scope Z_scope.

(** ** Reads change nothing *)

#[export] Instance same_fs_preorder : PreOrder same_fs.
Proof. split; [done|]. intros a b c (?&?&?) (?&?&?). unfold same_fs. by split_and!; congruence. Qed.

Lemma fs_read {A} E (k : world → res A) : keeps same_fs (call E (λ w, (k w, w))).
Proof. intros w. by apply (call_state E (λ w, (k w, w)) (same_fs w)). Qed.

Lemma fs_table w w' d : same_fs w w' → table_of w' d = table_of w d.
Proof. intros (Hd & _). unfold table_of. by rewrite Hd. Qed.

Lemma fs_object w w' p : same_fs w w' → object_at w' p = object_at w p.
Proof.
  intros (Hd & _). unfold object_at, file_obj, resolve_dir, entry_obj, table_of.
  by rewrite Hd.
Qed.

Lemma fs_content w w' f : same_fs w w' → content w' f = content w f.
Proof. intros (_ & Hf & _). unfold content. by rewrite Hf. Qed.

Lemma read_ok {A} E (k : world → res A) w a w' :
  call E (λ w, (k w, w)) w = (Ok a, w') → k (tick w) = Ok a ∧ same_fs w w'.
Proof. intros Hc%call_ok. injection Hc as Hk <-. done. Qed.

(** What a successful bounded read returns. *)
Lemma readBounded_ok E p max w raw w' :
  readBoundedRegular E p max w = (Ok raw, w') →
  same_fs w w' ∧ ∃ f, object_at w p = Some (Regular f) ∧ content w f = raw ∧ str_len raw ≤ max.
Proof.
  unfold readBoundedRegular. intros H.
  apply try_ok in H as ([] & w1 & H1 & H). apply read_ok in H1 as [_ F1].
  apply try_ok in H as (o & w2 & H2 & H). apply read_ok in H2 as [O2 F2].
  change (object_at (tick w1) p) with (object_at w1 p) in O2.
  rewrite (fs_object w w1 p F1) in O2. destruct (object_at w p) as [o'|]; [|done].
  injection O2 as ->. destruct o as [f|d]; [|done].
  unfold bind at 1, gets in H. destruct (max <? _); [done|].
  apply try_ok in H as (f' & w3 & H3 & H). apply read_ok in H3 as [[= <-] F3].
  apply try_ok in H as (c & w4 & H4 & H). apply read_ok in H4 as [[= Hc] F4].
  change (content (tick w3) f) with (content w3 f) in Hc.
  destruct (max <? str_len c) eqn:Em; [done|]. injection H as <- <-. zbool.
  assert (F : same_fs w w3) by (etrans; [exact F1|by etrans]).
  split; [by etrans|]. exists f. split_and!; [done| |done].
  by rewrite <-Hc, (fs_content w w3 f F).
Qed.

Lemma openRegular_ok E p w f w' :
  openRegular E p w = (Ok f, w') → same_fs w w' ∧ object_at w p = Some (Regular f).
Proof.
  unfold openRegular. intros H.
  apply try_ok in H as ([] & w1 & H1 & H). apply read_ok in H1 as [_ F1].
  apply try_ok in H as (o & w2 & H2 & H). apply read_ok in H2 as [O2 F2].
  change (object_at (tick w1) p) with (object_at w1 p) in O2.
  rewrite (fs_object w w1 p F1) in O2. destruct (object_at w p) as [o'|]; [|done].
  injection O2 as ->. destruct o as [f'|d]; [|done].
  apply read_ok in H as [[= ->] F3]. split; [|done]. etrans; [exact F1|by etrans].
Qed.

(** ** Bodies *)

Lemma bodies_size_tiles start stop bodies : tiles start stop bodies → stop = start + bodies_size bodies.
Proof.
  unfold bodies_size. revert start. induction bodies as [|b bodies IH]; intros start; simpl.
  - lia.
  - intros (_ & _ & H%IH). lia.
Qed.

Lemma str_drop_drop a b s : str_drop a (str_drop b s) = str_drop (b + a) s.
Proof. unfold str_drop. by rewrite str_list_of_list, drop_drop. Qed.

(** Reading the variants one after the other is reading their slices. *)
Lemma verifyVariants_slices data start stop bodies :
  0 ≤ start → tiles start stop bodies →
  verifyVariants (str_drop (Z.to_nat start) data) bodies = Ok tt →
  ∀ b, b ∈ bodies → bodyDigest (slice (bOffset b) (bSize b) data) = bDigest b.
Proof.
  revert start. induction bodies as [|b bodies IH]; intros start Hs Ht Hv b' Hb.
  - by apply elem_of_nil in Hb.
  - destruct Ht as (Ho & Hp & Ht). simpl in Hv.
    destruct (_ <? bSize b) eqn:E1; [done|]. destruct (negb _) eqn:E2; [done|].
    apply negb_false_iff, bool_decide_eq_true in E2.
    apply elem_of_cons in Hb as [->|Hb].
    + by rewrite Ho.
    + rewrite str_drop_drop in Hv. rewrite <-Z2Nat.inj_add in Hv by lia.
      by apply (IH (start + bSize b)); [lia|..].
Qed.

(** What a verified body is: the stored length and digest, and every variant's
    digest. *)
Definition body_matches (env : Envelope) (body : string) : Prop :=
  str_len body = Size env ∧ bodyDigest body = BodyDigest env ∧
  ∀ b, b ∈ Bodies env → bodyDigest (slice (bOffset b) (bSize b) body) = bDigest b.

Lemma str_take_all n s : (String.length s ≤ n)%nat → str_take n s = s.
Proof.
  intros Hn. unfold str_take. rewrite take_ge; [apply of_list_str_list|].
  pose proof (str_len_list s) as H. unfold str_len in H. lia.
Qed.

Lemma verifyEnvelopeBody_ok env body :
  (Bodies env ≠ [] → tiles 0 (Size env) (Bodies env)) →
  verifyEnvelopeBody body env = Ok tt → body_matches env body.
Proof.
  intros Ht. unfold verifyEnvelopeBody, body_matches.
  destruct (Bodies env) as [|b0 bs] eqn:Hb.
  - unfold verifyWhole. destruct (negb (checkedAddInt64 _ _).2); [done|].
    destruct (negb (str_len body =? Size env)) eqn:E1; [done|].
    destruct (negb (bool_decide _)) eqn:E2; [done|]. zbool. intros _. split_and!; [done|done|]. intros b Hin. by apply elem_of_nil in Hin.
  - rewrite <-Hb. rewrite <-Hb in Ht. specialize (Ht ltac:(by rewrite Hb)).
    destruct (verifyVariants body (Bodies env)) as [[]|] eqn:Hv; [|done]. cbn [res_bind].
    destruct (negb (str_len body =? Size env)) eqn:E1; [done|].
    destruct (negb (bool_decide _)) eqn:E2; [done|]. zbool. intros _. split_and!; [done| |].
    + rewrite <-E2. f_equal. symmetry. apply str_take_all.
      rewrite <-(Z.add_0_l (bodies_size _)), <-(bodies_size_tiles 0 (Size env)) by done.
      unfold str_len in *. lia.
    + intros b Hin. apply (verifyVariants_slices body 0 (Size env) (Bodies env)); try done.
      unfold str_drop. change (Z.to_nat 0) with 0%nat. by rewrite drop_0, of_list_str_list.
Qed.

(** ** Loading an accepted entry *)

Section load.
Context `{JsonCodec}.
Variable ToASCII : string → res string.
Variable E : Environment.

Lemma decode_ok raw id env :
  decodeEnvelopeMetadata ToASCII raw id = Ok env →
  ID env = id ∧ ∃ e0, json_Unmarshal raw = Ok e0 ∧ validateEnvelope ToASCII e0 = (env, Ok tt).
Proof.
  unfold decodeEnvelopeMetadata. destruct (json_Unmarshal raw) as [e0|]; [|done].
  destruct (negb _) eqn:Hid; [done|]. apply negb_false_iff, bool_decide_eq_true in Hid.
  destruct (ValidateID (ID e0)); [|done].
  destruct (validateEnvelope ToASCII e0) as [e1 [[]|]] eqn:Hv; [|done]. intros [= <-].
  split; [|by exists e0].
  destruct (validateEnvelope_ok _ _ _ Hv) as (_ & _ & rs & _ & -> & _). done.
Qed.

Lemma loadAcceptedMetadata_ok dir id w env w' :
  loadAcceptedMetadata ToASCII E dir id w = (Ok env, w') →
  same_fs w w' ∧ ID env = id ∧
  (∃ f, object_at w (join dir addStateName) = Some (Regular f) ∧ content w f = addAccepted) ∧
  ∃ f raw, object_at w (join dir metaName) = Some (Regular f) ∧ content w f = raw ∧
    ∃ e0, json_Unmarshal raw = Ok e0 ∧ validateEnvelope ToASCII e0 = (env, Ok tt).
Proof.
  unfold loadAcceptedMetadata, bind at 1.
  destruct (acceptedDir E dir w) as [[[]|e] w1] eqn:Ha.
  2:{ destruct (errors_Is e ErrNotExist); [|done]. unfold bind.
      by destruct (os_Stat E dir w1) as [[] ?]. }
  unfold acceptedDir in Ha. apply try_ok in Ha as (st & w2 & Ha & Hb).
  apply readBounded_ok in Ha as (F1 & f1 & O1 & C1 & _).
  destruct (bool_decide (st = addAccepted)) eqn:Est; [|done]. injection Hb as <-.
  apply bool_decide_eq_true in Est. subst st.
  unfold loadEnvelopeMetadata, bind at 1.
  destruct (readBoundedRegular E (join dir metaName) maxEnvelopeMetadata w2) as [[raw|e] w3] eqn:Hr.
  2:{ by destruct (errors_Is e ErrNotExist). }
  intros [= Hd <-]. apply readBounded_ok in Hr as (F2 & f2 & O2 & C2 & _).
  apply decode_ok in Hd as [Hid He].
  rewrite (fs_object w w2 _ F1) in O2. rewrite (fs_content w w2 _ F1) in C2.
  split_and!; [by etrans|done|eauto|]. exists f2, raw. eauto.
Qed.

Lemma loadBody_ok dir env0 w env w' :
  (Bodies env0 ≠ [] → tiles 0 (Size env0) (Bodies env0)) →
  loadBody E dir env0 w = (Ok env, w') →
  same_fs w w' ∧ env = env0 ∧
  ∃ f, object_at w (join dir bodyName) = Some (Regular f) ∧ body_matches env (content w f).
Proof.
  intros Ht. unfold loadBody, bind at 1.
  destruct (openRegular E (join dir bodyName) w) as [[f|e] w1] eqn:Ho.
  2:{ by destruct (errors_Is e ErrNotExist). }
  apply openRegular_ok in Ho as [F1 O1]. unfold bind at 1, gets.
  destruct (negb _); [done|]. intros Hl.
  apply try_ok in Hl as ([] & w2 & Hv & [= <- <-]).
  unfold verifyEnvelopeBodyHandle in Hv. apply try_ok in Hv as (body & w3 & Hr & Hv).
  apply read_ok in Hr as [[= Hc] F3]. injection Hv as Hv <-.
  change (content (tick w1) f) with (content w1 f) in Hc. rewrite (fs_content w w1 f F1) in Hc.
  split_and!; [by etrans|done|]. exists f. split; [done|]. subst body.
  by apply verifyEnvelopeBody_ok.
Qed.

(** The entry is accepted and holds the message [body] and the metadata [raw]. *)
Record entry_holds (w : world) (dir : path) (body raw : string) : Prop := {
  eh_state : ∃ f, object_at w (join dir addStateName) = Some (Regular f) ∧ content w f = addAccepted;
  eh_body : ∃ f, object_at w (join dir bodyName) = Some (Regular f) ∧ content w f = body;
  eh_meta : ∃ f, object_at w (join dir metaName) = Some (Regular f) ∧ content w f = raw
}.
End load.

(** What [loadAcceptedDir] returns has been verified: the entry carries the
    accepted marker; the envelope is the validated decoding of its metadata and
    has the expected identifier; the stored message has exactly the size and
    digest the envelope records, and so has every message variant.  Nothing is
    changed by loading. *)
Theorem load_verified `{JsonCodec} ToASCII E dir id w env w' :
  loadAcceptedDir ToASCII E dir id w = (Ok env, w') →
  same_fs w w' ∧ ID env = id ∧ envelope_ok ToASCII env ∧
  ∃ body raw, entry_holds w dir body raw ∧ body_matches env body ∧
    ∃ e0, json_Unmarshal raw = Ok e0 ∧ validateEnvelope ToASCII e0 = (env, Ok tt).
Proof.
  unfold loadAcceptedDir. intros Hl. apply try_ok in Hl as (env0 & w1 & Hm & Hb).
  apply loadAcceptedMetadata_ok in Hm as (F1 & Hid & Hst & f & raw & Hf & Hc & e0 & Hj & Hv).
  pose proof (validated_ok _ _ _ Hv) as Hok.
  apply loadBody_ok in Hb as (F2 & -> & f2 & Hf2 & Hbm); [|apply (eo_bodies _ _ Hok)].
  rewrite (fs_object w w1 _ F1) in Hf2. rewrite (fs_content w w1 _ F1) in Hbm.
  split_and!; [by etrans|done|done|].
  exists (content w f2), raw. split_and!; [constructor; eauto|done|eauto].
Qed.

(** ** Loads that succeed *)

(** An environment in which no call fails. *)
Class Quiet (E : Environment) := quiet : ∀ t, fault E t = None.

#[export] Instance sampleEnv_quiet : Quiet (sampleEnv []).
Proof. intros t. done. Qed.

Section quiet.
Context `{JsonCodec} (ToASCII : string → res string) (E : Environment) `{!Quiet E}.

Lemma quiet_call {A} (k : world → res A * world) w : call E k w = k (tick w).
Proof. unfold call. by rewrite quiet. Qed.

(** The result of [m] is [a] and the file system is as before. *)
Definition reads {A} (m : ST world A) (a : A) (w : world) : Prop :=
  (m w).1 = a ∧ same_fs w (m w).2.

Lemma reads_try {A B} (m : ST world (res A)) (k : A → ST world (res B)) a r w :
  reads m (Ok a) w → (∀ w', same_fs w w' → reads (k a) r w') → reads (try_ m k) r w.
Proof.
  intros [H1 H2] Hk. unfold reads, try_, bind. destruct (m w) as [x w1]. simpl in *. subst x.
  destruct (Hk w1 H2) as [H3 H4]. split; [done|by etrans].
Qed.

Lemma reads_bind {A B} (m : ST world A) (k : A → ST world B) a r w :
  reads m a w → (∀ w', same_fs w w' → reads (k a) r w') → reads (bind m k) r w.
Proof.
  intros [H1 H2] Hk. unfold reads, bind. destruct (m w) as [x w1]. simpl in *. subst x.
  destruct (Hk w1 H2) as [H3 H4]. split; [done|by etrans].
Qed.

Lemma reads_call {A} (k : world → res A) r w :
  k (tick w) = r → reads (call E (λ w, (k w, w))) r w.
Proof. intros Hk. unfold reads. rewrite quiet_call. done. Qed.

Lemma reads_ret {A} (a : A) w : reads (ret a) a w.
Proof. done. Qed.

Lemma reads_stat p o w : object_at w p = Some o → reads (os_Stat E p) (Ok o) w.
Proof.
  intros Ho. apply reads_call. change (object_at (tick w) p) with (object_at w p). by rewrite Ho.
Qed.

Lemma readBounded_reads p max f c w :
  object_at w p = Some (Regular f) → content w f = c → str_len c ≤ max →
  reads (readBoundedRegular E p max) (Ok c) w.
Proof.
  intros Ho Hc Hm. unfold readBoundedRegular.
  apply (reads_try _ _ tt); [by apply reads_call|]. intros w1 F1.
  apply (reads_try _ _ (Regular f)); [apply reads_stat; by rewrite (fs_object w w1)|]. intros w2 F2.
  assert (Hcw : ∀ w', same_fs w w' → content w' f = c).
  { intros w' F. by rewrite (fs_content w w'). }
  apply (reads_bind _ _ (str_len c)).
  { unfold gets, reads. simpl. rewrite Hcw; [done|]. by etrans. }
  intros w3 F3. assert (max <? str_len c = false) as -> by (apply Z.ltb_ge; lia).
  apply (reads_try _ _ f); [by apply reads_call|]. intros w4 F4.
  apply (reads_try _ _ c).
  { apply reads_call. change (content (tick w4) f) with (content w4 f). rewrite Hcw; [done|].
    etrans; [exact F1|]. etrans; [exact F2|]. by etrans. }
  intros w5 F5. assert (max <? str_len c = false) as -> by (apply Z.ltb_ge; lia). apply reads_ret.
Qed.

Lemma acceptedDir_reads dir f w :
  object_at w (join dir addStateName) = Some (Regular f) → content w f = addAccepted →
  reads (acceptedDir E dir) (Ok tt) w.
Proof.
  intros O1 C1. unfold acceptedDir. apply (reads_try _ _ addAccepted);
    [by apply (readBounded_reads _ _ f)|].
  intros w1 F1. rewrite bool_decide_eq_true_2 by done. apply reads_ret.
Qed.

Lemma loadEnvelopeMetadata_reads dir id f raw env w :
  object_at w (join dir metaName) = Some (Regular f) → content w f = raw →
  str_len raw ≤ maxEnvelopeMetadata → decodeEnvelopeMetadata ToASCII raw id = Ok env →
  reads (loadEnvelopeMetadata ToASCII E dir id) (Ok env) w.
Proof.
  intros O3 C3 Hlen Hdec. unfold loadEnvelopeMetadata. apply (reads_bind _ _ (Ok raw)).
  { by apply (readBounded_reads _ _ f). }
  intros w2 F2. rewrite Hdec. apply reads_ret.
Qed.

Lemma loadAcceptedMetadata_reads dir id body raw env w :
  entry_holds w dir body raw → str_len raw ≤ maxEnvelopeMetadata →
  decodeEnvelopeMetadata ToASCII raw id = Ok env →
  reads (loadAcceptedMetadata ToASCII E dir id) (Ok env) w.
Proof.
  intros [(f1 & O1 & C1) _ (f3 & O3 & C3)] Hlen Hdec. unfold loadAcceptedMetadata.
  apply (reads_bind _ _ (Ok tt)); [by apply (acceptedDir_reads _ f1)|]. intros w1 F1.
  apply (loadEnvelopeMetadata_reads _ _ f3 raw); [by rewrite (fs_object w w1)| |done..].
  by rewrite (fs_content w w1).
Qed.

Lemma verifyVariants_complete data start stop bodies :
  0 ≤ start → tiles start stop bodies → stop = str_len data →
  (∀ b, b ∈ bodies → bodyDigest (slice (bOffset b) (bSize b) data) = bDigest b) →
  verifyVariants (str_drop (Z.to_nat start) data) bodies = Ok tt.
Proof.
  revert start. induction bodies as [|b bodies IH]; intros start Hs Ht Hd Hv; [done|].
  destruct Ht as (Ho & Hp & Ht). simpl.
  pose proof (bodies_size_tiles _ _ _ Ht) as Hsz.
  assert (Hnn : 0 ≤ bodies_size bodies).
  { clear -Ht. unfold bodies_size. revert Ht. generalize (start + bSize b).
    induction bodies as [|c bodies IH]; intros z; simpl; [lia|]. intros (_ & ? & H%IH). lia. }
  assert (Hlen : str_len (str_drop (Z.to_nat start) data) = str_len data - start).
  { rewrite !str_len_list. unfold str_drop. rewrite str_list_of_list, length_drop.
    rewrite str_len_list in Hd. lia. }
  assert (str_len (str_drop (Z.to_nat start) data) <? bSize b = false) as ->.
  { apply Z.ltb_ge. lia. }
  assert (bodyDigest (str_take (Z.to_nat (bSize b)) (str_drop (Z.to_nat start) data)) = bDigest b)
    as ->.
  { rewrite <-Ho. apply Hv. left. }
  rewrite bool_decide_eq_true_2 by done. cbn [negb].
  rewrite str_drop_drop, <-Z2Nat.inj_add by lia. apply IH; [lia|done|done|].
  intros c Hc. apply Hv. by right.
Qed.

Lemma verifyEnvelopeBody_complete env data :
  str_len data < MaxInt64 → (Bodies env ≠ [] → tiles 0 (Size env) (Bodies env)) →
  body_matches env data → verifyEnvelopeBody data env = Ok tt.
Proof.
  intros Hmax Ht (Hsz & Hdg & Hv). unfold verifyEnvelopeBody.
  destruct (Bodies env) as [|b0 bs] eqn:Hb.
  - unfold verifyWhole. rewrite <-Hsz, Z.eqb_refl, Hdg, bool_decide_eq_true_2 by done. cbn [negb].
    assert (0 ≤ str_len data) by (unfold str_len; lia). by checked (str_len data) 1.
  - rewrite <-Hb in *. specialize (Ht ltac:(by rewrite Hb)).
    pose proof (verifyVariants_complete data 0 (Size env) (Bodies env)) as Hc.
    unfold str_drop in Hc. change (Z.to_nat 0) with 0%nat in Hc. rewrite drop_0, of_list_str_list in Hc.
    rewrite Hc by done. cbn [res_bind]. rewrite Hsz, Z.eqb_refl. cbn [negb].
    rewrite str_take_all; [by rewrite Hdg, bool_decide_eq_true_2 by done|].
    pose proof (bodies_size_tiles _ _ _ Ht). unfold str_len in Hsz. lia.
Qed.

Lemma loadBody_reads dir body env f w :
  object_at w (join dir bodyName) = Some (Regular f) → content w f = body →
  body_matches env body → str_len body < MaxInt64 →
  (Bodies env ≠ [] → tiles 0 (Size env) (Bodies env)) →
  reads (loadBody E dir env) (Ok env) w.
Proof.
  intros O2 C2 Hb Hm Ht. unfold loadBody.
  apply (reads_bind _ _ (Ok f)).
  { unfold openRegular. apply (reads_try _ _ tt); [by apply reads_call|]. intros w2 F2.
    apply (reads_try _ _ (Regular f)); [apply reads_stat; by rewrite (fs_object w w2)|].
    intros w3 F3. by apply reads_call. }
  intros w2 F2. apply (reads_bind _ _ (Size env)).
  { unfold gets, reads. simpl. rewrite (fs_content w w2), C2 by done. by destruct Hb as [-> _]. }
  intros w3 F3. rewrite Z.eqb_refl. cbn [negb]. apply (reads_try _ _ tt); [|intros; apply reads_ret].
  unfold verifyEnvelopeBodyHandle. apply (reads_try _ _ body).
  { apply reads_call. change (content (tick w3) f) with (content w3 f).
    rewrite (fs_content w w3), C2; [done|by etrans]. }
  intros w4 F4. rewrite verifyEnvelopeBody_complete by done. apply reads_ret.
Qed.

(** Both loaders, on an intact entry. *)
Lemma load_reads dir id body raw env w :
  entry_holds w dir body raw → str_len raw ≤ maxEnvelopeMetadata →
  decodeEnvelopeMetadata ToASCII raw id = Ok env → body_matches env body →
  str_len body < MaxInt64 → (Bodies env ≠ [] → tiles 0 (Size env) (Bodies env)) →
  reads (loadAcceptedDir ToASCII E dir id) (Ok env) w ∧ reads (loadDir ToASCII E dir id) (Ok env) w.
Proof.
  intros Hh Hl Hd Hb Hm Ht. pose proof Hh as [_ (f2 & O2 & C2) (f3 & O3 & C3)].
  assert (Hbody : ∀ w', same_fs w w' → reads (loadBody E dir env) (Ok env) w').
  { intros w' F. apply (loadBody_reads _ body _ f2); [by rewrite (fs_object w w')| |done..].
    by rewrite (fs_content w w'). }
  split; (apply (reads_try _ _ env); [|done]).
  - by apply (loadAcceptedMetadata_reads _ _ body raw).
  - by apply (loadEnvelopeMetadata_reads _ _ f3 raw).
Qed.
End quiet.

Lemma entry_holds_fs w w' dir body raw :
  same_fs w w' → entry_holds w dir body raw → entry_holds w' dir body raw.
Proof.
  intros F [(f1 & O1 & C1) (f2 & O2 & C2) (f3 & O3 & C3)].
  constructor; eexists; rewrite (fs_object w w') by done; (split; [done|by rewrite (fs_content w w')]).
Qed.

Lemma stored_entry_holds w id data meta :
  id ≠ "" → stored w id data meta → entry_holds w (PEntry Ready id) data meta.
Proof.
  intros Hid (d & t & f1 & f2 & f3 & He & Ht & H1 & C1 & H2 & C2 & H3 & C3).
  assert (Ho : ∀ n f, n ≠ "" → t !! n = Some (Regular f) →
            object_at w (join (PEntry Ready id) n) = Some (Regular f)).
  { intros n f Hn Hf. unfold join. rewrite decide_False by done. simpl.
    unfold file_obj, resolve_dir. rewrite He.
    assert (∃ v, dirs w !! Ent d = Some v) as [v Hv].
    { unfold table_of in Ht. destruct (dirs w !! Ent d); [eauto|done]. }
    rewrite Hv. simpl. by rewrite Ht. }
  constructor; eexists; (split; [by apply Ho|done]).
Qed.

(** C3: What was accepted can be read back: after [AddContext] has reported
    success, whatever crash follows, loading the entry from the recovered spool
    returns exactly the envelope the caller was given, with its message.  JSON
    and IDNA enter through what they document: decoding inverts encoding, and
    A-labels are fixed points. *)
Theorem accepted_reads_back {S} `{Scheduler S} `{JsonCodec} ToASCII `{!IdnaProfile ToASCII}
    E FreeDisk ctx envelope data (q : Queue S) R T e q' E' `{!Quiet E'} w' :
  represents R T (cap q) → scheduled_charged q → str_len data < MaxInt64 →
  AddContext ToASCII E FreeDisk ctx (Some envelope) data q = ((Some e, Ok tt), q') →
  json_safe e → crash (disk q') w' →
  (loadAcceptedDir ToASCII E' (PEntry Ready (ID e)) (ID e) w').1 = Ok e ∧
  body_matches e data ∧ ∃ meta, stored w' (ID e) data meta.
Proof.
  intros Hrep Hsch Hd Hadd Hjs Hc. apply represents_counters in Hrep.
  assert (Hd' : str_len data ≤ MaxInt64) by lia.
  destruct (AddContext_ok _ _ _ _ _ _ _ _ _ Hrep Hsch Hd' Hadd) as (e1 & [= <-] & Hacc).
  destruct Hacc as [Hid Hdg Hsz (e0 & Hv) Hvb (meta & Hm & Hdur) _].
  pose proof (validated_ok _ _ _ Hv) as Hok. rewrite <-Hid in Hdur.
  pose proof (durable_crash _ _ _ _ _ Hdur Hc) as Hst.
  assert (Hbm : body_matches e data).
  { split_and!; [done..|]. intros b Hb. unfold verifyBodyData in Hvb.
    destruct (forallb _ _) eqn:Hf; [|done]. rewrite forallb_forall in Hf.
    specialize (Hf b (proj1 (list_elem_of_In _ _) Hb)). by apply bool_decide_eq_true in Hf. }
  split_and!; [|done|by exists meta].
  assert (Hne : ID e ≠ "").
  { intros He. pose proof (eo_id _ _ Hok) as Hi. by rewrite He in Hi. }
  unfold marshalEnvelope in Hm. destruct (json_Marshal e) as [b|] eqn:Hj; [|done].
  cbn [res_bind] in Hm. destruct (_ <? _) eqn:Hl; [done|]. injection Hm as ->. zbool.
  apply (load_reads ToASCII E' (PEntry Ready (ID e)) (ID e) data meta e w');
    [by apply stored_entry_holds|done| |done|done|apply (eo_bodies _ _ Hok)].
  unfold decodeEnvelopeMetadata. rewrite (json_roundtrip _ _ Hjs Hj).
  rewrite bool_decide_eq_true_2 by done. cbn [negb]. rewrite (eo_id _ _ Hok).
  by rewrite (validateEnvelope_idem ToASCII _ _ Hv).
Qed.

(** The world after a crash that follows the sample addition. *)
Definition sampleCrashed : world := reboot (disk (sampleAdd []).2).

Lemma accepted_reads_back_witness :
  (@loadAcceptedDir (sampleCodec acceptedSample) sampleIDNA (sampleEnv []) (PEntry Ready "m1")
     "m1" sampleCrashed).1 = Ok acceptedSample ∧ body_matches acceptedSample "hello".
Proof.
  destruct (@accepted_reads_back refSchedule _ (sampleCodec acceptedSample) sampleIDNA _
    (sampleEnv []) None (λ _, false) sample_envelope "hello" (emptyQueue noLimits) [] 0
    acceptedSample (sampleAdd []).2 (sampleEnv []) _ sampleCrashed) as (Hl & Hb & _).
  - apply represents_empty.
  - intros id h Hs. vm_compute in Hs. discriminate Hs.
  - vm_compute. reflexivity.
  - vm_compute. reflexivity.
  - reflexivity.
  - apply reboot_crash.
  - split; [exact Hl|exact Hb].
Defined.

Lemma load_verified_witness :
  ∃ w', same_fs sampleCrashed w' ∧ envelope_ok sampleIDNA acceptedSample.
Proof.
  destruct (@load_verified (sampleCodec acceptedSample) sampleIDNA (sampleEnv [])
    (PEntry Ready "m1") "m1" sampleCrashed acceptedSample
    (@loadAcceptedDir (sampleCodec acceptedSample) sampleIDNA (sampleEnv [])
       (PEntry Ready "m1") "m1" sampleCrashed).2) as (Hf & _ & Hok & _).
  - vm_compute. reflexivity.
  - eexists. split; [exact Hf|exact Hok].
Defined.
