(* ===== verification/RecoveryFacts.v ===== *)
(** * Recovery schedules nothing that was refused

    The identifier of a refused message stays out of the schedule when the
    spool is opened again, after any crash and under any failures of the file
    system during recovery: the lemma behind [refused_not_delivered]. *)

From S2P Require Import Prelude Errors GoLib Sha256 Envelope Capacity Utf8 Mailbox Validation.
From S2P Require Import FileSystem Disk Queue Storage Delivery Dead Add Dsn Recovery Open.
From S2P Require Import Durability Samples AddFacts Accepted Load.
Open Scope Z_scope.

Section calm.
Variable id : string.

(** No namespace holds a stray regular file. *)
Definition no_files (w : world) : Prop := ∀ s n f, ¬ may_entry w (Sp s) n (Regular f).

(** Nothing a crash may leave shows [id] as accepted, or as a staged
    notification. *)
Record unaccepted (w : world) : Prop := {
  un_wf : wfw w;
  un_acc : ¬ acc id w;
  un_dsn : clear Dsn id w;
  un_files : no_files w
}.

Definition calm (w w' : world) : Prop := unaccepted w → unaccepted w'.

#[export] Instance calm_preorder : PreOrder calm.
Proof. split; [intros w H; exact H|]. intros a b c Hab Hbc H. auto. Qed.

(** A new binding that cannot make [id] accepted. *)
Definition harmless (d : dref) (n : string) (o : object) : Prop :=
  match d with
  | Sp s => is_dir o = true ∧ (n ≠ id ∨ (s ≠ Ready ∧ s ≠ Tmp ∧ s ≠ Dsn))
  | Ent _ => n ≠ addStateName ∨ is_dir o = true
  end.

Lemma unaccepted_step w w' :
  unaccepted w →
  (∀ d n o, may_entry w' d n o →
     may_entry w d n o ∨ (harmless d n o ∧ (ino o < inode w')%nat)) →
  (∀ f c, may_hold w' f c → may_hold w f c) → (inode w ≤ inode w')%nat → unaccepted w'.
Proof.
  intros [Hw Ha Hd Hf] He Hh Hi. constructor.
  - intros d n o [H%Hw|[_ H]]%He; lia.
  - intros Hacc. apply Ha.
    assert (Hone : ∀ s, s = Ready ∨ s = Tmp → accAt w' s id → accAt w s id).
    { intros s Hs (d & f & H1 & H2 & H3). exists d, f. split_and!; [| |by apply Hh].
      - apply He in H1 as [H1|[[_ [?|(? & ? & _)]] _]]; [done..|]. by destruct Hs.
      - apply He in H2 as [H2|[[?|?] _]]; done. }
    destruct Hacc as [H|H]; [left|right]; apply Hone; auto.
  - intros o [H|[[_ [?|(_ & _ & ?)]] _]]%He; [by apply (Hd o)|done..].
  - intros s n f [H|[[? _] _]]%He; [by apply (Hf s n f)|done].
Qed.

Lemma calm_call {A} E (k : world → res A * world) :
  (∀ w, unaccepted w → unaccepted (k w).2) → keeps calm (call E k).
Proof.
  intros Hk w. unfold calm.
  assert (Ht : unaccepted w → unaccepted (tick w)) by (intros []; by constructor).
  apply (call_state E k (λ w', unaccepted w → unaccepted w')); auto.
Qed.

Lemma calm_read {A} E (k : world → res A) : keeps calm (call E (λ w, (k w, w))).
Proof. by apply calm_call. Qed.

Lemma calm_Now E : keeps calm (time_Now E).
Proof. intros w []. by constructor. Qed.

Lemma unaccepted_put_sub w d t :
  (∀ n o, t !! n = Some o → may_entry w d n o) → unaccepted w → unaccepted (put_table d t w).
Proof.
  intros Ht Hu. apply (unaccepted_step w); [done| |done|done].
  intros d' n o [H|[-> H]]%may_entry_put; left; [done|by apply Ht].
Qed.

Lemma calm_os_Unlink E d n : keeps calm (os_Unlink E d n).
Proof.
  apply calm_call. intros w Hu. destruct (table_of w d) as [t|] eqn:Ht; [|done].
  assert (Hsub : unaccepted (put_table d (delete n t) w)).
  { apply unaccepted_put_sub; [|done]. intros m o [_ Hm]%lookup_delete_Some.
    by apply (may_entry_cur w d t). }
  destruct (t !! n) as [[f|e]|]; [exact Hsub| |done]. by case_decide.
Qed.

Lemma calm_Sync E p : keeps calm (Sync E p).
Proof.
  apply calm_call. intros w Hu.
  assert (Hs : ∀ d, unaccepted (set_dirs (alter settled d (dirs w)) w)).
  { intros d. apply (unaccepted_step w); [done| |done|done].
    intros d' n o H. left. by apply may_entry_settle in H. }
  destruct p; [done|destruct (resolve_dir w _); [apply Hs|done]..].
Qed.

Lemma calm_os_MkdirSpace E s : keeps calm (os_MkdirSpace E s).
Proof.
  apply calm_call. intros w Hu. destruct (dirs w !! Sp s); [done|]. simpl.
  apply (unaccepted_step w); [done| |done|done].
  intros d n o H. left. by apply (may_entry_new_dir w (Sp s)) in H as [_ H].
Qed.

(** The namespaces whose entries recovery does not accept. *)
Definition aside (s : space) (n : string) : Prop := n ≠ id ∨ (s ≠ Ready ∧ s ≠ Tmp ∧ s ≠ Dsn).

Lemma calm_os_Mkdir E s n : aside s n → keeps calm (os_Mkdir E s n).
Proof.
  intros Hs. apply calm_call. intros w Hu.
  destruct (table_of w (Sp s)) as [t|] eqn:Ht; [|done].
  destruct (t !! n) as [o|] eqn:Hn; [done|]. simpl.
  set (w1 := set_dirs (<[Ent (inode w) := fresh_vers ∅]> (dirs w)) (set_inode _ w)).
  apply (unaccepted_step w); [done| |done|simpl; lia].
  intros d m o [H|[-> H]]%may_entry_put.
  - left. by apply (may_entry_new_dir w (Ent (inode w))) in H as [_ H].
  - apply lookup_insert_Some in H as [[<- <-]|[_ H]].
    + right. simpl. split; [done|lia].
    + left. by apply (may_entry_cur w (Sp s) t).
Qed.

(** The name of an entry that moves between namespaces is a directory. *)
Lemma entry_is_dir w s t n o :
  unaccepted w → table_of w (Sp s) = Some t → t !! n = Some o → is_dir o = true.
Proof.
  intros Hu Ht Hn. destruct o as [f|d]; [|done]. exfalso.
  apply (un_files w Hu s n f). by apply (may_entry_cur w (Sp s) t).
Qed.

(** A rename out of a namespace, to a harmless place. *)
Lemma calm_os_Rename E s n d' n' :
  (∀ o, is_dir o = true → harmless d' n' o) → keeps calm (os_Rename E (Sp s) n d' n').
Proof.
  intros Hh. apply calm_call. intros w Hu.
  destruct (table_of w (Sp s)) as [t|] eqn:Ht; [|done].
  destruct (table_of w d') as [t'|] eqn:Ht'; [|done].
  destruct (t !! n) as [o|] eqn:Ho; [|done].
  destruct (may_replace w o (t' !! n')); [done|].
  pose proof (entry_is_dir w s t n o Hu Ht Ho) as Hdir.
  assert (Hino : (ino o < inode w)%nat).
  { apply (un_wf w Hu (Sp s) n). by apply (may_entry_cur w _ t). }
  assert (Hsub : unaccepted (put_table (Sp s) (delete n t) w)).
  { apply unaccepted_put_sub; [|done]. intros m x [_ Hm]%lookup_delete_Some.
    by apply (may_entry_cur w _ t). }
  case_decide as Hd; simpl.
  - apply (unaccepted_step w); [done| |done|done].
    intros d m x [H|[-> H]]%may_entry_put; [by left|].
    apply lookup_insert_Some in H as [[<- <-]|[_ H]].
    + right. split; [|done]. rewrite Hd. by apply Hh.
    + apply lookup_delete_Some in H as [_ H]. left. by apply (may_entry_cur w _ t).
  - apply (unaccepted_step _ _ Hsub); [|done|done].
    intros d m x [H|[-> H]]%may_entry_put; [by left|].
    apply lookup_insert_Some in H as [[<- <-]|[_ H]].
    + right. split; [by apply Hh|done].
    + left. apply (may_entry_cur _ _ t'); [|done]. unfold table_of in *. simpl.
      by rewrite lookup_alter_ne.
Qed.

(** A rename of a file within an entry. *)
Lemma calm_os_RenameFile E e f f' :
  f' ≠ addStateName → keeps calm (os_Rename E (Ent e) f (Ent e) f').
Proof.
  intros Hf. apply calm_call. intros w Hu.
  destruct (table_of w (Ent e)) as [t|] eqn:Ht; [|done].
  destruct (t !! f) as [o|] eqn:Ho; [|done].
  destruct (may_replace _ _ _); [done|]. rewrite decide_True by done. simpl.
  apply (unaccepted_step w); [done| |done|done].
  intros d m x [H|[-> H]]%may_entry_put; [by left|].
  apply lookup_insert_Some in H as [[<- <-]|[_ H]].
  - right. split; [by left|]. apply (un_wf w Hu (Ent e) f). by apply (may_entry_cur w _ t).
  - apply lookup_delete_Some in H as [_ H]. left. by apply (may_entry_cur w _ t).
Qed.

(** ** Composite operations *)

#[local] Hint Resolve calm_Now calm_os_Unlink calm_Sync calm_os_MkdirSpace calm_read : core.

Lemma calm_Stat E p : keeps calm (os_Stat E p).
Proof. apply calm_read. Qed.
Lemma calm_ReadDir E p : keeps calm (os_ReadDir E p).
Proof. apply calm_read. Qed.
Lemma calm_ReadFile E f : keeps calm (os_ReadFile E f).
Proof. apply calm_read. Qed.
Lemma calm_CheckRead E p : keeps calm (CheckRead E p).
Proof. apply calm_read. Qed.
Lemma calm_Allocated E s n : keeps calm (AllocatedBytes E s n).
Proof. apply calm_read. Qed.
#[local] Hint Resolve calm_Stat calm_ReadDir calm_ReadFile calm_CheckRead calm_Allocated : core.

Lemma calm_remove_path E p : keeps calm (os_remove_path E p).
Proof.
  intros w. destruct p as [|s|s n|s n f]; unfold os_remove_path; try reflexivity.
  - apply calm_os_Unlink.
  - destruct (resolve_dir w _); [apply calm_os_Unlink|reflexivity].
Qed.
#[local] Hint Resolve calm_remove_path : core.

Definition path_aside (p : path) : Prop :=
  match p with PEntry s n => aside s n | _ => True end.

Lemma calm_mkdir_path E p : path_aside p → keeps calm (os_mkdir_path E p).
Proof. intros Hp. destruct p; simpl in *; keep. by apply calm_os_Mkdir. Qed.

Lemma calm_missing_loop E ps : keeps calm (missing_loop E ps).
Proof. induction ps as [|p ps IH]; simpl; keep. Qed.

Lemma calm_sync_parents E ps : keeps calm (sync_parents E ps).
Proof. induction ps as [|p ps IH]; simpl; keep. Qed.

Lemma calm_create_missing E ps : Forall path_aside ps → keeps calm (create_missing E ps).
Proof.
  induction ps as [|p ps IH]; intros Hp; simpl; [keep|].
  inversion Hp as [|? ? H1 H2]; subst. pose proof (calm_mkdir_path E p H1). specialize (IH H2). keep.
Qed.

Lemma missing_loop_sub E ps w l w' :
  missing_loop E ps w = (Ok l, w') → ∀ p, p ∈ l → p ∈ ps.
Proof.
  revert w l w'. induction ps as [|p ps IH]; intros w l w'; simpl.
  - intros [= <- _] p Hp. done.
  - unfold bind at 1. destruct (os_Stat E p w) as [[o|e] w1].
    + destruct (is_dir o); [|done]. intros [= <- _] x Hx. by apply elem_of_nil in Hx.
    + destruct (errors_Is e ErrNotExist); [|done]. intros Hm.
      apply try_ok in Hm as (rest & w2 & Hr & [= <- _]). intros x Hx.
      apply elem_of_cons in Hx as [->|Hx]; [left|right]. by apply (IH _ _ _ Hr).
Qed.

Lemma calm_MkdirDurable E p : Forall path_aside (lineage p) → keeps calm (MkdirDurable E p).
Proof.
  intros Hp w. unfold MkdirDurable, try_, bind.
  pose proof (calm_missing_loop E (lineage p) w) as Hm.
  destruct (missing_loop E (lineage p) w) as [[l|e] w1] eqn:Hl; simpl in Hm; [|exact Hm].
  etrans; [exact Hm|]. destruct l as [|x l]; [apply calm_sync_parents|].
  apply calm_create_missing. apply Forall_rev. rewrite Forall_forall in *.
  intros y Hy. apply Hp. by apply (missing_loop_sub _ _ _ _ _ Hl).
Qed.

Lemma calm_ensure E p : Forall path_aside (lineage p) → keeps calm (ensureDurableDir E p).
Proof. intros Hp. pose proof (calm_MkdirDurable E p Hp). unfold ensureDurableDir. keep. Qed.

Lemma calm_Rename E s n s' n' : aside s' n' → keeps calm (Rename E s n s' n').
Proof.
  intros Hs. unfold Rename. keep. apply calm_os_Rename. intros o Ho. split; [done|exact Hs].
Qed.

Lemma corr_aside n : aside Corr n.
Proof. by right. Qed.
Lemma trash_aside n : aside Trash n.
Proof. by right. Qed.
#[local] Hint Resolve corr_aside trash_aside : core.

Lemma calm_quarantineDir E s n name : keeps calm (quarantineDir E s n name).
Proof.
  assert (He : keeps calm (ensureDurableDir E (PSpace Corr))).
  { apply calm_ensure. by repeat constructor. }
  assert (Hr : ∀ m, keeps calm (Rename E s n Corr m)) by (intros; by apply calm_Rename).
  unfold quarantineDir. keep.
Qed.

Lemma calm_RenameInto E s n s' n' base : keeps calm (RenameInto E s n s' n' base).
Proof.
  unfold RenameInto. keep. intros w. unfold with_dir.
  destruct (resolve_dir w (PEntry s' n')) as [d|] eqn:Hd; [|reflexivity].
  assert (∃ e, d = Ent e) as [e ->].
  { unfold resolve_dir in Hd. repeat (case_match; try done). injection Hd as <-. eauto. }
  apply calm_os_Rename. intros o Ho. by right.
Qed.

Lemma calm_quarantineFile E s n name : keeps calm (quarantineFile E s n name).
Proof.
  assert (He : keeps calm (ensureDurableDir E (PSpace Corr))).
  { apply calm_ensure. by repeat constructor. }
  assert (Hm : ∀ m, keeps calm (MkdirDurable E (PEntry Corr m))).
  { intros m. apply calm_MkdirDurable. constructor; [apply corr_aside|]. by constructor. }
  pose proof calm_RenameInto. unfold quarantineFile. keep.
Qed.

Lemma calm_moveState E s n s' n' : aside s' n' → keeps calm (moveState E s n s' n').
Proof. intros Hs. pose proof (calm_Rename E s n s' n' Hs). unfold moveState. keep. Qed.

Lemma calm_moveFile E s n f f' : f' ≠ addStateName → keeps calm (moveFile E s n f f').
Proof.
  intros Hf. assert (Hr : keeps calm (RenameFile E s n f f')).
  { unfold RenameFile. keep. intros w. unfold with_dir.
    destruct (resolve_dir w (PEntry s n)) as [d|] eqn:Hd; [|reflexivity].
    assert (∃ e, d = Ent e) as [e ->].
    { unfold resolve_dir in Hd. repeat (case_match; try done). injection Hd as <-. eauto. }
    by apply calm_os_RenameFile. }
  unfold moveFile. keep.
Qed.

Lemma calm_unlink_all E fuel : ∀ d entries, keeps calm (unlink_all E fuel d entries).
Proof.
  induction fuel as [|fuel IHf]; intros d entries;
    (induction entries as [|[name o] entries IH]; simpl; [keep|]);
    (apply keeps_bind; [apply _| |intros []; keep]).
  - destruct o; keep.
  - destruct o; [keep|]. apply keeps_try; [apply _| |intros []; keep].
    intros w. destruct (table_of w (Ent d0)); [apply IHf|reflexivity].
Qed.

Lemma calm_RemoveAll E s n : keeps calm (RemoveAll E s n).
Proof.
  unfold RemoveAll. keep. intros w. unfold removeAllSecure.
  destruct (entry_obj w s n) as [[f|d]|]; [apply calm_os_Unlink| |reflexivity].
  apply (keeps_try calm); [|keep].
  intros w1. destruct (table_of w1 (Ent d)); [apply calm_unlink_all|reflexivity].
Qed.

Lemma calm_removeTrash E n : keeps calm (removeTrash E n).
Proof. pose proof calm_RemoveAll. unfold removeTrash. keep. Qed.

Lemma calm_cleanTrash E : keeps calm (cleanTrash E).
Proof.
  pose proof calm_RemoveAll.
  assert (Hl : ∀ es errs, keeps calm (removeTrashEntries E es errs)).
  { induction es as [|e es IH]; intros errs; simpl; keep. }
  unfold cleanTrash. keep.
Qed.

Section loads.
Context `{JsonCodec} (ToASCII : string → res string) (E : Environment).

Lemma calm_readBounded p max : keeps calm (readBoundedRegular E p max).
Proof. unfold readBoundedRegular, openRegularFromInfo. keep. Qed.

Lemma calm_loadAcceptedMetadata dir n : keeps calm (loadAcceptedMetadata ToASCII E dir n).
Proof.
  pose proof calm_readBounded. unfold loadAcceptedMetadata, acceptedDir, loadEnvelopeMetadata. keep.
Qed.

Lemma calm_loadBody dir env : keeps calm (loadBody E dir env).
Proof.
  unfold loadBody, openRegular, openRegularFromInfo, verifyEnvelopeBodyHandle. keep.
Qed.

Lemma calm_loadDir dir n : keeps calm (loadDir ToASCII E dir n).
Proof.
  pose proof calm_readBounded. pose proof calm_loadBody.
  unfold loadDir, loadEnvelopeMetadata. keep.
Qed.

Lemma calm_loadAcceptedDir dir n : keeps calm (loadAcceptedDir ToASCII E dir n).
Proof.
  pose proof calm_loadAcceptedMetadata. pose proof calm_loadBody. unfold loadAcceptedDir. keep.
Qed.

Lemma calm_acceptedDir dir : keeps calm (acceptedDir E dir).
Proof. pose proof calm_readBounded. unfold acceptedDir. keep. Qed.
End loads.
End calm.

(** ** The queue during recovery *)

Lemma keeps_for_each {St A} (R : St → St → Prop) `{!PreOrder R} (f : A → ST St unit) l :
  (∀ a, a ∈ l → keeps R (f a)) → keeps R (for_each f l).
Proof.
  induction l as [|a l IH]; intros Hf; simpl; [by apply keeps_ret|].
  apply keeps_bind; [done|apply Hf; left|]. intros _. apply IH. intros b Hb. apply Hf. by right.
Qed.

Lemma noteRemoved_accounted n c : accounted (noteRemoved n c) = delete n (accounted c).
Proof.
  unfold noteRemoved. destruct (accounted c !! n) as [e|] eqn:He.
  - by repeat case_match.
  - by rewrite delete_id.
Qed.

Section queue.
Variable id : string.
Context {S : Type} `{Scheduler S} `{JsonCodec} (ToASCII : string → res string) (E : Environment).
Implicit Types q : Queue S.

(** [id] is neither acceptable on disk nor known in memory. *)
Record absent q : Prop := {
  ab_disk : unaccepted id (disk q);
  ab_charged : accounted (cap q) !! id = None;
  ab_scheduled : scheduled q !! id = None
}.

Definition qcalm q q' : Prop := absent q → absent q'.

#[export] Instance qcalm_preorder : PreOrder qcalm.
Proof. split; [intros q Hq; exact Hq|]. intros a b c Hab Hbc Hq. auto. Qed.

Lemma qc_onDisk {A} (m : ST world A) : keeps (calm id) m → keeps qcalm (onDisk m).
Proof.
  intros Hm q [Hd Ha Hs]. unfold onDisk. specialize (Hm (disk q) Hd).
  destruct (m (disk q)) as [a w]. by constructor.
Qed.

Lemma qc_same {A} (m : ST (Queue S) A) :
  (∀ q, disk (m q).2 = disk q ∧ accounted (cap (m q).2) = accounted (cap q) ∧
        scheduled (m q).2 = scheduled q) → keeps qcalm m.
Proof.
  intros Hm q [Hd Ha Hs]. destruct (Hm q) as (E1 & E2 & E3).
  constructor; [by rewrite E1|by rewrite E2|by rewrite E3].
Qed.

Lemma qc_modify f :
  (∀ q, disk (f q) = disk q ∧ accounted (cap (f q)) = accounted (cap q) ∧
        scheduled (f q) = scheduled q) → keeps qcalm (modify f).
Proof. intros Hf. by apply qc_same. Qed.

Lemma qc_onCap f : (∀ c, accounted (f c) = accounted c) → keeps qcalm (onCap f).
Proof. intros Hf. apply qc_same. intros q. simpl. by rewrite Hf. Qed.

Lemma qc_block n : keeps qcalm (block n).
Proof. by apply qc_modify. Qed.
Lemma qc_noteCorrupt e : keeps qcalm (noteCorrupt e).
Proof. by apply qc_modify. Qed.
Lemma qc_noteWarning e : keeps qcalm (noteWarning e).
Proof. by apply qc_modify. Qed.
Lemma qc_signal : keeps qcalm signal.
Proof. by apply qc_modify. Qed.
Lemma qc_endOperation : keeps qcalm endOperation.
Proof. by apply qc_modify. Qed.
Lemma qc_beginOperation : keeps qcalm beginOperation.
Proof. apply qc_same. intros q. unfold beginOperation. by destruct (closing q). Qed.
Lemma qc_rejectReadOnly : keeps qcalm rejectReadOnly.
Proof. by apply qc_same. Qed.
Lemma qc_beginTransitions ids : keeps qcalm (beginTransitions ids).
Proof. apply qc_same. intros q. unfold beginTransitions. by destruct (existsb _ _). Qed.

#[local] Hint Resolve qc_block qc_noteCorrupt qc_noteWarning qc_signal qc_endOperation
  qc_beginOperation qc_rejectReadOnly qc_beginTransitions : core.

Lemma qc_beginTransition n : keeps qcalm (beginTransition n).
Proof. apply qc_beginTransitions. Qed.
#[local] Hint Resolve qc_beginTransition : core.

Lemma qc_scheduleLocked e : keeps qcalm (scheduleLocked e).
Proof.
  intros q Hq. unfold scheduleLocked. case_decide; [done|].
  destruct (accounted (cap q) !! ID e) as [a|] eqn:Ha; [|done].
  destruct (_ || _); [done|]. destruct (scheduled q !! ID e) eqn:Hs; [done|].
  destruct (s_Push _ _) as [h s]. destruct Hq as [Hd Hc Hn].
  constructor; [done|done|]. simpl. rewrite lookup_insert_ne; [done|].
  intros <-. congruence.
Qed.
#[local] Hint Resolve qc_scheduleLocked : core.

Lemma qc_scheduleFirst es : keeps qcalm (scheduleFirst es).
Proof. induction es as [|e es IH]; simpl; keep. Qed.
#[local] Hint Resolve qc_scheduleFirst : core.

Lemma qc_endTransitions ids : keeps qcalm (endTransitions ids).
Proof.
  assert (Hl : ∀ added, keeps qcalm (endTransitions_loop ids added)).
  { induction ids as [|i ids IH]; intros added; simpl; [keep|].
    apply keeps_bind; [apply _|by apply qc_modify|]. intros _.
    apply keeps_bind; [apply _|apply keeps_gets; apply _|]. intros pend.
    apply keeps_bind; [apply _|auto|]. intros found.
    apply keeps_bind; [apply _|by apply qc_modify|]. intros _. apply IH. }
  unfold endTransitions. keep.
Qed.
#[local] Hint Resolve qc_endTransitions : core.

Lemma qc_noteRemovedQ n : keeps qcalm (noteRemovedQ n).
Proof.
  intros q [Hd Ha Hs]. unfold noteRemovedQ, modify. simpl.
  destruct (accounted (cap q) !! n) as [e|]; [|done].
  constructor; simpl; [done| |].
  - rewrite noteRemoved_accounted. rewrite lookup_delete. by case_decide.
  - rewrite lookup_delete. by case_decide.
Qed.
#[local] Hint Resolve qc_noteRemovedQ : core.

Lemma qc_recordQuarantineFailure n a b : keeps qcalm (recordQuarantineFailure n a b).
Proof. unfold recordQuarantineFailure. keep. Qed.
Lemma qc_recordBlocked n a : keeps qcalm (recordBlocked n a).
Proof. unfold recordBlocked. keep. Qed.
Lemma qc_recordTransientBlocked n a : keeps qcalm (recordTransientBlocked n a).
Proof. unfold recordTransientBlocked. keep. Qed.
#[local] Hint Resolve qc_recordQuarantineFailure qc_recordBlocked qc_recordTransientBlocked : core.

(** Disk operations. *)
Lemma qc_quarantineDir s n name : keeps qcalm (onDisk (quarantineDir E s n name)).
Proof. apply qc_onDisk, calm_quarantineDir. Qed.
Lemma qc_quarantineFile s n name : keeps qcalm (onDisk (quarantineFile E s n name)).
Proof. apply qc_onDisk, calm_quarantineFile. Qed.
Lemma qc_Sync p : keeps qcalm (onDisk (Sync E p)).
Proof. apply qc_onDisk, calm_Sync. Qed.
Lemma qc_Stat p : keeps qcalm (onDisk (os_Stat E p)).
Proof. apply qc_onDisk, calm_read. Qed.
Lemma qc_ReadDir p : keeps qcalm (onDisk (os_ReadDir E p)).
Proof. apply qc_onDisk, calm_read. Qed.
Lemma qc_loadAcceptedDir dir n : keeps qcalm (onDisk (loadAcceptedDir ToASCII E dir n)).
Proof. apply qc_onDisk, calm_loadAcceptedDir. Qed.
Lemma qc_Now : keeps qcalm (onDisk (time_Now E)).
Proof. apply qc_onDisk, calm_Now. Qed.
Lemma qc_Allocated s n : keeps qcalm (onDisk (AllocatedBytes E s n)).
Proof. apply qc_onDisk, calm_read. Qed.
Lemma qc_remove_path p : keeps qcalm (onDisk (os_remove_path E p)).
Proof. apply qc_onDisk, calm_remove_path. Qed.
#[local] Hint Resolve qc_quarantineDir qc_quarantineFile qc_Sync qc_Stat qc_ReadDir
  qc_loadAcceptedDir qc_Now qc_Allocated qc_remove_path : core.

Lemma qc_setAside s n name a b : keeps qcalm (setAside E s n name a b).
Proof. unfold setAside. keep. Qed.
Lemma qc_setAsideFile s n name a b : keeps qcalm (setAsideFile E s n name a b).
Proof. unfold setAsideFile. keep. Qed.
#[local] Hint Resolve qc_setAside qc_setAsideFile : core.

Lemma qc_refresh : keeps qcalm (refreshSpoolUsage E).
Proof.
  assert (Hr : keeps qcalm (onDisk (AllocatedRoot E))) by apply qc_onDisk, calm_read.
  unfold refreshSpoolUsage. keep. by apply qc_modify.
Qed.

Lemma qc_startMutation : keeps qcalm (startMutation E).
Proof. pose proof qc_refresh. unfold startMutation. keep. Qed.
#[local] Hint Resolve qc_refresh qc_startMutation : core.

(** ** The stages of recovery *)

Lemma qc_recoverTmp : keeps qcalm (recoverTmp E).
Proof.
  unfold recoverTmp. keep. apply keeps_for_each; [apply _|]. intros e _.
  unfold recoverTmpEntry. keep.
Qed.

Lemma qc_validateDead : keeps qcalm (validateDead ToASCII E).
Proof.
  unfold validateDead. keep. apply keeps_for_each; [apply _|]. intros e _.
  unfold validateDeadEntry. keep.
Qed.

Lemma qc_blockLinkedSource n e : keeps qcalm (blockLinkedSource ToASCII E n e).
Proof.
  unfold blockLinkedSource. keep. apply keeps_for_each; [apply _|]. intros x _.
  unfold blockLinkedEntry. keep.
Qed.

Lemma qc_linkedSources n entries rest : keeps qcalm (linkedSources ToASCII E n entries rest).
Proof.
  induction rest as [|[m []] rest IH]; simpl; [keep|done|].
  assert (Hb : ∀ err, keeps qcalm (for_each (λ c : string * object,
      if is_dir c.2 then recordTransientBlocked c.1
        (Wrap "source scan for corrupt staged DSN is incomplete" err) else ret tt) entries)).
  { intros err. apply keeps_for_each; [apply _|]. intros c _. keep. }
  keep.
Qed.

Lemma qc_quarantineDSNStage n sfx e : keeps qcalm (quarantineDSNStage ToASCII E n sfx e).
Proof.
  pose proof qc_linkedSources. unfold quarantineDSNStage. keep.
  apply keeps_for_each; [apply _|]. intros x _. auto.
Qed.

Lemma qc_orphanStage n sfx e : keeps qcalm (orphanStage ToASCII E n sfx e).
Proof. pose proof qc_quarantineDSNStage. unfold orphanStage. keep. Qed.

Lemma qc_recoverDSNEntry e : e.1 ≠ id → keeps qcalm (recoverDSNEntry ToASCII E e).
Proof.
  intros Hne. pose proof qc_orphanStage. pose proof qc_quarantineDSNStage.
  pose proof qc_blockLinkedSource.
  assert (Hm : keeps qcalm (onDisk (moveState E Dsn e.1 Ready e.1))).
  { apply qc_onDisk, calm_moveState. by left. }
  unfold recoverDSNEntry, publishRecovered, blockBoth. keep.
Qed.

(** The names a listing returns are those of the directory. *)
Lemma ReadDir_names s w entries w' :
  os_ReadDir E (PSpace s) w = (Ok entries, w') →
  ∀ e, e ∈ entries → may_entry w (Sp s) e.1 e.2.
Proof.
  intros Hr%call_ok e He. simpl in Hr.
  destruct (dirs w !! Sp s) as [v|] eqn:Hv; [|done]. simpl in Hr.
  unfold table_of in Hr. simpl in Hr. rewrite Hv in Hr. simpl in Hr. injection Hr as <- _.
  destruct e as [n o]. apply (may_entry_cur w (Sp s) (cur v)).
  { unfold table_of. by rewrite Hv. }
  apply elem_of_map_to_list. unfold entries_of in He.
  by rewrite (merge_sort_Permutation name_le (map_to_list (cur v))) in He.
Qed.

Lemma qc_recoverDSN : keeps qcalm (recoverDSN ToASCII E).
Proof.
  intros q Hq. unfold recoverDSN, try_, bind.
  pose proof (qc_ReadDir (PSpace Dsn) q Hq) as H1.
  destruct (onDisk (os_ReadDir E (PSpace Dsn)) q) as [[entries|e] q1] eqn:Hr; [|done].
  apply onDisk_eq in Hr.
  assert (Hk : keeps qcalm (for_each (recoverDSNEntry ToASCII E) entries)).
  { apply keeps_for_each; [apply _|]. intros e He. apply qc_recoverDSNEntry.
    intros Hid. pose proof (ReadDir_names _ _ _ _ Hr e He) as Hm. rewrite Hid in Hm.
    by apply (un_dsn _ _ (ab_disk q Hq)) in Hm. }
  specialize (Hk q1 H1). by destruct (for_each _ entries q1).
Qed.

(** ** Loading ready/ *)

Lemma noteAdded_other env c :
  ID env ≠ id → accounted c !! id = None → accounted (noteAddedLocked env c).1 !! id = None.
Proof.
  intros Hne Hn. unfold noteAddedLocked. destruct (accounted c !! ID env); [done|].
  destruct (checkedAddInt64 _ _) as [nb []]; [|done].
  destruct (count c =? MaxInt64); [done|].
  destruct (negb _); cbn [fst accounted set_users set_bytes set_count set_accounted];
    by rewrite lookup_insert_ne.
Qed.

Lemma qc_chargeReady n env : ID env ≠ id → keeps qcalm (chargeReady E n env).
Proof.
  intros Hne. unfold chargeReady. apply keeps_bind; [apply _| |].
  - intros q [Hd Ha Hs]. pose proof (noteAdded_other env (cap q) Hne Ha) as Hx.
    destruct (noteAddedLocked env (cap q)) as [c ok]. by constructor.
  - intros charged. keep.
Qed.

Lemma qc_reconcileDead n env : ID env ≠ id → keeps qcalm (reconcileDead ToASCII E n env).
Proof. intros Hne. pose proof (qc_chargeReady n env Hne). unfold reconcileDead. keep. Qed.

Lemma qc_completeRevive n : keeps qcalm (completeRevive E n).
Proof.
  assert (Hm : keeps qcalm (onDisk (moveFile E Ready n reviveMetaName metaName))).
  { by apply qc_onDisk, calm_moveFile. }
  unfold completeRevive. keep.
Qed.

(** The acceptance marker of [id] cannot be read. *)
Lemma acceptedDir_refused w r w' :
  unaccepted id w → acceptedDir E (PEntry Ready id) w = (r, w') → r ≠ Ok tt.
Proof.
  intros Hu Ha ->. unfold acceptedDir in Ha. apply try_ok in Ha as (st & w1 & Hr & Ha).
  apply readBounded_ok in Hr as (_ & f & Ho & Hc & _).
  destruct (bool_decide (st = addAccepted)) eqn:Est; [|done].
  apply bool_decide_eq_true in Est. rewrite Est in Hc. clear Est.
  apply (un_acc _ _ Hu). left.
  unfold join in Ho. rewrite decide_False in Ho by done. simpl in Ho.
  unfold file_obj, resolve_dir in Ho.
  destruct (entry_obj w Ready id) as [[f0|d]|] eqn:He; [done| |done].
  destruct (dirs w !! Ent d) as [v|] eqn:Hv; [|done]. simpl in Ho.
  unfold table_of in Ho. rewrite Hv in Ho. simpl in Ho.
  exists d, f. split_and!.
  - unfold entry_obj in He. destruct (table_of w (Sp Ready)) as [t|] eqn:Ht; [|done].
    by apply (may_entry_cur w _ t).
  - apply (may_entry_cur w _ (cur v)); [|done]. unfold table_of. by rewrite Hv.
  - unfold content in Hc. destruct (files w !! f) as [vf|] eqn:Hf; [|done].
    exists vf. split; [done|]. simpl in Hc. rewrite <-Hc. by left.
Qed.

Lemma loadDir_id dir n w env w' : loadDir ToASCII E dir n w = (Ok env, w') → ID env = n.
Proof.
  unfold loadDir. intros Hl. apply try_ok in Hl as (env0 & w1 & Hm & Hb).
  unfold loadEnvelopeMetadata, bind in Hm.
  destruct (readBoundedRegular _ _ _ _) as [[raw|e] w2]; [|by destruct (errors_Is e _)].
  injection Hm as Hd <-. apply decode_ok in Hd as [Hid _].
  unfold loadBody, bind in Hb. destruct (openRegular _ _ _) as [[f|e] w3];
    [|by destruct (errors_Is e _)].
  unfold gets in Hb. destruct (negb _); [done|].
  by apply try_ok in Hb as (? & ? & _ & [= <- _]).
Qed.

Lemma qc_loadReadyDir n : keeps qcalm (loadReadyDir ToASCII E n).
Proof.
  intros q Hq. unfold loadReadyDir. destruct (ValidateID n); [|by apply qc_setAside].
  unfold bind at 1.
  assert (H1 : keeps qcalm (onDisk (acceptedDir E (PEntry Ready n)))).
  { apply qc_onDisk, calm_acceptedDir. }
  specialize (H1 q Hq). destruct (onDisk _ q) as [r q1] eqn:Ha. simpl in H1. apply onDisk_eq in Ha.
  destruct r as [[]|err].
  - assert (Hne : n ≠ id).
    { intros ->. by apply (acceptedDir_refused _ _ _ (ab_disk q Hq)) in Ha. }
    unfold bind at 1. pose proof (qc_completeRevive n q1 H1) as H2.
    destruct (completeRevive E n q1) as [[[]|e] q2]; simpl in H2; [|by apply qc_recordTransientBlocked].
    unfold bind at 1.
    assert (H3 : keeps qcalm (onDisk (loadDir ToASCII E (PEntry Ready n) n))).
    { apply qc_onDisk, calm_loadDir. }
    specialize (H3 q2 H2). destruct (onDisk (loadDir _ _ _ _) q2) as [[env|e] q3] eqn:Hl; simpl in H3.
    + apply onDisk_eq, loadDir_id in Hl. apply qc_reconcileDead; [congruence|done].
    + destruct (negb _); [by apply qc_recordTransientBlocked|by apply qc_setAside].
  - destruct (negb _); [by apply qc_recordTransientBlocked|by apply qc_setAside].
Qed.

Lemma qc_loadReady : keeps qcalm (loadReady ToASCII E).
Proof.
  pose proof qc_loadReadyDir. unfold loadReady. keep. apply keeps_for_each; [apply _|]. intros e _.
  unfold loadReadyEntry. keep.
Qed.

(** ** Retention and opening *)

Lemma qc_removePhysical n : keeps qcalm (onCap (removePhysical n)).
Proof. apply qc_onCap. intros c. unfold removePhysical. by repeat case_match. Qed.

Lemma qc_deleteStoredLocked s n t : keeps qcalm (deleteStoredLocked E s n t).
Proof.
  assert (Hm : ∀ t', keeps qcalm (onDisk (moveState E s n Trash t'))).
  { intros t'. apply qc_onDisk, calm_moveState. by right. }
  assert (Hr : ∀ t', keeps qcalm (onDisk (removeTrash E t'))).
  { intros t'. apply qc_onDisk, calm_removeTrash. }
  pose proof qc_removePhysical. unfold deleteStoredLocked. keep.
Qed.

Lemma qc_claim env : keeps qcalm (claimLinkedDeadDSN E env).
Proof.
  assert (Hl : ∀ n ss, keeps qcalm (onDisk (linkedDSNAbsent E n ss))).
  { intros n ss. apply qc_onDisk.
    assert (∀ p, keeps (calm id) (CheckRead E p)) by (intros; apply calm_read).
    assert (∀ p, keeps (calm id) (os_Stat E p)) by (intros; apply calm_read).
    induction ss as [|s ss IH]; simpl; keep. }
  unfold claimLinkedDeadDSN. keep.
Qed.

Lemma qc_statTime s n : keeps qcalm (onDisk (statTime E s n)).
Proof.
  apply qc_onDisk. assert (∀ p, keeps (calm id) (os_Stat E p)) by (intros; apply calm_read).
  unfold statTime. keep.
Qed.

Lemma qc_Prune now : keeps qcalm (Prune ToASCII E now).
Proof.
  pose proof qc_claim. pose proof qc_deleteStoredLocked. pose proof qc_statTime.
  assert (Hd : ∀ n r nw l, keeps qcalm (pruneDeadCandidate ToASCII E n r nw l)).
  { intros. unfold pruneDeadCandidate, pruneDeadOwned, pruneAside. keep. }
  assert (Hc : ∀ n r nw p, keeps qcalm (pruneCorruptCandidate E n r nw p)).
  { intros. unfold pruneCorruptCandidate. keep. }
  assert (He : ∀ s r nw p l e acc, keeps qcalm (pruneEntry ToASCII E s r nw p l e acc)).
  { intros s r nw p l e [count errs]. unfold pruneEntry. keep. }
  assert (Hl : ∀ s r nw p l es acc, keeps qcalm (pruneLoop ToASCII E s r nw p l es acc)).
  { intros s r nw p l es. induction es as [|e es IH]; intros acc; simpl; keep. }
  assert (Hn : ∀ s r nw p, keeps qcalm (pruneNamespace ToASCII E s r nw p)).
  { intros. unfold pruneNamespace. keep. }
  unfold Prune. keep.
Qed.

Lemma qc_openRecover disabled l : keeps qcalm (openRecover ToASCII E disabled l).
Proof.
  pose proof qc_recoverTmp. pose proof qc_recoverDSN. pose proof qc_validateDead.
  pose proof qc_loadReady. pose proof qc_Prune.
  assert (Hm : ∀ ss, keeps (calm id) (openDirectories E ss)).
  { assert (keeps (calm id) (platformCheck E)) by apply calm_read.
    assert (∀ s, keeps (calm id) (MkdirDurable E (PSpace s))).
    { intros s. apply calm_MkdirDurable. by repeat constructor. }
    induction ss as [|s ss IH]; simpl; keep. }
  assert (Hd : keeps qcalm (onDisk (openDirectories E [Ready; Dead; Tmp; Dsn; Corr; Trash]))).
  { by apply qc_onDisk. }
  assert (Ht : keeps qcalm (onDisk (cleanTrash E))) by apply qc_onDisk, calm_cleanTrash.
  unfold openRecover, startupPrune. keep.
Qed.
End queue.

Lemma Open_absent {S} `{Scheduler S} `{JsonCodec} ToASCII E l disabled id w (q : Queue S) w' :
  unaccepted id w → OpenWithOptions ToASCII E l disabled w = (Ok q, w') → absent id q.
Proof.
  intros Hu. unfold OpenWithOptions. destruct (limitsError l); [done|].
  assert (Hk : keeps (qcalm id) (try_ (onDisk (openPlatform E))
                 (λ _, openRecover ToASCII E disabled l (S:=S)))).
  { apply keeps_try; [apply _| |intros _; apply qc_openRecover].
    apply qc_onDisk. assert (keeps (calm id) (platformCheck E)) by apply calm_read.
    unfold openPlatform. keep. }
  specialize (Hk (newQueue l w)). destruct (try_ _ _ (newQueue l w)) as [[[]|e] q1]; [|done].
  intros [= <- _]. apply Hk. by constructor.
Qed.
