(* ===== verification/EndToEnd.v ===== *)
(** * From a refused addition to the next start

    [AddContext] leaves the spool in a state from which recovery works: inodes
    are allocated, no namespace holds a stray file, and no notification is
    staged under the identifier.  With the two theorems on refusal and recovery
    this gives [refused_not_delivered]. *)

From S2P Require Import Prelude Errors GoLib Sha256 Envelope Capacity Utf8 Mailbox Validation.
From S2P Require Import FileSystem Disk Queue Storage Delivery Dead Add Dsn Recovery Open.
From S2P Require Import Durability Samples AddFacts Accepted Load RecoveryFacts.
Open Scope Z_scope.

Section tidy.
Variable id : string.

Record tidy (w : world) : Prop := {
  td_wf : wfw w;
  td_dsn : clear Dsn id w;
  td_files : no_files w
}.

Definition neat (w w' : world) : Prop := tidy w → tidy w'.

#[export] Instance neat_preorder : PreOrder neat.
Proof. split; [intros w H; exact H|]. intros a b c Hab Hbc H. auto. Qed.

(** A new binding of a name. *)
Definition in_order (d : dref) (n : string) (o : object) : Prop :=
  match d with Sp s => is_dir o = true ∧ (s ≠ Dsn ∨ n ≠ id) | Ent _ => True end.

Lemma tidy_step w w' :
  tidy w →
  (∀ d n o, may_entry w' d n o →
     may_entry w d n o ∨ (in_order d n o ∧ (ino o < inode w')%nat)) →
  (inode w ≤ inode w')%nat → tidy w'.
Proof.
  intros [Hw Hd Hf] He Hi. constructor.
  - intros d n o [H%Hw|[_ H]]%He; lia.
  - intros o [H|[[_ [?|?]] _]]%He; [by apply (Hd o)|done..].
  - intros s n f [H|[[? _] _]]%He; [by apply (Hf s n f)|done].
Qed.

Lemma neat_call {A} E (k : world → res A * world) :
  (∀ w, tidy w → tidy (k w).2) → keeps neat (call E k).
Proof.
  intros Hk w. unfold neat.
  assert (Ht : tidy w → tidy (tick w)) by (intros []; by constructor).
  apply (call_state E k (λ w', tidy w → tidy w')); auto.
Qed.

Lemma neat_read {A} E (k : world → res A) : keeps neat (call E (λ w, (k w, w))).
Proof. by apply neat_call. Qed.

Lemma neat_Now E : keeps neat (time_Now E).
Proof. intros w []. by constructor. Qed.

Lemma neat_ctxErr ctx : keeps neat (ctxErr ctx).
Proof. intros w []. by constructor. Qed.

Lemma neat_put_file E f (c : world → string) :
  keeps neat (call E (λ w, (Ok tt, put_file f (c w) w))).
Proof. apply neat_call. intros w []. by constructor. Qed.

Lemma neat_SyncFile E f : keeps neat (SyncFile E f).
Proof. apply neat_call. intros w []. by constructor. Qed.

Lemma tidy_put_sub w d t :
  (∀ n o, t !! n = Some o → may_entry w d n o) → tidy w → tidy (put_table d t w).
Proof.
  intros Ht Hu. apply (tidy_step w); [done| |done].
  intros d' n o [H|[-> H]]%may_entry_put; left; [done|by apply Ht].
Qed.

Lemma neat_os_Unlink E d n : keeps neat (os_Unlink E d n).
Proof.
  apply neat_call. intros w Hu. destruct (table_of w d) as [t|] eqn:Ht; [|done].
  assert (Hsub : tidy (put_table d (delete n t) w)).
  { apply tidy_put_sub; [|done]. intros m o [_ Hm]%lookup_delete_Some.
    by apply (may_entry_cur w d t). }
  destruct (t !! n) as [[f|e]|]; [exact Hsub| |done]. by case_decide.
Qed.

Lemma neat_Sync E p : keeps neat (Sync E p).
Proof.
  apply neat_call. intros w Hu.
  assert (Hs : ∀ d, tidy (set_dirs (alter settled d (dirs w)) w)).
  { intros d. apply (tidy_step w); [done| |done].
    intros d' n o H. left. by apply may_entry_settle in H. }
  destruct p; [done|destruct (resolve_dir w _); [apply Hs|done]..].
Qed.

Lemma neat_os_MkdirSpace E s : keeps neat (os_MkdirSpace E s).
Proof.
  apply neat_call. intros w Hu. destruct (dirs w !! Sp s); [done|]. simpl.
  apply (tidy_step w); [done| |done].
  intros d n o H. left. by apply (may_entry_new_dir w (Sp s)) in H as [_ H].
Qed.

Lemma neat_os_Mkdir E s n : s ≠ Dsn → keeps neat (os_Mkdir E s n).
Proof.
  intros Hs. apply neat_call. intros w Hu.
  destruct (table_of w (Sp s)) as [t|] eqn:Ht; [|done].
  destruct (t !! n) as [o|] eqn:Hn; [done|]. simpl.
  set (w1 := set_dirs (<[Ent (inode w) := fresh_vers ∅]> (dirs w)) (set_inode _ w)).
  apply (tidy_step w); [done| |simpl; lia].
  intros d m o [H|[-> H]]%may_entry_put.
  - left. by apply (may_entry_new_dir w (Ent (inode w))) in H as [_ H].
  - apply lookup_insert_Some in H as [[<- <-]|[_ H]].
    + right. simpl. split; [by split; [|left]|lia].
    + left. by apply (may_entry_cur w (Sp s) t).
Qed.

Lemma neat_os_CreateTemp E e n : keeps neat (os_CreateTemp E (Ent e) n).
Proof.
  apply neat_call. intros w Hu. destruct (table_of w (Ent e)) as [t|] eqn:Ht; [|done].
  destruct (t !! n) as [o|] eqn:Hn; [done|]. simpl.
  apply (tidy_step w); [done| |simpl; lia].
  intros d m o [H|[-> H]]%may_entry_put; [by left|].
  apply lookup_insert_Some in H as [[<- <-]|[_ H]]; [right; simpl; split; [done|lia]|].
  left. by apply (may_entry_cur w (Ent e) t).
Qed.

(** Renames out of a namespace, and within an entry. *)
Lemma neat_os_Rename E s n s' n' : s' ≠ Dsn → keeps neat (os_Rename E (Sp s) n (Sp s') n').
Proof.
  intros Hs. apply neat_call. intros w Hu.
  destruct (table_of w (Sp s)) as [t|] eqn:Ht; [|done].
  destruct (table_of w (Sp s')) as [t'|] eqn:Ht'; [|done].
  destruct (t !! n) as [o|] eqn:Ho; [|done].
  destruct (may_replace w o (t' !! n')); [done|].
  assert (Hm : may_entry w (Sp s) n o) by (by apply (may_entry_cur w _ t)).
  assert (Hdir : is_dir o = true).
  { destruct o as [f|d]; [|done]. by apply (td_files w Hu) in Hm. }
  pose proof (td_wf w Hu _ _ _ Hm) as Hino.
  assert (Hsub : tidy (put_table (Sp s) (delete n t) w)).
  { apply tidy_put_sub; [|done]. intros m x [_ Hx]%lookup_delete_Some.
    by apply (may_entry_cur w _ t). }
  case_decide as Hd; simpl.
  - apply (tidy_step w); [done| |done].
    intros d m x [H|[-> H]]%may_entry_put; [by left|].
    apply lookup_insert_Some in H as [[<- <-]|[_ H]].
    + right. split; [|done]. injection Hd as ->. by split; [|left].
    + apply lookup_delete_Some in H as [_ H]. left. by apply (may_entry_cur w _ t).
  - apply (tidy_step _ _ Hsub); [|done].
    intros d m x [H|[-> H]]%may_entry_put; [by left|].
    apply lookup_insert_Some in H as [[<- <-]|[_ H]].
    + right. split; [by split; [|left]|done].
    + left. apply (may_entry_cur _ _ t'); [|done]. unfold table_of in *. simpl.
      by rewrite lookup_alter_ne.
Qed.

Lemma neat_os_RenameFile E e f f' : keeps neat (os_Rename E (Ent e) f (Ent e) f').
Proof.
  apply neat_call. intros w Hu.
  destruct (table_of w (Ent e)) as [t|] eqn:Ht; [|done].
  destruct (t !! f) as [o|] eqn:Ho; [|done].
  destruct (may_replace _ _ _); [done|]. rewrite decide_True by done. simpl.
  apply (tidy_step w); [done| |done].
  intros d m x [H|[-> H]]%may_entry_put; [by left|].
  apply lookup_insert_Some in H as [[<- <-]|[_ H]].
  - right. split; [done|]. apply (td_wf w Hu (Ent e) f). by apply (may_entry_cur w _ t).
  - apply lookup_delete_Some in H as [_ H]. left. by apply (may_entry_cur w _ t).
Qed.

#[local] Hint Resolve neat_read neat_Now neat_ctxErr neat_SyncFile neat_os_Unlink neat_Sync
  neat_os_MkdirSpace neat_put_file : core.

(** ** Composite operations *)

Lemma neat_Stat E p : keeps neat (os_Stat E p).
Proof. apply neat_read. Qed.
Lemma neat_os_Write E f c : keeps neat (os_Write E f c).
Proof. apply (neat_put_file E f (λ _, c)). Qed.
Lemma neat_os_WriteAt E f c : keeps neat (os_WriteAt E f c).
Proof. apply (neat_put_file E f (λ w, c +:+ str_drop (String.length c) (content w f))). Qed.
#[local] Hint Resolve neat_Stat neat_os_Write neat_os_WriteAt : core.

Lemma neat_Mkdir E s n : s ≠ Dsn → keeps neat (Mkdir E (PEntry s n)).
Proof.
  intros Hs w. unfold Mkdir. apply (keeps_try neat).
  - destruct (dirs w !! Sp s); keep.
  - intros [] w1. destruct (entry_obj w1 s n) as [[f|d]|]; [reflexivity..|by apply neat_os_Mkdir].
Qed.

Lemma neat_Temp E s n base : s ≠ Dsn → keeps neat (Temp E s n base).
Proof.
  intros Hs. unfold Temp. apply keeps_try; [apply _|by apply neat_Mkdir|]. intros [] w.
  destruct (resolve_dir w (PEntry s n)) as [d|] eqn:Hd; [|reflexivity].
  assert (∃ e, d = Ent e) as [e ->].
  { unfold resolve_dir in Hd. repeat (case_match; try done). injection Hd as <-. eauto. }
  pose proof (neat_os_CreateTemp E e). apply (keeps_try neat); [auto|]. intros f. keep.
Qed.

Lemma neat_Write E s n base body : s ≠ Dsn → keeps neat (Write E s n base body).
Proof.
  intros Hs. unfold Write, WriteWithTempState.
  apply keeps_bind; [apply _| |intros; keep].
  intros w. unfold bind at 1.
  pose proof (neat_Temp E s n base Hs w) as Ht.
  destruct (Temp E s n base w) as [[[[d temp] f]|e] w1] eqn:Hte; simpl in Ht; [|exact Ht].
  etrans; [exact Ht|].
  assert (∃ e, d = Ent e) as [e ->].
  { unfold Temp in Hte. apply try_ok in Hte as ([] & w2 & _ & Hte).
    destruct (resolve_dir w2 (PEntry s n)) as [d0|] eqn:Hd; [|done].
    apply try_ok in Hte as (f0 & w3 & _ & [= <- _ _ _]).
    unfold resolve_dir in Hd. repeat (case_match; try done). injection Hd as <-. eauto. }
  pose proof (neat_os_RenameFile E e). revert w1 Ht Hte. intros w1 _ _. revert w1.
  change (keeps neat
    (let! r := os_Write E f body in
     match r with
     | Ok _ =>
         let! r := Commit E (Ent e) temp f s n base in
         match r with
         | Ok _ => ret (false, Ok tt)
         | Err err => let! may := pathMayExist E s n temp in ret (may, Err err)
         end
     | Err err =>
         let! _ := os_Unlink E (Ent e) temp in
         let! may := pathMayExist E s n temp in ret (may, Err err)
     end)).
  unfold Commit, commit, pathMayExist. keep.
Qed.

Lemma neat_Rename E s n s' n' : s' ≠ Dsn → keeps neat (Rename E s n s' n').
Proof. intros Hs. pose proof (neat_os_Rename E s n s' n' Hs). unfold Rename. keep. Qed.

Lemma neat_ensure E s : keeps neat (ensureDurableDir E (PSpace s)).
Proof.
  assert (Hc : keeps neat (create_missing E [PSpace s])) by (simpl; keep).
  assert (Hm : keeps neat (MkdirDurable E (PSpace s))).
  { intros w. unfold MkdirDurable, try_, bind, ret. cbn [lineage missing_loop]. unfold bind.
    pose proof (neat_Stat E (PSpace s) w) as H1.
    destruct (os_Stat E (PSpace s) w) as [[o|e] w1]; simpl in H1.
    - destruct (is_dir o); [|exact H1]. etrans; [exact H1|].
      apply (keeps_try neat); [apply neat_Sync|]. intros []. simpl. apply keeps_ret. apply _.
    - destruct (errors_Is e ErrNotExist); [|exact H1]. unfold try_, bind, ret.
      etrans; [exact H1|]. apply Hc. }
  unfold ensureDurableDir. keep.
Qed.

Lemma neat_quarantineDir E s n name : keeps neat (quarantineDir E s n name).
Proof.
  pose proof (neat_ensure E Corr).
  assert (Hr : ∀ m, keeps neat (Rename E s n Corr m)) by (intros; by apply neat_Rename).
  unfold quarantineDir. keep.
Qed.

Lemma neat_unlink_all E fuel : ∀ d entries, keeps neat (unlink_all E fuel d entries).
Proof.
  induction fuel as [|fuel IHf]; intros d entries;
    (induction entries as [|[name o] entries IH]; simpl; [keep|]);
    (apply keeps_bind; [apply _| |intros []; keep]).
  - destruct o; keep.
  - destruct o; [keep|]. apply keeps_try; [apply _| |intros []; keep].
    intros w. destruct (table_of w (Ent d0)); [apply IHf|reflexivity].
Qed.

Lemma neat_RemoveAll E s n : keeps neat (RemoveAll E s n).
Proof.
  unfold RemoveAll. keep. intros w. unfold removeAllSecure.
  destruct (entry_obj w s n) as [[f|d]|]; [apply neat_os_Unlink| |reflexivity].
  apply (keeps_try neat); [|keep].
  intros w1. destruct (table_of w1 (Ent d)); [apply neat_unlink_all|reflexivity].
Qed.

Lemma neat_acceptAdd E s n : keeps neat (acceptAdd E s n).
Proof. unfold acceptAdd, rolledBack, rollbackAdd, writeAddState. keep. Qed.

Lemma neat_addBuild E ctx data meta : keeps neat (addBuild E ctx id data meta).
Proof.
  assert (Hw : ∀ b c, keeps neat (Write E Tmp id b c)) by (intros; by apply neat_Write).
  assert (Hr : keeps neat (Rename E Tmp id Ready id)) by (by apply neat_Rename).
  unfold addBuild. keep.
Qed.

(** ** [AddContext] *)

Section add.
Context {S : Type} `{Scheduler S} `{JsonCodec} (ToASCII : string → res string) (E : Environment)
  (FreeDisk : option (res Z)) (ctx : nat → bool).
Implicit Types q : Queue S.

Definition qneat q q' : Prop := neat (disk q) (disk q').

#[export] Instance qneat_preorder : PreOrder qneat.
Proof. split; [intros q Hq; exact Hq|]. intros a b c Hab Hbc Hq. by apply Hbc, Hab. Qed.

Lemma qn_onDisk {A} (m : ST world A) : keeps neat m → keeps qneat (onDisk m).
Proof. intros Hm q. unfold onDisk, qneat. specialize (Hm (disk q)). by destruct (m (disk q)). Qed.

Lemma qn_id {A} (m : ST (Queue S) A) : (∀ q, disk (m q).2 = disk q) → keeps qneat m.
Proof. intros Hm q. unfold qneat. rewrite Hm. reflexivity. Qed.

Lemma qn_onCap f : keeps qneat (onCap f).
Proof. by apply qn_id. Qed.
Lemma qn_modify f : (∀ q, disk (f q) = disk q) → keeps qneat (modify f).
Proof. intros Hf. by apply qn_id. Qed.
Lemma qn_block n : keeps qneat (block n).
Proof. by apply qn_id. Qed.
Lemma qn_schedule e : keeps qneat (scheduleLocked e).
Proof. apply qn_id. intros q. apply (same_scheduleLocked e q). Qed.
Lemma qn_endTransition n : keeps qneat (endTransition n).
Proof. apply qn_id. intros q. apply endTransition_disk. Qed.
Lemma qn_reserve a b c d o : keeps qneat (reserve_ FreeDisk a b c d o).
Proof. apply qn_id. intros q. unfold reserve_. by case_match. Qed.
Lemma qn_begin : keeps qneat beginOperation.
Proof. apply qn_id. intros q. unfold beginOperation. by case_match. Qed.
Lemma qn_beginTransition n : keeps qneat (beginTransition n).
Proof. apply qn_id. intros q. unfold beginTransition, beginTransitions. by case_match. Qed.

#[local] Hint Resolve qn_onCap qn_block qn_schedule qn_endTransition qn_reserve qn_begin
  qn_beginTransition : core.

Lemma qn_ctxErr : keeps qneat (onDisk (ctxErr ctx)).
Proof. apply qn_onDisk, neat_ctxErr. Qed.
Lemma qn_Stat p : keeps qneat (onDisk (os_Stat E p)).
Proof. apply qn_onDisk, neat_Stat. Qed.
Lemma qn_Sync p : keeps qneat (onDisk (Sync E p)).
Proof. apply qn_onDisk, neat_Sync. Qed.
Lemma qn_RemoveAll s n : keeps qneat (onDisk (RemoveAll E s n)).
Proof. apply qn_onDisk, neat_RemoveAll. Qed.
Lemma qn_quarantine s n name : keeps qneat (onDisk (quarantineDir E s n name)).
Proof. apply qn_onDisk, neat_quarantineDir. Qed.
Lemma qn_read {A} (k : world → res A) : keeps qneat (onDisk (call E (λ w, (k w, w)))).
Proof. apply qn_onDisk, neat_read. Qed.
Lemma qn_Now : keeps qneat (onDisk (time_Now E)).
Proof. apply qn_onDisk, neat_Now. Qed.
#[local] Hint Resolve qn_ctxErr qn_Stat qn_Sync qn_RemoveAll qn_quarantine qn_Now : core.

Lemma qn_startMutation : keeps qneat (startMutation E).
Proof.
  assert (Hr : keeps qneat (onDisk (AllocatedRoot E))) by apply qn_read.
  unfold startMutation, refreshSpoolUsage. keep.
Qed.

Lemma qn_checks : keeps qneat (onDisk (reconcileReady E id)) ∧
  ∀ ds, keeps qneat (onDisk (checkAbsent E id ds)).
Proof.
  split; [|intros ds]; apply qn_onDisk.
  - pose proof neat_quarantineDir. unfold reconcileReady, readBoundedRegular, openRegularFromInfo,
      CheckRead, os_ReadFile. keep.
  - induction ds as [|d ds IH]; simpl; keep.
Qed.

Lemma qn_addStage data meta held : keeps qneat (addStage E ctx id data meta held).
Proof.
  assert (Hm : keeps qneat (onDisk (Mkdir E (PEntry Tmp id)))) by (by apply qn_onDisk, neat_Mkdir).
  assert (Hb : keeps qneat (onDisk (addBuild E ctx id data meta))) by apply qn_onDisk, neat_addBuild.
  unfold addStage, addCleanup, commitHeld. keep.
Qed.

Lemma qn_abortReady env n held cause : keeps qneat (abortReady E env n held cause).
Proof.
  assert (Ha : ∀ s m, keeps qneat (onDisk (AllocatedBytes E s m))) by (intros; apply qn_read).
  unfold abortReady. keep.
Qed.

Lemma qn_addReserved env data meta physical :
  ID env = id → keeps qneat (addReserved E ctx env data meta physical).
Proof.
  intros Hid. pose proof qn_addStage. pose proof qn_abortReady.
  assert (Hc : keeps qneat (onDisk (try! _ := ctxErr ctx in acceptAdd E Ready id))).
  { apply qn_onDisk. pose proof neat_acceptAdd. keep. }
  assert (Hp : ∀ n held, keeps qneat (addPublish env n held)).
  { intros n held. unfold addPublish. keep; by apply qn_id. }
  unfold addReserved. rewrite Hid. keep.
Qed.

Lemma qn_addOwned env data : ID env = id → keeps qneat (addOwned ToASCII E FreeDisk ctx env data).
Proof.
  intros Hid. destruct qn_checks as [Hr Ha]. pose proof qn_startMutation.
  unfold addOwned. rewrite Hid. apply keeps_bind; [apply _|keep|].
  intros [[]|e]; [|keep].
  set (env1 := set_BodyDigest _ _). destruct (validateEnvelope ToASCII env1) as [env2 valid] eqn:Hv.
  assert (Hid2 : ID env2 = id).
  { transitivity (ID env1); [|exact Hid]. revert Hv. unfold validateEnvelope.
    destruct (res_bind (validateHeader env1) _); [|by intros [= <- _]].
    destruct (validateRecipients _ _ _). by intros [= <- _]. }
  assert (Hres : ∀ meta physical, keeps qneat (addReserved E ctx env2 data meta physical)).
  { intros. by apply qn_addReserved. }
  destruct (res_bind valid _); keep.
Qed.

Lemma qn_AddContext env data : ID env = id →
  keeps qneat (AddContext ToASCII E FreeDisk ctx (Some env) data).
Proof.
  intros Hid.
  assert (Ho : ∀ i r, keeps qneat (addOwned ToASCII E FreeDisk ctx
                 (set_Revision r (set_Incarnation i env)) data)).
  { intros i r. by apply qn_addOwned. }
  assert (He : keeps qneat endOperation) by (by apply qn_id).
  assert (Hro : keeps qneat rejectReadOnly) by (by apply qn_id).
  assert (Ht : keeps qneat (onDisk (call E (λ w, (Ok (random E (ticks w)), w))))) by apply qn_read.
  unfold AddContext. keep.
Qed.
End add.

(** A crash leaves nothing that could not be left before. *)
Lemma crash_may_entry w w' d n o : crash w w' → may_entry w' d n o → may_entry w d n o.
Proof.
  intros Hc (v' & t & Hv & Ht & Hn). pose proof (crash_dirs _ _ Hc d) as Hd. rewrite Hv in Hd.
  inversion Hd as [v ? (a & Ha & ->)|]; subst. exists v, t. split_and!; [done| |done].
  unfold versions in *. simpl in Ht.
  assert (t = a) as -> by (by apply elem_of_cons in Ht as [->|Ht]; [|apply list_elem_of_singleton in Ht]).
  destruct Ha as [->|Ha]; [by left|by right].
Qed.

Lemma crash_may_hold w w' f c : crash w w' → may_hold w' f c → may_hold w f c.
Proof.
  intros Hc (v' & Hv & Ht). pose proof (crash_files _ _ Hc f) as Hd. rewrite Hv in Hd.
  inversion Hd as [v ? (a & Ha & ->)|]; subst. exists v. split; [done|].
  unfold versions in *. simpl in Ht.
  assert (c = a) as -> by (by apply elem_of_cons in Ht as [->|Ht]; [|apply list_elem_of_singleton in Ht]).
  destruct Ha as [->|Ha]; [by left|by right].
Qed.

Lemma crash_unaccepted w w' : tidy w → ¬ acc id w → crash w w' → unaccepted id w'.
Proof.
  intros [Hw Hd Hf] Ha Hc. apply (unaccepted_step id w); [by constructor| | |].
  - intros d n o H. left. by apply (crash_may_entry _ _ _ _ _ Hc).
  - intros f c. by apply crash_may_hold.
  - apply (crash_inode _ _ Hc).
Qed.
End tidy.

(** C1: A refused message is never delivered.  When [AddContext] returns an
    error other than "acceptance unknown", then after any crash at that point a
    queue opened on the spool has neither charged nor scheduled the identifier:
    for every failure of the file system during the addition, every
    cancellation, and every failure during recovery. *)
Theorem refused_not_delivered {S} `{Scheduler S} `{JsonCodec} ToASCII E `{!Honest E} FreeDisk ctx
    envelope data (q : Queue S) envelope' e q' crashed E' l disabled (reopened : Queue S) w' :
  tidy (ID envelope) (disk q) → ¬ acc (ID envelope) (disk q) →
  AddContext ToASCII E FreeDisk ctx (Some envelope) data q = ((envelope', Err e), q') →
  IsAcceptanceUnknown e = false → crash (disk q') crashed →
  OpenWithOptions ToASCII E' l disabled crashed = (Ok reopened, w') →
  accounted (cap reopened) !! ID envelope = None ∧ scheduled reopened !! ID envelope = None.
Proof.
  intros Ht Hna Hadd Hu Hc Ho.
  pose proof (AddContext_refused ToASCII E FreeDisk ctx envelope data q envelope' e q'
    (td_wf _ _ Ht) Hna Hadd Hu) as Hna'.
  pose proof (qn_AddContext (ID envelope) ToASCII E FreeDisk ctx envelope data eq_refl q Ht) as Ht'.
  rewrite Hadd in Ht'. simpl in Ht'.
  destruct (Open_absent ToASCII E' l disabled (ID envelope) crashed reopened w') as [_ H1 H2];
    [by apply (crash_unaccepted _ (disk q'))|done|done].
Qed.

Lemma refused_not_delivered_witness :
  match @OpenWithOptions refSchedule _ (sampleCodec acceptedSample) sampleIDNA (sampleEnv []) noLimits
          false (reboot (disk (sampleAdd [45%nat]).2)) with
  | (Ok reopened, _) => accounted (cap reopened) !! "m1" = None ∧ scheduled reopened !! "m1" = None
  | (Err _, _) => False
  end.
Proof.
  destruct (OpenWithOptions _ _ _ _ _) as [[reopened|err] w'] eqn:Ho;
    [|vm_compute in Ho; discriminate Ho].
  refine (@refused_not_delivered refSchedule _ (sampleCodec acceptedSample) sampleIDNA
    (sampleEnv [45%nat]) _ None (λ _, false) sample_envelope "hello" (emptyQueue noLimits)
    _ _ (sampleAdd [45%nat]).2 (reboot (disk (sampleAdd [45%nat]).2)) (sampleEnv []) noLimits false
    reopened w' _ _ _ _ _ Ho).
  - constructor; [exact emptySpool_wf|intros o Hm; by apply emptySpool_entries in Hm|].
    intros s n f Hm. by apply emptySpool_entries in Hm.
  - apply emptySpool_acc.
  - vm_compute. reflexivity.
  - vm_compute. reflexivity.
  - apply reboot_crash.
Defined.
