(* ===== verification/Restart.v ===== *)
(** * A restart schedules what was accepted

    The counterpart of [refused_not_delivered]: when no system call fails,
    recovery charges and schedules every intact accepted entry of ready/, and
    leaves the spool as it is. *)

From S2P Require Import Prelude Errors GoLib Sha256 Envelope Capacity Utf8 Mailbox Validation.
From S2P Require Import FileSystem Disk Queue Storage Delivery Dead Add Dsn Recovery Open.
From S2P Require Import Durability Samples AddFacts Accepted Load RecoveryFacts.
Open Scope Z_scope.

Section scheduled.
Context {S : Type} `{Scheduler S} `{JsonCodec} (ToASCII : string → res string) (E : Environment)
  `{!Quiet E}.
Implicit Types q : Queue S.

Lemma reads_stat_missing p w :
  object_at w p = None → reads (os_Stat E p) (Err ENOENT) w.
Proof.
  intros Ho. apply reads_call; [done|]. change (object_at (tick w) p) with (object_at w p). by rewrite Ho.
Qed.

Lemma reads_try_err {A B} (m : ST world (res A)) (k : A → ST world (res B)) e w :
  reads m (Err e) w → reads (try_ m k) (Err e) w.
Proof. intros [H1 H2]. unfold reads, try_, bind. destruct (m w) as [r w1]. simpl in *. by subst r. Qed.

(** Reading an entry that is not there. *)
Lemma loadAcceptedDir_missing s n m w :
  entry_obj w s n = None → reads (loadAcceptedDir ToASCII E (PEntry s n) m) (Err ENOENT) w.
Proof.
  intros Hn. unfold loadAcceptedDir. apply reads_try_err. unfold loadAcceptedMetadata.
  assert (Hf : ∀ w', same_fs w w' → object_at w' (join (PEntry s n) addStateName) = None).
  { intros w' F. rewrite (fs_object w w') by done. unfold join. rewrite decide_False by done.
    simpl. unfold file_obj, resolve_dir. by rewrite Hn. }
  apply (reads_bind _ _ (Err ENOENT)).
  { unfold acceptedDir. apply reads_try_err. unfold readBoundedRegular.
    apply (reads_try _ _ tt); [by apply reads_call|]. intros w1 F1.
    apply reads_try_err, reads_stat_missing. by apply Hf. }
  intros w1 F1. change (errors_Is ENOENT ErrNotExist) with true. cbn iota.
  apply (reads_bind _ _ (Err ENOENT)); [apply reads_stat_missing; by rewrite (fs_object w w1)|].
  intros w2 F2. apply reads_ret.
Qed.

(** Run a read of the queue. *)
Lemma reads_onDisk {A} (m : ST world A) a q :
  reads m a (disk q) → ∃ w', onDisk m q = (a, set_disk w' q) ∧ same_fs (disk q) w'.
Proof.
  intros [H1 H2]. unfold onDisk. destruct (m (disk q)) as [x w']. simpl in *. subst. eauto.
Qed.

(** An accepted, intact entry of ready/ that nothing contradicts. *)
Record deliverable (w : world) (id : string) (env : Envelope) : Prop := {
  de_files : ∃ body raw, entry_holds w (PEntry Ready id) body raw ∧
    str_len raw ≤ maxEnvelopeMetadata ∧ decodeEnvelopeMetadata ToASCII raw id = Ok env ∧
    body_matches env body ∧ str_len body < MaxInt64;
  de_revive : object_at w (PFile Ready id reviveMetaName) = None;
  de_dead : entry_obj w Dead id = None
}.

Lemma deliverable_fs w w' id env : same_fs w w' → deliverable w id env → deliverable w' id env.
Proof.
  intros F [(body & raw & Hh & Hrest) Hr Hd]. constructor.
  - exists body, raw. split; [by apply (entry_holds_fs w)|done].
  - by rewrite (fs_object w w').
  - change (object_at w' (PEntry Dead id) = None). by rewrite (fs_object w w').
Qed.

(** What charging and scheduling an entry does to the queue. *)
Record loads (env : Envelope) (q q' : Queue S) : Prop := {
  lo_accounted : accounted (cap q') = <[ID env := Capacity.charge env]> (accounted (cap q));
  lo_count : count (cap q') = count (cap q) + 1;
  lo_bytes : bytes (cap q') = bytes (cap q) + Size env;
  lo_scheduled : ∃ h, held (pending q) !! h = None ∧
    scheduled q' = <[ID env := h]> (scheduled q) ∧
    held (pending q') = <[h := cloneEnvelope env]> (held (pending q));
  lo_blocked : blocked q' = blocked q;
  lo_fs : same_fs (disk q) (disk q')
}.

Lemma noteAdded_loads env c :
  accounted c !! ID env = None → room (Size env) c → 0 ≤ Size env → 0 ≤ count c →
  ∃ c', noteAddedLocked env c = (c', true) ∧
    accounted c' = <[ID env := Capacity.charge env]> (accounted c) ∧
    count c' = count c + 1 ∧ bytes c' = bytes c + Size env.
Proof.
  intros Ha (Hc & Hb1 & Hb2) Hz Hn. unfold noteAddedLocked. rewrite Ha.
  checked (bytes c) (Size env). destruct (count c =? MaxInt64) eqn:E1; zbool; [lia|].
  assert (wrap64 (count c + 1) = count c + 1) as Hw by (apply wrap64_id; lia64).
  destruct (negb _); eexists; (split; [done|]); cbn; by rewrite Hw.
Qed.

Lemma chargeReady_loads id env q :
  ID env = id → id ∉ blocked q → accounted (cap q) !! id = None → scheduled q !! id = None →
  room (Size env) (cap q) → 0 ≤ Size env → 0 ≤ count (cap q) →
  ∃ q', chargeReady E id env q = (tt, q') ∧ loads env q q'.
Proof.
  intros <- Hb Ha Hs Hr Hz Hn. unfold chargeReady, bind at 1.
  destruct (noteAdded_loads env (cap q) Ha Hr Hz Hn) as (c & -> & Hacc & Hcnt & Hby). cbn [negb].
  unfold bind, scheduleLocked. cbn. rewrite decide_False by done.
  rewrite Hacc, lookup_insert_eq. cbn.
  rewrite bool_decide_eq_true_2, Z.eqb_refl, Hs by done. cbn.
  destruct (held_Push (cloneEnvelope env) (pending q)) as [Hf He].
  destruct (s_Push (cloneEnvelope env) (pending q)) as [h s] eqn:Hp.
  eexists. split; [done|]. constructor; cbn; try done. by exists h.
Qed.

(** Run a read of the queue and go on. *)
Lemma bind_onDisk {A B} (m : ST world A) a (k : A → ST (Queue S) B) q
    (P : B * Queue S → Prop) :
  reads m a (disk q) →
  (∀ w', same_fs (disk q) w' → P (k a (set_disk w' q))) → P (bind (onDisk m) k q).
Proof.
  intros Hm Hk. unfold bind at 1. destruct (reads_onDisk m a q Hm) as (w' & -> & F). by apply Hk.
Qed.

Lemma reconcileDead_loads id env q :
  ID env = id → entry_obj (disk q) Dead id = None →
  id ∉ blocked q → accounted (cap q) !! id = None →
  scheduled q !! id = None → room (Size env) (cap q) → 0 ≤ Size env → 0 ≤ count (cap q) →
  loads env q (reconcileDead ToASCII E id env q).2.
Proof.
  intros Hid Hd Hb Ha Hs Hr Hz Hn. unfold reconcileDead.
  apply (bind_onDisk _ (Err ENOENT)); [by apply loadAcceptedDir_missing|]. intros w1 F1.
  change (errors_Is ENOENT ErrNotExist) with true. cbn iota.
  destruct (chargeReady_loads id env (set_disk w1 q)) as (q' & -> & []); [done..|].
  constructor; try done. by etrans.
Qed.

Lemma loads_set_disk env w1 q q' :
  same_fs (disk q) w1 → loads env (set_disk w1 q) q' → loads env q q'.
Proof. intros F []. constructor; try done. by etrans. Qed.

Lemma loadReadyDir_loads id env q :
  deliverable (disk q) id env → id ∉ blocked q → accounted (cap q) !! id = None →
  scheduled q !! id = None → room (Size env) (cap q) → 0 ≤ count (cap q) →
  loads env q (loadReadyDir ToASCII E id q).2.
Proof.
  intros [(body & raw & Hh & Hlen & Hdec & Hbm & Hmax) Hrev Hdead] Hb Ha Hs Hr Hn.
  destruct (decode_ok _ _ _ _ Hdec) as (Hid & e0 & _ & Hv).
  pose proof (validated_ok _ _ _ Hv) as Hok.
  unfold loadReadyDir. pose proof (eo_id _ _ Hok) as Hi. rewrite Hid in Hi. rewrite Hi.
  apply (bind_onDisk _ (Ok tt));
    [by destruct Hh as [(f1 & O1 & C1) _ _]; apply (acceptedDir_reads E _ f1)|]. intros w1 F1.
  unfold completeRevive. rewrite bind_assoc.
  apply (bind_onDisk _ (Err ENOENT)); [apply reads_stat_missing; by rewrite (fs_object (disk q))|].
  intros w2 F2. change (errors_Is ENOENT ErrNotExist) with true. cbn iota.
  unfold bind at 1, ret at 1.
  apply (bind_onDisk _ (Ok env)).
  { apply (load_reads ToASCII E (PEntry Ready id) id body raw env);
      [|done..|apply (eo_bodies _ _ Hok)].
    apply (entry_holds_fs (disk q)); [|done]. by etrans. }
  intros w3 F3.
  assert (F : same_fs (disk q) w3) by (etrans; [exact F1|]; by etrans).
  apply (loads_set_disk _ w3); [done|]. apply reconcileDead_loads; try done.
  - change (object_at w3 (PEntry Dead id) = None). by rewrite (fs_object (disk q)).
  - apply (eo_size _ _ Hok).
Qed.

Lemma loads_queued env q q' : loads env q q' → queued q' env.
Proof.
  intros [Ha _ _ (h & _ & Hs & Hp) _ _]. split; [by rewrite Ha, lookup_insert_eq|].
  exists h. by rewrite Hs, Hp, !lookup_insert_eq.
Qed.

Lemma loads_keeps_queued env other q q' :
  loads env q q' → ID other ≠ ID env → queued q other → queued q' other.
Proof.
  intros [Ha _ _ (h & Hf & Hs & Hp) _ _] Hne (Hq & k & Hk & He).
  split; [by rewrite Ha, lookup_insert_ne|]. exists k. rewrite Hs, Hp, lookup_insert_ne by done.
  split; [done|]. rewrite lookup_insert_ne; [done|]. congruence.
Qed.

(** The loop: [envOf n] is the envelope stored under [n]. *)
Variable envOf : string → Envelope.

Definition healthy (w : world) (e : string * object) : Prop :=
  is_dir e.2 = true ∧ deliverable w e.1 (envOf e.1).

Lemma healthy_id w e : healthy w e → ID (envOf e.1) = e.1 ∧ 0 ≤ Size (envOf e.1).
Proof.
  intros [_ [(body & raw & _ & _ & Hdec & Hbm & _) _ _]].
  destruct (decode_ok _ _ _ _ Hdec) as (Hid & e0 & _ & Hv). split; [done|].
  apply (eo_size _ _ (validated_ok _ _ _ Hv)).
Qed.

Definition sizes (l : list (string * object)) : Z := zsum (λ e, Size (envOf e.1)) l.

Lemma for_each_loads (l : list (string * object)) q :
  NoDup l.*1 → Forall (healthy (disk q)) l → blocked q = ∅ →
  (∀ e, e ∈ l → accounted (cap q) !! e.1 = None ∧ scheduled q !! e.1 = None) →
  0 ≤ count (cap q) → count (cap q) + Z.of_nat (length l) ≤ MaxInt64 →
  0 ≤ bytes (cap q) → bytes (cap q) + sizes l ≤ MaxInt64 →
  let q' := (for_each (loadReadyEntry ToASCII E) l q).2 in
  same_fs (disk q) (disk q') ∧ (∀ e, e ∈ l → queued q' (envOf e.1)) ∧
  (∀ env, ID env ∉ l.*1 → queued q env → queued q' env) ∧
  count (cap q') = count (cap q) + Z.of_nat (length l) ∧
  bytes (cap q') = bytes (cap q) + sizes l.
Proof.
  revert q. induction l as [|e l IH]; intros q Hnd Hh Hbl Hfr Hc0 Hc Hb0 Hb; cbn zeta.
  { cbn. split_and!; [done| |done|lia|lia]. intros e He. by apply elem_of_nil in He. }
  apply NoDup_cons in Hnd as [Hni Hnd]. apply Forall_cons in Hh as [He Hh].
  destruct (healthy_id _ _ He) as [Hid Hsz].
  assert (Hrest : 0 ≤ sizes l).
  { apply zsum_nonneg. intros x Hx. apply (healthy_id (disk q)). by rewrite Forall_forall in Hh; apply Hh. }
  change (sizes (e :: l)) with (Size (envOf e.1) + sizes l) in Hb |- *. cbn [length] in Hc |- *.
  destruct (Hfr e) as [Ha Hs]; [left|]. destruct He as [Hdir Hdel].
  assert (Hl : loads (envOf e.1) q (loadReadyEntry ToASCII E e q).2).
  { unfold loadReadyEntry, bind, gets. rewrite Hbl, bool_decide_eq_false_2 by set_solver.
    destruct e.2; [done|]. apply loadReadyDir_loads; try done; [by rewrite Hbl; set_solver|].
    unfold room. lia. }
  cbn [for_each]. unfold bind. destruct (loadReadyEntry ToASCII E e q) as [u q1]. cbn [snd] in Hl.
  destruct (IH q1) as (F & Hq & Hkeep & Hcnt & Hby); clear IH.
  - done.
  - eapply Forall_impl; [exact Hh|]. intros x [Hx1 Hx2]. split; [done|].
    apply (deliverable_fs (disk q)); [apply Hl|done].
  - by rewrite (lo_blocked _ _ _ Hl).
  - intros x Hx. destruct (Hfr x) as [Hx1 Hx2]; [by right|].
    destruct Hl as [Hacc _ _ (h & _ & Hsch & _) _ _]. rewrite Hacc, Hsch, Hid.
    assert (e.1 ≠ x.1) by (intros Heq; apply Hni; rewrite Heq; by apply list_elem_of_fmap_2).
    by rewrite !lookup_insert_ne.
  - rewrite (lo_count _ _ _ Hl). lia.
  - rewrite (lo_count _ _ _ Hl). lia.
  - rewrite (lo_bytes _ _ _ Hl). lia.
  - rewrite (lo_bytes _ _ _ Hl). lia.
  - split_and!.
    + etrans; [apply Hl|done].
    + intros x [->|Hx]%elem_of_cons; [|by apply Hq].
      apply Hkeep; [by rewrite Hid|]. by apply (loads_queued _ q).
    + intros env Hni' Hqe. cbn in Hni'. apply not_elem_of_cons in Hni' as [Hne Hni'].
      apply Hkeep; [done|]. apply (loads_keeps_queued (envOf e.1) _ q); [done|by rewrite Hid|done].
    + rewrite Hcnt, (lo_count _ _ _ Hl). lia.
    + rewrite Hby, (lo_bytes _ _ _ Hl). lia.
Qed.
End scheduled.

Lemma sizes_entries envOf (t : table) :
  sizes envOf (entries_of t) = map_sum (λ n _, Size (envOf n)) t.
Proof.
  unfold sizes, entries_of, map_sum. rewrite (merge_sort_Permutation name_le (map_to_list t)).
  rewrite map_fold_foldr. induction (map_to_list t) as [|[n o] l IH]; [done|].
  change (Size (envOf n) + zsum (λ e, Size (envOf e.1)) l =
          Size (envOf n) + foldr (uncurry (λ n _ acc, Size (envOf n) + acc)) 0 l). by rewrite IH.
Qed.

Lemma entries_of_spec t e : e ∈ entries_of t ↔ t !! e.1 = Some e.2.
Proof.
  unfold entries_of. rewrite (merge_sort_Permutation name_le (map_to_list t)).
  destruct e. apply elem_of_map_to_list.
Qed.

Lemma entries_of_NoDup t : NoDup (entries_of t).*1.
Proof.
  unfold entries_of. rewrite (merge_sort_Permutation name_le (map_to_list t)).
  apply NoDup_fst_map_to_list.
Qed.

Lemma entries_of_length t : length (entries_of t) = size t.
Proof.
  unfold entries_of. rewrite (merge_sort_Permutation name_le (map_to_list t)).
  apply length_map_to_list.
Qed.

(** C4: A restart schedules what was accepted.  When every entry of ready/ is an
    accepted, intact directory with no half-finished revive and no dead letter
    of the same name, and no system call fails, [loadReady] on a fresh queue
    charges every entry and hands its envelope to the scheduler; the totals are
    the number of entries and the sum of their sizes, and the spool is left as
    it was. *)
Theorem restart_schedules_accepted {S} `{Scheduler S} `{JsonCodec} ToASCII E `{!Quiet E}
    (envOf : string → Envelope) l w t :
  table_of w (Sp Ready) = Some t →
  (∀ n o, t !! n = Some o → is_dir o = true ∧ deliverable ToASCII w n (envOf n)) →
  Z.of_nat (size t) ≤ MaxInt64 → map_sum (λ n _, Size (envOf n)) t ≤ MaxInt64 →
  ∃ q' : Queue S, loadReady ToASCII E (newQueue l w) = (Ok tt, q') ∧
    (∀ n, n ∈ dom t → queued q' (envOf n)) ∧
    count (cap q') = Z.of_nat (size t) ∧
    bytes (cap q') = map_sum (λ n _, Size (envOf n)) t ∧ same_fs w (disk q').
Proof.
  intros Ht Hall Hsz Hsum.
  assert (Hread : reads (os_ReadDir E (PSpace Ready)) (Ok (entries_of t)) w).
  { apply reads_call; [done|]. cbn. unfold table_of in *. cbn.
    destruct (dirs w !! Sp Ready) as [v|] eqn:Hv; [|done]. cbn in *. rewrite Hv. by simplify_eq/=. }
  unfold loadReady, try_ at 1. destruct (reads_onDisk _ _ (newQueue (S:=S) l w) Hread) as (w1 & Hr & F1).
  unfold bind at 1. rewrite Hr. unfold bind.
  destruct (for_each_loads ToASCII E envOf (entries_of t) (set_disk w1 (newQueue (S:=S) l w)))
    as (F & Hq & _ & Hc & Hb).
  - apply entries_of_NoDup.
  - apply Forall_forall. intros e He%entries_of_spec. destruct (Hall _ _ He) as [Hd Hdel].
    split; [done|]. by apply (deliverable_fs ToASCII w).
  - done.
  - done.
  - done.
  - by rewrite entries_of_length.
  - done.
  - by rewrite sizes_entries.
  - destruct (for_each _ _ _) as [u q']. cbn [snd] in *. exists q'. split; [done|].
    rewrite entries_of_length in Hc. rewrite sizes_entries in Hb.
    split_and!; [|done|done|by etrans].
    intros n [o Ho]%elem_of_dom. by apply (Hq (n, o)), (entries_of_spec t (n, o)).
Qed.

Lemma restart_schedules_accepted_witness :
  ∃ q' : Queue refSchedule,
    @loadReady refSchedule _ (sampleCodec acceptedSample) sampleIDNA (sampleEnv [])
      (newQueue noLimits sampleCrashed) = (Ok tt, q') ∧ queued q' acceptedSample.
Proof.
  destruct (table_of sampleCrashed (Sp Ready)) as [t|] eqn:Ht; [|vm_compute in Ht; discriminate Ht].
  assert (Htab : t = {["m1" := Directory 1]}).
  { vm_compute in Ht. injection Ht as <-. vm_compute. reflexivity. }
  destruct (@restart_schedules_accepted refSchedule _ (sampleCodec acceptedSample) sampleIDNA
    (sampleEnv []) _ (λ _, acceptedSample) noLimits sampleCrashed t Ht) as (q' & Hl & Hq & _).
  - intros n o. rewrite Htab. intros [<- <-]%lookup_singleton_Some. split; [reflexivity|].
    constructor; [|vm_compute; reflexivity..].
    exists "hello", "{}". split_and!.
    + constructor; [exists 2%nat|exists 3%nat|exists 4%nat]; split; vm_compute; reflexivity.
    + vm_compute. discriminate.
    + vm_compute. reflexivity.
    + assert (Hnil : Bodies acceptedSample = []) by (vm_compute; reflexivity).
      split_and!; [vm_compute; reflexivity..|]. intros b Hb. rewrite Hnil in Hb.
      exfalso. by apply elem_of_nil in Hb.
    + vm_compute. reflexivity.
  - rewrite Htab. vm_compute. discriminate.
  - rewrite Htab. vm_compute. discriminate.
  - exists q'. split; [exact Hl|]. apply (Hq "m1"). rewrite Htab. set_solver.
Defined.
