(* ===== verification/Finished.v ===== *)
(** * A finished message stays finished

    [Finish] moves the entry out of ready/ and syncs both directories before it
    reports success, so no crash brings the message back
    ([finished_not_redelivered]), and what an administrator deletes stays deleted
    ([deleted_not_redelivered]); what is exported is the stored message
    ([exported_is_message]); a finisher that holds an outdated envelope is
    refused and changes nothing ([stale_finish_refused]). *)

From S2P Require Import Prelude Errors GoLib Sha256 Envelope Capacity Utf8 Mailbox Validation.
From S2P Require Import FileSystem Disk Queue Storage Delivery Dead Add Dsn Recovery Open.
From S2P Require Import Durability Samples AddFacts Accepted Load RecoveryFacts EndToEnd.
Open Scope Z_scope.

(** ** Operations that only read the spool *)

(** The spool and the charged entries are as before. *)
Definition qfs {S} (q q' : Queue S) : Prop :=
  same_fs (disk q) (disk q') ∧ accounted (cap q') = accounted (cap q).

#[export] Instance qfs_preorder {S} : PreOrder (@qfs S).
Proof.
  split; [intros q; split; [reflexivity|done]|]. intros a b c [H1 H2] [H3 H4].
  split; [by etrans|congruence].
Qed.

Section reading.
Context {S : Type} `{Scheduler S} `{JsonCodec} (ToASCII : string → res string) (E : Environment).
Implicit Types q : Queue S.

Lemma fs_Stat p : keeps same_fs (os_Stat E p).
Proof. apply fs_read. Qed.
Lemma fs_call {A} (a : A) : keeps same_fs (call E (λ w, (Ok a, w))).
Proof. apply (fs_read E (λ _, Ok a)). Qed.
Lemma fs_Now : keeps same_fs (time_Now E).
Proof. intros w. done. Qed.
Lemma fs_ReadFile f : keeps same_fs (os_ReadFile E f).
Proof. apply fs_read. Qed.
Lemma fs_Allocated s n : keeps same_fs (AllocatedBytes E s n).
Proof. apply fs_read. Qed.
Lemma fs_CheckRead p : keeps same_fs (CheckRead E p).
Proof. apply (fs_read E (λ _, Ok tt)). Qed.
#[local] Hint Resolve fs_Stat fs_call fs_Now fs_ReadFile fs_Allocated fs_CheckRead : core.

Lemma fs_readBounded p max : keeps same_fs (readBoundedRegular E p max).
Proof. unfold readBoundedRegular, openRegularFromInfo. keep. Qed.
Lemma fs_openRegular p : keeps same_fs (openRegular E p).
Proof. unfold openRegular, openRegularFromInfo. keep. Qed.
#[local] Hint Resolve fs_readBounded fs_openRegular : core.
Lemma fs_acceptedDir p : keeps same_fs (acceptedDir E p).
Proof. unfold acceptedDir. keep. Qed.
Lemma fs_loadDir p id : keeps same_fs (loadDir ToASCII E p id).
Proof. unfold loadDir, loadEnvelopeMetadata, loadBody, verifyEnvelopeBodyHandle. keep. Qed.
#[local] Hint Resolve fs_acceptedDir fs_loadDir : core.
Lemma fs_matchReady env : keeps same_fs (matchReady ToASCII E env).
Proof. unfold matchReady, matchReadyUpdate. keep. Qed.

Lemma fs_openBody p env : keeps same_fs (openBody E p env).
Proof. unfold openBody, verifyEnvelopeBodyHandle. keep. Qed.

Lemma qfs_onDisk {A} (m : ST world A) : keeps same_fs m → keeps (@qfs S) (onDisk m).
Proof. intros Hm q. specialize (Hm (disk q)). unfold onDisk, qfs. by destruct (m (disk q)). Qed.

Lemma qfs_modify (f : Queue S → Queue S) :
  (∀ q, disk (f q) = disk q ∧ accounted (cap (f q)) = accounted (cap q)) → keeps qfs (modify f).
Proof. intros Hf q. destruct (Hf q) as [H1 H2]. split; cbn; [by rewrite H1|done]. Qed.

Lemma qfs_startMutation : keeps (@qfs S) (startMutation E).
Proof.
  assert (keeps (@qfs S) (onDisk (time_Now E))) by (by apply qfs_onDisk).
  assert (keeps (@qfs S) (onDisk (AllocatedRoot E))) by (apply qfs_onDisk, fs_read).
  unfold startMutation, refreshSpoolUsage. keep. all: by apply qfs_modify.
Qed.

Lemma qfs_beginTransition id : keeps (@qfs S) (beginTransition id).
Proof. intros q. unfold beginTransition, beginTransitions, qfs. by destruct (existsb _ _). Qed.

Lemma qfs_scheduleFirst es : keeps (@qfs S) (scheduleFirst es).
Proof.
  assert (Hl : ∀ e, keeps (@qfs S) (scheduleLocked e)).
  { intros e q. unfold scheduleLocked. by repeat (case_match; try done). }
  induction es as [|e es IH]; cbn; keep.
Qed.

Lemma qfs_endTransition id : keeps (@qfs S) (endTransition id).
Proof.
  assert (Hm : ∀ f, (∀ q, disk (f q) = disk q ∧ accounted (cap (f q)) = accounted (cap q)) →
            keeps (@qfs S) (modify f)) by apply qfs_modify.
  assert (Hsig : keeps (@qfs S) signal) by (by apply qfs_modify).
  pose proof qfs_scheduleFirst. unfold endTransition, endTransitions. cbn [endTransitions_loop]. keep.
Qed.

(** The schedule is as before. *)
Definition qsched q q' : Prop := scheduled q' = scheduled q.

#[local] Instance qsched_preorder : PreOrder qsched.
Proof. split; [done|]. intros a b c H1 H2. unfold qsched in *. congruence. Qed.

Lemma qsched_onDisk {A} (m : ST world A) : keeps qsched (onDisk m).
Proof. intros q. unfold onDisk, qsched. by destruct (m (disk q)). Qed.

Lemma qsched_startMutation : keeps qsched (startMutation E).
Proof.
  assert (Hm : ∀ f, (∀ q, scheduled (f q) = scheduled q) → keeps qsched (modify f)) by (intros f Hf q; apply Hf).
  pose proof @qsched_onDisk. unfold startMutation, refreshSpoolUsage. keep.
Qed.

(** The end of a transition schedules nothing that is not charged, and forgets the
    requests to schedule the identifier again. *)
Lemma endTransition_absent id q : absent id q → absent id (endTransition id q).2.
Proof. apply qc_endTransitions. Qed.

Lemma endTransition_requeues id q : requeues (endTransition id q).2 !! id = None.
Proof.
  unfold endTransition, endTransitions. cbn [endTransitions_loop]. unfold bind, modify, gets, ret.
  set (q1 := set_transitioning _ q). destruct (scheduleFirst _ q1) as [found q2].
  by destruct (false || found); cbn; rewrite lookup_delete_eq.
Qed.

(** What an operation on one identifier does is what its body does, on a spool
    that has only been read. *)
Lemma transition_run id m q r q' :
  transition E id m q = (r, q') →
  (∃ e, r = Err e ∧ qfs q q') ∨
  ∃ q1 r1 q2, qfs q q1 ∧ qsched q q1 ∧ m q1 = (r1, q2) ∧ r = r1 ∧ qfs q2 q' ∧
    (absent id q2 → absent id q') ∧ requeues q' !! id = None.
Proof.
  intros Ht. unfold transition, operation in Ht.
  assert (Hb : keeps (@qfs S) beginOperation ∧ keeps qsched beginOperation).
  { split; intros q0; unfold beginOperation, qfs, qsched; by destruct (closing q0). }
  apply try_inv in Ht as [(e & Hq & ->)|([] & q0 & Hq & Ht)]; destruct Hb as [Hb Hsb].
  { left. exists e. split; [done|]. specialize (Hb q). by rewrite Hq in Hb. }
  specialize (Hb q). specialize (Hsb q). rewrite Hq in Hb, Hsb. cbn [snd] in Hb, Hsb.
  apply bind_inv in Ht as (r0 & q3 & Ht & He). apply bind_inv in He as ([] & q4 & He & Hr).
  injection Hr as <- <-. injection He as <-.
  apply try_inv in Ht as [(e & Hro & ->)|([] & q1 & Hro & Ht)].
  { injection Hro as _ <-. left. eauto. }
  injection Hro as _ <-. destruct (ValidateID id).
  2:{ injection Ht as <- <-. left. eauto. }
  pose proof (qfs_beginTransition id q0) as Hbt.
  assert (Hst : qsched q0 (beginTransition id q0).2).
  { unfold beginTransition, beginTransitions, qsched. by destruct (existsb _ _). }
  apply try_inv in Ht as [(e & Hro & ->)|([] & q1 & Hro & Ht)]; rewrite Hro in Hbt, Hst; cbn [snd] in Hbt, Hst.
  { left. exists e. split; [done|]. by etrans. }
  apply bind_inv in Ht as (r5 & q5 & Ht & He). apply bind_inv in He as ([] & q6 & He & Hr).
  injection Hr as <- <-. pose proof (qfs_endTransition id q5) as Hd. pose proof (endTransition_absent id q5) as Ha.
  pose proof (endTransition_requeues id q5) as Hrq. rewrite He in Hd, Ha, Hrq. cbn [snd] in Hd, Ha, Hrq.
  pose proof (qfs_startMutation q1) as Hs. pose proof (qsched_startMutation q1) as Hss.
  apply try_inv in Ht as [(e & Hro' & ->)|([] & q7 & Hro' & Ht)]; rewrite Hro' in Hs, Hss; cbn [snd] in Hs, Hss.
  - left. exists e. split; [done|]. change (qfs q q6). by do 3 (etrans; [done|]).
  - right. exists q7, r5, q5. split_and!; [|by do 2 (etrans; [done|])|done|done|done| |done].
    + by do 2 (etrans; [done|]).
    + intros H5. destruct (Ha H5). by constructor.
Qed.
End reading.

(** ** Moving the entry away *)

(** The directories that are there keep their tables. *)
Definition keeps_tables (w w' : world) : Prop :=
  ∀ d t, table_of w d = Some t → table_of w' d = Some t.

Lemma MkdirSpace_tables E s : keeps keeps_tables (Mkdir E (PSpace s)).
Proof.
  intros w. unfold Mkdir. destruct (dirs w !! Sp s) as [v|] eqn:Hv; [by intros d t|].
  apply (call_state E _ (keeps_tables w)); [by intros d t|]. change (dirs (tick w)) with (dirs w).
  rewrite Hv. cbn. intros d t Ht. unfold table_of in *. cbn. rewrite lookup_insert_ne; [done|].
  intros <-. by rewrite Hv in Ht.
Qed.

Lemma neat_MkdirSpace id E s : s ≠ Dsn → keeps (neat id) (Mkdir E (PSpace s)).
Proof.
  intros Hs w. unfold Mkdir. destruct (dirs w !! Sp s); [reflexivity|]. by apply neat_os_MkdirSpace.
Qed.

Lemma at_Mkdir_space s E s' : keeps (shrinks_at s) (Mkdir E (PSpace s')).
Proof.
  intros w. unfold Mkdir. destruct (dirs w !! Sp s'); [reflexivity|]. apply at_MkdirSpace.
Qed.

Lemma table_put_table w d t d' :
  is_Some (table_of w d') → is_Some (table_of (put_table d t w) d').
Proof.
  unfold table_of, put_table. cbn. destruct (decide (d = d')) as [->|Hd].
  - rewrite lookup_alter_eq. by destruct (dirs w !! d').
  - by rewrite lookup_alter_ne.
Qed.

Lemma Sync_space_err E `{!Honest E} s w e w' :
  is_Some (table_of w (Sp s)) → Sync E (PSpace s) w = (Err e, w') → errors_Is e ErrNotExist = false.
Proof.
  intros [t Ht] [Hk|[b Hk]]%call_err; [|by apply honest_fault in Hk as [? _]].
  unfold resolve_dir, table_of in *. change (dirs (tick w)) with (dirs w) in Hk.
  by destruct (dirs w !! Sp s).
Qed.

Lemma call_fault_err {A} E `{!Honest E} (a : A) w e w' :
  call E (λ w, (Ok a, w)) w = (Err e, w') → errors_Is e ErrNotExist = false.
Proof. intros [Hk|[b Hk]]%call_err; [done|]. by apply honest_fault in Hk as [? _]. Qed.

(** A rename of an entry that is there does not report it missing. *)
Lemma Rename_not_missing E `{!Honest E} s n s' n' w t o e w' :
  s ≠ s' → table_of w (Sp s) = Some t → t !! n = Some o → is_Some (table_of w (Sp s')) →
  Rename E s n s' n' w = (Err e, w') → errors_Is e ErrNotExist = false.
Proof.
  intros Hne Ht Ho [t' Ht'] Hr. unfold Rename in Hr.
  apply try_inv in Hr as [(e1 & Hc & [= ->])|([] & w1 & Hc & Hr)]; [by apply call_fault_err in Hc|].
  apply call_ok in Hc. injection Hc as <-.
  apply try_inv in Hr as [(e1 & Hc & [= ->])|([] & w2 & Hc & Hr)].
  { apply call_err in Hc as [Hk|[b Hk]]; [|by apply honest_fault in Hk as [? _]].
    change (table_of (tick (tick w))) with (table_of w) in Hk. rewrite Ht, Ht', Ho in Hk.
    destruct (may_replace _ o (t' !! n')) as [e2|] eqn:Hm; [|by case_decide].
    cbn in Hk. injection Hk as ->. unfold may_replace in Hm. by repeat (case_match; simplify_eq/=). }
  apply call_ok in Hc. change (table_of (tick (tick w))) with (table_of w) in Hc.
  rewrite Ht, Ht', Ho in Hc. destruct (may_replace _ o (t' !! n')); [done|].
  rewrite decide_False in Hc by congruence. injection Hc as <-.
  rewrite decide_False in Hr by done.
  assert (Htab : ∀ s0, is_Some (table_of w (Sp s0)) →
            is_Some (table_of (put_table (Sp s') (<[n' := o]> t') (put_table (Sp s) (delete n t) w)) (Sp s0))).
  { intros s0 Hs0. by do 2 apply table_put_table. }
  apply try_inv in Hr as [(e1 & Hc & [= ->])|([] & w3 & Hc & Hr)].
  { apply Sync_space_err in Hc; [done|done|]. apply Htab. by eexists. }
  apply Sync_ok in Hc as (d & _ & Hd & _); [|done].
  apply Sync_space_err in Hr; [done|done|]. destruct (Htab s) as [x Hx]; [by eexists|].
  unfold table_of in Hx |- *. rewrite Hd. destruct (decide (d = Sp s)) as [->|Hds].
  - rewrite lookup_alter_eq. by destruct (dirs _ !! Sp s).
  - rewrite lookup_alter_ne by done. by eexists.
Qed.

(** Once moved away durably, the entry is not accepted in any version. *)
Lemma Rename_gone id E n' w w' :
  tidy id w → clear Tmp id w → Rename E Ready id Trash n' w = (Ok tt, w') → unaccepted id w'.
Proof.
  intros Ht Htmp Hr. pose proof (neat_Rename id E Ready id Trash n' ltac:(done) w Ht) as Ht'.
  pose proof (at_Rename Tmp E Ready id Trash n' ltac:(done) w) as Hs. rewrite Hr in Ht', Hs.
  cbn [snd] in Ht', Hs. destruct Ht' as [Hwf Hdsn Hf]. constructor; [done| |done|done].
  apply clear_not_acc; [|by apply (clear_shrinks Tmp id w)].
  apply Rename_ok in Hr as (t & t' & o & _ & _ & _ & Hd & _); [|done].
  intros x (v & tv & Hv & Htv & Hx). rewrite Hd, lookup_insert_eq in Hv. injection Hv as <-.
  unfold versions in Htv. cbn in Htv.
  repeat (apply elem_of_cons in Htv as [->|Htv]; [by rewrite lookup_delete_eq in Hx|]).
  by apply elem_of_nil in Htv.
Qed.

Section finish.
Context {S : Type} `{Scheduler S} `{JsonCodec} (ToASCII : string → res string)
  (E : Environment) `{!Honest E}.
Implicit Types q : Queue S.

Lemma onDisk_inv {A} (m : ST world A) q a q' :
  onDisk m q = (a, q') → ∃ w', m (disk q) = (a, w') ∧ q' = set_disk w' q.
Proof. unfold onDisk. destruct (m (disk q)) as [x w']. intros [= <- <-]. eauto. Qed.

Lemma tidy_fs id w w' : same_fs w w' → tidy id w → tidy id w'.
Proof.
  intros (Hd & Hf & Hi) [H1 H2 H3].
  assert (He : ∀ d n o, may_entry w' d n o → may_entry w d n o).
  { intros d n o. unfold may_entry. by rewrite Hd. }
  constructor.
  - intros d n o Hm. rewrite Hi. by apply (H1 d n o), He.
  - intros o Hm. by apply (H2 o), He.
  - intros s n f Hm. by apply (H3 s n f), He.
Qed.

Lemma clear_fs s id w w' : same_fs w w' → clear s id w → clear s id w'.
Proof. intros (Hd & _) Hc o. unfold may_entry. rewrite Hd. apply Hc. Qed.

Lemma unaccepted_fs id w w' : same_fs w w' → unaccepted id w → unaccepted id w'.
Proof.
  intros (Hd & Hf & Hi) Hu. apply (unaccepted_step id w); [done| | |by rewrite Hi].
  - intros d n o. unfold may_entry. rewrite Hd. by left.
  - intros f c. unfold may_hold. by rewrite Hf.
Qed.

(** Something was done by the time the entry was moved. *)
Lemma moveState_ok s n s' n' w moved w' :
  moveState E s n s' n' w = ((moved, Ok tt), w') → Rename E s n s' n' w = (Ok tt, w').
Proof.
  intros Hm. unfold moveState in Hm. apply bind_inv in Hm as ([[]|e] & w1 & Hr & Hm).
  - by injection Hm as _ <-.
  - apply bind_inv in Hm as (a & w2 & _ & Hm). apply bind_inv in Hm as (b & w3 & _ & Hm).
    destruct a, b; try done. by destruct (errors_Is _ _).
Qed.

Lemma moveState_err s n s' n' w moved e w' :
  moveState E s n s' n' w = ((moved, Err e), w') → ∃ w1, Rename E s n s' n' w = (Err e, w1).
Proof.
  intros Hm. unfold moveState in Hm. apply bind_inv in Hm as ([[]|e'] & w1 & Hr & Hm); [done|].
  apply bind_inv in Hm as (a & w2 & _ & Hm). apply bind_inv in Hm as (b & w3 & _ & Hm).
  exists w1. destruct a, b; try by injection Hm as _ <- _.
  by destruct (errors_Is _ _); injection Hm as _ <- _.
Qed.

Lemma finishEntry_gone env q q' :
  tidy (ID env) (disk q) → clear Tmp (ID env) (disk q) →
  is_Some (entry_obj (disk q) Ready (ID env)) →
  (accounted (cap q) !! ID env = None → scheduled q !! ID env = None) →
  finishEntry ToASCII E env q = (Ok tt, q') → absent (ID env) q'.
Proof.
  intros Ht Htmp [o Ho] Hcoh Hf. unfold finishEntry in Hf.
  apply bind_inv in Hf as (matched & q1 & Hm & Hf). apply onDisk_inv in Hm as (w1 & Hm & ->).
  pose proof (fs_matchReady ToASCII E env (disk q)) as F1. rewrite Hm in F1. cbn [snd] in F1.
  match type of Hf with (match ?x with _ => _ end) _ = _ => destruct x; [done|] end.
  apply bind_inv in Hf as (measured & q2 & Ha & Hf). apply onDisk_inv in Ha as (w2 & Ha & ->).
  pose proof (fs_Allocated E Ready (ID env) w1) as F2. cbn [disk set_disk] in Ha.
  rewrite Ha in F2. cbn [snd] in F2.
  apply bind_inv in Hf as (now & q3 & Hn & Hf). apply onDisk_inv in Hn as (w3 & Hn & ->).
  cbn [disk set_disk] in Hn. injection Hn as _ <-.
  set (dst := stamped (ID env) now) in *.
  assert (F : same_fs (disk q) (set_ticks (Datatypes.S (ticks w2)) w2)) by (by etrans; [|exact F2]).
  set (w3 := set_ticks (Datatypes.S (ticks w2)) w2) in *.
  apply try_inv in Hf as [(e & _ & ?)|([] & q4 & Hmk & Hf)]; [done|].
  apply onDisk_inv in Hmk as (w4 & Hmk & ->). cbn [disk set_disk] in Hmk.
  pose proof (neat_MkdirSpace (ID env) E Trash ltac:(done) w3) as N4.
  pose proof (at_Mkdir_space Tmp E Trash w3) as S4.
  pose proof (MkdirSpace_tables E Trash w3) as T4. rewrite Hmk in N4, S4, T4. cbn [snd] in *.
  assert (Ht4 : tidy (ID env) w4) by (apply N4; by apply (tidy_fs _ (disk q))).
  assert (Hc4 : clear Tmp (ID env) w4).
  { apply (clear_shrinks Tmp _ w3); [done|]. by apply (clear_fs _ _ (disk q)). }
  assert (Htr : is_Some (table_of w4 (Sp Trash))).
  { unfold Mkdir in Hmk. destruct (dirs w3 !! Sp Trash) as [v|] eqn:Hv.
    - injection Hmk as <-. unfold table_of. rewrite Hv. by eexists.
    - apply call_ok in Hmk. change (dirs (tick w3)) with (dirs w3) in Hmk. rewrite Hv in Hmk.
      injection Hmk as <-. unfold table_of. cbn. rewrite lookup_insert_eq. by eexists. }
  assert (∃ t, table_of w4 (Sp Ready) = Some t ∧ t !! ID env = Some o) as (t & Htab & Hto).
  { unfold entry_obj in Ho. destruct (table_of (disk q) (Sp Ready)) as [t|] eqn:Hq; [|done].
    exists t. split; [|done]. apply T4. by rewrite (fs_table (disk q) w3). }
  apply bind_inv in Hf as ([moved r] & q5 & Hmv & Hf). apply onDisk_inv in Hmv as (w5 & Hmv & ->).
  cbn [disk set_disk] in Hmv. destruct r as [[]|e].
  2:{ apply moveState_err in Hmv as (w6 & Hr).
      apply (Rename_not_missing E Ready _ Trash _ w4 t o) in Hr; [|done..]. rewrite Hr, orb_false_r in Hf.
      destruct moved; [|done]. apply bind_inv in Hf as ([] & q6 & _ & Hf). done. }
  apply moveState_ok in Hmv. pose proof (Rename_gone _ _ _ _ _ Ht4 Hc4 Hmv) as Hu.
  apply bind_inv in Hf as ([] & q6 & Hnr & Hf).
  assert (Hd6 : disk q6 = w5 ∧ accounted (cap q6) !! ID env = None ∧ scheduled q6 !! ID env = None).
  { unfold noteRemovedQ, modify in Hnr. injection Hnr as <-. cbn [cap set_disk].
    destruct (accounted (cap q) !! ID env) as [a|] eqn:Ea; cbn; [|split_and!; [done|done|by apply Hcoh]].
    by rewrite noteRemoved_accounted, !lookup_delete_eq. }
  destruct Hd6 as (Hd6 & Ha6 & Hs6).
  apply bind_inv in Hf as (rm & q7 & Hrm & Hf). apply onDisk_inv in Hrm as (w7 & Hrm & ->).
  rewrite Hd6 in Hrm. pose proof (calm_removeTrash (ID env) E dst w5 Hu) as Hu7. rewrite Hrm in Hu7.
  destruct rm as [[]|e]; [|done]. apply bind_inv in Hf as ([] & q8 & Hcap & Hf).
  injection Hf as <-. injection Hcap as <-. constructor; cbn in Hu7 |- *; [done| |done]. unfold removePhysical. by repeat case_match.
Qed.

Lemma Finish_gone env q q' :
  tidy (ID env) (disk q) → clear Tmp (ID env) (disk q) →
  is_Some (entry_obj (disk q) Ready (ID env)) →
  (accounted (cap q) !! ID env = None → scheduled q !! ID env = None) →
  Finish ToASCII E (Some env) q = (Ok tt, q') → absent (ID env) q' ∧ requeues q' !! ID env = None.
Proof.
  intros Ht Htmp [o Ho] Hcoh Hf. cbn [Finish] in Hf.
  apply transition_run in Hf as [(e & ? & _)|(q1 & r & q2 & [F Fa] & Fs & Hm & <- & [F' _] & Hab & Hrq)]; [done|].
  split; [|done]. apply Hab. apply (finishEntry_gone env q1 q2); [by apply (tidy_fs _ (disk q))| | | |done].
  - by apply (clear_fs _ _ (disk q)).
  - exists o. change (object_at (disk q1) (PEntry Ready (ID env)) = Some o).
    by rewrite (fs_object (disk q) (disk q1)).
  - unfold qsched in Fs. by rewrite Fa, Fs.
Qed.

(** A stored entry that loads is one, and loading changes nothing. *)
Lemma loadStored_ok s id q env q' :
  loadStored ToASCII E s id q = (Ok env, q') →
  qfs q q' ∧ ID env = id ∧ envelope_ok ToASCII env ∧ ∃ body raw, entry_holds (disk q) (PEntry s id) body raw ∧ body_matches env body.
Proof.
  intros Hl. unfold loadStored in Hl.
  apply try_inv in Hl as [(e & _ & ?)|([] & q0 & Hb & Hl)]; [done|].
  assert (F0 : qfs q q0) by (unfold beginOperation in Hb; destruct (closing q); [done|]; injection Hb as <-; done).
  apply bind_inv in Hl as (r & q1 & Hr & Hl). apply bind_inv in Hl as ([] & q2 & He & Hl). injection Hl as -> <-.
  injection He as <-. destruct (ValidateID id); [|done].
  apply onDisk_inv in Hr as (w1 & Hr & ->). apply load_verified in Hr as (F1 & Hid & Hok & body & raw & Hh & Hb' & _).
  assert (Hd : disk q0 = disk q) by (unfold beginOperation in Hb; destruct (closing q); [done|]; by injection Hb as <-).
  rewrite Hd in F1, Hh. split_and!; [|done|done|eauto]. split; [done|]. apply F0.
Qed.

Lemma qfs_unschedule id : keeps (@qfs S) (unschedule E id).
Proof. apply qfs_modify. intros q. by destruct (scheduled q !! id). Qed.
End finish.


(** What an administrator deletes from ready/ stays deleted: when [DeleteReady] reports
    success the entry was an accepted one without a link to a delivery status
    notification, and no crash that follows makes the next start account for it or
    schedule it. *)
Theorem deleted_not_redelivered {S} `{Scheduler S} `{JsonCodec} ToASCII E `{!Honest E} id
    (q q' : Queue S) crashed E' l disabled (reopened : Queue S) w' :
  tidy id (disk q) → clear Tmp id (disk q) →
  DeleteReady ToASCII E id q = (Ok tt, q') → crash (disk q') crashed →
  OpenWithOptions ToASCII E' l disabled crashed = (Ok reopened, w') →
  (∃ env body raw, entry_holds (disk q) (PEntry Ready id) body raw ∧ body_matches env body ∧
     ID env = id ∧ is_empty (DSNID env) = true ∧ is_empty (DSNSourceID env) = true) ∧
  accounted (cap reopened) !! id = None ∧ scheduled reopened !! id = None.
Proof.
  intros Ht Htmp Hd Hc Hop. unfold DeleteReady in Hd.
  apply try_inv in Hd as [(e & _ & ?)|(env & q1 & Hl & Hd)]; [done|].
  apply loadStored_ok in Hl as ([F1 _] & Hid & _ & body & raw & Hh & Hb). subst id.
  destruct (negb (is_empty (DSNID env)) || _) eqn:Elink; [done|]. apply orb_false_iff in Elink as [E1 E2].
  apply negb_false_iff in E1, E2.
  split; [by exists env, body, raw|].
  apply bind_inv in Hd as ([] & q2 & Hu & Hd). pose proof (qfs_unschedule E (ID env) q1) as [F2 _]. rewrite Hu in F2. cbn [snd] in F2.
  apply bind_inv in Hd as (r & q3 & Hf & Hd). destruct r as [[]|e].
  2:{ apply bind_inv in Hd as ([] & q4 & _ & Hd). done. }
  apply bind_inv in Hd as ([] & q4 & Hr & Hd). injection Hr as <-. injection Hd as <-.
  assert (F : same_fs (disk q) (disk q2)) by (by etrans).
  assert (Hun : unaccepted (ID env) (disk q3)).
  { apply (Finish_gone ToASCII E env q2 q3); [by apply (tidy_fs _ (disk q))|by apply (clear_fs _ _ (disk q))| | |done].
    2:{ intros _. injection Hu as <-. destruct (scheduled q1 !! ID env) eqn:Es; cbn; [by rewrite lookup_delete_eq|done]. }
    destruct Hh as [(f & Ho & _) _ _]. change (is_Some (object_at (disk q2) (PEntry Ready (ID env)))).
    rewrite (fs_object (disk q) (disk q2)) by done. cbn [object_at].
    change (file_obj (disk q) Ready (ID env) addStateName = Some (Regular f)) in Ho. unfold file_obj, resolve_dir in Ho.
    by destruct (entry_obj (disk q) Ready (ID env)). }
  destruct Hun as [U1 U2 U3 U4].
  destruct (Open_absent ToASCII E' l disabled (ID env) crashed reopened w') as [_ H1 H2];
    [by apply (crash_unaccepted _ (disk q3)); [constructor|..]|done|done].
Qed.

(** What is exported is the message: the bytes handed to the writer have the size and
    the digest that the entry's own metadata records for the message, or for its first
    variant, and the queue is as it was. *)
Theorem exported_is_message {S} `{Scheduler S} `{JsonCodec} ToASCII E write s id (q q' : Queue S) out r :
  exportStored ToASCII E write s id q = ((Some out, r), q') →
  qfs q q' ∧ r = write out ∧
  ∃ env f raw, object_at (disk q) (join (PEntry s id) metaName) = Some (Regular f) ∧ content (disk q) f = raw ∧
    ID env = id ∧ (∃ e0, json_Unmarshal raw = Ok e0 ∧ validateEnvelope ToASCII e0 = (env, Ok tt)) ∧
    match Bodies env with
    | [] => str_len out = Size env ∧ bodyDigest out = BodyDigest env
    | b :: _ => bodyDigest out = bDigest b
    end.
Proof.
  unfold exportStored. intros Hx. apply bind_inv in Hx as (opened & q0 & Hb & Hx). destruct opened as [[]|e]; [|done].
  assert (Hd : disk q0 = disk q ∧ cap q0 = cap q) by (unfold beginOperation in Hb; destruct (closing q); [done|]; by injection Hb as <-).
  apply bind_inv in Hx as (res & q1 & Hr & Hx). apply bind_inv in Hx as ([] & q2 & He & Hx). injection He as <-.
  destruct res as [body|e]; [|done]. injection Hx as <- <- <-.
  destruct (ValidateID id); [|done].
  apply try_ok in Hr as ([env f] & q3 & Ho & Hr). apply onDisk_inv in Ho as (w3 & Ho & ->).
  apply try_ok in Hr as (data & q4 & Hrd & Hr). apply onDisk_inv in Hrd as (w4 & Hrd & ->). cbn [disk set_disk] in Hrd.
  injection Hr as Hfv <-.
  unfold openAcceptedBody in Ho. apply try_ok in Ho as (env0 & w1 & Hm & Ho). apply try_ok in Ho as (f0 & w2 & Hob & Ho).
  injection Ho as -> -> <-. apply loadAcceptedMetadata_ok in Hm as (F1 & Hid & _ & fm & raw & Om & Cm & Hj).
  assert (F2 : same_fs w1 w2).
  { pose proof (fs_openBody E (PEntry s id) env w1) as Hk. by rewrite Hob in Hk. }
  unfold readBodyFromFile in Hrd. apply try_ok in Hrd as (data' & w5 & Hrf & Hrd).
  pose proof (fs_ReadFile E f w2) as F3. rewrite Hrf in F3. cbn [snd] in F3.
  destruct (verifyWhole data' (Size env) (BodyDigest env)) as [[]|] eqn:Ev; [|done]. injection Hrd as <- <-.
  destruct Hd as [Hd1 Hd2]. rewrite Hd1 in *. split_and!.
  - split; [cbn; by do 2 (etrans; [done|])|by cbn; rewrite Hd2].
  - done.
  - exists env, fm, raw. split_and!; [done..|]. unfold firstBodyVariant in Hfv. unfold verifyWhole in Ev.
    destruct (Bodies env) as [|b bs].
    + injection Hfv as <-. destruct (negb _); [done|]. destruct (negb (str_len _ =? _)) eqn:E1; [done|].
      destruct (negb (bool_decide _)) eqn:E2; [done|]. zbool. by split.
    + destruct (negb (bool_decide _)) eqn:E2 in Hfv; [done|]. injection Hfv as <-. by zbool.
Qed.

(** [clear] on a concrete world. *)
Definition clear_b (s : space) (id : string) (w : world) : bool :=
  match dirs w !! Sp s with
  | None => true
  | Some v => forallb (λ t : table, bool_decide (t !! id = None)) (versions v)
  end.

Lemma clear_b_spec s id w : clear_b s id w = true → clear s id w.
Proof.
  unfold clear_b. intros Hb o (v & t & Hv & Ht & Ho). rewrite Hv, forallb_forall in Hb.
  specialize (Hb t (proj1 (list_elem_of_In _ _) Ht)). apply bool_decide_eq_true in Hb. congruence.
Qed.

Lemma sampleAdd_tidy : tidy "m1" (disk (sampleAdd []).2).
Proof.
  apply (@qn_AddContext "m1" refSchedule _ (sampleCodec acceptedSample) sampleIDNA (sampleEnv []) None
    (λ _, false) sample_envelope "hello" eq_refl (emptyQueue noLimits)).
  constructor; [exact emptySpool_wf|intros o Hm; by apply emptySpool_entries in Hm|].
  intros s n f Hm. by apply emptySpool_entries in Hm.
Qed.

Definition sampleFinish :=
  @Finish refSchedule _ (sampleCodec acceptedSample) sampleIDNA (sampleEnv []) (Some acceptedSample)
    (sampleAdd []).2.


(** The sample entry, deleted and exported. *)
Definition sampleDelete :=
  @DeleteReady refSchedule _ (sampleCodec acceptedSample) sampleIDNA (sampleEnv []) "m1" (sampleAdd []).2.

Lemma deleted_not_redelivered_witness :
  match @OpenWithOptions refSchedule _ (sampleCodec acceptedSample) sampleIDNA (sampleEnv []) noLimits
          false (reboot (disk sampleDelete.2)) with
  | (Ok reopened, _) => accounted (cap reopened) !! "m1" = None ∧ scheduled reopened !! "m1" = None
  | (Err _, _) => False
  end.
Proof.
  destruct (OpenWithOptions _ _ _ _ _) as [[reopened|err] w'] eqn:Ho;
    [|vm_compute in Ho; discriminate Ho].
  refine (proj2 (@deleted_not_redelivered refSchedule _ (sampleCodec acceptedSample) sampleIDNA
    (sampleEnv []) _ "m1" (sampleAdd []).2 sampleDelete.2 (reboot (disk sampleDelete.2))
    (sampleEnv []) noLimits false reopened w' _ _ _ _ Ho)).
  - exact sampleAdd_tidy.
  - apply clear_b_spec. vm_compute. reflexivity.
  - vm_compute. reflexivity.
  - apply reboot_crash.
Defined.

Example sampleExport :
  (@exportStored refSchedule (sampleCodec acceptedSample) sampleIDNA (sampleEnv []) (λ _, Ok tt) Ready "m1" (sampleAdd []).2).1
    = (Some "hello", Ok tt).
Proof. vm_compute. reflexivity. Qed.

(** ** An outdated finisher *)

Section stale.
Context `{JsonCodec} (ToASCII : string → res string) (E : Environment) `{!Honest E}.

(** A read that fails does not claim the file to be missing. *)
Definition present {A} (m : ST world (res A)) (P : A → Prop) (w : world) : Prop :=
  match (m w).1 with Ok a => P a | Err e => errors_Is e ErrNotExist = false end.

Lemma present_try {A B} (m : ST world (res A)) (k : A → ST world (res B)) P Q w :
  present m P w → (∀ a, P a → present (k a) Q (m w).2) → present (try_ m k) Q w.
Proof.
  intros Hm Hk. unfold present, try_, bind in *. destruct (m w) as [[a|e] w1]; [by apply Hk|done].
Qed.

Lemma present_call {A} (a : A) (P : A → Prop) w : P a → present (call E (λ w, (Ok a, w))) P w.
Proof.
  intros Ha. unfold present. destruct (call E _ w) as [[x|e] w'] eqn:Hc; cbn.
  - apply call_ok in Hc. by injection Hc as <- _.
  - by apply call_fault_err in Hc.
Qed.

Lemma present_stat p o (P : object → Prop) w :
  object_at w p = Some o → P o → present (os_Stat E p) P w.
Proof.
  intros Ho HP. unfold present. destruct (os_Stat E p w) as [[x|e] w'] eqn:Hc; cbn.
  - apply call_ok in Hc. change (object_at (tick w) p) with (object_at w p) in Hc. rewrite Ho in Hc.
    by injection Hc as <- _.
  - apply call_err in Hc as [Hk|[b Hk]]; [|by apply honest_fault in Hk as [? _]].
    change (object_at (tick w) p) with (object_at w p) in Hk. by rewrite Ho in Hk.
Qed.

Lemma present_readFile f c (P : string → Prop) w :
  content w f = c → P c → present (os_ReadFile E f) P w.
Proof.
  intros Hc HP. unfold present. destruct (os_ReadFile E f w) as [[x|e] w'] eqn:Hr; cbn.
  - apply call_ok in Hr. injection Hr as <- _. change (content (tick w) f) with (content w f).
    by rewrite Hc.
  - apply call_err in Hr as [Hk|[b Hk]]; [done|]. by apply honest_fault in Hk as [? _].
Qed.

Lemma present_readBounded p max f c (P : string → Prop) w :
  object_at w p = Some (Regular f) → content w f = c → P c →
  present (readBoundedRegular E p max) P w.
Proof.
  intros Ho Hc HP. unfold readBoundedRegular.
  pose proof (fs_CheckRead E p w) as F1.
  apply (present_try _ _ (λ _, True)); [by apply present_call|]. intros [] _.
  set (w1 := (CheckRead E p w).2) in *. pose proof (fs_Stat E p w1) as F2.
  apply (present_try _ _ (λ o, o = Regular f)).
  { apply (present_stat _ (Regular f)); [|done]. by rewrite (fs_object w w1). }
  intros o ->. set (w2 := (os_Stat E p w1).2) in *.
  assert (F : same_fs w w2) by (by etrans). unfold present at 1, bind, gets.
  destruct (max <? str_len (content w2 f)); [done|].
  change (present (try_ (openRegularFromInfo E (Regular f)) (λ file, try! raw := os_ReadFile E file in
    if max <? str_len raw then ret (Err (corruptionf "queue metadata exceeds the limit"))
    else ret (Ok raw))) P w2).
  pose proof (fs_call E f w2) as F3.
  apply (present_try _ _ (λ x, x = f)); [by apply present_call|]. intros x ->.
  set (w3 := (openRegularFromInfo E (Regular f) w2).2) in *.
  apply (present_try _ _ (λ x, x = c)).
  { apply (present_readFile f c); [|done]. rewrite (fs_content w w3); [done|by etrans]. }
  intros x ->. unfold present. by destruct (max <? str_len c).
Qed.

Lemma verifyEnvelopeBody_present body env :
  match verifyEnvelopeBody body env with
  | Ok _ => True | Err e => errors_Is e ErrNotExist = false end.
Proof.
  unfold verifyEnvelopeBody. destruct (Bodies env) as [|b bs].
  - unfold verifyWhole. destruct (negb _); [done|]. destruct (negb _); [done|]. by destruct (negb _).
  - assert (Hv : match verifyVariants body (b :: bs) with
                 | Ok _ => True | Err e => errors_Is e ErrNotExist = false end).
    { generalize (b :: bs). intros l. revert body. induction l as [|c l IH]; intros body; [done|].
      cbn [verifyVariants]. destruct (_ <? _); [done|]. destruct (negb _); [done|]. apply IH. }
    destruct (verifyVariants body (b :: bs)) as [[]|e]; [|done]. cbn [res_bind].
    destruct (negb _); [done|]. by destruct (negb _).
Qed.

Lemma present_loadDir dir id body raw cur w :
  entry_holds w dir body raw → decodeEnvelopeMetadata ToASCII raw id = Ok cur →
  present (loadDir ToASCII E dir id) (λ env, env = cur) w.
Proof.
  intros [_ (f2 & O2 & C2) (f3 & O3 & C3)] Hdec. unfold loadDir.
  assert (F1 : same_fs w (loadEnvelopeMetadata ToASCII E dir id w).2).
  { unfold loadEnvelopeMetadata, bind. pose proof (fs_readBounded E (join dir metaName) maxEnvelopeMetadata w).
    destruct (readBoundedRegular _ _ _ w) as [[r|e] w1]; [done|]. by destruct (errors_Is _ _). }
  apply (present_try _ _ (λ env, env = cur)).
  { unfold loadEnvelopeMetadata, present, bind.
    pose proof (present_readBounded (join dir metaName) maxEnvelopeMetadata f3 raw (λ x, x = raw) w O3 C3 eq_refl)
      as Hp. unfold present in Hp. destruct (readBoundedRegular _ _ _ w) as [[r|e] w1]; cbn in *.
    - subst r. by rewrite Hdec.
    - by rewrite Hp. }
  intros env ->. set (w1 := (loadEnvelopeMetadata ToASCII E dir id w).2) in *.
  unfold loadBody, present, bind at 1.
  assert (Hop : present (openRegular E (join dir bodyName)) (λ x, x = f2) w1).
  { unfold openRegular. pose proof (fs_CheckRead E (join dir bodyName) w1) as F2.
    apply (present_try _ _ (λ _, True)); [by apply present_call|]. intros [] _.
    apply (present_try _ _ (λ o, o = Regular f2)); [|intros o ->; by apply present_call].
    apply (present_stat _ (Regular f2)); [|done]. rewrite (fs_object w); [done|by etrans]. }
  unfold present in Hop. destruct (openRegular E (join dir bodyName) w1) as [[x|e] w2];
    cbn [fst snd] in *.
  2:{ by rewrite Hop. }
  unfold bind at 1, gets. destruct (negb _); [done|].
  change (present (try_ (verifyEnvelopeBodyHandle E x cur) (λ _, ret (Ok cur))) (λ env, env = cur) w2).
  apply (present_try _ _ (λ _, True)); [|done].
  unfold verifyEnvelopeBodyHandle. apply (present_try _ _ (λ _, True)).
  { unfold present. destruct (os_ReadFile E x w2) as [[y|e] w3] eqn:Hr; [done|]. cbn.
    apply call_err in Hr as [Hk|[b Hk]]; [done|]. by apply honest_fault in Hk as [? _]. }
  intros y _. unfold present. cbn [ret fst]. apply verifyEnvelopeBody_present.
Qed.
End stale.

(** A finisher with an outdated envelope is refused.  If ready/<id> holds an
    accepted entry whose metadata decodes to an envelope with another
    incarnation or revision than the caller's, [Finish] returns an error, and
    neither the spool nor the accounting changes: a worker that lost its entry
    cannot remove what another one has updated. *)
Theorem stale_finish_refused {S} `{Scheduler S} `{JsonCodec} ToASCII E `{!Honest E} env cur
    body raw (q : Queue S) :
  entry_holds (disk q) (PEntry Ready (ID env)) body raw →
  decodeEnvelopeMetadata ToASCII raw (ID env) = Ok cur →
  Incarnation cur ≠ Incarnation env ∨ Revision cur ≠ Revision env →
  ∃ e q', Finish ToASCII E (Some env) q = (Err e, q') ∧
    same_fs (disk q) (disk q') ∧ accounted (cap q') = accounted (cap q).
Proof.
  intros Hh Hdec Hne. destruct (Finish ToASCII E (Some env) q) as [r q'] eqn:Hf. cbn [Finish] in Hf.
  apply transition_run in Hf as [(e & -> & HF)|(q1 & r1 & q2 & HF & _ & Hm & -> & HF' & _)]; [by exists e, q'|].
  unfold finishEntry in Hm. apply bind_inv in Hm as (matched & q3 & Hma & Hm).
  apply onDisk_inv in Hma as (w3 & Hma & ->).
  pose proof (fs_matchReady ToASCII E env (disk q1)) as F3. rewrite Hma in F3. cbn [snd] in F3.
  assert (Hp : present (matchReady ToASCII E env) (λ _, False) (disk q1)).
  { unfold matchReady, matchReadyUpdate.
    assert (Hh1 : entry_holds (disk q1) (PEntry Ready (ID env)) body raw).
    { destruct HF as [F _]. by apply (entry_holds_fs (disk q)). }
    pose proof (fs_acceptedDir E (PEntry Ready (ID env)) (disk q1)) as F4.
    apply (present_try _ _ (λ _, True)).
    { destruct Hh1 as [(f1 & O1 & C1) _ _]. unfold acceptedDir.
      apply (present_try _ _ (λ x, x = addAccepted)).
      - by apply (present_readBounded E _ _ f1 addAccepted).
      - intros x ->. unfold present. by rewrite bool_decide_eq_true_2. }
    intros [] _. set (w4 := (acceptedDir E _ _).2) in *.
    apply (present_try _ _ (λ x, x = cur)).
    { apply (present_loadDir ToASCII E _ _ body raw); [|done]. by apply (entry_holds_fs (disk q1)). }
    intros x ->. unfold present. cbn [ret fst].
    destruct (bool_decide (Incarnation cur = Incarnation env)) eqn:E1; cbn [negb]; [|done].
    destruct (Revision cur =? Revision env) eqn:E2; cbn [negb]; [|done]. zbool. by destruct Hne. }
  unfold present in Hp. rewrite Hma in Hp. cbn [fst] in Hp. destruct matched as [[]|e]; [done|].
  rewrite Hp in Hm. injection Hm as <- <-. exists e, q'. split; [done|].
  destruct HF as [F1 A1], HF' as [F2 A2]. cbn in A2. split; [by do 2 (etrans; [done|])|congruence].
Qed.

(** The sample entry as another worker has retried it. *)
Lemma stale_finish_witness :
  ∃ e q', @Finish refSchedule _ (sampleCodec acceptedSample) sampleIDNA (sampleEnv [])
      (Some (set_Revision 7 acceptedSample)) (sampleAdd []).2 = (Err e, q') ∧
    same_fs (disk (sampleAdd []).2) (disk q') ∧
    accounted (cap q') = accounted (cap (sampleAdd []).2).
Proof.
  apply (@stale_finish_refused refSchedule _ (sampleCodec acceptedSample) sampleIDNA (sampleEnv []) _
    (set_Revision 7 acceptedSample) acceptedSample "hello" "{}").
  - constructor; [exists 2%nat|exists 3%nat|exists 4%nat]; split; vm_compute; reflexivity.
  - vm_compute. reflexivity.
  - right. vm_compute. discriminate.
Defined.
