(* ===== verification/AttemptSamples.v ===== *)
(** * Attempts at concrete messages

    The theorems about attempts applied to a message for two recipients; and a run
    of a whole attempt in which a server's long temporary reply stops delivery for
    every message ([long_reply_is_fatal]); and runs of the delivery loop over four messages with one slot per owner and per
    domain, among them one in which a message stays parked for a domain nobody uses
    ([idle_domain_waits]). *)

From S2P Require Import Prelude Errors GoLib Sha256 Envelope Capacity FileSystem Disk Utf8 Mailbox Text Validation Diagnostic Client ClientFacts.
From S2P Require Import Discovery Queue Storage Bounce BodyReader Send SendFacts Outcomes Delivery Dead Add Dsn Attempt Run AttemptFacts.
From S2P Require Import Storable Durability Samples.
Open Scope Z_scope.

Definition sampleConfig : attemptConfig :=
  mkAttemptConfig openPolicy "out.example.org" None 2 2 1000000 60000 1000 64000 500 10.

(** Both hosts of [sampleNet] for every group, one instant per use of the clock. *)
Definition sampleWorld (net : Outside) : attemptWorld :=
  Attempt.mkWorld (λ n, 2000 + Z.of_nat n) false (λ _, false) (λ _, false) None false (λ _, net)
    (λ _, 0) (mkDsnStamp (Ok "0123456789abcdef") "now" (λ _, "date")).

Definition idle : @deliverer refSchedule := mkDeliverer (emptyQueue noLimits) ∅ ∅ [].

(** ** A long reply for many recipients *)

Definition recipientAt (n : nat) : Recipient :=
  mkRecipient ("user" +:+ FormatUint (Z.of_nat n) +:+ "@example.org") "example.org" 0 StatusPending "" 0 "".

Definition toMany (n : nat) : Envelope :=
  mkEnvelope "m1" sampleIncarnation 1 "alice" "alice@example.com" (recipientAt <$> seq 0 n)
    [] 5 1 0 0 "" false false (bodyDigest "hello") "" "" "" 0 0 "".

(** A single host that defers the sender with a reply of [n] octets. *)
Definition deferring (n : nat) : Outside :=
  mkOutside
    (mkResolver (λ _, Ok [Some (mkMX "mx.example.org." 10)]) (λ _ _, Ok [[192; 0; 2; 1]]))
    (λ _ _, Ok (mkPeer (greeting ++ [Reply 451 (of_list (repeat (chr 120) n))]) (λ _, None) (λ _, None)))
    (λ _ _, Ok (mkTracked (str_list "hello") 5 (bodyDigest "hello") [] true false 0))
    (mkPieces (λ _, 5%nat) (λ _, None)) (λ _, None) (λ _, None).

(** The text of an SMTP reply. *)
Definition reply_text (e : error) : string :=
  match errors_AsSMTP e with Some (_, _, text) => text | None => "error" end.

(** A codec of the envelopes in [l]: an envelope is encoded as its place. *)
Fixpoint place (e : Envelope) (l : list Envelope) : option nat :=
  match l with
  | [] => None
  | x :: l => if decide (x = e) then Some O else Datatypes.S <$> place e l
  end.

Lemma place_lookup e l i : place e l = Some i → l !! i = Some e.
Proof.
  revert i. induction l as [|x l IH]; intros i; cbn [place]; [done|].
  case_decide; [by intros [= <-]; subst|]. destruct (place e l) as [j|]; [|done].
  intros [= <-]. by apply IH.
Qed.

#[export] Program Instance tableCodec (l : list Envelope) : JsonCodec | 100 := {
  json_Marshal e :=
    match place e l with
    | Some i => Ok (of_list (repeat (chr 120) i))
    | None => Err (Message "unsupported value")
    end;
  json_Unmarshal raw :=
    match l !! length (str_list raw) with Some e => Ok e | None => Err (Message "syntax error") end;
  json_safe e := e ∈ l
}.
Next Obligation.
  intros l e b _. cbn. destruct (place e l) as [i|] eqn:Ei; [|done]. intros [= <-].
  rewrite str_list_of_list, repeat_length. by rewrite (place_lookup _ _ _ Ei).
Qed.
Next Obligation. intros l e err. cbn. destruct (place e l); [done|]. by intros [= <-]. Qed.

(** [e] as it is stored for another attempt after the [detail] of the first. *)
Definition retried (detail : string) (e : Envelope) : Envelope :=
  set_Recipients (set_Detail detail <$> Recipients e)
    (set_LastError detail (set_Attempts 1 (set_NextAttempt 2903 e))).

(** The message is accepted, taken from the schedule and attempted; the result is
    that of accepting it, and the worker's fatal error if it got that far. *)
Definition attemptMany (recipients reply : nat) : res unit * option (option error) :=
  let e := toMany recipients in
  let after := retried ("example.org: " +:+ of_list (repeat (chr 120) reply)) e in
  let codec := tableCodec [e; after; set_Revision 2 after] in
  let '(added, q) := @AddContext refSchedule _ codec sampleIDNA (sampleEnv []) None
    (λ _, false) (Some e) "hello" (emptyQueue noLimits) in
  let '(due, q) := takeDue 2000 q in
  match due with
  | None => (added.2, None)
  | Some e' =>
      let '(adm, d) := admitDue sampleConfig e' (mkDeliverer q ∅ ∅ []) in
      match adm with
      | None => (added.2, None)
      | Some (owner, name) =>
          (added.2, Some (@worker refSchedule _ codec _ sampleIDNA (sampleEnv []) None reply_text
             (mkPieces (λ _, 5%nat) (λ _, None)) sampleConfig (sampleWorld (deferring reply)) e' owner name d).1)
      end
  end.

(** One long reply stops delivery altogether.  A message to 640 recipients of one
    domain is accepted (the configuration allows a thousand); its server defers the
    sender with a reply of a thousand octets, which is recorded for every recipient.
    The envelope no longer fits the metadata limit, so the queue refuses to store the
    retry with an error that is neither corruption nor storage pressure, and the
    worker makes it the fatal error of the deliverer.  With three recipients the same
    reply is stored and delivery goes on. *)
Theorem long_reply_is_fatal :
  attemptMany 3 1010 = (Ok tt, Some None) ∧
  attemptMany 640 1010
    = (Ok tt, Some (Some (Wrap "retry" (Message "envelope metadata exceeds the limit")))).
Proof.
  split; [vm_compute; reflexivity|].
  vm_cast_no_check (@eq_refl (res unit * option (option error))
    (Ok tt, Some (Some (Wrap "retry" (Message "envelope metadata exceeds the limit"))))).
Qed.

(** ** The theorems at a message for two recipients *)

Lemma idle_within : within_limits sampleConfig idle.
Proof. split_and!; (split; [done|]) || idtac; apply map_Forall_empty. Qed.

Lemma capacity_returned_witness :
  ∃ d1, admitDue sampleConfig twoRecipients idle = (Some ("user", "example.com"), d1) ∧
  domains d1 = {["example.com" := 1]} ∧
  ∀ e' r d2,
    attemptAdmitted (H0 := sampleCodec twoRecipients) sampleIDNA (sampleEnv []) None no_text
      (mkPieces (λ _, 5%nat) (λ _, None)) sampleConfig (sampleWorld (sampleNet secondHost)) twoRecipients
      "user" "example.com" d1 = ((e', r), d2) →
    users d2 = ∅ ∧ domains d2 = ∅.
Proof.
  pose (d1 := (admitDue sampleConfig twoRecipients idle).2). assert (Ha : admitDue sampleConfig twoRecipients idle = (Some ("user", "example.com"), d1))
    by (vm_compute; reflexivity).
  destruct (capacity_returned (H0 := sampleCodec twoRecipients) sampleIDNA (sampleEnv []) None no_text
    (mkPieces (λ _, 5%nat) (λ _, None)) sampleConfig (sampleWorld (sampleNet secondHost)) twoRecipients idle
    _ _ idle_within Ha) as [_ Hret].
  exists d1. split; [exact Ha|]. split; [vm_compute; reflexivity|exact Hret].
Defined.

Lemma backoff_bounds_witness :
  900 ≤ backoff 1000 64000 (λ _, 0) 1 ≤ 64000 ∧
  retryAt sampleConfig (sampleWorld (sampleNet secondHost)) twoRecipients ≤ 1001000.
Proof.
  destruct (backoff_bounds sampleConfig (sampleWorld (sampleNet secondHost)) (set_Attempts 1 twoRecipients))
    as (Hb & _ & Hr & _); [cbn; lia|vm_compute; discriminate|intros s Hs; cbn; lia|].
  split; [exact Hb|exact Hr].
Defined.

Lemma attempt_storable_witness :
  ∃ e', validateEnvelope sampleIDNA e' = (e', Ok tt) ∧ Pending e' = 0 ∧ Attempts e' = 1.
Proof.
  pose (w := sampleWorld (sampleNet secondHost)).
  destruct (deliverGroups no_text sampleConfig w 0
    (admittedFirst "example.com" (groupRecipients (begun twoRecipients))) "example.com"
    (set_PreferredDomain "" (begun twoRecipients)) [] idle) as [g d'] eqn:Hd.
  destruct (attempt_storable sampleIDNA no_text sampleConfig w
    (λ _ h ip p, sample_dialled secondHost h ip p secondHost_quiet (λ n, eq_refl))
    (λ _, sample_opened secondHost) "example.com" twoRecipients idle g d'
    ltac:(vm_compute; reflexivity) ltac:(vm_compute; reflexivity) ltac:(vm_compute; discriminate) Hd)
    as (_ & _ & _ & Hall & _).
  vm_compute in Hd.
  exists (summarize sampleConfig w (begun twoRecipients) (g_diags g) (g_env g)).
  split; [apply Hall; [left|]|]; injection Hd as <- _; vm_compute; auto.
Defined.

Definition single : attemptConfig := mkAttemptConfig openPolicy "out.example.org" None 1 1 1000000 60000 1000 64000 500 10.

Definition mailTo (id owner domain : string) : Envelope :=
  mkEnvelope id sampleIncarnation 1 owner (owner +:+ "@example.com")
    [mkRecipient ("user@" +:+ domain) domain 0 StatusPending "" 0 ""]
    [] 5 1 0 0 "" false false (bodyDigest "hello") "" "" "" 0 0 "".

Definition slowMails : list Envelope :=
  [mailTo "m1" "ann" "d.example"; mailTo "m2" "bob" "d.example"; mailTo "m3" "cid" "d.example"; mailTo "m4" "bob" "e.example"].

(** The loop takes the first due message and admits it. *)
Definition admits : list runEvent := [Loop Go; Loop (Take 0); Loop Go; Loop Go; Loop Go; Loop Slot].

(** It takes the first due message, finds its domain full and parks it; every wake
    follows at once. *)
Definition parksDomain : list runEvent :=
  [Loop Go; Loop (Take 0); Loop Go; Loop Go; Loop Go; Loop Go; Wake 0; Wake 0; Loop Go; Wake 0].

(** The second worker finishes its message; the release of the domain wakes one. *)
Definition secondEnds : list runEvent :=
  [Work 1 ReleaseHeld; Wake 0; Wake 0; Wake 0; Work 1 (Outcome OFinished); Work 1 CloseDomain; Work 1 CloseOwner; Wake 0; Wake 0;
   Work 1 (HandleError (Ok tt))].

(** The woken message finds its owner busy. *)
Definition parksUser : list runEvent := [Loop Go; Loop (Take 0); Loop Go; Loop Go; Loop Go; Wake 0; Loop Go].

Definition waitingRun : list runEvent := admits ++ parksDomain ++ parksDomain ++ admits ++ secondEnds ++ parksUser.

Definition afterEvents (evs : list runEvent) : runState := default (runStart [] []) (runAll single 8 evs (runStart slowMails [])).

(** A message can stay parked for a domain whose capacity is free.  Two messages of
    different owners wait for a domain; its release wakes the first of them, whose owner
    is busy elsewhere by then, so it is parked for its owner, and the second is not
    woken: the loop waits for the next message, nothing is due, no wake is owed, the
    domain is free and unused, and the second message waits for the end of an attempt
    that concerns neither its owner nor its domain. *)
Theorem idle_domain_waits :
  runAll single 8 waitingRun (runStart slowMails []) = Some (afterEvents waitingRun) ∧
  rsLoop (afterEvents waitingRun) = LNext ∧ rsReady (afterEvents waitingRun) = [] ∧ rsOwed (afterEvents waitingRun) = [] ∧
  available (kind_limit single admissionDomain) "d.example" (rsDomains (afterEvents waitingRun)) = true ∧
  (λ w, (ID (w_envelope w), w_kind w, w_key w)) <$> rsParked (afterEvents waitingRun)
    = [("m3", admissionDomain, "d.example"); ("m2", admissionUser, "bob")] ∧
  (λ w, (ID (wkEnv w), wkOwner w, wkHeld w)) <$> rsWorkers (afterEvents waitingRun) = [("m4", "bob", "e.example")].
Proof. vm_compute. repeat split. Qed.

(** The last worker ends: the owner's message is woken, delivered, and its release wakes
    the last one. *)
Definition firstEnds : list runEvent :=
  [Work 0 ReleaseHeld; Wake 0; Wake 0; Work 0 (Outcome OFinished); Work 0 CloseDomain; Work 0 CloseOwner; Wake 0; Wake 0; Wake 0;
   Work 0 (HandleError (Ok tt))].

Definition woken : list runEvent := [Loop (Take 0); Loop Go; Loop Go; Loop Go; Loop Slot].

Definition firstEndsWaking : list runEvent :=
  [Work 0 ReleaseHeld; Wake 0; Wake 0; Wake 0; Work 0 (Outcome OFinished); Work 0 CloseDomain; Work 0 CloseOwner; Wake 0; Wake 0;
   Work 0 (HandleError (Ok tt))].

Definition firstEndsAlone : list runEvent :=
  [Work 0 ReleaseHeld; Wake 0; Wake 0; Work 0 (Outcome OFinished); Work 0 CloseDomain; Work 0 CloseOwner; Wake 0; Wake 0;
   Work 0 (HandleError (Ok tt))].

Definition emptiedRun : list runEvent := waitingRun ++ firstEnds ++ woken ++ firstEndsWaking ++ [Loop Go] ++ woken ++ firstEndsAlone ++ [Loop Go].

Lemma sample_reachable evs s :
  runAll single 8 evs (runStart slowMails []) = Some s → run_reachable single 8 slowMails [] s.
Proof. intros Hs. eapply runAll_reachable; [apply reach_start|exact Hs]. Qed.

Lemma run_capacity_witness :
  rsUsers (afterEvents waitingRun) = {["bob" := 1]} ∧ (length (rsWorkers (afterEvents waitingRun)) ≤ 8)%nat.
Proof.
  split; [vm_compute; reflexivity|]. apply (run_capacity single 8 slowMails []).
  apply (sample_reachable waitingRun). vm_compute. reflexivity.
Defined.

Lemma no_message_stranded_witness :
  length (rsGone (afterEvents emptiedRun)) = 4%nat ∧ rsParked (afterEvents emptiedRun) = [].
Proof.
  split; [vm_compute; reflexivity|]. apply (no_message_stranded single 8 slowMails []).
  - apply (sample_reachable emptiedRun). vm_compute. reflexivity.
  - vm_compute. reflexivity.
  - vm_compute. reflexivity.
  - vm_compute. reflexivity.
  - vm_compute. reflexivity.
Defined.

(** Shut down while two messages are parked and one is being delivered. *)
Definition stoppedRun : list runEvent :=
  waitingRun ++ [Cancel; Loop NextCancelled; Loop Go; Work 0 (Outcome OGivenBack); Work 0 CloseDomain; Wake 0; Wake 0;
    Work 0 CloseOwner; Wake 0; Wake 0; Wake 0; Work 0 (HandleError (Ok tt)); Loop Go].

Lemma run_returns_everything_witness :
  rsLoop (afterEvents stoppedRun) = LReturned None ∧ (ID <$> rsReady (afterEvents stoppedRun)) = ["m3"; "m2"; "m4"] ∧
  rsUsers (afterEvents stoppedRun) = ∅ ∧
  times "m3" (rsReady (afterEvents stoppedRun) ++ rsLater (afterEvents stoppedRun) ++ rsGone (afterEvents stoppedRun) ++ rsStuck (afterEvents stoppedRun)) = 1.
Proof.
  split; [vm_compute; reflexivity|]. split; [vm_compute; reflexivity|].
  destruct (run_returns_everything single 8 slowMails [] stoppedRun (afterEvents stoppedRun) None)
    as (_ & _ & _ & Hu & _ & Ht); [vm_compute; reflexivity|vm_compute; reflexivity|].
  split; [exact Hu|]. rewrite Ht. vm_compute. reflexivity.
Defined.

Lemma shutdown_returns_witness :
  ∃ evs s' r, runAll single 8 evs (setCancelled (afterEvents waitingRun)) = Some s' ∧ rsLoop s' = LReturned r ∧
    Forall (λ ev, ∀ e, ev ≠ Arrive e) evs.
Proof. apply shutdown_returns. reflexivity. Defined.
