(* ===== verification/Setup.v ===== *)
(** * From the configuration to the parts (src/serve.go, src/internal/smtpd/smtpd.go,
      src/internal/deliver/constructor.go, src/internal/rejection/server.go)

    How the queue, the submission server, the deliverer and the rejection listener are
    built from a configuration, and what validation means for them: the assumptions
    the other files make about limits and delays hold for every accepted
    configuration ([configured_bounds], [configured_retries]), listed recipients of the
    rejection listener get their own answers ([listed_recipient_answer]). *)

From S2P Require Import AuthLimiter Rate.
From S2P Require Import Prelude Errors GoLib Sha256 Envelope Capacity Utf8 Mailbox Validation.
From S2P Require Import FileSystem Disk Queue Storage Delivery Dead Add Dsn Recovery Open.
From S2P Require Import Text Base64 Password Paths Duration Message Users Client Netpolicy Discovery IpText.
From S2P Require Import ConnLimit Rejection Session Send SendFacts Outcomes Bounce Attempt AttemptFacts AttemptSamples Config ConfigFacts.
Open Scope Z_scope.

Section setup.
Context `{CaseTables} `{AddressParser} `{UrlParser}.
Variable ToASCII : string → res string.
Variable scaled : Z → Z → Z → Z.
Variable cwd : string.

(** [queue.Limits] as serve.go fills them. *)
Definition queueLimits (cfg : Config) : Limits :=
  let s := cServer cfg in
  mkLimits (sMaxQueueMessages s) (sMaxQueueBytes s) (sMaxQueueMessagesPerUser s) (sMaxQueueBytesPerUser s)
    (sMaxSpoolBytes s) (sSpoolEmergencyBytes s) (sMinFreeDiskBytes s)
    (Duration scaled (sDeadRetention s)) (Duration scaled (sCorruptRetention s)).

Definition dataWorkerMemory (maxMessageBytes : Z) : option Z :=
  if (maxMessageBytes <=? 0) || ((MaxInt64 - DataMemoryOverhead) ÷ DataMemoryCopies <? maxMessageBytes) then None
  else Some (wrap64 (wrap64 (maxMessageBytes * DataMemoryCopies) + DataMemoryOverhead)).

Definition dataWorkerCount (maxMessageBytes : Z) : Z :=
  match dataWorkerMemory maxMessageBytes with
  | None => 1
  | Some perWorker =>
      let workers := DataMemoryBudget ÷ perWorker in
      if workers <? 1 then 1 else Z.min workers MaxDataWorkers
  end.

Definition positive_or (value fallback : Z) : Z := if value <=? 0 then fallback else value.

(** What [NewWithOpenPGP] takes from the configuration. *)
Definition newServerConfig (cfg : Config) : ServerConfig :=
  let s := cServer cfg in
  mkServerConfig (sHostname s) (sMaxMessageBytes s) (sMaxRecipients s) (sIncludeClientIPInReceived s)
    (positive_or (sAuthWorkers s) 4) (dataWorkerCount (sMaxMessageBytes s)) (cUserLookup cfg).

Definition newRates (rnd : QArith_base.Q → QArith_base.Q) (now : Z) (cfg : Config) : submissionLimiter :=
  let s := cServer cfg in
  newSubmissionLimiter rnd now (sMaxMessagesPerHour s) (sMaxRecipientsPerHour s)
    (positive_or (sMessageBurst s) (burstDefault (sMaxMessagesPerHour s)))
    (positive_or (sRecipientBurst s) (burstDefault (sMaxRecipientsPerHour s))).

Definition newConnections (cfg : Config) : listener :=
  mkListener (mkConnLimiter (sMaxConnections (cServer cfg)) (sMaxConnectionsPerIP (cServer cfg)) 0 ∅) ∅ ∅ false 0.

(** [defaultAdmissionRetryDelay]. *)
Definition defaultAdmissionRetryDelay : Z := 30 * Second.

(** The allowlist: the printed form of every entry that is an address. *)
Definition newAllowlist (l : list string) : gset string :=
  fold_left (λ m a, match ParseIP a with Some ip => {[ip_string ip]} ∪ m | None => m end) l ∅.

(** [NewWithSigner]; the shuffles and the signer are parameters. *)
Definition newDelivererConfig (orderIPs : list (list Z) → list (list Z)) (orderMX : list MX → list MX)
    (sign : option (string → string → res string)) (cfg : Config) : attemptConfig :=
  let d := cDelivery cfg in
  mkAttemptConfig
    (mkOutbound (effectiveTLS (vTLSMode d) (InsecureTLSAllowed d) (PlaintextAllowed d)) (sHostname (cServer cfg))
       (mkDnsPolicy (vBindIPv4 d) (vBindIPv6 d) (vAllowPrivateDestinations d) (newAllowlist (vDestinationAllowlist d))
          (Z.to_nat (positive_or (vMaxMXCandidates d) (vMaxMXCandidates defaultDelivery)))
          (Z.to_nat (positive_or (vMaxIPCandidatesPerMX d) (vMaxIPCandidatesPerMX defaultDelivery))))
       orderIPs orderMX)
    (sHostname (cServer cfg)) sign
    (positive_or (vUserConcurrency d) (vUserConcurrency defaultDelivery)) (vDomainConcurrency d)
    (Duration scaled (vMaximumLifetime d))
    (positive_or (Duration scaled (vAttemptTimeout d)) (Duration scaled (vAttemptTimeout defaultDelivery)))
    (Duration scaled (vInitialRetryDelay d)) (Duration scaled (vMaximumRetryDelay d))
    defaultAdmissionRetryDelay (vMaxAttempts d).

(** Attempt goroutines at a time: the capacity of [active]. *)
Definition attemptLimit (cfg : Config) : Z := Z.max (vGlobalConcurrency (cDelivery cfg) * 4) 8.

(** [rejection.New]. *)
Definition newRejectionConfig (cfg : Config) : rejectionConfig :=
  let r := cReplyRejection cfg in
  mkRejectionConfig (rrUnknownRecipients r) (rrDefaultMessage r) (rrDomains r)
    ((λ x, (rrAddress x, rrMessage x)) <$> rrRecipients r).

#[local] Abbreviation Validate := (Config.Validate ToASCII scaled cwd).

(** The numbers of the configuration are Go integers. *)
Definition server_in64 (s : Server) : Prop :=
  in64 (sMaxQueueMessages s) ∧ in64 (sMaxQueueBytes s) ∧ in64 (sMaxQueueMessagesPerUser s) ∧
  in64 (sMaxQueueBytesPerUser s) ∧ in64 (sMaxSpoolBytes s) ∧ in64 (sSpoolEmergencyBytes s) ∧
  in64 (sMinFreeDiskBytes s).

Lemma dataWorkerMemory_val m : 0 < m ≤ limMessageBytes →
  dataWorkerMemory m = Some (m * DataMemoryCopies + DataMemoryOverhead).
Proof.
  intros Hm. change limMessageBytes with 66961792 in Hm. unfold dataWorkerMemory.
  change ((MaxInt64 - DataMemoryOverhead) ÷ DataMemoryCopies) with 1152921504606699903.
  rewrite (proj2 (Z.leb_gt m 0)), (proj2 (Z.ltb_ge 1152921504606699903 m)) by lia. cbn [orb].
  change DataMemoryCopies with 8. change DataMemoryOverhead with 1176576.
  rewrite (wrap64_id (m * 8)) by lia64. by rewrite wrap64_id by lia64.
Qed.

(** The memory of all data workers together fits the budget. *)
Lemma dataWorkers_fit m : 0 < m ≤ limMessageBytes →
  1 ≤ dataWorkerCount m ≤ MaxDataWorkers ∧
  dataWorkerCount m * (m * DataMemoryCopies + DataMemoryOverhead) ≤ DataMemoryBudget.
Proof.
  intros Hm. unfold dataWorkerCount. rewrite dataWorkerMemory_val by done.
  change limMessageBytes with 66961792 in Hm. change DataMemoryCopies with 8. change DataMemoryOverhead with 1176576.
  change DataMemoryBudget with 536870912. change MaxDataWorkers with 8. set (p := m * 8 + 1176576).
  rewrite Z.quot_div_nonneg by lia. pose proof (Z.mul_div_le 536870912 p) as Hd.
  assert (Hq : 1 ≤ 536870912 / p) by (apply Z.div_le_lower_bound; lia).
  rewrite (proj2 (Z.ltb_ge (536870912 / p) 1)) by lia. split; [lia|]. nia.
Qed.

(** C35: An accepted configuration fits the parts it configures.  The queue opens with
    its limits, which satisfy what capacity accounting assumes; the data workers
    together stay within the memory budget for messages of the largest size; no
    submission has more recipients than an envelope can hold and no message more
    attempts than its metadata can count; the delivery limits are positive and the
    attempt slots cover the connections; and a deployment that requires TLS gets a
    policy that requires it, checks certificates and never falls back to plain text. *)
Theorem configured_bounds cfg c orderIPs orderMX sign :
  Validate cfg = Ok c → server_in64 (cServer c) →
  let s := newServerConfig c in
  let d := newDelivererConfig orderIPs orderMX sign c in
  limits_ok (queueLimits c) ∧ limitsError (queueLimits c) = None ∧
  1 ≤ DataWorkers s ≤ MaxDataWorkers ∧
  DataWorkers s * (MaxMessageBytes s * DataMemoryCopies + DataMemoryOverhead) ≤ DataMemoryBudget ∧
  1 ≤ AuthWorkers s ≤ MaxAuthWorkers ∧ 1 ≤ MaxRecipients s ≤ maxEnvelopeRecipients ∧
  1 ≤ MaxAttempts d < maxEnvelopeAttempts ∧ 1 ≤ userLimit d ∧
  1 ≤ domainLimit d ≤ vGlobalConcurrency (cDelivery c) ∧ vGlobalConcurrency (cDelivery c) ≤ attemptLimit c ∧
  (vTLSMode (cDelivery c) = "required" →
    tlsPolicy (outbound d) = mkTLS true false false).
Proof.
  intros Hv%Validate_inv Hr. cbn zeta.
  destruct (server_bounds _ (va_limits _ _ _ _ _ Hv)) as (Hm & Hrc & _ & _ & _ & _ & _ & Ha).
  destruct (delivery_bounds _ _ (va_delivery _ _ _ _ _ Hv)) as (Hat & Hu & Hdo & Hg & _ & _ & _).
  pose proof (va_queue _ _ _ _ _ Hv) as Hq. unfold validateQueueLimits in Hq. res_inv Hq. zbool.
  destruct (validated_times _ _ _ _ _ Hv) as [_ _ _ _ _ _ _ _ _ Hdead Hcorrupt].
  destruct (dataWorkers_fit (sMaxMessageBytes (cServer c)) Hm) as [Hw Hw'].
  cbn [newServerConfig newDelivererConfig MaxAttempts userLimit domainLimit DataWorkers MaxMessageBytes AuthWorkers
       MaxRecipients outbound tlsPolicy]. unfold positive_or, attemptLimit.
  rewrite (proj2 (Z.leb_gt (sAuthWorkers (cServer c)) 0)), (proj2 (Z.leb_gt (vUserConcurrency (cDelivery c)) 0)) by lia.
  destruct Hr as (Hi1 & Hi2 & Hi3 & Hi4 & Hi5 & Hi6 & Hi7). unfold in64 in *.
  assert (MinimumSpoolEmergencyBytes = 16777216 ∧ MaxDeliveryAttempts = 100 ∧ maxEnvelopeAttempts = 1048576
    ∧ limRecipients = 1000 ∧ maxEnvelopeRecipients = 1000) as (E1 & E2 & E3 & E4 & E5) by done.
  split_and!; try lia.
  - split; cbn; lia.
  - unfold limitsError. cbn [queueLimits MaxMessages Capacity.MaxBytes MaxMessagesPerUser MaxBytesPerUser MaxSpoolBytes
      SpoolEmergencyBytes MinFreeDisk DeadRetention CorruptRetention].
    repeat match goal with |- context [?x <? 0] => rewrite (proj2 (Z.ltb_ge x 0)) by lia end. cbn [orb].
    rewrite (proj2 (Z.ltb_ge (sSpoolEmergencyBytes (cServer c)) _)), (proj2 (Z.leb_gt (sMaxSpoolBytes (cServer c)) _)) by lia.
    cbn [orb]. by rewrite andb_false_r.
  - intros Hmode. unfold effectiveTLS, InsecureTLSAllowed, PlaintextAllowed. rewrite Hmode. reflexivity.
Qed.

Lemma nominal_range i m a : 0 < i ≤ m → i ≤ nominal i m a ≤ m.
Proof.
  intros Hi. unfold nominal. assert (1 ≤ 2 ^ Z.max 0 (a - 1)) by (apply Z.lt_pred_le, Z.pow_pos_nonneg; lia). nia.
Qed.

(** Retries under an accepted configuration.  Whatever the number of attempts so
    far, the delay before the next one is positive, within a tenth of the initial
    delay doubled for every attempt, and at most the configured maximum, itself at
    most a week; the next attempt is set within the message's lifetime, at most
    thirty days after it was accepted, and nothing overflows on the way. *)
Theorem configured_retries cfg c orderIPs orderMX sign w e :
  Validate cfg = Ok c → (∀ s, 0 < s → 0 ≤ draw w s < s) →
  let d := newDelivererConfig orderIPs orderMX sign c in
  let n := nominal (initialDelay d) (maximumDelay d) (Attempts e) in
  let b := backoff (initialDelay d) (maximumDelay d) (draw w) (Attempts e) in
  0 < b ≤ MaxRetryDelay ∧ n - n ÷ 10 ≤ b ≤ n + n ÷ 10 + 1 ∧ in64 (n + n ÷ 10 + 1) ∧
  retryAt d w e ≤ Created e + MaxDeliveryLifetime ∧
  (now w 3 + b ≤ retryAt d w e ∨ retryAt d w e = Created e + lifetime d).
Proof.
  intros Hv%Validate_inv Hdraw. cbn zeta. destruct (validated_times _ _ _ _ _ Hv) as [Hi Hm Hl Hd _ _ _ _ _ _ _].
  unfold newDelivererConfig, retryAt. cbn [initialDelay maximumDelay lifetime].
  set (i := Duration scaled (vInitialRetryDelay (cDelivery c))) in *.
  set (m := Duration scaled (vMaximumRetryDelay (cDelivery c))) in *.
  assert (E1 : MaxRetryDelay = 604800000000000) by done. assert (E2 : MaxDeliveryLifetime = 2592000000000000) by done.
  destruct (backoff_range i m (draw w) (Attempts e) Hi) as [Hr Hu]; [lia64|done|]. cbn zeta in *.
  assert (Hn : i ≤ nominal i m (Attempts e) ≤ m) by (by apply nominal_range).
  set (n := nominal i m (Attempts e)) in *. set (b := backoff i m (draw w) (Attempts e)) in *.
  pose proof (Z.quot_div_nonneg n 10 ltac:(lia) ltac:(lia)) as Eq.
  pose proof (Z.mul_div_le n 10 ltac:(lia)) as Hq.
  split_and!; try lia; try lia64.
  - destruct (Z.ltb_spec (Created e + Duration scaled (vMaximumLifetime (cDelivery c))) (now w 3 + b)); lia.
  - destruct (Z.ltb_spec (Created e + Duration scaled (vMaximumLifetime (cDelivery c))) (now w 3 + b)); lia.
Qed.

(** ** The rejection listener's answers *)

(** A reply text: one line of printable ASCII. *)
Definition reply_text (m : string) : Prop := m ≠ "" ∧ str_len m ≤ 256 ∧ ∀ x, x ∈ str_list m → 32 ≤ byte_val x ≤ 126.

Lemma validateResponseMessage_ok name m : validateResponseMessage name m = Ok tt → reply_text m.
Proof.
  unfold validateResponseMessage. intros Hm. res_inv Hm. zbool. split_and!; [done|done|].
  match goal with Hf : forallb _ _ = true |- _ => rewrite forallb_forall in Hf; intros x Hx%list_elem_of_In; apply Hf in Hx end.
  unfold between in Hx. lia.
Qed.

Lemma validateReplyDomains_ok seen l seen' l' : validateReplyDomains seen l = Ok (seen', l') →
  (∀ d, d ∈ seen' ↔ d ∈ seen ∨ d ∈ l') ∧ ∀ d, d ∈ l' → ToLowerText d = d.
Proof.
  revert seen seen' l'. induction l as [|x l IH]; intros seen seen' l'; cbn [validateReplyDomains].
  { intros [= <- <-]. split; [set_solver|]. by intros d ?%elem_of_nil. }
  intros Hv. destruct (validateDomain _ x) as [[]|] eqn:Ed; [|done]. cbn [res_bind] in Hv.
  destruct (bool_decide _); [done|]. destruct (validateReplyDomains _ l) as [[s r]|] eqn:Er; [|done].
  cbn [res_bind] in Hv. injection Hv as <- <-. apply IH in Er as [Hs Hl]. split.
  - intros d. rewrite Hs. set_solver.
  - intros d [-> |Hd]%elem_of_cons; [|by apply Hl]. apply validateDomain_good, good_ascii in Ed.
    rewrite (lower_ascii x Ed), lower_ascii, ToLower_idem; [done|]. by apply ascii_lower.
Qed.

Lemma validateReplyRecipients_ok domains seen l l' : validateReplyRecipients ToASCII domains seen l = Ok l' →
  Forall (λ r, ToLowerText (rrAddress r) ∉ seen ∧ (∃ d, DomainOf ToASCII (rrAddress r) = Ok d ∧ d ∈ domains) ∧
               (rrMessage r ≠ "" → reply_text (rrMessage r))) l' ∧
  NoDup (ToLowerText ∘ rrAddress <$> l').
Proof.
  revert seen l'. induction l as [|x l IH]; intros seen l'; cbn [validateReplyRecipients].
  { intros [= <-]. split; constructor. }
  destruct (Address_of ToASCII (rrAddress x)) as [a|]; [|done]. cbn [res_bind].
  destruct (DomainOf ToASCII a) as [d|] eqn:Ed; [|done]. cbn [res_bind].
  destruct (bool_decide (d ∈ domains)) eqn:Ein; [|done]. cbn [negb].
  destruct (if bool_decide (rrMessage x = "") then _ else _) as [[]|] eqn:Em; [|done]. cbn [res_bind].
  destruct (bool_decide (ToLowerText a ∈ seen)) eqn:Es; [done|].
  destruct (validateReplyRecipients _ _ _ l) as [r|] eqn:Er; [|done]. cbn [res_bind]. intros [= <-].
  apply IH in Er as [Hf Hn]. zbool. rewrite fmap_cons. split.
  - constructor.
    + split_and!; [done|eauto|]. cbn [rrMessage]. intros Hne. rewrite bool_decide_eq_false_2 in Em by done.
      by eapply validateResponseMessage_ok.
    + eapply Forall_impl; [exact Hf|]. intros y (Hy & ? & ?). split_and!; [set_solver|done..].
  - constructor; [|done]. intros (y & Hy & Hin)%list_elem_of_fmap. rewrite Forall_forall in Hf.
    destruct (Hf y Hin) as [Hni _]. apply Hni. cbn in Hy. rewrite <-Hy. set_solver.
Qed.

(** What the validation of the listener's settings gives. *)
Lemma validateReplyRejection_ok r r' : validateReplyRejection ToASCII scaled r = Ok r' →
  reply_text (rrDefaultMessage r') ∧ ∃ domains,
    (∀ d, d ∈ domains ↔ d ∈ rrDomains r') ∧ (∀ d, d ∈ rrDomains r' → ToLowerText d = d) ∧
    ∃ l, validateReplyRecipients ToASCII domains ∅ l = Ok (rrRecipients r').
Proof.
  unfold validateReplyRejection. intros Hv. destruct (bool_decide _); [done|]. destruct (_ && _); [done|].
  destruct (validateResponseMessage _ _) as [[]|] eqn:Em; [|done]. cbn [res_bind] in Hv.
  destruct (_ || _); [done|]. do 2 (destruct (validateDuration _ _ _ _); [|done]; cbn [res_bind] in Hv).
  destruct (validateReplyDomains ∅ (rrDomains r)) as [[domains names]|] eqn:Ed; [|done]. cbn [res_bind] in Hv.
  destruct (_ && _); [done|]. destruct (validateReplyRecipients _ _ _ _) as [l'|] eqn:Er; [|done].
  cbn [res_bind] in Hv. injection Hv as <-. cbn. split; [by eapply validateResponseMessage_ok|].
  apply validateReplyDomains_ok in Ed as [Hd Hl]. exists domains. split_and!; [intros d; rewrite Hd; set_solver|done|eauto].
Qed.

(** A listed recipient is told what the operator wrote for it.  In an accepted
    configuration, whoever mails an address of the list (in any letter case, the
    domain resolving alike) is refused with that entry's own message, or the default
    message if it has none; and every such text is one line of printable ASCII, so a
    reply cannot be broken into several. *)
Theorem listed_recipient_answer cfg c r to a :
  Validate cfg = Ok c → r ∈ rrRecipients (cReplyRejection c) →
  Address_of ToASCII to = Ok a → ToLowerText a = ToLowerText (rrAddress r) →
  DomainOf ToASCII a = DomainOf ToASCII (rrAddress r) →
  let text := if bool_decide (rrMessage r = "") then rrDefaultMessage (cReplyRejection c) else rrMessage r in
  rejectionRcpt ToASCII (newRejection (newRejectionConfig c)) to = Err (SMTPError 550 "5.1.1" text) ∧ reply_text text.
Proof.
  intros Hv%Validate_inv Hin Ha Hlow Hdom. cbn zeta.
  destruct (validateReplyRejection_ok _ _ (va_replies _ _ _ _ _ Hv)) as (Hdef & domains & Hds & Hdl & l & Hl).
  apply validateReplyRecipients_ok in Hl as [Hf Hn]. rewrite Forall_forall in Hf.
  destruct (Hf r Hin) as (_ & (d & Hd & Hdin) & Hm). rewrite Hd in Hdom. split.
  - unfold rejectionRcpt, rejectRecipient. rewrite Ha, Hdom.
    assert (Hs : d ∈ srvDomains (newRejection (newRejectionConfig c))).
    { apply (proj2 (srvDomains_spec ToASCII _ _)). exists d. apply Hds in Hdin. split; [done|by apply Hdl]. }
    rewrite (bool_decide_eq_true_2 _ Hs). cbn [negb]. rewrite srvRecipients_spec. unfold configuredMessage.
    assert (Hlast : list_basics.list.last (filter (λ x : string * string, ToLowerText x.1 = ToLowerText a)
                            (rejRecipients (newRejectionConfig c))) = Some (rrAddress r, rrMessage r)).
    { cbn [newRejectionConfig rejRecipients].
      set (L := (λ x, (rrAddress x, rrMessage x)) <$> rrRecipients (cReplyRejection c)).
      assert (Hr : (rrAddress r, rrMessage r) ∈ filter (λ x : string * string, ToLowerText x.1 = ToLowerText a) L).
      { apply list_elem_of_filter. split; [done|]. unfold L. apply list_elem_of_fmap. eauto. }
      destruct (list_basics.list.last _) as [x|] eqn:El; [|apply last_None in El; rewrite El in Hr; by apply elem_of_nil in Hr].
      f_equal. apply last_Some_elem_of, list_elem_of_filter in El as [Hx HxL].
      unfold L in HxL. apply list_elem_of_fmap in HxL as (y & -> & Hy). cbn [fst] in Hx.
      assert (y = r) as ->; [|done]. rewrite Hlow in Hx.
      apply list_elem_of_lookup in Hy as [i Hi], Hin as [j Hj]. assert (i = j) as ->; [|congruence].
      eapply NoDup_lookup; [exact Hn| |]; rewrite list_lookup_fmap; [by rewrite Hi|]. rewrite Hj. cbn. by rewrite Hx. }
    rewrite Hlast. reflexivity.
  - case_bool_decide; [done|by apply Hm].
Qed.
End setup.

(** The limiter of rate.go is the limiter DATA asks. *)
#[export] Instance submissionRates (rnd : QArith_base.Q → QArith_base.Q) : RateLimiter submissionLimiter | 50 := {
  take_rate now username n l := takeRate rnd now username n l
}.

(** ** Samples *)

#[local] Existing Instances plainParser mailtoParser.

Lemma sample_in64 : server_in64 (cServer sampleConfigured).
Proof.
  change (cServer sampleConfigured) with
    (cServer (match Config.Validate sampleIDNA (λ f u d, 0) "/" sampleWritten with Ok c => c | Err _ => Default end)).
  vm_compute. repeat split; discriminate.
Qed.

Lemma configured_bounds_witness :
  DataWorkers (newServerConfig sampleConfigured)
    * (MaxMessageBytes (newServerConfig sampleConfigured) * DataMemoryCopies + DataMemoryOverhead) ≤ DataMemoryBudget ∧
  limitsError (queueLimits (λ f u d, 0) sampleConfigured) = None.
Proof.
  destruct (configured_bounds sampleIDNA (λ f u d, 0) "/" sampleWritten sampleConfigured (λ l, l) (λ l, l) None)
    as (_ & Hl & _ & Hw & _); [exact sampleConfigured_ok|exact sample_in64|]. split; [exact Hw|exact Hl].
Defined.

Lemma configured_retries_witness :
  0 < backoff (initialDelay (newDelivererConfig (λ f u d, 0) (λ l, l) (λ l, l) None sampleConfigured))
        (maximumDelay (newDelivererConfig (λ f u d, 0) (λ l, l) (λ l, l) None sampleConfigured))
        (draw (sampleWorld (sampleNet secondHost))) (Attempts twoRecipients) ≤ MaxRetryDelay.
Proof.
  destruct (configured_retries sampleIDNA (λ f u d, 0) "/" sampleWritten sampleConfigured (λ l, l) (λ l, l) None
    (sampleWorld (sampleNet secondHost)) twoRecipients) as (Hb & _);
    [exact sampleConfigured_ok|intros s Hs; cbn; lia|exact Hb].
Defined.

Definition sampleListed : ReplyRejectionRecipient := mkReplyRecipient "NoReply@example.org" "Nobody reads this".

Lemma sampleListed_in : sampleListed ∈ rrRecipients (cReplyRejection sampleConfigured).
Proof.
  assert (E : rrRecipients (cReplyRejection sampleConfigured) = [sampleListed]) by (vm_compute; reflexivity).
  rewrite E. left.
Qed.

Lemma listed_recipient_answer_witness :
  rejectionRcpt sampleIDNA (newRejection (newRejectionConfig sampleConfigured)) "noreply@Example.ORG"
    = Err (SMTPError 550 "5.1.1" "Nobody reads this").
Proof.
  destruct (listed_recipient_answer sampleIDNA (λ f u d, 0) "/" sampleWritten sampleConfigured sampleListed
    "noreply@Example.ORG" "noreply@Example.ORG") as (Hr & _);
    [exact sampleConfigured_ok|exact sampleListed_in|vm_compute; reflexivity..|exact Hr].
Defined.
